(* ===== verification/_CoqProject ===== *)
-Q . S2P
Prelude.v
Arith.v
Bytes.v
Text.v
Overlay.v
OverlayFacts.v
OverlayMenu.v
Profiles.v
Paths.v
OverlayShare.v
OverlayShareFacts.v
OverlayShareTheorems.v
Preferences.v
PreferencesFacts.v
PreferencesTheorems.v
Catalog.v
CatalogFacts.v
CatalogHistory.v
CatalogResolve.v
Replay.v
Menu.v
ReplayRing.v
ReplayAudio.v
AudioMix.v
AudioMixFacts.v
AudioMixTheorems.v
StoreDisk.v
StoreLabels.v
StoreLabelsFacts.v
Store.v
StoreFacts.v
StoreSafety.v
StoreQuota.v
StoreSave.v
StoreRename.v
CaptureProtocol.v
CaptureProtocolFacts.v
CaptureProtocolCanonical.v
CaptureModel.v
CaptureModelFacts.v
CaptureLifecycle.v
PacketSource.v
Spool.v
SpoolWorker.v
SpoolFacts.v
SpoolTheorems.v
SpoolRecovery.v
SpoolAdmission.v
SpoolReader.v
SpoolReaderFacts.v
SpoolClips.v
Encoder.v
Pipeline.v
PipelineFacts.v
PipelineTheorems.v
PipelineRuns.v
Runtime.v
RuntimeFacts.v
RuntimeTheorems.v
RuntimeSaves.v
RuntimeRuns.v
RuntimeHistory.v
Control.v
ControlFacts.v
ControlTheorems.v
Hotkeys.v
HelperSession.v
HotkeysTheorems.v
HelperTheorems.v
Owner.v
SampleClip.v
Mp4.v
Mp4Facts.v
Mp4Total.v
Matroska.v
MatroskaFacts.v
MatroskaFiles.v
MatroskaStream.v
MatroskaTotal.v
H264.v
