(* ===== verification/Prelude.v ===== *)
(** Redunar: a verification library for the replay recorder's core.

    * The program

    Redunar (the Rust workspace under [src/crates/]) shows an overlay over games
    and keeps the last minutes of play as a clip that can be saved.  A capture
    layer inside the game process sends datagrams to the daemon; the daemon
    decides which game is running, runs a recorder through its phases, keeps
    encoded packets in bounded buffers, and muxes a snapshot of them to a file.

<<
    game process --datagrams--> capture protocol --> capture session
                                                        |
    game catalog --resolution--> profile --> replay lifecycle and budget
                                                        |
    encoder --batches--> packet flow --> replay ring  audio buffer
                                             |            |
                              packet source (snapshot, spool)
                                             |
                                        MP4 writer --> file
>>

    * Files

    - [Prelude.v] (this file): results of Rust code, machine integers, the
      state-and-error monad, tactics and the hint database [rust].
    - [Bytes.v]: byte strings, big- and little-endian integers, slices.
    - [Profiles.v]: crates/redunar-core/src/game.rs.  Match scores, resolution
      of a process against the catalog ([resolve_game]), overlay value types,
      profiles and their inheritance ([profile_resolve]).
    - [Replay.v]: crates/redunar-daemon/src/replay.rs.  The recorder's phases
      and gates, and the storage budget of a setting.
    - [ReplayRing.v]: replay_ring.rs.  The packet ring: [push] with its eviction
      loops, [snapshot_for_duration], [reset_epoch].
    - [ReplayAudio.v]: replay_audio.rs.  The audio timeline and its snapshots.
    - [CaptureProtocol.v]: crates/redunar-capture/src/lib.rs and
      gpu_identity.rs, encoder and decoder; [CaptureProtocolFacts.v] and
      [CaptureProtocolCanonical.v] hold the theorems.
    - [PacketSource.v]: replay_packet_source.rs.  The interface between muxers
      and packet sources is the class [ReplayPacketSource], its laws the class
      [ReplayPacketSourceSpec], discharged for snapshots in memory.
    - [Encoder.v]: replay_encoder.rs.  Stream descriptions, packet checks,
      DMA-BUF frames, batches, and the packet flow that owns the ring.
    - [H264.v]: replay_h264.rs.  Annex B streams, parameter sets, avcC.
    - [Mp4.v]: replay_mp4.rs.  [Mp4Facts.v] reads the files back,
      [Mp4Total.v] shows that the writers end.
    - [SampleClip.v]: the small clip the muxers' theorems are applied to.
    - [Matroska.v]: replay_matroska.rs.  [MatroskaFacts.v] has a reader of EBML
      elements and the headers, [MatroskaFiles.v] the two ring writers,
      [MatroskaStream.v] the streaming writer, [MatroskaTotal.v] termination.
    - [Arith.v]: IEEE doubles (through the specification floats of the Standard
      Library) and the standard library's stable sort.
    - [Text.v]: the string functions of Rust's standard library that the parsers
      use (splitting, prefixes, numbers in text, UTF-8).
    - [CaptureModel.v]: crates/redunar-daemon/src/capture.rs, the session model
      that accepts or refuses messages; [CaptureModelFacts.v] its theorems.
    - [CaptureLifecycle.v]: capture_lifecycle.rs, when a launch is kept, finished,
      failed or released.
    - [Spool.v]: replay_spool.rs, the packets on disk: segments, rotation, commit,
      limits, snapshots.  The directory is a map from names to files, and every
      system call on it may fail ([Disk]).  [SpoolWorker.v] has the worker's
      command loop, its counters, and the opening and recovery of a directory.
      [SpoolFacts.v] states what the directory holds ([spool_inv]) against an
      abstract history of groups of packets; [SpoolTheorems.v] and
      [SpoolRecovery.v] hold the theorems.
    - [SpoolAdmission.v]: [try_submit] and the atomics, one operation at a time.
    - [SpoolReader.v]: replay_spool_reader.rs, the scan of pinned segments and the
      packet source over it; [SpoolReaderFacts.v] discharges the source's laws,
      [SpoolClips.v] composes worker, reader and ring.
    - [Pipeline.v]: replay_pipeline.rs, the owner of encoder, flow, spool and
      audio; [PipelineFacts.v] and [PipelineTheorems.v] its invariants, with the
      encoder and the spool as type classes, [PipelineRuns.v] the theorems.
    - [Overlay.v]: crates/redunar-capture/src/overlay.rs, the two telemetry blocks
      that the overlay in the game reads; [OverlayFacts.v] and [OverlayMenu.v]
      their layouts and codecs.  [OverlayShare.v]: the file that holds them, its
      writers in capture_session.rs and its reader in the Vulkan layer, with
      [OverlayShareFacts.v] and [OverlayShareTheorems.v].
    - [Preferences.v]: replay_preferences.rs, the record, the text file with its
      eight versions and the setters; [PreferencesFacts.v],
      [PreferencesTheorems.v].
    - [Catalog.v]: game_catalog.rs, the checks, the text file with its twelve
      versions, the operations and the resolution of a process, on the paths of
      [Paths.v]; [CatalogFacts.v] has the text of each version,
      [CatalogHistory.v] the catalog through any sequence of operations,
      [CatalogResolve.v] the game of a process.
    - [Runtime.v]: replay_runtime.rs, the recorder that the daemon talks to: the
      pipeline, the audio timelines, the status and the save threads.
      [RuntimeFacts.v], [RuntimeTheorems.v], [RuntimeSaves.v] and [RuntimeRuns.v]
      hold its invariant call by call, [RuntimeHistory.v] the theorems.
    - [Menu.v]: replay_menu.rs, the menu's state and the record it publishes.
    - [Control.v]: replay_control.rs and the methods of game_session.rs that its
      commands call; [ControlFacts.v] and [ControlTheorems.v].  [Prelude.v]
      has the rules for stateful code that keeps an invariant.
    - [Hotkeys.v]: crates/redunar-hotkeys, shortcuts, keyboards, mice and motion;
      [HelperSession.v]: its event loop.  [HotkeysTheorems.v] and
      [HelperTheorems.v] hold the theorems, the latter against an interface for
      the daemon ([MenuOwner]) that [Owner.v] discharges with [Control.v].
    - [AudioMix.v]: replay_audio_mix.rs and the checks of the Opus wrapper, with
      the library as the class [OpusLibrary]; [AudioMixFacts.v] and
      [AudioMixTheorems.v] compare it with a reference mix.
    - [StoreDisk.v]: the directory of the clip store, whose calls may fail.
      [StoreLabels.v]: replay_clip_labels.rs, with [StoreLabelsFacts.v].
      [Store.v]: replay_store.rs, trash.rs, thumbnails.rs and named_export.rs; a
      locked section of the code is one program.  [StoreFacts.v] has the rules
      for programs on the directory and what the scan finds, [StoreSafety.v]
      what is never touched, [StoreQuota.v] and [StoreSave.v] the quota and the
      commit of a clip, [StoreRename.v] renaming on a machine that may stop.

    * How the code is read

    A Rust function returning [Result<A, E>] is a function to [outcome E A],
    whose [Panic] stands for every panic (a slice index out of range, a failed
    [expect], checked arithmetic).  A method on [&mut self] takes the record and
    returns the new one; when it can fail, also on errors, the state comes
    beside the outcome ([st]).  Integers are [Z] at their Rust width: saturating
    and checked operators are [sat_add], [checked_add] and so on with the
    type's maximum, and invariants say which fields are in range.  Bytes are
    [list Z] with [is_bytes].  Loops that are not structural carry fuel: the
    ring's loops use the number of packets plus one ([ring_fuel]) and answer
    [None] when it is spent; the theorems show that they never do.  The
    streaming writer takes fuel for its source loop; one more than the packets
    in the source suffices ([streaming_writer_total]).

    Code outside the repository is a parameter: the destination of a muxer is
    any function that accepts or refuses a chunk ([destination]), the packet
    source any instance of the class, the cancel flag any sequence of loads.

    * What the theorems show

    - Ring and flow: [push_correct], [snapshot_correct] and [ring_reachable]
      relate the eviction loops to an abstract description (the longest suffix
      that fits and starts at a keyframe) and keep the counters exact;
      [flow_invariant] and [push_batch_correct] show that a failed or reset flow
      never leaks packets of an older epoch.
    - Wire protocol: encoding and decoding are inverse ([encode_decode_roundtrip],
      [decode_message_canonical], with the one exception
      [decode_hello_ignores_reserved]), and hostile datagrams are refused, never
      a panic ([decode_message_no_panic]).
    - MP4: a reference reader that knows only the format finds in every file the
      packets of the clip, cut into the fragments the code promises, with sample
      tables that point at the payload ([fragment_correct] and the three
      [_file_correct] theorems); the writers end ([mp4_writers_total],
      [streaming_writer_total]).
    - H.264: the packet checks accept exactly the framed units
      ([validate_h264_packet_iff]), Annex B splitting is inverse to framing, and
      what is built from a stream passes the checks of the next stage.
    - Lifecycle and profiles: the phases refine an automaton
      ([lifecycle_refines_automaton]), recording needs its gates
      ([lifecycle_invariant]), a game is activated only for a strict, unique best
      match ([resolve_automatic_iff]), whatever the catalog's order.
    - Matroska: a reader that knows only EBML finds the clip's blocks, in time
      order, in clusters of at most 30 seconds whose measured sizes are exact
      (the three [matroska_..._file_correct] theorems); sizes never collide with
      the reserved unknown size ([ebml_numbers_roundtrip]); the writers end
      ([matroska_writers_total]).
    - Capture session: whatever arrives, the session stays well formed
      ([capture_session_safe]), every frame is counted once as received or
      dropped ([frames_accounted]), and a refused message changes nothing but the
      rejection counter, with one exception ([capture_error_exact]).
    - Capture lifecycle: a launch is released only when it is over
      ([release_only_when_over]) and the exit grace is exact ([exit_grace_exact]).
    - Spool: whatever system calls fail, the directory, the index and the open
      segment refine an abstract history ([spool_refines_history]); a snapshot
      read back is the longest clip of the history that fits, and reading it
      fails only with the trouble of one of its calls or when no clip fits
      ([saved_clip_correct]), the same the ring in memory would hold
      ([scan_matches_ring], [scan_total]); a directory opened again holds every
      committed segment ([reopen_recovers]).  The queue is bounded, its counters
      are exact, and a failing worker can always stop, whatever the memory
      orderings let the loads see ([admission_exact], [failing_worker_finishes]);
      with the Release and Acquire orderings of the source an accepted packet can
      be dropped with the queue ([lossy_state_reachable]).  [shutdown] borrows the spool mutably,
      so no submission overlaps it; the model has the worker's own failure.
    - Pipeline: every frame handed to the encoder comes back exactly once
      ([inputs_returned_once]); the spool gets every packet of an epoch, in
      order, or is given up ([spool_gets_every_packet],
      [disk_history_of_pipeline]); a failed call closes everything
      ([submit_frame_correct]).
    - Overlay telemetry: the decoders accept exactly the layouts of valid records
      ([menu_decode_exact]; [hardware_decode_exact] up to bytes that are not
      read), and read back what the encoders write ([overlay_blocks_roundtrip]).
    - Preferences: each version's file reads back ([preferences_roundtrip]),
      whatever loads has an absolute directory, distinct printable shortcuts and
      a level in range ([load_valid]), setters change their fields and
      nothing else ([setting_exact]) and keep the file loadable
      ([preferences_stay_loadable]), unless the save directory is too long
      ([long_parent_locks_preferences]).
    - The shared file: whatever writes the disk refuses, a reader finds the record
      of one state or nothing between two of them ([shared_file_refines]); a
      single write is one step, so a reader in the middle of one is not covered.
    - Runtime: its invariant through any calls and threads, as long as no pipeline
      is started while a shutdown waits ([recorder_safe]; the one thread of the
      daemon that starts pipelines shuts down itself, and
      [start_in_shutdown_saves_twice] shows what would happen otherwise), one
      save at a time that always settles ([one_save_at_a_time], [save_settles]),
      exports that come back once ([exports_returned_once]), and a cancelled
      save that stops the recorder ([cancelled_save_stops_recorder]).
    - Menu, control socket and hotkey helper: clicks ([click_exact]), the record
      that is published ([menu_telemetry_accepted]), answers that say what the
      game shows ([reply_exact]), connections that end ([connection_safe]); the
      helper's commands parse to what it means ([hotkey_commands_accepted]),
      mice are owned only while the menu is open ([mice_never_stranded]), and
      helper and daemon agree on the menu ([helper_follows_owner]) up to one
      race, for any helper and daemon in it ([closing_toggle_reopens]).
    - Audio mix: the loop ends ([mix_total]) and its result is the reference mix
      of the two tracks ([mix_exact]).
    - Clip store: files whose name has not the form of a clip's and that have no
      label stay as they are, whatever is called and fails
      ([foreign_files_untouched]; the form is wider than the names that are
      generated, as [quota_evicts_other_names] shows); a recording is evicted only
      after the new clip has its name, oldest first and no more than the limit
      asks for ([save_commit_safe]); a clip survives a crash while it is renamed,
      and so does a file that has the new name ([rename_survives_crash]); the registry of labels reads back
      ([labels_roundtrip]).
    - Game catalog: a file of each of the twelve versions reads back as the
      catalog with the defaults of the fields that came later
      ([catalog_roundtrip]); whatever is called and fails, it stays loadable, its
      identifiers and executables unique, and identifiers are given once
      ([catalog_history]); a game that was added by its executable is the one a
      process that runs it resolves to ([added_game_resolves]).

    * What is not modelled

    Threads, sockets, files, GPU and audio drivers, the capture layers that run
    inside games (Vulkan and OpenGL FFI), the Tauri application, and the vendored
    glib.  Of [replay_encoder.rs] the probing of /dev/dri and the driver traits
    are left out; of the audio crate only its packet record is used.
    Of [replay_spool.rs] the threads, the assembly job that hands the clip to the
    store, the counters that are only reported ([dropped_queue_full]) and the
    permissions of the directory are left out.  The scan of a segment carries the
    file's length as fuel, which is enough because every record is longer than a
    byte ([scan_total]).
    Components of the daemon that are not modelled: the life of a game session and
    of its socket threads, the session history; of the platform crate launch options and the Steam file
    parser.

*)
From stdpp Require Export base list.
From Stdlib Require Export ZArith Lia.
Local Open Scope Z_scope.

(** * Results of Rust code

    A Rust function that returns [Result<A, E>] and indexes slices has three
    outcomes: a value, an error value, or a panic (an out-of-range index, a
    failed [expect], an overflowing operator). *)
Inductive outcome (E A : Type) : Type :=
| Ok (a : A)
| Err (e : E)
| Panic.
Arguments Ok {E A} a.
Arguments Err {E A} e.
Arguments Panic {E A}.

#[global] Instance outcome_ret E : MRet (outcome E) := fun A a => Ok a.
#[global] Instance outcome_bind E : MBind (outcome E) :=
  fun A B k m =>
    match m with
    | Ok a => k a
    | Err e => Err e
    | Panic => Panic
    end.

(** [Option::ok_or] and [Option::expect]. *)
Definition ok_or {E A} (o : option A) (e : E) : outcome E A :=
  match o with Some a => Ok a | None => Err e end.
Definition expect {E A} (o : option A) : outcome E A :=
  match o with Some a => Ok a | None => Panic end.
(** [Result::map_err]. *)
Definition map_err {E F A} (f : E -> F) (m : outcome E A) : outcome F A :=
  match m with Ok a => Ok a | Err e => Err (f e) | Panic => Panic end.

Definition is_Ok {E A} (m : outcome E A) : Prop := exists a, m = Ok a.
Definition no_panic {E A} (m : outcome E A) : Prop := m <> Panic.

(** Run a fallible body over a list, left to right, as a [for] loop does. *)
Fixpoint for_each {E A S} (body : S -> A -> outcome E S) (l : list A) (s : S) : outcome E S :=
  match l with
  | [] => Ok s
  | x :: l => s ← body s x; for_each body l s
  end.

(** Code that also updates a state as it goes (a writer, a packet source): the
    state of a failed call is kept, as a Rust caller would find it. *)
Definition st (S E A : Type) : Type := S -> S * outcome E A.
#[global] Instance st_ret S E : MRet (st S E) := fun A a s => (s, Ok a).
#[global] Instance st_bind S E : MBind (st S E) :=
  fun A B k m s =>
    match m s with
    | (s', Ok a) => k a s'
    | (s', Err e) => (s', Err e)
    | (s', Panic) => (s', Panic)
    end.
Definition lift {S E A} (m : outcome E A) : st S E A := fun s => (s, m).

(** * Machine integers

    An unsigned integer of width w is a [Z] between 0 and its [_MAX]; the
    saturating and checked operators are those of the Rust standard library. *)
Definition U8_MAX : Z := 255.
Definition U16_MAX : Z := 65535.
Definition U32_MAX : Z := 4294967295.
Definition U64_MAX : Z := 18446744073709551615.
Definition USIZE_MAX : Z := U64_MAX.
Definition I16_MAX : Z := 32767.
Definition I32_MAX : Z := 2147483647.

Definition in_range (m x : Z) : Prop := 0 <= x <= m.

Definition sat_add (m a b : Z) : Z := Z.min m (a + b).
Definition sat_sub (a b : Z) : Z := Z.max 0 (a - b).
Definition sat_mul (m a b : Z) : Z := Z.min m (a * b).
Definition checked_add (m a b : Z) : option Z := if a + b <=? m then Some (a + b) else None.
Definition checked_sub (a b : Z) : option Z := if b <=? a then Some (a - b) else None.
Definition checked_mul (m a b : Z) : option Z := if a * b <=? m then Some (a * b) else None.
Definition try_from (m x : Z) : option Z := if x <=? m then Some x else None.
Definition unwrap_or {A} (o : option A) (d : A) : A := default d o.
Definition div_ceil (a b : Z) : Z := if 0 <? a mod b then a / b + 1 else a / b.
Definition is_multiple_of (a b : Z) : bool := a mod b =? 0.
(** [slice.len()] as a [usize]. *)
Definition zlen {A} (l : list A) : Z := Z.of_nat (length l).

(** * Tactics *)
(** Split every conjunction of the goal. *)
Ltac splits := repeat match goal with |- _ /\ _ => split end.

(** Case on the test of the first [if] (boolean) of the goal or of [H]. *)
Ltac case_if_as E :=
  match goal with
  | |- context [if ?b then _ else _] => destruct b eqn:E
  end.
Ltac case_if_in H E :=
  match type of H with
  | context [if ?b then _ else _] => destruct b eqn:E
  end.

(** * Lemmas on outcomes *)
Lemma bind_Ok {E A B} (m : outcome E A) (k : A -> outcome E B) b :
  (m ≫= k) = Ok b <-> exists a, m = Ok a /\ k a = Ok b.
Proof. destruct m; cbn; naive_solver. Qed.

Lemma bind_ret {E A B} (a : A) (k : A -> outcome E B) : (Ok a ≫= k) = k a.
Proof. done. Qed.

Lemma bind_ext {E A B} (m : outcome E A) (k k' : A -> outcome E B) :
  (forall a, k a = k' a) -> (m ≫= k) = (m ≫= k').
Proof. intros H. destruct m; cbn; auto. Qed.

Lemma bind_assoc {E A B C} (m : outcome E A) (k : A -> outcome E B) (k' : B -> outcome E C) :
  ((m ≫= k) ≫= k') = (m ≫= fun a => k a ≫= k').
Proof. by destruct m. Qed.

Lemma bind_no_panic {E A B} (m : outcome E A) (k : A -> outcome E B) :
  no_panic m -> (forall a, m = Ok a -> no_panic (k a)) -> no_panic (m ≫= k).
Proof. destruct m; cbn; unfold no_panic; naive_solver. Qed.

Lemma ok_or_Ok {E A} (o : option A) (e : E) a : ok_or o e = Ok a <-> o = Some a.
Proof. destruct o; cbn; naive_solver. Qed.

Lemma ok_or_no_panic {E A} (o : option A) (e : E) : no_panic (ok_or o e).
Proof. by destruct o. Qed.

Lemma map_err_Ok {E F A} (f : E -> F) (m : outcome E A) a :
  map_err f m = Ok a <-> m = Ok a.
Proof. destruct m; cbn; naive_solver. Qed.

Lemma map_err_no_panic {E F A} (f : E -> F) (m : outcome E A) :
  no_panic m -> no_panic (map_err f m).
Proof. destruct m; cbn; unfold no_panic; naive_solver. Qed.

Lemma for_each_app {E A S} (body : S -> A -> outcome E S) l1 l2 s :
  for_each body (l1 ++ l2) s = for_each body l1 s ≫= for_each body l2.
Proof.
  revert s. induction l1 as [|x l1 IH]; intros s; cbn; [done|].
  destruct (body s x); cbn; [apply IH|done|done].
Qed.

Lemma for_each_inv {E A S} (body : S -> A -> outcome E S) (P : S -> Prop) l s s' :
  (forall t x t', x ∈ l -> P t -> body t x = Ok t' -> P t') ->
  P s -> for_each body l s = Ok s' -> P s'.
Proof.
  revert s. induction l as [|x l IH]; intros s Hstep Hs; cbn.
  - by intros [= <-].
  - rewrite bind_Ok. intros (t & Ht & Hrest).
    apply (IH t); [|by apply (Hstep s x t); [left|..]|done].
    intros t1 y t2 Hy. apply Hstep. by right.
Qed.

Lemma st_bind_Ok {S E A B} (m : st S E A) (k : A -> st S E B) s s' b :
  (m ≫= k) s = (s', Ok b) <-> exists s1 a, m s = (s1, Ok a) /\ k a s1 = (s', Ok b).
Proof.
  unfold mbind, st_bind. destruct (m s) as [s1 [a|e|]]; split; try (by intros (? & ? & ? & ?)); try done.
  - intros H. by exists s1, a.
  - intros (? & ? & [= <- <-] & H). exact H.
Qed.

Lemma lift_Ok {S E A} (m : outcome E A) (s s' : S) a :
  lift m s = (s', Ok a) <-> s' = s /\ m = Ok a.
Proof. unfold lift. naive_solver. Qed.

(** Invert every successful bind of a hypothesis. *)
Ltac inv_bind H :=
  let a := fresh "v" in
  let E := fresh "E" in
  apply bind_Ok in H as (a & E & H).

(** * Lemmas on machine integers *)
Lemma checked_add_Some m a b c : checked_add m a b = Some c <-> a + b <= m /\ c = a + b.
Proof. unfold checked_add. destruct (Z.leb_spec (a + b) m); naive_solver lia. Qed.

Lemma checked_add_None m a b : checked_add m a b = None <-> m < a + b.
Proof. unfold checked_add. destruct (Z.leb_spec (a + b) m); naive_solver lia. Qed.

Lemma checked_sub_Some a b c : checked_sub a b = Some c <-> b <= a /\ c = a - b.
Proof. unfold checked_sub. destruct (Z.leb_spec b a); naive_solver lia. Qed.

Lemma checked_mul_Some m a b c : checked_mul m a b = Some c <-> a * b <= m /\ c = a * b.
Proof. unfold checked_mul. destruct (Z.leb_spec (a * b) m); naive_solver lia. Qed.

Lemma try_from_Some m x y : try_from m x = Some y <-> x <= m /\ y = x.
Proof. unfold try_from. destruct (Z.leb_spec x m); naive_solver lia. Qed.

Lemma sat_add_exact m a b : a + b <= m -> sat_add m a b = a + b.
Proof. unfold sat_add. lia. Qed.

Lemma sat_mul_exact m a b : a * b <= m -> sat_mul m a b = a * b.
Proof. unfold sat_mul. lia. Qed.

Lemma sat_sub_exact a b : b <= a -> sat_sub a b = a - b.
Proof. unfold sat_sub. lia. Qed.

Lemma div_ceil_spec a b : 0 < b -> (div_ceil a b - 1) * b < a <= div_ceil a b * b.
Proof.
  intros Hb. unfold div_ceil.
  pose proof (Z.div_mod a b ltac:(lia)). pose proof (Z.mod_pos_bound a b Hb).
  destruct (Z.ltb_spec 0 (a mod b)); nia.
Qed.

Lemma zlen_nonneg {A} (l : list A) : 0 <= zlen l.
Proof. unfold zlen. lia. Qed.

Lemma zlen_nil {A} : zlen (@nil A) = 0.
Proof. done. Qed.

Lemma zlen_cons {A} (x : A) l : zlen (x :: l) = 1 + zlen l.
Proof. unfold zlen. cbn [length]. lia. Qed.

Lemma zlen_app {A} (l1 l2 : list A) : zlen (l1 ++ l2) = zlen l1 + zlen l2.
Proof. unfold zlen. rewrite length_app. lia. Qed.

Create HintDb rust.
Create Rewrite HintDb rust.
#[export] Hint Resolve zlen_nonneg ok_or_no_panic map_err_no_panic : rust.
#[export] Hint Rewrite @zlen_nil @zlen_cons @zlen_app : rust.

(** * Sums over lists *)
Definition sum_Z (l : list Z) : Z := foldr Z.add 0 l.

Lemma sum_Z_app l1 l2 : sum_Z (l1 ++ l2) = sum_Z l1 + sum_Z l2.
Proof. unfold sum_Z. induction l1; cbn [foldr app] in *; lia. Qed.

Lemma sum_Z_nonneg l : Forall (fun x => 0 <= x) l -> 0 <= sum_Z l.
Proof. unfold sum_Z. induction 1; cbn [foldr] in *; lia. Qed.

(** * Programs that neither panic nor run out of fuel

    [ensures m s Q]: run from [s], [m] does not panic, and what it returns
    satisfies [Q]; an error is allowed. *)
Definition ensures {S E A} (m : st S E A) (s : S) (Q : S -> A -> Prop) : Prop :=
  match m s with
  | (s', Ok a) => Q s' a
  | (_, Err _) => True
  | (_, Panic) => False
  end.
Definition st_total {S E A} (m : st S E A) (s : S) : Prop := snd (m s) <> Panic.

Lemma st_total_bind {S E A B} (m : st S E A) (k : A -> st S E B) s :
  st_total m s -> (forall s1 a, m s = (s1, Ok a) -> st_total (k a) s1) -> st_total (m ≫= k) s.
Proof.
  unfold st_total, mbind, st_bind. intros Hm Hk. destruct (m s) as [s1 [a|e|]]; [by apply Hk|done|done].
Qed.

Lemma st_total_lift {S E A} (m : outcome E A) (s : S) : no_panic m -> st_total (lift m) s.
Proof. done. Qed.

Lemma ensures_total {S E A} (m : st S E A) s Q : ensures m s Q -> st_total m s.
Proof. unfold ensures, st_total. by destruct (m s) as [s' []]. Qed.

Lemma total_ensures {S E A} (m : st S E A) s : st_total m s -> ensures m s (fun s' a => m s = (s', Ok a)).
Proof. unfold ensures, st_total. by destruct (m s) as [s' []]. Qed.

Lemma ensures_bind {S E A B} (m : st S E A) (k : A -> st S E B) s R Q :
  ensures m s R -> (forall s1 a, R s1 a -> ensures (k a) s1 Q) -> ensures (m ≫= k) s Q.
Proof.
  unfold ensures, mbind, st_bind. intros Hm Hk. destruct (m s) as [s1 [a|e|]]; [by apply Hk|done|done].
Qed.

Lemma ensures_weaken {S E A} (m : st S E A) s (R Q : S -> A -> Prop) :
  ensures m s R -> (forall s' a, R s' a -> Q s' a) -> ensures m s Q.
Proof. unfold ensures. destruct (m s) as [s' []]; auto. Qed.

(** Split a computation that cannot panic; lemmas on its parts come from the
    hint database. *)
Ltac outcome_step :=
  match goal with
  | |- no_panic (mbind _ _) => apply bind_no_panic; [|intros ? ?]
  | |- no_panic (Ok _) => done
  | |- no_panic (Err _) => done
  | |- no_panic _ => solve [auto with rust nocore]
  | |- no_panic (match ?x with _ => _ end) => destruct x
  end.
Ltac outcome_total := repeat outcome_step.

(** * Code that keeps an invariant

    [keeps I s m Q] says that [m], run from [s], returns a value or an error, leaves
    a state with [I], and that state and result satisfy [Q]. *)
Definition keeps {S E A} (I : S -> Prop) (s : S) (m : st S E A) (Q : S -> outcome E A -> Prop) : Prop :=
  exists s' r, m s = (s', r) /\ r <> Panic /\ I s' /\ Q s' r.

Section Keeps.
Context {S E : Type} (I : S -> Prop).

Lemma keeps_bind {A C} s (m : st S E A) (k : A -> st S E C) (Q : S -> outcome E C -> Prop) :
  keeps I s m (fun s' r => match r with Ok a => keeps I s' (k a) Q | Err e => Q s' (Err e) | Panic => True end) ->
  keeps I s (m ≫= k) Q.
Proof.
  intros (s' & r & Em & Hp & Hi & H). unfold keeps, mbind, st_bind. rewrite Em. destruct r as [a|e|]; [exact H| |done].
  exists s', (Err e). by splits.
Qed.
Lemma keeps_impl {A} s (m : st S E A) (Q Q' : S -> outcome E A -> Prop) :
  keeps I s m Q -> (forall s' r, I s' -> r <> Panic -> Q s' r -> Q' s' r) -> keeps I s m Q'.
Proof. intros (s' & r & Em & Hp & Hi & H) HQ. exists s', r. splits; auto. Qed.
Lemma keeps_ret {A} s (a : A) (Q : S -> outcome E A -> Prop) : I s -> Q s (Ok a) -> keeps I s (mret a) Q.
Proof. intros. exists s, (Ok a). by splits. Qed.
Lemma keeps_get {A} s (f : S -> A) (Q : S -> outcome E A -> Prop) : I s -> Q s (Ok (f s)) -> keeps I s (fun s => (s, Ok (f s))) Q.
Proof. intros. exists s, (Ok (f s)). by splits. Qed.
Lemma keeps_set s (f : S -> S) (Q : S -> outcome E unit -> Prop) : I (f s) -> Q (f s) (Ok tt) -> keeps I s (fun s => (f s, Ok tt)) Q.
Proof. intros. exists (f s), (Ok tt). by splits. Qed.
Lemma keeps_err {A} s (e : E) (Q : S -> outcome E A -> Prop) : I s -> Q s (Err e) -> keeps I s (fun s => (s, Err e)) Q.
Proof. intros. exists s, (Err e). by splits. Qed.
Lemma keeps_lift {A} s (m : outcome E A) (Q : S -> outcome E A -> Prop) : I s -> no_panic m -> Q s m -> keeps I s (lift m) Q.
Proof. intros. exists s, m. by splits. Qed.
End Keeps.
