(* ===== verification/Arith.v ===== *)
(** IEEE doubles and the standard library's sorts, as the program uses them. *)
From stdpp Require Import sorting.
From Stdlib Require Export SpecFloat.
From S2P Require Import Prelude.
Local Open Scope Z_scope.

(** * Doubles *)
(** [u64 as f64] rounds to nearest even, as the operators do; [f64_bits] is the
    interchange format that [to_be_bytes] writes. *)
Definition f64_of_u64 (x : Z) : spec_float := binary_normalize 53 1024 x 0 false.
Definition f64_add (x y : spec_float) : spec_float := SFadd 53 1024 x y.
Definition f64_mul (x y : spec_float) : spec_float := SFmul 53 1024 x y.
Definition f64_div (x y : spec_float) : spec_float := SFdiv 53 1024 x y.
Definition f64_bits (x : spec_float) : Z :=
  let signed (s : bool) (magnitude : Z) := if s then 2 ^ 63 + magnitude else magnitude in
  match x with
  | S754_zero s => signed s 0
  | S754_infinity s => signed s (Z.shiftl 0x7ff 52)
  | S754_nan => Z.shiftl 0xfff 51
  | S754_finite s m e =>
      signed s (if Zpos m <? 2 ^ 52 then Zpos m else Z.shiftl (e + 1075) 52 + (Zpos m - 2 ^ 52))
  end.

(** * Sorting *)
(** [slice::sort_by_key] is stable. *)
Fixpoint insert_by_key {A} (key : A -> Z) (x : A) (l : list A) : list A :=
  match l with
  | [] => [x]
  | y :: l' => if key x <=? key y then x :: l else y :: insert_by_key key x l'
  end.
Definition sort_by_key {A} (key : A -> Z) (l : list A) : list A := foldr (insert_by_key key) [] l.

Section SortByKey.
Context {A : Type} (key : A -> Z).
Notation key_le := (fun a b => key a <= key b).

Lemma sort_by_key_cons x l : sort_by_key key (x :: l) = insert_by_key key x (sort_by_key key l).
Proof. done. Qed.

Lemma insert_by_key_perm x l : insert_by_key key x l ≡ₚ x :: l.
Proof.
  induction l as [|y l IH]; cbn; [done|]. case_if_as E; [done|]. rewrite IH. apply perm_swap.
Qed.

Lemma sort_by_key_perm l : sort_by_key key l ≡ₚ l.
Proof. induction l as [|x l IH]; [done|]. rewrite sort_by_key_cons. by rewrite insert_by_key_perm, IH. Qed.

Lemma insert_by_key_sorted x l : StronglySorted key_le l -> StronglySorted key_le (insert_by_key key x l).
Proof.
  induction 1 as [|y l Hs IH Hy]; cbn; [by repeat constructor|]. case_if_as E.
  - apply Z.leb_le in E. constructor; [by constructor|]. constructor; [done|].
    eapply Forall_impl; [exact Hy|]. cbn. intros. lia.
  - apply Z.leb_gt in E. constructor; [done|]. rewrite insert_by_key_perm. constructor; [lia|done].
Qed.

Lemma sort_by_key_sorted l : StronglySorted key_le (sort_by_key key l).
Proof. induction l as [|x l IH]; [constructor|]. by apply insert_by_key_sorted. Qed.

Lemma insert_by_key_least x l : Forall (fun y => key x <= key y) l -> insert_by_key key x l = x :: l.
Proof.
  destruct 1 as [|y l Hy _]; [done|]. cbn. by rewrite (proj2 (Z.leb_le _ _) Hy).
Qed.

Lemma sort_by_key_id l : StronglySorted key_le l -> sort_by_key key l = l.
Proof.
  induction 1 as [|x l Hs IH Hx]; [done|]. rewrite sort_by_key_cons, IH. by apply insert_by_key_least.
Qed.

Lemma filter_insert (P : A -> bool) x l :
  StronglySorted key_le l ->
  List.filter P (insert_by_key key x l)
  = if P x then insert_by_key key x (List.filter P l) else List.filter P l.
Proof.
  induction 1 as [|y l Hs IH Hy]; cbn; [by destruct (P x)|]. case_if_as E.
  - cbn. destruct (P x); [|done]. apply Z.leb_le in E.
    destruct (P y); cbn; [by rewrite (proj2 (Z.leb_le _ _) E)|].
    rewrite insert_by_key_least; [done|]. rewrite Forall_forall in Hy |- *.
    intros z Hz. apply list_elem_of_In, filter_In in Hz as [Hz _]. apply list_elem_of_In in Hz.
    specialize (Hy z Hz). lia.
  - cbn. rewrite IH. destruct (P x), (P y); cbn; [|done..]. by rewrite E.
Qed.

(** Stability: the sort keeps the order of any part that is in order already. *)
Lemma filter_sort (P : A -> bool) l :
  List.filter P (sort_by_key key l) = sort_by_key key (List.filter P l).
Proof.
  induction l as [|x l IH]; [done|]. rewrite sort_by_key_cons. cbn [List.filter].
  rewrite filter_insert by apply sort_by_key_sorted. rewrite IH. destruct (P x); [|done]. by rewrite sort_by_key_cons.
Qed.
End SortByKey.

Lemma filter_all {A} (P : A -> bool) l : Forall (fun x => P x = true) l -> List.filter P l = l.
Proof. induction 1 as [|x l Hx _ IH]; [done|]. cbn. by rewrite Hx, IH. Qed.
Lemma filter_none {A} (P : A -> bool) l : Forall (fun x => P x = false) l -> List.filter P l = [].
Proof. induction 1 as [|x l Hx _ IH]; [done|]. cbn. by rewrite Hx. Qed.
Lemma Forall_mapped {A B} (P : B -> Prop) (f : A -> B) l : (forall x, P (f x)) -> Forall P (map f l).
Proof. intros H. induction l; constructor; auto. Qed.
