(* ===== verification/Bytes.v ===== *)
(** Byte buffers: little- and big-endian integers, and the indexing and
    [copy_from_slice] operations the Rust code performs on slices. *)
From Stdlib Require Import String Ascii.
From S2P Require Import Prelude.
Local Open Scope list_scope.
Local Open Scope Z_scope.

Abbreviation bytes := (list Z).
Definition is_byte (b : Z) : Prop := 0 <= b <= U8_MAX.
Definition is_bytes (bs : bytes) : Prop := Forall is_byte bs.

(** [to_le_bytes] / [from_le_bytes] and their big-endian counterparts. *)
Fixpoint le_bytes (n : nat) (x : Z) : bytes :=
  match n with
  | O => []
  | S n => x mod 256 :: le_bytes n (x / 256)
  end.
Fixpoint le_val (bs : bytes) : Z :=
  match bs with
  | [] => 0
  | b :: bs => b + 256 * le_val bs
  end.
Definition be_bytes (n : nat) (x : Z) : bytes := reverse (le_bytes n x).
Definition be_val (bs : bytes) : Z := le_val (reverse bs).

(** [slice[off..off+n]] and [slice[off..off+n].copy_from_slice(bs)] when the
    range is inside the slice. *)
Definition slice {A} (off n : nat) (l : list A) : list A := take n (drop off l).
Definition put {A} (off : nat) (bs : list A) (l : list A) : list A := list_inserts off bs l.

(** The same operations with Rust's bounds check: out of range panics. *)
Definition get_range {E} (off n : nat) (buf : bytes) : outcome E bytes :=
  if (off + n <=? length buf)%nat then Ok (slice off n buf) else Panic.
Definition get_from {E} (off : nat) (buf : bytes) : outcome E bytes :=
  if (off <=? length buf)%nat then Ok (drop off buf) else Panic.
Definition set_range {E} (off : nat) (bs buf : bytes) : outcome E bytes :=
  if (off + length bs <=? length buf)%nat then Ok (put off bs buf) else Panic.
Definition index {E} (buf : bytes) (i : nat) : outcome E Z := expect (buf !! i).
Definition set_index {E} (i : nat) (b : Z) (buf : bytes) : outcome E bytes := set_range i [b] buf.

(** [iter().any(|byte| *byte != 0)]. *)
Definition any_nonzero (bs : bytes) : bool := existsb (fun b => negb (b =? 0)) bs.

(** A byte-string literal. *)
Definition ascii_bytes (s : string) : bytes :=
  map (fun c => Z.of_N (N_of_ascii c)) (list_ascii_of_string s).

Definition bytes_eqb (a b : bytes) : bool := bool_decide (a = b).

(** * Endianness *)
Section Endian.
Lemma length_le_bytes n x : length (le_bytes n x) = n.
Proof. revert x. induction n; cbn; auto. Qed.

Lemma le_bytes_is_bytes n x : is_bytes (le_bytes n x).
Proof.
  revert x. induction n; intros x; cbn; constructor; [|apply IHn].
  unfold is_byte, U8_MAX. pose proof (Z.mod_pos_bound x 256). lia.
Qed.

Lemma le_val_le_bytes n x : 0 <= x < 256 ^ Z.of_nat n -> le_val (le_bytes n x) = x.
Proof.
  revert x. induction n as [|n IH]; intros x Hx; cbn [le_bytes le_val].
  - cbn in Hx. lia.
  - rewrite Nat2Z.inj_succ, Z.pow_succ_r in Hx by lia. rewrite IH.
    + pose proof (Z.div_mod x 256). lia.
    + split; [apply Z.div_pos; lia|apply Z.div_lt_upper_bound; lia].
Qed.

Lemma le_val_bound bs : is_bytes bs -> 0 <= le_val bs < 256 ^ zlen bs.
Proof.
  unfold is_byte, U8_MAX. induction 1 as [|b bs Hb _ IH]; cbn [le_val]; [change (zlen (@nil Z)) with 0; lia|].
  unfold is_byte, U8_MAX in Hb.
  rewrite zlen_cons, Z.pow_add_r, Z.pow_1_r by (pose proof (zlen_nonneg bs); lia). lia.
Qed.

Lemma le_bytes_le_val bs : is_bytes bs -> le_bytes (length bs) (le_val bs) = bs.
Proof.
  unfold is_byte. induction 1 as [|b bs Hb _ IH]; cbn [le_val le_bytes length]; [done|].
  unfold is_byte, U8_MAX in Hb.
  replace (b + 256 * le_val bs) with (b + le_val bs * 256) by lia.
  rewrite Z.mod_add, Z.mod_small, Z.div_add, Z.div_small, Z.add_0_l, IH by lia. done.
Qed.

Lemma le_bytes_le_val_n n bs :
  is_bytes bs -> length bs = n -> le_bytes n (le_val bs) = bs.
Proof. intros H <-. by apply le_bytes_le_val. Qed.

Lemma length_be_bytes n x : length (be_bytes n x) = n.
Proof. unfold be_bytes. by rewrite length_reverse, length_le_bytes. Qed.

Lemma be_bytes_is_bytes n x : is_bytes (be_bytes n x).
Proof.
  unfold be_bytes, is_bytes. rewrite Forall_reverse. apply le_bytes_is_bytes.
Qed.

Lemma be_val_be_bytes n x : 0 <= x < 256 ^ Z.of_nat n -> be_val (be_bytes n x) = x.
Proof. intros. unfold be_val, be_bytes. rewrite reverse_involutive. by apply le_val_le_bytes. Qed.

Lemma be_bytes_be_val bs : is_bytes bs -> be_bytes (length bs) (be_val bs) = bs.
Proof.
  intros H. unfold be_val, be_bytes. rewrite <- (length_reverse bs), le_bytes_le_val.
  - apply reverse_involutive.
  - unfold is_bytes. by rewrite Forall_reverse.
Qed.

Lemma be_val_bound bs : is_bytes bs -> 0 <= be_val bs < 256 ^ zlen bs.
Proof.
  intros H. unfold be_val.
  assert (zlen bs = zlen (reverse bs)) as -> by (unfold zlen; by rewrite length_reverse).
  apply le_val_bound. unfold is_bytes. by rewrite Forall_reverse.
Qed.
End Endian.

(** * Reads over writes *)
Section Buffers.
Context {A : Type}.
Implicit Types (l bs : list A) (off n : nat).

Lemma length_slice off n l : length (slice off n l) = (n `min` (length l - off))%nat.
Proof. unfold slice. by rewrite length_take, length_drop. Qed.

Lemma length_put off bs l : length (put off bs l) = length l.
Proof. apply length_inserts. Qed.

Lemma lookup_slice off n l i :
  slice off n l !! i = if decide (i < n)%nat then l !! (off + i)%nat else None.
Proof. unfold slice. rewrite lookup_take. case_decide; [|done]. by rewrite lookup_drop. Qed.

Lemma lookup_put_ne off i bs l :
  (i < off \/ off + length bs <= i)%nat -> put off bs l !! i = l !! i.
Proof.
  intros [H|H]; [by apply list_lookup_inserts_lt|by apply list_lookup_inserts_ge].
Qed.

Lemma lookup_put_in off i bs l :
  (off <= i < off + length bs)%nat -> (i < length l)%nat ->
  put off bs l !! i = bs !! (i - off)%nat.
Proof. apply list_lookup_inserts. Qed.

Lemma lookup_put_eq off x l : (off < length l)%nat -> put off [x] l !! off = Some x.
Proof.
  intros H. rewrite lookup_put_in by (cbn; lia). by rewrite Nat.sub_diag.
Qed.

Lemma slice_put_sub off n off' bs l :
  (off' <= off)%nat -> (off + n <= off' + length bs)%nat -> (off' + length bs <= length l)%nat ->
  slice off n (put off' bs l) = slice (off - off') n bs.
Proof.
  intros H1 H2 H3. apply list_eq. intros i. rewrite !lookup_slice.
  case_decide; [|done]. rewrite lookup_put_in by lia. f_equal. lia.
Qed.

Lemma slice_full n l : n = length l -> slice 0 n l = l.
Proof. intros ->. unfold slice. by rewrite drop_0, firstn_all. Qed.

Lemma slice_put_eq off n bs l :
  n = length bs -> (off + length bs <= length l)%nat -> slice off n (put off bs l) = bs.
Proof.
  intros -> Hlen. rewrite slice_put_sub by lia. rewrite Nat.sub_diag. by apply slice_full.
Qed.

Lemma slice_put_ne off n off' bs l :
  (off + n <= off' \/ off' + length bs <= off)%nat -> slice off n (put off' bs l) = slice off n l.
Proof.
  intros Hdisj. apply list_eq. intros i. rewrite !lookup_slice.
  case_decide; [|done]. apply lookup_put_ne. lia.
Qed.

Lemma slice_replicate off n m (x : A) :
  (off + n <= m)%nat -> slice off n (replicate m x) = replicate n x.
Proof.
  intros H. unfold slice. rewrite drop_replicate, take_replicate. f_equal. lia.
Qed.

Lemma slice_drop off n b l : slice off n (drop b l) = slice (b + off) n l.
Proof. unfold slice. by rewrite drop_drop. Qed.

Lemma slice_take off n m l : (off + n <= m)%nat -> slice off n (take m l) = slice off n l.
Proof.
  intros H. apply list_eq. intros i. rewrite !lookup_slice. case_decide; [|done].
  rewrite lookup_take. case_decide; [done|lia].
Qed.

Lemma slice_app_l off n l1 l2 :
  (off + n <= length l1)%nat -> slice off n (l1 ++ l2) = slice off n l1.
Proof.
  intros H. apply list_eq. intros i. rewrite !lookup_slice. case_decide; [|done].
  rewrite lookup_app_l by lia. done.
Qed.

Lemma put_drop off b bs l :
  (b + off + length bs <= length l)%nat ->
  put b (put off bs (drop b l)) l = put (b + off) bs l.
Proof.
  intros H. apply list_eq. intros i.
  destruct (decide (i < b)%nat).
  - rewrite !lookup_put_ne; [done|lia..].
  - destruct (decide (i < length l)%nat); cycle 1.
    { rewrite !lookup_ge_None_2; [done|rewrite length_put; lia..]. }
    rewrite (lookup_put_in b) by (rewrite ?length_put, ?length_drop; lia).
    destruct (decide (b + off <= i < b + off + length bs)%nat).
    + rewrite !lookup_put_in by (rewrite ?length_drop; lia). f_equal; lia.
    + rewrite !lookup_put_ne by lia. rewrite lookup_drop. f_equal. lia.
Qed.

Lemma drop_put off m bs l :
  (off + length bs <= m)%nat -> drop m (put off bs l) = drop m l.
Proof.
  intros H. apply list_eq. intros i. rewrite !lookup_drop. apply lookup_put_ne. lia.
Qed.

Lemma put_nil off l : put off [] l = l.
Proof. done. Qed.

Lemma put_put_adj off bs1 bs2 l :
  put (off + length bs1) bs2 (put off bs1 l) = put off (bs1 ++ bs2) l.
Proof. unfold put. rewrite list_inserts_app_l. f_equal. lia. Qed.
End Buffers.

(** * Reading and writing one segment of a concatenation *)
Section Segments.
Context {E : Type}.
Implicit Types (a b c : bytes).

Lemma slice_app_mid off n a b c :
  length a = off -> length b = n -> slice off n (a ++ b ++ c) = b.
Proof. intros <- <-. unfold slice. by rewrite drop_app_length, take_app_length. Qed.

Lemma get_range_app off n a b c :
  length a = off -> length b = n -> get_range off n (a ++ b ++ c) = @Ok E _ b.
Proof.
  intros Ha Hb. unfold get_range. rewrite !length_app.
  destruct (Nat.leb_spec (off + n) (length a + (length b + length c))); [|lia].
  by rewrite slice_app_mid.
Qed.

Lemma put_app_mid off b' a b c :
  length a = off -> length b = length b' -> put off b' (a ++ b ++ c) = a ++ b' ++ c.
Proof.
  intros <- Hb. unfold put. rewrite <- (Nat.add_0_r (length a)), list_inserts_app_r. f_equal.
  apply list_eq. intros i. destruct (decide (i < length b)%nat).
  - rewrite list_lookup_inserts, Nat.sub_0_r, lookup_app_l by (rewrite ?length_app; lia). done.
  - rewrite list_lookup_inserts_ge, !lookup_app_r by lia. by rewrite Hb.
Qed.

Lemma set_range_app off b' a b c :
  length a = off -> length b = length b' -> set_range off b' (a ++ b ++ c) = @Ok E _ (a ++ b' ++ c).
Proof.
  intros Ha Hb. unfold set_range. rewrite !length_app.
  destruct (Nat.leb_spec (off + length b') (length a + (length b + length c))); [|lia].
  by rewrite put_app_mid.
Qed.

Lemma get_range_Ok off n (buf bs : bytes) :
  get_range off n buf = @Ok E _ bs <-> (off + n <= length buf)%nat /\ bs = slice off n buf.
Proof. unfold get_range. destruct (Nat.leb_spec (off + n) (length buf)); naive_solver lia. Qed.

Lemma get_range_no_panic off n (buf : bytes) :
  (off + n <= length buf)%nat -> no_panic (@get_range E off n buf).
Proof. intros H. unfold get_range. by destruct (Nat.leb_spec (off + n) (length buf)); [|lia]. Qed.

Lemma get_from_no_panic off (buf : bytes) :
  (off <= length buf)%nat -> no_panic (@get_from E off buf).
Proof. intros H. unfold get_from. by destruct (Nat.leb_spec off (length buf)); [|lia]. Qed.

Lemma index_no_panic i (buf : bytes) : (i < length buf)%nat -> no_panic (@index E buf i).
Proof.
  intros H. unfold index. destruct (lookup_lt_is_Some_2 buf i H) as [x ->]. done.
Qed.

Lemma is_bytes_slice off n a : is_bytes a -> is_bytes (slice off n a).
Proof. intros. unfold is_bytes, slice. by apply Forall_take, Forall_drop. Qed.

Lemma slice_add off n m a : slice off (n + m) a = slice off n a ++ slice (off + n) m a.
Proof.
  unfold slice. rewrite <- drop_drop. rewrite <- (take_drop n (take (n + m) (drop off a))).
  rewrite take_take, skipn_firstn_comm. f_equal; f_equal; lia.
Qed.

Lemma drop_slice off n a : drop off a = slice off n a ++ drop (off + n) a.
Proof. unfold slice. by rewrite <- drop_drop, take_drop. Qed.

Lemma slice_index i a x : index a i = @Ok E _ x <-> slice i 1 a = [x].
Proof.
  unfold index, slice, expect. rewrite <- (Nat.add_0_r i) at 1. rewrite <- lookup_drop.
  destruct (drop i a) as [|y l]; cbn; naive_solver.
Qed.

(** Cutting a list at an offset. *)
Lemma slice_split (n : nat) a : a = slice 0 n a ++ drop n a.
Proof. unfold slice. rewrite drop_0. symmetry. apply take_drop. Qed.
End Segments.
#[export] Hint Resolve get_range_no_panic get_from_no_panic index_no_panic is_bytes_slice : rust.

Lemma is_bytes_check bs : forallb (fun b => (0 <=? b) && (b <=? 255)) bs = true -> is_bytes bs.
Proof.
  rewrite forallb_forall. intros H. apply Forall_forall. intros b Hin%list_elem_of_In.
  apply H in Hin. unfold is_byte, U8_MAX. lia.
Qed.

(** ** The low bytes of a number *)
Lemma take_le_bytes w n x : (w <= n)%nat -> take w (le_bytes n x) = le_bytes w x.
Proof.
  revert n x. induction w as [|w IH]; intros [|n] x Hle; cbn; try done; try lia. f_equal. apply IH. lia.
Qed.

Lemma drop_be_bytes w n x : (w <= n)%nat -> drop (n - w) (be_bytes n x) = be_bytes w x.
Proof.
  intros Hle. unfold be_bytes. rewrite drop_reverse, length_le_bytes, take_le_bytes by lia.
  do 2 f_equal. lia.
Qed.

Lemma le_bytes_snoc n x : le_bytes (S n) x = le_bytes n x ++ [x / 256 ^ Z.of_nat n mod 256].
Proof.
  revert x. induction n as [|n IH]; intros x.
  - cbn. by rewrite Z.div_1_r.
  - change (x mod 256 :: le_bytes (S n) (x / 256) = x mod 256 :: (le_bytes n (x / 256) ++ [x / 256 ^ Z.of_nat (S n) mod 256])).
    rewrite IH. do 3 f_equal. rewrite Nat2Z.inj_succ, Z.pow_succ_r, <- Z.div_div by lia. done.
Qed.

Lemma be_bytes_cons n x : be_bytes (S n) x = x / 256 ^ Z.of_nat n mod 256 :: be_bytes n x.
Proof. unfold be_bytes. by rewrite le_bytes_snoc, reverse_app. Qed.
