(* ===== verification/Text.v ===== *)
(** Text as bytes: splitting, affixes and numbers, as the standard library's
    [str] and slice methods treat ASCII. *)
From S2P Require Import Prelude Bytes.
Local Open Scope Z_scope.

(** * Splitting *)
(** [slice::split], [str::split] with a predicate. *)
Fixpoint split_on (p : Z -> bool) (bs : bytes) : list bytes :=
  match bs with
  | [] => [[]]
  | b :: rest =>
      if p b then [] :: split_on p rest
      else match split_on p rest with
           | field :: fields => (b :: field) :: fields
           | [] => [[b]]
           end
  end.
(** [str::split_once]. *)
Fixpoint split_once (b : Z) (bs : bytes) : option (bytes * bytes) :=
  match bs with
  | [] => None
  | c :: rest =>
      if c =? b then Some ([], rest)
      else match split_once b rest with
           | Some (before, after) => Some (c :: before, after)
           | None => None
           end
  end.
(** [str::strip_prefix] and [str::strip_suffix]. *)
Definition strip_prefix (affix bs : bytes) : option bytes :=
  if bytes_eqb (take (length affix) bs) affix then Some (drop (length affix) bs) else None.
Definition strip_suffix (affix bs : bytes) : option bytes :=
  if (length affix <=? length bs)%nat && bytes_eqb (drop (length bs - length affix) bs) affix
  then Some (take (length bs - length affix) bs) else None.
Definition starts_with (affix bs : bytes) : bool := bytes_eqb (take (length affix) bs) affix.
Definition ends_with (affix bs : bytes) : bool :=
  (length affix <=? length bs)%nat && bytes_eqb (drop (length bs - length affix) bs) affix.

(** [str::trim]: the number of bytes of a White_Space character at the front of
    the text, and the same at the back of it (on the reversed bytes). *)
Definition white_space (bs : bytes) : option nat :=
  match bs with
  | b :: rest =>
      if ((9 <=? b) && (b <=? 13)) || (b =? 32) then Some 1%nat
      else match rest with
           | c :: rest =>
               if (b =? 0xC2) && ((c =? 0x85) || (c =? 0xA0)) then Some 2%nat
               else match rest with
                    | d :: _ =>
                        if ((b =? 0xE1) && (c =? 0x9A) && (d =? 0x80))
                           || ((b =? 0xE2) && (c =? 0x80) && (((0x80 <=? d) && (d <=? 0x8A)) || (d =? 0xA8) || (d =? 0xA9) || (d =? 0xAF)))
                           || ((b =? 0xE2) && (c =? 0x81) && (d =? 0x9F))
                           || ((b =? 0xE3) && (c =? 0x80) && (d =? 0x80))
                        then Some 3%nat else None
                    | [] => None
                    end
           | [] => None
           end
  | [] => None
  end.
Definition white_space_back (reversed : bytes) : option nat :=
  match reversed with
  | b :: _ =>
      if bool_decide (white_space [b] = Some 1%nat) then Some 1%nat
      else if bool_decide (white_space (reverse (take 2 reversed)) = Some 2%nat) then Some 2%nat
      else if bool_decide (white_space (reverse (take 3 reversed)) = Some 3%nat) then Some 3%nat
      else None
  | [] => None
  end.
Fixpoint trim_with (fuel : nat) (space : bytes -> option nat) (bs : bytes) : bytes :=
  match fuel, space bs with
  | S fuel, Some n => trim_with fuel space (drop n bs)
  | _, _ => bs
  end.
Definition trim_start (bs : bytes) : bytes := trim_with (length bs) white_space bs.
Definition trim_end (bs : bytes) : bytes := reverse (trim_with (length bs) white_space_back (reverse bs)).
Definition trim (bs : bytes) : bytes := trim_end (trim_start bs).
(** [u8::is_ascii_graphic] and [u8::to_ascii_uppercase]. *)
Definition is_ascii_graphic (b : Z) : bool := (33 <=? b) && (b <=? 126).
Definition to_ascii_uppercase (b : Z) : Z := if (97 <=? b) && (b <=? 122) then b - 32 else b.
Definition to_ascii_lowercase (b : Z) : Z := if (65 <=? b) && (b <=? 90) then b + 32 else b.

(** * Numbers *)
(** [char::to_digit]. *)
Definition to_digit (radix b : Z) : option Z :=
  let value :=
    if (48 <=? b) && (b <=? 57) then Some (b - 48)
    else if (97 <=? b) && (b <=? 122) then Some (b - 97 + 10)
    else if (65 <=? b) && (b <=? 90) then Some (b - 65 + 10)
    else None in
  d ← value; if d <? radix then Some d else None.

Definition digit_step (width radix : Z) (total : option Z) (b : Z) : option Z :=
  total ← total;
  d ← to_digit radix b;
  scaled ← checked_mul width total radix;
  checked_add width scaled d.
Definition parse_digits (width radix : Z) (digits : bytes) : option Z :=
  foldl (digit_step width radix) (Some 0) digits.
(** [from_str_radix] of an unsigned type: an optional plus sign, then at least
    one digit. *)
Definition from_str_radix (width radix : Z) (field : bytes) : option Z :=
  match field with
  | [] => None
  | b :: digits =>
      if b =? 43 then if (length digits =? 0)%nat then None else parse_digits width radix digits
      else parse_digits width radix field
  end.

(** [from_str_radix] of a signed type up to [width]: a minus sign reaches one further. *)
Definition parse_signed (width radix : Z) (field : bytes) : option Z :=
  match field with
  | 45 :: digits =>
      if (length digits =? 0)%nat then None else x ← parse_digits (width + 1) radix digits; Some (- x)
  | _ => from_str_radix width radix field
  end.

(** [{:0nx}] of a number of at most n hexadecimal digits. *)
Definition lower_hex (d : Z) : Z := if d <? 10 then 48 + d else 97 + (d - 10).
Fixpoint hex_digits (n : nat) (x : Z) : bytes :=
  match n with
  | O => []
  | S n => hex_digits n (x / 16) ++ [lower_hex (x mod 16)]
  end.
(** [{}] of an unsigned integer. *)
Fixpoint dec_digits (fuel : nat) (x : Z) (acc : bytes) : bytes :=
  match fuel with
  | O => acc
  | S fuel =>
      let acc := 48 + x mod 10 :: acc in
      if x / 10 =? 0 then acc else dec_digits fuel (x / 10) acc
  end.
(** Twenty digits hold every u64. *)
Definition to_decimal (x : Z) : bytes := dec_digits 20 x [].

(** * Lemmas *)
Lemma bytes_eqb_refl bs : bytes_eqb bs bs = true.
Proof. by apply bool_decide_eq_true. Qed.

Lemma strip_prefix_app affix bs : strip_prefix affix (affix ++ bs) = Some bs.
Proof. unfold strip_prefix. by rewrite take_app_length, bytes_eqb_refl, drop_app_length. Qed.

Lemma strip_prefix_Some affix bs rest : strip_prefix affix bs = Some rest -> bs = affix ++ rest.
Proof.
  unfold strip_prefix, bytes_eqb. case_bool_decide as E; [|done]. intros [= <-]. by rewrite <- E at 1; rewrite take_drop.
Qed.

Lemma strip_suffix_app affix bs : strip_suffix affix (bs ++ affix) = Some bs.
Proof.
  unfold strip_suffix. rewrite length_app, (proj2 (Nat.leb_le _ _)) by lia.
  replace (length bs + length affix - length affix)%nat with (length bs) by lia.
  by rewrite drop_app_length, bytes_eqb_refl, take_app_length.
Qed.

Lemma ends_with_app affix bs : ends_with affix (bs ++ affix) = true.
Proof.
  unfold ends_with. rewrite length_app, (proj2 (Nat.leb_le _ _)) by lia.
  replace (length bs + length affix - length affix)%nat with (length bs) by lia.
  by rewrite drop_app_length, bytes_eqb_refl.
Qed.

Lemma starts_with_app affix bs : starts_with affix (affix ++ bs) = true.
Proof. unfold starts_with. by rewrite take_app_length, bytes_eqb_refl. Qed.

Lemma split_on_nonempty p bs : split_on p bs <> [].
Proof. destruct bs as [|b bs]; [done|]. cbn. destruct (p b); [done|]. by destruct (split_on p bs). Qed.
Lemma split_on_none p w : Forall (fun c => p c = false) w -> split_on p w = [w].
Proof. induction 1 as [|c w Hc _ IH]; [done|]. cbn [split_on]. by rewrite Hc, IH. Qed.

Lemma split_on_word p w b rest :
  Forall (fun c => p c = false) w -> p b = true -> split_on p (w ++ b :: rest) = w :: split_on p rest.
Proof.
  intros Hw Hb. induction Hw as [|c w Hc _ IH]; cbn [app split_on]; [by rewrite Hb|by rewrite Hc, IH].
Qed.

Lemma split_once_app b w rest : Forall (fun c => c <> b) w -> split_once b (w ++ b :: rest) = Some (w, rest).
Proof.
  induction 1 as [|c w Hc _ IH]; cbn [app split_once]; [by rewrite Z.eqb_refl|].
  by rewrite (proj2 (Z.eqb_neq _ _) Hc), IH.
Qed.

(** The value of a digit string, the first digit first. *)
Definition digits_value (radix : Z) (ds : list Z) (from : Z) : Z :=
  foldl (fun total d => radix * total + d) from ds.
(** [digits] are the characters of the digits [ds]. *)
Definition reads_as (radix : Z) (digits : bytes) (ds : list Z) : Prop :=
  Forall2 (fun b d => to_digit radix b = Some d /\ 0 <= d) digits ds.

Lemma digits_value_mono radix ds from :
  1 <= radix -> Forall (fun d => 0 <= d) ds -> 0 <= from -> from <= digits_value radix ds from.
Proof.
  intros Hr Hd. revert from. induction Hd as [|d ds Hd _ IH]; intros from Hf; cbn; [lia|].
  unfold digits_value in IH. specialize (IH (radix * from + d) ltac:(nia)). nia.
Qed.

Lemma digits_stop width radix digits : foldl (digit_step width radix) None digits = None.
Proof. by induction digits. Qed.

(** Checked arithmetic refuses exactly the values that do not fit. *)
Lemma parse_digits_from width radix digits ds from :
  1 <= radix -> reads_as radix digits ds -> 0 <= from <= width ->
  foldl (digit_step width radix) (Some from) digits
  = if digits_value radix ds from <=? width then Some (digits_value radix ds from) else None.
Proof.
  intros Hr Hd. revert from. induction Hd as [|b d digits ds [Hb Hd] Hrest IH]; intros from Hf; cbn [foldl digits_value].
  { by rewrite (proj2 (Z.leb_le _ _)) by lia. }
  assert (Hds : Forall (fun d => 0 <= d) ds).
  { clear - Hrest. induction Hrest as [|? ? ? ? []]; by constructor. }
  pose proof (digits_value_mono radix ds (radix * from + d) Hr Hds ltac:(nia)) as Hm.
  fold (digits_value radix ds (radix * from + d)) in *. unfold digit_step at 2. cbn [mbind option_bind]. rewrite Hb.
  cbn [mbind option_bind]. unfold checked_mul. case_if_as E1; cbn [mbind option_bind].
  - unfold checked_add. replace (from * radix + d) with (radix * from + d) by lia.
    case_if_as E2; [apply Z.leb_le in E2; apply IH; nia|].
    rewrite digits_stop. apply Z.leb_gt in E2. rewrite (proj2 (Z.leb_gt _ _)) by lia. done.
  - rewrite digits_stop. apply Z.leb_gt in E1. rewrite (proj2 (Z.leb_gt _ _)) by nia. done.
Qed.

(** No digit character is a plus sign. *)
Lemma to_digit_43 radix : to_digit radix 43 = None.
Proof. done. Qed.

Lemma from_str_radix_digits width radix digits ds :
  0 <= width -> 1 <= radix -> reads_as radix digits ds -> digits <> [] ->
  from_str_radix width radix digits
  = if digits_value radix ds 0 <=? width then Some (digits_value radix ds 0) else None.
Proof.
  intros Hw Hr Hd Hne. rewrite <- (parse_digits_from width radix digits ds 0) by (done || lia).
  destruct Hd as [|b d digits ds [Hb Hd] Hrest]; [done|]. unfold from_str_radix.
  destruct (Z.eqb_spec b 43) as [->|]; [by rewrite to_digit_43 in Hb|done].
Qed.

Lemma to_digit_lower_hex d : 0 <= d < 16 -> to_digit 16 (lower_hex d) = Some d.
Proof.
  intros H. assert (d = 0 \/ d = 1 \/ d = 2 \/ d = 3 \/ d = 4 \/ d = 5 \/ d = 6 \/ d = 7 \/ d = 8 \/ d = 9 \/ d = 10
    \/ d = 11 \/ d = 12 \/ d = 13 \/ d = 14 \/ d = 15) as Hd by lia.
  repeat (destruct Hd as [->|Hd]; [done|]). by subst.
Qed.

Fixpoint hex_values (n : nat) (x : Z) : list Z :=
  match n with O => [] | S n => hex_values n (x / 16) ++ [x mod 16] end.

Lemma hex_reads n x : reads_as 16 (hex_digits n x) (hex_values n x).
Proof.
  revert x. induction n as [|n IH]; intros x; [constructor|]. cbn. apply Forall2_app; [apply IH|].
  pose proof (Z.mod_pos_bound x 16 ltac:(lia)). constructor; [|constructor]. split; [by apply to_digit_lower_hex|lia].
Qed.

Lemma hex_value n x : 0 <= x < 16 ^ Z.of_nat n -> digits_value 16 (hex_values n x) 0 = x.
Proof.
  revert x. induction n as [|n IH]; intros x Hx; [cbn in *; lia|]. cbn [hex_values]. unfold digits_value in *.
  rewrite foldl_app. cbn [foldl]. rewrite Nat2Z.inj_succ, Z.pow_succ_r in Hx by lia.
  rewrite IH by (split; [apply Z.div_pos; lia|apply Z.div_lt_upper_bound; lia]).
  pose proof (Z.div_mod x 16 ltac:(lia)). lia.
Qed.

Lemma length_hex_digits n x : length (hex_digits n x) = n.
Proof. revert x. induction n as [|n IH]; intros x; [done|]. cbn. rewrite length_app, IH. cbn. lia. Qed.

Lemma parse_hex width n x :
  (0 < n)%nat -> 0 <= x < 16 ^ Z.of_nat n -> x <= width ->
  from_str_radix width 16 (hex_digits n x) = Some x.
Proof.
  intros Hn Hx Hw. rewrite (from_str_radix_digits width 16 _ (hex_values n x)); [|lia|lia|apply hex_reads|].
  - rewrite hex_value by done. by rewrite (proj2 (Z.leb_le _ _)) by lia.
  - intros E. apply (f_equal length) in E. rewrite length_hex_digits in E. cbn in E. lia.
Qed.

Lemma hex_digits_chars n x : Forall (fun b => 48 <= b <= 57 \/ 97 <= b <= 102) (hex_digits n x).
Proof.
  revert x. induction n as [|n IH]; intros x; [constructor|]. cbn. apply Forall_app. split; [apply IH|].
  constructor; [|constructor]. pose proof (Z.mod_pos_bound x 16 ltac:(lia)). unfold lower_hex.
  case_if_as E; [apply Z.ltb_lt in E|apply Z.ltb_ge in E]; lia.
Qed.

(** * UTF-8 *)
Definition continuation (b : Z) : bool := (128 <=? b) && (b <=? 191).
(** [str::from_utf8], as far as whether it succeeds. *)
Fixpoint utf8_valid (bs : bytes) : bool :=
  match bs with
  | [] => true
  | b :: r =>
      if b <? 128 then utf8_valid r
      else if (194 <=? b) && (b <=? 223) then
        match r with c :: r => continuation c && utf8_valid r | _ => false end
      else if (224 <=? b) && (b <=? 239) then
        match r with
        | c :: d :: r =>
            continuation c && (if b =? 224 then 160 <=? c else if b =? 237 then c <=? 159 else true)
            && continuation d && utf8_valid r
        | _ => false
        end
      else if (240 <=? b) && (b <=? 244) then
        match r with
        | c :: d :: e :: r =>
            continuation c && (if b =? 240 then 144 <=? c else if b =? 244 then c <=? 143 else true)
            && continuation d && continuation e && utf8_valid r
        | _ => false
        end
      else false
  end.

Lemma utf8_ascii bs : Forall (fun b => b < 128) bs -> utf8_valid bs = true.
Proof. induction 1 as [|b bs Hb _ IH]; [done|]. cbn [utf8_valid]. by rewrite (proj2 (Z.ltb_lt _ _) Hb). Qed.

(** * Numbers written in decimal *)
Lemma to_digit_ten d : 0 <= d < 10 -> to_digit 10 (48 + d) = Some d.
Proof.
  intros H. unfold to_digit. rewrite (proj2 (Z.leb_le 48 _)), (proj2 (Z.leb_le _ 57)) by lia. cbn.
  replace (48 + d - 48) with d by lia. by rewrite (proj2 (Z.ltb_lt _ _)) by lia.
Qed.
Definition decimal_of (digits : bytes) (x : Z) : Prop :=
  exists ds, reads_as 10 digits ds /\ digits_value 10 ds 0 = x /\ digits <> [] /\ Forall (fun b => 48 <= b <= 57) digits.
Lemma dec_step fuel x acc :
  dec_digits (S fuel) x acc = if x / 10 =? 0 then 48 + x mod 10 :: acc else dec_digits fuel (x / 10) (48 + x mod 10 :: acc).
Proof. done. Qed.
Lemma dec_digits_of fuel x acc : 0 <= x < 10 ^ Z.of_nat (S fuel) -> exists digits, dec_digits (S fuel) x acc = digits ++ acc /\ decimal_of digits x
  /\ (length digits <= S fuel)%nat.
Proof.
  revert x acc. induction fuel as [|fuel IH]; intros x acc Hx; rewrite dec_step; pose proof (Z.mod_pos_bound x 10 ltac:(lia)) as Hm;
    pose proof (Z.div_mod x 10 ltac:(lia)) as Hd.
  all: assert (H1 : x / 10 = 0 -> decimal_of [48 + x mod 10] x).
  1, 3: intros H0; exists [x mod 10]; splits; [constructor; [split; [by apply to_digit_ten|lia]|constructor]|cbn [digits_value foldl]; lia|done|];
    apply Forall_cons; split; [lia|by apply Forall_nil].
  - change (10 ^ Z.of_nat 1) with 10 in Hx. assert (x / 10 = 0) as -> by (apply Z.div_small; lia). cbn. eexists [_]. splits; [done| |cbn; lia].
    apply H1. apply Z.div_small. lia.
  - destruct (Z.eqb_spec (x / 10) 0) as [E|E]; [eexists [_]; splits; [done|by apply H1|cbn; lia]|].
    assert (Hx' : 0 <= x / 10 < 10 ^ Z.of_nat (S fuel)).
    { split; [apply Z.div_pos; lia|]. apply Z.div_lt_upper_bound; [lia|]. rewrite Nat2Z.inj_succ, Z.pow_succ_r in Hx by lia. lia. }
    destruct (IH (x / 10) (48 + x mod 10 :: acc) Hx') as (digits & -> & (ds & Hr & Hv & Hne & Hc) & Hl).
    exists (digits ++ [48 + x mod 10]). splits; [by rewrite <- app_assoc| |rewrite length_app; cbn; lia].
    exists (ds ++ [x mod 10]). splits.
    + apply Forall2_app; [done|]. constructor; [split; [by apply to_digit_ten|lia]|constructor].
    + unfold digits_value in *. rewrite foldl_app, Hv. cbn. lia.
    + by destruct digits.
    + apply Forall_app. split; [done|]. apply Forall_cons. split; [lia|by apply Forall_nil].
Qed.
(** Every u64 is written with at most twenty digits, and reads back. *)
Lemma to_decimal_of x : 0 <= x <= U64_MAX -> decimal_of (to_decimal x) x /\ (length (to_decimal x) <= 20)%nat.
Proof.
  intros Hx'. assert (Hx : 0 <= x < 10 ^ 20) by (unfold U64_MAX in Hx'; change (10 ^ 20) with 100000000000000000000; lia). destruct (dec_digits_of 19 x [] Hx) as (digits & E & H & Hl). unfold to_decimal. by rewrite E, app_nil_r.
Qed.
Lemma from_decimal width digits x :
  0 <= x <= width -> decimal_of digits x -> from_str_radix width 10 digits = Some x.
Proof.
  intros Hx (ds & Hr & Hv & Hne & _). rewrite (from_str_radix_digits width 10 digits ds) by (done || lia). rewrite Hv.
  by rewrite (proj2 (Z.leb_le _ _)) by lia.
Qed.
Lemma from_signed_decimal width digits x : 0 <= x <= width -> decimal_of digits x -> parse_signed width 10 digits = Some x.
Proof.
  intros Hx H. rewrite <- (from_decimal width digits x Hx H). destruct H as (ds & _ & _ & Hne & Hc). destruct digits as [|b digits]; [done|].
  apply Forall_cons in Hc as [Hb _]. cbn [parse_signed]. destruct (Z.eq_dec b 45) as [->|Hn]; [lia|].
  by repeat (destruct b as [|b|b]; try done).
Qed.
Lemma from_negative_decimal width digits x : 0 <= x <= width + 1 -> decimal_of digits x -> parse_signed width 10 (45 :: digits) = Some (- x).
Proof.
  intros Hx (ds & Hr & Hv & Hne & _). cbn [parse_signed]. destruct (Nat.eqb_spec (length digits) 0) as [E|_].
  { by destruct digits. }
  unfold parse_digits. rewrite (parse_digits_from (width + 1) 10 digits ds 0) by (done || lia). rewrite Hv.
  by rewrite (proj2 (Z.leb_le _ _)) by lia.
Qed.

(** What is read is in range. *)
Lemma to_digit_nonneg radix b d : to_digit radix b = Some d -> 0 <= d.
Proof.
  unfold to_digit. destruct ((48 <=? b) && (b <=? 57)) eqn:E1; [|destruct ((97 <=? b) && (b <=? 122)) eqn:E2;
    [|destruct ((65 <=? b) && (b <=? 90)) eqn:E3; [|done]]]; cbn [mbind option_bind]; case_if_as E; try done; intros [= <-]; lia.
Qed.
Lemma digits_range width radix digits from x :
  0 <= radix -> 0 <= from -> foldl (digit_step width radix) (Some from) digits = Some x -> 0 <= x /\ (x = from \/ x <= width).
Proof.
  intros Hr. revert from. induction digits as [|b digits IH]; intros from Hf; cbn [foldl]; [intros [= <-]; lia|].
  unfold digit_step at 2. cbn [mbind option_bind]. destruct (to_digit radix b) as [d|] eqn:Ed; cbn [mbind option_bind]; [|by rewrite digits_stop].
  pose proof (to_digit_nonneg _ _ _ Ed).
  destruct (checked_mul width from radix) as [m|] eqn:Em; cbn [mbind option_bind]; [|by rewrite digits_stop].
  destruct (checked_add width m d) as [s|] eqn:Es; [|by rewrite digits_stop].
  apply checked_mul_Some in Em as [Hm ->]. apply checked_add_Some in Es as [Hs ->]. intros Hx. apply IH in Hx; [lia|nia].
Qed.
Lemma from_str_radix_range width radix field x : 0 <= width -> 0 <= radix -> from_str_radix width radix field = Some x -> 0 <= x <= width.
Proof.
  intros Hw Hr. unfold from_str_radix, parse_digits. destruct field as [|b digits]; [done|].
  destruct (b =? 43); [destruct (length digits =? 0)%nat; [done|]|]; intros H; apply digits_range in H; lia.
Qed.
