(* ===== verification/Overlay.v ===== *)
(** The fixed telemetry blocks that the daemon shares with the overlay in the
    game (crates/redunar-capture/src/overlay.rs): the hardware block and the
    replay menu's block. *)
From stdpp Require Import strings.
From S2P Require Import Prelude Bytes Text.
Local Open Scope Z_scope.

Definition OVERLAY_HARDWARE_TELEMETRY_BYTES : nat := 48.
Definition REPLAY_MENU_TELEMETRY_BYTES : nat := 128.
Definition REPLAY_SHORTCUT_LABEL_BYTES : nat := 40.
Definition REPLAY_MENU_VARIABLE_FPS : Z := 240.
Definition MAGIC : bytes := ascii_bytes "RDOVL001".
Definition VERSION : Z := 4.
Definition CPU_UTILIZATION_PRESENT : Z := Z.shiftl 1 0.
Definition CPU_TEMPERATURE_PRESENT : Z := Z.shiftl 1 1.
Definition GPU_UTILIZATION_PRESENT : Z := Z.shiftl 1 2.
Definition GPU_TEMPERATURE_PRESENT : Z := Z.shiftl 1 3.
Definition KNOWN_FLAGS : Z :=
  Z.lor (Z.lor (Z.lor CPU_UTILIZATION_PRESENT CPU_TEMPERATURE_PRESENT) GPU_UTILIZATION_PRESENT) GPU_TEMPERATURE_PRESENT.
Definition MAX_UTILIZATION_TENTHS : Z := 1000.
Definition MAX_TEMPERATURE_TENTHS_CELSIUS : Z := 2000.
Definition REPLAY_MENU_MAGIC : bytes := ascii_bytes "RDRPM001".
Definition REPLAY_MENU_VERSION : Z := 2.

Record OverlayTelemetryError := { telemetry_message : string }.
Definition terr {A} (message : string) : outcome OverlayTelemetryError A := Err {| telemetry_message := message |}.

(** * Fields *)
Definition write_u16 (output : bytes) (offset : nat) (value : Z) : outcome OverlayTelemetryError bytes :=
  set_range offset (le_bytes 2 value) output.
Definition write_u64 (output : bytes) (offset : nat) (value : Z) : outcome OverlayTelemetryError bytes :=
  set_range offset (le_bytes 8 value) output.
Definition read_u16 (input : bytes) (offset : nat) : outcome OverlayTelemetryError Z :=
  bs ← get_range offset 2 input; Ok (le_val bs).
Definition read_u64 (input : bytes) (offset : nat) : outcome OverlayTelemetryError Z :=
  bs ← get_range offset 8 input; Ok (le_val bs).
(** [&mut output[..n]] and the writes through it. *)
Definition in_front (n : nat) (f : bytes -> outcome OverlayTelemetryError bytes) (output : bytes)
    : outcome OverlayTelemetryError bytes :=
  sub ← get_range 0 n output;
  sub ← f sub;
  Ok (sub ++ drop n output).

(** * Shortcut labels *)
Record ReplayShortcutLabel := { label_bytes : bytes; label_length : Z }.
Definition EMPTY : ReplayShortcutLabel := {| label_bytes := replicate REPLAY_SHORTCUT_LABEL_BYTES 0; label_length := 0 |}.
Definition label_push (b : Z) (l : ReplayShortcutLabel) : ReplayShortcutLabel :=
  if (label_length l <? zlen (label_bytes l)) && (is_ascii_graphic b || (b =? 32))
  then {| label_bytes := <[Z.to_nat (label_length l) := b]> (label_bytes l); label_length := sat_add U8_MAX (label_length l) 1 |}
  else l.
Definition push_bytes (bs : bytes) (l : ReplayShortcutLabel) : ReplayShortcutLabel := foldl (fun l b => label_push b l) l bs.
(** The loop of [from_shortcut] over the parts, numbered from [i]. *)
Fixpoint push_parts (i : nat) (parts : list bytes) (l : ReplayShortcutLabel) : ReplayShortcutLabel :=
  match parts with
  | [] => l
  | part :: parts =>
      let l := if (0 <? i)%nat then push_bytes (ascii_bytes " + ") l else l in
      push_parts (S i) parts (push_bytes (map to_ascii_uppercase part) l)
  end.
Definition from_shortcut (shortcut : bytes) : ReplayShortcutLabel :=
  push_parts 0 (List.filter (fun part => negb (length part =? 0)%nat) (map trim (split_on (Z.eqb 43) shortcut))) EMPTY.
(** [&self.bytes[..length]]. *)
Definition as_bytes (l : ReplayShortcutLabel) : outcome OverlayTelemetryError bytes :=
  get_range 0 (Z.to_nat (label_length l)) (label_bytes l).

(** * The menu block *)
Inductive ReplayMenuStatus := MenuUnavailable | MenuInactive | MenuBuffering | MenuSaving | MenuFailed.
Definition ReplayMenuStatus_as_u8 (s : ReplayMenuStatus) : Z :=
  match s with MenuUnavailable => 0 | MenuInactive => 1 | MenuBuffering => 2 | MenuSaving => 3 | MenuFailed => 4 end.
Record ReplayMenuTelemetry := {
  menu_revision : Z;
  menu_visible : bool;
  pointer_pressed : bool;
  menu_cursor_x : Z;
  menu_cursor_y : Z;
  hover_target : Z;
  menu_pressed_target : Z;
  selected_duration_index : Z;
  menu_status : ReplayMenuStatus;
  available_seconds : Z;
  menu_click_revision : Z;
  menu_frame_rate : Z;
  menu_quality : Z;
  menu_output_format : Z;
  save_enabled : bool;
  overlay_shortcut : ReplayShortcutLabel;
  save_shortcut : ReplayShortcutLabel;
}.
Definition bool_u8 (b : bool) : Z := if b then 1 else 0.

Definition validate_replay_menu (v : ReplayMenuTelemetry) : outcome OverlayTelemetryError unit :=
  if (menu_revision v =? 0) || negb (is_multiple_of (menu_revision v) 2)
     || (10000 <? menu_cursor_x v) || (10000 <? menu_cursor_y v)
     || (11 <? hover_target v) || (11 <? menu_pressed_target v)
     || (7 <? selected_duration_index v) || (900 <? available_seconds v)
     || negb ((menu_frame_rate v =? 60) || (menu_frame_rate v =? REPLAY_MENU_VARIABLE_FPS))
     || (2 <? menu_quality v) || (1 <? menu_output_format v)
     || (negb (pointer_pressed v) && negb (menu_pressed_target v =? 0))
  then terr "Replay menu configuration is invalid"
  else Ok tt.

Definition fill_replay_menu (v : ReplayMenuTelemetry) (output : bytes) : outcome OverlayTelemetryError bytes :=
  output ← set_range 0 (replicate (length output) 0) output;
  output ← set_range 0 REPLAY_MENU_MAGIC output;
  output ← write_u16 output 8 REPLAY_MENU_VERSION;
  output ← set_index 10 (bool_u8 (menu_visible v)) output;
  output ← set_index 11 (bool_u8 (pointer_pressed v)) output;
  output ← write_u16 output 12 (menu_cursor_x v);
  output ← write_u16 output 14 (menu_cursor_y v);
  output ← write_u64 output 16 (menu_revision v);
  output ← set_index 24 (hover_target v) output;
  output ← set_index 25 (menu_pressed_target v) output;
  output ← set_index 26 (selected_duration_index v) output;
  output ← set_index 27 (ReplayMenuStatus_as_u8 (menu_status v)) output;
  output ← write_u16 output 28 (available_seconds v);
  output ← write_u16 output 30 (menu_click_revision v);
  output ← set_index 32 (menu_frame_rate v) output;
  output ← set_index 33 (menu_quality v) output;
  output ← set_index 34 (menu_output_format v) output;
  output ← set_index 35 (bool_u8 (save_enabled v)) output;
  output ← set_index 36 (label_length (overlay_shortcut v)) output;
  output ← set_index 37 (label_length (save_shortcut v)) output;
  output ← set_range 40 (label_bytes (overlay_shortcut v)) output;
  output ← set_range 80 (label_bytes (save_shortcut v)) output;
  write_u64 output 120 (menu_revision v).
Definition encode_replay_menu_telemetry (v : ReplayMenuTelemetry) (output : bytes)
    : outcome OverlayTelemetryError (nat * bytes) :=
  _ ← validate_replay_menu v;
  if (length output <? REPLAY_MENU_TELEMETRY_BYTES)%nat then terr "Replay menu output buffer is too small"
  else
    output ← in_front REPLAY_MENU_TELEMETRY_BYTES (fill_replay_menu v) output;
    Ok (REPLAY_MENU_TELEMETRY_BYTES, output).

Definition decode_shortcut_label (length_ : Z) (bs : bytes) : outcome OverlayTelemetryError ReplayShortcutLabel :=
  let n := Z.to_nat length_ in
  let invalid := terr "Replay shortcut label is invalid" in
  if (REPLAY_SHORTCUT_LABEL_BYTES <? n)%nat || negb (length bs =? REPLAY_SHORTCUT_LABEL_BYTES)%nat then invalid
  else
    text ← get_range 0 n bs;
    if existsb (fun b => negb (is_ascii_graphic b) && negb (b =? 32)) text then invalid
    else
      padding ← get_from n bs;
      if any_nonzero padding then invalid
      else Ok {| label_bytes := bs; label_length := unwrap_or (try_from U8_MAX (Z.of_nat n)) 0 |}.

Definition decode_menu_status (b : Z) : outcome OverlayTelemetryError ReplayMenuStatus :=
  if b =? 0 then Ok MenuUnavailable else if b =? 1 then Ok MenuInactive else if b =? 2 then Ok MenuBuffering
  else if b =? 3 then Ok MenuSaving else if b =? 4 then Ok MenuFailed else terr "Replay menu status is invalid".
(** [input.len() != .. || input[..8] != MAGIC]. *)
Definition menu_header_ok (input : bytes) : outcome OverlayTelemetryError bool :=
  if negb (length input =? REPLAY_MENU_TELEMETRY_BYTES)%nat then Ok false
  else magic ← get_range 0 8 input; Ok (bytes_eqb magic REPLAY_MENU_MAGIC).
Definition decode_replay_menu_telemetry (input : bytes) : outcome OverlayTelemetryError ReplayMenuTelemetry :=
  header ← menu_header_ok input;
  if negb header then terr "Replay menu telemetry is invalid"
  else
    version ← read_u16 input 8;
    if negb (version =? REPLAY_MENU_VERSION) then terr "Replay menu version is unsupported"
    else
      b27 ← index input 27;
      status ← decode_menu_status b27;
      revision ← read_u64 input 16;
      b10 ← index input 10; b11 ← index input 11;
      x ← read_u16 input 12; y ← read_u16 input 14;
      hover ← index input 24; pressed ← index input 25; selected ← index input 26;
      available ← read_u16 input 28; click ← read_u16 input 30;
      rate ← index input 32; quality ← index input 33; format ← index input 34; b35 ← index input 35;
      overlay_length ← index input 36; overlay_text ← get_range 40 40 input;
      overlay ← decode_shortcut_label overlay_length overlay_text;
      save_length ← index input 37; save_text ← get_range 80 40 input;
      save ← decode_shortcut_label save_length save_text;
      let value := {|
        menu_revision := revision; menu_visible := b10 =? 1; pointer_pressed := b11 =? 1; menu_cursor_x := x; menu_cursor_y := y;
        hover_target := hover; menu_pressed_target := pressed; selected_duration_index := selected; menu_status := status;
        available_seconds := available; menu_click_revision := click; menu_frame_rate := rate; menu_quality := quality;
        menu_output_format := format; save_enabled := b35 =? 1; overlay_shortcut := overlay; save_shortcut := save |} in
      reserved ← get_range 38 2 input;
      if (1 <? b10) || (1 <? b11) || (1 <? b35) || any_nonzero reserved
      then terr "Replay menu encoding is not canonical"
      else
        closing ← read_u64 input 120;
        if negb (closing =? revision) then terr "Replay menu update is incomplete"
        else _ ← validate_replay_menu value; Ok value.

(** * The hardware block *)
Record OverlayHardwareTelemetry := {
  revision : Z;
  corner : Z;
  preset : Z;
  layout : Z;
  palette : Z;
  metrics : Z;
  opacity_percent : Z;
  scale_percent : Z;
  replay_saved_revision : Z;
  metrics_visible : option bool;
  branding_visible : bool;
  cpu_utilization_tenths : option Z;
  cpu_temperature_tenths_celsius : option Z;
  gpu_utilization_tenths : option Z;
  gpu_temperature_tenths_celsius : option Z;
}.

Definition validate (t : OverlayHardwareTelemetry) : outcome OverlayTelemetryError unit :=
  if (revision t =? 0) || negb (is_multiple_of (revision t) 2)
  then terr "overlay telemetry revision must be positive and even"
  else if (3 <? corner t) || (3 <? preset t) || (2 <? layout t) || (7 <? palette t) || (metrics t =? 0)
          || (100 <? opacity_percent t) || negb ((50 <=? scale_percent t) && (scale_percent t <=? 200))
          || negb (is_multiple_of (scale_percent t) 5)
  then terr "overlay configuration is invalid"
  else if existsb (fun u => MAX_UTILIZATION_TENTHS <? u) (omap id [cpu_utilization_tenths t; gpu_utilization_tenths t])
  then terr "overlay utilization is outside 0 to 100 percent"
  else if existsb (fun c => MAX_TEMPERATURE_TENTHS_CELSIUS <? c)
            (omap id [cpu_temperature_tenths_celsius t; gpu_temperature_tenths_celsius t])
  then terr "overlay temperature is outside the supported range"
  else Ok tt.

Definition write_optional (offset : nat) (value : option Z) (flag : Z) (s : bytes * Z) : outcome OverlayTelemetryError (bytes * Z) :=
  match value with
  | Some v => output ← write_u16 s.1 offset v; Ok (output, Z.lor s.2 flag)
  | None => Ok s
  end.
Definition visibility_u8 (v : option bool) : Z := match v with None => 0 | Some true => 1 | Some false => 2 end.

Definition fill_overlay_hardware (t : OverlayHardwareTelemetry) (output : bytes) : outcome OverlayTelemetryError bytes :=
  output ← set_range 0 (replicate (length output) 0) output;
  output ← set_range 0 MAGIC output;
  output ← write_u16 output 8 VERSION;
  s ← write_optional 24 (cpu_utilization_tenths t) CPU_UTILIZATION_PRESENT (output, 0);
  s ← write_optional 26 (cpu_temperature_tenths_celsius t) CPU_TEMPERATURE_PRESENT s;
  s ← write_optional 28 (gpu_utilization_tenths t) GPU_UTILIZATION_PRESENT s;
  '(output, flags) ← write_optional 30 (gpu_temperature_tenths_celsius t) GPU_TEMPERATURE_PRESENT s;
  output ← write_u16 output 10 flags;
  output ← set_index 12 (corner t) output;
  output ← set_index 13 (preset t) output;
  output ← write_u16 output 14 (metrics t);
  output ← set_index 32 (opacity_percent t) output;
  output ← set_index 33 (scale_percent t) output;
  output ← write_u16 output 34 (replay_saved_revision t);
  output ← set_index 36 (visibility_u8 (metrics_visible t)) output;
  output ← set_index 37 (layout t) output;
  output ← set_index 38 (palette t) output;
  output ← set_index 39 (bool_u8 (branding_visible t)) output;
  output ← write_u64 output 16 (revision t);
  write_u64 output 40 (revision t).
Definition encode_overlay_hardware_telemetry (t : OverlayHardwareTelemetry) (output : bytes)
    : outcome OverlayTelemetryError (nat * bytes) :=
  _ ← validate t;
  if (length output <? OVERLAY_HARDWARE_TELEMETRY_BYTES)%nat then terr "overlay telemetry output buffer is too small"
  else
    output ← in_front OVERLAY_HARDWARE_TELEMETRY_BYTES (fill_overlay_hardware t) output;
    Ok (OVERLAY_HARDWARE_TELEMETRY_BYTES, output).

Definition read_optional (input : bytes) (offset : nat) (flags flag : Z) : outcome OverlayTelemetryError (option Z) :=
  if negb (Z.land flags flag =? 0) then v ← read_u16 input offset; Ok (Some v) else Ok None.
Definition decode_visibility (b : Z) : outcome OverlayTelemetryError (option bool) :=
  if b =? 0 then Ok None else if b =? 1 then Ok (Some true) else if b =? 2 then Ok (Some false)
  else terr "invalid overlay visibility".
Definition decode_branding (b : Z) : outcome OverlayTelemetryError bool :=
  if b =? 0 then Ok false else if b =? 1 then Ok true else terr "invalid branding visibility".
(** The bits of a u16 that are not in the mask: [flags & !KNOWN_FLAGS]. *)
Definition unknown_flags (flags : Z) : Z := Z.land flags (Z.lxor U16_MAX KNOWN_FLAGS).
Definition decode_overlay_hardware_telemetry (input : bytes) : outcome OverlayTelemetryError OverlayHardwareTelemetry :=
  if negb (length input =? OVERLAY_HARDWARE_TELEMETRY_BYTES)%nat then terr "overlay telemetry has invalid size"
  else
    magic ← get_range 0 8 input;
    if negb (bytes_eqb magic MAGIC) then terr "overlay telemetry has invalid magic"
    else
      version ← read_u16 input 8;
      if negb (version =? VERSION) then terr "overlay telemetry version is unsupported"
      else
        flags ← read_u16 input 10;
        if negb (unknown_flags flags =? 0) then terr "overlay telemetry flags are unsupported"
        else
          revision ← read_u64 input 16;
          closing ← read_u64 input 40;
          if (revision =? 0) || negb (is_multiple_of revision 2) || negb (revision =? closing)
          then terr "overlay telemetry update is incomplete"
          else
            b12 ← index input 12; b13 ← index input 13; b37 ← index input 37; b38 ← index input 38;
            metrics ← read_u16 input 14;
            b32 ← index input 32; b33 ← index input 33;
            saved ← read_u16 input 34;
            b36 ← index input 36; visible ← decode_visibility b36;
            b39 ← index input 39; branding ← decode_branding b39;
            cpu ← read_optional input 24 flags CPU_UTILIZATION_PRESENT;
            cpu_temperature ← read_optional input 26 flags CPU_TEMPERATURE_PRESENT;
            gpu ← read_optional input 28 flags GPU_UTILIZATION_PRESENT;
            gpu_temperature ← read_optional input 30 flags GPU_TEMPERATURE_PRESENT;
            let t := {|
              revision := revision; corner := b12; preset := b13; layout := b37; palette := b38; metrics := metrics;
              opacity_percent := b32; scale_percent := b33; replay_saved_revision := saved; metrics_visible := visible;
              branding_visible := branding; cpu_utilization_tenths := cpu; cpu_temperature_tenths_celsius := cpu_temperature;
              gpu_utilization_tenths := gpu; gpu_temperature_tenths_celsius := gpu_temperature |} in
            _ ← validate t;
            Ok t.
