(* ===== verification/OverlayFacts.v ===== *)
(** The telemetry blocks' layout, and the correctness of their codec. *)
From stdpp Require Import strings.
From S2P Require Import Prelude Bytes Text Overlay.
Local Open Scope Z_scope.

(** * The layouts *)
(** A metric's two bytes: when its flag is absent they hold anything. *)
Definition optional_u16 (v : option Z) (g : Z) : bytes := le_bytes 2 (default g v).
Record unread := { g_cpu : Z; g_cpu_temperature : Z; g_gpu : Z; g_gpu_temperature : Z }.
Definition unread_zero : unread := {| g_cpu := 0; g_cpu_temperature := 0; g_gpu := 0; g_gpu_temperature := 0 |}.
Definition present (v : option Z) (flag : Z) : Z := match v with Some _ => flag | None => 0 end.
Definition hardware_flags (t : OverlayHardwareTelemetry) : Z :=
  present (cpu_utilization_tenths t) CPU_UTILIZATION_PRESENT + present (cpu_temperature_tenths_celsius t) CPU_TEMPERATURE_PRESENT
  + present (gpu_utilization_tenths t) GPU_UTILIZATION_PRESENT + present (gpu_temperature_tenths_celsius t) GPU_TEMPERATURE_PRESENT.
Definition wire_hardware_with (t : OverlayHardwareTelemetry) (g : unread) : bytes :=
  MAGIC ++ le_bytes 2 VERSION ++ le_bytes 2 (hardware_flags t) ++ [corner t; preset t] ++ le_bytes 2 (metrics t)
  ++ le_bytes 8 (revision t)
  ++ optional_u16 (cpu_utilization_tenths t) (g_cpu g) ++ optional_u16 (cpu_temperature_tenths_celsius t) (g_cpu_temperature g)
  ++ optional_u16 (gpu_utilization_tenths t) (g_gpu g) ++ optional_u16 (gpu_temperature_tenths_celsius t) (g_gpu_temperature g)
  ++ [opacity_percent t; scale_percent t] ++ le_bytes 2 (replay_saved_revision t)
  ++ [visibility_u8 (metrics_visible t); layout t; palette t; bool_u8 (branding_visible t)]
  ++ le_bytes 8 (revision t).
Definition wire_hardware (t : OverlayHardwareTelemetry) : bytes := wire_hardware_with t unread_zero.
Definition wire_menu (v : ReplayMenuTelemetry) : bytes :=
  REPLAY_MENU_MAGIC ++ le_bytes 2 REPLAY_MENU_VERSION ++ [bool_u8 (menu_visible v); bool_u8 (pointer_pressed v)]
  ++ le_bytes 2 (menu_cursor_x v) ++ le_bytes 2 (menu_cursor_y v) ++ le_bytes 8 (menu_revision v)
  ++ [hover_target v; menu_pressed_target v; selected_duration_index v; ReplayMenuStatus_as_u8 (menu_status v)]
  ++ le_bytes 2 (available_seconds v) ++ le_bytes 2 (menu_click_revision v)
  ++ [menu_frame_rate v; menu_quality v; menu_output_format v; bool_u8 (save_enabled v);
      label_length (overlay_shortcut v); label_length (save_shortcut v); 0; 0]
  ++ label_bytes (overlay_shortcut v) ++ label_bytes (save_shortcut v) ++ le_bytes 8 (menu_revision v).

(** The Rust types' ranges. *)
Definition opt_u16 (v : option Z) : Prop := match v with Some x => in_range U16_MAX x | None => True end.
Record hardware_wf (t : OverlayHardwareTelemetry) : Prop := {
  hw_revision : in_range U64_MAX (revision t);
  hw_bytes : Forall (in_range U8_MAX) [corner t; preset t; layout t; palette t; opacity_percent t; scale_percent t];
  hw_metrics : in_range U16_MAX (metrics t);
  hw_saved : in_range U16_MAX (replay_saved_revision t);
  hw_cpu : opt_u16 (cpu_utilization_tenths t);
  hw_cpu_temperature : opt_u16 (cpu_temperature_tenths_celsius t);
  hw_gpu : opt_u16 (gpu_utilization_tenths t);
  hw_gpu_temperature : opt_u16 (gpu_temperature_tenths_celsius t);
}.
(** A label as [from_shortcut] builds it: printable text, then zeros. *)
Record label_wf (l : ReplayShortcutLabel) : Prop := {
  lw_size : length (label_bytes l) = REPLAY_SHORTCUT_LABEL_BYTES;
  lw_length : 0 <= label_length l <= Z.of_nat REPLAY_SHORTCUT_LABEL_BYTES;
  lw_text : Forall (fun b => is_ascii_graphic b || (b =? 32) = true) (take (Z.to_nat (label_length l)) (label_bytes l));
  lw_padding : Forall (fun b => b = 0) (drop (Z.to_nat (label_length l)) (label_bytes l));
}.

Lemma fill_zero (out : bytes) : set_range 0 (replicate (length out) 0) out = @Ok OverlayTelemetryError _ (replicate (length out) 0).
Proof.
  unfold set_range. rewrite length_replicate, (proj2 (Nat.leb_le _ _)) by lia. f_equal.
  unfold put. apply list_eq. intros i. destruct (decide (i < length out)%nat).
  - rewrite list_lookup_inserts by (rewrite ?length_replicate; lia). by rewrite Nat.sub_0_r.
  - rewrite !lookup_ge_None_2; rewrite ?length_inserts, ?length_replicate; done || lia.
Qed.

Lemma fill_hardware_wire t out :
  length out = OVERLAY_HARDWARE_TELEMETRY_BYTES -> fill_overlay_hardware t out = Ok (wire_hardware t).
Proof.
  intros H. unfold fill_overlay_hardware. rewrite fill_zero, H. cbn [mbind outcome_bind].
  destruct t as [? ? ? ? ? ? ? ? ? vis br [] [] [] []]; cbv -[Z.div Z.modulo]; reflexivity.
Qed.

(** ** Reading the hardware block *)
Lemma le_2 x : in_range U16_MAX x -> le_val [x mod 256; x / 256 mod 256] = x.
Proof. intros H. apply (le_val_le_bytes 2). unfold in_range, U16_MAX in H. lia. Qed.
Lemma le_8 x : in_range U64_MAX x -> le_val (le_bytes 8 x) = x.
Proof. intros H. apply le_val_le_bytes. unfold in_range, U64_MAX in H. lia. Qed.

(** A field of a layout whose parts have computed lengths. *)
Ltac read_field := cbv -[Z.div Z.modulo le_val hardware_flags optional_u16 default]; reflexivity.

Section Hardware.
Context (t : OverlayHardwareTelemetry) (g : unread) (Hwf : hardware_wf t).
Let w := wire_hardware_with t g.

Lemma flags_range : in_range U16_MAX (hardware_flags t) /\ unknown_flags (hardware_flags t) = 0.
Proof.
  unfold hardware_flags. destruct (cpu_utilization_tenths t), (cpu_temperature_tenths_celsius t), (gpu_utilization_tenths t),
    (gpu_temperature_tenths_celsius t); (split; [split; vm_compute; discriminate|vm_compute; reflexivity]).
Qed.

Lemma hardware_u16 off x : get_range off 2 w = @Ok OverlayTelemetryError _ (le_bytes 2 x) -> in_range U16_MAX x -> read_u16 w off = Ok x.
Proof. intros H Hx. unfold read_u16. rewrite H. cbn [mbind outcome_bind]. f_equal. by apply le_2. Qed.
Lemma hardware_u64 off x : get_range off 8 w = @Ok OverlayTelemetryError _ (le_bytes 8 x) -> in_range U64_MAX x -> read_u64 w off = Ok x.
Proof. intros H Hx. unfold read_u64. rewrite H. cbn [mbind outcome_bind]. f_equal. by apply le_8. Qed.

Lemma hardware_optional off v flag d :
  get_range off 2 w = @Ok OverlayTelemetryError _ (optional_u16 v d) -> opt_u16 v ->
  Z.land (hardware_flags t) flag = present v flag -> 0 < flag -> read_optional w off (hardware_flags t) flag = Ok v.
Proof.
  intros H Hv Hf Hpos. unfold read_optional. rewrite Hf. destruct v as [x|]; cbn [present].
  - rewrite (proj2 (Z.eqb_neq flag 0)) by lia. cbn [negb]. by rewrite (hardware_u16 _ x).
  - done.
Qed.

Lemma decode_hardware_wire : validate t = Ok tt -> decode_overlay_hardware_telemetry w = Ok t.
Proof.
  intros Hv.
  assert (Er : (revision t =? 0) || negb (is_multiple_of (revision t) 2) = false)
    by (destruct (_ || _) eqn:Er; [unfold validate in Hv; by rewrite Er in Hv|done]).
  destruct flags_range as [Hfr Hfu]. destruct Hwf as [Hrev Hbytes Hm Hs H1 H2 H3 H4].
  unfold decode_overlay_hardware_telemetry.
  assert (Hlen : length w = OVERLAY_HARDWARE_TELEMETRY_BYTES) by read_field. rewrite Hlen, Nat.eqb_refl. cbn [negb].
  replace (get_range 0 8 w) with (@Ok OverlayTelemetryError _ MAGIC) by (symmetry; read_field). cbn [mbind outcome_bind].
  rewrite bytes_eqb_refl. cbn [negb].
  rewrite (hardware_u16 8 VERSION) by (read_field || (split; vm_compute; discriminate)). cbn [mbind outcome_bind]. rewrite Z.eqb_refl. cbn [negb].
  rewrite (hardware_u16 10 (hardware_flags t)) by (try exact Hfr; read_field). cbn [mbind outcome_bind]. rewrite Hfu, Z.eqb_refl. cbn [negb].
  rewrite (hardware_u64 16 (revision t)), (hardware_u64 40 (revision t)) by (try exact Hrev; read_field). cbn [mbind outcome_bind].
  rewrite Z.eqb_refl. cbn [negb]. rewrite orb_false_r.
  rewrite Er.
  replace (index w 12) with (@Ok OverlayTelemetryError _ (corner t)) by (symmetry; read_field). cbn [mbind outcome_bind].
  replace (index w 13) with (@Ok OverlayTelemetryError _ (preset t)) by (symmetry; read_field). cbn [mbind outcome_bind].
  replace (index w 37) with (@Ok OverlayTelemetryError _ (layout t)) by (symmetry; read_field). cbn [mbind outcome_bind].
  replace (index w 38) with (@Ok OverlayTelemetryError _ (palette t)) by (symmetry; read_field). cbn [mbind outcome_bind].
  rewrite (hardware_u16 14 (metrics t)) by (try exact Hm; read_field). cbn [mbind outcome_bind].
  replace (index w 32) with (@Ok OverlayTelemetryError _ (opacity_percent t)) by (symmetry; read_field). cbn [mbind outcome_bind].
  replace (index w 33) with (@Ok OverlayTelemetryError _ (scale_percent t)) by (symmetry; read_field). cbn [mbind outcome_bind].
  rewrite (hardware_u16 34 (replay_saved_revision t)) by (try exact Hs; read_field). cbn [mbind outcome_bind].
  replace (index w 36) with (@Ok OverlayTelemetryError _ (visibility_u8 (metrics_visible t))) by (symmetry; read_field). cbn [mbind outcome_bind].
  replace (index w 39) with (@Ok OverlayTelemetryError _ (bool_u8 (branding_visible t))) by (symmetry; read_field). cbn [mbind outcome_bind].
  replace (decode_visibility (visibility_u8 (metrics_visible t))) with (@Ok OverlayTelemetryError _ (metrics_visible t))
    by (by destruct (metrics_visible t) as [[]|]). cbn [mbind outcome_bind].
  replace (decode_branding (bool_u8 (branding_visible t))) with (@Ok OverlayTelemetryError _ (branding_visible t)) by (by destruct (branding_visible t)).
  cbn [mbind outcome_bind].
  assert (Hland : Z.land (hardware_flags t) CPU_UTILIZATION_PRESENT = present (cpu_utilization_tenths t) CPU_UTILIZATION_PRESENT
    /\ Z.land (hardware_flags t) CPU_TEMPERATURE_PRESENT = present (cpu_temperature_tenths_celsius t) CPU_TEMPERATURE_PRESENT
    /\ Z.land (hardware_flags t) GPU_UTILIZATION_PRESENT = present (gpu_utilization_tenths t) GPU_UTILIZATION_PRESENT
    /\ Z.land (hardware_flags t) GPU_TEMPERATURE_PRESENT = present (gpu_temperature_tenths_celsius t) GPU_TEMPERATURE_PRESENT).
  { unfold hardware_flags. destruct (cpu_utilization_tenths t), (cpu_temperature_tenths_celsius t), (gpu_utilization_tenths t),
      (gpu_temperature_tenths_celsius t); by splits. }
  destruct Hland as (F1 & F2 & F3 & F4).
  rewrite (hardware_optional 24 _ _ _ ltac:(read_field) H1 F1), (hardware_optional 26 _ _ _ ltac:(read_field) H2 F2),
    (hardware_optional 28 _ _ _ ltac:(read_field) H3 F3), (hardware_optional 30 _ _ _ ltac:(read_field) H4 F4) by reflexivity.
  cbn [mbind outcome_bind]. destruct t. cbn in Hv. cbn. by rewrite Hv.
Qed.
End Hardware.


(** Every 48 bytes are the cells of a block. *)
Ltac cells w H := repeat (destruct w as [|? w]; [discriminate H|]); destruct w; [clear H|discriminate H].
Lemma le_val_2_bytes a b : is_byte a -> is_byte b -> le_bytes 2 (le_val [a; b]) = [a; b].
Proof. intros. apply (le_bytes_le_val [a; b]). by repeat (apply Forall_cons; split). Qed.

Lemma le_val_8_bytes a b c d e f g h :
  Forall is_byte [a; b; c; d; e; f; g; h] -> le_bytes 8 (le_val [a; b; c; d; e; f; g; h]) = [a; b; c; d; e; f; g; h].
Proof. intros. by apply (le_bytes_le_val [a; b; c; d; e; f; g; h]). Qed.
Lemma le_val_2_range a b : is_byte a -> is_byte b -> in_range U16_MAX (le_val [a; b]).
Proof. unfold is_byte, in_range, U8_MAX, U16_MAX. cbn. lia. Qed.
Lemma le_val_8_range bs : Forall is_byte bs -> length bs = 8%nat -> in_range U64_MAX (le_val bs).
Proof.
  intros H Hl. pose proof (le_val_bound bs H) as Hb. unfold zlen in Hb. rewrite Hl in Hb.
  change (256 ^ Z.of_nat 8) with (U64_MAX + 1) in Hb. unfold in_range. lia.
Qed.

(** Known flags are the sum of the present ones. *)
Lemma known_flags_sum f :
  in_range U16_MAX f -> unknown_flags f = 0 ->
  f = Z.land f CPU_UTILIZATION_PRESENT + Z.land f CPU_TEMPERATURE_PRESENT + Z.land f GPU_UTILIZATION_PRESENT + Z.land f GPU_TEMPERATURE_PRESENT.
Proof.
  intros Hr Hu. assert (Hf : f = Z.land f 15).
  { transitivity (Z.land f (Z.lor 15 65520)).
    - change (Z.lor 15 65520) with (Z.ones 16). rewrite Z.land_ones by lia. symmetry. apply Z.mod_small.
      unfold in_range, U16_MAX in Hr. change (2 ^ 16) with 65536. lia.
    - rewrite Z.land_lor_distr_r. unfold unknown_flags in Hu. change (Z.lxor U16_MAX KNOWN_FLAGS) with 65520 in Hu.
      rewrite Hu. apply Z.lor_0_r. }
  change 15 with (Z.ones 4) in Hf. rewrite Z.land_ones in Hf by lia. change (2 ^ 4) with 16 in Hf.
  assert (0 <= f < 16) by (rewrite Hf; apply Z.mod_pos_bound; lia). clear -H.
  assert (f = 0 \/ f = 1 \/ f = 2 \/ f = 3 \/ f = 4 \/ f = 5 \/ f = 6 \/ f = 7 \/ f = 8 \/ f = 9 \/ f = 10 \/ f = 11
    \/ f = 12 \/ f = 13 \/ f = 14 \/ f = 15) as Hc by lia.
  repeat (destruct Hc as [->|Hc]; [reflexivity|]). by subst f.
Qed.
Lemma land_bit f k : 0 <= k -> Z.land f (Z.shiftl 1 k) = 0 \/ Z.land f (Z.shiftl 1 k) = Z.shiftl 1 k.
Proof.
  intros Hk. rewrite Z.shiftl_1_l. destruct (Z.testbit f k) eqn:E; [right|left]; apply Z.bits_inj'; intros n Hn;
    rewrite Z.land_spec, Z.pow2_bits_eqb by lia; destruct (Z.eqb_spec k n) as [->|]; rewrite ?E, ?andb_false_r, ?Z.bits_0; done.
Qed.

(** A metric that was read, and the bytes it was read from. *)
Definition read_flagged (f flag x : Z) : option Z := if negb (Z.land f flag =? 0) then Some x else None.
Lemma read_flagged_spec f k x :
  0 <= k -> let flag := Z.shiftl 1 k in
  present (read_flagged f flag x) flag = Z.land f flag /\ default x (read_flagged f flag x) = x
  /\ (in_range U16_MAX x -> opt_u16 (read_flagged f flag x)).
Proof.
  intros Hk flag. unfold read_flagged. destruct (land_bit f k Hk) as [E|E]; fold flag in E; rewrite E; [done|].
  destruct (Z.eqb_spec flag 0) as [H0|]; [|done].
  unfold flag in H0. rewrite Z.shiftl_1_l in H0. pose proof (Z.pow_pos_nonneg 2 k). lia.
Qed.

Definition unread_wf (g : unread) : Prop :=
  in_range U16_MAX (g_cpu g) /\ in_range U16_MAX (g_cpu_temperature g) /\ in_range U16_MAX (g_gpu g) /\ in_range U16_MAX (g_gpu_temperature g).

Lemma decode_visibility_ok b v : decode_visibility b = Ok v -> b = visibility_u8 v.
Proof. unfold decode_visibility. intros H. repeat (case_match; simplify_eq); cbn; lia. Qed.
Lemma decode_branding_ok b v : decode_branding b = Ok v -> b = bool_u8 v.
Proof. unfold decode_branding. intros H. repeat (case_match; simplify_eq); cbn; lia. Qed.

Lemma read_optional_flagged w off f flag bs :
  get_range off 2 w = @Ok OverlayTelemetryError _ bs -> read_optional w off f flag = Ok (read_flagged f flag (le_val bs)).
Proof. intros H. unfold read_optional, read_flagged, read_u16. rewrite H. cbn. by destruct (negb _). Qed.

(** The layout that a decoded block has. *)
Lemma decode_hardware_cells w t :
  is_bytes w -> decode_overlay_hardware_telemetry w = Ok t ->
  validate t = Ok tt /\ hardware_wf t /\ exists g, unread_wf g /\ w = wire_hardware_with t g.
Proof.
  intros Hw H. assert (Hlen : length w = 48%nat).
  { unfold decode_overlay_hardware_telemetry in H. destruct (Nat.eqb_spec (length w) OVERLAY_HARDWARE_TELEMETRY_BYTES); [done|discriminate H]. }
  cells w Hlen. unfold is_bytes in Hw. rewrite !Forall_cons in Hw. decompose [and] Hw. clear Hw.
  cbv -[le_val Z.eqb Z.land bytes_eqb negb orb unknown_flags decode_visibility decode_branding is_multiple_of validate Z.modulo
    CPU_UTILIZATION_PRESENT CPU_TEMPERATURE_PRESENT GPU_UTILIZATION_PRESENT GPU_TEMPERATURE_PRESENT VERSION MAGIC
    is_byte read_optional] in H.
  destruct (bytes_eqb _ MAGIC) eqn:Em; cbn [negb] in H; [apply bool_decide_eq_true in Em|discriminate H].
  destruct (Z.eqb_spec (le_val [z7; z8]) VERSION) as [Ev|]; cbn [negb] in H; [|discriminate H].
  destruct (Z.eqb_spec (unknown_flags (le_val [z9; z10])) 0) as [Ef|]; cbn [negb] in H; [|discriminate H].
  case_match eqn:Er; [discriminate H|]. rewrite !orb_false_iff in Er. destruct Er as [_ Er].
  apply negb_false_iff, Z.eqb_eq in Er.
  destruct (decode_visibility z35) as [vis| |] eqn:Evis; [|discriminate H..]. apply decode_visibility_ok in Evis.
  destruct (decode_branding z38) as [bran| |] eqn:Eb; [|discriminate H..]. apply decode_branding_ok in Eb.
  rewrite (read_optional_flagged _ 24 _ _ [z23; z24]), (read_optional_flagged _ 26 _ _ [z25; z26]),
    (read_optional_flagged _ 28 _ _ [z27; z28]), (read_optional_flagged _ 30 _ _ [z29; z30]) in H by reflexivity.
  destruct (validate _) as [[]| |] eqn:Eval in H; [|discriminate H..].
  apply (f_equal (fun o => match o with Ok x => x | _ => t end)) in H. rewrite H in Eval.
  split; [exact Eval|]. subst t.
  destruct (read_flagged_spec (le_val [z9; z10]) 0 (le_val [z23; z24])) as (P1 & D1 & W1); [lia|].
  destruct (read_flagged_spec (le_val [z9; z10]) 1 (le_val [z25; z26])) as (P2 & D2 & W2); [lia|].
  destruct (read_flagged_spec (le_val [z9; z10]) 2 (le_val [z27; z28])) as (P3 & D3 & W3); [lia|].
  destruct (read_flagged_spec (le_val [z9; z10]) 3 (le_val [z29; z30])) as (P4 & D4 & W4); [lia|].
  split.
  - constructor; cbn [revision corner preset layout palette opacity_percent scale_percent metrics replay_saved_revision
      cpu_utilization_tenths cpu_temperature_tenths_celsius gpu_utilization_tenths gpu_temperature_tenths_celsius];
      [apply le_val_8_range; [by repeat (apply Forall_cons; split)|done]|by repeat (apply Forall_cons; split)
      |by apply le_val_2_range|by apply le_val_2_range|apply W1|apply W2|apply W3|apply W4]; by apply le_val_2_range.
  - exists {| g_cpu := le_val [z23; z24]; g_cpu_temperature := le_val [z25; z26]; g_gpu := le_val [z27; z28];
              g_gpu_temperature := le_val [z29; z30] |}.
    split; [by repeat split; apply le_val_2_range|].
    unfold wire_hardware_with, optional_u16, hardware_flags.
    cbn [revision corner preset layout palette opacity_percent scale_percent metrics replay_saved_revision metrics_visible branding_visible
      cpu_utilization_tenths cpu_temperature_tenths_celsius gpu_utilization_tenths gpu_temperature_tenths_celsius
      g_cpu g_cpu_temperature g_gpu g_gpu_temperature].
    unfold CPU_UTILIZATION_PRESENT, CPU_TEMPERATURE_PRESENT, GPU_UTILIZATION_PRESENT, GPU_TEMPERATURE_PRESENT in *.
    rewrite P1, P2, P3, P4, D1, D2, D3, D4, <- known_flags_sum by (done || by apply le_val_2_range).
    rewrite <- Em, <- Ev, <- Evis, <- Eb, !le_val_2_bytes by done. rewrite Er at 2.
    rewrite !le_val_8_bytes by (by repeat (apply Forall_cons; split)). reflexivity.
Qed.

(** The hardware block's decoder accepts a block exactly when it is the
    layout of a valid telemetry record, apart from the bytes of the metrics
    whose flag is absent, which it ignores. *)
Theorem hardware_decode_exact w t :
  is_bytes w ->
  decode_overlay_hardware_telemetry w = Ok t
  <-> validate t = Ok tt /\ hardware_wf t /\ exists g, unread_wf g /\ w = wire_hardware_with t g.
Proof.
  intros Hw. split; [by apply decode_hardware_cells|].
  intros (Hv & Hwf & g & _ & ->). by apply decode_hardware_wire.
Qed.

