(* ===== verification/OverlayMenu.v ===== *)
(** The replay menu block: its layout, and the correctness of its codec. *)
From stdpp Require Import strings.
From S2P Require Import Prelude Bytes Text Overlay OverlayFacts.
Local Open Scope Z_scope.

(** * Shortcut labels *)
Lemma existsb_Forall_false {A} (f : A -> bool) l : existsb f l = false <-> Forall (fun a => f a = false) l.
Proof.
  induction l as [|a l IH]; cbn; [by split; [constructor|]|].
  rewrite orb_false_iff, IH, Forall_cons. done.
Qed.
Lemma any_nonzero_Forall bs : any_nonzero bs = false <-> Forall (fun b => b = 0) bs.
Proof.
  unfold any_nonzero. rewrite existsb_Forall_false. apply Forall_iff. intros b.
  rewrite negb_false_iff. apply Z.eqb_eq.
Qed.
Lemma label_char_byte b : is_ascii_graphic b || (b =? 32) = true -> is_byte b.
Proof. unfold is_ascii_graphic, is_byte, U8_MAX. lia. Qed.
Lemma label_bytes_wf l : label_wf l -> is_bytes (label_bytes l).
Proof.
  intros [_ _ Ht Hp]. rewrite <- (take_drop (Z.to_nat (label_length l)) (label_bytes l)). apply Forall_app. split.
  - eapply Forall_impl; [exact Ht|]. apply label_char_byte.
  - eapply Forall_impl; [exact Hp|]. intros ? ->. split; vm_compute; discriminate.
Qed.

Lemma EMPTY_wf : label_wf EMPTY.
Proof. constructor; [done|vm_compute; split; discriminate|constructor|]. cbn. by repeat constructor. Qed.
Lemma label_push_wf b l : label_wf l -> label_wf (label_push b l).
Proof.
  intros [Hs Hl Ht Hp]. unfold label_push. destruct (Z.ltb_spec (label_length l) (zlen (label_bytes l))) as [Hlt|]; cbn [andb]; [|by constructor].
  destruct (is_ascii_graphic b || (b =? 32)) eqn:Eb; [|by constructor]. unfold zlen in Hlt. rewrite Hs in Hlt.
  unfold REPLAY_SHORTCUT_LABEL_BYTES in *.
  assert (Hn : sat_add U8_MAX (label_length l) 1 = label_length l + 1) by (unfold sat_add, U8_MAX; lia).
  assert (HS : Z.to_nat (label_length l + 1) = S (Z.to_nat (label_length l))) by lia.
  constructor; cbn [label_bytes label_length]; rewrite ?Hn, ?HS.
  - by rewrite length_insert.
  - unfold REPLAY_SHORTCUT_LABEL_BYTES. lia.
  - rewrite (take_S_r _ _ b) by (apply list_lookup_insert_eq; lia). apply Forall_app.
    split; [by rewrite take_insert_ge by lia|by constructor].
  - rewrite drop_insert_lt by lia. eapply (Forall_drop _ 1) in Hp. by rewrite drop_drop, Nat.add_1_r in Hp.
Qed.
Lemma push_bytes_wf bs l : label_wf l -> label_wf (push_bytes bs l).
Proof. unfold push_bytes. revert l. induction bs as [|b bs IH]; intros l H; [done|]. cbn. by apply IH, label_push_wf. Qed.
Lemma push_parts_wf i parts l : label_wf l -> label_wf (push_parts i parts l).
Proof.
  revert i l. induction parts as [|part parts IH]; intros i l H; [done|]. cbn [push_parts].
  apply IH, push_bytes_wf. destruct (0 <? i)%nat; [by apply push_bytes_wf|done].
Qed.
Lemma from_shortcut_wf s : label_wf (from_shortcut s).
Proof. apply push_parts_wf, EMPTY_wf. Qed.

Lemma decode_shortcut_label_ok n bs l :
  is_byte n -> decode_shortcut_label n bs = Ok l <-> label_wf l /\ label_bytes l = bs /\ label_length l = n.
Proof.
  intros Hn. unfold is_byte, U8_MAX in Hn. unfold decode_shortcut_label, REPLAY_SHORTCUT_LABEL_BYTES.
  split.
  - destruct (Nat.ltb_spec 40 (Z.to_nat n)) as [|Hle]; cbn [orb]; [done|].
    destruct (Nat.eqb_spec (length bs) 40) as [Hlen|]; cbn [negb]; [|done].
    unfold get_range, get_from. rewrite !(proj2 (Nat.leb_le _ _)) by lia. cbn [mbind outcome_bind].
    destruct (existsb _ _) eqn:Et; [done|]. destruct (any_nonzero _) eqn:Ep; [done|]. intros [= <-].
    assert (E : unwrap_or (try_from U8_MAX (Z.of_nat (Z.to_nat n))) 0 = n).
    { rewrite Z2Nat.id by lia. unfold try_from, U8_MAX. rewrite (proj2 (Z.leb_le _ _)) by lia. done. }
    rewrite E. cbn [label_bytes label_length]. splits; try done. constructor; cbn [label_bytes label_length]; [done| | |].
    + unfold REPLAY_SHORTCUT_LABEL_BYTES. lia.
    + apply existsb_Forall_false in Et. unfold slice in Et. rewrite drop_0 in Et.
      eapply Forall_impl; [exact Et|]. cbn. intros b Hb. destruct (is_ascii_graphic b), (b =? 32); done.
    + by apply any_nonzero_Forall.
  - intros ([Hs Hl Ht Hp] & <- & <-). unfold REPLAY_SHORTCUT_LABEL_BYTES in *.
    rewrite (proj2 (Nat.ltb_ge _ _)) by lia. rewrite Hs, Nat.eqb_refl. cbn [orb negb].
    unfold get_range, get_from. rewrite Hs, !(proj2 (Nat.leb_le _ _)) by lia. cbn [mbind outcome_bind].
    unfold slice. rewrite drop_0.
    replace (existsb _ _) with false; [|symmetry; apply existsb_Forall_false; eapply Forall_impl; [exact Ht|]; cbn; intros b Hb;
      by destruct (is_ascii_graphic b), (b =? 32)].
    apply any_nonzero_Forall in Hp. rewrite Hp. rewrite Z2Nat.id by lia. unfold try_from, U8_MAX.
    rewrite (proj2 (Z.leb_le _ _)) by lia. by destruct l.
Qed.
Lemma decode_label l : label_wf l -> decode_shortcut_label (label_length l) (label_bytes l) = Ok l.
Proof.
  intros H. apply decode_shortcut_label_ok; [|done]. destruct H as [_ H _ _]. unfold is_byte, U8_MAX, REPLAY_SHORTCUT_LABEL_BYTES in *. lia.
Qed.

(** * The block *)
Record menu_wf (v : ReplayMenuTelemetry) : Prop := {
  mw_revision : in_range U64_MAX (menu_revision v);
  mw_words : Forall (in_range U16_MAX) [menu_cursor_x v; menu_cursor_y v; available_seconds v; menu_click_revision v];
  mw_bytes : Forall is_byte [hover_target v; menu_pressed_target v; selected_duration_index v; menu_frame_rate v;
    menu_quality v; menu_output_format v];
  mw_overlay : label_wf (overlay_shortcut v);
  mw_save : label_wf (save_shortcut v);
}.

Lemma fill_menu_wire v out :
  length out = REPLAY_MENU_TELEMETRY_BYTES -> label_wf (overlay_shortcut v) -> label_wf (save_shortcut v) ->
  fill_replay_menu v out = Ok (wire_menu v).
Proof.
  intros H [Ha _ _ _] [Hb _ _ _]. unfold fill_replay_menu, wire_menu. rewrite fill_zero, H.
  revert Ha Hb. generalize (label_bytes (overlay_shortcut v)) as a, (label_bytes (save_shortcut v)) as b.
  generalize (label_length (overlay_shortcut v)) as la, (label_length (save_shortcut v)) as lb.
  intros la lb a b Ha Hb. cells a Ha. cells b Hb.
  destruct v as [? [] [] ? ? ? ? ? [] ? ? ? ? ? [] ? ?]; cbv -[Z.div Z.modulo]; reflexivity.
Qed.

(** ** Reading the block *)
Section Reading.
Context (v : ReplayMenuTelemetry) (Hwf : menu_wf v).
Let w := wire_menu v.

Ltac read_cell := cbv -[Z.div Z.modulo le_val label_bytes label_length bool_u8 ReplayMenuStatus_as_u8]; reflexivity.

Lemma menu_u16 off x : get_range off 2 w = @Ok OverlayTelemetryError _ (le_bytes 2 x) -> in_range U16_MAX x -> read_u16 w off = Ok x.
Proof. intros H Hx. unfold read_u16. rewrite H. cbn [mbind outcome_bind]. f_equal. by apply le_2. Qed.
Lemma menu_u64 off x : get_range off 8 w = @Ok OverlayTelemetryError _ (le_bytes 8 x) -> in_range U64_MAX x -> read_u64 w off = Ok x.
Proof. intros H Hx. unfold read_u64. rewrite H. cbn [mbind outcome_bind]. f_equal. by apply le_8. Qed.

Lemma menu_segments :
  get_range 40 40 w = @Ok OverlayTelemetryError _ (label_bytes (overlay_shortcut v))
  /\ get_range 80 40 w = @Ok OverlayTelemetryError _ (label_bytes (save_shortcut v))
  /\ get_range 120 8 w = @Ok OverlayTelemetryError _ (le_bytes 8 (menu_revision v)) /\ length w = REPLAY_MENU_TELEMETRY_BYTES.
Proof.
  destruct Hwf as [_ _ _ [Ha _ _ _] [Hb _ _ _]]. subst w. unfold wire_menu. revert Ha Hb.
  generalize (label_bytes (overlay_shortcut v)) as a, (label_bytes (save_shortcut v)) as b. intros a b Ha Hb.
  cells a Ha. cells b Hb. splits; read_cell.
Qed.

Lemma decode_menu_wire : validate_replay_menu v = Ok tt -> decode_replay_menu_telemetry w = Ok v.
Proof.
  intros Hv. destruct Hwf as [Hrev Hws Hbs Ho Hs]. rewrite !Forall_cons in Hws. destruct Hws as (Hx & Hy & Hav & Hcl & _).
  destruct menu_segments as (Sa & Sb & Sc & Hlen).
  unfold decode_replay_menu_telemetry, menu_header_ok. rewrite Hlen, Nat.eqb_refl. cbn [negb].
  replace (get_range 0 8 w) with (@Ok OverlayTelemetryError _ REPLAY_MENU_MAGIC) by (symmetry; read_cell). cbn [mbind outcome_bind].
  rewrite bytes_eqb_refl. cbn [negb].
  rewrite (menu_u16 8 REPLAY_MENU_VERSION) by first [by (split; vm_compute; discriminate)|read_cell].
  cbn [mbind outcome_bind]. rewrite Z.eqb_refl. cbn [negb].
  replace (index w 27) with (@Ok OverlayTelemetryError _ (ReplayMenuStatus_as_u8 (menu_status v))) by (symmetry; read_cell).
  cbn [mbind outcome_bind].
  replace (decode_menu_status _) with (@Ok OverlayTelemetryError _ (menu_status v)) by (by destruct (menu_status v)).
  cbn [mbind outcome_bind].
  rewrite (menu_u64 16 (menu_revision v)), (menu_u64 120 (menu_revision v)) by (first [exact Hrev|exact Sc|read_cell]).
  cbn [mbind outcome_bind].
  rewrite (menu_u16 12 (menu_cursor_x v)) by first [exact Hx|read_cell].
  rewrite (menu_u16 14 (menu_cursor_y v)) by first [exact Hy|read_cell].
  rewrite (menu_u16 28 (available_seconds v)) by first [exact Hav|read_cell].
  rewrite (menu_u16 30 (menu_click_revision v)) by first [exact Hcl|read_cell].
  replace (index w 10) with (@Ok OverlayTelemetryError _ (bool_u8 (menu_visible v))) by (symmetry; read_cell).
  replace (index w 11) with (@Ok OverlayTelemetryError _ (bool_u8 (pointer_pressed v))) by (symmetry; read_cell).
  replace (index w 24) with (@Ok OverlayTelemetryError _ (hover_target v)) by (symmetry; read_cell).
  replace (index w 25) with (@Ok OverlayTelemetryError _ (menu_pressed_target v)) by (symmetry; read_cell).
  replace (index w 26) with (@Ok OverlayTelemetryError _ (selected_duration_index v)) by (symmetry; read_cell).
  replace (index w 32) with (@Ok OverlayTelemetryError _ (menu_frame_rate v)) by (symmetry; read_cell).
  replace (index w 33) with (@Ok OverlayTelemetryError _ (menu_quality v)) by (symmetry; read_cell).
  replace (index w 34) with (@Ok OverlayTelemetryError _ (menu_output_format v)) by (symmetry; read_cell).
  replace (index w 35) with (@Ok OverlayTelemetryError _ (bool_u8 (save_enabled v))) by (symmetry; read_cell).
  replace (index w 36) with (@Ok OverlayTelemetryError _ (label_length (overlay_shortcut v))) by (symmetry; read_cell).
  replace (index w 37) with (@Ok OverlayTelemetryError _ (label_length (save_shortcut v))) by (symmetry; read_cell).
  replace (get_range 38 2 w) with (@Ok OverlayTelemetryError _ [0; 0]) by (symmetry; read_cell).
  cbn [mbind outcome_bind]. rewrite Sa, Sb. cbn [mbind outcome_bind].
  rewrite (decode_label _ Ho). cbn [mbind outcome_bind]. rewrite (decode_label _ Hs). cbn [mbind outcome_bind].
  assert (Hb : forall b, (bool_u8 b =? 1) = b /\ (1 <? bool_u8 b) = false) by by intros [].
  rewrite !(fun b => proj1 (Hb b)), !(fun b => proj2 (Hb b)). cbn [orb any_nonzero existsb negb Z.eqb]. rewrite Z.eqb_refl. cbn [negb].
  destruct v. cbn in Hv. cbn. by rewrite Hv.
Qed.
End Reading.

Lemma decode_menu_status_ok b s : decode_menu_status b = Ok s -> b = ReplayMenuStatus_as_u8 s.
Proof. unfold decode_menu_status. intros H. repeat (case_match; simplify_eq); cbn; lia. Qed.
Lemma bool_cell b : is_byte b -> (1 <? b) = false -> b = bool_u8 (b =? 1).
Proof. unfold is_byte. intros H Hb. destruct (Z.eqb_spec b 1); cbn; lia. Qed.

(** A block is 40 cells, two labels and the closing revision. *)
Lemma menu_split w :
  length w = REPLAY_MENU_TELEMETRY_BYTES ->
  exists (p a b c : bytes), w = p ++ a ++ b ++ c /\ length p = 40%nat /\ length a = 40%nat /\ length b = 40%nat /\ length c = 8%nat.
Proof.
  unfold REPLAY_MENU_TELEMETRY_BYTES. intros H. exists (take 40 w), (take 40 (drop 40 w)), (take 40 (drop 80 w)), (drop 120 w).
  rewrite !length_take, !length_drop. splits; try lia.
  change (drop 80 w) with (drop (40 + 40) w). change (drop 120 w) with (drop (40 + 40 + 40) w).
  by rewrite <- !drop_drop, !take_drop.
Qed.

Lemma get_range_front off n p r :
  (off + n <= length p)%nat -> get_range off n (p ++ r) = @get_range OverlayTelemetryError off n p.
Proof.
  intros H. unfold get_range. rewrite length_app, !(proj2 (Nat.leb_le _ _)) by lia. by rewrite slice_app_l.
Qed.
Lemma index_front i p r : (i < length p)%nat -> index (p ++ r) i = @index OverlayTelemetryError p i.
Proof. intros H. unfold index. by rewrite lookup_app_l. Qed.

Lemma decode_menu_cells w v :
  is_bytes w -> decode_replay_menu_telemetry w = Ok v -> validate_replay_menu v = Ok tt /\ menu_wf v /\ w = wire_menu v.
Proof.
  intros Hw H. assert (Hlen : length w = REPLAY_MENU_TELEMETRY_BYTES).
  { unfold decode_replay_menu_telemetry, menu_header_ok in H.
    destruct (Nat.eqb_spec (length w) REPLAY_MENU_TELEMETRY_BYTES); [done|discriminate H]. }
  unfold decode_replay_menu_telemetry, menu_header_ok in H. rewrite Hlen, Nat.eqb_refl in H. cbn [negb] in H.
  destruct (menu_split w Hlen) as (p & a & b & c & -> & Hp & Ha & Hb & Hc). clear Hlen.
  unfold is_bytes in Hw. rewrite !Forall_app in Hw. destruct Hw as (Hwp & Hwa & Hwb & Hwc).
  unfold read_u16, read_u64 in H.
  rewrite (get_range_app 40 40 p a _ Hp Ha) in H. rewrite (app_assoc p a), (get_range_app 80 40 _ b c) in H by (rewrite ?length_app; lia).
  rewrite <- (app_nil_r c), (app_assoc (p ++ a)) in H. rewrite (get_range_app 120 8 _ c []) in H by (rewrite ?length_app; lia).
  rewrite <- !app_assoc in H. rewrite !get_range_front in H by (rewrite Hp; lia). rewrite !index_front in H by (rewrite Hp; lia).
  cells p Hp.
  cbv -[le_val Z.eqb Z.ltb bytes_eqb negb orb decode_menu_status decode_shortcut_label validate_replay_menu REPLAY_MENU_VERSION
    REPLAY_MENU_MAGIC is_byte any_nonzero] in H.
  rewrite !Forall_cons in Hwp. decompose [and] Hwp. clear Hwp.
  destruct (bytes_eqb _ REPLAY_MENU_MAGIC) eqn:Em; cbn [negb] in H; [apply bool_decide_eq_true in Em|discriminate H].
  destruct (Z.eqb_spec (le_val [z7; z8]) REPLAY_MENU_VERSION) as [Ev|]; cbn [negb] in H; [|discriminate H].
  destruct (decode_menu_status z26) as [st| |] eqn:Est; [apply decode_menu_status_ok in Est|discriminate H..].
  destruct (decode_shortcut_label z35 a) as [la| |] eqn:Ela; [|discriminate H..].
  destruct (decode_shortcut_label z36 b) as [lb| |] eqn:Elb; [|discriminate H..].
  apply decode_shortcut_label_ok in Ela as (Wa & Ea1 & Ea2); [|done]. apply decode_shortcut_label_ok in Elb as (Wb & Eb1 & Eb2); [|done].
  destruct ((1 <? z9) || (1 <? z10) || (1 <? z34) || any_nonzero [z37; z38]) eqn:Ebs; [discriminate H|].
  rewrite !orb_false_iff in Ebs. destruct Ebs as (((B1 & B2) & B3) & B4).
  apply any_nonzero_Forall in B4. rewrite !Forall_cons in B4. destruct B4 as (R1 & R2 & _).
  destruct (Z.eqb_spec (le_val c) (le_val [z15; z16; z17; z18; z19; z20; z21; z22])) as [Ec|]; cbn [negb] in H; [|discriminate H].
  destruct (validate_replay_menu _) as [[]| |] eqn:Eval in H; [|discriminate H..].
  apply (f_equal (fun o => match o with Ok x => x | _ => v end)) in H. rewrite H in Eval.
  split; [exact Eval|]. subst v. split.
  - constructor; cbn [menu_revision menu_cursor_x menu_cursor_y available_seconds menu_click_revision hover_target menu_pressed_target
      selected_duration_index menu_frame_rate menu_quality menu_output_format overlay_shortcut save_shortcut]; [..|exact Wa|exact Wb].
    + apply le_val_8_range; [by repeat (apply Forall_cons; split)|done].
    + by repeat (apply Forall_cons; split); [apply le_val_2_range..|].
    + by repeat (apply Forall_cons; split).
  - unfold wire_menu. cbn [menu_revision menu_visible pointer_pressed menu_cursor_x menu_cursor_y available_seconds menu_click_revision hover_target menu_pressed_target
      selected_duration_index menu_status menu_frame_rate menu_quality menu_output_format save_enabled overlay_shortcut save_shortcut].
    rewrite <- Em, <- Ev, <- Est, Ea1, Ea2, Eb1, Eb2, <- !bool_cell, !le_val_2_bytes by done.
    rewrite !le_val_8_bytes by (by repeat (apply Forall_cons; split)).
    assert (Hcc : le_bytes 8 (le_val c) = c) by (by apply le_bytes_le_val_n). rewrite Ec in Hcc.
    rewrite le_val_8_bytes in Hcc by (by repeat (apply Forall_cons; split)). rewrite <- Hcc, R1, R2. reflexivity.
Qed.

(** * Encoding *)
Lemma in_front_ok n f out bs :
  (n <= length out)%nat -> f (take n out) = Ok bs -> in_front n f out = Ok (bs ++ drop n out).
Proof.
  intros Hn H. unfold in_front, get_range. rewrite (proj2 (Nat.leb_le _ _)) by lia. cbn [mbind outcome_bind].
  unfold slice. rewrite drop_0, H. done.
Qed.
Lemma encode_menu_ok v out :
  validate_replay_menu v = Ok tt -> label_wf (overlay_shortcut v) -> label_wf (save_shortcut v) ->
  (REPLAY_MENU_TELEMETRY_BYTES <= length out)%nat ->
  encode_replay_menu_telemetry v out = Ok (REPLAY_MENU_TELEMETRY_BYTES, wire_menu v ++ drop REPLAY_MENU_TELEMETRY_BYTES out).
Proof.
  intros Hv Ha Hb Hl. unfold encode_replay_menu_telemetry. rewrite Hv. cbn [mbind outcome_bind].
  rewrite (proj2 (Nat.ltb_ge _ _)) by lia. rewrite (in_front_ok _ _ _ (wire_menu v)); [done|lia|].
  apply fill_menu_wire; [rewrite length_take; lia|done..].
Qed.
Lemma encode_hardware_ok t out :
  validate t = Ok tt -> (OVERLAY_HARDWARE_TELEMETRY_BYTES <= length out)%nat ->
  encode_overlay_hardware_telemetry t out
  = Ok (OVERLAY_HARDWARE_TELEMETRY_BYTES, wire_hardware t ++ drop OVERLAY_HARDWARE_TELEMETRY_BYTES out).
Proof.
  intros Hv Hl. unfold encode_overlay_hardware_telemetry. rewrite Hv. cbn [mbind outcome_bind].
  rewrite (proj2 (Nat.ltb_ge _ _)) by lia. rewrite (in_front_ok _ _ _ (wire_hardware t)); [done|lia|].
  apply fill_hardware_wire. rewrite length_take. lia.
Qed.
Lemma length_wire_hardware t : length (wire_hardware t) = OVERLAY_HARDWARE_TELEMETRY_BYTES.
Proof. done. Qed.
Lemma length_wire_menu v : menu_wf v -> length (wire_menu v) = REPLAY_MENU_TELEMETRY_BYTES.
Proof. intros H. apply (menu_segments v H). Qed.

(** The encoder of either block accepts exactly the valid records, when the
    buffer holds the block. *)
Lemma encode_menu_iff v out n out' :
  label_wf (overlay_shortcut v) -> label_wf (save_shortcut v) ->
  encode_replay_menu_telemetry v out = Ok (n, out')
  <-> validate_replay_menu v = Ok tt /\ (REPLAY_MENU_TELEMETRY_BYTES <= length out)%nat
      /\ n = REPLAY_MENU_TELEMETRY_BYTES /\ out' = wire_menu v ++ drop REPLAY_MENU_TELEMETRY_BYTES out.
Proof.
  intros Ha Hb. split.
  - intros H. pose proof H as H'. unfold encode_replay_menu_telemetry in H'.
    destruct (validate_replay_menu v) as [[]| |] eqn:Hv; [|discriminate H'..]. cbn [mbind outcome_bind] in H'.
    destruct (Nat.ltb_spec (length out) REPLAY_MENU_TELEMETRY_BYTES) as [|Hl]; [discriminate H'|].
    rewrite encode_menu_ok in H by done. by injection H as <- <-.
  - intros (Hv & Hl & -> & ->). by apply encode_menu_ok.
Qed.

(** C33: the menu block's decoder accepts a block exactly when it is the layout
    of a valid menu record: every accepted block is the one its record is
    encoded as. *)
Theorem menu_decode_exact w v :
  is_bytes w ->
  decode_replay_menu_telemetry w = Ok v <-> validate_replay_menu v = Ok tt /\ menu_wf v /\ w = wire_menu v.
Proof.
  intros Hw. split; [by apply decode_menu_cells|].
  intros (Hv & Hwf & ->). by apply decode_menu_wire.
Qed.

(** What either encoder writes at the front of a buffer, its decoder reads
    back, and the rest of the buffer is left alone. *)
Theorem overlay_blocks_roundtrip :
  (forall t out, validate t = Ok tt -> hardware_wf t -> (OVERLAY_HARDWARE_TELEMETRY_BYTES <= length out)%nat ->
     exists out', encode_overlay_hardware_telemetry t out = Ok (OVERLAY_HARDWARE_TELEMETRY_BYTES, out')
       /\ decode_overlay_hardware_telemetry (take OVERLAY_HARDWARE_TELEMETRY_BYTES out') = Ok t
       /\ length out' = length out /\ drop OVERLAY_HARDWARE_TELEMETRY_BYTES out' = drop OVERLAY_HARDWARE_TELEMETRY_BYTES out)
  /\ (forall v out, validate_replay_menu v = Ok tt -> menu_wf v -> (REPLAY_MENU_TELEMETRY_BYTES <= length out)%nat ->
     exists out', encode_replay_menu_telemetry v out = Ok (REPLAY_MENU_TELEMETRY_BYTES, out')
       /\ decode_replay_menu_telemetry (take REPLAY_MENU_TELEMETRY_BYTES out') = Ok v
       /\ length out' = length out /\ drop REPLAY_MENU_TELEMETRY_BYTES out' = drop REPLAY_MENU_TELEMETRY_BYTES out).
Proof.
  split.
  - intros t out Hv Hwf Hl. exists (wire_hardware t ++ drop OVERLAY_HARDWARE_TELEMETRY_BYTES out).
    pose proof (length_wire_hardware t) as Hw.
    rewrite take_app_length', drop_app_length', length_app, length_drop, Hw by done.
    splits; [by apply encode_hardware_ok|by apply decode_hardware_wire|lia|done].
  - intros v out Hv Hwf Hl. exists (wire_menu v ++ drop REPLAY_MENU_TELEMETRY_BYTES out).
    pose proof (length_wire_menu v Hwf) as Hw.
    rewrite take_app_length', drop_app_length', length_app, length_drop, Hw by done.
    splits; [apply encode_menu_ok; by destruct Hwf|by apply decode_menu_wire|lia|done].
Qed.

(** * Instances *)
Definition demo_hardware : OverlayHardwareTelemetry := {|
  revision := 6; corner := 1; preset := 2; layout := 1; palette := 7; metrics := 255; opacity_percent := 80; scale_percent := 125;
  replay_saved_revision := 3; metrics_visible := Some false; branding_visible := true; cpu_utilization_tenths := Some 417;
  cpu_temperature_tenths_celsius := None; gpu_utilization_tenths := Some 1000; gpu_temperature_tenths_celsius := Some 655 |}.
Definition demo_menu : ReplayMenuTelemetry := {|
  menu_revision := 8; menu_visible := true; pointer_pressed := true; menu_cursor_x := 5000; menu_cursor_y := 8500;
  hover_target := 9; menu_pressed_target := 9; selected_duration_index := 1; menu_status := MenuBuffering;
  available_seconds := 45; menu_click_revision := 2; menu_frame_rate := 240; menu_quality := 2; menu_output_format := 1;
  save_enabled := true; overlay_shortcut := from_shortcut (ascii_bytes "Alt+Shift+Z"); save_shortcut := EMPTY |}.
Lemma demo_hardware_wf : hardware_wf demo_hardware.
Proof.
  assert (Hr : forall m x, (0 <=? x) && (x <=? m) = true -> in_range m x) by (intros m x H; unfold in_range; lia).
  constructor; cbn [demo_hardware revision corner preset layout palette opacity_percent scale_percent metrics replay_saved_revision
      cpu_utilization_tenths cpu_temperature_tenths_celsius gpu_utilization_tenths gpu_temperature_tenths_celsius opt_u16];
    [by apply Hr|repeat (apply Forall_cons; split; [by apply Hr|]); apply Forall_nil; done|by apply Hr|by apply Hr|by apply Hr|done|by apply Hr|by apply Hr].
Defined.
Lemma demo_menu_wf : menu_wf demo_menu.
Proof.
  assert (Hr : forall m x, (0 <=? x) && (x <=? m) = true -> in_range m x) by (intros m x H; unfold in_range; lia).
  constructor; cbn [demo_menu menu_revision menu_cursor_x menu_cursor_y available_seconds menu_click_revision hover_target menu_pressed_target
    selected_duration_index menu_frame_rate menu_quality menu_output_format overlay_shortcut save_shortcut];
    [by apply Hr|repeat (apply Forall_cons; split; [by apply Hr|]); by apply Forall_nil
    |repeat (apply Forall_cons; split; [by apply (Hr U8_MAX)|]); by apply Forall_nil|apply from_shortcut_wf|apply EMPTY_wf].
Defined.
(** A block whose absent metric holds bytes of its own is accepted as well. *)
Definition demo_unread : unread := {| g_cpu := 0; g_cpu_temperature := 51966; g_gpu := 0; g_gpu_temperature := 0 |}.
Lemma hardware_decode_exact_witness :
  decode_overlay_hardware_telemetry (wire_hardware_with demo_hardware demo_unread) = Ok demo_hardware
  /\ wire_hardware_with demo_hardware demo_unread <> wire_hardware demo_hardware.
Proof.
  split; [|vm_compute; discriminate].
  apply (hardware_decode_exact (wire_hardware_with demo_hardware demo_unread) demo_hardware); [by apply is_bytes_check|].
  splits; [reflexivity|exact demo_hardware_wf|]. exists demo_unread. split; [|reflexivity].
  unfold unread_wf, in_range. splits; vm_compute; discriminate.
Defined.
Lemma menu_decode_exact_witness : decode_replay_menu_telemetry (wire_menu demo_menu) = Ok demo_menu.
Proof.
  apply (menu_decode_exact (wire_menu demo_menu) demo_menu); [by apply is_bytes_check|].
  splits; [reflexivity|exact demo_menu_wf|reflexivity].
Defined.
Lemma overlay_blocks_roundtrip_witness :
  exists out, encode_replay_menu_telemetry demo_menu (replicate 130 7) = Ok (REPLAY_MENU_TELEMETRY_BYTES, out)
    /\ decode_replay_menu_telemetry (take REPLAY_MENU_TELEMETRY_BYTES out) = Ok demo_menu.
Proof.
  destruct (proj2 overlay_blocks_roundtrip demo_menu (replicate 130 7)) as (out & H1 & H2 & _); [reflexivity|exact demo_menu_wf|vm_compute; lia|].
  exists out. split; assumption.
Defined.
