(* ===== verification/Profiles.v ===== *)
(** Game identity, launch profiles and Replay settings
    (crates/redunar-core/src/game.rs).

    A [PathBuf] is the sequence of components Rust's [Path] compares and
    iterates over; an [OsString] is a string. *)
From stdpp Require Import strings.
From S2P Require Import Prelude.
Local Open Scope Z_scope.

(** * Paths *)
Inductive component := RootDir | CurDir | ParentDir | Normal (s : string).
#[global] Instance component_eq_dec : EqDecision component.
Proof. solve_decision. Defined.
Abbreviation PathBuf := (list component).

(** [Path::file_name]: the last component, when it is a normal one. *)
Definition file_name (p : PathBuf) : option string :=
  match last p with Some (Normal s) => Some s | _ => None end.

(** * Identity *)
Record GameProcess := {
  pid : Z;
  comm : string;
  executable : PathBuf;
  steam_app_id : option Z;
  game_mode_active : bool;
}.

Record GameId := { game_id_value : Z }.
#[global] Instance GameId_eq_dec : EqDecision GameId.
Proof. solve_decision. Defined.

Inductive GameIdentityError := game_identity_error.
Definition GameId_new (value : Z) : outcome GameIdentityError GameId :=
  if value =? 0 then Err game_identity_error else Ok {| game_id_value := value |}.

Inductive GameMatchRule :=
| SteamAppId (app_id : Z)
| Executable (path : PathBuf)
| ExecutableName (name : string).

(** * Overlay configuration *)
Inductive OverlayPreset := Compact | FpsOnly | Detailed | CustomPreset.
Inductive OverlayLayout := Grid | Ribbon | Telemetry.
Inductive OverlayPalette := Redunar | Glacier | Ember | Mint | Mono | Amethyst | Solar | Rose.
Inductive OverlayCorner := TopLeft | TopRight | BottomLeft | BottomRight.

Record OverlayMetricSet := { metric_bits : Z }.
Definition METRIC_FPS := Z.shiftl 1 0.
Definition METRIC_FRAME_TIME := Z.shiftl 1 1.
Definition METRIC_ONE_PERCENT_LOW := Z.shiftl 1 2.
Definition METRIC_POINT_ONE_PERCENT_LOW := Z.shiftl 1 3.
Definition METRIC_CPU_LOAD := Z.shiftl 1 4.
Definition METRIC_CPU_TEMPERATURE := Z.shiftl 1 5.
Definition METRIC_GPU_LOAD := Z.shiftl 1 6.
Definition METRIC_GPU_TEMPERATURE := Z.shiftl 1 7.
Definition or_bits (l : list Z) : Z := foldl Z.lor 0 l.
Definition METRIC_KNOWN : Z :=
  or_bits [METRIC_FPS; METRIC_FRAME_TIME; METRIC_ONE_PERCENT_LOW; METRIC_POINT_ONE_PERCENT_LOW;
           METRIC_CPU_LOAD; METRIC_CPU_TEMPERATURE; METRIC_GPU_LOAD; METRIC_GPU_TEMPERATURE].
Definition METRICS_COMPACT : OverlayMetricSet :=
  {| metric_bits := or_bits [METRIC_FPS; METRIC_FRAME_TIME; METRIC_CPU_LOAD;
                             METRIC_CPU_TEMPERATURE; METRIC_GPU_LOAD; METRIC_GPU_TEMPERATURE] |}.
Definition METRICS_DETAILED : OverlayMetricSet := {| metric_bits := METRIC_KNOWN |}.
Definition METRICS_FPS_ONLY : OverlayMetricSet := {| metric_bits := METRIC_FPS |}.

Inductive OverlayMetricSetError := overlay_metric_set_error.
(** [bits & !KNOWN] on a [u16]. *)
Definition OverlayMetricSet_from_bits (bits : Z) : outcome OverlayMetricSetError OverlayMetricSet :=
  if negb (bits =? 0) && (Z.land bits (Z.lxor U16_MAX METRIC_KNOWN) =? 0)
  then Ok {| metric_bits := bits |}
  else Err overlay_metric_set_error.
Definition OverlayMetricSet_contains (s : OverlayMetricSet) (metric : Z) : bool :=
  negb (Z.land (metric_bits s) metric =? 0).

Record OverlayOpacity := { opacity_percent : Z }.
Inductive OverlayOpacityError := overlay_opacity_error.
Definition OverlayOpacity_new (percent : Z) : outcome OverlayOpacityError OverlayOpacity :=
  if percent <=? 100 then Ok {| opacity_percent := percent |} else Err overlay_opacity_error.
Definition OverlayOpacity_default : OverlayOpacity := {| opacity_percent := 50 |}.

Record OverlayScale := { scale_percent : Z }.
Definition OverlayScale_new (percent : Z) : option OverlayScale :=
  if (50 <=? percent) && (percent <=? 200) && is_multiple_of percent 5
  then Some {| scale_percent := percent |} else None.
Definition OverlayScale_default : OverlayScale := {| scale_percent := 100 |}.

(** * Replay settings *)
Inductive ReplayDuration :=
| Seconds15 | Seconds30 | Seconds60 | Seconds120 | Seconds180 | Seconds300 | Seconds600 | Seconds900.
Definition duration_seconds (d : ReplayDuration) : Z :=
  match d with
  | Seconds15 => 15 | Seconds30 => 30 | Seconds60 => 60 | Seconds120 => 120
  | Seconds180 => 180 | Seconds300 => 300 | Seconds600 => 600 | Seconds900 => 900
  end.

Inductive ReplayFrameRate := Fps60 | Variable_.
Definition frames_per_second (r : ReplayFrameRate) : Z :=
  match r with Fps60 => 60 | Variable_ => 120 end.
Definition is_variable (r : ReplayFrameRate) : bool :=
  match r with Variable_ => true | Fps60 => false end.

Definition supports_dimensions (r : ReplayFrameRate) (width height : Z) : bool :=
  let macroblocks := sat_mul U32_MAX (div_ceil width 16) (div_ceil height 16) in
  (0 <? width) && (0 <? height) && (macroblocks <=? 36864)
  && (is_variable r || (sat_mul U32_MAX macroblocks (frames_per_second r) <=? 2073600)).

Inductive ReplayQuality := Efficient | Balanced | High.
Definition target_megabits_per_second (q : ReplayQuality) : Z :=
  match q with Efficient => 12 | Balanced => 24 | High => 40 end.

Inductive ReplayStorageLimit := Unlimited.

Record ReplaySettings := {
  duration : ReplayDuration;
  frame_rate : ReplayFrameRate;
  quality : ReplayQuality;
  storage_limit : ReplayStorageLimit;
}.
Definition ReplaySettings_default : ReplaySettings :=
  {| duration := Seconds30; frame_rate := Fps60; quality := Balanced; storage_limit := Unlimited |}.

(** * Profiles *)
Inductive Inheritable (T : Type) := InheritGlobal | Custom (value : T).
Arguments InheritGlobal {T}.
Arguments Custom {T} value.
Definition inheritable_resolve {T} (i : Inheritable T) (global : T) : T :=
  match i with InheritGlobal => global | Custom value => value end.

Record GlobalGameProfile := {
  g_capture_metrics : bool;
  g_overlay_visible : bool;
  g_overlay_preset : OverlayPreset;
  g_overlay_layout : OverlayLayout;
  g_overlay_palette : OverlayPalette;
  g_overlay_branding : bool;
  g_overlay_metrics : OverlayMetricSet;
  g_overlay_corner : OverlayCorner;
  g_overlay_opacity : OverlayOpacity;
  g_overlay_scale : OverlayScale;
  g_gamescope_enabled : bool;
  g_gamemode_enabled : bool;
  g_replay : ReplaySettings;
  g_instant_replay : bool;
}.
Definition GlobalGameProfile_default : GlobalGameProfile := {|
  g_capture_metrics := true;
  g_overlay_visible := false;
  g_overlay_preset := Compact;
  g_overlay_layout := Grid;
  g_overlay_palette := Redunar;
  g_overlay_branding := true;
  g_overlay_metrics := METRICS_COMPACT;
  g_overlay_corner := TopLeft;
  g_overlay_opacity := OverlayOpacity_default;
  g_overlay_scale := OverlayScale_default;
  g_gamescope_enabled := false;
  g_gamemode_enabled := false;
  g_replay := ReplaySettings_default;
  g_instant_replay := false;
|}.

Record PerGameProfile := {
  capture_metrics : Inheritable bool;
  overlay_visible : Inheritable bool;
  instant_replay : Inheritable bool;
}.
Definition PerGameProfile_default : PerGameProfile :=
  {| capture_metrics := InheritGlobal; overlay_visible := InheritGlobal;
     instant_replay := InheritGlobal |}.

Record EffectiveGameProfile := {
  e_capture_metrics : bool;
  e_overlay_visible : bool;
  e_overlay_preset : OverlayPreset;
  e_overlay_layout : OverlayLayout;
  e_overlay_palette : OverlayPalette;
  e_overlay_branding : bool;
  e_overlay_metrics : OverlayMetricSet;
  e_overlay_corner : OverlayCorner;
  e_overlay_opacity : OverlayOpacity;
  e_overlay_scale : OverlayScale;
  e_gamescope_enabled : bool;
  e_gamemode_enabled : bool;
  e_replay : ReplaySettings;
  e_instant_replay : bool;
}.

Definition profile_resolve (p : PerGameProfile) (global : GlobalGameProfile) : EffectiveGameProfile := {|
  e_capture_metrics := inheritable_resolve (capture_metrics p) (g_capture_metrics global);
  e_overlay_visible := inheritable_resolve (overlay_visible p) (g_overlay_visible global);
  e_overlay_preset := g_overlay_preset global;
  e_overlay_layout := g_overlay_layout global;
  e_overlay_palette := g_overlay_palette global;
  e_overlay_branding := g_overlay_branding global;
  e_overlay_metrics := g_overlay_metrics global;
  e_overlay_corner := g_overlay_corner global;
  e_overlay_opacity := g_overlay_opacity global;
  e_overlay_scale := g_overlay_scale global;
  e_gamescope_enabled := g_gamescope_enabled global;
  e_gamemode_enabled := g_gamemode_enabled global;
  e_replay := g_replay global;
  e_instant_replay := inheritable_resolve (instant_replay p) (g_instant_replay global);
|}.

Definition is_inherit {T} (i : Inheritable T) : bool :=
  match i with InheritGlobal => true | Custom _ => false end.
Definition inherits_everything (p : PerGameProfile) : bool :=
  is_inherit (capture_metrics p) && is_inherit (overlay_visible p) && is_inherit (instant_replay p).

(** * Catalog records and resolution *)
Record GameLaunchConfig := {
  launch_executable : PathBuf;
  launch_arguments : list string;
  launch_working_directory : option PathBuf;
}.

Record GameRecord := {
  record_id : GameId;
  display_name : string;
  match_rules : list GameMatchRule;
  launch : GameLaunchConfig;
  profile : PerGameProfile;
}.

Record GameCatalog := {
  global_profile : GlobalGameProfile;
  games : list GameRecord;
}.

Inductive GameResolution :=
| Automatic (game : GameId)
| Suggested (game : GameId)
| Ambiguous (games : list GameId)
| Unknown.

Definition match_score (rule : GameMatchRule) (process : GameProcess) : Z :=
  match rule with
  | SteamAppId app_id => if bool_decide (steam_app_id process = Some app_id) then 100 else 0
  | Executable path => if bool_decide (executable process = path) then 90 else 0
  | ExecutableName name =>
      if bool_decide (comm process = name)
         || bool_decide (file_name (executable process) = Some name)
      then 50 else 0
  end.

(** [iter().map(..).max().unwrap_or(0)] over the rules of one record. *)
Definition record_score (process : GameProcess) (record : GameRecord) : Z :=
  match map (fun rule => match_score rule process) (match_rules record) with
  | [] => 0
  | s :: rest => foldl Z.max s rest
  end.

(** One iteration of the loop of [resolve_game] on [(best_score, best)]. *)
Definition resolve_step (process : GameProcess) (state : Z * list GameId) (record : GameRecord)
    : Z * list GameId :=
  let '(best_score, best) := state in
  let score := record_score process record in
  if best_score <? score then (score, [record_id record])
  else if (0 <? score) && (score =? best_score) then (best_score, best ++ [record_id record])
  else (best_score, best).

Definition resolve_game (records : list GameRecord) (process : GameProcess) : GameResolution :=
  let '(best_score, best) := foldl (resolve_step process) (0, []) records in
  if best_score =? 0 then Unknown
  else match best with
       | [game] => if 80 <=? best_score then Automatic game else Suggested game
       | games => Ambiguous games
       end.

(** * Game resolution: a reference definition

    The best score of the catalog and the records that reach it, without the
    running maximum of the code. *)
Section Resolution.
Context (process : GameProcess).
Implicit Types (rs : list GameRecord) (r : GameRecord).

Definition best_score rs : Z := foldr Z.max 0 (map (record_score process) rs).
Definition reaches (s : Z) r : bool := record_score process r =? s.
Definition winners rs : list GameId := map record_id (List.filter (reaches (best_score rs)) rs).
Definition classify (s : Z) (ids : list GameId) : GameResolution :=
  if s =? 0 then Unknown
  else match ids with
       | [game] => if 80 <=? s then Automatic game else Suggested game
       | games => Ambiguous games
       end.

Lemma match_score_range rule : 0 <= match_score rule process <= 100.
Proof. destruct rule; cbn; case_match; lia. Qed.

Lemma foldl_max_ge s l : s <= foldl Z.max s l /\ Forall (fun x => x <= foldl Z.max s l) l.
Proof.
  revert s. induction l as [|x l IH]; intros s; cbn; [split; [lia|constructor]|].
  destruct (IH (Z.max s x)) as [H1 H2]. split; [lia|]. constructor; [lia|done].
Qed.

Lemma foldl_max_in s l : foldl Z.max s l = s \/ foldl Z.max s l ∈ l.
Proof.
  revert s. induction l as [|x l IH]; intros s; cbn; [by left|].
  destruct (IH (Z.max s x)) as [->|H]; [|right; by right].
  destruct (Z.max_spec s x) as [[_ ->]|[_ ->]]; [right; by left|by left].
Qed.

Lemma record_score_cases r :
  (record_score process r = 0 /\ match_rules r = []) \/
  exists rule, rule ∈ match_rules r /\ record_score process r = match_score rule process.
Proof.
  unfold record_score. destruct (match_rules r) as [|rule rules]; cbn; [by left|right].
  destruct (foldl_max_in (match_score rule process)
              (map (fun x => match_score x process) rules)) as [->|Hin].
  - exists rule. split; [by left|done].
  - apply list_elem_of_fmap_1 in Hin as (rule' & -> & Hin). exists rule'. split; [by right|done].
Qed.

Lemma record_score_max r rule :
  rule ∈ match_rules r -> match_score rule process <= record_score process r.
Proof.
  unfold record_score. destruct (match_rules r) as [|rule0 rules]; [by rewrite elem_of_nil|].
  cbn. destruct (foldl_max_ge (match_score rule0 process)
              (map (fun x => match_score x process) rules)) as [H1 H2].
  rewrite elem_of_cons. intros [->|Hin]; [done|].
  rewrite Forall_forall in H2. apply H2. rewrite list_elem_of_fmap. eauto.
Qed.

Lemma record_score_range r : 0 <= record_score process r <= 100.
Proof.
  destruct (record_score_cases r) as [[-> _]|(rule & _ & ->)]; [lia|apply match_score_range].
Qed.

Lemma best_score_app rs1 rs2 : best_score (rs1 ++ rs2) = Z.max (best_score rs1) (best_score rs2).
Proof.
  unfold best_score. rewrite map_app, foldr_app.
  assert (0 <= foldr Z.max 0 (map (record_score process) rs2)) as Hp.
  { induction rs2 as [|r2 rs2 IH]; cbn; lia. }
  revert Hp. generalize (foldr Z.max 0 (map (record_score process) rs2)) as z.
  intros z Hz. induction rs1 as [|r1 rs1 IH]; cbn; lia.
Qed.

Lemma best_score_ge rs r : r ∈ rs -> record_score process r <= best_score rs.
Proof.
  unfold best_score. induction rs as [|r' rs IH]; cbn; [by rewrite elem_of_nil|].
  rewrite elem_of_cons. intros [->|H]; [lia|]. specialize (IH H). lia.
Qed.

Lemma best_score_nonneg rs : 0 <= best_score rs.
Proof. unfold best_score. induction rs; cbn; lia. Qed.

Lemma filter_reaches_none s rs : best_score rs < s -> List.filter (reaches s) rs = [].
Proof.
  intros H. induction rs as [|r rs IH]; [done|]. cbn.
  change (r :: rs) with ([r] ++ rs) in H. rewrite best_score_app in H.
  pose proof (best_score_ge [r] r ltac:(by left)).
  unfold reaches at 1. destruct (Z.eqb_spec (record_score process r) s); [lia|].
  apply IH. lia.
Qed.

(** The loop computes the reference: the best score and, when it is
    positive, the records that reach it, in catalog order. *)
Lemma resolve_loop rs :
  exists best, foldl (resolve_step process) (0, []) rs = (best_score rs, best) /\
    (0 < best_score rs -> best = winners rs).
Proof.
  induction rs as [|r rs (best & IH & Hb)] using rev_ind.
  { exists []. split; [done|]. cbn. lia. }
  rewrite foldl_app, IH. cbn [foldl resolve_step].
  pose proof (record_score_range r) as Hr. pose proof (best_score_nonneg rs) as Hn.
  assert (best_score [r] = record_score process r) as Hs by (cbn; lia).
  unfold winners. rewrite best_score_app, Hs, List.filter_app, map_app. cbn [List.filter].
  unfold reaches at 2.
  destruct (Z.ltb_spec (best_score rs) (record_score process r)).
  - rewrite Z.max_r by lia. eexists. split; [done|]. intros _.
    rewrite filter_reaches_none, Z.eqb_refl by lia. done.
  - rewrite Z.max_l by lia.
    destruct (Z.eqb_spec (record_score process r) (best_score rs)) as [E|E].
    + destruct (Z.ltb_spec 0 (record_score process r)); cbn [andb]; eexists; (split; [done|]).
      * intros Hpos. by rewrite Hb.
      * lia.
    + rewrite andb_false_r. eexists. split; [done|]. intros Hpos.
      cbn. rewrite app_nil_r. by apply Hb.
Qed.

Lemma resolve_game_classify rs :
  resolve_game rs process = classify (best_score rs) (winners rs).
Proof.
  unfold resolve_game, classify. destruct (resolve_loop rs) as (best & -> & Hb).
  pose proof (best_score_nonneg rs).
  destruct (Z.eqb_spec (best_score rs) 0); [done|]. by rewrite Hb by lia.
Qed.

(** A launcher id or an exact executable path, as opposed to a file name. *)
Definition strong_match r : Prop :=
  exists rule, rule ∈ match_rules r /\
    match rule with
    | SteamAppId app_id => steam_app_id process = Some app_id
    | Executable path => executable process = path
    | ExecutableName _ => False
    end.

Lemma strong_match_score r : strong_match r <-> 80 <= record_score process r.
Proof.
  split.
  - intros (rule & Hin & Hm). pose proof (record_score_max r rule Hin) as Hle.
    destruct rule; cbn in Hle, Hm; [..|done]; rewrite bool_decide_true in Hle by done; lia.
  - intros H. destruct (record_score_cases r) as [[E _]|(rule & Hin & E)]; [lia|].
    exists rule. split; [done|]. rewrite E in H.
    destruct rule; cbn in H; case_bool_decide; try done; try lia.
    destruct (bool_decide _); cbn in H; lia.
Qed.
End Resolution.

Section ResolutionFacts.
Context (process : GameProcess).

Lemma split_map_filter {A B} (f : A -> B) (P : A -> bool) l x :
  map f (List.filter P l) = [x] ->
  exists l1 a l2, l = l1 ++ a :: l2 /\ f a = x /\ P a = true /\ Forall (fun b => P b = false) (l1 ++ l2).
Proof.
  induction l as [|a l IH]; cbn; [done|].
  destruct (P a) eqn:E; cbn.
  - intros [= Hx Hrest]. exists [], a, l. cbn. splits; [done..|].
    apply map_eq_nil in Hrest. clear -Hrest. induction l as [|b l IH]; [done|].
    cbn in Hrest. destruct (P b) eqn:Hb; [done|]. constructor; auto.
  - intros H. destruct (IH H) as (l1 & b & l2 & -> & Hf & HP & Hall).
    exists (a :: l1), b, l2. splits; [done..|]. cbn. by constructor.
Qed.

Lemma map_filter_split {A B} (f : A -> B) (P : A -> bool) l1 a l2 :
  P a = true -> Forall (fun b => P b = false) (l1 ++ l2) ->
  map f (List.filter P (l1 ++ a :: l2)) = [f a].
Proof.
  intros Ha Hall.
  assert (forall l, Forall (fun b => P b = false) l -> List.filter P l = []) as Hnil.
  { induction 1 as [|b l Hb _ IH]; cbn; [done|]. by rewrite Hb. }
  apply Forall_app in Hall as [H1 H2].
  rewrite List.filter_app. cbn. rewrite Ha, (Hnil _ H1), (Hnil _ H2). done.
Qed.

Lemma best_score_split rs1 r rs2 :
  Forall (fun r' => record_score process r' <= record_score process r) (rs1 ++ rs2) ->
  best_score process (rs1 ++ r :: rs2) = record_score process r.
Proof.
  assert (forall rs s, 0 <= s -> Forall (fun r' => record_score process r' <= s) rs ->
                       best_score process rs <= s) as Hle.
  { intros rs s Hs. induction 1; cbn in *; unfold best_score in *; cbn; lia. }
  intros H. apply Forall_app in H as [H1 H2].
  pose proof (record_score_range process r) as Hr.
  rewrite best_score_app. change (r :: rs2) with ([r] ++ rs2). rewrite best_score_app.
  assert (0 <= record_score process r) as Hr0 by lia.
  pose proof (Hle rs1 _ Hr0 H1). pose proof (Hle rs2 _ Hr0 H2).
  change (best_score process [r]) with (Z.max (record_score process r) 0).
  pose proof (best_score_nonneg process rs2). lia.
Qed.

Lemma best_score_perm rs rs' : Permutation rs rs' -> best_score process rs = best_score process rs'.
Proof. unfold best_score. induction 1; cbn [map foldr] in *; lia. Qed.

Lemma winners_perm rs rs' : Permutation rs rs' -> Permutation (winners process rs) (winners process rs').
Proof.
  intros H. unfold winners. rewrite (best_score_perm _ _ H).
  generalize (reaches process (best_score process rs')) as P. intros P. clear -H.
  induction H as [|r rs rs' _ IH|r1 r2 rs|rs1 rs2 rs3 _ IH1 _ IH2]; cbn.
  - constructor.
  - destruct (P r); cbn; [by constructor|done].
  - destruct (P r1), (P r2); cbn; first [reflexivity|apply perm_swap].
  - by transitivity (map record_id (List.filter P rs2)).
Qed.
End ResolutionFacts.

(** Two resolutions that differ at most in the order of the tied games. *)
Definition resolution_equiv (a b : GameResolution) : Prop :=
  match a, b with
  | Ambiguous g, Ambiguous h => Permutation g h
  | a, b => a = b
  end.

(** A process is activated automatically for game [g] exactly when one
    record with that id matches by launcher id or exact executable path and
    every other record of the catalog scores strictly less. *)
Theorem resolve_automatic_iff (rs : list GameRecord) (p : GameProcess) (g : GameId) :
  resolve_game rs p = Automatic g <->
  exists rs1 r rs2, rs = rs1 ++ r :: rs2 /\ record_id r = g /\ strong_match p r /\
    Forall (fun r' => record_score p r' < record_score p r) (rs1 ++ rs2).
Proof.
  rewrite resolve_game_classify. unfold classify. split.
  - destruct (Z.eqb_spec (best_score p rs) 0); [done|].
    destruct (winners p rs) as [|g' [|]] eqn:E; [done| |done].
    destruct (Z.leb_spec 80 (best_score p rs)) as [H80|]; [|done]. intros [= ->].
    destruct (split_map_filter _ _ _ _ E) as (l1 & r & l2 & Hrs & Hid & HP & Hall).
    exists l1, r, l2. unfold reaches in *. apply Z.eqb_eq in HP.
    splits; [done..|by rewrite strong_match_score, HP|].
    apply Forall_forall. intros r' Hr'. rewrite Forall_forall in Hall.
    pose proof (Hall r' Hr') as H1. cbn in H1. apply Z.eqb_neq in H1.
    assert (record_score p r' <= best_score p rs); [|lia].
    apply best_score_ge. subst rs. rewrite elem_of_app in *. rewrite elem_of_cons. naive_solver.
  - intros (rs1 & r & rs2 & -> & <- & Hs & Hall). rewrite strong_match_score in Hs.
    rewrite (best_score_split p rs1 r rs2).
    2: { eapply Forall_impl; [exact Hall|]. cbn. intros. lia. }
    destruct (Z.eqb_spec (record_score p r) 0); [lia|].
    unfold winners. rewrite (best_score_split p rs1 r rs2).
    2: { eapply Forall_impl; [exact Hall|]. cbn. intros. lia. }
    rewrite map_filter_split.
    + destruct (Z.leb_spec 80 (record_score p r)); [done|lia].
    + unfold reaches. by rewrite Z.eqb_refl.
    + eapply Forall_impl; [exact Hall|]. cbn. intros. unfold reaches. apply Z.eqb_neq. lia.
Qed.

(** The order of the catalog has no authority: permuting the records
    changes a resolution at most in the order of an ambiguous tie. *)
Theorem resolve_game_order (rs rs' : list GameRecord) (p : GameProcess) :
  Permutation rs rs' -> resolution_equiv (resolve_game rs p) (resolve_game rs' p).
Proof.
  intros H. rewrite !resolve_game_classify. unfold classify.
  rewrite (best_score_perm p _ _ H). pose proof (winners_perm p _ _ H) as Hw.
  destruct (best_score p rs' =? 0); [done|].
  destruct (winners p rs) as [|g [|g2 gs]] eqn:E.
  - apply Permutation_nil_l in Hw. rewrite <- Hw. cbn. constructor.
  - apply Permutation_singleton_l in Hw. rewrite <- ?Hw, ?Hw. by destruct (80 <=? _).
  - destruct (winners p rs') as [|h [|h2 hs]]; [|apply Permutation_length in Hw; done|done].
    by apply Permutation_nil_r in Hw.
Qed.

(** A per-game profile reports that it inherits everything exactly when
    resolving it gives, for every global profile, the profile of a game with
    no settings of its own. *)
Theorem inherits_everything_iff (p : PerGameProfile) :
  inherits_everything p = true <->
  forall global, profile_resolve p global = profile_resolve PerGameProfile_default global.
Proof.
  unfold inherits_everything. destruct p as [[|a] [|b] [|c]]; cbn; split; try done.
  all: intros H; exfalso.
  all: pose (g m v i := {|
    g_capture_metrics := m; g_overlay_visible := v; g_overlay_preset := Compact;
    g_overlay_layout := Grid; g_overlay_palette := Redunar; g_overlay_branding := true;
    g_overlay_metrics := METRICS_COMPACT; g_overlay_corner := TopLeft;
    g_overlay_opacity := OverlayOpacity_default; g_overlay_scale := OverlayScale_default;
    g_gamescope_enabled := false; g_gamemode_enabled := false;
    g_replay := ReplaySettings_default; g_instant_replay := i |}).
  all: pose proof (H (g true true true)) as H1; pose proof (H (g false false false)) as H2.
  all: unfold profile_resolve in H1, H2; cbn in H1, H2; injection H1; injection H2; intros; congruence.
Qed.

Definition demo_game (id : Z) : GameRecord := {|
  record_id := {| game_id_value := id |}; display_name := "demo";
  match_rules := [SteamAppId 620];
  launch := {| launch_executable := []; launch_arguments := []; launch_working_directory := None |};
  profile := PerGameProfile_default |}.
Definition demo_process : GameProcess :=
  {| pid := 7; comm := "demo"; executable := []; steam_app_id := Some 620; game_mode_active := false |}.

Lemma resolve_game_order_witness :
  Permutation [demo_game 1; demo_game 2] [demo_game 2; demo_game 1]
  /\ resolution_equiv (resolve_game [demo_game 1; demo_game 2] demo_process)
                      (resolve_game [demo_game 2; demo_game 1] demo_process).
Proof.
  assert (H : Permutation [demo_game 1; demo_game 2] [demo_game 2; demo_game 1]) by apply Permutation_swap.
  split; [exact H|]. exact (resolve_game_order _ _ demo_process H).
Defined.
