(* ===== verification/Paths.v ===== *)
(** Paths as their bytes: the components that [std::path::Path] iterates over and
    compares, file names and extensions. *)
From stdpp Require Import strings.
From S2P Require Import Prelude Bytes Text Profiles.
Local Open Scope Z_scope.

(** The parts between slashes, but for empty ones and [.]. *)
Definition parts_of (path : bytes) : list bytes :=
  List.filter (fun c => negb (bytes_eqb c [] || bytes_eqb c [46])) (split_on (Z.eqb 47) path).
(** [Path::file_name] and [Path::extension]. *)
Definition path_file_name (path : bytes) : option bytes :=
  match last (parts_of path) with
  | Some name => if bytes_eqb name [46; 46] then None else Some name
  | None => None
  end.
(** [rsplitn(2, '.')]: before and after the last dot. *)
Definition rsplit_dot (name : bytes) : option (bytes * bytes) :=
  match split_once 46 (reverse name) with
  | Some (after, before) => Some (reverse before, reverse after)
  | None => None
  end.
Definition path_extension (path : bytes) : option bytes :=
  name ← path_file_name path;
  '(before, after) ← rsplit_dot name;
  if bytes_eqb before [] then None else Some after.

(** The bytes of an [OsStr] as the string of [Profiles]. *)
Definition string_of_bytes (bs : bytes) : string := String.string_of_list_ascii (map (fun b => Ascii.ascii_of_N (Z.to_N b)) bs).
(** [Path::components]: empty parts and [.] are skipped, the latter except at the
    start of a relative path. *)
Definition component_of (part : bytes) : component :=
  if bytes_eqb part [46; 46] then ParentDir else Normal (string_of_bytes part).
Definition components (path : bytes) : PathBuf :=
  (if starts_with [47] path then [RootDir]
   else match split_on (Z.eqb 47) path with p :: _ => if bytes_eqb p [46] then [CurDir] else [] | [] => [] end)
  ++ map component_of (parts_of path).
(** [Path] compares by components. *)
Definition path_eqb (a b : bytes) : bool := bool_decide (components a = components b).
