(* ===== verification/OverlayShare.v ===== *)
(** The file through which the daemon shares both telemetry blocks with the
    overlay: the writers of crates/redunar-daemon/src/capture_session.rs and the
    readers of the OpenGL and Vulkan layers. *)
From stdpp Require Import strings.
From S2P Require Import Prelude Bytes Text Profiles Overlay.
Local Open Scope Z_scope.

(** * State *)
(** A session's file, its counters, and the calls the disk will refuse.  [seen]
    is a ghost: every content the file has had between two calls, newest first. *)
Record Share := {
  overlay_telemetry_file : bytes;
  overlay_telemetry_revision : Z;
  overlay_config : Z;
  overlay_replay_saved_revision : Z;
  refuses : list bool;
  seen : list bytes;
}.
Inductive share_error := ShareIo | RevisionOverflowed | InvalidData (message : string).
Notation share := (st Share share_error).

(** [write_all_at] as one step: a refused call writes nothing, and what a reader
    finds while a single call is under way is not represented. *)
Definition write_all_at (off : nat) (bs : bytes) : share unit := fun s =>
  match refuses s with
  | true :: rest =>
      ({| overlay_telemetry_file := overlay_telemetry_file s; overlay_telemetry_revision := overlay_telemetry_revision s;
          overlay_config := overlay_config s; overlay_replay_saved_revision := overlay_replay_saved_revision s;
          refuses := rest; seen := seen s |}, Err ShareIo)
  | rest =>
      let file := put off bs (overlay_telemetry_file s) in
      ({| overlay_telemetry_file := file; overlay_telemetry_revision := overlay_telemetry_revision s;
          overlay_config := overlay_config s; overlay_replay_saved_revision := overlay_replay_saved_revision s;
          refuses := drop 1 rest; seen := file :: seen s |}, Ok tt)
  end.
Definition read_exact_at (n : nat) (off : nat) : share bytes := fun s =>
  (s, if (off + n <=? length (overlay_telemetry_file s))%nat then Ok (slice off n (overlay_telemetry_file s)) else Err ShareIo).
(** [revision.fetch_add(2)]: the old value; the counter wraps. *)
Definition fetch_add_revision : share Z := fun s =>
  ({| overlay_telemetry_file := overlay_telemetry_file s;
      overlay_telemetry_revision := (overlay_telemetry_revision s + 2) mod (U64_MAX + 1);
      overlay_config := overlay_config s; overlay_replay_saved_revision := overlay_replay_saved_revision s;
      refuses := refuses s; seen := seen s |}, Ok (overlay_telemetry_revision s)).
Definition store_config (packed : Z) : share unit := fun s =>
  ({| overlay_telemetry_file := overlay_telemetry_file s; overlay_telemetry_revision := overlay_telemetry_revision s;
      overlay_config := packed; overlay_replay_saved_revision := overlay_replay_saved_revision s;
      refuses := refuses s; seen := seen s |}, Ok tt).
Definition store_saved (v : Z) : share unit := fun s =>
  ({| overlay_telemetry_file := overlay_telemetry_file s; overlay_telemetry_revision := overlay_telemetry_revision s;
      overlay_config := overlay_config s; overlay_replay_saved_revision := v;
      refuses := refuses s; seen := seen s |}, Ok tt).

(** * The packed configuration *)
Definition overlay_corner_code (c : OverlayCorner) : Z := match c with TopLeft => 0 | TopRight => 1 | BottomLeft => 2 | BottomRight => 3 end.
Definition overlay_preset_code (p : OverlayPreset) : Z := match p with Compact => 0 | Detailed => 1 | FpsOnly => 2 | CustomPreset => 3 end.
Definition overlay_layout_code (l : OverlayLayout) : Z := match l with Grid => 0 | Ribbon => 1 | Telemetry => 2 end.
Definition overlay_palette_code (p : OverlayPalette) : Z :=
  match p with Redunar => 0 | Glacier => 1 | Ember => 2 | Mint => 3 | Mono => 4 | Amethyst => 5 | Solar => 6 | Rose => 7 end.
Definition pack_overlay_config (corner preset metrics opacity scale layout palette : Z) (branding_visible : bool) : Z :=
  Z.lor (Z.lor (Z.lor (Z.lor (Z.lor (Z.lor (Z.lor corner (Z.shiftl preset 8)) (Z.shiftl metrics 16)) (Z.shiftl opacity 32)) (Z.shiftl scale 40))
    (Z.shiftl (bool_u8 branding_visible) 50)) (Z.shiftl (Z.land layout 15) 56)) (Z.shiftl (Z.land palette 15) 60).
Definition pack_profile (p : EffectiveGameProfile) : Z :=
  Z.lor (pack_overlay_config (overlay_corner_code (e_overlay_corner p)) (overlay_preset_code (e_overlay_preset p))
           (metric_bits (e_overlay_metrics p)) (Profiles.opacity_percent (e_overlay_opacity p))
           (Profiles.scale_percent (e_overlay_scale p)) (overlay_layout_code (e_overlay_layout p))
           (overlay_palette_code (e_overlay_palette p)) (e_overlay_branding p))
    (Z.shiftl (if e_overlay_visible p then 1 else 2) 48).

(** * Writers of the hardware block *)
(** What the sampler measured, in tenths ([metric_tenths] of the floats). *)
Record Tenths := {
  t_cpu : option Z;
  t_cpu_temperature : option Z;
  t_gpu : option Z;
  t_gpu_temperature : option Z;
}.
Definition telemetry_of (next packed saved : Z) (h : Tenths) : OverlayHardwareTelemetry := {|
  revision := next;
  corner := Z.land packed 255;
  preset := Z.land (Z.shiftr packed 8) 255;
  layout := Z.land (Z.shiftr packed 56) 15;
  palette := Z.land (Z.shiftr packed 60) 15;
  metrics := Z.land (Z.shiftr packed 16) 65535;
  opacity_percent := Z.land (Z.shiftr packed 32) 255;
  scale_percent := Z.land (Z.shiftr packed 40) 255;
  replay_saved_revision := saved;
  metrics_visible :=
    let value := Z.land (Z.shiftr packed 48) 255 in
    if Z.land value 3 =? 1 then Some true else if Z.land value 3 =? 2 then Some false else None;
  branding_visible := negb (Z.land (Z.shiftr packed 48) 4 =? 0);
  cpu_utilization_tenths := t_cpu h;
  cpu_temperature_tenths_celsius := t_cpu_temperature h;
  gpu_utilization_tenths := t_gpu h;
  gpu_temperature_tenths_celsius := t_gpu_temperature h;
|}.
Definition publish_odd (odd : Z) : share unit :=
  _ ← write_all_at 16 (le_bytes 8 odd);
  write_all_at 40 (le_bytes 8 odd).
Definition telemetry_error (e : OverlayTelemetryError) : share_error := InvalidData (telemetry_message e).
Definition write_overlay_hardware (h : Tenths) (packed saved : Z) : share unit :=
  previous ← fetch_add_revision;
  next ← lift (ok_or (v ← checked_add U64_MAX previous 2; if (0 <? v) && is_multiple_of v 2 then Some v else None) RevisionOverflowed);
  _ ← publish_odd (next - 1);
  encoded ← lift (map_err telemetry_error
                    (encode_overlay_hardware_telemetry (telemetry_of next packed saved h) (replicate OVERLAY_HARDWARE_TELEMETRY_BYTES 0)));
  write_all_at 0 encoded.2.
(** The edits of a block in memory. *)
Definition config_bytes (packed next : Z) (bs : bytes) : outcome share_error bytes :=
  bs ← set_index 12 (Z.land packed 255) bs;
  bs ← set_index 13 (Z.land (Z.shiftr packed 8) 255) bs;
  bs ← set_range 14 (le_bytes 2 (Z.land (Z.shiftr packed 16) 65535)) bs;
  bs ← set_index 32 (Z.land (Z.shiftr packed 32) 255) bs;
  bs ← set_index 33 (Z.land (Z.shiftr packed 40) 255) bs;
  bs ← set_index 36 (Z.land (Z.shiftr packed 48) 3) bs;
  bs ← set_index 37 (Z.land (Z.shiftr packed 56) 15) bs;
  bs ← set_index 38 (Z.land (Z.shiftr packed 60) 15) bs;
  bs ← set_index 39 (bool_u8 (negb (Z.land (Z.shiftr packed 48) 4 =? 0))) bs;
  bs ← set_range 16 (le_bytes 8 next) bs;
  set_range 40 (le_bytes 8 next) bs.
Definition notice_bytes (saved next : Z) (bs : bytes) : outcome share_error bytes :=
  bs ← set_range 34 (le_bytes 2 saved) bs;
  bs ← set_range 16 (le_bytes 8 next) bs;
  set_range 40 (le_bytes 8 next) bs.
(** The two read-modify-write updates. *)
Definition rewrite_block (edit : Z -> bytes -> outcome share_error bytes) : share unit :=
  bs ← read_exact_at OVERLAY_HARDWARE_TELEMETRY_BYTES 0;
  previous ← fetch_add_revision;
  next ← lift (ok_or (checked_add U64_MAX previous 2) RevisionOverflowed);
  _ ← publish_odd (next - 1);
  bs ← lift (edit next bs);
  write_all_at 0 bs.
Definition write_overlay_config (packed : Z) : share unit := rewrite_block (config_bytes packed).
Definition write_overlay_replay_notice (saved : Z) : share unit := rewrite_block (notice_bytes saved).

(** ** The session's methods *)
Definition update_overlay_hardware (h : Tenths) : share unit := fun s =>
  write_overlay_hardware h (overlay_config s) (overlay_replay_saved_revision s) s.
Definition update_overlay_config (profile : EffectiveGameProfile) : share unit :=
  _ ← write_overlay_config (pack_profile profile);
  store_config (pack_profile profile).
Definition publish_replay_saved_notice : share unit := fun s =>
  let previous := overlay_replay_saved_revision s in
  let next := Z.max ((previous + 1) mod (U16_MAX + 1)) 1 in
  (_ ← store_saved ((previous + 1) mod (U16_MAX + 1));
   _ ← (if (next =? 1) && (previous =? U16_MAX) then store_saved next else mret tt);
   write_overlay_replay_notice next) s.

(** * The writer of the menu block *)
Definition update_replay_menu (v : ReplayMenuTelemetry) : share unit :=
  encoded ← lift (map_err telemetry_error (encode_replay_menu_telemetry v (replicate REPLAY_MENU_TELEMETRY_BYTES 0)));
  let odd := le_bytes 8 (sat_sub (menu_revision v) 1) in
  _ ← write_all_at (OVERLAY_HARDWARE_TELEMETRY_BYTES + 16) odd;
  _ ← write_all_at (OVERLAY_HARDWARE_TELEMETRY_BYTES + 120) odd;
  write_all_at OVERLAY_HARDWARE_TELEMETRY_BYTES encoded.2.

(** * The file of a new session *)
Definition initial_hardware : OverlayHardwareTelemetry := {|
  revision := 2; corner := 0; preset := 0; layout := 0; palette := 0; metrics := 1; opacity_percent := 50; scale_percent := 100;
  replay_saved_revision := 0; metrics_visible := None; branding_visible := true; cpu_utilization_tenths := None;
  cpu_temperature_tenths_celsius := None; gpu_utilization_tenths := None; gpu_temperature_tenths_celsius := None |}.
Definition initial_menu : ReplayMenuTelemetry := {|
  menu_revision := 2; menu_visible := false; pointer_pressed := false; menu_cursor_x := 5000; menu_cursor_y := 5000;
  hover_target := 0; menu_pressed_target := 0; selected_duration_index := 1; menu_status := MenuInactive;
  available_seconds := 0; menu_click_revision := 0; menu_frame_rate := 60; menu_quality := 1; menu_output_format := 0;
  save_enabled := false; overlay_shortcut := EMPTY; save_shortcut := EMPTY |}.
(** The contents once both blocks are written; a refused write is an error. *)
Definition create_overlay_telemetry_file : outcome share_error bytes :=
  hardware ← map_err telemetry_error (encode_overlay_hardware_telemetry initial_hardware (replicate OVERLAY_HARDWARE_TELEMETRY_BYTES 0));
  menu ← map_err telemetry_error (encode_replay_menu_telemetry initial_menu (replicate REPLAY_MENU_TELEMETRY_BYTES 0));
  Ok (hardware.2 ++ menu.2).

(** * Readers *)
Definition hardware_block (file : bytes) : bytes := slice 0 OVERLAY_HARDWARE_TELEMETRY_BYTES file.
Definition menu_block (file : bytes) : bytes := slice OVERLAY_HARDWARE_TELEMETRY_BYTES REPLAY_MENU_TELEMETRY_BYTES file.
(** A record is delivered once: when its revision is not the last one. *)
Definition fresh_hardware (last : Z) (block : bytes) : option OverlayHardwareTelemetry :=
  match decode_overlay_hardware_telemetry block with
  | Ok t => if revision t =? last then None else Some t
  | _ => None
  end.
Definition fresh_menu (last : Z) (block : bytes) : option ReplayMenuTelemetry :=
  match decode_replay_menu_telemetry block with
  | Ok v => if menu_revision v =? last then None else Some v
  | _ => None
  end.

(** The Vulkan layer's reader. *)
Definition TELEMETRY_INTERVAL_NS : Z := 250000000.
Definition MENU_POLL_IDLE_NS : Z := 50000000.
Record TelemetryReader := {
  last_read_ns : Z;
  last_revision : Z;
  last_menu_read_ns : Z;
  last_menu_revision : Z;
}.
Definition new_reader : TelemetryReader := {| last_read_ns := 0; last_revision := 0; last_menu_read_ns := 0; last_menu_revision := 0 |}.
(** [menu_bytes] and [hardware_bytes] are what the two reads return; they may
    happen at different moments. *)
Definition refresh (now : Z) (menu_eager : bool) (menu_bytes hardware_bytes : bytes) (r : TelemetryReader)
    : TelemetryReader * (option OverlayHardwareTelemetry * option ReplayMenuTelemetry) :=
  let hardware_due := (last_read_ns r =? 0) || (TELEMETRY_INTERVAL_NS <=? sat_sub now (last_read_ns r)) in
  let menu_due := menu_eager || (last_menu_read_ns r =? 0) || (MENU_POLL_IDLE_NS <=? sat_sub now (last_menu_read_ns r)) in
  if negb hardware_due && negb menu_due then (r, (None, None))
  else
    let menu := if menu_due then fresh_menu (last_menu_revision r) menu_bytes else None in
    let hardware := if hardware_due then fresh_hardware (last_revision r) hardware_bytes else None in
    ({| last_read_ns := if hardware_due then now else last_read_ns r;
        last_revision := match hardware with Some t => revision t | None => last_revision r end;
        last_menu_read_ns := if menu_due then now else last_menu_read_ns r;
        last_menu_revision := match menu with Some v => menu_revision v | None => last_menu_revision r end |},
     (hardware, menu)).
