(* ===== verification/OverlayShareFacts.v ===== *)
(** The shared telemetry file: what a reader can find in the hardware block
    between two calls of the writers, and in the middle of one. *)
From stdpp Require Import strings sets.
From Stdlib Require Import Btauto.
From S2P Require Import Prelude Bytes Text Profiles Overlay OverlayFacts OverlayMenu OverlayShare.
Local Open Scope Z_scope.

(** * The packed configuration *)
(** A field above the bits of [a]. *)
Lemma lor_field a b k m : m = 2 ^ k -> 0 <= k -> 0 <= a < m -> Z.lor a (Z.shiftl b k) = a + b * m.
Proof.
  intros -> Hk Ha. rewrite Z.shiftl_mul_pow2 by done. symmetry. apply Z.add_nocarry_lor.
  apply Z.bits_inj'. intros n Hn. rewrite Z.land_spec, Z.bits_0. destruct (Z.lt_ge_cases n k).
  - rewrite Z.mul_pow2_bits_low by lia. apply andb_false_r.
  - rewrite <- (Z.mod_small a (2 ^ k)) by done. by rewrite Z.mod_pow2_bits_high by lia.
Qed.
Lemma field_at x k n : 0 <= k -> 0 <= n -> Z.land (Z.shiftr x k) (Z.ones n) = x / 2 ^ k mod 2 ^ n.
Proof. intros. by rewrite Z.land_ones, Z.shiftr_div_pow2 by done. Qed.

Lemma digit_at lo f hi d m : 0 <= lo < d -> 0 <= f < m -> (lo + f * d + hi * (m * d)) / d mod m = f.
Proof.
  intros Hlo Hf. replace (lo + f * d + hi * (m * d)) with (lo + (f + hi * m) * d) by ring.
  rewrite Z.div_add, (Z.div_small lo), Z.add_0_l, Z.mod_add, Z.mod_small by lia. done.
Qed.

(** The fields of a packed configuration. *)
Record Config := {
  c_corner : Z; c_preset : Z; c_metrics : Z; c_opacity : Z; c_scale : Z; c_visible : Z; c_branding : bool; c_layout : Z; c_palette : Z;
}.
Definition pack (c : Config) : Z :=
  Z.lor (pack_overlay_config (c_corner c) (c_preset c) (c_metrics c) (c_opacity c) (c_scale c) (c_layout c) (c_palette c) (c_branding c))
    (Z.shiftl (c_visible c) 48).
Record config_ok (c : Config) : Prop := {
  co_corner : 0 <= c_corner c <= 3;
  co_preset : 0 <= c_preset c <= 3;
  co_metrics : 1 <= c_metrics c <= U16_MAX;
  co_opacity : 0 <= c_opacity c <= 100;
  co_scale : 50 <= c_scale c <= 200 /\ is_multiple_of (c_scale c) 5 = true;
  co_visible : 0 <= c_visible c <= 2;
  co_layout : 0 <= c_layout c <= 2;
  co_palette : 0 <= c_palette c <= 7;
}.
Definition config_of (p : EffectiveGameProfile) : Config := {|
  c_corner := overlay_corner_code (e_overlay_corner p); c_preset := overlay_preset_code (e_overlay_preset p);
  c_metrics := metric_bits (e_overlay_metrics p); c_opacity := Profiles.opacity_percent (e_overlay_opacity p);
  c_scale := Profiles.scale_percent (e_overlay_scale p); c_visible := if e_overlay_visible p then 1 else 2;
  c_branding := e_overlay_branding p; c_layout := overlay_layout_code (e_overlay_layout p);
  c_palette := overlay_palette_code (e_overlay_palette p) |}.
Lemma pack_config_of p : pack_profile p = pack (config_of p).
Proof. done. Qed.

Lemma pack_sum c :
  config_ok c ->
  pack c = c_corner c + c_preset c * 256 + c_metrics c * 65536 + c_opacity c * 4294967296 + c_scale c * 1099511627776
           + c_visible c * 281474976710656 + bool_u8 (c_branding c) * 1125899906842624 + c_layout c * 72057594037927936
           + c_palette c * 1152921504606846976.
Proof.
  intros [H1 H2 H3 H4 [H5 _] H6 H7 H8]. unfold U16_MAX in H3.
  assert (Hb : 0 <= bool_u8 (c_branding c) <= 1) by (destruct (c_branding c); cbn; lia).
  unfold pack, pack_overlay_config. change 15 with (Z.ones 4). rewrite !Z.land_ones by lia. change (2 ^ 4) with 16.
  rewrite (Z.mod_small (c_layout c)), (Z.mod_small (c_palette c)) by lia.
  set (x := Z.lor (Z.lor (Z.lor (Z.lor (c_corner c) _) _) _) _).
  transitivity (Z.lor (Z.lor (Z.lor (Z.lor x (Z.shiftl (c_visible c) 48)) (Z.shiftl (bool_u8 (c_branding c)) 50)) (Z.shiftl (c_layout c) 56))
    (Z.shiftl (c_palette c) 60)).
  { apply Z.bits_inj. intros n. rewrite !Z.lor_spec. btauto. }
  unfold x. rewrite (lor_field _ _ 8 256), (lor_field _ _ 16 65536), (lor_field _ _ 32 4294967296), (lor_field _ _ 40 1099511627776),
    (lor_field _ _ 48 281474976710656), (lor_field _ _ 50 1125899906842624), (lor_field _ _ 56 72057594037927936),
    (lor_field _ _ 60 1152921504606846976) by (reflexivity || lia). lia.
Qed.

Lemma unpack c :
  config_ok c ->
  Z.land (pack c) 255 = c_corner c /\ Z.land (Z.shiftr (pack c) 8) 255 = c_preset c
  /\ Z.land (Z.shiftr (pack c) 16) 65535 = c_metrics c /\ Z.land (Z.shiftr (pack c) 32) 255 = c_opacity c
  /\ Z.land (Z.shiftr (pack c) 40) 255 = c_scale c /\ Z.land (Z.shiftr (pack c) 48) 3 = c_visible c
  /\ Z.land (Z.land (Z.shiftr (pack c) 48) 255) 3 = c_visible c
  /\ Z.land (Z.shiftr (pack c) 48) 4 = 4 * bool_u8 (c_branding c)
  /\ Z.land (Z.shiftr (pack c) 56) 15 = c_layout c /\ Z.land (Z.shiftr (pack c) 60) 15 = c_palette c.
Proof.
  intros H. rewrite (pack_sum c H). destruct H as [H1 H2 H3 H4 [H5 _] H6 H7 H8]. unfold U16_MAX in H3.
  assert (Hb : 0 <= bool_u8 (c_branding c) <= 1) by (destruct (c_branding c); cbn; lia).
  set (x := c_corner c + _ + _ + _ + _ + _ + _ + _ + _).
  assert (Hx : 0 <= x) by (unfold x; lia).
  assert (F : forall k n d m, d = 2 ^ k -> m = 2 ^ n -> 0 <= k -> 0 <= n -> Z.land (Z.shiftr x k) (Z.ones n) = x / d mod m)
    by (intros k n d m -> -> ??; by apply field_at).
  change 255 with (Z.ones 8). change 65535 with (Z.ones 16). change 3 with (Z.ones 2). change 15 with (Z.ones 4).
  rewrite <- Z.land_assoc. change (Z.land (Z.ones 8) (Z.ones 2)) with (Z.ones 2).
  rewrite (F 8 8 256 256), (F 16 16 65536 65536), (F 32 8 4294967296 256), (F 40 8 1099511627776 256), (F 48 2 281474976710656 4),
    (F 56 4 72057594037927936 16), (F 60 4 1152921504606846976 16) by (reflexivity || lia).
  rewrite (Z.land_ones x 8) by lia. change (2 ^ 8) with 256.
  assert (H48 : Z.land (Z.shiftr x 48) 4 = 4 * (x / 281474976710656 / 4 mod 2)).
  { rewrite Z.shiftr_div_pow2 by lia. change (2 ^ 48) with 281474976710656. set (y := x / 281474976710656).
    replace (y / 4) with (Z.shiftr y 2) by (by rewrite Z.shiftr_div_pow2 by lia).
    rewrite (Z.mul_comm 4), <- Z.bit0_mod, Z.shiftr_spec by lia. change (0 + 2) with 2.
    apply Z.bits_inj'. intros n Hn. rewrite Z.land_spec. change 4 with (2 ^ 2). rewrite Z.pow2_bits_eqb by lia.
    destruct (Z.eqb_spec 2 n) as [<-|Hne].
    - rewrite andb_true_r. by destruct (Z.testbit y 2).
    - rewrite andb_false_r. destruct (Z.testbit y 2); [|by rewrite Z.bits_0].
      change (Z.b2z true * 2 ^ 2) with (2 ^ 2). rewrite Z.pow2_bits_eqb by lia. by destruct (Z.eqb_spec 2 n). }
  rewrite H48. clear F H48.
  assert (G : forall lo f hi d m, 0 <= lo < d -> 0 <= f < m -> x = lo + f * d + hi * (m * d) -> x / d mod m = f)
    by (intros lo f hi d m Hlo Hf ->; by apply digit_at).
  splits.
  - rewrite <- (Z.div_1_r x). apply (G 0 _ (c_preset c + c_metrics c * 256 + c_opacity c * 16777216 + c_scale c * 4294967296
      + c_visible c * 1099511627776 + bool_u8 (c_branding c) * 4398046511104 + c_layout c * 281474976710656 + c_palette c * 4503599627370496)); unfold x; lia.
  - apply (G (c_corner c) _ (c_metrics c + c_opacity c * 65536 + c_scale c * 16777216
      + c_visible c * 4294967296 + bool_u8 (c_branding c) * 17179869184 + c_layout c * 1099511627776 + c_palette c * 17592186044416)); unfold x; lia.
  - apply (G (c_corner c + c_preset c * 256) _ (c_opacity c + c_scale c * 256
      + c_visible c * 65536 + bool_u8 (c_branding c) * 262144 + c_layout c * 16777216 + c_palette c * 268435456)); unfold x; lia.
  - apply (G (c_corner c + c_preset c * 256 + c_metrics c * 65536) _ (c_scale c
      + c_visible c * 256 + bool_u8 (c_branding c) * 1024 + c_layout c * 65536 + c_palette c * 1048576)); unfold x; lia.
  - apply (G (c_corner c + c_preset c * 256 + c_metrics c * 65536 + c_opacity c * 4294967296) _ (
      c_visible c + bool_u8 (c_branding c) * 4 + c_layout c * 256 + c_palette c * 4096)); unfold x; lia.
  - apply (G (c_corner c + c_preset c * 256 + c_metrics c * 65536 + c_opacity c * 4294967296 + c_scale c * 1099511627776) _ (
      bool_u8 (c_branding c) + c_layout c * 64 + c_palette c * 1024)); unfold x; lia.
  - apply (G (c_corner c + c_preset c * 256 + c_metrics c * 65536 + c_opacity c * 4294967296 + c_scale c * 1099511627776) _ (
      bool_u8 (c_branding c) + c_layout c * 64 + c_palette c * 1024)); unfold x; lia.
  - f_equal. rewrite Z.div_div by lia. apply (G (c_corner c + c_preset c * 256 + c_metrics c * 65536 + c_opacity c * 4294967296
      + c_scale c * 1099511627776 + c_visible c * 281474976710656) _ (c_layout c * 32 + c_palette c * 512)); unfold x; lia.
  - apply (G (c_corner c + c_preset c * 256 + c_metrics c * 65536 + c_opacity c * 4294967296
      + c_scale c * 1099511627776 + c_visible c * 281474976710656 + bool_u8 (c_branding c) * 1125899906842624) _ (c_palette c)); unfold x; lia.
  - apply (G (c_corner c + c_preset c * 256 + c_metrics c * 65536 + c_opacity c * 4294967296
      + c_scale c * 1099511627776 + c_visible c * 281474976710656 + bool_u8 (c_branding c) * 1125899906842624 + c_layout c * 72057594037927936) _ 0); unfold x; lia.
Qed.

(** * The block while it is rewritten *)
(** The layout of [t] with the two revisions [a] and [b] instead of its own. *)
Definition block_front (t : OverlayHardwareTelemetry) : bytes :=
  MAGIC ++ le_bytes 2 VERSION ++ le_bytes 2 (hardware_flags t) ++ [corner t; preset t] ++ le_bytes 2 (metrics t).
Definition block_middle (t : OverlayHardwareTelemetry) : bytes :=
  optional_u16 (cpu_utilization_tenths t) 0 ++ optional_u16 (cpu_temperature_tenths_celsius t) 0
  ++ optional_u16 (gpu_utilization_tenths t) 0 ++ optional_u16 (gpu_temperature_tenths_celsius t) 0
  ++ [opacity_percent t; scale_percent t] ++ le_bytes 2 (replay_saved_revision t)
  ++ [visibility_u8 (metrics_visible t); layout t; palette t; bool_u8 (branding_visible t)].
Definition torn (t : OverlayHardwareTelemetry) (a b : Z) : bytes := block_front t ++ le_bytes 8 a ++ block_middle t ++ le_bytes 8 b.
Lemma torn_whole t : torn t (revision t) (revision t) = wire_hardware t.
Proof. done. Qed.
Lemma length_torn t a b : length (torn t a b) = OVERLAY_HARDWARE_TELEMETRY_BYTES.
Proof. done. Qed.

Lemma put_opening t a b o rest : put 16 (le_bytes 8 o) (torn t a b ++ rest) = torn t o b ++ rest.
Proof. unfold torn. rewrite <- !app_assoc. by apply put_app_mid. Qed.
Lemma put_closing t a b o rest : put 40 (le_bytes 8 o) (torn t a b ++ rest) = torn t a o ++ rest.
Proof. unfold torn. rewrite !app_assoc. rewrite <- (app_assoc _ (le_bytes 8 b)). rewrite put_app_mid by done. by rewrite <- !app_assoc. Qed.
Lemma put_block bs t a b rest : length bs = OVERLAY_HARDWARE_TELEMETRY_BYTES -> put 0 bs (torn t a b ++ rest) = bs ++ rest.
Proof. intros H. apply (put_app_mid 0 bs [] (torn t a b)); [done|by rewrite length_torn]. Qed.
Lemma hardware_of_torn t a b rest : hardware_block (torn t a b ++ rest) = torn t a b.
Proof. unfold hardware_block. rewrite slice_app_l by (rewrite length_torn; lia). by apply slice_full. Qed.
Lemma menu_of_torn t a b menu : length menu = REPLAY_MENU_TELEMETRY_BYTES -> menu_block (torn t a b ++ menu) = menu.
Proof. intros H. unfold menu_block. rewrite <- (app_nil_r menu) at 1. by apply slice_app_mid. Qed.

Definition even_revision (r : Z) : Prop := 0 < r <= U64_MAX /\ is_multiple_of r 2 = true.
Definition record_ok (t : OverlayHardwareTelemetry) : Prop := validate t = Ok tt /\ hardware_wf t.
Lemma record_revision t : record_ok t -> even_revision (revision t).
Proof.
  intros [Hv [Hr _ _ _ _ _ _ _]]. unfold validate in Hv. destruct (_ || _) eqn:E in Hv; [discriminate Hv|].
  rewrite orb_false_iff, negb_false_iff in E. destruct E as [E1 E2]. unfold in_range in Hr. split; [lia|done].
Qed.

Lemma torn_is_bytes t a b : record_ok t -> is_bytes (torn t a b).
Proof.
  intros [_ [_ Hb _ _ _ _ _ _]]. rewrite !Forall_cons in Hb. destruct Hb as (H1 & H2 & H3 & H4 & H5 & H6 & _).
  assert (Hc : forall x l, is_byte x -> is_bytes l -> is_bytes (x :: l)) by (intros; by constructor).
  assert (Ha : forall l l', is_bytes l -> is_bytes l' -> is_bytes (l ++ l')) by (intros; by apply Forall_app).
  unfold torn, block_front, block_middle, optional_u16.
  repeat apply Ha; try apply le_bytes_is_bytes; try (by apply is_bytes_check); repeat apply Hc; try done; try apply Forall_nil.
  all: unfold is_byte, U8_MAX; destruct (metrics_visible t) as [[]|], (branding_visible t); cbn; lia.
Qed.

(** A block whose revisions differ, or are odd, is refused. *)
Lemma torn_refused t a b x :
  record_ok t -> in_range U64_MAX a -> in_range U64_MAX b -> decode_overlay_hardware_telemetry (torn t a b) = Ok x ->
  a = b /\ is_multiple_of a 2 = true.
Proof.
  intros Ht Ha Hb H. apply decode_hardware_cells in H as (Hv & Hwf & g & _ & Hw); [|by apply torn_is_bytes].
  assert (Hx : record_ok x) by done. apply record_revision in Hx as [Hr He].
  assert (E1 : le_bytes 8 a = le_bytes 8 (revision x)) by (apply (f_equal (slice 16 8)) in Hw; exact Hw).
  assert (E2 : le_bytes 8 b = le_bytes 8 (revision x)) by (apply (f_equal (slice 40 8)) in Hw; exact Hw).
  assert (in_range U64_MAX (revision x)) by (unfold in_range; lia).
  apply (f_equal le_val) in E1, E2. rewrite !le_8 in E1, E2 by done. by subst.
Qed.
Lemma whole_accepted t : record_ok t -> decode_overlay_hardware_telemetry (torn t (revision t) (revision t)) = Ok t.
Proof. intros [Hv Hwf]. rewrite torn_whole. by apply decode_hardware_wire. Qed.

(** ** The edits *)
Definition visible_of (v : Z) : option bool := if v =? 1 then Some true else if v =? 2 then Some false else None.
(** The record that [write_overlay_hardware] publishes. *)
Definition measured (c : Config) (saved : Z) (h : Tenths) (next : Z) : OverlayHardwareTelemetry := {|
  revision := next; corner := c_corner c; preset := c_preset c; layout := c_layout c; palette := c_palette c; metrics := c_metrics c;
  opacity_percent := c_opacity c; scale_percent := c_scale c; replay_saved_revision := saved; metrics_visible := visible_of (c_visible c);
  branding_visible := c_branding c; cpu_utilization_tenths := t_cpu h; cpu_temperature_tenths_celsius := t_cpu_temperature h;
  gpu_utilization_tenths := t_gpu h; gpu_temperature_tenths_celsius := t_gpu_temperature h |}.
Definition tenths_of (t : OverlayHardwareTelemetry) : Tenths := {|
  t_cpu := cpu_utilization_tenths t; t_cpu_temperature := cpu_temperature_tenths_celsius t; t_gpu := gpu_utilization_tenths t;
  t_gpu_temperature := gpu_temperature_tenths_celsius t |}.
(** The old record with a new configuration, and with a new saved clip. *)
Definition configured (c : Config) (t : OverlayHardwareTelemetry) (next : Z) : OverlayHardwareTelemetry :=
  measured c (replay_saved_revision t) (tenths_of t) next.
Definition noticed (saved : Z) (t : OverlayHardwareTelemetry) (next : Z) : OverlayHardwareTelemetry := {|
  revision := next; corner := corner t; preset := preset t; layout := layout t; palette := palette t; metrics := metrics t;
  opacity_percent := opacity_percent t; scale_percent := scale_percent t; replay_saved_revision := saved;
  metrics_visible := metrics_visible t; branding_visible := branding_visible t; cpu_utilization_tenths := cpu_utilization_tenths t;
  cpu_temperature_tenths_celsius := cpu_temperature_tenths_celsius t; gpu_utilization_tenths := gpu_utilization_tenths t;
  gpu_temperature_tenths_celsius := gpu_temperature_tenths_celsius t |}.

Lemma branding_bit b : negb (4 * bool_u8 b =? 0) = b.
Proof. by destruct b. Qed.
Lemma telemetry_measured c next saved h : config_ok c -> telemetry_of next (pack c) saved h = measured c saved h next.
Proof.
  intros H. destruct (unpack c H) as (E1 & E2 & E3 & E4 & E5 & E6 & E7 & E8 & E9 & E10).
  unfold telemetry_of, measured, visible_of. rewrite E1, E2, E3, E4, E5, E7, E8, E9, E10, branding_bit. done.
Qed.
Lemma visibility_of_field c : config_ok c -> visibility_u8 (visible_of (c_visible c)) = c_visible c.
Proof.
  intros H. pose proof (co_visible c H). unfold visible_of. destruct (Z.eqb_spec (c_visible c) 1); [done|].
  destruct (Z.eqb_spec (c_visible c) 2); cbn; lia.
Qed.
Lemma config_edit c next t a b :
  config_ok c -> config_bytes (pack c) next (torn t a b) = Ok (wire_hardware (configured c t next)).
Proof.
  intros H. destruct (unpack c H) as (E1 & E2 & E3 & E4 & E5 & E6 & E7 & E8 & E9 & E10).
  rewrite <- (visibility_of_field c H) in E6.
  unfold config_bytes. rewrite E1, E2, E3, E4, E5, E6, E8, E9, E10, branding_bit. clear.
  cbv -[Z.div Z.modulo hardware_flags visibility_u8 bool_u8 visible_of default]; reflexivity.
Qed.
Lemma notice_edit saved next t a b : notice_bytes saved next (torn t a b) = Ok (wire_hardware (noticed saved t next)).
Proof. cbv -[Z.div Z.modulo hardware_flags visibility_u8 bool_u8 default]; reflexivity. Qed.

(** * Three calls publish a block *)
Definition same_counters (s s' : Share) : Prop :=
  overlay_telemetry_revision s' = overlay_telemetry_revision s /\ overlay_config s' = overlay_config s
  /\ overlay_replay_saved_revision s' = overlay_replay_saved_revision s.
Lemma write_call off bs s :
  same_counters s (write_all_at off bs s).1
  /\ (write_all_at off bs s = ((write_all_at off bs s).1, Ok tt)
      /\ overlay_telemetry_file (write_all_at off bs s).1 = put off bs (overlay_telemetry_file s)
      /\ seen (write_all_at off bs s).1 = put off bs (overlay_telemetry_file s) :: seen s
      \/ write_all_at off bs s = ((write_all_at off bs s).1, Err ShareIo)
         /\ overlay_telemetry_file (write_all_at off bs s).1 = overlay_telemetry_file s
         /\ seen (write_all_at off bs s).1 = seen s).
Proof. unfold write_all_at. destruct (refuses s) as [|[] rest]; (split; [done|]); auto. Qed.

(** The odd revision at both places, then the block.  [news] are the contents a
    reader can meet. *)
Definition publication (f f1 f2 f3 : bytes) (s s' : Share) (r : outcome share_error unit) : Prop :=
  same_counters s s'
  /\ (r = Ok tt /\ overlay_telemetry_file s' = f3 /\ seen s' = [f3; f2; f1] ++ seen s
      \/ r = Err ShareIo /\ exists news, seen s' = news ++ seen s /\ Forall (fun c => c ∈ [f1; f2]) news /\ overlay_telemetry_file s' ∈ [f; f1; f2]).
Lemma publish_calls o1 o2 base odd bs s f1 f2 f3 :
  put o1 odd (overlay_telemetry_file s) = f1 -> put o2 odd f1 = f2 -> put base bs f2 = f3 ->
  let '(s', r) := (_ ← write_all_at o1 odd; _ ← write_all_at o2 odd; write_all_at base bs) s in
  publication (overlay_telemetry_file s) f1 f2 f3 s s' r.
Proof.
  intros H1 H2 H3. unfold mbind, st_bind.
  destruct (write_call o1 odd s) as [C1 [(E1 & F1 & S1)|(E1 & F1 & S1)]]; rewrite E1; cycle 1.
  { split; [done|]. right. split; [done|]. exists []. rewrite S1, F1. splits; [done|done|by left]. }
  set (s1 := (write_all_at o1 odd s).1) in *. rewrite H1 in F1, S1.
  destruct (write_call o2 odd s1) as [C2 [(E2 & F2 & S2)|(E2 & F2 & S2)]]; rewrite E2; cycle 1.
  { split; [unfold same_counters in *; intuition congruence|]. right. split; [done|]. exists [f1]. rewrite S2, S1, F2, F1.
    splits; [done|constructor; [by left|done]|by right; left]. }
  set (s2 := (write_all_at o2 odd s1).1) in *. rewrite F1, H2 in F2, S2.
  destruct (write_call base bs s2) as [C3 [(E3 & F3 & S3)|(E3 & F3 & S3)]]; rewrite E3;
    (split; [unfold same_counters in *; intuition congruence|]).
  - left. rewrite F2, H3 in F3, S3. by rewrite F3, S3, S2, S1.
  - right. split; [done|]. exists [f2; f1]. rewrite S3, S2, S1, F3, F2.
    splits; [done|repeat (constructor; [set_solver|]); done|set_solver].
Qed.

