(* ===== verification/OverlayShareTheorems.v ===== *)
(** The shared telemetry file refines two records: whatever calls the disk
    refuses, a reader finds the last published records or nothing. *)
From stdpp Require Import strings sets.
From S2P Require Import Prelude Bytes Text Profiles Overlay OverlayFacts OverlayMenu OverlayShare OverlayShareFacts.
Local Open Scope Z_scope.

(** * The menu block while it is rewritten *)
Definition menu_front (v : ReplayMenuTelemetry) : bytes :=
  REPLAY_MENU_MAGIC ++ le_bytes 2 REPLAY_MENU_VERSION ++ [bool_u8 (menu_visible v); bool_u8 (pointer_pressed v)]
  ++ le_bytes 2 (menu_cursor_x v) ++ le_bytes 2 (menu_cursor_y v).
Definition menu_middle (v : ReplayMenuTelemetry) : bytes :=
  [hover_target v; menu_pressed_target v; selected_duration_index v; ReplayMenuStatus_as_u8 (menu_status v)]
  ++ le_bytes 2 (available_seconds v) ++ le_bytes 2 (menu_click_revision v)
  ++ [menu_frame_rate v; menu_quality v; menu_output_format v; bool_u8 (save_enabled v);
      label_length (overlay_shortcut v); label_length (save_shortcut v); 0; 0]
  ++ label_bytes (overlay_shortcut v) ++ label_bytes (save_shortcut v).
Definition menu_torn (v : ReplayMenuTelemetry) (a b : Z) : bytes := menu_front v ++ le_bytes 8 a ++ menu_middle v ++ le_bytes 8 b.
Definition menu_ok (v : ReplayMenuTelemetry) : Prop := validate_replay_menu v = Ok tt /\ menu_wf v.

Lemma menu_torn_whole v : menu_torn v (menu_revision v) (menu_revision v) = wire_menu v.
Proof. unfold menu_torn, menu_front, menu_middle, wire_menu. by rewrite <- !app_assoc. Qed.
Lemma length_menu_middle v : menu_ok v -> length (menu_middle v) = 96%nat.
Proof. intros [_ [_ _ _ [Ha _ _ _] [Hb _ _ _]]]. unfold menu_middle. rewrite !length_app, Ha, Hb. done. Qed.
Lemma length_menu_torn v a b : menu_ok v -> length (menu_torn v a b) = REPLAY_MENU_TELEMETRY_BYTES.
Proof. intros H. unfold menu_torn. rewrite !length_app, !length_le_bytes, length_menu_middle by done. done. Qed.

Lemma put_app_end {A} off (b' a b : list A) : length a = off -> length b = length b' -> put off b' (a ++ b) = a ++ b'.
Proof.
  intros <- Hb. unfold put. rewrite <- (Nat.add_0_r (length a)), list_inserts_app_r. f_equal.
  apply list_eq. intros i. destruct (decide (i < length b)%nat).
  - rewrite list_lookup_inserts by lia. by rewrite Nat.sub_0_r.
  - rewrite !lookup_ge_None_2; [done|lia|rewrite length_inserts; lia].
Qed.
Lemma menu_put_opening h v a b o :
  length h = OVERLAY_HARDWARE_TELEMETRY_BYTES ->
  put (OVERLAY_HARDWARE_TELEMETRY_BYTES + 16) (le_bytes 8 o) (h ++ menu_torn v a b) = h ++ menu_torn v o b.
Proof.
  intros Hh. unfold menu_torn. rewrite !(app_assoc h (menu_front v)). apply put_app_mid; [|done]. rewrite length_app, Hh. done.
Qed.
Lemma menu_put_closing h v a b o :
  menu_ok v -> length h = OVERLAY_HARDWARE_TELEMETRY_BYTES ->
  put (OVERLAY_HARDWARE_TELEMETRY_BYTES + 120) (le_bytes 8 o) (h ++ menu_torn v a b) = h ++ menu_torn v a o.
Proof.
  intros Hv Hh. unfold menu_torn. rewrite !(app_assoc h), !(app_assoc (h ++ _)), !(app_assoc ((h ++ _) ++ _)).
  apply put_app_end; [|done]. rewrite !length_app, Hh, length_menu_middle by done. done.
Qed.
Lemma menu_put_block h v a b bs :
  menu_ok v -> length h = OVERLAY_HARDWARE_TELEMETRY_BYTES -> length bs = REPLAY_MENU_TELEMETRY_BYTES ->
  put OVERLAY_HARDWARE_TELEMETRY_BYTES bs (h ++ menu_torn v a b) = h ++ bs.
Proof.
  intros Hv Hh Hb. apply put_app_end; [done|]. by rewrite Hb, length_menu_torn.
Qed.

Lemma wire_menu_is_bytes v : menu_ok v -> is_bytes (wire_menu v).
Proof.
  intros [_ [_ _ Hb Ho Hs]]. rewrite !Forall_cons in Hb. destruct Hb as (H1 & H2 & H3 & H4 & H5 & H6 & _).
  assert (Hc : forall x l, is_byte x -> is_bytes l -> is_bytes (x :: l)) by (intros; by constructor).
  assert (Ha : forall l l', is_bytes l -> is_bytes l' -> is_bytes (l ++ l')) by (intros; by apply Forall_app).
  assert (Hbool : forall b, is_byte (bool_u8 b)) by (intros []; unfold is_byte, U8_MAX; cbn; lia).
  assert (Hlen : forall l, label_wf l -> is_byte (label_length l))
    by (intros l [_ Hl _ _]; unfold is_byte, U8_MAX, REPLAY_SHORTCUT_LABEL_BYTES in *; lia).
  unfold wire_menu.
  repeat apply Ha; try apply le_bytes_is_bytes; try (by apply is_bytes_check); try (by apply label_bytes_wf); repeat apply Hc;
    try done; try apply Forall_nil; try apply Hbool; try (by apply Hlen); try done; unfold is_byte, U8_MAX; try lia.
  destruct (menu_status v); cbn; lia.
Qed.
Lemma menu_torn_is_bytes v a b : menu_ok v -> is_bytes (menu_torn v a b).
Proof.
  intros H. pose proof (wire_menu_is_bytes v H) as Hw. rewrite <- menu_torn_whole in Hw. unfold menu_torn in *.
  unfold is_bytes in *. rewrite !Forall_app in *. destruct Hw as (H1 & _ & H2 & _). splits; try done; apply le_bytes_is_bytes.
Qed.
Lemma menu_torn_refused v a b x :
  menu_ok v -> in_range U64_MAX a -> in_range U64_MAX b -> decode_replay_menu_telemetry (menu_torn v a b) = Ok x ->
  a = b /\ is_multiple_of a 2 = true.
Proof.
  intros Hv Ha Hb H. apply decode_menu_cells in H as (Hx & Hwf & Hw); [|by apply menu_torn_is_bytes].
  rewrite <- menu_torn_whole in Hw. unfold menu_torn in Hw.
  assert (Hl : length (menu_middle v) = length (menu_middle x)) by (by rewrite !length_menu_middle by done).
  apply app_inj_1 in Hw as [_ Hw]; [|done]. apply app_inj_1 in Hw as [E1 Hw]; [|done].
  apply app_inj_1 in Hw as [_ E2]; [|done].
  assert (Hr : in_range U64_MAX (menu_revision x)) by (by destruct Hwf).
  apply (f_equal le_val) in E1, E2. rewrite !le_8 in E1, E2 by done. subst. split; [done|].
  unfold validate_replay_menu in Hx. destruct (_ || _) eqn:E in Hx; [discriminate Hx|]. rewrite !orb_false_iff, negb_false_iff in E. tauto.
Qed.
Lemma menu_whole_accepted v : menu_ok v -> decode_replay_menu_telemetry (menu_torn v (menu_revision v) (menu_revision v)) = Ok v.
Proof. intros [Hv Hwf]. rewrite menu_torn_whole. by apply decode_menu_wire. Qed.

(** * The abstract state: two records *)
Record shown := { s_hardware : OverlayHardwareTelemetry; s_menu : ReplayMenuTelemetry; s_config : Config }.

(** The revisions in the file: the record's own, or an update was begun. *)
Definition revisions (r a b : Z) : Prop :=
  in_range U64_MAX a /\ in_range U64_MAX b /\ ((a = r /\ b = r) \/ is_multiple_of a 2 = false).
Definition content (A : shown) (f : bytes) : Prop :=
  exists a b c d, f = torn (s_hardware A) a b ++ menu_torn (s_menu A) c d
    /\ revisions (revision (s_hardware A)) a b /\ revisions (menu_revision (s_menu A)) c d.
Definition published_content (A : shown) (f : bytes) : Prop :=
  f = torn (s_hardware A) (revision (s_hardware A)) (revision (s_hardware A)) ++ menu_torn (s_menu A) (menu_revision (s_menu A)) (menu_revision (s_menu A)).
Record shares (s : Share) (A : shown) : Prop := {
  sh_hardware : record_ok (s_hardware A);
  sh_menu : menu_ok (s_menu A);
  sh_file : content A (overlay_telemetry_file s);
  sh_config : config_ok (s_config A) /\ overlay_config s = pack (s_config A);
  sh_saved : in_range U16_MAX (overlay_replay_saved_revision s);
  sh_counter : in_range U64_MAX (overlay_telemetry_revision s) /\ is_multiple_of (overlay_telemetry_revision s) 2 = true;
}.

(** What the readers decode. *)
Definition reads (f : bytes) (A : shown) : Prop :=
  (forall t, decode_overlay_hardware_telemetry (hardware_block f) = Ok t -> t = s_hardware A)
  /\ (forall v, decode_replay_menu_telemetry (menu_block f) = Ok v -> v = s_menu A).
Lemma content_reads A f : record_ok (s_hardware A) -> menu_ok (s_menu A) -> content A f -> reads f A.
Proof.
  intros Hh Hm (a & b & c & d & -> & (Ra & Rb & Rab) & (Rc & Rd & Rcd)). split.
  - intros t. rewrite hardware_of_torn. intros H. destruct Rab as [[-> ->]|Hodd].
    + rewrite whole_accepted in H by done. by injection H.
    + apply torn_refused in H as [_ H]; try done. congruence.
  - intros v. rewrite menu_of_torn by (by apply length_menu_torn). intros H. destruct Rcd as [[-> ->]|Hodd].
    + rewrite menu_whole_accepted in H by done. by injection H.
    + apply menu_torn_refused in H as [_ H]; try done. congruence.
Qed.

(** * The operations and their effect *)
Inductive share_op :=
| UpdateHardware (h : Tenths) | UpdateConfig (p : EffectiveGameProfile) | PublishNotice | UpdateMenu (v : ReplayMenuTelemetry).
Definition run_share (op : share_op) : share unit :=
  match op with
  | UpdateHardware h => update_overlay_hardware h
  | UpdateConfig p => update_overlay_config p
  | PublishNotice => publish_replay_saved_notice
  | UpdateMenu v => update_replay_menu v
  end.
Definition next_notice (saved : Z) : Z := if saved =? U16_MAX then 1 else saved + 1.
(** The records after an operation that succeeds. *)
Definition updated (op : share_op) (s : Share) (A : shown) : shown :=
  let next := overlay_telemetry_revision s + 2 in
  match op with
  | UpdateHardware h => {| s_hardware := measured (s_config A) (overlay_replay_saved_revision s) h next; s_menu := s_menu A; s_config := s_config A |}
  | UpdateConfig p => {| s_hardware := configured (config_of p) (s_hardware A) next; s_menu := s_menu A; s_config := config_of p |}
  | PublishNotice =>
      {| s_hardware := noticed (next_notice (overlay_replay_saved_revision s)) (s_hardware A) next; s_menu := s_menu A; s_config := s_config A |}
  | UpdateMenu v => {| s_hardware := s_hardware A; s_menu := v; s_config := s_config A |}
  end.

Definition tenth_ok (m : Z) (v : option Z) : Prop := match v with Some x => 0 <= x <= m | None => True end.
Definition tenths_ok (h : Tenths) : Prop :=
  tenth_ok MAX_UTILIZATION_TENTHS (t_cpu h) /\ tenth_ok MAX_TEMPERATURE_TENTHS_CELSIUS (t_cpu_temperature h)
  /\ tenth_ok MAX_UTILIZATION_TENTHS (t_gpu h) /\ tenth_ok MAX_TEMPERATURE_TENTHS_CELSIUS (t_gpu_temperature h).
Definition share_op_ok (op : share_op) : Prop :=
  match op with
  | UpdateHardware h => tenths_ok h
  | UpdateConfig p => config_ok (config_of p)
  | PublishNotice => True
  | UpdateMenu v => menu_wf v
  end.

Lemma even_spec x : is_multiple_of x 2 = true <-> exists k, x = 2 * k.
Proof.
  unfold is_multiple_of. rewrite Z.eqb_eq. split.
  - intros H. exists (x / 2). pose proof (Z.div_mod x 2). lia.
  - intros [k ->]. rewrite Z.mul_comm. apply Z.mod_mul. lia.
Qed.
Lemma even_pred x : is_multiple_of x 2 = true -> is_multiple_of (x - 1) 2 = false.
Proof.
  intros [k ->]%even_spec. unfold is_multiple_of. replace (2 * k - 1) with (1 + (k - 1) * 2) by lia. rewrite Z.mod_add by lia. done.
Qed.
Lemma even_next x : is_multiple_of x 2 = true -> is_multiple_of (x + 2) 2 = true.
Proof. intros [k ->]%even_spec. apply even_spec. exists (k + 1). lia. Qed.

Lemma tenth_range m v : m <= U16_MAX -> tenth_ok m v -> opt_u16 v.
Proof. destruct v; cbn; unfold in_range; [lia|done]. Qed.
Lemma measured_ok c saved h next :
  config_ok c -> in_range U16_MAX saved -> tenths_ok h -> even_revision next -> record_ok (measured c saved h next).
Proof.
  intros [H1 H2 H3 H4 [H5 H5'] H6 H7 H8] Hs (T1 & T2 & T3 & T4) [Hn He]. split.
  - unfold validate, measured. cbn [revision corner preset layout palette metrics opacity_percent scale_percent
      cpu_utilization_tenths gpu_utilization_tenths cpu_temperature_tenths_celsius gpu_temperature_tenths_celsius].
    rewrite He, H5'. replace (next =? 0) with false by lia. cbn [negb orb].
    assert (E : forall m a b, tenth_ok m a -> tenth_ok m b -> existsb (fun u => m <? u) (omap id [a; b]) = false).
    { intros m a b Ha Hb. destruct a, b; cbn in *; rewrite ?orb_false_r, ?orb_false_iff, ?Z.ltb_ge; lia. }
    rewrite !E by done. destruct (_ || _) eqn:Eb; [|done]. exfalso. unfold U16_MAX in H3. clear -H1 H2 H3 H4 H5 H7 H8 Eb. lia.
  - unfold U16_MAX in *. constructor; cbn [measured revision corner preset layout palette metrics opacity_percent scale_percent replay_saved_revision
      cpu_utilization_tenths gpu_utilization_tenths cpu_temperature_tenths_celsius gpu_temperature_tenths_celsius].
    + unfold in_range. lia.
    + unfold in_range, U8_MAX. repeat (apply Forall_cons; split; [lia|]). by apply Forall_nil.
    + unfold in_range, U16_MAX. lia.
    + done.
    + by apply (tenth_range MAX_UTILIZATION_TENTHS).
    + by apply (tenth_range MAX_TEMPERATURE_TENTHS_CELSIUS).
    + by apply (tenth_range MAX_UTILIZATION_TENTHS).
    + by apply (tenth_range MAX_TEMPERATURE_TENTHS_CELSIUS).
Qed.
(** The measurements of a valid record are in range. *)
Lemma record_tenths t : record_ok t -> tenths_ok (tenths_of t).
Proof.
  intros [Hv [_ _ _ _ Q1 Q2 Q3 Q4]]. unfold validate in Hv. destruct (_ || _) in Hv; [discriminate Hv|]. destruct (_ || _) in Hv; [discriminate Hv|].
  destruct (existsb _ (omap id [cpu_utilization_tenths t; gpu_utilization_tenths t])) eqn:E1; [discriminate Hv|].
  destruct (existsb _ (omap id [cpu_temperature_tenths_celsius t; gpu_temperature_tenths_celsius t])) eqn:E2; [discriminate Hv|]. clear Hv.
  assert (E : forall m a b, opt_u16 a -> opt_u16 b -> existsb (fun u => m <? u) (omap id [a; b]) = false -> tenth_ok m a /\ tenth_ok m b).
  { intros m a b Ha Hb H. destruct a, b; cbn in *; unfold in_range in *; rewrite ?orb_false_r, ?orb_false_iff, ?Z.ltb_ge in H; lia. }
  apply E in E1 as [? ?]; [|done..]. apply E in E2 as [? ?]; [|done..]. by splits.
Qed.
Lemma configured_ok c t next : config_ok c -> record_ok t -> even_revision next -> record_ok (configured c t next).
Proof. intros Hc Ht Hn. apply measured_ok; [done|by destruct Ht as [_ []]|by apply record_tenths|done]. Qed.
Lemma noticed_ok saved t next : in_range U16_MAX saved -> record_ok t -> even_revision next -> record_ok (noticed saved t next).
Proof.
  intros Hs [Hv [R1 R2 R3 R4 R5 R6 R7 R8]] [Hn He]. split.
  - unfold validate in *. cbn [noticed revision corner preset layout palette metrics opacity_percent scale_percent
      cpu_utilization_tenths gpu_utilization_tenths cpu_temperature_tenths_celsius gpu_temperature_tenths_celsius].
    rewrite He. replace (next =? 0) with false by lia. cbn [negb orb]. by destruct ((revision t =? 0) || _) in Hv.
  - constructor; try done. cbn. unfold in_range. lia.
Qed.

(** * One publication *)
(** The file moves from [A] to [A'] or stays at [A]; every content in between
    belongs to one of them. *)
Definition moved (A A' : shown) (Q : bytes -> Prop) (s s' : Share) (r : outcome share_error unit) : Prop :=
  same_counters s s'
  /\ (r = Ok tt /\ content A' (overlay_telemetry_file s') /\ Q (overlay_telemetry_file s') \/ r = Err ShareIo /\ content A (overlay_telemetry_file s'))
  /\ exists news, seen s' = news ++ seen s /\ Forall (fun c => content A c \/ (r = Ok tt /\ content A' c)) news.

Lemma publication_moved A A' (Q : bytes -> Prop) f1 f2 f3 s s' r :
  content A (overlay_telemetry_file s) -> content A f1 -> content A f2 -> content A' f3 -> Q f3 ->
  publication (overlay_telemetry_file s) f1 f2 f3 s s' r -> moved A A' Q s s' r.
Proof.
  intros H0 H1 H2 H3 HQ (Hc & [(-> & Hf & Hs)|(-> & news & Hs & Hn & Hf)]); split; try done; split.
  - left. by rewrite Hf.
  - exists [f3; f2; f1]. split; [done|]. repeat (apply Forall_cons; split; [auto|]). by apply Forall_nil.
  - right. split; [done|]. rewrite !elem_of_cons, elem_of_nil in Hf. by destruct Hf as [->|[->|[->|[]]]].
  - exists news. split; [done|]. eapply Forall_impl; [exact Hn|]. intros c Hin. rewrite !elem_of_cons, elem_of_nil in Hin. destruct Hin as [->|[->|[]]]; by left.
Qed.

Lemma revisions_begun r n b :
  is_multiple_of n 2 = true -> in_range U64_MAX (n - 1) -> in_range U64_MAX b -> revisions r (n - 1) b.
Proof. intros. split; [done|]. split; [done|]. right. by apply even_pred. Qed.
Lemma revisions_whole r : in_range U64_MAX r -> revisions r r r.
Proof. intros. split; [done|]. split; [done|]. by left. Qed.

Lemma publish_hardware s A t' cfg :
  shares s A -> record_ok t' ->
  let '(s', r) := (_ ← write_all_at 16 (le_bytes 8 (revision t' - 1)); _ ← write_all_at 40 (le_bytes 8 (revision t' - 1));
                   write_all_at 0 (wire_hardware t')) s in
  moved A {| s_hardware := t'; s_menu := s_menu A; s_config := cfg |}
    (fun f => decode_overlay_hardware_telemetry (hardware_block f) = Ok t') s s' r.
Proof.
  intros Hs Ht. destruct (record_revision t' Ht) as [Hr He].
  assert (Hodd : in_range U64_MAX (revision t' - 1)) by (unfold in_range; lia).
  pose proof (sh_file s A Hs) as Hfile. destruct (sh_file s A Hs) as (a & b & c & d & Ef & (Ra & Rb & Rab) & Rcd).
  pose proof (publish_calls 16 40 0 (le_bytes 8 (revision t' - 1)) (wire_hardware t') s
    (torn (s_hardware A) (revision t' - 1) b ++ menu_torn (s_menu A) c d)
    (torn (s_hardware A) (revision t' - 1) (revision t' - 1) ++ menu_torn (s_menu A) c d)
    (wire_hardware t' ++ menu_torn (s_menu A) c d)) as Hp.
  rewrite Ef in Hp. specialize (Hp (put_opening _ _ _ _ _) (put_closing _ _ _ _ _) (put_block _ _ _ _ _ (length_wire_hardware t'))).
  match goal with |- let '(_, _) := ?m in _ => destruct m as [s' r] end. rewrite <- Ef in Hp. revert Hp. apply publication_moved; [done|..].
  - exists (revision t' - 1), b, c, d. splits; try done; by apply revisions_begun.
  - exists (revision t' - 1), (revision t' - 1), c, d. splits; try done; by apply revisions_begun.
  - exists (revision t'), (revision t'), c, d. rewrite torn_whole. splits; try done; apply revisions_whole; unfold in_range; lia.
  - by rewrite <- torn_whole, hardware_of_torn, whole_accepted.
Qed.
Lemma publish_menu s A v :
  shares s A -> menu_ok v ->
  let odd := le_bytes 8 (sat_sub (menu_revision v) 1) in
  let '(s', r) := (_ ← write_all_at (OVERLAY_HARDWARE_TELEMETRY_BYTES + 16) odd; _ ← write_all_at (OVERLAY_HARDWARE_TELEMETRY_BYTES + 120) odd;
                   write_all_at OVERLAY_HARDWARE_TELEMETRY_BYTES (wire_menu v)) s in
  moved A {| s_hardware := s_hardware A; s_menu := v; s_config := s_config A |}
    (fun f => decode_replay_menu_telemetry (menu_block f) = Ok v) s s' r.
Proof.
  intros Hs Hv odd. assert (He : is_multiple_of (menu_revision v) 2 = true /\ 0 < menu_revision v <= U64_MAX).
  { destruct Hv as [Hv [Hr _ _ _ _]]. unfold validate_replay_menu in Hv. destruct (_ || _) eqn:E in Hv; [discriminate Hv|].
    rewrite !orb_false_iff, negb_false_iff in E. unfold in_range in Hr. split; [tauto|lia]. }
  destruct He as [He Hr].
  assert (Ho : odd = le_bytes 8 (menu_revision v - 1)) by (unfold odd; by rewrite sat_sub_exact by lia). clearbody odd. subst odd.
  assert (Hodd : in_range U64_MAX (menu_revision v - 1)) by (unfold in_range; lia).
  pose proof (sh_file s A Hs) as Hfile. destruct (sh_file s A Hs) as (a & b & c & d & Ef & Rab & (Rc & Rd & Rcd)).
  pose proof (sh_menu s A Hs) as Hm.
  pose proof (publish_calls (OVERLAY_HARDWARE_TELEMETRY_BYTES + 16) (OVERLAY_HARDWARE_TELEMETRY_BYTES + 120) OVERLAY_HARDWARE_TELEMETRY_BYTES
    (le_bytes 8 (menu_revision v - 1)) (wire_menu v) s
    (torn (s_hardware A) a b ++ menu_torn (s_menu A) (menu_revision v - 1) d)
    (torn (s_hardware A) a b ++ menu_torn (s_menu A) (menu_revision v - 1) (menu_revision v - 1))
    (torn (s_hardware A) a b ++ wire_menu v)) as Hp.
  rewrite Ef in Hp. specialize (Hp (menu_put_opening _ _ _ _ _ (length_torn _ _ _)) (menu_put_closing _ _ _ _ _ Hm (length_torn _ _ _))
    (menu_put_block _ _ _ _ _ Hm (length_torn _ _ _) (length_wire_menu v (proj2 Hv)))).
  match goal with |- let '(_, _) := ?m in _ => destruct m as [s' r] end. rewrite <- Ef in Hp. revert Hp. apply publication_moved; [done|..].
  - exists a, b, (menu_revision v - 1), d. splits; try done; by apply revisions_begun.
  - exists a, b, (menu_revision v - 1), (menu_revision v - 1). splits; try done; by apply revisions_begun.
  - exists a, b, (menu_revision v), (menu_revision v). rewrite menu_torn_whole. splits; try done; apply revisions_whole; unfold in_range; lia.
  - by rewrite <- menu_torn_whole, menu_of_torn, menu_whole_accepted by (done || by apply length_menu_torn).
Qed.

(** * Every operation *)
Definition bump (s : Share) : Share := (fetch_add_revision s).1.
Lemma bump_eq s : fetch_add_revision s = (bump s, Ok (overlay_telemetry_revision s)).
Proof. done. Qed.
Lemma bump_shares s A : shares s A -> shares (bump s) A.
Proof.
  intros [H1 H2 H3 H4 H5 [H6 H7]]. constructor; try done. cbn. split.
  - unfold in_range. pose proof (Z.mod_pos_bound (overlay_telemetry_revision s + 2) (U64_MAX + 1)). unfold U64_MAX in *. lia.
  - apply even_spec in H7 as [k Hk]. rewrite Hk. apply even_spec. exists ((k + 1) mod 9223372036854775808).
    replace (2 * k + 2) with (2 * (k + 1)) by lia. rewrite <- Z.mul_mod_distr_l by lia. done.
Qed.
Lemma file_length s A : shares s A -> length (overlay_telemetry_file s) = (OVERLAY_HARDWARE_TELEMETRY_BYTES + REPLAY_MENU_TELEMETRY_BYTES)%nat.
Proof.
  intros H. destruct (sh_file s A H) as (a & b & c & d & -> & _). rewrite length_app, length_torn, length_menu_torn by apply (sh_menu s A H). done.
Qed.

(** The next revision, when there is one. *)
Lemma next_revision s A next :
  shares s A -> checked_add U64_MAX (overlay_telemetry_revision s) 2 = Some next ->
  next = overlay_telemetry_revision s + 2 /\ even_revision next.
Proof.
  intros H [Hn ->]%checked_add_Some. destruct (sh_counter s A H) as [Hr He]. unfold in_range in Hr. split; [done|]. split; [lia|by apply even_next].
Qed.

Lemma hardware_shape h s A next t' :
  shares s A -> checked_add U64_MAX (overlay_telemetry_revision s) 2 = Some next ->
  encode_overlay_hardware_telemetry (telemetry_of next (overlay_config s) (overlay_replay_saved_revision s) h)
    (replicate OVERLAY_HARDWARE_TELEMETRY_BYTES 0) = Ok (OVERLAY_HARDWARE_TELEMETRY_BYTES, wire_hardware t') ->
  update_overlay_hardware h s
  = (_ ← write_all_at 16 (le_bytes 8 (next - 1)); _ ← write_all_at 40 (le_bytes 8 (next - 1)); write_all_at 0 (wire_hardware t')) (bump s).
Proof.
  intros Hs Hn He. destruct (next_revision s A next Hs Hn) as [_ [Hr Hev]].
  unfold update_overlay_hardware, write_overlay_hardware, publish_odd, mbind, st_bind. rewrite bump_eq. rewrite Hn. unfold lift, ok_or. cbn [mbind option_bind].
  rewrite (proj2 (Z.ltb_lt 0 next)), Hev by lia. cbn [andb]. rewrite He. cbn [map_err].
  destruct (write_all_at 16 _ (bump s)) as [s1 [| |]]; [|done..]. by destruct (write_all_at 40 _ s1) as [s2 [| |]].
Qed.
Lemma rewrite_shape edit s A next bs :
  shares s A -> checked_add U64_MAX (overlay_telemetry_revision s) 2 = Some next ->
  edit next (hardware_block (overlay_telemetry_file s)) = Ok bs ->
  rewrite_block edit s
  = (_ ← write_all_at 16 (le_bytes 8 (next - 1)); _ ← write_all_at 40 (le_bytes 8 (next - 1)); write_all_at 0 bs) (bump s).
Proof.
  intros Hs Hn He. unfold rewrite_block, publish_odd, mbind, st_bind, read_exact_at.
  rewrite (file_length s A Hs), (proj2 (Nat.leb_le _ _)) by (vm_compute; lia). rewrite bump_eq. unfold lift. rewrite Hn. cbn [ok_or]. fold (hardware_block (overlay_telemetry_file s)). rewrite He.
  destruct (write_all_at 16 _ (bump s)) as [s1 [| |]]; [|done..]. by destruct (write_all_at 40 _ s1) as [s2 [| |]].
Qed.
Lemma overflow_shape s A :
  shares s A -> checked_add U64_MAX (overlay_telemetry_revision s) 2 = None ->
  (forall h, update_overlay_hardware h s = (bump s, Err RevisionOverflowed))
  /\ (forall edit, rewrite_block edit s = (bump s, Err RevisionOverflowed)).
Proof.
  intros Hs Hn. split; intros x.
  - unfold update_overlay_hardware, write_overlay_hardware, mbind, st_bind. rewrite bump_eq. unfold lift. by rewrite Hn.
  - unfold rewrite_block, mbind, st_bind, read_exact_at. rewrite (file_length s A Hs), (proj2 (Nat.leb_le _ _)) by (vm_compute; lia).
    rewrite bump_eq. unfold lift. by rewrite Hn.
Qed.

(** ** What a call leaves behind *)
Definition decoded (op : share_op) (A : shown) (f : bytes) : Prop :=
  match op with
  | UpdateMenu _ => decode_replay_menu_telemetry (menu_block f) = Ok (s_menu A)
  | _ => decode_overlay_hardware_telemetry (hardware_block f) = Ok (s_hardware A)
  end.
Definition settled (op : share_op) (A A' : shown) (s s' : Share) (r : outcome share_error unit) : Prop :=
  (r = Ok tt /\ shares s' A' /\ decoded op A' (overlay_telemetry_file s') \/ (exists e, r = Err e) /\ shares s' A)
  /\ exists news, seen s' = news ++ seen s /\ Forall (fun c => content A c \/ (r = Ok tt /\ content A' c)) news.

Lemma moved_shares op A A' s s' r :
  shares s A -> record_ok (s_hardware A') -> menu_ok (s_menu A') -> s_config A' = s_config A ->
  moved A A' (decoded op A') s s' r -> settled op A A' s s' r.
Proof.
  intros Hs Hh Hm Hc [(E1 & E2 & E3) [Hr Hn]]. split; [|done]. destruct Hr as [(-> & Hf & HQ)|(-> & Hf)]; [left|right].
  - split; [done|]. split; [|done]. destruct Hs. constructor; rewrite ?E1, ?E2, ?E3, ?Hc; done.
  - split; [by eexists|]. destruct Hs. constructor; rewrite ?E1, ?E2, ?E3; done.
Qed.
Lemma settled_bump op A A' s s' r : settled op A A' (bump s) s' r -> settled op A A' s s' r.
Proof. done. Qed.
Lemma settled_refused op A A' s s' e : shares s' A -> seen s' = seen s -> settled op A A' s s' (Err e).
Proof. intros Hs Hn. split; [right; by eauto|]. exists []. by rewrite Hn. Qed.

Lemma even_encodes t : record_ok t ->
  encode_overlay_hardware_telemetry t (replicate OVERLAY_HARDWARE_TELEMETRY_BYTES 0) = Ok (OVERLAY_HARDWARE_TELEMETRY_BYTES, wire_hardware t).
Proof. intros [Hv Hwf]. rewrite encode_hardware_ok by done. done. Qed.

Lemma hardware_step h s A :
  shares s A -> tenths_ok h ->
  let '(s', r) := run_share (UpdateHardware h) s in settled (UpdateHardware h) A (updated (UpdateHardware h) s A) s s' r.
Proof.
  intros Hs Hh. cbn [run_share]. destruct (checked_add U64_MAX (overlay_telemetry_revision s) 2) as [next|] eqn:En; cycle 1.
  { rewrite (proj1 (overflow_shape s A Hs En)). apply settled_refused; [by apply bump_shares|done]. }
  destruct (next_revision s A next Hs En) as [Ek Hn], (sh_config s A Hs) as [Hc Ec].
  set (t' := measured (s_config A) (overlay_replay_saved_revision s) h next).
  assert (Ht : record_ok t') by (apply measured_ok; [done|by destruct Hs|done|done]).
  rewrite (hardware_shape h s A next t' Hs En) by (rewrite Ec, telemetry_measured by done; by apply even_encodes).
  pose proof (publish_hardware (bump s) A t' (s_config A) (bump_shares s A Hs) Ht) as Hp.
  change (revision t') with next in Hp. match goal with |- let '(_, _) := ?m in _ => destruct m as [s' r] end.
  unfold updated. rewrite <- Ek. apply settled_bump, moved_shares; try done; [by apply bump_shares|by destruct Hs].
Qed.

(** The two edits of the block in place. *)
Lemma rewrite_step op edit s A t' :
  shares s A -> (even_revision (overlay_telemetry_revision s + 2) -> record_ok t') -> revision t' = overlay_telemetry_revision s + 2 ->
  (forall A', s_hardware A' = t' -> decoded op A' = fun f => decode_overlay_hardware_telemetry (hardware_block f) = Ok t') ->
  (forall a b, edit (overlay_telemetry_revision s + 2) (torn (s_hardware A) a b) = Ok (wire_hardware t')) ->
  let '(s', r) := rewrite_block edit s in
  settled op A {| s_hardware := t'; s_menu := s_menu A; s_config := s_config A |} s s' r.
Proof.
  intros Hs Ht Er Hd He. destruct (checked_add U64_MAX (overlay_telemetry_revision s) 2) as [next|] eqn:En; cycle 1.
  { rewrite (proj2 (overflow_shape s A Hs En)). apply settled_refused; [by apply bump_shares|done]. }
  destruct (next_revision s A next Hs En) as [Ek Hn]. rewrite Ek in Hn. specialize (Ht Hn). destruct (sh_file s A Hs) as (a & b & c & d & Ef & _).
  rewrite (rewrite_shape edit s A next (wire_hardware t') Hs En) by (rewrite Ef, hardware_of_torn, Ek; apply He).
  pose proof (publish_hardware (bump s) A t' (s_config A) (bump_shares s A Hs) Ht) as Hp. rewrite Er, <- Ek in Hp.
  match goal with |- let '(_, _) := ?m in _ => destruct m as [s' r] end.
  apply settled_bump, moved_shares; rewrite ?Hd by done; try done; [by apply bump_shares|by destruct Hs].
Qed.

Lemma config_step p s A :
  shares s A -> config_ok (config_of p) ->
  let '(s', r) := run_share (UpdateConfig p) s in settled (UpdateConfig p) A (updated (UpdateConfig p) s A) s s' r.
Proof.
  intros Hs Hp. cbn [run_share]. unfold update_overlay_config, write_overlay_config, mbind, st_bind.
  set (t' := configured (config_of p) (s_hardware A) (overlay_telemetry_revision s + 2)).
  pose proof (rewrite_step (UpdateConfig p) (config_bytes (pack_profile p)) s A t' Hs) as Hr.
  destruct (rewrite_block _ s) as [s' r].
  destruct Hr as [[(-> & Hs' & Hd)|[[e ->] Hs']] Hn].
  - intros Hn. apply configured_ok; [done|by destruct Hs|done].
  - done.
  - by intros A' <-.
  - intros a b. rewrite pack_config_of. by apply config_edit.
  - split; [|done]. left. split; [done|]. split; [|done]. destruct Hs'. by constructor.
  - split; [|done]. right. split; [by eexists|done].
Qed.
Lemma next_notice_stored s :
  in_range U16_MAX (overlay_replay_saved_revision s) ->
  exists s1, publish_replay_saved_notice s = write_overlay_replay_notice (next_notice (overlay_replay_saved_revision s)) s1
  /\ s1 = {| overlay_telemetry_file := overlay_telemetry_file s; overlay_telemetry_revision := overlay_telemetry_revision s;
             overlay_config := overlay_config s; overlay_replay_saved_revision := next_notice (overlay_replay_saved_revision s);
             refuses := refuses s; seen := seen s |}.
Proof.
  intros Hr. unfold in_range in Hr. unfold publish_replay_saved_notice, next_notice, mbind, st_bind. cbn [store_saved].
  destruct (Z.eqb_spec (overlay_replay_saved_revision s) U16_MAX) as [E|E].
  - rewrite E. change ((U16_MAX + 1) mod (U16_MAX + 1)) with 0. cbn. by eexists.
  - rewrite Z.mod_small by lia. rewrite andb_false_r, Z.max_l by lia. by eexists.
Qed.
Lemma next_notice_range saved : in_range U16_MAX saved -> in_range U16_MAX (next_notice saved).
Proof. unfold next_notice, in_range. destruct (Z.eqb_spec saved U16_MAX); unfold U16_MAX in *; lia. Qed.
Lemma notice_step s A :
  shares s A -> let '(s', r) := run_share PublishNotice s in settled PublishNotice A (updated PublishNotice s A) s s' r.
Proof.
  intros Hs. cbn [run_share]. destruct (next_notice_stored s (sh_saved s A Hs)) as (s1 & -> & E1).
  assert (Hs1 : shares s1 A) by (subst s1; destruct Hs; constructor; try done; by apply next_notice_range).
  set (t' := noticed (next_notice (overlay_replay_saved_revision s)) (s_hardware A) (overlay_telemetry_revision s + 2)).
  pose proof (rewrite_step PublishNotice (notice_bytes (next_notice (overlay_replay_saved_revision s))) s1 A t' Hs1) as Hr.
  subst s1. unfold write_overlay_replay_notice. destruct (rewrite_block _ _) as [s' r]. apply Hr.
  - intros Hn. apply noticed_ok; [apply next_notice_range; by destruct Hs|by destruct Hs|done].
  - done.
  - by intros A' <-.
  - intros a b. apply notice_edit.
Qed.
Lemma menu_step v s A :
  shares s A -> menu_wf v -> let '(s', r) := run_share (UpdateMenu v) s in settled (UpdateMenu v) A (updated (UpdateMenu v) s A) s s' r.
Proof.
  intros Hs Hv. cbn [run_share]. unfold update_replay_menu, mbind, st_bind, lift.
  destruct (validate_replay_menu v) as [[]|e|] eqn:Ev; cycle 1.
  { unfold encode_replay_menu_telemetry. rewrite Ev. cbn. by apply settled_refused. }
  { exfalso. clear -Ev. unfold validate_replay_menu in Ev. by repeat case_match. }
  rewrite encode_menu_ok by (try done; try (by destruct Hv); by rewrite length_replicate).
  cbn [map_err snd]. rewrite drop_ge, app_nil_r by (by rewrite length_replicate).
  pose proof (publish_menu s A v Hs (conj Ev Hv)) as Hp. cbn zeta in Hp. unfold mbind, st_bind in Hp.
  match goal with |- let '(_, _) := ?m in _ => destruct m as [s' r] end.
  apply moved_shares; try done. by destruct Hs.
Qed.

Lemma share_step op s A :
  shares s A -> share_op_ok op -> let '(s', r) := run_share op s in settled op A (updated op s A) s s' r.
Proof.
  intros Hs Hop. destruct op; [by apply hardware_step|by apply config_step|by apply notice_step|by apply menu_step].
Qed.

(** * Any sequence of calls *)
(** The records after each call, oldest first. *)
Fixpoint run_shares (ops : list share_op) (s : Share) (A : shown) : Share * list shown :=
  match ops with
  | [] => (s, [])
  | op :: ops =>
      let '(s1, r) := run_share op s in
      let A1 := match r with Ok _ => updated op s A | _ => A end in
      let '(s', rest) := run_shares ops s1 A1 in (s', A1 :: rest)
  end.

(** A call on the shared telemetry file never panics.  If it returns, the
    block it wrote decodes to exactly the record that the call describes and
    the other block is unchanged; if the disk refuses one of its writes, if the
    counter is exhausted or if the menu is invalid, it returns an error and
    both blocks still stand for the records they stood for. *)
Theorem share_call_correct op s A :
  shares s A -> share_op_ok op ->
  let '(s', r) := run_share op s in
  match r with
  | Ok _ => shares s' (updated op s A) /\ decoded op (updated op s A) (overlay_telemetry_file s')
  | Err _ => shares s' A
  | Panic => False
  end.
Proof.
  intros Hs Hop. pose proof (share_step op s A Hs Hop) as H. destruct (run_share op s) as [s' r].
  destruct H as [[(-> & H1 & H2)|[[e ->] H]] _]; done.
Qed.

(** C15: Whatever calls are made and whichever writes the disk refuses, every
    content that the file has had between two writes decodes, block by block,
    to nothing or to the records of one state of the history, and the final
    content to nothing or to the current records. *)
Theorem shared_file_refines ops s A :
  shares s A -> Forall share_op_ok ops ->
  let '(s', history) := run_shares ops s A in
  let last := default A (list.last history) in
  shares s' last /\ reads (overlay_telemetry_file s') last
  /\ forall f, f ∈ seen s' -> f ∈ seen s \/ exists B, B ∈ A :: history /\ reads f B.
Proof.
  intros Hs Hops. revert s A Hs. induction Hops as [|op ops Hop Hops IH]; intros s A Hs; cbn [run_shares].
  { split; [done|]. split; [|by left]. apply content_reads; by destruct Hs. }
  pose proof (share_step op s A Hs Hop) as Hstep. destruct (run_share op s) as [s1 r].
  set (A1 := match r with Ok _ => _ | _ => _ end).
  assert (Hs1 : shares s1 A1) by (destruct Hstep as [[(-> & H & _)|[[e ->] H]] _]; done).
  assert (Hnew : forall f, f ∈ seen s1 -> f ∈ seen s \/ reads f A \/ reads f A1).
  { destruct Hstep as [_ (news & -> & Hn)]. intros f [Hf|Hf]%elem_of_app; [|by left]. right.
    rewrite Forall_forall in Hn. destruct (Hn f Hf) as [Hc|[-> Hc]]; [left|right]; apply content_reads; try done; first [by destruct Hs|by destruct Hs1]. }
  specialize (IH s1 A1 Hs1). destruct (run_shares ops s1 A1) as [s' rest]. destruct IH as (H1 & H2 & H3).
  rewrite last_cons. replace (default A _) with (default A1 (list.last rest)) by (by destruct (list.last rest)).
  split; [done|]. split; [done|]. intros f Hf. destruct (H3 f Hf) as [Hf'|(B & HB & Hr)].
  - destruct (Hnew f Hf') as [?|[Hr|Hr]]; [by left|right; exists A; set_solver|right; exists A1; set_solver].
  - right. exists B. set_solver.
Qed.

(** * A new session *)
Definition initial_config : Config := {|
  c_corner := 0; c_preset := 0; c_metrics := 1; c_opacity := 50; c_scale := 100; c_visible := 0; c_branding := true; c_layout := 0;
  c_palette := 0 |}.
Definition initial_shown : shown := {| s_hardware := initial_hardware; s_menu := initial_menu; s_config := initial_config |}.
Definition new_share (file : bytes) (refuses : list bool) : Share := {|
  overlay_telemetry_file := file; overlay_telemetry_revision := 2; overlay_config := pack_overlay_config 0 0 1 50 100 0 0 true;
  overlay_replay_saved_revision := 0; refuses := refuses; seen := [file] |}.
Definition first_file : bytes := wire_hardware initial_hardware ++ wire_menu initial_menu.
Lemma first_file_ok : create_overlay_telemetry_file = Ok first_file.
Proof. vm_compute. reflexivity. Qed.
Lemma initial_record_ok : record_ok initial_hardware.
Proof.
  split; [done|]. constructor; try done; try (unfold in_range, U64_MAX, U16_MAX; cbn; lia).
  repeat (apply Forall_cons; split; [unfold in_range, U8_MAX; cbn; lia|]). by apply Forall_nil.
Qed.
Lemma initial_menu_ok : menu_ok initial_menu.
Proof.
  assert (Hr : forall m x, (0 <=? x) && (x <=? m) = true -> in_range m x) by (intros m x H; unfold in_range; lia).
  split; [done|]. constructor; cbn [initial_menu menu_revision menu_cursor_x menu_cursor_y available_seconds menu_click_revision hover_target
    menu_pressed_target selected_duration_index menu_frame_rate menu_quality menu_output_format overlay_shortcut save_shortcut];
    [by apply Hr|repeat (apply Forall_cons; split; [by apply Hr|]); by apply Forall_nil
    |repeat (apply Forall_cons; split; [by apply (Hr U8_MAX)|]); by apply Forall_nil|apply EMPTY_wf|apply EMPTY_wf].
Qed.
(** The file of a new session stands for its two initial records. *)
Lemma new_share_shares refused : shares (new_share first_file refused) initial_shown.
Proof.
  constructor; cbn [s_hardware s_menu s_config initial_shown].
  - apply initial_record_ok.
  - apply initial_menu_ok.
  - exists 2, 2, 2, 2. split; [done|]. split; apply revisions_whole; unfold in_range, U64_MAX; lia.
  - split; [|done]. constructor; cbn; try lia; [unfold U16_MAX; lia|by split].
  - unfold in_range, U16_MAX. cbn. lia.
  - unfold in_range, U64_MAX. cbn. split; [lia|done].
Qed.

(** A session: a sample, a new profile of which the disk refuses the second
    write, a saved clip and the menu. *)
Definition demo_tenths : Tenths := {| t_cpu := Some 417; t_cpu_temperature := None; t_gpu := Some 1000; t_gpu_temperature := Some 655 |}.
Definition demo_share_ops : list share_op :=
  [UpdateHardware demo_tenths; UpdateConfig (profile_resolve PerGameProfile_default GlobalGameProfile_default); PublishNotice; UpdateMenu demo_menu].
Definition demo_share : Share := new_share first_file [false; false; false; false; true].
Lemma demo_share_ops_ok : Forall share_op_ok demo_share_ops.
Proof.
  repeat (apply Forall_cons; split); [|..|by apply Forall_nil].
  - unfold share_op_ok, tenths_ok, tenth_ok, MAX_UTILIZATION_TENTHS, MAX_TEMPERATURE_TENTHS_CELSIUS. cbn. lia.
  - constructor; vm_compute; repeat split; congruence.
  - done.
  - apply demo_menu_wf.
Qed.
(** The disk refuses a write of the second call: the profile is not shown. *)
Example demo_share_results :
  let '(s', history) := run_shares demo_share_ops demo_share initial_shown in
  map (fun A => (revision (s_hardware A), metrics_visible (s_hardware A), replay_saved_revision (s_hardware A))) history
  = [(4, None, 0); (4, None, 0); (8, None, 1); (8, None, 1)]
  /\ decode_overlay_hardware_telemetry (hardware_block (overlay_telemetry_file s')) = Ok (s_hardware (default initial_shown (list.last history)))
  /\ decode_replay_menu_telemetry (menu_block (overlay_telemetry_file s')) = Ok demo_menu.
Proof. vm_compute. done. Qed.

Lemma share_call_correct_witness :
  let '(s', r) := run_share (UpdateHardware demo_tenths) demo_share in
  match r with
  | Ok _ => decode_overlay_hardware_telemetry (hardware_block (overlay_telemetry_file s')) = Ok (measured initial_config 0 demo_tenths 4)
  | Err _ => shares s' initial_shown
  | Panic => False
  end.
Proof.
  pose proof (share_call_correct (UpdateHardware demo_tenths) demo_share initial_shown (new_share_shares _)
    (Forall_inv demo_share_ops_ok)) as H.
  destruct (run_share _ demo_share) as [s' [[]|e|]]; [exact (proj2 H)|exact H|exact H].
Defined.
Lemma shared_file_refines_witness :
  let '(s', history) := run_shares demo_share_ops demo_share initial_shown in
  reads (overlay_telemetry_file s') (default initial_shown (list.last history)).
Proof.
  pose proof (shared_file_refines demo_share_ops demo_share initial_shown (new_share_shares _) demo_share_ops_ok) as H.
  destruct (run_shares demo_share_ops demo_share initial_shown) as [s' history]. exact (proj1 (proj2 H)).
Defined.
