(* ===== verification/Preferences.v ===== *)
(** Replay preferences (crates/redunar-daemon/src/replay_preferences.rs): the
    record, its checks, its versioned text file and the setters over the file. *)
From stdpp Require Import strings gmap.
From S2P Require Import Prelude Bytes Text Profiles.
Local Open Scope Z_scope.

Definition header_of (version : Z) : bytes := ascii_bytes "redunar-replay-preferences-v" ++ to_decimal version.
Definition DEFAULT_OVERLAY_SHORTCUT : bytes := ascii_bytes "Alt+Shift+Z".
Definition LEGACY_OVERLAY_SHORTCUT : bytes := ascii_bytes "Shift+Tab".
Definition REPLAY_DIRECTORY_NAME : bytes := ascii_bytes "Redunar Replays".
Definition MAX_PREFERENCES_BYTES : Z := 8 * 1024.
Definition MAX_PATH_BYTES : Z := 4 * 1024.
Definition MAX_SHORTCUT_BYTES : Z := 64.
Definition MAX_REPLAY_SHORTCUTS : Z := 8.
Definition MIN_MICROPHONE_GAIN_DB : Z := -12.
Definition MAX_MICROPHONE_GAIN_DB : Z := 24.

Record ReplayShortcutBinding := { shortcut : bytes; binding_duration : ReplayDuration }.
Inductive MicrophoneMode := MicrophoneOff | DefaultInput | SelectedInput (name : bytes).
Inductive ReplayOutputFormat := Matroska | Mp4.
#[global] Instance ReplayOutputFormat_eq_dec : EqDecision ReplayOutputFormat.
Proof. solve_decision. Defined.
#[global] Instance ReplayDuration_eq_dec : EqDecision ReplayDuration.
Proof. solve_decision. Defined.
#[global] Instance MicrophoneMode_eq_dec : EqDecision MicrophoneMode.
Proof. solve_decision. Defined.
Definition extension (f : ReplayOutputFormat) : bytes :=
  match f with Matroska => ascii_bytes "mkv" | Mp4 => ascii_bytes "mp4" end.

Record ReplayPreferences := {
  custom_save_parent : option bytes;
  output_format : ReplayOutputFormat;
  overlay_shortcut : bytes;
  close_overlay_on_outside_click : bool;
  initial_save_duration : ReplayDuration;
  save_shortcuts : list ReplayShortcutBinding;
  microphone : MicrophoneMode;
  microphone_gain_db : Z;
}.
Definition ReplayPreferences_default : ReplayPreferences := {|
  custom_save_parent := None; output_format := Matroska; overlay_shortcut := DEFAULT_OVERLAY_SHORTCUT;
  close_overlay_on_outside_click := true; initial_save_duration := Seconds30; save_shortcuts := [];
  microphone := DefaultInput; microphone_gain_db := 0 |}.

(** [Path::join] of an absolute or relative directory and a relative name. *)
Definition path_join (parent name : bytes) : bytes :=
  match last parent with
  | None => name
  | Some b => if b =? 47 then parent ++ name else parent ++ 47 :: name
  end.
Definition is_absolute (path : bytes) : bool := starts_with (ascii_bytes "/") path.
Definition resolved_directory (home : option bytes) (state_directory : bytes) (p : ReplayPreferences) : bytes :=
  match custom_save_parent p with
  | Some parent => path_join parent REPLAY_DIRECTORY_NAME
  | None =>
      match (h ← home; if is_absolute h then Some h else None) with
      | Some h => path_join (path_join h (ascii_bytes "Videos")) REPLAY_DIRECTORY_NAME
      | None => path_join state_directory (ascii_bytes "replays-v1")
      end
  end.

(** * Checks *)
Inductive ReplayPreferencesError :=
| Rejected (message : string)
| CouldNotRead | CouldNotLoad (message : string) | CouldNotCreate | CouldNotMakePrivate | CouldNotSave.

Definition validate_parent (parent : bytes) : outcome ReplayPreferencesError unit :=
  if negb (is_absolute parent) || (MAX_PATH_BYTES <? zlen parent)
  then Err (Rejected "replay save parent must be an absolute path within the supported length") else Ok tt.
Definition is_ascii_control (b : Z) : bool := (b <? 32) || (b =? 127).
Definition validate_shortcut (s : bytes) : outcome ReplayPreferencesError unit :=
  if (length s =? 0)%nat || (MAX_SHORTCUT_BYTES <? zlen s) || negb (forallb (fun b => b <? 128) s) || existsb is_ascii_control s
  then Err (Rejected "replay shortcut must be 1–64 printable ASCII characters") else Ok tt.
(** The loop of [validate_shortcuts]; [unique] is its set. *)
Fixpoint validate_each (bindings : list ReplayShortcutBinding) (unique : gset bytes) : outcome ReplayPreferencesError unit :=
  match bindings with
  | [] => Ok tt
  | b :: bindings =>
      _ ← validate_shortcut (shortcut b);
      if decide (shortcut b ∈ unique) then Err (Rejected "Replay save shortcuts must be unique")
      else validate_each bindings ({[shortcut b]} ∪ unique)
  end.
Definition validate_shortcuts (bindings : list ReplayShortcutBinding) : outcome ReplayPreferencesError unit :=
  if MAX_REPLAY_SHORTCUTS <? zlen bindings then Err (Rejected "Replay supports up to eight save shortcuts")
  else validate_each bindings ∅.
Definition validate_hotkeys (overlay : bytes) (bindings : list ReplayShortcutBinding) : outcome ReplayPreferencesError unit :=
  _ ← (if negb (length overlay =? 0)%nat then validate_shortcut overlay else Ok tt);
  _ ← validate_shortcuts bindings;
  if existsb (fun b => bytes_eqb (shortcut b) overlay) bindings
  then Err (Rejected "Replay overlay and save shortcuts must be unique") else Ok tt.
(** [char::is_control] of the characters of a UTF-8 string: C0, DEL and C1, whose
    encodings are C2 80 to C2 9F. *)
Fixpoint any_control (s : bytes) : bool :=
  match s with
  | [] => false
  | b :: rest =>
      is_ascii_control b || ((b =? 0xC2) && match rest with c :: _ => c <=? 0x9F | [] => false end) || any_control rest
  end.
Definition validate_microphone (m : MicrophoneMode) : outcome ReplayPreferencesError unit :=
  match m with
  | SelectedInput name =>
      if (length name =? 0)%nat || (256 <? zlen name) || any_control name
      then Err (Rejected "microphone source is invalid") else Ok tt
  | _ => Ok tt
  end.
Definition gain_in_range (gain : Z) : bool := (MIN_MICROPHONE_GAIN_DB <=? gain) && (gain <=? MAX_MICROPHONE_GAIN_DB).

(** * Tokens *)
Definition output_format_token (f : ReplayOutputFormat) : bytes :=
  match f with Matroska => ascii_bytes "mkv" | Mp4 => ascii_bytes "mp4" end.
Definition parse_output_format (v : bytes) : outcome string ReplayOutputFormat :=
  if bytes_eqb v (ascii_bytes "mkv") then Ok Matroska
  else if bytes_eqb v (ascii_bytes "mp4") then Ok Mp4
  else Err "Replay output format is invalid"%string.
Definition duration_token (d : ReplayDuration) : bytes :=
  match d with
  | Seconds15 => ascii_bytes "15" | Seconds30 => ascii_bytes "30" | Seconds60 => ascii_bytes "60"
  | Seconds120 => ascii_bytes "120" | Seconds180 => ascii_bytes "180" | Seconds300 => ascii_bytes "300"
  | Seconds600 => ascii_bytes "600" | Seconds900 => ascii_bytes "900"
  end.
Definition parse_duration_token (v : bytes) : outcome string ReplayDuration :=
  if bytes_eqb v (ascii_bytes "15") then Ok Seconds15
  else if bytes_eqb v (ascii_bytes "30") then Ok Seconds30
  else if bytes_eqb v (ascii_bytes "60") then Ok Seconds60
  else if bytes_eqb v (ascii_bytes "120") then Ok Seconds120
  else if bytes_eqb v (ascii_bytes "180") then Ok Seconds180
  else if bytes_eqb v (ascii_bytes "300") then Ok Seconds300
  else if bytes_eqb v (ascii_bytes "600") then Ok Seconds600
  else if bytes_eqb v (ascii_bytes "900") then Ok Seconds900
  else Err "shortcut duration is invalid"%string.
Definition bool_token (b : bool) : bytes := if b then ascii_bytes "true" else ascii_bytes "false".
Definition parse_bool (v : bytes) : outcome string bool :=
  if bytes_eqb v (ascii_bytes "true") then Ok true
  else if bytes_eqb v (ascii_bytes "false") then Ok false
  else Err "Replay overlay behavior is invalid"%string.

Definition hex (bs : bytes) : bytes := b ← bs; [lower_hex (Z.shiftr b 4); lower_hex (Z.land b 15)].
Definition digit (v : Z) : outcome string Z :=
  if (48 <=? v) && (v <=? 57) then Ok (v - 48)
  else if (97 <=? v) && (v <=? 102) then Ok (v - 97 + 10)
  else Err "save parent encoding is invalid"%string.
Fixpoint unhex_pairs (v : bytes) : outcome string bytes :=
  match v with
  | a :: b :: rest =>
      high ← digit a; low ← digit b;
      bs ← unhex_pairs rest;
      Ok (Z.lor (Z.shiftl high 4) low :: bs)
  | _ => Ok []
  end.
Definition unhex (v : bytes) : outcome string bytes :=
  if (length v =? 0)%nat || negb (Nat.even (length v)) then Err "save parent encoding is invalid"%string
  else unhex_pairs v.

Definition microphone_token (m : MicrophoneMode) : bytes :=
  match m with
  | MicrophoneOff => ascii_bytes "off"
  | DefaultInput => ascii_bytes "default"
  | SelectedInput name => ascii_bytes "selected:" ++ hex name
  end.
Definition parse_microphone (v : bytes) : outcome string MicrophoneMode :=
  if bytes_eqb v (ascii_bytes "off") then Ok MicrophoneOff
  else if bytes_eqb v (ascii_bytes "default") then Ok DefaultInput
  else if starts_with (ascii_bytes "selected:") v then
    bs ← unhex (drop 9 v);
    if utf8_valid bs then
      _ ← map_err (fun _ => "microphone source is invalid"%string) (validate_microphone (SelectedInput bs));
      Ok (SelectedInput bs)
    else Err "microphone source is invalid"%string
  else Err "microphone mode is invalid"%string.
Definition save_parent_token (parent : option bytes) : bytes :=
  match parent with None => ascii_bytes "default" | Some path => hex path end.
Definition parse_save_parent (parent : bytes) : outcome string (option bytes) :=
  if bytes_eqb parent (ascii_bytes "default") then Ok None
  else
    bs ← unhex parent;
    if MAX_PATH_BYTES <? zlen bs then Err "save parent exceeds the supported length"%string
    else
      _ ← map_err (fun _ => "save parent is invalid"%string) (validate_parent bs);
      Ok (Some bs).

(** [{}] and [parse::<i16>] of a gain. *)
Definition signed_decimal (x : Z) : bytes := if x <? 0 then 45 :: to_decimal (- x) else to_decimal x.
Definition parse_i16 (field : bytes) : option Z := parse_signed I16_MAX 10 field.

(** * The file's text *)
Definition line (name : string) (v : bytes) : bytes := ascii_bytes name ++ 61 :: v ++ [10].
Definition binding_line (b : ReplayShortcutBinding) : bytes :=
  ascii_bytes "binding=" ++ duration_token (binding_duration b) ++ 58 :: shortcut b ++ [10].
Definition serialize (p : ReplayPreferences) : bytes :=
  header_of 8 ++ [10]
  ++ line "save-parent" (save_parent_token (custom_save_parent p))
  ++ line "output-format" (output_format_token (output_format p))
  ++ line "overlay-shortcut" (overlay_shortcut p)
  ++ line "close-on-outside-click" (bool_token (close_overlay_on_outside_click p))
  ++ line "initial-save-duration" (duration_token (initial_save_duration p))
  ++ line "microphone" (microphone_token (microphone p))
  ++ line "microphone-gain-db" (signed_decimal (microphone_gain_db p))
  ++ line "binding-count" (to_decimal (zlen (save_shortcuts p)))
  ++ (b ← save_shortcuts p; binding_line b).

(** [str::lines]. *)
Definition lines (contents : bytes) : list bytes :=
  let parts := split_on (Z.eqb 10) contents in
  let parts := match last parts with Some [] => removelast parts | _ => parts end in
  map (fun l => match strip_suffix [13] l with Some l => l | None => l end) parts.

(** The iterator [lines]: [next] and what is left. *)
Definition next (ls : list bytes) : option bytes * list bytes :=
  match ls with [] => (None, []) | l :: ls => (Some l, ls) end.
Definition field (l : option bytes) (expected : string) : outcome string bytes :=
  '(name, value) ← ok_or (l ← l; split_once 61 l) "preferences contain a missing field"%string;
  if negb (bytes_eqb name (ascii_bytes expected)) then Err "preferences contain missing or reordered fields"%string
  else Ok value.
(** The next line's field when the version has it, and otherwise its default. *)
Definition field_since {A} (since : list Z) (version : bytes) (name : string) (parse : bytes -> outcome string A) (absent : A)
    (ls : list bytes) : outcome string (A * list bytes) :=
  if existsb (fun v => bytes_eqb version (header_of v)) since then
    let '(l, ls) := next ls in
    value ← field l name;
    a ← parse value;
    Ok (a, ls)
  else Ok (absent, ls).
Definition parse_gain (v : bytes) : outcome string Z :=
  gain ← ok_or (parse_i16 v) "microphone recording level is invalid"%string;
  if negb (gain_in_range gain) then Err "microphone recording level is invalid"%string else Ok gain.
Fixpoint parse_bindings (count : nat) (ls : list bytes) : outcome string (list ReplayShortcutBinding * list bytes) :=
  match count with
  | O => Ok ([], ls)
  | S count =>
      let '(l, ls) := next ls in
      value ← field l "binding";
      '(d, s) ← ok_or (split_once 58 value) "shortcut binding is invalid"%string;
      d ← parse_duration_token d;
      '(bindings, ls) ← parse_bindings count ls;
      Ok ({| shortcut := s; binding_duration := d |} :: bindings, ls)
  end.
Definition no_more (ls : list bytes) : outcome string unit :=
  match ls with [] => Ok tt | _ => Err "preferences contain unknown fields"%string end.
Definition parse_save_shortcuts (version : bytes) (ls : list bytes) : outcome string (list ReplayShortcutBinding) :=
  if bytes_eqb version (header_of 1) then
    let '(l, ls) := next ls in
    s ← field l "save-shortcut";
    _ ← no_more ls;
    Ok [{| shortcut := s; binding_duration := Seconds30 |}]
  else
    let '(l, ls) := next ls in
    value ← field l "binding-count";
    count ← ok_or (from_str_radix USIZE_MAX 10 value) "shortcut binding count is invalid"%string;
    if MAX_REPLAY_SHORTCUTS <? count then Err "shortcut binding count is invalid"%string
    else
      '(bindings, ls) ← parse_bindings (Z.to_nat count) ls;
      _ ← no_more ls;
      Ok bindings.
Definition parse (contents : bytes) : outcome string ReplayPreferences :=
  let '(version, ls) := next (lines contents) in
  version ← ok_or version "preferences are empty"%string;
  if negb (existsb (fun v => bytes_eqb version (header_of v)) [1; 2; 3; 4; 5; 6; 7; 8]) then Err "unsupported preferences version"%string
  else
    let '(l, ls) := next ls in
    parent ← field l "save-parent";
    parent ← parse_save_parent parent;
    '(format, ls) ← field_since [3; 4; 5; 6; 7; 8] version "output-format" parse_output_format Matroska ls;
    '(overlay, ls) ← field_since [4; 5; 6; 7; 8] version "overlay-shortcut" Ok LEGACY_OVERLAY_SHORTCUT ls;
    '(close, ls) ← field_since [5; 6; 7; 8] version "close-on-outside-click" parse_bool true ls;
    '(initial, ls) ← field_since [6; 7; 8] version "initial-save-duration" parse_duration_token Seconds30 ls;
    '(mode, ls) ← field_since [7; 8] version "microphone" parse_microphone MicrophoneOff ls;
    '(gain, ls) ← field_since [8] version "microphone-gain-db" parse_gain 0 ls;
    bindings ← parse_save_shortcuts version ls;
    _ ← map_err (fun _ => "Replay shortcuts are invalid"%string) (validate_hotkeys overlay bindings);
    Ok {| custom_save_parent := parent; output_format := format; overlay_shortcut := overlay;
          close_overlay_on_outside_click := close; initial_save_duration := initial; save_shortcuts := bindings;
          microphone := mode; microphone_gain_db := gain |}.

(** * The file *)
(** What is at the preferences path. *)
Inductive pref_entry := NotFound | Unreadable | Special | Regular (contents : bytes).
Definition saved_preferences_exist (f : pref_entry) : bool := match f with Regular _ => true | _ => false end.
Definition load_unlocked (f : pref_entry) : outcome ReplayPreferencesError ReplayPreferences :=
  match f with
  | NotFound => Ok ReplayPreferences_default
  | Unreadable => Err CouldNotRead
  | Special => Err (CouldNotLoad "state is not a regular file")
  | Regular contents =>
      if MAX_PREFERENCES_BYTES <? zlen contents then Err (CouldNotLoad "state is too large")
      else if utf8_valid contents then map_err CouldNotLoad (parse contents)
      else Err CouldNotRead
  end.

(** How the calls of one attempt of [atomic_replace] end. *)
Inductive attempt := NameTaken | OpenFails | WriteFails | RenameFails | SyncFails | Replaced.
Fixpoint atomic_replace (fuel : nat) (io : nat -> attempt) (i : nat) (contents : bytes) (f : pref_entry) : pref_entry * bool :=
  match fuel with
  | O => (f, false)
  | S fuel =>
      match io i with
      | NameTaken => atomic_replace fuel io (S i) contents f
      | OpenFails | WriteFails | RenameFails => (f, false)
      | SyncFails => (Regular contents, false)
      | Replaced => (Regular contents, true)
      end
  end.
Record save_io := { created : bool; made_private : bool; attempts : nat -> attempt }.
Definition save_unlocked (io : save_io) (p : ReplayPreferences) : st pref_entry ReplayPreferencesError unit := fun f =>
  if negb (created io) then (f, Err CouldNotCreate)
  else if negb (made_private io) then (f, Err CouldNotMakePrivate)
  else match atomic_replace 32 (attempts io) 0 (serialize p) f with
       | (f, true) => (f, Ok tt)
       | (f, false) => (f, Err CouldNotSave)
       end.

(** ** The setters *)
Definition set_parent_field (v : option bytes) (p : ReplayPreferences) : ReplayPreferences := {|
  custom_save_parent := v; output_format := output_format p; overlay_shortcut := overlay_shortcut p;
  close_overlay_on_outside_click := close_overlay_on_outside_click p; initial_save_duration := initial_save_duration p;
  save_shortcuts := save_shortcuts p; microphone := microphone p; microphone_gain_db := microphone_gain_db p |}.
Definition set_format_field (v : ReplayOutputFormat) (p : ReplayPreferences) : ReplayPreferences := {|
  custom_save_parent := custom_save_parent p; output_format := v; overlay_shortcut := overlay_shortcut p;
  close_overlay_on_outside_click := close_overlay_on_outside_click p; initial_save_duration := initial_save_duration p;
  save_shortcuts := save_shortcuts p; microphone := microphone p; microphone_gain_db := microphone_gain_db p |}.
Definition set_hotkey_fields (o : bytes) (b : list ReplayShortcutBinding) (p : ReplayPreferences) : ReplayPreferences := {|
  custom_save_parent := custom_save_parent p; output_format := output_format p; overlay_shortcut := o;
  close_overlay_on_outside_click := close_overlay_on_outside_click p; initial_save_duration := initial_save_duration p;
  save_shortcuts := b; microphone := microphone p; microphone_gain_db := microphone_gain_db p |}.
Definition set_close_field (v : bool) (p : ReplayPreferences) : ReplayPreferences := {|
  custom_save_parent := custom_save_parent p; output_format := output_format p; overlay_shortcut := overlay_shortcut p;
  close_overlay_on_outside_click := v; initial_save_duration := initial_save_duration p;
  save_shortcuts := save_shortcuts p; microphone := microphone p; microphone_gain_db := microphone_gain_db p |}.
Definition set_initial_field (v : ReplayDuration) (p : ReplayPreferences) : ReplayPreferences := {|
  custom_save_parent := custom_save_parent p; output_format := output_format p; overlay_shortcut := overlay_shortcut p;
  close_overlay_on_outside_click := close_overlay_on_outside_click p; initial_save_duration := v;
  save_shortcuts := save_shortcuts p; microphone := microphone p; microphone_gain_db := microphone_gain_db p |}.
Definition set_microphone_fields (m : MicrophoneMode) (g : Z) (p : ReplayPreferences) : ReplayPreferences := {|
  custom_save_parent := custom_save_parent p; output_format := output_format p; overlay_shortcut := overlay_shortcut p;
  close_overlay_on_outside_click := close_overlay_on_outside_click p; initial_save_duration := initial_save_duration p;
  save_shortcuts := save_shortcuts p; microphone := m; microphone_gain_db := g |}.

(** Load, change and save under the lock. *)
Definition update_file (io : save_io) (change : ReplayPreferences -> outcome ReplayPreferencesError ReplayPreferences)
    : st pref_entry ReplayPreferencesError ReplayPreferences := fun f =>
  match load_unlocked f with
  | Ok p =>
      match change p with
      | Ok p => match save_unlocked io p f with (f, r) => (f, _ ← r; Ok p) end
      | Err e => (f, Err e)
      | Panic => (f, Panic)
      end
  | Err e => (f, Err e)
  | Panic => (f, Panic)
  end.
(** A check made before the lock is taken. *)
Definition checked (check : outcome ReplayPreferencesError unit) (m : st pref_entry ReplayPreferencesError ReplayPreferences)
    : st pref_entry ReplayPreferencesError ReplayPreferences := fun f =>
  match check with Ok _ => m f | Err e => (f, Err e) | Panic => (f, Panic) end.

Definition set_initial_save_duration (io : save_io) (d : ReplayDuration) := update_file io (fun p => Ok (set_initial_field d p)).
Definition set_save_parent (io : save_io) (parent : option bytes) :=
  checked (match parent with Some parent => validate_parent parent | None => Ok tt end)
    (update_file io (fun p => Ok (set_parent_field parent p))).
Definition set_save_shortcuts (io : save_io) (bindings : list ReplayShortcutBinding) :=
  update_file io (fun p => _ ← validate_hotkeys (overlay_shortcut p) bindings; Ok (set_hotkey_fields (overlay_shortcut p) bindings p)).
Definition set_hotkeys (io : save_io) (overlay : bytes) (bindings : list ReplayShortcutBinding) :=
  checked (validate_hotkeys overlay bindings) (update_file io (fun p => Ok (set_hotkey_fields overlay bindings p))).
Definition set_overlay_behavior (io : save_io) (overlay : bytes) (close : bool) :=
  update_file io (fun p => _ ← validate_hotkeys overlay (save_shortcuts p);
                           Ok (set_close_field close (set_hotkey_fields overlay (save_shortcuts p) p))).
Definition set_outside_click (io : save_io) (enabled : bool) := update_file io (fun p => Ok (set_close_field enabled p)).
Definition set_microphone (io : save_io) (m : MicrophoneMode) :=
  checked (validate_microphone m) (update_file io (fun p => Ok (set_microphone_fields m (microphone_gain_db p) p))).
Definition set_microphone_gain (io : save_io) (gain : Z) :=
  checked (if negb (gain_in_range gain) then Err (Rejected "Microphone recording level must be between -12 and +24 dB.") else Ok tt)
    (update_file io (fun p => Ok (set_microphone_fields (microphone p) gain p))).
Definition set_output_format (io : save_io) (f : ReplayOutputFormat) := update_file io (fun p => Ok (set_format_field f p)).
