(* ===== verification/PreferencesFacts.v ===== *)
(** The preferences file: every version's text reads back as the record it was
    written from, what is read is valid, and what the setters do to the file. *)
From stdpp Require Import strings gmap.
From S2P Require Import Prelude Bytes Text Profiles Preferences.
Local Open Scope Z_scope.

(** * Valid preferences *)
Definition parent_valid (parent : option bytes) : Prop :=
  match parent with Some path => is_bytes path /\ validate_parent path = Ok tt | None => True end.
Definition microphone_valid (m : MicrophoneMode) : Prop :=
  match m with SelectedInput name => is_bytes name /\ utf8_valid name = true /\ validate_microphone m = Ok tt | _ => True end.
Record prefs_valid (p : ReplayPreferences) : Prop := {
  pv_parent : parent_valid (custom_save_parent p);
  pv_hotkeys : validate_hotkeys (overlay_shortcut p) (save_shortcuts p) = Ok tt;
  pv_microphone : microphone_valid (microphone p);
  pv_gain : gain_in_range (microphone_gain_db p) = true;
}.

(** * Lines *)
(** Text that one line can hold: [lines] ends a line at a newline and drops a
    carriage return before it. *)
Definition clean (l : bytes) : Prop := Forall (fun b => b <> 10 /\ b <> 13) l.

Lemma clean_suffix l : clean l -> strip_suffix [13] l = None.
Proof.
  intros H. destruct (strip_suffix [13] l) as [r|] eqn:E; [|done]. exfalso.
  unfold strip_suffix in E. destruct (_ && _) eqn:Ec; [|done]. apply andb_true_iff in Ec as [_ Ec].
  apply bool_decide_eq_true in Ec. pose proof (Forall_drop _ (length l - length [13]) _ H) as Hd. rewrite Ec in Hd.
  apply Forall_inv in Hd. by destruct Hd.
Qed.
Lemma lines_cons l rest : clean l -> lines (l ++ 10 :: rest) = l :: lines rest.
Proof.
  intros H. unfold lines. rewrite split_on_word; [|eapply Forall_impl; [exact H|]; intros b [Hb _]; apply Z.eqb_neq; congruence|done].
  pose proof (split_on_nonempty (Z.eqb 10) rest) as Hne. destruct (split_on (Z.eqb 10) rest) as [|x xs] eqn:E; [done|].
  assert (Hl : last (l :: x :: xs) = last (x :: xs)) by done. rewrite Hl.
  assert (Hr : removelast (l :: x :: xs) = l :: removelast (x :: xs)) by done.
  destruct (last (x :: xs)) as [[|c cs]|]; rewrite ?Hr; cbn [map]; by rewrite (clean_suffix _ H).
Qed.

(** A line of the file: its name, an equals sign and its value. *)
Lemma field_line name v :
  Forall (fun c => c <> 61) (ascii_bytes name) -> field (Some (ascii_bytes name ++ 61 :: v)) name = Ok v.
Proof.
  intros H. unfold field. cbn [mbind option_bind]. rewrite split_once_app by done. cbn [ok_or mbind outcome_bind].
  by rewrite bytes_eqb_refl.
Qed.

(** * Tokens *)
Lemma digit_lower_hex d : 0 <= d < 16 -> digit (lower_hex d) = Ok d.
Proof.
  intros H. unfold digit, lower_hex. destruct (Z.ltb_spec d 10).
  - rewrite (proj2 (Z.leb_le 48 (48 + d))), (proj2 (Z.leb_le (48 + d) 57)) by lia. cbn [andb]. f_equal. lia.
  - rewrite (proj2 (Z.leb_gt (97 + (d - 10)) 57)), andb_false_r by lia.
    rewrite (proj2 (Z.leb_le 97 _)), (proj2 (Z.leb_le _ 102)) by lia. cbn [andb]. f_equal. lia.
Qed.
Lemma nibbles b : is_byte b -> 0 <= Z.shiftr b 4 < 16 /\ 0 <= Z.land b 15 < 16 /\ Z.lor (Z.shiftl (Z.shiftr b 4) 4) (Z.land b 15) = b.
Proof.
  unfold is_byte, U8_MAX. intros H. rewrite Z.shiftr_div_pow2 by lia. change 15 with (Z.ones 4).
  rewrite Z.land_ones by lia. change (2 ^ 4) with 16. splits.
  - apply Z.div_pos; lia.
  - apply Z.div_lt_upper_bound; lia.
  - apply Z.mod_pos_bound; lia.
  - apply Z.mod_pos_bound; lia.
  - rewrite Z.shiftl_mul_pow2 by lia. change (2 ^ 4) with 16. pose proof (Z.mod_pos_bound b 16 ltac:(lia)).
    rewrite <- Z.add_nocarry_lor; [pose proof (Z.div_mod b 16); lia|].
    apply Z.bits_inj'. intros n Hn. rewrite Z.land_spec, Z.bits_0.
    change 16 with (2 ^ 4). destruct (Z.lt_ge_cases n 4).
    + by rewrite <- Z.shiftl_mul_pow2, Z.shiftl_spec_low by lia.
    + rewrite (Z.mod_pow2_bits_high b 4 n) by lia. apply andb_false_r.
Qed.
Lemma unhex_hex_pairs bs : is_bytes bs -> unhex_pairs (hex bs) = Ok bs.
Proof.
  induction 1 as [|b bs Hb _ IH]; [done|]. destruct (nibbles b Hb) as (H1 & H2 & H3).
  change (hex (b :: bs)) with (lower_hex (Z.shiftr b 4) :: lower_hex (Z.land b 15) :: hex bs).
  cbn [unhex_pairs]. rewrite !digit_lower_hex by done. cbn [mbind outcome_bind]. rewrite IH. cbn [mbind outcome_bind]. by rewrite H3.
Qed.
Lemma length_hex bs : length (hex bs) = (2 * length bs)%nat.
Proof. induction bs as [|b bs IH]; [done|]. change (length (hex (b :: bs))) with (S (S (length (hex bs)))). rewrite IH. cbn. lia. Qed.
Lemma unhex_hex bs : is_bytes bs -> bs <> [] -> unhex (hex bs) = Ok bs.
Proof.
  intros H Hne. unfold unhex. rewrite length_hex, Nat.even_mul. cbn [Nat.even orb negb].
  destruct bs as [|b bs]; [done|]. cbn [length Nat.mul Nat.add Nat.eqb orb]. by apply unhex_hex_pairs.
Qed.
Lemma hex_chars bs : is_bytes bs -> Forall (fun c => 48 <= c <= 102) (hex bs).
Proof.
  induction 1 as [|b bs Hb _ IH]; [constructor|]. destruct (nibbles b Hb) as (H1 & H2 & _).
  change (hex (b :: bs)) with (lower_hex (Z.shiftr b 4) :: lower_hex (Z.land b 15) :: hex bs).
  assert (Hc : forall d, 0 <= d < 16 -> 48 <= lower_hex d <= 102) by (intros d Hd; unfold lower_hex; case_if_as E; lia).
  by repeat (apply Forall_cons; split); [apply Hc..|].
Qed.
Lemma hex_clean bs : is_bytes bs -> clean (hex bs).
Proof. intros H. eapply Forall_impl; [by apply hex_chars|]. cbn. lia. Qed.

Lemma output_format_reads f : parse_output_format (output_format_token f) = Ok f /\ clean (output_format_token f).
Proof. destruct f; (split; [reflexivity|by repeat constructor]). Qed.
Lemma duration_reads d : parse_duration_token (duration_token d) = Ok d /\ clean (duration_token d) /\ Forall (fun c => c <> 58) (duration_token d).
Proof. destruct d; (splits; [reflexivity|by repeat constructor|by repeat constructor]). Qed.
Lemma bool_reads b : parse_bool (bool_token b) = Ok b /\ clean (bool_token b).
Proof. destruct b; (split; [reflexivity|by repeat constructor]). Qed.

Lemma gain_reads g : gain_in_range g = true -> parse_gain (signed_decimal g) = Ok g /\ clean (signed_decimal g).
Proof.
  intros H. assert (Hg : exists n, (n < 37)%nat /\ g = -12 + Z.of_nat n).
  { unfold gain_in_range, MIN_MICROPHONE_GAIN_DB, MAX_MICROPHONE_GAIN_DB in H. exists (Z.to_nat (g + 12)). lia. }
  clear H. destruct Hg as (n & Hn & ->).
  do 37 (destruct n as [|n]; [split; [vm_compute; reflexivity|vm_compute; by repeat constructor]|]). lia.
Qed.
Lemma count_reads n : (n <= 8)%nat -> from_str_radix USIZE_MAX 10 (to_decimal (Z.of_nat n)) = Some (Z.of_nat n) /\ clean (to_decimal (Z.of_nat n)).
Proof.
  intros Hn. do 9 (destruct n as [|n]; [split; [vm_compute; reflexivity|vm_compute; by repeat constructor]|]). lia.
Qed.

Lemma microphone_reads m : microphone_valid m -> parse_microphone (microphone_token m) = Ok m /\ clean (microphone_token m).
Proof.
  intros H. destruct m as [| |name]; [split; [reflexivity|by repeat constructor]..|].
  destruct H as (Hb & Hu & Hv). cbn [microphone_token]. split.
  - assert (Hne : name <> []) by (by intros ->).
    unfold parse_microphone.
    change (bytes_eqb (ascii_bytes "selected:" ++ hex name) (ascii_bytes "off")) with false.
    change (bytes_eqb (ascii_bytes "selected:" ++ hex name) (ascii_bytes "default")) with false.
    rewrite starts_with_app. change (drop 9 (ascii_bytes "selected:" ++ hex name)) with (hex name).
    rewrite unhex_hex by done. cbn [mbind outcome_bind]. by rewrite Hu, Hv.
  - apply Forall_app. split; [by repeat constructor|by apply hex_clean].
Qed.
Lemma parent_reads parent : parent_valid parent -> parse_save_parent (save_parent_token parent) = Ok parent /\ clean (save_parent_token parent).
Proof.
  intros H. destruct parent as [path|]; [|split; [reflexivity|by repeat constructor]].
  destruct H as (Hb & Hv). cbn [save_parent_token]. split; [|by apply hex_clean].
  pose proof Hv as Hv'. unfold validate_parent in Hv'. destruct (_ || _) eqn:E; [discriminate Hv'|]. clear Hv'.
  rewrite orb_false_iff in E. destruct E as [Ea El]. unfold parse_save_parent.
  destruct path as [|b path]; [discriminate Ea|].
  destruct (bytes_eqb (hex (b :: path)) (ascii_bytes "default")) eqn:Ed.
  { apply bool_decide_eq_true in Ed. apply (f_equal length) in Ed. rewrite length_hex in Ed. cbn in Ed. lia. }
  rewrite unhex_hex by done. cbn [mbind outcome_bind]. by rewrite El, Hv.
Qed.

(** * The text of every version *)
(** The line of a field that a version has. *)
Definition line_since (since version : Z) (name : string) (v : bytes) : bytes := if since <=? version then line name v else [].
Definition shortcuts_text (version : Z) (bindings : list ReplayShortcutBinding) : bytes :=
  if version =? 1 then b ← take 1 bindings; line "save-shortcut" (shortcut b)
  else line "binding-count" (to_decimal (zlen bindings)) ++ (b ← bindings; binding_line b).
(** The file of version 1 to 8 for preferences [p]. *)
Definition text_at (version : Z) (p : ReplayPreferences) : bytes :=
  header_of version ++ [10]
  ++ line "save-parent" (save_parent_token (custom_save_parent p))
  ++ line_since 3 version "output-format" (output_format_token (output_format p))
  ++ line_since 4 version "overlay-shortcut" (overlay_shortcut p)
  ++ line_since 5 version "close-on-outside-click" (bool_token (close_overlay_on_outside_click p))
  ++ line_since 6 version "initial-save-duration" (duration_token (initial_save_duration p))
  ++ line_since 7 version "microphone" (microphone_token (microphone p))
  ++ line_since 8 version "microphone-gain-db" (signed_decimal (microphone_gain_db p))
  ++ shortcuts_text version (save_shortcuts p).
(** What a version keeps: the fields it lacks have their value from before they
    were introduced. *)
Definition kept_at (version : Z) (p : ReplayPreferences) : ReplayPreferences := {|
  custom_save_parent := custom_save_parent p;
  output_format := if 3 <=? version then output_format p else Matroska;
  overlay_shortcut := if 4 <=? version then overlay_shortcut p else LEGACY_OVERLAY_SHORTCUT;
  close_overlay_on_outside_click := if 5 <=? version then close_overlay_on_outside_click p else true;
  initial_save_duration := if 6 <=? version then initial_save_duration p else Seconds30;
  save_shortcuts := save_shortcuts p;
  microphone := if 7 <=? version then microphone p else MicrophoneOff;
  microphone_gain_db := if 8 <=? version then microphone_gain_db p else 0;
|}.
Definition one_legacy_binding (bindings : list ReplayShortcutBinding) : Prop :=
  exists s, bindings = [{| shortcut := s; binding_duration := Seconds30 |}].

Lemma serialize_text p : serialize p = text_at 8 p.
Proof. unfold serialize, text_at, shortcuts_text. cbn [line_since Z.leb Z.eqb Z.compare Pos.compare Pos.compare_cont Pos.eqb]. done. Qed.

Lemma lines_line name v rest : clean (ascii_bytes name) -> clean v -> lines (line name v ++ rest) = (ascii_bytes name ++ 61 :: v) :: lines rest.
Proof.
  intros Hn Hv. unfold line. rewrite <- !app_assoc. cbn [app]. rewrite <- app_assoc.
  change (ascii_bytes name ++ 61 :: v ++ [10] ++ rest) with (ascii_bytes name ++ (61 :: v) ++ 10 :: rest).
  rewrite app_assoc. apply lines_cons. apply Forall_app. split; [done|]. by constructor.
Qed.
Lemma field_since_text {A} since k v name (parse : bytes -> outcome string A) absent token value rest :
  existsb (fun x => bytes_eqb (header_of v) (header_of x)) since = (k <=? v) ->
  clean (ascii_bytes name) -> Forall (fun c => c <> 61) (ascii_bytes name) ->
  ((k <=? v) = true -> parse token = Ok value /\ clean token) ->
  field_since since (header_of v) name parse absent (lines (line_since k v name token ++ rest))
  = Ok (if k <=? v then value else absent, lines rest).
Proof.
  intros Hs Hc H61 Ht. unfold field_since, line_since. rewrite Hs. destruct (k <=? v); [|done]. destruct (Ht eq_refl) as [Hp Ht'].
  rewrite lines_line by done. cbn [next]. rewrite field_line by done. cbn [mbind outcome_bind]. by rewrite Hp.
Qed.

(** ** Shortcuts *)
Lemma shortcut_clean s : validate_shortcut s = Ok tt -> clean s.
Proof.
  unfold validate_shortcut. destruct (_ || _) eqn:E; [done|]. intros _. rewrite !orb_false_iff in E. destruct E as [_ E].
  induction s as [|b s IH]; [constructor|]. cbn [existsb] in E. rewrite orb_false_iff in E. destruct E as [Eb Es].
  constructor; [|by apply IH]. unfold is_ascii_control in Eb. lia.
Qed.
Lemma validate_each_shortcuts bs u : validate_each bs u = Ok tt -> Forall (fun b => validate_shortcut (shortcut b) = Ok tt) bs.
Proof.
  revert u. induction bs as [|b bs IH]; intros u H; [constructor|]. cbn [validate_each] in H.
  destruct (validate_shortcut (shortcut b)) as [[]| |] eqn:E; [|discriminate H..]. cbn [mbind outcome_bind] in H.
  case_decide; [discriminate H|]. constructor; [done|by apply IH in H].
Qed.
Lemma hotkeys_ok o bs :
  validate_hotkeys o bs = Ok tt -> clean o /\ Forall (fun b => clean (shortcut b)) bs /\ (length bs <= 8)%nat.
Proof.
  unfold validate_hotkeys. intros H. destruct (if negb _ then _ else _) as [[]| |] eqn:Eo in H; [|discriminate H..].
  cbn [mbind outcome_bind] in H. destruct (validate_shortcuts bs) as [[]| |] eqn:Es; [|discriminate H..]. splits.
  - destruct (length o =? 0)%nat eqn:El; cbn [negb] in Eo; [|by apply shortcut_clean].
    apply Nat.eqb_eq, nil_length_inv in El. subst. constructor.
  - unfold validate_shortcuts in Es. destruct (_ <? _) in Es; [discriminate Es|]. apply validate_each_shortcuts in Es.
    eapply Forall_impl; [exact Es|]. cbn. intros. by apply shortcut_clean.
  - unfold validate_shortcuts, MAX_REPLAY_SHORTCUTS, zlen in Es. destruct (Z.ltb_spec 8 (Z.of_nat (length bs))); [discriminate Es|lia].
Qed.

Lemma parse_bindings_text bs rest :
  Forall (fun b => clean (shortcut b)) bs ->
  parse_bindings (length bs) (lines ((b ← bs; binding_line b) ++ rest)) = Ok (bs, lines rest).
Proof.
  induction 1 as [|b bs Hb _ IH]; [done|].
  change ((b ← b :: bs; binding_line b) ++ rest) with ((binding_line b ++ (b ← bs; binding_line b)) ++ rest).
  rewrite <- app_assoc. destruct (duration_reads (binding_duration b)) as (Hd & Hdc & Hd58).
  unfold binding_line at 1.
  replace ((ascii_bytes "binding=" ++ duration_token (binding_duration b) ++ 58 :: shortcut b ++ [10]) ++ (b ← bs; binding_line b) ++ rest)
    with (line "binding" (duration_token (binding_duration b) ++ 58 :: shortcut b) ++ (b ← bs; binding_line b) ++ rest)
    by (unfold line; change (ascii_bytes "binding=") with (ascii_bytes "binding" ++ [61]); by simplify_list_eq).
  rewrite lines_line; [|by repeat constructor|apply Forall_app; split; [done|by constructor]].
  cbn [length parse_bindings next]. rewrite field_line by (by repeat constructor). cbn [mbind outcome_bind].
  rewrite split_once_app by done. cbn [ok_or mbind outcome_bind]. rewrite Hd. cbn [mbind outcome_bind]. rewrite IH.
  cbn [mbind outcome_bind]. by destruct b.
Qed.

Lemma parse_shortcuts_text v bs :
  1 <= v <= 8 -> (v = 1 -> one_legacy_binding bs) -> Forall (fun b => clean (shortcut b)) bs -> (length bs <= 8)%nat ->
  parse_save_shortcuts (header_of v) (lines (shortcuts_text v bs)) = Ok bs.
Proof.
  intros Hv H1 Hc Hl. unfold parse_save_shortcuts, shortcuts_text.
  assert (Hh : bytes_eqb (header_of v) (header_of 1) = (v =? 1)).
  { assert (v = 1 \/ v = 2 \/ v = 3 \/ v = 4 \/ v = 5 \/ v = 6 \/ v = 7 \/ v = 8) as Hc8 by lia.
    repeat (destruct Hc8 as [->|Hc8]; [reflexivity|]). by subst v. }
  rewrite Hh. destruct (Z.eqb_spec v 1) as [E|].
  - destruct (H1 E) as (s & ->). change (b ← take 1 [{| shortcut := s; binding_duration := Seconds30 |}]; line "save-shortcut" (shortcut b))
      with (line "save-shortcut" s ++ []). apply Forall_inv in Hc. cbn in Hc.
    rewrite lines_line by (done || by repeat constructor). cbn [next]. by rewrite field_line by (by repeat constructor).
  - destruct (count_reads (length bs) Hl) as [Hr Hcc]. fold (zlen bs) in Hr, Hcc.
    rewrite lines_line by (done || by repeat constructor). cbn [next]. rewrite field_line by (by repeat constructor).
    cbn [mbind outcome_bind]. rewrite Hr. cbn [ok_or mbind outcome_bind].
    rewrite (proj2 (Z.ltb_ge _ _)) by (unfold zlen, MAX_REPLAY_SHORTCUTS; lia).
    unfold zlen. rewrite Nat2Z.id, <- (app_nil_r (b ← bs; binding_line b)), parse_bindings_text by done. done.
Qed.

Lemma parse_text_at v p :
  1 <= v <= 8 -> (v = 1 -> one_legacy_binding (save_shortcuts p)) -> prefs_valid (kept_at v p) ->
  parse (text_at v p) = Ok (kept_at v p).
Proof.
  intros Hv H1 [Hpar Hhot Hmic Hgain]. cbn [kept_at custom_save_parent overlay_shortcut save_shortcuts microphone microphone_gain_db] in *.
  destruct (hotkeys_ok _ _ Hhot) as (Ho & Hbs & Hlen).
  unfold parse, text_at.
  assert (Hclean : clean (header_of v) /\ existsb (fun x => bytes_eqb (header_of v) (header_of x)) [1; 2; 3; 4; 5; 6; 7; 8] = true
    /\ existsb (fun x => bytes_eqb (header_of v) (header_of x)) [3; 4; 5; 6; 7; 8] = (3 <=? v)
    /\ existsb (fun x => bytes_eqb (header_of v) (header_of x)) [4; 5; 6; 7; 8] = (4 <=? v)
    /\ existsb (fun x => bytes_eqb (header_of v) (header_of x)) [5; 6; 7; 8] = (5 <=? v)
    /\ existsb (fun x => bytes_eqb (header_of v) (header_of x)) [6; 7; 8] = (6 <=? v)
    /\ existsb (fun x => bytes_eqb (header_of v) (header_of x)) [7; 8] = (7 <=? v)
    /\ existsb (fun x => bytes_eqb (header_of v) (header_of x)) [8] = (8 <=? v)).
  { assert (v = 1 \/ v = 2 \/ v = 3 \/ v = 4 \/ v = 5 \/ v = 6 \/ v = 7 \/ v = 8) as Hc8 by lia.
    clear -Hc8. repeat (destruct Hc8 as [->|Hc8]; [split; [vm_compute; by repeat constructor|by vm_compute]|]).
    subst v. split; [vm_compute; by repeat constructor|by vm_compute]. }
  destruct Hclean as (Hcl & S1 & S3 & S4 & S5 & S6 & S7 & S8).
  cbn [app]. rewrite lines_cons by done. cbn [next ok_or mbind outcome_bind]. rewrite S1. cbn [negb].
  destruct (parent_reads _ Hpar) as [Hpr Hpc].
  rewrite lines_line by (done || by repeat constructor). cbn [next]. rewrite field_line by (by repeat constructor).
  cbn [mbind outcome_bind]. rewrite Hpr. cbn [mbind outcome_bind].
  assert (Hn : forall name k A (parse : bytes -> outcome string A) value absent token rest,
      existsb (fun x => bytes_eqb (header_of v) (header_of x)) (seqZ k (9 - k)) = (k <=? v) ->
      forallb (fun c => negb (c =? 10) && negb (c =? 13) && negb (c =? 61)) (ascii_bytes name) = true ->
      ((k <=? v) = true -> parse token = Ok value /\ clean token) ->
      field_since (seqZ k (9 - k)) (header_of v) name parse absent (lines (line_since k v name token ++ rest))
      = Ok (if k <=? v then value else absent, lines rest)).
  { intros name k A prs value absent token rest Hs Hf Ht. rewrite forallb_forall in Hf. apply field_since_text; try done;
      apply Forall_forall; intros c Hin%list_elem_of_In%Hf; lia. }
  rewrite (Hn "output-format"%string 3 _ _ (output_format p)) by (exact S3 || reflexivity || intros _; apply output_format_reads).
  cbn [mbind outcome_bind].
  rewrite (Hn "overlay-shortcut"%string 4 _ _ (overlay_shortcut p))
    by (exact S4 || reflexivity || (intros E; rewrite E in Ho; done)). cbn [mbind outcome_bind].
  rewrite (Hn "close-on-outside-click"%string 5 _ _ (close_overlay_on_outside_click p)) by (exact S5 || reflexivity || intros _; apply bool_reads).
  cbn [mbind outcome_bind].
  rewrite (Hn "initial-save-duration"%string 6 _ _ (initial_save_duration p))
    by (exact S6 || reflexivity || intros _; by destruct (duration_reads (initial_save_duration p)) as (? & ? & _)).
  cbn [mbind outcome_bind].
  rewrite (Hn "microphone"%string 7 _ _ (microphone p))
    by (exact S7 || reflexivity || (intros E; rewrite E in Hmic; by apply microphone_reads)). cbn [mbind outcome_bind].
  rewrite (Hn "microphone-gain-db"%string 8 _ _ (microphone_gain_db p))
    by (exact S8 || reflexivity || (intros E; rewrite E in Hgain; by apply gain_reads)). cbn [mbind outcome_bind].
  rewrite parse_shortcuts_text by done. cbn [mbind outcome_bind].
  by rewrite Hhot.
Qed.

(** C27: the file of each of the eight versions reads back as the preferences it
    was written for, the fields the version lacks having their old values; what
    is saved is the file of version 8, which keeps everything. *)
Theorem preferences_roundtrip v p :
  1 <= v <= 8 -> (v = 1 -> one_legacy_binding (save_shortcuts p)) -> prefs_valid (kept_at v p) ->
  parse (text_at v p) = Ok (kept_at v p) /\ (v = 8 -> text_at v p = serialize p /\ kept_at v p = p).
Proof.
  intros Hv H1 Hp. split; [by apply parse_text_at|]. intros ->. split; [symmetry; apply serialize_text|by destruct p].
Qed.
