(* ===== verification/PreferencesTheorems.v ===== *)
(** What the loader returns is valid, what the setters leave in the file, and
    when it loads again. *)
From stdpp Require Import strings gmap.
From S2P Require Import Prelude Bytes Text Profiles Preferences PreferencesFacts.
Local Open Scope Z_scope.

(** * Everything that loads is valid *)
Lemma digit_ok v d : digit v = Ok d -> 0 <= d < 16.
Proof. unfold digit. intros H. repeat (case_match; simplify_eq); lia. Qed.
Lemma nibbles_byte h l : 0 <= h < 16 -> 0 <= l < 16 -> is_byte (Z.lor (Z.shiftl h 4) l).
Proof.
  intros Hh Hl.
  assert (0 <= Z.lor (Z.shiftl h 4) l) by (apply Z.lor_nonneg; rewrite Z.shiftl_nonneg; lia).
  unfold is_byte, U8_MAX. split; [done|].
  assert (Z.lor (Z.shiftl h 4) l < 2 ^ 8); [|change (2 ^ 8) with 256 in *; lia].
  destruct (Z.eq_dec (Z.lor (Z.shiftl h 4) l) 0) as [->|]; [done|].
  apply Z.log2_lt_pow2; [lia|]. rewrite Z.log2_lor by (rewrite ?Z.shiftl_nonneg; lia). apply Z.max_lub_lt.
  - destruct (Z.eq_dec h 0) as [->|]; [done|]. rewrite Z.log2_shiftl by lia. assert (Z.log2 h < 4) by (apply Z.log2_lt_pow2; lia). lia.
  - destruct (Z.eq_dec l 0) as [->|]; [done|]. assert (Z.log2 l < 4) by (apply Z.log2_lt_pow2; lia). lia.
Qed.
Lemma unhex_pairs_bytes n v bs : (length v <= n)%nat -> unhex_pairs v = Ok bs -> is_bytes bs.
Proof.
  revert v bs. induction n as [|n IH]; intros v bs Hn H.
  { destruct v; [|cbn in Hn; lia]. injection H as <-. constructor. }
  destruct v as [|a [|b v]]; [injection H as <-; constructor|injection H as <-; constructor|].
  cbn [unhex_pairs] in H. apply bind_Ok in H as (h & Hh & H). apply bind_Ok in H as (l & Hl & H).
  apply bind_Ok in H as (r & Hr & H). injection H as <-. apply digit_ok in Hh, Hl. constructor; [|eapply IH; [|exact Hr]; cbn in Hn; lia].
  by apply nibbles_byte.
Qed.
Lemma unhex_bytes v bs : unhex v = Ok bs -> is_bytes bs.
Proof. unfold unhex. case_match; [done|]. by apply (unhex_pairs_bytes (length v)). Qed.
Lemma unit_ok {E} (r : outcome E unit) u : r = Ok u -> r = Ok tt.
Proof. by destruct u. Qed.

Lemma parse_save_parent_valid v parent : parse_save_parent v = Ok parent -> parent_valid parent.
Proof.
  unfold parse_save_parent. destruct (bytes_eqb _ _); [by intros [= <-]|]. intros H. apply bind_Ok in H as (bs & Hu & H).
  destruct (_ <? _); [done|]. apply bind_Ok in H as (u & Hv & H). injection H as <-. apply map_err_Ok, unit_ok in Hv.
  split; [by apply unhex_bytes in Hu|done].
Qed.
Lemma parse_microphone_valid v m : parse_microphone v = Ok m -> microphone_valid m.
Proof.
  unfold parse_microphone. destruct (bytes_eqb _ _); [by intros [= <-]|]. destruct (bytes_eqb _ _); [by intros [= <-]|].
  destruct (starts_with _ _); [|done]. intros H. apply bind_Ok in H as (bs & Hu & H).
  destruct (utf8_valid bs) eqn:E; [|done]. apply bind_Ok in H as (u & Hv & H). injection H as <-.
  apply map_err_Ok, unit_ok in Hv. splits; [by apply unhex_bytes in Hu|done..].
Qed.
Lemma field_since_valid {A} since v name (parse : bytes -> outcome string A) absent ls x (P : A -> Prop) :
  field_since since v name parse absent ls = Ok x -> P absent -> (forall t a, parse t = Ok a -> P a) -> P x.1.
Proof.
  unfold field_since. intros H Ha Hp. destruct (existsb _ _); [|by injection H as <-].
  destruct (next ls) as [l ls']. apply bind_Ok in H as (t & _ & H). apply bind_Ok in H as (a & Hr & H). injection H as <-. by apply (Hp t).
Qed.

Lemma parse_valid contents p : parse contents = Ok p -> prefs_valid p.
Proof.
  unfold parse. destruct (next (lines contents)) as [version ls]. intros H. apply bind_Ok in H as (v & _ & H).
  case_match; [done|]. destruct (next ls) as [l ls']. apply bind_Ok in H as (par & _ & H).
  apply bind_Ok in H as (parent & Hpar & H). apply bind_Ok in H as ([fmt l1] & _ & H). apply bind_Ok in H as ([ov l2] & _ & H).
  apply bind_Ok in H as ([cl l3] & _ & H). apply bind_Ok in H as ([ini l4] & _ & H). apply bind_Ok in H as ([mic l5] & Hmic & H).
  apply bind_Ok in H as ([gain l6] & Hgain & H). apply bind_Ok in H as (bs & _ & H). apply bind_Ok in H as (u & Hhot & H).
  apply map_err_Ok, unit_ok in Hhot. injection H as <-. constructor; cbn.
  - by apply parse_save_parent_valid in Hpar.
  - done.
  - by apply (field_since_valid _ _ _ _ _ _ _ microphone_valid Hmic); [|apply parse_microphone_valid].
  - apply (field_since_valid _ _ _ _ _ _ _ (fun g => gain_in_range g = true) Hgain); [done|].
    intros t g Ht. unfold parse_gain in Ht. apply bind_Ok in Ht as (g' & _ & Ht).
    destruct (gain_in_range g') eqn:E; [by injection Ht as <-|done].
Qed.

Lemma default_valid : prefs_valid ReplayPreferences_default.
Proof. constructor; vm_compute; done. Qed.
Lemma loaded_valid f p : load_unlocked f = Ok p -> prefs_valid p.
Proof.
  destruct f as [| | |c]; [intros [= <-]; apply default_valid|done..|]. cbn. case_match; [done|].
  case_match; [|done]. intros Hl. apply map_err_Ok in Hl. by apply parse_valid in Hl.
Qed.

(** * What is written loads again, when it fits *)
Definition ascii (bs : bytes) : Prop := Forall (fun b => b < 128) bs.
Lemma shortcut_ascii s : validate_shortcut s = Ok tt -> ascii s.
Proof.
  unfold validate_shortcut. destruct (_ || _) eqn:E; [done|]. intros _. rewrite !orb_false_iff, negb_false_iff, forallb_forall in E.
  destruct E as [[_ E] _]. apply Forall_forall. intros b Hb%list_elem_of_In%E. lia.
Qed.
Lemma hotkeys_ascii o bs : validate_hotkeys o bs = Ok tt -> ascii o /\ Forall (fun b => validate_shortcut (shortcut b) = Ok tt) bs.
Proof.
  unfold validate_hotkeys. intros H. apply bind_Ok in H as (u & Ho & H). apply bind_Ok in H as (u' & Hs & _). split.
  - destruct (length o =? 0)%nat eqn:El; cbn [negb] in Ho.
    + apply Nat.eqb_eq, nil_length_inv in El. subst. constructor.
    + apply unit_ok in Ho. by apply shortcut_ascii.
  - apply unit_ok in Hs. unfold validate_shortcuts in Hs. case_match; [done|]. by apply validate_each_shortcuts in Hs.
Qed.
Lemma hex_ascii bs : is_bytes bs -> ascii (hex bs).
Proof. intros H. eapply Forall_impl; [by apply hex_chars|]. cbn. lia. Qed.
Lemma ascii_app a b : ascii a -> ascii b -> ascii (a ++ b).
Proof. intros. apply Forall_app. done. Qed.
Lemma ascii_line name v : ascii (ascii_bytes name) -> ascii v -> ascii (line name v).
Proof. intros. unfold line. apply ascii_app; [done|]. constructor; [done|]. apply ascii_app; [done|]. by repeat constructor. Qed.

Lemma ascii_checked bs : forallb (fun b => b <? 128) bs = true -> ascii bs.
Proof. rewrite forallb_forall. intros H. apply Forall_forall. intros b Hb%list_elem_of_In%H. lia. Qed.

Lemma serialize_ascii p : prefs_valid p -> ascii (serialize p).
Proof.
  intros [Hpar Hhot Hmic Hgain]. destruct (hotkeys_ascii _ _ Hhot) as [Ho Hbs]. destruct (hotkeys_ok _ _ Hhot) as (_ & _ & Hlen).
  unfold serialize. do 2 (apply ascii_app; [by apply ascii_checked|]).
  repeat (apply ascii_app; [apply ascii_line; [by apply ascii_checked|]|]).
  - destruct (custom_save_parent p) as [path|]; [destruct Hpar; by apply hex_ascii|by apply ascii_checked].
  - destruct (output_format p); by apply ascii_checked.
  - done.
  - destruct (close_overlay_on_outside_click p); by apply ascii_checked.
  - destruct (initial_save_duration p); by apply ascii_checked.
  - destruct (microphone p) as [| |name]; [by apply ascii_checked..|]. apply ascii_app; [by apply ascii_checked|].
    destruct Hmic. by apply hex_ascii.
  - unfold gain_in_range, MIN_MICROPHONE_GAIN_DB, MAX_MICROPHONE_GAIN_DB in Hgain.
    assert (Hg : exists n, (n < 37)%nat /\ microphone_gain_db p = -12 + Z.of_nat n) by (exists (Z.to_nat (microphone_gain_db p + 12)); lia).
    destruct Hg as (n & Hn & ->). do 37 (destruct n as [|n]; [by apply ascii_checked|]). lia.
  - unfold zlen. generalize dependent (length (save_shortcuts p)). intros n Hn. do 9 (destruct n as [|n]; [by apply ascii_checked|]). lia.
  - clear -Hbs. induction Hbs as [|b bs Hb _ IH]; [constructor|]. change (b ← b :: bs; binding_line b) with (binding_line b ++ (b ← bs; binding_line b)).
    apply ascii_app; [|apply IH]. unfold binding_line. apply ascii_app; [by apply ascii_checked|].
    apply ascii_app; [destruct (binding_duration b); by apply ascii_checked|].
    constructor; [done|]. apply ascii_app; [by apply shortcut_ascii|by apply ascii_checked].
Qed.

Lemma load_serialized p :
  prefs_valid p -> zlen (serialize p) <= MAX_PREFERENCES_BYTES -> load_unlocked (Regular (serialize p)) = Ok p.
Proof.
  intros Hp Hlen. cbn [load_unlocked]. rewrite (proj2 (Z.ltb_ge _ _)), utf8_ascii by (done || by apply serialize_ascii).
  assert (Hk : kept_at 8 p = p) by by destruct p.
  rewrite serialize_text. pose proof (parse_text_at 8 p ltac:(lia) ltac:(done)) as H. rewrite Hk in H. by rewrite H.
Qed.

(** * How long the text is *)
Lemma zlen_hex bs : zlen (hex bs) = 2 * zlen bs.
Proof. unfold zlen. rewrite length_hex. lia. Qed.
Lemma zlen_line name v : zlen (line name v) = zlen (ascii_bytes name) + zlen v + 2.
Proof. unfold line. rewrite zlen_app, zlen_cons, zlen_app. change (zlen [10]) with 1. lia. Qed.
Lemma shortcut_short s : validate_shortcut s = Ok tt -> zlen s <= 64.
Proof. unfold validate_shortcut. destruct (_ || _) eqn:E; [done|]. intros _. unfold MAX_SHORTCUT_BYTES in E. rewrite !orb_false_iff in E. lia. Qed.
Lemma bindings_short bs : Forall (fun b => validate_shortcut (shortcut b) = Ok tt) bs -> zlen (b ← bs; binding_line b) <= 77 * zlen bs.
Proof.
  induction 1 as [|b bs Hb _ IH]; [done|]. change (b ← b :: bs; binding_line b) with (binding_line b ++ (b ← bs; binding_line b)).
  rewrite zlen_app, zlen_cons. set (rest := zlen (b ← bs; binding_line b)) in *.
  unfold binding_line. rewrite !zlen_app, zlen_cons, zlen_app. apply shortcut_short in Hb.
  assert (zlen (duration_token (binding_duration b)) <= 3) by (by destruct (binding_duration b)).
  change (zlen (ascii_bytes "binding=")) with 8. change (zlen [10]) with 1. lia.
Qed.
Definition parent_bytes (p : ReplayPreferences) : Z := match custom_save_parent p with Some path => zlen path | None => 0 end.

(** The longest text is under 1400 bytes and twice the save directory. *)
Lemma serialize_short p : prefs_valid p -> zlen (serialize p) <= 1393 + 2 * parent_bytes p.
Proof.
  intros [Hpar Hhot Hmic Hgain]. destruct (hotkeys_ascii _ _ Hhot) as [_ Hbs]. destruct (hotkeys_ok _ _ Hhot) as (_ & _ & Hlen).
  apply bindings_short in Hbs.
  unfold serialize. rewrite !zlen_app, !zlen_line.
  assert (zlen (save_parent_token (custom_save_parent p)) <= 7 + 2 * parent_bytes p).
  { unfold parent_bytes. destruct (custom_save_parent p); cbn [save_parent_token]; [rewrite zlen_hex; lia|done]. }
  assert (zlen (output_format_token (output_format p)) = 3) by (by destruct (output_format p)).
  assert (zlen (overlay_shortcut p) <= 64).
  { unfold validate_hotkeys in Hhot. apply bind_Ok in Hhot as (u & Ho & _). destruct (length (overlay_shortcut p) =? 0)%nat eqn:El; cbn [negb] in Ho.
    - apply Nat.eqb_eq in El. unfold zlen. lia.
    - apply unit_ok in Ho. by apply shortcut_short. }
  assert (zlen (bool_token (close_overlay_on_outside_click p)) <= 5) by (by destruct (close_overlay_on_outside_click p)).
  assert (zlen (duration_token (initial_save_duration p)) <= 3) by (by destruct (initial_save_duration p)).
  assert (zlen (microphone_token (microphone p)) <= 521).
  { destruct (microphone p) as [| |name]; [done..|]. cbn [microphone_token]. rewrite zlen_app, zlen_hex.
    destruct Hmic as (_ & _ & Hv). unfold validate_microphone in Hv. destruct (_ || _) eqn:E in Hv; [discriminate Hv|].
    rewrite !orb_false_iff in E. change (zlen (ascii_bytes "selected:")) with 9. lia. }
  assert (zlen (signed_decimal (microphone_gain_db p)) <= 3).
  { unfold gain_in_range, MIN_MICROPHONE_GAIN_DB, MAX_MICROPHONE_GAIN_DB in Hgain.
    assert (Hg : exists n, (n < 37)%nat /\ microphone_gain_db p = -12 + Z.of_nat n) by (exists (Z.to_nat (microphone_gain_db p + 12)); lia).
    destruct Hg as (n & Hn & ->). do 37 (destruct n as [|n]; [done|]). lia. }
  assert (zlen (to_decimal (zlen (save_shortcuts p))) = 1).
  { unfold zlen at 2. clear -Hlen. revert Hlen. generalize (length (save_shortcuts p)). intros n Hn. do 9 (destruct n as [|n]; [done|]). lia. }
  assert (zlen (save_shortcuts p) <= 8) by (unfold zlen; lia).
  repeat match goal with |- context [zlen (ascii_bytes ?s)] => let n := eval vm_compute in (zlen (ascii_bytes s)) in change (zlen (ascii_bytes s)) with n end.
  change (zlen (header_of 8)) with 29. change (zlen [10]) with 1. lia.
Qed.

(** * The setters *)
Inductive setting :=
| SetInitial (d : ReplayDuration) | SetParent (parent : option bytes) | SetShortcuts (bs : list ReplayShortcutBinding)
| SetHotkeys (o : bytes) (bs : list ReplayShortcutBinding) | SetOverlay (o : bytes) (close : bool) | SetOutsideClick (enabled : bool)
| SetMicrophone (m : MicrophoneMode) | SetGain (gain : Z) | SetFormat (f : ReplayOutputFormat).
Definition apply_setting (io : save_io) (op : setting) : st pref_entry ReplayPreferencesError ReplayPreferences :=
  match op with
  | SetInitial d => set_initial_save_duration io d
  | SetParent parent => set_save_parent io parent
  | SetShortcuts bs => set_save_shortcuts io bs
  | SetHotkeys o bs => set_hotkeys io o bs
  | SetOverlay o close => set_overlay_behavior io o close
  | SetOutsideClick enabled => set_outside_click io enabled
  | SetMicrophone m => set_microphone io m
  | SetGain gain => set_microphone_gain io gain
  | SetFormat f => set_output_format io f
  end.
(** The field a setter changes, and the condition on it. *)
Definition changed (op : setting) (p : ReplayPreferences) : ReplayPreferences :=
  match op with
  | SetInitial d => set_initial_field d p
  | SetParent parent => set_parent_field parent p
  | SetShortcuts bs => set_hotkey_fields (overlay_shortcut p) bs p
  | SetHotkeys o bs => set_hotkey_fields o bs p
  | SetOverlay o close => set_close_field close (set_hotkey_fields o (save_shortcuts p) p)
  | SetOutsideClick enabled => set_close_field enabled p
  | SetMicrophone m => set_microphone_fields m (microphone_gain_db p) p
  | SetGain gain => set_microphone_fields (microphone p) gain p
  | SetFormat f => set_format_field f p
  end.
(** The Rust types of the arguments. *)
Definition setting_typed (op : setting) : Prop :=
  match op with
  | SetParent (Some path) => is_bytes path
  | SetMicrophone (SelectedInput name) => is_bytes name /\ utf8_valid name = true
  | _ => True
  end.
(** A working disk. *)
Definition io_works (io : save_io) : Prop := created io = true /\ made_private io = true /\ attempts io 0 = Replaced.

Lemma atomic_replace_entry n io i c f : (atomic_replace n io i c f).1 = f \/ (atomic_replace n io i c f).1 = Regular c.
Proof. revert i. induction n as [|n IH]; intros i; [by left|]. cbn. destruct (io i); auto. Qed.
Lemma atomic_replace_true n io i c f : (atomic_replace n io i c f).2 = true -> (atomic_replace n io i c f).1 = Regular c.
Proof. revert i. induction n as [|n IH]; intros i; [done|]. cbn. destruct (io i); auto; done. Qed.

(** What a call leaves: the old file or the new text; success means the new text. *)
Definition wrote (f f' : pref_entry) (r : outcome ReplayPreferencesError ReplayPreferences) (q : ReplayPreferences) : Prop :=
  (f' = f \/ f' = Regular (serialize q)) /\ (forall x, r = Ok x -> x = q /\ f' = Regular (serialize q)) /\ r <> Panic.
Lemma save_wrote io p f : let '(f', r) := save_unlocked io p f in wrote f f' (_ ← r; Ok p) p.
Proof.
  unfold save_unlocked, wrote. destruct (created io); cbn [negb]; [|by splits; auto; try done].
  destruct (made_private io); cbn [negb]; [|by splits; auto; try done].
  pose proof (atomic_replace_entry 32 (attempts io) 0 (serialize p) f) as He.
  pose proof (atomic_replace_true 32 (attempts io) 0 (serialize p) f) as Ht.
  destruct (atomic_replace 32 (attempts io) 0 (serialize p) f) as [f' []]; cbn in *; splits; auto; try done.
  intros x [= <-]. auto.
Qed.
Lemma save_works io p f : io_works io -> save_unlocked io p f = (Regular (serialize p), Ok tt).
Proof. intros (Hc & Hp & Ha). unfold save_unlocked. rewrite Hc, Hp. cbn [negb atomic_replace]. by rewrite Ha. Qed.

(** Every setter is: check, load, change, save. *)
Definition setting_check (op : setting) (p : ReplayPreferences) : outcome ReplayPreferencesError unit :=
  match op with
  | SetParent (Some parent) => validate_parent parent
  | SetShortcuts bs => validate_hotkeys (overlay_shortcut p) bs
  | SetHotkeys o bs => validate_hotkeys o bs
  | SetOverlay o _ => validate_hotkeys o (save_shortcuts p)
  | SetMicrophone m => validate_microphone m
  | SetGain gain => if negb (gain_in_range gain) then Err (Rejected "Microphone recording level must be between -12 and +24 dB.") else Ok tt
  | _ => Ok tt
  end.
Lemma setting_shape io op f p :
  load_unlocked f = Ok p ->
  apply_setting io op f =
    match setting_check op p with
    | Ok _ => let '(f', r) := save_unlocked io (changed op p) f in (f', _ ← r; Ok (changed op p))
    | Err e => (f, Err e)
    | Panic => (f, Panic)
    end.
Proof.
  intros Hl. destruct op as [d|[parent|]|bs|o bs|o close|en|m|g|fm]; cbn [apply_setting changed setting_check];
    unfold set_initial_save_duration, set_save_parent, set_save_shortcuts, set_hotkeys, set_overlay_behavior, set_outside_click,
      set_microphone, set_microphone_gain, set_output_format, checked, update_file; rewrite Hl; try done.
  all: by destruct (validate_hotkeys _ _).
Qed.
Lemma hotkeys_total o bs : validate_hotkeys o bs <> Panic.
Proof.
  assert (Hs : forall s, validate_shortcut s <> Panic) by (intros s; unfold validate_shortcut; by destruct (_ || _)).
  assert (He : forall bs u, validate_each bs u <> Panic).
  { clear -Hs. induction bs as [|b bs IH]; intros u; [done|]. cbn [validate_each]. pose proof (Hs (shortcut b)).
    destruct (validate_shortcut (shortcut b)); cbn; [|done..]. case_decide; [done|apply IH]. }
  unfold validate_hotkeys. pose proof (Hs o). assert (validate_shortcuts bs <> Panic) by (unfold validate_shortcuts; by destruct (_ <? _)).
  destruct (negb _); [destruct (validate_shortcut o)|]; cbn; try done; destruct (validate_shortcuts bs); cbn; try done; by destruct (existsb _ _).
Qed.
Lemma changed_valid op p : prefs_valid p -> setting_typed op -> setting_check op p = Ok tt -> prefs_valid (changed op p).
Proof.
  intros [Hpar Hhot Hmic Hgain] Ht Hc. destruct op as [d|[parent|]|bs|o bs|o close|en|m|g|fm]; constructor; cbn in *; try done.
  - destruct m; [done..|]. destruct Ht. by splits.
  - by destruct (gain_in_range g).
Qed.

(** C26: a setter loads, changes its own fields and saves.  Its arguments are
    checked first; when it succeeds the file holds exactly the changed
    preferences, which are valid and load again whenever they fit the file's
    bound; when it fails the file is what it was or already the new text; and on
    a working disk every accepted argument is stored. *)
Theorem setting_exact io op f p :
  load_unlocked f = Ok p -> setting_typed op ->
  let '(f', r) := apply_setting io op f in
  (f' = f \/ setting_check op p = Ok tt /\ f' = Regular (serialize (changed op p)))
  /\ (forall q, r = Ok q -> setting_check op p = Ok tt /\ q = changed op p /\ f' = Regular (serialize q))
  /\ (setting_check op p = Ok tt -> io_works io -> r = Ok (changed op p))
  /\ r <> Panic
  /\ (setting_check op p = Ok tt -> prefs_valid (changed op p)
      /\ (zlen (serialize (changed op p)) <= MAX_PREFERENCES_BYTES -> load_unlocked (Regular (serialize (changed op p))) = Ok (changed op p))).
Proof.
  intros Hl Ht. rewrite (setting_shape io op f p Hl).
  assert (Hc : setting_check op p <> Panic).
  { destruct op as [d|[parent|]|bs|o bs|o close|en|m|g|fm]; cbn; try done; try by apply hotkeys_total.
    - unfold validate_parent. by destruct (_ || _).
    - destruct m; [done..|]. unfold validate_microphone. by destruct (_ || _).
    - by destruct (negb _). }
  destruct (setting_check op p) as [[]|e|] eqn:E; [|splits; auto; done|done].
  pose proof (save_wrote io (changed op p) f) as Hw. pose proof (save_works io (changed op p) f) as Hok.
  destruct (save_unlocked io (changed op p) f) as [f' r]. destruct Hw as (Hf & Hr & Hp). splits.
  - destruct Hf; auto.
  - intros q Hq. destruct (Hr q Hq) as [-> ->]. done.
  - intros _ Hio. by injection (Hok Hio) as -> ->.
  - done.
  - intros _. assert (Hv : prefs_valid (changed op p)) by (apply changed_valid; [by apply (loaded_valid f)|done..]).
    split; [done|]. by apply load_serialized.
Qed.

(** ** Files that stay loadable *)
(** Save directories up to 3398 bytes leave room for everything else. *)
Definition SHORT_PARENT : Z := 3398.
Definition setting_short (op : setting) : Prop := match op with SetParent (Some path) => zlen path <= SHORT_PARENT | _ => True end.
Definition loadable (f : pref_entry) : Prop := exists p, load_unlocked f = Ok p /\ parent_bytes p <= SHORT_PARENT.

Lemma fits p : prefs_valid p -> parent_bytes p <= SHORT_PARENT -> zlen (serialize p) <= MAX_PREFERENCES_BYTES.
Proof. intros Hv Hp. apply serialize_short in Hv. unfold SHORT_PARENT, MAX_PREFERENCES_BYTES in *. lia. Qed.
Lemma changed_parent op p : parent_bytes p <= SHORT_PARENT -> setting_short op -> parent_bytes (changed op p) <= SHORT_PARENT.
Proof. destruct op as [d|[parent|]|bs|o bs|o close|en|m|g|fm]; unfold parent_bytes; cbn; auto. unfold SHORT_PARENT. lia. Qed.
Definition run_settings (ops : list (save_io * setting)) (f : pref_entry) : pref_entry :=
  foldl (fun f x => (apply_setting x.1 x.2 f).1) f ops.

(** From any loadable file, no sequence of setter calls, however the disk
    behaves, makes the preferences unreadable, as long as every save directory
    is at most 3398 bytes; and the outcome is always valid. *)
Theorem preferences_stay_loadable ops f :
  loadable f -> Forall (fun x => setting_typed x.2 /\ setting_short x.2) ops ->
  loadable (run_settings ops f) /\ (forall p, load_unlocked (run_settings ops f) = Ok p -> prefs_valid p).
Proof.
  intros Hf Ho. split; [|intros p; apply loaded_valid].
  revert f Hf. induction Ho as [|[io op] ops [Ht Hs] _ IH]; intros f (p & Hl & Hp); [by exists p|]. cbn [run_settings foldl fst snd]. apply IH.
  cbn in Ht, Hs. rewrite (setting_shape io op f p Hl).
  destruct (setting_check op p) as [[]| |] eqn:E; [|by exists p..].
  pose proof (save_wrote io (changed op p) f) as Hw. destruct (save_unlocked io (changed op p) f) as [f' r]. destruct Hw as ([->| ->] & _); [by exists p|].
  assert (Hv : prefs_valid (changed op p)) by (apply changed_valid; [by apply (loaded_valid f)|done..]).
  exists (changed op p). split; [apply load_serialized; [done|apply fits; [done|]]|]; by apply changed_parent.
Qed.

(** ** What is valid, stated without the checks *)
(** A shortcut: 1 to 64 characters, each a printable one of ASCII. *)
Definition printable_shortcut (s : bytes) : Prop := (1 <= length s <= 64)%nat /\ Forall (fun b => 32 <= b <= 126) s.
(** No C0 control or DEL among the bytes, and no C1 control, which UTF-8 writes
    as C2 followed by 80 to 9F. *)
Definition control_free (s : bytes) : Prop :=
  Forall (fun b => 32 <= b /\ b <> 127) s /\ (forall a c b, s = a ++ 0xC2 :: c :: b -> 0x9F < c).
Record preferences_well_formed (p : ReplayPreferences) : Prop := {
  wf_parent : forall path, custom_save_parent p = Some path -> (exists rest, path = 47 :: rest) /\ (length path <= 4096)%nat;
  wf_overlay : overlay_shortcut p = [] \/ printable_shortcut (overlay_shortcut p);
  wf_count : (length (save_shortcuts p) <= 8)%nat;
  wf_shortcuts : Forall (fun b => printable_shortcut (shortcut b)) (save_shortcuts p);
  wf_distinct : NoDup (overlay_shortcut p :: (shortcut <$> save_shortcuts p));
  wf_microphone : forall name, microphone p = SelectedInput name ->
    (1 <= length name <= 256)%nat /\ utf8_valid name = true /\ control_free name;
  wf_gain : -12 <= microphone_gain_db p <= 24;
}.

Lemma validate_shortcut_ok s : validate_shortcut s = Ok tt -> printable_shortcut s.
Proof.
  unfold validate_shortcut, MAX_SHORTCUT_BYTES. intros H. destruct (_ || _) eqn:E in H; [done|].
  apply orb_false_iff in E as [E Hc]. apply orb_false_iff in E as [E Ha]. apply orb_false_iff in E as [H0 Hl].
  apply Nat.eqb_neq in H0. apply Z.ltb_ge in Hl. apply negb_false_iff in Ha. rewrite forallb_forall in Ha. unfold zlen in Hl.
  split; [lia|]. apply Forall_forall. intros b Hb. rewrite list_elem_of_In in Hb. pose proof (Ha b Hb) as Hb'.
  destruct (is_ascii_control b) eqn:Ec; [exfalso; assert (existsb is_ascii_control s = true) by (apply existsb_exists; eauto); congruence|].
  unfold is_ascii_control in Ec. lia.
Qed.
Lemma validate_each_ok bindings unique : validate_each bindings unique = Ok tt ->
  Forall (fun b => validate_shortcut (shortcut b) = Ok tt) bindings /\ NoDup (shortcut <$> bindings)
  /\ Forall (fun b => shortcut b ∉ unique) bindings.
Proof.
  revert unique. induction bindings as [|b bindings IH]; intros unique; cbn [validate_each]; [intros _; splits; constructor|].
  destruct (validate_shortcut _) as [[]| |] eqn:E; cbn [mbind outcome_bind]; [|done..]. case_decide as Hin; [done|].
  intros H. destruct (IH _ H) as (Hf & Hn & Hu). splits; [by constructor| |].
  - rewrite fmap_cons. constructor; [|done]. rewrite list_elem_of_fmap. intros (b' & Hb & Hb'). rewrite Forall_forall in Hu. specialize (Hu b' Hb'). set_solver.
  - constructor; [done|]. eapply Forall_impl; [exact Hu|]. set_solver.
Qed.
Lemma any_control_free s : any_control s = false -> control_free s.
Proof.
  induction s as [|b s IH]; intros H; [split; [constructor|]; by intros [|? []]|]. cbn [any_control] in H.
  apply orb_false_iff in H as [H Hr]. apply orb_false_iff in H as [Hb Hc].
  destruct (IH Hr) as [Hf Hp]. split.
  - constructor; [|done]. unfold is_ascii_control in Hb. lia.
  - intros [|a0 a] c r E; injection E as -> ->; [|by apply (Hp a c r)]. cbn in Hc. lia.
Qed.
Lemma valid_well_formed p : prefs_valid p -> preferences_well_formed p.
Proof.
  intros [Hp Hh Hm Hg]. unfold validate_hotkeys in Hh.
  destruct (if negb _ then _ else _) as [[]| |] eqn:Eo in Hh; cbn [mbind outcome_bind] in Hh; [|done..].
  destruct (validate_shortcuts _) as [[]| |] eqn:Es in Hh; cbn [mbind outcome_bind] in Hh; [|done..].
  destruct (existsb _ _) eqn:Ex in Hh; [done|]. unfold validate_shortcuts in Es. destruct (_ <? _) eqn:En in Es; [done|].
  apply validate_each_ok in Es as (Hf & Hn & _). apply Z.ltb_ge in En. unfold MAX_REPLAY_SHORTCUTS, zlen in En. constructor.
  - intros path E. rewrite E in Hp. destruct Hp as [_ Hp]. unfold validate_parent, is_absolute, MAX_PATH_BYTES, zlen in Hp.
    destruct (_ || _) eqn:E' in Hp; [done|]. apply orb_false_iff in E' as [Ea El]. apply negb_false_iff in Ea. apply Z.ltb_ge in El.
    split; [|lia]. destruct path as [|b path]; [done|]. unfold starts_with in Ea. unfold bytes_eqb in Ea. apply bool_decide_eq_true in Ea. injection Ea as ->. eauto.
  - destruct (overlay_shortcut p) eqn:E; [by left|right]. by apply validate_shortcut_ok.
  - lia.
  - eapply Forall_impl; [exact Hf|]. intros b. apply validate_shortcut_ok.
  - constructor; [|done]. rewrite list_elem_of_fmap. intros (b & Hb & Hi). rewrite <- not_true_iff_false in Ex. apply Ex.
    apply existsb_exists. exists b. split; [by apply list_elem_of_In|]. rewrite <- Hb. apply bytes_eqb_refl.
  - intros name E. rewrite E in Hm. destruct Hm as (_ & Hu & Hm). cbn in Hm. destruct (_ || _) eqn:E' in Hm; [done|].
    apply orb_false_iff in E' as [E' Hc]. apply orb_false_iff in E' as [H0 Hl]. apply Nat.eqb_neq in H0. apply Z.ltb_ge in Hl. unfold zlen in Hl.
    split; [lia|split; [done|by apply any_control_free]].
  - unfold gain_in_range, MIN_MICROPHONE_GAIN_DB, MAX_MICROPHONE_GAIN_DB in Hg. lia.
Qed.

(** C31: whatever a preferences file holds, what loads from it is well formed: a
    save directory is absolute and at most 4096 bytes; there are at most eight save
    shortcuts, each of 1 to 64 printable ASCII characters, no two of them alike and
    none the menu's; a selected microphone has a name of 1 to 256 bytes of UTF-8
    without a control character; and its level is from -12 to 24 dB. *)
Theorem load_valid f p (H : load_unlocked f = Ok p) : preferences_well_formed p.
Proof. by apply valid_well_formed, (loaded_valid f). Qed.

(** ** A save directory that locks the file *)
Definition disk_ok : save_io := {| created := true; made_private := true; attempts := fun _ => Replaced |}.
Definition long_parent : bytes := ascii_bytes "/" ++ replicate 4000 97.

(** C32: a save directory of 4001 bytes passes the setter's check and is stored,
    and from then on the file is over the loader's bound: every setter fails and
    leaves it as it is, also the one that would remove the directory. *)
Theorem long_parent_locks_preferences :
  validate_parent long_parent = Ok tt
  /\ exists f, set_save_parent disk_ok (Some long_parent) NotFound = (f, Ok (set_parent_field (Some long_parent) ReplayPreferences_default))
     /\ load_unlocked f = Err (CouldNotLoad "state is too large")
     /\ forall io op, (apply_setting io op f).1 = f /\ exists e, (apply_setting io op f).2 = Err e.
Proof.
  assert (Hv : validate_parent long_parent = Ok tt) by (vm_compute; reflexivity).
  split; [exact Hv|]. exists (Regular (serialize (set_parent_field (Some long_parent) ReplayPreferences_default))).
  assert (Hl : load_unlocked (Regular (serialize (set_parent_field (Some long_parent) ReplayPreferences_default)))
    = Err (CouldNotLoad "state is too large")).
  { cbn [load_unlocked]. replace (MAX_PREFERENCES_BYTES <? _) with true; [done|]. symmetry. vm_compute. reflexivity. }
  splits.
  - unfold set_save_parent, checked, update_file. rewrite Hv. cbn [load_unlocked]. by rewrite save_works by done.
  - exact Hl.
  - intros io op.
    assert (Hu : forall change, update_file io change (Regular (serialize (set_parent_field (Some long_parent) ReplayPreferences_default)))
        = (Regular (serialize (set_parent_field (Some long_parent) ReplayPreferences_default)), Err (CouldNotLoad "state is too large")))
      by (intros change; unfold update_file; by rewrite Hl).
    assert (Hc : forall check change, check <> Panic ->
        (checked check (update_file io change) (Regular (serialize (set_parent_field (Some long_parent) ReplayPreferences_default)))).1
          = Regular (serialize (set_parent_field (Some long_parent) ReplayPreferences_default))
        /\ exists e, (checked check (update_file io change) (Regular (serialize (set_parent_field (Some long_parent) ReplayPreferences_default)))).2 = Err e).
    { intros check change Hne. unfold checked. destruct check as [[]|e|]; [rewrite Hu; by eauto|by eauto|done]. }
    destruct op as [d|[parent|]|bs|o bs|o close|en|m|g|fm]; cbn [apply_setting];
      unfold set_initial_save_duration, set_save_parent, set_save_shortcuts, set_hotkeys, set_overlay_behavior, set_outside_click,
        set_microphone, set_microphone_gain, set_output_format; (rewrite Hu; by eauto) || apply Hc; try done.
    + unfold validate_parent. by destruct (_ || _).
    + apply hotkeys_total.
    + destruct m; [done..|]. cbn. by destruct (_ || _).
    + by destruct (negb _).
Qed.

(** ** Instances *)
Definition demo_preferences : ReplayPreferences := {|
  custom_save_parent := Some (ascii_bytes "/mnt/clips"); output_format := Mp4; overlay_shortcut := ascii_bytes "Alt+Shift+Z";
  close_overlay_on_outside_click := false; initial_save_duration := Seconds60;
  save_shortcuts := [{| shortcut := ascii_bytes "Ctrl+F9"; binding_duration := Seconds30 |}];
  microphone := SelectedInput (ascii_bytes "alsa_input.usb"); microphone_gain_db := -3 |}.
Lemma demo_preferences_valid : prefs_valid demo_preferences.
Proof.
  constructor; [split; [by apply is_bytes_check|by vm_compute]|by vm_compute| |by vm_compute].
  change (is_bytes (ascii_bytes "alsa_input.usb") /\ utf8_valid (ascii_bytes "alsa_input.usb") = true
    /\ validate_microphone (SelectedInput (ascii_bytes "alsa_input.usb")) = Ok tt).
  splits; [by apply is_bytes_check|by vm_compute..].
Defined.
Lemma preferences_roundtrip_witness :
  parse (text_at 8 demo_preferences) = Ok (kept_at 8 demo_preferences) /\ kept_at 8 demo_preferences = demo_preferences.
Proof.
  assert (H : kept_at 8 demo_preferences = demo_preferences) by reflexivity.
  split; [|done]. refine (proj1 (preferences_roundtrip 8 demo_preferences _ _ _)); [lia|lia|rewrite H; exact demo_preferences_valid].
Defined.
Lemma load_valid_witness : preferences_well_formed demo_preferences.
Proof. apply (load_valid (Regular (serialize demo_preferences))). vm_compute. reflexivity. Defined.
Lemma setting_exact_witness :
  let '(f, r) := apply_setting disk_ok (SetGain 6) (Regular (serialize demo_preferences)) in r = Ok (changed (SetGain 6) demo_preferences).
Proof.
  assert (Hl : load_unlocked (Regular (serialize demo_preferences)) = Ok demo_preferences) by (vm_compute; reflexivity).
  pose proof (setting_exact disk_ok (SetGain 6) _ _ Hl I) as H. destruct (apply_setting _ _ _) as [f r].
  destruct H as (_ & _ & H & _). apply H; [reflexivity|by splits].
Defined.
Lemma preferences_stay_loadable_witness :
  loadable (run_settings [(disk_ok, SetGain 6); (disk_ok, SetParent (Some (ascii_bytes "/home/a")))] NotFound).
Proof.
  refine (proj1 (preferences_stay_loadable _ _ _ _)).
  - exists ReplayPreferences_default. split; [done|by vm_compute].
  - apply Forall_cons. split; [by split|]. apply Forall_cons. split; [|constructor]. split; [by apply is_bytes_check|by vm_compute].
Defined.
