(* ===== verification/Catalog.v ===== *)
(** The game catalog (crates/redunar-daemon/src/game_catalog.rs): the records and
    their checks, the text file with its twelve versions, and the operations. *)
From stdpp Require Import strings.
From S2P Require Import Prelude Bytes Text Profiles Paths Preferences.
Local Open Scope Z_scope.

Definition MAX_CATALOG_BYTES : Z := 1024 * 1024.
Definition MAX_GAMES : Z := 256.
Definition MAX_IMPORT_GAMES : Z := 64.
Definition MAX_DISPLAY_NAME_BYTES : Z := 256.
Definition MAX_GAME_PATH_BYTES : Z := 4096.
Definition MAX_ARGUMENTS : Z := 64.
Definition MAX_ARGUMENT_BYTES : Z := 4096.
Definition MAX_TOTAL_ARGUMENT_BYTES : Z := 32 * 1024.
Definition MAX_MATCH_RULES : Z := 32.
Definition MAX_EXECUTABLE_NAME_BYTES : Z := 256.
Definition MAX_TOTAL_MATCH_RULE_BYTES : Z := 64 * 1024.

(** The records of game.rs with their paths, names and arguments as bytes. *)
Inductive CatalogRule :=
| CatalogSteamAppId (app_id : Z)
| CatalogExecutable (path : bytes)
| CatalogExecutableName (name : bytes).
Record CatalogLaunch := { cl_executable : bytes; cl_arguments : list bytes; cl_working_directory : option bytes }.
Record CatalogGame := { cg_id : Z; cg_display_name : bytes; cg_match_rules : list CatalogRule; cg_launch : CatalogLaunch; cg_profile : PerGameProfile }.
Record StoredCatalog := { sc_global_profile : GlobalGameProfile; sc_games : list CatalogGame; next_id : Z }.
Definition StoredCatalog_default : StoredCatalog := {| sc_global_profile := GlobalGameProfile_default; sc_games := []; next_id := 1 |}.

(** The record as game.rs sees it. *)
Definition rule_of (r : CatalogRule) : GameMatchRule :=
  match r with
  | CatalogSteamAppId app_id => SteamAppId app_id
  | CatalogExecutable path => Executable (components path)
  | CatalogExecutableName name => ExecutableName (string_of_bytes name)
  end.
Definition record_of (g : CatalogGame) : GameRecord := {|
  record_id := {| game_id_value := cg_id g |};
  display_name := string_of_bytes (cg_display_name g);
  match_rules := map rule_of (cg_match_rules g);
  launch := {| launch_executable := components (cl_executable (cg_launch g));
               launch_arguments := map string_of_bytes (cl_arguments (cg_launch g));
               launch_working_directory := components <$> cl_working_directory (cg_launch g) |};
  profile := cg_profile g |}.

(** [==] on rules, launches and optional paths. *)
Definition rule_eqb (a b : CatalogRule) : bool :=
  match a, b with
  | CatalogSteamAppId a, CatalogSteamAppId b => a =? b
  | CatalogExecutable a, CatalogExecutable b => path_eqb a b
  | CatalogExecutableName a, CatalogExecutableName b => bytes_eqb a b
  | _, _ => false
  end.
Definition opt_path_eqb (a b : option bytes) : bool :=
  match a, b with Some a, Some b => path_eqb a b | None, None => true | _, _ => false end.
Definition launch_eqb (a b : CatalogLaunch) : bool :=
  path_eqb (cl_executable a) (cl_executable b) && bool_decide (cl_arguments a = cl_arguments b)
  && opt_path_eqb (cl_working_directory a) (cl_working_directory b).
Definition contains_rule (rules : list CatalogRule) (r : CatalogRule) : bool := existsb (rule_eqb r) rules.

(** * Checks *)
Notation check := (outcome string unit).
Definition validate_display_name (name : bytes) : check :=
  if bytes_eqb (trim name) [] || (MAX_DISPLAY_NAME_BYTES <? zlen name) || any_control name
  then Err "game name must be plain text between 1 and 256 bytes"%string else Ok tt.
Definition validate_path (path : bytes) : check :=
  if negb (is_absolute path) || bytes_eqb path [] || (MAX_GAME_PATH_BYTES <? zlen path) || existsb (Z.eqb 0) path
  then Err "must be an absolute path no longer than 4096 bytes"%string else Ok tt.
Fixpoint validate_each_argument (arguments : list bytes) (total : Z) : outcome string Z :=
  match arguments with
  | [] => Ok total
  | argument :: arguments =>
      if (MAX_ARGUMENT_BYTES <? zlen argument) || existsb (Z.eqb 0) argument
      then Err "a game launch argument is invalid or too large"%string
      else validate_each_argument arguments (sat_add U64_MAX total (zlen argument))
  end.
Definition validate_arguments (arguments : list bytes) : check :=
  if MAX_ARGUMENTS <? zlen arguments then Err "the game has too many launch arguments"%string
  else
    total ← validate_each_argument arguments 0;
    if MAX_TOTAL_ARGUMENT_BYTES <? total then Err "the combined game launch arguments are too large"%string else Ok tt.
Definition validate_match_rule (rule : CatalogRule) : check :=
  match rule with
  | CatalogSteamAppId app_id => if app_id =? 0 then Err "a Steam app identifier must be greater than zero"%string else Ok tt
  | CatalogExecutable path => validate_path path
  | CatalogExecutableName name =>
      if bytes_eqb name [] || (MAX_EXECUTABLE_NAME_BYTES <? zlen name) || existsb (Z.eqb 47) name || any_control name
      then Err "an executable-name alias must be plain text between 1 and 256 bytes"%string else Ok tt
  end.
Definition match_rule_bytes (rule : CatalogRule) : Z :=
  match rule with
  | CatalogSteamAppId _ => 4
  | CatalogExecutable path => zlen path
  | CatalogExecutableName name => zlen name
  end.
(** [earlier] are the rules before, the last one first. *)
Fixpoint validate_each_rule (rules earlier : list CatalogRule) (total : Z) : outcome string Z :=
  match rules with
  | [] => Ok total
  | rule :: rules =>
      _ ← validate_match_rule rule;
      if contains_rule earlier rule then Err "the game contains duplicate local match rules"%string
      else validate_each_rule rules (rule :: earlier) (sat_add U64_MAX total (match_rule_bytes rule))
  end.
Definition validate_match_rules (rules : list CatalogRule) : check :=
  if (zlen rules =? 0) || (MAX_MATCH_RULES <? zlen rules) then Err "a game must have between 1 and 32 local match rules"%string
  else
    total ← validate_each_rule rules [] 0;
    if MAX_TOTAL_MATCH_RULE_BYTES <? total then Err "the combined local match rules are too large"%string else Ok tt.
Fixpoint normalize_each (rules normalized : list CatalogRule) : outcome string (list CatalogRule) :=
  match rules with
  | [] => Ok normalized
  | rule :: rules =>
      _ ← validate_match_rule rule;
      normalize_each rules (if contains_rule normalized rule then normalized else normalized ++ [rule])
  end.
Definition normalize_match_rules (rules : list CatalogRule) : outcome string (list CatalogRule) :=
  if MAX_MATCH_RULES + 2 <? zlen rules then Err "the game has too many local match rules"%string
  else
    normalized ← normalize_each rules [];
    _ ← validate_match_rules normalized;
    Ok normalized.
Definition match_rules_for (executable : bytes) : list CatalogRule :=
  CatalogExecutable executable ::
  match path_file_name executable with
  | Some name => if utf8_valid name then [CatalogExecutableName name] else []
  | None => []
  end.

(** ** Identities *)
Inductive StrongIdentity := StrongSteam (app_id : Z) | StrongExecutable (path : bytes).
Definition identity_eqb (a b : StrongIdentity) : bool :=
  match a, b with
  | StrongSteam a, StrongSteam b => a =? b
  | StrongExecutable a, StrongExecutable b => path_eqb a b
  | _, _ => false
  end.
Definition strong_identities (rules : list CatalogRule) : list StrongIdentity :=
  omap (fun rule => match rule with
    | CatalogSteamAppId app_id => Some (StrongSteam app_id)
    | CatalogExecutable path => Some (StrongExecutable path)
    | CatalogExecutableName _ => None
    end) rules.
Definition in_identities (set : list StrongIdentity) (i : StrongIdentity) : bool := existsb (identity_eqb i) set.
(** [insert] one after another; the set, and whether one was there already. *)
Fixpoint insert_each (new set : list StrongIdentity) : list StrongIdentity * bool :=
  match new with
  | [] => (set, false)
  | i :: new => if in_identities set i then (set, true) else insert_each new (i :: set)
  end.
Definition executables (rules : list CatalogRule) : list StrongIdentity :=
  List.filter (fun i => match i with StrongExecutable _ => true | StrongSteam _ => false end) (strong_identities rules).
Fixpoint validate_games (games : list CatalogGame) (ids : list Z) (identities : list StrongIdentity) : check :=
  match games with
  | [] => Ok tt
  | game :: games =>
      let '(identities, duplicate) := insert_each (executables (cg_match_rules game)) identities in
      if existsb (Z.eqb (cg_id game)) ids || duplicate then Err "the local game catalog contains duplicate identities"%string
      else
        _ ← validate_display_name (cg_display_name game);
        _ ← validate_path (cl_executable (cg_launch game));
        _ ← validate_arguments (cl_arguments (cg_launch game));
        _ ← validate_match_rules (cg_match_rules game);
        _ ← match cl_working_directory (cg_launch game) with Some directory => validate_path directory | None => Ok tt end;
        validate_games games (cg_id game :: ids) identities
  end.
Definition validate_stored (s : StoredCatalog) : check :=
  if MAX_GAMES <? zlen (sc_games s) then Err "the local game catalog is too large"%string
  else
    _ ← validate_games (sc_games s) [] [];
    if existsb (fun game => next_id s <=? cg_id game) (sc_games s)
    then Err "the local game catalog next identifier is invalid"%string else Ok tt.

(** * The text *)
Definition catalog_header (version : Z) : bytes := ascii_bytes "redunar-games-v" ++ to_decimal version.
Definition overlay_preset_token (v : OverlayPreset) : bytes :=
  ascii_bytes match v with Compact => "compact" | FpsOnly => "fps-only" | Detailed => "detailed" | CustomPreset => "custom" end.
Definition overlay_layout_token (v : OverlayLayout) : bytes :=
  ascii_bytes match v with Grid => "grid" | Ribbon => "ribbon" | Telemetry => "telemetry" end.
Definition overlay_palette_token (v : OverlayPalette) : bytes :=
  ascii_bytes match v with
    | Redunar => "redunar" | Glacier => "glacier" | Ember => "ember" | Mint => "mint"
    | Mono => "mono" | Amethyst => "amethyst" | Solar => "solar" | Rose => "rose" end.
Definition overlay_corner_token (v : OverlayCorner) : bytes :=
  ascii_bytes match v with TopLeft => "top-left" | TopRight => "top-right" | BottomLeft => "bottom-left" | BottomRight => "bottom-right" end.
Definition replay_duration_token (v : ReplayDuration) : bytes := to_decimal (duration_seconds v).
Definition replay_frame_rate_token (v : ReplayFrameRate) : bytes := ascii_bytes match v with Fps60 => "60" | Variable_ => "variable" end.
Definition replay_quality_token (v : ReplayQuality) : bytes :=
  ascii_bytes match v with Efficient => "efficient" | Balanced => "balanced" | High => "high" end.
Definition replay_storage_token (v : ReplayStorageLimit) : bytes := ascii_bytes "unlimited".
Definition catalog_bool_token (b : bool) : bytes := if b then [49] else [48].
Definition inheritable_token (v : Inheritable bool) : bytes :=
  match v with InheritGlobal => ascii_bytes "i" | Custom b => catalog_bool_token b end.

(** A [match] on the text of a token. *)
Fixpoint token_of {A} (table : list (string * A)) (error : string) (v : bytes) : outcome string A :=
  match table with
  | [] => Err error
  | (name, a) :: table => if bytes_eqb v (ascii_bytes name) then Ok a else token_of table error v
  end.
Definition parse_overlay_preset : bytes -> outcome string OverlayPreset :=
  token_of [("compact", Compact); ("fps-only", FpsOnly); ("detailed", Detailed); ("custom", CustomPreset)]%string "catalog overlay preset is invalid".
Definition parse_overlay_layout : bytes -> outcome string OverlayLayout :=
  token_of [("grid", Grid); ("ribbon", Ribbon); ("telemetry", Telemetry)]%string "catalog overlay layout is invalid".
Definition parse_overlay_palette : bytes -> outcome string OverlayPalette :=
  token_of [("redunar", Redunar); ("glacier", Glacier); ("ember", Ember); ("mint", Mint);
            ("mono", Mono); ("amethyst", Amethyst); ("solar", Solar); ("rose", Rose)]%string "catalog overlay palette is invalid".
Definition parse_overlay_corner : bytes -> outcome string OverlayCorner :=
  token_of [("top-left", TopLeft); ("top-right", TopRight); ("bottom-left", BottomLeft); ("bottom-right", BottomRight)]%string
    "catalog overlay corner is invalid".
Definition parse_replay_duration : bytes -> outcome string ReplayDuration :=
  token_of [("15", Seconds15); ("30", Seconds30); ("60", Seconds60); ("120", Seconds120);
            ("180", Seconds180); ("300", Seconds300); ("600", Seconds600); ("900", Seconds900)]%string "catalog replay duration is invalid".
Definition parse_replay_frame_rate : bytes -> outcome string ReplayFrameRate :=
  token_of [("30", Fps60); ("60", Fps60); ("120", Fps60); ("adaptive", Fps60); ("variable", Variable_)]%string "catalog replay frame rate is invalid".
Definition parse_replay_quality : bytes -> outcome string ReplayQuality :=
  token_of [("efficient", Efficient); ("balanced", Balanced); ("high", High)]%string "catalog replay quality is invalid".
Definition parse_replay_storage : bytes -> outcome string ReplayStorageLimit :=
  token_of [("5", Unlimited); ("10", Unlimited); ("25", Unlimited); ("50", Unlimited); ("unlimited", Unlimited)]%string
    "catalog replay storage limit is invalid".
Definition parse_catalog_bool : bytes -> outcome string bool := token_of [("0", false); ("1", true)]%string "catalog boolean is invalid".
Definition parse_inheritable : bytes -> outcome string (Inheritable bool) :=
  token_of [("i", InheritGlobal); ("0", Custom false); ("1", Custom true)]%string "catalog inherited profile value is invalid".

Definition catalog_hex_digit (v : Z) : outcome string Z :=
  if (48 <=? v) && (v <=? 57) then Ok (v - 48)
  else if (97 <=? v) && (v <=? 102) then Ok (v - 97 + 10)
  else Err "catalog hexadecimal value is invalid"%string.
Fixpoint catalog_unhex_pairs (v : bytes) : outcome string bytes :=
  match v with
  | a :: b :: rest =>
      high ← catalog_hex_digit a; low ← catalog_hex_digit b;
      bs ← catalog_unhex_pairs rest;
      Ok (Z.lor (Z.shiftl high 4) low :: bs)
  | _ => Ok []
  end.
Definition catalog_unhex (v : bytes) : outcome string bytes :=
  if negb (Nat.even (length v)) then Err "catalog hexadecimal value is invalid"%string else catalog_unhex_pairs v.
Definition unhex_text (v : bytes) (error : string) : outcome string bytes :=
  bs ← catalog_unhex v; if utf8_valid bs then Ok bs else Err error.

(** [join] with a separator. *)
Fixpoint join (separator : Z) (fields : list bytes) : bytes :=
  match fields with
  | [] => []
  | [f] => f
  | f :: fields => f ++ separator :: join separator fields
  end.
Definition serialize_match_rule (rule : CatalogRule) : bytes :=
  match rule with
  | CatalogSteamAppId app_id => ascii_bytes "s:" ++ to_decimal app_id
  | CatalogExecutable path => ascii_bytes "p:" ++ hex path
  | CatalogExecutableName name => ascii_bytes "n:" ++ hex name
  end.
Definition serialize_match_rules (rules : list CatalogRule) : bytes := join 44 (map serialize_match_rule rules).
Definition global_fields (g : GlobalGameProfile) : list bytes :=
  [ascii_bytes "global"; catalog_bool_token (g_capture_metrics g); catalog_bool_token (g_overlay_visible g);
   overlay_preset_token (g_overlay_preset g); to_decimal (metric_bits (g_overlay_metrics g)); overlay_corner_token (g_overlay_corner g);
   to_decimal (opacity_percent (g_overlay_opacity g)); to_decimal (scale_percent (g_overlay_scale g)); overlay_layout_token (g_overlay_layout g);
   overlay_palette_token (g_overlay_palette g); catalog_bool_token (g_gamescope_enabled g); catalog_bool_token (g_gamemode_enabled g);
   replay_duration_token (duration (g_replay g)); replay_frame_rate_token (frame_rate (g_replay g)); replay_quality_token (quality (g_replay g));
   replay_storage_token (storage_limit (g_replay g)); catalog_bool_token (g_instant_replay g); catalog_bool_token (g_overlay_branding g)].
Definition working_directory_token (directory : option bytes) : bytes := match directory with Some d => hex d | None => [45] end.
Definition arguments_token (arguments : list bytes) : bytes := match arguments with [] => [45] | _ => join 44 (map hex arguments) end.
Definition game_fields (g : CatalogGame) : list bytes :=
  [ascii_bytes "game"; to_decimal (cg_id g); hex (cg_display_name g); hex (cl_executable (cg_launch g));
   working_directory_token (cl_working_directory (cg_launch g)); arguments_token (cl_arguments (cg_launch g));
   inheritable_token (capture_metrics (cg_profile g)); inheritable_token (overlay_visible (cg_profile g));
   inheritable_token (instant_replay (cg_profile g)); serialize_match_rules (cg_match_rules g)].
Definition text_line (l : bytes) : bytes := l ++ [10].
Definition catalog_serialize (s : StoredCatalog) : bytes :=
  text_line (catalog_header 12) ++ text_line (join 9 [ascii_bytes "next"; to_decimal (next_id s)])
  ++ text_line (join 9 (global_fields (sc_global_profile s)))
  ++ (g ← sc_games s; text_line (join 9 (game_fields g))).

(** ** Reading *)
(** [fields[i]]: panics out of range. *)
Definition at_field (fields : list bytes) (i : nat) : outcome string bytes := expect (fields !! i).
(** [usize::from(version >= n)]. *)
Definition after (version n : Z) : nat := if n <=? version then 1 else 0.
(** A field that a version has, and otherwise its default. *)
Definition since {A} (version since : Z) (absent : A) (m : outcome string A) : outcome string A := if version <? since then Ok absent else m.
Definition global_field_count (version : Z) : nat :=
  if 12 <=? version then 18 else if 11 <=? version then 17 else if 10 <=? version then 15 else if 9 <=? version then 16
  else if 8 <=? version then 15 else if 7 <=? version then 14 else if 6 <=? version then 13 else if 5 <=? version then 9
  else if 4 <=? version then 8 else 4 + after version 3.
Definition replay_shift (version : Z) : nat := after version 7 + after version 8 + after version 9 + 2 * after version 11.
Definition instant_index (version : Z) : nat :=
  if 6 <=? version then 11 + replay_shift version else if 4 <=? version then after version 5 + 6 else 2 + after version 3.
Definition parse_global_profile (line : bytes) (version : Z) : outcome string GlobalGameProfile :=
  let fields := split_on (Z.eqb 9) line in
  if negb (length fields =? global_field_count version)%nat || negb (bool_decide (fields !! 0%nat = Some (ascii_bytes "global")))
  then Err "catalog global profile is malformed"%string
  else
    let f := at_field fields in
    let shift := replay_shift version in
    capture ← (x ← f 1%nat; parse_catalog_bool x);
    visible ← since version 3 false (x ← f 2%nat; parse_catalog_bool x);
    preset ← since version 4 Compact (x ← f 3%nat; parse_overlay_preset x);
    metrics ← since version 5 METRICS_COMPACT (x ← f 4%nat; ok_or (bits ← from_str_radix U16_MAX 10 x;
                match OverlayMetricSet_from_bits bits with Ok m => Some m | _ => None end) "catalog overlay metrics are invalid"%string);
    corner ← since version 4 TopLeft (x ← f (after version 5 + 4)%nat; parse_overlay_corner x);
    opacity ← since version 4 OverlayOpacity_default (x ← f (after version 5 + 5)%nat; ok_or (v ← from_str_radix U8_MAX 10 x;
                match OverlayOpacity_new v with Ok o => Some o | _ => None end) "catalog overlay opacity is invalid"%string);
    scale ← since version 7 OverlayScale_default (x ← f 7%nat; ok_or (v ← from_str_radix U8_MAX 10 x; OverlayScale_new v) "catalog overlay scale is invalid"%string);
    layout ← since version 11 Grid (x ← f 8%nat; parse_overlay_layout x);
    palette ← since version 11 Redunar (x ← f 9%nat; parse_overlay_palette x);
    branding ← since version 12 true (x ← f 17%nat; parse_catalog_bool x);
    gamescope ← since version 8 false (x ← f (8 + 2 * after version 11)%nat; parse_catalog_bool x);
    gamemode ← since version 9 false (x ← f (9 + 2 * after version 11)%nat; parse_catalog_bool x);
    replay ← since version 6 ReplaySettings_default
      (d ← (x ← f (7 + shift)%nat; parse_replay_duration x);
       r ← (x ← f (8 + shift)%nat; parse_replay_frame_rate x);
       q ← (x ← f (9 + shift)%nat; parse_replay_quality x);
       l ← (x ← f (10 + shift)%nat; parse_replay_storage x);
       Ok {| duration := d; frame_rate := r; quality := q; storage_limit := l |});
    instant ← (x ← f (instant_index version); parse_catalog_bool x);
    Ok {| g_capture_metrics := capture; g_overlay_visible := visible; g_overlay_preset := preset; g_overlay_layout := layout;
          g_overlay_palette := palette; g_overlay_branding := branding; g_overlay_metrics := metrics; g_overlay_corner := corner;
          g_overlay_opacity := opacity; g_overlay_scale := scale; g_gamescope_enabled := gamescope; g_gamemode_enabled := gamemode;
          g_replay := replay; g_instant_replay := instant |}.

(** [map] with a fallible function, collected. *)
Fixpoint collect_all {A B} (f : A -> outcome string B) (l : list A) : outcome string (list B) :=
  match l with
  | [] => Ok []
  | x :: l => y ← f x; ys ← collect_all f l; Ok (y :: ys)
  end.
Definition parse_match_rule (value : bytes) : outcome string CatalogRule :=
  '(kind, payload) ← ok_or (split_once 58 value) "catalog game match rule is malformed"%string;
  if bytes_eqb kind (ascii_bytes "s") then
    app_id ← ok_or (from_str_radix U32_MAX 10 payload) "catalog Steam app id is invalid"%string; Ok (CatalogSteamAppId app_id)
  else if bytes_eqb kind (ascii_bytes "p") then path ← catalog_unhex payload; Ok (CatalogExecutable path)
  else if bytes_eqb kind (ascii_bytes "n") then
    name ← unhex_text payload "catalog executable-name alias is not UTF-8"; Ok (CatalogExecutableName name)
  else Err "catalog game match rule is unknown"%string.
Definition parse_match_rules (value : bytes) : outcome string (list CatalogRule) :=
  let encoded := split_on (Z.eqb 44) value in
  if MAX_MATCH_RULES <? zlen encoded then Err "catalog game has too many local match rules"%string
  else
    rules ← collect_all parse_match_rule encoded;
    _ ← validate_match_rules rules;
    Ok rules.
Definition game_field_count (version : Z) : nat := if version =? 1 then 9 else if (3 <=? version) && (version <=? 9) then 11 else 10.
Definition rules_index (version : Z) : nat := if 10 <=? version then 8 + after version 3 else 9 + after version 3.
Definition parse_game (line : bytes) (version : Z) : outcome string CatalogGame :=
  let fields := split_on (Z.eqb 9) line in
  let offset := after version 3 in
  if negb (length fields =? game_field_count version)%nat || negb (bool_decide (fields !! 0%nat = Some (ascii_bytes "game")))
  then Err "catalog game entry is malformed"%string
  else
    let f := at_field fields in
    id ← (x ← f 1%nat; ok_or (v ← from_str_radix U64_MAX 10 x; match GameId_new v with Ok i => Some (game_id_value i) | _ => None end) "catalog game id is invalid"%string);
    name ← (x ← f 2%nat; unhex_text x "catalog game name is not UTF-8");
    executable ← (x ← f 3%nat; catalog_unhex x);
    directory ← (x ← f 4%nat; if bytes_eqb x [45] then Ok None else d ← catalog_unhex x; Ok (Some d));
    arguments ← (x ← f 5%nat; if bytes_eqb x [45] then Ok [] else collect_all catalog_unhex (split_on (Z.eqb 44) x));
    capture ← (x ← f 6%nat; parse_inheritable x);
    visible ← since version 3 InheritGlobal (x ← f 7%nat; parse_inheritable x);
    instant ← (x ← f (7 + offset)%nat; parse_inheritable x);
    rules ← (if version =? 1 then Ok (match_rules_for executable)
             else x ← f (rules_index version); parse_match_rules x);
    Ok {| cg_id := id; cg_display_name := name; cg_match_rules := rules;
          cg_launch := {| cl_executable := executable; cl_arguments := arguments; cl_working_directory := directory |};
          cg_profile := {| capture_metrics := capture; overlay_visible := visible; instant_replay := instant |} |}.

Fixpoint version_of (versions : list Z) (header : option bytes) : outcome string Z :=
  match versions with
  | [] => Err "catalog header or version is invalid"%string
  | v :: versions => if bool_decide (header = Some (catalog_header v)) then Ok v else version_of versions header
  end.
Definition parse_next (next : option bytes) : outcome string Z :=
  next ← ok_or next "catalog next identifier is missing"%string;
  match split_on (Z.eqb 9) next with
  | [name; value] =>
      if negb (bytes_eqb name (ascii_bytes "next")) then Err "catalog next identifier is malformed"%string
      else
        ok_or (v ← from_str_radix U64_MAX 10 value; if 0 <? v then Some v else None) "catalog next identifier is invalid"%string
  | _ => Err "catalog next identifier is malformed"%string
  end.
Fixpoint parse_games (version : Z) (ls : list bytes) : outcome string (list CatalogGame) :=
  match ls with
  | [] => Ok []
  | line :: ls =>
      if bytes_eqb line [] then parse_games version ls
      else game ← parse_game line version; games ← parse_games version ls; Ok (game :: games)
  end.
Definition catalog_parse (contents : bytes) : outcome string StoredCatalog :=
  let '(header, ls) := next (lines contents) in
  version ← version_of [1; 2; 3; 4; 5; 6; 7; 8; 9; 10; 11; 12] header;
  let '(line, ls) := next ls in
  next_id ← parse_next line;
  let '(line, ls) := next ls in
  global ← (line ← ok_or line "catalog global profile is missing"%string; parse_global_profile line version);
  games ← parse_games version ls;
  let s := {| sc_global_profile := global; sc_games := games; next_id := next_id |} in
  _ ← validate_stored s;
  Ok s.

(** * The file *)
Inductive CatalogError :=
| CouldNotReadCatalog
| CouldNotLoadCatalog (reason : string)
| CouldNotSaveCatalog
| CatalogRejected (reason : string).
Notation reject reason := (Err (CatalogRejected reason%string)).
Definition rejected {A} (m : outcome string A) : outcome CatalogError A := map_err CatalogRejected m.

Definition load_stored (f : pref_entry) : outcome CatalogError StoredCatalog :=
  match f with
  | NotFound => Ok StoredCatalog_default
  | Unreadable => Err CouldNotReadCatalog
  | Special => Err (CouldNotLoadCatalog "state is not a regular file")
  | Regular contents =>
      if MAX_CATALOG_BYTES <? zlen contents then Err (CouldNotLoadCatalog "state exceeds 1048576 bytes")
      else if utf8_valid contents then map_err CouldNotLoadCatalog (catalog_parse contents)
      else Err CouldNotReadCatalog
  end.
Definition catalog_save (io : save_io) (s : StoredCatalog) : st pref_entry CatalogError unit := fun f =>
  match rejected (validate_stored s) with
  | Ok _ =>
      if MAX_CATALOG_BYTES <? zlen (catalog_serialize s) then (f, reject "the local game catalog is too large")
      else if negb (created io) || negb (made_private io) then (f, Err CouldNotSaveCatalog)
      else match atomic_replace 32 (attempts io) 0 (catalog_serialize s) f with
           | (f, true) => (f, Ok tt)
           | (f, false) => (f, Err CouldNotSaveCatalog)
           end
  | Err e => (f, Err e)
  | Panic => (f, Panic)
  end.

(** * Requests *)
Inductive LaunchIdentity := DirectExecutable | ExternalLauncher.
Record AddGameRequest := { rq_display_name : bytes; rq_launch : CatalogLaunch; rq_match_rules : list CatalogRule; rq_identity : LaunchIdentity }.
(** What the file system says of a path: whether it is a regular file that can be
    executed, whether it is a directory, and its canonical path. *)
Record Host := {
  executable_file : bytes -> option bool;
  directory_at : bytes -> option bool;
  canonicalize : bytes -> option bytes;
}.
Section Operations.
Context (host : Host).

Definition normalize_directory (directory : option bytes) : outcome CatalogError (option bytes) :=
  match directory with
  | None => Ok None
  | Some directory =>
      _ ← rejected (validate_path directory);
      is_dir ← ok_or (directory_at host directory) (CatalogRejected "could not inspect the game working directory");
      if negb is_dir then reject "the game working directory is not a directory"
      else
        d ← ok_or (canonicalize host directory) (CatalogRejected "could not resolve the game working directory");
        Ok (Some d)
  end.
Definition normalize_request (r : AddGameRequest) : outcome CatalogError AddGameRequest :=
  _ ← rejected (validate_display_name (rq_display_name r));
  _ ← rejected (validate_arguments (cl_arguments (rq_launch r)));
  _ ← rejected (validate_path (cl_executable (rq_launch r)));
  is_executable ← ok_or (executable_file host (cl_executable (rq_launch r))) (CatalogRejected "could not inspect the game executable");
  if negb is_executable then reject "the selected game must be an executable regular file"
  else
    executable ← ok_or (canonicalize host (cl_executable (rq_launch r))) (CatalogRejected "could not resolve the game executable");
    rules ← rejected (normalize_match_rules
      (match rq_identity r with DirectExecutable => match_rules_for executable | ExternalLauncher => [] end ++ rq_match_rules r));
    directory ← normalize_directory (cl_working_directory (rq_launch r));
    Ok {| rq_display_name := rq_display_name r;
          rq_launch := {| cl_executable := executable; cl_arguments := cl_arguments (rq_launch r); cl_working_directory := directory |};
          rq_match_rules := rules; rq_identity := rq_identity r |}.
Fixpoint normalize_requests (rs : list AddGameRequest) : outcome CatalogError (list AddGameRequest) :=
  match rs with
  | [] => Ok []
  | r :: rs => r ← normalize_request r; rs ← normalize_requests rs; Ok (r :: rs)
  end.
Definition requests_conflict_with_catalog (games : list CatalogGame) (rs : list AddGameRequest) : bool :=
  let existing := games ≫= (fun g => strong_identities (cg_match_rules g)) in
  existsb (fun r => existsb (in_identities existing) (strong_identities (rq_match_rules r))) rs.
Fixpoint duplicate_identities (rs : list AddGameRequest) (set : list StrongIdentity) : bool :=
  match rs with
  | [] => false
  | r :: rs =>
      let '(set, duplicate) := insert_each (strong_identities (rq_match_rules r)) set in
      duplicate || duplicate_identities rs set
  end.
Definition requests_have_duplicate_identities (rs : list AddGameRequest) : bool := duplicate_identities rs [].

(** * Operations, each under the process-wide lock *)
Definition with_stored {A} (change : StoredCatalog -> outcome CatalogError (StoredCatalog * A)) (io : save_io) : st pref_entry CatalogError A := fun f =>
  match s ← load_stored f; change s with
  | Ok (s, a) => match catalog_save io s f with (f, r) => (f, _ ← r; Ok a) end
  | Err e => (f, Err e)
  | Panic => (f, Panic)
  end.
Definition with_games (games : list CatalogGame) (s : StoredCatalog) : StoredCatalog :=
  {| sc_global_profile := sc_global_profile s; sc_games := games; next_id := next_id s |}.
Definition with_global (g : GlobalGameProfile) (s : StoredCatalog) : StoredCatalog :=
  {| sc_global_profile := g; sc_games := sc_games s; next_id := next_id s |}.
(** A fresh identifier for a request. *)
Definition new_game (next_id : Z) (r : AddGameRequest) : outcome CatalogError (CatalogGame * Z) :=
  if next_id =? 0 then reject "could not allocate a local game identifier"
  else
    next ← ok_or (checked_add U64_MAX next_id 1) (CatalogRejected "the local game identifier space is exhausted");
    Ok ({| cg_id := next_id; cg_display_name := rq_display_name r; cg_match_rules := rq_match_rules r; cg_launch := rq_launch r;
           cg_profile := PerGameProfile_default |}, next).
Fixpoint new_games (next_id : Z) (rs : list AddGameRequest) : outcome CatalogError (list CatalogGame * Z) :=
  match rs with
  | [] => Ok ([], next_id)
  | r :: rs =>
      '(game, next_id) ← new_game next_id r;
      '(games, next_id) ← new_games next_id rs;
      Ok (game :: games, next_id)
  end.
Definition catalog_add (request : AddGameRequest) : save_io -> st pref_entry CatalogError CatalogGame :=
  with_stored (fun s =>
    if MAX_GAMES <=? zlen (sc_games s) then reject "the local game catalog is full"
    else
      request ← normalize_request request;
      if requests_conflict_with_catalog (sc_games s) [request] then reject "this game identity already belongs to a local game"
      else
        '(game, next) ← new_game (next_id s) request;
        Ok ({| sc_global_profile := sc_global_profile s; sc_games := sc_games s ++ [game]; next_id := next |}, game)).
Definition catalog_import (requests : list AddGameRequest) (io : save_io) : st pref_entry CatalogError (list CatalogGame) :=
  if (zlen requests =? 0) || (MAX_IMPORT_GAMES <? zlen requests)
  then lift (reject "a game import must contain between 1 and 64 entries")
  else with_stored (fun s =>
    if MAX_GAMES <? sat_add U64_MAX (zlen (sc_games s)) (zlen requests) then reject "the game import would exceed the local catalog limit"
    else
      requests ← normalize_requests requests;
      if requests_conflict_with_catalog (sc_games s) requests || requests_have_duplicate_identities requests
      then reject "the game import contains an identity already in the catalog or batch"
      else
        '(imported, next) ← new_games (next_id s) requests;
        Ok ({| sc_global_profile := sc_global_profile s; sc_games := sc_games s ++ imported; next_id := next |}, imported)) io.

Definition find_game (games : list CatalogGame) (id : Z) : outcome CatalogError CatalogGame :=
  ok_or (List.find (fun g => cg_id g =? id) games) (CatalogRejected "the selected game no longer exists").
(** [iter_mut().find]: the first one with the identifier is changed. *)
Fixpoint change_game (change : CatalogGame -> CatalogGame) (id : Z) (games : list CatalogGame) : list CatalogGame :=
  match games with
  | [] => []
  | g :: games => if cg_id g =? id then change g :: games else g :: change_game change id games
  end.
Definition set_launch (launch : CatalogLaunch) (rules : list CatalogRule) (g : CatalogGame) : CatalogGame := {|
  cg_id := cg_id g; cg_display_name := cg_display_name g; cg_match_rules := rules; cg_launch := launch; cg_profile := cg_profile g |}.
Definition set_profile (profile : PerGameProfile) (g : CatalogGame) : CatalogGame := {|
  cg_id := cg_id g; cg_display_name := cg_display_name g; cg_match_rules := cg_match_rules g; cg_launch := cg_launch g; cg_profile := profile |}.
(** A game that was added with its executable keeps one of its rules for it. *)
Definition launch_identity (g : CatalogGame) : LaunchIdentity :=
  if existsb (fun r => match r with CatalogExecutable path => path_eqb path (cl_executable (cg_launch g)) | _ => false end) (cg_match_rules g)
  then DirectExecutable else ExternalLauncher.
Definition catalog_update_launch (id : Z) (launch : CatalogLaunch) : save_io -> st pref_entry CatalogError CatalogGame :=
  with_stored (fun s =>
    game ← find_game (sc_games s) id;
    normalized ← normalize_request {| rq_display_name := cg_display_name game; rq_launch := launch; rq_match_rules := cg_match_rules game;
                                      rq_identity := launch_identity game |};
    let others := List.filter (fun g => negb (cg_id g =? id)) (sc_games s) in
    if requests_conflict_with_catalog others [normalized] then reject "this game identity already belongs to a different local game"
    else
      let change := set_launch (rq_launch normalized) (rq_match_rules normalized) in
      Ok (with_games (change_game change id (sc_games s)) s, change game)).
Definition catalog_update_profile (id : Z) (profile : PerGameProfile) : save_io -> st pref_entry CatalogError CatalogGame :=
  with_stored (fun s =>
    game ← find_game (sc_games s) id;
    Ok (with_games (change_game (set_profile profile) id (sc_games s)) s, set_profile profile game)).
Fixpoint remove_first (id : Z) (games : list CatalogGame) : list CatalogGame :=
  match games with
  | [] => []
  | g :: games => if cg_id g =? id then games else g :: remove_first id games
  end.
Definition catalog_remove (id : Z) : save_io -> st pref_entry CatalogError CatalogGame :=
  with_stored (fun s =>
    game ← find_game (sc_games s) id;
    Ok (with_games (remove_first id (sc_games s)) s, game)).
Definition catalog_update_global_profile (profile : GlobalGameProfile) : save_io -> st pref_entry CatalogError StoredCatalog :=
  with_stored (fun s => let s := with_global profile s in Ok (s, s)).
Definition set_replay (settings : ReplaySettings) (g : GlobalGameProfile) : GlobalGameProfile := {|
  g_capture_metrics := g_capture_metrics g; g_overlay_visible := g_overlay_visible g; g_overlay_preset := g_overlay_preset g;
  g_overlay_layout := g_overlay_layout g; g_overlay_palette := g_overlay_palette g; g_overlay_branding := g_overlay_branding g;
  g_overlay_metrics := g_overlay_metrics g; g_overlay_corner := g_overlay_corner g; g_overlay_opacity := g_overlay_opacity g;
  g_overlay_scale := g_overlay_scale g; g_gamescope_enabled := g_gamescope_enabled g; g_gamemode_enabled := g_gamemode_enabled g;
  g_replay := settings; g_instant_replay := g_instant_replay g |}.
Definition catalog_update_global_replay_settings (settings : ReplaySettings) : save_io -> st pref_entry CatalogError StoredCatalog :=
  with_stored (fun s => let s := with_global (set_replay settings (sc_global_profile s)) s in Ok (s, s)).

(** ** The refresh after a discovery *)
Definition shares_identity (r : AddGameRequest) (g : CatalogGame) : bool :=
  existsb (in_identities (strong_identities (cg_match_rules g))) (strong_identities (rq_match_rules r)).
(** The positions of the games that share an identity with the request. *)
Fixpoint matching_games (r : AddGameRequest) (games : list CatalogGame) (index : nat) : list nat :=
  match games with
  | [] => []
  | g :: games => (if shares_identity r g then [index] else []) ++ matching_games r games (S index)
  end.
Fixpoint refresh_each (rs : list AddGameRequest) (games : list CatalogGame) (updated_ids : list Z) (updated : list CatalogGame)
    : outcome CatalogError (list CatalogGame * list CatalogGame) :=
  match rs with
  | [] => Ok (games, updated)
  | r :: rs =>
      match matching_games r games 0 with
      | [index] =>
          game ← expect (games !! index);
          if launch_eqb (cg_launch game) (rq_launch r) then refresh_each rs games updated_ids updated
          else if existsb (Z.eqb (cg_id game)) updated_ids then refresh_each rs games updated_ids updated
          else
            normalized ← normalize_request {| rq_display_name := cg_display_name game; rq_launch := rq_launch r;
                                              rq_match_rules := cg_match_rules game ++ rq_match_rules r; rq_identity := launch_identity game |};
            let game := set_launch (rq_launch normalized) (rq_match_rules normalized) game in
            refresh_each rs (<[index := game]> games) (cg_id game :: updated_ids) (updated ++ [game])
      | _ => refresh_each rs games updated_ids updated
      end
  end.
Definition refresh_discovered_launches (requests : list AddGameRequest) (io : save_io) : st pref_entry CatalogError (list CatalogGame) := fun f =>
  if MAX_GAMES <? zlen requests then (f, reject "the discovery refresh exceeds the local catalog limit")
  else
    match requests ← normalize_requests requests; s ← load_stored f; '(games, updated) ← refresh_each requests (sc_games s) [] []; Ok (s, games, updated) with
    | Ok (s, games, updated) =>
        if zlen updated =? 0 then (f, Ok updated)
        else
          let s := with_games games s in
          match rejected (validate_stored s) with
          | Ok _ => match catalog_save io s f with (f, r) => (f, _ ← r; Ok updated) end
          | Err e => (f, Err e)
          | Panic => (f, Panic)
          end
    | Err e => (f, Err e)
    | Panic => (f, Panic)
    end.
End Operations.

(** * The profile of a process *)
Record ResolvedCatalogGame := { resolution : GameResolution; effective_profile : option EffectiveGameProfile }.
Definition resolve_process (f : pref_entry) (process : GameProcess) : outcome CatalogError ResolvedCatalogGame :=
  s ← load_stored f;
  let resolution := resolve_game (map record_of (sc_games s)) process in
  Ok {| resolution := resolution;
        effective_profile :=
          match resolution with
          | Automatic id =>
              (fun g => profile_resolve (cg_profile g) (sc_global_profile s)) <$> List.find (fun g => cg_id g =? game_id_value id) (sc_games s)
          | _ => None
          end |}.
