(* ===== verification/CatalogFacts.v ===== *)
(** The catalog's text reads back, in each of its twelve versions. *)
From stdpp Require Import strings.
From S2P Require Import Prelude Bytes Text Profiles Paths Preferences PreferencesFacts Catalog.
Local Open Scope Z_scope.

(** * Values of their Rust types *)
Definition rule_typed (r : CatalogRule) : Prop :=
  match r with
  | CatalogSteamAppId app_id => 0 <= app_id <= U32_MAX
  | CatalogExecutable path => is_bytes path
  | CatalogExecutableName name => is_bytes name /\ utf8_valid name = true
  end.
Record launch_typed (l : CatalogLaunch) : Prop := {
  lt_executable : is_bytes (cl_executable l);
  lt_arguments : Forall is_bytes (cl_arguments l);
  lt_directory : forall d, cl_working_directory l = Some d -> is_bytes d;
}.
Record game_typed (g : CatalogGame) : Prop := {
  gt_id : 0 < cg_id g <= U64_MAX;
  gt_name : is_bytes (cg_display_name g) /\ utf8_valid (cg_display_name g) = true;
  gt_rules : Forall rule_typed (cg_match_rules g);
  gt_launch : launch_typed (cg_launch g);
}.
Record global_typed (g : GlobalGameProfile) : Prop := {
  gg_metrics : 0 <= metric_bits (g_overlay_metrics g) <= U16_MAX /\
    OverlayMetricSet_from_bits (metric_bits (g_overlay_metrics g)) = Ok (g_overlay_metrics g);
  gg_opacity : 0 <= opacity_percent (g_overlay_opacity g) <= 100;
  gg_scale : OverlayScale_new (scale_percent (g_overlay_scale g)) = Some (g_overlay_scale g);
}.
Record catalog_typed (s : StoredCatalog) : Prop := {
  ct_global : global_typed (sc_global_profile s);
  ct_games : Forall game_typed (sc_games s);
  ct_next : 0 < next_id s <= U64_MAX;
}.

(** * The text of each version *)
Definition only {A} (b : bool) (l : list A) : list A := if b then l else [].
(** [old]: a field that versions up to nine had and that is no longer read. *)
Definition global_fields_at (v : Z) (old : bytes) (g : GlobalGameProfile) : list bytes :=
  [ascii_bytes "global"; catalog_bool_token (g_capture_metrics g)]
  ++ only (3 <=? v) [catalog_bool_token (g_overlay_visible g)]
  ++ only (4 <=? v) [overlay_preset_token (g_overlay_preset g)]
  ++ only (5 <=? v) [to_decimal (metric_bits (g_overlay_metrics g))]
  ++ only (4 <=? v) [overlay_corner_token (g_overlay_corner g); to_decimal (opacity_percent (g_overlay_opacity g))]
  ++ only (7 <=? v) [to_decimal (scale_percent (g_overlay_scale g))]
  ++ only (11 <=? v) [overlay_layout_token (g_overlay_layout g); overlay_palette_token (g_overlay_palette g)]
  ++ only (8 <=? v) [catalog_bool_token (g_gamescope_enabled g)]
  ++ only (9 <=? v) [catalog_bool_token (g_gamemode_enabled g)]
  ++ only (6 <=? v) [replay_duration_token (duration (g_replay g)); replay_frame_rate_token (frame_rate (g_replay g));
                     replay_quality_token (quality (g_replay g)); replay_storage_token (storage_limit (g_replay g))]
  ++ [catalog_bool_token (g_instant_replay g)]
  ++ only (v <=? 9) [old] ++ only (12 <=? v) [catalog_bool_token (g_overlay_branding g)].
Definition game_fields_at (v : Z) (old : bytes) (g : CatalogGame) : list bytes :=
  [ascii_bytes "game"; to_decimal (cg_id g); hex (cg_display_name g); hex (cl_executable (cg_launch g));
   working_directory_token (cl_working_directory (cg_launch g)); arguments_token (cl_arguments (cg_launch g));
   inheritable_token (capture_metrics (cg_profile g))]
  ++ only (3 <=? v) [inheritable_token (overlay_visible (cg_profile g))]
  ++ [inheritable_token (instant_replay (cg_profile g))]
  ++ only (v <=? 9) [old] ++ only (2 <=? v) [serialize_match_rules (cg_match_rules g)].
Definition text_at (v : Z) (old : bytes) (s : StoredCatalog) : bytes :=
  text_line (catalog_header v) ++ text_line (join 9 [ascii_bytes "next"; to_decimal (next_id s)])
  ++ text_line (join 9 (global_fields_at v old (sc_global_profile s)))
  ++ (g ← sc_games s; text_line (join 9 (game_fields_at v old g))).
(** What a version keeps; the rest has its default. *)
Definition since_v {A} (v n : Z) (absent a : A) : A := if v <? n then absent else a.
Definition kept_global (v : Z) (g : GlobalGameProfile) : GlobalGameProfile := {|
  g_capture_metrics := g_capture_metrics g;
  g_overlay_visible := since_v v 3 false (g_overlay_visible g);
  g_overlay_preset := since_v v 4 Compact (g_overlay_preset g);
  g_overlay_layout := since_v v 11 Grid (g_overlay_layout g);
  g_overlay_palette := since_v v 11 Redunar (g_overlay_palette g);
  g_overlay_branding := since_v v 12 true (g_overlay_branding g);
  g_overlay_metrics := since_v v 5 METRICS_COMPACT (g_overlay_metrics g);
  g_overlay_corner := since_v v 4 TopLeft (g_overlay_corner g);
  g_overlay_opacity := since_v v 4 OverlayOpacity_default (g_overlay_opacity g);
  g_overlay_scale := since_v v 7 OverlayScale_default (g_overlay_scale g);
  g_gamescope_enabled := since_v v 8 false (g_gamescope_enabled g);
  g_gamemode_enabled := since_v v 9 false (g_gamemode_enabled g);
  g_replay := since_v v 6 ReplaySettings_default (g_replay g);
  g_instant_replay := g_instant_replay g |}.
Definition kept_game (v : Z) (g : CatalogGame) : CatalogGame := {|
  cg_id := cg_id g; cg_display_name := cg_display_name g;
  cg_match_rules := since_v v 2 (match_rules_for (cl_executable (cg_launch g))) (cg_match_rules g);
  cg_launch := cg_launch g;
  cg_profile := {| capture_metrics := capture_metrics (cg_profile g);
                   overlay_visible := since_v v 3 InheritGlobal (overlay_visible (cg_profile g));
                   instant_replay := instant_replay (cg_profile g) |} |}.
Definition kept_at (v : Z) (s : StoredCatalog) : StoredCatalog := {|
  sc_global_profile := kept_global v (sc_global_profile s); sc_games := map (kept_game v) (sc_games s); next_id := next_id s |}.

Lemma kept_now s : kept_at 12 s = s.
Proof.
  destruct s as [g games n]. unfold kept_at. cbn. f_equal; [by destruct g|]. rewrite <- (map_id games) at 2. apply map_ext. intros [i nm rules l [c o ir]]. done.
Qed.
Lemma catalog_serialize_text s old : catalog_serialize s = text_at 12 old s.
Proof. done. Qed.

(** * Fields *)
Definition field_ok (f : bytes) : Prop := Forall (fun b => b <> 9 /\ b <> 10 /\ b <> 13) f.
(** The characters of hexadecimal numbers, decimal numbers and lists of them. *)
Definition plain_char (b : Z) : Prop := 44 <= b <= 58 \/ 97 <= b <= 122.
Definition plain (w : bytes) : Prop := Forall plain_char w.
Lemma plain_field w : plain w -> field_ok w.
Proof. intros H. eapply Forall_impl; [exact H|]. unfold plain_char. cbn. intros. lia. Qed.
Lemma plain_check w : forallb (fun b => ((44 <=? b) && (b <=? 58)) || ((97 <=? b) && (b <=? 122))) w = true -> plain w.
Proof.
  intros H. apply Forall_forall. intros x Hx. rewrite forallb_forall in H. specialize (H x (proj1 (list_elem_of_In _ _) Hx)).
  unfold plain_char. lia.
Qed.
Lemma catalog_hex_chars bs : is_bytes bs -> Forall (fun b => 48 <= b <= 57 \/ 97 <= b <= 102) (hex bs).
Proof.
  induction 1 as [|b bs Hb _ IH]; [constructor|]. destruct (nibbles b Hb) as (H1 & H2 & _).
  change (hex (b :: bs)) with (lower_hex (Z.shiftr b 4) :: lower_hex (Z.land b 15) :: hex bs).
  assert (Hd : forall d, 0 <= d < 16 -> 48 <= lower_hex d <= 57 \/ 97 <= lower_hex d <= 102).
  { intros d Hd. unfold lower_hex. destruct (Z.ltb_spec d 10); lia. }
  constructor; [by apply Hd|]. constructor; [by apply Hd|done].
Qed.
Lemma hex_is_plain bs : is_bytes bs -> plain (hex bs).
Proof. intros H. eapply Forall_impl; [by apply catalog_hex_chars|]. unfold plain_char. cbn. intros. lia. Qed.
Lemma decimal_digits x : 0 <= x <= U64_MAX -> Forall (fun b => 48 <= b <= 57) (to_decimal x) /\ decimal_of (to_decimal x) x.
Proof. intros Hx. destruct (to_decimal_of x Hx) as [H _]. split; [|done]. by destruct H as (ds & _ & _ & _ & H). Qed.
Lemma decimal_is_plain x : 0 <= x <= U64_MAX -> plain (to_decimal x).
Proof. intros Hx. eapply Forall_impl; [by apply decimal_digits|]. unfold plain_char. cbn. intros. lia. Qed.

Lemma catalog_digit d : 0 <= d < 16 -> catalog_hex_digit (lower_hex d) = Ok d.
Proof.
  intros H. unfold catalog_hex_digit, lower_hex. destruct (Z.ltb_spec d 10).
  - rewrite (proj2 (Z.leb_le _ _)), (proj2 (Z.leb_le _ _)) by lia. cbn. f_equal. lia.
  - rewrite (proj2 (Z.leb_le 48 _)), (proj2 (Z.leb_gt _ _)) by lia. cbn. rewrite (proj2 (Z.leb_le _ _)), (proj2 (Z.leb_le _ _)) by lia. cbn. f_equal. lia.
Qed.
Lemma catalog_unhex_hex bs : is_bytes bs -> catalog_unhex (hex bs) = Ok bs.
Proof.
  intros H. unfold catalog_unhex. rewrite length_hex. replace (Nat.even (2 * length bs)) with true by (symmetry; apply Nat.even_spec; by exists (length bs)).
  cbn [negb]. induction H as [|b bs Hb _ IH]; [done|]. destruct (nibbles b Hb) as (H1 & H2 & H3).
  change (hex (b :: bs)) with (lower_hex (Z.shiftr b 4) :: lower_hex (Z.land b 15) :: hex bs). cbn [catalog_unhex_pairs].
  rewrite !catalog_digit by done. cbn [mbind outcome_bind]. rewrite IH. cbn [mbind outcome_bind]. by rewrite H3.
Qed.
Lemma unhex_text_hex bs e : is_bytes bs -> utf8_valid bs = true -> unhex_text (hex bs) e = Ok bs.
Proof. intros H Hu. unfold unhex_text. rewrite catalog_unhex_hex by done. cbn [mbind outcome_bind]. by rewrite Hu. Qed.

Lemma split_join sep fs : fs <> [] -> Forall (Forall (fun b => b <> sep)) fs -> split_on (Z.eqb sep) (join sep fs) = fs.
Proof.
  intros Hn H. assert (Hw : forall w, Forall (fun b => b <> sep) w -> Forall (fun c => Z.eqb sep c = false) w).
  { intros w Hw. eapply Forall_impl; [exact Hw|]. cbn. intros x Hx. apply Z.eqb_neq. congruence. }
  destruct fs as [|f fs]; [done|]. clear Hn. revert f H. induction fs as [|f' fs IH]; intros f H.
  - apply Forall_cons in H as [H _]. cbn [join]. apply split_on_none. by apply Hw.
  - apply Forall_cons in H as [H H']. change (join sep (f :: f' :: fs)) with (f ++ sep :: join sep (f' :: fs)).
    rewrite split_on_word; [|by apply Hw|apply Z.eqb_refl]. by rewrite IH.
Qed.
Lemma join_Forall (P : Z -> Prop) sep fs : P sep -> Forall (Forall P) fs -> Forall P (join sep fs).
Proof.
  intros Hs H. destruct fs as [|f fs]; [constructor|]. revert f H. induction fs as [|f' fs IH]; intros f H; apply Forall_cons in H as [H1 H2]; [done|].
  change (join sep (f :: f' :: fs)) with (f ++ sep :: join sep (f' :: fs)). apply Forall_app. split; [done|]. constructor; [done|]. by apply IH.
Qed.
Lemma join_clean fs : Forall field_ok fs -> clean (join 9 fs).
Proof. intros H. apply join_Forall; [lia|]. eapply Forall_impl; [exact H|]. intros f Hf. eapply Forall_impl; [exact Hf|]. cbn. intros. lia. Qed.
Lemma join_fields fs : fs <> [] -> Forall field_ok fs -> split_on (Z.eqb 9) (join 9 fs) = fs.
Proof.
  intros Hn H. apply split_join; [done|]. eapply Forall_impl; [exact H|]. intros f Hf. eapply Forall_impl; [exact Hf|]. cbn. intros. lia.
Qed.

(** ** Tokens *)
Ltac token_cases x := destruct x; (split; [vm_compute; reflexivity|apply plain_check; vm_compute; reflexivity]).
Lemma preset_reads v : parse_overlay_preset (overlay_preset_token v) = Ok v /\ plain (overlay_preset_token v).
Proof. token_cases v. Qed.
Lemma layout_reads v : parse_overlay_layout (overlay_layout_token v) = Ok v /\ plain (overlay_layout_token v).
Proof. token_cases v. Qed.
Lemma palette_reads v : parse_overlay_palette (overlay_palette_token v) = Ok v /\ plain (overlay_palette_token v).
Proof. token_cases v. Qed.
Lemma corner_reads v : parse_overlay_corner (overlay_corner_token v) = Ok v /\ plain (overlay_corner_token v).
Proof. token_cases v. Qed.
Lemma replay_duration_reads v : parse_replay_duration (replay_duration_token v) = Ok v /\ plain (replay_duration_token v).
Proof. token_cases v. Qed.
Lemma frame_rate_reads v : parse_replay_frame_rate (replay_frame_rate_token v) = Ok v /\ plain (replay_frame_rate_token v).
Proof. token_cases v. Qed.
Lemma quality_reads v : parse_replay_quality (replay_quality_token v) = Ok v /\ plain (replay_quality_token v).
Proof. token_cases v. Qed.
Lemma storage_reads v : parse_replay_storage (replay_storage_token v) = Ok v /\ plain (replay_storage_token v).
Proof. token_cases v. Qed.
Lemma catalog_bool_reads v : parse_catalog_bool (catalog_bool_token v) = Ok v /\ plain (catalog_bool_token v).
Proof. token_cases v. Qed.
Lemma inheritable_reads v : parse_inheritable (inheritable_token v) = Ok v /\ plain (inheritable_token v).
Proof. destruct v as [|[]]; (split; [vm_compute; reflexivity|apply plain_check; vm_compute; reflexivity]). Qed.

Lemma metrics_read m : 0 <= metric_bits m <= U16_MAX -> OverlayMetricSet_from_bits (metric_bits m) = Ok m ->
  (bits ← from_str_radix U16_MAX 10 (to_decimal (metric_bits m)); match OverlayMetricSet_from_bits bits with Ok m => Some m | _ => None end) = Some m.
Proof.
  intros Hr Hm. rewrite (from_decimal U16_MAX _ (metric_bits m)) by (done || (apply decimal_digits; unfold U16_MAX, U64_MAX in *; lia)).
  cbn [mbind option_bind]. by rewrite Hm.
Qed.
Lemma opacity_reads o : 0 <= opacity_percent o <= 100 ->
  (v ← from_str_radix U8_MAX 10 (to_decimal (opacity_percent o)); match OverlayOpacity_new v with Ok o => Some o | _ => None end) = Some o.
Proof.
  intros Hr. rewrite (from_decimal U8_MAX _ (opacity_percent o)) by ((unfold U8_MAX; lia) || (apply decimal_digits; unfold U64_MAX; lia)).
  cbn [mbind option_bind]. unfold OverlayOpacity_new. rewrite (proj2 (Z.leb_le _ _)) by lia. by destruct o.
Qed.
Lemma scale_range s : OverlayScale_new (scale_percent s) = Some s -> 0 <= scale_percent s <= 200.
Proof. unfold OverlayScale_new. case_if_as E; [|done]. intros _. apply andb_true_iff in E as [E _]. lia. Qed.
Lemma scale_reads s : OverlayScale_new (scale_percent s) = Some s ->
  (v ← from_str_radix U8_MAX 10 (to_decimal (scale_percent s)); OverlayScale_new v) = Some s.
Proof.
  intros Hs. pose proof (scale_range s Hs). rewrite (from_decimal U8_MAX _ (scale_percent s)) by ((unfold U8_MAX; lia) || (apply decimal_digits; unfold U64_MAX; lia)).
  done.
Qed.

(** ** The global line *)
Definition versions : list Z := [1; 2; 3; 4; 5; 6; 7; 8; 9; 10; 11; 12].
Lemma only_Forall {A} (P : A -> Prop) b l : Forall P l -> Forall P (only b l).
Proof. intros H. by destruct b. Qed.
(** Whatever holds of plain words holds of the fields. *)
Lemma global_fields_all (P : bytes -> Prop) v old g : (forall w, plain w -> P w) -> P old -> global_typed g -> Forall P (global_fields_at v old g).
Proof.
  intros HP Ho [Hm Hp Hs]. apply scale_range in Hs.
  assert (Hb : forall b, P (catalog_bool_token b)) by (intros b; apply HP, catalog_bool_reads).
  assert (Hd : forall x, 0 <= x <= U16_MAX -> P (to_decimal x)) by (intros x Hx; apply HP, decimal_is_plain; unfold U16_MAX, U64_MAX in *; lia).
  assert (Hg : P (ascii_bytes "global")) by by apply HP, plain_check.
  unfold global_fields_at, U16_MAX in *. repeat (apply Forall_app; split); repeat apply only_Forall; repeat (apply Forall_cons; split); try apply Forall_nil_2; try apply Hb; try (apply Hd; lia); try exact Hg; try exact Ho;
    try (apply HP; first [apply preset_reads|apply corner_reads|apply layout_reads|apply palette_reads|apply replay_duration_reads|apply frame_rate_reads|apply quality_reads|apply storage_reads]).
Qed.
Lemma global_fields_ok v old g : field_ok old -> global_typed g -> Forall field_ok (global_fields_at v old g).
Proof. apply global_fields_all, plain_field. Qed.
#[local] Opaque ascii_bytes overlay_preset_token overlay_layout_token overlay_palette_token overlay_corner_token replay_duration_token
  replay_frame_rate_token replay_quality_token replay_storage_token catalog_bool_token inheritable_token to_decimal hex
  parse_overlay_preset parse_overlay_layout parse_overlay_palette parse_overlay_corner parse_replay_duration parse_replay_frame_rate
  parse_replay_quality parse_replay_storage parse_catalog_bool parse_inheritable from_str_radix OverlayMetricSet_from_bits OverlayScale_new OverlayOpacity_new split_on join.
Lemma parse_global_text v old g : v ∈ versions -> field_ok old -> global_typed g ->
  parse_global_profile (join 9 (global_fields_at v old g)) v = Ok (kept_global v g).
Proof.
  intros Hv Ho Hg. pose proof (global_fields_ok v old g Ho Hg) as Hf. destruct Hg as [[Hm Hm'] Hp Hs].
  unfold parse_global_profile. rewrite join_fields by done. clear Hf.
  pose proof (metrics_read _ Hm Hm') as Rm. pose proof (opacity_reads _ Hp) as Rp. pose proof (scale_reads _ Hs) as Rs.
  destruct g as [cap vis pre lay pal bra met cor opa sca gsc gmo [du fr qu li] ins]. cbn [g_overlay_metrics g_overlay_opacity g_overlay_scale] in *.
  destruct (preset_reads pre) as [R1 _], (layout_reads lay) as [R2 _], (palette_reads pal) as [R3 _], (corner_reads cor) as [R4 _],
    (replay_duration_reads du) as [R5 _], (frame_rate_reads fr) as [R6 _], (quality_reads qu) as [R7 _], (storage_reads li) as [R8 _],
    (catalog_bool_reads cap) as [B1 _], (catalog_bool_reads vis) as [B2 _], (catalog_bool_reads bra) as [B3 _], (catalog_bool_reads gsc) as [B4 _],
    (catalog_bool_reads gmo) as [B5 _], (catalog_bool_reads ins) as [B6 _].
  unfold versions in Hv. repeat (apply elem_of_cons in Hv as [->|Hv]); [..|by apply elem_of_nil in Hv].
  all: unfold global_fields_at; cbn -[ok_or mbind]; rewrite bool_decide_true by done; cbn [negb];
    repeat (rewrite ?bind_ret, ?B1, ?B2, ?B3, ?B4, ?B5, ?B6, ?R1, ?R2, ?R3, ?R4, ?R5, ?R6, ?R7, ?R8, ?Rm, ?Rp, ?Rs; progress rewrite ?bind_ret; cbn [ok_or]);
    reflexivity.
Qed.

(** ** The lines of games *)
Record game_checked (g : CatalogGame) : Prop := {
  gc_name : validate_display_name (cg_display_name g) = Ok tt;
  gc_executable : validate_path (cl_executable (cg_launch g)) = Ok tt;
  gc_arguments : validate_arguments (cl_arguments (cg_launch g)) = Ok tt;
  gc_rules : validate_match_rules (cg_match_rules g) = Ok tt;
  gc_directory : forall d, cl_working_directory (cg_launch g) = Some d -> validate_path d = Ok tt;
}.
Lemma then_ok {E B} (m : outcome E unit) (k : outcome E B) b : (_ ← m; k) = Ok b <-> m = Ok tt /\ k = Ok b.
Proof. destruct m as [[]|e|]; cbn; naive_solver. Qed.
Lemma validate_games_checked games ids identities : validate_games games ids identities = Ok tt -> Forall game_checked games.
Proof.
  revert ids identities. induction games as [|g games IH]; intros ids identities; cbn [validate_games]; [by constructor|].
  destruct (insert_each _ _) as [set dup]. case_if_as E; [done|]. rewrite !then_ok. intros (H1 & H2 & H3 & H4 & H5 & H6).
  constructor; [|by eapply IH]. constructor; try done. by intros d Hd; rewrite Hd in H5.
Qed.
Lemma validate_stored_ok s : validate_stored s = Ok tt <-> zlen (sc_games s) <= MAX_GAMES /\ validate_games (sc_games s) [] [] = Ok tt
  /\ Forall (fun g => cg_id g < next_id s) (sc_games s).
Proof.
  unfold validate_stored. destruct (Z.ltb_spec MAX_GAMES (zlen (sc_games s))) as [H|H]; [split; [done|lia]|]. rewrite then_ok.
  assert (Hx : existsb (fun game => next_id s <=? cg_id game) (sc_games s) = false <-> Forall (fun g => cg_id g < next_id s) (sc_games s)).
  { clear H. induction (sc_games s) as [|g games IH]; [split; [constructor|done]|]. cbn [existsb]. rewrite orb_false_iff, Forall_cons, IH, Z.leb_gt. done. }
  destruct (existsb _ _); split.
  - by intros [_ ?].
  - intros (_ & _ & H'). apply Hx in H'. done.
  - intros [Hg _]. split; [done|]. split; [done|]. by apply Hx.
  - by intros (_ & Hg & _).
Qed.

#[local] Transparent ascii_bytes.
Lemma rule_reads r : rule_typed r -> parse_match_rule (serialize_match_rule r) = Ok r /\ plain (serialize_match_rule r)
  /\ Forall (fun b => b <> 44) (serialize_match_rule r).
Proof.
  assert (Hh : forall bs, is_bytes bs -> Forall (fun b => b <> 44) (hex bs)).
  { intros bs Hb. eapply Forall_impl; [by apply catalog_hex_chars|]. cbn. intros. lia. }
  assert (Hk : forall c w, plain_char c -> c <> 44 -> c <> 58 -> plain w -> Forall (fun b => b <> 44) w ->
    split_once 58 (([c; 58]) ++ w) = Some ([c], w) /\ plain ([c; 58] ++ w) /\ Forall (fun b => b <> 44) ([c; 58] ++ w)).
  { intros c w Hc H1 H2 Hw Hw'. splits.
    - apply (split_once_app 58 [c] w). by repeat constructor.
    - constructor; [done|]. constructor; [unfold plain_char; lia|done].
    - constructor; [done|]. by constructor. }
  destruct r as [app_id|path|name]; cbn [rule_typed serialize_match_rule]; intros Ht.
  - assert (Ht' : 0 <= app_id <= U64_MAX) by (unfold U32_MAX, U64_MAX in *; lia). destruct (decimal_digits app_id Ht') as [Hd Hdec].
    destruct (Hk 115 (to_decimal app_id)) as (K1 & K2 & K3); [unfold plain_char; lia|lia|lia|by apply decimal_is_plain|eapply Forall_impl; [exact Hd|]; cbn; intros; lia|].
    change (ascii_bytes "s:") with [115; 58]. splits; [|done|done]. unfold parse_match_rule. rewrite K1. cbn [ok_or mbind outcome_bind].
    change (bytes_eqb [115] (ascii_bytes "s")) with true. cbn match. by rewrite (from_decimal U32_MAX _ app_id).
  - destruct (Hk 112 (hex path)) as (K1 & K2 & K3); [unfold plain_char; lia|lia|lia|by apply hex_is_plain|by apply Hh|].
    change (ascii_bytes "p:") with [112; 58]. splits; [|done|done]. unfold parse_match_rule. rewrite K1. cbn [ok_or mbind outcome_bind].
    change (bytes_eqb [112] (ascii_bytes "s")) with false. change (bytes_eqb [112] (ascii_bytes "p")) with true. cbn match. by rewrite catalog_unhex_hex.
  - destruct Ht as [Hb Hu]. destruct (Hk 110 (hex name)) as (K1 & K2 & K3); [unfold plain_char; lia|lia|lia|by apply hex_is_plain|by apply Hh|].
    change (ascii_bytes "n:") with [110; 58]. splits; [|done|done]. unfold parse_match_rule. rewrite K1. cbn [ok_or mbind outcome_bind].
    change (bytes_eqb [110] (ascii_bytes "s")) with false. change (bytes_eqb [110] (ascii_bytes "p")) with false. change (bytes_eqb [110] (ascii_bytes "n")) with true.
    cbn match. by rewrite unhex_text_hex.
Qed.
Lemma collect_all_map {A B} (f : A -> outcome string B) (g : B -> A) l : Forall (fun x => f (g x) = Ok x) l -> collect_all f (map g l) = Ok l.
Proof. induction 1 as [|x l Hx _ IH]; [done|]. cbn [map collect_all]. rewrite Hx. cbn [mbind outcome_bind]. rewrite IH. done. Qed.
Lemma rules_plain rules : Forall rule_typed rules -> plain (serialize_match_rules rules).
Proof.
  intros Ht. apply join_Forall; [unfold plain_char; lia|]. apply Forall_map. eapply Forall_impl; [exact Ht|]. intros r Hr. by apply rule_reads.
Qed.
Lemma rules_read rules : Forall rule_typed rules -> validate_match_rules rules = Ok tt ->
  parse_match_rules (serialize_match_rules rules) = Ok rules.
Proof.
  intros Ht Hv. assert (Hn : rules <> [] /\ zlen rules <= MAX_MATCH_RULES).
  { unfold validate_match_rules in Hv. destruct (_ || _) eqn:E; [done|]. apply orb_false_iff in E as [E1 E2]. split; [by intros ->|lia]. }
  destruct Hn as [Hn Hl]. unfold serialize_match_rules, parse_match_rules. rewrite split_join.
  - assert (E : zlen (map serialize_match_rule rules) = zlen rules) by (unfold zlen; by rewrite length_map). rewrite E, (proj2 (Z.ltb_ge _ _)) by lia.
    rewrite collect_all_map; [|eapply Forall_impl; [exact Ht|]; intros r Hr; by apply rule_reads]. cbn [mbind outcome_bind]. by rewrite Hv.
  - by destruct rules.
  - apply Forall_map. eapply Forall_impl; [exact Ht|]. intros r Hr. by apply rule_reads.
Qed.
Lemma hex_not_dash bs : is_bytes bs -> hex bs <> [45].
Proof. intros H E. pose proof (catalog_hex_chars bs H) as Hc. rewrite E in Hc. apply Forall_cons in Hc as [Hc _]. lia. Qed.
Lemma directory_reads d : (forall x, d = Some x -> is_bytes x) ->
  (if bytes_eqb (working_directory_token d) [45] then Ok None else x ← catalog_unhex (working_directory_token d); Ok (Some x)) = Ok d
  /\ plain (working_directory_token d).
Proof.
  intros H. destruct d as [x|]; cbn [working_directory_token]; [|split; [done|by apply plain_check]]. specialize (H x eq_refl).
  unfold bytes_eqb. rewrite bool_decide_false by by apply hex_not_dash. rewrite catalog_unhex_hex by done. split; [done|by apply hex_is_plain].
Qed.
Lemma arguments_read arguments : Forall is_bytes arguments ->
  (if bytes_eqb (arguments_token arguments) [45] then Ok [] else collect_all catalog_unhex (split_on (Z.eqb 44) (arguments_token arguments))) = Ok arguments
  /\ plain (arguments_token arguments).
Proof.
  intros H. assert (Hd : Forall (Forall (fun b => 48 <= b <= 57 \/ 97 <= b <= 102)) (map hex arguments)).
  { apply Forall_map. eapply Forall_impl; [exact H|]. intros bs Hb. by apply catalog_hex_chars. }
  destruct arguments as [|a arguments]; [split; [done|by apply plain_check]|]. cbn [arguments_token]. split.
  - assert (Hn : join 44 (map hex (a :: arguments)) <> [45]).
    { intros E. assert (Hj : Forall (fun b => b <> 45) (join 44 (map hex (a :: arguments)))).
      { apply join_Forall; [lia|]. eapply Forall_impl; [exact Hd|]. intros w Hw. eapply Forall_impl; [exact Hw|]. cbn. intros. lia. }
      rewrite E in Hj. apply Forall_cons in Hj as [Hj _]. done. }
    unfold bytes_eqb. rewrite bool_decide_false by done. rewrite split_join; [|done|].
    + apply collect_all_map. eapply Forall_impl; [exact H|]. intros bs Hb. by apply catalog_unhex_hex.
    + eapply Forall_impl; [exact Hd|]. intros w Hw. eapply Forall_impl; [exact Hw|]. cbn. intros. lia.
  - apply join_Forall; [unfold plain_char; lia|]. eapply Forall_impl; [exact Hd|]. intros w Hw. eapply Forall_impl; [exact Hw|]. unfold plain_char. cbn. intros. lia.
Qed.
Lemma id_reads id : 0 < id <= U64_MAX ->
  (v ← from_str_radix U64_MAX 10 (to_decimal id); match GameId_new v with Ok i => Some (game_id_value i) | _ => None end) = Some id.
Proof.
  intros H. rewrite (from_decimal U64_MAX _ id) by (lia || (apply decimal_digits; lia)). cbn [mbind option_bind].
  unfold GameId_new. by rewrite (proj2 (Z.eqb_neq _ _)) by lia.
Qed.
#[local] Opaque ascii_bytes serialize_match_rules working_directory_token arguments_token parse_match_rules unhex_text catalog_unhex collect_all GameId_new bytes_eqb match_rules_for.
Lemma game_fields_all (P : bytes -> Prop) v old g : (forall w, plain w -> P w) -> P old -> game_typed g -> Forall P (game_fields_at v old g).
Proof.
  intros HP Ho [Hi [Hn _] Hr [He Ha Hd]]. unfold game_fields_at.
  assert (Hin : forall i, P (inheritable_token i)) by (intros i; apply HP, inheritable_reads).
  repeat first [apply Forall_app; split|apply only_Forall|apply Forall_cons; split|apply Forall_nil_2]; auto using hex_is_plain.
  - by apply HP, plain_check.
  - apply HP, decimal_is_plain. lia.
  - apply HP. by apply directory_reads.
  - apply HP. by apply arguments_read.
  - by apply HP, rules_plain.
Qed.
Lemma game_fields_ok v old g : field_ok old -> game_typed g -> Forall field_ok (game_fields_at v old g).
Proof. apply game_fields_all, plain_field. Qed.
Lemma parse_game_text v old g : v ∈ versions -> field_ok old -> game_typed g -> (2 <= v -> validate_match_rules (cg_match_rules g) = Ok tt) ->
  parse_game (join 9 (game_fields_at v old g)) v = Ok (kept_game v g).
Proof.
  intros Hv Ho Hg Hr. pose proof (game_fields_ok v old g Ho Hg) as Hf. destruct Hg as [Hi [Hn Hu] Hrt [He Ha Hd]].
  unfold parse_game. rewrite join_fields by done. clear Hf.
  pose proof (id_reads _ Hi) as Ri. pose proof (unhex_text_hex _ "catalog game name is not UTF-8" Hn Hu) as Rn. pose proof (catalog_unhex_hex _ He) as Re.
  destruct (directory_reads _ Hd) as [Rd _], (arguments_read _ Ha) as [Ra _].
  assert (Rr : 2 <= v -> parse_match_rules (serialize_match_rules (cg_match_rules g)) = Ok (cg_match_rules g)) by (intros H; apply rules_read; auto).
  destruct g as [id name rules [exe args dir] [cap vis ins]]. cbn [cg_id cg_display_name cg_match_rules cg_launch cl_executable cl_arguments cl_working_directory] in *.
  destruct (inheritable_reads cap) as [I1 _], (inheritable_reads vis) as [I2 _], (inheritable_reads ins) as [I3 _].
  unfold versions in Hv. repeat (apply elem_of_cons in Hv as [->|Hv]); [..|by apply elem_of_nil in Hv].
  all: try (specialize (Rr ltac:(lia))); unfold game_fields_at; cbn -[ok_or mbind]; rewrite bool_decide_true by done; cbn [negb];
    repeat progress (rewrite ?bind_ret, ?Ri, ?Rn, ?Re, ?Rd, ?Ra, ?I1, ?I2, ?I3, ?Rr; cbn [ok_or]); reflexivity.
Qed.

(** ** The whole text *)
Lemma plain_clean_text w : plain w -> clean w.
Proof. intros H. eapply Forall_impl; [by apply plain_field|]. cbn. intros. lia. Qed.
#[local] Transparent ascii_bytes bytes_eqb to_decimal.
Lemma header_reads v : v ∈ versions -> version_of versions (Some (catalog_header v)) = Ok v /\ clean (catalog_header v).
Proof.
  intros Hv. unfold versions in Hv. repeat (apply elem_of_cons in Hv as [->|Hv]); [..|by apply elem_of_nil in Hv].
  all: split; [vm_compute; reflexivity|]; apply plain_clean_text, plain_check; vm_compute; reflexivity.
Qed.
#[local] Opaque ascii_bytes to_decimal.
Lemma next_reads n : 0 < n <= U64_MAX -> parse_next (Some (join 9 [ascii_bytes "next"; to_decimal n])) = Ok n
  /\ clean (join 9 [ascii_bytes "next"; to_decimal n]).
Proof.
  intros Hn. assert (Hf : Forall field_ok [ascii_bytes "next"; to_decimal n]).
  { repeat (apply Forall_cons; split); [by apply plain_field, plain_check|apply plain_field, decimal_is_plain; lia|constructor]. }
  split; [|by apply join_clean]. unfold parse_next. cbn [ok_or mbind outcome_bind]. rewrite join_fields by done. rewrite bytes_eqb_refl. cbn [negb].
  rewrite (from_decimal U64_MAX _ n) by (lia || (apply decimal_digits; lia)). cbn [mbind option_bind]. by rewrite (proj2 (Z.ltb_lt _ _)) by lia.
Qed.
Lemma lines_text l rest : clean l -> lines (text_line l ++ rest) = l :: lines rest.
Proof. intros H. unfold text_line. rewrite <- app_assoc. by apply lines_cons. Qed.
Lemma bind_cons {A B} (f : A -> list B) x l : (y ← x :: l; f y) = f x ++ (y ← l; f y).
Proof. done. Qed.
Lemma parse_games_text v old games : v ∈ versions -> field_ok old -> Forall game_typed games ->
  Forall (fun g => 2 <= v -> validate_match_rules (cg_match_rules g) = Ok tt) games ->
  parse_games v (lines (g ← games; text_line (join 9 (game_fields_at v old g)))) = Ok (map (kept_game v) games).
Proof.
  intros Hv Ho Ht Hr. induction games as [|g games IH]; [done|]. apply Forall_cons in Ht as [Ht Hts]. apply Forall_cons in Hr as [Hr Hrs].
  assert (Hc : clean (join 9 (game_fields_at v old g))) by by apply join_clean, game_fields_ok.
  rewrite bind_cons, lines_text by done.
  cbn [parse_games]. assert (Hne : bytes_eqb (join 9 (game_fields_at v old g)) [] = false).
  { unfold bytes_eqb. apply bool_decide_eq_false. intros E. apply (f_equal (split_on (Z.eqb 9))) in E. rewrite join_fields in E by (done || by apply game_fields_ok). discriminate. }
  rewrite Hne, parse_game_text by done. cbn [mbind outcome_bind]. by rewrite IH.
Qed.
Lemma catalog_parse_text_at v old s : v ∈ versions -> field_ok old -> catalog_typed s -> validate_stored (kept_at v s) = Ok tt ->
  catalog_parse (text_at v old s) = Ok (kept_at v s).
Proof.
  intros Hv Ho [Hg Ht Hn] Hs. destruct (header_reads v Hv) as [H1 C1], (next_reads _ Hn) as [H2 C2].
  assert (C3 : clean (join 9 (global_fields_at v old (sc_global_profile s)))) by by apply join_clean, global_fields_ok.
  assert (Hr : Forall (fun g => 2 <= v -> validate_match_rules (cg_match_rules g) = Ok tt) (sc_games s)).
  { pose proof Hs as Hs'. apply validate_stored_ok in Hs' as (_ & Hc & _). apply validate_games_checked in Hc. cbn [kept_at sc_games] in Hc.
    rewrite Forall_map in Hc. eapply Forall_impl; [exact Hc|]. cbn beta. intros g [_ _ _ Hrule _] Hv2. cbn [kept_game cg_match_rules] in Hrule.
    unfold since_v in Hrule. by rewrite (proj2 (Z.ltb_ge _ _)) in Hrule by lia. }
  unfold catalog_parse, text_at. rewrite lines_text by done. cbn [next]. fold versions. rewrite H1. cbn [mbind outcome_bind].
  rewrite lines_text by done. cbn [next]. rewrite H2. cbn [mbind outcome_bind].
  rewrite lines_text by done. cbn [next ok_or mbind outcome_bind]. rewrite parse_global_text by done. cbn [mbind outcome_bind].
  rewrite parse_games_text by done. cbn [mbind outcome_bind]. fold (kept_at v s). change {| sc_global_profile := _; sc_games := _; next_id := _ |} with (kept_at v s).
  by rewrite Hs.
Qed.

(** C30: A game catalog reads back in every version of its file.  A file of one of the
    twelve versions, with the catalog's fields that the version has and anything in
    the field that versions up to nine had and nobody reads, parses to the catalog
    with the defaults for the fields that came later; in version one, to the rules
    for the launch executable.  The current serializer writes version twelve, which
    keeps everything. *)
Theorem catalog_roundtrip v old s :
  v ∈ versions -> field_ok old -> catalog_typed s -> validate_stored (kept_at v s) = Ok tt ->
  catalog_parse (text_at v old s) = Ok (kept_at v s) /\ text_at 12 old s = catalog_serialize s /\ kept_at 12 s = s.
Proof. intros Hv Ho Ht Hs. split; [by apply catalog_parse_text_at|]. split; [symmetry; apply catalog_serialize_text|apply kept_now]. Qed.

(** * A catalog of one game *)
Module CatalogSample.
Definition executable : bytes := ascii_bytes "/games/quake/quake.x86"%string.
Definition quake : CatalogGame := {|
  cg_id := 7; cg_display_name := ascii_bytes "Quake"%string;
  cg_match_rules := [CatalogSteamAppId 2310; CatalogExecutable executable];
  cg_launch := {| cl_executable := executable; cl_arguments := [ascii_bytes "+map"%string; ascii_bytes "e1m1"%string];
                  cl_working_directory := Some (ascii_bytes "/games/quake"%string) |};
  cg_profile := {| capture_metrics := Custom false; overlay_visible := Custom true; instant_replay := InheritGlobal |} |}.
Definition catalog : StoredCatalog := {| sc_global_profile := GlobalGameProfile_default; sc_games := [quake]; next_id := 8 |}.
Lemma quake_typed : game_typed quake.
Proof.
  assert (Hb : forall s, forallb (fun b => (0 <=? b) && (b <=? 255)) (ascii_bytes s) = true -> is_bytes (ascii_bytes s)).
  { intros s H. rewrite forallb_forall in H. apply List.Forall_forall. intros b Hb. apply H, andb_prop in Hb as [?%Z.leb_le ?%Z.leb_le]. unfold is_byte, U8_MAX in *; cbn beta; lia. }
  constructor.
  - cbn. unfold U64_MAX. lia.
  - split; [by apply Hb|done].
  - constructor; [cbn; unfold U32_MAX; lia|]. constructor; [by apply Hb|constructor].
  - constructor; [by apply Hb|repeat constructor; by apply Hb|]. intros d [= <-]. by apply Hb.
Qed.
Lemma catalog_is_typed : catalog_typed catalog.
Proof.
  constructor; [|by constructor; [apply quake_typed|constructor]|cbn; unfold U64_MAX; lia].
  constructor; [split; [split; vm_compute; discriminate|vm_compute; reflexivity]|split; vm_compute; discriminate|vm_compute; reflexivity].
Qed.
(** The catalog as version nine and version one keep it. *)
Lemma catalog_roundtrip_witness :
  catalog_parse (text_at 9 (ascii_bytes "default"%string) catalog) = Ok (kept_at 9 catalog) /\
  catalog_parse (text_at 1 [] catalog) = Ok (kept_at 1 catalog) /\
  catalog_parse (catalog_serialize catalog) = Ok catalog.
Proof.
  split; [|split].
  - apply (catalog_roundtrip 9 (ascii_bytes "default"%string) catalog); [repeat constructor|apply plain_field, plain_check; reflexivity|apply catalog_is_typed|vm_compute; reflexivity].
  - apply (catalog_roundtrip 1 [] catalog); [repeat constructor|constructor|apply catalog_is_typed|vm_compute; reflexivity].
  - destruct (catalog_roundtrip 12 [] catalog) as (H & E & K); [repeat constructor|constructor|apply catalog_is_typed|vm_compute; reflexivity|].
    rewrite E, K in H. exact H.
Defined.
End CatalogSample.
