(* ===== verification/CatalogHistory.v ===== *)
(** The catalog's file through any sequence of operations: it stays loadable, its
    identifiers and executables stay unique, and an identifier is never reused. *)
From stdpp Require Import strings.
From S2P Require Import Prelude Bytes Text Profiles Paths Preferences PreferencesFacts PreferencesTheorems Catalog CatalogFacts.
Local Open Scope Z_scope.

(** * What parses has the types of its fields *)
Lemma catalog_digit_ok v d : catalog_hex_digit v = Ok d -> 0 <= d < 16.
Proof.
  unfold catalog_hex_digit. destruct ((48 <=? v) && (v <=? 57)) eqn:E1; [intros [= <-]; lia|].
  destruct ((97 <=? v) && (v <=? 102)) eqn:E2; [intros [= <-]; lia|done].
Qed.
Lemma catalog_unhex_pairs_ok n v bs : (length v <= n)%nat -> catalog_unhex_pairs v = Ok bs -> is_bytes bs.
Proof.
  revert v bs. induction n as [|n IH]; intros v bs Hn H.
  - destruct v; [|cbn in Hn; lia]. cbn in H. injection H as <-. constructor.
  - destruct v as [|a [|b v]]; [cbn in H; injection H as <-; constructor..|]. cbn [catalog_unhex_pairs] in H.
    apply bind_Ok in H as (h & Hh & H). apply bind_Ok in H as (l & Hl & H). apply bind_Ok in H as (r & Hr & H). injection H as <-.
    apply catalog_digit_ok in Hh, Hl. constructor; [by apply nibbles_byte|apply (IH v); [cbn in Hn; lia|exact Hr]].
Qed.
Lemma catalog_unhex_bytes v bs : catalog_unhex v = Ok bs -> is_bytes bs.
Proof. unfold catalog_unhex. case_if_as E; [done|]. by apply (catalog_unhex_pairs_ok (length v)). Qed.
Lemma unhex_text_ok v e bs : unhex_text v e = Ok bs -> is_bytes bs /\ utf8_valid bs = true.
Proof.
  unfold unhex_text. intros H. apply bind_Ok in H as (x & Hx & H). destruct (utf8_valid x) eqn:E; [|done]. injection H as <-.
  split; [by eapply catalog_unhex_bytes|done].
Qed.
Lemma collect_all_Forall {A B} (f : A -> outcome string B) (P : A -> Prop) (Q : B -> Prop) l ys :
  (forall x y, P x -> f x = Ok y -> Q y) -> Forall P l -> collect_all f l = Ok ys -> Forall Q ys.
Proof.
  intros Hf Hl. revert ys. induction Hl as [|x l Hx _ IH]; intros ys; cbn [collect_all]; [intros [= <-]; constructor|]. intros H.
  apply bind_Ok in H as (y & Hy & H). apply bind_Ok in H as (zs & Hz & H). injection H as <-. constructor; eauto.
Qed.
Lemma Forall_anything {A} (l : list A) : Forall (fun _ => True) l.
Proof. induction l; by constructor. Qed.
Lemma parse_match_rule_typed v r : parse_match_rule v = Ok r -> rule_typed r.
Proof.
  unfold parse_match_rule. intros H. apply bind_Ok in H as ([kind payload] & _ & H). cbn beta iota in H.
  destruct (bytes_eqb kind (ascii_bytes "s")); [|destruct (bytes_eqb kind (ascii_bytes "p")); [|destruct (bytes_eqb kind (ascii_bytes "n")); [|done]]];
    apply bind_Ok in H as (x & Hx & H); injection H as <-.
  - apply ok_or_Ok, from_str_radix_range in Hx; [exact Hx|unfold U32_MAX; lia|lia].
  - by apply catalog_unhex_bytes in Hx.
  - by apply unhex_text_ok in Hx.
Qed.
Lemma parse_match_rules_typed v rules : parse_match_rules v = Ok rules -> Forall rule_typed rules.
Proof.
  unfold parse_match_rules. case_if_as E; [done|]. intros H. apply bind_Ok in H as (l & Hl & H). apply then_ok in H as [_ H]. injection H as <-.
  eapply (collect_all_Forall _ (fun _ => True)); [|apply Forall_anything|exact Hl]. intros x y _. apply parse_match_rule_typed.
Qed.

Lemma split_on_Forall (P : Z -> Prop) p bs : Forall P bs -> Forall (Forall P) (split_on p bs).
Proof.
  induction 1 as [|b bs Hb _ IH]; [repeat constructor|]. cbn [split_on]. destruct (p b); [by constructor|].
  destruct (split_on p bs) as [|w ws]; [repeat constructor; done|]. apply Forall_cons in IH as [Hw Hws]. constructor; [by constructor|done].
Qed.
Lemma file_name_bytes path name : is_bytes path -> path_file_name path = Some name -> is_bytes name.
Proof.
  unfold path_file_name. intros Hp. destruct (last (parts_of path)) as [n|] eqn:E; [|done]. case_if_as E2; [done|]. intros [= ->].
  apply last_Some_elem_of, list_elem_of_In in E. apply List.filter_In in E as [E _]. apply list_elem_of_In in E.
  by eapply Forall_forall in E; [|apply split_on_Forall, Hp].
Qed.
Lemma match_rules_for_typed executable : is_bytes executable -> Forall rule_typed (match_rules_for executable).
Proof.
  intros H. constructor; [exact H|]. destruct (path_file_name executable) as [name|] eqn:E; [|constructor].
  destruct (utf8_valid name) eqn:Eu; [|constructor]. constructor; [|constructor]. split; [by eapply file_name_bytes|exact Eu].
Qed.

Lemma field_Ok {A} fields i (k : bytes -> outcome string A) a : (x ← at_field fields i; k x) = Ok a -> exists x, k x = Ok a.
Proof. intros H. apply bind_Ok in H as (x & _ & H). by exists x. Qed.
Lemma since_Ok {A} v n (absent : A) m x : since v n absent m = Ok x -> x = absent \/ m = Ok x.
Proof. unfold since. destruct (v <? n); [intros [= ->]; by left|by right]. Qed.
Lemma parse_game_typed line v g : parse_game line v = Ok g -> game_typed g.
Proof.
  unfold parse_game. cbn zeta. case_if_as E; [done|]. intros H.
  apply bind_Ok in H as (id & Hid & H). apply bind_Ok in H as (name & Hname & H). apply bind_Ok in H as (executable & Hex & H).
  apply bind_Ok in H as (directory & Hdir & H). apply bind_Ok in H as (arguments & Harg & H). apply bind_Ok in H as (capture & _ & H).
  apply bind_Ok in H as (visible & _ & H). apply bind_Ok in H as (instant & _ & H). apply bind_Ok in H as (rules & Hrules & H).
  injection H as <-. apply field_Ok in Hex as (fe & Hex). apply catalog_unhex_bytes in Hex.
  constructor; cbn [cg_id cg_display_name cg_match_rules cg_launch].
  - apply field_Ok in Hid as (f & Hid). apply ok_or_Ok, bind_Some in Hid as (n & Hn & Hid). apply from_str_radix_range in Hn; [|unfold U64_MAX; lia|lia].
    unfold GameId_new in Hid. destruct (Z.eqb_spec n 0); [done|]. injection Hid as <-. cbn [game_id_value]. lia.
  - apply field_Ok in Hname as (f & Hname). by apply unhex_text_ok in Hname.
  - destruct (v =? 1); [injection Hrules as <-; by apply match_rules_for_typed|].
    apply field_Ok in Hrules as (f & Hrules). by eapply parse_match_rules_typed.
  - constructor; cbn [cl_executable cl_arguments cl_working_directory]; [exact Hex| |].
    + apply field_Ok in Harg as (f & Harg). case_if_in Harg Ea; [injection Harg as <-; constructor|].
      eapply (collect_all_Forall _ (fun _ => True)); [|apply Forall_anything|exact Harg]. intros x y _. apply catalog_unhex_bytes.
    + intros d ->. apply field_Ok in Hdir as (f & Hdir). case_if_in Hdir Ed; [done|]. apply bind_Ok in Hdir as (x & Hx & Hdir).
      injection Hdir as ->. by eapply catalog_unhex_bytes.
Qed.
Lemma parse_games_typed v ls games : parse_games v ls = Ok games -> Forall game_typed games.
Proof.
  revert games. induction ls as [|l ls IH]; intros games; cbn [parse_games]; [intros [= <-]; constructor|].
  case_if_as E; [apply IH|]. intros H. apply bind_Ok in H as (g & Hg & H). apply bind_Ok in H as (gs & Hgs & H). injection H as <-.
  constructor; [by eapply parse_game_typed|by apply IH].
Qed.
Lemma default_global_typed : global_typed GlobalGameProfile_default.
Proof. constructor; [split; [split; vm_compute; discriminate|vm_compute; reflexivity]|split; vm_compute; discriminate|vm_compute; reflexivity]. Qed.
Lemma scale_typed p s : OverlayScale_new p = Some s -> OverlayScale_new (scale_percent s) = Some s.
Proof. intros H. assert (scale_percent s = p) as ->; [|done]. unfold OverlayScale_new in H. case_if_in H E; [by injection H as <-|done]. Qed.
Lemma parse_global_typed line v g : parse_global_profile line v = Ok g -> global_typed g.
Proof.
  destruct default_global_typed as [Dm Do Ds].
  unfold parse_global_profile. cbn zeta. case_if_as E; [done|]. intros H.
  apply bind_Ok in H as (capture & _ & H). apply bind_Ok in H as (visible & _ & H). apply bind_Ok in H as (preset & _ & H).
  apply bind_Ok in H as (metrics & Hm & H). apply bind_Ok in H as (corner & _ & H). apply bind_Ok in H as (opacity & Ho & H).
  apply bind_Ok in H as (scale & Hs & H). do 7 apply bind_Ok in H as (? & _ & H). injection H as <-.
  constructor; cbn [g_overlay_metrics g_overlay_opacity g_overlay_scale].
  - apply since_Ok in Hm as [->|Hm]; [exact Dm|]. apply field_Ok in Hm as (f & Hm). apply ok_or_Ok, bind_Some in Hm as (n & Hn & Hm).
    apply from_str_radix_range in Hn; [|unfold U16_MAX; lia|lia]. destruct (OverlayMetricSet_from_bits n) as [m| |] eqn:Em; [|done..]. injection Hm as <-.
    assert (metric_bits m = n) as ->; [|done]. unfold OverlayMetricSet_from_bits in Em. case_if_in Em E2; [by injection Em as <-|done].
  - apply since_Ok in Ho as [->|Ho]; [exact Do|]. apply field_Ok in Ho as (f & Ho). apply ok_or_Ok, bind_Some in Ho as (n & Hn & Ho).
    apply from_str_radix_range in Hn; [|unfold U8_MAX; lia|lia]. unfold OverlayOpacity_new in Ho. destruct (Z.leb_spec n 100); [|done].
    injection Ho as <-. cbn [opacity_percent]. lia.
  - apply since_Ok in Hs as [->|Hs]; [exact Ds|]. apply field_Ok in Hs as (f & Hs). apply ok_or_Ok, bind_Some in Hs as (n & Hn & Hs).
    by eapply scale_typed.
Qed.
Lemma catalog_parse_valid contents s : catalog_parse contents = Ok s -> catalog_typed s /\ validate_stored s = Ok tt.
Proof.
  unfold catalog_parse. destruct (next (lines contents)) as [header ls]. intros H. apply bind_Ok in H as (v & _ & H).
  destruct (next ls) as [line ls']. apply bind_Ok in H as (n & Hn & H). destruct (next ls') as [line' ls'']. apply bind_Ok in H as (g & Hg & H).
  apply bind_Ok in Hg as (gl & _ & Hg).
  apply bind_Ok in H as (games & Hgames & H). cbn zeta in H. apply then_ok in H as [Hv H]. injection H as <-. split; [|exact Hv].
  constructor; [by eapply parse_global_typed|by eapply parse_games_typed|]. cbn [next_id]. unfold parse_next in Hn.
  apply bind_Ok in Hn as (nx & _ & Hn). destruct (split_on (Z.eqb 9) nx) as [|name [|value [|]]]; try done. case_if_in Hn E; [done|].
  apply ok_or_Ok, bind_Some in Hn as (x & Hx & Hn). apply from_str_radix_range in Hx; [|unfold U64_MAX; lia|lia].
  destruct (Z.ltb_spec 0 x); [|done]. injection Hn as <-. lia.
Qed.
Lemma load_stored_valid f s : load_stored f = Ok s -> catalog_typed s /\ validate_stored s = Ok tt.
Proof.
  destruct f as [| | |contents]; cbn [load_stored]; [intros [= <-]|done..|].
  - split; [|reflexivity]. constructor; [apply default_global_typed|constructor|cbn; unfold U64_MAX; lia].
  - case_if_as E; [done|]. case_if_as E2; [|done]. intros H. apply map_err_Ok in H. by apply catalog_parse_valid in H.
Qed.

(** * What is written loads *)
Lemma plain_ascii w : plain w -> ascii w.
Proof. intros H. eapply Forall_impl; [exact H|]. unfold plain_char. cbn. intros. lia. Qed.
Lemma ascii_text_line w : ascii w -> ascii (text_line w).
Proof. intros H. apply ascii_app; [exact H|by repeat constructor]. Qed.
Lemma ascii_join fs : Forall ascii fs -> ascii (join 9 fs).
Proof. intros H. apply join_Forall; [lia|exact H]. Qed.
Lemma catalog_serialize_ascii s : catalog_typed s -> ascii (catalog_serialize s).
Proof.
  intros [Hg Ht Hn]. rewrite (catalog_serialize_text s []). unfold text_at. apply ascii_app; [|apply ascii_app; [|apply ascii_app]].
  - by apply ascii_checked.
  - apply ascii_text_line, ascii_join. constructor; [by apply ascii_checked|]. constructor; [|constructor]. apply plain_ascii, decimal_is_plain. lia.
  - apply ascii_text_line, ascii_join, global_fields_all; [exact plain_ascii|constructor|exact Hg].
  - induction Ht as [|g games Hg' _ IH]; [constructor|]. rewrite bind_cons. apply ascii_app; [|exact IH].
    apply ascii_text_line, ascii_join, game_fields_all; [exact plain_ascii|constructor|exact Hg'].
Qed.
Lemma load_saved s : catalog_typed s -> validate_stored s = Ok tt -> zlen (catalog_serialize s) <= MAX_CATALOG_BYTES ->
  load_stored (Regular (catalog_serialize s)) = Ok s.
Proof.
  intros Ht Hv Hl. cbn [load_stored]. rewrite (proj2 (Z.ltb_ge _ _)) by exact Hl. rewrite utf8_ascii by by apply catalog_serialize_ascii.
  rewrite (catalog_serialize_text s []). rewrite catalog_parse_text_at; [by rewrite kept_now|repeat constructor|constructor|exact Ht|by rewrite kept_now].
Qed.
(** What [save] leaves: the old file or the new text, which then loads. *)
Lemma catalog_save_wrote io s f : catalog_typed s ->
  let '(f', r) := catalog_save io s f in
  (f' = f \/ f' = Regular (catalog_serialize s) /\ load_stored f' = Ok s)
  /\ (forall u, r = Ok u -> f' = Regular (catalog_serialize s) /\ load_stored f' = Ok s /\ validate_stored s = Ok tt).
Proof.
  intros Ht. unfold catalog_save. destruct (validate_stored s) as [[]|e|] eqn:Ev; cbn [rejected map_err]; [|split; [by left|done]..].
  destruct (Z.ltb_spec MAX_CATALOG_BYTES (zlen (catalog_serialize s))) as [Hl|Hl]; [split; [by left|done]|].
  destruct (negb (created io) || negb (made_private io)); [split; [by left|done]|].
  pose proof (load_saved s Ht Ev Hl) as Hload.
  pose proof (atomic_replace_entry 32 (attempts io) 0 (catalog_serialize s) f) as He.
  pose proof (atomic_replace_true 32 (attempts io) 0 (catalog_serialize s) f) as Htr.
  destruct (atomic_replace 32 (attempts io) 0 (catalog_serialize s) f) as [f' [|]]; cbn [fst snd] in *.
  - specialize (Htr eq_refl) as ->. split; [by right|]. intros _ _. done.
  - split; [|done]. destruct He as [->| ->]; [by left|by right].
Qed.

(** * Identities that are nobody else's *)
Definition identity_key (i : StrongIdentity) : Z + PathBuf :=
  match i with StrongSteam app_id => inl app_id | StrongExecutable path => inr (components path) end.
Lemma identity_eqb_key a b : identity_eqb a b = true <-> identity_key a = identity_key b.
Proof.
  destruct a as [a|a], b as [b|b]; cbn; [rewrite Z.eqb_eq|..]; [|split; done|split; done|unfold path_eqb; rewrite bool_decide_eq_true]; (split; [intros E; by rewrite E|by intros [= E]]).
Qed.
Lemma in_identities_key set i : in_identities set i = true <-> identity_key i ∈ map identity_key set.
Proof.
  unfold in_identities. rewrite existsb_exists, list_elem_of_fmap. split.
  - intros (j & Hj & H). exists j. split; [by apply identity_eqb_key|by apply list_elem_of_In].
  - intros (j & H & Hj). exists j. split; [by apply list_elem_of_In|by apply identity_eqb_key].
Qed.
Lemma insert_each_distinct new set set' : insert_each new set = (set', false) ->
  NoDup (map identity_key set) -> NoDup (map identity_key set') /\ map identity_key set' ≡ₚ map identity_key new ++ map identity_key set.
Proof.
  revert set. induction new as [|i new IH]; intros set; cbn [insert_each]; [intros [= <-]; done|].
  destruct (in_identities set i) eqn:E; [done|]. intros H Hset. apply IH in H as [H1 H2].
  - split; [done|]. rewrite H2. cbn [map]. symmetry. apply Permutation_middle.
  - cbn [map]. constructor; [|done]. rewrite <- in_identities_key. by rewrite E.
Qed.
(** The executables that a game's rules name. *)
Definition executable_keys (g : CatalogGame) : list (Z + PathBuf) := map identity_key (executables (cg_match_rules g)).
Lemma validate_games_unique games ids set : validate_games games ids set = Ok tt -> NoDup ids -> NoDup (map identity_key set) ->
  NoDup (map cg_id games ++ ids) /\ NoDup ((games ≫= executable_keys) ++ map identity_key set).
Proof.
  revert ids set. induction games as [|g games IH]; intros ids set; cbn [validate_games]; [done|].
  destruct (insert_each (executables (cg_match_rules g)) set) as [set' dup] eqn:Ei. case_if_as E; [done|]. rewrite !then_ok.
  intros (_ & _ & _ & _ & _ & H) Hids Hset. apply orb_false_iff in E as [E ->]. apply insert_each_distinct in Ei as [Hs Hp]; [|exact Hset].
  assert (Hid : cg_id g ∉ ids).
  { intros Hin. apply not_true_iff_false in E. apply E, existsb_exists. exists (cg_id g). split; [by apply list_elem_of_In|apply Z.eqb_refl]. }
  apply IH in H as [H1 H2]; [|by constructor|exact Hs]. split.
  - by rewrite <- Permutation_middle in H1.
  - change ((g :: games) ≫= executable_keys) with (executable_keys g ++ (games ≫= executable_keys)).
    rewrite Hp in H2. fold (executable_keys g) in H2. by rewrite <- app_assoc, Permutation_app_swap_app.
Qed.
Record catalog_sound (s : StoredCatalog) : Prop := {
  so_typed : catalog_typed s;
  so_games : Forall game_checked (sc_games s);
  so_count : zlen (sc_games s) <= MAX_GAMES;
  so_ids : NoDup (map cg_id (sc_games s));
  so_executables : NoDup (sc_games s ≫= executable_keys);
  so_next : Forall (fun g => 0 < cg_id g < next_id s) (sc_games s);
}.
Lemma catalog_is_sound s : catalog_typed s -> validate_stored s = Ok tt -> catalog_sound s.
Proof.
  intros Ht Hv. apply validate_stored_ok in Hv as (Hc & Hg & Hn). pose proof (validate_games_checked _ _ _ Hg) as Hch.
  apply validate_games_unique in Hg as [H1 H2]; [|constructor..]. rewrite !app_nil_r in *. constructor; try done.
  apply Forall_and. split; [|exact Hn]. eapply Forall_impl; [apply Ht|]. intros g Hgt. by destruct (gt_id g Hgt).
Qed.
Lemma load_stored_sound f s : load_stored f = Ok s -> catalog_sound s.
Proof. intros H. apply load_stored_valid in H as [H1 H2]. by apply catalog_is_sound. Qed.

(** * Operations *)
(** [g'] is [g] with another launch, other rules or another profile. *)
Definition renewed (g g' : CatalogGame) : Prop := cg_id g = cg_id g' /\ cg_display_name g = cg_display_name g'.
(** Identifiers are given once: what is new has one that was not given before. *)
Record evolves (s s' : StoredCatalog) : Prop := {
  ev_next : next_id s <= next_id s';
  ev_games : forall g', g' ∈ sc_games s' -> (exists g, g ∈ sc_games s /\ renewed g g') \/ next_id s <= cg_id g';
}.
#[global] Instance evolves_preorder : PreOrder evolves.
Proof.
  split.
  - intros s. constructor; [lia|]. intros g Hg. left. by exists g.
  - intros s1 s2 s3 [N12 G12] [N23 G23]. constructor; [lia|]. intros g3 H3. destruct (G23 g3 H3) as [(g2 & H2 & E1 & E2)|H]; [|right; lia].
    destruct (G12 g2 H2) as [(g1 & H1 & F1 & F2)|H]; [left; exists g1; split; [done|split; congruence]|right; lia].
Qed.
Lemma with_games_evolves games s : (forall g', g' ∈ games -> exists g, g ∈ sc_games s /\ renewed g g') -> evolves s (with_games games s).
Proof. intros H. constructor; [cbn; lia|]. intros g' Hg'. left. by apply H. Qed.
Lemma with_global_evolves profile s : evolves s (with_global profile s).
Proof. constructor; [cbn; lia|]. intros g Hg. left. by exists g. Qed.
Lemma with_games_typed games s : catalog_typed s -> Forall game_typed games -> catalog_typed (with_games games s).
Proof. by intros [Hg _ Hn] H. Qed.
Lemma change_game_elem change id games g' : g' ∈ change_game change id games ->
  g' ∈ games \/ exists g, g ∈ games /\ cg_id g = id /\ g' = change g.
Proof.
  induction games as [|g games IH]; cbn [change_game]; [by rewrite elem_of_nil|]. destruct (Z.eqb_spec (cg_id g) id) as [E|E]; rewrite !elem_of_cons.
  - intros [->|H]; [right; exists g; rewrite elem_of_cons; auto|auto].
  - intros [->|H]; [auto|]. apply IH in H as [H|(x & Hx & H)]; [auto|]. right. exists x. rewrite elem_of_cons. auto.
Qed.
Lemma remove_first_elem id games g : g ∈ remove_first id games -> g ∈ games.
Proof. induction games as [|x games IH]; cbn [remove_first]; [done|]. case_if_as E; rewrite !elem_of_cons; naive_solver. Qed.
Lemma change_game_step change id s : catalog_typed s -> (forall g, g ∈ sc_games s -> game_typed g -> game_typed (change g) /\ renewed g (change g)) ->
  catalog_typed (with_games (change_game change id (sc_games s)) s) /\ evolves s (with_games (change_game change id (sc_games s)) s).
Proof.
  intros Ht Hc. pose proof (ct_games s Ht) as Hg. rewrite Forall_forall in Hg. split.
  - apply with_games_typed; [done|]. apply Forall_forall. intros g' Hg'. apply change_game_elem in Hg' as [H|(g & H & _ & ->)]; [auto|by apply Hc; auto].
  - apply with_games_evolves. intros g' Hg'. apply change_game_elem in Hg' as [H|(g & H & _ & ->)]; [by exists g'|exists g; split; [done|by apply Hc; auto]].
Qed.

Record request_typed (r : AddGameRequest) : Prop := {
  qt_name : is_bytes (rq_display_name r) /\ utf8_valid (rq_display_name r) = true;
  qt_rules : Forall rule_typed (rq_match_rules r);
  qt_launch : launch_typed (rq_launch r);
}.
Section Steps.
Context (host : Host) (Hhost : forall path canonical, canonicalize host path = Some canonical -> is_bytes canonical).

Lemma normalize_each_elem rules acc normalized : normalize_each rules acc = Ok normalized -> forall r, r ∈ normalized -> r ∈ acc \/ r ∈ rules.
Proof.
  revert acc. induction rules as [|r rules IH]; intros acc; cbn [normalize_each]; [intros [= ->]; by left|].
  rewrite then_ok. intros [_ H] x Hx. apply IH with (r := x) in H; [|done]. rewrite elem_of_cons. destruct H as [H|H]; [|auto].
  case_if_in H E; [by left|]. rewrite elem_of_app, list_elem_of_singleton in H. naive_solver.
Qed.
Lemma normalize_match_rules_typed rules normalized : normalize_match_rules rules = Ok normalized -> Forall rule_typed rules -> Forall rule_typed normalized.
Proof.
  unfold normalize_match_rules. case_if_as E; [done|]. intros H Ht. apply bind_Ok in H as (n & Hn & H). apply then_ok in H as [_ H]. injection H as <-.
  apply Forall_forall. intros r Hr. apply (normalize_each_elem _ _ _ Hn) in Hr as [Hr|Hr]; [by apply elem_of_nil in Hr|].
  by eapply Forall_forall in Ht.
Qed.
Lemma normalize_directory_typed d d' : normalize_directory host d = Ok d' -> forall x, d' = Some x -> is_bytes x.
Proof.
  destruct d as [d|]; cbn [normalize_directory]; [|by intros [= <-]]. intros H x ->. apply then_ok in H as [_ H].
  apply bind_Ok in H as (b & _ & H). case_if_in H E; [done|]. apply bind_Ok in H as (c & Hc & H). injection H as ->.
  apply ok_or_Ok in Hc. by eapply Hhost.
Qed.
Lemma normalize_request_ok r r' : normalize_request host r = Ok r' -> request_typed r ->
  request_typed r' /\ rq_display_name r' = rq_display_name r.
Proof.
  unfold normalize_request. rewrite !then_ok. intros (_ & _ & _ & H) [Hn Hr [He Ha Hd]]. apply bind_Ok in H as (b & _ & H). case_if_in H E; [done|].
  apply bind_Ok in H as (ex & Hex & H). apply bind_Ok in H as (rules & Hrules & H). apply bind_Ok in H as (directory & Hdir & H). injection H as <-.
  apply ok_or_Ok, Hhost in Hex. split; [|done]. constructor; cbn [rq_display_name rq_match_rules rq_launch]; [exact Hn| |].
  - unfold rejected in Hrules. apply map_err_Ok, normalize_match_rules_typed in Hrules; [exact Hrules|]. apply Forall_app. split; [|exact Hr].
    destruct (rq_identity r); [by apply match_rules_for_typed|constructor].
  - constructor; cbn; [exact Hex|exact Ha|by eapply normalize_directory_typed].
Qed.
Lemma normalize_requests_ok rs rs' : normalize_requests host rs = Ok rs' -> Forall request_typed rs -> Forall request_typed rs'.
Proof.
  revert rs'. induction rs as [|r rs IH]; intros rs'; cbn [normalize_requests]; [intros [= <-]; constructor|]. intros H Ht.
  apply Forall_cons in Ht as [Hr Ht]. apply bind_Ok in H as (x & Hx & H). apply bind_Ok in H as (xs & Hxs & H). injection H as <-.
  constructor; [by eapply normalize_request_ok|by apply IH].
Qed.
Lemma new_games_ok n rs games n' : new_games n rs = Ok (games, n') -> Forall request_typed rs -> 0 < n <= U64_MAX ->
  n <= n' <= U64_MAX /\ Forall game_typed games /\ Forall (fun g => n <= cg_id g < n') games.
Proof.
  revert n games. induction rs as [|r rs IH]; intros n games; cbn [new_games]; [intros [= <- <-]; split; [lia|by split; constructor]|]. intros H Ht Hn.
  apply Forall_cons in Ht as [[Hname Hrules Hl] Ht]. apply bind_Ok in H as ([g n1] & Hg & H). apply bind_Ok in H as ([gs n2] & Hgs & H). injection H as <- <-.
  unfold new_game in Hg. case_if_in Hg E; [done|]. apply bind_Ok in Hg as (x & Hx & Hg). apply ok_or_Ok, checked_add_Some in Hx as [Hx ->]. injection Hg as <- <-.
  apply IH in Hgs as (H1 & H2 & H3); [|done|lia]. split; [lia|]. split.
  - constructor; [|exact H2]. constructor; cbn; [lia|exact Hname|exact Hrules|exact Hl].
  - constructor; [cbn; lia|]. eapply Forall_impl; [exact H3|]. cbn. intros. lia.
Qed.
Lemma append_games s games n' : catalog_typed s -> next_id s <= n' <= U64_MAX -> Forall game_typed games -> Forall (fun g => next_id s <= cg_id g < n') games ->
  let s' := {| sc_global_profile := sc_global_profile s; sc_games := sc_games s ++ games; next_id := n' |} in catalog_typed s' /\ evolves s s'.
Proof.
  intros [Hg Ht Hn] Hn' Ht' Hi. split.
  - constructor; [exact Hg|by apply Forall_app|cbn; lia].
  - constructor; [cbn; lia|]. intros g'. cbn [sc_games]. rewrite elem_of_app. intros [H|H]; [left; by exists g'|right].
    rewrite Forall_forall in Hi. specialize (Hi g' H). cbn in Hi. lia.
Qed.
Lemma find_game_Ok games id g : find_game games id = Ok g -> g ∈ games /\ cg_id g = id.
Proof.
  unfold find_game. intros H. apply ok_or_Ok in H. apply List.find_some in H as [H1 H2]. split; [by apply list_elem_of_In|lia].
Qed.
Lemma set_launch_typed r g : request_typed r -> game_typed g -> game_typed (set_launch (rq_launch r) (rq_match_rules r) g) /\ renewed g (set_launch (rq_launch r) (rq_match_rules r) g).
Proof. intros [_ Hr Hl] [Hi Hn _ _]. split; [by constructor|done]. Qed.
Lemma game_request_typed g launch rules identity : game_typed g -> launch_typed launch -> Forall rule_typed rules ->
  request_typed {| rq_display_name := cg_display_name g; rq_launch := launch; rq_match_rules := rules; rq_identity := identity |}.
Proof. intros [_ Hn _ _] Hl Hr. by constructor. Qed.
Lemma matching_games_range r games start index : index ∈ matching_games r games start -> (start <= index < start + length games)%nat.
Proof.
  revert start. induction games as [|g games IH]; intros start; cbn [matching_games length]; [by rewrite elem_of_nil|].
  rewrite elem_of_app. intros [H|H]; [|apply IH in H; lia]. destruct (shares_identity r g); [apply list_elem_of_singleton in H; lia|by apply elem_of_nil in H].
Qed.
Lemma refresh_each_ok rs games ids updated games' updated' : refresh_each host rs games ids updated = Ok (games', updated') ->
  Forall request_typed rs -> Forall game_typed games -> Forall game_typed games' /\ Forall2 renewed games games'.
Proof.
  revert games ids updated. induction rs as [|r rs IH]; intros games ids updated; cbn [refresh_each].
  { intros [= <- <-] _ Ht. split; [exact Ht|]. clear. induction games; by constructor. }
  intros H Hr Ht. apply Forall_cons in Hr as [Hr Hrs]. destruct (matching_games r games 0) as [|index [|]]; [by apply IH in H| |by apply IH in H].
  apply bind_Ok in H as (g & Hg & H). case_if_in H E; [by apply IH in H|]. case_if_in H E2; [by apply IH in H|].
  apply bind_Ok in H as (n & Hn & H). cbn zeta in H.
  assert (Hi : games !! index = Some g) by (destruct (games !! index); [by injection Hg as ->|done]).
  assert (Hgt : game_typed g) by by eapply Forall_lookup_1.
  apply normalize_request_ok in Hn as [Hn _]; [|apply game_request_typed; [exact Hgt|by destruct Hr|apply Forall_app; split; [by destruct Hgt|by destruct Hr]]].
  destruct (set_launch_typed n g Hn Hgt) as [H1 H2]. apply IH in H as [H3 H4]; [|done|by apply Forall_insert].
  split; [exact H3|]. clear -H4 Hi H2. apply Forall2_same_length_lookup. split.
  - apply Forall2_length in H4. by rewrite length_insert in H4.
  - intros i a b Ha Hb. rewrite Forall2_lookup in H4. specialize (H4 i). rewrite Hb in H4.
    destruct (decide (i = index)) as [->|Hne].
    + rewrite list_lookup_insert_eq in H4 by by eapply lookup_lt_Some. inversion H4 as [x y [E1 E2]|]; subst. rewrite Hi in Ha. injection Ha as <-.
      destruct H2. split; congruence.
    + rewrite list_lookup_insert_ne in H4 by done. rewrite Ha in H4. by inversion H4.
Qed.

(** ** None of them panics *)
Lemma rejected_no_panic {A} (m : outcome string A) : no_panic m -> no_panic (rejected m).
Proof. apply map_err_no_panic. Qed.
Lemma then_no_panic {E B} (m : outcome E unit) (k : outcome E B) : no_panic m -> no_panic k -> no_panic (_ ← m; k).
Proof. intros Hm Hk. apply bind_no_panic; auto. Qed.
Lemma validate_arguments_no_panic arguments : no_panic (validate_arguments arguments).
Proof.
  unfold validate_arguments. case_if_as E; [done|]. apply bind_no_panic; [|intros t _; by case_if_as E2].
  clear E. generalize 0. induction arguments as [|a arguments IH]; intros total; cbn [validate_each_argument]; [done|]. case_if_as E; [done|apply IH].
Qed.
Lemma validate_match_rule_no_panic r : no_panic (validate_match_rule r).
Proof. destruct r; cbn; unfold validate_path; by repeat case_if_as E. Qed.
Lemma validate_match_rules_no_panic rules : no_panic (validate_match_rules rules).
Proof.
  unfold validate_match_rules. case_if_as E; [done|]. apply bind_no_panic; [|intros t _; by case_if_as E2].
  clear E. generalize 0, (@nil CatalogRule). induction rules as [|r rules IH]; intros total earlier; cbn [validate_each_rule]; [done|].
  apply then_no_panic; [apply validate_match_rule_no_panic|]. case_if_as E; [done|apply IH].
Qed.
Lemma validate_path_no_panic path : no_panic (validate_path path).
Proof. unfold validate_path. by case_if_as E. Qed.
Lemma validate_name_no_panic name : no_panic (validate_display_name name).
Proof. unfold validate_display_name. by case_if_as E. Qed.
Lemma validate_stored_no_panic s : no_panic (validate_stored s).
Proof.
  unfold validate_stored. case_if_as E; [done|]. apply then_no_panic; [|by case_if_as E2]. clear E.
  generalize (@nil Z), (@nil StrongIdentity). induction (sc_games s) as [|g games IH]; intros ids set; cbn [validate_games]; [done|].
  destruct (insert_each _ _) as [set' dup]. case_if_as E; [done|].
  repeat apply then_no_panic; auto using validate_name_no_panic, validate_path_no_panic, validate_arguments_no_panic, validate_match_rules_no_panic.
  destruct (cl_working_directory _); [apply validate_path_no_panic|done].
Qed.
Lemma normalize_request_no_panic r : no_panic (normalize_request host r).
Proof.
  unfold normalize_request. repeat apply then_no_panic; auto using rejected_no_panic, validate_name_no_panic, validate_path_no_panic, validate_arguments_no_panic.
  apply bind_no_panic; [apply ok_or_no_panic|intros b _]. case_if_as E; [done|]. apply bind_no_panic; [apply ok_or_no_panic|intros ex _].
  apply bind_no_panic; [apply rejected_no_panic|intros rules _; apply bind_no_panic; [|done]].
  - unfold normalize_match_rules. case_if_as E2; [done|]. apply bind_no_panic; [|intros n _; apply then_no_panic; [apply validate_match_rules_no_panic|done]].
    generalize (match rq_identity r with DirectExecutable => match_rules_for ex | ExternalLauncher => [] end ++ rq_match_rules r) as l.
    intros l. clear. generalize (@nil CatalogRule). induction l as [|x l IH]; intros acc; cbn [normalize_each]; [done|]. apply then_no_panic; [apply validate_match_rule_no_panic|apply IH].
  - destruct (cl_working_directory _); cbn [normalize_directory]; [|done]. apply then_no_panic; [apply rejected_no_panic, validate_path_no_panic|].
    apply bind_no_panic; [apply ok_or_no_panic|intros d _]. case_if_as E2; [done|]. apply bind_no_panic; [apply ok_or_no_panic|done].
Qed.
Lemma normalize_requests_no_panic rs : no_panic (normalize_requests host rs).
Proof.
  induction rs as [|r rs IH]; cbn [normalize_requests]; [done|]. apply bind_no_panic; [apply normalize_request_no_panic|intros x _].
  apply bind_no_panic; [exact IH|done].
Qed.
Lemma new_game_no_panic n r : no_panic (new_game n r).
Proof. unfold new_game. case_if_as E; [done|]. apply bind_no_panic; [apply ok_or_no_panic|done]. Qed.
Lemma new_games_no_panic n rs : no_panic (new_games n rs).
Proof.
  revert n. induction rs as [|r rs IH]; intros n; cbn [new_games]; [done|]. apply bind_no_panic; [apply new_game_no_panic|intros [g n1] _].
  apply bind_no_panic; [apply IH|by intros [gs n2] _].
Qed.
Lemma refresh_each_no_panic rs games ids updated : no_panic (refresh_each host rs games ids updated).
Proof.
  revert games ids updated. induction rs as [|r rs IH]; intros games ids updated; cbn [refresh_each]; [done|].
  destruct (matching_games r games 0) as [|index [|]] eqn:Em; [apply IH| |apply IH].
  assert (Hi : index ∈ matching_games r games 0) by (rewrite Em; by left). apply matching_games_range in Hi.
  destruct (lookup_lt_is_Some_2 games index) as [g Hg]; [lia|]. rewrite Hg. cbn [expect mbind outcome_bind].
  case_if_as E; [apply IH|]. case_if_as E2; [apply IH|]. apply bind_no_panic; [apply normalize_request_no_panic|intros n _; apply IH].
Qed.
Lemma find_game_no_panic games id : no_panic (find_game games id).
Proof. apply ok_or_no_panic. Qed.
Lemma catalog_save_no_panic io s f : no_panic (catalog_save io s f).2.
Proof.
  unfold catalog_save. pose proof (rejected_no_panic _ (validate_stored_no_panic s)) as Hv.
  destruct (rejected (validate_stored s)) as [u|e|]; [|done|done]. case_if_as E; [done|]. case_if_as E2; [done|].
  by destruct (atomic_replace _ _ _ _ _) as [f' [|]].
Qed.

(** ** A call *)
Inductive catalog_op :=
| AddGame (request : AddGameRequest)
| ImportGames (requests : list AddGameRequest)
| UpdateLaunch (id : Z) (launch : CatalogLaunch)
| RefreshLaunches (requests : list AddGameRequest)
| UpdateProfile (id : Z) (profile : PerGameProfile)
| RemoveGame (id : Z)
| UpdateGlobal (profile : GlobalGameProfile)
| UpdateReplay (settings : ReplaySettings).
Definition ignore {S E A} (m : st S E A) : st S E unit := _ ← m; mret tt.
Definition catalog_call (io : save_io) (op : catalog_op) : st pref_entry CatalogError unit :=
  match op with
  | AddGame r => ignore (catalog_add host r io)
  | ImportGames rs => ignore (catalog_import host rs io)
  | UpdateLaunch id launch => ignore (catalog_update_launch host id launch io)
  | RefreshLaunches rs => ignore (refresh_discovered_launches host rs io)
  | UpdateProfile id profile => ignore (catalog_update_profile id profile io)
  | RemoveGame id => ignore (catalog_remove id io)
  | UpdateGlobal profile => ignore (catalog_update_global_profile profile io)
  | UpdateReplay settings => ignore (catalog_update_global_replay_settings settings io)
  end.
(** Values of their Rust types. *)
Definition op_typed (op : catalog_op) : Prop :=
  match op with
  | AddGame r => request_typed r
  | ImportGames rs | RefreshLaunches rs => Forall request_typed rs
  | UpdateLaunch _ launch => launch_typed launch
  | UpdateGlobal profile => global_typed profile
  | UpdateProfile _ _ | RemoveGame _ | UpdateReplay _ => True
  end.

(** From a file with the catalog [s]: it holds one that [s] evolves to. *)
Definition call_safe {A} (m : st pref_entry CatalogError A) (f : pref_entry) (s : StoredCatalog) : Prop :=
  exists s', load_stored (m f).1 = Ok s' /\ evolves s s' /\ no_panic (m f).2.
Lemma ignore_safe {A} (m : st pref_entry CatalogError A) f s : call_safe m f s -> call_safe (ignore m) f s.
Proof.
  intros (s' & H1 & H2 & H3). exists s'. unfold ignore, mbind, st_bind. destruct (m f) as [f' [a|e|]]; by cbn in *.
Qed.
Lemma lift_safe {A} (m : outcome CatalogError A) f s : load_stored f = Ok s -> no_panic m -> call_safe (lift m) f s.
Proof. intros Hl Hm. by exists s. Qed.
Lemma saved_safe {A} io f s s' (a : A) : load_stored f = Ok s -> catalog_typed s' -> evolves s s' ->
  call_safe (fun f => match catalog_save io s' f with (f, r) => (f, _ ← r; Ok a) end) f s.
Proof.
  intros Hl Ht He. pose proof (catalog_save_wrote io s' f Ht) as H. pose proof (catalog_save_no_panic io s' f) as Hp.
  unfold call_safe. destruct (catalog_save io s' f) as [f' r]. destruct H as [[->|[_ H]] _]; [exists s|exists s']; (split; [exact Hl||exact H|]);
    (split; [done||exact He|]); destruct r; done.
Qed.
Lemma with_stored_safe {A} (change : StoredCatalog -> outcome CatalogError (StoredCatalog * A)) io f s : load_stored f = Ok s -> no_panic (change s) ->
  (forall s' a, change s = Ok (s', a) -> catalog_typed s' /\ evolves s s') -> call_safe (with_stored change io) f s.
Proof.
  intros Hl Hp Hc. unfold call_safe, with_stored. rewrite Hl. cbn [mbind outcome_bind]. destruct (change s) as [[s' a]|e|] eqn:E; [|by exists s|done].
  destruct (Hc s' a eq_refl) as [Ht He]. exact (saved_safe io f s s' a Hl Ht He).
Qed.
Lemma add_safe io r f s : load_stored f = Ok s -> request_typed r -> call_safe (catalog_add host r io) f s.
Proof.
  intros Hl Hr. pose proof (load_stored_valid f s Hl) as [Ht _]. apply with_stored_safe; [exact Hl|..].
  - case_if_as E; [done|]. apply bind_no_panic; [apply normalize_request_no_panic|intros n _]. case_if_as E2; [done|].
    apply bind_no_panic; [apply new_game_no_panic|by intros [g next] _].
  - intros s' a. case_if_as E; [done|]. intros H. apply bind_Ok in H as (n & Hn & H). case_if_in H E2; [done|].
    apply bind_Ok in H as ([g next] & Hg & H). injection H as <- <-. apply normalize_request_ok in Hn as [Hn _]; [|exact Hr].
    destruct (new_games_ok (next_id s) [n] [g] next) as (H1 & H2 & H3); [cbn [new_games]; by rewrite Hg|by constructor|by apply ct_next|].
    by apply append_games.
Qed.
Lemma import_safe io rs f s : load_stored f = Ok s -> Forall request_typed rs -> call_safe (catalog_import host rs io) f s.
Proof.
  intros Hl Hr. pose proof (load_stored_valid f s Hl) as [Ht _]. unfold catalog_import. case_if_as E0; [by apply lift_safe|]. apply with_stored_safe; [exact Hl|..].
  - case_if_as E; [done|]. apply bind_no_panic; [apply normalize_requests_no_panic|intros n _]. case_if_as E2; [done|].
    apply bind_no_panic; [apply new_games_no_panic|by intros [g next] _].
  - intros s' a. case_if_as E; [done|]. intros H. apply bind_Ok in H as (n & Hn & H). case_if_in H E2; [done|].
    apply bind_Ok in H as ([g next] & Hg & H). injection H as <- <-. apply normalize_requests_ok in Hn; [|exact Hr].
    apply new_games_ok in Hg as (H1 & H2 & H3); [|exact Hn|by apply ct_next]. by apply append_games.
Qed.
Lemma update_launch_safe io id launch f s : load_stored f = Ok s -> launch_typed launch -> call_safe (catalog_update_launch host id launch io) f s.
Proof.
  intros Hl Hlaunch. pose proof (load_stored_valid f s Hl) as [Ht _]. apply with_stored_safe; [exact Hl|..].
  - apply bind_no_panic; [apply find_game_no_panic|intros g _]. apply bind_no_panic; [apply normalize_request_no_panic|intros n _]. cbn zeta. by case_if_as E.
  - intros s' a H. apply bind_Ok in H as (g & Hg & H). apply bind_Ok in H as (n & Hn & H). cbn zeta in H. case_if_in H E; [done|]. injection H as <- _.
    apply find_game_Ok in Hg as [Hg _]. assert (Hgt : game_typed g) by (eapply Forall_forall; [apply Ht|exact Hg]).
    apply normalize_request_ok in Hn as [Hn _]; [|apply game_request_typed; [exact Hgt|exact Hlaunch|by destruct Hgt]].
    apply change_game_step; [exact Ht|]. intros x _ Hx. by apply set_launch_typed.
Qed.
Lemma refresh_safe io rs f s : load_stored f = Ok s -> Forall request_typed rs -> call_safe (refresh_discovered_launches host rs io) f s.
Proof.
  intros Hl Hr. pose proof (load_stored_valid f s Hl) as [Ht _]. unfold call_safe, refresh_discovered_launches. case_if_as E; [by exists s|].
  rewrite Hl. pose proof (normalize_requests_no_panic rs) as Hp. destruct (normalize_requests host rs) as [ns|e|] eqn:En; cbn [mbind outcome_bind]; [|by exists s|done].
  pose proof (refresh_each_no_panic ns (sc_games s) [] []) as Hp'. destruct (refresh_each host ns (sc_games s) [] []) as [[games updated]|e|] eqn:Er; [|by exists s|done].
  cbn [mbind outcome_bind]. case_if_as E2; [by exists s|]. pose proof (rejected_no_panic _ (validate_stored_no_panic (with_games games s))) as Hv.
  destruct (rejected (validate_stored (with_games games s))) as [u|e|]; [|by exists s|done].
  apply refresh_each_ok in Er as [H1 H2]; [|by eapply normalize_requests_ok|by apply ct_games].
  apply (saved_safe io f s); [exact Hl|by apply with_games_typed|]. apply with_games_evolves. intros g' Hg'.
  apply list_elem_of_lookup_1 in Hg' as [i Hi]. destruct (Forall2_lookup_r _ _ _ _ _ H2 Hi) as (g & Hg & Hren). exists g. split; [by eapply list_elem_of_lookup_2|exact Hren].
Qed.
Lemma profile_safe io id profile f s : load_stored f = Ok s -> call_safe (catalog_update_profile id profile io) f s.
Proof.
  intros Hl. pose proof (load_stored_valid f s Hl) as [Ht _]. apply with_stored_safe; [exact Hl|by apply bind_no_panic; [apply find_game_no_panic|]|].
  intros s' a H. apply bind_Ok in H as (g & _ & H). injection H as <- _. apply change_game_step; [exact Ht|]. by intros x _ [].
Qed.
Lemma remove_safe io id f s : load_stored f = Ok s -> call_safe (catalog_remove id io) f s.
Proof.
  intros Hl. pose proof (load_stored_valid f s Hl) as [Ht _]. apply with_stored_safe; [exact Hl|by apply bind_no_panic; [apply find_game_no_panic|]|].
  intros s' a H. apply bind_Ok in H as (g & _ & H). injection H as <- _. split.
  - apply with_games_typed; [exact Ht|]. apply Forall_forall. intros x Hx. apply remove_first_elem in Hx. eapply Forall_forall; [by apply ct_games|exact Hx].
  - apply with_games_evolves. intros x Hx. exists x. split; [by eapply remove_first_elem|done].
Qed.
Lemma global_safe io profile f s : load_stored f = Ok s -> global_typed profile -> call_safe (catalog_update_global_profile profile io) f s.
Proof.
  intros Hl Hg. pose proof (load_stored_valid f s Hl) as [[_ Ht Hn] _]. apply with_stored_safe; [exact Hl|done|]. intros s' a H. injection H as <- _.
  split; [by constructor|apply with_global_evolves].
Qed.
Lemma call_is_safe io op f s : load_stored f = Ok s -> op_typed op -> call_safe (catalog_call io op) f s.
Proof.
  intros Hl Ho. destruct op; cbn [catalog_call op_typed] in *; apply ignore_safe.
  - by apply add_safe.
  - by apply import_safe.
  - by apply update_launch_safe.
  - by apply refresh_safe.
  - by apply profile_safe.
  - by apply remove_safe.
  - by apply global_safe.
  - pose proof (load_stored_valid f s Hl) as [[[] Ht Hn] _].
    unfold catalog_update_global_replay_settings. apply with_stored_safe; [exact Hl|done|]. intros s' a H. injection H as <- _.
    split; [constructor; [by constructor|exact Ht|exact Hn]|apply with_global_evolves].
Qed.
End Steps.

(** * Any sequence of calls *)
Definition catalog_run (host : Host) (calls : list (save_io * catalog_op)) (f : pref_entry) : pref_entry :=
  foldl (fun f call => (catalog_call host call.1 call.2 f).1) f calls.
Lemma run_is_safe host calls f s : (forall path canonical, canonicalize host path = Some canonical -> is_bytes canonical) ->
  load_stored f = Ok s -> Forall (fun call => op_typed call.2) calls ->
  exists s', load_stored (catalog_run host calls f) = Ok s' /\ evolves s s'.
Proof.
  intros Hh. revert f s. induction calls as [|[io op] calls IH]; intros f s Hl Ho; [by exists s|]. apply Forall_cons in Ho as [Ho Hos].
  destruct (call_is_safe host Hh io op f s Hl Ho) as (s1 & H1 & H2 & _). destruct (IH _ s1 H1 Hos) as (s2 & H3 & H4).
  exists s2. split; [exact H3|by transitivity s1].
Qed.

(** C28: A catalog through any sequence of additions, imports, changes, discovery
    refreshes and removals, on a disk whose calls may fail at any point: the file
    always loads; the identifiers of its games are distinct and below the next
    one, and no two of their rules name the same executable; an identifier is
    never given twice, so a game whose identifier was already given is one the
    catalog had, under its name; and no call panics. *)
Theorem catalog_history host calls f s :
  (forall path canonical, canonicalize host path = Some canonical -> is_bytes canonical) ->
  load_stored f = Ok s -> Forall (fun call => op_typed call.2) calls ->
  exists s', load_stored (catalog_run host calls f) = Ok s' /\ catalog_typed s' /\ zlen (sc_games s') <= MAX_GAMES
    /\ NoDup (map cg_id (sc_games s')) /\ NoDup (sc_games s' ≫= executable_keys) /\ Forall (fun g => 0 < cg_id g < next_id s') (sc_games s')
    /\ next_id s <= next_id s'
    /\ (forall g', g' ∈ sc_games s' -> cg_id g' < next_id s -> exists g, g ∈ sc_games s /\ cg_id g = cg_id g' /\ cg_display_name g = cg_display_name g')
    /\ (forall io op, op_typed op -> (catalog_call host io op (catalog_run host calls f)).2 <> Panic).
Proof.
  intros Hh Hl Ho. destruct (run_is_safe host calls f s Hh Hl Ho) as (s' & H & [Hn Hg]). exists s'. destruct (load_stored_sound _ _ H). splits; try done.
  - intros g' Hg' Hid. destruct (Hg g' Hg') as [Hr|Hr]; [exact Hr|lia].
  - intros io op Hop. by destruct (call_is_safe host Hh io op _ s' H Hop) as (_ & _ & _ & Hp).
Qed.

(** * A game that is added, removed and added again *)
Module HistorySample.
Import CatalogSample.
Definition demo_host : Host := {|
  executable_file path := if bytes_eqb path executable then Some true else None;
  directory_at _ := None;
  canonicalize path := if bytes_eqb path executable then Some executable else None |}.
Definition request : AddGameRequest := {|
  rq_display_name := ascii_bytes "Quake"%string;
  rq_launch := {| cl_executable := executable; cl_arguments := []; cl_working_directory := None |};
  rq_match_rules := [CatalogSteamAppId 2310]; rq_identity := DirectExecutable |}.
Definition good : save_io := {| created := true; made_private := true; attempts _ := Replaced |}.
Definition calls : list (save_io * catalog_op) :=
  [(good, AddGame request); (good, AddGame request); (good, RemoveGame 1);
   ({| created := true; made_private := true; attempts _ := WriteFails |}, AddGame request); (good, AddGame request)].
Lemma executable_is_bytes : is_bytes executable.
Proof. apply (lt_executable _ (gt_launch _ quake_typed)). Qed.
Lemma request_is_typed : request_typed request.
Proof.
  constructor; [apply (gt_name _ quake_typed)| |].
  - constructor; [cbn; unfold U32_MAX; lia|constructor].
  - constructor; [apply executable_is_bytes|constructor|done].
Qed.
Lemma demo_host_typed path canonical : canonicalize demo_host path = Some canonical -> is_bytes canonical.
Proof. cbn [canonicalize demo_host]. case_if_as E; [|done]. intros [= <-]. apply executable_is_bytes. Qed.
Lemma catalog_history_witness :
  exists s', load_stored (catalog_run demo_host calls NotFound) = Ok s' /\ map cg_id (sc_games s') = [2] /\ NoDup (map cg_id (sc_games s')).
Proof.
  destruct (catalog_history demo_host calls NotFound StoredCatalog_default demo_host_typed) as (s' & H & _ & _ & Hids & _).
  - reflexivity.
  - repeat (apply Forall_cons; split; [first [apply request_is_typed|exact I]|]). apply Forall_nil. exact I.
  - exists s'. split; [exact H|]. split; [|exact Hids]. revert H. vm_compute. intros [= <-]. reflexivity.
Defined.
End HistorySample.
