(* ===== verification/CatalogResolve.v ===== *)
(** The game of a process: what the catalog and the resolution of game.rs give
    together. *)
From stdpp Require Import strings.
From S2P Require Import Prelude Bytes Text Profiles Paths Preferences Catalog CatalogFacts CatalogHistory.
Local Open Scope Z_scope.

(** * Scores *)
Lemma record_score_ge p g rule : rule ∈ cg_match_rules g -> match_score (rule_of rule) p <= record_score p (record_of g).
Proof. intros H. apply record_score_max. by apply (list_elem_of_fmap_2 rule_of). Qed.
Lemma record_score_le p g n : 0 <= n -> (forall rule, rule ∈ cg_match_rules g -> match_score (rule_of rule) p <= n) -> record_score p (record_of g) <= n.
Proof.
  intros Hn H. destruct (record_score_cases p (record_of g)) as [[-> _]|(rule & Hr & ->)]; [exact Hn|].
  apply list_elem_of_fmap in Hr as (r & -> & Hr). by apply H.
Qed.

(** The process runs an executable that a rule of [g] names. *)
Definition runs (p : GameProcess) (g : CatalogGame) : Prop := exists path, CatalogExecutable path ∈ cg_match_rules g /\ executable p = components path.
(** A launcher says that the process is [g]. *)
Definition launched_as (p : GameProcess) (g : CatalogGame) : Prop := exists app_id, CatalogSteamAppId app_id ∈ cg_match_rules g /\ steam_app_id p = Some app_id.
Lemma runs_key p g : runs p g <-> inr (executable p) ∈ executable_keys g.
Proof.
  unfold executable_keys, executables, strong_identities. rewrite list_elem_of_fmap. split.
  - intros (path & Hr & He). exists (StrongExecutable path). split; [cbn; by rewrite He|]. apply list_elem_of_In, List.filter_In. split; [|done].
    apply list_elem_of_In, list_elem_of_omap. by exists (CatalogExecutable path).
  - intros (i & Hi & H). apply list_elem_of_In, List.filter_In in H as [H _]. apply list_elem_of_In, list_elem_of_omap in H as (r & Hr & H).
    destruct r as [a|path|n]; [injection H as <-; done|injection H as <-|done]. injection Hi as Hi. by exists path.
Qed.
Lemma runs_score p g : runs p g -> 90 <= record_score p (record_of g).
Proof.
  intros (path & Hr & He). transitivity (match_score (rule_of (CatalogExecutable path)) p); [|by apply record_score_ge].
  cbn. by rewrite bool_decide_true.
Qed.
Lemma other_score p g : ~ runs p g -> ~ launched_as p g -> record_score p (record_of g) <= 50.
Proof.
  intros Hr Hl. apply record_score_le; [lia|]. intros [a|path|n] H; cbn [rule_of match_score].
  - case_bool_decide as E; [|lia]. destruct Hl. by exists a.
  - case_bool_decide as E; [|lia]. destruct Hr. by exists path.
  - destruct (_ || _); lia.
Qed.

(** * Resolution *)
Lemma find_unique games g : NoDup (map cg_id games) -> g ∈ games -> List.find (fun x => cg_id x =? cg_id g) games = Some g.
Proof.
  induction games as [|x games IH]; [by intros _ ?%elem_of_nil|]. cbn [map List.find]. intros [Hx Hn]%NoDup_cons Hg. apply elem_of_cons in Hg as [->|Hg].
  - by rewrite Z.eqb_refl.
  - destruct (Z.eqb_spec (cg_id x) (cg_id g)) as [E|E]; [|by apply IH]. destruct Hx. rewrite E. by apply list_elem_of_fmap_2.
Qed.
Lemma only_one_runs games g1 g g2 p : games = g1 ++ g :: g2 -> NoDup (games ≫= executable_keys) -> runs p g -> forall x, x ∈ g1 ++ g2 -> ~ runs p x.
Proof.
  intros -> H Hg x Hx Hr. apply runs_key in Hg, Hr. rewrite <- Permutation_middle in H. apply NoDup_app in H as (_ & H & _).
  apply (H (inr (executable p)) Hg). apply list_elem_of_bind. by exists x.
Qed.
(** The game whose executable the process runs, when no launcher says otherwise. *)
Lemma resolve_running f s g p : load_stored f = Ok s -> g ∈ sc_games s -> runs p g ->
  (forall x, x ∈ sc_games s -> cg_id x <> cg_id g -> ~ launched_as p x) ->
  resolve_process f p = Ok {| resolution := Automatic {| game_id_value := cg_id g |};
                              effective_profile := Some (profile_resolve (cg_profile g) (sc_global_profile s)) |}.
Proof.
  intros Hl Hg Hr Hothers. destruct (load_stored_sound _ _ Hl) as [_ _ _ Hids Hex _]. unfold resolve_process. rewrite Hl. cbn [mbind outcome_bind].
  assert (Ha : resolve_game (map record_of (sc_games s)) p = Automatic {| game_id_value := cg_id g |}).
  { apply resolve_automatic_iff. destruct (list_elem_of_split _ _ Hg) as (g1 & g2 & E). exists (map record_of g1), (record_of g), (map record_of g2).
    pose proof (runs_score p g Hr) as Hs. splits.
    - by rewrite E, map_app.
    - done.
    - apply strong_match_score. lia.
    - rewrite <- map_app. apply Forall_map, Forall_forall. intros x Hx. cbn beta.
      assert (record_score p (record_of x) <= 50); [|lia]. apply other_score; [by eapply only_one_runs|]. apply Hothers.
      + rewrite E. revert Hx. rewrite !elem_of_app, elem_of_cons. tauto.
      + intros Eid. rewrite E, map_app in Hids. cbn [map] in Hids. rewrite <- Permutation_middle in Hids. apply NoDup_cons in Hids as [Hids _].
        apply Hids. rewrite <- Eid, <- map_app. by apply list_elem_of_fmap_2. }
  rewrite Ha. cbn [game_id_value]. by rewrite find_unique.
Qed.

(** * A game that was just added *)
Lemma with_stored_Ok {A} (change : StoredCatalog -> outcome CatalogError (StoredCatalog * A)) io f s f' a :
  load_stored f = Ok s -> with_stored change io f = (f', Ok a) -> exists s', change s = Ok (s', a) /\ (catalog_typed s' -> load_stored f' = Ok s').
Proof.
  intros Hl. unfold with_stored. rewrite Hl. cbn [mbind outcome_bind]. destruct (change s) as [[s' a']|e|]; [|done|done].
  pose proof (catalog_save_wrote io s' f) as Hw. destruct (catalog_save io s' f) as [f1 r]. destruct r as [u|e|]; cbn [mbind outcome_bind]; [|done|done].
  intros [= <- <-]. exists s'. split; [done|]. intros Ht. destruct (Hw Ht) as [_ H]. by destruct (H u eq_refl) as (_ & H' & _).
Qed.
Lemma normalize_each_keeps rules acc normalized r : normalize_each rules acc = Ok normalized -> r ∈ acc -> r ∈ normalized.
Proof.
  revert acc. induction rules as [|x rules IH]; intros acc; cbn [normalize_each]; [by intros [= ->]|]. rewrite then_ok. intros [_ H] Hr.
  apply (IH _ H). case_if_as E; [done|]. rewrite elem_of_app. by left.
Qed.
Lemma normalized_direct host r n : normalize_request host r = Ok n -> rq_identity r = DirectExecutable ->
  CatalogExecutable (cl_executable (rq_launch n)) ∈ rq_match_rules n.
Proof.
  unfold normalize_request. rewrite !then_ok. intros (_ & _ & _ & H) Hd. rewrite Hd in H. apply bind_Ok in H as (b & _ & H). case_if_in H E; [done|].
  apply bind_Ok in H as (ex & Hex & H). apply bind_Ok in H as (rules & Hrules & H). apply bind_Ok in H as (directory & Hdir & H). injection H as <-.
  cbn [rq_launch cl_executable rq_match_rules]. unfold rejected, normalize_match_rules in Hrules. apply map_err_Ok in Hrules. case_if_in Hrules E2; [done|].
  apply bind_Ok in Hrules as (l & Hn & Hrules). apply then_ok in Hrules as [_ Hrules]. injection Hrules as <-.
  unfold match_rules_for in Hn. cbn [app normalize_each] in Hn. apply then_ok in Hn as [_ Hn]. eapply normalize_each_keeps; [exact Hn|]. by left.
Qed.

(** C29: A game that is added by its executable is recognised from then on: the
    addition succeeds only when no game's rules name the executable; the file then
    loads with the game behind those it had, under an identifier that was never
    given; and a process that runs the executable resolves to it automatically,
    with the global profile, whatever else matches by name, unless a launcher
    says that the process is another game. *)
Theorem added_game_resolves host io request f s f' game p :
  (forall path canonical, canonicalize host path = Some canonical -> is_bytes canonical) ->
  load_stored f = Ok s -> request_typed request -> rq_identity request = DirectExecutable ->
  catalog_add host request io f = (f', Ok game) ->
  executable p = components (cl_executable (cg_launch game)) -> (forall g, g ∈ sc_games s -> ~ launched_as p g) ->
  (forall g, g ∈ sc_games s -> ~ runs p g)
  /\ (exists s', load_stored f' = Ok s' /\ sc_games s' = sc_games s ++ [game] /\ sc_global_profile s' = sc_global_profile s)
  /\ cg_id game = next_id s
  /\ resolve_process f' p = Ok {| resolution := Automatic {| game_id_value := cg_id game |};
                                  effective_profile := Some (profile_resolve PerGameProfile_default (sc_global_profile s)) |}.
Proof.
  intros Hh Hl Hr Hd Ha He Hp. destruct (load_stored_valid f s Hl) as [Ht _]. destruct (with_stored_Ok _ io f s f' game Hl Ha) as (s' & Hc & Hload).
  case_if_in Hc E; [done|]. apply bind_Ok in Hc as (n & Hn & Hc). case_if_in Hc E2; [done|]. apply bind_Ok in Hc as ([g next] & Hg & Hc). injection Hc as <- ->.
  pose proof (normalized_direct _ _ _ Hn Hd) as Hrule. apply normalize_request_ok in Hn as [Hn _]; [|exact Hh|exact Hr].
  destruct (new_games_ok (next_id s) [n] [game] next) as (H1 & H2 & H3); [cbn [new_games]; by rewrite Hg|by constructor|by apply ct_next|].
  destruct (append_games s [game] next Ht H1 H2 H3) as [Ht' _]. specialize (Hload Ht').
  unfold new_game in Hg. case_if_in Hg E3; [done|]. apply bind_Ok in Hg as (x & _ & Hg). injection Hg as <- ->. cbn [cg_launch cl_executable cg_id] in *.
  set (game := {| cg_id := next_id s; cg_display_name := rq_display_name n; cg_match_rules := rq_match_rules n; cg_launch := rq_launch n; cg_profile := PerGameProfile_default |}) in *.
  assert (Hruns : runs p game) by by exists (cl_executable (rq_launch n)).
  splits.
  - intros x Hx. eapply (only_one_runs (sc_games s ++ [game]) (sc_games s) game []); [done|apply (load_stored_sound _ _ Hload)|exact Hruns|by rewrite app_nil_r].
  - eexists. split; [exact Hload|done].
  - done.
  - rewrite (resolve_running f' _ game p Hload); [done|apply elem_of_app; right; by left|exact Hruns|].
    intros y Hy Hid. apply elem_of_app in Hy as [Hy|Hy]; [by apply Hp|]. by apply list_elem_of_singleton in Hy as ->.
Qed.

(** * The sample's game, found by its executable *)
Module ResolveSample.
Import CatalogSample HistorySample.
Definition process : GameProcess := {|
  pid := 4242; comm := "quake.x86"%string; Profiles.executable := components CatalogSample.executable; steam_app_id := None; game_mode_active := false |}.
Lemma added_game_resolves_witness :
  exists f' game, catalog_add demo_host request good NotFound = (f', Ok game)
    /\ resolve_process f' process = Ok {| resolution := Automatic {| game_id_value := 1 |};
         effective_profile := Some (profile_resolve PerGameProfile_default GlobalGameProfile_default) |}.
Proof.
  assert (H : exists f' game, catalog_add demo_host request good NotFound = (f', Ok game) /\ cl_executable (cg_launch game) = CatalogSample.executable).
  { eexists _, _. split; vm_compute; reflexivity. }
  destruct H as (f' & game & Ha & He). exists f', game. split; [exact Ha|].
  destruct (added_game_resolves demo_host good request NotFound StoredCatalog_default f' game process demo_host_typed) as (_ & _ & Hid & Hr);
    [reflexivity|apply request_is_typed|reflexivity|exact Ha|rewrite He; reflexivity|intros g Hg; destruct (not_elem_of_nil g Hg)|].
  rewrite Hid in Hr. exact Hr.
Defined.
End ResolveSample.
