(* ===== verification/Replay.v ===== *)
(** Replay readiness, budget and lifecycle
    (crates/redunar-daemon/src/replay.rs). *)
From S2P Require Import Prelude Profiles.
Local Open Scope Z_scope.

Definition BYTES_PER_MEGABIT : Z := 1000000 / 8.
Definition CONTAINER_HEADROOM_PERCENT : Z := 10.

Inductive ReplayPhase := Unavailable | Inactive | Buffering | Saving | Failed.
#[global] Instance ReplayPhase_eq_dec : EqDecision ReplayPhase.
Proof. solve_decision. Defined.

Inductive ReplayRecorderHealth :=
| HealthInactive | HealthStarting | HealthHealthy | HealthStalled | HealthFailed.

Inductive ReplayFailure :=
| FrameSourceLost | EncoderFailed | ContainerFailed | StorageFailed | ResourceBudgetExceeded.

Inductive ReplayUnavailableReason := BackendNotVerified.

Inductive ReplayCapability :=
| CapabilityUnavailable (reason : ReplayUnavailableReason)
| ValidationCandidate
| Available.

(** * Readiness: one verification bit per backend component *)
Inductive ReplayBackendComponent :=
| EncodedPacketRing | AtomicClipStore | LiveFrameTransfer
| HardwareEncoder | PlayableContainer | PerformanceBudget.

Record ReplayBackendReadiness := { readiness_bits : Z }.

Definition component_bit (component : ReplayBackendComponent) : Z :=
  match component with
  | EncodedPacketRing => Z.shiftl 1 0
  | AtomicClipStore => Z.shiftl 1 1
  | LiveFrameTransfer => Z.shiftl 1 2
  | HardwareEncoder => Z.shiftl 1 3
  | PlayableContainer => Z.shiftl 1 4
  | PerformanceBudget => Z.shiftl 1 5
  end.
Definition READINESS_REQUIRED : Z :=
  or_bits (map component_bit [EncodedPacketRing; AtomicClipStore; LiveFrameTransfer;
                              HardwareEncoder; PlayableContainer; PerformanceBudget]).
(** [REQUIRED & !PERFORMANCE_BUDGET] on a [u8]. *)
Definition READINESS_VALIDATION_REQUIRED : Z :=
  Z.land READINESS_REQUIRED (Z.lxor U8_MAX (component_bit PerformanceBudget)).

Definition headless_foundation : ReplayBackendReadiness :=
  {| readiness_bits := Z.lor (component_bit EncodedPacketRing) (component_bit AtomicClipStore) |}.
Definition hardware_validation_candidate : ReplayBackendReadiness :=
  {| readiness_bits := READINESS_VALIDATION_REQUIRED |}.
Definition fully_verified : ReplayBackendReadiness := {| readiness_bits := READINESS_REQUIRED |}.

Definition validation_allowed (r : ReplayBackendReadiness) : bool :=
  Z.land (readiness_bits r) READINESS_VALIDATION_REQUIRED =? READINESS_VALIDATION_REQUIRED.
Definition activation_allowed (r : ReplayBackendReadiness) : bool :=
  Z.land (readiness_bits r) READINESS_REQUIRED =? READINESS_REQUIRED.
Definition is_verified (r : ReplayBackendReadiness) (component : ReplayBackendComponent) : bool :=
  negb (Z.land (readiness_bits r) (component_bit component) =? 0).
Definition readiness_capability (r : ReplayBackendReadiness) : ReplayCapability :=
  if activation_allowed r then Available
  else if validation_allowed r then ValidationCandidate
  else CapabilityUnavailable BackendNotVerified.

(** * Budget *)
Record ReplayBudget := {
  frame_capacity : Z;
  target_bitrate_megabits_per_second : Z;
  maximum_ring_bytes : Z;
  storage_limit_bytes : Z;
  minimum_full_clip_capacity : Z;
}.

Definition budget_from_settings (settings : ReplaySettings) : ReplayBudget :=
  let seconds := duration_seconds (duration settings) in
  let rate_multiplier := if is_variable (frame_rate settings) then 2 else 1 in
  let fps := sat_mul U64_MAX (frames_per_second (frame_rate settings)) rate_multiplier in
  let bitrate := target_megabits_per_second (quality settings) in
  let video_bytes :=
    sat_mul U64_MAX (sat_mul U64_MAX (sat_mul U64_MAX seconds bitrate) BYTES_PER_MEGABIT)
      rate_multiplier in
  let ring_bytes :=
    div_ceil (sat_mul U64_MAX video_bytes (100 + CONTAINER_HEADROOM_PERCENT)) 100 in
  let full_clips := U64_MAX / Z.max ring_bytes 1 in
  {| frame_capacity := unwrap_or (try_from U32_MAX (sat_mul U64_MAX seconds fps)) U32_MAX;
     target_bitrate_megabits_per_second := bitrate;
     maximum_ring_bytes := ring_bytes;
     storage_limit_bytes := U64_MAX;
     minimum_full_clip_capacity := unwrap_or (try_from U32_MAX full_clips) U32_MAX |}.

(** * Runtime status *)
Record ReplayRuntimeStatus := {
  phase : ReplayPhase;
  capability : ReplayCapability;
  backend_readiness : ReplayBackendReadiness;
  last_failure : option ReplayFailure;
  completed_save_revision : Z;
  buffered_duration_ns : Z;
  received_frame_count : Z;
  encoded_packet_count : Z;
  audio_packet_count : Z;
  audio_byte_count : Z;
  audio_active : bool;
  recorder_health : ReplayRecorderHealth;
  settings : ReplaySettings;
  budget : ReplayBudget;
}.

Definition initial_status (p : ReplayPhase) (r : ReplayBackendReadiness) (s : ReplaySettings)
    : ReplayRuntimeStatus := {|
  phase := p;
  capability := readiness_capability r;
  backend_readiness := r;
  last_failure := None;
  completed_save_revision := 0;
  buffered_duration_ns := 0;
  received_frame_count := 0;
  encoded_packet_count := 0;
  audio_packet_count := 0;
  audio_byte_count := 0;
  audio_active := false;
  recorder_health := HealthInactive;
  settings := s;
  budget := budget_from_settings s;
|}.
Definition status_unavailable (s : ReplaySettings) : ReplayRuntimeStatus :=
  initial_status Unavailable headless_foundation s.
Definition status_validation_candidate (s : ReplaySettings) : ReplayRuntimeStatus :=
  initial_status Inactive hardware_validation_candidate s.

(** [ReplayRuntimeStatus { phase, last_failure, completed_save_revision, ..status }]. *)
Definition with_phase (p : ReplayPhase) (failure : option ReplayFailure) (revision : Z)
    (s : ReplayRuntimeStatus) : ReplayRuntimeStatus := {|
  phase := p;
  capability := capability s;
  backend_readiness := backend_readiness s;
  last_failure := failure;
  completed_save_revision := revision;
  buffered_duration_ns := buffered_duration_ns s;
  received_frame_count := received_frame_count s;
  encoded_packet_count := encoded_packet_count s;
  audio_packet_count := audio_packet_count s;
  audio_byte_count := audio_byte_count s;
  audio_active := audio_active s;
  recorder_health := recorder_health s;
  settings := settings s;
  budget := budget s;
|}.

(** * Lifecycle transitions *)
Inductive ReplayStartError := replay_start_error.
Inductive ReplayTransitionError := replay_transition_error.

Definition request_start (s : ReplayRuntimeStatus) : outcome ReplayStartError ReplayRuntimeStatus :=
  match capability s, activation_allowed (backend_readiness s), phase s with
  | Available, true, Inactive => Ok (with_phase Buffering None (completed_save_revision s) s)
  | ValidationCandidate, false, Inactive =>
      if validation_allowed (backend_readiness s)
      then Ok (with_phase Buffering None (completed_save_revision s) s)
      else Err replay_start_error
  | _, _, _ => Err replay_start_error
  end.

Definition begin_save (s : ReplayRuntimeStatus) : outcome ReplayTransitionError ReplayRuntimeStatus :=
  match phase s with
  | Buffering => Ok (with_phase Saving (last_failure s) (completed_save_revision s) s)
  | _ => Err replay_transition_error
  end.

Definition complete_save (s : ReplayRuntimeStatus) : outcome ReplayTransitionError ReplayRuntimeStatus :=
  match phase s with
  | Saving => Ok (with_phase Buffering (last_failure s)
                    (sat_add U64_MAX (completed_save_revision s) 1) s)
  | _ => Err replay_transition_error
  end.

Definition fail (s : ReplayRuntimeStatus) (failure : ReplayFailure)
    : outcome ReplayTransitionError ReplayRuntimeStatus :=
  match phase s with
  | Buffering | Saving => Ok (with_phase Failed (Some failure) (completed_save_revision s) s)
  | _ => Err replay_transition_error
  end.

Definition stop (s : ReplayRuntimeStatus) : outcome ReplayTransitionError ReplayRuntimeStatus :=
  match phase s with
  | Buffering | Saving | Failed => Ok (with_phase Inactive None (completed_save_revision s) s)
  | _ => Err replay_transition_error
  end.

(** * The lifecycle as a transition system *)
Inductive replay_event := Start | BeginSave | CompleteSave | Fail_ (f : ReplayFailure) | Stop.

Inductive replay_step : ReplayRuntimeStatus -> replay_event -> ReplayRuntimeStatus -> Prop :=
| step_start s s' : request_start s = Ok s' -> replay_step s Start s'
| step_begin_save s s' : begin_save s = Ok s' -> replay_step s BeginSave s'
| step_complete_save s s' : complete_save s = Ok s' -> replay_step s CompleteSave s'
| step_fail s f s' : fail s f = Ok s' -> replay_step s (Fail_ f) s'
| step_stop s s' : stop s = Ok s' -> replay_step s Stop s'.

Inductive replay_trace : ReplayRuntimeStatus -> list replay_event -> ReplayRuntimeStatus -> Prop :=
| trace_nil s : replay_trace s [] s
| trace_snoc s es s1 e s2 :
    replay_trace s es s1 -> replay_step s1 e s2 -> replay_trace s (es ++ [e]) s2.

Definition is_complete (e : replay_event) : bool :=
  match e with CompleteSave => true | _ => false end.
Definition completed_saves (es : list replay_event) : Z := zlen (List.filter is_complete es).

(** The recorder holds capture or encoder resources. *)
Definition is_recording (p : ReplayPhase) : bool :=
  match p with Buffering | Saving | Failed => true | _ => false end.

(** A status nothing has started yet. *)
Definition is_fresh (s : ReplayRuntimeStatus) : Prop :=
  is_recording (phase s) = false /\ last_failure s = None /\ completed_save_revision s = 0.

Lemma activation_validation r : activation_allowed r = true -> validation_allowed r = true.
Proof.
  unfold activation_allowed, validation_allowed. rewrite !Z.eqb_eq. intros H.
  change READINESS_VALIDATION_REQUIRED
    with (Z.land READINESS_REQUIRED READINESS_VALIDATION_REQUIRED).
  by rewrite Z.land_assoc, H.
Qed.

(** What the start gate checks, whatever the capability flag claims. *)
Lemma request_start_Ok s s' :
  request_start s = Ok s' <->
  phase s = Inactive /\ s' = with_phase Buffering None (completed_save_revision s) s /\
  validation_allowed (backend_readiness s) = true /\
  capability s = (if activation_allowed (backend_readiness s) then Available else ValidationCandidate).
Proof.
  unfold request_start. pose proof (activation_validation (backend_readiness s)) as Hav.
  destruct (capability s), (activation_allowed (backend_readiness s)), (phase s); cbn;
    try (split; [done|intros (? & _ & _ & ?); done]).
  - destruct (validation_allowed (backend_readiness s)); naive_solver.
  - rewrite Hav by done. naive_solver.
Qed.


(** The gate of [request_start] on a status that waits to start. *)
Definition gate_open (s : ReplayRuntimeStatus) : Prop :=
  validation_allowed (backend_readiness s) = true /\
  capability s = (if activation_allowed (backend_readiness s) then Available else ValidationCandidate).

(** Abstract lifecycle: the phase automaton the operations implement. *)
Definition next_phase (p : ReplayPhase) (e : replay_event) : option ReplayPhase :=
  match p, e with
  | Inactive, Start => Some Buffering
  | Buffering, BeginSave => Some Saving
  | Saving, CompleteSave => Some Buffering
  | (Buffering | Saving), Fail_ _ => Some Failed
  | (Buffering | Saving | Failed), Stop => Some Inactive
  | _, _ => None
  end.

(** Every step rewrites only the phase, the failure and the save counter. *)
Lemma step_shape s e s' :
  replay_step s e s' ->
  exists p f, s' = with_phase p f
      (if is_complete e then sat_add U64_MAX (completed_save_revision s) 1
       else completed_save_revision s) s /\
    next_phase (phase s) e = Some p /\
    (e = Start -> gate_open s) /\
    f = match e with Start | Stop => None | Fail_ g => Some g | _ => last_failure s end.
Proof.
  destruct 1 as [s s' H|s s' H|s s' H|s g s' H|s s' H]; cbn.
  - apply request_start_Ok in H as (Hp & -> & Hv & Hc). rewrite Hp.
    do 2 eexists. splits; [done..| |done]. intros _. done.
  - unfold begin_save in H. destruct (phase s); inversion H; subst. by do 2 eexists.
  - unfold complete_save in H. destruct (phase s); inversion H; subst. by do 2 eexists.
  - unfold fail in H. destruct (phase s); inversion H; subst; by do 2 eexists.
  - unfold stop in H. destruct (phase s); inversion H; subst; by do 2 eexists.
Qed.

Lemma step_exists s e :
  is_Some (next_phase (phase s) e) -> (phase s = Inactive -> gate_open s) ->
  exists s', replay_step s e s'.
Proof.
  intros [p Hp] Hg.
  destruct (phase s) eqn:E, e; cbn in Hp; try done;
    try (eexists; econstructor; unfold begin_save, complete_save, fail, stop; by rewrite E).
  destruct (Hg eq_refl). eexists. apply step_start. by rewrite request_start_Ok.
Qed.

Lemma completed_saves_snoc es e :
  completed_saves (es ++ [e]) = completed_saves es + (if is_complete e then 1 else 0).
Proof.
  unfold completed_saves. rewrite List.filter_app, zlen_app. cbn. by destruct (is_complete e).
Qed.

Lemma completed_saves_nonneg es : 0 <= completed_saves es.
Proof. apply zlen_nonneg. Qed.

(** ** The gate, bit by bit *)
Definition component_index (c : ReplayBackendComponent) : Z :=
  match c with
  | EncodedPacketRing => 0 | AtomicClipStore => 1 | LiveFrameTransfer => 2
  | HardwareEncoder => 3 | PlayableContainer => 4 | PerformanceBudget => 5
  end.
Definition verified (r : ReplayBackendReadiness) (c : ReplayBackendComponent) : Prop :=
  Z.testbit (readiness_bits r) (component_index c) = true.

Lemma land_ones_bits x n : 0 <= n -> Z.land x (Z.ones n) = Z.ones n <-> forall i, 0 <= i < n -> Z.testbit x i = true.
Proof.
  intros Hn. split.
  - intros H i Hi. apply (f_equal (fun y => Z.testbit y i)) in H. rewrite Z.land_spec, Z.ones_spec_low in H by lia.
    by rewrite andb_true_r in H.
  - intros H. apply Z.bits_inj'. intros i Hi. rewrite Z.land_spec. destruct (decide (i < n)).
    + by rewrite H, Z.ones_spec_low by lia.
    + by rewrite Z.ones_spec_high, andb_false_r by lia.
Qed.
Lemma validation_verified r : validation_allowed r = true <-> forall c, c <> PerformanceBudget -> verified r c.
Proof.
  unfold validation_allowed. rewrite Z.eqb_eq. change READINESS_VALIDATION_REQUIRED with (Z.ones 5). rewrite land_ones_bits by lia. split.
  - intros H c Hc. apply H. by destruct c.
  - intros H i Hi. assert (i = 0 \/ i = 1 \/ i = 2 \/ i = 3 \/ i = 4) as [->|[->|[->|[->| ->]]]] by lia.
    + by apply (H EncodedPacketRing).
    + by apply (H AtomicClipStore).
    + by apply (H LiveFrameTransfer).
    + by apply (H HardwareEncoder).
    + by apply (H PlayableContainer).
Qed.
Lemma activation_verified r : activation_allowed r = true <-> forall c, verified r c.
Proof.
  unfold activation_allowed. rewrite Z.eqb_eq. change READINESS_REQUIRED with (Z.ones 6). rewrite land_ones_bits by lia. split.
  - intros H c. apply H. by destruct c.
  - intros H i Hi. assert (i = 0 \/ i = 1 \/ i = 2 \/ i = 3 \/ i = 4 \/ i = 5) as [->|[->|[->|[->|[->| ->]]]]] by lia.
    + by apply (H EncodedPacketRing).
    + by apply (H AtomicClipStore).
    + by apply (H LiveFrameTransfer).
    + by apply (H HardwareEncoder).
    + by apply (H PlayableContainer).
    + by apply (H PerformanceBudget).
Qed.
(** What a start needs: all components but the budget verified, and a capability
    flag that says of the budget what its bit says. *)
Definition may_start (s : ReplayRuntimeStatus) : Prop :=
  (forall c, c <> PerformanceBudget -> verified (backend_readiness s) c)
  /\ (capability s = Available /\ verified (backend_readiness s) PerformanceBudget
      \/ capability s = ValidationCandidate /\ ~ verified (backend_readiness s) PerformanceBudget).
Lemma gate_may_start s : gate_open s <-> may_start s.
Proof.
  unfold gate_open, may_start. rewrite validation_verified.
  enough (H : (forall c, c <> PerformanceBudget -> verified (backend_readiness s) c) ->
    (capability s = (if activation_allowed (backend_readiness s) then Available else ValidationCandidate)
     <-> capability s = Available /\ verified (backend_readiness s) PerformanceBudget
         \/ capability s = ValidationCandidate /\ ~ verified (backend_readiness s) PerformanceBudget)) by tauto.
  intros Hv.
  destruct (activation_allowed (backend_readiness s)) eqn:E.
  - pose proof (proj1 (activation_verified _) E PerformanceBudget). naive_solver.
  - assert (~ verified (backend_readiness s) PerformanceBudget); [|naive_solver]. intros H. apply not_true_iff_false in E. apply E.
    apply activation_verified. intros c. destruct c; [by apply Hv..|done].
Qed.

(** C40: the lifecycle operations, exactly.  An operation of a status succeeds
    with [s'] if and only if the phase of [s'] is that of the automaton's edge; a
    start only when every component but the performance budget is verified and
    the capability flag agrees with the bit of the budget; the failure is cleared
    by a start or a stop, set by a failure and kept otherwise; the counter of
    saves grows by one, up to the u64 range, when a save is completed and never
    otherwise; and every other field is as it was. *)
Theorem lifecycle_refines_automaton (s : ReplayRuntimeStatus) (e : replay_event) (s' : ReplayRuntimeStatus) :
  replay_step s e s' <->
  next_phase (phase s) e = Some (phase s')
  /\ (e = Start -> may_start s)
  /\ last_failure s' = match e with Start | Stop => None | Fail_ f => Some f | BeginSave | CompleteSave => last_failure s end
  /\ completed_save_revision s' = match e with CompleteSave => Z.min U64_MAX (completed_save_revision s + 1) | _ => completed_save_revision s end
  /\ capability s' = capability s /\ backend_readiness s' = backend_readiness s
  /\ buffered_duration_ns s' = buffered_duration_ns s /\ received_frame_count s' = received_frame_count s
  /\ encoded_packet_count s' = encoded_packet_count s /\ audio_packet_count s' = audio_packet_count s
  /\ audio_byte_count s' = audio_byte_count s /\ audio_active s' = audio_active s
  /\ recorder_health s' = recorder_health s /\ settings s' = settings s /\ budget s' = budget s.
Proof.
  split.
  - intros H. apply step_shape in H as (p & f & -> & Hp & Hg & ->). cbn. splits; try done.
    + intros He. by apply gate_may_start, Hg.
    + by destruct e.
  - intros (Hp & Hg & Hf & Hr & H1 & H2 & H3 & H4 & H5 & H6 & H7 & H8 & H9 & H10 & H11).
    destruct (step_exists s e) as [s2 Hs]; [by rewrite Hp|intros Hi; apply gate_may_start, Hg; rewrite Hi in Hp; by destruct e|].
    assert (s' = s2) as ->; [|done]. apply step_shape in Hs as (p & f & -> & Hp' & _ & ->).
    assert (p = phase s') as -> by congruence. destruct s'. cbn in *. subst. unfold with_phase. f_equal. by destruct e.
Qed.

(** Safety of the recorder lifecycle.  From any status nothing has
    started, every status the operations reach holds recording resources only
    if the validation components of its readiness are verified (a forged
    capability flag opens nothing), carries a failure exactly in the [Failed]
    phase, has counted every completed save of the trace, and keeps the
    readiness, capability, settings and budget it started with. *)
Theorem lifecycle_invariant (s0 s : ReplayRuntimeStatus) (es : list replay_event)
    (Hfresh : is_fresh s0) (Htrace : replay_trace s0 es s) :
  (is_recording (phase s) = true -> validation_allowed (backend_readiness s) = true) /\
  (is_Some (last_failure s) <-> phase s = Failed) /\
  completed_save_revision s = Z.min U64_MAX (completed_saves es) /\
  backend_readiness s = backend_readiness s0 /\ capability s = capability s0 /\
  settings s = settings s0 /\ budget s = budget s0.
Proof.
  destruct Hfresh as (Hp0 & Hf0 & Hr0).
  induction Htrace as [s|s es s1 e s2 _ IH Hstep].
  - rewrite Hr0, Hf0, Hp0. splits; try done. rewrite is_Some_alt.
    destruct (phase s); cbn in Hp0; split; done.
  - destruct (IH Hp0 Hf0 Hr0) as (Hrec & Hfail & Hrev & ? & ? & ? & ?). clear IH.
    apply step_shape in Hstep as (p & f & -> & Hp & Hgate & ->). cbn.
    splits; [| | |done..].
    + intros Hpr. destruct e; try (apply Hrec; destruct (phase s1); cbn in Hp |- *; congruence).
      by destruct (Hgate eq_refl).
    + destruct (phase s1), e; cbn in Hp; try done; injection Hp as <-;
        rewrite ?Hfail; unfold is_Some; naive_solver.
    + rewrite Hrev, completed_saves_snoc. pose proof (completed_saves_nonneg es).
      unfold sat_add, U64_MAX. destruct (is_complete e); lia.
Qed.

(** The budget never saturates: for every setting the frame capacity is
    the requested seconds at the accepted cadence, the ring bound is the
    bitrate over that span (doubled for the variable cadence) plus ten per
    cent, rounded up, and both stay far below the width of their fields. *)
Theorem budget_exact (s : ReplaySettings) :
  let b := budget_from_settings s in
  let k := if is_variable (frame_rate s) then 2 else 1 in
  let video := duration_seconds (duration s) * target_megabits_per_second (quality s) * 125000 * k in
  frame_capacity b = duration_seconds (duration s) * frames_per_second (frame_rate s) * k /\
  (100 * maximum_ring_bytes b - 99 <= 110 * video <= 100 * maximum_ring_bytes b) /\
  900 <= frame_capacity b <= 216000 /\
  24750000 <= maximum_ring_bytes b <= 9900000000 /\
  1863306472 <= minimum_full_clip_capacity b <= U32_MAX.
Proof. destruct s as [[] [] [] []]; vm_compute; splits; done. Qed.

Definition demo_settings : ReplaySettings :=
  {| duration := Seconds15; frame_rate := Fps60; quality := Efficient; storage_limit := Unlimited |}.

Definition demo_saved : ReplayRuntimeStatus :=
  with_phase Buffering None 1 (status_validation_candidate demo_settings).

Lemma lifecycle_invariant_witness :
  is_fresh (status_validation_candidate demo_settings) /\
  replay_trace (status_validation_candidate demo_settings) [Start; BeginSave; CompleteSave] demo_saved /\
  validation_allowed (backend_readiness demo_saved) = true /\ completed_save_revision demo_saved = 1.
Proof.
  assert (is_fresh (status_validation_candidate demo_settings)) as Hf by by splits.
  assert (replay_trace (status_validation_candidate demo_settings)
            ((([] ++ [Start]) ++ [BeginSave]) ++ [CompleteSave]) demo_saved) as Ht.
  { eapply trace_snoc; [eapply trace_snoc; [eapply trace_snoc; [apply trace_nil|]|]|];
      constructor; reflexivity. }
  splits; [exact Hf|exact Ht| |].
  - apply (lifecycle_invariant _ _ _ Hf Ht). reflexivity.
  - apply (lifecycle_invariant _ _ _ Hf Ht).
Defined.
