(* ===== verification/Menu.v ===== *)
(** The replay menu over the game (crates/redunar-daemon/src/replay_menu.rs): a
    cursor, one pressed button, and the record the overlay draws. *)
From stdpp Require Import strings.
From S2P Require Import Prelude Bytes Text Profiles Overlay OverlayFacts OverlayMenu Preferences Replay.
Local Open Scope Z_scope.

Definition CURSOR_MAX : Z := 10000.
Definition WATCHDOG_TIMEOUT : Z := 2 * 1000000000.
Definition DURATIONS : list ReplayDuration :=
  [Seconds15; Seconds30; Seconds60; Seconds120; Seconds180; Seconds300; Seconds600; Seconds900].
Inductive Target := NoTarget | DurationTarget (index : Z) | SaveTarget | FormatTarget (f : ReplayOutputFormat).
#[global] Instance Target_eq_dec : EqDecision Target.
Proof. solve_decision. Defined.
Inductive ReplayMenuAction := SaveAction (d : ReplayDuration) | SetOutputFormat (f : ReplayOutputFormat).

(** Times are nanoseconds of the monotonic clock. *)
Record ReplayMenuState := {
  visible : bool;
  cursor_x : Z;
  cursor_y : Z;
  pressed : bool;
  pressed_target : Target;
  selected : Z;
  click_revision : Z;
  last_input : option Z;
}.
Definition ReplayMenuState_default : ReplayMenuState := {|
  visible := false; cursor_x := 5000; cursor_y := 5000; pressed := false; pressed_target := NoTarget; selected := 1;
  click_revision := 0; last_input := None |}.

(** * Operations *)
Definition menu_toggle (now : Z) (m : ReplayMenuState) : ReplayMenuState * bool :=
  let v := negb (visible m) in
  ({| visible := v; cursor_x := cursor_x m; cursor_y := cursor_y m; pressed := false; pressed_target := NoTarget;
      selected := selected m; click_revision := click_revision m; last_input := if v then Some now else None |}, v).
Definition menu_close (m : ReplayMenuState) : ReplayMenuState := {|
  visible := false; cursor_x := cursor_x m; cursor_y := cursor_y m; pressed := false; pressed_target := NoTarget;
  selected := selected m; click_revision := click_revision m; last_input := None |}.
(** The addition of two [i32]; an overflow panics. *)
Definition add_i32 {E} (a b : Z) : outcome E Z :=
  if (- I32_MAX - 1 <=? a + b) && (a + b <=? I32_MAX) then Ok (a + b) else Panic.
Definition clamp (lo hi x : Z) : Z := Z.max lo (Z.min hi x).
Definition move_cursor {E} (dx dy now : Z) (m : ReplayMenuState) : outcome E ReplayMenuState :=
  if visible m then
    x ← add_i32 (cursor_x m) dx;
    y ← add_i32 (cursor_y m) dy;
    Ok {| visible := visible m; cursor_x := clamp 0 CURSOR_MAX x; cursor_y := clamp 0 CURSOR_MAX y; pressed := pressed m;
          pressed_target := pressed_target m; selected := selected m; click_revision := click_revision m; last_input := Some now |}
  else Ok m.
Definition inside (lo hi x : Z) : bool := (lo <=? x) && (x <? hi).
Definition hit_test (x y : Z) : Target :=
  if inside 462 9539 x && inside 4336 7273 y then
    let column := clamp 0 3 ((x - 462) * 4 / (9539 - 462)) in
    let row := clamp 0 1 ((y - 4336) * 2 / (7273 - 4336)) in
    DurationTarget (unwrap_or (try_from U8_MAX (row * 4 + column)) 0)
  else if inside 4231 9539 x && inside 7763 9371 y then SaveTarget
  else if inside 462 2193 x && inside 7763 9371 y then FormatTarget Matroska
  else if inside 2193 3924 x && inside 7763 9371 y then FormatTarget Mp4
  else NoTarget.
Definition set_pressed (p : bool) (t : Target) (now : Z) (m : ReplayMenuState) : ReplayMenuState := {|
  visible := visible m; cursor_x := cursor_x m; cursor_y := cursor_y m; pressed := p; pressed_target := t; selected := selected m;
  click_revision := click_revision m; last_input := Some now |}.
Definition set_selected (i : Z) (m : ReplayMenuState) : ReplayMenuState := {|
  visible := visible m; cursor_x := cursor_x m; cursor_y := cursor_y m; pressed := pressed m; pressed_target := pressed_target m;
  selected := i; click_revision := click_revision m; last_input := last_input m |}.
Definition count_click (m : ReplayMenuState) : ReplayMenuState := {|
  visible := visible m; cursor_x := cursor_x m; cursor_y := cursor_y m; pressed := pressed m; pressed_target := pressed_target m;
  selected := selected m; click_revision := Z.max ((click_revision m + 1) mod (U16_MAX + 1)) 1; last_input := last_input m |}.
Definition menu_button (is_pressed replay_ready : bool) (now : Z) (m : ReplayMenuState) : ReplayMenuState * option ReplayMenuAction :=
  if negb (visible m) then (m, None)
  else
    let target := hit_test (cursor_x m) (cursor_y m) in
    if is_pressed then (set_pressed true target now m, None)
    else
      let activated := pressed m && bool_decide (pressed_target m = target) in
      let m := set_pressed false NoTarget now m in
      if negb activated then (m, None)
      else match target with
           | DurationTarget index => (set_selected index m, None)
           | SaveTarget =>
               if replay_ready
               then let m := count_click m in (menu_close m, SaveAction <$> (DURATIONS !! Z.to_nat (selected m)))
               else (m, None)
           | FormatTarget f => (m, Some (SetOutputFormat f))
           | NoTarget => (menu_close m, None)
           end.
Definition menu_heartbeat (now : Z) (m : ReplayMenuState) : ReplayMenuState :=
  if visible m then set_pressed (pressed m) (pressed_target m) now m else m.
Definition close_if_stale (now : Z) (m : ReplayMenuState) : ReplayMenuState * bool :=
  if visible m && match last_input m with Some last => WATCHDOG_TIMEOUT <? sat_sub now last | None => false end
  then (menu_close m, true) else (m, false).
Definition set_initial_duration (d : ReplayDuration) (m : ReplayMenuState) : ReplayMenuState :=
  match list_find (fun c => c = d) DURATIONS with
  | Some (i, _) => set_selected (unwrap_or (try_from U8_MAX (Z.of_nat i)) 1) m
  | None => m
  end.

(** * The record for the overlay *)
Definition target_code (t : Target) : Z :=
  match t with NoTarget => 0 | DurationTarget i => i + 1 | SaveTarget => 9 | FormatTarget Matroska => 10 | FormatTarget Mp4 => 11 end.
Definition menu_status_of (p : ReplayPhase) : ReplayMenuStatus :=
  match p with
  | Unavailable => MenuUnavailable | Inactive => MenuInactive | Buffering => MenuBuffering | Saving => MenuSaving | Failed => MenuFailed
  end.
Definition menu_frame_rate_of (r : ReplayFrameRate) : Z := match r with Fps60 => 60 | Variable_ => REPLAY_MENU_VARIABLE_FPS end.
Definition menu_quality_of (q : ReplayQuality) : Z := match q with Efficient => 0 | Balanced => 1 | High => 2 end.
Definition replay_ready (r : ReplayRuntimeStatus) : bool :=
  bool_decide (phase r = Buffering) && (1000000000 <=? buffered_duration_ns r).
Definition menu_telemetry (revision : Z) (r : ReplayRuntimeStatus) (f : ReplayOutputFormat) (p : ReplayPreferences)
    (m : ReplayMenuState) : ReplayMenuTelemetry :=
  let chosen := default Seconds30 (DURATIONS !! Z.to_nat (selected m)) in {|
  menu_revision := revision;
  menu_visible := visible m;
  Overlay.pointer_pressed := pressed m;
  menu_cursor_x := if (0 <=? cursor_x m) && (cursor_x m <=? U16_MAX) then cursor_x m else 0;
  menu_cursor_y := if (0 <=? cursor_y m) && (cursor_y m <=? U16_MAX) then cursor_y m else 0;
  hover_target := target_code (hit_test (cursor_x m) (cursor_y m));
  menu_pressed_target := target_code (pressed_target m);
  selected_duration_index := selected m;
  menu_status := menu_status_of (phase r);
  available_seconds := Z.min (unwrap_or (try_from U16_MAX (buffered_duration_ns r / 1000000000)) U16_MAX) 900;
  menu_click_revision := click_revision m;
  menu_frame_rate := menu_frame_rate_of (frame_rate (Replay.settings r));
  menu_quality := menu_quality_of (quality (Replay.settings r));
  menu_output_format := bool_u8 (bool_decide (f = Mp4));
  save_enabled := replay_ready r;
  Overlay.overlay_shortcut := from_shortcut (Preferences.overlay_shortcut p);
  save_shortcut :=
    match list_find (fun b => binding_duration b = chosen) (save_shortcuts p) with
    | Some (_, b) => from_shortcut (shortcut b)
    | None => EMPTY
    end;
|}.

(** * Invariant *)
Definition target_ok (t : Target) : Prop := match t with DurationTarget i => 0 <= i <= 7 | _ => True end.
Record menu_inv (m : ReplayMenuState) : Prop := {
  mi_cursor : 0 <= cursor_x m <= CURSOR_MAX /\ 0 <= cursor_y m <= CURSOR_MAX;
  mi_selected : 0 <= selected m <= 7;
  mi_clicks : in_range U16_MAX (click_revision m);
  mi_pressed : target_ok (pressed_target m) /\ (pressed m = false -> pressed_target m = NoTarget);
  mi_hidden : visible m = false -> pressed m = false /\ last_input m = None;
  mi_input : visible m = true -> is_Some (last_input m);
}.
Lemma default_menu_inv : menu_inv ReplayMenuState_default.
Proof. by constructor; cbn. Qed.
Lemma column_of x : inside 462 9539 x = true -> 0 <= (x - 462) * 4 / (9539 - 462) <= 3.
Proof. unfold inside. intros H. pose proof (Z.div_mod ((x - 462) * 4) 9077 ltac:(lia)). pose proof (Z.mod_pos_bound ((x - 462) * 4) 9077). change (9539 - 462) with 9077. nia. Qed.
Lemma row_of y : inside 4336 7273 y = true -> 0 <= (y - 4336) * 2 / (7273 - 4336) <= 1.
Proof. unfold inside. intros H. pose proof (Z.div_mod ((y - 4336) * 2) 2937 ltac:(lia)). pose proof (Z.mod_pos_bound ((y - 4336) * 2) 2937). change (7273 - 4336) with 2937. nia. Qed.
Lemma hit_test_duration x y :
  inside 462 9539 x = true -> inside 4336 7273 y = true ->
  hit_test x y = DurationTarget (4 * ((y - 4336) * 2 / 2937) + (x - 462) * 4 / 9077).
Proof.
  intros Hx Hy. pose proof (column_of x Hx) as Hc. pose proof (row_of y Hy) as Hr. unfold hit_test. rewrite Hx, Hy. cbn [andb].
  change (9539 - 462) with 9077 in *. change (7273 - 4336) with 2937 in *. unfold clamp.
  revert Hc Hr. generalize ((x - 462) * 4 / 9077), ((y - 4336) * 2 / 2937). intros c r Hc Hr.
  replace (Z.max 0 (Z.min 1 r) * 4 + Z.max 0 (Z.min 3 c)) with (4 * r + c) by lia. unfold try_from, U8_MAX.
  by rewrite (proj2 (Z.leb_le (4 * r + c) 255)) by lia.
Qed.
Lemma hit_test_ok x y : target_ok (hit_test x y).
Proof.
  destruct (inside 462 9539 x && inside 4336 7273 y) eqn:E.
  - apply andb_true_iff in E as [Hx Hy]. rewrite hit_test_duration by done. pose proof (column_of x Hx) as Hc. pose proof (row_of y Hy) as Hr.
    change (9539 - 462) with 9077 in *. change (7273 - 4336) with 2937 in *. unfold target_ok. lia.
  - unfold hit_test. rewrite E. by repeat case_match.
Qed.

Lemma add_i32_ok {E} a b : 0 <= a <= CURSOR_MAX -> - 4096 <= b <= 4096 -> add_i32 (E := E) a b = Ok (a + b).
Proof. unfold add_i32, CURSOR_MAX, I32_MAX. intros. rewrite !(proj2 (Z.leb_le _ _)) by lia. done. Qed.
Lemma toggle_inv now m : menu_inv m -> menu_inv (menu_toggle now m).1.
Proof. intros [H1 H2 H3 H4 H5 H6]. constructor; try done; cbn; by destruct (visible m). Qed.
Lemma close_inv m : menu_inv m -> menu_inv (menu_close m).
Proof. intros [H1 H2 H3 H4 H5 H6]. by constructor. Qed.
Lemma move_inv {E} dx dy now m :
  menu_inv m -> - 4096 <= dx <= 4096 -> - 4096 <= dy <= 4096 ->
  exists m', move_cursor (E := E) dx dy now m = Ok m' /\ menu_inv m' /\ visible m' = visible m.
Proof.
  intros Hm Hx Hy. pose proof Hm as [[H1 H1'] H2 H3 H4 H5 H6]. unfold move_cursor. destruct (visible m) eqn:Ev; [|by exists m].
  rewrite !add_i32_ok by done. cbn. eexists. split; [done|]. split; [|done]. constructor; cbn; try done.
  unfold clamp, CURSOR_MAX. lia.
Qed.
Lemma button_inv p ready now m : menu_inv m -> menu_inv (menu_button p ready now m).1.
Proof.
  intros Hm. pose proof Hm as [H1 H2 H3 H4 H5 H6]. unfold menu_button. destruct (visible m) eqn:Ev; cbn [negb]; [|done].
  pose proof (hit_test_ok (cursor_x m) (cursor_y m)) as Ht. destruct p.
  { by constructor; cbn; rewrite ?Ev. }
  assert (Hrel : menu_inv (set_pressed false NoTarget now m)) by (constructor; cbn; rewrite ?Ev; done).
  destruct (pressed m && _); cbn [negb]; [|done]. destruct (hit_test (cursor_x m) (cursor_y m)) as [|i| |f]; cbn [fst].
  - by apply close_inv.
  - destruct Hrel. by constructor.
  - destruct ready; [|done]. apply close_inv. destruct Hrel as [R1 R2 R3 R4 R5 R6]. constructor; try done. cbn. unfold in_range, U16_MAX.
    pose proof (Z.mod_pos_bound (click_revision m + 1) (65535 + 1)). lia.
  - done.
Qed.
Lemma heartbeat_inv now m : menu_inv m -> menu_inv (menu_heartbeat now m).
Proof.
  intros Hm. unfold menu_heartbeat. destruct (visible m) eqn:Ev; [|done]. destruct Hm as [H1 H2 H3 H4 H5 H6].
  constructor; cbn; rewrite ?Ev; done.
Qed.
Lemma stale_inv now m : menu_inv m -> menu_inv (close_if_stale now m).1.
Proof. intros Hm. unfold close_if_stale. destruct (_ && _); [by apply close_inv|done]. Qed.
Lemma initial_inv d m : menu_inv m -> menu_inv (set_initial_duration d m).
Proof. intros [H1 H2 H3 H4 H5 H6]. unfold set_initial_duration. destruct d; cbn; constructor; cbn; try done; lia. Qed.

(** * What the overlay gets *)
Lemma target_code_range t : target_ok t -> 0 <= target_code t <= 11.
Proof. destruct t as [|i| |[]]; cbn; lia. Qed.
Lemma seconds_range n : 0 <= n -> 0 <= Z.min (unwrap_or (try_from U16_MAX (n / 1000000000)) U16_MAX) 900 <= 900.
Proof.
  intros Hn. pose proof (Z.div_pos n 1000000000 Hn). unfold try_from, U16_MAX. destruct (Z.leb_spec (n / 1000000000) 65535); cbn; lia.
Qed.
Definition even_menu_revision (r : Z) : Prop := 0 < r <= U64_MAX /\ is_multiple_of r 2 = true.
(** The record's fields are in range, and it is valid when its revision is even. *)
Lemma menu_telemetry_wf revision r f p m :
  menu_inv m -> in_range U64_MAX revision -> 0 <= buffered_duration_ns r -> menu_wf (menu_telemetry revision r f p m).
Proof.
  intros [[H1 H1'] H2 H3 [H4 H4'] H5 H6] Hr Hn. pose proof (target_code_range _ (hit_test_ok (cursor_x m) (cursor_y m))) as Hh.
  pose proof (target_code_range _ H4) as Hp. pose proof (seconds_range _ Hn) as Hs. unfold CURSOR_MAX in *.
  assert (Ex : (0 <=? cursor_x m) && (cursor_x m <=? U16_MAX) = true) by (unfold U16_MAX; lia).
  assert (Ey : (0 <=? cursor_y m) && (cursor_y m <=? U16_MAX) = true) by (unfold U16_MAX; lia).
  assert (Hq : 0 <= menu_quality_of (quality (Replay.settings r)) <= 2) by (destruct (quality (Replay.settings r)); cbn; lia).
  assert (Hf : menu_frame_rate_of (frame_rate (Replay.settings r)) = 60 \/ menu_frame_rate_of (frame_rate (Replay.settings r)) = 240)
    by (destruct (frame_rate (Replay.settings r)); [by left|by right]).
  assert (Hb : 0 <= bool_u8 (bool_decide (f = Mp4)) <= 1) by (destruct (bool_decide (f = Mp4)); cbn; lia).
  constructor; unfold menu_telemetry;
    cbn [menu_revision menu_cursor_x menu_cursor_y hover_target menu_pressed_target selected_duration_index available_seconds menu_frame_rate
      menu_quality menu_output_format menu_click_revision Overlay.overlay_shortcut save_shortcut]; rewrite ?Ex, ?Ey.
  - done.
  - unfold in_range, U16_MAX in *. repeat (apply Forall_cons; split; [lia|]). by apply Forall_nil.
  - unfold is_byte, U8_MAX. repeat (apply Forall_cons; split; [lia|]). by apply Forall_nil.
  - apply from_shortcut_wf.
  - destruct (list_find _ _) as [[i b]|]; [apply from_shortcut_wf|apply EMPTY_wf].
Qed.
Lemma menu_telemetry_ok revision r f p m :
  menu_inv m -> even_menu_revision revision -> 0 <= buffered_duration_ns r ->
  validate_replay_menu (menu_telemetry revision r f p m) = Ok tt /\ menu_wf (menu_telemetry revision r f p m).
Proof.
  intros Hm [Hr He] Hn. split; [|apply menu_telemetry_wf; [done|unfold in_range; lia|done]].
  destruct Hm as [[H1 H1'] H2 H3 [H4 H4'] H5 H6]. pose proof (target_code_range _ (hit_test_ok (cursor_x m) (cursor_y m))) as Hh.
  pose proof (target_code_range _ H4) as Hp. pose proof (seconds_range _ Hn) as Hs. unfold CURSOR_MAX in *.
  assert (Ex : (0 <=? cursor_x m) && (cursor_x m <=? U16_MAX) = true) by (unfold U16_MAX; lia).
  assert (Ey : (0 <=? cursor_y m) && (cursor_y m <=? U16_MAX) = true) by (unfold U16_MAX; lia).
  assert (Hq : 0 <= menu_quality_of (quality (Replay.settings r)) <= 2) by (destruct (quality (Replay.settings r)); cbn; lia).
  assert (Hf : menu_frame_rate_of (frame_rate (Replay.settings r)) = 60 \/ menu_frame_rate_of (frame_rate (Replay.settings r)) = 240)
    by (destruct (frame_rate (Replay.settings r)); [by left|by right]).
  assert (Hb : 0 <= bool_u8 (bool_decide (f = Mp4)) <= 1) by (destruct (bool_decide (f = Mp4)); cbn; lia).
  assert (Ht : negb (pressed m) && negb (target_code (pressed_target m) =? 0) = false).
  { destruct (pressed m) eqn:Epr; [done|]. by rewrite (H4' eq_refl). }
  unfold validate_replay_menu, menu_telemetry.
  cbn [menu_revision menu_cursor_x menu_cursor_y hover_target menu_pressed_target selected_duration_index available_seconds menu_frame_rate
    menu_quality menu_output_format pointer_pressed]. rewrite Ex, Ey, He, Ht.
  destruct (_ || _) eqn:E; [|done]. exfalso. unfold REPLAY_MENU_VARIABLE_FPS in E. clear -E Hr H1 H1' Hh Hp H2 Hs Hf Hq Hb. cbn [negb] in E. lia.
Qed.

(** Whatever state the menu is in, and whatever the recorder reports, the
    record it publishes is valid: it is encoded into the block, and the
    overlay reads exactly this record back. *)
Theorem menu_telemetry_accepted revision r f p m out :
  menu_inv m -> even_menu_revision revision -> 0 <= buffered_duration_ns r -> (REPLAY_MENU_TELEMETRY_BYTES <= length out)%nat ->
  let t := menu_telemetry revision r f p m in
  exists out', encode_replay_menu_telemetry t out = Ok (REPLAY_MENU_TELEMETRY_BYTES, out')
    /\ decode_replay_menu_telemetry (take REPLAY_MENU_TELEMETRY_BYTES out') = Ok t
    /\ menu_cursor_x t = cursor_x m /\ menu_cursor_y t = cursor_y m /\ menu_visible t = visible m
    /\ DURATIONS !! Z.to_nat (selected_duration_index t) = Some (default Seconds30 (DURATIONS !! Z.to_nat (selected m))).
Proof.
  intros Hm Hr Hn Hl t. destruct (menu_telemetry_ok revision r f p m Hm Hr Hn) as [Hv Hwf].
  exists (wire_menu t ++ drop REPLAY_MENU_TELEMETRY_BYTES out). destruct Hm as [[H1 H1'] H2 _ _ _ _]. unfold CURSOR_MAX in *. splits.
  - apply encode_menu_ok; [done|apply Hwf|apply Hwf|done].
  - rewrite take_app_length' by (by rewrite length_wire_menu). by apply decode_menu_wire.
  - cbn. rewrite (proj2 (andb_true_iff _ _)); [done|]. unfold U16_MAX. lia.
  - cbn. rewrite (proj2 (andb_true_iff _ _)); [done|]. unfold U16_MAX. lia.
  - done.
  - cbn. assert (Hs : (Z.to_nat (selected m) < length DURATIONS)%nat) by (cbn; lia).
    apply lookup_lt_is_Some in Hs as [d Hd]. by rewrite Hd.
Qed.

(** A press and a later release on the menu: nothing happens unless the menu
    was open all the time and the release is over the control that was
    pressed; then a duration is selected, a format is chosen, the menu closes
    outside the controls, and a save of the selected duration is asked for,
    counted and closes the menu exactly when the recorder is ready. *)
Theorem click_exact m dx dy ready ready' t0 t1 t2 m2 :
  menu_inv m -> visible m = true -> - 4096 <= dx <= 4096 -> - 4096 <= dy <= 4096 ->
  let m1 := (menu_button true ready t0 m).1 in
  move_cursor (E := unit) dx dy t1 m1 = Ok m2 ->
  let here := hit_test (cursor_x m2) (cursor_y m2) in
  let '(m3, action) := menu_button false ready' t2 m2 in
  pressed m3 = false
  /\ if bool_decide (hit_test (cursor_x m) (cursor_y m) = here) then
       match here with
       | DurationTarget i => selected m3 = i /\ visible m3 = true /\ action = None
       | FormatTarget f => selected m3 = selected m /\ visible m3 = true /\ action = Some (SetOutputFormat f)
       | NoTarget => visible m3 = false /\ action = None
       | SaveTarget =>
           if ready' then visible m3 = false /\ 1 <= click_revision m3 <= U16_MAX /\ click_revision m3 <> click_revision m
             /\ exists d, DURATIONS !! Z.to_nat (selected m) = Some d /\ action = Some (SaveAction d)
           else visible m3 = true /\ action = None
       end
     else visible m3 = true /\ selected m3 = selected m /\ click_revision m3 = click_revision m /\ action = None.
Proof.
  intros Hm Hv Hx Hy m1 E here. assert (E1 : m1 = set_pressed true (hit_test (cursor_x m) (cursor_y m)) t0 m)
    by (unfold m1, menu_button; by rewrite Hv). clearbody m1. subst m1.
  assert (Hp : visible m2 = true /\ pressed m2 = true /\ pressed_target m2 = hit_test (cursor_x m) (cursor_y m) /\ selected m2 = selected m
    /\ click_revision m2 = click_revision m).
  { unfold move_cursor in E. cbn [set_pressed visible cursor_x cursor_y] in E. rewrite Hv in E. destruct Hm as [[H1 H1'] _ _ _ _ _].
    rewrite !add_i32_ok in E by done. cbn in E. injection E as <-. done. }
  destruct Hp as (Ev & Ep & Et & Es & Ec). unfold menu_button. rewrite Ev, Ep, Et. cbn [negb andb]. fold here.
  case_bool_decide as Heq; cbn [negb]; [|cbn; by rewrite Ev].
  destruct here as [|i| |f]; cbn; try (by rewrite ?Ev).
  destruct ready'; cbn; [|by rewrite Ev]. split; [done|]. split; [done|]. rewrite Ec, Es.
  destruct Hm as [_ H2 H3 _ _ _]. unfold in_range, U16_MAX in *. split; [|split].
  - pose proof (Z.mod_pos_bound (click_revision m + 1) (65535 + 1)). lia.
  - destruct (Z.eq_dec (click_revision m) 65535) as [->|Hne]; [done|]. rewrite Z.mod_small by lia. lia.
  - assert (Hs : (Z.to_nat (selected m) < length DURATIONS)%nat) by (cbn; lia).
    apply lookup_lt_is_Some in Hs as [d Hd]. exists d. by rewrite Hd.
Qed.

(** * Instances *)
Definition demo_open_menu : ReplayMenuState := (menu_toggle 7 ReplayMenuState_default).1.
Lemma demo_open_inv : menu_inv demo_open_menu.
Proof. apply toggle_inv, default_menu_inv. Qed.
Lemma menu_telemetry_accepted_witness :
  exists out, encode_replay_menu_telemetry
      (menu_telemetry 4 (status_unavailable ReplaySettings_default) Mp4 ReplayPreferences_default demo_open_menu) (replicate 128 0)
    = Ok (REPLAY_MENU_TELEMETRY_BYTES, out)
    /\ decode_replay_menu_telemetry (take REPLAY_MENU_TELEMETRY_BYTES out)
       = Ok (menu_telemetry 4 (status_unavailable ReplaySettings_default) Mp4 ReplayPreferences_default demo_open_menu).
Proof.
  destruct (menu_telemetry_accepted 4 (status_unavailable ReplaySettings_default) Mp4 ReplayPreferences_default demo_open_menu (replicate 128 0)
    demo_open_inv) as (out & H1 & H2 & _); [split; [split; vm_compute; congruence|reflexivity]|vm_compute; congruence|vm_compute; lia|].
  exists out. split; [exact H1|exact H2].
Defined.
(** From the centre of the screen to the save button. *)
Lemma click_exact_witness :
  exists m1 m2 m3, move_cursor (E := unit) 1000 3500 8 demo_open_menu = Ok m1
    /\ move_cursor (E := unit) 10 (-10) 9 (menu_button true false 9 m1).1 = Ok m2
    /\ menu_button false true 10 m2 = (m3, Some (SaveAction Seconds30)) /\ visible m3 = false.
Proof.
  destruct (move_inv (E := unit) 1000 3500 8 demo_open_menu demo_open_inv) as (m1 & E1 & Hi1 & Hv1); [lia|lia|].
  assert (E1' := E1). vm_compute in E1'. injection E1' as E1'.
  exists m1, {| visible := true; cursor_x := 6010; cursor_y := 8490; pressed := true; pressed_target := SaveTarget; selected := 1;
    click_revision := 0; last_input := Some 9 |}.
  pose proof (click_exact m1 10 (-10) false true 9 9 10 {| visible := true; cursor_x := 6010; cursor_y := 8490; pressed := true;
    pressed_target := SaveTarget; selected := 1; click_revision := 0; last_input := Some 9 |} Hi1 ltac:(rewrite Hv1; reflexivity)
    ltac:(lia) ltac:(lia) ltac:(subst m1; vm_compute; reflexivity)) as H. cbn zeta in H.
  destruct (menu_button false true 10 _) as [m3 action] eqn:E3. exists m3. split; [exact E1|]. split; [subst m1; vm_compute; reflexivity|].
  subst m1. vm_compute in H. destruct H as (_ & H1 & _ & _ & d & [= <-] & ->). split; [reflexivity|exact H1].
Defined.
