(* ===== verification/ReplayRing.v ===== *)
(** The fixed-budget ring of encoded video packets
    (crates/redunar-daemon/src/replay_ring.rs). *)
From stdpp Require Import sorting.
From S2P Require Import Prelude Bytes Profiles Replay.
Local Open Scope Z_scope.

Definition NANOSECONDS_PER_SECOND : Z := 1000000000.
Definition MAX_PACKET_DURATION_NS : Z := NANOSECONDS_PER_SECOND.
Definition MAX_SINGLE_PACKET_BYTES : Z := 8 * 1024 * 1024.
Definition MAX_IN_MEMORY_REPLAY_BYTES : Z := 256 * 1024 * 1024.

(** * Packets *)
Record EncodedReplayPacket := {
  timestamp_ns : Z;
  duration_ns : Z;
  keyframe : bool;
  packet_bytes : bytes;
}.

Inductive ReplayPacketError := PacketEmpty | TooLarge | InvalidDuration | TimestampOverflow.

Definition packet_new (timestamp duration : Z) (key : bool) (bs : bytes)
    : outcome ReplayPacketError EncodedReplayPacket :=
  if zlen bs =? 0 then Err PacketEmpty
  else if MAX_SINGLE_PACKET_BYTES <? zlen bs then Err TooLarge
  else if (duration =? 0) || (MAX_PACKET_DURATION_NS <? duration) then Err InvalidDuration
  else
    _ ← ok_or (checked_add U64_MAX timestamp duration) TimestampOverflow;
    Ok {| timestamp_ns := timestamp; duration_ns := duration; keyframe := key; packet_bytes := bs |}.

(** * The ring *)
Record ReplayRing := {
  duration_limit_ns : Z;
  packet_limit : Z;
  byte_limit : Z;
  packets : list EncodedReplayPacket;
  last_timestamp_ns : option Z;
  stored_bytes : Z;
  dropped_awaiting_keyframe : Z;
  evicted_packets : Z;
  evicted_bytes : Z;
}.

Record ReplayRingStats := {
  stats_stored_packets : Z;
  stats_stored_bytes : Z;
  stats_dropped_awaiting_keyframe : Z;
  stats_evicted_packets : Z;
  stats_evicted_bytes : Z;
}.

Inductive ReplayPushOutcome :=
| Stored (evicted_packets evicted_bytes : Z)
| DroppedAwaitingKeyframe.
Inductive ReplayRingError := NonMonotonicTimestamp | PacketExceedsRingBudget.

Definition ring_new (s : ReplaySettings) : ReplayRing :=
  let b := budget_from_settings s in {|
    duration_limit_ns := sat_mul U64_MAX (duration_seconds (duration s)) NANOSECONDS_PER_SECOND;
    packet_limit := Z.max (frame_capacity b) 1;
    byte_limit := Z.min (Z.max (maximum_ring_bytes b) 1) MAX_IN_MEMORY_REPLAY_BYTES;
    packets := [];
    last_timestamp_ns := None;
    stored_bytes := 0;
    dropped_awaiting_keyframe := 0;
    evicted_packets := 0;
    evicted_bytes := 0;
  |}.

Definition with_packets (ps : list EncodedReplayPacket) (stored : Z) (r : ReplayRing) : ReplayRing := {|
  duration_limit_ns := duration_limit_ns r;
  packet_limit := packet_limit r;
  byte_limit := byte_limit r;
  packets := ps;
  last_timestamp_ns := last_timestamp_ns r;
  stored_bytes := stored;
  dropped_awaiting_keyframe := dropped_awaiting_keyframe r;
  evicted_packets := evicted_packets r;
  evicted_bytes := evicted_bytes r;
|}.
Definition with_counters (last : option Z) (dropped evp evb : Z) (r : ReplayRing) : ReplayRing := {|
  duration_limit_ns := duration_limit_ns r;
  packet_limit := packet_limit r;
  byte_limit := byte_limit r;
  packets := packets r;
  last_timestamp_ns := last;
  stored_bytes := stored_bytes r;
  dropped_awaiting_keyframe := dropped;
  evicted_packets := evp;
  evicted_bytes := evb;
|}.

(** [last.timestamp_ns.saturating_add(last.duration_ns).saturating_sub(first.timestamp_ns)]
    over [front().zip(back())]. *)
Definition span_exceeds (limit : Z) (ps : list EncodedReplayPacket) : bool :=
  match head ps, last ps with
  | Some first, Some last =>
      limit <? sat_sub (sat_add U64_MAX (timestamp_ns last) (duration_ns last)) (timestamp_ns first)
  | _, _ => false
  end.

Definition exceeds_any_limit (r : ReplayRing) : bool :=
  (packet_limit r <? zlen (packets r)) || (byte_limit r <? stored_bytes r)
  || span_exceeds (duration_limit_ns r) (packets r).

Definition front_is_not_keyframe (r : ReplayRing) : bool :=
  match head (packets r) with Some p => negb (keyframe p) | None => false end.

(** The state of the eviction loops: the ring and the two counters. *)
Definition evict_state : Type := ReplayRing * Z * Z.

Definition evict_front (s : evict_state) : evict_state :=
  let '(r, packet_count, byte_count) := s in
  match packets r with
  | [] => s
  | p :: ps =>
      (with_packets ps (sat_sub (stored_bytes r) (zlen (packet_bytes p))) r,
       sat_add U32_MAX packet_count 1, sat_add U64_MAX byte_count (zlen (packet_bytes p)))
  end.

(** [while test(self) { body }]; [None] when the loop is still running after
    [fuel] iterations. *)
Fixpoint while_loop (fuel : nat) (test : ReplayRing -> bool)
    (body : evict_state -> option evict_state) (s : evict_state) : option evict_state :=
  if test s.1.1 then
    match fuel with
    | O => None
    | S fuel => body s ≫= while_loop fuel test body
    end
  else Some s.

Definition ring_fuel (r : ReplayRing) : nat := length (packets r).
Definition evict_while (test : ReplayRing -> bool) (s : evict_state) : option evict_state :=
  while_loop (ring_fuel s.1.1) test (fun s => Some (evict_front s)) s.

(** [push]; [None] is divergence of an eviction loop. *)
Definition push (r : ReplayRing) (p : EncodedReplayPacket)
    : option (ReplayRing * outcome ReplayRingError ReplayPushOutcome) :=
  if byte_limit r <? zlen (packet_bytes p) then Some (r, Err PacketExceedsRingBudget)
  else if match last_timestamp_ns r with Some l => timestamp_ns p <=? l | None => false end
  then Some (r, Err NonMonotonicTimestamp)
  else
    let r := with_counters (Some (timestamp_ns p)) (dropped_awaiting_keyframe r)
               (evicted_packets r) (evicted_bytes r) r in
    if bool_decide (packets r = []) && negb (keyframe p)
    then Some (with_counters (last_timestamp_ns r)
                 (sat_add U64_MAX (dropped_awaiting_keyframe r) 1)
                 (evicted_packets r) (evicted_bytes r) r,
               Ok DroppedAwaitingKeyframe)
    else
      let r := with_packets (packets r ++ [p])
                 (sat_add U64_MAX (stored_bytes r) (zlen (packet_bytes p))) r in
      s ← evict_while exceeds_any_limit (r, 0, 0);
      s ← evict_while front_is_not_keyframe s;
      let '(r, ep, eb) := s in
      Some (with_counters (last_timestamp_ns r) (dropped_awaiting_keyframe r)
              (sat_add U64_MAX (evicted_packets r) ep) (sat_add U64_MAX (evicted_bytes r) eb) r,
            Ok (Stored ep eb)).

Definition snapshot_for_duration (r : ReplayRing) (d : ReplayDuration) : option ReplayRing :=
  let limit := sat_mul U64_MAX (duration_seconds d) NANOSECONDS_PER_SECOND in
  s ← while_loop (ring_fuel r) (fun r => span_exceeds limit (packets r))
        (fun s => evict_while front_is_not_keyframe (evict_front s)) (r, 0, 0);
  Some s.1.1.

Definition ring_stats (r : ReplayRing) : ReplayRingStats := {|
  stats_stored_packets := unwrap_or (try_from U32_MAX (zlen (packets r))) U32_MAX;
  stats_stored_bytes := stored_bytes r;
  stats_dropped_awaiting_keyframe := dropped_awaiting_keyframe r;
  stats_evicted_packets := evicted_packets r;
  stats_evicted_bytes := evicted_bytes r;
|}.

Definition reset_epoch (r : ReplayRing) : ReplayRing :=
  let evp := sat_add U64_MAX (evicted_packets r) (zlen (packets r)) in
  let evb := sat_add U64_MAX (evicted_bytes r) (stored_bytes r) in
  with_packets [] 0 (with_counters None (dropped_awaiting_keyframe r) evp evb r).

(** * Abstract specification

    A history fits when its packet count, its bytes and the span from its
    first timestamp to its last end are within the limits; what a push keeps
    is the longest suffix that fits and begins with a keyframe. *)
Definition total_bytes (ps : list EncodedReplayPacket) : Z :=
  sum_Z (map (fun p => zlen (packet_bytes p)) ps).
Definition fits (r : ReplayRing) (ps : list EncodedReplayPacket) : bool :=
  (zlen ps <=? packet_limit r) && (total_bytes ps <=? byte_limit r)
  && negb (span_exceeds (duration_limit_ns r) ps).
Fixpoint longest_suffix (ok : list EncodedReplayPacket -> bool) (ps : list EncodedReplayPacket)
    : list EncodedReplayPacket :=
  match ps with
  | [] => []
  | p :: ps' => if ok ps && keyframe p then ps else longest_suffix ok ps'
  end.

(** * Invariant *)
Definition packet_ok (p : EncodedReplayPacket) : Prop :=
  0 <= timestamp_ns p /\ 0 < duration_ns p <= MAX_PACKET_DURATION_NS /\
  timestamp_ns p + duration_ns p <= U64_MAX /\
  0 < zlen (packet_bytes p) <= MAX_SINGLE_PACKET_BYTES.
Definition earlier (p q : EncodedReplayPacket) : Prop := timestamp_ns p < timestamp_ns q.

Record ring_inv (r : ReplayRing) : Prop := {
  inv_limits : 1 <= byte_limit r <= MAX_IN_MEMORY_REPLAY_BYTES /\
               1 <= packet_limit r < U32_MAX /\ 0 <= duration_limit_ns r;
  inv_packets : Forall packet_ok (packets r);
  inv_sorted : StronglySorted earlier (packets r);
  inv_last : Forall (fun p => exists l, last_timestamp_ns r = Some l /\ timestamp_ns p <= l) (packets r);
  inv_bytes : stored_bytes r = total_bytes (packets r);
  inv_fits : fits r (packets r) = true;
  inv_keyframe : front_is_not_keyframe r = false;
}.

(** * List-level lemmas *)
Section Suffixes.
Implicit Types (p : EncodedReplayPacket) (ps : list EncodedReplayPacket).

Lemma total_bytes_app ps1 ps2 : total_bytes (ps1 ++ ps2) = total_bytes ps1 + total_bytes ps2.
Proof. unfold total_bytes. by rewrite map_app, sum_Z_app. Qed.

Lemma total_bytes_cons p ps : total_bytes (p :: ps) = zlen (packet_bytes p) + total_bytes ps.
Proof. done. Qed.

Lemma total_bytes_nonneg ps : 0 <= total_bytes ps.
Proof. apply sum_Z_nonneg, Forall_map, Forall_true. intros. apply zlen_nonneg. Qed.

(** Dropping the oldest packet shortens the span. *)
Lemma span_tail limit p ps :
  StronglySorted earlier (p :: ps) -> 0 <= limit ->
  span_exceeds limit ps = true -> span_exceeds limit (p :: ps) = true.
Proof.
  intros Hs Hl. destruct ps as [|q ps]; [done|].
  apply StronglySorted_inv in Hs as [_ Hall]. inversion Hall as [|? ? Hq _]. unfold earlier in Hq.
  unfold span_exceeds. cbn [head]. rewrite !last_cons_cons.
  destruct (last (q :: ps)) as [z|] eqn:E; [|done].
  rewrite !Z.ltb_lt. unfold sat_sub. lia.
Qed.

Lemma fits_tail r p ps :
  StronglySorted earlier (p :: ps) -> 0 <= duration_limit_ns r ->
  fits r (p :: ps) = true -> fits r ps = true.
Proof.
  intros Hs Hd. unfold fits. rewrite !andb_true_iff, !Z.leb_le, !negb_true_iff.
  rewrite zlen_cons, total_bytes_cons. pose proof (zlen_nonneg (packet_bytes p)).
  intros ((? & ?) & Hsp). splits; [lia..|].
  destruct (span_exceeds (duration_limit_ns r) ps) eqn:E; [|done].
  by rewrite (span_tail _ _ _ Hs Hd E) in Hsp.
Qed.

(** Eviction from the front while a test on the remaining list holds. *)
Fixpoint evict_list (test : list EncodedReplayPacket -> bool) ps : list EncodedReplayPacket :=
  match ps with
  | [] => []
  | _ :: ps' => if test ps then evict_list test ps' else ps
  end.
Definition head_not_key ps : bool :=
  match head ps with Some p => negb (keyframe p) | None => false end.

Lemma evict_list_suffix test ps : suffix (evict_list test ps) ps.
Proof.
  induction ps as [|p ps IH]; cbn [evict_list]; [done|].
  destruct (test (p :: ps)); [|done]. by apply suffix_cons_r.
Qed.

Lemma evict_key_of_fitting ok ps :
  (forall qs, suffix qs ps -> qs = [] \/ ok qs = true) ->
  evict_list head_not_key ps = longest_suffix ok ps.
Proof.
  induction ps as [|p ps IH]; intros Hok; [done|]. cbn [evict_list longest_suffix].
  destruct (Hok (p :: ps)) as [|E]; [done|done|]. rewrite E. cbn.
  destruct (keyframe p); cbn; [done|]. apply IH.
  intros qs Hq. apply Hok. by apply suffix_cons_r.
Qed.

Lemma fits_suffix r ps qs :
  StronglySorted earlier ps -> 0 <= duration_limit_ns r ->
  fits r ps = true -> suffix qs ps -> fits r qs = true.
Proof.
  intros Hs Hd Hf [ks ->]. induction ks as [|k ks IH]; [done|].
  apply IH.
  - by apply StronglySorted_inv in Hs as [? _].
  - eapply fits_tail; [exact Hs|done..].
Qed.

(** The two loops of [push] keep the longest decodable suffix that fits. *)
Lemma evict_both r ps :
  StronglySorted earlier ps -> 0 <= duration_limit_ns r ->
  evict_list head_not_key (evict_list (fun l => negb (fits r l)) ps) = longest_suffix (fits r) ps.
Proof.
  intros Hs Hd. induction ps as [|p ps IH]; [done|]. cbn [evict_list longest_suffix].
  destruct (fits r (p :: ps)) eqn:E; cbn [negb andb].
  - rewrite (evict_key_of_fitting (fits r)).
    + cbn [longest_suffix]. by rewrite E.
    + intros qs Hq. right. by eapply fits_suffix.
  - apply IH. by apply StronglySorted_inv in Hs as [? _].
Qed.

Lemma longest_suffix_suffix ok ps : suffix (longest_suffix ok ps) ps.
Proof.
  induction ps as [|p ps IH]; cbn; [done|].
  destruct (ok _ && keyframe p); [done|]. by apply suffix_cons_r.
Qed.

Lemma longest_suffix_ok ok ps :
  longest_suffix ok ps = [] \/
  ok (longest_suffix ok ps) = true /\ head_not_key (longest_suffix ok ps) = false.
Proof.
  induction ps as [|p ps IH]; cbn; [by left|].
  destruct (ok (p :: ps)) eqn:E, (keyframe p) eqn:K; cbn; try done.
  right. cbn. by rewrite K.
Qed.

(** Nothing decodable that fits was dropped. *)
Lemma longest_suffix_max ok ps qs q :
  suffix (q :: qs) ps -> ok (q :: qs) = true -> keyframe q = true ->
  suffix (q :: qs) (longest_suffix ok ps).
Proof.
  intros Hsuf Hok Hk. induction ps as [|p ps IH]; [done|]. cbn.
  apply suffix_cons_inv in Hsuf as [[= <- <-]|Hsuf].
  - by rewrite Hok, Hk.
  - destruct (ok (p :: ps) && keyframe p); [by apply suffix_cons_r|by apply IH].
Qed.

Lemma sorted_suffix ps qs : StronglySorted earlier ps -> suffix qs ps -> StronglySorted earlier qs.
Proof.
  intros Hs [ks ->]. induction ks as [|k ks IH]; [done|].
  apply IH. by apply StronglySorted_inv in Hs as [? _].
Qed.

Lemma sorted_snoc ps p :
  StronglySorted earlier ps -> Forall (fun q => earlier q p) ps -> StronglySorted earlier (ps ++ [p]).
Proof.
  induction 1 as [|q ps Hs IH Hq]; cbn; intros Hp.
  - constructor; constructor.
  - inversion Hp; subst. constructor; [auto|]. apply Forall_app. split; [done|by constructor].
Qed.

Lemma Forall_suffix {A} (P : A -> Prop) (l k : list A) : Forall P l -> suffix k l -> Forall P k.
Proof. intros H [ks ->]. by apply Forall_app in H as [_ ?]. Qed.

Lemma suffix_zlen {A} (l k : list A) : suffix k l -> zlen k <= zlen l.
Proof. intros [ks ->]. rewrite zlen_app. pose proof (zlen_nonneg ks). lia. Qed.

Lemma suffix_total ps qs : suffix qs ps -> total_bytes qs <= total_bytes ps.
Proof. intros [ks ->]. rewrite total_bytes_app. pose proof (total_bytes_nonneg ks). lia. Qed.
End Suffixes.

(** Equality of loop states up to arithmetic in the counters. *)
Ltac state_eq :=
  try apply f_equal; apply f_equal2;
  [apply f_equal2; [first [done|apply f_equal; lia]|lia]|lia].

(** * The loops compute the list-level eviction *)
Section Loops.
Context (r : ReplayRing) (test : ReplayRing -> bool) (testl : list EncodedReplayPacket -> bool).
Context (test_list : forall ps, test (with_packets ps (total_bytes ps) r) = testl ps).
Context (test_nil : testl [] = false).

(** A ring whose byte counter agrees with its packets. *)
Definition counted (ps : list EncodedReplayPacket) : ReplayRing := with_packets ps (total_bytes ps) r.

Lemma evict_front_counted p ps ep eb :
  0 <= ep -> 0 <= eb -> ep + 1 <= U32_MAX -> eb + zlen (packet_bytes p) <= U64_MAX ->
  evict_front (counted (p :: ps), ep, eb) = (counted ps, ep + 1, eb + zlen (packet_bytes p)).
Proof.
  intros. unfold evict_front, counted. cbn [packets with_packets stored_bytes].
  rewrite total_bytes_cons. unfold sat_sub, sat_add.
  pose proof (total_bytes_nonneg ps).
  rewrite !Z.min_r, Z.max_r by lia. unfold with_packets. cbn. apply f_equal2; [apply f_equal2; [f_equal; lia|lia]|lia].
Qed.

(** Each iteration may remove several packets: [step] is the list-level body. *)
Lemma while_loop_counted (body : evict_state -> option evict_state)
    (step : list EncodedReplayPacket -> list EncodedReplayPacket) fuel ps ep eb :
  (forall p qs ep eb, 0 <= ep -> 0 <= eb -> suffix (p :: qs) ps ->
     ep + zlen (p :: qs) <= U32_MAX -> eb + total_bytes (p :: qs) <= U64_MAX ->
     body (counted (p :: qs), ep, eb) =
     Some (counted (step (p :: qs)), ep + (zlen (p :: qs) - zlen (step (p :: qs))),
           eb + (total_bytes (p :: qs) - total_bytes (step (p :: qs)))) /\
     suffix (step (p :: qs)) qs) ->
  (length ps <= fuel)%nat -> 0 <= ep -> 0 <= eb ->
  ep + zlen ps <= U32_MAX -> eb + total_bytes ps <= U64_MAX ->
  exists qs, while_loop fuel test body (counted ps, ep, eb) =
      Some (counted qs, ep + (zlen ps - zlen qs), eb + (total_bytes ps - total_bytes qs)) /\
    suffix qs ps /\ testl qs = false /\
    (forall ok, (forall q l, suffix (q :: l) ps -> testl (q :: l) = true ->
                  longest_suffix ok (q :: l) = longest_suffix ok (step (q :: l))) ->
                longest_suffix ok ps = longest_suffix ok qs) /\
    (forall P : list EncodedReplayPacket -> Prop,
       P ps -> (forall q l, P (step (q :: l))) -> P qs) /\
    (step = tail -> qs = evict_list testl ps).
Proof.
  revert ps ep eb. induction fuel as [|fuel IH]; intros ps ep eb Hbody Hlen He Hb Hep Heb.
  - destruct ps; [|cbn in Hlen; lia]. exists []. cbn [while_loop fst].
    unfold counted. rewrite test_list, test_nil. splits; [|done..]. state_eq.
  - cbn [while_loop fst]. unfold counted at 1. rewrite test_list.
    destruct ps as [|p ps].
    { rewrite test_nil. exists []. splits; [|done..]. state_eq. }
    destruct (testl (p :: ps)) eqn:Et; cycle 1.
    { exists (p :: ps). splits; [state_eq|done..|].
      intros _. cbn [evict_list]. by rewrite Et. }
    destruct (Hbody p ps ep eb) as [Hstep Hsuf]; [done..|]. cbn [mbind option_bind].
    rewrite Hstep. cbn [mbind option_bind].
    set (l := step (p :: ps)) in *.
    pose proof (suffix_zlen _ _ Hsuf). pose proof (suffix_total _ _ Hsuf).
    pose proof (zlen_nonneg (packet_bytes p)). pose proof (suffix_length _ _ Hsuf) as Hsl.
    rewrite zlen_cons, total_bytes_cons in *. cbn [length] in Hlen.
    destruct (IH l (ep + (1 + zlen ps - zlen l))
                (eb + (zlen (packet_bytes p) + total_bytes ps - total_bytes l)))
      as (qs & -> & Hq & Hf & Hok & HP & Htail); [|lia|lia|lia|lia|lia|].
    { intros q qs ep' eb' ? ? Hq. apply Hbody; [done..|].
      etransitivity; [exact Hq|]. by apply suffix_cons_r. }
    exists qs. splits; [state_eq| |done| | |].
    + etransitivity; [exact Hq|]. by apply suffix_cons_r.
    + intros ok Hall. rewrite Hall by done. apply Hok.
      intros q l' Hl'. apply Hall. etransitivity; [exact Hl'|]. by apply suffix_cons_r.
    + intros P _ Hall. apply HP; [apply Hall|done].
    + intros ->. cbn [evict_list]. rewrite Et. by apply Htail.
Qed.

Lemma evict_while_counted ps ep eb :
  0 <= ep -> 0 <= eb -> ep + zlen ps <= U32_MAX -> eb + total_bytes ps <= U64_MAX ->
  evict_while test (counted ps, ep, eb) =
  Some (counted (evict_list testl ps), ep + (zlen ps - zlen (evict_list testl ps)),
        eb + (total_bytes ps - total_bytes (evict_list testl ps))).
Proof.
  intros. unfold evict_while, ring_fuel. cbn [fst].
  destruct (while_loop_counted (fun s => Some (evict_front s)) tail (length ps) ps ep eb)
    as (qs & H' & _ & _ & _ & _ & Hq); [|done|done|done|done|done|].
  - intros p qs e b He Hb Hs Hle Hlb. rewrite zlen_cons, total_bytes_cons in *.
    pose proof (zlen_nonneg qs). pose proof (total_bytes_nonneg qs).
    split; [|done]. cbn [tail]. rewrite evict_front_counted by lia. state_eq.
  - rewrite <- Hq by done. exact H'.
Qed.
End Loops.

(** * Operations under the invariant *)
Lemma exceeds_counted r ps : exceeds_any_limit (counted r ps) = negb (fits r ps).
Proof.
  unfold exceeds_any_limit, fits, counted. cbn.
  by rewrite !Z.ltb_antisym, !negb_andb, negb_involutive.
Qed.

Lemma front_counted r ps : front_is_not_keyframe (counted r ps) = head_not_key ps.
Proof. done. Qed.

Lemma fits_nil r : 1 <= byte_limit r -> 1 <= packet_limit r -> fits r [] = true.
Proof.
  intros. unfold fits, total_bytes, span_exceeds. cbn.
  rewrite (proj2 (Z.leb_le _ _)) by (unfold zlen; cbn; lia).
  by rewrite (proj2 (Z.leb_le _ _)) by lia.
Qed.

Lemma fits_bounds r ps : fits r ps = true -> zlen ps <= packet_limit r /\ total_bytes ps <= byte_limit r.
Proof. unfold fits. rewrite !andb_true_iff, !Z.leb_le. tauto. Qed.

Section PushStored.
Context (r : ReplayRing) (p : EncodedReplayPacket).
Context (Hinv : ring_inv r) (Hp : packet_ok p).
Context (Hlast : forall l, last_timestamp_ns r = Some l -> l < timestamp_ns p).

Let all : list EncodedReplayPacket := packets r ++ [p].
Let kept : list EncodedReplayPacket := longest_suffix (fits r) all.

Lemma all_sorted : StronglySorted earlier all.
Proof.
  destruct Hinv. apply sorted_snoc; [done|].
  eapply Forall_impl; [exact inv_last0|]. cbn. intros q (l & E & Hq).
  specialize (Hlast l E). unfold earlier. lia.
Qed.

Lemma all_bounds : zlen all <= U32_MAX /\ total_bytes all <= U64_MAX.
Proof.
  destruct Hinv as [Hl _ _ _ _ Hf _]. apply fits_bounds in Hf. destruct Hp as (_ & _ & _ & Hlen).
  unfold all. rewrite zlen_app, total_bytes_app, total_bytes_cons.
  change (total_bytes []) with 0. change (zlen [p]) with 1.
  unfold U32_MAX, U64_MAX, MAX_IN_MEMORY_REPLAY_BYTES, MAX_SINGLE_PACKET_BYTES in *. lia.
Qed.

Lemma kept_suffix : suffix kept all.
Proof. apply longest_suffix_suffix. Qed.

Definition pushed : ReplayRing :=
  with_counters (Some (timestamp_ns p)) (dropped_awaiting_keyframe r)
    (sat_add U64_MAX (evicted_packets r) (zlen all - zlen kept))
    (sat_add U64_MAX (evicted_bytes r) (total_bytes all - total_bytes kept))
    (with_packets kept (total_bytes kept) r).

Lemma push_stored :
  zlen (packet_bytes p) <= byte_limit r -> (packets r <> [] \/ keyframe p = true) ->
  push r p = Some (pushed, Ok (Stored (zlen all - zlen kept) (total_bytes all - total_bytes kept))).
Proof.
  intros Hfit Hkey. unfold push. rewrite (proj2 (Z.ltb_ge _ _)) by done.
  destruct all_bounds as [Hz Ht]. pose proof (total_bytes_nonneg all). pose proof all_sorted as Hsorted.
  destruct (inv_limits _ Hinv) as (Hb1 & Hp1 & Hdur).
  assert (fits r [] = true) as Hnil by (apply fits_nil; lia).
  destruct (last_timestamp_ns r) as [l|] eqn:El;
    [rewrite (proj2 (Z.leb_gt _ _)) by (specialize (Hlast l eq_refl); lia)|].
  all: cbn [packets with_counters].
  all: replace (bool_decide (packets r = []) && negb (keyframe p)) with false
    by (destruct Hkey as [H0| ->]; [by rewrite bool_decide_false|by rewrite andb_false_r]).
  all: set (r1 := with_counters (Some (timestamp_ns p)) _ _ _ r).
  all: assert (with_packets (packets r ++ [p])
           (sat_add U64_MAX (stored_bytes r1) (zlen (packet_bytes p))) r1 = counted r1 all) as ->
    by (unfold counted; f_equal; rewrite sat_add_exact; unfold all in *;
        rewrite total_bytes_app, total_bytes_cons in *; change (total_bytes []) with 0 in *;
        cbn; rewrite (inv_bytes _ Hinv); lia).
  all: rewrite (evict_while_counted r1 exceeds_any_limit (fun l => negb (fits r1 l)))
    by first [exact (exceeds_counted r1)|lia|exact (f_equal negb Hnil)].
  all: cbn [mbind option_bind].
  all: pose proof (evict_list_suffix (fun l => negb (fits r1 l)) all) as Hs1.
  all: pose proof (suffix_zlen _ _ Hs1); pose proof (suffix_total _ _ Hs1).
  all: rewrite (evict_while_counted r1 front_is_not_keyframe head_not_key)
    by first [exact (front_counted r1)|lia|done].
  all: cbn [mbind option_bind].
  all: rewrite (evict_both r1) by first [exact Hsorted|exact Hdur].
  all: change (longest_suffix (fits r1) all) with kept.
  all: unfold pushed, with_counters, counted, with_packets; cbn.
  all: repeat f_equal; lia.
Qed.

Lemma pushed_inv : ring_inv pushed.
Proof.
  pose proof kept_suffix as Hk. pose proof all_sorted as Hs. destruct Hinv.
  assert (fits r kept = true /\ head_not_key kept = false) as [Hf Hh].
  { destruct (longest_suffix_ok (fits r) all) as [E|]; [|done].
    fold kept in E. rewrite E. destruct inv_limits0 as (? & ? & ?). by rewrite fits_nil by lia. }
  split; cbn.
  - done.
  - eapply Forall_suffix; [|exact Hk]. apply Forall_app. split; [done|by constructor].
  - exact (sorted_suffix _ _ Hs Hk).
  - eapply Forall_suffix; [|exact Hk]. apply Forall_app. split.
    + eapply Forall_impl; [exact inv_last0|]. cbn. intros q (l & E & Hq).
      specialize (Hlast l E). exists (timestamp_ns p). split; [done|lia].
    + constructor; [|constructor]. by eexists.
  - done.
  - exact Hf.
  - exact Hh.
Qed.
End PushStored.

Lemma evict_key_same ok ps : longest_suffix ok (evict_list head_not_key ps) = longest_suffix ok ps.
Proof.
  induction ps as [|p ps IH]; [done|]. cbn [evict_list]. unfold head_not_key at 1. cbn [head].
  destruct (keyframe p) eqn:E; cbn [negb]; [done|]. rewrite IH. cbn [longest_suffix].
  by rewrite E, andb_false_r.
Qed.

Lemma evict_key_head ps : head_not_key (evict_list head_not_key ps) = false.
Proof.
  induction ps as [|p ps IH]; [done|]. cbn [evict_list].
  destruct (head_not_key (p :: ps)) eqn:E; [apply IH|exact E].
Qed.

Lemma longest_suffix_self ok ps : ok ps = true -> head_not_key ps = false -> longest_suffix ok ps = ps.
Proof.
  destruct ps as [|p ps]; cbn; [done|]. intros ->. by destruct (keyframe p).
Qed.

Lemma counted_suffix_inv r qs :
  ring_inv r -> suffix qs (packets r) -> head_not_key qs = false -> ring_inv (counted r qs).
Proof.
  intros [Hl Hp Hs Hlast Hb Hf Hk] Hq Hh. split; cbn.
  - done.
  - exact (Forall_suffix _ _ _ Hp Hq).
  - exact (sorted_suffix _ _ Hs Hq).
  - exact (Forall_suffix _ _ _ Hlast Hq).
  - done.
  - destruct Hl as (? & ? & Hd). exact (fits_suffix _ _ _ Hs Hd Hf Hq).
  - exact Hh.
Qed.

Lemma counted_self r : ring_inv r -> counted r (packets r) = r.
Proof. intros [_ _ _ _ Hb _ _]. unfold counted. rewrite <- Hb. by destruct r. Qed.

Lemma snapshot_counted r d :
  ring_inv r ->
  let ok := fun l => negb (span_exceeds (duration_seconds d * NANOSECONDS_PER_SECOND) l) in
  snapshot_for_duration r d = Some (counted r (longest_suffix ok (packets r))).
Proof.
  intros Hinv ok. unfold snapshot_for_duration.
  rewrite sat_mul_exact by (unfold U64_MAX, NANOSECONDS_PER_SECOND; destruct d; cbn; lia).
  set (limit := duration_seconds d * NANOSECONDS_PER_SECOND) in *.
  pose proof (fits_bounds _ _ (inv_fits _ Hinv)) as [Hz Ht].
  destruct (inv_limits _ Hinv) as (Hb1 & Hp1 & _).
  unfold U32_MAX, U64_MAX, MAX_IN_MEMORY_REPLAY_BYTES in *.
  rewrite <- (counted_self r Hinv) at 2.
  destruct (while_loop_counted r (fun r => span_exceeds limit (packets r)) (span_exceeds limit)
    ltac:(done) ltac:(done) (fun s => evict_while front_is_not_keyframe (evict_front s))
    (fun l => evict_list head_not_key (tail l)) (ring_fuel r) (packets r) 0 0)
    as (qs & -> & Hq & Hf & Hls & HP & _);
    [|done|done|done|unfold U32_MAX; lia|unfold U64_MAX; lia|].
  - intros p ps ep eb He Hb Hs Hle Hlb. rewrite zlen_cons, total_bytes_cons in *.
    pose proof (zlen_nonneg ps). pose proof (total_bytes_nonneg ps).
    pose proof (zlen_nonneg (packet_bytes p)).
    rewrite evict_front_counted by lia. cbn [tail].
    rewrite (evict_while_counted r front_is_not_keyframe head_not_key) by first [done|lia].
    split; [state_eq|apply evict_list_suffix].
  - cbn. f_equal. f_equal. rewrite (Hls ok).
    + symmetry. apply longest_suffix_self; [unfold ok; by rewrite Hf|].
      apply (HP (fun l => head_not_key l = false)); [apply Hinv|]. intros. apply evict_key_head.
    + intros q l Hl E. cbn [tail]. rewrite evict_key_same. cbn [longest_suffix].
      unfold ok at 1. by rewrite E.
Qed.

Lemma packet_new_Ok t d k bs p :
  0 <= t -> 0 <= d ->
  packet_new t d k bs = Ok p <->
  packet_ok p /\ p = {| timestamp_ns := t; duration_ns := d; keyframe := k; packet_bytes := bs |}.
Proof.
  intros Ht Hd. unfold packet_new, packet_ok. pose proof (zlen_nonneg bs).
  destruct (Z.eqb_spec (zlen bs) 0); [split; [done|intros [(_ & _ & _ & ?) ->]; cbn in *; lia]|].
  destruct (Z.ltb_spec MAX_SINGLE_PACKET_BYTES (zlen bs));
    [split; [done|intros [(_ & _ & _ & ?) ->]; cbn in *; lia]|].
  destruct (Z.eqb_spec d 0); [split; [done|intros [(_ & ? & _) ->]; cbn in *; lia]|].
  destruct (Z.ltb_spec MAX_PACKET_DURATION_NS d);
    [split; [done|intros [(_ & ? & _) ->]; cbn in *; lia]|]. cbn [orb].
  unfold checked_add. destruct (Z.leb_spec (t + d) U64_MAX); cbn.
  - split; [intros [= <-]; cbn; splits; first [done|lia]|by intros [_ ->]].
  - split; [done|intros [(_ & _ & ? & _) ->]; cbn in *; lia].
Qed.

Lemma ring_new_inv s : ring_inv (ring_new s).
Proof.
  split; [|constructor..| | |done].
  - destruct s as [[] [] [] []]; vm_compute; splits; done.
  - done.
  - by destruct s as [[] [] [] []].
Qed.

Lemma reset_inv r : ring_inv r -> ring_inv (reset_epoch r).
Proof.
  intros [Hl _ _ _ _ _ _].
  split; cbn; [done|constructor..|done|apply (fits_nil r); lia|done].
Qed.

(** Calls on the ring from outside: a packet built from raw encoder output
    (rejected by [packet_new] when malformed) or an epoch reset. *)
Inductive ring_op :=
| OpPush (timestamp duration : Z) (key : bool) (bs : bytes)
| OpReset.
Definition ring_op_ok (op : ring_op) : Prop :=
  match op with OpPush t d _ _ => in_range U64_MAX t /\ in_range U64_MAX d | OpReset => True end.
Definition apply_op (r : ReplayRing) (op : ring_op) : option ReplayRing :=
  match op with
  | OpPush t d k bs =>
      match packet_new t d k bs with
      | Ok p => fst <$> push r p
      | _ => Some r
      end
  | OpReset => Some (reset_epoch r)
  end.
Fixpoint run_ops (r : ReplayRing) (ops : list ring_op) : option ReplayRing :=
  match ops with
  | [] => Some r
  | op :: ops => r ← apply_op r op; run_ops r ops
  end.

(** What a push of [p] into [r] does, by outcome, and when: the conditions at the
    end of each case exclude one another, so they say which outcome it is. *)
Definition later_than_last (r : ReplayRing) (p : EncodedReplayPacket) : Prop := forall l, last_timestamp_ns r = Some l -> l < timestamp_ns p.
Definition same_limits (r r' : ReplayRing) : Prop :=
  duration_limit_ns r' = duration_limit_ns r /\ packet_limit r' = packet_limit r /\ byte_limit r' = byte_limit r.
Definition push_spec (r : ReplayRing) (p : EncodedReplayPacket) (r' : ReplayRing)
    (res : outcome ReplayRingError ReplayPushOutcome) : Prop :=
  match res with
  | Panic => False
  | Err PacketExceedsRingBudget => r' = r /\ byte_limit r < zlen (packet_bytes p)
  | Err NonMonotonicTimestamp =>
      r' = r /\ zlen (packet_bytes p) <= byte_limit r /\ exists l, last_timestamp_ns r = Some l /\ timestamp_ns p <= l
  | Ok DroppedAwaitingKeyframe =>
      packets r = [] /\ keyframe p = false /\ packets r' = [] /\
      last_timestamp_ns r' = Some (timestamp_ns p) /\
      dropped_awaiting_keyframe r' = sat_add U64_MAX (dropped_awaiting_keyframe r) 1 /\
      evicted_packets r' = evicted_packets r /\ evicted_bytes r' = evicted_bytes r /\
      same_limits r r' /\ zlen (packet_bytes p) <= byte_limit r /\ later_than_last r p
  | Ok (Stored ep eb) =>
      last_timestamp_ns r' = Some (timestamp_ns p) /\
      suffix (packets r') (packets r ++ [p]) /\
      (forall q qs, suffix (q :: qs) (packets r ++ [p]) -> fits r (q :: qs) = true ->
         keyframe q = true -> suffix (q :: qs) (packets r')) /\
      zlen (packets r') + ep = zlen (packets r) + 1 /\
      stored_bytes r' + eb = stored_bytes r + zlen (packet_bytes p) /\
      evicted_packets r' = sat_add U64_MAX (evicted_packets r) ep /\
      evicted_bytes r' = sat_add U64_MAX (evicted_bytes r) eb /\
      dropped_awaiting_keyframe r' = dropped_awaiting_keyframe r /\
      same_limits r r' /\ zlen (packet_bytes p) <= byte_limit r /\ later_than_last r p /\ (packets r <> [] \/ keyframe p = true)
  end.

Lemma push_meets_spec r p :
  ring_inv r -> packet_ok p ->
  exists r' res, push r p = Some (r', res) /\ ring_inv r' /\ push_spec r p r' res.
Proof.
  intros Hinv Hp. unfold push_spec.
  destruct (Z.ltb_spec (byte_limit r) (zlen (packet_bytes p))) as [Hbig|Hfit].
  { exists r, (Err PacketExceedsRingBudget). unfold push.
    by rewrite (proj2 (Z.ltb_lt _ _)) by done. }
  assert ((exists l, last_timestamp_ns r = Some l /\ timestamp_ns p <= l) \/
          (forall l, last_timestamp_ns r = Some l -> l < timestamp_ns p)) as [(l & El & Hl)|Hlast].
  { destruct (last_timestamp_ns r) as [l|]; [|right; done].
    destruct (Z.le_gt_cases (timestamp_ns p) l); [left; eauto|right; intros ? [= <-]; done]. }
  { exists r, (Err NonMonotonicTimestamp). unfold push.
    rewrite (proj2 (Z.ltb_ge _ _)), El, (proj2 (Z.leb_le _ _)) by done.
    splits; [done..|]. by exists l. }
  destruct (decide (packets r = [] /\ keyframe p = false)) as [[He Hk]|Hk].
  { do 2 eexists. unfold push. rewrite (proj2 (Z.ltb_ge _ _)) by done.
    replace (match last_timestamp_ns r with Some l => timestamp_ns p <=? l | None => false end)
      with false by (destruct (last_timestamp_ns r) as [l|]; [|done];
                     specialize (Hlast l eq_refl); symmetry; apply Z.leb_gt; lia).
    cbn. rewrite He, bool_decide_true, Hk by done. cbn. unfold same_limits. splits; try done.
    destruct Hinv. split; cbn; try done; rewrite He; by constructor. }
  assert (Hstart : packets r <> [] \/ keyframe p = true) by (destruct (packets r); [right; destruct (keyframe p); [done|naive_solver]|by left]).
  do 2 eexists. rewrite push_stored by done.
  split; [done|]. split; [by apply pushed_inv|]. unfold pushed. cbn.
  rewrite (inv_bytes _ Hinv), !total_bytes_app, zlen_app, total_bytes_cons.
  change (total_bytes []) with 0. change (zlen [p]) with 1.
  unfold same_limits. splits; try done; [apply longest_suffix_suffix| |lia|lia].
  intros q qs. apply longest_suffix_max.
Qed.

(** C1: functional correctness of [push].  On a well-formed ring the eviction
    loops end and the ring stays well formed.  A packet larger than the byte limit
    is refused, and so is one that fits but is not newer than every earlier one;
    both change nothing.  Of the others a delta frame for an empty ring is counted
    and dropped, and any other packet is stored: the ring keeps a suffix of the
    extended history that fits all three limits and starts at a keyframe, no
    longer decodable suffix that fits is lost, and the outcome and the counters
    report exactly what was evicted. *)
Theorem push_correct (r : ReplayRing) (p : EncodedReplayPacket)
    (Hinv : ring_inv r) (Hp : packet_ok p) :
  exists r' res, push r p = Some (r', res) /\ ring_inv r' /\ push_spec r p r' res.
Proof. by apply push_meets_spec. Qed.

Lemma run_ops_inv ops r :
  Forall ring_op_ok ops -> ring_inv r -> exists r', run_ops r ops = Some r' /\ ring_inv r'.
Proof.
  intros Hops. revert r.
  induction Hops as [|op ops Hop _ IH]; intros r Hinv; cbn; [eauto|].
  assert (exists r', apply_op r op = Some r' /\ ring_inv r') as (r' & -> & Hr'); [|by apply IH].
  destruct op as [t d k bs|]; cbn in *; [|eauto using reset_inv].
  destruct (packet_new t d k bs) as [p| |] eqn:E; [|eauto..].
  destruct Hop as [[Ht _] [Hd _]]. apply packet_new_Ok in E as [Hp _]; [|done..].
  destruct (push_meets_spec r p Hinv Hp) as (r' & res & -> & Hr' & _). cbn. eauto.
Qed.

(** For every setting and every sequence of packets and resets, however
    malformed, the ring of a session is well formed and no eviction loop runs
    forever: packets start at a keyframe with increasing timestamps, and the
    packet, byte (at most 256 MiB) and duration limits hold. *)
Theorem ring_reachable (s : ReplaySettings) (ops : list ring_op) (Hops : Forall ring_op_ok ops) :
  exists r, run_ops (ring_new s) ops = Some r /\ ring_inv r.
Proof. apply run_ops_inv; [done|apply ring_new_inv]. Qed.

(** [snapshot_for_duration] ends, leaves a well-formed ring with the
    counters of the original, and keeps the longest suffix that starts at a
    keyframe and spans at most the requested duration. *)
Theorem snapshot_correct (r : ReplayRing) (d : ReplayDuration) (Hinv : ring_inv r) :
  exists r', snapshot_for_duration r d = Some r' /\ ring_inv r' /\
    suffix (packets r') (packets r) /\
    span_exceeds (duration_seconds d * NANOSECONDS_PER_SECOND) (packets r') = false /\
    (forall q qs, suffix (q :: qs) (packets r) -> keyframe q = true ->
       span_exceeds (duration_seconds d * NANOSECONDS_PER_SECOND) (q :: qs) = false ->
       suffix (q :: qs) (packets r')) /\
    evicted_packets r' = evicted_packets r /\ evicted_bytes r' = evicted_bytes r.
Proof.
  rewrite snapshot_counted by done. eexists. split; [done|].
  set (ok := fun l => negb (span_exceeds _ l)).
  pose proof (longest_suffix_suffix ok (packets r)) as Hs.
  assert (head_not_key (longest_suffix ok (packets r)) = false /\
          ok (longest_suffix ok (packets r)) = true) as [Hh Ho].
  { by destruct (longest_suffix_ok ok (packets r)) as [->|[? ?]]. }
  splits; try done.
  - by apply counted_suffix_inv.
  - by apply negb_true_iff.
  - intros q qs Hq Hk Hspan. apply longest_suffix_max; [done| |done]. unfold ok. by rewrite Hspan.
Qed.

(** ** Witnesses *)
Definition demo_packet (t : Z) (k : bool) : EncodedReplayPacket :=
  {| timestamp_ns := t; duration_ns := 500000000; keyframe := k; packet_bytes := [7; 7] |}.
Definition demo_ring : ReplayRing :=
  default (ring_new demo_settings)
    (run_ops (ring_new demo_settings) [OpPush 0 500000000 true [7; 7]]).

Lemma demo_ring_inv : ring_inv demo_ring.
Proof.
  destruct (run_ops_inv [OpPush 0 500000000 true [7; 7]] (ring_new demo_settings)) as (r & E & H).
  { repeat constructor; done. }
  { apply ring_new_inv. }
  unfold demo_ring. by rewrite E.
Qed.

Lemma push_correct_witness :
  ring_inv demo_ring /\ packet_ok (demo_packet 500000000 false) /\
  exists r' res, push demo_ring (demo_packet 500000000 false) = Some (r', res) /\ ring_inv r'.
Proof.
  assert (packet_ok (demo_packet 500000000 false)) as Hp by (vm_compute; splits; done).
  splits; [exact demo_ring_inv|exact Hp|].
  destruct (push_correct _ _ demo_ring_inv Hp) as (r' & res & H1 & H2 & _).
  exists r', res. split; assumption.
Defined.

Lemma ring_reachable_witness :
  exists r, run_ops (ring_new demo_settings)
              [OpPush 5 1 true [1]; OpPush 5 1 true [1]; OpPush 0 0 true []; OpReset;
               OpPush 0 1 false [1]] = Some r /\ ring_inv r.
Proof. apply ring_reachable. repeat constructor; done. Defined.

Lemma snapshot_correct_witness :
  ring_inv demo_ring /\
  exists r', snapshot_for_duration demo_ring Seconds15 = Some r' /\ ring_inv r'.
Proof.
  split; [exact demo_ring_inv|].
  destruct (snapshot_correct _ Seconds15 demo_ring_inv) as (r' & H1 & H2 & _).
  exists r'. split; assumption.
Defined.
