(* ===== verification/ReplayAudio.v ===== *)
(** The bounded timeline of encoded audio packets
    (crates/redunar-daemon/src/replay_audio.rs, with the packet and stream
    records of crates/redunar-capture-audio/src/opus.rs). *)
From stdpp Require Import sorting.
From S2P Require Import Prelude Bytes Profiles.
Local Open Scope Z_scope.

(** * Opus records *)
Record EncodedOpusPacket := {
  opus_timestamp_ns : Z;
  opus_duration_ns : Z;
  opus_bytes : bytes;
}.
Record OpusStreamDescription := {
  sample_rate : Z;
  channels : Z;
  opus_codec_private : bytes;
}.
Definition AUDIO_SAMPLE_RATE : Z := 48000.
Definition AUDIO_CHANNELS : Z := 2.
Definition OpusStreamDescription_default : OpusStreamDescription :=
  let codec_private := replicate 19 0 in
  (* b"OpusHead" *)
  let codec_private := put 0 [0x4f; 0x70; 0x75; 0x73; 0x48; 0x65; 0x61; 0x64] codec_private in
  let codec_private := put 8 [1] codec_private in
  let codec_private := put 9 [AUDIO_CHANNELS] codec_private in
  let codec_private := put 10 (le_bytes 2 312) codec_private in
  let codec_private := put 12 (le_bytes 4 AUDIO_SAMPLE_RATE) codec_private in
  {| sample_rate := AUDIO_SAMPLE_RATE; channels := AUDIO_CHANNELS;
     opus_codec_private := codec_private |}.

(** * The buffer *)
Definition MAX_AUDIO_PACKET_BYTES : Z := 4096.
Definition MAX_AUDIO_BUFFER_BYTES : Z := 32 * 1024 * 1024.
Definition MAX_AUDIO_PACKETS : Z := 45000.

Inductive ReplayAudioError := InvalidAudioPacket | AudioTimestampNotMonotonic | BufferLimitExceeded.

Record ReplayAudioSnapshot := {
  snapshot_stream : OpusStreamDescription;
  snapshot_packets : list EncodedOpusPacket;
}.
Record ReplayAudioTracks := {
  system : ReplayAudioSnapshot;
  microphone : option ReplayAudioSnapshot;
}.
Record ReplayAudioBuffer := {
  audio_stream : OpusStreamDescription;
  audio_duration_ns : Z;
  audio_bytes : Z;
  audio_packets : list EncodedOpusPacket;
}.

Definition audio_new (d : ReplayDuration) (stream : OpusStreamDescription) : ReplayAudioBuffer := {|
  audio_stream := stream;
  audio_duration_ns := sat_mul U64_MAX (duration_seconds d) 1000000000;
  audio_bytes := 0;
  audio_packets := [];
|}.

Definition with_audio (ps : list EncodedOpusPacket) (n : Z) (b : ReplayAudioBuffer) : ReplayAudioBuffer := {|
  audio_stream := audio_stream b;
  audio_duration_ns := audio_duration_ns b;
  audio_bytes := n;
  audio_packets := ps;
|}.

Definition opus_end (p : EncodedOpusPacket) : Z :=
  sat_add U64_MAX (opus_timestamp_ns p) (opus_duration_ns p).

(** The loop of [evict_old] on the packets and the byte counter. *)
Fixpoint evict_ended (keep_from : Z) (ps : list EncodedOpusPacket) (n : Z)
    : list EncodedOpusPacket * Z :=
  match ps with
  | [] => ([], n)
  | p :: ps' =>
      if opus_end p <=? keep_from
      then evict_ended keep_from ps' (sat_sub n (zlen (opus_bytes p)))
      else (ps, n)
  end.

Definition evict_old (b : ReplayAudioBuffer) : ReplayAudioBuffer :=
  match last (audio_packets b) ≫= fun p => checked_add U64_MAX (opus_timestamp_ns p) (opus_duration_ns p) with
  | None => b
  | Some end_ =>
      let '(ps, n) := evict_ended (sat_sub end_ (audio_duration_ns b)) (audio_packets b) (audio_bytes b) in
      with_audio ps n b
  end.

(** [pop_back], returning the remaining packets and the removed one. *)
Definition pop_back {A} (l : list A) : option (list A * A) :=
  match last l with Some x => Some (take (length l - 1) l, x) | None => None end.

Definition audio_push (b : ReplayAudioBuffer) (p : EncodedOpusPacket)
    : ReplayAudioBuffer * outcome ReplayAudioError unit :=
  if (zlen (opus_bytes p) =? 0) || (MAX_AUDIO_PACKET_BYTES <? zlen (opus_bytes p))
     || (opus_duration_ns p =? 0)
     || negb (bool_decide (is_Some (checked_add U64_MAX (opus_timestamp_ns p) (opus_duration_ns p))))
  then (b, Err InvalidAudioPacket)
  else if match last (audio_packets b) with
          | Some l => opus_timestamp_ns p <=? opus_timestamp_ns l
          | None => false
          end
  then (b, Err AudioTimestampNotMonotonic)
  else
    match checked_add USIZE_MAX (audio_bytes b) (zlen (opus_bytes p)) with
    | None => (b, Err BufferLimitExceeded)
    | Some n =>
        let b := evict_old (with_audio (audio_packets b ++ [p]) n b) in
        if (MAX_AUDIO_BUFFER_BYTES <? audio_bytes b) || (MAX_AUDIO_PACKETS <? zlen (audio_packets b))
        then
          (match pop_back (audio_packets b) with
           | Some (ps, rejected) => with_audio ps (sat_sub (audio_bytes b) (zlen (opus_bytes rejected))) b
           | None => b
           end, Err BufferLimitExceeded)
        else (b, Ok tt)
    end.

Definition audio_clear (b : ReplayAudioBuffer) : ReplayAudioBuffer := with_audio [] 0 b.
Definition audio_packet_count (b : ReplayAudioBuffer) : Z := zlen (audio_packets b).
Definition audio_byte_count (b : ReplayAudioBuffer) : Z := audio_bytes b.

Definition snapshot_between (b : ReplayAudioBuffer) (start_ns end_ns : Z) : ReplayAudioSnapshot := {|
  snapshot_stream := audio_stream b;
  snapshot_packets :=
    List.filter (fun p => (opus_timestamp_ns p <? end_ns) && (start_ns <? opus_end p)) (audio_packets b);
|}.

(** * Invariant *)
Definition opus_total (ps : list EncodedOpusPacket) : Z := sum_Z (map (fun p => zlen (opus_bytes p)) ps).
Definition opus_ok (p : EncodedOpusPacket) : Prop :=
  0 < zlen (opus_bytes p) <= MAX_AUDIO_PACKET_BYTES /\ 0 <= opus_timestamp_ns p /\
  0 < opus_duration_ns p /\ opus_timestamp_ns p + opus_duration_ns p <= U64_MAX.
Definition opus_before (p q : EncodedOpusPacket) : Prop := opus_timestamp_ns p < opus_timestamp_ns q.

Record audio_inv (b : ReplayAudioBuffer) : Prop := {
  audio_inv_packets : Forall opus_ok (audio_packets b);
  audio_inv_sorted : StronglySorted opus_before (audio_packets b);
  audio_inv_bytes : audio_bytes b = opus_total (audio_packets b);
  audio_inv_bound : audio_bytes b <= MAX_AUDIO_BUFFER_BYTES;
  audio_inv_count : zlen (audio_packets b) <= MAX_AUDIO_PACKETS;
  audio_inv_duration : 0 < audio_duration_ns b;
}.

(** ** Lemmas *)
Lemma opus_total_app ps qs : opus_total (ps ++ qs) = opus_total ps + opus_total qs.
Proof. unfold opus_total. by rewrite map_app, sum_Z_app. Qed.
Lemma opus_total_nonneg ps : 0 <= opus_total ps.
Proof. apply sum_Z_nonneg, Forall_map, Forall_true. intros. apply zlen_nonneg. Qed.
Lemma opus_total_cons p ps : opus_total (p :: ps) = zlen (opus_bytes p) + opus_total ps.
Proof. done. Qed.

Lemma opus_end_ok p : opus_ok p -> opus_end p = opus_timestamp_ns p + opus_duration_ns p.
Proof. intros (_ & _ & _ & ?). by apply sat_add_exact. Qed.

Lemma evict_ended_spec k ps n :
  opus_total ps <= n ->
  exists dropped kept, ps = dropped ++ kept /\
    evict_ended k ps n = (kept, n - opus_total dropped) /\
    Forall (fun q => opus_end q <= k) dropped /\
    match head kept with Some q => k < opus_end q | None => True end.
Proof.
  revert n. induction ps as [|p ps IH]; intros n Hn.
  { exists [], []. cbn. splits; [done| |constructor|done]. f_equal. unfold opus_total. cbn. lia. }
  cbn. rewrite opus_total_cons in Hn. pose proof (opus_total_nonneg ps).
  destruct (Z.leb_spec (opus_end p) k).
  - rewrite sat_sub_exact by lia.
    destruct (IH (n - zlen (opus_bytes p)) ltac:(lia)) as (d & kept & -> & -> & Hd & Hk).
    exists (p :: d), kept. splits; [done| |by constructor|done].
    f_equal. rewrite opus_total_cons. lia.
  - exists [], (p :: ps). splits; [done| |constructor|done]. f_equal. unfold opus_total. cbn. lia.
Qed.

Lemma sorted_app_r {A} (R : A -> A -> Prop) l k : StronglySorted R (l ++ k) -> StronglySorted R k.
Proof. induction l as [|x l IH]; [done|]. cbn. intros H. apply StronglySorted_inv in H as [H _]. auto. Qed.

Lemma sorted_app_l {A} (R : A -> A -> Prop) l k : StronglySorted R (l ++ k) -> StronglySorted R l.
Proof.
  induction l as [|x l IH]; [constructor|]. cbn. intros H. apply StronglySorted_inv in H as [H Hall].
  apply Forall_app in Hall as [Hall _]. constructor; auto.
Qed.

Lemma sorted_snoc_opus ps p :
  StronglySorted opus_before ps ->
  match last ps with Some l => opus_timestamp_ns l < opus_timestamp_ns p | None => True end ->
  StronglySorted opus_before (ps ++ [p]).
Proof.
  induction 1 as [|q ps Hs IH Hq]; cbn; intros Hp; [by repeat constructor|].
  assert (match last ps with Some l => opus_timestamp_ns l < opus_timestamp_ns p | None => True end) as Hp'.
  { destruct ps; [done|]. by rewrite last_cons_cons in Hp. }
  constructor; [by apply IH|]. apply Forall_app. split; [done|]. constructor; [|constructor].
  unfold opus_before. destruct ps as [|q' ps]; [done|].
  rewrite last_cons_cons in Hp. destruct (last (q' :: ps)) as [l|] eqn:E.
  - apply last_Some in E as [l' E]. rewrite E in Hq. apply Forall_app in Hq as [_ Hq].
    inversion Hq; subst. unfold opus_before in *. lia.
  - by apply last_None in E.
Qed.

Lemma last_snoc_opt {A} (l : list A) x : last (l ++ [x]) = Some x.
Proof. apply last_snoc. Qed.

Lemma pop_back_snoc {A} (l : list A) x : pop_back (l ++ [x]) = Some (l, x).
Proof.
  unfold pop_back. rewrite last_snoc, length_app. cbn.
  replace (length l + 1 - 1)%nat with (length l) by lia. by rewrite take_app_length.
Qed.

(** The admission test of [audio_push]. *)
Lemma audio_invalid_false p :
  0 <= opus_timestamp_ns p -> 0 <= opus_duration_ns p ->
  (zlen (opus_bytes p) =? 0) || (MAX_AUDIO_PACKET_BYTES <? zlen (opus_bytes p))
  || (opus_duration_ns p =? 0)
  || negb (bool_decide (is_Some (checked_add U64_MAX (opus_timestamp_ns p) (opus_duration_ns p))))
  = false <-> opus_ok p.
Proof.
  intros Ht Hd. unfold opus_ok. pose proof (zlen_nonneg (opus_bytes p)).
  rewrite !orb_false_iff, Z.eqb_neq, Z.ltb_ge, Z.eqb_neq, negb_false_iff, bool_decide_eq_true.
  unfold checked_add. destruct (Z.leb_spec (opus_timestamp_ns p + opus_duration_ns p) U64_MAX).
  - split; [lia|]. intros. splits; [lia..|]. by eexists.
  - split; [|lia]. intros [_ [? ?]]. done.
Qed.

(** What [evict_old] does after a packet was appended: it removes a prefix of
    the older packets and never the new one. *)
Lemma evict_old_spec b p :
  0 < audio_duration_ns b -> opus_ok p ->
  audio_bytes b = opus_total (audio_packets b) ->
  last (audio_packets b) = Some p ->
  exists dropped kept, audio_packets b = dropped ++ kept ++ [p] /\
    evict_old b = with_audio (kept ++ [p]) (opus_total (kept ++ [p])) b /\
    let keep_from := sat_sub (opus_end p) (audio_duration_ns b) in
    Forall (fun q => opus_end q <= keep_from) dropped /\
    match head (kept ++ [p]) with Some q => keep_from < opus_end q | None => True end.
Proof.
  intros Hd Hp Hb Hlast. unfold evict_old. rewrite Hlast. cbn [mbind option_bind].
  pose proof Hp as (_ & Ht & Hdur & Hsum). rewrite (proj2 (checked_add_Some _ _ _ _)) by done.
  rewrite (opus_end_ok p Hp).
  destruct (evict_ended_spec (sat_sub (opus_timestamp_ns p + opus_duration_ns p) (audio_duration_ns b))
              (audio_packets b) (audio_bytes b)) as (d & kept & E & -> & Hdr & Hk); [lia|].
  destruct (last kept) as [q|] eqn:Eq.
  - apply last_Some in Eq as [kept' ->]. rewrite app_assoc in E. rewrite E, last_snoc in Hlast.
    injection Hlast as ->. exists d, kept'. splits; [by rewrite E, <- app_assoc| |done|done].
    unfold with_audio. f_equal. rewrite Hb, E, !opus_total_app. lia.
  - apply last_None in Eq as ->. rewrite app_nil_r in E. subst d.
    apply last_Some in Hlast as [l E]. rewrite E in Hdr. apply Forall_app in Hdr as [_ Hdr].
    apply Forall_cons in Hdr as [Hdr _]. rewrite (opus_end_ok p Hp) in Hdr. unfold sat_sub in Hdr. lia.
Qed.

(** Functional correctness of [push] on the audio timeline.  A malformed
    packet or one that does not advance the clock changes nothing; otherwise
    exactly the leading packets that ended before the replay window are
    evicted and the packet is appended, unless the 32 MiB or 45 000 packet
    bound would be exceeded, when the new packet alone is taken back.  The
    counters, the order and both bounds hold afterwards in every case. *)
Theorem audio_push_correct (b : ReplayAudioBuffer) (p : EncodedOpusPacket)
    (Hinv : audio_inv b)
    (Hp : in_range U64_MAX (opus_timestamp_ns p) /\ in_range U64_MAX (opus_duration_ns p)) :
  let '(b', res) := audio_push b p in
  audio_inv b' /\
  let keep_from := sat_sub (opus_end p) (audio_duration_ns b) in
  match res with
  | Panic => False
  | Err InvalidAudioPacket => b' = b /\ ~ opus_ok p
  | Err AudioTimestampNotMonotonic =>
      b' = b /\ exists l, last (audio_packets b) = Some l /\ opus_timestamp_ns p <= opus_timestamp_ns l
  | Err BufferLimitExceeded =>
      exists dropped, audio_packets b = dropped ++ audio_packets b' /\
        Forall (fun q => opus_end q <= keep_from) dropped /\
        (MAX_AUDIO_BUFFER_BYTES < audio_bytes b' + zlen (opus_bytes p) \/
         MAX_AUDIO_PACKETS < zlen (audio_packets b') + 1)
  | Ok _ =>
      exists dropped kept, audio_packets b = dropped ++ kept /\ audio_packets b' = kept ++ [p] /\
        Forall (fun q => opus_end q <= keep_from) dropped /\
        match head (audio_packets b') with Some q => keep_from < opus_end q | None => True end
  end.
Proof.
  destruct Hp as [[Ht0 _] [Hd0 _]]. unfold audio_push.
  pose proof (audio_invalid_false p Ht0 Hd0) as Hok.
  destruct (_ || _ || _ || negb _) eqn:Einv.
  { splits; [done..|]. intros H. apply Hok in H. congruence. }
  apply proj1 in Hok. specialize (Hok eq_refl). clear Einv.
  destruct (match last (audio_packets b) with Some l => _ | None => false end) eqn:Emono.
  { split; [done|]. destruct (last (audio_packets b)) as [l|] eqn:El; [|done].
    apply Z.leb_le in Emono. eauto. }
  destruct Hinv as [Hpk Hs Hb Hbound Hcount Hdur].
  pose proof Hok as ((Hl1 & Hl2) & _). pose proof (opus_total_nonneg (audio_packets b)).
  unfold MAX_AUDIO_BUFFER_BYTES, MAX_AUDIO_PACKET_BYTES in *.
  rewrite (proj2 (checked_add_Some _ _ _ (audio_bytes b + zlen (opus_bytes p))))
    by (unfold USIZE_MAX, U64_MAX; lia).
  set (b1 := with_audio (audio_packets b ++ [p]) _ b).
  assert (StronglySorted opus_before (audio_packets b ++ [p])) as Hs1.
  { apply sorted_snoc_opus; [done|]. destruct (last (audio_packets b)) as [l|]; [|done].
    apply Z.leb_gt in Emono. lia. }
  destruct (evict_old_spec b1 p) as (d & kept & E & -> & Hdr & Hk); [done|done| |apply last_snoc|].
  { unfold b1. cbn [audio_bytes audio_packets with_audio]. rewrite opus_total_app, opus_total_cons. change (opus_total []) with 0. lia. }
  unfold b1 in *. cbn [audio_bytes audio_packets with_audio audio_duration_ns] in *. rewrite app_assoc in E. apply app_inj_2 in E as [E _]; [|done].
  assert (Forall opus_ok kept) as Hpk'. { rewrite E in Hpk. by apply Forall_app in Hpk as [_ ?]. }
  assert (StronglySorted opus_before (kept ++ [p])) as Hs2.
  { rewrite E, <- app_assoc in Hs1. by apply sorted_app_r in Hs1. }
  assert (opus_total kept <= audio_bytes b /\ zlen kept <= zlen (audio_packets b)) as [Hle1 Hle2].
  { rewrite Hb, E, opus_total_app, zlen_app. pose proof (opus_total_nonneg d).
    pose proof (zlen_nonneg d). lia. }
  rewrite opus_total_app, zlen_app, opus_total_cons. change (opus_total []) with 0. change (zlen [p]) with 1.
  destruct (_ || _) eqn:Elim.
  - rewrite pop_back_snoc. cbn [with_audio audio_bytes audio_packets]. rewrite sat_sub_exact by (pose proof (opus_total_nonneg kept); lia).
    split; [split; cbn [with_audio audio_bytes audio_packets audio_duration_ns]; [done|by eapply sorted_app_l|lia|unfold MAX_AUDIO_BUFFER_BYTES; lia|lia|done]|].
    exists d. splits; [done..|]. rewrite orb_true_iff, !Z.ltb_lt in Elim. lia.
  - rewrite orb_false_iff, !Z.ltb_ge in Elim. split.
    + split; cbn [with_audio audio_bytes audio_packets audio_duration_ns]; try done.
      * apply Forall_app. split; [done|by constructor].
      * rewrite opus_total_app, opus_total_cons. done.
      * unfold MAX_AUDIO_BUFFER_BYTES. lia.
      * rewrite zlen_app. change (zlen [p]) with 1. lia.
    + exists d, kept. done.
Qed.

(** [snapshot_between] returns, in order, exactly the packets of the
    timeline that sound during the half-open interval from start to end. *)
Theorem snapshot_between_correct (b : ReplayAudioBuffer) (start_ns end_ns : Z) (Hinv : audio_inv b) :
  sublist (snapshot_packets (snapshot_between b start_ns end_ns)) (audio_packets b) /\
  snapshot_stream (snapshot_between b start_ns end_ns) = audio_stream b /\
  forall p, p ∈ snapshot_packets (snapshot_between b start_ns end_ns) <->
    p ∈ audio_packets b /\ opus_timestamp_ns p < end_ns /\
    start_ns < opus_timestamp_ns p + opus_duration_ns p.
Proof.
  pose proof (audio_inv_packets _ Hinv) as Hpk. cbn. splits; [|done|].
  - clear. induction (audio_packets b) as [|p ps IH]; cbn; [constructor|].
    destruct (_ && _); [by apply sublist_skip|by apply sublist_cons].
  - intros p. rewrite !list_elem_of_In, filter_In, <- list_elem_of_In, andb_true_iff, !Z.ltb_lt.
    rewrite Forall_forall in Hpk. split; intros (H1 & H2 & H3); (split; [done|]);
      rewrite (opus_end_ok p) in * by auto; done.
Qed.

Definition demo_audio : ReplayAudioBuffer :=
  with_audio [{| opus_timestamp_ns := 1; opus_duration_ns := 20000000; opus_bytes := [1] |}] 1
    (audio_new Seconds15 OpusStreamDescription_default).
Lemma demo_audio_inv : audio_inv demo_audio.
Proof. split; cbn; try done; repeat constructor; done. Qed.

Definition demo_opus : EncodedOpusPacket :=
  {| opus_timestamp_ns := 16000000000; opus_duration_ns := 20000000; opus_bytes := [2] |}.

Lemma audio_push_correct_witness :
  audio_inv demo_audio /\ opus_ok demo_opus /\ audio_inv (audio_push demo_audio demo_opus).1.
Proof.
  splits; [exact demo_audio_inv|by vm_compute|].
  pose proof (audio_push_correct demo_audio demo_opus demo_audio_inv ltac:(by vm_compute)) as H.
  destruct (audio_push demo_audio demo_opus) as [b' res]. exact (proj1 H).
Defined.

Lemma snapshot_between_correct_witness :
  audio_inv demo_audio /\
  sublist (snapshot_packets (snapshot_between demo_audio 0 5)) (audio_packets demo_audio).
Proof.
  split; [exact demo_audio_inv|]. apply (snapshot_between_correct demo_audio 0 5 demo_audio_inv).
Defined.
