(* ===== verification/AudioMix.v ===== *)
(** Mixing the system and the microphone track of a saved clip
    (crates/redunar-daemon/src/replay_audio_mix.rs), with the checks of the Opus
    wrapper around its library (crates/redunar-capture-audio/src/opus.rs). *)
From S2P Require Import Prelude Bytes Arith ReplayAudio.
Local Open Scope Z_scope.

Definition AUDIO_FRAME_SAMPLES_PER_CHANNEL : Z := 960.
Definition AUDIO_FRAME_DURATION_NS : Z := 20000000.
Definition MAX_OPUS_PACKET_BYTES : Z := 4096.
Definition CHANNELS : Z := AUDIO_CHANNELS.
Definition FRAME_SAMPLES : Z := AUDIO_FRAME_SAMPLES_PER_CHANNEL * CHANNELS.
Definition I16_MIN : Z := -32768.
Definition I32_MIN : Z := -2147483648.

(** What fails a mix: the flag, libopus, a frame of another length, the bound. *)
Inductive mix_error := Cancelled | OpusError | InvalidDuration | MixTooLarge.

(** * The Opus wrapper

    libopus is a parameter: a decoder and an encoder are states, a call answers
    the new state, the returned number and the buffer as it is afterwards. *)
Class OpusLibrary (D C : Type) := {
  opus_decode : D -> bytes -> D * Z * list Z;
  opus_encode : C -> list Z -> C * Z * bytes;
}.

Section Opus.
Context {D C : Type} `{!OpusLibrary D C}.

Definition decode_frame (d : D) (packet : EncodedOpusPacket) : outcome mix_error (D * list Z) :=
  if (zlen (opus_bytes packet) =? 0) || (MAX_OPUS_PACKET_BYTES <? zlen (opus_bytes packet)) then Err OpusError
  else
    let '(d, decoded, samples) := opus_decode d (opus_bytes packet) in
    if negb (decoded =? AUDIO_FRAME_SAMPLES_PER_CHANNEL) then Err OpusError else Ok (d, samples).

Definition encode_frame (c : C) (timestamp_ns : Z) (samples : list Z) : outcome mix_error (C * EncodedOpusPacket) :=
  if negb (zlen samples =? FRAME_SAMPLES) || bool_decide (checked_add U64_MAX timestamp_ns AUDIO_FRAME_DURATION_NS = None)
  then Err OpusError
  else
    let '(c, encoded, output) := opus_encode c samples in
    if encoded <=? 0 then Err OpusError
    else if zlen output <? encoded then Err OpusError
    else Ok (c, {| opus_timestamp_ns := timestamp_ns; opus_duration_ns := AUDIO_FRAME_DURATION_NS;
                   opus_bytes := take (Z.to_nat encoded) output |}).
End Opus.

(** * Samples *)
Definition clamp (x low high : Z) : Z := if x <? low then low else if high <? x then high else x.

(** [f64::round] is away from zero on ties; the result of a finite argument is an
    integer that a double holds, so it is kept as one. *)
Definition f64_round (x : spec_float) : spec_float :=
  match x with
  | S754_finite s m e =>
      if 0 <=? e then x
      else let magnitude := Z.shiftr (Zpos m + Z.shiftl 1 (- e - 1)) (- e) in
           binary_normalize 53 1024 (if s then - magnitude else magnitude) 0 s
  | _ => x
  end.
(** [as i16] truncates and saturates, and takes NaN to 0. *)
Definition f64_as_i16 (x : spec_float) : Z :=
  match x with
  | S754_zero _ | S754_nan => 0
  | S754_infinity s => if s then I16_MIN else I16_MAX
  | S754_finite s m e =>
      let magnitude := if 0 <=? e then Z.shiftl (Zpos m) e else Z.shiftr (Zpos m) (- e) in
      clamp (if s then - magnitude else magnitude) I16_MIN I16_MAX
  end.
Definition f64_min (x y : spec_float) : spec_float :=
  match SFcompare x y with
  | Some Gt => y
  | Some _ => x
  | None => match x with S754_nan => y | _ => x end
  end.
Definition f64_clamp (x low high : spec_float) : spec_float :=
  if SFltb x low then low else if SFltb high x then high else x.
Definition f64_sub (x y : spec_float) : spec_float := SFsub 53 1024 x y.
(** [f64::from] of an i32 or an i16, and the literal 0.1. *)
Definition f64_of_int (x : Z) : spec_float := f64_of_u64 x.
Definition f64_tenth : spec_float := S754_finite false 7205759403792794 (-56).

Definition bound (sample : Z) : Z := clamp sample I16_MIN I16_MAX.
(** The body of the fold over both frames. *)
Definition allow (allowed : spec_float) (samples : Z * Z) : spec_float :=
  let '(system, microphone) := samples in
  let system := bound system in
  let headroom := if 0 <? microphone then I16_MAX - system else system - I16_MIN in
  if microphone =? 0 then allowed
  else f64_min allowed (f64_div (f64_of_int headroom) (SFabs (f64_of_int microphone))).
Definition mixed_sample (gain : spec_float) (samples : Z * Z) : Z :=
  let '(system, microphone) := samples in
  f64_as_i16 (f64_clamp
    (f64_round (f64_add (f64_of_int (bound system)) (f64_mul (f64_of_int microphone) gain)))
    (f64_of_int I16_MIN) (f64_of_int I16_MAX)).
Definition mix_with_microphone_headroom (system microphone : list Z) (gain : spec_float) : spec_float * list Z :=
  let required := foldl allow (f64_of_int 1) (zip system microphone) in
  let gain := f64_min required (f64_add gain (f64_mul (f64_sub (f64_of_int 1) gain) f64_tenth)) in
  (gain, map (mixed_sample gain) (zip system microphone)).

Record PcmFrame := { frame_timestamp : Z; frame_samples : list Z }.

(** [+=] of an i32 panics when it overflows. *)
Definition add_i32 (a b : Z) : outcome mix_error Z :=
  if (I32_MIN <=? a + b) && (a + b <=? I32_MAX) then Ok (a + b) else Panic.
Fixpoint add_each (destination source : list Z) : outcome mix_error (list Z) :=
  match destination, source with
  | d :: destination, s :: source => x ← add_i32 d s; rest ← add_each destination source; Ok (x :: rest)
  | _, _ => Ok destination
  end.

(** i128 holds every product here: u64 differences times 48000. *)
Definition displacement (frame_ts timestamp : Z) : Z := ((frame_ts - timestamp) * AUDIO_SAMPLE_RATE) / 1000000000.
Definition source_start (d : Z) : Z := clamp (- d) 0 AUDIO_FRAME_SAMPLES_PER_CHANNEL * CHANNELS.
Definition destination_start (d : Z) : Z := clamp d 0 AUDIO_FRAME_SAMPLES_PER_CHANNEL * CHANNELS.
Definition sample_count (d : Z) : Z :=
  Z.min (sat_sub FRAME_SAMPLES (source_start d)) (sat_sub FRAME_SAMPLES (destination_start d)).
(** Both slices panic when they are out of range. *)
Definition in_slice (start count : Z) (l : list Z) : bool := start + count <=? zlen l.
Definition add_samples (frame : PcmFrame) (timestamp : Z) (output : list Z) : outcome mix_error (list Z) :=
  let d := displacement (frame_timestamp frame) timestamp in
  let count := sample_count d in
  if negb (in_slice (destination_start d) count output && in_slice (source_start d) count (frame_samples frame)) then Panic
  else
    let start := Z.to_nat (destination_start d) in
    added ← add_each (slice start (Z.to_nat count) output) (slice (Z.to_nat (source_start d)) (Z.to_nat count) (frame_samples frame));
    Ok (put start added output).

(** * The cursor over one track *)
Section Cursor.
Context {D C : Type} `{!OpusLibrary D C}.
(** The n-th load of the cancel flag. *)
Variable cancel : nat -> bool.
Definition check_cancel (loads : nat) : outcome mix_error nat := if cancel loads then Err Cancelled else Ok (S loads).

Record PcmCursor := { cursor_packets : list EncodedOpusPacket; cursor_decoder : D; cursor_frame : option PcmFrame }.

Definition cursor_new (decoder : option D) (packets : list EncodedOpusPacket) : outcome mix_error PcmCursor :=
  d ← ok_or decoder OpusError;
  Ok {| cursor_packets := packets; cursor_decoder := d; cursor_frame := None |}.

Definition next_timestamp (c : PcmCursor) : option Z :=
  match cursor_frame c with
  | Some frame => Some (frame_timestamp frame)
  | None => opus_timestamp_ns <$> head (cursor_packets c)
  end.

(** The part of the loop after the frame is there; [true] keeps the frame and
    returns, [false] drops it and goes round again. *)
Definition use_frame (timestamp : Z) (frame : PcmFrame) (samples : list Z) : outcome mix_error (list Z * bool) :=
  let end_ := sat_add U64_MAX timestamp AUDIO_FRAME_DURATION_NS in
  let frame_end := sat_add U64_MAX (frame_timestamp frame) AUDIO_FRAME_DURATION_NS in
  if end_ <=? frame_timestamp frame then Ok (samples, true)
  else
    samples ← (if timestamp <? frame_end then add_samples frame timestamp samples else Ok samples);
    Ok (samples, end_ <? frame_end).

(** The rounds of the loop that start without a frame: one packet each. *)
Fixpoint add_packets (timestamp : Z) (packets : list EncodedOpusPacket) (d : D) (samples : list Z) (loads : nat)
    : outcome mix_error (PcmCursor * list Z * nat) :=
  loads ← check_cancel loads;
  match packets with
  | [] => Ok ({| cursor_packets := []; cursor_decoder := d; cursor_frame := None |}, samples, loads)
  | packet :: rest =>
      if sat_add U64_MAX timestamp AUDIO_FRAME_DURATION_NS <=? opus_timestamp_ns packet
      then Ok ({| cursor_packets := packets; cursor_decoder := d; cursor_frame := None |}, samples, loads)
      else
        '(d, pcm) ← decode_frame d packet;
        if negb (zlen pcm =? FRAME_SAMPLES) || negb (opus_duration_ns packet =? AUDIO_FRAME_DURATION_NS)
        then Err InvalidDuration
        else
          let frame := {| frame_timestamp := opus_timestamp_ns packet; frame_samples := pcm |} in
          '(samples, keep) ← use_frame timestamp frame samples;
          if (keep : bool)
          then Ok ({| cursor_packets := rest; cursor_decoder := d; cursor_frame := Some frame |}, samples, loads)
          else add_packets timestamp rest d samples loads
  end.

Definition add_frame (timestamp : Z) (c : PcmCursor) (samples : list Z) (loads : nat)
    : outcome mix_error (PcmCursor * list Z * nat) :=
  match cursor_frame c with
  | None => add_packets timestamp (cursor_packets c) (cursor_decoder c) samples loads
  | Some frame =>
      loads ← check_cancel loads;
      '(samples, keep) ← use_frame timestamp frame samples;
      if (keep : bool) then Ok (c, samples, loads)
      else add_packets timestamp (cursor_packets c) (cursor_decoder c) samples loads
  end.

(** * The mixing loop *)
Record mixer := {
  mix_system : PcmCursor;
  mix_input : PcmCursor;
  mix_encoder : C;
  mix_packets : list EncodedOpusPacket;
  mix_bytes : Z;
  mix_timestamp : Z;
  mix_gain : spec_float;
  mix_loads : nat;
}.
Definition earliest (a b : option Z) : option Z :=
  match a, b with
  | Some a, Some b => Some (Z.min a b)
  | Some a, None => Some a
  | None, b => b
  end.
Definition silence : list Z := replicate (Z.to_nat FRAME_SAMPLES) 0.

(** The PCM of one output frame and what reading it leaves. *)
Definition mix_frame (timestamp : Z) (m : mixer) : outcome mix_error (mixer * list Z) :=
  '(system, system_samples, loads) ← add_frame timestamp (mix_system m) silence (mix_loads m);
  '(input, microphone_samples, loads) ← add_frame timestamp (mix_input m) silence loads;
  let '(gain, pcm) := mix_with_microphone_headroom system_samples microphone_samples (mix_gain m) in
  Ok ({| mix_system := system; mix_input := input; mix_encoder := mix_encoder m; mix_packets := mix_packets m;
         mix_bytes := mix_bytes m; mix_timestamp := timestamp; mix_gain := gain; mix_loads := loads |}, pcm).

Definition emit_frame (m : mixer) (pcm : list Z) : outcome mix_error mixer :=
  '(encoder, packet) ← encode_frame (mix_encoder m) (mix_timestamp m) pcm;
  let total := sat_add USIZE_MAX (mix_bytes m) (zlen (opus_bytes packet)) in
  if (MAX_AUDIO_BUFFER_BYTES <? total) || (MAX_AUDIO_PACKETS <=? zlen (mix_packets m)) then Err MixTooLarge
  else Ok {| mix_system := mix_system m; mix_input := mix_input m; mix_encoder := encoder;
             mix_packets := mix_packets m ++ [packet]; mix_bytes := total;
             mix_timestamp := sat_add U64_MAX (mix_timestamp m) AUDIO_FRAME_DURATION_NS;
             mix_gain := mix_gain m; mix_loads := mix_loads m |}.

Definition with_loads (loads : nat) (m : mixer) : mixer := {|
  mix_system := mix_system m; mix_input := mix_input m; mix_encoder := mix_encoder m; mix_packets := mix_packets m;
  mix_bytes := mix_bytes m; mix_timestamp := mix_timestamp m; mix_gain := mix_gain m; mix_loads := loads |}.

(** One packet a round, and at most [MAX_AUDIO_PACKETS] of them: a panic here
    stands for fuel that is spent. *)
Fixpoint mix_loop (fuel : nat) (window_end : Z) (m : mixer) : outcome mix_error mixer :=
  match fuel with
  | O => Panic
  | S fuel =>
      if negb (mix_timestamp m <? window_end) then Ok m
      else
        loads ← check_cancel (mix_loads m);
        match earliest (next_timestamp (mix_system m)) (next_timestamp (mix_input m)) with
        | None => Ok (with_loads loads m)
        | Some next =>
            let timestamp := Z.max (mix_timestamp m) next in
            if window_end <=? timestamp then Ok (with_loads loads m)
            else
              '(m, pcm) ← mix_frame timestamp (with_loads loads m);
              m ← emit_frame m pcm;
              mix_loop fuel window_end m
        end
  end.
Definition mix_fuel : nat := Z.to_nat (MAX_AUDIO_PACKETS + 2).

(** What [open] answers for the two decoders and the encoder. *)
Record opus_handles := { system_decoder : option D; input_decoder : option D; opened_encoder : option C }.

Definition mix_audio_tracks (handles : opus_handles) (tracks : ReplayAudioTracks) (window : Z * Z)
    : outcome mix_error ReplayAudioTracks :=
  loads ← check_cancel 0;
  match microphone tracks with
  | None => Ok {| system := system tracks; microphone := None |}
  | Some track =>
      if bool_decide (snapshot_packets track = []) then Ok {| system := system tracks; microphone := None |}
      else if bool_decide (snapshot_packets (system tracks) = []) then Ok {| system := track; microphone := None |}
      else
        sys ← cursor_new (system_decoder handles) (snapshot_packets (system tracks));
        input ← cursor_new (input_decoder handles) (snapshot_packets track);
        encoder ← ok_or (opened_encoder handles) OpusError;
        m ← mix_loop mix_fuel window.2
              {| mix_system := sys; mix_input := input; mix_encoder := encoder; mix_packets := []; mix_bytes := 0;
                 mix_timestamp := window.1; mix_gain := f64_of_int 1; mix_loads := loads |};
        Ok {| system := {| snapshot_stream := OpusStreamDescription_default; snapshot_packets := mix_packets m |};
              microphone := None |}
  end.
End Cursor.
#[global] Arguments PcmCursor : clear implicits.
#[global] Arguments opus_handles : clear implicits.
#[global] Arguments mixer : clear implicits.
