(* ===== verification/AudioMixFacts.v ===== *)
(** What [AudioMix.v] adds to a frame, sample by sample, and what a cursor has
    added when it returns: the sum of its track's frames at that time. *)
From stdpp Require Import sorting.
From S2P Require Import Prelude Bytes Arith ReplayAudio AudioMix.
Local Open Scope Z_scope.

(** The buffers of the calls into libopus: 960 stereo samples of an i16, and
    the 4096 bytes the encoder may write to. *)
Class OpusBuffers (D C : Type) `{!OpusLibrary D C} := {
  decode_buffer d bs : let '(_, _, samples) := opus_decode d bs in
    length samples = 1920%nat /\ Forall (fun x => I16_MIN <= x <= I16_MAX) samples;
  encode_buffer c pcm : let '(_, _, output) := opus_encode c pcm in zlen output = MAX_OPUS_PACKET_BYTES;
}.

(** * One frame *)
Definition is_frame (l : list Z) : Prop := length l = 1920%nat.
Definition within (n : Z) (l : list Z) : Prop := Forall (fun x => - (n * 32768) <= x <= n * 32768) l.
(** A decoded frame: 1920 samples of an i16. *)
Definition pcm_ok (f : PcmFrame) : Prop :=
  is_frame (frame_samples f) /\ Forall (fun x => I16_MIN <= x <= I16_MAX) (frame_samples f).
Definition frame_end (f : PcmFrame) : Z := frame_timestamp f + AUDIO_FRAME_DURATION_NS.
(** The part of frame [f] in sample [i] of the output frame at [timestamp]. *)
Definition sample_at (timestamp : Z) (i : nat) (f : PcmFrame) : Z :=
  let j := Z.of_nat i - 2 * displacement (frame_timestamp f) timestamp in
  if 0 <=? j then default 0 (frame_samples f !! Z.to_nat j) else 0.
(** The sum of the frames [fs] in the output frame at [timestamp]. *)
Definition heard (fs : list PcmFrame) (timestamp : Z) : list Z :=
  (fun i => sum_Z (map (sample_at timestamp i) fs)) <$> seq 0 1920.
Definition plus_heard (samples : list Z) (fs : list PcmFrame) (timestamp : Z) : list Z :=
  zip_with Z.add samples (heard fs timestamp).

Lemma length_heard fs T : length (heard fs T) = 1920%nat.
Proof. unfold heard. by rewrite length_fmap, length_seq. Qed.

Lemma plus_heard_lookup samples fs T i :
  is_frame samples -> (plus_heard samples fs T) !! i = (fun x => x + sum_Z (map (sample_at T i) fs)) <$> samples !! i.
Proof.
  intros Hl. unfold plus_heard, heard, is_frame in *. rewrite lookup_zip_with, list_lookup_fmap. destruct (samples !! i) as [x|] eqn:E; [|done].
  apply lookup_lt_Some in E. by rewrite lookup_seq_lt by lia.
Qed.

Lemma plus_heard_nil samples T : is_frame samples -> plus_heard samples [] T = samples.
Proof.
  intros Hl. apply list_eq. intros i. rewrite plus_heard_lookup by done. cbn. destruct (samples !! i); [cbn; f_equal; lia|done].
Qed.

Lemma plus_heard_frame samples fs T : is_frame samples -> is_frame (plus_heard samples fs T).
Proof. unfold is_frame, plus_heard. intros H. rewrite length_zip_with, length_heard. lia. Qed.

Lemma plus_heard_app samples fs gs T :
  is_frame samples -> plus_heard (plus_heard samples fs T) gs T = plus_heard samples (fs ++ gs) T.
Proof.
  intros Hl. apply list_eq. intros i. rewrite !plus_heard_lookup by (done || by apply plus_heard_frame).
  destruct (samples !! i); [|done]. cbn. f_equal. rewrite map_app, sum_Z_app. lia.
Qed.

Lemma clamp_in x a b : a <= b -> a <= clamp x a b <= b.
Proof. intros. unfold clamp. destruct (Z.ltb_spec x a); [lia|]. destruct (Z.ltb_spec b x); lia. Qed.
Lemma clamp_id x a b : a <= x <= b -> clamp x a b = x.
Proof. intros. unfold clamp. by rewrite !(proj2 (Z.ltb_ge _ _)) by lia. Qed.

(** Twenty milliseconds are 960 samples exactly, wherever the frame lies. *)
Lemma displacement_shift ts T n :
  displacement ts (T + n * AUDIO_FRAME_DURATION_NS) = displacement ts T - n * 960.
Proof.
  unfold displacement, AUDIO_FRAME_DURATION_NS, AUDIO_SAMPLE_RATE.
  replace ((ts - (T + n * 20000000)) * 48000) with ((ts - T) * 48000 + (- n * 960) * 1000000000) by lia.
  rewrite Z.div_add by lia. lia.
Qed.
Lemma displacement_low ts T : ts + AUDIO_FRAME_DURATION_NS <= T -> displacement ts T <= -960.
Proof.
  unfold displacement, AUDIO_FRAME_DURATION_NS, AUDIO_SAMPLE_RATE. intros H.
  assert ((ts - T) * 48000 / 1000000000 < -959); [|lia]. apply Z.div_lt_upper_bound; lia.
Qed.
Lemma displacement_high ts T : T + AUDIO_FRAME_DURATION_NS <= ts -> 960 <= displacement ts T.
Proof. unfold displacement, AUDIO_FRAME_DURATION_NS, AUDIO_SAMPLE_RATE. intros H. apply Z.div_le_lower_bound; lia. Qed.

(** A frame that does not reach into the output frame adds nothing. *)
Lemma sample_at_apart f T i :
  pcm_ok f -> (i < 1920)%nat -> frame_end f <= T \/ T + AUDIO_FRAME_DURATION_NS <= frame_timestamp f -> sample_at T i f = 0.
Proof.
  intros (Hl & _) Hi H. unfold sample_at, is_frame, frame_end in *.
  destruct H as [H|H]; [apply displacement_low in H|apply displacement_high in H].
  - rewrite (proj2 (Z.leb_le _ _)) by lia. rewrite lookup_ge_None_2; [done|lia].
  - rewrite (proj2 (Z.leb_gt _ _)) by lia. done.
Qed.

Lemma heard_apart f fs T :
  pcm_ok f -> frame_end f <= T \/ T + AUDIO_FRAME_DURATION_NS <= frame_timestamp f -> heard (f :: fs) T = heard fs T.
Proof.
  intros Hf H. unfold heard. apply list_fmap_ext. intros i j Hj. apply lookup_seq in Hj as [-> Hj]. cbn [map]. unfold sum_Z. cbn [foldr].
  rewrite sample_at_apart by (done || lia). lia.
Qed.
Lemma heard_all_apart fs T :
  Forall pcm_ok fs -> Forall (fun f => frame_end f <= T \/ T + AUDIO_FRAME_DURATION_NS <= frame_timestamp f) fs ->
  heard fs T = heard [] T.
Proof.
  intros Hok H. induction H as [|f fs Hf _ IH]; [done|]. apply Forall_cons in Hok as [H1 H2]. rewrite heard_apart by done. by apply IH.
Qed.
Lemma heard_app fs gs T : heard (fs ++ gs) T = plus_heard (heard fs T) gs T.
Proof.
  apply list_eq. intros i. rewrite plus_heard_lookup by apply length_heard. unfold heard. rewrite !list_lookup_fmap.
  destruct (seq 0 1920 !! i) as [j|] eqn:E; [|done]. apply lookup_seq in E as [-> _]. cbn [fmap option_fmap option_map].
  by rewrite map_app, sum_Z_app.
Qed.

(** * Adding one frame *)
Lemma add_each_ok destination source n :
  length destination = length source -> within n destination -> Forall (fun x => I16_MIN <= x <= I16_MAX) source ->
  0 <= n < 65535 -> add_each destination source = Ok (zip_with Z.add destination source).
Proof.
  revert source. induction destination as [|d destination IH]; intros [|s source] Hl Hd Hs Hn; try done.
  apply Forall_cons in Hd as [Hd1 Hd]. apply Forall_cons in Hs as [Hs1 Hs]. cbn [add_each zip_with].
  unfold add_i32, I32_MIN, I32_MAX, I16_MIN, I16_MAX in *.
  rewrite !(proj2 (Z.leb_le _ _)) by lia. cbn [andb mbind outcome_bind]. by rewrite (IH source) by (done || (cbn in Hl; lia)).
Qed.

Lemma lookup_slice_nat (a b i : nat) (l : list Z) : slice a b l !! i = if decide (i < b)%nat then l !! (a + i)%nat else None.
Proof. unfold slice. destruct (decide (i < b)%nat); [by rewrite lookup_take_lt, lookup_drop by lia|by rewrite lookup_take_ge by lia]. Qed.

(** The three ranges of one output frame: before the frame, in it, after it. *)
Lemma starts d :
  let a := destination_start d in let s := source_start d in let n := sample_count d in
  0 <= a <= 1920 /\ 0 <= s <= 1920 /\ 0 <= n /\ a + n <= 1920 /\ s + n <= 1920 /\
  (0 < n -> a - s = 2 * d) /\ (a + n = 1920 \/ s + n = 1920) /\
  (0 < n -> a = 0 \/ s = 0) /\ (n = 0 -> d <= -960 \/ 960 <= d).
Proof.
  cbn. unfold destination_start, source_start, sample_count, source_start, destination_start, sat_sub, clamp, FRAME_SAMPLES,
    AUDIO_FRAME_SAMPLES_PER_CHANNEL, CHANNELS, AUDIO_CHANNELS.
  destruct (Z.ltb_spec d 0), (Z.ltb_spec 960 d), (Z.ltb_spec (- d) 0), (Z.ltb_spec 960 (- d)); lia.
Qed.

Lemma add_samples_ok f T output n :
  pcm_ok f -> is_frame output -> within n output -> 0 <= n < 65535 ->
  add_samples f T output = Ok (plus_heard output [f] T) /\ within (n + 1) (plus_heard output [f] T).
Proof.
  intros (Hf & Hi) Ho Hn Hb. split.
  - unfold add_samples, in_slice. set (d := displacement (frame_timestamp f) T).
    destruct (starts d) as (A1 & A2 & A3 & A4 & A5 & A6 & A7 & A8 & A9). unfold is_frame, zlen in *.
    rewrite Ho, Hf, !(proj2 (Z.leb_le _ _)) by lia. cbn [andb negb].
    set (a := Z.to_nat (destination_start d)). set (s := Z.to_nat (source_start d)). set (c := Z.to_nat (sample_count d)).
    assert (Hlen : length (slice a c output) = c /\ length (slice s c (frame_samples f)) = c) by (unfold slice; rewrite !length_take, !length_drop; lia).
    rewrite (add_each_ok _ _ n); [|lia|by apply Forall_take, Forall_drop|by apply Forall_take, Forall_drop|done].
    cbn [mbind outcome_bind]. f_equal. apply list_eq. intros i. rewrite plus_heard_lookup by done. cbn [map sum_Z foldr].
    unfold put. set (added := zip_with Z.add _ _).
    assert (La : length added = c) by (unfold added; rewrite length_zip_with; lia).
    destruct (decide (i < length output)%nat) as [Hi'|Hi'].
    2: { rewrite lookup_ge_None_2 by (rewrite length_inserts; lia). by rewrite (lookup_ge_None_2 output) by lia. }
    destruct (lookup_lt_is_Some_2 output i Hi') as [x Hx]. rewrite Hx. cbn [fmap option_fmap option_map]. rewrite Z.add_0_r.
    unfold sample_at. fold d. destruct (decide (a <= i < a + c)%nat) as [Hin|Hin].
    + rewrite list_lookup_inserts by lia. unfold added. rewrite lookup_zip_with, !lookup_slice_nat.
      rewrite decide_True by lia. replace (a + (i - a))%nat with i by lia. rewrite Hx. cbn [mbind option_bind fmap option_fmap option_map].
      rewrite decide_True by lia. replace (s + (i - a))%nat with (Z.to_nat (Z.of_nat i - 2 * d)) by lia.
      rewrite (proj2 (Z.leb_le _ _)) by lia.
      destruct (lookup_lt_is_Some_2 (frame_samples f) (Z.to_nat (Z.of_nat i - 2 * d)) ltac:(lia)) as [y Hy]. by rewrite Hy.
    + assert (list_inserts a added output !! i = Some x) as ->.
      { destruct (decide (i < a)%nat); [rewrite list_lookup_inserts_lt by lia; done|].
        rewrite list_lookup_inserts_ge by lia. done. }
      f_equal. assert (Z.of_nat i - 2 * d < 0 \/ 1920 <= Z.of_nat i - 2 * d) as [Hj|Hj] by lia.
      * rewrite (proj2 (Z.leb_gt _ _)) by lia. lia.
      * rewrite (proj2 (Z.leb_le _ _)) by lia. rewrite (lookup_ge_None_2 (frame_samples f)) by lia. cbn. lia.
  - apply Forall_lookup. intros i x. rewrite plus_heard_lookup by done. destruct (output !! i) as [y|] eqn:E; [|done].
    cbn. intros [= <-]. eapply Forall_lookup_1 in Hn; [|exact E]. cbn in Hn. unfold sample_at. case_if_as E'; [|lia].
    destruct (frame_samples f !! _) as [z|] eqn:Ez; cbn; [|lia]. eapply Forall_lookup_1 in Hi; [|exact Ez].
    unfold I16_MIN, I16_MAX in Hi. lia.
Qed.

(** * A cursor *)
Section Cursor.
Context {D C : Type} `{!OpusLibrary D C} `{!OpusBuffers D C}.
Variable cancel : nat -> bool.
Notation PcmCursor := (PcmCursor D).

(** The frames of [packets], decoded in order. *)
Fixpoint decode_all (d : D) (packets : list EncodedOpusPacket) : outcome mix_error (list PcmFrame) :=
  match packets with
  | [] => Ok []
  | packet :: rest =>
      '(d, pcm) ← decode_frame d packet;
      if negb (zlen pcm =? FRAME_SAMPLES) || negb (opus_duration_ns packet =? AUDIO_FRAME_DURATION_NS)
      then Err InvalidDuration
      else fs ← decode_all d rest; Ok ({| frame_timestamp := opus_timestamp_ns packet; frame_samples := pcm |} :: fs)
  end.
(** The frames that a cursor has not dropped yet. *)
Definition pending (c : PcmCursor) : outcome mix_error (list PcmFrame) :=
  fs ← decode_all (cursor_decoder c) (cursor_packets c);
  Ok (match cursor_frame c with Some f => f :: fs | None => fs end).
(** How many frames it can still add. *)
Definition left_over (c : PcmCursor) : Z := zlen (cursor_packets c) + (if cursor_frame c then 1 else 0).
Definition cursor_ok (c : PcmCursor) : Prop := forall f, cursor_frame c = Some f -> pcm_ok f.

Lemma decode_frame_ok d p : match decode_frame d p with
  | Ok (_, pcm) => length pcm = 1920%nat /\ Forall (fun x => I16_MIN <= x <= I16_MAX) pcm
  | Err _ => True | Panic => False end.
Proof.
  unfold decode_frame. case_if_as E; [done|]. pose proof (decode_buffer d (opus_bytes p)) as H.
  destruct (opus_decode d (opus_bytes p)) as [[d' n] pcm]. case_if_as E'; done.
Qed.

Lemma use_frame_ok T f samples n :
  pcm_ok f -> is_frame samples -> within n samples -> 0 <= n < 65535 ->
  exists samples' keep, use_frame T f samples = Ok (samples', keep) /\ is_frame samples' /\ within (n + 1) samples'.
Proof.
  intros Hf Hl Hw Hn. unfold use_frame.
  assert (Hm : within (n + 1) samples) by (eapply Forall_impl; [exact Hw|]; cbn; intros; lia).
  case_if_as E; [by eexists _, _|]. case_if_as E'.
  - destruct (add_samples_ok f T samples n Hf Hl Hw Hn) as (-> & H). cbn [mbind outcome_bind]. eexists _, _.
    splits; [done|by apply plus_heard_frame|done].
  - cbn [mbind outcome_bind]. by eexists _, _.
Qed.

Definition added (k n : Z) (r : outcome mix_error (PcmCursor * list Z * nat)) : Prop :=
  match r with
  | Ok (c, samples, _) => is_frame samples /\ within n samples /\ cursor_ok c /\ left_over c <= k
  | Err _ => True
  | Panic => False
  end.

Lemma within_le n m l : n <= m -> within n l -> within m l.
Proof. intros H Hw. eapply Forall_impl; [exact Hw|]. cbn. intros. lia. Qed.

Lemma add_packets_total T packets d samples loads n :
  is_frame samples -> within n samples -> 0 <= n -> n + zlen packets < 65535 ->
  added (zlen packets) (n + zlen packets) (add_packets cancel T packets d samples loads).
Proof.
  revert d samples loads n. induction packets as [|p packets IH]; intros d samples loads n Hl Hw Hn Hb;
    cbn [add_packets]; unfold check_cancel; destruct (cancel loads); try done; cbn [mbind outcome_bind]; autorewrite with rust in *.
  - cbn. splits; [done|by eapply within_le; [|exact Hw]; lia|done|done].
  - pose proof (zlen_nonneg packets). case_if_as E; [cbn; splits; [done|by eapply within_le; [|exact Hw]; lia|done|]|].
    { unfold left_over. cbn [cursor_packets cursor_frame]. autorewrite with rust. lia. }
    pose proof (decode_frame_ok d p) as Hd. destruct (decode_frame d p) as [[d' pcm]|e|]; cbn [mbind outcome_bind]; try done.
    case_if_as E'; [done|]. set (f := {| frame_timestamp := _; frame_samples := pcm |}).
    destruct (use_frame_ok T f samples n Hd Hl Hw ltac:(lia)) as (samples' & keep & -> & Hl' & Hw'). cbn [mbind outcome_bind].
    destruct keep.
    + cbn. splits; [done|by eapply within_le; [|exact Hw']; lia|by intros ? [= <-]|]. unfold left_over. cbn [cursor_packets cursor_frame]. lia.
    + specialize (IH d' samples' (S loads) (n + 1) Hl' Hw' ltac:(lia) ltac:(lia)).
      destruct (add_packets cancel T packets d' samples' (S loads)) as [[[c s] l]|e|]; [|done..]. cbn in IH |- *.
      destruct IH as (? & ? & ? & ?). splits; [done|by replace (n + (1 + zlen packets)) with (n + 1 + zlen packets) by lia|done|lia].
Qed.

Lemma add_frame_total T c samples loads :
  cursor_ok c -> left_over c < 65535 -> is_frame samples -> within 0 samples ->
  added (left_over c) (left_over c) (add_frame cancel T c samples loads).
Proof.
  intros Hc Hb Hl Hw. unfold add_frame, left_over in *. destruct (cursor_frame c) as [f|] eqn:Ef.
  - unfold check_cancel. destruct (cancel loads); [done|]. cbn [mbind outcome_bind]. pose proof (zlen_nonneg (cursor_packets c)).
    destruct (use_frame_ok T f samples 0 (Hc f Ef) Hl Hw ltac:(lia)) as (samples' & keep & -> & Hl' & Hw'). cbn [mbind outcome_bind].
    destruct keep.
    + cbn. splits; [done|by eapply within_le; [|exact Hw']; lia|done|]. unfold left_over. rewrite Ef. lia.
    + pose proof (add_packets_total T (cursor_packets c) (cursor_decoder c) samples' (S loads) 1 Hl' Hw' ltac:(lia) ltac:(lia)) as Ha.
      destruct (add_packets cancel T _ _ _ _) as [[[c' s] l]|e|]; [|done..]. cbn in Ha |- *. destruct Ha as (? & ? & ? & ?).
      splits; [done|by rewrite Z.add_comm|done|lia].
  - pose proof (add_packets_total T (cursor_packets c) (cursor_decoder c) samples loads 0 Hl Hw ltac:(lia) ltac:(lia)) as Ha.
    destruct (add_packets cancel T _ _ _ _) as [[[c' s] l]|e|]; [|done..]. cbn in Ha |- *. destruct Ha as (? & ? & ? & ?).
    splits; [done|by rewrite Z.add_0_r|done|lia].
Qed.

(** * The cursor against the whole track *)
Definition spaced (fs : list PcmFrame) : Prop := StronglySorted (fun f g => frame_end f <= frame_timestamp g) fs.
Definition remaining (T : Z) (fs : list PcmFrame) : list PcmFrame := List.filter (fun f => T <? frame_end f) fs.
Definition track_ok (fs : list PcmFrame) : Prop :=
  spaced fs /\ Forall pcm_ok fs /\ Forall (fun f => 0 <= frame_timestamp f /\ frame_end f <= U64_MAX) fs.

Lemma track_ok_cons f fs : track_ok (f :: fs) ->
  pcm_ok f /\ 0 <= frame_timestamp f /\ frame_end f <= U64_MAX /\ Forall (fun g => frame_end f <= frame_timestamp g) fs /\ track_ok fs.
Proof.
  intros (H1 & H2 & H3). apply StronglySorted_inv in H1 as [H1 Hf]. apply Forall_cons in H2 as [H2 H2'].
  apply Forall_cons in H3 as [[H3 H3b] H3']. by splits.
Qed.

(** Frames that start late enough end late and add nothing. *)
Lemma later_frames T fs :
  Forall pcm_ok fs -> Forall (fun f => T + AUDIO_FRAME_DURATION_NS <= frame_timestamp f) fs ->
  heard fs T = heard [] T /\ remaining (T + AUDIO_FRAME_DURATION_NS) fs = fs.
Proof.
  intros Hok H. split.
  - apply heard_all_apart; [done|]. eapply Forall_impl; [exact H|]. cbn. tauto.
  - apply Arith.filter_all. eapply Forall_impl; [exact H|]. cbn. intros f Hf. apply Z.ltb_lt. unfold frame_end, AUDIO_FRAME_DURATION_NS in *. lia.
Qed.

Lemma plus_heard_silent samples fs T : is_frame samples -> heard fs T = heard [] T -> plus_heard samples fs T = samples.
Proof. intros Hl H. unfold plus_heard. rewrite H. by apply plus_heard_nil. Qed.

(** What [use_frame] does to a track whose first frame is [f]. *)
Lemma use_frame_exact T f samples n :
  pcm_ok f -> frame_end f <= U64_MAX -> is_frame samples -> within n samples -> 0 <= n < 65535 ->
  T + AUDIO_FRAME_DURATION_NS <= U64_MAX ->
  use_frame T f samples = Ok (plus_heard samples [f] T, T + AUDIO_FRAME_DURATION_NS <? frame_end f)
  /\ within (n + 1) (plus_heard samples [f] T).
Proof.
  intros Hf He Hl Hw Hn HT. destruct (add_samples_ok f T samples n Hf Hl Hw Hn) as (Ha & Hw'). split; [|done].
  unfold use_frame, frame_end in *. rewrite !sat_add_exact by done.
  assert (Hs : frame_timestamp f + AUDIO_FRAME_DURATION_NS <= T \/ T + AUDIO_FRAME_DURATION_NS <= frame_timestamp f ->
    plus_heard samples [f] T = samples).
  { intros H. apply plus_heard_silent; [done|]. by apply heard_apart. }
  case_if_as E.
  - apply Z.leb_le in E. rewrite Hs by tauto. rewrite (proj2 (Z.ltb_lt _ _)); [done|]. unfold AUDIO_FRAME_DURATION_NS in *. lia.
  - case_if_as E'; [by rewrite Ha|]. apply Z.ltb_ge in E'. rewrite Hs by tauto. done.
Qed.

Lemma decode_all_cons d p packets fs :
  decode_all d (p :: packets) = Ok fs ->
  exists d' pcm fs', decode_frame d p = Ok (d', pcm) /\ zlen pcm = FRAME_SAMPLES /\ opus_duration_ns p = AUDIO_FRAME_DURATION_NS
    /\ decode_all d' packets = Ok fs' /\ fs = {| frame_timestamp := opus_timestamp_ns p; frame_samples := pcm |} :: fs'.
Proof.
  cbn [decode_all]. intros H. inv_bind H. destruct v as [d' pcm]. case_if_in H E'; [done|]. inv_bind H. injection H as <-.
  apply orb_false_iff in E' as [E1 E2]. apply negb_false_iff, Z.eqb_eq in E1, E2. by exists d', pcm, v.
Qed.

Lemma remaining_cons T f fs :
  remaining T (f :: fs) = if T <? frame_end f then f :: remaining T fs else remaining T fs.
Proof. done. Qed.

Definition adds (samples : list Z) (fs : list PcmFrame) (T : Z) (r : outcome mix_error (PcmCursor * list Z * nat)) : Prop :=
  (r = Err Cancelled /\ exists n, cancel n = true) \/
  exists c loads, r = Ok (c, plus_heard samples fs T, loads) /\ pending c = Ok (remaining (T + AUDIO_FRAME_DURATION_NS) fs).

Lemma kept_frame T f fs :
  Forall pcm_ok fs -> Forall (fun g => frame_end f <= frame_timestamp g) fs -> T + AUDIO_FRAME_DURATION_NS < frame_end f ->
  remaining (T + AUDIO_FRAME_DURATION_NS) (f :: fs) = f :: fs /\ heard fs T = heard [] T.
Proof.
  intros Hok Hs He. rewrite remaining_cons, (proj2 (Z.ltb_lt _ _) He).
  destruct (later_frames T fs Hok) as (H1 & ->); [|done]. eapply Forall_impl; [exact Hs|]. cbn. intros g Hg. lia.
Qed.

Lemma add_packets_exact T packets d fs samples loads n :
  decode_all d packets = Ok fs -> track_ok fs -> 0 <= T -> T + AUDIO_FRAME_DURATION_NS <= U64_MAX ->
  is_frame samples -> within n samples -> 0 <= n -> n + zlen packets < 65535 ->
  adds samples fs T (add_packets cancel T packets d samples loads).
Proof.
  revert d fs samples loads n. induction packets as [|p packets IH]; intros d fs samples loads n Hd Ht H0 HT Hl Hw Hn Hb;
    cbn [add_packets]; unfold check_cancel; destruct (cancel loads) eqn:Ecancel; try (by left; eauto); cbn [mbind outcome_bind].
  - injection Hd as <-. right. eexists _, _. by rewrite plus_heard_nil.
  - pose proof Hd as Hd0. apply decode_all_cons in Hd as (d' & pcm & fs' & Ed & El & Edur & Hd & ->).
    destruct (track_ok_cons _ _ Ht) as (Hf & H1 & H2 & H3 & Ht'). pose proof (proj1 (proj2 Ht)) as Hok. autorewrite with rust in Hb.
    pose proof (zlen_nonneg packets). rewrite sat_add_exact by done. case_if_as E.
    + apply Z.leb_le in E. right. eexists _, _. rewrite plus_heard_silent; [|done|].
      2: { apply later_frames; [done|]. constructor; [done|]. eapply Forall_impl; [exact H3|]. cbn. intros g. unfold frame_end in *. cbn in *. unfold AUDIO_FRAME_DURATION_NS in *. lia. }
      split; [done|]. unfold pending. cbn [cursor_decoder cursor_packets cursor_frame]. rewrite Hd0. cbn [mbind outcome_bind]. f_equal.
      symmetry. apply later_frames; [done|]. constructor; [done|]. eapply Forall_impl; [exact H3|]. cbn. intros g. unfold frame_end in *. cbn in *. unfold AUDIO_FRAME_DURATION_NS in *. lia.
    + rewrite Ed. cbn [mbind outcome_bind]. rewrite El, Edur, !Z.eqb_refl. cbn [negb orb].
      set (f := {| frame_timestamp := opus_timestamp_ns p; frame_samples := pcm |}) in *.
      destruct (use_frame_exact T f samples n Hf H2 Hl Hw ltac:(lia) HT) as (-> & Hw'). cbn [mbind outcome_bind].
      case_if_as E'.
      * apply Z.ltb_lt in E'. right. eexists _, _. apply Forall_cons in Hok as [_ Hok].
        destruct (kept_frame T f fs' Hok H3 E') as (-> & Hh). split.
        -- do 3 f_equal. change (f :: fs') with ([f] ++ fs'). rewrite <- plus_heard_app by done.
           by rewrite (plus_heard_silent _ fs') by (done || by apply plus_heard_frame).
        -- unfold pending. cbn [cursor_decoder cursor_packets cursor_frame]. by rewrite Hd.
      * unfold adds. rewrite remaining_cons, E'. change (f :: fs') with ([f] ++ fs'). rewrite <- plus_heard_app by done.
        apply (IH d' fs' _ _ (n + 1)); try done; [by apply plus_heard_frame|lia|lia].
Qed.

Lemma add_frame_exact T c fs samples loads :
  pending c = Ok fs -> cursor_ok c -> left_over c < 65535 -> track_ok fs -> 0 <= T -> T + AUDIO_FRAME_DURATION_NS <= U64_MAX ->
  is_frame samples -> within 0 samples -> adds samples fs T (add_frame cancel T c samples loads).
Proof.
  intros Hp Hc Hb Ht H0 HT Hl Hw. unfold pending, add_frame, left_over in *. pose proof (zlen_nonneg (cursor_packets c)).
  inv_bind Hp. destruct (cursor_frame c) as [f|] eqn:Ef; injection Hp as <-.
  2: { apply (add_packets_exact T _ _ v samples loads 0); try done; lia. }
  unfold check_cancel. destruct (cancel loads) eqn:Ecancel; [by left; eauto|]. cbn [mbind outcome_bind].
  destruct (track_ok_cons _ _ Ht) as (Hf & H1 & H2 & H3 & Ht').
  destruct (use_frame_exact T f samples 0 Hf H2 Hl Hw ltac:(lia) HT) as (-> & Hw'). cbn [mbind outcome_bind]. case_if_as E'.
  - apply Z.ltb_lt in E'. right. eexists _, _. destruct (kept_frame T f v (proj1 (proj2 Ht')) H3 E') as (-> & Hh). split.
    + do 3 f_equal. change (f :: v) with ([f] ++ v). rewrite <- plus_heard_app by done.
      by rewrite (plus_heard_silent _ v) by (done || by apply plus_heard_frame).
    + unfold pending. by rewrite E, Ef.
  - unfold adds. rewrite remaining_cons, E'. change (f :: v) with ([f] ++ v). rewrite <- plus_heard_app by done.
    apply (add_packets_exact T _ _ v _ _ (0 + 1)); first [done|by apply plus_heard_frame|lia].
Qed.

(** Frames that ended before [T] add nothing from [T] on. *)
Lemma heard_remaining cut T fs : Forall pcm_ok fs -> cut <= T -> heard (remaining cut fs) T = heard fs T.
Proof.
  intros Hok Hc. induction Hok as [|f fs Hf Hok IH]; [done|]. rewrite remaining_cons. case_if_as E.
  - change (f :: remaining cut fs) with ([f] ++ remaining cut fs). change (f :: fs) with ([f] ++ fs).
    rewrite !heard_app. unfold plus_heard. by rewrite IH.
  - apply Z.ltb_ge in E. rewrite IH. symmetry. apply heard_apart; [done|]. lia.
Qed.
Lemma remaining_remaining cut T fs : cut <= T -> remaining T (remaining cut fs) = remaining T fs.
Proof.
  intros Hc. induction fs as [|f fs IH]; [done|]. rewrite !remaining_cons. case_if_as E.
  - rewrite remaining_cons. by rewrite IH.
  - apply Z.ltb_ge in E. by rewrite IH, (proj2 (Z.ltb_ge _ _)) by lia.
Qed.
Lemma track_ok_remaining T fs : track_ok fs -> track_ok (remaining T fs).
Proof.
  intros (H1 & H2 & H3). induction fs as [|f fs IH]; [done|]. rewrite remaining_cons.
  apply StronglySorted_inv in H1 as [H1 Hf]. apply Forall_cons in H2 as [H2 H2']. apply Forall_cons in H3 as [H3 H3'].
  destruct (IH H1 H2' H3') as (A & B & G). case_if_as E; [|done]. unfold track_ok. splits; [|by constructor|by constructor].
  constructor; [done|]. unfold remaining. rewrite Forall_forall in Hf |- *. intros g Hg. apply list_elem_of_In, filter_In in Hg as [Hg _].
  apply Hf. by apply list_elem_of_In.
Qed.
End Cursor.
