(* ===== verification/AudioMixTheorems.v ===== *)
(** The mix of two tracks against a description that has no cursors: at each
    output time the sum of the frames heard then, no sound left out, and an end
    whatever the tracks are. *)
From stdpp Require Import sorting.
From S2P Require Import Prelude Bytes Arith ReplayAudio AudioMix AudioMixFacts.
Local Open Scope Z_scope.

(** * The description *)
Definition frame_of_mix (fs fm : list PcmFrame) (T : Z) (gain : spec_float) : spec_float * list Z :=
  mix_with_microphone_headroom (heard fs T) (heard fm T) gain.
(** The frames of the mix at the given times, the gain threaded through. *)
Fixpoint reference_mix (fs fm : list PcmFrame) (gain : spec_float) (times : list Z) : list (Z * list Z) :=
  match times with
  | [] => []
  | T :: times =>
      let r := frame_of_mix fs fm T gain in
      (T, r.2) :: reference_mix fs fm r.1 times
  end.
(** Output frames follow each other without overlap, inside the window. *)
Fixpoint schedule (from window_end : Z) (times : list Z) : Prop :=
  match times with
  | [] => True
  | T :: times => from <= T < window_end /\ schedule (T + AUDIO_FRAME_DURATION_NS) window_end times
  end.
(** Every instant at which a frame sounds lies in an output frame. *)
Definition covers (fs : list PcmFrame) (from window_end : Z) (times : list Z) : Prop :=
  forall f t, f ∈ fs -> from <= t < window_end -> frame_timestamp f <= t < frame_end f ->
    exists T, T ∈ times /\ T <= t < T + AUDIO_FRAME_DURATION_NS.

Section Mix.
Context {D C : Type} `{!OpusLibrary D C}.

Fixpoint encode_all (c : C) (frames : list (Z * list Z)) : outcome mix_error (C * list EncodedOpusPacket) :=
  match frames with
  | [] => Ok (c, [])
  | (T, pcm) :: frames =>
      '(c, p) ← encode_frame c T pcm;
      '(c, ps) ← encode_all c frames;
      Ok (c, p :: ps)
  end.

Context `{!OpusBuffers D C}.
Variable cancel : nat -> bool.

Lemma length_mix system microphone gain :
  is_frame system -> is_frame microphone -> is_frame (mix_with_microphone_headroom system microphone gain).2.
Proof. unfold is_frame, mix_with_microphone_headroom. intros H1 H2. cbn [snd]. rewrite length_map, length_zip_with. lia. Qed.

Lemma encode_frame_ok c T pcm : match encode_frame c T pcm with
  | Ok (_, p) => opus_timestamp_ns p = T /\ opus_duration_ns p = AUDIO_FRAME_DURATION_NS /\ 0 < zlen (opus_bytes p) <= MAX_OPUS_PACKET_BYTES
  | Err e => e = OpusError | Panic => False end.
Proof.
  unfold encode_frame. case_if_as E; [done|]. pose proof (encode_buffer c pcm) as H. destruct (opus_encode c pcm) as [[c' n] out].
  case_if_as E1; [done|]. case_if_as E2; [done|]. cbn. apply Z.leb_gt in E1. apply Z.ltb_ge in E2. splits; try done;
    unfold zlen in *; rewrite length_take; lia.
Qed.

Lemma is_frame_silence : is_frame silence /\ within 0 silence.
Proof.
  split; [unfold is_frame, silence; by rewrite length_replicate|]. unfold silence, within. apply Forall_replicate. lia.
Qed.
Lemma heard_silence fs T : plus_heard silence fs T = heard fs T.
Proof.
  apply list_eq. intros i. rewrite plus_heard_lookup by apply is_frame_silence. unfold heard. rewrite list_lookup_fmap.
  destruct (decide (i < 1920)%nat).
  - rewrite lookup_seq_lt by done. unfold silence. rewrite lookup_replicate_2 by (unfold FRAME_SAMPLES, AUDIO_FRAME_SAMPLES_PER_CHANNEL, CHANNELS, AUDIO_CHANNELS; lia).
    cbn [fmap option_fmap option_map]. f_equal; lia.
  - rewrite lookup_seq_ge by lia. unfold silence. rewrite lookup_ge_None_2; [done|]. rewrite length_replicate.
    unfold FRAME_SAMPLES, AUDIO_FRAME_SAMPLES_PER_CHANNEL, CHANNELS, AUDIO_CHANNELS. lia.
Qed.

(** * It ends *)
Record mixer_ok (m : mixer D C) : Prop := {
  ok_system : cursor_ok (mix_system m);
  ok_input : cursor_ok (mix_input m);
  ok_system_left : left_over (mix_system m) < 65535;
  ok_input_left : left_over (mix_input m) < 65535;
  ok_packets : zlen (mix_packets m) <= MAX_AUDIO_PACKETS;
  ok_bytes : mix_bytes m = opus_total (mix_packets m);
}.

Lemma mix_frame_total T m : mixer_ok m -> match mix_frame cancel T m with
  | Ok (m', pcm) => mixer_ok m' /\ is_frame pcm /\ mix_packets m' = mix_packets m
  | Err _ => True | Panic => False end.
Proof.
  intros [H1 H2 H3 H4 H5 H6]. unfold mix_frame. destruct is_frame_silence as [Hl Hw].
  pose proof (add_frame_total cancel T (mix_system m) silence (mix_loads m) H1 H3 Hl Hw) as Ha.
  destruct (add_frame cancel T (mix_system m) silence (mix_loads m)) as [[[c s] l]|e|]; [|done..].
  cbn in Ha |- *. destruct Ha as (A1 & A2 & A3 & A4).
  pose proof (add_frame_total cancel T (mix_input m) silence l H2 H4 Hl Hw) as Hb.
  destruct (add_frame cancel T (mix_input m) silence l) as [[[c' s'] l']|e|]; [|done..].
  cbn in Hb |- *. destruct Hb as (B1 & B2 & B3 & B4). splits; [constructor; cbn; try done; lia| |done].
  by apply (length_mix s s' (mix_gain m)).
Qed.

Lemma mix_total_app ps qs : opus_total (ps ++ qs) = opus_total ps + opus_total qs.
Proof. unfold opus_total. by rewrite map_app, sum_Z_app. Qed.

Lemma emit_frame_total m pcm : mixer_ok m -> is_frame pcm -> match emit_frame m pcm with
  | Ok m' => mixer_ok m' /\ zlen (mix_packets m') = zlen (mix_packets m) + 1
  | Err _ => True | Panic => False end.
Proof.
  intros [H1 H2 H3 H4 H5 H6] Hl. unfold emit_frame. pose proof (encode_frame_ok (mix_encoder m) (mix_timestamp m) pcm) as He.
  destruct (encode_frame _ _ _) as [[c p]|e|]; [|done..]. cbn [mbind outcome_bind]. case_if_as E; [done|].
  apply orb_false_iff in E as [E1 E2]. apply Z.ltb_ge in E1. apply Z.leb_gt in E2. split; [|cbn; autorewrite with rust; done].
  constructor; cbn [mix_system mix_input mix_packets mix_bytes]; try done; [autorewrite with rust; lia|].
  rewrite mix_total_app, <- H6. unfold sat_add, USIZE_MAX, U64_MAX, MAX_AUDIO_BUFFER_BYTES in *. unfold opus_total. cbn [map sum_Z foldr]. lia.
Qed.

Lemma mix_loop_total fuel w1 m :
  mixer_ok m -> MAX_AUDIO_PACKETS + 1 < Z.of_nat fuel + zlen (mix_packets m) -> no_panic (mix_loop cancel fuel w1 m).
Proof.
  revert m. induction fuel as [|fuel IH]; intros m Hm Hf; cbn [mix_loop]; [pose proof (ok_packets m Hm); lia|].
  case_if_as E; [done|]. unfold check_cancel. destruct (cancel (mix_loads m)); [done|]. cbn [mbind outcome_bind].
  destruct (earliest _ _) as [next|]; [|done]. case_if_as E'; [done|]. set (T := Z.max _ next).
  assert (Hm' : mixer_ok (with_loads (S (mix_loads m)) m)) by (destruct Hm; by constructor).
  pose proof (mix_frame_total T _ Hm') as Ha. destruct (mix_frame cancel T _) as [[m1 pcm]|e|]; [|done..].
  cbn [mbind outcome_bind]. destruct Ha as (A1 & A2 & A3). pose proof (emit_frame_total m1 pcm A1 A2) as Hb.
  destruct (emit_frame m1 pcm) as [m2|e|]; [|done..]. cbn [mbind outcome_bind]. destruct Hb as (B1 & B2).
  apply IH; [done|]. rewrite B2, A3. cbn. lia.
Qed.

Lemma cursor_new_ok d packets : match cursor_new d packets with
  | Ok c => cursor_ok c /\ left_over c = zlen packets /\ d = Some (cursor_decoder c) /\ pending c = decode_all (cursor_decoder c) packets
  | Err e => d = None /\ e = OpusError | Panic => False end.
Proof.
  destruct d as [d|]; [|done]. cbn. splits; [done|unfold left_over; cbn; lia|done|]. unfold pending. cbn. by destruct (decode_all d packets).
Qed.

Lemma mixer_ok_start sys input encoder T gain loads :
  cursor_ok sys -> cursor_ok input -> left_over sys < 65535 -> left_over input < 65535 ->
  mixer_ok {| mix_system := sys; mix_input := input; mix_encoder := encoder; mix_packets := []; mix_bytes := 0;
              mix_timestamp := T; mix_gain := gain; mix_loads := loads |}.
Proof. by constructor. Qed.

(** C23: Whatever the two tracks hold (packets that do not decode, overlap or lie
    out of order), whatever libopus answers and whenever the save is cancelled,
    mixing ends with a result or an error: no sample addition overflows an i32,
    no slice of a frame is out of range, and the loop, which the window bounds
    only in time, ends within the packets a clip may hold. *)
Theorem mix_total handles tracks window :
  zlen (snapshot_packets (system tracks)) < 65535 ->
  (forall track, microphone tracks = Some track -> zlen (snapshot_packets track) < 65535) ->
  no_panic (mix_audio_tracks cancel handles tracks window).
Proof.
  intros Hs Hm. unfold mix_audio_tracks, check_cancel. destruct (cancel 0); [done|]. cbn [mbind outcome_bind].
  destruct (microphone tracks) as [track|]; [|done]. specialize (Hm track eq_refl). case_if_as E1; [done|]. case_if_as E2; [done|].
  pose proof (cursor_new_ok (system_decoder handles) (snapshot_packets (system tracks))) as H1.
  destruct (cursor_new (system_decoder handles) _) as [c|e|]; [|done..]. cbn [mbind outcome_bind].
  pose proof (cursor_new_ok (input_decoder handles) (snapshot_packets track)) as H2.
  destruct (cursor_new (input_decoder handles) _) as [c'|e|]; [|done..]. cbn [mbind outcome_bind].
  destruct (opened_encoder handles) as [enc|]; [|done]. cbn [ok_or mbind outcome_bind].
  destruct H1 as (A1 & A2 & _), H2 as (B1 & B2 & _). apply bind_no_panic; [|done]. apply mix_loop_total.
  - apply mixer_ok_start; try done; lia.
  - cbn [mix_packets]. unfold mix_fuel. change (zlen (@nil EncodedOpusPacket)) with 0. unfold MAX_AUDIO_PACKETS. lia.
Qed.
(** * It mixes what is heard *)
Lemma next_of_pending (c : PcmCursor D) fs : pending c = Ok fs -> next_timestamp c = frame_timestamp <$> head fs.
Proof.
  unfold pending, next_timestamp. intros H. inv_bind H. destruct (cursor_frame c); injection H as <-; [done|].
  destruct (cursor_packets c) as [|p ps]; [by injection E as <-|].
  by apply decode_all_cons in E as (d' & pcm & fs' & _ & _ & _ & _ & ->).
Qed.
(** The first frame of a track starts no later than the others. *)
Lemma head_first fs f : track_ok fs -> f ∈ fs -> exists h, head fs = Some h /\ frame_timestamp h <= frame_timestamp f.
Proof.
  intros Ht Hf. destruct fs as [|h fs]; [by apply elem_of_nil in Hf|]. exists h. split; [done|].
  apply elem_of_cons in Hf as [->|Hf]; [lia|]. destruct (track_ok_cons _ _ Ht) as (_ & _ & _ & H & _).
  rewrite Forall_forall in H. specialize (H f Hf). unfold frame_end, AUDIO_FRAME_DURATION_NS in H. lia.
Qed.
Lemma earliest_le fs gs f :
  track_ok fs -> track_ok gs -> f ∈ fs ++ gs ->
  exists n, earliest (frame_timestamp <$> head fs) (frame_timestamp <$> head gs) = Some n /\ n <= frame_timestamp f.
Proof.
  intros H1 H2 Hf. apply elem_of_app in Hf as [Hf|Hf].
  - destruct (head_first fs f H1 Hf) as (h & -> & Hh). cbn. destruct (head gs) as [g|]; cbn; eexists; (split; [done|lia]).
  - destruct (head_first gs f H2 Hf) as (h & -> & Hh). destruct (head fs) as [g|]; cbn; eexists; (split; [done|lia]).
Qed.
Lemma elem_of_remaining T fs f : f ∈ remaining T fs <-> f ∈ fs /\ T < frame_end f.
Proof. unfold remaining. rewrite !list_elem_of_In, filter_In, Z.ltb_lt. done. Qed.
Lemma not_in_mix_loop fs fm cut from w1 next :
  track_ok fs -> track_ok fm -> cut <= from ->
  earliest (frame_timestamp <$> head (remaining cut fs)) (frame_timestamp <$> head (remaining cut fm)) = next ->
  (forall n, next = Some n -> w1 <= n) -> covers (fs ++ fm) from w1 [].
Proof.
  intros H1 H2 Hc He Hn f t Hf Ht Hs.
  destruct (earliest_le (remaining cut fs) (remaining cut fm) f) as (n & En & Hle); try by apply track_ok_remaining.
  { rewrite elem_of_app, !elem_of_remaining. apply elem_of_app in Hf as [Hf|Hf]; [left|right]; (split; [done|lia]). }
  specialize (Hn n ltac:(congruence)). lia.
Qed.

Section Exact.
Variables (fs fm : list PcmFrame) (w1 : Z).
Hypotheses (Hfs : track_ok fs) (Hfm : track_ok fm) (Hw1 : w1 + AUDIO_FRAME_DURATION_NS <= U64_MAX).

(** Where the mixer stands in the two tracks. *)
Definition stands (m : mixer D C) : Prop :=
  mixer_ok m /\ 0 <= mix_timestamp m <= U64_MAX /\ exists cut, cut <= mix_timestamp m /\
  pending (mix_system m) = Ok (remaining cut fs) /\ pending (mix_input m) = Ok (remaining cut fm).

(** What a mix from [m] ends with: the reference frames at scheduled times, in
    full, or the reason it stops early. *)
Definition mixed (m : mixer D C) (r : outcome mix_error (mixer D C)) : Prop :=
  let encoded times ps :=
    schedule (mix_timestamp m) w1 times /\
    exists c, encode_all (mix_encoder m) (reference_mix fs fm (mix_gain m) times) = Ok (c, ps) in
  match r with
  | Ok m' => exists times ps, encoded times ps /\ mix_packets m' = mix_packets m ++ ps /\
      covers (fs ++ fm) (mix_timestamp m) w1 times
  | Err Cancelled => exists n, cancel n = true
  | Err OpusError => exists c T pcm, T < w1 /\ is_frame pcm /\ encode_frame c T pcm = Err OpusError
  | Err MixTooLarge => exists times ps, encoded times ps /\
      (MAX_AUDIO_BUFFER_BYTES < opus_total (mix_packets m ++ ps) \/ MAX_AUDIO_PACKETS < zlen (mix_packets m ++ ps))
  | _ => False
  end.

Lemma mix_frame_exact T m cut :
  mixer_ok m -> cut <= T -> 0 <= T < w1 ->
  pending (mix_system m) = Ok (remaining cut fs) -> pending (mix_input m) = Ok (remaining cut fm) ->
  (mix_frame cancel T m = Err Cancelled /\ exists n, cancel n = true) \/
  exists m', mix_frame cancel T m = Ok (m', (frame_of_mix fs fm T (mix_gain m)).2)
    /\ mix_gain m' = (frame_of_mix fs fm T (mix_gain m)).1 /\ mix_timestamp m' = T /\ mix_encoder m' = mix_encoder m
    /\ pending (mix_system m') = Ok (remaining (T + AUDIO_FRAME_DURATION_NS) fs)
    /\ pending (mix_input m') = Ok (remaining (T + AUDIO_FRAME_DURATION_NS) fm).
Proof.
  intros [H1 H2 H3 H4 H5 H6] Hc HT Hp Hp'. unfold mix_frame. destruct is_frame_silence as [Hl Hw].
  assert (Hd : cut <= T + AUDIO_FRAME_DURATION_NS) by (unfold AUDIO_FRAME_DURATION_NS; lia).
  destruct (add_frame_exact cancel T (mix_system m) _ silence (mix_loads m) Hp H1 H3 (track_ok_remaining cut fs Hfs) ltac:(lia) ltac:(lia) Hl Hw)
    as [(-> & Hn)|(c & l & -> & Hc1)]; [by left|]. cbn [mbind outcome_bind].
  destruct (add_frame_exact cancel T (mix_input m) _ silence l Hp' H2 H4 (track_ok_remaining cut fm Hfm) ltac:(lia) ltac:(lia) Hl Hw)
    as [(-> & Hn)|(c' & l' & -> & Hc2)]; [by left|]. cbn [mbind outcome_bind].
  rewrite !heard_silence, !heard_remaining by (done || apply Hfs || apply Hfm).
  rewrite remaining_remaining in Hc1, Hc2 by done. right. unfold frame_of_mix.
  destruct (mix_with_microphone_headroom (heard fs T) (heard fm T) (mix_gain m)) as [g pcm]. eexists. by splits.
Qed.

Lemma mixed_step m m' T r p ps0 :
  mix_timestamp m <= T < w1 -> encode_frame (mix_encoder m) T (frame_of_mix fs fm T (mix_gain m)).2 = Ok (mix_encoder m', p) ->
  mix_gain m' = (frame_of_mix fs fm T (mix_gain m)).1 -> mix_packets m = ps0 -> mix_packets m' = ps0 ++ [p] ->
  mix_timestamp m' = T + AUDIO_FRAME_DURATION_NS ->
  (forall f t, f ∈ fs ++ fm -> mix_timestamp m <= t < T -> ~ frame_timestamp f <= t < frame_end f) ->
  mixed m' r -> mixed m r.
Proof.
  intros HT He Hg Hp Hp' Ht Hgap. unfold mixed. rewrite Hg, Hp, Hp', Ht. destruct r as [m2|[| | |]|]; [|by intros H; exact H|by intros H; exact H|by intros []| |by intros []].
  - intros (times & ps & (Hs & c & Hps) & Hpk & Hcov). exists (T :: times), (p :: ps). splits; [exact (conj HT Hs)| | |].
    + exists c. cbn [reference_mix encode_all]. rewrite He. cbn [mbind outcome_bind]. by rewrite Hps.
    + by rewrite Hpk, <- app_assoc.
    + intros f t Hf Hft Hso. destruct (Z.lt_ge_cases t T); [by destruct (Hgap f t Hf ltac:(lia))|].
      destruct (Z.lt_ge_cases t (T + AUDIO_FRAME_DURATION_NS)); [exists T; split; [left|lia]|].
      destruct (Hcov f t Hf ltac:(lia) Hso) as (T' & HT' & ?). exists T'. split; [by right|done].
  - intros (times & ps & (Hs & c & Hps) & Hb). exists (T :: times), (p :: ps). splits; [exact (conj HT Hs)| |].
    + exists c. cbn [reference_mix encode_all]. rewrite He. cbn [mbind outcome_bind]. by rewrite Hps.
    + by rewrite <- app_assoc in Hb.
Qed.

Lemma mixed_too_large m T p c :
  mix_timestamp m <= T < w1 -> encode_frame (mix_encoder m) T (frame_of_mix fs fm T (mix_gain m)).2 = Ok (c, p) ->
  (MAX_AUDIO_BUFFER_BYTES < opus_total (mix_packets m ++ [p]) \/ MAX_AUDIO_PACKETS < zlen (mix_packets m ++ [p])) ->
  mixed m (Err MixTooLarge).
Proof.
  intros HT He Hb. exists [T], [p]. splits; [exact (conj HT I)| |exact Hb]. exists c. cbn [reference_mix encode_all]. by rewrite He.
Qed.

Lemma mixed_stop (m : mixer D C) l : covers (fs ++ fm) (mix_timestamp m) w1 [] -> mixed m (Ok (with_loads l m)).
Proof. intros Hcov. exists [], []. splits; [exact I|by eexists|symmetry; apply app_nil_r|exact Hcov]. Qed.

(** Nothing sounds between the end of one output frame and the next one. *)
Lemma gap_silent cut (m : mixer D C) next f t :
  cut <= mix_timestamp m ->
  earliest (frame_timestamp <$> head (remaining cut fs)) (frame_timestamp <$> head (remaining cut fm)) = Some next ->
  f ∈ fs ++ fm -> mix_timestamp m <= t < Z.max (mix_timestamp m) next -> ~ frame_timestamp f <= t < frame_end f.
Proof.
  intros Hc Ee Hin Hft Hso.
  destruct (earliest_le (remaining cut fs) (remaining cut fm) f) as (n & En & Hle); try by apply track_ok_remaining.
  { rewrite elem_of_app, !elem_of_remaining. apply elem_of_app in Hin as [Hin|Hin]; [left|right]; (split; [done|lia]). }
  rewrite En in Ee. injection Ee as ->. lia.
Qed.

(** One output frame that was mixed: encoded and kept, or the mix stops. *)
Lemma mixed_emit m m1 T pcm k :
  mix_timestamp m <= T < w1 -> mixer_ok m1 -> is_frame pcm -> pcm = (frame_of_mix fs fm T (mix_gain m)).2 ->
  mix_gain m1 = (frame_of_mix fs fm T (mix_gain m)).1 -> mix_timestamp m1 = T -> mix_encoder m1 = mix_encoder m ->
  mix_packets m1 = mix_packets m ->
  (forall f t, f ∈ fs ++ fm -> mix_timestamp m <= t < T -> ~ frame_timestamp f <= t < frame_end f) ->
  (forall m2, mixer_ok m2 -> zlen (mix_packets m2) = zlen (mix_packets m1) + 1 ->
    mix_timestamp m2 = T + AUDIO_FRAME_DURATION_NS -> mix_system m2 = mix_system m1 -> mix_input m2 = mix_input m1 ->
    mixed m2 (k m2)) ->
  mixed m (m2 ← emit_frame m1 pcm; k m2).
Proof.
  intros HT A1 A2 Hpcm Hg Ht Henc A3 Hgap Hk.
  pose proof (emit_frame_total m1 pcm A1 A2) as Hem. pose proof (encode_frame_ok (mix_encoder m1) (mix_timestamp m1) pcm) as Hen.
  revert Hem. unfold emit_frame. rewrite Ht, Henc in *.
  destruct (encode_frame (mix_encoder m) T pcm) as [[c p]|e|] eqn:Een; cbn [mbind outcome_bind]; [|subst e|done].
  2: { intros _. exists (mix_encoder m), T, pcm. split; [apply HT|]. exact (conj A2 Een). }
  subst pcm. case_if_as E; intros Hem; cbn [mbind outcome_bind].
  - apply (mixed_too_large m T p c HT Een). rewrite A3 in E. pose proof (ok_bytes m1 A1) as Hb. rewrite A3 in Hb.
    rewrite Hb in E. autorewrite with rust. rewrite mix_total_app. apply orb_true_iff in E as [E|E]; [left|right].
    + apply Z.ltb_lt in E. unfold sat_add in E. unfold opus_total at 2. cbn [map sum_Z foldr]. lia.
    + apply Z.leb_le in E. lia.
  - destruct Hem as (B1 & B2). match goal with |- mixed m (k ?m2) => specialize (Hk m2); set (m' := m2) in * end.
    assert (Ht' : mix_timestamp m' = T + AUDIO_FRAME_DURATION_NS) by (unfold m'; cbn [mix_timestamp]; apply sat_add_exact; lia).
    apply (mixed_step m m' T _ p (mix_packets m)); [exact HT|exact Een|exact Hg|reflexivity| |exact Ht'|exact Hgap|].
    + unfold m'. cbn [mix_packets]. by rewrite A3.
    + apply Hk; [exact B1|exact B2|exact Ht'|reflexivity|reflexivity].
Qed.

Lemma with_loads_same (m : mixer D C) l :
  mix_system (with_loads l m) = mix_system m /\ mix_input (with_loads l m) = mix_input m /\ mix_encoder (with_loads l m) = mix_encoder m /\
  mix_gain (with_loads l m) = mix_gain m /\ mix_packets (with_loads l m) = mix_packets m /\ (mixer_ok m -> mixer_ok (with_loads l m)).
Proof. splits; try reflexivity. intros []. by constructor. Qed.

Lemma mix_loop_exact fuel m :
  stands m -> MAX_AUDIO_PACKETS + 1 < Z.of_nat fuel + zlen (mix_packets m) -> mixed m (mix_loop cancel fuel w1 m).
Proof.
  revert m. induction fuel as [|fuel IH]; intros m (Hm & H0 & cut & Hc & Hp & Hp') Hf; [pose proof (ok_packets m Hm); lia|].
  cbn [mix_loop]. destruct (Z.ltb_spec (mix_timestamp m) w1) as [Hlt|Hge]; cbn [negb].
  2: { exists [], []. splits; [exact I|by eexists|symmetry; apply app_nil_r|]. intros f t _ ?. lia. }
  unfold check_cancel. destruct (cancel (mix_loads m)) eqn:Ec; [by eexists|]. cbn [mbind outcome_bind].
  rewrite (next_of_pending _ _ Hp), (next_of_pending _ _ Hp').
  destruct (earliest _ _) as [next|] eqn:Ee.
  2: { apply mixed_stop. by eapply not_in_mix_loop with (next := None). }
  destruct (Z.leb_spec w1 (Z.max (mix_timestamp m) next)) as [Hend|HT].
  { apply mixed_stop. eapply not_in_mix_loop with (next := Some next); try done. intros n [= <-]. lia. }
  pose proof (fun f t => gap_silent cut m next f t Hc Ee) as Hgap. set (T := Z.max (mix_timestamp m) next) in *.
  assert (HT0 : mix_timestamp m <= T < w1) by lia.
  destruct (with_loads_same m (S (mix_loads m))) as (E1 & E2 & E3 & E4 & E5 & Hml). apply Hml in Hm as Hm'. clear Hml.
  revert E1 E2 E3 E4 E5 Hm'. generalize (with_loads (S (mix_loads m)) m) as ml. intros ml E1 E2 E3 E4 E5 Hm'.
  rewrite <- E1 in Hp. rewrite <- E2 in Hp'. pose proof (mix_frame_total T ml Hm') as Htot.
  destruct (mix_frame_exact T ml cut Hm' ltac:(lia) ltac:(lia) Hp Hp') as [(Ex & Hn)|(m1 & Em & Hg & Ht & Henc & Hp1 & Hp1')];
    [rewrite Ex; exact Hn|].
  remember (frame_of_mix fs fm T (mix_gain ml)) as X eqn:EX. rewrite E4 in EX. clearbody T.
  rewrite Em in Htot |- *. rewrite bind_ret. destruct Htot as (A1 & A2 & A3).
  apply (mixed_emit m m1 T X.2 (fun m2 => mix_loop cancel fuel w1 m2));
    [exact HT0|exact A1|exact A2|by rewrite EX|by rewrite <- EX|exact Ht|congruence|congruence|exact Hgap|].
  intros m2 B1 B2 B3 B4 B5. apply IH.
  - split; [exact B1|]. rewrite B3, B4, B5. split; [unfold AUDIO_FRAME_DURATION_NS in *; lia|].
    exists (T + AUDIO_FRAME_DURATION_NS). split; [lia|]. split; [exact Hp1|exact Hp1'].
  - rewrite B2, A3, E5. lia.
Qed.
End Exact.

Lemma encode_all_times c frames c' ps :
  encode_all c frames = Ok (c', ps) -> opus_timestamp_ns <$> ps = frames.*1.
Proof.
  revert c ps. induction frames as [|[T pcm] frames IH]; intros c ps; cbn [encode_all]; [by intros [= <- <-]|].
  pose proof (encode_frame_ok c T pcm) as He. destruct (encode_frame c T pcm) as [[c1 p]|e|]; [|done..]. cbn [mbind outcome_bind].
  intros H. inv_bind H. destruct v as [c2 qs]. injection H as <- <-. rewrite !fmap_cons. cbn [fst]. f_equal; [apply He|by eapply IH].
Qed.
Lemma reference_times fs fm gain times : (reference_mix fs fm gain times).*1 = times.
Proof. revert gain. induction times as [|T times IH]; intros gain; [done|]. cbn [reference_mix]. rewrite fmap_cons. cbn [fst]. by rewrite IH. Qed.

(** With one track only, there is nothing to mix: it is kept as it is. *)
Lemma mix_single_track handles tracks window :
  cancel 0 = false ->
  (match microphone tracks with None => True | Some t => snapshot_packets t = [] end ->
    mix_audio_tracks cancel handles tracks window = Ok {| system := system tracks; microphone := None |}) /\
  (forall t, microphone tracks = Some t -> snapshot_packets t <> [] -> snapshot_packets (system tracks) = [] ->
    mix_audio_tracks cancel handles tracks window = Ok {| system := t; microphone := None |}).
Proof.
  intros Hc. unfold mix_audio_tracks, check_cancel. rewrite Hc. cbn [mbind outcome_bind]. split.
  - destruct (microphone tracks) as [t|]; [|done]. intros ->. by rewrite bool_decide_true.
  - intros t -> Ht Hs. by rewrite bool_decide_false, bool_decide_true.
Qed.

Lemma remaining_all fs : track_ok fs -> remaining (-1) fs = fs.
Proof.
  intros (_ & _ & H). apply Arith.filter_all. eapply Forall_impl; [exact H|]. cbn. intros f Hf. apply Z.ltb_lt.
  unfold frame_end, AUDIO_FRAME_DURATION_NS. lia.
Qed.

(** C22: Mixing two tracks is the sum of what each of them holds: if the frames of
    each track do not overlap, the saved packets are the encodings of output
    frames at times that follow each other without overlap inside the window,
    cover every instant at which either track sounds, and each hold the sum of
    all frames of the system track shifted to that time, mixed under the running
    gain with the sum of all frames of the microphone track, every sample of
    every frame counted once.  Otherwise the save was cancelled, the encoder
    failed, or what was mixed so far is over the bound of a clip. *)
Theorem mix_exact handles tracks track ds di enc fs fm w0 w1 :
  system_decoder handles = Some ds -> input_decoder handles = Some di -> opened_encoder handles = Some enc ->
  microphone tracks = Some track -> snapshot_packets track <> [] -> snapshot_packets (system tracks) <> [] ->
  zlen (snapshot_packets (system tracks)) < 65535 -> zlen (snapshot_packets track) < 65535 ->
  decode_all ds (snapshot_packets (system tracks)) = Ok fs -> decode_all di (snapshot_packets track) = Ok fm ->
  track_ok fs -> track_ok fm -> 0 <= w0 <= U64_MAX -> w1 + AUDIO_FRAME_DURATION_NS <= U64_MAX ->
  match mix_audio_tracks cancel handles tracks (w0, w1) with
  | Ok mixed =>
      microphone mixed = None /\
      exists times, schedule w0 w1 times /\ covers (fs ++ fm) w0 w1 times /\
        opus_timestamp_ns <$> snapshot_packets (system mixed) = times /\
        exists c, encode_all enc (reference_mix fs fm (f64_of_int 1) times) = Ok (c, snapshot_packets (system mixed))
  | Err Cancelled => exists n, cancel n = true
  | Err OpusError => exists c T pcm, T < w1 /\ is_frame pcm /\ encode_frame c T pcm = Err OpusError
  | Err MixTooLarge => exists times c ps, schedule w0 w1 times /\
      encode_all enc (reference_mix fs fm (f64_of_int 1) times) = Ok (c, ps) /\
      (MAX_AUDIO_BUFFER_BYTES < opus_total ps \/ MAX_AUDIO_PACKETS < zlen ps)
  | Err InvalidDuration | Panic => False
  end.
Proof.
  intros Eds Edi Een Em Hne Hne' Hl Hl' Hfs Hfm Ht Ht' H0 H1. unfold mix_audio_tracks, check_cancel.
  destruct (cancel 0) eqn:Ec; [by exists 0%nat|]. cbn [mbind outcome_bind]. rewrite Em, !bool_decide_false by done.
  rewrite Eds, Edi, Een. unfold cursor_new. cbn [ok_or mbind outcome_bind fst snd].
  match goal with |- context [mix_loop cancel mix_fuel w1 ?m] => set (m0 := m) end.
  assert (Hs : stands fs fm m0).
  { split; [apply mixer_ok_start; try done; unfold left_over; cbn; lia|]. split; [done|]. exists (-1). split; [cbn; lia|].
    rewrite !remaining_all by done. unfold pending. cbn. by rewrite Hfs, Hfm. }
  pose proof (mix_loop_exact fs fm w1 Ht Ht' H1 mix_fuel m0 Hs) as Hm.
  assert (MAX_AUDIO_PACKETS + 1 < Z.of_nat mix_fuel + zlen (mix_packets m0)) as Hf.
  { unfold mix_fuel, MAX_AUDIO_PACKETS. unfold m0. cbn [mix_packets]. change (zlen (@nil EncodedOpusPacket)) with 0. lia. }
  specialize (Hm Hf). destruct (mix_loop cancel mix_fuel w1 m0) as [m1|[| | |]|]; cbn [mbind outcome_bind]; [|exact Hm|exact Hm|exact Hm| |exact Hm].
  - destruct Hm as (times & ps & (Hsch & c & Henc) & -> & Hcov). split; [done|]. exists times. splits; [exact Hsch|exact Hcov| |by exists c].
    cbn [mix_packets m0 system snapshot_packets app]. rewrite (encode_all_times _ _ _ _ Henc). apply reference_times.
  - destruct Hm as (times & ps & (Hsch & c & Henc) & Hb). exists times, c, ps. split; [exact Hsch|]. split; [exact Henc|exact Hb].
Qed.
End Mix.

(** * A clip *)
Module Sample.
(** A codec that keeps one sample of each frame. *)
#[local] Instance one_sample : OpusLibrary unit unit := {|
  opus_decode d bs := (d, 960, replicate 1920 (match bs with b :: _ => clamp b I16_MIN I16_MAX | [] => 0 end));
  opus_encode c pcm := (c, 1, replicate 4096 (match pcm with x :: _ => x | [] => 0 end));
|}.
#[local] Instance one_sample_buffers : OpusBuffers unit unit.
Proof.
  split.
  - intros d bs. cbn [opus_decode one_sample]. split; [by rewrite length_replicate|]. apply Forall_replicate.
    destruct bs; [done|]. by apply clamp_in.
  - intros c pcm. cbn [opus_encode one_sample]. unfold zlen. by rewrite length_replicate.
Qed.
Definition packet (timestamp value : Z) : EncodedOpusPacket :=
  {| opus_timestamp_ns := timestamp; opus_duration_ns := AUDIO_FRAME_DURATION_NS; opus_bytes := [value] |}.
Definition track (ps : list EncodedOpusPacket) : ReplayAudioSnapshot :=
  {| snapshot_stream := OpusStreamDescription_default; snapshot_packets := ps |}.
(** The microphone starts 5 ms after the system sound and ends before it. *)
Definition system_packets := [packet 0 100; packet 20000000 50].
Definition microphone_packets := [packet 5000000 7].
Definition tracks : ReplayAudioTracks := {| system := track system_packets; microphone := Some (track microphone_packets) |}.
Definition handles : opus_handles unit unit :=
  {| system_decoder := Some tt; input_decoder := Some tt; opened_encoder := Some tt |}.
Definition pcm_frame (timestamp value : Z) : PcmFrame := {| frame_timestamp := timestamp; frame_samples := replicate 1920 value |}.
Definition system_frames := [pcm_frame 0 100; pcm_frame 20000000 50].
Definition microphone_frames := [pcm_frame 5000000 7].
Lemma frames_ok : track_ok system_frames /\ track_ok microphone_frames.
Proof.
  assert (Hp : forall t v, I16_MIN <= v <= I16_MAX -> pcm_ok (pcm_frame t v)).
  { intros t v Hv. split; [apply length_replicate|]. by apply Forall_replicate. }
  split; (split; [repeat constructor; done|split; [repeat (apply Forall_cons; split; [by apply Hp|]); by apply Forall_nil|repeat constructor; done]]).
Qed.
#[local] Notation result := (mix_audio_tracks (fun _ => false) handles tracks (0, 40000000)).

Lemma mix_total_witness : zlen (snapshot_packets (system tracks)) < 65535 /\ no_panic result.
Proof.
  assert (Hs : zlen (snapshot_packets (system tracks)) < 65535) by (by vm_compute).
  assert (Hm : forall t, microphone tracks = Some t -> zlen (snapshot_packets t) < 65535) by (intros t [= <-]; by vm_compute).
  split; [exact Hs|]. exact (mix_total (fun _ => false) handles tracks (0, 40000000) Hs Hm).
Defined.

(** Both output frames; the second one also holds the end of the microphone's. *)
Lemma mix_exact_witness :
  result = Ok {| system := track [packet 0 100; packet 20000000 57]; microphone := None |} /\
  exists times, covers (system_frames ++ microphone_frames) 0 40000000 times /\ times = [0; 20000000].
Proof.
  assert (E : result = Ok {| system := track [packet 0 100; packet 20000000 57]; microphone := None |}) by (vm_compute; reflexivity).
  split; [exact E|].
  assert (Hs : decode_all tt (snapshot_packets (system tracks)) = Ok system_frames) by (vm_compute; reflexivity).
  assert (Hm : decode_all tt (snapshot_packets (track microphone_packets)) = Ok microphone_frames) by (vm_compute; reflexivity).
  assert (Hw : 40000000 + AUDIO_FRAME_DURATION_NS <= U64_MAX) by (by vm_compute).
  pose proof (mix_exact (fun _ => false) handles tracks (track microphone_packets) tt tt tt system_frames microphone_frames 0 40000000
    eq_refl eq_refl eq_refl eq_refl ltac:(discriminate) ltac:(discriminate) ltac:(by vm_compute) ltac:(by vm_compute) Hs Hm
    (proj1 frames_ok) (proj2 frames_ok) ltac:(unfold U64_MAX; lia) Hw) as H.
  rewrite E in H. destruct H as (_ & times & _ & Hc & Ht & _). exists times. split; [exact Hc|by rewrite <- Ht].
Defined.
End Sample.
