(* ===== verification/StoreDisk.v ===== *)
(** The directory of the clip store (crates/redunar-daemon/src/replay_store.rs):
    names, the files they link to, and the calls on them, each of which may fail
    for a reason outside the program. *)
From stdpp Require Import gmap strings.
From S2P Require Import Prelude Bytes Text.
Local Open Scope Z_scope.

Inductive DiskError := NotFound | AlreadyExists | OtherError.
#[global] Instance DiskError_eq_dec : EqDecision DiskError.
Proof. solve_decision. Defined.

(** A regular file: its device and inode number, the links it has outside the
    directory, when it was modified, its owner (0 for the directory's own) and
    its bytes.  Two names of the
    directory with one inode are hard links of one file. *)
Record file := {
  f_dev : Z;
  f_ino : Z;
  f_links_outside : Z;
  f_mtime : Z;
  f_mtime_nsec : Z;
  f_uid : Z;
  f_bytes : bytes;
}.
(** What a subdirectory holds; of a file there [f_links_outside] counts all links,
    of anything else only the time is used. *)
Inductive child := ChildFile (f : file) | ChildLink (modified : Z) | ChildOther (modified : Z).
(** [Special]: a symbolic link, a device, and so on. *)
Inductive node := Regular (f : file) | Subdirectory (private : bool) (children : gmap bytes child) | Special.

Record Metadata := {
  is_file : bool;
  nlink : Z;
  dev : Z;
  ino : Z;
  len : Z;
  mtime : Z;
  mtime_nsec : Z;
  uid : Z;
}.

Definition same_inode (f g : file) : bool := (f_dev f =? f_dev g) && (f_ino f =? f_ino g).
Definition links_to (f : file) (e : bytes * node) : bool := match e.2 with Regular g => same_inode f g | _ => false end.
Definition link_count (f : file) (m : gmap bytes node) : Z :=
  f_links_outside f + zlen (List.filter (links_to f) (map_to_list m)).
Definition metadata_of (links : Z) (f : file) : Metadata := {|
  is_file := true; nlink := links; dev := f_dev f; ino := f_ino f; len := zlen (f_bytes f);
  mtime := f_mtime f; mtime_nsec := f_mtime_nsec f; uid := f_uid f |}.
(** What [symlink_metadata] says of a name that is not a regular file is not
    looked at beyond its kind. *)
Definition metadata_other : Metadata :=
  {| is_file := false; nlink := 1; dev := 0; ino := 0; len := 0; mtime := 0; mtime_nsec := 0; uid := 0 |}.

(** [faults n]: the n-th call fails.  [next_file] is the process-wide counter
    [NEXT_FILE].  [fresh n] are the device, inode, time and owner of a file that
    the n-th call creates, [stamp n] the time of a write by it. *)
Record Disk := {
  names : gmap bytes node;
  calls : nat;
  next_file : Z;
  faults : nat -> bool;
  fresh : nat -> file;
}.
Definition with_names (m : gmap bytes node) (d : Disk) : Disk :=
  {| names := m; calls := S (calls d); next_file := next_file d; faults := faults d; fresh := fresh d |}.

Definition system_call {A} (f : file -> gmap bytes node -> gmap bytes node * outcome DiskError A) : st Disk DiskError A :=
  fun d =>
    if faults d (calls d) then (with_names (names d) d, Err OtherError)
    else let '(m, r) := f (fresh d (calls d)) (names d) in (with_names m d, r).

(** [OpenOptions::new().write(true).create_new(true)]. *)
Definition create_new (name : bytes) : st Disk DiskError unit :=
  system_call (fun made m =>
    match m !! name with
    | Some _ => (m, Err AlreadyExists)
    | None => (<[name := Regular {| f_dev := f_dev made; f_ino := f_ino made; f_links_outside := 0; f_mtime := f_mtime made;
                                    f_mtime_nsec := f_mtime_nsec made; f_uid := f_uid made; f_bytes := [] |}]> m, Ok tt)
    end).
(** [write_all] at the end of the file that was created under [name]; a write
    that fails part of the way is a fault. *)
Definition append (name chunk : bytes) : st Disk DiskError unit :=
  system_call (fun made m =>
    (alter (fun n => match n with
       | Regular f => Regular {| f_dev := f_dev f; f_ino := f_ino f; f_links_outside := f_links_outside f; f_mtime := f_mtime made;
                                 f_mtime_nsec := f_mtime_nsec made; f_uid := f_uid f; f_bytes := f_bytes f ++ chunk |}
       | n => n end) name m, Ok tt)).
Definition remove_file (name : bytes) : st Disk DiskError unit :=
  system_call (fun _ m =>
    match m !! name with
    | Some (Subdirectory _ _) => (m, Err OtherError)
    | Some _ => (delete name m, Ok tt)
    | None => (m, Err NotFound)
    end).
(** [fs::rename] over a name that may exist. *)
Definition rename (from to : bytes) : st Disk DiskError unit :=
  system_call (fun _ m =>
    match m !! from, m !! to with
    | None, _ => (m, Err NotFound)
    | Some _, Some (Subdirectory _ _) => (m, Err OtherError)
    | Some n, _ => (<[to := n]> (delete from m), Ok tt)
    end).
(** [renameat2] with [RENAME_NOREPLACE]. *)
Definition rename_noreplace (from to : bytes) : st Disk DiskError unit :=
  system_call (fun _ m =>
    match m !! from, m !! to with
    | None, _ => (m, Err NotFound)
    | Some _, Some _ => (m, Err AlreadyExists)
    | Some n, None => (<[to := n]> (delete from m), Ok tt)
    end).
Definition hard_link (from to : bytes) : st Disk DiskError unit :=
  system_call (fun _ m =>
    match m !! from, m !! to with
    | Some (Regular f), None => (<[to := Regular f]> m, Ok tt)
    | _, Some _ => (m, Err AlreadyExists)
    | None, _ => (m, Err NotFound)
    | _, None => (m, Err OtherError)
    end).
Definition symlink_metadata (name : bytes) : st Disk DiskError Metadata :=
  system_call (fun _ m =>
    match m !! name with
    | Some (Regular f) => (m, Ok (metadata_of (link_count f m) f))
    | Some _ => (m, Ok metadata_other)
    | None => (m, Err NotFound)
    end).
(** [open] with [O_NOFOLLOW]: a symbolic link is refused, a directory opens. *)
Definition open_nofollow (name : bytes) : st Disk DiskError node :=
  system_call (fun _ m =>
    match m !! name with
    | Some Special => (m, Err OtherError)
    | Some n => (m, Ok n)
    | None => (m, Err NotFound)
    end).
(** [File::metadata] of an open file. *)
Definition fstat (f : file) : st Disk DiskError Metadata :=
  system_call (fun _ m => (m, Ok (metadata_of (link_count f m) f))).
(** Another call on an open file or on the directory itself: [sync_all],
    [set_permissions], one read, [metadata] for the owner. *)
Definition call : st Disk DiskError unit := system_call (fun _ m => (m, Ok tt)).
Definition sync_directory : st Disk DiskError unit := _ ← call; call.
(** [fetch_add] on the counter. *)
Definition take_number : st Disk DiskError Z := fun d =>
  ({| names := names d; calls := calls d; next_file := (next_file d + 1) mod 2 ^ 64; faults := faults d; fresh := fresh d |},
   Ok (next_file d)).

(** The result of a call whose error is looked at, or ignored. *)
Definition attempt {E A} (m : st Disk DiskError A) : st Disk E (outcome DiskError A) :=
  fun d => let '(d, r) := m d in (d, Ok r).
(** [map_err]. *)
Definition context {E A} (e : E) (m : st Disk DiskError A) : st Disk E A :=
  fun d => let '(d, r) := m d in (d, map_err (fun _ => e) r).
