(* ===== verification/StoreLabels.v ===== *)
(** Labels of renamed, favourite and trashed clips
    (crates/redunar-daemon/src/replay_clip_labels.rs): one registry file holds
    them, each bound to the inode of its clip. *)
From stdpp Require Import gmap strings sorting.
From S2P Require Import Prelude Bytes Text Paths Preferences StoreDisk.
Local Open Scope Z_scope.

Definition CLIP_PREFIX : bytes := ascii_bytes "redunar-replay-".
Definition MATROSKA_SUFFIX : bytes := ascii_bytes ".mkv".
Definition MP4_SUFFIX : bytes := ascii_bytes ".mp4".
Definition LABELS_FILE : bytes := ascii_bytes ".redunar-clip-labels-v1".
Definition LABELS_HEADER : bytes := ascii_bytes "redunar-clip-labels-v1".
Definition TRASH_FILE : bytes := ascii_bytes ".redunar-clip-trash-v1".
Definition MAX_LABEL_BYTES : Z := 2 * 1024 * 1024.
Definition MAX_LABELS : Z := 4096.

(** * Names *)
Definition valid_name (name : bytes) : bool :=
  negb (bytes_eqb name []) && (zlen name <=? 255) && bytes_eqb (trim name) name && negb (starts_with [46] name)
  && negb (any_control name || existsb (fun c => (c =? 47) || (c =? 92)) name)
  && match path_extension name with
     | Some e => bytes_eqb e (ascii_bytes "mkv") || bytes_eqb e (ascii_bytes "mp4")
     | None => false
     end.

Definition is_ascii_digit (b : Z) : bool := (48 <=? b) && (b <=? 57).
(** The three fields of a generated name; [to_str] is [None] for a name that is
    not UTF-8. *)
Definition is_owned_clip_name (name : bytes) : bool :=
  utf8_valid name &&
  match strip_prefix CLIP_PREFIX name with
  | None => false
  | Some prefixed =>
      match (match strip_suffix MATROSKA_SUFFIX prefixed with Some m => Some m | None => strip_suffix MP4_SUFFIX prefixed end) with
      | None => false
      | Some middle =>
          let fields := split_on (Z.eqb 45) middle in
          forallb (fun field => negb (bytes_eqb field []) && forallb is_ascii_digit field) (take 3 fields)
          && match fields !! 3%nat with None => true | Some _ => false end
      end
  end.

(** * Labels *)
Record Label := { original : bytes; favorite : bool; label_dev : Z; label_ino : Z }.
Notation Labels := (gmap bytes Label).
Definition Label_new (original : bytes) (m : Metadata) : Label :=
  {| original := original; favorite := false; label_dev := dev m; label_ino := ino m |}.
Definition label_matches (l : Label) (m : Metadata) : bool :=
  is_file m && (nlink m =? 1) && (label_dev l =? dev m) && (label_ino l =? ino m).

(** * The registry's text *)
Definition invalid : string := "Replay filename metadata is invalid. Recordings have not been changed.".
Fixpoint unhex_chunks (v : bytes) : option bytes :=
  match v with
  | a :: b :: rest => x ← from_str_radix U8_MAX 16 [a; b]; bs ← unhex_chunks rest; Some (x :: bs)
  | _ => Some []
  end.
Definition label_unhex (value : bytes) : option bytes :=
  if negb (Nat.even (length value)) then None
  else bs ← unhex_chunks value; if utf8_valid bs then Some bs else None.

Definition parse_favorite (field : bytes) : option bool :=
  if bytes_eqb field [48] then Some false else if bytes_eqb field [49] then Some true else None.
Definition parse_label (line : bytes) : option (bytes * Label) :=
  match split_on (Z.eqb 9) line with
  | [name; original; label_dev; label_ino; favorite] =>
      name ← label_unhex name;
      original ← label_unhex original;
      if negb (valid_name name) || negb (bool_decide (path_extension name = path_extension original))
         || negb (is_owned_clip_name original) then None
      else
        favorite ← parse_favorite favorite;
        label_dev ← from_str_radix U64_MAX 10 label_dev;
        label_ino ← from_str_radix U64_MAX 10 label_ino;
        Some (name, {| original := original; favorite := favorite; label_dev := label_dev; label_ino := label_ino |})
  | _ => None
  end.
Fixpoint parse_labels (lines : list bytes) (labels : Labels) : option Labels :=
  match lines with
  | [] => Some labels
  | line :: lines =>
      if MAX_LABELS <=? Z.of_nat (size labels) then None
      else
        '(name, label) ← parse_label line;
        match labels !! name with
        | Some _ => None
        | None => parse_labels lines (<[name := label]> labels)
        end
  end.
Definition labels_of_text (text : bytes) : option Labels :=
  match lines text with
  | header :: rest => if bytes_eqb header LABELS_HEADER then parse_labels rest ∅ else None
  | [] => None
  end.

(** A [BTreeMap] is iterated in the order of its keys, byte by byte. *)
Fixpoint bytes_le (a b : bytes) : bool :=
  match a, b with
  | [], _ => true
  | _ :: _, [] => false
  | x :: a, y :: b => (x <? y) || ((x =? y) && bytes_le a b)
  end.
Definition label_le (a b : bytes * Label) : Prop := bytes_le a.1 b.1 = true.
#[global] Instance label_le_dec : RelDecision label_le.
Proof. intros a b. unfold label_le. apply _. Defined.
Definition in_order (labels : Labels) : list (bytes * Label) := merge_sort label_le (map_to_list labels).
Definition label_line (e : bytes * Label) : bytes :=
  hex e.1 ++ 9 :: hex (original e.2) ++ 9 :: to_decimal (label_dev e.2) ++ 9 :: to_decimal (label_ino e.2)
  ++ 9 :: (if favorite e.2 then [49] else [48]) ++ [10].
Definition labels_text (labels : Labels) : bytes := LABELS_HEADER ++ [10] ++ (e ← in_order labels; label_line e).

(** * The registry's file *)
Notation store_op := (st Disk string).

Definition load_from (file_name : bytes) : store_op Labels :=
  r ← attempt (open_nofollow file_name);
  match r with
  | Err NotFound => mret ∅
  | Ok (Regular f) =>
      m ← context "open labels" (fstat f);
      if negb (nlink m =? 1) || (MAX_LABEL_BYTES <? len m) then lift (Err invalid)
      else
        (* [fs::metadata] of the directory, for its owner *)
        _ ← context "open labels" call;
        if negb (uid m =? 0) then lift (Err invalid)
        else
          _ ← context "open labels" call;
          if MAX_LABEL_BYTES <? zlen (f_bytes f) then lift (Err invalid)
          else if negb (utf8_valid (f_bytes f)) then lift (Err "stream did not contain valid UTF-8"%string)
          else lift (ok_or (labels_of_text (f_bytes f)) invalid)
  | Ok _ => _ ← context "open labels" call; lift (Err invalid)
  | _ => lift (Err "open labels"%string)
  end.
Definition labels_load : store_op Labels := load_from LABELS_FILE.
