(* ===== verification/StoreLabelsFacts.v ===== *)
(** The registry of labels: its text reads back as the registry, and whatever is
    read satisfies the rules of names. *)
From stdpp Require Import gmap strings sorting.
From S2P Require Import Prelude Bytes Text Paths Preferences PreferencesFacts StoreDisk StoreLabels.
Local Open Scope Z_scope.

(** * What a registry may hold *)
Record label_valid (name : bytes) (l : Label) : Prop := {
  lv_name : is_bytes name /\ utf8_valid name = true /\ valid_name name = true;
  lv_original : is_bytes (original l) /\ is_owned_clip_name (original l) = true;
  lv_extension : path_extension name = path_extension (original l);
  lv_dev : 0 <= label_dev l <= U64_MAX;
  lv_ino : 0 <= label_ino l <= U64_MAX;
}.
Definition labels_valid (labels : Labels) : Prop := map_Forall label_valid labels /\ Z.of_nat (size labels) <= MAX_LABELS.

Lemma owned_utf8 name : is_owned_clip_name name = true -> utf8_valid name = true.
Proof. unfold is_owned_clip_name. intros H. by apply andb_true_iff in H as [H _]. Qed.

Lemma label_valid_new name l (value : bool) :
  label_valid name l -> label_valid name {| original := original l; favorite := value; label_dev := label_dev l; label_ino := label_ino l |}.
Proof. intros []. by constructor. Qed.

(** * Fields *)
Lemma ascii_forall bs : forallb (fun b => b <? 128) bs = true -> Forall (fun b => b < 128) bs.
Proof. intros H. apply Forall_forall. intros x Hx. rewrite forallb_forall in H. by apply Z.ltb_lt, H, list_elem_of_In. Qed.
Lemma hex_byte b : is_byte b -> from_str_radix U8_MAX 16 [lower_hex (Z.shiftr b 4); lower_hex (Z.land b 15)] = Some b.
Proof.
  intros Hb. destruct (nibbles b Hb) as (H1 & H2 & H3). rewrite Z.shiftr_div_pow2 in * by lia.
  change 15 with (Z.ones 4) in *. rewrite Z.land_ones in * by lia. change (2 ^ 4) with 16 in *.
  pose proof (parse_hex U8_MAX 2 b ltac:(lia)) as Hp. unfold is_byte, U8_MAX in *. cbn [hex_digits app] in Hp.
  rewrite (Z.mod_small (b / 16)) in Hp by lia. apply Hp; [|lia]. change (16 ^ Z.of_nat 2) with 256. lia.
Qed.
Lemma unhex_chunks_hex bs : is_bytes bs -> unhex_chunks (hex bs) = Some bs.
Proof.
  induction 1 as [|b bs Hb _ IH]; [done|]. change (hex (b :: bs)) with (lower_hex (Z.shiftr b 4) :: lower_hex (Z.land b 15) :: hex bs).
  cbn [unhex_chunks]. rewrite hex_byte by done. cbn [mbind option_bind]. by rewrite IH.
Qed.
Lemma hex_even bs : Nat.even (length (hex bs)) = true.
Proof. induction bs as [|b bs IH]; [done|]. exact IH. Qed.
Lemma label_unhex_hex bs : is_bytes bs -> utf8_valid bs = true -> label_unhex (hex bs) = Some bs.
Proof. intros Hb Hu. unfold label_unhex. rewrite hex_even, unhex_chunks_hex by done. cbn. by rewrite Hu. Qed.

(** The characters of a line are hexadecimal digits, decimal digits and tabs. *)
Definition plain (b : Z) : Prop := 48 <= b <= 57 \/ 97 <= b <= 102.
Lemma lower_hex_plain d : 0 <= d < 16 -> plain (lower_hex d).
Proof. unfold plain, lower_hex. intros H. case_if_as E; [apply Z.ltb_lt in E|apply Z.ltb_ge in E]; lia. Qed.
Lemma hex_plain bs : is_bytes bs -> Forall plain (hex bs).
Proof.
  induction 1 as [|b bs Hb _ IH]; [constructor|]. destruct (nibbles b Hb) as (H1 & H2 & _).
  change (hex (b :: bs)) with (lower_hex (Z.shiftr b 4) :: lower_hex (Z.land b 15) :: hex bs).
  constructor; [by apply lower_hex_plain|]. constructor; [by apply lower_hex_plain|done].
Qed.
Lemma decimal_plain x : 0 <= x <= U64_MAX -> Forall plain (to_decimal x).
Proof.
  intros Hx. destruct (to_decimal_of x Hx) as ((ds & _ & _ & _ & H) & _). eapply Forall_impl; [exact H|]. unfold plain. intros. lia.
Qed.
Lemma favorite_plain (b : bool) : Forall plain (if b then [49] else [48]).
Proof. unfold plain. destruct b; constructor; lia || by constructor. Qed.
Lemma plain_tab w : Forall plain w -> Forall (fun c => Z.eqb 9 c = false) w.
Proof. intros H. eapply Forall_impl; [exact H|]. unfold plain. intros x Hx. apply Z.eqb_neq. lia. Qed.
Lemma plain_clean w : Forall plain w -> clean w.
Proof. intros H. eapply Forall_impl; [exact H|]. unfold plain. cbn. intros x Hx. lia. Qed.

(** A line without its newline. *)
Definition label_fields (e : bytes * Label) : bytes :=
  hex e.1 ++ 9 :: hex (original e.2) ++ 9 :: to_decimal (label_dev e.2) ++ 9 :: to_decimal (label_ino e.2)
  ++ 9 :: (if favorite e.2 then [49] else [48]).
Lemma label_line_fields e rest : label_line e ++ rest = label_fields e ++ 10 :: rest.
Proof. unfold label_line, label_fields. rewrite <- !app_assoc. cbn [app]. rewrite <- !app_assoc. cbn [app]. rewrite <- !app_assoc. cbn [app]. rewrite <- !app_assoc. cbn [app]. by rewrite <- !app_assoc. Qed.

Lemma label_fields_clean e : label_valid e.1 e.2 -> clean (label_fields e).
Proof.
  intros [(H1 & _) (H2 & _) _ H3 H4]. unfold label_fields.
  assert (Ht : forall w v, clean w -> clean v -> clean (w ++ 9 :: v)).
  { intros w v Hw Hv. apply Forall_app. split; [done|]. by constructor. }
  repeat apply Ht; apply plain_clean; auto using hex_plain, decimal_plain, favorite_plain.
Qed.

Lemma parse_label_fields e : label_valid e.1 e.2 -> parse_label (label_fields e) = Some e.
Proof.
  intros [(H1 & H1b & H1c) (H2 & H2b) He H3 H4]. destruct e as [name [orig fav ldev lino]]. cbn [fst snd original favorite label_dev label_ino] in *.
  unfold parse_label, label_fields. cbn [fst snd original favorite label_dev label_ino].
  rewrite !split_on_word by (done || (apply plain_tab; auto using hex_plain, decimal_plain)).
  rewrite split_on_none by (apply plain_tab, favorite_plain).
  rewrite !label_unhex_hex by (done || by apply owned_utf8). cbn [mbind option_bind]. rewrite H1c, H2b, bool_decide_true by done. cbn [negb orb].
  assert (parse_favorite (if fav then [49] else [48]) = Some fav) as -> by by destruct fav. cbn [mbind option_bind].
  rewrite (from_decimal U64_MAX (to_decimal ldev) ldev) by (done || by apply to_decimal_of). cbn [mbind option_bind].
  by rewrite (from_decimal U64_MAX (to_decimal lino) lino) by (done || by apply to_decimal_of).
Qed.

(** * The text *)
Lemma parse_labels_lines es labels :
  Forall (fun e => label_valid e.1 e.2) es -> NoDup es.*1 -> (forall e, e ∈ es -> labels !! e.1 = None) ->
  Z.of_nat (size labels) + zlen es <= MAX_LABELS ->
  parse_labels (label_fields <$> es) labels = Some (list_to_map es ∪ labels).
Proof.
  revert labels. induction es as [|e es IH]; intros labels Hv Hn Hd Hs.
  { cbn. by rewrite (left_id_L ∅ (∪)). }
  apply Forall_cons in Hv as [Hv1 Hv]. rewrite fmap_cons in Hn. apply NoDup_cons in Hn as [Hn1 Hn]. rewrite zlen_cons in Hs.
  pose proof (zlen_nonneg es). cbn [fmap list_fmap parse_labels]. rewrite (proj2 (Z.leb_gt _ _)) by lia. rewrite parse_label_fields by done.
  cbn [mbind option_bind]. destruct e as [name label]. cbn [fst] in *.
  assert (H0 : labels !! name = None) by (apply (Hd (name, label)); left). rewrite H0.
  rewrite IH.
  - f_equal. change (list_to_map ((name, label) :: es)) with (<[name := label]> (list_to_map es : Labels)).
    rewrite <- insert_union_l, <- insert_union_r; [done|]. by apply not_elem_of_list_to_map_1.
  - done.
  - done.
  - intros e He. rewrite lookup_insert_ne; [apply Hd; by right|]. intros ->. apply Hn1. apply list_elem_of_fmap. by exists e.
  - rewrite map_size_insert_None by done. lia.
Qed.

Lemma lines_labels es : Forall (fun e => label_valid e.1 e.2) es -> lines (e ← es; label_line e) = label_fields <$> es.
Proof.
  induction 1 as [|e es He _ IH]; [done|]. change (e ← e :: es; label_line e) with (label_line e ++ (e ← es; label_line e)).
  rewrite label_line_fields, lines_cons by by apply label_fields_clean. by rewrite IH.
Qed.

Lemma in_order_perm labels : in_order labels ≡ₚ map_to_list labels.
Proof. apply merge_sort_Permutation. Qed.

Lemma labels_text_reads labels : labels_valid labels -> labels_of_text (labels_text labels) = Some labels.
Proof.
  intros [Hv Hs]. unfold labels_of_text, labels_text.
  assert (Hvl : Forall (fun e => label_valid e.1 e.2) (in_order labels)).
  { rewrite in_order_perm. by apply map_Forall_to_list in Hv; eapply Forall_impl; [exact Hv|]; intros []. }
  change ([10] ++ ?x) with (10 :: x).
  rewrite lines_cons by (unfold clean; repeat constructor; done). rewrite bytes_eqb_refl, lines_labels by done.
  assert (Hn : NoDup (in_order labels).*1) by (rewrite in_order_perm; apply NoDup_fst_map_to_list).
  rewrite parse_labels_lines; [|done|done|done|].
  - rewrite (right_id_L ∅ (∪)). f_equal. rewrite (list_to_map_proper _ (map_to_list labels)); [apply list_to_map_to_list|done|apply in_order_perm].
  - unfold zlen. rewrite in_order_perm, length_map_to_list. rewrite map_size_empty. lia.
Qed.

(** * What is read *)
Lemma unhex_chunks_bytes n v bs : (length v <= n)%nat -> unhex_chunks v = Some bs -> is_bytes bs.
Proof.
  revert v bs. induction n as [|n IH]; intros v bs Hl.
  - destruct v; [|cbn in Hl; lia]. cbn. intros [= <-]. constructor.
  - destruct v as [|a [|b v]]; [cbn; intros [= <-]; constructor..|]. cbn [unhex_chunks].
    destruct (from_str_radix U8_MAX 16 [a; b]) as [x|] eqn:Ex; [|done]. cbn [mbind option_bind].
    destruct (unhex_chunks v) as [xs|] eqn:Ev; [|done]. cbn. intros [= <-]. constructor; [|by apply (IH v); [cbn in Hl; lia|]].
    apply from_str_radix_range in Ex; [done|unfold U8_MAX; lia|lia].
Qed.
Lemma label_unhex_ok v bs : label_unhex v = Some bs -> is_bytes bs /\ utf8_valid bs = true.
Proof.
  unfold label_unhex. case_if_as E; [done|]. destruct (unhex_chunks v) as [xs|] eqn:Ev; [|done]. cbn. case_if_as E'; [|done].
  intros [= <-]. split; [by apply (unhex_chunks_bytes (length v) v)|done].
Qed.
Lemma parse_label_valid line name l : parse_label line = Some (name, l) -> label_valid name l.
Proof.
  unfold parse_label. destruct (split_on (Z.eqb 9) line) as [|f1 [|f2 [|f3 [|f4 [|f5 [|]]]]]]; try done.
  destruct (label_unhex f1) as [n|] eqn:E1; [|done]. destruct (label_unhex f2) as [o|] eqn:E2; [|done]. cbn [mbind option_bind].
  destruct (negb _ || _ || _) eqn:E3; [done|]. destruct (parse_favorite f5) as [fav|]; [|done]. cbn [mbind option_bind].
  destruct (from_str_radix U64_MAX 10 f3) as [d|] eqn:E4; [|done]. cbn [mbind option_bind].
  destruct (from_str_radix U64_MAX 10 f4) as [i|] eqn:E5; [|done]. cbn [mbind option_bind]. intros [= <- <-].
  apply orb_false_iff in E3 as [E3 E3c]. apply orb_false_iff in E3 as [E3a E3b]. apply negb_false_iff in E3a, E3b, E3c.
  apply bool_decide_eq_true in E3b. destruct (label_unhex_ok _ _ E1), (label_unhex_ok _ _ E2).
  apply from_str_radix_range in E4, E5; try (unfold U64_MAX; lia). by constructor.
Qed.
Lemma parse_labels_valid ls labels labels' :
  labels_valid labels -> parse_labels ls labels = Some labels' -> labels_valid labels'.
Proof.
  revert labels. induction ls as [|l ls IH]; intros labels Hv; cbn [parse_labels]; [by intros [= <-]|].
  destruct (Z.leb_spec MAX_LABELS (Z.of_nat (size labels))) as [|Hlt]; [done|].
  destruct (parse_label l) as [[name label]|] eqn:El; [|done]. cbn [mbind option_bind].
  destruct (labels !! name) eqn:En; [done|]. apply IH. destruct Hv as [H1 H2]. split.
  - apply map_Forall_insert_2; [|done]. by eapply parse_label_valid.
  - rewrite map_size_insert_None by done. lia.
Qed.
Lemma labels_valid_empty : labels_valid ∅.
Proof. split; [apply map_Forall_empty|]. rewrite map_size_empty. unfold MAX_LABELS. lia. Qed.
Lemma labels_of_text_valid text labels : labels_of_text text = Some labels -> labels_valid labels.
Proof.
  unfold labels_of_text. destruct (lines text) as [|h rest]; [done|]. case_if_as E; [|done]. apply parse_labels_valid, labels_valid_empty.
Qed.

(** A registry of labels reads back as it was written: whatever the clips are
    called (renamed to any valid name, with their generated name, device, inode
    and flag), parsing the text gives the same labels. *)
Theorem labels_roundtrip labels : labels_valid labels -> labels_of_text (labels_text labels) = Some labels.
Proof. apply labels_text_reads. Qed.
Module Sample.
Definition label : Label := {| original := ascii_bytes "redunar-replay-10-000000000-1.mkv"; favorite := true; label_dev := 1; label_ino := 2 |}.
(** A clip renamed to "Ace.mkv". *)
Lemma labels_roundtrip_witness : labels_of_text (labels_text {[ ascii_bytes "Ace.mkv" := label ]}) = Some {[ ascii_bytes "Ace.mkv" := label ]}.
Proof.
  apply labels_roundtrip. split; [|vm_compute; discriminate]. apply map_Forall_singleton.
  constructor; vm_compute; repeat split; repeat constructor; discriminate.
Defined.
End Sample.
