(* ===== verification/Store.v ===== *)
(** The clip store (crates/redunar-daemon/src/replay_store.rs, with
    replay_store/trash.rs, thumbnails.rs and named_export.rs): which files are
    clips, saving, renaming, labels, the bin, deletion and the quota. *)
From stdpp Require Import gmap strings sorting.
From S2P Require Import Prelude Bytes Text Arith Paths Preferences StoreDisk StoreLabels.
Local Open Scope Z_scope.

Definition STORE_MARKER : bytes := ascii_bytes ".redunar-replay-store-v1".
Definition STORE_MARKER_CONTENTS : bytes := ascii_bytes "redunar-replay-store-v1" ++ [10].
Definition MATROSKA_MAGIC : bytes := [0x1a; 0x45; 0xdf; 0xa3].
Definition MP4_FILE_TYPE_BOX : bytes := ascii_bytes "ftyp".
Definition MAX_DIRECTORY_ENTRIES : Z := 4096.
Definition MINIMUM_FILESYSTEM_RESERVE_BYTES : Z := 512 * 1024 * 1024.
Definition ARCHIVE : bytes := ascii_bytes "original".
Definition THUMBNAILS : bytes := ascii_bytes ".redunar-thumbnails-v1".

Record ReplayClipStore := { maximum_clip_bytes : Z; storage_limit_bytes : Z }.
Record StoredReplayClip := {
  stored_path : bytes;
  stored_bytes : Z;
  clips_removed_for_quota : Z;
  bytes_removed_for_quota : Z;
}.
(** [modified] in nanoseconds of the Unix clock. *)
Record OwnedClip := {
  clip_path : bytes;
  clip_bytes : Z;
  modified : Z;
  original_file_name : bytes;
  clip_favorite : bool;
  trashed : bool;
}.
Record ReplayClipEntry := {
  entry_file_name : bytes;
  entry_bytes : Z;
  modified_unix_ns : Z;
  entry_original : bytes;
  entry_favorite : bool;
}.
Definition modified_of (m : Metadata) : Z := mtime m * 1000000000 + mtime_nsec m.

(** * The directory of a store *)
Definition temporary_name (pid id : Z) : bytes :=
  ascii_bytes ".redunar-replay-" ++ to_decimal pid ++ 45 :: to_decimal id ++ ascii_bytes ".tmp".
Fixpoint create_temporary_loop (tries : nat) (pid : Z) : store_op bytes :=
  match tries with
  | O => lift (Err "could not allocate a replay temporary file"%string)
  | S tries =>
      id ← context "NEXT_FILE" take_number;
      let path := temporary_name pid id in
      r ← attempt (create_new path);
      match r with
      | Ok _ => mret path
      | Err AlreadyExists => create_temporary_loop tries pid
      | _ => lift (Err "could not create replay temporary file"%string)
      end
  end.
Definition create_temporary (pid : Z) : store_op bytes := create_temporary_loop 32 pid.

Definition validate_store : store_op unit :=
  (* the directory itself is there and a directory *)
  _ ← context "could not inspect replay store directory" call;
  m ← context "could not inspect replay ownership marker" (symlink_metadata STORE_MARKER);
  if negb (is_file m) || negb (len m =? zlen STORE_MARKER_CONTENTS)
  then lift (Err "replay ownership marker is invalid"%string)
  else
    n ← context "could not read replay ownership marker" (open_nofollow STORE_MARKER);
    _ ← context "could not read replay ownership marker" call;
    match n with
    | Regular f =>
        if bytes_eqb (take 128 (f_bytes f)) STORE_MARKER_CONTENTS then mret tt
        else lift (Err "replay ownership marker is invalid"%string)
    | _ => lift (Err "could not read replay ownership marker"%string)
    end.

(** ** Writing the registry *)
Definition or_remove {A} (temporary : bytes) (m : store_op A) : store_op A := fun d =>
  match m d with
  | (d, Ok a) => (d, Ok a)
  | (d, r) => ((attempt (E := string) (remove_file temporary) d).1, r)
  end.
Definition save_to (pid : Z) (file_name : bytes) (labels : Labels) : store_op unit :=
  if MAX_LABELS <? Z.of_nat (size labels) then lift (Err invalid)
  else
    let text := labels_text labels in
    if MAX_LABEL_BYTES <? zlen text then lift (Err invalid)
    else
      temporary ← create_temporary pid;
      or_remove temporary
        (_ ← context "labels" (append temporary text);
         _ ← context "labels" call;
         _ ← context "labels" (rename temporary file_name);
         context "labels" sync_directory).
Definition labels_save (pid : Z) (labels : Labels) : store_op unit := save_to pid LABELS_FILE labels.
(** [retain], one name after another; a clip that cannot be inspected is taken
    for gone. *)
Fixpoint prune_each (entries : list (bytes * Label)) (labels : Labels) : store_op Labels :=
  match entries with
  | [] => mret labels
  | (name, label) :: entries =>
      r ← attempt (symlink_metadata name);
      let keep := match r with Ok m => label_matches label m | _ => false end in
      prune_each entries (if (keep : bool) then labels else delete name labels)
  end.
Definition prune (labels : Labels) : store_op Labels := prune_each (in_order labels) labels.

(** ** Which files are clips *)
Definition owned_metadata (name : bytes) : store_op (Metadata * Label) :=
  if negb (valid_name name) then lift (Err "Invalid replay clip identifier"%string)
  else
    m ← context "the clip is unavailable" (symlink_metadata name);
    if negb (is_file m) || negb (nlink m =? 1) then lift (Err "The clip is not an owned regular video file"%string)
    else
      registry ← labels_load;
      match registry !! name with
      | Some label =>
          if label_matches label m then mret (m, label)
          else if is_owned_clip_name name then mret (m, Label_new name m)
          else lift (Err "The file is not in Redunar's owned replay inventory"%string)
      | None =>
          if is_owned_clip_name name then mret (m, Label_new name m)
          else lift (Err "The file is not in Redunar's owned replay inventory"%string)
      end.

(** One entry of the directory; its name is empty when it is not UTF-8. *)
Definition scan_entry (trash labels : Labels) (file_name : bytes) : store_op (option OwnedClip) :=
  let name := if utf8_valid file_name then file_name else [] in
  if negb (is_owned_clip_name file_name) && negb (bool_decide (is_Some (labels !! name))) then mret None
  else
    m ← context "could not inspect replay clip" (symlink_metadata file_name);
    if negb (is_file m && (nlink m =? 1)) then mret None
    else
      let label := match labels !! name with Some l => if label_matches l m then Some l else None | None => None end in
      if negb (is_owned_clip_name file_name) && negb (bool_decide (is_Some label)) then mret None
      else
        mret (Some {|
          clip_path := file_name;
          clip_bytes := len m;
          modified := modified_of m;
          original_file_name := match label with Some l => original l | None => name end;
          clip_favorite := match label with Some l => favorite l | None => false end;
          trashed := match trash !! name with Some l => label_matches l m | None => false end |}).
(** [read_dir]: each step of it may fail. *)
Fixpoint scan_entries (trash labels : Labels) (index : Z) (entries : list bytes) (clips : list OwnedClip) : store_op (list OwnedClip) :=
  match entries with
  | [] => _ ← context "could not scan replay store" call; mret clips
  | file_name :: entries =>
      if MAX_DIRECTORY_ENTRIES <=? index then lift (Err "replay store contains too many directory entries"%string)
      else
        _ ← context "could not scan replay store" call;
        clip ← scan_entry trash labels file_name;
        scan_entries trash labels (index + 1) entries (clips ++ option_list clip)
  end.
Definition list_names : store_op (list bytes) := fun d => (d, Ok ((map_to_list (names d)).*1)).
Definition scan_owned_clips : store_op (list OwnedClip) :=
  trash ← load_from TRASH_FILE;
  labels ← labels_load;
  _ ← context "could not scan replay store" call;
  entries ← list_names;
  scan_entries trash labels 0 entries [].

(** ** Thumbnails *)
(** [{:x}] of a u64, or of an i64 as its two's complement. *)
Fixpoint hex_from (fuel : nat) (x : Z) (acc : bytes) : bytes :=
  match fuel with
  | O => acc
  | S fuel =>
      let acc := lower_hex (x mod 16) :: acc in
      if x / 16 =? 0 then acc else hex_from fuel (x / 16) acc
  end.
Definition to_hex (x : Z) : bytes := hex_from 16 (x mod 2 ^ 64) [].
Definition thumbnail_prefix (m : Metadata) : bytes := to_hex (dev m) ++ 45 :: to_hex (ino m) ++ [45].
Definition thumbnail_key (m : Metadata) : bytes :=
  thumbnail_prefix m ++ to_hex (len m) ++ 45 :: to_hex (mtime m) ++ 45 :: to_hex (mtime_nsec m) ++ ascii_bytes ".jpg".
Definition is_ascii_hexdigit (b : Z) : bool := bool_decide (is_Some (to_digit 16 b)).
Definition thumbnail_valid_name (name : bytes) : bool :=
  match strip_suffix (ascii_bytes ".jpg") name with
  | Some stem =>
      let parts := split_on (Z.eqb 45) stem in
      (length parts =? 5)%nat && forallb (fun part => negb (bytes_eqb part []) && forallb is_ascii_hexdigit part) parts
  | None => false
  end.
Definition thumbnail_listed (name : bytes) : bool :=
  thumbnail_valid_name name || match strip_suffix (ascii_bytes ".tmp") name with Some n => thumbnail_valid_name n | None => false end.
(** The file names that [entries] answers: each is inspected. *)
Fixpoint thumbnail_entries (index : Z) (children : list bytes) (found : list bytes) : st Disk DiskError (list bytes) :=
  match children with
  | [] => _ ← call; mret found
  | name :: children =>
      if MAX_DIRECTORY_ENTRIES <=? index then lift (Err OtherError)
      else
        _ ← call;
        if thumbnail_listed name then _ ← call; thumbnail_entries (index + 1) children (found ++ [name])
        else thumbnail_entries (index + 1) children found
  end.
(** [remove_file] of a name below the thumbnails. *)
Definition remove_thumbnail (name : bytes) : st Disk DiskError unit :=
  system_call (fun _ m =>
    match m !! THUMBNAILS with
    | Some (Subdirectory private children) =>
        if bool_decide (is_Some (children !! name)) then (<[THUMBNAILS := Subdirectory private (delete name children)]> m, Ok tt)
        else (m, Err NotFound)
    | _ => (m, Err NotFound)
    end).
Fixpoint remove_each (prefix : bytes) (children : list bytes) : st Disk DiskError unit :=
  match children with
  | [] => mret tt
  | name :: children =>
      _ ← (if starts_with prefix name then remove_thumbnail name else mret tt);
      remove_each prefix children
  end.
(** [Directory::open]; the directory is only read when its owner and mode fit. *)
Definition open_thumbnails : st Disk DiskError (option (gmap bytes child)) :=
  r ← attempt (open_nofollow THUMBNAILS);
  match r with
  | Err NotFound => mret None
  | Ok (Subdirectory private children) =>
      _ ← call;
      _ ← call;
      if negb private then lift (Err OtherError) else mret (Some children)
  | _ => lift (Err OtherError)
  end.
Definition thumbnails_cleanup (m : Metadata) : st Disk DiskError unit :=
  r ← open_thumbnails;
  match r with
  | None => mret tt
  | Some children =>
      _ ← call;
      found ← thumbnail_entries 0 (map_to_list children).*1 [];
      _ ← remove_each (thumbnail_prefix m) found;
      call
  end.
Definition thumbnails_remove (m : Metadata) : store_op unit :=
  context "could not clear clip thumbnail cache; recording retained" (thumbnails_cleanup m).

(** * Reading the store *)
(** [u64::checked_add] over all clips. *)
Fixpoint sum_checked (sizes : list Z) (total : Z) : option Z :=
  match sizes with
  | [] => Some total
  | n :: sizes => total ← checked_add U64_MAX total n; sum_checked sizes total
  end.
Definition used_bytes_of (clips : list OwnedClip) : store_op Z :=
  lift (ok_or (sum_checked (map clip_bytes clips) 0) "replay store size overflows"%string).

(** Newest first; of two modified at once, the greater name. *)
Definition newer (a b : OwnedClip) : Prop :=
  modified b < modified a \/ (modified a = modified b /\ bytes_le (clip_path b) (clip_path a) = true).
#[global] Instance newer_dec : RelDecision newer.
Proof. intros a b. unfold newer. apply _. Defined.
Definition entry_of (c : OwnedClip) : outcome string ReplayClipEntry :=
  if utf8_valid (clip_path c)
  then Ok {| entry_file_name := clip_path c; entry_bytes := clip_bytes c; modified_unix_ns := Z.max 0 (modified c);
             entry_original := original_file_name c; entry_favorite := clip_favorite c |}
  else Err "replay clip name is invalid"%string.
Fixpoint collect {E A B} (f : A -> outcome E B) (l : list A) : outcome E (list B) :=
  match l with
  | [] => Ok []
  | x :: l => y ← f x; ys ← collect f l; Ok (y :: ys)
  end.
Definition inventory_state (in_bin : bool) : store_op (list ReplayClipEntry) :=
  _ ← validate_store;
  clips ← scan_owned_clips;
  lift (collect entry_of (List.filter (fun c => Bool.eqb (trashed c) in_bin) (merge_sort newer clips))).
Definition inventory : store_op (list ReplayClipEntry) := inventory_state false.
Definition trash_inventory : store_op (list ReplayClipEntry) := inventory_state true.

Definition has_required_free_space (available expected_clip_bytes : Z) : bool :=
  match checked_add U64_MAX expected_clip_bytes MINIMUM_FILESYSTEM_RESERVE_BYTES with
  | Some required => required <=? available
  | None => false
  end.
(** [statvfs] answers blocks and fragment size, or fails. *)
Definition ensure_filesystem_space (statvfs : option (Z * Z)) (expected_clip_bytes : Z) : store_op unit :=
  _ ← validate_store;
  '(blocks, fragment) ← lift (ok_or statvfs "could not inspect free space for Replay clips"%string);
  if has_required_free_space (sat_mul U64_MAX blocks fragment) expected_clip_bytes then mret tt
  else lift (Err "not enough free space to save Replay while preserving the 512 MiB safety reserve"%string).
Definition ensure_free_space (s : ReplayClipStore) (statvfs : option (Z * Z)) (expected_clip_bytes : Z) : store_op unit :=
  if (expected_clip_bytes =? 0) || (maximum_clip_bytes s <? expected_clip_bytes)
  then lift (Err "replay free-space request exceeds the configured clip budget"%string)
  else ensure_filesystem_space statvfs expected_clip_bytes.
Definition ensure_free_space_for_clip (s : ReplayClipStore) (statvfs : option (Z * Z)) : store_op unit :=
  ensure_free_space s statvfs (maximum_clip_bytes s).

(** * Opening a store *)
Definition validate_store_configuration (directory_is_absolute : bool) (s : ReplayClipStore) : outcome string unit :=
  if negb directory_is_absolute then Err "replay store directory must be absolute"%string
  else if (maximum_clip_bytes s =? 0) || (storage_limit_bytes s =? 0) || (storage_limit_bytes s <? maximum_clip_bytes s)
  then Err "replay store budget is invalid"%string else Ok tt.
Definition write_marker (pid : Z) : store_op unit :=
  temporary ← create_temporary pid;
  or_remove temporary
    (_ ← context "could not create replay ownership marker" (append temporary STORE_MARKER_CONTENTS);
     _ ← context "could not create replay ownership marker" call;
     _ ← context "could not create replay ownership marker" (hard_link temporary STORE_MARKER);
     _ ← context "could not create replay ownership marker" (remove_file temporary);
     context "could not create replay ownership marker" sync_directory).
Definition directory_has_entries : store_op bool :=
  _ ← context "could not inspect replay store contents" call;
  _ ← context "could not inspect replay store contents" call;
  entries ← list_names;
  mret (negb (bool_decide (entries = []))).
(** The directory is there (or was created) and is a directory. *)
Definition initialize_store (pid : Z) : store_op unit :=
  _ ← context "could not inspect replay store directory" call;
  _ ← context "could not secure replay store directory" call;
  r ← attempt (symlink_metadata STORE_MARKER);
  match r with
  | Ok _ => validate_store
  | Err NotFound =>
      occupied ← directory_has_entries;
      if (occupied : bool)
      then lift (Err "refusing to claim a non-empty replay directory without Redunar's ownership marker"%string)
      else _ ← write_marker pid; validate_store
  | _ => lift (Err "could not inspect replay ownership marker"%string)
  end.

(** * Labels and the bin *)
Definition require_live (name : bytes) (m : Metadata) : store_op unit :=
  bin ← load_from TRASH_FILE;
  if match bin !! name with Some l => label_matches l m | None => false end
  then lift (Err "Restore the clip from the trash bin first"%string) else mret tt.

Definition rename_clip (pid : Z) (file_name new_name : bytes) : store_op unit :=
  if negb (valid_name new_name) || (is_owned_clip_name new_name && negb (bytes_eqb new_name file_name))
     || negb (bool_decide (path_extension file_name = path_extension new_name))
  then lift (Err "Use a valid filename and retain the original video type"%string)
  else
    _ ← validate_store;
    '(metadata, label) ← owned_metadata file_name;
    _ ← require_live file_name metadata;
    if bytes_eqb file_name new_name then mret tt
    else
      r ← attempt (symlink_metadata new_name);
      match r with
      | Ok _ => lift (Err "A clip with that filename already exists"%string)
      | _ =>
          registry ← labels_load;
          registry ← prune registry;
          _ ← labels_save pid (<[new_name := label]> registry);
          current ← context "clip changed before rename" (symlink_metadata file_name);
          if negb (is_file current) || negb (nlink current =? 1)
             || negb ((dev current =? dev metadata) && (ino current =? ino metadata))
          then lift (Err "The clip changed. Reload before renaming it."%string)
          else
            _ ← context "could not rename replay clip" (rename_noreplace file_name new_name);
            context "could not flush renamed replay clip" sync_directory
      end.

Definition set_favorite (pid : Z) (file_name : bytes) (value : bool) : store_op unit :=
  _ ← validate_store;
  '(metadata, label) ← owned_metadata file_name;
  _ ← require_live file_name metadata;
  registry ← labels_load;
  registry ← prune registry;
  labels_save pid (<[file_name := {| original := original label; favorite := value;
                                     label_dev := label_dev label; label_ino := label_ino label |}]> registry).

Definition set_trashed (pid : Z) (file_name : bytes) (in_bin : bool) : store_op unit :=
  _ ← validate_store;
  '(metadata, label) ← owned_metadata file_name;
  bin ← load_from TRASH_FILE;
  if Bool.eqb (match bin !! file_name with Some l => label_matches l metadata | None => false end) in_bin then mret tt
  else
    bin ← prune bin;
    save_to pid TRASH_FILE (if in_bin then <[file_name := label]> bin else delete file_name bin).

(** * Removing and archiving *)
Definition delete_clip (file_name : bytes) : store_op ReplayClipEntry :=
  _ ← validate_store;
  '(metadata, label) ← owned_metadata file_name;
  if negb (is_file metadata) then lift (Err "replay clip deletion target is not a regular file"%string)
  else
    _ ← thumbnails_remove metadata;
    _ ← context "could not delete Redunar replay clip" (remove_file file_name);
    _ ← context "could not flush replay clip deletion" sync_directory;
    mret {| entry_file_name := file_name; entry_bytes := len metadata; modified_unix_ns := Z.max 0 (modified_of metadata);
            entry_original := original label; entry_favorite := favorite label |}.

(** [rename] into the archive, whose destination was found to be free. *)
Definition rename_to_archive (name : bytes) : st Disk DiskError unit :=
  system_call (fun _ m =>
    match m !! name, m !! ARCHIVE with
    | Some n, Some (Subdirectory private children) =>
        (<[ARCHIVE := Subdirectory private (<[name := match n with Regular f => ChildFile f | _ => ChildOther 0 end]> children)]> (delete name m), Ok tt)
    | _, _ => (m, Err NotFound)
    end).
Definition create_archive : st Disk DiskError unit :=
  system_call (fun _ m =>
    match m !! ARCHIVE with Some _ => (m, Err AlreadyExists) | None => (<[ARCHIVE := Subdirectory false ∅]> m, Ok tt) end).
Definition make_private (name : bytes) : st Disk DiskError unit :=
  system_call (fun _ m =>
    (alter (fun n => match n with Subdirectory _ children => Subdirectory true children | n => n end) name m, Ok tt)).
Definition archived (name : bytes) : st Disk DiskError Metadata :=
  system_call (fun _ m =>
    match m !! ARCHIVE with
    | Some (Subdirectory _ children) => (m, if bool_decide (is_Some (children !! name)) then Ok metadata_other else Err NotFound)
    | _ => (m, Err NotFound)
    end).
Definition inspect_archive : st Disk DiskError node :=
  system_call (fun _ m => match m !! ARCHIVE with Some n => (m, Ok n) | None => (m, Err NotFound) end).
Definition archive_clip (file_name : bytes) : store_op bytes :=
  _ ← validate_store;
  '(metadata, _) ← owned_metadata file_name;
  if negb (is_file metadata) then lift (Err "replay archive source is not a regular file"%string)
  else
    r ← attempt inspect_archive;
    _ ← match r with
        | Ok (Subdirectory private _) =>
            if private then mret tt else context "could not secure replay original archive" (make_private ARCHIVE)
        | Ok _ => lift (Err "replay original archive is not a regular directory"%string)
        | Err NotFound =>
            _ ← context "could not create replay original archive" create_archive;
            context "could not secure replay original archive" (make_private ARCHIVE)
        | _ => lift (Err "could not inspect replay original archive"%string)
        end;
    r ← attempt (archived file_name);
    match r with
    | Ok _ => lift (Err "an archived original with that name already exists"%string)
    | Err NotFound =>
        _ ← context "could not archive original replay clip" (rename_to_archive file_name);
        _ ← context "could not flush replay original archive" (_ ← sync_directory; sync_directory);
        mret (ARCHIVE ++ 47 :: file_name)
    | _ => lift (Err "could not inspect archived replay destination"%string)
    end.

(** * The quota *)
(** The protected clip last, then oldest first, then by name. *)
Definition evicted_before (protected : option bytes) (a b : OwnedClip) : Prop :=
  let kept c := bool_decide (protected = Some (clip_path c)) in
  (kept a = false /\ kept b = true) \/
  (kept a = kept b /\ (modified a < modified b \/ (modified a = modified b /\ bytes_le (clip_path a) (clip_path b) = true))).
#[global] Instance evicted_before_dec protected : RelDecision (evicted_before protected).
Proof. intros a b. unfold evicted_before. apply _. Defined.
Fixpoint evict_clips (limit : Z) (clips : list OwnedClip) (total removed removed_bytes : Z) : store_op (Z * Z) :=
  match clips with
  | [] => mret (removed, removed_bytes)
  | clip :: clips =>
      if total <=? limit then mret (removed, removed_bytes)
      else
        m ← context "could not inspect old replay clip" (symlink_metadata (clip_path clip));
        _ ← thumbnails_remove m;
        _ ← context "could not remove an old Redunar replay clip" (remove_file (clip_path clip));
        evict_clips limit clips (sat_sub total (clip_bytes clip)) (sat_add U32_MAX removed 1)
          (sat_add U64_MAX removed_bytes (clip_bytes clip))
  end.
Definition enforce_quota (clips : list OwnedClip) (limit : Z) (protected : option bytes) : store_op (Z * Z) :=
  let clips := merge_sort (evicted_before protected) clips in
  total ← used_bytes_of clips;
  '(removed, removed_bytes) ← evict_clips limit clips total 0 0;
  _ ← (if 0 <? removed then context "could not flush replay quota cleanup" sync_directory else mret tt);
  mret (removed, removed_bytes).
(** [ReplayClipStore::enforce_quota]. *)
Definition enforce_store_quota (s : ReplayClipStore) : store_op (Z * Z) :=
  _ ← validate_store;
  owned ← scan_owned_clips;
  enforce_quota owned (storage_limit_bytes s) None.

(** * Saving *)
(** [write_bounded_matroska] and [write_bounded_mp4]: [header] is what
    [read_exact] answers, [reads] what each [read] answers, the last one nothing. *)
Fixpoint copy_bounded (limit : Z) (temporary : bytes) (reads : list (option bytes)) (total : Z) : store_op Z :=
  match reads with
  | [] => mret total
  | None :: _ => lift (Err "could not read replay container"%string)
  | Some chunk :: reads =>
      if zlen chunk =? 0 then mret total
      else
        match checked_add U64_MAX total (zlen chunk) with
        | None => lift (Err "replay container size overflows"%string)
        | Some total =>
            if limit <? total then lift (Err "replay container exceeds its configured byte budget"%string)
            else
              _ ← context "could not write replay temporary file" (append temporary chunk);
              copy_bounded limit temporary reads total
        end
  end.
Definition write_bounded_export (format : ReplayOutputFormat) (maximum_clip_bytes storage_limit_bytes : Z)
    (header : option bytes) (reads : list (option bytes)) (temporary : bytes) : store_op Z :=
  match header with
  | None => lift (Err "replay container is truncated"%string)
  | Some magic =>
      if negb (match format with
               | Matroska => bytes_eqb magic MATROSKA_MAGIC
               | Mp4 => bytes_eqb (drop 4 magic) MP4_FILE_TYPE_BOX
               end) then lift (Err "replay container has another type"%string)
      else
        _ ← context "could not write replay temporary file" (append temporary magic);
        copy_bounded (Z.min maximum_clip_bytes storage_limit_bytes) temporary reads (zlen magic)
  end.

(** [BoundedClipWriter] under a muxer: the chunks the muxer writes, and its own
    verdict after the last one. *)
Fixpoint write_muxed (limit : Z) (chunks : list bytes) (verdict : outcome string unit) (written : Z) (temporary : bytes) : store_op Z :=
  match chunks with
  | [] => _ ← lift verdict; mret written
  | chunk :: chunks =>
      if limit <? sat_add U64_MAX written (zlen chunk) then lift (Err "replay container exceeds its configured byte budget"%string)
      else
        _ ← context "could not finalize replay" (append temporary chunk);
        write_muxed limit chunks verdict (sat_add U64_MAX written (zlen chunk)) temporary
  end.

Definition padded_nanoseconds (n : Z) : bytes := replicate (9 - length (to_decimal n)) 48 ++ to_decimal n.
Definition clip_name (now : Z * Z) (id : Z) (extension : bytes) : bytes :=
  CLIP_PREFIX ++ to_decimal now.1 ++ 45 :: padded_nanoseconds now.2 ++ 45 :: to_decimal id ++ 46 :: extension.
Fixpoint commit_loop (tries : nat) (now : Z * Z) (temporary extension : bytes) : store_op bytes :=
  match tries with
  | O => lift (Err "could not allocate a replay clip name"%string)
  | S tries =>
      id ← context "NEXT_FILE" take_number;
      let path := clip_name now id extension in
      r ← attempt (hard_link temporary path);
      match r with
      | Ok _ =>
          _ ← context "replay clip committed but temporary link removal failed" (remove_file temporary);
          mret path
      | Err AlreadyExists => commit_loop tries now temporary extension
      | _ => lift (Err "could not commit replay clip"%string)
      end
  end.
(** [now] is the wall clock, unless it is before the Unix epoch. *)
Definition commit_temporary (now : option (Z * Z)) (temporary extension : bytes) : store_op bytes :=
  now ← lift (ok_or now "system clock is before the Unix epoch"%string);
  commit_loop 32 now temporary extension.

(** [save_generated] holds the lock of the store twice: to create the temporary
    file, which is written in between, and to commit it. *)
Definition save_begin (pid : Z) : store_op bytes := _ ← validate_store; create_temporary pid.
Definition save_write (write_clip : bytes -> store_op Z) (temporary : bytes) : store_op Z :=
  or_remove temporary (write_clip temporary).
Definition save_checks (s : ReplayClipStore) (preserve_existing : bool) (size : Z) : store_op (list OwnedClip) :=
  _ ← validate_store;
  owned ← scan_owned_clips;
  if preserve_existing then
    used ← used_bytes_of owned;
    if match checked_add U64_MAX used size with Some total => storage_limit_bytes s <? total | None => true end
    then lift (Err "trimmed clip does not fit without removing an existing replay"%string)
    else mret owned
  else mret owned.
Definition save_commit (s : ReplayClipStore) (format : ReplayOutputFormat) (preserve_existing : bool) (now : option (Z * Z))
    (temporary : bytes) (size : Z) : store_op StoredReplayClip :=
  '(owned, destination) ← or_remove temporary
    (owned ← save_checks s preserve_existing size;
     _ ← context "could not flush replay temporary file" call;
     destination ← commit_temporary now temporary (extension format);
     mret (owned, destination));
  _ ← context "replay clip committed but directory flush failed" sync_directory;
  m ← context "could not inspect committed replay clip" (symlink_metadata destination);
  let generated := {| clip_path := destination; clip_bytes := size; modified := modified_of m;
                      original_file_name := destination; clip_favorite := false; trashed := false |} in
  '(removed, removed_bytes) ←
    (if preserve_existing then mret (0, 0)
     else enforce_quota (owned ++ [generated]) (storage_limit_bytes s) (Some destination));
  mret {| stored_path := destination; stored_bytes := size; clips_removed_for_quota := removed;
          bytes_removed_for_quota := removed_bytes |}.

(** ** Named exports *)
Definition file_metadata (name : bytes) : st Disk DiskError Metadata :=
  system_call (fun _ m =>
    match m !! name with Some (Regular f) => (m, Ok (metadata_of (link_count f m) f)) | _ => (m, Err NotFound) end).
Definition name_taken (name : bytes) : store_op unit :=
  r ← attempt (symlink_metadata name);
  match r with Ok _ => lift (Err "A clip with that filename already exists"%string) | _ => mret tt end.
Definition export_name (stem : bytes) (format : ReplayOutputFormat) : bytes := stem ++ 46 :: extension format.
Definition export_begin (pid : Z) (stem : bytes) (format : ReplayOutputFormat) : store_op bytes :=
  let name := export_name stem format in
  if bytes_eqb stem [] || negb (bytes_eqb (trim stem) stem) || (200 <? zlen stem) || negb (valid_name name) || is_owned_clip_name name
  then lift (Err "Use a valid export filename"%string)
  else
    _ ← validate_store;
    _ ← name_taken name;
    create_temporary pid.
(** The second closure of [save_named_export_with_limit] after the bytes are
    written; the temporary path is removed whatever it answers. *)
Definition export_commit (s : ReplayClipStore) (pid : Z) (stem : bytes) (format : ReplayOutputFormat) (now : option (Z * Z))
    (temporary : bytes) (size : Z) : store_op StoredReplayClip :=
  let name := export_name stem format in
  _ ← context "could not flush export" call;
  _ ← validate_store;
  owned ← scan_owned_clips;
  used ← used_bytes_of owned;
  if match checked_add U64_MAX used size with Some total => storage_limit_bytes s <? total | None => true end
  then lift (Err "exported clip does not fit without removing an existing replay"%string)
  else
    now ← lift (ok_or now "system clock is before the Unix epoch"%string);
    id ← context "NEXT_FILE" take_number;
    m ← context "could not inspect export" (file_metadata temporary);
    registry ← labels_load;
    registry ← prune registry;
    _ ← name_taken name;
    _ ← labels_save pid (<[name := Label_new (clip_name now id (extension format)) m]> registry);
    _ ← context "could not commit named export" (rename_noreplace temporary name);
    _ ← context "export committed but directory flush failed" sync_directory;
    mret {| stored_path := name; stored_bytes := size; clips_removed_for_quota := 0; bytes_removed_for_quota := 0 |}.
Definition and_remove {A} (temporary : bytes) (m : store_op A) : store_op A := fun d =>
  let '(d, r) := m d in ((attempt (E := string) (remove_file temporary) d).1, r).
Definition save_named_export (s : ReplayClipStore) (pid : Z) (stem : bytes) (format : ReplayOutputFormat) (now : option (Z * Z))
    (write_clip : bytes -> store_op Z) (temporary : bytes) : store_op StoredReplayClip :=
  and_remove temporary (size ← write_clip temporary; export_commit s pid stem format now temporary size).

(** * The thumbnail cache *)
Definition MAX_THUMBNAIL_BYTES : Z := 256 * 1024.
Definition MAX_THUMBNAILS : Z := 256.
Definition jpeg (content : bytes) : bool :=
  (4 <=? zlen content) && (zlen content <=? MAX_THUMBNAIL_BYTES) && starts_with [0xff; 0xd8] content && ends_with [0xff; 0xd9] content.
Definition create_thumbnails : st Disk DiskError unit :=
  system_call (fun _ m =>
    match m !! THUMBNAILS with Some _ => (m, Err AlreadyExists) | None => (<[THUMBNAILS := Subdirectory true ∅]> m, Ok tt) end).
Definition in_thumbnails {A} (f : file -> gmap bytes child -> gmap bytes child * outcome DiskError A) : st Disk DiskError A :=
  system_call (fun made m =>
    match m !! THUMBNAILS with
    | Some (Subdirectory private children) =>
        let '(children, r) := f made children in (<[THUMBNAILS := Subdirectory private children]> m, r)
    | _ => (m, Err NotFound)
    end).
Definition create_thumbnail (name : bytes) : st Disk DiskError unit :=
  in_thumbnails (fun made c =>
    match c !! name with
    | Some _ => (c, Err AlreadyExists)
    | None => (<[name := ChildFile {| f_dev := f_dev made; f_ino := f_ino made; f_links_outside := 1; f_mtime := f_mtime made;
                                      f_mtime_nsec := f_mtime_nsec made; f_uid := f_uid made; f_bytes := [] |}]> c, Ok tt)
    end).
Definition write_thumbnail (name content : bytes) : st Disk DiskError unit :=
  in_thumbnails (fun made c =>
    (alter (fun n => match n with
       | ChildFile f => ChildFile {| f_dev := f_dev f; f_ino := f_ino f; f_links_outside := f_links_outside f; f_mtime := f_mtime made;
                                     f_mtime_nsec := f_mtime_nsec made; f_uid := f_uid f; f_bytes := f_bytes f ++ content |}
       | n => n end) name c, Ok tt)).
Definition rename_thumbnail (from to : bytes) : st Disk DiskError unit :=
  in_thumbnails (fun _ c => match c !! from with Some n => (<[to := n]> (delete from c), Ok tt) | None => (c, Err NotFound) end).
Definition child_modified (c : child) : Z :=
  match c with ChildFile f => f_mtime f * 1000000000 + f_mtime_nsec f | ChildLink modified | ChildOther modified => modified end.

Definition cached_thumbnail (name : bytes) (expected : Metadata) : store_op (option bytes) :=
  _ ← validate_store;
  '(meta, _) ← owned_metadata name;
  _ ← require_live name meta;
  if negb (bytes_eqb (thumbnail_key meta) (thumbnail_key expected)) then mret None
  else
    context "could not read clip thumbnail cache"
      (r ← open_thumbnails;
       match r with
       | None => mret None
       | Some children =>
           _ ← call;
           match children !! thumbnail_key meta with
           | None => mret None
           | Some (ChildLink _) => lift (Err OtherError)
           | Some (ChildOther _) => _ ← call; mret None
           | Some (ChildFile cached) =>
               _ ← call;
               if negb (f_links_outside cached =? 1) || negb (f_uid cached =? uid meta) || (MAX_THUMBNAIL_BYTES <? zlen (f_bytes cached))
               then mret None
               else _ ← call; mret (if jpeg (f_bytes cached) then Some (f_bytes cached) else None)
           end
       end).

(** Superseded versions and unfinished files go; the rest stay, with their
    times. *)
Fixpoint drop_superseded (prefix : bytes) (found : list (bytes * Z)) (kept : list (bytes * Z)) : st Disk DiskError (list (bytes * Z)) :=
  match found with
  | [] => mret kept
  | (name, time) :: found =>
      if starts_with prefix name || bool_decide (is_Some (strip_suffix (ascii_bytes ".tmp") name))
      then _ ← remove_thumbnail name; drop_superseded prefix found kept
      else drop_superseded prefix found (kept ++ [(name, time)])
  end.
Fixpoint drop_oldest (entries : list (bytes * Z)) : st Disk DiskError unit :=
  if MAX_THUMBNAILS <=? zlen entries then
    match entries with
    | [] => mret tt
    | (name, _) :: entries => _ ← remove_thumbnail name; drop_oldest entries
    end
  else mret tt.
Definition cache_thumbnail (name : bytes) (expected : Metadata) (content : bytes) : store_op unit :=
  _ ← validate_store;
  '(meta, _) ← owned_metadata name;
  _ ← require_live name meta;
  if negb (bytes_eqb (thumbnail_key meta) (thumbnail_key expected)) || negb (jpeg content)
  then lift (Err "Clip changed or thumbnail is invalid"%string)
  else
    context "could not cache clip thumbnail"
      (r ← attempt create_thumbnails;
       _ ← match r with Ok _ | Err AlreadyExists => mret tt | _ => lift (Err OtherError) end;
       r ← open_thumbnails;
       children ← lift (ok_or r OtherError);
       _ ← call;
       found ← thumbnail_entries 0 (map_to_list children).*1 [];
       let times := map (fun n => (n, match children !! n with Some c => child_modified c | None => 0 end)) found in
       kept ← drop_superseded (thumbnail_prefix meta) times [];
       _ ← drop_oldest (Arith.sort_by_key snd kept);
       let temporary := thumbnail_key meta ++ ascii_bytes ".tmp" in
       _ ← create_thumbnail temporary;
       r ← attempt (_ ← write_thumbnail temporary content; rename_thumbnail temporary (thumbnail_key meta));
       _ ← attempt (E := DiskError) (remove_thumbnail temporary);
       lift r).
