(* ===== verification/StoreFacts.v ===== *)
(** What the calls on the store's directory do when any of them may fail: what
    is read is what is there, and only the named entries change. *)
From stdpp Require Import gmap strings sorting.
From S2P Require Import Prelude Bytes Text Paths Preferences StoreDisk StoreLabels StoreLabelsFacts Store.
Local Open Scope Z_scope.

(** * Programs on the directory *)
Definition wp {E A} (m : st Disk E A) (d : Disk) (Q : Disk -> outcome E A -> Prop) : Prop :=
  let '(d', r) := m d in r <> Panic /\ Q d' r.

Section Rules.
Context {E : Type}.
Lemma wp_bind {A B} (m : st Disk E A) (k : A -> st Disk E B) d Q :
  wp m d (fun d' r => match r with Ok a => wp (k a) d' Q | Err e => Q d' (Err e) | Panic => True end) -> wp (m ≫= k) d Q.
Proof. unfold wp, mbind, st_bind. destruct (m d) as [d' [a|e|]]; naive_solver. Qed.
Lemma wp_mono {A} (m : st Disk E A) d (Q Q' : Disk -> outcome E A -> Prop) :
  wp m d Q -> (forall d' r, r <> Panic -> Q d' r -> Q' d' r) -> wp m d Q'.
Proof. unfold wp. destruct (m d) as [d' r]. naive_solver. Qed.
Lemma wp_ret {A} (a : A) d (Q : Disk -> outcome E A -> Prop) : Q d (Ok a) -> wp (mret a) d Q.
Proof. done. Qed.
Lemma wp_lift {A} (r : outcome E A) d Q : r <> Panic -> Q d r -> wp (lift r) d Q.
Proof. done. Qed.
Lemma wp_attempt {A} (m : st Disk DiskError A) d (Q : Disk -> outcome E (outcome DiskError A) -> Prop) :
  wp m d (fun d' r => Q d' (Ok r)) -> wp (attempt m) d Q.
Proof. unfold wp, attempt. destruct (m d) as [d' r]. naive_solver. Qed.
Lemma wp_context {A} (e : E) (m : st Disk DiskError A) d (Q : Disk -> outcome E A -> Prop) :
  wp m d (fun d' r => Q d' (map_err (fun _ => e) r)) -> wp (context e m) d Q.
Proof. unfold wp, context. destruct (m d) as [d' r]. destruct r; naive_solver. Qed.
End Rules.

(** Nothing in the directory changed. *)
Record quiet (d d' : Disk) : Prop := {
  quiet_names : names d' = names d;
  quiet_faults : faults d' = faults d;
  quiet_fresh : fresh d' = fresh d;
  quiet_calls : (calls d <= calls d')%nat;
  quiet_next : next_file d' = next_file d;
}.
Lemma quiet_refl d : quiet d d.
Proof. by constructor. Qed.
Lemma quiet_trans d1 d2 d3 : quiet d1 d2 -> quiet d2 d3 -> quiet d1 d3.
Proof. intros [] []. constructor; [congruence|congruence|congruence|lia|congruence]. Qed.

(** [reads m P]: [m] changes nothing, and what it answers satisfies [P] of the
    directory. *)
Definition reads {E A} (m : st Disk E A) (P : gmap bytes node -> A -> Prop) : Prop :=
  forall d, wp m d (fun d' r => quiet d d' /\ forall a, r = Ok a -> P (names d) a).

Section Reads.
Context {E : Type}.
Lemma reads_bind {A B} (m : st Disk E A) (k : A -> st Disk E B) P Q :
  reads m P -> (forall a, reads (k a) (fun l b => P l a -> Q l b)) -> reads (m ≫= k) Q.
Proof.
  intros Hm Hk d. apply wp_bind. eapply wp_mono; [apply Hm|]. cbn. intros d' r Hp [Hq Hr]. destruct r as [a|e|]; [|done|done].
  eapply wp_mono; [apply Hk|]. cbn. intros d2 r2 Hp2 [Hq2 Hr2]. split; [by eapply quiet_trans|]. intros b Hb.
  specialize (Hr2 b Hb). rewrite (quiet_names _ _ Hq) in Hr2. auto.
Qed.
(** The same, with what [P] says of the value whatever the directory is. *)
Lemma reads_bind_pure {A B} (m : st Disk E A) (k : A -> st Disk E B) (P : gmap bytes node -> A -> Prop) (Pp : A -> Prop) Q :
  reads m P -> (forall l a, P l a -> Pp a) -> (forall a, Pp a -> reads (k a) (fun l b => P l a -> Q l b)) -> reads (m ≫= k) Q.
Proof.
  intros Hm Hp Hk d. apply wp_bind. eapply wp_mono; [apply Hm|]. cbn. intros d' r Hpa [Hq Hr]. destruct r as [a|e|]; [|done|done].
  specialize (Hr a eq_refl). eapply wp_mono; [apply Hk; by eapply Hp|]. cbn. intros d2 r2 Hp2 [Hq2 Hr2]. split; [by eapply quiet_trans|].
  intros b Hb. specialize (Hr2 b Hb). rewrite (quiet_names _ _ Hq) in Hr2. auto.
Qed.
Lemma reads_mono {A} (m : st Disk E A) (P Q : gmap bytes node -> A -> Prop) : reads m P -> (forall l a, P l a -> Q l a) -> reads m Q.
Proof. intros H HP d. eapply wp_mono; [apply H|]. cbn. naive_solver. Qed.
Lemma reads_ret {A} (a : A) (P : gmap bytes node -> A -> Prop) : (forall l, P l a) -> reads (E := E) (mret a) P.
Proof. intros H d. apply wp_ret. split; [apply quiet_refl|]. by intros ? [= <-]. Qed.
Lemma reads_err {A} (e : E) (P : gmap bytes node -> A -> Prop) : reads (lift (Err e)) P.
Proof. intros d. apply wp_lift; [done|]. split; [apply quiet_refl|done]. Qed.
Lemma reads_lift {A} (r : outcome E A) (P : gmap bytes node -> A -> Prop) : r <> Panic -> (forall a, r = Ok a -> forall l, P l a) -> reads (lift r) P.
Proof. intros Hp H d. apply wp_lift; [done|]. split; [apply quiet_refl|eauto]. Qed.
Lemma reads_context {A} (e : E) (m : st Disk DiskError A) P : reads m P -> reads (context e m) P.
Proof.
  intros H d. apply wp_context. eapply wp_mono; [apply H|]. cbn. intros d' r Hp [Hq Hr]. split; [done|].
  intros a Ha. apply Hr. by apply map_err_Ok in Ha.
Qed.
End Reads.
Lemma reads_system {A} (f : file -> gmap bytes node -> gmap bytes node * outcome DiskError A) (P : gmap bytes node -> A -> Prop) :
  (forall made l, (f made l).1 = l /\ (f made l).2 <> Panic /\ forall a, (f made l).2 = Ok a -> P l a) -> reads (system_call f) P.
Proof.
  intros H d. unfold wp, system_call. case_if_as E.
  - split; [done|]. split; [|done]. constructor; cbn; auto.
  - specialize (H (fresh d (calls d)) (names d)). destruct (f _ _) as [l r]. cbn in H. destruct H as (-> & Hp & H).
    split; [done|]. split; [|done]. constructor; cbn; auto.
Qed.
Lemma reads_call P : (forall l, P l tt) -> reads call P.
Proof. intros H. apply reads_system. intros made l. cbn. splits; [done|done|]. by intros ? [= <-]. Qed.

(** ** What is read *)
Definition metadata_at (l : gmap bytes node) (name : bytes) : option Metadata :=
  match l !! name with
  | Some (Regular f) => Some (metadata_of (link_count f l) f)
  | Some _ => Some metadata_other
  | None => None
  end.
Definition clip_file (l : gmap bytes node) (name : bytes) : option Metadata :=
  m ← metadata_at l name; if is_file m && (nlink m =? 1) then Some m else None.
(** The registry that a file of the directory holds; none is an empty one. *)
Definition registry (l : gmap bytes node) (file_name : bytes) : option Labels :=
  match l !! file_name with
  | None => Some ∅
  | Some (Regular f) =>
      if (link_count f l =? 1) && (zlen (f_bytes f) <=? MAX_LABEL_BYTES) && (f_uid f =? 0) && utf8_valid (f_bytes f)
      then labels_of_text (f_bytes f) else None
  | Some _ => None
  end.

Lemma symlink_metadata_reads name : reads (symlink_metadata name) (fun l m => metadata_at l name = Some m).
Proof.
  apply reads_system. intros made l. unfold metadata_at. destruct (l !! name) as [[]|]; cbn; splits; try done; by intros ? [= <-].
Qed.
Lemma open_nofollow_reads name : reads (open_nofollow name) (fun l n => l !! name = Some n).
Proof.
  apply reads_system. intros made l. destruct (l !! name) as [[]|]; cbn; splits; try done; by intros ? [= <-].
Qed.
Lemma fstat_reads f : reads (fstat f) (fun l m => m = metadata_of (link_count f l) f).
Proof. apply reads_system. intros made l. cbn. splits; [done|done|]. by intros ? [= <-]. Qed.
(** An attempt that finds nothing, or fails. *)
Lemma attempt_open name : reads (attempt (E := string) (open_nofollow name)) (fun l o => o <> Panic /\
    (forall n, o = Ok n -> l !! name = Some n) /\ (o = Err NotFound -> l !! name = None)).
Proof.
  intros d. apply wp_attempt. unfold wp, open_nofollow, system_call. case_if_as E.
  - split; [done|]. split; [constructor; cbn; auto|]. by intros a [= <-].
  - destruct (names d !! name) as [[]|] eqn:En; (split; [done|]); (split; [constructor; cbn; auto|]);
      intros a [= <-]; splits; try done; by intros ? [= <-].
Qed.

Lemma reads_call_then {A} (e : string) (k : store_op A) P : reads k P -> reads (_ ← context e call; k) P.
Proof. intros H. eapply reads_bind; [apply reads_context; by apply (reads_call (fun _ _ => True))|]. intros []. eapply reads_mono; [exact H|]. auto. Qed.

Lemma load_from_reads file_name : reads (load_from file_name) (fun l labels => registry l file_name = Some labels).
Proof.
  unfold load_from. eapply reads_bind; [apply attempt_open|]. intros o.
  destruct o as [[f|private children|]|[]|]; try (apply reads_call_then); try apply reads_err.
  2: { apply reads_ret. intros l (_ & _ & H). unfold registry. by rewrite H. }
  eapply reads_bind; [apply reads_context, fstat_reads|]. intros m. destruct (_ || _) eqn:E1; [apply reads_err|]. apply reads_call_then.
  destruct (uid m =? 0) eqn:E2; cbn [negb]; [|apply reads_err]. apply reads_call_then. destruct (MAX_LABEL_BYTES <? zlen (f_bytes f)) eqn:E3; [apply reads_err|].
  destruct (utf8_valid (f_bytes f)) eqn:E4; cbn [negb]; [|apply reads_err]. apply reads_lift; [by destruct (labels_of_text _)|].
  intros labels Hl l Hm (_ & H & _). apply ok_or_Ok in Hl. subst m. unfold registry. rewrite (H _ eq_refl).
  apply orb_false_iff in E1 as [E1 E1']. apply negb_false_iff in E1. cbn in *. apply Z.ltb_ge in E1'.
  by rewrite E1, E2, E4, (proj2 (Z.leb_le _ _) E1').
Qed.

(** ** Clips *)
Lemma validate_store_reads : reads validate_store (fun _ _ => True).
Proof.
  unfold validate_store. apply reads_call_then. eapply reads_bind; [apply reads_context, symlink_metadata_reads|]. intros m.
  destruct (_ || _); [apply reads_err|]. eapply reads_bind; [apply reads_context, open_nofollow_reads|]. intros n. apply reads_call_then.
  destruct n; [|apply reads_err..]. destruct (bytes_eqb _ _); [by apply reads_ret|apply reads_err].
Qed.

(** What the label of a clip is: its entry in the registry, or the name it was
    generated with. *)
Definition label_of (labels : Labels) (name : bytes) (m : Metadata) : option Label :=
  match labels !! name with
  | Some l => if label_matches l m then Some l else if is_owned_clip_name name then Some (Label_new name m) else None
  | None => if is_owned_clip_name name then Some (Label_new name m) else None
  end.
Definition clip_at (l : gmap bytes node) (labels : Labels) (name : bytes) : option (Metadata * Label) :=
  m ← clip_file l name; label ← label_of labels name m; Some (m, label).
Definition is_trashed (bin : Labels) (name : bytes) (m : Metadata) : bool :=
  match bin !! name with Some l => label_matches l m | None => false end.

Lemma owned_metadata_reads name : reads (owned_metadata name) (fun l c =>
  valid_name name = true /\ exists labels, registry l LABELS_FILE = Some labels /\ clip_at l labels name = Some c).
Proof.
  unfold owned_metadata. destruct (valid_name name) eqn:Ev; cbn [negb]; [|apply reads_err].
  eapply reads_bind; [apply reads_context, symlink_metadata_reads|]. intros m. destruct (_ || _) eqn:E1; [apply reads_err|].
  apply orb_false_iff in E1 as [E1 E2]. apply negb_false_iff in E1, E2.
  eapply reads_bind; [apply load_from_reads|]. intros labels.
  assert (H : forall c, label_of labels name m = Some c -> reads (E := string) (mret (m, c)) (fun l (b : Metadata * Label) =>
    registry l LABELS_FILE = Some labels -> metadata_at l name = Some m -> true = true /\
    exists labels0, registry l LABELS_FILE = Some labels0 /\ clip_at l labels0 name = Some b)).
  { intros c Hc. apply reads_ret. intros l Hr Hm. split; [done|]. exists labels. split; [done|]. unfold clip_at, clip_file.
    rewrite Hm. cbn [mbind option_bind]. rewrite E1, E2. cbn. by rewrite Hc. }
  unfold label_of in H. destruct (labels !! name) as [label|].
  - destruct (label_matches label m); [by apply H|]. destruct (is_owned_clip_name name); [by apply H|apply reads_err].
  - destruct (is_owned_clip_name name); [by apply H|apply reads_err].
Qed.

(** The clip that the scan of the directory makes of a name. *)
Definition scanned (l : gmap bytes node) (bin labels : Labels) (name : bytes) : option OwnedClip :=
  if utf8_valid name then
    '(m, label) ← clip_at l labels name;
    Some {| clip_path := name; clip_bytes := len m; modified := modified_of m; original_file_name := original label;
            clip_favorite := favorite label; trashed := is_trashed bin name m |}
  else None.
(** Names of a registry are UTF-8, and labels of generated names keep them. *)
Definition labels_ok (labels : Labels) : Prop := map_Forall (fun name _ => utf8_valid name = true /\ name <> []) labels.

Lemma scan_entry_reads bin labels name : labels_ok labels ->
  reads (scan_entry bin labels name) (fun l c => c = scanned l bin labels name).
Proof.
  intros Hok. unfold scan_entry, scanned. destruct (utf8_valid name) eqn:Eu.
  - assert (Hnone : forall l, (labels !! name = None /\ is_owned_clip_name name = false) ->
      (clip_at l labels name = None)).
    { intros l [H1 H2]. unfold clip_at, label_of. destruct (clip_file l name); [|done]. cbn. by rewrite H1, H2. }
    destruct (negb (is_owned_clip_name name) && negb (bool_decide (is_Some (labels !! name)))) eqn:E1.
    { apply reads_ret. intros l. apply andb_true_iff in E1 as [E1 E2]. apply negb_true_iff in E1, E2. apply bool_decide_eq_false in E2.
      rewrite Hnone; [done|]. split; [|done]. destruct (labels !! name); [|done]. destruct E2. by eexists. }
    eapply reads_bind; [apply reads_context, symlink_metadata_reads|]. intros m.
    destruct (is_file m && (nlink m =? 1)) eqn:E2; cbn [negb].
    2: { apply reads_ret. intros l Hm. unfold clip_at, clip_file. rewrite Hm. cbn [mbind option_bind]. by rewrite E2. }
    set (label := match labels !! name with Some l => if label_matches l m then Some l else None | None => None end).
    assert (Hl : label_of labels name m = match label with Some l => Some l | None => if is_owned_clip_name name then Some (Label_new name m) else None end).
    { unfold label_of, label. destruct (labels !! name) as [l|]; [|done]. by destruct (label_matches l m). }
    destruct (negb (is_owned_clip_name name) && negb (bool_decide (is_Some label))) eqn:E3; apply reads_ret; intros l Hm;
      unfold clip_at, clip_file; rewrite Hm; cbn [mbind option_bind]; rewrite E2; cbn [mbind option_bind]; rewrite Hl.
    + apply andb_true_iff in E3 as [E3 E4]. apply negb_true_iff in E3, E4. apply bool_decide_eq_false in E4.
      destruct label; [destruct E4; by eexists|]. by rewrite E3.
    + destruct label as [x|]; [done|]. destruct (is_owned_clip_name name); done.
  - assert (is_owned_clip_name name = false) as E1. { destruct (is_owned_clip_name name) eqn:E; [|done]. apply owned_utf8 in E. congruence. }
    assert (labels !! ([] : bytes) = None) as E2.
    { destruct (labels !! ([] : bytes)) as [x|] eqn:E; [|done]. destruct (Hok _ _ E). done. }
    rewrite E1, E2. cbn. by apply reads_ret.
Qed.

Lemma valid_name_nonempty name : valid_name name = true -> name <> [].
Proof. unfold valid_name. by intros H ->. Qed.
Lemma registry_valid l file_name labels : registry l file_name = Some labels -> labels_valid labels.
Proof.
  unfold registry. destruct (l !! file_name) as [[f| |]|]; try done; [|intros [= <-]; apply labels_valid_empty].
  case_if_as E; [|done]. apply labels_of_text_valid.
Qed.
Lemma labels_valid_ok labels : labels_valid labels -> labels_ok labels.
Proof. intros [H _]. intros name l Hl. destruct (H name l Hl) as [(_ & H1 & H2) _ _ _ _]. split; [done|by apply valid_name_nonempty]. Qed.

Lemma scan_entries_reads bin labels index entries clips : labels_ok labels ->
  reads (scan_entries bin labels index entries clips) (fun l out => out = clips ++ omap (scanned l bin labels) entries).
Proof.
  intros Hok. revert index clips. induction entries as [|n entries IH]; intros index clips; cbn [scan_entries].
  - apply reads_call_then, reads_ret. intros l. cbn. by rewrite app_nil_r.
  - destruct (_ <=? _); [apply reads_err|]. apply reads_call_then. eapply reads_bind; [by apply scan_entry_reads|]. intros c.
    eapply reads_mono; [apply IH|]. intros l out -> ->. rewrite <- app_assoc. f_equal. cbn. by destruct (scanned l bin labels n).
Qed.

(** The clips of a directory, in the order it is listed. *)
Definition clips_of (l : gmap bytes node) (bin labels : Labels) : list OwnedClip :=
  omap (scanned l bin labels) (map_to_list l).*1.

Lemma scan_owned_clips_reads : reads scan_owned_clips (fun l clips => exists bin labels,
  registry l TRASH_FILE = Some bin /\ registry l LABELS_FILE = Some labels /\ clips = clips_of l bin labels).
Proof.
  unfold scan_owned_clips. eapply reads_bind; [apply load_from_reads|]. intros bin.
  eapply reads_bind_pure with (Pp := labels_valid); [apply load_from_reads|intros l a; apply registry_valid|]. intros labels Hv.
  apply reads_call_then. intros d. unfold list_names. apply wp_bind. unfold wp at 1. split; [done|].
  eapply wp_mono; [apply scan_entries_reads; by apply labels_valid_ok|]. cbn. intros d' r _ [Hq Hr].
  split; [done|]. intros clips Hc Hl Hb. exists bin, labels. splits; [done|done|]. by rewrite (Hr _ Hc).
Qed.

(** * What is kept

    [kept S l0 l]: the entries of [l0] are in [l] as they were, but for those in
    [S].  A name is [free] when it is in [S] or was not there. *)
Section Kept.
Variables (S : bytes -> Prop) (l0 : gmap bytes node).
Definition kept (l : gmap bytes node) : Prop := forall n x, l0 !! n = Some x -> ~ S n -> l !! n = Some x.
Definition free (name : bytes) : Prop := forall x, l0 !! name = Some x -> ~ ~ S name.
Definition maintains {E A} (m : st Disk E A) (P : A -> Prop) : Prop :=
  forall d, kept (names d) -> wp m d (fun d' r => kept (names d') /\ forall a, r = Ok a -> P a).

Section Rules.
Context {E : Type}.
Lemma maintains_bind {A B} (m : st Disk E A) (k : A -> st Disk E B) P Q :
  maintains m P -> (forall a, P a -> maintains (k a) Q) -> maintains (m ≫= k) Q.
Proof.
  intros Hm Hk d Hd. apply wp_bind. eapply wp_mono; [by apply Hm|]. cbn. intros d' r Hp [H1 H2]. destruct r as [a|e|]; [|done|done].
  apply Hk; auto.
Qed.
Lemma maintains_mono {A} (m : st Disk E A) (P Q : A -> Prop) : maintains m P -> (forall a, P a -> Q a) -> maintains m Q.
Proof. intros H HP d Hd. eapply wp_mono; [by apply H|]. cbn. naive_solver. Qed.
Lemma maintains_reads {A} (m : st Disk E A) P (Q : A -> Prop) : reads m P -> (forall l a, P l a -> Q a) -> maintains m Q.
Proof.
  intros H HQ d Hd. eapply wp_mono; [apply H|]. cbn. intros d' r _ [Hq Hr]. rewrite (quiet_names _ _ Hq). split; [done|].
  intros a Ha. by apply (HQ (names d)), Hr.
Qed.
Lemma maintains_ret {A} (a : A) (P : A -> Prop) : P a -> maintains (E := E) (mret a) P.
Proof. intros H d Hd. apply wp_ret. split; [done|]. by intros ? [= <-]. Qed.
Lemma maintains_lift {A} (r : outcome E A) (P : A -> Prop) : r <> Panic -> (forall a, r = Ok a -> P a) -> maintains (lift r) P.
Proof. intros Hr H d Hd. by apply wp_lift. Qed.
Lemma maintains_err {A} (e : E) (P : A -> Prop) : maintains (lift (Err e)) P.
Proof. by apply maintains_lift. Qed.
Lemma maintains_context {A} (e : E) (m : st Disk DiskError A) P : maintains m P -> maintains (context e m) P.
Proof.
  intros H d Hd. apply wp_context. eapply wp_mono; [by apply H|]. cbn. intros d' r Hp [H1 H2]. split; [done|].
  intros a Ha. apply H2. by apply map_err_Ok in Ha.
Qed.
Lemma maintains_attempt {A} (m : st Disk DiskError A) P :
  maintains m P -> maintains (E := E) (attempt m) (fun r => r <> Panic /\ forall a, r = Ok a -> P a).
Proof.
  intros H d Hd. apply wp_attempt. eapply wp_mono; [by apply H|]. cbn. intros d' r Hp [H1 H2]. split; [done|]. by intros a [= <-].
Qed.
End Rules.

Lemma maintains_system {A} (f : file -> gmap bytes node -> gmap bytes node * outcome DiskError A) (P : A -> Prop) :
  (forall made l, kept l -> kept (f made l).1 /\ (f made l).2 <> Panic /\ forall a, (f made l).2 = Ok a -> P a) -> maintains (system_call f) P.
Proof.
  intros H d Hd. unfold wp, system_call. case_if_as E; [done|]. specialize (H (fresh d (calls d)) (names d) Hd).
  destruct (f _ _) as [l r]. cbn in *. tauto.
Qed.
Lemma kept_free name l : kept l -> l !! name = None -> free name.
Proof.
  intros Hk Hn x E H. specialize (Hk _ _ E H). congruence.
Qed.
Lemma kept_change (name : bytes) (l : gmap bytes node) (x : option node) :
  free name -> kept l -> kept (partial_alter (fun _ => x) name l).
Proof.
  intros Hf Hk n y Hn Hs. destruct (decide (n = name)) as [->|Hne]; [|rewrite lookup_partial_alter_ne by done; by apply Hk].
  by destruct (Hf _ Hn).
Qed.
Lemma kept_insert (name : bytes) (l : gmap bytes node) x : free name -> kept l -> kept (<[name := x]> l).
Proof. apply kept_change. Qed.
Lemma kept_delete (name : bytes) (l : gmap bytes node) : free name -> kept l -> kept (delete name l).
Proof. apply kept_change. Qed.

Lemma create_new_maintains name : maintains (create_new name) (fun _ => free name).
Proof.
  apply maintains_system. intros made l Hk. destruct (l !! name) eqn:E; cbn; [by splits|].
  pose proof (kept_free _ _ Hk E). splits; [by apply kept_insert|done|done].
Qed.
Lemma append_maintains name chunk : free name -> maintains (append name chunk) (fun _ => True).
Proof.
  intros Hf. apply maintains_system. intros made l Hk. cbn. splits; [|done|done]. intros n y Hn Hs.
  destruct (decide (n = name)) as [->|Hne]; [by destruct (Hf _ Hn)|]. rewrite lookup_alter_ne by done. by apply Hk.
Qed.
Lemma remove_file_maintains name : free name -> maintains (remove_file name) (fun _ => True).
Proof.
  intros Hf. apply maintains_system. intros made l Hk. destruct (l !! name) as [[]|]; cbn; splits; auto using kept_delete.
Qed.
Lemma rename_maintains from to : free from -> free to -> maintains (rename from to) (fun _ => True).
Proof.
  intros Hf Ht. apply maintains_system. intros made l Hk.
  destruct (l !! from) as [n|]; [|by splits]. destruct (l !! to) as [[]|]; cbn; splits; auto using kept_insert, kept_delete.
Qed.
Lemma rename_noreplace_maintains from to : free from -> maintains (rename_noreplace from to) (fun _ => True).
Proof.
  intros Hf. apply maintains_system. intros made l Hk.
  destruct (l !! from) as [n|]; [|by splits]. destruct (l !! to) as [x|] eqn:E; cbn; splits; auto.
  apply kept_insert; [by eapply kept_free|by apply kept_delete].
Qed.
Lemma hard_link_maintains from to : maintains (hard_link from to) (fun _ => free to).
Proof.
  apply maintains_system. intros made l Hk. destruct (l !! from) as [[f| |]|], (l !! to) as [x|] eqn:E; cbn; splits; try done.
  - apply kept_insert; [by eapply kept_free|done].
  - intros _ _. by eapply kept_free.
Qed.
Lemma call_maintains : maintains call (fun _ => True).
Proof. apply maintains_system. intros made l Hk. by splits. Qed.
Lemma sync_directory_maintains : maintains sync_directory (fun _ => True).
Proof. eapply maintains_bind; [apply call_maintains|]. intros _ _. apply call_maintains. Qed.
Lemma take_number_maintains : maintains take_number (fun _ => True).
Proof. intros d Hd. unfold wp, take_number. by splits. Qed.
Lemma load_from_maintains file_name : maintains (load_from file_name) (fun _ => True).
Proof. by eapply maintains_reads; [apply load_from_reads|]. Qed.
Lemma validate_store_maintains : maintains validate_store (fun _ => True).
Proof. by eapply maintains_reads; [apply validate_store_reads|]. Qed.
Lemma symlink_metadata_maintains name : maintains (symlink_metadata name) (fun _ => True).
Proof. by eapply maintains_reads; [apply symlink_metadata_reads|]. Qed.
End Kept.
