(* ===== verification/StoreSafety.v ===== *)
(** Files that are not clips: whatever a caller asks of the store and whichever
    calls fail, they stay as they are. *)
From stdpp Require Import gmap strings sorting.
From S2P Require Import Prelude Bytes Text Arith Paths Preferences StoreDisk StoreLabels StoreLabelsFacts Store StoreFacts.
Local Open Scope Z_scope.

(** * The calls *)
(** How a clip's bytes are written: by a muxer, or copied from an export. *)
Inductive clip_writer :=
| Muxed (chunks : list bytes) (verdict : outcome string unit)
| Copied (format : ReplayOutputFormat) (maximum : Z) (header : option bytes) (reads : list (option bytes)).
Definition write_with (s : ReplayClipStore) (w : clip_writer) (temporary : bytes) : store_op Z :=
  match w with
  | Muxed chunks verdict =>
      write_muxed (Z.min (maximum_clip_bytes s) (storage_limit_bytes s)) chunks verdict 0 temporary
  | Copied format maximum header reads =>
      write_bounded_export format maximum (storage_limit_bytes s) header reads temporary
  end.
(** [finalized w]: the muxer's own verdict is a value or an error. *)
Definition finalized (w : clip_writer) : Prop := match w with Muxed _ verdict => verdict <> Panic | _ => True end.

Inductive store_call :=
| Initialize (pid : Z)
| Inventory (in_bin : bool)
| Rename (pid : Z) (file_name new_name : bytes)
| SetFavorite (pid : Z) (file_name : bytes) (value : bool)
| SetTrashed (pid : Z) (file_name : bytes) (in_bin : bool)
| Delete (file_name : bytes)
| Archive (file_name : bytes)
| EnforceQuota
| SaveBegin (pid : Z)
| SaveWrite (w : clip_writer) (temporary : bytes)
| SaveCommit (format : ReplayOutputFormat) (preserve : bool) (now : option (Z * Z)) (temporary : bytes) (size : Z)
| ExportBegin (pid : Z) (stem : bytes) (format : ReplayOutputFormat)
| ExportFinish (pid : Z) (stem : bytes) (format : ReplayOutputFormat) (now : option (Z * Z)) (w : clip_writer) (temporary : bytes)
| CachedThumbnail (name : bytes) (expected : Metadata)
| CacheThumbnail (name : bytes) (expected : Metadata) (content : bytes).
Definition forget {A} (m : store_op A) : store_op unit := _ ← m; mret tt.
Definition exec (s : ReplayClipStore) (c : store_call) : store_op unit :=
  match c with
  | Initialize pid => initialize_store pid
  | Inventory in_bin => forget (inventory_state in_bin)
  | Rename pid file_name new_name => rename_clip pid file_name new_name
  | SetFavorite pid file_name value => set_favorite pid file_name value
  | SetTrashed pid file_name in_bin => set_trashed pid file_name in_bin
  | Delete file_name => forget (delete_clip file_name)
  | Archive file_name => forget (archive_clip file_name)
  | EnforceQuota => forget (enforce_store_quota s)
  | SaveBegin pid => forget (save_begin pid)
  | SaveWrite w temporary => forget (save_write (write_with s w) temporary)
  | SaveCommit format preserve now temporary size => forget (save_commit s format preserve now temporary size)
  | ExportBegin pid stem format => forget (export_begin pid stem format)
  | ExportFinish pid stem format now w temporary =>
      forget (save_named_export s pid stem format now (write_with s w) temporary)
  | CachedThumbnail name expected => forget (cached_thumbnail name expected)
  | CacheThumbnail name expected content => cache_thumbnail name expected content
  end.
(** The unpublished file that a save works on. *)
Definition call_temporary (c : store_call) : option bytes :=
  match c with
  | SaveWrite _ t | SaveCommit _ _ _ t _ | ExportFinish _ _ _ _ _ t => Some t
  | _ => None
  end.
Definition call_ok (c : store_call) : Prop :=
  match c with SaveWrite w _ | ExportFinish _ _ _ _ w _ => finalized w | _ => True end.

(** * What belongs to the store *)
Definition private_names : list bytes := [LABELS_FILE; TRASH_FILE; THUMBNAILS; ARCHIVE].
Lemma labels_private : LABELS_FILE ∈ private_names.
Proof. left. Qed.
Lemma trash_private : TRASH_FILE ∈ private_names.
Proof. right. left. Qed.
Lemma thumbnails_private : THUMBNAILS ∈ private_names.
Proof. right. right. left. Qed.
Lemma archive_private : ARCHIVE ∈ private_names.
Proof. right. right. right. left. Qed.
(** A clip of the directory, by its generated name or by its label. *)
Definition is_clip (l : gmap bytes node) (name : bytes) : Prop :=
  exists labels c, registry l LABELS_FILE = Some labels /\ clip_at l labels name = Some c.
Definition owned_by_store (l : gmap bytes node) (c : store_call) (name : bytes) : Prop :=
  name ∈ private_names \/ is_clip l name \/ call_temporary c = Some name.

(** ** Stated without the store's own checks *)
Definition number (w : bytes) : Prop := w <> [] /\ Forall (fun b => 48 <= b <= 57) w.
(** One, two or three numbers with a dash between them. *)
Definition numbers (w : bytes) : Prop :=
  number w
  \/ (exists a b, number a /\ number b /\ w = a ++ 45 :: b)
  \/ (exists a b c, number a /\ number b /\ number c /\ w = a ++ 45 :: b ++ 45 :: c).
(** [redunar-replay-], one to three numbers, and the extension of a video. *)
Definition clip_form (name : bytes) : Prop := exists middle suffix,
  name = CLIP_PREFIX ++ middle ++ suffix /\ numbers middle /\ (suffix = MATROSKA_SUFFIX \/ suffix = MP4_SUFFIX).
(** The registry has a label under this name for this very file. *)
Definition labelled (l : gmap bytes node) (name : bytes) (f : file) : Prop := exists labels label,
  registry l LABELS_FILE = Some labels /\ labels !! name = Some label /\ label_dev label = f_dev f /\ label_ino label = f_ino f.
(** What the store takes for its own. *)
Definition belongs (l : gmap bytes node) (c : store_call) (name : bytes) (entry : node) : Prop :=
  name ∈ private_names \/ call_temporary c = Some name
  \/ exists f, entry = Regular f /\ link_count f l = 1 /\ (clip_form name \/ labelled l name f).

Lemma split_on_cons p bs w rest : split_on p bs = w :: rest ->
  (rest = [] /\ bs = w) \/ exists b bs', bs = w ++ b :: bs' /\ p b = true /\ split_on p bs' = rest.
Proof.
  revert w rest. induction bs as [|x bs IH]; intros w rest; cbn [split_on]; [intros [= <- <-]; by left|].
  destruct (p x) eqn:Ep; [intros [= <- <-]; right; by exists x, bs|].
  destruct (split_on p bs) as [|w' rest'] eqn:E; [intros [= <- <-]|intros [= <- <-]].
  - destruct bs as [|y bs]; [by left|]. exfalso. cbn [split_on] in E. destruct (p y); [done|]. by destruct (split_on p bs).
  - destruct (IH _ _ eq_refl) as [[-> ->]|(b & bs' & -> & Hb & Hr)]; [by left|right; by exists b, bs'].
Qed.
Lemma strip_suffix_Some affix bs rest : strip_suffix affix bs = Some rest -> bs = rest ++ affix.
Proof.
  unfold strip_suffix. destruct (_ && _) eqn:E; [|done]. intros [= <-]. apply andb_true_iff in E as [_ E].
  apply bool_decide_eq_true in E. rewrite <- E at 2. by rewrite take_drop.
Qed.
Lemma owned_clip_form name : is_owned_clip_name name = true -> clip_form name.
Proof.
  unfold is_owned_clip_name. intros H. apply andb_true_iff in H as [_ H].
  destruct (strip_prefix CLIP_PREFIX name) as [prefixed|] eqn:E1; [|done]. apply strip_prefix_Some in E1.
  destruct (match strip_suffix MATROSKA_SUFFIX prefixed with Some m => Some m | None => strip_suffix MP4_SUFFIX prefixed end) as [middle|] eqn:E2; [|done].
  assert (Hs : exists suffix, prefixed = middle ++ suffix /\ (suffix = MATROSKA_SUFFIX \/ suffix = MP4_SUFFIX)).
  { destruct (strip_suffix MATROSKA_SUFFIX prefixed) as [x|] eqn:E3; [injection E2 as ->; exists MATROSKA_SUFFIX; split; [by apply strip_suffix_Some|by left]|].
    exists MP4_SUFFIX. split; [by apply strip_suffix_Some|by right]. }
  destruct Hs as (suffix & -> & Hs). exists middle, suffix. split; [done|]. split; [|done]. clear E1 E2 Hs.
  apply andb_true_iff in H as [H Hn].
  assert (Hnum : forall w, negb (bytes_eqb w []) && forallb is_ascii_digit w = true -> number w).
  { intros w Hw. apply andb_true_iff in Hw as [Hw1 Hw2]. split; [by apply negb_true_iff, bool_decide_eq_false in Hw1|].
    rewrite forallb_forall in Hw2. apply Forall_forall. intros b Hb. rewrite list_elem_of_In in Hb. apply Hw2 in Hb. unfold is_ascii_digit in Hb. lia. }
  assert (Hdash : forall b, (45 =? b) = true -> b = 45) by (intros; lia).
  destruct (split_on (Z.eqb 45) middle) as [|a rest] eqn:Ea; [by apply split_on_nonempty in Ea|].
  cbn [take forallb] in H. apply andb_true_iff in H as [Ha H]. apply Hnum in Ha.
  apply split_on_cons in Ea as [[-> ->]|(x & m & -> & ->%Hdash & Ea)]; [by left|]. right.
  destruct rest as [|b rest]; [by apply split_on_nonempty in Ea|].
  cbn [take forallb] in H. apply andb_true_iff in H as [Hb H]. apply Hnum in Hb.
  apply split_on_cons in Ea as [[-> ->]|(y & m' & -> & ->%Hdash & Ea)]; [left; by exists a, b|]. right.
  destruct rest as [|c rest]; [by apply split_on_nonempty in Ea|].
  cbn [take forallb] in H. apply andb_true_iff in H as [Hc H]. apply Hnum in Hc.
  destruct rest as [|d rest]; [|done].
  apply split_on_cons in Ea as [[_ ->]|(z & m'' & -> & ->%Hdash & Ea)]; [by exists a, b, c|].
  by apply split_on_nonempty in Ea.
Qed.
Lemma owned_belongs l c name entry : l !! name = Some entry -> owned_by_store l c name -> belongs l c name entry.
Proof.
  intros Hn [H|[(labels & [m label] & Hr & Hc)|H]]; [by left| |right; by left]. right. right.
  unfold clip_at, clip_file, metadata_at in Hc. rewrite Hn in Hc. destruct entry as [f| |]; [|done..]. cbn [mbind option_bind] in Hc.
  destruct (is_file _ && _) eqn:E; [|done]. apply andb_true_iff in E as [_ E]. apply Z.eqb_eq in E. exists f. split; [done|]. split; [exact E|].
  cbn [mbind option_bind] in Hc. unfold label_of in Hc. destruct (labels !! name) as [y|] eqn:Ey.
  - destruct (label_matches y _) eqn:Em.
    + right. exists labels, y. unfold label_matches in Em. cbn in Em. apply andb_true_iff in Em as [Em Ei]. apply andb_true_iff in Em as [_ Ed].
      splits; [done|done|by apply Z.eqb_eq|by apply Z.eqb_eq].
    + destruct (is_owned_clip_name name) eqn:Eo; [left; by apply owned_clip_form|done].
  - destruct (is_owned_clip_name name) eqn:Eo; [left; by apply owned_clip_form|done].
Qed.

Section Maintains.
Context (S : bytes -> Prop) (l0 : gmap bytes node).
Notation maintains := (maintains S l0).
Notation free := (free S l0).
Hypothesis HS : forall n, n ∈ private_names -> S n.

Lemma free_of n : S n -> free n.
Proof. intros H x _ Hn. by apply Hn. Qed.
Lemma free_private n : n ∈ private_names -> free n.
Proof. intros H. by apply free_of, HS. Qed.

Lemma call_then {A} (e : string) (k : store_op A) P : maintains k P -> maintains (_ ← context e call; k) P.
Proof. intros H. eapply maintains_bind; [apply maintains_context, call_maintains|]. by intros [] _. Qed.
Lemma or_remove_maintains {A} temporary (m : store_op A) P : free temporary -> maintains m P -> maintains (or_remove temporary m) P.
Proof.
  intros Hf Hm d Hd. specialize (Hm d Hd). unfold wp, or_remove in *. destruct (m d) as [d' r]. destruct Hm as (Hp & Hk & Hr).
  destruct r as [a|e|]; [done| |done].
  pose proof (maintains_attempt S l0 (E := string) _ _ (remove_file_maintains S l0 temporary Hf) d' Hk) as Hw. unfold wp in Hw.
  destruct (attempt (remove_file temporary) d') as [d2 r2]. cbn. destruct Hw as (_ & Hk2 & _). by splits.
Qed.
Lemma and_remove_maintains {A} temporary (m : store_op A) P : free temporary -> maintains m P -> maintains (and_remove temporary m) P.
Proof.
  intros Hf Hm d Hd. specialize (Hm d Hd). unfold wp, and_remove in *. destruct (m d) as [d' r]. destruct Hm as (Hp & Hk & Hr).
  pose proof (maintains_attempt S l0 (E := string) _ _ (remove_file_maintains S l0 temporary Hf) d' Hk) as Hw. unfold wp in Hw.
  destruct (attempt (remove_file temporary) d') as [d2 r2]. cbn. destruct Hw as (_ & Hk2 & _). by splits.
Qed.
Lemma create_temporary_maintains pid : maintains (create_temporary pid) free.
Proof.
  unfold create_temporary. generalize 32%nat. intros tries. induction tries as [|tries IH]; cbn [create_temporary_loop]; [apply maintains_err|].
  eapply maintains_bind; [apply maintains_context, take_number_maintains|]. intros id _.
  eapply maintains_bind; [apply maintains_attempt, create_new_maintains|]. intros r [Hr Hf].
  destruct r as [[]|[]|]; try apply maintains_err; [apply maintains_ret; by apply (Hf tt)|exact IH].
Qed.
Lemma save_to_maintains pid file_name labels : free file_name -> maintains (save_to pid file_name labels) (fun _ => True).
Proof.
  intros Hf. unfold save_to. case_if_as E; [apply maintains_err|]. case_if_as E'; [apply maintains_err|].
  eapply maintains_bind; [apply create_temporary_maintains|]. intros t Ht. apply or_remove_maintains; [done|].
  eapply maintains_bind; [by apply maintains_context, append_maintains|]. intros _ _. apply call_then.
  eapply maintains_bind; [by apply maintains_context, rename_maintains|]. intros _ _. apply maintains_context, sync_directory_maintains.
Qed.
Lemma labels_save_maintains pid labels : maintains (labels_save pid labels) (fun _ => True).
Proof. exact (save_to_maintains pid LABELS_FILE labels (free_private _ labels_private)). Qed.
Lemma attempt_metadata_maintains name : maintains (attempt (E := string) (symlink_metadata name)) (fun r => r <> Panic).
Proof. eapply maintains_mono; [apply maintains_attempt, symlink_metadata_maintains|]. by intros r [H _]. Qed.
Lemma prune_maintains labels : maintains (prune labels) (fun _ => True).
Proof.
  unfold prune. generalize labels at 2. generalize (in_order labels). intros es. induction es as [|[n l] es IH]; intros acc; cbn [prune_each]; [by apply maintains_ret|].
  eapply maintains_bind; [apply attempt_metadata_maintains|]. intros r _. apply IH.
Qed.
Lemma owned_metadata_maintains name : maintains (owned_metadata name) (fun _ => True).
Proof. by eapply maintains_reads; [apply owned_metadata_reads|]. Qed.
Lemma require_live_maintains name m : maintains (require_live name m) (fun _ => True).
Proof.
  unfold require_live. eapply maintains_bind; [apply load_from_maintains|]. intros bin _.
  destruct (match bin !! name with Some l => label_matches l m | None => false end); [apply maintains_err|by apply maintains_ret].
Qed.

(** ** Thumbnails *)
Lemma thumbnails_system {A} (f : file -> gmap bytes child -> gmap bytes child * outcome DiskError A) :
  (forall made c, (f made c).2 <> Panic) -> maintains (in_thumbnails f) (fun _ => True).
Proof.
  intros Hf. apply maintains_system. intros made l Hk. destruct (l !! THUMBNAILS) as [[f'|p c|]|]; [by splits| |by splits..].
  specialize (Hf made c). destruct (f made c) as [c' r]. cbn in *. splits; [|done|done]. apply kept_insert; [|done].
  apply free_private, thumbnails_private.
Qed.
Lemma remove_thumbnail_maintains name : maintains (remove_thumbnail name) (fun _ => True).
Proof.
  apply maintains_system. intros made l Hk. destruct (l !! THUMBNAILS) as [[]|]; cbn; try by splits.
  case_if_as E; cbn; splits; try done. apply kept_insert; [|done]. apply free_private, thumbnails_private.
Qed.
Lemma open_thumbnails_maintains : maintains open_thumbnails (fun _ => True).
Proof.
  unfold open_thumbnails. eapply maintains_bind.
  { apply maintains_attempt. eapply maintains_reads with (Q := fun _ => True); [apply open_nofollow_reads|done]. }
  intros r [Hr _]. destruct r as [[f|private children|]|[]|]; try apply maintains_err; [|by apply maintains_ret].
  eapply maintains_bind; [apply call_maintains|]. intros _ _. eapply maintains_bind; [apply call_maintains|]. intros _ _.
  destruct private; [by apply maintains_ret|apply maintains_err].
Qed.
Lemma thumbnail_entries_maintains index children found : maintains (thumbnail_entries index children found) (fun _ => True).
Proof.
  revert index found. induction children as [|n children IH]; intros index found; cbn [thumbnail_entries].
  - eapply maintains_bind; [apply call_maintains|]. intros _ _. by apply maintains_ret.
  - case_if_as E; [apply maintains_err|]. eapply maintains_bind; [apply call_maintains|]. intros _ _. case_if_as E'; [|apply IH].
    eapply maintains_bind; [apply call_maintains|]. intros _ _. apply IH.
Qed.
Lemma remove_each_maintains prefix children : maintains (remove_each prefix children) (fun _ => True).
Proof.
  induction children as [|n children IH]; cbn [remove_each]; [by apply maintains_ret|].
  eapply maintains_bind with (P := fun _ => True); [|intros _ _; exact IH]. case_if_as E; [apply remove_thumbnail_maintains|by apply maintains_ret].
Qed.
Lemma thumbnails_remove_maintains m : maintains (thumbnails_remove m) (fun _ => True).
Proof.
  apply maintains_context. unfold thumbnails_cleanup. eapply maintains_bind; [apply open_thumbnails_maintains|]. intros [children|] _; [|by apply maintains_ret].
  eapply maintains_bind; [apply call_maintains|]. intros _ _. eapply maintains_bind; [apply thumbnail_entries_maintains|]. intros found _.
  eapply maintains_bind; [apply remove_each_maintains|]. intros _ _. apply call_maintains.
Qed.

(** ** The quota *)
Lemma evict_clips_maintains limit clips total removed removed_bytes :
  Forall (fun c => free (clip_path c)) clips -> maintains (evict_clips limit clips total removed removed_bytes) (fun _ => True).
Proof.
  intros H. revert total removed removed_bytes. induction H as [|c clips Hc _ IH]; intros total removed removed_bytes; cbn [evict_clips]; [by apply maintains_ret|].
  case_if_as E; [by apply maintains_ret|]. eapply maintains_bind; [apply maintains_context, symlink_metadata_maintains|]. intros m _.
  eapply maintains_bind; [apply thumbnails_remove_maintains|]. intros _ _. eapply maintains_bind; [by apply maintains_context, remove_file_maintains|].
  intros _ _. apply IH.
Qed.
Lemma used_bytes_maintains clips : maintains (used_bytes_of clips) (fun _ => True).
Proof. apply maintains_lift; [apply ok_or_no_panic|done]. Qed.
Lemma enforce_quota_maintains clips limit protected :
  Forall (fun c => free (clip_path c)) clips -> maintains (enforce_quota clips limit protected) (fun _ => True).
Proof.
  intros H. unfold enforce_quota. eapply maintains_bind; [apply used_bytes_maintains|]. intros total _.
  eapply maintains_bind; [apply evict_clips_maintains; by rewrite merge_sort_Permutation|]. intros [removed bytes] _.
  eapply maintains_bind with (P := fun _ => True); [case_if_as E; [apply maintains_context, sync_directory_maintains|by apply maintains_ret]|].
  intros _ _. by apply maintains_ret.
Qed.
(** ** Saving *)
Lemma copy_bounded_maintains limit t reads total : free t -> maintains (copy_bounded limit t reads total) (fun _ => True).
Proof.
  intros Ht. revert total. induction reads as [|[chunk|] reads IH]; intros total; cbn [copy_bounded]; [by apply maintains_ret| |apply maintains_err].
  case_if_as E; [by apply maintains_ret|]. destruct (checked_add U64_MAX total (zlen chunk)) as [total'|]; [|apply maintains_err].
  case_if_as E'; [apply maintains_err|]. eapply maintains_bind; [by apply maintains_context, append_maintains|]. intros _ _. apply IH.
Qed.
Lemma write_muxed_maintains limit chunks verdict written t : verdict <> Panic -> free t ->
  maintains (write_muxed limit chunks verdict written t) (fun _ => True).
Proof.
  intros Hv Ht. revert written. induction chunks as [|chunk chunks IH]; intros written; cbn [write_muxed].
  - eapply maintains_bind with (P := fun _ => True); [by apply maintains_lift|]. intros _ _. by apply maintains_ret.
  - case_if_as E; [apply maintains_err|]. eapply maintains_bind; [by apply maintains_context, append_maintains|]. intros _ _. apply IH.
Qed.
Lemma write_with_maintains s w t : finalized w -> free t -> maintains (write_with s w t) (fun _ => True).
Proof.
  destruct w as [chunks verdict|format maximum header reads]; cbn; intros Hv Ht; [by apply write_muxed_maintains|].
  unfold write_bounded_export. destruct header as [magic|]; [|apply maintains_err]. case_if_as E; [apply maintains_err|].
  eapply maintains_bind; [by apply maintains_context, append_maintains|]. intros _ _. by apply copy_bounded_maintains.
Qed.
Lemma commit_temporary_maintains now t extension : free t -> maintains (commit_temporary now t extension) free.
Proof.
  intros Ht. unfold commit_temporary. eapply maintains_bind with (P := fun _ => True); [apply maintains_lift; [apply ok_or_no_panic|done]|].
  intros now' _. generalize 32%nat. intros tries. induction tries as [|tries IH]; cbn [commit_loop]; [apply maintains_err|].
  eapply maintains_bind; [apply maintains_context, take_number_maintains|]. intros id _.
  eapply maintains_bind; [apply maintains_attempt, hard_link_maintains|]. intros r [Hr Hf].
  destruct r as [[]|[]|]; try apply maintains_err; [|exact IH].
  eapply maintains_bind; [by apply maintains_context, remove_file_maintains|]. intros _ _. apply maintains_ret. by apply (Hf tt).
Qed.
Lemma name_taken_maintains name : maintains (name_taken name) (fun _ => True).
Proof.
  eapply maintains_bind; [apply attempt_metadata_maintains|]. intros r _. destruct r; [apply maintains_err|by apply maintains_ret..].
Qed.
Lemma file_metadata_maintains name : maintains (file_metadata name) (fun _ => True).
Proof. apply maintains_system. intros made l Hk. destruct (l !! name) as [[]|]; by splits. Qed.
Lemma scan_maintains : maintains scan_owned_clips (fun _ => True).
Proof. by eapply maintains_reads; [apply scan_owned_clips_reads|]. Qed.

Lemma export_commit_maintains s pid stem format now t size : free t -> maintains (export_commit s pid stem format now t size) (fun _ => True).
Proof.
  intros Ht. unfold export_commit. apply call_then. eapply maintains_bind; [apply validate_store_maintains|]. intros _ _.
  eapply maintains_bind; [apply scan_maintains|]. intros owned _. eapply maintains_bind; [apply used_bytes_maintains|]. intros used _.
  case_if_as E; [apply maintains_err|].
  eapply maintains_bind with (P := fun _ => True); [apply maintains_lift; [apply ok_or_no_panic|done]|]. intros n _.
  eapply maintains_bind; [apply maintains_context, take_number_maintains|]. intros id _.
  eapply maintains_bind; [apply maintains_context, file_metadata_maintains|]. intros m _.
  eapply maintains_bind; [apply load_from_maintains|]. intros registry _. eapply maintains_bind; [apply prune_maintains|]. intros registry' _.
  eapply maintains_bind; [apply name_taken_maintains|]. intros _ _.
  eapply maintains_bind; [apply labels_save_maintains|]. intros _ _.
  eapply maintains_bind; [by apply maintains_context, rename_noreplace_maintains|]. intros _ _.
  eapply maintains_bind; [apply maintains_context, sync_directory_maintains|]. intros _ _. by apply maintains_ret.
Qed.

(** * From the state a call starts in *)
Definition starts {A} (m : store_op A) (P : A -> Prop) : Prop :=
  forall d, names d = l0 -> wp m d (fun d' r => kept S l0 (names d') /\ forall a, r = Ok a -> P a).
Lemma maintains_starts {A} (m : store_op A) P : maintains m P -> starts m P.
Proof. intros H d Hd. apply H. rewrite Hd. by intros n x Hx _. Qed.
Lemma starts_reads {A B} (m : store_op A) (k : A -> store_op B) Pr P :
  reads m Pr -> (forall a, Pr l0 a -> starts (k a) P) -> starts (m ≫= k) P.
Proof.
  intros Hm Hk d Hd. apply wp_bind. eapply wp_mono; [apply Hm|]. cbn. intros d' r Hp [Hq Hr]. rewrite Hd in Hr.
  assert (Hd' : names d' = l0) by (rewrite (quiet_names _ _ Hq); exact Hd). destruct r as [a|e|]; [by apply Hk; auto| |done].
  split; [|done]. rewrite Hd'. by intros n x Hx _.
Qed.
Lemma starts_bind {A B} (m : store_op A) (k : A -> store_op B) P Q :
  starts m P -> (forall a, P a -> maintains (k a) Q) -> starts (m ≫= k) Q.
Proof.
  intros Hm Hk d Hd. apply wp_bind. eapply wp_mono; [by apply Hm|]. cbn. intros d' r Hp [H1 H2]. destruct r as [a|e|]; [|done|done].
  apply Hk; auto.
Qed.

Lemma or_remove_starts {A} temporary (m : store_op A) P : free temporary -> starts m P -> starts (or_remove temporary m) P.
Proof.
  intros Hf Hm d Hd. specialize (Hm d Hd). unfold wp, or_remove in *. destruct (m d) as [d' r]. destruct Hm as (Hp & Hk & Hr).
  destruct r as [a|e|]; [done| |done].
  pose proof (maintains_attempt S l0 (E := string) _ _ (remove_file_maintains S l0 temporary Hf) d' Hk) as Hw. unfold wp in Hw.
  destruct (attempt (remove_file temporary) d') as [d2 r2]. cbn. destruct Hw as (_ & Hk2 & _). by splits.
Qed.

Hypothesis Hclip : forall n, is_clip l0 n -> S n.
Lemma owned_then {A} name (k : Metadata * Label -> store_op A) P :
  (forall c, is_clip l0 name -> maintains (k c) P) -> starts (_ ← validate_store; c ← owned_metadata name; k c) P.
Proof.
  intros Hk. eapply starts_reads; [apply validate_store_reads|]. intros [] _. eapply starts_reads; [apply owned_metadata_reads|].
  intros c (_ & labels & Hl & Hc). apply maintains_starts, Hk. by exists labels, c.
Qed.
Lemma clips_free clips : (exists bin labels, registry l0 TRASH_FILE = Some bin /\ registry l0 LABELS_FILE = Some labels /\ clips = clips_of l0 bin labels) ->
  Forall (fun c => free (clip_path c)) clips.
Proof.
  intros (bin & labels & _ & Hl & ->). unfold clips_of. apply Forall_forall. intros c Hc. apply list_elem_of_omap in Hc as (n & _ & Hn).
  apply free_of, Hclip. unfold scanned in Hn. destruct (utf8_valid n); [|done]. destruct (clip_at l0 labels n) as [[m l]|] eqn:Ec; [|done].
  cbn in Hn. injection Hn as <-. by exists labels, (m, l).
Qed.
End Maintains.

(** * Each call *)
Section Calls.
Context (l0 : gmap bytes node) (s : ReplayClipStore) (c : store_call).
Notation S := (owned_by_store l0 c).
Notation maintains := (maintains S l0).
Notation starts := (starts S l0).
Local Lemma private_owned n : n ∈ private_names -> S n.
Proof. by left. Qed.
Local Lemma clip_owned n : is_clip l0 n -> S n.
Proof. right. by left. Qed.
Local Lemma free_clip n : is_clip l0 n -> free S l0 n.
Proof. intros H. by apply free_of, clip_owned. Qed.
Local Lemma free_temporary t : call_temporary c = Some t -> free S l0 t.
Proof. intros H. apply free_of. right. by right. Qed.
Local Hint Resolve private_owned clip_owned free_clip free_temporary : core.

Lemma forget_starts {A} (m : store_op A) P : starts m P -> starts (forget m) (fun _ => True).
Proof. intros H. eapply starts_bind; [exact H|]. intros a _. by apply maintains_ret. Qed.
Lemma forget_maintains {A} (m : store_op A) P : maintains m P -> starts (forget m) (fun _ => True).
Proof. intros H. by eapply forget_starts, maintains_starts. Qed.

Lemma rename_starts pid file_name new_name : starts (rename_clip pid file_name new_name) (fun _ => True).
Proof.
  unfold rename_clip. case_if_as E; [apply maintains_starts, maintains_err|].
  apply (owned_then S l0 file_name (fun '(metadata, label) => _)). intros [metadata label] Hc.
  eapply maintains_bind; [apply require_live_maintains|]. intros _ _. case_if_as E'; [by apply maintains_ret|].
  eapply maintains_bind; [apply attempt_metadata_maintains|]. intros r _.
  assert (H : maintains (registry ← labels_load;
    registry ← prune registry;
    _ ← labels_save pid (<[new_name := label]> registry);
    current ← context "clip changed before rename" (symlink_metadata file_name);
    if negb (is_file current) || negb (nlink current =? 1)
       || negb ((dev current =? dev metadata) && (ino current =? ino metadata))
    then lift (Err "The clip changed. Reload before renaming it."%string)
    else
      _ ← context "could not rename replay clip" (rename_noreplace file_name new_name);
      context "could not flush renamed replay clip" sync_directory) (fun _ => True)).
  { eapply maintains_bind; [apply load_from_maintains|]. intros registry _. eapply maintains_bind; [apply prune_maintains|]. intros registry' _.
    eapply maintains_bind; [apply labels_save_maintains; auto|]. intros _ _.
    eapply maintains_bind; [apply maintains_context, symlink_metadata_maintains|]. intros current _. case_if_as E2; [apply maintains_err|].
    eapply maintains_bind; [apply maintains_context, rename_noreplace_maintains; auto|]. intros _ _. apply maintains_context, sync_directory_maintains. }
  destruct r; [apply maintains_err|exact H|exact H].
Qed.

Lemma favorite_starts pid file_name value : starts (set_favorite pid file_name value) (fun _ => True).
Proof.
  unfold set_favorite. apply (owned_then S l0 file_name (fun '(metadata, label) => _)). intros [metadata label] Hc.
  eapply maintains_bind; [apply require_live_maintains|]. intros _ _.
  eapply maintains_bind; [apply load_from_maintains|]. intros registry _. eapply maintains_bind; [apply prune_maintains|]. intros registry' _.
  apply labels_save_maintains; auto.
Qed.
Lemma trashed_starts pid file_name in_bin : starts (set_trashed pid file_name in_bin) (fun _ => True).
Proof.
  unfold set_trashed. apply (owned_then S l0 file_name (fun '(metadata, label) => _)). intros [metadata label] Hc.
  eapply maintains_bind; [apply load_from_maintains|]. intros bin _. case_if_as E; [by apply maintains_ret|].
  eapply maintains_bind; [apply prune_maintains|]. intros bin' _. apply save_to_maintains, free_private, trash_private; auto.
Qed.
Lemma delete_starts file_name : starts (delete_clip file_name) (fun _ => True).
Proof.
  unfold delete_clip. apply (owned_then S l0 file_name (fun '(metadata, label) => _)). intros [metadata label] Hc.
  case_if_as E; [apply maintains_err|]. eapply maintains_bind; [apply thumbnails_remove_maintains; auto|]. intros _ _.
  eapply maintains_bind; [apply maintains_context, remove_file_maintains; auto|]. intros _ _.
  eapply maintains_bind; [apply maintains_context, sync_directory_maintains|]. intros _ _. by apply maintains_ret.
Qed.
Lemma archive_starts file_name : starts (archive_clip file_name) (fun _ => True).
Proof.
  pose proof (free_private S l0 private_owned _ archive_private) as Ha.
  unfold archive_clip. apply (owned_then S l0 file_name (fun '(metadata, _) => _)). intros [metadata label] Hc.
  case_if_as E; [apply maintains_err|].
  eapply maintains_bind with (P := fun _ => True).
  { apply (maintains_mono _ _ _ (fun r => r <> Panic /\ forall a, r = Ok a -> True)); [|done]. apply maintains_attempt with (P := fun _ => True), maintains_system.
    intros made l Hk. by destruct (l !! ARCHIVE). }
  intros r _. eapply maintains_bind with (P := fun _ => True).
  { assert (Hp : maintains (make_private ARCHIVE) (fun _ => True)).
    { apply maintains_system. intros made l Hk. cbn. splits; [|done|done]. intros n y Hn Hs.
      destruct (decide (n = ARCHIVE)) as [->|Hne]; [by destruct (Ha _ Hn)|]. rewrite lookup_alter_ne by done. by apply Hk. }
    destruct r as [[f|[] children|]|[]|]; try apply maintains_err; [by apply maintains_ret|by apply maintains_context|].
    eapply maintains_bind with (P := fun _ => True).
    - apply maintains_context, maintains_system. intros made l Hk. destruct (l !! ARCHIVE); cbn; splits; try done. by apply kept_insert.
    - intros _ _. by apply maintains_context. }
  intros _ _. eapply maintains_bind with (P := fun _ => True).
  { apply (maintains_mono _ _ _ (fun r => r <> Panic /\ forall a, r = Ok a -> True)); [|done]. apply maintains_attempt with (P := fun _ => True), maintains_system.
    intros made l Hk. destruct (l !! ARCHIVE) as [[]|]; cbn; splits; try done; case_if_as E1; done. }
  intros r2 _. destruct r2 as [|[]|]; try apply maintains_err.
  eapply maintains_bind with (P := fun _ => True).
  - apply maintains_context, maintains_system. intros made l Hk. destruct (l !! file_name) as [n|]; [|by splits].
    destruct (l !! ARCHIVE) as [[]|]; cbn; splits; try done. apply kept_insert; [done|]. apply kept_delete; auto.
  - intros _ _. eapply maintains_bind with (P := fun _ => True); [|intros _ _; by apply maintains_ret].
    apply maintains_context. eapply maintains_bind; [apply sync_directory_maintains|]. intros _ _. apply sync_directory_maintains.
Qed.

Lemma quota_starts : starts (enforce_store_quota s) (fun _ => True).
Proof.
  unfold enforce_store_quota. eapply starts_reads; [apply validate_store_reads|]. intros [] _.
  eapply starts_reads; [apply scan_owned_clips_reads|]. intros owned Hc.
  apply maintains_starts, enforce_quota_maintains; [auto|]. (eapply clips_free; [apply clip_owned|exact Hc]).
Qed.
Lemma save_commit_starts format preserve now t size : call_temporary c = Some t ->
  starts (save_commit s format preserve now t size) (fun _ => True).
Proof.
  intros Ht. unfold save_commit.
  eapply starts_bind with (P := fun '(owned, destination) => Forall (fun c => free S l0 (clip_path c)) owned /\ free S l0 destination).
  - apply or_remove_starts; [auto|].
    eapply starts_reads with (Pr := fun l clips => exists bin labels, registry l TRASH_FILE = Some bin /\ registry l LABELS_FILE = Some labels /\ clips = clips_of l bin labels).
    + unfold save_checks. eapply reads_bind; [apply validate_store_reads|]. intros u. eapply reads_bind; [apply scan_owned_clips_reads|]. intros owned.
        assert (Hr : reads (E := string) (mret owned) (fun l (out : list OwnedClip) => out = owned)) by (by apply reads_ret).
        eapply reads_mono with (P := fun l (out : list OwnedClip) => out = owned); [|intros l out ->; auto].
        destruct preserve; [|exact Hr]. eapply reads_bind with (P := fun _ _ => True); [apply reads_lift; [apply ok_or_no_panic|done]|].
        intros used. case_if_as E; [apply reads_err|]. by apply reads_ret.
    + intros owned Hc. apply maintains_starts. apply call_then. eapply maintains_bind; [apply commit_temporary_maintains; auto|].
        intros destination Hd'. apply maintains_ret. split; [eapply clips_free; [apply clip_owned|exact Hc]|done].
  - intros [owned destination] [Ho Hd]. eapply maintains_bind; [apply maintains_context, sync_directory_maintains|]. intros _ _.
    eapply maintains_bind; [apply maintains_context, symlink_metadata_maintains|]. intros m _.
    eapply maintains_bind with (P := fun _ => True); [|intros [r b] _; by apply maintains_ret].
    destruct preserve; [by apply maintains_ret|]. apply enforce_quota_maintains; [auto|]. apply Forall_app. split; [done|].
    by apply Forall_cons.
Qed.
Lemma validate_maintains {A} (k : store_op A) P : maintains k P -> maintains (_ ← validate_store; k) P.
Proof. intros H. eapply maintains_bind; [apply validate_store_maintains|]. by intros [] _. Qed.
Lemma save_begin_maintains pid : maintains (save_begin pid) (fun _ => True).
Proof. apply validate_maintains. by eapply maintains_mono; [apply create_temporary_maintains|]. Qed.
Lemma export_begin_maintains pid stem format : maintains (export_begin pid stem format) (fun _ => True).
Proof.
  unfold export_begin. case_if_as E; [apply maintains_err|]. apply validate_maintains.
  eapply maintains_bind; [apply name_taken_maintains|]. intros _ _. by eapply maintains_mono; [apply create_temporary_maintains|].
Qed.
Lemma initialize_maintains pid : maintains (initialize_store pid) (fun _ => True).
Proof.
  unfold initialize_store. apply call_then, call_then. eapply maintains_bind; [apply attempt_metadata_maintains|]. intros r _.
  destruct r as [m|[]|]; try apply maintains_err; [apply validate_store_maintains|].
  eapply maintains_bind with (P := fun _ => True).
  { unfold directory_has_entries. apply call_then, call_then. eapply maintains_bind with (P := fun _ => True); [|intros es _; by apply maintains_ret].
    intros d Hd. unfold wp, list_names. by splits. }
  intros occupied _. destruct occupied; [apply maintains_err|]. eapply maintains_bind with (P := fun _ => True); [|intros _ _; apply validate_store_maintains].
  unfold write_marker. eapply maintains_bind; [apply create_temporary_maintains|]. intros t Ht. apply or_remove_maintains; [done|].
  eapply maintains_bind; [by apply maintains_context, append_maintains|]. intros _ _. apply call_then.
  eapply maintains_bind; [apply maintains_context, hard_link_maintains|]. intros _ _.
  eapply maintains_bind; [by apply maintains_context, remove_file_maintains|]. intros _ _. apply maintains_context, sync_directory_maintains.
Qed.
Lemma inventory_maintains in_bin : maintains (inventory_state in_bin) (fun _ => True).
Proof.
  apply validate_maintains. eapply maintains_bind; [apply scan_maintains|]. intros clips _. apply maintains_lift; [|done].
  generalize (List.filter (fun c => Bool.eqb (trashed c) in_bin) (merge_sort newer clips)). intros l. induction l as [|x l IH]; [done|].
  cbn [collect]. assert (Hx : entry_of x <> Panic) by (unfold entry_of; by case_if_as E).
  destruct (entry_of x); [|done|done]. cbn [mbind outcome_bind]. by destruct (collect entry_of l).
Qed.
Lemma cached_thumbnail_maintains name expected : maintains (cached_thumbnail name expected) (fun _ => True).
Proof.
  unfold cached_thumbnail. apply validate_maintains. eapply maintains_bind; [apply owned_metadata_maintains|]. intros [meta label] _.
  eapply maintains_bind; [apply require_live_maintains|]. intros _ _. case_if_as E; [by apply maintains_ret|]. apply maintains_context.
  eapply maintains_bind; [apply open_thumbnails_maintains|]. intros [children|] _; [|by apply maintains_ret].
  eapply maintains_bind; [apply call_maintains|]. intros _ _. destruct (children !! thumbnail_key meta) as [[cached| |]|]; [|apply maintains_err| |by apply maintains_ret].
  - eapply maintains_bind; [apply call_maintains|]. intros _ _. case_if_as E1; [by apply maintains_ret|].
    eapply maintains_bind; [apply call_maintains|]. intros _ _. by apply maintains_ret.
  - eapply maintains_bind; [apply call_maintains|]. intros _ _. by apply maintains_ret.
Qed.
Lemma drop_superseded_maintains prefix found kept : maintains (drop_superseded prefix found kept) (fun _ => True).
Proof.
  revert kept. induction found as [|[n t] found IH]; intros kept'; cbn [drop_superseded]; [by apply maintains_ret|].
  case_if_as E; [|apply IH]. eapply maintains_bind; [apply remove_thumbnail_maintains; auto|]. intros _ _. apply IH.
Qed.
Lemma drop_oldest_maintains entries : maintains (drop_oldest entries) (fun _ => True).
Proof.
  induction entries as [|[n t] entries IH]; cbn [drop_oldest]; case_if_as E; try by apply maintains_ret.
  eapply maintains_bind; [apply remove_thumbnail_maintains; auto|]. intros _ _. apply IH.
Qed.
Lemma cache_thumbnail_maintains name expected content : maintains (cache_thumbnail name expected content) (fun _ => True).
Proof.
  unfold cache_thumbnail. apply validate_maintains. eapply maintains_bind; [apply owned_metadata_maintains|]. intros [meta label] _.
  eapply maintains_bind; [apply require_live_maintains|]. intros _ _. case_if_as E; [apply maintains_err|]. apply maintains_context.
  eapply maintains_bind with (P := fun r => r <> Panic).
  { eapply maintains_mono; [apply maintains_attempt with (P := fun _ => True)|by intros r [H _]]. apply maintains_system.
    intros made l Hk. destruct (l !! THUMBNAILS); cbn; splits; try done. apply kept_insert; [|done]. apply free_private; [auto|]. apply thumbnails_private. }
  intros r Hr. eapply maintains_bind with (P := fun _ => True); [destruct r as [|[]|]; first [by apply maintains_ret|apply maintains_err]|]. intros _ _.
  eapply maintains_bind; [apply open_thumbnails_maintains|]. intros o _.
  eapply maintains_bind with (P := fun _ => True); [apply maintains_lift; [apply ok_or_no_panic|done]|]. intros children _.
  eapply maintains_bind; [apply call_maintains|]. intros _ _. eapply maintains_bind; [apply thumbnail_entries_maintains|]. intros found _.
  eapply maintains_bind; [apply drop_superseded_maintains|]. intros kept' _. eapply maintains_bind; [apply drop_oldest_maintains|]. intros _ _.
  assert (Hin : forall A (f : file -> gmap bytes child -> gmap bytes child * outcome DiskError A),
    (forall made c, (f made c).2 <> Panic) -> maintains (in_thumbnails f) (fun _ => True)) by (intros A f; apply thumbnails_system; auto).
  eapply maintains_bind with (P := fun _ => True); [apply Hin; intros made ch; by destruct (ch !! _)|]. intros _ _.
  eapply maintains_bind with (P := fun r => r <> Panic).
  { eapply maintains_mono; [apply maintains_attempt with (P := fun _ => True)|by intros r' [H _]].
    eapply maintains_bind with (P := fun _ => True); [by apply Hin|]. intros _ _. apply Hin. intros made ch. by destruct (ch !! _). }
  intros r2 Hr2. eapply maintains_bind with (P := fun _ => True).
  { eapply maintains_mono; [apply maintains_attempt, remove_thumbnail_maintains; auto|done]. }
  intros _ _. by apply maintains_lift.
Qed.

Lemma exec_starts : call_ok c -> starts (exec s c) (fun _ => True).
Proof.
  intros Hok. assert (Ht : forall t, call_temporary c = Some t -> free S l0 t) by auto.
  destruct c as [pid|in_bin|pid f n|pid f v|pid f v|f|f| |pid|w t|format preserve now t size|pid stem format|pid stem format now w t|n e|n e content] eqn:Ec;
    cbn [exec call_ok] in *; rewrite <- Ec in *.
  - apply maintains_starts, initialize_maintains.
  - eapply forget_maintains, inventory_maintains.
  - apply rename_starts.
  - apply favorite_starts.
  - apply trashed_starts.
  - eapply forget_starts, delete_starts.
  - eapply forget_starts, archive_starts.
  - eapply forget_starts, quota_starts.
  - eapply forget_maintains, save_begin_maintains.
  - eapply forget_maintains, or_remove_maintains, write_with_maintains; try done; apply Ht; by rewrite Ec.
  - eapply forget_starts, save_commit_starts. by rewrite Ec.
  - eapply forget_maintains, export_begin_maintains.
  - eapply forget_maintains, and_remove_maintains; [apply Ht; by rewrite Ec|].
    eapply maintains_bind; [apply write_with_maintains; [done|apply Ht; by rewrite Ec]|]. intros size _.
    apply export_commit_maintains; [auto|apply Ht; by rewrite Ec].
  - eapply forget_maintains, cached_thumbnail_maintains.
  - apply maintains_starts, cache_thumbnail_maintains.
Qed.
End Calls.

(** C21: The store touches nothing but what it takes for its own: a call (saving,
    exporting, renaming, marking, deleting, archiving, the quota, thumbnails)
    leaves an entry of the directory as it was, contents included, unless it is
    one of the store's four private names, or the temporary file the call was
    given, or a regular file with one link whose name has the form of a clip's
    ([redunar-replay-], one to three numbers, [.mkv] or [.mp4]) or to whose inode
    the registry binds a label under this name.  The form is wider than the
    names that are generated, so a file a user named like that is not
    protected; see [quota_evicts_other_names].  This holds for any directory, also
    one with a damaged or hostile registry, and whichever system calls fail. *)
Theorem foreign_files_untouched s c d name entry :
  call_ok c -> names d !! name = Some entry -> ~ belongs (names d) c name entry ->
  names (exec s c d).1 !! name = Some entry.
Proof.
  intros Hok Hn Ho. pose proof (exec_starts (names d) s c Hok d eq_refl) as H. unfold wp in H.
  destruct (exec s c d) as [d' r]. cbn. destruct H as (_ & Hk & _). apply Hk; [done|]. intros Hw. by apply Ho, owned_belongs.
Qed.

(** * A user's file beside clips *)
Module Sample.
Definition entry (inode time : Z) (content : bytes) : node :=
  Regular {| f_dev := 1; f_ino := inode; f_links_outside := 0; f_mtime := time; f_mtime_nsec := 0; f_uid := 0; f_bytes := content |}.
Definition disk (fault : nat -> bool) : Disk := {|
  names := list_to_map [
    (STORE_MARKER, entry 1 0 STORE_MARKER_CONTENTS);
    (ascii_bytes "redunar-replay-10-000000000-1.mkv", entry 2 10 [1; 2; 3]);
    (ascii_bytes "redunar-replay-20-000000000-2.mp4", entry 3 20 [4; 5]);
    (ascii_bytes "holiday.mkv", entry 4 5 [6; 7; 8; 9])];
  calls := 0; next_file := 3; faults := fault;
  fresh := fun n => {| f_dev := 1; f_ino := 100 + Z.of_nat n; f_links_outside := 0; f_mtime := 40; f_mtime_nsec := 0; f_uid := 0; f_bytes := [] |} |}.
Definition store : ReplayClipStore := {| maximum_clip_bytes := 1; storage_limit_bytes := 1 |}.
Notation no_fault := (fun _ : nat => false).
(** The quota removes both clips and keeps the file. *)
Example cleared : (map_to_list (names (exec store EnforceQuota (disk no_fault)).1)).*1 ≡ₚ [STORE_MARKER; ascii_bytes "holiday.mkv"].
Proof. vm_compute. solve_Permutation. Qed.
Lemma holiday_foreign : ~ belongs (names (disk no_fault)) EnforceQuota (ascii_bytes "holiday.mkv") (entry 4 5 [6; 7; 8; 9]).
Proof.
  intros [H|[H|(f & _ & _ & [(middle & suffix & H & _)|(labels & label & Hl & Hn & _)])]].
  - repeat (apply elem_of_cons in H as [H|H]; [discriminate H|]). by apply elem_of_nil in H.
  - discriminate H.
  - discriminate H.
  - assert (Hl' : registry (names (disk no_fault)) LABELS_FILE = Some ∅) by (vm_compute; reflexivity).
    rewrite Hl' in Hl. injection Hl as <-. by rewrite lookup_empty in Hn.
Qed.
Lemma foreign_files_untouched_witness :
  names (disk no_fault) !! ascii_bytes "holiday.mkv" = Some (entry 4 5 [6; 7; 8; 9])
  /\ names (exec store EnforceQuota (disk no_fault)).1 !! ascii_bytes "holiday.mkv" = Some (entry 4 5 [6; 7; 8; 9]).
Proof.
  split; [vm_compute; reflexivity|]. apply foreign_files_untouched; [exact I|vm_compute; reflexivity|exact holiday_foreign].
Defined.

(** The quota also removes a file that a user named [redunar-replay-1.mkv], which
    no save generates (those have three numbers), and a clip that was renamed. *)
Definition label : Label :=
  {| original := ascii_bytes "redunar-replay-9-000000000-1.mkv"; favorite := true; label_dev := 1; label_ino := 6 |}.
Definition crowded : Disk := {|
  names := list_to_map [
    (STORE_MARKER, entry 1 0 STORE_MARKER_CONTENTS);
    (ascii_bytes "redunar-replay-1.mkv", entry 5 5 [6; 7; 8; 9]);
    (ascii_bytes "Best run.mkv", entry 6 6 [1; 2]);
    (LABELS_FILE, entry 7 20 (labels_text {[ ascii_bytes "Best run.mkv" := label ]}))];
  calls := 0; next_file := 3; faults := no_fault; fresh := fresh (disk no_fault) |}.
Lemma quota_evicts_other_names :
  (exec store EnforceQuota crowded).2 = Ok tt
  /\ names crowded !! ascii_bytes "redunar-replay-1.mkv" = Some (entry 5 5 [6; 7; 8; 9])
  /\ names (exec store EnforceQuota crowded).1 !! ascii_bytes "redunar-replay-1.mkv" = None
  /\ names crowded !! ascii_bytes "Best run.mkv" = Some (entry 6 6 [1; 2])
  /\ names (exec store EnforceQuota crowded).1 !! ascii_bytes "Best run.mkv" = None.
Proof. vm_compute. repeat split; reflexivity. Qed.
End Sample.
