(* ===== verification/StoreQuota.v ===== *)
(** The quota and the commit of a clip: what is evicted and in which order, and
    that a recording goes only after the new one has its name. *)
From stdpp Require Import gmap strings sorting.
From S2P Require Import Prelude Bytes Text Arith Paths Preferences StoreDisk StoreLabels StoreLabelsFacts Store StoreFacts.
Local Open Scope Z_scope.

(** * Eviction *)
Definition total_bytes (clips : list OwnedClip) : Z := sum_Z (map clip_bytes clips).
(** [l'] is [l] without the names in [gone], the thumbnails aside. *)
Definition without (gone : list bytes) (l l' : gmap bytes node) : Prop :=
  forall n, n <> THUMBNAILS -> l' !! n = if decide (n ∈ gone) then None else l !! n.
(** Only the thumbnails differ. *)
Definition thumbs_only (l l' : gmap bytes node) : Prop := forall n, n <> THUMBNAILS -> l' !! n = l !! n.

Lemma without_nil l l' : without [] l l' <-> thumbs_only l l'.
Proof. unfold without, thumbs_only. split; intros H n Hn; specialize (H n Hn); rewrite decide_False in * by apply not_elem_of_nil; done. Qed.
Lemma thumbs_only_refl l : thumbs_only l l.
Proof. by intros n _. Qed.

Definition edits {E A} (m : st Disk E A) : Prop := forall d, wp m d (fun d' _ => thumbs_only (names d) (names d')).
Section Edits.
Context {E : Type}.
Lemma edits_bind {A B} (m : st Disk E A) (k : A -> st Disk E B) : edits m -> (forall a, edits (k a)) -> edits (m ≫= k).
Proof.
  intros Hm Hk d. apply wp_bind. eapply wp_mono; [apply Hm|]. cbn. intros d' r _ H. destruct r as [a|e|]; [|done|done].
  eapply wp_mono; [apply Hk|]. cbn. intros d2 r2 _ H2 n Hn. rewrite H2, H by done. done.
Qed.
Lemma edits_reads {A} (m : st Disk E A) P : reads m P -> edits m.
Proof. intros H d. eapply wp_mono; [apply H|]. cbn. intros d' r _ [Hq _]. rewrite (quiet_names _ _ Hq). apply thumbs_only_refl. Qed.
Lemma edits_ret {A} (a : A) : edits (E := E) (mret a).
Proof. intros d. apply wp_ret, thumbs_only_refl. Qed.
Lemma edits_err {A} (e : E) : edits (A := A) (lift (Err e)).
Proof. intros d. apply wp_lift; [done|]. apply thumbs_only_refl. Qed.
End Edits.
Lemma edits_context {E A} (e : E) (m : st Disk DiskError A) : edits m -> edits (context e m).
Proof. intros H d. apply wp_context. by eapply wp_mono; [apply H|]. Qed.
Lemma edits_call : edits call.
Proof. by eapply edits_reads, (reads_call (fun _ _ => True)). Qed.
Lemma remove_thumbnail_edits name : edits (remove_thumbnail name).
Proof.
  intros d. unfold wp, remove_thumbnail, system_call. case_if_as E; [split; [done|apply thumbs_only_refl]|].
  destruct (names d !! THUMBNAILS) as [[]|]; cbn; try (split; [done|apply thumbs_only_refl]).
  case_if_as E'; cbn; (split; [done|]); [|apply thumbs_only_refl]. intros n Hn. by rewrite lookup_insert_ne.
Qed.
Lemma thumbnails_remove_edits m : edits (thumbnails_remove m).
Proof.
  apply edits_context. unfold thumbnails_cleanup. apply edits_bind.
  - unfold open_thumbnails. apply edits_bind.
    + intros d. apply wp_attempt. eapply wp_mono; [apply open_nofollow_reads|]. cbn. intros d' r _ [Hq _]. rewrite (quiet_names _ _ Hq). apply thumbs_only_refl.
    + intros r. destruct r as [[f|private children|]|[]|]; try apply edits_err; [|apply edits_ret].
      apply edits_bind; [apply edits_call|]. intros _. apply edits_bind; [apply edits_call|]. intros _.
      destruct private; [apply edits_ret|apply edits_err].
  - intros [children|]; [|apply edits_ret]. apply edits_bind; [apply edits_call|]. intros _. apply edits_bind.
    + generalize 0, (@nil bytes). generalize ((map_to_list children).*1). intros es. induction es as [|n es IH]; intros i acc; cbn [thumbnail_entries].
      * apply edits_bind; [apply edits_call|]. intros _. apply edits_ret.
      * case_if_as E; [apply edits_err|]. apply edits_bind; [apply edits_call|]. intros _. case_if_as E'; [|apply IH].
        apply edits_bind; [apply edits_call|]. intros _. apply IH.
    + intros found. apply edits_bind; [|intros _; apply edits_call]. induction found as [|n found IH]; cbn [remove_each]; [apply edits_ret|].
      apply edits_bind; [case_if_as E; [apply remove_thumbnail_edits|apply edits_ret]|]. intros _. exact IH.
Qed.

(** What evicting [clips] from [d] does: the first [k] go, and only as long as
    the clips from there on take more than the limit. *)
Definition evicted (limit : Z) (clips : list OwnedClip) (d d' : Disk) (k : nat) : Prop :=
  (k <= length clips)%nat /\ without (clip_path <$> take k clips) (names d) (names d') /\
  (forall j, (j < k)%nat -> limit < total_bytes (drop j clips)).
Definition settled (limit : Z) (clips : list OwnedClip) (k : nat) : Prop :=
  k = length clips \/ total_bytes (drop k clips) <= limit.

Lemma clips_total_nonneg clips : Forall (fun c => 0 <= clip_bytes c) clips -> 0 <= total_bytes clips.
Proof. intros H. apply sum_Z_nonneg. induction H; by constructor. Qed.
Lemma clips_total_cons c clips : total_bytes (c :: clips) = clip_bytes c + total_bytes clips.
Proof. done. Qed.

Lemma evicted_none limit clips d d' : thumbs_only (names d) (names d') -> evicted limit clips d d' 0.
Proof. intros H. split; [lia|]. split; [by apply without_nil|]. intros j Hj. lia. Qed.
Lemma evicted_step limit c clips d d1 d' k :
  clip_path c <> THUMBNAILS -> Forall (fun c => clip_path c <> THUMBNAILS) clips ->
  without [clip_path c] (names d) (names d1) -> limit < total_bytes (c :: clips) ->
  evicted limit clips d1 d' k -> evicted limit (c :: clips) d d' (S k).
Proof.
  intros Hc Hcs Hw Hl (H1 & H2 & H3). split; [cbn; lia|]. split.
  - intros n Hn. rewrite (H2 n Hn). cbn [take fmap list_fmap]. destruct (decide (n ∈ clip_path <$> take k clips)) as [Hin|Hin].
    + by rewrite decide_True by by right.
    + rewrite (Hw n Hn). destruct (decide (n ∈ [clip_path c])) as [H|H].
      * apply list_elem_of_singleton in H as ->. rewrite decide_True by left. done.
      * rewrite decide_False; [done|]. intros H'. apply elem_of_cons in H' as [->|H']; [apply H; left|done].
  - intros [|j] Hj; [exact Hl|]. apply H3. lia.
Qed.

Lemma remove_file_without name d : wp (remove_file name) d (fun d' r =>
  (r = Ok tt /\ without [name] (names d) (names d')) \/ ((forall a, r <> Ok a) /\ names d' = names d)).
Proof.
  unfold wp, remove_file, system_call. case_if_as E; [split; [done|]; by right|].
  assert (Hw : without [name] (names d) (delete name (names d))).
  { intros n _. destruct (decide (n ∈ [name])) as [H|H]; [apply list_elem_of_singleton in H as ->; apply lookup_delete_eq|].
    apply lookup_delete_ne. intros ->. apply H. left. }
  destruct (names d !! name) as [[f|p ch|]|] eqn:En; cbn; (split; [done|]); auto.
Qed.

Lemma evict_clips_exact limit clips total removed removed_bytes d :
  Forall (fun c => 0 <= clip_bytes c /\ clip_path c <> THUMBNAILS) clips -> total = total_bytes clips ->
  0 <= removed_bytes -> removed_bytes + total <= U64_MAX -> 0 <= removed -> removed + zlen clips <= U32_MAX ->
  wp (evict_clips limit clips total removed removed_bytes) d (fun d' r => exists k, evicted limit clips d d' k /\
    forall a, r = Ok a -> a = (removed + Z.of_nat k, removed_bytes + total_bytes (take k clips)) /\ settled limit clips k).
Proof.
  intros Hc. revert total removed removed_bytes d.
  induction Hc as [|c clips [Hc Hp] Hcs IH]; intros total removed removed_bytes d -> H0 H1 H2 H3; cbn [evict_clips].
  - apply wp_ret. exists 0%nat. split; [apply evicted_none, thumbs_only_refl|]. intros a [= <-]. split; [|by left].
    f_equal; unfold total_bytes; cbn; lia.
  - rewrite zlen_cons, clips_total_cons in *. pose proof (zlen_nonneg clips).
    assert (Hnn : Forall (fun c => 0 <= clip_bytes c) clips) by (eapply Forall_impl; [exact Hcs|]; cbn; tauto).
    pose proof (clips_total_nonneg clips Hnn). destruct (Z.leb_spec (clip_bytes c + total_bytes clips) limit) as [Hle|Hgt].
    { apply wp_ret. exists 0%nat. split; [apply evicted_none, thumbs_only_refl|]. intros a [= <-]. split; [|right; exact Hle].
      f_equal; unfold total_bytes; cbn; lia. }
    assert (Hstop : forall d' (r : outcome string (Z * Z)), (forall a, r <> Ok a) -> thumbs_only (names d) (names d') -> exists k, evicted limit (c :: clips) d d' k /\
      forall a, r = Ok a -> a = (removed + Z.of_nat k, removed_bytes + total_bytes (take k (c :: clips))) /\ settled limit (c :: clips) k).
    { intros d' r Hr Ht. exists 0%nat. split; [by apply evicted_none|]. intros a Ha. by destruct (Hr a). }
    apply wp_bind, wp_context. eapply wp_mono; [apply symlink_metadata_reads|]. cbn. intros d1 r1 Hr1 [Hq _].
    destruct r1 as [m|e|]; cbn [map_err]; [|apply Hstop; [done|rewrite (quiet_names _ _ Hq); apply thumbs_only_refl]|done].
    apply wp_bind. eapply wp_mono; [apply thumbnails_remove_edits|]. cbn. intros d2 r2 _ Ht. rewrite (quiet_names _ _ Hq) in Ht.
    destruct r2 as [[]|e|]; [|by apply Hstop|done].
    apply wp_bind, wp_context. eapply wp_mono; [apply remove_file_without|]. cbn. intros d3 r3 Hr3 [[-> Hw]|[Hn Hq3]].
    2: { destruct r3 as [a|e|]; [by destruct (Hn a)| |done]. cbn [map_err]. apply Hstop; [done|]. by rewrite Hq3. }
    cbn [map_err]. assert (Hw' : without [clip_path c] (names d) (names d3)).
    { intros n Hn. rewrite (Hw n Hn). by rewrite (Ht n Hn). }
    unfold sat_sub, sat_add. rewrite Z.max_r, Z.min_r, Z.min_r by lia.
    replace (clip_bytes c + total_bytes clips - clip_bytes c) with (total_bytes clips) by lia.
    eapply wp_mono; [apply IH; try lia|]. cbn. intros d4 r4 _ (k & Hk & Hr). exists (S k). split.
    + eapply evicted_step; [done| |exact Hw'|rewrite clips_total_cons; lia|exact Hk]. eapply Forall_impl; [exact Hcs|]. cbn. tauto.
    + intros a Ha. destruct (Hr a Ha) as (-> & Hs). split.
      * cbn [take]. rewrite clips_total_cons. f_equal; lia.
      * destruct Hs as [->|Hs]; [by left|by right].
Qed.

(** * The order of eviction *)
Lemma bytes_le_refl a : bytes_le a a = true.
Proof. induction a as [|x a IH]; [done|]. cbn. by rewrite Z.eqb_refl, IH, orb_true_r. Qed.
Lemma bytes_le_total a b : bytes_le a b = true \/ bytes_le b a = true.
Proof.
  revert b. induction a as [|x a IH]; intros [|y b]; cbn; auto. destruct (Z.ltb_spec x y) as [H|H]; [by left|]. cbn.
  destruct (Z.ltb_spec y x) as [H'|H']; [by right|]. assert (x = y) as -> by lia. rewrite Z.eqb_refl. cbn. apply IH.
Qed.
Lemma bytes_le_trans a b c : bytes_le a b = true -> bytes_le b c = true -> bytes_le a c = true.
Proof.
  revert b c. induction a as [|x a IH]; intros [|y b] [|z c]; cbn; try done.
  rewrite !orb_true_iff, !andb_true_iff, !Z.ltb_lt, !Z.eqb_eq. intros [H1|[-> H1]] [H2|[-> H2]]; try (left; lia). right. split; [done|]. by apply (IH b).
Qed.
#[global] Instance evicted_before_trans protected : Transitive (evicted_before protected).
Proof.
  intros a b c [[H1 H2]|[H1 H2]] [[H3 H4]|[H3 H4]]; [congruence|left; split; congruence|left; split; congruence|right].
  split; [congruence|]. destruct H2 as [H2|[H2 H2']], H4 as [H4|[H4 H4']]; [left; lia..|right]. split; [lia|]. by eapply bytes_le_trans.
Qed.
#[global] Instance evicted_before_total protected : Total (evicted_before protected).
Proof.
  intros a b. unfold evicted_before.
  destruct (bool_decide (protected = Some (clip_path a))), (bool_decide (protected = Some (clip_path b))); auto.
  - destruct (Z.lt_total (modified a) (modified b)) as [|[|]]; [left; auto| |right; auto].
    destruct (bytes_le_total (clip_path a) (clip_path b)); [left|right]; auto.
  - destruct (Z.lt_total (modified a) (modified b)) as [|[|]]; [left; auto| |right; auto].
    destruct (bytes_le_total (clip_path a) (clip_path b)); [left|right]; auto.
Qed.
(** The order in which [enforce_quota] goes through the clips. *)
Definition eviction_order (protected : option bytes) (clips : list OwnedClip) : list OwnedClip := merge_sort (evicted_before protected) clips.
Lemma eviction_order_perm protected clips : eviction_order protected clips ≡ₚ clips.
Proof. apply merge_sort_Permutation. Qed.
(** No clip that stays is older than one that goes, the protected one aside. *)
Lemma oldest_first protected clips k gone stays :
  gone ∈ take k (eviction_order protected clips) -> stays ∈ drop k (eviction_order protected clips) ->
  protected <> Some (clip_path stays) -> modified gone <= modified stays.
Proof.
  intros Hg Hs Hp. assert (H : StronglySorted (evicted_before protected) (eviction_order protected clips)) by apply (StronglySorted_merge_sort _).
  rewrite <- (take_drop k) in H. rewrite StronglySorted_app in H. destruct H as (H & _ & _). destruct (H gone stays Hg Hs) as [[_ H']|[_ H']]; [|lia].
  by apply bool_decide_eq_true in H'.
Qed.
(** The protected clip goes last. *)
Lemma protected_last name clips k c : clip_path c = name -> c ∈ take k (eviction_order (Some name) clips) ->
  Forall (fun c => clip_path c = name) (drop k (eviction_order (Some name) clips)).
Proof.
  intros Hc Hg. apply Forall_forall. intros x Hx.
  assert (H : StronglySorted (evicted_before (Some name)) (eviction_order (Some name) clips)) by apply (StronglySorted_merge_sort _).
  rewrite <- (take_drop k) in H. rewrite StronglySorted_app in H. destruct H as (H & _ & _). destruct (H c x Hg Hx) as [[H' _]|[H' _]].
  - apply bool_decide_eq_false in H'. by rewrite Hc in H'.
  - rewrite bool_decide_true in H' by by rewrite Hc. symmetry in H'. apply bool_decide_eq_true in H'. by injection H'.
Qed.

Lemma sum_Z_cons x l : sum_Z (x :: l) = x + sum_Z l.
Proof. done. Qed.
Lemma sum_checked_Some sizes total x : Forall (fun n => 0 <= n) sizes -> sum_checked sizes total = Some x ->
  x = total + sum_Z sizes /\ (x = total \/ x <= U64_MAX).
Proof.
  intros H. revert total. induction H as [|n sizes Hn H IH]; intros total; cbn [sum_checked].
  - intros [= <-]. unfold sum_Z. cbn. lia.
  - destruct (checked_add U64_MAX total n) as [t|] eqn:E; [|done]. cbn [mbind option_bind]. apply checked_add_Some in E as [Hs ->].
    intros Hx. apply IH in Hx. rewrite sum_Z_cons. lia.
Qed.
Lemma total_perm clips clips' : clips ≡ₚ clips' -> total_bytes clips = total_bytes clips'.
Proof. intros H. unfold total_bytes. induction H; rewrite ?map_cons, ?sum_Z_cons; try done; lia. Qed.
Lemma used_bytes_reads clips (P : Z -> Prop) : Forall (fun c => 0 <= clip_bytes c) clips ->
  (total_bytes clips <= U64_MAX -> P (total_bytes clips)) -> reads (used_bytes_of clips) (fun _ => P).
Proof.
  intros Hc HP. apply reads_lift; [apply ok_or_no_panic|]. intros a Ha _. apply ok_or_Ok in Ha.
  assert (Hc' : Forall (fun n => 0 <= n) (map clip_bytes clips)) by (clear -Hc; induction Hc; constructor; done).
  destruct (sum_checked_Some _ _ _ Hc' Ha) as [Ha1 Ha2]. rewrite Z.add_0_l in Ha1. subst a. apply HP. unfold total_bytes.
  destruct Ha2 as [Ha2|Ha2]; [|exact Ha2]. rewrite Ha2. unfold U64_MAX. lia.
Qed.

Lemma enforce_quota_exact clips limit protected d :
  Forall (fun c => 0 <= clip_bytes c /\ clip_path c <> THUMBNAILS) clips -> zlen clips <= U32_MAX -> 
  let order := eviction_order protected clips in
  wp (enforce_quota clips limit protected) d (fun d' r => exists k, evicted limit order d d' k /\
    forall a, r = Ok a -> a = (Z.of_nat k, total_bytes (take k order)) /\ settled limit order k).
Proof.
  intros Hc Hl. cbv zeta. unfold enforce_quota. change (merge_sort (evicted_before protected) clips) with (eviction_order protected clips).
  set (order := eviction_order protected clips).
  assert (Ho : Forall (fun c => 0 <= clip_bytes c /\ clip_path c <> THUMBNAILS) order) by (unfold order; by rewrite eviction_order_perm).
  assert (Hlo : zlen order <= U32_MAX) by (unfold zlen, order in *; by rewrite eviction_order_perm).
  assert (Hstop : forall d' (r : outcome string (Z * Z)), (forall a, r <> Ok a) -> thumbs_only (names d) (names d') -> exists k, evicted limit order d d' k /\
      forall a, r = Ok a -> a = (Z.of_nat k, total_bytes (take k order)) /\ settled limit order k).
  { intros d' r Hr Ht. exists 0%nat. split; [by apply evicted_none|]. intros a Ha. by destruct (Hr a). }
  apply wp_bind. eapply wp_mono.
  { apply (used_bytes_reads order (fun x => x = total_bytes order /\ total_bytes order <= U64_MAX)); [|done]. eapply Forall_impl; [exact Ho|]. cbn. tauto. }
  cbn. intros d1 r1 _ [Hq Hr1]. destruct r1 as [total|e|]; [|apply Hstop; [done|rewrite (quiet_names _ _ Hq); apply thumbs_only_refl]|done].
  destruct (Hr1 total eq_refl) as [-> Hb]. apply wp_bind. eapply wp_mono.
  { apply evict_clips_exact; [exact Ho|done|lia|lia|lia|lia]. }
  cbn. intros d2 r2 _ (k & Hk & Hr2). assert (Hk' : evicted limit order d d2 k).
  { destruct Hk as (H1 & H2 & H3). unfold evicted. splits; [done| |done]. by rewrite <- (quiet_names _ _ Hq). }
  destruct r2 as [[removed removed_bytes]|e|]; [|by exists k|done]. destruct (Hr2 _ eq_refl) as [Ha Hs]. injection Ha as -> ->.
  apply wp_bind. eapply wp_mono.
  { assert (Hd : reads (E := string) (if 0 <? 0 + Z.of_nat k then context "could not flush replay quota cleanup" sync_directory else mret tt) (fun _ _ => True)).
    { case_if_as E; [|by apply reads_ret]. apply reads_context. eapply reads_bind; [by apply (reads_call (fun _ _ => True))|]. intros u. by apply reads_call. }
    apply Hd. }
  cbn. intros d3 r3 _ [Hq3 _]. assert (Hk3 : evicted limit order d d3 k).
  { destruct Hk' as (H1 & H2 & H3). unfold evicted. splits; [done| |done]. by rewrite (quiet_names _ _ Hq3). }
  destruct r3 as [[]|e|]; [|by exists k|done]. split; [done|]. cbn beta. exists k. split; [done|]. intros a [= <-]. split; [|done]. f_equal; lia.
Qed.
