(* ===== verification/StoreSave.v ===== *)
(** Committing a clip: the new recording gets its name first, and only then do
    the oldest ones go, no more of them than the limit asks for. *)
From stdpp Require Import gmap strings sorting.
From S2P Require Import Prelude Bytes Text Arith Paths Preferences StoreDisk StoreLabels StoreLabelsFacts Store StoreFacts StoreQuota.
Local Open Scope Z_scope.

(** * Names *)
(** The generated names are recognised as such. *)
Definition digit (b : Z) : Prop := 48 <= b <= 57.
Lemma digits_of x : 0 <= x <= U64_MAX -> Forall digit (to_decimal x) /\ to_decimal x <> [].
Proof. intros Hx. destruct (to_decimal_of x Hx) as ((ds & _ & _ & H & Hc) & _). done. Qed.
Lemma padded_digits n : 0 <= n <= U64_MAX -> Forall digit (padded_nanoseconds n) /\ padded_nanoseconds n <> [].
Proof.
  intros Hn. destruct (digits_of n Hn) as [H1 H2]. unfold padded_nanoseconds. split.
  - apply Forall_app. split; [|done]. apply Forall_replicate. unfold digit. lia.
  - intros E. apply app_eq_nil in E as [_ E]. done.
Qed.
Lemma digit_field w : Forall digit w -> w <> [] -> negb (bytes_eqb w []) && forallb is_ascii_digit w = true.
Proof.
  intros H Hn. destruct w as [|b w]; [done|]. cbn [negb bytes_eqb]. apply andb_true_iff. split; [done|].
  apply forallb_forall. intros x Hx. apply list_elem_of_In in Hx. rewrite Forall_forall in H. specialize (H x Hx). unfold is_ascii_digit, digit in *.
  rewrite (proj2 (Z.leb_le _ _)), (proj2 (Z.leb_le _ _)) by lia. done.
Qed.
Lemma digit_dash w : Forall digit w -> Forall (fun c => Z.eqb 45 c = false) w.
Proof. intros H. eapply Forall_impl; [exact H|]. unfold digit. intros x Hx. apply Z.eqb_neq. lia. Qed.
Lemma digit_ascii w : Forall digit w -> Forall (fun b => b < 128) w.
Proof. intros H. eapply Forall_impl; [exact H|]. unfold digit. intros x Hx. cbn in *. lia. Qed.
Lemma strip_suffix_other a b bs : length a = length b -> a <> b -> strip_suffix a (bs ++ b) = None.
Proof.
  intros Hl Hn. unfold strip_suffix. rewrite length_app, (proj2 (Nat.leb_le _ _)) by lia. rewrite Hl.
  replace (length bs + length b - length b)%nat with (length bs) by lia. rewrite drop_app_length. unfold bytes_eqb. by rewrite bool_decide_false by done.
Qed.
Lemma clip_name_owned now id format : 0 <= now.1 <= U64_MAX -> 0 <= now.2 <= U64_MAX -> 0 <= id <= U64_MAX ->
  is_owned_clip_name (clip_name now id (extension format)) = true.
Proof.
  intros H1 H2 H3. destruct (digits_of _ H1) as [D1 N1], (padded_digits _ H2) as [D2 N2], (digits_of _ H3) as [D3 N3].
  unfold clip_name, is_owned_clip_name. rewrite strip_prefix_app.
  assert (Hs : forall x, to_decimal now.1 ++ 45 :: padded_nanoseconds now.2 ++ 45 :: to_decimal id ++ 46 :: x =
    (to_decimal now.1 ++ 45 :: padded_nanoseconds now.2 ++ 45 :: to_decimal id) ++ 46 :: x).
  { intros x. rewrite <- app_assoc. cbn [app]. rewrite <- app_assoc. done. }
  rewrite Hs. set (middle := to_decimal now.1 ++ 45 :: padded_nanoseconds now.2 ++ 45 :: to_decimal id).
  assert (Hm : match match strip_suffix MATROSKA_SUFFIX (middle ++ 46 :: extension format) with Some m => Some m
      | None => strip_suffix MP4_SUFFIX (middle ++ 46 :: extension format) end with None => false | Some m => bytes_eqb m middle end = true).
  { destruct format.
    - change (46 :: extension Matroska) with MATROSKA_SUFFIX. rewrite strip_suffix_app. apply bytes_eqb_refl.
    - change (46 :: extension Mp4) with MP4_SUFFIX. rewrite strip_suffix_other by done. rewrite strip_suffix_app. apply bytes_eqb_refl. }
  destruct (match strip_suffix _ _ with Some m => Some m | None => _ end) as [m|]; [|done]. apply bool_decide_eq_true in Hm. subst m.
  apply andb_true_iff. split.
  - apply utf8_ascii, Forall_app. split; [apply ascii_forall; done|]. unfold middle. apply Forall_app. split.
    + apply Forall_app. split; [by apply digit_ascii|]. apply Forall_cons. split; [lia|]. apply Forall_app. split; [by apply digit_ascii|].
      apply Forall_cons. split; [lia|by apply digit_ascii].
    + apply ascii_forall. by destruct format.
  - unfold middle. rewrite !split_on_word by (done || by apply digit_dash). rewrite split_on_none by by apply digit_dash. cbn [take firstn].
    unfold forallb. rewrite !digit_field by done. done.
Qed.

(** Clips are visible names: none begins with a dot. *)
Lemma owned_visible name : is_owned_clip_name name = true -> starts_with [46] name = false.
Proof.
  unfold is_owned_clip_name. intros H. apply andb_true_iff in H as [_ H]. destruct (strip_prefix CLIP_PREFIX name) as [rest|] eqn:E; [|done].
  by apply strip_prefix_Some in E as ->.
Qed.
Lemma valid_visible name : valid_name name = true -> starts_with [46] name = false.
Proof. unfold valid_name. rewrite !andb_true_iff. intros [[[_ H] _] _]. by apply negb_true_iff in H. Qed.
Lemma label_of_visible labels name m l : labels_valid labels -> label_of labels name m = Some l -> starts_with [46] name = false.
Proof.
  intros [Hv _]. unfold label_of. destruct (labels !! name) as [x|] eqn:E.
  - intros _. destruct (Hv _ _ E) as [(_ & _ & H) _ _ _ _]. by apply valid_visible.
  - destruct (is_owned_clip_name name) eqn:Eo; [|done]. intros _. by apply owned_visible.
Qed.
Lemma clips_of_elem l bin labels c : c ∈ clips_of l bin labels -> exists m label, clip_at l labels (clip_path c) = Some (m, label) /\ clip_bytes c = len m
  /\ modified c = modified_of m /\ utf8_valid (clip_path c) = true.
Proof.
  unfold clips_of. intros H. apply list_elem_of_omap in H as (name & Hn & H). unfold scanned in H. destruct (utf8_valid name) eqn:Eu; [|done].
  destruct (clip_at l labels name) as [[m label]|] eqn:Ec; [|done]. cbn [mbind option_bind] in H. injection H as <-. by exists m, label.
Qed.
Lemma clip_at_file l labels name m label : clip_at l labels name = Some (m, label) -> exists f, l !! name = Some (Regular f) /\ m = metadata_of (link_count f l) f.
Proof.
  unfold clip_at, clip_file, metadata_at. destruct (l !! name) as [[f|p ch|]|]; cbn [mbind option_bind]; try done.
  destruct (_ && _); cbn [mbind option_bind]; [|done]. destruct (label_of _ _ _); cbn; [|done]. intros [= <- _]. by exists f.
Qed.
Lemma clips_of_shape l bin labels : labels_valid labels ->
  Forall (fun c => 0 <= clip_bytes c /\ starts_with [46] (clip_path c) = false) (clips_of l bin labels).
Proof.
  intros Hv. apply Forall_forall. intros c Hc. destruct (clips_of_elem _ _ _ _ Hc) as (m & label & Ha & -> & _).
  destruct (clip_at_file _ _ _ _ _ Ha) as (f & _ & ->). split; [apply zlen_nonneg|].
  unfold clip_at in Ha. destruct (clip_file l (clip_path c)) as [m|]; [|done]. cbn [mbind option_bind] in Ha.
  destruct (label_of labels (clip_path c) m) as [x|] eqn:El; [|done]. by eapply label_of_visible.
Qed.

(** * What the scan answers *)
Lemma reads_and {E A} (m : st Disk E A) P Q : reads m P -> reads m Q -> reads m (fun l a => P l a /\ Q l a).
Proof. intros HP HQ d. specialize (HP d). specialize (HQ d). unfold wp in *. destruct (m d) as [d' r]. naive_solver. Qed.
Lemma scan_entries_bound bin labels index entries clips : labels_ok labels -> 0 <= index <= MAX_DIRECTORY_ENTRIES ->
  reads (scan_entries bin labels index entries clips) (fun _ out => zlen out <= zlen clips + (MAX_DIRECTORY_ENTRIES - index)).
Proof.
  intros Hok. revert index clips. induction entries as [|n entries IH]; intros index clips Hi; cbn [scan_entries].
  - apply reads_call_then, reads_ret. intros _. lia.
  - destruct (Z.leb_spec MAX_DIRECTORY_ENTRIES index) as [|Hlt]; [apply reads_err|]. apply reads_call_then.
    eapply reads_bind; [by apply scan_entry_reads|]. intros c.
    eapply reads_mono; [apply IH; lia|]. cbn. intros l out Hz _. rewrite zlen_app in Hz. assert (zlen (option_list c) <= 1) by by destruct c. lia.
Qed.
Lemma scan_owned_bound : reads scan_owned_clips (fun _ clips => zlen clips <= MAX_DIRECTORY_ENTRIES).
Proof.
  unfold scan_owned_clips. eapply reads_bind; [apply load_from_reads|]. intros bin.
  eapply reads_bind_pure with (Pp := labels_valid); [apply load_from_reads|intros l a; apply registry_valid|]. intros labels Hv.
  apply reads_call_then. intros d. unfold list_names. apply wp_bind. unfold wp at 1. split; [done|].
  eapply wp_mono; [apply scan_entries_bound; [by apply labels_valid_ok|unfold MAX_DIRECTORY_ENTRIES; lia]|]. cbn. intros d' r _ [Hq Hr].
  split; [done|]. intros clips Hc _ _. specialize (Hr _ Hc). unfold zlen, MAX_DIRECTORY_ENTRIES in *. cbn in *. lia.
Qed.
(** The clips that the store lists, and the labels it lists them with. *)
Definition listed (l : gmap bytes node) (clips : list OwnedClip) : Prop := exists bin labels,
  registry l TRASH_FILE = Some bin /\ registry l LABELS_FILE = Some labels /\ clips = clips_of l bin labels.
Lemma scan_reads : reads scan_owned_clips (fun l clips => listed l clips /\ zlen clips <= MAX_DIRECTORY_ENTRIES).
Proof. apply reads_and; [apply scan_owned_clips_reads|apply scan_owned_bound]. Qed.
Lemma listed_shape l clips : listed l clips -> Forall (fun c => 0 <= clip_bytes c /\ starts_with [46] (clip_path c) = false) clips.
Proof. intros (bin & labels & _ & Hl & ->). by eapply clips_of_shape, registry_valid. Qed.
Lemma save_checks_reads s preserve size : reads (save_checks s preserve size) (fun l clips => listed l clips /\ zlen clips <= MAX_DIRECTORY_ENTRIES
  /\ (preserve = true -> total_bytes clips + size <= storage_limit_bytes s)).
Proof.
  unfold save_checks. eapply reads_bind; [apply validate_store_reads|]. intros u.
  eapply reads_bind_pure with (Pp := fun owned => Forall (fun c => 0 <= clip_bytes c) owned); [apply scan_reads| |].
  { intros l a [H _]. eapply Forall_impl; [by eapply listed_shape|]. cbn. tauto. }
  intros owned Ho. destruct preserve; [|apply reads_ret; naive_solver].
  eapply reads_bind with (P := fun _ used => used = total_bytes owned); [by apply used_bytes_reads|]. intros used.
  destruct (checked_add U64_MAX used size) as [total|] eqn:E; [|apply reads_err]. destruct (Z.ltb_spec (storage_limit_bytes s) total) as [|Hle]; [apply reads_err|].
  apply reads_ret. intros l -> [H1 H2] _. apply checked_add_Some in E as [_ ->]. splits; [done|done|]. intros _. lia.
Qed.

(** * Giving the clip its name *)
Definition with_name (dest : bytes) (f : file) (l : gmap bytes node) : gmap bytes node := <[dest := Regular f]> l.
(** The counter is a u64. *)
Definition numbered (d : Disk) : Prop := 0 <= next_file d <= U64_MAX.
Lemma hard_link_file from to f d : names d !! from = Some (Regular f) -> wp (hard_link from to) d (fun d' r => next_file d' = next_file d /\
  match r with Ok _ => names d !! to = None /\ names d' = with_name to f (names d) | _ => names d' = names d end).
Proof.
  intros Hf. unfold wp, hard_link, system_call. case_if_as E; [done|]. rewrite Hf.
  destruct (names d !! to) eqn:Et; cbn; (split; [done|]); [done|]. by split.
Qed.
Lemma remove_file_regular name f d : names d !! name = Some (Regular f) -> wp (remove_file name) d (fun d' r =>
  match r with Ok _ => names d' = delete name (names d) | _ => names d' = names d end).
Proof. intros Hf. unfold wp, remove_file, system_call. case_if_as E; [done|]. rewrite Hf. cbn. by split. Qed.

(** [dest] is a name for the clip that was not taken. *)
Definition new_name (now : Z * Z) (e : bytes) (l : gmap bytes node) (dest : bytes) : Prop :=
  l !! dest = None /\ exists id, 0 <= id <= U64_MAX /\ dest = clip_name now id e.
Lemma commit_loop_names tries now t f e d : names d !! t = Some (Regular f) -> numbered d ->
  wp (commit_loop tries now t e) d (fun d' r =>
    match r with
    | Ok dest => new_name now e (names d) dest /\ names d' = delete t (with_name dest f (names d))
    | _ => names d' = names d \/ exists dest, new_name now e (names d) dest /\ names d' = with_name dest f (names d)
    end).
Proof.
  intros Hf Hi. revert d Hf Hi. induction tries as [|tries IH]; intros d Hf Hi; cbn [commit_loop]; [split; [done|by left]|].
  apply wp_bind. unfold wp at 1, context, take_number. cbn [map_err]. split; [done|].
  set (d0 := {| names := names d; calls := calls d; next_file := _; faults := faults d; fresh := fresh d |}).
  assert (Hn0 : names d0 = names d) by done. assert (Hi0 : numbered d0).
  { unfold numbered. cbn [next_file d0]. pose proof (Z.mod_pos_bound (next_file d + 1) (2 ^ 64) ltac:(lia)). unfold U64_MAX. lia. }
  clearbody d0. apply wp_bind, wp_attempt. eapply wp_mono; [apply (hard_link_file t _ f); by rewrite Hn0|]. rewrite Hn0. cbn beta. intros d1 r1 Hp1 [H0 H1].
  destruct r1 as [[]|[]|]; [|split; [done|by left]| |split; [done|by left]|done].
  - destruct H1 as [H1 H2]. assert (Hd : new_name now e (names d) (clip_name now (next_file d) e)) by (split; [done|by exists (next_file d)]).
    apply wp_bind, wp_context. eapply wp_mono.
    { apply (remove_file_regular t f). rewrite H2. unfold with_name. rewrite lookup_insert_ne; [done|congruence]. }
    cbn beta. intros d2 r2 Hp2 H3. destruct r2 as [[]|x|]; cbn [map_err]; [|right; exists (clip_name now (next_file d) e); by rewrite H3|done].
    split; [done|]. split; [done|]. by rewrite H3, H2.
  - rewrite <- H1. apply IH; [by rewrite H1|]. unfold numbered. by rewrite H0.
Qed.
Lemma or_remove_spec {A} t (m : store_op A) d Q :
  wp m d (fun d' r => match r with Ok a => Q d' (Ok a) | r => forall d2, names d2 = names d' \/ names d2 = delete t (names d') -> Q d2 r end) ->
  wp (or_remove t m) d Q.
Proof.
  unfold wp, or_remove. destruct (m d) as [d' r]. destruct r as [a|e|]; [done| |by intros []]. intros [_ H]. split; [done|].
  apply H. unfold attempt, remove_file, system_call. case_if_as E; [by left|].
  destruct (names d' !! t) as [[]|]; cbn; auto.
Qed.

(** * The commit *)
(** The wall clock's seconds and nanoseconds are unsigned. *)
Definition clock_ok (now : option (Z * Z)) : Prop := forall p, now = Some p -> 0 <= p.1 <= U64_MAX /\ 0 <= p.2 <= U64_MAX.
Definition generated (dest : bytes) (f : file) (size : Z) : OwnedClip := {|
  clip_path := dest; clip_bytes := size; modified := f_mtime f * 1000000000 + f_mtime_nsec f;
  original_file_name := dest; clip_favorite := false; trashed := false |}.
Definition unclaimed (l : gmap bytes node) (dest : bytes) : Prop := l !! dest = None /\ is_owned_clip_name dest = true.
(** The clip is in the directory as [dest], and of the clips in their order of
    eviction the first [k] are gone. *)
Record committed (s : ReplayClipStore) (preserve : bool) (t : bytes) (f : file) (size : Z) (d d' : Disk)
    (dest : bytes) (order : list OwnedClip) (k : nat) : Prop := {
  cm_new : unclaimed (names d) dest;
  cm_clip : names d' !! dest = Some (Regular f);
  cm_order : exists clips, listed (names d) clips /\ order = eviction_order (Some dest) (clips ++ [generated dest f size]);
  cm_rest : forall n, n <> t -> n <> dest -> n <> THUMBNAILS ->
    names d' !! n = if decide (n ∈ clip_path <$> take k order) then None else names d !! n;
  cm_needed : forall j, (j < k)%nat -> storage_limit_bytes s < total_bytes (drop j order);
  cm_preserve : preserve = true -> k = 0%nat;
}.

Section Commit.
Context (s : ReplayClipStore) (format : ReplayOutputFormat) (preserve : bool) (now : option (Z * Z)) (t : bytes) (size : Z) (f : file) (d : Disk).
Hypothesis Ht : names d !! t = Some (Regular f).
Hypothesis Hvisible : starts_with [46] t = true.
Hypothesis Hthumbnails : t <> THUMBNAILS.
Hypothesis Hnow : clock_ok now.
Hypothesis Hnumbered : numbered d.
Hypothesis Hsize : 0 <= size <= storage_limit_bytes s.

Definition checked (clips : list OwnedClip) : Prop :=
  listed (names d) clips /\ zlen clips <= MAX_DIRECTORY_ENTRIES /\ (preserve = true -> total_bytes clips + size <= storage_limit_bytes s).
Definition order_of (dest : bytes) (clips : list OwnedClip) : list OwnedClip := eviction_order (Some dest) (clips ++ [generated dest f size]).
(** Nothing but the temporary file changed. *)
Definition untouched (d' : Disk) : Prop := forall n, n <> t -> names d' !! n = names d !! n.

Lemma new_name_unclaimed p dest : now = Some p -> new_name p (extension format) (names d) dest -> unclaimed (names d) dest.
Proof. intros Hp [H (id & Hid & ->)]. split; [done|]. destruct (Hnow p Hp). by apply clip_name_owned. Qed.
Lemma dest_visible dest : unclaimed (names d) dest -> dest <> t /\ dest <> THUMBNAILS.
Proof. intros [H1 H2]. apply owned_visible in H2. split; intros ->; [congruence|done]. Qed.

Lemma named d' dest clips : unclaimed (names d) dest -> checked clips ->
  (names d' = with_name dest f (names d) \/ names d' = delete t (with_name dest f (names d))) ->
  committed s preserve t f size d d' dest (order_of dest clips) 0.
Proof.
  intros Hd Hc Hn. destruct (dest_visible _ Hd) as [H1 H2]. constructor; try done.
  - destruct Hn as [-> | ->]; unfold with_name; rewrite ?lookup_delete_ne by done; apply lookup_insert_eq.
  - exists clips. split; [apply Hc|done].
  - intros n Ht' Hd' _. rewrite decide_False by apply not_elem_of_nil.
    destruct Hn as [-> | ->]; unfold with_name; rewrite ?lookup_delete_ne by done; by apply lookup_insert_ne.
  - intros j Hj. lia.
Qed.

Lemma commit_stage : wp (or_remove t
    (owned ← save_checks s preserve size;
     _ ← context "could not flush replay temporary file" call;
     destination ← commit_temporary now t (extension format);
     mret (owned, destination))) d (fun d' r =>
  match r with
  | Ok (owned, dest) => checked owned /\ unclaimed (names d) dest /\ names d' = delete t (with_name dest f (names d))
  | _ => untouched d' \/ exists dest clips, committed s preserve t f size d d' dest (order_of dest clips) 0
  end).
Proof.
  assert (Hsame : forall d2 l, l = names d -> names d2 = l \/ names d2 = delete t l -> untouched d2).
  { intros d2 l -> [H|H] n Hn; rewrite H; [done|by apply lookup_delete_ne]. }
  pose proof new_name_unclaimed as Hun.
  apply or_remove_spec, wp_bind. eapply wp_mono; [apply save_checks_reads|]. cbn beta. intros d1 r1 _ [Hq1 Hr1].
  destruct r1 as [owned|e|]; [|intros d2 H; left; eapply Hsame; [exact (quiet_names _ _ Hq1)|exact H]|done]. specialize (Hr1 owned eq_refl).
  apply wp_bind, wp_context. eapply wp_mono; [by apply (reads_call (fun _ _ => True))|]. cbn beta. intros d2 r2 _ [Hq2 _].
  pose proof (quiet_trans _ _ _ Hq1 Hq2) as Hq. pose proof (quiet_names _ _ Hq) as Hn.
  destruct r2 as [[]|e|]; cbn [map_err]; [|intros d3 H; left; eapply Hsame; [exact Hn|exact H]|done].
  apply wp_bind. unfold commit_temporary. destruct now as [p|] eqn:Enow.
  2: { split; [done|]. intros d3 H; left; eapply Hsame; [exact Hn|exact H]. }
  apply wp_bind, wp_lift; [done|]. cbn [ok_or].
  eapply wp_mono; [apply (commit_loop_names _ _ _ f); [by rewrite Hn|unfold numbered; by rewrite (quiet_next _ _ Hq)]|].
  rewrite Hn. cbn beta. intros d3 r3 _ H3. destruct r3 as [dest|e|].
  - destruct H3 as [H3 H4]. split; [done|]. splits; [done| |done]. by apply (Hun p).
  - intros d4 H4. destruct H3 as [H3|(dest & H3 & H5)]; [left; eapply Hsame; [exact H3|exact H4]|right]. exists dest, owned.
    apply named; [by apply (Hun p)|done|]. by rewrite <- H5.
  - done.
Qed.

Lemma filter_perm (P : OwnedClip -> bool) l l' : l ≡ₚ l' -> List.filter P l ≡ₚ List.filter P l'.
Proof.
  induction 1 as [|x l l' _ IH|x y l|l1 l2 l3 _ IH1 _ IH2]; cbn [List.filter]; [done| | |by etrans].
  - destruct (P x); [by constructor|done].
  - destruct (P x), (P y); try done. apply perm_swap.
Qed.
(** The new clip is never among those that go. *)
Lemma generated_stays dest clips k : unclaimed (names d) dest -> listed (names d) clips ->
  (forall j, (j < k)%nat -> storage_limit_bytes s < total_bytes (drop j (order_of dest clips))) ->
  dest ∉ clip_path <$> take k (order_of dest clips).
Proof.
  intros [Hd _] (bin & labels & _ & _ & Hcl) Hk Hin. apply list_elem_of_fmap in Hin as (c & Hc & Hin).
  assert (Hother : Forall (fun c => clip_path c <> dest) clips).
  { apply Forall_forall. intros x Hx Hp. rewrite Hcl in Hx. destruct (clips_of_elem _ _ _ _ Hx) as (m & label & Ha & _).
    destruct (clip_at_file _ _ _ _ _ Ha) as (g & Hg & _). congruence. }
  set (order := order_of dest clips) in *. assert (Hperm : order ≡ₚ clips ++ [generated dest f size]) by apply eviction_order_perm.
  apply list_elem_of_lookup in Hin as [j Hj]. apply lookup_take_Some in Hj as [Hj Hjk].
  assert (Hlast : Forall (fun c => clip_path c = dest) (drop (S j) order)).
  { apply (protected_last dest (clips ++ [generated dest f size]) (S j) c); [done|]. change (c ∈ take (S j) order).
    apply list_elem_of_lookup. exists j. apply lookup_take_Some. split; [done|lia]. }
  assert (Hcount : List.filter (fun c => bytes_eqb (clip_path c) dest) order ≡ₚ [generated dest f size]).
  { rewrite (filter_perm _ _ _ Hperm), List.filter_app. rewrite (filter_none _ clips); [cbn; by rewrite bytes_eqb_refl|]. eapply Forall_impl; [exact Hother|].
    cbn. intros x Hx. unfold bytes_eqb. by apply bool_decide_eq_false. }
  rewrite <- (take_drop_middle order j c Hj), List.filter_app in Hcount. cbn [List.filter] in Hcount.
  rewrite <- Hc in Hcount. rewrite bytes_eqb_refl in Hcount. rewrite (filter_all _ (drop (S j) order)) in Hcount.
  2: { eapply Forall_impl; [exact Hlast|]. cbn. intros x ->. apply bytes_eqb_refl. }
  assert (Hnil : drop (S j) order = []).
  { apply Permutation_length in Hcount. rewrite length_app in Hcount. cbn in Hcount. destruct (drop (S j) order); [done|cbn in Hcount; lia]. }
  specialize (Hk j Hjk). rewrite (drop_S order c j Hj), Hnil in Hk.
  assert (Hcin : c ∈ clips ++ [generated dest f size]) by (rewrite <- Hperm; by eapply list_elem_of_lookup_2).
  apply elem_of_app in Hcin as [Hcin|Hcin]; [rewrite Forall_forall in Hother; by apply Hother in Hcin|].
  apply list_elem_of_singleton in Hcin as ->. unfold total_bytes in Hk. cbn in Hk. lia.
Qed.

Lemma committed_names d1 d2 dest order k : names d2 = names d1 ->
  committed s preserve t f size d d1 dest order k -> committed s preserve t f size d d2 dest order k.
Proof. intros E []. constructor; try done; by rewrite E. Qed.
(** What the commit answers: an error with only the temporary file touched, or
    the clip is there. *)
Definition outcome_of (d' : Disk) (r : outcome string StoredReplayClip) : Prop :=
  ((exists e, r = Err e) /\ untouched d')
  \/ exists dest order k, committed s preserve t f size d d' dest order k /\ forall stored, r = Ok stored ->
       stored = {| stored_path := dest; stored_bytes := size; clips_removed_for_quota := Z.of_nat k;
                   bytes_removed_for_quota := total_bytes (take k order) |}
       /\ names d' !! t = None /\ total_bytes (drop k order) <= storage_limit_bytes s.

Lemma stored_shape dest clips : unclaimed (names d) dest -> checked clips ->
  Forall (fun c => 0 <= clip_bytes c /\ clip_path c <> THUMBNAILS) (clips ++ [generated dest f size]).
Proof.
  intros Hd (Hl & _). apply Forall_app. split.
  - eapply Forall_impl; [by eapply listed_shape|]. cbn beta. intros c [H1 H2]. split; [done|]. intros E. rewrite E in H2. discriminate.
  - apply Forall_cons. split; [|constructor]. cbn. split; [lia|]. by apply dest_visible.
Qed.
Lemma evicted_committed d1 d2 dest clips k : unclaimed (names d) dest -> checked clips -> preserve = false ->
  names d1 = delete t (with_name dest f (names d)) -> evicted (storage_limit_bytes s) (order_of dest clips) d1 d2 k ->
  committed s preserve t f size d d2 dest (order_of dest clips) k.
Proof.
  intros Hd Hc Hp Hn (_ & Hw & Hneed). destruct (dest_visible _ Hd) as [H1 H2]. constructor; try done.
  - rewrite Hw by done. rewrite decide_False by (apply generated_stays; [done|apply Hc|done]).
    rewrite Hn. unfold with_name. rewrite lookup_delete_ne by done. apply lookup_insert_eq.
  - exists clips. split; [apply Hc|done].
  - intros n Ht' Hd' Hth. rewrite Hw by done. case_decide; [done|]. rewrite Hn. unfold with_name. rewrite lookup_delete_ne by done.
    by apply lookup_insert_ne.
  - intros E. congruence.
Qed.

Lemma save_commit_outcome : wp (save_commit s format preserve now t size) d outcome_of.
Proof.
  unfold save_commit. apply wp_bind. eapply wp_mono; [apply commit_stage|]. cbn beta. intros d1 r1 _ H1.
  destruct r1 as [[owned dest]|e|]; [|destruct H1 as [H1|(dest & clips & H1)]; [left; eauto|right; by exists dest, (order_of dest clips), 0%nat]|done].
  destruct H1 as (Hc & Hd & Hn). pose proof (named d1 dest owned Hd Hc (or_intror Hn)) as H0.
  assert (Hfail : forall d2 (r : outcome string StoredReplayClip), names d2 = names d1 -> (forall a, r <> Ok a) -> outcome_of d2 r).
  { intros d2 r E Hr. right. exists dest, (order_of dest owned), 0%nat. split; [by eapply committed_names|]. intros a Ha. by destruct (Hr a). }
  apply wp_bind, wp_context. eapply wp_mono.
  { assert (Hd2 : reads sync_directory (fun _ _ => True)) by (eapply reads_bind; [by apply (reads_call (fun _ _ => True))|]; intros u; by apply reads_call). apply Hd2. }
  cbn beta. intros d2 r2 _ [Hq2 _]. destruct r2 as [[]|e|]; cbn [map_err]; [|apply Hfail; [by rewrite (quiet_names _ _ Hq2)|done]|done].
  apply wp_bind, wp_context. eapply wp_mono; [apply symlink_metadata_reads|]. cbn beta. intros d3 r3 _ [Hq3 Hr3].
  assert (Hn3 : names d3 = names d1) by (rewrite (quiet_names _ _ Hq3); by apply quiet_names).
  destruct r3 as [m|e|]; cbn [map_err]; [|by apply Hfail|done]. specialize (Hr3 m eq_refl).
  assert (Hm : modified_of m = f_mtime f * 1000000000 + f_mtime_nsec f).
  { unfold metadata_at in Hr3. rewrite (quiet_names _ _ Hq2), (cm_clip _ _ _ _ _ _ _ _ _ _ H0) in Hr3. by injection Hr3 as <-. }
  rewrite Hm. fold (generated dest f size). destruct (dest_visible _ Hd) as [Hd1 Hd2].
  assert (Htemp : forall d4, names d4 = names d1 -> names d4 !! t = None) by (intros d4 ->; rewrite Hn; apply lookup_delete_eq).
  assert (Hp : preserve = true \/ preserve = false) by (destruct preserve; auto). apply wp_bind. destruct Hp as [Ep|Ep]; rewrite Ep.
  - split; [done|]. split; [done|]. right. exists dest, (order_of dest owned), 0%nat. split; [by eapply committed_names|].
    intros stored [= <-]. splits; [done|by apply Htemp|]. rewrite drop_0. unfold order_of. rewrite (total_perm _ _ (eviction_order_perm _ _)).
    destruct Hc as (_ & _ & Hc). specialize (Hc Ep). unfold total_bytes in *. rewrite map_app, sum_Z_app. cbn. lia.
  - eapply wp_mono; [apply enforce_quota_exact; [by apply stored_shape|]|].
    { destruct Hc as (_ & Hc & _). rewrite zlen_app. change (zlen [generated dest f size]) with 1. unfold MAX_DIRECTORY_ENTRIES, U32_MAX in *. lia. }
    cbn beta. intros d4 r4 _ (k & Hk & Hr4).
    assert (Hcm : committed s preserve t f size d d4 dest (order_of dest owned) k) by (by eapply evicted_committed; [| | |by rewrite Hn3|exact Hk]).
    destruct r4 as [[removed removed_bytes]|e|]; [|right; by exists dest, (order_of dest owned), k|done].
    destruct (Hr4 _ eq_refl) as [E Hs]. injection E as -> ->. split; [done|]. right. exists dest, (order_of dest owned), k. split; [done|].
    intros stored [= <-]. splits; [done| |].
    + destruct Hk as (_ & Hw & _). rewrite Hw by done. case_decide; [done|]. by apply Htemp.
    + destruct Hs as [Hs|Hs]; [|exact Hs]. rewrite Hs, drop_all. unfold total_bytes. cbn. lia.
Qed.
End Commit.

(** C19: Saving never gives a recording away before the new one is safe.  Whichever
    system calls fail, [save_commit] ends in one of two ways.  Either it failed and
    nothing of the directory but the unpublished temporary file changed.  Or the new
    clip has a name that was free, with the bytes and times of the temporary file,
    and of the clips in the order of age (the new one last) exactly a first part is
    gone: none when existing clips are to be preserved, and each only because it and
    the later ones together exceeded the limit; no remaining clip is older than
    one that is gone.  When it answers [Ok], the temporary name is gone, the answer
    counts what went, and what remains is within the limit. *)
Theorem save_commit_safe s format preserve now t size f d :
  names d !! t = Some (Regular f) -> starts_with [46] t = true -> t <> THUMBNAILS -> clock_ok now -> numbered d ->
  0 <= size <= storage_limit_bytes s ->
  let '(d', r) := save_commit s format preserve now t size d in
  r <> Panic /\ (((exists e, r = Err e) /\ forall n, n <> t -> names d' !! n = names d !! n)
    \/ exists dest order k, committed s preserve t f size d d' dest order k
       /\ (forall gone stays, gone ∈ take k order -> stays ∈ drop k order -> clip_path stays <> dest -> modified gone <= modified stays)
       /\ forall stored, r = Ok stored ->
            stored = {| stored_path := dest; stored_bytes := size; clips_removed_for_quota := Z.of_nat k;
                        bytes_removed_for_quota := total_bytes (take k order) |}
            /\ names d' !! t = None /\ total_bytes (drop k order) <= storage_limit_bytes s).
Proof.
  intros H1 H2 H3 H4 H5 H6. pose proof (save_commit_outcome s format preserve now t size f d H1 H2 H3 H4 H5 H6) as H. unfold wp in H.
  destruct (save_commit s format preserve now t size d) as [d' r]. destruct H as [Hr [H|(dest & order & k & Hc & Ha)]]; (split; [done|]); [by left|right].
  exists dest, order, k. split; [done|]. split; [|done]. intros gone stays Hg Hs Hd.
  destruct (cm_order _ _ _ _ _ _ _ _ _ _ Hc) as (clips & _ & ->). eapply oldest_first; [exact Hg|exact Hs|]. by intros [= E].
Qed.

(** * A directory that is full *)
Module Sample.
Definition entry (inode time : Z) (content : bytes) : node :=
  Regular {| f_dev := 1; f_ino := inode; f_links_outside := 0; f_mtime := time; f_mtime_nsec := 0; f_uid := 0; f_bytes := content |}.
Definition temporary : bytes := ascii_bytes ".redunar-replay-7-0.tmp".
Definition disk (fault : nat -> bool) : Disk := {|
  names := list_to_map [
    (STORE_MARKER, entry 1 0 STORE_MARKER_CONTENTS);
    (ascii_bytes "redunar-replay-10-000000000-1.mkv", entry 2 10 [1; 2; 3]);
    (ascii_bytes "redunar-replay-20-000000000-2.mp4", entry 3 20 [4; 5]);
    (ascii_bytes "holiday.mkv", entry 4 5 [6; 7; 8; 9]);
    (temporary, entry 5 30 [10; 11])];
  calls := 0; next_file := 3; faults := fault;
  fresh := fun n => {| f_dev := 1; f_ino := 100 + Z.of_nat n; f_links_outside := 0; f_mtime := 40; f_mtime_nsec := 0; f_uid := 0; f_bytes := [] |} |}.
Definition store : ReplayClipStore := {| maximum_clip_bytes := 4; storage_limit_bytes := 5 |}.
(** The oldest clip goes, the user's own file stays. *)
Example saved : let '(d', r) := save_commit store Matroska false (Some (30, 5)) temporary 2 (disk (fun _ => false)) in
  r = Ok {| stored_path := ascii_bytes "redunar-replay-30-000000005-3.mkv"; stored_bytes := 2; clips_removed_for_quota := 1; bytes_removed_for_quota := 3 |}
  /\ map_to_list (names d') ≡ₚ [
    (STORE_MARKER, entry 1 0 STORE_MARKER_CONTENTS);
    (ascii_bytes "redunar-replay-20-000000000-2.mp4", entry 3 20 [4; 5]);
    (ascii_bytes "redunar-replay-30-000000005-3.mkv", entry 5 30 [10; 11]);
    (ascii_bytes "holiday.mkv", entry 4 5 [6; 7; 8; 9])].
Proof. vm_compute. split; [reflexivity|]. solve_Permutation. Qed.
Notation result := (save_commit store Matroska false (Some (30, 5)) temporary 2 (disk (fun _ => false))).
Lemma save_commit_safe_witness :
  names (disk (fun _ => false)) !! temporary = Some (entry 5 30 [10; 11])
  /\ (exists stored, result.2 = Ok stored /\ clips_removed_for_quota stored = 1)
  /\ exists f dest order k, committed store false temporary f 2 (disk (fun _ => false)) result.1 dest order k.
Proof.
  split; [reflexivity|]. assert (Hr : exists stored, result.2 = Ok stored /\ clips_removed_for_quota stored = 1).
  { eexists. split; [vm_compute; reflexivity|reflexivity]. }
  split; [exact Hr|]. eexists.
  pose proof (save_commit_safe store Matroska false (Some (30, 5)) temporary 2 _ (disk (fun _ => false)) eq_refl eq_refl) as H.
  specialize (H ltac:(discriminate)). specialize (H ltac:(intros p [= <-]; vm_compute; repeat split; discriminate)).
  specialize (H ltac:(vm_compute; split; discriminate) ltac:(vm_compute; split; discriminate)).
  revert H Hr. generalize result. intros [d' r] [_ [[[e He] _]|(dest & order & k & Hc & _)]] (stored & Hs & _).
  - cbn [snd] in Hs. rewrite He in Hs. discriminate.
  - exists dest, order, k. exact Hc.
Defined.
End Sample.
