(* ===== verification/StoreRename.v ===== *)
(** Renaming a clip when the machine may stop at any call: the clip is always
    under one of the two names, with its label, and in the inventory. *)
From stdpp Require Import gmap strings sorting.
From S2P Require Import Prelude Bytes Text Arith Paths Preferences StoreDisk StoreLabels StoreLabelsFacts Store StoreFacts StoreQuota StoreSave.
Local Open Scope Z_scope.

(** * Links *)
Definition links (f : file) (l : gmap bytes node) : Z := zlen (List.filter (links_to f) (map_to_list l)).
Definition one_if (b : bool) : Z := if b then 1 else 0.
Lemma link_count_links f l : link_count f l = f_links_outside f + links f l.
Proof. done. Qed.
Lemma filter_length_perm {A} (P : A -> bool) l l' : l ≡ₚ l' -> zlen (List.filter P l) = zlen (List.filter P l').
Proof.
  induction 1 as [|x l l' _ IH|x y l|l1 l2 l3 _ IH1 _ IH2]; cbn [List.filter]; [done| | |lia].
  - destruct (P x); rewrite ?zlen_cons; lia.
  - destruct (P x), (P y); rewrite ?zlen_cons; lia.
Qed.
Lemma links_insert f l n x : l !! n = None -> links f (<[n := x]> l) = one_if (links_to f (n, x)) + links f l.
Proof.
  intros H. unfold links. rewrite (filter_length_perm _ _ ((n, x) :: map_to_list l)) by by apply map_to_list_insert.
  cbn [List.filter]. destruct (links_to f (n, x)); rewrite ?zlen_cons; unfold one_if; lia.
Qed.
Lemma links_delete f l n x : l !! n = Some x -> links f l = one_if (links_to f (n, x)) + links f (delete n l).
Proof. intros H. rewrite <- links_insert by apply lookup_delete_eq. by rewrite insert_delete_id. Qed.
Lemma links_nonneg f l : 0 <= links f l.
Proof. apply zlen_nonneg. Qed.
Lemma same_inode_refl f : same_inode f f = true.
Proof. unfold same_inode. by rewrite !Z.eqb_refl. Qed.
Lemma same_inode_sym f g : same_inode f g = same_inode g f.
Proof. unfold same_inode. by rewrite (Z.eqb_sym (f_dev f)), (Z.eqb_sym (f_ino f)). Qed.

(** No entry of [l] is the file [g]. *)
Definition unlinked (g : file) (l : gmap bytes node) : Prop := forall n h, l !! n = Some (Regular h) -> same_inode g h = false.
Lemma unlinked_links g l : unlinked g l -> links g l = 0.
Proof.
  intros H. unfold links. rewrite filter_none; [done|]. apply Forall_forall. intros [n x] Hx. apply elem_of_map_to_list in Hx.
  unfold links_to. cbn. destruct x as [h| |]; try done. by eapply H.
Qed.
(** Two names of one file make two links. *)
Lemma two_links f l n1 n2 g1 g2 : n1 <> n2 -> l !! n1 = Some (Regular g1) -> l !! n2 = Some (Regular g2) ->
  same_inode f g1 = true -> same_inode f g2 = true -> 2 <= links f l.
Proof.
  intros Hn H1 H2 E1 E2. rewrite (links_delete f l n1 _ H1). unfold links_to at 1. cbn [snd]. rewrite E1.
  rewrite (links_delete f (delete n1 l) n2 (Regular g2)) by by rewrite lookup_delete_ne. unfold links_to at 1. cbn [snd]. rewrite E2.
  pose proof (links_nonneg f (delete n2 (delete n1 l))). unfold one_if. lia.
Qed.

(** * A machine that stops *)
(** Once a call failed, all later ones do. *)
Definition stops (d : Disk) : Prop := forall j k, (j <= k)%nat -> faults d j = true -> faults d k = true.
Definition stopped (d : Disk) : Prop := forall k, (calls d <= k)%nat -> faults d k = true.
(** On a stopped machine [m] fails and changes nothing. *)
Definition halts {E A} (m : st Disk E A) : Prop := forall d, stopped d -> wp m d (fun d' r => names d' = names d /\ forall a, r <> Ok a).
Lemma halts_bind {E A B} (m : st Disk E A) (k : A -> st Disk E B) : halts m -> halts (m ≫= k).
Proof.
  intros Hm d Hd. apply wp_bind. eapply wp_mono; [by apply Hm|]. cbn beta. intros d' r _ [H1 H2]. by destruct r as [a|e|]; [destruct (H2 a)|..].
Qed.
Lemma halts_load file_name : halts (load_from file_name).
Proof.
  intros d Hd. unfold load_from. apply wp_bind, wp_attempt. unfold wp, open_nofollow, system_call. by rewrite (Hd (calls d)) by lia.
Qed.
Lemma halts_save pid file_name labels : halts (save_to pid file_name labels).
Proof.
  intros d Hd. unfold save_to. case_if_as E1; [by apply wp_lift|]. case_if_as E2; [by apply wp_lift|]. apply halts_bind; [|done]. clear d Hd. intros d Hd.
  unfold create_temporary. cbn [create_temporary_loop]. apply wp_bind. unfold wp at 1, context, take_number. cbn [map_err]. split; [done|].
  apply wp_bind, wp_attempt. unfold wp at 1, create_new, system_call. cbn [faults calls]. by rewrite (Hd (calls d)) by lia.
Qed.
Lemma stops_quiet d d' : quiet d d' -> stops d -> stops d'.
Proof. intros Hq H j k. rewrite (quiet_faults _ _ Hq). apply H. Qed.

(** * Steps of a machine that may stop *)
Lemma attempt_metadata name d : stops d -> wp (attempt (E := string) (symlink_metadata name)) d (fun d' r => quiet d d' /\
  (stopped d' \/ r = Ok (match metadata_at (names d) name with Some m => Ok m | None => Err NotFound end))).
Proof.
  intros Hs. apply wp_attempt. unfold wp, symlink_metadata, system_call. destruct (faults d (calls d)) eqn:E.
  - split; [done|]. split; [constructor; cbn; auto|]. left. intros k Hk. cbn in *. apply (Hs (calls d)); [lia|done].
  - unfold metadata_at. destruct (names d !! name) as [[]|]; (split; [done|]); (split; [constructor; cbn; auto|by right]).
Qed.
Definition label_kept (l : gmap bytes node) (name : bytes) (label : Label) : bool :=
  match metadata_at l name with Some m => label_matches label m | None => false end.
Lemma prune_each_spec es labels d : stops d -> wp (prune_each es labels) d (fun d' r => quiet d d' /\ (stopped d' \/
  exists labels', r = Ok labels' /\ labels' ⊆ labels /\
    forall n label, labels !! n = Some label -> (forall x, (n, x) ∈ es -> label_kept (names d) n x = true) -> labels' !! n = Some label)).
Proof.
  revert labels d. induction es as [|[name x] es IH]; intros labels d Hs; cbn [prune_each].
  - split; [done|]. split; [apply quiet_refl|]. right. by exists labels.
  - apply wp_bind. eapply wp_mono; [by apply attempt_metadata|]. cbn beta. intros d1 r1 _ [Hq H]. destruct r1 as [r1|e|]; [|destruct H as [H|H]; [split; [exact Hq|by left]|done]|done].
    eapply wp_mono; [apply IH; by eapply stops_quiet|]. cbn beta. intros d2 r2 _ [Hq2 H2]. split; [by eapply quiet_trans|].
    destruct H2 as [H2|(labels' & -> & Hsub & Hk)]; [by left|]. destruct H as [H|H].
    { left. intros k Hk2. rewrite (quiet_faults _ _ Hq2). apply H. pose proof (quiet_calls _ _ Hq2). lia. }
    right. exists labels'. split; [done|]. injection H as ->. split.
    + etrans; [exact Hsub|]. case_if_as E; [done|]. apply delete_subseteq.
    + intros n label Hn Hx. rewrite (quiet_names _ _ Hq) in Hk. apply Hk; [|intros y Hy; apply Hx; by right].
      destruct (decide (n = name)) as [->|Hne].
      * specialize (Hx x (list_elem_of_here _ _)). unfold label_kept in Hx. destruct (metadata_at (names d) name) as [m|]; [|done]. by rewrite Hx.
      * case_if_as E; [done|]. by rewrite lookup_delete_ne.
Qed.
Lemma prune_spec labels d : stops d -> wp (prune labels) d (fun d' r => quiet d d' /\ (stopped d' \/
  exists labels', r = Ok labels' /\ labels' ⊆ labels /\
    forall n label, labels !! n = Some label -> label_kept (names d) n label = true -> labels' !! n = Some label)).
Proof.
  intros Hs. eapply wp_mono; [by apply prune_each_spec|]. cbn beta. intros d' r _ [Hq [H|(labels' & -> & Hsub & Hk)]]; (split; [done|]); [by left|].
  right. exists labels'. splits; [done|done|]. intros n label Hn Hx. apply Hk; [done|]. intros x Hin.
  rewrite in_order_perm in Hin. apply elem_of_map_to_list in Hin. congruence.
Qed.

(** ** The registry's new file *)
Record created (d : Disk) (g : file) : Prop := {
  cr_inode : exists k, same_inode g (fresh d k) = true /\ f_uid g = f_uid (fresh d k);
  cr_outside : f_links_outside g = 0;
}.
Lemma temporary_not name pid id : starts_with (ascii_bytes ".redunar-c") name = true -> temporary_name pid id <> name.
Proof. intros H E. rewrite <- E in H. vm_compute in H. discriminate. Qed.
Definition holds_text (d : Disk) (labels : Labels) (g : file) : Prop :=
  created d g /\ f_bytes g = labels_text labels /\ zlen (f_bytes g) <= MAX_LABEL_BYTES /\ Z.of_nat (size labels) <= MAX_LABELS.
Definition replaced (file_name : bytes) (labels : Labels) (d d' : Disk) : Prop :=
  exists g, holds_text d labels g /\ names d' = <[file_name := Regular g]> (names d).
Definition littered (d d' : Disk) : Prop :=
  names d' = names d \/ exists t pid id g, t = temporary_name pid id /\ created d g /\ names d !! t = None /\ names d' = <[t := Regular g]> (names d).

Lemma create_loop_spec tries pid d : wp (create_temporary_loop tries pid) d (fun d' r => faults d' = faults d /\ fresh d' = fresh d /\
  match r with
  | Ok t => (exists id, t = temporary_name pid id) /\ names d !! t = None /\ exists g, created d g /\ f_bytes g = [] /\ names d' = <[t := Regular g]> (names d)
  | _ => names d' = names d
  end).
Proof.
  revert d. induction tries as [|tries IH]; intros d; cbn [create_temporary_loop]; [by apply wp_lift|].
  apply wp_bind. unfold wp at 1, context, take_number. cbn [map_err]. split; [done|].
  apply wp_bind, wp_attempt. unfold wp at 1, create_new, system_call. cbn [faults calls names fresh].
  case_if_as E; [by split|]. destruct (names d !! temporary_name pid (next_file d)) eqn:En; cbn [map_err].
  - split; [done|]. eapply wp_mono; [apply IH|]. cbn. intros d' r _ (H1 & H2 & H3). splits; [done|done|].
    destruct r as [t|e|]; [|done|done]. destruct H3 as (H3 & H4 & g & [(k & Hk) Ho] & H5). splits; [done|done|]. exists g. split; [|done].
    constructor; [by exists k|done].
  - split; [done|]. split; [done|]. cbn. splits; [done|done|by eexists|done|]. eexists. splits; [| |done]; [|done].
    constructor; [|done]. exists (calls d). cbn. split; [|done]. unfold same_inode. cbn. by rewrite !Z.eqb_refl.
Qed.
(** The faults and the files to come are those of the machine, whatever runs. *)
Definition same_machine (d d' : Disk) : Prop := faults d' = faults d /\ fresh d' = fresh d.
Lemma created_same d d' g : same_machine d d' -> created d' g -> created d g.
Proof. intros [H1 H2] [(k & Hk) Ho]. constructor; [exists k; by rewrite <- H2|done]. Qed.
Lemma append_created t content g d : names d !! t = Some (Regular g) -> created d g -> wp (append t content) d (fun d' r => same_machine d d' /\
  match r with
  | Ok _ => exists g', created d g' /\ f_bytes g' = f_bytes g ++ content /\ names d' = <[t := Regular g']> (names d)
  | _ => names d' = names d
  end).
Proof.
  intros Hg [(k & Hk) Ho]. unfold wp, append, system_call. case_if_as E; [by splits|]. cbn. splits; [done|by split|].
  set (made := fresh d (calls d)). exists {| f_dev := f_dev g; f_ino := f_ino g; f_links_outside := f_links_outside g; f_mtime := f_mtime made;
    f_mtime_nsec := f_mtime_nsec made; f_uid := f_uid g; f_bytes := f_bytes g ++ content |}. splits; [|done|].
  - constructor; [|done]. exists k. exact Hk.
  - apply map_eq. intros n. destruct (decide (n = t)) as [->|Hn]; [|by rewrite lookup_alter_ne, lookup_insert_ne].
    by rewrite lookup_insert_eq, lookup_alter_eq, Hg.
Qed.
Lemma rename_file from to g d : names d !! from = Some (Regular g) -> wp (rename from to) d (fun d' r => same_machine d d' /\
  match r with Ok _ => names d' = <[to := Regular g]> (delete from (names d)) | _ => names d' = names d end).
Proof.
  intros Hg. unfold wp, rename, system_call. case_if_as E; [by splits|]. rewrite Hg.
  destruct (names d !! to) as [[]|]; cbn; splits; done.
Qed.
Lemma call_same d : wp call d (fun d' _ => same_machine d d' /\ names d' = names d).
Proof. unfold wp, call, system_call. case_if_as E; by splits. Qed.
Lemma same_machine_trans d1 d2 d3 : same_machine d1 d2 -> same_machine d2 d3 -> same_machine d1 d3.
Proof. intros [] []. split; congruence. Qed.
Lemma or_remove_same {A} t (m : store_op A) d0 d Q :
  wp m d (fun d' r => same_machine d0 d' /\ match r with Ok a => Q d' (Ok a)
    | r => forall d2, same_machine d0 d2 -> names d2 = names d' \/ names d2 = delete t (names d') -> Q d2 r end) ->
  wp (or_remove t m) d Q.
Proof.
  unfold wp, or_remove. destruct (m d) as [d' r]. intros (Hp & Hs & H). destruct r as [a|e|]; [done| |done]. split; [done|].
  apply H; unfold attempt, remove_file, system_call; case_if_as E; try done; try (by left);
    destruct (names d' !! t) as [[]|]; cbn; auto.
Qed.

(** [LABELS_FILE] and [TRASH_FILE] are such names. *)
Lemma save_to_spec pid file_name labels d : starts_with (ascii_bytes ".redunar-c") file_name = true ->
  wp (save_to pid file_name labels) d (fun d' r => same_machine d d' /\
    ((littered d d' /\ forall a, r <> Ok a) \/ replaced file_name labels d d')).
Proof.
  intros Hf. unfold save_to. assert (H0 : littered d d) by by left. assert (Hd : same_machine d d) by done.
  destruct (Z.ltb_spec MAX_LABELS (Z.of_nat (size labels))) as [|Hs]; [apply wp_lift; [done|]; split; [done|]; by left|].
  destruct (Z.ltb_spec MAX_LABEL_BYTES (zlen (labels_text labels))) as [|Hl]; [apply wp_lift; [done|]; split; [done|]; by left|].
  apply wp_bind. eapply wp_mono; [apply create_loop_spec|]. cbn beta. intros d1 r1 _ (Hf1 & Hf2 & H1). assert (Hs1 : same_machine d d1) by done.
  destruct r1 as [t|e|]; [|split; [done|]; left; split; [by left|done]|done]. destruct H1 as ((id & ->) & Hnone & g & Hg & Hempty & Hn).
  set (t := temporary_name pid id) in *. assert (Htf : t <> file_name) by by apply temporary_not.
  (* an error leaves the temporary file, or removes it *)
  assert (Hlit : forall g' d2 d3, created d g' -> names d2 = <[t := Regular g']> (names d) -> names d3 = names d2 \/ names d3 = delete t (names d2) -> littered d d3).
  { intros g' d2 d3 Hg' E H3. unfold littered. destruct H3 as [H3|H3]; rewrite H3, E; [right; exists t, pid, id, g'; splits; done|]. left. by apply delete_insert_id. }
  apply or_remove_same with (d0 := d). apply wp_bind, wp_context. eapply wp_mono.
  { apply (append_created t (labels_text labels) g); [rewrite Hn; apply lookup_insert_eq|]. destruct Hg as [(k & Hk) Ho]. constructor; [|done].
    exists k. by rewrite Hf2. }
  cbn beta. intros d2 r2 _ (Hs2 & H2). pose proof (same_machine_trans _ _ _ Hs1 Hs2) as Hs02.
  destruct r2 as [[]|e|]; cbn [map_err]; [|split; [done|]; intros d3 Hs3 H3; split; [done|]; left; split; [|done]; eapply Hlit; [exact Hg| |exact H3]; congruence|done].
  destruct H2 as (g2 & Hg2 & Hb2 & Hn2). apply created_same with (d := d) in Hg2; [|done]. rewrite Hn, insert_insert_eq in Hn2. rewrite Hempty in Hb2.
  apply wp_bind, wp_context. eapply wp_mono; [apply call_same|]. cbn beta. intros d3 r3 _ [Hs3 Hn3]. pose proof (same_machine_trans _ _ _ Hs02 Hs3) as Hs03.
  destruct r3 as [[]|e|]; cbn [map_err]; [|split; [done|]; intros d4 Hs4 H4; split; [done|]; left; split; [|done]; eapply Hlit; [exact Hg2| |exact H4]; congruence|done].
  apply wp_bind, wp_context. eapply wp_mono; [apply (rename_file t file_name g2); rewrite Hn3, Hn2; apply lookup_insert_eq|]. cbn beta.
  intros d4 r4 _ [Hs4 Hn4]. pose proof (same_machine_trans _ _ _ Hs03 Hs4) as Hs04.
  destruct r4 as [[]|e|]; cbn [map_err]; [|split; [done|]; intros d5 Hs5 H5; split; [done|]; left; split; [|done]; eapply Hlit; [exact Hg2| |exact H5]; congruence|done].
  assert (Hr : forall d5, names d5 = names d4 \/ names d5 = delete t (names d4) -> replaced file_name labels d d5).
  { assert (E : names d4 = <[file_name := Regular g2]> (names d)).
    { rewrite Hn4, Hn3, Hn2, delete_insert_id by done. done. }
    intros d5 H5. exists g2. split; [|].
    - unfold holds_text. splits; [done|done| |done]. rewrite Hb2. cbn [app]. exact Hl.
    - destruct H5 as [-> | ->]; [done|]. rewrite E. rewrite delete_insert_ne by done. by rewrite delete_id. }
  apply wp_context. unfold sync_directory. apply wp_bind. eapply wp_mono; [apply call_same|]. cbn beta. intros d5 r5 _ [Hs5 Hn5].
  pose proof (same_machine_trans _ _ _ Hs04 Hs5) as Hs05.
  destruct r5 as [[]|e|]; cbn [map_err]; [|split; [done|]; intros d6 Hs6 H6; split; [done|]; right; apply Hr; by rewrite <- Hn5|done].
  eapply wp_mono; [apply call_same|]. cbn beta. intros d6 r6 Hp6 [Hs6 Hn6]. pose proof (same_machine_trans _ _ _ Hs05 Hs6) as Hs06.
  split; [done|]. destruct r6 as [a|e|]; cbn [map_err]; [|intros d7 Hs7 H7|done].
  - split; [done|]. right. apply Hr. left. congruence.
  - split; [done|]. right. apply Hr. by rewrite <- Hn5, <- Hn6.
Qed.

(** * The clip in the changed directory *)
(** A machine that may stop, with sane files. *)
Record healthy (d : Disk) : Prop := {
  h_stops : stops d;
  h_fresh : forall k, unlinked (fresh d k) (names d) /\ f_uid (fresh d k) = 0;
  h_files : forall n f, names d !! n = Some (Regular f) -> 0 <= f_links_outside f /\ 0 <= f_dev f <= U64_MAX /\ 0 <= f_ino f <= U64_MAX;
}.
Lemma same_inode_trans f g h : same_inode f g = true -> same_inode g h = same_inode f h.
Proof. unfold same_inode. rewrite andb_true_iff, !Z.eqb_eq. by intros [-> ->]. Qed.
Lemma links_other h l n g : same_inode h g = false -> (forall x, l !! n = Some x -> links_to h (n, x) = false) ->
  links h (<[n := Regular g]> l) = links h l.
Proof.
  intros Hg Hx. rewrite <- insert_delete_eq, links_insert by apply lookup_delete_eq. unfold links_to at 1. cbn [snd]. rewrite Hg.
  destruct (l !! n) as [x|] eqn:E; [|by rewrite delete_id]. rewrite (links_delete h l n x E). by rewrite Hx.
Qed.
Lemma links_moved h l a b x : l !! a = Some x -> l !! b = None -> links h (<[b := x]> (delete a l)) = links h l.
Proof.
  intros Ha Hb. rewrite links_insert by (rewrite lookup_delete_ne; [done|congruence]). rewrite (links_delete h l a x Ha).
  unfold links_to. done.
Qed.
(** The view of a name: its metadata, and hence what the registry makes of it. *)
Lemma metadata_at_eq l l' n n' : l' !! n' = l !! n -> (forall f, l !! n = Some (Regular f) -> links f l' = links f l) -> metadata_at l' n' = metadata_at l n.
Proof.
  intros H Hl. unfold metadata_at. rewrite H. destruct (l !! n) as [[f| |]|]; try done. specialize (Hl f eq_refl). rewrite !link_count_links. by rewrite Hl.
Qed.
Lemma registry_eq l l' n : l' !! n = l !! n -> (forall f, l !! n = Some (Regular f) -> links f l' = links f l) -> registry l' n = registry l n.
Proof.
  intros H Hl. unfold registry. rewrite H. destruct (l !! n) as [[f| |]|]; try done.
  specialize (Hl f eq_refl). rewrite !link_count_links. by rewrite Hl.
Qed.
Lemma clip_at_eq l l' labels n : metadata_at l' n = metadata_at l n -> clip_at l' labels n = clip_at l labels n.
Proof. intros H. unfold clip_at, clip_file. by rewrite H. Qed.

Lemma created_other d g n h : healthy d -> created d g -> names d !! n = Some (Regular h) -> same_inode h g = false.
Proof.
  intros [_ Hf _] [(k & Hk & _) _] Hn. destruct (Hf k) as [Hu _]. rewrite same_inode_sym, <- (same_inode_trans g (fresh d k) h Hk). by eapply Hu.
Qed.
Lemma littered_view d d' : healthy d -> littered d d' ->
  registry (names d') LABELS_FILE = registry (names d) LABELS_FILE
  /\ forall n, starts_with [46] n = false -> names d' !! n = names d !! n /\ metadata_at (names d') n = metadata_at (names d) n.
Proof.
  intros Hh [->|(t & pid & id & g & -> & Hg & Hn & ->)]; [by split|]. set (t := temporary_name pid id) in *.
  assert (Hl : forall n h, names d !! n = Some (Regular h) -> links h (<[t := Regular g]> (names d)) = links h (names d)).
  { intros n h Hh'. apply links_other; [by eapply created_other|]. intros x Hx. congruence. }
  split.
  - apply registry_eq; [|apply Hl]. apply lookup_insert_ne. by apply temporary_not.
  - intros n Hv. assert (Hnt : t <> n) by (intros <-; vm_compute in Hv; discriminate).
    assert (E : <[t := Regular g]> (names d) !! n = names d !! n) by by apply lookup_insert_ne. split; [done|]. by apply metadata_at_eq; [|apply Hl].
Qed.

Lemma labels_text_utf8 labels : labels_valid labels -> utf8_valid (labels_text labels) = true.
Proof.
  intros [Hv _]. apply utf8_ascii. unfold labels_text. apply Forall_app. split; [by apply ascii_forall|].
  apply Forall_app. split; [by repeat constructor|]. assert (H : Forall (fun e => label_valid e.1 e.2) (in_order labels)).
  { rewrite in_order_perm. apply map_Forall_to_list in Hv. eapply Forall_impl; [exact Hv|]. by intros []. }
  induction H as [|e es [(H1 & _) (H2 & _) _ H3 H4] _ IH]; [constructor|].
  change (x ← e :: es; label_line x) with (label_line e ++ (x ← es; label_line x)). apply Forall_app. split; [|exact IH].
  assert (Hp : forall w, Forall plain w -> Forall (fun b => b < 128) w) by (intros w Hw; eapply Forall_impl; [exact Hw|]; unfold plain; cbn; intros; lia).
  unfold label_line. repeat first [apply Forall_app; split|apply Forall_cons; split|apply Forall_nil]; try lia; try exact I; apply Hp; auto using hex_plain, decimal_plain, favorite_plain.
Qed.
Lemma replaced_view d d' labels n f : healthy d -> names d !! n = Some (Regular f) -> link_count f (names d) = 1 -> n <> LABELS_FILE ->
  is_Some (registry (names d) LABELS_FILE) -> labels_valid labels -> replaced LABELS_FILE labels d d' ->
  registry (names d') LABELS_FILE = Some labels /\ metadata_at (names d') n = metadata_at (names d) n
  /\ forall x, x <> LABELS_FILE -> names d' !! x = names d !! x.
Proof.
  intros Hh Hn H1 Hne [old Hold] Hv (g & (Hg & Hb & Hlen & Hs) & ->).
  pose proof (h_files _ Hh _ _ Hn) as (Ho & _ & _). destruct Hg as [(k & Hk & Hu) Hout]. destruct (h_fresh _ Hh k) as [Hunl Huid].
  assert (Hgu : unlinked g (names d)).
  { intros x h Hx. rewrite <- (same_inode_trans g (fresh d k) h Hk) by done. by eapply Hunl. }
  splits.
  - unfold registry. rewrite lookup_insert_eq. rewrite link_count_links, <- insert_delete_eq, links_insert by apply lookup_delete_eq.
    unfold links_to at 1. cbn [snd]. rewrite same_inode_refl, unlinked_links, Hout.
    2: { intros x h Hx. apply lookup_delete_Some in Hx as [_ Hx]. by eapply Hgu. }
    rewrite (proj2 (Z.leb_le _ _) Hlen), Hu, Huid, Hb, labels_text_utf8 by done. cbn. by apply labels_text_reads.
  - apply metadata_at_eq; [by apply lookup_insert_ne|]. intros f' Hf'. assert (f' = f) as -> by congruence. apply links_other.
    { rewrite same_inode_sym. by eapply Hgu. }
    intros x Hx. unfold links_to. cbn. destruct x as [f0| |]; try done. destruct (same_inode f f0) eqn:E; [|done].
    rewrite link_count_links in H1. pose proof (two_links f (names d) n LABELS_FILE f f0 Hne Hn Hx (same_inode_refl f) E). lia.
  - intros x Hx. by rewrite lookup_insert_ne.
Qed.

Lemma rename_noreplace_file f from to d : names d !! from = Some (Regular f) -> wp (rename_noreplace from to) d (fun d' r =>
  match r with Ok _ => names d !! to = None /\ names d' = <[to := Regular f]> (delete from (names d)) | _ => names d' = names d end).
Proof.
  intros H. unfold wp, rename_noreplace, system_call. case_if_as E; [done|]. rewrite H. destruct (names d !! to) eqn:Et; cbn; by splits.
Qed.

Section Rename.
Context (pid : Z) (file_name new_name : bytes) (d : Disk) (labels : Labels) (m : Metadata) (label : Label) (f : file).
Hypothesis Hh : healthy d.
Hypothesis Hregistry : registry (names d) LABELS_FILE = Some labels.
Hypothesis Hclip : clip_at (names d) labels file_name = Some (m, label).
Hypothesis Hf : names d !! file_name = Some (Regular f).
Hypothesis Hfile_name : is_bytes file_name /\ utf8_valid file_name = true.
Hypothesis Hnew_name : is_bytes new_name /\ utf8_valid new_name = true.

(** The clip is under [name], with its label. *)
Definition found (d' : Disk) (name : bytes) : Prop := exists labels',
  registry (names d') LABELS_FILE = Some labels' /\ clip_at (names d') labels' name = Some (m, label) /\ names d' !! name = Some (Regular f).
Definition stays (d' : Disk) : Prop := found d' file_name /\ names d' !! new_name = names d !! new_name.
Definition moved (d' : Disk) : Prop := found d' new_name /\ names d' !! file_name = None /\ names d !! new_name = None.

Lemma clip_facts : m = metadata_of (link_count f (names d)) f /\ link_count f (names d) = 1 /\ label_of labels file_name m = Some label
  /\ label_matches label m = true /\ (valid_name file_name = true -> label_valid file_name label).
Proof.
  pose proof Hclip as H. unfold clip_at, clip_file, metadata_at in H. rewrite Hf in H. cbn [mbind option_bind] in H.
  destruct (is_file _ && _) eqn:E; [|done]. cbn [mbind option_bind] in H. apply andb_true_iff in E as [_ E]. apply Z.eqb_eq in E. cbn in E.
  set (m0 := metadata_of (link_count f (names d)) f) in *. destruct (label_of labels file_name m0) as [x|] eqn:El; [|done]. injection H as <- <-.
  assert (Hm : label_matches (Label_new file_name m0) m0 = true).
  { unfold label_matches. cbn. rewrite E. by rewrite !Z.eqb_refl. }
  destruct (h_files _ Hh _ _ Hf) as (_ & Hd & Hi). splits; [done|done|done| |].
  - unfold label_of in El. destruct (labels !! file_name) as [y|]; [destruct (label_matches y m0) eqn:Ey; [by injection El as <-|]|];
      (destruct (is_owned_clip_name file_name); [injection El as <-; exact Hm|done]).
  - intros Hv. assert (Hnew : is_owned_clip_name file_name = true -> label_valid file_name (Label_new file_name m0)).
    { intros Ho. destruct Hfile_name. by constructor. }
    unfold label_of in El. destruct (labels !! file_name) as [y|] eqn:Ey; [destruct (label_matches y m0); [injection El as <-; by eapply (registry_valid _ _ _ Hregistry)|]|];
      (destruct (is_owned_clip_name file_name) eqn:Eo; [injection El as <-; by apply Hnew|done]).
Qed.

Lemma stays_same d' : names d' = names d -> stays d'.
Proof. intros E. split; [|by rewrite E]. exists labels. by rewrite E. Qed.
Lemma stays_littered d' : starts_with [46] file_name = false -> starts_with [46] new_name = false -> littered d d' -> stays d'.
Proof.
  intros H1 H2 Hl. destruct (littered_view _ _ Hh Hl) as [Hr Hv]. split; [|by apply Hv]. exists labels. rewrite Hr. splits; [done| |].
  - rewrite (clip_at_eq (names d)); [done|]. by apply Hv.
  - rewrite <- Hf. by apply Hv.
Qed.

(** What [prune] leaves, with the label of the new name. *)
Definition pruned (labels' : Labels) : Prop := labels' ⊆ labels /\
  forall n x, labels !! n = Some x -> label_kept (names d) n x = true -> labels' !! n = Some x.
Lemma pruned_label labels' : pruned labels' -> new_name <> file_name -> label_of (<[new_name := label]> labels') file_name m = Some label.
Proof.
  intros [Hsub Hk] Hne. destruct clip_facts as (Hm & H1 & Hl & _). unfold label_of in *. rewrite lookup_insert_ne by done.
  destruct (labels !! file_name) as [y|] eqn:Ey.
  - destruct (label_matches y m) eqn:Em.
    + injection Hl as ->. rewrite (Hk file_name label Ey); [by rewrite Em|]. unfold label_kept, metadata_at. rewrite Hf. by rewrite <- Hm.
    + destruct (labels' !! file_name) as [z|] eqn:Ez; [|done]. pose proof (lookup_weaken _ _ _ _ Ez Hsub) as Hz. assert (z = y) as -> by congruence. by rewrite Em.
  - destruct (labels' !! file_name) as [z|] eqn:Ez; [|done]. pose proof (lookup_weaken _ _ _ _ Ez Hsub). congruence.
Qed.
Lemma pruned_valid labels' : pruned labels' -> valid_name file_name = true -> valid_name new_name = true -> path_extension file_name = path_extension new_name ->
  Z.of_nat (size (<[new_name := label]> labels')) <= MAX_LABELS -> labels_valid (<[new_name := label]> labels').
Proof.
  intros [Hsub _] Hv Hv' He Hs. destruct clip_facts as (_ & _ & _ & _ & Hl). destruct (Hl Hv) as [_ Ho Hx Hd Hi]. split; [|done].
  apply map_Forall_insert_2.
  - destruct Hnew_name. constructor; [done|done|congruence|done|done].
  - intros n x Hn. eapply (registry_valid _ _ _ Hregistry). by eapply lookup_weaken.
Qed.
Section Published.
Context (labels' : Labels) (d1 : Disk).
Hypothesis Hpruned : pruned labels'.
Hypothesis Hvalid : labels_valid (<[new_name := label]> labels').
Hypothesis Hne : new_name <> file_name.
Hypothesis Hvisible : starts_with [46] file_name = false /\ starts_with [46] new_name = false.
Hypothesis Hreplaced : replaced LABELS_FILE (<[new_name := label]> labels') d d1.

Lemma published : registry (names d1) LABELS_FILE = Some (<[new_name := label]> labels') /\ metadata_at (names d1) file_name = metadata_at (names d) file_name
  /\ names d1 !! file_name = Some (Regular f) /\ names d1 !! new_name = names d !! new_name.
Proof.
  destruct clip_facts as (_ & H1 & _). destruct Hvisible as [V1 V2].
  assert (N1 : file_name <> LABELS_FILE) by (intros E; rewrite E in V1; discriminate).
  assert (N2 : new_name <> LABELS_FILE) by (intros E; rewrite E in V2; discriminate).
  destruct (replaced_view d d1 _ file_name f Hh Hf H1 N1 ltac:(by eexists) Hvalid Hreplaced) as (R1 & R2 & R3).
  splits; [done|done| |by apply R3]. by rewrite R3.
Qed.
Lemma stays_published : stays d1.
Proof.
  destruct published as (R1 & R2 & R3 & R4). split; [|done]. eexists. splits; [exact R1| |done].
  destruct clip_facts as (Hm & H1 & _). unfold clip_at, clip_file. rewrite R2. unfold metadata_at. rewrite Hf. cbn [mbind option_bind].
  cbn [is_file nlink metadata_of andb]. rewrite H1. cbn [Z.eqb mbind option_bind Pos.eqb]. rewrite <- H1, <- Hm. rewrite pruned_label by done. done.
Qed.
Lemma moved_published d2 : names d1 !! new_name = None -> names d2 = <[new_name := Regular f]> (delete file_name (names d1)) -> moved d2.
Proof.
  intros Hnone E. destruct published as (R1 & R2 & R3 & R4). destruct clip_facts as (Hm & H1 & _ & Hmatch & _). destruct Hvisible as [V1 V2].
  assert (Hl : forall h, links h (names d2) = links h (names d1)) by (intros h; rewrite E; by apply links_moved).
  split; [|split; [rewrite E, lookup_insert_ne by done; apply lookup_delete_eq|congruence]]. eexists. splits; [|  |rewrite E; apply lookup_insert_eq].
  - rewrite <- R1. apply registry_eq; [|intros h _; apply Hl]. rewrite E.
    rewrite lookup_insert_ne, lookup_delete_ne; [done|intros H; rewrite H in V1; discriminate|intros H; rewrite H in V2; discriminate].
  - assert (Hmeta : metadata_at (names d2) new_name = Some m).
    { rewrite (metadata_at_eq (names d1) (names d2) file_name new_name); [|by rewrite E, lookup_insert_eq, R3|intros h _; apply Hl].
      rewrite R2. unfold metadata_at. by rewrite Hf, Hm. }
    unfold clip_at, clip_file. rewrite Hmeta. cbn [mbind option_bind]. rewrite Hm at 1 2. cbn [is_file nlink metadata_of andb]. rewrite H1.
    cbn [Z.eqb mbind option_bind Pos.eqb]. unfold label_of. rewrite lookup_insert_eq. by rewrite Hmatch.
Qed.
End Published.

Definition renamed (d' : Disk) (r : outcome string unit) : Prop := (stays d' /\ (file_name = new_name \/ r <> Ok tt)) \/ moved d'.
Lemma failed d' r : stays d' -> (forall a, r <> Ok a) -> renamed d' r.
Proof. intros H Hr. left. split; [done|]. right. apply Hr. Qed.
Lemma failed_same d' r : names d' = names d -> (forall a, r <> Ok a) -> renamed d' r.
Proof. intros H. by apply failed, stays_same. Qed.

(** The label is published; the file is looked at again and renamed. *)
Lemma rename_last labels' d1 : pruned labels' -> labels_valid (<[new_name := label]> labels') -> new_name <> file_name ->
  starts_with [46] file_name = false /\ starts_with [46] new_name = false -> replaced LABELS_FILE (<[new_name := label]> labels') d d1 ->
  wp (current ← context "clip changed before rename" (symlink_metadata file_name);
      if negb (is_file current) || negb (nlink current =? 1) || negb ((dev current =? dev m) && (ino current =? ino m))
      then lift (Err "The clip changed. Reload before renaming it."%string)
      else _ ← context "could not rename replay clip" (rename_noreplace file_name new_name);
           context "could not flush renamed replay clip" sync_directory) d1 renamed.
Proof.
  intros H1 H2 H3 H4 H5. pose proof (stays_published labels' d1 H1 H2 H3 H4 H5) as Hs. destruct (published labels' d1 H2 H4 H5) as (_ & _ & Hp & _).
  apply wp_bind, wp_context. eapply wp_mono; [apply symlink_metadata_reads|]. cbn beta. intros d2 r2 _ [Hq2 _].
  assert (Hs2 : stays d2) by (unfold stays, found in *; by rewrite (quiet_names _ _ Hq2)).
  destruct r2 as [current|e|]; cbn [map_err]; [|by apply failed|done]. destruct (_ || _); [apply wp_lift; [done|]; by apply failed|].
  apply wp_bind, wp_context. eapply wp_mono; [apply (rename_noreplace_file f); by rewrite (quiet_names _ _ Hq2)|]. cbn beta. intros d3 r3 _ H6.
  destruct r3 as [[]|e|]; cbn [map_err]; [|apply failed; [unfold stays, found in *; by rewrite H6|done]|done].
  destruct H6 as [H6 H7]. rewrite (quiet_names _ _ Hq2) in H6, H7. pose proof (moved_published labels' d1 H2 H3 H4 H5 d3 H6 H7) as Hm.
  assert (Hsync : forall d4, names d4 = names d3 -> moved d4) by (intros d4 E; unfold moved, found in *; by rewrite E).
  apply wp_context. unfold sync_directory. apply wp_bind. eapply wp_mono; [apply call_same|]. cbn beta. intros d4 r4 _ [_ H8].
  destruct r4 as [[]|e|]; [|right; by apply Hsync|done]. eapply wp_mono; [apply call_same|]. cbn beta. intros d5 r5 _ [_ H9].
  right. apply Hsync. congruence.
Qed.

(** From the registry on. *)
Lemma rename_rest d1 : quiet d d1 -> valid_name file_name = true -> valid_name new_name = true -> path_extension file_name = path_extension new_name ->
  new_name <> file_name ->
  wp (registry ← labels_load; registry ← prune registry; _ ← labels_save pid (<[new_name := label]> registry);
      current ← context "clip changed before rename" (symlink_metadata file_name);
      if negb (is_file current) || negb (nlink current =? 1) || negb ((dev current =? dev m) && (ino current =? ino m))
      then lift (Err "The clip changed. Reload before renaming it."%string)
      else _ ← context "could not rename replay clip" (rename_noreplace file_name new_name);
           context "could not flush renamed replay clip" sync_directory) d1 renamed.
Proof.
  intros Hq1 Hv Hv' He Hne. assert (Hvis : starts_with [46] file_name = false /\ starts_with [46] new_name = false) by (split; by apply valid_visible).
  apply wp_bind. eapply wp_mono; [apply load_from_reads|]. cbn beta. intros d2 r2 _ [Hq2 H2].
  pose proof (quiet_trans _ _ _ Hq1 Hq2) as Hq. pose proof (quiet_names _ _ Hq) as Hn2.
  destruct r2 as [loaded|e|]; [|by apply failed_same|done]. specialize (H2 _ eq_refl). rewrite (quiet_names _ _ Hq1) in H2.
  assert (loaded = labels) as -> by congruence.
  apply wp_bind. eapply wp_mono; [apply prune_spec; by eapply stops_quiet; [|apply Hh]|]. cbn beta. intros d3 r3 _ [Hq3 H3].
  pose proof (quiet_trans _ _ _ Hq Hq3) as Hq13. pose proof (quiet_names _ _ Hq13) as Hn3.
  destruct r3 as [labels'|e|]; [|by apply failed_same|done]. apply wp_bind. unfold labels_save.
  destruct H3 as [H3|(x & E & Hsub & Hk)].
  { eapply wp_mono; [by apply halts_save|]. cbn beta. intros d4 r4 _ [H4 H5]. destruct r4 as [[]|e|]; [by destruct (H5 tt)| |done].
    apply failed_same; [congruence|done]. }
  injection E as <-. rewrite Hn2 in Hk. assert (Hp : pruned labels') by by split.
  eapply wp_mono; [by apply save_to_spec|]. cbn beta. intros d4 r4 _ [_ [[H4 H5]|H4]].
  - assert (Hl : littered d d4).
    { unfold littered in *. rewrite Hn3 in H4. destruct H4 as [H4|(t & q & id & g & H6 & H7 & H8)]; [by left|right]. exists t, q, id, g. splits; try done.
      all: try apply H8. eapply created_same; [|exact H7]. split; [by apply quiet_faults|by apply quiet_fresh]. }
    destruct r4 as [[]|e|]; [by destruct (H5 tt)| |done]. apply failed; [|done]. destruct Hvis. by apply stays_littered.
  - assert (Hr : replaced LABELS_FILE (<[new_name := label]> labels') d d4).
    { destruct H4 as (g & (Hg & H5) & H6). exists g. rewrite Hn3 in H6. split; [|done]. split; [|done]. eapply created_same; [|exact Hg].
      split; [by apply quiet_faults|by apply quiet_fresh]. }
    assert (Hvalid : labels_valid (<[new_name := label]> labels')).
    { apply pruned_valid; try done. destruct H4 as (g & (_ & _ & _ & H4) & _). exact H4. }
    destruct r4 as [[]|e|]; [|apply failed; [by eapply stays_published|done]|done]. by eapply rename_last.
Qed.

Lemma rename_outcome : wp (rename_clip pid file_name new_name) d renamed.
Proof.
  unfold rename_clip. destruct (negb (valid_name new_name) || _ || _) eqn:Eg; [apply wp_lift; [done|]; by apply failed_same|].
  apply orb_false_iff in Eg as [Eg Eext]. apply orb_false_iff in Eg as [Eg _]. apply negb_false_iff in Eg, Eext. apply bool_decide_eq_true in Eext.
  apply wp_bind. eapply wp_mono; [apply validate_store_reads|]. cbn beta. intros d1 r1 _ [Hq1 _]. pose proof (quiet_names _ _ Hq1) as Hn1.
  destruct r1 as [[]|e|]; [|by apply failed_same|done].
  apply wp_bind. eapply wp_mono; [apply owned_metadata_reads|]. cbn beta. intros d2 r2 _ [Hq2 Ho].
  pose proof (quiet_trans _ _ _ Hq1 Hq2) as Hq12. pose proof (quiet_names _ _ Hq12) as Hn2.
  destruct r2 as [[metadata label0]|e|]; [|by apply failed_same|done]. destruct (Ho _ eq_refl) as (Hv & labels0 & Hr0 & Hc0).
  rewrite Hn1 in Hr0, Hc0. assert (labels0 = labels) as -> by congruence. assert (Heq : (metadata, label0) = (m, label)) by congruence. injection Heq as -> ->.
  apply wp_bind. eapply wp_mono.
  { unfold require_live. eapply reads_bind with (P := fun _ _ => True); [eapply reads_mono; [apply load_from_reads|done]|]. intros bin.
    assert (Hrl : forall b : bool, reads (if b then lift (Err "Restore the clip from the trash bin first"%string) else mret tt) (fun _ (_ : unit) => True -> True))
      by (intros []; [apply reads_err|by apply reads_ret]). apply Hrl. }
  cbn beta. intros d3 r3 _ [Hq3 _]. pose proof (quiet_trans _ _ _ Hq12 Hq3) as Hq13. pose proof (quiet_names _ _ Hq13) as Hn3.
  destruct r3 as [[]|e|]; [|by apply failed_same|done].
  destruct (bytes_eqb file_name new_name) eqn:Esame.
  { apply bool_decide_eq_true in Esame. apply wp_ret. left. split; [by apply stays_same|by left]. }
  assert (Hne : new_name <> file_name) by (intros E; rewrite E, bytes_eqb_refl in Esame; done).
  apply wp_bind. eapply wp_mono; [apply attempt_metadata; by eapply stops_quiet; [|apply Hh]|]. cbn beta. intros d4 r4 _ [Hq4 H4].
  pose proof (quiet_trans _ _ _ Hq13 Hq4) as Hq14. pose proof (quiet_names _ _ Hq14) as Hn4.
  destruct r4 as [r4|e|]; [|by apply failed_same|done]. destruct r4 as [x|x|]; [apply wp_lift; [done|]; by apply failed_same| |].
  all: by apply rename_rest.
Qed.
End Rename.

Lemma listed_clip l bin labels name m label : utf8_valid name = true -> clip_at l labels name = Some (m, label) ->
  exists c, c ∈ clips_of l bin labels /\ clip_path c = name /\ clip_bytes c = len m /\ original_file_name c = original label /\ clip_favorite c = favorite label.
Proof.
  intros Hu Hc. eexists. split; [|].
  - unfold clips_of. apply list_elem_of_omap. exists name. split; [|unfold scanned; rewrite Hu, Hc; reflexivity].
    destruct (clip_at_file _ _ _ _ _ Hc) as (f & Hf & _). apply list_elem_of_fmap. exists (name, Regular f). split; [done|]. by apply elem_of_map_to_list.
  - by splits.
Qed.

(** C20: A clip survives a crash while it is renamed.  When the machine stops at
    any call of [rename_clip] (that call and all later ones fail), the clip is
    under exactly one of its two names, with its file, generated name and
    favourite flag, and the store lists it; when the call answers [Ok] it is under
    the new name.  Nothing that had the new name is replaced: an entry of the
    directory with that name is still there, the clip keeps its old name and the
    call does not answer [Ok]. *)
Theorem rename_survives_crash pid file_name new_name d labels m label f :
  healthy d -> registry (names d) LABELS_FILE = Some labels -> clip_at (names d) labels file_name = Some (m, label) ->
  names d !! file_name = Some (Regular f) ->
  is_bytes file_name /\ utf8_valid file_name = true -> is_bytes new_name /\ utf8_valid new_name = true ->
  let '(d', r) := rename_clip pid file_name new_name d in
  r <> Panic /\ exists name labels',
    (name = file_name /\ names d' !! new_name = names d !! new_name /\ (r = Ok tt -> file_name = new_name)
     \/ name = new_name /\ names d' !! file_name = None /\ names d !! new_name = None)
    /\ (forall x, names d !! new_name = Some x -> names d' !! new_name = Some x /\ name = file_name /\ (r = Ok tt -> file_name = new_name))
    /\ names d' !! name = Some (Regular f) /\ registry (names d') LABELS_FILE = Some labels' /\ clip_at (names d') labels' name = Some (m, label)
    /\ forall bin, exists c, c ∈ clips_of (names d') bin labels' /\ clip_path c = name /\ clip_bytes c = len m
       /\ original_file_name c = original label /\ clip_favorite c = favorite label.
Proof.
  intros Hh Hr Hc Hf H1 H2. pose proof (rename_outcome pid file_name new_name d labels m label f Hh Hr Hc Hf H1 H2) as H. unfold wp in H.
  destruct (rename_clip pid file_name new_name d) as [d' r]. destruct H as [Hp [[[(labels' & R1 & R2 & R3) H] Ho]|[(labels' & R1 & R2 & R3) [H Hnone]]]]; (split; [done|]).
  - assert (Hok : r = Ok tt -> file_name = new_name) by (intros Hr'; by destruct Ho).
    exists file_name, labels'. splits; [by left| |done|done|done|intros bin; apply listed_clip; [apply H1|done]].
    intros x Hx. by rewrite H.
  - exists new_name, labels'. splits; [by right|by rewrite Hnone|done|done|done|]. intros bin. apply listed_clip; [apply H2|done].
Qed.

(** * A renamed clip gets another name, the machine stops on the way *)
Module Sample.
Definition label : Label := {| original := ascii_bytes "redunar-replay-10-000000000-1.mkv"; favorite := true; label_dev := 1; label_ino := 2 |}.
Definition clip : file :=
  {| f_dev := 1; f_ino := 2; f_links_outside := 0; f_mtime := 10; f_mtime_nsec := 0; f_uid := 0; f_bytes := [1; 2; 3] |}.
Definition entries : list (bytes * node) := [
  (STORE_MARKER, StoreSave.Sample.entry 1 0 STORE_MARKER_CONTENTS);
  (ascii_bytes "Ace.mkv", Regular clip);
  (LABELS_FILE, StoreSave.Sample.entry 3 20 (labels_text {[ ascii_bytes "Ace.mkv" := label ]}))].
(** It stops at the [crash]-th call. *)
Definition disk (crash : nat) : Disk := {|
  names := list_to_map entries; calls := 0; next_file := 3; faults := fun k => (crash <=? k)%nat;
  fresh := fun n => {| f_dev := 1; f_ino := 100 + Z.of_nat n; f_links_outside := 0; f_mtime := 40; f_mtime_nsec := 0; f_uid := 0; f_bytes := [] |} |}.
Lemma disk_healthy crash : healthy (disk crash).
Proof.
  assert (H : forall n g, names (disk crash) !! n = Some (Regular g) -> f_links_outside g = 0 /\ f_dev g = 1 /\ 1 <= f_ino g <= 3).
  { intros n g Hn. apply elem_of_list_to_map_2 in Hn. unfold entries in Hn.
    repeat (apply elem_of_cons in Hn as [Hn|Hn]; [injection Hn as -> ->; cbn; lia|]). by apply elem_of_nil in Hn. }
  constructor.
  - intros j k Hjk Hj. apply Nat.leb_le in Hj. apply Nat.leb_le. lia.
  - intros k. split; [|done]. intros n g Hn. destruct (H n g Hn) as (_ & Hd & Hi). unfold same_inode. cbn. rewrite Hd. apply andb_false_iff. right. apply Z.eqb_neq. lia.
  - intros n g Hn. destruct (H n g Hn) as (-> & -> & Hi). unfold U64_MAX. lia.
Qed.
Notation run crash := (rename_clip 7 (ascii_bytes "Ace.mkv") (ascii_bytes "Best run.mkv") (disk crash)).
Notation present crash name := (bool_decide (is_Some (names (run crash).1 !! ascii_bytes name))).
(** The call makes 26 calls of the system; the last two come after the rename. *)
Example stopping_points :
  map (fun n => (present n "Ace.mkv", present n "Best run.mkv")) (seq 0 27)
  = replicate 24 (true, false) ++ replicate 3 (false, true).
Proof. vm_compute. reflexivity. Qed.
Lemma rename_survives_crash_witness :
  registry (names (disk 23)) LABELS_FILE = Some {[ ascii_bytes "Ace.mkv" := label ]} /\
  exists name labels', names (run 23).1 !! name = Some (Regular clip) /\ registry (names (run 23).1) LABELS_FILE = Some labels'.
Proof.
  assert (Hr : registry (names (disk 23)) LABELS_FILE = Some {[ ascii_bytes "Ace.mkv" := label ]}) by (vm_compute; reflexivity).
  split; [exact Hr|].
  pose proof (rename_survives_crash 7 (ascii_bytes "Ace.mkv") (ascii_bytes "Best run.mkv") (disk 23) _ (metadata_of 1 clip) label clip (disk_healthy 23) Hr) as H.
  specialize (H ltac:(vm_compute; reflexivity) ltac:(vm_compute; reflexivity)).
  specialize (H ltac:(vm_compute; repeat split; repeat constructor; discriminate) ltac:(vm_compute; repeat split; repeat constructor; discriminate)).
  revert H. generalize (run 23). intros [d' r] (_ & name & labels' & _ & _ & H1 & H2 & _). exists name, labels'. split; [exact H1|exact H2].
Defined.

(** A single call fails, and only that one: the [stat] of the renamed clip while
    another clip is marked.  The mark is saved, and the renamed clip is no longer
    one of the store's. *)
Definition flaky (faulty : nat -> bool) : Disk := {|
  names := <[ascii_bytes "redunar-replay-20-000000000-2.mp4" := StoreSave.Sample.entry 4 20 [4; 5]]> (names (disk 0));
  calls := 0; next_file := 3; faults := faulty; fresh := fresh (disk 0) |}.
Notation mark faulty := (set_favorite 7 (ascii_bytes "redunar-replay-20-000000000-2.mp4") true (flaky faulty)).
Notation listing faulty := (map entry_file_name <$> match (inventory {| names := names (mark faulty).1; calls := 0; next_file := 9;
  faults := fun _ => false; fresh := fresh (disk 0) |}).2 with Ok es => Some es | _ => None end).
Example transient_failure_hides_clip :
  (mark (fun _ => false)).2 = Ok tt
  /\ listing (fun _ => false) = Some [ascii_bytes "redunar-replay-20-000000000-2.mp4"; ascii_bytes "Ace.mkv"]
  /\ (mark (Nat.eqb 14)).2 = Ok tt
  /\ listing (Nat.eqb 14) = Some [ascii_bytes "redunar-replay-20-000000000-2.mp4"]
  /\ is_Some (names (mark (Nat.eqb 14)).1 !! ascii_bytes "Ace.mkv").
Proof. vm_compute. repeat split; try reflexivity. by eexists. Qed.
End Sample.
