(* ===== verification/CaptureProtocol.v ===== *)
(** The versioned datagram protocol between capture producers and the daemon:
    data, encoder and decoder (crates/redunar-capture/src/lib.rs and
    gpu_identity.rs).  Buffers are lists of bytes; indexing out of range is a
    [Panic].  The facts are in CaptureProtocolFacts. *)
From stdpp Require Import strings.
From S2P Require Import Prelude Bytes.
Local Open Scope Z_scope.

Record ProtocolError := { protocol_message : string }.
Definition perr {A} (m : string) : outcome ProtocolError A := Err {| protocol_message := m |}.

(** * Constants *)
Definition PROTOCOL_VERSION : Z := 7.
Definition MAX_FRAME_INTERVALS : nat := 128.
Definition MAX_REPLAY_SOURCE_WIDTH : Z := 8192.
Definition MAX_REPLAY_SOURCE_HEIGHT : Z := 8192.
Definition MAX_REPLAY_SOURCE_PIXELS : Z := 3840 * 2160.
Definition HEADER_BYTES : nat := 32.
Definition HELLO_BYTES : nat := 16.
Definition FRAME_BATCH_PREFIX_BYTES : nat := 16.
Definition GOODBYE_BYTES : nat := 16.
Definition WIRE_BYTES : nat := 40.
Definition REPLAY_SOURCE_CANDIDATE_BYTES : nat := 16 + WIRE_BYTES.
Definition REPLAY_SOURCE_REJECTED_BYTES : nat := 8.
Definition REPLAY_FRAME_COPIED_BYTES : nat := 32 + WIRE_BYTES.
Definition REPLAY_FRAME_EXPORTED_BYTES : nat := 56 + WIRE_BYTES.
Definition REPLAY_FRAME_RELEASED_BYTES : nat := 16.
Definition OVERLAY_STATUS_BYTES : nat := 8.
Definition GPU_IDENTITY_BYTES : nat := 48.
Definition MAX_MESSAGE_BYTES : nat := HEADER_BYTES + FRAME_BATCH_PREFIX_BYTES + 8 * MAX_FRAME_INTERVALS.
(** b"RDCAP001" *)
Definition MAGIC : bytes := [0x52; 0x44; 0x43; 0x41; 0x50; 0x30; 0x30; 0x31].

Definition KIND_HELLO : Z := 1.
Definition KIND_FRAME_BATCH : Z := 2.
Definition KIND_GOODBYE : Z := 3.
Definition KIND_REPLAY_SOURCE_CANDIDATE : Z := 4.
Definition KIND_REPLAY_SOURCE_REJECTED : Z := 5.
Definition KIND_REPLAY_FRAME_COPIED : Z := 6.
Definition KIND_OVERLAY_STATUS : Z := 7.
Definition KIND_REPLAY_FRAME_EXPORTED : Z := 8.
Definition KIND_REPLAY_FRAME_RELEASED : Z := 9.
Definition KIND_GPU_IDENTITY : Z := 10.

Definition replay_source_dimensions_supported (width height : Z) : bool :=
  (0 <? width) && (0 <? height) && (width <=? MAX_REPLAY_SOURCE_WIDTH)
  && (height <=? MAX_REPLAY_SOURCE_HEIGHT) && (width * height <=? MAX_REPLAY_SOURCE_PIXELS)
  && (div_ceil width 16 * div_ceil height 16 <=? 36864).

(** * Integers in buffers *)
Definition write_u16 (output : bytes) (offset : nat) (value : Z) : outcome ProtocolError bytes :=
  set_range offset (le_bytes 2 value) output.
Definition write_u32 (output : bytes) (offset : nat) (value : Z) : outcome ProtocolError bytes :=
  set_range offset (le_bytes 4 value) output.
Definition write_u64 (output : bytes) (offset : nat) (value : Z) : outcome ProtocolError bytes :=
  set_range offset (le_bytes 8 value) output.
Definition read_u16 (input : bytes) (offset : nat) : outcome ProtocolError Z :=
  bs ← get_range offset 2 input; Ok (le_val bs).
Definition read_u32 (input : bytes) (offset : nat) : outcome ProtocolError Z :=
  bs ← get_range offset 4 input; Ok (le_val bs).
Definition read_u64 (input : bytes) (offset : nat) : outcome ProtocolError Z :=
  bs ← get_range offset 8 input; Ok (le_val bs).

(** * Session identifiers *)
Record CaptureSessionId := { session_bytes : bytes }.
#[global] Instance CaptureSessionId_eq_dec : EqDecision CaptureSessionId.
Proof. solve_decision. Defined.

Definition CaptureSessionId_new (bs : bytes) : outcome ProtocolError CaptureSessionId :=
  if bytes_eqb bs (replicate 16 0) then perr "capture session id cannot be zero"
  else Ok {| session_bytes := bs |}.

(** b"0123456789abcdef" indexed by a nibble. *)
Definition HEX : bytes :=
  [48; 49; 50; 51; 52; 53; 54; 55; 56; 57; 97; 98; 99; 100; 101; 102].
Definition hex_digit (n : Z) : Z := default 0 (HEX !! Z.to_nat n).
Definition to_hex (id : CaptureSessionId) : bytes :=
  flat_map (fun b => [hex_digit (Z.shiftr b 4); hex_digit (Z.land b 15)]) (session_bytes id).

Definition decode_hex (value : Z) : outcome ProtocolError Z :=
  if (48 <=? value) && (value <=? 57) then Ok (value - 48)
  else if (97 <=? value) && (value <=? 102) then Ok (value - 97 + 10)
  else perr "capture session id is not canonical lowercase hex".
(** The loop over [as_chunks::<2>()]. *)
Fixpoint decode_hex_pairs (value : bytes) : outcome ProtocolError bytes :=
  match value with
  | high :: low :: rest =>
      h ← decode_hex high;
      l ← decode_hex low;
      bs ← decode_hex_pairs rest;
      Ok (Z.lor (Z.land (Z.shiftl h 4) 255) l :: bs)
  | _ => Ok []
  end.
(** The string is given by its UTF-8 bytes. *)
Definition from_hex (value : bytes) : outcome ProtocolError CaptureSessionId :=
  if negb (length value =? 32)%nat then perr "capture session id has invalid length"
  else decoded ← decode_hex_pairs value; CaptureSessionId_new decoded.

(** * Enumerations: [as u8] and [from_wire] *)
Inductive CaptureApi := Vulkan | OpenGl.
#[global] Instance CaptureApi_eq_dec : EqDecision CaptureApi.
Proof. solve_decision. Defined.
Definition CaptureApi_as_u8 (a : CaptureApi) : Z := match a with Vulkan => 1 | OpenGl => 2 end.
Definition CaptureApi_from_wire (value : Z) : outcome ProtocolError CaptureApi :=
  match value with
  | 1 => Ok Vulkan
  | 2 => Ok OpenGl
  | _ => perr "unsupported capture API"
  end.

Inductive GoodbyeReason := GoodbyeNormal | ProcessExit | ProducerError.
Definition GoodbyeReason_as_u8 (r : GoodbyeReason) : Z :=
  match r with GoodbyeNormal => 1 | ProcessExit => 2 | ProducerError => 3 end.
Definition GoodbyeReason_from_wire (value : Z) : outcome ProtocolError GoodbyeReason :=
  match value with
  | 1 => Ok GoodbyeNormal
  | 2 => Ok ProcessExit
  | 3 => Ok ProducerError
  | _ => perr "unsupported capture goodbye reason"
  end.

Inductive OverlayFailureReason :=
| RequiredVulkanFunctionsUnavailable | GraphicsQueueUnavailable
| RendererCapacityReached | RequiredOpenGlFunctionsUnavailable.
#[global] Instance OverlayFailureReason_eq_dec : EqDecision OverlayFailureReason.
Proof. solve_decision. Defined.
Definition OverlayFailureReason_as_u8 (r : OverlayFailureReason) : Z :=
  match r with
  | RequiredVulkanFunctionsUnavailable => 1
  | GraphicsQueueUnavailable => 2
  | RendererCapacityReached => 3
  | RequiredOpenGlFunctionsUnavailable => 4
  end.
Definition OverlayFailureReason_from_wire (value : Z) : outcome ProtocolError OverlayFailureReason :=
  match value with
  | 1 => Ok RequiredVulkanFunctionsUnavailable
  | 2 => Ok GraphicsQueueUnavailable
  | 3 => Ok RendererCapacityReached
  | 4 => Ok RequiredOpenGlFunctionsUnavailable
  | _ => perr "overlay failure reason is unsupported"
  end.

Inductive OverlayRuntimeStatus :=
| OverlayRequested | OverlayActive | OverlayError (reason : OverlayFailureReason).
#[global] Instance OverlayRuntimeStatus_eq_dec : EqDecision OverlayRuntimeStatus.
Proof. solve_decision. Defined.

Inductive ReplayPixelFormat :=
| Rgba8Unorm | Rgba8Srgb | Bgra8Unorm | Bgra8Srgb | A2b10g10r10Unorm | A2r10g10b10Unorm.
#[global] Instance ReplayPixelFormat_eq_dec : EqDecision ReplayPixelFormat.
Proof. solve_decision. Defined.
Definition ReplayPixelFormat_as_u8 (f : ReplayPixelFormat) : Z :=
  match f with
  | Rgba8Unorm => 1 | Rgba8Srgb => 2 | Bgra8Unorm => 3 | Bgra8Srgb => 4
  | A2b10g10r10Unorm => 5 | A2r10g10b10Unorm => 6
  end.
Definition ReplayPixelFormat_from_wire (value : Z) : outcome ProtocolError ReplayPixelFormat :=
  match value with
  | 1 => Ok Rgba8Unorm
  | 2 => Ok Rgba8Srgb
  | 3 => Ok Bgra8Unorm
  | 4 => Ok Bgra8Srgb
  | 5 => Ok A2b10g10r10Unorm
  | 6 => Ok A2r10g10b10Unorm
  | _ => perr "replay source pixel format is unsupported"
  end.

Inductive ReplaySourceRejection :=
| InvalidStructure | ProtectedSwapchain | ArrayLayersUnsupported | TransferSourceUsageMissing
| DimensionsUnsupported | PixelFormatUnsupported | ExternalMemoryUnsupported
| EncoderBackendUnavailable | VideoEncodeUnsupported | GpuIdentityUnavailable.
#[global] Instance ReplaySourceRejection_eq_dec : EqDecision ReplaySourceRejection.
Proof. solve_decision. Defined.
Definition ReplaySourceRejection_as_u8 (r : ReplaySourceRejection) : Z :=
  match r with
  | InvalidStructure => 1 | ProtectedSwapchain => 2 | ArrayLayersUnsupported => 3
  | TransferSourceUsageMissing => 4 | DimensionsUnsupported => 5 | PixelFormatUnsupported => 6
  | ExternalMemoryUnsupported => 7 | EncoderBackendUnavailable => 8 | VideoEncodeUnsupported => 9
  | GpuIdentityUnavailable => 10
  end.
Definition ReplaySourceRejection_from_wire (value : Z) : outcome ProtocolError ReplaySourceRejection :=
  match value with
  | 1 => Ok InvalidStructure
  | 2 => Ok ProtectedSwapchain
  | 3 => Ok ArrayLayersUnsupported
  | 4 => Ok TransferSourceUsageMissing
  | 5 => Ok DimensionsUnsupported
  | 6 => Ok PixelFormatUnsupported
  | 7 => Ok ExternalMemoryUnsupported
  | 8 => Ok EncoderBackendUnavailable
  | 9 => Ok VideoEncodeUnsupported
  | 10 => Ok GpuIdentityUnavailable
  | _ => perr "replay source rejection reason is unsupported"
  end.

(** * GPU identity *)
Record CaptureGpuIdentity := {
  vendor_id : Z;
  device_uuid : bytes;
  driver_uuid : bytes;
}.
#[global] Instance CaptureGpuIdentity_eq_dec : EqDecision CaptureGpuIdentity.
Proof. solve_decision. Defined.

Definition CaptureGpuIdentity_new (vendor : Z) (device driver : bytes)
    : outcome ProtocolError CaptureGpuIdentity :=
  if (vendor =? 0) || (U16_MAX <? vendor) || bytes_eqb device (replicate 16 0)
     || bytes_eqb driver (replicate 16 0)
  then perr "capture GPU identity is unavailable"
  else Ok {| vendor_id := vendor; device_uuid := device; driver_uuid := driver |}.

Definition gpu_encode (identity : option CaptureGpuIdentity) (output : bytes)
    : outcome ProtocolError bytes :=
  output ← set_range 0 (replicate WIRE_BYTES 0) output;
  match identity with
  | None => Ok output
  | Some identity =>
      output ← set_range 0 (le_bytes 4 (vendor_id identity)) output;
      output ← set_range 4 (device_uuid identity) output;
      set_range 20 (driver_uuid identity) output
  end.

Definition gpu_decode (input : bytes) : outcome ProtocolError (option CaptureGpuIdentity) :=
  all ← get_range 0 WIRE_BYTES input;
  if negb (any_nonzero all) then Ok None
  else
    reserved ← get_range 36 4 input;
    if any_nonzero reserved then perr "capture GPU reserved fields are non-zero"
    else
      vendor ← read_u32 input 0;
      device ← get_range 4 16 input;
      driver ← get_range 20 16 input;
      identity ← CaptureGpuIdentity_new vendor device driver;
      Ok (Some identity).

(** [f(&mut output[offset..])]. *)
Definition with_subslice (offset : nat) (f : bytes -> outcome ProtocolError bytes) (output : bytes)
    : outcome ProtocolError bytes :=
  sub ← get_from offset output;
  sub ← f sub;
  Ok (take offset output ++ sub).

(** * Messages *)
Record ReplaySourceCandidate := {
  gpu_identity : option CaptureGpuIdentity;
  width : Z;
  height : Z;
  pixel_format : ReplayPixelFormat;
  target_frames_per_second : Z;
}.
#[global] Instance ReplaySourceCandidate_eq_dec : EqDecision ReplaySourceCandidate.
Proof. solve_decision. Defined.

Definition candidate_validate (c : ReplaySourceCandidate) : outcome ProtocolError unit :=
  if negb (replay_source_dimensions_supported (width c) (height c))
  then perr "replay source dimensions are invalid"
  else if negb ((target_frames_per_second c =? 30) || (target_frames_per_second c =? 60)
                || (target_frames_per_second c =? 120))
  then perr "replay source frame rate is invalid"
  else Ok tt.

Inductive CaptureMessage :=
| GpuIdentity (session_id : CaptureSessionId) (api : CaptureApi) (identity : option CaptureGpuIdentity)
| Hello (session_id : CaptureSessionId) (process_id : Z) (api : CaptureApi)
    (producer_started_monotonic_ns : Z)
| FrameBatch (session_id : CaptureSessionId) (api : CaptureApi) (first_sequence : Z)
    (frame_intervals_ns : list Z)
| Goodbye (session_id : CaptureSessionId) (api : CaptureApi) (last_sequence : Z)
    (reason : GoodbyeReason)
| ReplaySourceCandidate_ (session_id : CaptureSessionId) (candidate : ReplaySourceCandidate)
| ReplaySourceRejected (session_id : CaptureSessionId) (reason : ReplaySourceRejection)
| ReplayFrameCopied (session_id : CaptureSessionId) (sequence : Z) (source : ReplaySourceCandidate)
    (copied_bytes sample_checksum : Z)
| ReplayFrameExported (session_id : CaptureSessionId) (sequence fd_number : Z)
    (source : ReplaySourceCandidate) (offset stride modifier timestamp_ns duration_ns : Z)
| ReplayFrameReleased (session_id : CaptureSessionId) (sequence : Z)
| OverlayStatus (session_id : CaptureSessionId) (status : OverlayRuntimeStatus).

Definition message_session_id (m : CaptureMessage) : CaptureSessionId :=
  match m with
  | GpuIdentity s _ _ | Hello s _ _ _ | FrameBatch s _ _ _ | Goodbye s _ _ _
  | ReplaySourceCandidate_ s _ | ReplaySourceRejected s _ | ReplayFrameCopied s _ _ _ _
  | ReplayFrameExported s _ _ _ _ _ _ _ _ | ReplayFrameReleased s _ | OverlayStatus s _ => s
  end.

(** * Validation *)
Definition validate_intervals (intervals : list Z) : outcome ProtocolError unit :=
  if (length intervals =? 0)%nat then perr "capture frame batch cannot be empty"
  else if (MAX_FRAME_INTERVALS <? length intervals)%nat
  then perr "capture frame batch exceeds protocol limit"
  else if existsb (Z.eqb 0) intervals then perr "capture frame intervals must be greater than zero"
  else Ok tt.

Definition validate_exported_frame (fd_number offset stride timestamp_ns duration_ns : Z)
    : outcome ProtocolError unit :=
  if negb ((3 <=? fd_number) && (fd_number <=? 1000000))
  then perr "replay export FD number is invalid"
  else if (stride =? 0) || (sat_mul U32_MAX MAX_REPLAY_SOURCE_WIDTH 4 <? stride)
  then perr "replay export stride is invalid"
  else if (duration_ns =? 0) || (1000000000 <? duration_ns)
  then perr "replay export duration is invalid"
  else match checked_add U64_MAX timestamp_ns duration_ns with
       | None => perr "replay export timestamp overflows"
       | Some _ => Ok tt
       end.

Definition validate_copied_bytes (source : ReplaySourceCandidate) (copied_bytes : Z)
    : outcome ProtocolError unit :=
  expected ← ok_or (checked_mul U32_MAX (width source) (height source) ≫= fun pixels =>
                    checked_mul U32_MAX pixels 4)
               {| protocol_message := "replay copied byte count overflowed" |};
  if negb (copied_bytes =? expected) then perr "replay copied byte count does not match its source"
  else Ok tt.

(** * Encoding *)
Definition message_layout (m : CaptureMessage) : outcome ProtocolError (Z * nat) :=
  match m with
  | GpuIdentity _ _ _ => Ok (KIND_GPU_IDENTITY, GPU_IDENTITY_BYTES)
  | Hello _ _ _ _ => Ok (KIND_HELLO, HELLO_BYTES)
  | FrameBatch _ _ _ intervals =>
      _ ← validate_intervals intervals;
      Ok (KIND_FRAME_BATCH, FRAME_BATCH_PREFIX_BYTES + length intervals * 8)%nat
  | Goodbye _ _ _ _ => Ok (KIND_GOODBYE, GOODBYE_BYTES)
  | ReplaySourceCandidate_ _ candidate =>
      _ ← candidate_validate candidate;
      Ok (KIND_REPLAY_SOURCE_CANDIDATE, REPLAY_SOURCE_CANDIDATE_BYTES)
  | ReplaySourceRejected _ _ => Ok (KIND_REPLAY_SOURCE_REJECTED, REPLAY_SOURCE_REJECTED_BYTES)
  | ReplayFrameCopied _ _ source copied_bytes _ =>
      _ ← candidate_validate source;
      _ ← validate_copied_bytes source copied_bytes;
      Ok (KIND_REPLAY_FRAME_COPIED, REPLAY_FRAME_COPIED_BYTES)
  | ReplayFrameExported _ _ fd source offset stride _ timestamp duration =>
      _ ← candidate_validate source;
      _ ← validate_exported_frame fd offset stride timestamp duration;
      Ok (KIND_REPLAY_FRAME_EXPORTED, REPLAY_FRAME_EXPORTED_BYTES)
  | ReplayFrameReleased _ _ => Ok (KIND_REPLAY_FRAME_RELEASED, REPLAY_FRAME_RELEASED_BYTES)
  | OverlayStatus _ _ => Ok (KIND_OVERLAY_STATUS, OVERLAY_STATUS_BYTES)
  end.

Definition encode_gpu_identity (output : bytes) (api : CaptureApi) (identity : option CaptureGpuIdentity)
    : outcome ProtocolError bytes :=
  output ← with_subslice HEADER_BYTES (gpu_encode identity) output;
  set_index (HEADER_BYTES + 40) (CaptureApi_as_u8 api) output.

Definition encode_replay_source_candidate (output : bytes) (c : ReplaySourceCandidate)
    : outcome ProtocolError bytes :=
  output ← write_u32 output HEADER_BYTES (width c);
  output ← write_u32 output (HEADER_BYTES + 4) (height c);
  output ← set_index (HEADER_BYTES + 8) (ReplayPixelFormat_as_u8 (pixel_format c)) output;
  output ← set_index (HEADER_BYTES + 9) (target_frames_per_second c) output;
  with_subslice (HEADER_BYTES + 16) (gpu_encode (gpu_identity c)) output.

Definition encode_replay_frame_copied (output : bytes) (sequence : Z) (source : ReplaySourceCandidate)
    (copied_bytes sample_checksum : Z) : outcome ProtocolError bytes :=
  output ← write_u64 output HEADER_BYTES sequence;
  output ← write_u32 output (HEADER_BYTES + 8) copied_bytes;
  output ← write_u32 output (HEADER_BYTES + 12) (width source);
  output ← write_u32 output (HEADER_BYTES + 16) (height source);
  output ← set_index (HEADER_BYTES + 20) (ReplayPixelFormat_as_u8 (pixel_format source)) output;
  output ← set_index (HEADER_BYTES + 21) (target_frames_per_second source) output;
  output ← write_u64 output (HEADER_BYTES + 24) sample_checksum;
  with_subslice (HEADER_BYTES + 32) (gpu_encode (gpu_identity source)) output.

(** [for (index, interval) in intervals.iter().enumerate() { write_u64(.., index * 8, ..) }]. *)
Fixpoint write_intervals (output : bytes) (index : nat) (intervals : list Z)
    : outcome ProtocolError bytes :=
  match intervals with
  | [] => Ok output
  | interval :: rest =>
      output ← write_u64 output (HEADER_BYTES + FRAME_BATCH_PREFIX_BYTES + index * 8) interval;
      write_intervals output (S index) rest
  end.

Definition encode_payload (m : CaptureMessage) (output : bytes) : outcome ProtocolError bytes :=
  match m with
  | GpuIdentity _ api identity => encode_gpu_identity output api identity
  | Hello _ process_id api started =>
      output ← write_u32 output HEADER_BYTES process_id;
      output ← set_index (HEADER_BYTES + 4) (CaptureApi_as_u8 api) output;
      write_u64 output (HEADER_BYTES + 8) started
  | FrameBatch _ api first_sequence intervals =>
      output ← write_u64 output HEADER_BYTES first_sequence;
      frame_count ← ok_or (try_from U16_MAX (zlen intervals))
                      {| protocol_message := "capture frame count exceeds wire field" |};
      output ← write_u16 output (HEADER_BYTES + 8) frame_count;
      output ← set_index (HEADER_BYTES + 10) (CaptureApi_as_u8 api) output;
      write_intervals output 0 intervals
  | Goodbye _ api last_sequence reason =>
      output ← write_u64 output HEADER_BYTES last_sequence;
      output ← set_index (HEADER_BYTES + 8) (GoodbyeReason_as_u8 reason) output;
      set_index (HEADER_BYTES + 9) (CaptureApi_as_u8 api) output
  | ReplaySourceCandidate_ _ candidate => encode_replay_source_candidate output candidate
  | ReplaySourceRejected _ reason => set_index HEADER_BYTES (ReplaySourceRejection_as_u8 reason) output
  | ReplayFrameCopied _ sequence source copied_bytes sample_checksum =>
      encode_replay_frame_copied output sequence source copied_bytes sample_checksum
  | ReplayFrameExported _ sequence fd_number source offset stride modifier timestamp_ns duration_ns =>
      let base := HEADER_BYTES in
      output ← write_u64 output base sequence;
      output ← write_u32 output (base + 8) fd_number;
      output ← write_u32 output (base + 12) (width source);
      output ← write_u32 output (base + 16) (height source);
      output ← set_index (base + 20) (ReplayPixelFormat_as_u8 (pixel_format source)) output;
      output ← set_index (base + 21) (target_frames_per_second source) output;
      output ← write_u32 output (base + 24) offset;
      output ← write_u32 output (base + 28) stride;
      output ← write_u64 output (base + 32) modifier;
      output ← write_u64 output (base + 40) timestamp_ns;
      output ← write_u64 output (base + 48) duration_ns;
      with_subslice (base + 56) (gpu_encode (gpu_identity source)) output
  | ReplayFrameReleased _ sequence => write_u64 output HEADER_BYTES sequence
  | OverlayStatus _ status =>
      let '(state, reason) :=
        match status with
        | OverlayRequested => (1, 0)
        | OverlayActive => (2, 0)
        | OverlayError reason => (3, OverlayFailureReason_as_u8 reason)
        end in
      output ← set_index HEADER_BYTES state output;
      set_index (HEADER_BYTES + 1) reason output
  end.

(** Returns the message length and the buffer after the call. *)
Definition encode_message (m : CaptureMessage) (output : bytes) : outcome ProtocolError (nat * bytes) :=
  '(kind, payload_bytes) ← message_layout m;
  let message_bytes := (HEADER_BYTES + payload_bytes)%nat in
  if (MAX_MESSAGE_BYTES <? message_bytes)%nat then perr "capture message exceeds protocol limit"
  else if (length output <? message_bytes)%nat then perr "capture output buffer is too small"
  else
    output ← set_range 0 (replicate message_bytes 0) output;
    output ← set_range 0 MAGIC output;
    output ← write_u16 output 8 PROTOCOL_VERSION;
    output ← set_index 10 kind output;
    payload ← ok_or (try_from U16_MAX (Z.of_nat payload_bytes))
                {| protocol_message := "capture payload length exceeds wire field" |};
    output ← write_u16 output 12 payload;
    output ← set_range 16 (session_bytes (message_session_id m)) output;
    output ← encode_payload m output;
    Ok (message_bytes, output).

Definition encode_frame_batch (session_id : CaptureSessionId) (api : CaptureApi) (first_sequence : Z)
    (intervals : list Z) (output : bytes) : outcome ProtocolError (nat * bytes) :=
  _ ← validate_intervals intervals;
  let payload_bytes := (FRAME_BATCH_PREFIX_BYTES + length intervals * 8)%nat in
  let message_bytes := (HEADER_BYTES + payload_bytes)%nat in
  if (length output <? message_bytes)%nat then perr "capture output buffer is too small"
  else
    output ← set_range 0 (replicate message_bytes 0) output;
    output ← set_range 0 MAGIC output;
    output ← write_u16 output 8 PROTOCOL_VERSION;
    output ← set_index 10 KIND_FRAME_BATCH output;
    payload ← ok_or (try_from U16_MAX (Z.of_nat payload_bytes))
                {| protocol_message := "capture payload length exceeds wire field" |};
    frame_count ← ok_or (try_from U16_MAX (zlen intervals))
                    {| protocol_message := "capture frame count exceeds wire field" |};
    output ← write_u16 output 12 payload;
    output ← set_range 16 (session_bytes session_id) output;
    output ← write_u64 output HEADER_BYTES first_sequence;
    output ← write_u16 output (HEADER_BYTES + 8) frame_count;
    output ← set_index (HEADER_BYTES + 10) (CaptureApi_as_u8 api) output;
    output ← write_intervals output 0 intervals;
    Ok (message_bytes, output).


(** * Decoding *)
Definition decode_header (input : bytes) : outcome ProtocolError (Z * nat * CaptureSessionId) :=
  if (length input <? HEADER_BYTES)%nat then perr "capture message is truncated"
  else if (MAX_MESSAGE_BYTES <? length input)%nat then perr "capture message exceeds protocol limit"
  else
    magic ← get_range 0 8 input;
    if negb (bytes_eqb magic MAGIC) then perr "capture message has invalid magic"
    else
      version ← read_u16 input 8;
      if negb (version =? PROTOCOL_VERSION) then perr "capture protocol version is unsupported"
      else
        reserved ← index input 11;
        reserved_short ← read_u16 input 14;
        if negb (reserved =? 0) || negb (reserved_short =? 0)
        then perr "capture message reserved fields are non-zero"
        else
          payload ← read_u16 input 12;
          let payload_bytes := Z.to_nat payload in
          if negb (length input =? HEADER_BYTES + payload_bytes)%nat
          then perr "capture message length does not match header"
          else
            session ← get_range 16 16 input;
            session_id ← CaptureSessionId_new session;
            kind ← index input 10;
            Ok (kind, payload_bytes, session_id).

(** [for index in 0..count { intervals.push(read_u64(.., index * 8)) }]. *)
Fixpoint read_intervals (input : bytes) (index count : nat) : outcome ProtocolError (list Z) :=
  match count with
  | O => Ok []
  | S count =>
      interval ← read_u64 input (HEADER_BYTES + FRAME_BATCH_PREFIX_BYTES + index * 8);
      rest ← read_intervals input (S index) count;
      Ok (interval :: rest)
  end.

Definition decode_frame_batch (input : bytes) (session_id : CaptureSessionId) (payload_bytes : nat)
    : outcome ProtocolError CaptureMessage :=
  reserved ← get_range (HEADER_BYTES + 11) 5 input;
  if any_nonzero reserved then perr "capture frame batch reserved fields are non-zero"
  else
    count ← read_u16 input (HEADER_BYTES + 8);
    let count := Z.to_nat count in
    if negb (payload_bytes =? FRAME_BATCH_PREFIX_BYTES + count * 8)%nat
    then perr "capture frame batch count does not match payload"
    else
      intervals ← read_intervals input 0 count;
      _ ← validate_intervals intervals;
      tag ← index input (HEADER_BYTES + 10);
      api ← CaptureApi_from_wire tag;
      first_sequence ← read_u64 input HEADER_BYTES;
      Ok (FrameBatch session_id api first_sequence intervals).

Definition decode_goodbye (input : bytes) (session_id : CaptureSessionId)
    : outcome ProtocolError CaptureMessage :=
  reserved ← get_range (HEADER_BYTES + 10) 6 input;
  if any_nonzero reserved then perr "capture goodbye reserved fields are non-zero"
  else
    tag ← index input (HEADER_BYTES + 9);
    api ← CaptureApi_from_wire tag;
    last_sequence ← read_u64 input HEADER_BYTES;
    tag ← index input (HEADER_BYTES + 8);
    reason ← GoodbyeReason_from_wire tag;
    Ok (Goodbye session_id api last_sequence reason).

Definition decode_overlay_status (input : bytes) (session_id : CaptureSessionId)
    : outcome ProtocolError CaptureMessage :=
  reserved ← get_range (HEADER_BYTES + 2) 6 input;
  if any_nonzero reserved then perr "overlay status reserved fields are non-zero"
  else
    state ← index input HEADER_BYTES;
    reason ← index input (HEADER_BYTES + 1);
    status ←
      match state, reason with
      | 1, 0 => Ok OverlayRequested
      | 2, 0 => Ok OverlayActive
      | 3, reason => reason ← OverlayFailureReason_from_wire reason; Ok (OverlayError reason)
      | _, _ => perr "overlay status is invalid"
      end;
    Ok (OverlayStatus session_id status).

(** The struct literal the three replay decoders build: the GPU identity is
    decoded before the other fields are read, in the order of the literal. *)
Definition read_candidate (input : bytes) (gpu wide high format fps : nat)
    : outcome ProtocolError ReplaySourceCandidate :=
  sub ← get_from gpu input;
  identity ← gpu_decode sub;
  w ← read_u32 input wide;
  h ← read_u32 input high;
  tag ← index input format;
  pixel_format ← ReplayPixelFormat_from_wire tag;
  target ← index input fps;
  Ok {| gpu_identity := identity; width := w; height := h; pixel_format := pixel_format;
        target_frames_per_second := target |}.

Definition decode_replay_frame_copied (input : bytes) (session_id : CaptureSessionId)
    : outcome ProtocolError CaptureMessage :=
  reserved ← get_range (HEADER_BYTES + 22) 2 input;
  if any_nonzero reserved then perr "replay frame copy reserved fields are non-zero"
  else
    copied_bytes ← read_u32 input (HEADER_BYTES + 8);
    source ← read_candidate input (HEADER_BYTES + 32) (HEADER_BYTES + 12) (HEADER_BYTES + 16)
               (HEADER_BYTES + 20) (HEADER_BYTES + 21);
    _ ← candidate_validate source;
    _ ← validate_copied_bytes source copied_bytes;
    sequence ← read_u64 input HEADER_BYTES;
    sample_checksum ← read_u64 input (HEADER_BYTES + 24);
    Ok (ReplayFrameCopied session_id sequence source copied_bytes sample_checksum).

Definition decode_replay_frame_exported (input : bytes) (session_id : CaptureSessionId)
    : outcome ProtocolError CaptureMessage :=
  let base := HEADER_BYTES in
  reserved ← get_range (base + 22) 2 input;
  if any_nonzero reserved then perr "replay frame export reserved fields are non-zero"
  else
    source ← read_candidate input (HEADER_BYTES + 56) (base + 12) (base + 16) (base + 20) (base + 21);
    fd_number ← read_u32 input (base + 8);
    offset ← read_u32 input (base + 24);
    stride ← read_u32 input (base + 28);
    modifier ← read_u64 input (base + 32);
    timestamp_ns ← read_u64 input (base + 40);
    duration_ns ← read_u64 input (base + 48);
    _ ← candidate_validate source;
    _ ← validate_exported_frame fd_number offset stride timestamp_ns duration_ns;
    sequence ← read_u64 input base;
    Ok (ReplayFrameExported session_id sequence fd_number source offset stride modifier
          timestamp_ns duration_ns).

Definition decode_replay_source_rejection (input : bytes) (session_id : CaptureSessionId)
    : outcome ProtocolError CaptureMessage :=
  reserved ← get_range (HEADER_BYTES + 1) 7 input;
  if any_nonzero reserved then perr "replay source rejection reserved fields are non-zero"
  else
    tag ← index input HEADER_BYTES;
    reason ← ReplaySourceRejection_from_wire tag;
    Ok (ReplaySourceRejected session_id reason).

Definition decode_replay_source_candidate (input : bytes) (session_id : CaptureSessionId)
    : outcome ProtocolError CaptureMessage :=
  reserved ← get_range (HEADER_BYTES + 10) 6 input;
  if any_nonzero reserved then perr "replay source reserved fields are non-zero"
  else
    candidate ← read_candidate input (HEADER_BYTES + 16) HEADER_BYTES (HEADER_BYTES + 4)
                  (HEADER_BYTES + 8) (HEADER_BYTES + 9);
    _ ← candidate_validate candidate;
    Ok (ReplaySourceCandidate_ session_id candidate).

Definition decode_gpu_identity (input : bytes) (session_id : CaptureSessionId)
    : outcome ProtocolError CaptureMessage :=
  reserved ← get_from (HEADER_BYTES + 41) input;
  if any_nonzero reserved then perr "capture GPU message reserved fields are non-zero"
  else
    tag ← index input (HEADER_BYTES + 40);
    api ← CaptureApi_from_wire tag;
    sub ← get_from HEADER_BYTES input;
    identity ← gpu_decode sub;
    Ok (GpuIdentity session_id api identity).

Definition decode_hello (input : bytes) (session_id : CaptureSessionId)
    : outcome ProtocolError CaptureMessage :=
  process_id ← read_u32 input HEADER_BYTES;
  tag ← index input (HEADER_BYTES + 4);
  api ← CaptureApi_from_wire tag;
  started ← read_u64 input (HEADER_BYTES + 8);
  Ok (Hello session_id process_id api started).

Definition decode_replay_frame_released (input : bytes) (session_id : CaptureSessionId)
    : outcome ProtocolError CaptureMessage :=
  reserved ← get_range (HEADER_BYTES + 8) 8 input;
  if any_nonzero reserved then perr "replay frame release reserved fields are non-zero"
  else
    sequence ← read_u64 input HEADER_BYTES;
    Ok (ReplayFrameReleased session_id sequence).

Definition decode_message (input : bytes) : outcome ProtocolError CaptureMessage :=
  '(kind, payload_bytes, session_id) ← decode_header input;
  let sized (size : nat) (k : outcome ProtocolError CaptureMessage) :=
    if (payload_bytes =? size)%nat then k else perr "capture message payload has invalid size" in
  if kind =? KIND_GPU_IDENTITY then sized GPU_IDENTITY_BYTES (decode_gpu_identity input session_id)
  else if kind =? KIND_HELLO then sized HELLO_BYTES (decode_hello input session_id)
  else if kind =? KIND_FRAME_BATCH then
    if (FRAME_BATCH_PREFIX_BYTES <=? payload_bytes)%nat
    then decode_frame_batch input session_id payload_bytes
    else perr "capture message payload has invalid size"
  else if kind =? KIND_GOODBYE then sized GOODBYE_BYTES (decode_goodbye input session_id)
  else if kind =? KIND_REPLAY_SOURCE_CANDIDATE then
    sized REPLAY_SOURCE_CANDIDATE_BYTES (decode_replay_source_candidate input session_id)
  else if kind =? KIND_REPLAY_SOURCE_REJECTED then
    sized REPLAY_SOURCE_REJECTED_BYTES (decode_replay_source_rejection input session_id)
  else if kind =? KIND_REPLAY_FRAME_COPIED then
    sized REPLAY_FRAME_COPIED_BYTES (decode_replay_frame_copied input session_id)
  else if kind =? KIND_REPLAY_FRAME_EXPORTED then
    sized REPLAY_FRAME_EXPORTED_BYTES (decode_replay_frame_exported input session_id)
  else if kind =? KIND_REPLAY_FRAME_RELEASED then
    sized REPLAY_FRAME_RELEASED_BYTES (decode_replay_frame_released input session_id)
  else if kind =? KIND_OVERLAY_STATUS then
    sized OVERLAY_STATUS_BYTES (decode_overlay_status input session_id)
  else perr "capture message kind is unsupported".
