(* ===== verification/CaptureProtocolFacts.v ===== *)
(** The wire format of the capture protocol and the correctness of its codec:
    the encoder writes exactly the documented layout, the decoder inverts it,
    never panics, and accepts nothing but canonical encodings. *)
From stdpp Require Import strings.
From S2P Require Import Prelude Bytes CaptureProtocol.
Local Open Scope Z_scope.

(** * The wire format, as a concatenation of fields *)
Definition wire_header (kind : Z) (payload_bytes : nat) (session : bytes) : bytes :=
  MAGIC ++ le_bytes 2 PROTOCOL_VERSION ++ [kind; 0] ++ le_bytes 2 (Z.of_nat payload_bytes)
  ++ [0; 0] ++ session.

Definition wire_gpu (identity : option CaptureGpuIdentity) : bytes :=
  match identity with
  | None => replicate WIRE_BYTES 0
  | Some i => le_bytes 4 (vendor_id i) ++ device_uuid i ++ driver_uuid i ++ [0; 0; 0; 0]
  end.

Definition status_bytes (s : OverlayRuntimeStatus) : bytes :=
  match s with
  | OverlayRequested => [1; 0]
  | OverlayActive => [2; 0]
  | OverlayError reason => [3; OverlayFailureReason_as_u8 reason]
  end.

Definition wire_intervals (l : list Z) : bytes := flat_map (le_bytes 8) l.

Definition wire_kind (m : CaptureMessage) : Z :=
  match m with
  | GpuIdentity _ _ _ => KIND_GPU_IDENTITY
  | Hello _ _ _ _ => KIND_HELLO
  | FrameBatch _ _ _ _ => KIND_FRAME_BATCH
  | Goodbye _ _ _ _ => KIND_GOODBYE
  | ReplaySourceCandidate_ _ _ => KIND_REPLAY_SOURCE_CANDIDATE
  | ReplaySourceRejected _ _ => KIND_REPLAY_SOURCE_REJECTED
  | ReplayFrameCopied _ _ _ _ _ => KIND_REPLAY_FRAME_COPIED
  | ReplayFrameExported _ _ _ _ _ _ _ _ _ => KIND_REPLAY_FRAME_EXPORTED
  | ReplayFrameReleased _ _ => KIND_REPLAY_FRAME_RELEASED
  | OverlayStatus _ _ => KIND_OVERLAY_STATUS
  end.

Definition source_bytes (c : ReplaySourceCandidate) : bytes :=
  le_bytes 4 (width c) ++ le_bytes 4 (height c)
  ++ [ReplayPixelFormat_as_u8 (pixel_format c); target_frames_per_second c].

Definition wire_payload (m : CaptureMessage) : bytes :=
  match m with
  | GpuIdentity _ api identity => wire_gpu identity ++ [CaptureApi_as_u8 api] ++ replicate 7 0
  | Hello _ process_id api started =>
      le_bytes 4 process_id ++ [CaptureApi_as_u8 api] ++ replicate 3 0 ++ le_bytes 8 started
  | FrameBatch _ api first_sequence intervals =>
      le_bytes 8 first_sequence ++ le_bytes 2 (zlen intervals) ++ [CaptureApi_as_u8 api]
      ++ replicate 5 0 ++ wire_intervals intervals
  | Goodbye _ api last_sequence reason =>
      le_bytes 8 last_sequence ++ [GoodbyeReason_as_u8 reason; CaptureApi_as_u8 api] ++ replicate 6 0
  | ReplaySourceCandidate_ _ c => source_bytes c ++ replicate 6 0 ++ wire_gpu (gpu_identity c)
  | ReplaySourceRejected _ reason => [ReplaySourceRejection_as_u8 reason] ++ replicate 7 0
  | ReplayFrameCopied _ sequence c copied_bytes checksum =>
      le_bytes 8 sequence ++ le_bytes 4 copied_bytes ++ source_bytes c ++ [0; 0]
      ++ le_bytes 8 checksum ++ wire_gpu (gpu_identity c)
  | ReplayFrameExported _ sequence fd c offset stride modifier timestamp duration =>
      le_bytes 8 sequence ++ le_bytes 4 fd ++ source_bytes c ++ [0; 0]
      ++ le_bytes 4 offset ++ le_bytes 4 stride ++ le_bytes 8 modifier ++ le_bytes 8 timestamp
      ++ le_bytes 8 duration ++ wire_gpu (gpu_identity c)
  | ReplayFrameReleased _ sequence => le_bytes 8 sequence ++ replicate 8 0
  | OverlayStatus _ status => status_bytes status ++ replicate 6 0
  end.

Definition wire (m : CaptureMessage) : bytes :=
  wire_header (wire_kind m) (length (wire_payload m)) (session_bytes (message_session_id m))
  ++ wire_payload m.

(** * The invariants of the Rust types *)
Definition session_wf (id : CaptureSessionId) : Prop :=
  length (session_bytes id) = 16%nat /\ session_bytes id <> replicate 16 0.
Definition gpu_wf (identity : option CaptureGpuIdentity) : Prop :=
  match identity with
  | None => True
  | Some i =>
      0 < vendor_id i <= U16_MAX /\ length (device_uuid i) = 16%nat /\ length (driver_uuid i) = 16%nat
      /\ device_uuid i <> replicate 16 0 /\ driver_uuid i <> replicate 16 0
  end.
Definition candidate_wf (c : ReplaySourceCandidate) : Prop :=
  gpu_wf (gpu_identity c) /\ in_range U32_MAX (width c) /\ in_range U32_MAX (height c)
  /\ in_range U8_MAX (target_frames_per_second c).

Definition fields_wf (m : CaptureMessage) : Prop :=
  match m with
  | GpuIdentity _ _ identity => gpu_wf identity
  | Hello _ process_id _ started => in_range U32_MAX process_id /\ in_range U64_MAX started
  | FrameBatch _ _ first_sequence intervals =>
      in_range U64_MAX first_sequence /\ Forall (in_range U64_MAX) intervals
  | Goodbye _ _ last_sequence _ => in_range U64_MAX last_sequence
  | ReplaySourceCandidate_ _ c => candidate_wf c
  | ReplaySourceRejected _ _ => True
  | ReplayFrameCopied _ sequence c copied_bytes checksum =>
      in_range U64_MAX sequence /\ candidate_wf c /\ in_range U32_MAX copied_bytes
      /\ in_range U64_MAX checksum
  | ReplayFrameExported _ sequence fd c offset stride modifier timestamp duration =>
      in_range U64_MAX sequence /\ in_range U32_MAX fd /\ candidate_wf c /\ in_range U32_MAX offset
      /\ in_range U32_MAX stride /\ in_range U64_MAX modifier /\ in_range U64_MAX timestamp
      /\ in_range U64_MAX duration
  | ReplayFrameReleased _ sequence => in_range U64_MAX sequence
  | OverlayStatus _ _ => True
  end.
Definition message_wf (m : CaptureMessage) : Prop :=
  session_wf (message_session_id m) /\ fields_wf m.

(** The checks a sender applies before a message goes out. *)
Definition message_valid (m : CaptureMessage) : outcome ProtocolError unit :=
  match m with
  | FrameBatch _ _ _ intervals => validate_intervals intervals
  | ReplaySourceCandidate_ _ c => candidate_validate c
  | ReplayFrameCopied _ _ c copied_bytes _ =>
      _ ← candidate_validate c; validate_copied_bytes c copied_bytes
  | ReplayFrameExported _ _ fd c offset stride _ timestamp duration =>
      _ ← candidate_validate c; validate_exported_frame fd offset stride timestamp duration
  | _ => Ok tt
  end.

(** * Reading and writing past a header *)
Section Header.
Context (h : bytes) (Hh : length h = HEADER_BYTES).

Lemma get_range_header off n p :
  get_range (HEADER_BYTES + off) n (h ++ p) = @get_range ProtocolError off n p.
Proof.
  unfold get_range. rewrite length_app, Hh.
  replace (HEADER_BYTES + off + n <=? HEADER_BYTES + length p)%nat with (off + n <=? length p)%nat
    by (destruct (Nat.leb_spec (off + n) (length p)); symmetry;
        [apply Nat.leb_le|apply Nat.leb_gt]; lia).
  destruct (off + n <=? length p)%nat; [|done].
  by rewrite <- Hh, <- slice_drop, drop_app_length.
Qed.

Lemma get_range_header0 n p : get_range HEADER_BYTES n (h ++ p) = @get_range ProtocolError 0 n p.
Proof. apply (get_range_header 0). Qed.

Lemma get_from_header off p :
  get_from (HEADER_BYTES + off) (h ++ p) = @get_from ProtocolError off p.
Proof.
  unfold get_from. rewrite length_app, Hh.
  replace (HEADER_BYTES + off <=? HEADER_BYTES + length p)%nat with (off <=? length p)%nat
    by (destruct (Nat.leb_spec off (length p)); symmetry;
        [apply Nat.leb_le|apply Nat.leb_gt]; lia).
  by rewrite <- Hh, <- drop_drop, drop_app_length.
Qed.

Lemma get_from_header0 p : get_from HEADER_BYTES (h ++ p) = @get_from ProtocolError 0 p.
Proof. apply (get_from_header 0). Qed.

Lemma index_header i p : index (h ++ p) (HEADER_BYTES + i) = @index ProtocolError p i.
Proof. unfold index. rewrite <- Hh, lookup_app_r by lia. do 2 f_equal. lia. Qed.

Lemma index_header0 p : index (h ++ p) HEADER_BYTES = @index ProtocolError p 0.
Proof. apply (index_header 0). Qed.

Lemma set_range_header off bs p :
  set_range (HEADER_BYTES + off) bs (h ++ p)
  = (p ← @set_range ProtocolError off bs p; Ok (h ++ p)).
Proof.
  unfold set_range. rewrite length_app, Hh.
  replace (HEADER_BYTES + off + length bs <=? HEADER_BYTES + length p)%nat
    with (off + length bs <=? length p)%nat
    by (destruct (Nat.leb_spec (off + length bs) (length p)); symmetry;
        [apply Nat.leb_le|apply Nat.leb_gt]; lia).
  destruct (off + length bs <=? length p)%nat; [|done]. cbn [mbind outcome_bind].
  f_equal. rewrite <- Hh. apply list_inserts_app_r.
Qed.

Lemma set_range_header0 bs p :
  set_range HEADER_BYTES bs (h ++ p) = (p ← @set_range ProtocolError 0 bs p; Ok (h ++ p)).
Proof. apply (set_range_header 0). Qed.

Lemma with_subslice_header off f p :
  with_subslice (HEADER_BYTES + off) f (h ++ p) = (p ← with_subslice off f p; Ok (h ++ p)).
Proof.
  unfold with_subslice. rewrite get_from_header.
  destruct (get_from off p) as [sub|e|] eqn:E; [|done..]. cbn [mbind outcome_bind].
  destruct (f sub); [|done..]. cbn [mbind outcome_bind].
  rewrite app_assoc. do 2 f_equal. rewrite <- Hh. apply take_app_add.
Qed.

Lemma with_subslice_header0 f p :
  with_subslice HEADER_BYTES f (h ++ p) = (p ← with_subslice 0 f p; Ok (h ++ p)).
Proof. apply (with_subslice_header 0). Qed.
End Header.

(** * Fixed-size fields *)
Lemma length_16 {A} (l : list A) : length l = 16%nat ->
  exists a b c d e f g h i j k m n o p q, l = [a; b; c; d; e; f; g; h; i; j; k; m; n; o; p; q].
Proof.
  intros H. do 17 (destruct l as [|? l]; try discriminate). repeat eexists.
Qed.

Lemma any_nonzero_false bs : any_nonzero bs = false <-> bs = replicate (length bs) 0.
Proof.
  unfold any_nonzero. induction bs as [|b bs IH]; cbn [existsb length replicate]; [done|].
  destruct (Z.eqb_spec b 0) as [->|]; cbn [negb orb]; [|naive_solver].
  rewrite IH. split; [by intros <-|by intros [= <-]].
Qed.

Lemma any_nonzero_app bs1 bs2 : any_nonzero (bs1 ++ bs2) = any_nonzero bs1 || any_nonzero bs2.
Proof. apply existsb_app. Qed.

Lemma read_le n x : 0 <= x < 256 ^ Z.of_nat n -> le_val (le_bytes n x) = x.
Proof. apply le_val_le_bytes. Qed.

Lemma read_le_2 x : in_range U16_MAX x -> le_val [x mod 256; x / 256 mod 256] = x.
Proof. intros H. apply (read_le 2). unfold in_range, U16_MAX in H. lia. Qed.
Lemma read_le_4 x : in_range U32_MAX x ->
  le_val [x mod 256; x / 256 mod 256; x / 256 / 256 mod 256; x / 256 / 256 / 256 mod 256] = x.
Proof. intros H. apply (read_le 4). unfold in_range, U32_MAX in H. lia. Qed.
Lemma read_le_8 x : in_range U64_MAX x ->
  le_val [x mod 256; x / 256 mod 256; x / 256 / 256 mod 256; x / 256 / 256 / 256 mod 256;
          x / 256 / 256 / 256 / 256 mod 256; x / 256 / 256 / 256 / 256 / 256 mod 256;
          x / 256 / 256 / 256 / 256 / 256 / 256 mod 256;
          x / 256 / 256 / 256 / 256 / 256 / 256 / 256 mod 256] = x.
Proof. intros H. apply (read_le 8). unfold in_range, U64_MAX in H. lia. Qed.

Lemma fill_prefix n (out : bytes) :
  (n <= length out)%nat ->
  @set_range ProtocolError 0 (replicate n 0) out = Ok (replicate n 0 ++ drop n out).
Proof.
  intros H. unfold set_range. rewrite length_replicate.
  destruct (Nat.leb_spec (0 + n) (length out)); [|lia]. f_equal.
  rewrite <- (take_drop n out) at 1. unfold put.
  replace (list_inserts 0 (replicate n 0) (take n out ++ drop n out))
    with (list_inserts 0 (replicate n 0) (take n out) ++ drop n out).
  - f_equal. apply list_eq. intros i. destruct (decide (i < n)%nat).
    + rewrite list_lookup_inserts by (rewrite ?length_replicate, ?length_take; lia).
      by rewrite Nat.sub_0_r.
    + rewrite !lookup_ge_None_2; [done|rewrite length_replicate; lia|].
      rewrite length_inserts, length_take. lia.
  - symmetry. apply list_eq. intros i. destruct (decide (i < n)%nat).
    + rewrite list_lookup_inserts by (rewrite ?length_replicate, ?length_app, ?length_take, ?length_drop; lia).
      rewrite lookup_app_l by (rewrite length_inserts, length_take; lia).
      rewrite list_lookup_inserts by (rewrite ?length_replicate, ?length_take; lia). done.
    + rewrite list_lookup_inserts_ge by (rewrite length_replicate; lia).
      rewrite !lookup_app_r by (rewrite ?length_inserts, length_take; lia).
      by rewrite length_inserts.
Qed.

(** * GPU identities *)
Lemma length_wire_gpu identity : gpu_wf identity -> length (wire_gpu identity) = WIRE_BYTES.
Proof.
  destruct identity as [i|]; [|done]. intros (_ & H1 & H2 & _). cbn [wire_gpu].
  by rewrite !length_app, length_le_bytes, H1, H2.
Qed.

Lemma gpu_encode_wire identity out :
  gpu_wf identity -> (WIRE_BYTES <= length out)%nat ->
  gpu_encode identity out = Ok (wire_gpu identity ++ drop WIRE_BYTES out).
Proof.
  intros Hwf Hlen. unfold gpu_encode. rewrite fill_prefix by done. cbn [mbind outcome_bind].
  destruct identity as [[vendor device driver]|]; [|done].
  destruct Hwf as (_ & H1 & H2 & _). cbn [vendor_id device_uuid driver_uuid wire_gpu] in *.
  apply length_16 in H1 as (?&?&?&?&?&?&?&?&?&?&?&?&?&?&?&?&->).
  apply length_16 in H2 as (?&?&?&?&?&?&?&?&?&?&?&?&?&?&?&?&->).
  reflexivity.
Qed.

Lemma gpu_decode_wire identity rest :
  gpu_wf identity -> gpu_decode (wire_gpu identity ++ rest) = Ok identity.
Proof.
  intros Hwf. destruct identity as [[vendor device driver]|]; [|done].
  destruct Hwf as (Hv & H1 & H2 & H3 & H4). cbn [vendor_id device_uuid driver_uuid] in *.
  unfold gpu_decode, read_u32.
  assert (Hget : get_range 0 WIRE_BYTES
    (wire_gpu (Some {| vendor_id := vendor; device_uuid := device; driver_uuid := driver |}) ++ rest)
    = @Ok ProtocolError _ (le_bytes 4 vendor ++ device ++ driver ++ [0; 0; 0; 0])).
  { apply length_16 in H1 as (?&?&?&?&?&?&?&?&?&?&?&?&?&?&?&?&->).
    apply length_16 in H2 as (?&?&?&?&?&?&?&?&?&?&?&?&?&?&?&?&->). reflexivity. }
  rewrite Hget. cbn [mbind outcome_bind]. rewrite !any_nonzero_app.
  assert (any_nonzero device = true) as ->.
  { apply not_false_iff_true. rewrite any_nonzero_false, H1. done. }
  rewrite orb_true_r. cbn [negb].
  assert (Hnew : CaptureGpuIdentity_new vendor device driver
    = Ok {| vendor_id := vendor; device_uuid := device; driver_uuid := driver |}).
  { unfold CaptureGpuIdentity_new, bytes_eqb. rewrite !bool_decide_eq_false_2 by done.
    destruct (Z.eqb_spec vendor 0); [lia|]. destruct (Z.ltb_spec U16_MAX vendor); [lia|]. done. }
  revert Hnew.
  apply length_16 in H1 as (?&?&?&?&?&?&?&?&?&?&?&?&?&?&?&?&->).
  apply length_16 in H2 as (?&?&?&?&?&?&?&?&?&?&?&?&?&?&?&?&->).
  intros Hnew. cbn -[le_val any_nonzero Z.div Z.modulo CaptureGpuIdentity_new].
  rewrite read_le_4 by (unfold in_range, U32_MAX, U16_MAX in *; lia). by rewrite Hnew.
Qed.

Lemma gpu_decode_canonical input identity :
  is_bytes input -> gpu_decode input = Ok identity ->
  gpu_wf identity /\ slice 0 WIRE_BYTES input = wire_gpu identity.
Proof.
  intros Hb. unfold gpu_decode, read_u32, get_range. intros H. inv_bind H.
  destruct (Nat.leb_spec (0 + WIRE_BYTES) (length input)) as [Hlen|]; [|done].
  injection E as <-. case_if_in H E; apply negb_true_iff in E || apply negb_false_iff in E.
  { injection H as <-. split; [done|].
    rewrite any_nonzero_false, length_slice in E. rewrite E. cbn [wire_gpu]. f_equal. lia. }
  clear E. unfold WIRE_BYTES in Hlen.
  repeat match type of H with context [(?a <=? length input)%nat] =>
    destruct (Nat.leb_spec a (length input)) as [_|]; [|cbn in *; lia] end.
  cbn [mbind outcome_bind] in H. case_if_in H E; [done|].
  inv_bind H. injection H as <-. unfold CaptureGpuIdentity_new in E0.
  case_if_in E0 E1; [done|]. injection E0 as <-.
  rewrite !orb_false_iff in E1. unfold bytes_eqb in E1.
  destruct E1 as (((Hv0 & Hv) & Hd) & Hr).
  apply bool_decide_eq_false in Hd, Hr. apply Z.eqb_neq in Hv0. apply Z.ltb_ge in Hv.
  assert (Hs : forall a n, is_bytes (slice a n input)).
  { intros. unfold is_bytes, slice. by apply Forall_take, Forall_drop. }
  pose proof (le_val_bound _ (Hs 0%nat 4%nat)) as Hval.
  assert (Hl4 : length (slice 0 4 input) = 4%nat) by (rewrite length_slice; lia).
  split.
  - cbn [gpu_wf vendor_id device_uuid driver_uuid]. rewrite !length_slice.
    splits; [lia|done|lia|lia|done|done].
  - cbn [wire_gpu vendor_id device_uuid driver_uuid].
    rewrite le_bytes_le_val_n by (apply Hs || done).
    apply any_nonzero_false in E. rewrite length_slice in E.
    replace (4 `min` (length input - 36))%nat with 4%nat in E by lia.
    change [0; 0; 0; 0] with (replicate 4 0). rewrite <- E.
    unfold slice, WIRE_BYTES. rewrite drop_0.
    rewrite <- (take_drop 4 (take 40 input)), take_take.
    replace (4 `min` 40)%nat with 4%nat by lia. f_equal.
    rewrite <- (take_drop 16 (drop 4 (take 40 input))). rewrite skipn_firstn_comm.
    rewrite take_take. f_equal. rewrite skipn_firstn_comm, drop_drop.
    rewrite <- (take_drop 16 (take (40 - 4 - 16) (drop (4 + 16) input))). rewrite take_take.
    f_equal. rewrite skipn_firstn_comm, drop_drop. done.
Qed.

(** * Interval arrays *)
Lemma length_wire_intervals l : length (wire_intervals l) = (length l * 8)%nat.
Proof. induction l as [|x l IH]; cbn [wire_intervals flat_map]; [done|].
  rewrite length_app, length_le_bytes. unfold wire_intervals in IH. rewrite IH. cbn. lia. Qed.

Lemma wire_intervals_app l1 l2 : wire_intervals (l1 ++ l2) = wire_intervals l1 ++ wire_intervals l2.
Proof. apply flat_map_app. Qed.

Lemma write_intervals_wire a seen l rest :
  length a = (HEADER_BYTES + FRAME_BATCH_PREFIX_BYTES)%nat ->
  write_intervals (a ++ wire_intervals seen ++ replicate (length l * 8) 0 ++ rest) (length seen) l
  = Ok (a ++ wire_intervals (seen ++ l) ++ rest).
Proof.
  intros Ha. revert seen. induction l as [|x l IH]; intros seen; cbn [write_intervals].
  - by rewrite app_nil_r.
  - unfold write_u64. replace (length (x :: l) * 8)%nat with (8 + length l * 8)%nat by (cbn; lia).
    rewrite replicate_add, <- app_assoc, (app_assoc a).
    rewrite set_range_app by
      (rewrite ?length_app, ?length_wire_intervals, ?length_replicate, ?length_le_bytes; lia).
    cbn [mbind outcome_bind]. rewrite <- app_assoc, (app_assoc (wire_intervals seen)).
    replace (wire_intervals seen ++ le_bytes 8 x) with (wire_intervals (seen ++ [x]))
      by (rewrite wire_intervals_app; cbn [wire_intervals flat_map]; by rewrite app_nil_r).
    replace (S (length seen)) with (length (seen ++ [x])) by (rewrite length_app; cbn; lia).
    rewrite IH. by rewrite <- app_assoc.
Qed.

Lemma read_intervals_wire a seen l :
  length a = (HEADER_BYTES + FRAME_BATCH_PREFIX_BYTES)%nat -> Forall (in_range U64_MAX) l ->
  read_intervals (a ++ wire_intervals seen ++ wire_intervals l) (length seen) (length l) = Ok l.
Proof.
  intros Ha Hl. revert seen. induction Hl as [|x l Hx Hl IH]; intros seen; [done|].
  cbn [read_intervals length]. unfold read_u64.
  change (wire_intervals (x :: l)) with (le_bytes 8 x ++ wire_intervals l).
  rewrite (app_assoc a).
  rewrite get_range_app by (rewrite ?length_app, ?length_wire_intervals, ?length_le_bytes; lia).
  cbn [mbind outcome_bind].
  rewrite read_le by (unfold in_range, U64_MAX in Hx; cbn; lia).
  rewrite <- app_assoc, (app_assoc (wire_intervals seen)).
  replace (wire_intervals seen ++ le_bytes 8 x) with (wire_intervals (seen ++ [x]))
    by (rewrite wire_intervals_app; cbn [wire_intervals flat_map]; by rewrite app_nil_r).
  replace (S (length seen)) with (length (seen ++ [x])) by (rewrite length_app; cbn; lia).
  by rewrite IH.
Qed.

Lemma read_intervals_canonical input index count l :
  is_bytes input -> read_intervals input index count = Ok l ->
  length l = count /\ Forall (in_range U64_MAX) l
  /\ wire_intervals l = slice (HEADER_BYTES + FRAME_BATCH_PREFIX_BYTES + index * 8) (count * 8) input.
Proof.
  intros Hb. revert index l. induction count as [|count IH]; intros index l; cbn [read_intervals].
  { intros [= <-]. splits; [done..|]. unfold slice. done. }
  intros H. inv_bind H. unfold read_u64 in E. inv_bind E. apply get_range_Ok in E0 as [Hlen ->].
  injection E as <-. inv_bind H. injection H as <-. apply IH in E as (Hl & Hr & Hw).
  set (off := (HEADER_BYTES + FRAME_BATCH_PREFIX_BYTES + index * 8)%nat) in *.
  assert (Hb8 : is_bytes (slice off 8 input)) by eauto with rust.
  assert (Hl8 : length (slice off 8 input) = 8%nat) by (rewrite length_slice; lia).
  splits.
  - cbn. lia.
  - apply Forall_cons. split; [|done]. pose proof (le_val_bound _ Hb8) as Hval.
    unfold zlen in Hval. rewrite Hl8 in Hval. change (256 ^ Z.of_nat 8) with (U64_MAX + 1) in Hval.
    split; [apply Hval|apply Z.lt_succ_r, Hval].
  - match goal with |- wire_intervals (_ :: ?tl) = _ =>
      change (le_bytes 8 (le_val (slice off 8 input)) ++ wire_intervals tl
              = slice off (S count * 8) input) end.
    rewrite le_bytes_le_val_n by done. rewrite Hw.
    replace (HEADER_BYTES + FRAME_BATCH_PREFIX_BYTES + S index * 8)%nat with (off + 8)%nat
      by (unfold off; lia).
    unfold slice. rewrite <- drop_drop.
    replace (S count * 8)%nat with (8 + count * 8)%nat by lia.
    rewrite <- (take_drop 8 (take (8 + count * 8) (drop off input))), take_take.
    rewrite skipn_firstn_comm. f_equal. f_equal. lia.
Qed.

(** * The encoder writes the wire format *)
Lemma with_subslice_gpu off a identity rest :
  gpu_wf identity -> length a = off ->
  with_subslice off (gpu_encode identity) (a ++ replicate WIRE_BYTES 0 ++ rest)
  = Ok (a ++ wire_gpu identity ++ rest).
Proof.
  intros Hwf <-. unfold with_subslice, get_from. rewrite length_app.
  destruct (Nat.leb_spec (length a) (length a + length (replicate WIRE_BYTES 0 ++ rest))); [|lia].
  cbn [mbind outcome_bind]. rewrite drop_app_length.
  rewrite gpu_encode_wire by (rewrite ?length_app, ?length_replicate; lia || done).
  cbn [mbind outcome_bind]. by rewrite take_app_length, drop_app_length' by done.
Qed.

Lemma length_wire_payload m :
  fields_wf m ->
  length (wire_payload m) =
  match m with
  | GpuIdentity _ _ _ => 48 | Hello _ _ _ _ => 16 | FrameBatch _ _ _ l => 16 + length l * 8
  | Goodbye _ _ _ _ => 16 | ReplaySourceCandidate_ _ _ => 56 | ReplaySourceRejected _ _ => 8
  | ReplayFrameCopied _ _ _ _ _ => 72 | ReplayFrameExported _ _ _ _ _ _ _ _ _ => 96
  | ReplayFrameReleased _ _ => 16 | OverlayStatus _ _ => 8
  end%nat.
Proof.
  destruct m; cbn [fields_wf wire_payload]; unfold candidate_wf, source_bytes; intros Hwf;
    rewrite ?length_app, ?length_wire_gpu, ?length_wire_intervals, ?length_le_bytes by tauto;
    try reflexivity.
  by destruct status.
Qed.

Lemma message_layout_wire m :
  fields_wf m ->
  message_layout m = (_ ← message_valid m; Ok (wire_kind m, length (wire_payload m))).
Proof.
  intros Hwf. rewrite length_wire_payload by done.
  destruct m; cbn [message_layout message_valid wire_kind]; try done.
  - by destruct (candidate_validate source); cbn [mbind outcome_bind].
  - by destruct (candidate_validate source); cbn [mbind outcome_bind].
Qed.

Lemma validate_intervals_Ok l :
  validate_intervals l = Ok tt <->
  (0 < length l <= MAX_FRAME_INTERVALS)%nat /\ Forall (fun i => i <> 0) l.
Proof.
  unfold validate_intervals.
  destruct (Nat.eqb_spec (length l) 0); [split; [done|lia]|].
  destruct (Nat.ltb_spec MAX_FRAME_INTERVALS (length l)); [split; [done|lia]|].
  destruct (existsb (Z.eqb 0) l) eqn:E.
  - split; [done|]. intros [_ Hf]. apply existsb_exists in E as (x & Hx & H0).
    rewrite Forall_forall in Hf. destruct (Hf x); [by apply list_elem_of_In|lia].
  - split; [|done]. intros _. split; [lia|]. apply Forall_forall. intros x Hx ->.
    assert (existsb (Z.eqb 0) l = true); [|congruence].
    apply existsb_exists. exists 0. by rewrite <- list_elem_of_In.
Qed.

Section EncodePayload.
Context (h : bytes) (Hh : length h = HEADER_BYTES).

Lemma set_range_payload off bs p :
  (off + length bs <= length p)%nat ->
  @set_range ProtocolError (HEADER_BYTES + off) bs (h ++ p) = Ok (h ++ put off bs p).
Proof.
  intros H1. rewrite set_range_header by done. unfold set_range.
  by destruct (Nat.leb_spec (off + length bs) (length p)); [|lia].
Qed.

Lemma set_range_payload0 bs p :
  (length bs <= length p)%nat ->
  @set_range ProtocolError HEADER_BYTES bs (h ++ p) = Ok (h ++ put 0 bs p).
Proof. apply (set_range_payload 0). Qed.

(** Performs the writes of an encoder into a payload of zeros. *)
Ltac do_writes :=
  unfold write_u16, write_u32, write_u64, set_index;
  repeat (first [rewrite set_range_payload0 | rewrite set_range_payload];
          [cbn [mbind outcome_bind]
          |rewrite ?length_put, ?length_app, ?length_replicate, ?length_le_bytes; cbn [length]; lia]).

Lemma encode_gpu_identity_wire api identity rest :
  gpu_wf identity ->
  encode_gpu_identity (h ++ replicate 48 0 ++ rest) api identity
  = Ok (h ++ wire_gpu identity ++ [CaptureApi_as_u8 api] ++ replicate 7 0 ++ rest).
Proof.
  intros Hwf. unfold encode_gpu_identity. rewrite with_subslice_header0 by done.
  change (replicate 48 0) with (replicate WIRE_BYTES 0 ++ replicate 8 0).
  rewrite <- app_assoc.
  pose proof (with_subslice_gpu 0 [] identity (replicate 8 0 ++ rest) Hwf eq_refl) as Hgpu.
  cbn [app] in Hgpu. rewrite Hgpu. clear Hgpu.
  cbn [mbind outcome_bind app]. unfold set_index. rewrite set_range_header by done.
  change (replicate 8 0) with ([0] ++ replicate 7 0). rewrite <- app_assoc.
  by rewrite set_range_app by (by rewrite ?length_wire_gpu).
Qed.

(** The last write of a replay message is the GPU identity. *)
Lemma gpu_tail (off : nat) p pre identity rest :
  gpu_wf identity -> p = pre ++ replicate WIRE_BYTES 0 ++ rest -> length pre = off ->
  with_subslice (HEADER_BYTES + off) (gpu_encode identity) (h ++ p)
  = Ok (h ++ pre ++ wire_gpu identity ++ rest).
Proof.
  intros Hwf -> Hoff. rewrite with_subslice_header by done. by rewrite with_subslice_gpu.
Qed.

Lemma encode_candidate_wire c rest :
  candidate_wf c ->
  encode_replay_source_candidate (h ++ replicate 56 0 ++ rest) c
  = Ok (h ++ (source_bytes c ++ replicate 6 0) ++ wire_gpu (gpu_identity c) ++ rest).
Proof.
  intros [Hgpu _]. unfold encode_replay_source_candidate. do_writes.
  by apply gpu_tail.
Qed.

Lemma encode_copied_wire sequence c copied_bytes checksum rest :
  candidate_wf c ->
  encode_replay_frame_copied (h ++ replicate 72 0 ++ rest) sequence c copied_bytes checksum
  = Ok (h ++ (le_bytes 8 sequence ++ le_bytes 4 copied_bytes ++ source_bytes c ++ [0; 0]
              ++ le_bytes 8 checksum) ++ wire_gpu (gpu_identity c) ++ rest).
Proof.
  intros [Hgpu _]. unfold encode_replay_frame_copied. do_writes.
  by apply gpu_tail.
Qed.

Lemma encode_batch_wire s api first_sequence l rest :
  validate_intervals l = Ok tt ->
  encode_payload (FrameBatch s api first_sequence l) (h ++ replicate (16 + length l * 8) 0 ++ rest)
  = Ok (h ++ wire_payload (FrameBatch s api first_sequence l) ++ rest).
Proof.
  rewrite validate_intervals_Ok. intros [Hlen _].
  cbn [encode_payload]. rewrite replicate_add, <- app_assoc. do_writes.
  assert (try_from U16_MAX (zlen l) = Some (zlen l)) as ->.
  { apply try_from_Some. unfold zlen, U16_MAX, MAX_FRAME_INTERVALS in *. lia. }
  cbn [ok_or mbind outcome_bind]. do_writes.
  assert (put 10 [CaptureApi_as_u8 api] (put 8 (le_bytes 2 (zlen l))
           (put 0 (le_bytes 8 first_sequence)
              (replicate 16 0 ++ replicate (length l * 8) 0 ++ rest)))
          = (le_bytes 8 first_sequence ++ le_bytes 2 (zlen l) ++ [CaptureApi_as_u8 api]
             ++ replicate 5 0) ++ replicate (length l * 8) 0 ++ rest) as -> by reflexivity.
  rewrite app_assoc.
  match goal with |- write_intervals (?a ++ _) _ _ = _ =>
    pose proof (write_intervals_wire a [] l rest) as Hw end.
  change (wire_intervals [] ++ ?r) with r in Hw. cbn [length] in Hw. rewrite Hw.
  - cbn [wire_payload]. by rewrite <- !app_assoc.
  - rewrite length_app, Hh. reflexivity.
Qed.

Lemma encode_payload_wire m rest :
  fields_wf m -> message_valid m = Ok tt ->
  encode_payload m (h ++ replicate (length (wire_payload m)) 0 ++ rest)
  = Ok (h ++ wire_payload m ++ rest).
Proof.
  intros Hwf Hvalid. rewrite length_wire_payload by done.
  destruct m; cbn [fields_wf] in *; try (by apply encode_batch_wire); cbn [encode_payload].
  - rewrite encode_gpu_identity_wire by done. cbn [wire_payload]. by rewrite <- !app_assoc.
  - by do_writes.
  - by do_writes.
  - rewrite encode_candidate_wire by done. cbn [wire_payload]. by rewrite <- !app_assoc.
  - by do_writes.
  - rewrite encode_copied_wire by tauto. cbn [wire_payload]. by rewrite <- !app_assoc.
  - do_writes.
    rewrite (gpu_tail 56 _ (le_bytes 8 sequence ++ le_bytes 4 fd_number ++ source_bytes source
      ++ [0; 0] ++ le_bytes 4 offset ++ le_bytes 4 stride ++ le_bytes 8 modifier
      ++ le_bytes 8 timestamp_ns ++ le_bytes 8 duration_ns) _ rest); [|apply Hwf|reflexivity..].
    cbn [wire_payload]. by rewrite <- !app_assoc.
  - by do_writes.
  - destruct status; cbn [encode_payload]; by do_writes.
Qed.
End EncodePayload.

Lemma length_wire_header kind n session :
  length session = 16%nat -> length (wire_header kind n session) = HEADER_BYTES.
Proof. intros H. unfold wire_header. by rewrite !length_app, !length_le_bytes, H. Qed.

Lemma length_wire m :
  message_wf m -> length (wire m) = (HEADER_BYTES + length (wire_payload m))%nat.
Proof.
  intros [[Hs _] _]. unfold wire. by rewrite length_app, length_wire_header.
Qed.

Lemma wire_payload_bound m :
  fields_wf m -> message_valid m = Ok tt ->
  (length (wire_payload m) <= FRAME_BATCH_PREFIX_BYTES + 8 * MAX_FRAME_INTERVALS)%nat.
Proof.
  intros Hwf Hvalid. rewrite length_wire_payload by done.
  unfold FRAME_BATCH_PREFIX_BYTES, MAX_FRAME_INTERVALS.
  destruct m; try lia. cbn [message_valid] in Hvalid.
  apply validate_intervals_Ok in Hvalid as [Hl _]. unfold MAX_FRAME_INTERVALS in Hl. lia.
Qed.

Lemma encode_header_wire {A} kind n session p e (k : bytes -> outcome ProtocolError A) :
  length session = 16%nat -> Z.of_nat n <= U16_MAX ->
  (output ← set_range 0 MAGIC (replicate HEADER_BYTES 0 ++ p);
   output ← write_u16 output 8 PROTOCOL_VERSION;
   output ← set_index 10 kind output;
   payload ← ok_or (try_from U16_MAX (Z.of_nat n)) e;
   output ← write_u16 output 12 payload;
   output ← set_range 16 session output;
   k output)
  = k (wire_header kind n session ++ p).
Proof.
  intros H Hn. rewrite (proj2 (try_from_Some _ _ _) (conj Hn eq_refl)). apply length_16 in H as (?&?&?&?&?&?&?&?&?&?&?&?&?&?&?&?&->). reflexivity.
Qed.

Lemma encode_message_wire m out :
  message_wf m ->
  encode_message m out =
    (_ ← message_valid m;
     if (length out <? length (wire m))%nat then perr "capture output buffer is too small"
     else Ok (length (wire m), wire m ++ drop (length (wire m)) out)).
Proof.
  intros [[Hs Hnz] Hwf]. unfold encode_message. rewrite message_layout_wire by done.
  destruct (message_valid m) as [[]|e|] eqn:Hvalid; cbn [mbind outcome_bind]; [|done..].
  pose proof (wire_payload_bound m Hwf Hvalid) as Hbound.
  rewrite length_wire by (by split).
  destruct (Nat.ltb_spec MAX_MESSAGE_BYTES (HEADER_BYTES + length (wire_payload m))) as [Hx|_].
  { unfold MAX_MESSAGE_BYTES in Hx. lia. }
  destruct (Nat.ltb_spec (length out) (HEADER_BYTES + length (wire_payload m))) as [|Hlen]; [done|].
  rewrite fill_prefix, bind_ret, replicate_add, <- app_assoc by done.
  rewrite encode_header_wire;
    [|done|unfold U16_MAX, FRAME_BATCH_PREFIX_BYTES, MAX_FRAME_INTERVALS in *; lia].
  rewrite encode_payload_wire; [|by apply length_wire_header|done|done].
  cbn [mbind outcome_bind]. unfold wire. by rewrite <- app_assoc.
Qed.

(** Encoding a batch straight from a slice gives the result of encoding
    the [FrameBatch] message, on every buffer and with the same errors. *)
Theorem encode_frame_batch_equiv s api first_sequence intervals out :
  encode_frame_batch s api first_sequence intervals out
  = encode_message (FrameBatch s api first_sequence intervals) out.
Proof.
  unfold encode_frame_batch, encode_message. cbn [message_layout message_session_id encode_payload].
  destruct (validate_intervals intervals) as [[]|e|] eqn:E; cbn [mbind outcome_bind]; [|done..].
  apply validate_intervals_Ok in E as [Hl _].
  destruct (Nat.ltb_spec MAX_MESSAGE_BYTES (HEADER_BYTES + (FRAME_BATCH_PREFIX_BYTES + length intervals * 8))).
  { unfold MAX_MESSAGE_BYTES in *. lia. }
  case_if_as Hlen; [done|].
  assert (try_from U16_MAX (Z.of_nat (FRAME_BATCH_PREFIX_BYTES + length intervals * 8))
          = Some (Z.of_nat (FRAME_BATCH_PREFIX_BYTES + length intervals * 8))) as ->.
  { apply try_from_Some. unfold U16_MAX, FRAME_BATCH_PREFIX_BYTES, MAX_FRAME_INTERVALS in *. lia. }
  assert (try_from U16_MAX (zlen intervals) = Some (zlen intervals)) as ->.
  { apply try_from_Some. unfold zlen, U16_MAX, MAX_FRAME_INTERVALS in *. lia. }
  cbn [ok_or mbind outcome_bind].
  repeat (rewrite ?bind_assoc; apply bind_ext; intros). done.
Qed.

(** * The decoder reads the wire format *)
Lemma new_session id : session_wf id -> CaptureSessionId_new (session_bytes id) = Ok id.
Proof.
  intros [_ Hs]. unfold CaptureSessionId_new, bytes_eqb. rewrite bool_decide_eq_false_2 by done.
  by destruct id.
Qed.

Lemma decode_header_wire kind p id :
  session_wf id -> Z.of_nat (length p) <= U16_MAX -> (HEADER_BYTES + length p <= MAX_MESSAGE_BYTES)%nat ->
  decode_header (wire_header kind (length p) (session_bytes id) ++ p) = Ok (kind, length p, id).
Proof.
  intros Hs Hp Hmax. unfold decode_header.
  rewrite length_app, length_wire_header by apply Hs.
  destruct (Nat.ltb_spec (HEADER_BYTES + length p) HEADER_BYTES); [lia|].
  destruct (Nat.ltb_spec MAX_MESSAGE_BYTES (HEADER_BYTES + length p)); [lia|].
  pose proof (new_session id Hs) as Hnew. destruct Hs as [Hs _].
  set (buf := wire_header kind (length p) (session_bytes id) ++ p).
  assert (Hreads : @get_range ProtocolError 0 8 buf = Ok MAGIC
    /\ read_u16 buf 8 = Ok (le_val (le_bytes 2 PROTOCOL_VERSION)) /\ @index ProtocolError buf 11 = Ok 0
    /\ read_u16 buf 14 = Ok (le_val [0; 0]) /\ read_u16 buf 12 = Ok (le_val (le_bytes 2 (Z.of_nat (length p))))
    /\ @get_range ProtocolError 16 16 buf = Ok (session_bytes id) /\ @index ProtocolError buf 10 = Ok kind).
  { unfold buf. apply length_16 in Hs as (?&?&?&?&?&?&?&?&?&?&?&?&?&?&?&?&->). splits; reflexivity. }
  destruct Hreads as (-> & -> & -> & -> & -> & -> & ->). rewrite !bind_ret.
  rewrite (read_le 2 (Z.of_nat (length p))) by (unfold U16_MAX in Hp; lia).
  change (le_val (le_bytes 2 PROTOCOL_VERSION)) with PROTOCOL_VERSION.
  change (le_val [0; 0]) with 0. unfold bytes_eqb. rewrite bool_decide_eq_true_2 by done.
  rewrite Z.eqb_refl. cbn [Z.eqb negb orb]. rewrite Nat2Z.id, Nat.eqb_refl. cbn [negb].
  by rewrite Hnew.
Qed.

Lemma from_wire_CaptureApi a : CaptureApi_from_wire (CaptureApi_as_u8 a) = Ok a.
Proof. by destruct a. Qed.
Lemma from_wire_GoodbyeReason r : GoodbyeReason_from_wire (GoodbyeReason_as_u8 r) = Ok r.
Proof. by destruct r. Qed.
Lemma from_wire_OverlayFailureReason r :
  OverlayFailureReason_from_wire (OverlayFailureReason_as_u8 r) = Ok r.
Proof. by destruct r. Qed.
Lemma from_wire_ReplayPixelFormat f : ReplayPixelFormat_from_wire (ReplayPixelFormat_as_u8 f) = Ok f.
Proof. by destruct f. Qed.
Lemma from_wire_ReplaySourceRejection r :
  ReplaySourceRejection_from_wire (ReplaySourceRejection_as_u8 r) = Ok r.
Proof. by destruct r. Qed.

Create Rewrite HintDb wire.
#[export] Hint Rewrite from_wire_CaptureApi from_wire_GoodbyeReason from_wire_OverlayFailureReason
  from_wire_ReplayPixelFormat from_wire_ReplaySourceRejection : wire.

Section DecodePayload.
Context (h : bytes) (Hh : length h = HEADER_BYTES).

Ltac past_header :=
  unfold read_u16, read_u32, read_u64;
  rewrite ?get_range_header0, ?get_range_header, ?get_from_header0, ?get_from_header,
    ?index_header0, ?index_header by done.

Lemma decode_batch_wire s api first_sequence l :
  in_range U64_MAX first_sequence -> Forall (in_range U64_MAX) l -> validate_intervals l = Ok tt ->
  decode_frame_batch (h ++ wire_payload (FrameBatch s api first_sequence l)) s (16 + length l * 8)
  = Ok (FrameBatch s api first_sequence l).
Proof.
  intros Hf Hl Hvalid. unfold decode_frame_batch. past_header.
  set (p := wire_payload (FrameBatch s api first_sequence l)).
  assert (Hreads : @get_range ProtocolError 11 5 p = Ok (replicate 5 0)
    /\ @get_range ProtocolError 8 2 p = Ok (le_bytes 2 (zlen l))
    /\ @index ProtocolError p 10 = Ok (CaptureApi_as_u8 api)
    /\ @get_range ProtocolError 0 8 p = Ok (le_bytes 8 first_sequence)).
  { splits; reflexivity. }
  destruct Hreads as (-> & -> & -> & ->). rewrite !bind_ret.
  pose proof Hvalid as Hlen. apply validate_intervals_Ok in Hlen as [Hlen _].
  rewrite read_le by (unfold zlen, MAX_FRAME_INTERVALS in *; lia).
  unfold zlen. rewrite Nat2Z.id, Nat.eqb_refl. cbn [any_nonzero existsb replicate Z.eqb negb orb].
  pose proof (read_intervals_wire (h ++ le_bytes 8 first_sequence ++ le_bytes 2 (zlen l)
    ++ [CaptureApi_as_u8 api] ++ replicate 5 0) [] l) as Hread.
  change (wire_intervals [] ++ ?r) with r in Hread. cbn [length] in Hread.
  rewrite <- !app_assoc in Hread. unfold p. cbn [wire_payload].
  rewrite Hread by (done || (rewrite length_app, Hh; reflexivity)).
  rewrite bind_ret, Hvalid, !bind_ret. autorewrite with wire. rewrite bind_ret.
  by rewrite read_le by (unfold in_range, U64_MAX in Hf; lia).
Qed.

Lemma read_candidate_wire buf gpu wide high format fps c :
  candidate_wf c ->
  @get_from ProtocolError gpu buf = Ok (wire_gpu (gpu_identity c)) ->
  @get_range ProtocolError wide 4 buf = Ok (le_bytes 4 (width c)) ->
  @get_range ProtocolError high 4 buf = Ok (le_bytes 4 (height c)) ->
  @index ProtocolError buf format = Ok (ReplayPixelFormat_as_u8 (pixel_format c)) ->
  @index ProtocolError buf fps = Ok (target_frames_per_second c) ->
  read_candidate buf gpu wide high format fps = Ok c.
Proof.
  intros (Hgpu & Hw & Hh' & _) H1 H2 H3 H4 H5. unfold read_candidate, read_u32.
  rewrite H1, H2, H3, H4, H5, !bind_ret, <- (app_nil_r (wire_gpu _)), gpu_decode_wire by done.
  rewrite !bind_ret. autorewrite with wire. rewrite bind_ret. unfold in_range, U32_MAX in *.
  rewrite !read_le by (cbn; lia). by destruct c.
Qed.

Ltac read_fields :=
  rewrite ?read_le by (unfold in_range, U8_MAX, U32_MAX, U64_MAX in *; cbn; lia).

Lemma decode_candidate_wire s c :
  candidate_wf c -> candidate_validate c = Ok tt ->
  decode_replay_source_candidate (h ++ wire_payload (ReplaySourceCandidate_ s c)) s
  = Ok (ReplaySourceCandidate_ s c).
Proof.
  intros Hwf Hvalid. unfold decode_replay_source_candidate. past_header.
  change (get_range 10 6 (wire_payload _)) with (@Ok ProtocolError _ (replicate 6 0)).
  rewrite bind_ret. cbn [any_nonzero existsb replicate Z.eqb negb orb].
  rewrite (read_candidate_wire _ _ _ _ _ _ c Hwf) by (by past_header).
  by rewrite bind_ret, Hvalid.
Qed.

Lemma decode_copied_wire s sequence c copied_bytes checksum :
  candidate_wf c -> in_range U64_MAX sequence -> in_range U32_MAX copied_bytes ->
  in_range U64_MAX checksum ->
  candidate_validate c = Ok tt -> validate_copied_bytes c copied_bytes = Ok tt ->
  let m := ReplayFrameCopied s sequence c copied_bytes checksum in
  decode_replay_frame_copied (h ++ wire_payload m) s = Ok m.
Proof.
  intros Hwf H1 H2 H3 Hv1 Hv2 m. unfold decode_replay_frame_copied. past_header.
  change (get_range 22 2 (wire_payload _)) with (@Ok ProtocolError _ (replicate 2 0)).
  change (get_range 8 4 (wire_payload _)) with (@Ok ProtocolError _ (le_bytes 4 copied_bytes)).
  change (get_range 0 8 (wire_payload _)) with (@Ok ProtocolError _ (le_bytes 8 sequence)).
  change (get_range 24 8 (wire_payload _)) with (@Ok ProtocolError _ (le_bytes 8 checksum)).
  rewrite bind_ret. cbn [any_nonzero existsb replicate Z.eqb negb orb]. rewrite !bind_ret.
  rewrite (read_candidate_wire _ _ _ _ _ _ c Hwf) by (by past_header).
  rewrite bind_ret, Hv1, bind_ret. read_fields. by rewrite Hv2.
Qed.

Lemma decode_exported_wire s sequence fd c offset stride modifier timestamp duration :
  let m := ReplayFrameExported s sequence fd c offset stride modifier timestamp duration in
  fields_wf m -> candidate_validate c = Ok tt ->
  validate_exported_frame fd offset stride timestamp duration = Ok tt ->
  decode_replay_frame_exported (h ++ wire_payload m) s = Ok m.
Proof.
  intros m (H1 & H2 & Hwf & H3 & H4 & H5 & H6 & H7) Hv1 Hv2. unfold decode_replay_frame_exported.
  past_header.
  change (get_range 22 2 (wire_payload _)) with (@Ok ProtocolError _ (replicate 2 0)).
  change (get_range 8 4 (wire_payload _)) with (@Ok ProtocolError _ (le_bytes 4 fd)).
  change (get_range 0 8 (wire_payload _)) with (@Ok ProtocolError _ (le_bytes 8 sequence)).
  change (get_range 24 4 (wire_payload _)) with (@Ok ProtocolError _ (le_bytes 4 offset)).
  change (get_range 28 4 (wire_payload _)) with (@Ok ProtocolError _ (le_bytes 4 stride)).
  change (get_range 32 8 (wire_payload _)) with (@Ok ProtocolError _ (le_bytes 8 modifier)).
  change (get_range 40 8 (wire_payload _)) with (@Ok ProtocolError _ (le_bytes 8 timestamp)).
  change (get_range 48 8 (wire_payload _)) with (@Ok ProtocolError _ (le_bytes 8 duration)).
  rewrite bind_ret. cbn [any_nonzero existsb replicate Z.eqb negb orb].
  rewrite (read_candidate_wire _ _ _ _ _ _ c Hwf) by (by past_header).
  rewrite !bind_ret, Hv1, bind_ret. read_fields. by rewrite Hv2.
Qed.

Lemma decode_gpu_identity_wire s api identity :
  gpu_wf identity ->
  decode_gpu_identity (h ++ wire_payload (GpuIdentity s api identity)) s = Ok (GpuIdentity s api identity).
Proof.
  intros Hwf. unfold decode_gpu_identity. past_header. cbn [wire_payload].
  pose proof (length_wire_gpu identity Hwf) as Hlen.
  unfold get_from, index. rewrite !length_app, Hlen, length_replicate.
  destruct (Nat.leb_spec 41 (WIRE_BYTES + (length [CaptureApi_as_u8 api] + 7))); [|cbn in *; lia].
  rewrite bind_ret, drop_app_ge by (rewrite Hlen; unfold WIRE_BYTES; lia).
  rewrite lookup_app_r by (rewrite Hlen; unfold WIRE_BYTES; lia). rewrite Hlen.
  cbn [WIRE_BYTES Nat.sub drop app any_nonzero existsb replicate Z.eqb negb orb lookup list_lookup
       expect Nat.leb Nat.add length]. rewrite !bind_ret. autorewrite with wire.
  rewrite !bind_ret, drop_0. by rewrite gpu_decode_wire.
Qed.

(** The messages whose payload has no variable part. *)
Lemma decode_hello_wire s process_id api started :
  in_range U32_MAX process_id -> in_range U64_MAX started ->
  decode_hello (h ++ wire_payload (Hello s process_id api started)) s = Ok (Hello s process_id api started).
Proof.
  intros H1 H2. unfold decode_hello. past_header.
  change (get_range 0 4 (wire_payload _)) with (@Ok ProtocolError _ (le_bytes 4 process_id)).
  change (get_range 8 8 (wire_payload _)) with (@Ok ProtocolError _ (le_bytes 8 started)).
  change (index (wire_payload _) 4) with (@Ok ProtocolError _ (CaptureApi_as_u8 api)).
  rewrite !bind_ret. autorewrite with wire. rewrite !bind_ret. by read_fields.
Qed.

Lemma decode_goodbye_wire s api last_sequence reason :
  in_range U64_MAX last_sequence ->
  decode_goodbye (h ++ wire_payload (Goodbye s api last_sequence reason)) s
  = Ok (Goodbye s api last_sequence reason).
Proof.
  intros H1. unfold decode_goodbye. past_header.
  change (get_range 10 6 (wire_payload _)) with (@Ok ProtocolError _ (replicate 6 0)).
  change (get_range 0 8 (wire_payload _)) with (@Ok ProtocolError _ (le_bytes 8 last_sequence)).
  change (index (wire_payload _) 8) with (@Ok ProtocolError _ (GoodbyeReason_as_u8 reason)).
  change (index (wire_payload _) 9) with (@Ok ProtocolError _ (CaptureApi_as_u8 api)).
  rewrite !bind_ret. cbn [any_nonzero existsb replicate Z.eqb negb orb].
  autorewrite with wire. rewrite !bind_ret. autorewrite with wire. rewrite !bind_ret. by read_fields.
Qed.

Lemma decode_rejection_wire s reason :
  decode_replay_source_rejection (h ++ wire_payload (ReplaySourceRejected s reason)) s
  = Ok (ReplaySourceRejected s reason).
Proof. unfold decode_replay_source_rejection. past_header. by destruct reason. Qed.

Lemma decode_released_wire s sequence :
  in_range U64_MAX sequence ->
  decode_replay_frame_released (h ++ wire_payload (ReplayFrameReleased s sequence)) s
  = Ok (ReplayFrameReleased s sequence).
Proof.
  intros H1. unfold decode_replay_frame_released. past_header.
  change (get_range 8 8 (wire_payload _)) with (@Ok ProtocolError _ (replicate 8 0)).
  change (get_range 0 8 (wire_payload _)) with (@Ok ProtocolError _ (le_bytes 8 sequence)).
  rewrite bind_ret. cbn [any_nonzero existsb replicate Z.eqb negb orb].
  rewrite !bind_ret. by read_fields.
Qed.

Lemma decode_status_wire s status :
  decode_overlay_status (h ++ wire_payload (OverlayStatus s status)) s = Ok (OverlayStatus s status).
Proof. unfold decode_overlay_status. past_header. by destruct status as [| |[]]. Qed.
End DecodePayload.

Lemma decode_message_wire m :
  message_wf m -> message_valid m = Ok tt -> decode_message (wire m) = Ok m.
Proof.
  intros [Hs Hwf] Hvalid. unfold decode_message, wire.
  pose proof (wire_payload_bound m Hwf Hvalid) as Hbound.
  rewrite decode_header_wire; [|done|unfold U16_MAX, FRAME_BATCH_PREFIX_BYTES, MAX_FRAME_INTERVALS in *; lia
    |unfold MAX_MESSAGE_BYTES; lia].
  rewrite bind_ret, length_wire_payload by done.
  set (h := wire_header _ _ _).
  assert (Hh : length h = HEADER_BYTES) by (apply length_wire_header; apply Hs). clearbody h.
  destruct m; cbn [wire_kind message_session_id fields_wf message_valid] in *.
  - by apply decode_gpu_identity_wire.
  - destruct Hwf. by apply decode_hello_wire.
  - destruct Hwf. by apply decode_batch_wire.
  - by apply decode_goodbye_wire.
  - by apply decode_candidate_wire.
  - by apply decode_rejection_wire.
  - inv_bind Hvalid. destruct v. apply decode_copied_wire; tauto.
  - inv_bind Hvalid. destruct v. by apply decode_exported_wire.
  - by apply decode_released_wire.
  - by apply decode_status_wire.
Qed.

(** C3: round trip.  A message whose checks pass, encoded into any buffer
    large enough for it, decodes back to itself; the encoder returns the
    number of bytes it wrote and leaves the rest of the buffer alone.  A
    smaller buffer is refused. *)
Theorem encode_decode_roundtrip m out (Hwf : message_wf m) (Hvalid : message_valid m = Ok tt) :
  if (length out <? length (wire m))%nat
  then encode_message m out = perr "capture output buffer is too small"
  else exists out', encode_message m out = Ok (length (wire m), out')
       /\ decode_message (take (length (wire m)) out') = Ok m
       /\ drop (length (wire m)) out' = drop (length (wire m)) out
       /\ length out' = length out.
Proof.
  rewrite encode_message_wire, Hvalid, bind_ret by done.
  destruct (Nat.ltb_spec (length out) (length (wire m))); [done|].
  eexists. split; [done|]. rewrite take_app_length, drop_app_length, length_app, length_drop.
  splits; [by apply decode_message_wire|done|lia].
Qed.

(** * The decoder never panics *)
Lemma read_u16_no_panic buf off : (off + 2 <= length buf)%nat -> no_panic (read_u16 buf off).
Proof. intros H. unfold read_u16. apply bind_no_panic; [auto with rust|done]. Qed.
Lemma read_u32_no_panic buf off : (off + 4 <= length buf)%nat -> no_panic (read_u32 buf off).
Proof. intros H. unfold read_u32. apply bind_no_panic; [auto with rust|done]. Qed.
Lemma read_u64_no_panic buf off : (off + 8 <= length buf)%nat -> no_panic (read_u64 buf off).
Proof. intros H. unfold read_u64. apply bind_no_panic; [auto with rust|done]. Qed.

Lemma CaptureSessionId_new_no_panic bs : no_panic (CaptureSessionId_new bs).
Proof. unfold CaptureSessionId_new. by case_match. Qed.
Lemma CaptureGpuIdentity_new_no_panic v d r : no_panic (CaptureGpuIdentity_new v d r).
Proof. unfold CaptureGpuIdentity_new. by case_match. Qed.
Lemma CaptureApi_no_panic z : no_panic (CaptureApi_from_wire z).
Proof. unfold CaptureApi_from_wire. by repeat case_match. Qed.
Lemma GoodbyeReason_no_panic z : no_panic (GoodbyeReason_from_wire z).
Proof. unfold GoodbyeReason_from_wire. by repeat case_match. Qed.
Lemma OverlayFailureReason_no_panic z : no_panic (OverlayFailureReason_from_wire z).
Proof. unfold OverlayFailureReason_from_wire. by repeat case_match. Qed.
Lemma ReplayPixelFormat_no_panic z : no_panic (ReplayPixelFormat_from_wire z).
Proof. unfold ReplayPixelFormat_from_wire. by repeat case_match. Qed.
Lemma ReplaySourceRejection_no_panic z : no_panic (ReplaySourceRejection_from_wire z).
Proof. unfold ReplaySourceRejection_from_wire. by repeat case_match. Qed.
Lemma candidate_validate_no_panic c : no_panic (candidate_validate c).
Proof. unfold candidate_validate. by repeat case_match. Qed.
Lemma validate_intervals_no_panic l : no_panic (validate_intervals l).
Proof. unfold validate_intervals. by repeat case_match. Qed.
Lemma validate_exported_no_panic a b c d e : no_panic (validate_exported_frame a b c d e).
Proof. unfold validate_exported_frame. by repeat case_match. Qed.
Lemma validate_copied_no_panic c n : no_panic (validate_copied_bytes c n).
Proof.
  unfold validate_copied_bytes. apply bind_no_panic; [auto with rust|]. intros a _. by case_match.
Qed.
#[export] Hint Resolve CaptureSessionId_new_no_panic CaptureGpuIdentity_new_no_panic
  CaptureApi_no_panic GoodbyeReason_no_panic OverlayFailureReason_no_panic
  ReplayPixelFormat_no_panic ReplaySourceRejection_no_panic candidate_validate_no_panic
  validate_intervals_no_panic validate_exported_no_panic validate_copied_no_panic : rust.

(** Walks through a decoder whose reads are inside the buffer. *)
Ltac no_panic_step :=
  match goal with
  | |- no_panic (mbind _ _) => apply bind_no_panic; [|intros ? ?]
  | |- no_panic (Ok _) => done
  | |- no_panic (Err _) => done
  | |- no_panic (perr _) => done
  | |- no_panic (if ?b then _ else _) => destruct b eqn:?
  | |- no_panic (get_range _ _ _) => apply get_range_no_panic
  | |- no_panic (get_from _ _) => apply get_from_no_panic
  | |- no_panic (index _ _) => apply index_no_panic
  | |- no_panic (read_u16 _ _) => apply read_u16_no_panic
  | |- no_panic (read_u32 _ _) => apply read_u32_no_panic
  | |- no_panic (read_u64 _ _) => apply read_u64_no_panic
  | |- no_panic _ => solve [eauto 2 with rust]
  end.
Ltac no_panic_auto := repeat no_panic_step; unfold HEADER_BYTES, WIRE_BYTES in *; try lia.

Lemma gpu_decode_no_panic input : (WIRE_BYTES <= length input)%nat -> no_panic (gpu_decode input).
Proof. intros H. unfold gpu_decode. no_panic_auto. Qed.

Lemma read_candidate_no_panic buf gpu wide high format fps :
  (gpu + 40 <= length buf)%nat -> (wide + 4 <= length buf)%nat -> (high + 4 <= length buf)%nat ->
  (format < length buf)%nat -> (fps < length buf)%nat ->
  no_panic (read_candidate buf gpu wide high format fps).
Proof.
  intros. unfold read_candidate. no_panic_step; [no_panic_auto|]. no_panic_step; [|no_panic_auto].
  apply gpu_decode_no_panic. unfold get_from in *. case_match; simplify_eq.
  rewrite length_drop. unfold WIRE_BYTES. lia.
Qed.

Lemma read_intervals_no_panic input index count :
  (HEADER_BYTES + FRAME_BATCH_PREFIX_BYTES + (index + count) * 8 <= length input)%nat ->
  no_panic (read_intervals input index count).
Proof.
  revert index. induction count as [|count IH]; intros index H; cbn [read_intervals]; [done|].
  no_panic_step; [apply read_u64_no_panic; lia|]. no_panic_step; [apply IH; lia|done].
Qed.

Lemma decode_header_no_panic input : no_panic (decode_header input).
Proof.
  unfold decode_header. destruct (Nat.ltb_spec (length input) HEADER_BYTES); [done|].
  no_panic_auto.
Qed.

Definition demo_goodbye : CaptureMessage :=
  Goodbye {| session_bytes := replicate 16 7 |} OpenGl 99 ProcessExit.

Lemma encode_decode_roundtrip_witness :
  (length (replicate 64 5) <? length (wire demo_goodbye))%nat = false
  /\ exists out', encode_message demo_goodbye (replicate 64 5) = Ok (48%nat, out')
     /\ decode_message (take 48 out') = Ok demo_goodbye /\ drop 48 out' = replicate 16 5.
Proof.
  assert (Hwf : message_wf demo_goodbye).
  { split; [by split|]. unfold in_range, U64_MAX. cbn. unfold in_range, U64_MAX. lia. }
  pose proof (encode_decode_roundtrip demo_goodbye (replicate 64 5) Hwf eq_refl) as H.
  split; [reflexivity|].
  change (length (replicate 64 5) <? length (wire demo_goodbye))%nat with false in H.
  destruct H as (out' & H1 & H2 & H3 & _). exists out'. splits; [exact H1|exact H2|exact H3].
Defined.
