(* ===== verification/CaptureProtocolCanonical.v ===== *)
(** The decoder of the capture protocol accepts nothing but canonical
    encodings of valid messages (three unused bytes of [Hello] excepted), and
    never panics. *)
From stdpp Require Import strings.
From S2P Require Import Prelude Bytes CaptureProtocol CaptureProtocolFacts.
Local Open Scope Z_scope.

(** * Only canonical encodings are accepted *)
Section Canonical.
Context (input : bytes) (Hb : is_bytes input).

Lemma read_width w off x :
  (bs ← get_range off w input; @Ok ProtocolError _ (le_val bs)) = Ok x ->
  slice off w input = le_bytes w x /\ 0 <= x < 256 ^ Z.of_nat w.
Proof.
  intros H. apply bind_Ok in H as (bs & Hget & [= <-]).
  apply get_range_Ok in Hget as [Hlen ->].
  pose proof (is_bytes_slice off w input Hb) as Hs.
  assert (Hl : length (slice off w input) = w) by (rewrite length_slice; lia).
  rewrite le_bytes_le_val_n by done. split; [done|].
  pose proof (le_val_bound _ Hs) as Hv. unfold zlen in Hv. by rewrite Hl in Hv.
Qed.

Lemma read_u16_canonical off x :
  read_u16 input off = Ok x -> slice off 2 input = le_bytes 2 x /\ in_range U16_MAX x.
Proof. intros [Hs Hx]%(read_width 2). split; [done|]. unfold in_range, U16_MAX. lia. Qed.
Lemma read_u32_canonical off x :
  read_u32 input off = Ok x -> slice off 4 input = le_bytes 4 x /\ in_range U32_MAX x.
Proof. intros [Hs Hx]%(read_width 4). split; [done|]. unfold in_range, U32_MAX. lia. Qed.
Lemma read_u64_canonical off x :
  read_u64 input off = Ok x -> slice off 8 input = le_bytes 8 x /\ in_range U64_MAX x.
Proof. intros [Hs Hx]%(read_width 8). split; [done|]. unfold in_range, U64_MAX. lia. Qed.

Lemma zeros_canonical off n bs :
  get_range off n input = @Ok ProtocolError _ bs -> any_nonzero bs = false ->
  slice off n input = replicate n 0.
Proof.
  rewrite get_range_Ok, any_nonzero_false. intros [Hlen ->] ->. rewrite length_slice. f_equal. lia.
Qed.
Lemma CaptureApi_canonical off z api :
  @index ProtocolError input off = Ok z -> CaptureApi_from_wire z = Ok api -> slice off 1 input = [CaptureApi_as_u8 api].
Proof.
  intros ->%slice_index. unfold CaptureApi_from_wire. intros H. by repeat case_match; simplify_eq.
Qed.
Lemma GoodbyeReason_canonical off z r :
  @index ProtocolError input off = Ok z -> GoodbyeReason_from_wire z = Ok r ->
  slice off 1 input = [GoodbyeReason_as_u8 r].
Proof.
  intros ->%slice_index. unfold GoodbyeReason_from_wire. intros H. by repeat case_match; simplify_eq.
Qed.
Lemma ReplayPixelFormat_canonical off z f :
  @index ProtocolError input off = Ok z -> ReplayPixelFormat_from_wire z = Ok f ->
  slice off 1 input = [ReplayPixelFormat_as_u8 f].
Proof.
  intros ->%slice_index. unfold ReplayPixelFormat_from_wire. intros H.
  by repeat case_match; simplify_eq.
Qed.
Lemma ReplaySourceRejection_canonical off z r :
  @index ProtocolError input off = Ok z -> ReplaySourceRejection_from_wire z = Ok r ->
  slice off 1 input = [ReplaySourceRejection_as_u8 r].
Proof.
  intros ->%slice_index. unfold ReplaySourceRejection_from_wire. intros H.
  by repeat case_match; simplify_eq.
Qed.

Lemma is_byte_index off z : @index ProtocolError input off = Ok z -> is_byte z.
Proof.
  unfold index, expect. destruct (input !! off) eqn:E; [|done]. intros [= <-].
  by eapply (Forall_lookup_1 is_byte).
Qed.

Lemma read_candidate_canonical gpu wide high format fps c :
  read_candidate input gpu wide high format fps = Ok c ->
  candidate_wf c
  /\ slice gpu WIRE_BYTES input = wire_gpu (gpu_identity c)
  /\ slice wide 4 input = le_bytes 4 (width c) /\ slice high 4 input = le_bytes 4 (height c)
  /\ slice format 1 input = [ReplayPixelFormat_as_u8 (pixel_format c)]
  /\ slice fps 1 input = [target_frames_per_second c].
Proof.
  intros H. apply bind_Ok in H as (sub & Hsub & H). apply bind_Ok in H as (identity & Hid & H).
  apply bind_Ok in H as (w & Hw & H). apply bind_Ok in H as (hh & Hhh & H).
  apply bind_Ok in H as (tag & Htag & H). apply bind_Ok in H as (pf & Hpf & H).
  apply bind_Ok in H as (fp & Hfp & [= <-]).
  cbn [gpu_identity width height pixel_format target_frames_per_second].
  unfold get_from in Hsub. case_match; [|done]. injection Hsub as <-.
  apply gpu_decode_canonical in Hid as [Hwf Hgpu]; [|by apply Forall_drop].
  rewrite slice_drop, Nat.add_0_r in Hgpu.
  apply read_u32_canonical in Hw as [Hw Hwr], Hhh as [Hhh Hhr].
  pose proof (is_byte_index _ _ Hfp). apply slice_index in Hfp.
  splits; try done. by eapply ReplayPixelFormat_canonical.
Qed.

(** What a decoder that accepts the datagram guarantees about it. *)
Definition accepted (s : CaptureSessionId) (n : nat) (kind : Z) (m : CaptureMessage) : Prop :=
  message_session_id m = s /\ wire_kind m = kind /\ fields_wf m /\ message_valid m = Ok tt
  /\ slice HEADER_BYTES n input = wire_payload m.

Ltac cut_slices := cbv beta; rewrite !slice_add; unfold HEADER_BYTES in *; cbn [Nat.add] in *.
Ltac use_slices := repeat match goal with H : slice _ _ _ = _ |- _ => rewrite H; clear H end.

Lemma decode_gpu_identity_canonical s m :
  length input = (HEADER_BYTES + 48)%nat -> decode_gpu_identity input s = Ok m ->
  accepted s 48 KIND_GPU_IDENTITY m.
Proof.
  intros Hlen H. unfold decode_gpu_identity in H. apply bind_Ok in H as (r & Hr & H).
  case_if_in H Hz; [done|].
  apply bind_Ok in H as (tag & Htag & H). apply bind_Ok in H as (api & Hapi & H).
  apply bind_Ok in H as (sub & Hsub & H). apply bind_Ok in H as (identity & Hid & [= <-]).
  unfold get_from in Hsub, Hr. case_match; [|done]. case_match; [|done]. simplify_eq.
  apply gpu_decode_canonical in Hid as [Hwf Hgpu]; [|by apply Forall_drop].
  rewrite slice_drop, Nat.add_0_r in Hgpu.
  apply any_nonzero_false in Hz. rewrite length_drop, Hlen in Hz.
  pose proof (CaptureApi_canonical _ _ _ Htag Hapi) as Ha.
  unfold accepted. splits; [done..|]. change 48%nat with (WIRE_BYTES + (1 + 7))%nat. rewrite !slice_add, Hgpu.
  cbn [wire_payload]. f_equal. unfold WIRE_BYTES. rewrite Ha. f_equal.
  change (take 7 (drop 73 input) = replicate 7 0). by rewrite Hz.
Qed.
Lemma decode_hello_canonical s m :
  length input = (HEADER_BYTES + 16)%nat -> decode_hello input s = Ok m ->
  fields_wf m /\ exists process_id api started reserved,
    m = Hello s process_id api started /\ length reserved = 3%nat
    /\ slice HEADER_BYTES 16 input
       = le_bytes 4 process_id ++ [CaptureApi_as_u8 api] ++ reserved ++ le_bytes 8 started.
Proof.
  intros Hlen H. apply bind_Ok in H as (pid & Hpid & H). apply bind_Ok in H as (tag & Htag & H).
  apply bind_Ok in H as (api & Hapi & H). apply bind_Ok in H as (started & Hst & [= <-]).
  pose proof (CaptureApi_canonical _ _ _ Htag Hapi) as Ha.
  apply read_u32_canonical in Hpid as [Hpid Hr1]. apply read_u64_canonical in Hst as [Hst Hr2].
  split; [done|]. exists pid, api, started, (slice (HEADER_BYTES + 5) 3 input).
  splits; [done|rewrite length_slice; lia|].
  change 16%nat with (4 + (1 + (3 + 8)))%nat. rewrite !slice_add, Hpid, Ha.
  change (HEADER_BYTES + 4 + 1 + 3)%nat with (HEADER_BYTES + 8)%nat. rewrite Hst. done.
Qed.

Lemma decode_goodbye_canonical s m :
  decode_goodbye input s = Ok m -> accepted s 16 KIND_GOODBYE m.
Proof.
  intros H. unfold decode_goodbye in H. apply bind_Ok in H as (r & Hr & H).
  case_if_in H Hz; [done|]. apply (zeros_canonical _ _ _ Hr) in Hz.
  apply bind_Ok in H as (tag & Htag & H). apply bind_Ok in H as (api & Hapi & H).
  apply bind_Ok in H as (l & Hl & H). apply bind_Ok in H as (tag' & Htag' & H).
  apply bind_Ok in H as (reason & Hre & [= <-]).
  pose proof (CaptureApi_canonical _ _ _ Htag Hapi) as Ha.
  pose proof (GoodbyeReason_canonical _ _ _ Htag' Hre) as Hg.
  apply read_u64_canonical in Hl as [Hl Hlr].
  unfold accepted. splits; [done..|]. change 16%nat with (8 + (1 + (1 + 6)))%nat.
  rewrite !slice_add, Hl, Hg.
  change (HEADER_BYTES + 8 + 1)%nat with (HEADER_BYTES + 9)%nat. rewrite Ha.
  change (HEADER_BYTES + 9 + 1)%nat with (HEADER_BYTES + 10)%nat. by rewrite Hz.
Qed.

Lemma decode_rejection_canonical s m :
  decode_replay_source_rejection input s = Ok m -> accepted s 8 KIND_REPLAY_SOURCE_REJECTED m.
Proof.
  intros H. unfold decode_replay_source_rejection in H. apply bind_Ok in H as (r & Hr & H).
  case_if_in H Hz; [done|]. apply (zeros_canonical _ _ _ Hr) in Hz.
  apply bind_Ok in H as (tag & Htag & H). apply bind_Ok in H as (reason & Hre & [= <-]).
  pose proof (ReplaySourceRejection_canonical _ _ _ Htag Hre) as Hg.
  unfold accepted. splits; [done..|]. change 8%nat with (1 + 7)%nat. by rewrite slice_add, Hg, Hz.
Qed.

Lemma decode_released_canonical s m :
  decode_replay_frame_released input s = Ok m -> accepted s 16 KIND_REPLAY_FRAME_RELEASED m.
Proof.
  intros H. unfold decode_replay_frame_released in H. apply bind_Ok in H as (r & Hr & H).
  case_if_in H Hz; [done|]. apply (zeros_canonical _ _ _ Hr) in Hz.
  apply bind_Ok in H as (l & Hl & [= <-]). apply read_u64_canonical in Hl as [Hl Hlr].
  unfold accepted. splits; [done..|]. change 16%nat with (8 + 8)%nat. by rewrite slice_add, Hl, Hz.
Qed.

Lemma decode_status_canonical s m :
  decode_overlay_status input s = Ok m -> accepted s 8 KIND_OVERLAY_STATUS m.
Proof.
  intros H. unfold decode_overlay_status in H. apply bind_Ok in H as (r & Hr & H).
  case_if_in H Hz; [done|]. apply (zeros_canonical _ _ _ Hr) in Hz.
  apply bind_Ok in H as (state & Hst & H). apply bind_Ok in H as (reason & Hre & H).
  apply bind_Ok in H as (status & Hstatus & [= <-]). apply slice_index in Hst, Hre.
  unfold accepted. splits; [done..|]. change 8%nat with (1 + (1 + 6))%nat.
  rewrite !slice_add, Hst, Hre. change (HEADER_BYTES + 1 + 1)%nat with (HEADER_BYTES + 2)%nat.
  rewrite Hz. cbn [wire_payload]. repeat case_match; simplify_eq; try done.
  apply bind_Ok in Hstatus as (f & Hf & [= <-]). unfold OverlayFailureReason_from_wire in Hf.
  by repeat case_match; simplify_eq.
Qed.

Lemma decode_candidate_canonical s m :
  decode_replay_source_candidate input s = Ok m -> accepted s 56 KIND_REPLAY_SOURCE_CANDIDATE m.
Proof.
  intros H. unfold decode_replay_source_candidate in H. apply bind_Ok in H as (r & Hr & H).
  case_if_in H Hz; [done|]. apply (zeros_canonical _ _ _ Hr) in Hz.
  apply bind_Ok in H as (c & Hc & H). apply bind_Ok in H as ([] & Hv & [= <-]).
  apply read_candidate_canonical in Hc as (Hwf & Hg & Hw & Hh & Hp & Hf).
  unfold accepted. splits; [done..|].
  change 56%nat with (4 + (4 + (1 + (1 + (6 + WIRE_BYTES)))))%nat. rewrite !slice_add, Hw, Hh.
  change (HEADER_BYTES + 4 + 4)%nat with (HEADER_BYTES + 8)%nat. rewrite Hp.
  change (HEADER_BYTES + 8 + 1)%nat with (HEADER_BYTES + 9)%nat. rewrite Hf.
  change (HEADER_BYTES + 9 + 1)%nat with (HEADER_BYTES + 10)%nat. rewrite Hz.
  change (HEADER_BYTES + 10 + 6)%nat with (HEADER_BYTES + 16)%nat. by rewrite Hg.
Qed.

Lemma decode_copied_canonical s m :
  decode_replay_frame_copied input s = Ok m -> accepted s 72 KIND_REPLAY_FRAME_COPIED m.
Proof.
  intros H. unfold decode_replay_frame_copied in H. apply bind_Ok in H as (r & Hr & H).
  case_if_in H Hz; [done|]. apply (zeros_canonical _ _ _ Hr) in Hz.
  apply bind_Ok in H as (n & Hn & H). apply bind_Ok in H as (c & Hc & H).
  apply bind_Ok in H as ([] & Hv & H). apply bind_Ok in H as ([] & Hv2 & H).
  apply bind_Ok in H as (seq & Hseq & H). apply bind_Ok in H as (sum & Hsum & [= <-]).
  apply read_candidate_canonical in Hc as (Hwf & Hg & Hw & Hh & Hp & Hf).
  apply read_u32_canonical in Hn as [Hn Hnr].
  apply read_u64_canonical in Hseq as [Hseq Hseqr], Hsum as [Hsum Hsumr].
  unfold accepted. splits; [done..| |].
  { cbn [message_valid]. by rewrite Hv. }
  change 72%nat with (8 + (4 + (4 + (4 + (1 + (1 + (2 + (8 + WIRE_BYTES))))))))%nat.
  rewrite !slice_add, Hseq, Hn.
  change (HEADER_BYTES + 8 + 4)%nat with (HEADER_BYTES + 12)%nat. rewrite Hw.
  change (HEADER_BYTES + 12 + 4)%nat with (HEADER_BYTES + 16)%nat. rewrite Hh.
  change (HEADER_BYTES + 16 + 4)%nat with (HEADER_BYTES + 20)%nat. rewrite Hp.
  change (HEADER_BYTES + 20 + 1)%nat with (HEADER_BYTES + 21)%nat. rewrite Hf.
  change (HEADER_BYTES + 21 + 1)%nat with (HEADER_BYTES + 22)%nat. rewrite Hz.
  change (HEADER_BYTES + 22 + 2)%nat with (HEADER_BYTES + 24)%nat. rewrite Hsum.
  change (HEADER_BYTES + 24 + 8)%nat with (HEADER_BYTES + 32)%nat. by rewrite Hg.
Qed.
Lemma decode_exported_canonical s m :
  decode_replay_frame_exported input s = Ok m -> accepted s 96 KIND_REPLAY_FRAME_EXPORTED m.
Proof.
  intros H. unfold decode_replay_frame_exported in H. apply bind_Ok in H as (r & Hr & H).
  case_if_in H Hz; [done|]. apply (zeros_canonical _ _ _ Hr) in Hz.
  apply bind_Ok in H as (c & Hc & H). apply bind_Ok in H as (fd & Hfd & H).
  apply bind_Ok in H as (off & Hoff & H). apply bind_Ok in H as (stride & Hstride & H).
  apply bind_Ok in H as (md & Hmd & H). apply bind_Ok in H as (ts & Hts & H).
  apply bind_Ok in H as (dur & Hdur & H).
  apply bind_Ok in H as ([] & Hv & H). apply bind_Ok in H as ([] & Hv2 & H).
  apply bind_Ok in H as (seq & Hseq & [= <-]).
  apply read_candidate_canonical in Hc as (Hwf & Hg & Hw & Hh & Hp & Hf).
  apply read_u32_canonical in Hfd as [Hfd Hfdr], Hoff as [Hoff Hoffr], Hstride as [Hstride Hstrider].
  apply read_u64_canonical in Hseq as [Hseq Hseqr], Hmd as [Hmd Hmdr], Hts as [Hts Htsr],
    Hdur as [Hdur Hdurr].
  unfold accepted. splits; [done..| |].
  { cbn [message_valid]. by rewrite Hv. }
  change 96%nat with
    (8 + (4 + (4 + (4 + (1 + (1 + (2 + (4 + (4 + (8 + (8 + (8 + WIRE_BYTES))))))))))))%nat.
  rewrite !slice_add, Hseq, Hfd.
  change (HEADER_BYTES + 8 + 4)%nat with (HEADER_BYTES + 12)%nat. rewrite Hw.
  change (HEADER_BYTES + 12 + 4)%nat with (HEADER_BYTES + 16)%nat. rewrite Hh.
  change (HEADER_BYTES + 16 + 4)%nat with (HEADER_BYTES + 20)%nat. rewrite Hp.
  change (HEADER_BYTES + 20 + 1)%nat with (HEADER_BYTES + 21)%nat. rewrite Hf.
  change (HEADER_BYTES + 21 + 1)%nat with (HEADER_BYTES + 22)%nat. rewrite Hz.
  change (HEADER_BYTES + 22 + 2)%nat with (HEADER_BYTES + 24)%nat. rewrite Hoff.
  change (HEADER_BYTES + 24 + 4)%nat with (HEADER_BYTES + 28)%nat. rewrite Hstride.
  change (HEADER_BYTES + 28 + 4)%nat with (HEADER_BYTES + 32)%nat. rewrite Hmd.
  change (HEADER_BYTES + 32 + 8)%nat with (HEADER_BYTES + 40)%nat. rewrite Hts.
  change (HEADER_BYTES + 40 + 8)%nat with (HEADER_BYTES + 48)%nat. rewrite Hdur.
  change (HEADER_BYTES + 48 + 8)%nat with (HEADER_BYTES + 56)%nat. by rewrite Hg.
Qed.

Lemma decode_batch_canonical s n m :
  decode_frame_batch input s n = Ok m -> accepted s n KIND_FRAME_BATCH m.
Proof.
  intros H. unfold decode_frame_batch in H. apply bind_Ok in H as (r & Hr & H).
  case_if_in H Hz; [done|]. apply (zeros_canonical _ _ _ Hr) in Hz.
  apply bind_Ok in H as (count & Hcount & H).
  destruct (Nat.eqb_spec n (FRAME_BATCH_PREFIX_BYTES + Z.to_nat count * 8)) as [->|]; [|done].
  apply bind_Ok in H as (l & Hl & H). apply bind_Ok in H as ([] & Hv & H).
  apply bind_Ok in H as (tag & Htag & H). apply bind_Ok in H as (api & Hapi & H).
  apply bind_Ok in H as (first & Hfirst & [= <-]).
  pose proof (CaptureApi_canonical _ _ _ Htag Hapi) as Ha.
  apply read_u16_canonical in Hcount as [Hcount Hcr]. apply read_u64_canonical in Hfirst as [Hfirst Hfr].
  apply read_intervals_canonical in Hl as (Hll & Hlr & Hw); [|done].
  unfold accepted. splits; [done..|].
  change FRAME_BATCH_PREFIX_BYTES with (8 + (2 + (1 + 5)))%nat at 1.
  rewrite <- !Nat.add_assoc, !slice_add, Hfirst, Hcount.
  change (HEADER_BYTES + 8 + 2)%nat with (HEADER_BYTES + 10)%nat. rewrite Ha.
  change (HEADER_BYTES + 10 + 1)%nat with (HEADER_BYTES + 11)%nat. rewrite Hz.
  change (HEADER_BYTES + 11 + 5)%nat with (HEADER_BYTES + FRAME_BATCH_PREFIX_BYTES + 0 * 8)%nat.
  rewrite <- Hw. cbn [wire_payload]. unfold zlen. rewrite Hll, Z2Nat.id by apply Hcr. done.
Qed.
End Canonical.

Lemma decode_header_Ok input kind n id :
  decode_header input = Ok (kind, n, id) ->
  length input = (HEADER_BYTES + n)%nat /\
  (is_bytes input ->
   session_wf id /\ take HEADER_BYTES input = wire_header kind n (session_bytes id)).
Proof.
  unfold decode_header. destruct (Nat.ltb_spec (length input) HEADER_BYTES) as [|H0]; [done|].
  destruct (MAX_MESSAGE_BYTES <? length input)%nat; [done|].
  intros H. apply bind_Ok in H as (magic & Hmagic & H).
  destruct (bytes_eqb magic MAGIC) eqn:Em; [|done]. apply bool_decide_eq_true in Em as ->.
  apply bind_Ok in H as (version & Hversion & H).
  destruct (Z.eqb_spec version PROTOCOL_VERSION) as [->|]; [|done].
  apply bind_Ok in H as (r & Hr & H). apply bind_Ok in H as (r' & Hr' & H).
  destruct (Z.eqb_spec r 0) as [->|]; [|done]. destruct (Z.eqb_spec r' 0) as [->|]; [|done].
  apply bind_Ok in H as (payload & Hpayload & H). cbn [negb orb] in H.
  destruct (Nat.eqb_spec (length input) (HEADER_BYTES + Z.to_nat payload)) as [Hlen|]; [|done].
  apply bind_Ok in H as (session & Hsession & H). apply bind_Ok in H as (id' & Hid & H).
  apply bind_Ok in H as (k & Hk & [= -> <- ->]). split; [done|]. intros Hb.
  unfold CaptureSessionId_new in Hid. case_if_in Hid Hnz; [done|]. injection Hid as <-.
  apply bool_decide_eq_false in Hnz. apply get_range_Ok in Hmagic as [_ Hmagic], Hsession as [Hls ->].
  apply (read_u16_canonical _ Hb) in Hversion as [Hversion _], Hr' as [Hr' _], Hpayload as [Hpl Hprange].
  apply slice_index in Hr, Hk. cbn [session_bytes]. split.
  - split; [|done]. cbn [session_bytes]. rewrite length_slice. lia.
  - change (take HEADER_BYTES input) with (slice 0 (8 + (2 + (1 + (1 + (2 + (2 + 16)))))) input).
    rewrite !slice_add. cbn [Nat.add]. rewrite <- Hmagic, Hversion, Hr, Hr', Hk, Hpl.
    unfold wire_header. rewrite Z2Nat.id by apply Hprange. done.
Qed.

(** A kind test of [decode_message] that succeeds. *)
Ltac kind_case H :=
  match type of H with
  | (if ?k =? ?c then _ else _) = _ => destruct (Z.eqb_spec k c) as [->|]
  end.
Ltac size_case H :=
  match type of H with
  | (if (?n =? ?c)%nat then _ else _) = _ => destruct (Nat.eqb_spec n c) as [->|]; [|discriminate H]
  end.

(** The decoder never panics, whatever datagram it is handed. *)
Theorem decode_message_no_panic input : no_panic (decode_message input).
Proof.
  unfold decode_message. apply bind_no_panic; [apply decode_header_no_panic|].
  intros [[kind n] id] Hheader. apply decode_header_Ok in Hheader as [Hlen _]. cbv beta iota zeta.
  repeat match goal with
  | |- no_panic (if kind =? ?c then _ else _) => destruct (kind =? c)
  | |- no_panic (if (n =? ?c)%nat then _ else _) => destruct (Nat.eqb_spec n c) as [->|]
  | |- no_panic (if (?c <=? n)%nat then _ else _) => destruct (Nat.leb_spec c n)
  | |- no_panic (perr _) => done
  end.
  - unfold decode_gpu_identity, GPU_IDENTITY_BYTES in *. no_panic_auto.
    apply gpu_decode_no_panic. unfold get_from in *.
    repeat case_match; simplify_eq; rewrite length_drop; unfold WIRE_BYTES; lia.
  - unfold decode_hello, HELLO_BYTES in *. no_panic_auto.
  - unfold decode_frame_batch, FRAME_BATCH_PREFIX_BYTES in *.
    no_panic_step; [no_panic_auto|]. no_panic_step; [done|].
    no_panic_step; [no_panic_auto|]. cbv zeta. case_if_as Hn; [done|].
    apply negb_false_iff, Nat.eqb_eq in Hn. unfold FRAME_BATCH_PREFIX_BYTES in *.
    no_panic_step; [apply read_intervals_no_panic; unfold FRAME_BATCH_PREFIX_BYTES; lia|].
    no_panic_auto.
  - unfold decode_goodbye, GOODBYE_BYTES in *. no_panic_auto.
  - unfold decode_replay_source_candidate, REPLAY_SOURCE_CANDIDATE_BYTES, WIRE_BYTES in *.
    no_panic_step; [no_panic_auto|]. no_panic_step; [done|].
    no_panic_step; [apply read_candidate_no_panic|no_panic_auto]; unfold HEADER_BYTES in *; lia.
  - unfold decode_replay_source_rejection, REPLAY_SOURCE_REJECTED_BYTES in *. no_panic_auto.
  - unfold decode_replay_frame_copied, REPLAY_FRAME_COPIED_BYTES, WIRE_BYTES in *.
    no_panic_step; [no_panic_auto|]. no_panic_step; [done|]. no_panic_step; [no_panic_auto|].
    no_panic_step; [apply read_candidate_no_panic|no_panic_auto]; unfold HEADER_BYTES in *; lia.
  - unfold decode_replay_frame_exported, REPLAY_FRAME_EXPORTED_BYTES, WIRE_BYTES in *.
    no_panic_step; [no_panic_auto|]. no_panic_step; [done|].
    no_panic_step; [apply read_candidate_no_panic|no_panic_auto]; unfold HEADER_BYTES in *; lia.
  - unfold decode_replay_frame_released, REPLAY_FRAME_RELEASED_BYTES in *. no_panic_auto.
  - unfold decode_overlay_status, OVERLAY_STATUS_BYTES in *. no_panic_auto.
    repeat case_match; no_panic_auto.
Qed.

Definition hello_reserved_ignored (input : bytes) (m : CaptureMessage) : Prop :=
  exists s process_id api started reserved,
    m = Hello s process_id api started /\ length reserved = 3%nat
    /\ input = wire_header KIND_HELLO HELLO_BYTES (session_bytes s)
               ++ le_bytes 4 process_id ++ [CaptureApi_as_u8 api] ++ reserved ++ le_bytes 8 started.

(** Every accepted datagram is canonical: the decoded message satisfies
    the invariants of its type and the sender's checks, and the datagram is
    exactly its encoding, except that a [Hello] may carry anything in its three
    unused bytes. *)
Theorem decode_message_canonical input m
    (Hb : is_bytes input) (Hdec : decode_message input = Ok m) :
  message_wf m /\ message_valid m = Ok tt
  /\ (input = wire m \/ hello_reserved_ignored input m).
Proof.
  unfold decode_message in Hdec. apply bind_Ok in Hdec as ([[kind n] id] & Hheader & H).
  apply decode_header_Ok in Hheader as [Hlen Hhead]. destruct (Hhead Hb) as [Hs Htake].
  assert (Hdrop : drop HEADER_BYTES input = slice HEADER_BYTES n input).
  { unfold slice. rewrite firstn_all2; [done|]. rewrite length_drop. lia. }
  assert (Hacc : forall k, kind = k -> accepted input id n k m ->
    message_wf m /\ message_valid m = Ok tt /\ (input = wire m \/ hello_reserved_ignored input m)).
  { intros k -> (Hid & Hk & Hf & Hv & Hp). splits; [split; [by rewrite Hid|done]|done|]. left.
    rewrite <- (take_drop HEADER_BYTES input), Htake, Hdrop, Hp. unfold wire.
    rewrite Hk, Hid. do 2 f_equal. rewrite <- Hp, length_slice. lia. }
  cbv beta zeta in H.
  repeat kind_case H; try size_case H; try discriminate H.
  - by eapply Hacc, decode_gpu_identity_canonical.
  - apply decode_hello_canonical in H as [Hwf (pid & api & st & r & -> & Hr & Hsl)]; [|done..].
    splits; [done..|]. right. exists id, pid, api, st, r. splits; [done..|].
    unfold HELLO_BYTES in *. by rewrite <- (take_drop HEADER_BYTES input), Htake, Hdrop, Hsl.
  - destruct (Nat.leb_spec FRAME_BATCH_PREFIX_BYTES n); [|discriminate H].
    by eapply Hacc, decode_batch_canonical.
  - by eapply Hacc, decode_goodbye_canonical.
  - by eapply Hacc, decode_candidate_canonical.
  - by eapply Hacc, decode_rejection_canonical.
  - by eapply Hacc, decode_copied_canonical.
  - by eapply Hacc, decode_exported_canonical.
  - by eapply Hacc, decode_released_canonical.
  - by eapply Hacc, decode_status_canonical.
Qed.

(** A concrete datagram for the witnesses: a session and a frame batch. *)
Definition demo_session : CaptureSessionId := {| session_bytes := replicate 16 7 |}.
Definition demo_batch : CaptureMessage := FrameBatch demo_session Vulkan 41 [16666667; 8333333].

Lemma demo_batch_wf : message_wf demo_batch.
Proof.
  split; [by split|]. split; [unfold in_range, U64_MAX; lia|].
  repeat constructor; unfold in_range, U64_MAX; lia.
Qed.

Lemma decode_message_canonical_witness :
  is_bytes (wire demo_batch) /\ decode_message (wire demo_batch) = Ok demo_batch
  /\ wire demo_batch = wire demo_batch.
Proof.
  assert (is_bytes (wire demo_batch)) as Hb by (apply is_bytes_check; reflexivity).
  assert (Hd : decode_message (wire demo_batch) = Ok demo_batch) by reflexivity.
  pose proof (decode_message_canonical _ _ Hb Hd) as (_ & _ & [|(? & ? & ? & ? & ? & H & _)]); done.
Defined.

(** The one exception.  The decoder accepts a [Hello] whose reserved bytes
    are non-zero, although it announces that it rejects non-canonical messages
    and does reject non-zero reserved bytes in every other kind. *)
Theorem decode_hello_ignores_reserved :
  exists input m, is_bytes input /\ decode_message input = Ok m /\ input <> wire m.
Proof.
  exists (wire_header KIND_HELLO HELLO_BYTES (replicate 16 7)
          ++ [57; 48; 0; 0; 1] ++ [9; 9; 9] ++ [1; 0; 0; 0; 0; 0; 0; 0]),
    (Hello demo_session 12345 Vulkan 1).
  splits; [by apply is_bytes_check|reflexivity|done].
Qed.

(** * Session identifiers in hexadecimal *)
Definition nibbles : list Z := seqZ 0 16.

Lemma elem_nibbles n : 0 <= n < 16 -> In n nibbles.
Proof. intros H. apply list_elem_of_In, elem_of_seqZ. lia. Qed.

Lemma decode_hex_digit n : 0 <= n < 16 -> decode_hex (hex_digit n) = Ok n.
Proof.
  intros H%elem_nibbles. revert n H. apply List.Forall_forall. repeat constructor.
Qed.

Lemma decode_hex_Ok c n : decode_hex c = Ok n -> 0 <= n < 16 /\ hex_digit n = c.
Proof.
  unfold decode_hex. intros H.
  assert (Hn : 0 <= n < 16).
  { repeat case_match; simplify_eq; lia. }
  split; [done|]. pose proof (decode_hex_digit n Hn) as Hd.
  assert (Hg : 48 <= hex_digit n <= 57 /\ n <= 9 \/ 97 <= hex_digit n <= 102 /\ 10 <= n).
  { assert (Hall : forallb (fun n => (48 <=? hex_digit n) && (hex_digit n <=? 57) && (n <=? 9)
      || (97 <=? hex_digit n) && (hex_digit n <=? 102) && (10 <=? n)) nibbles = true)
      by (vm_compute; reflexivity).
    rewrite forallb_forall in Hall. specialize (Hall n (elem_nibbles n Hn)). lia. }
  unfold decode_hex in Hd. repeat case_match; simplify_eq; lia.
Qed.

Lemma join_nibbles h l : 0 <= h < 16 -> 0 <= l < 16 ->
  let b := Z.lor (Z.land (Z.shiftl h 4) 255) l in
  is_byte b /\ Z.shiftr b 4 = h /\ Z.land b 15 = l.
Proof.
  intros Hh%elem_nibbles Hl%elem_nibbles.
  assert (Hall : forallb (fun h => forallb (fun l => let b := Z.lor (Z.land (Z.shiftl h 4) 255) l in
    (0 <=? b) && (b <=? 255) && (Z.shiftr b 4 =? h) && (Z.land b 15 =? l)) nibbles) nibbles = true)
    by (vm_compute; reflexivity).
  rewrite forallb_forall in Hall. apply Hall in Hh. rewrite forallb_forall in Hh. apply Hh in Hl.
  cbv zeta in *. rewrite !andb_true_iff in Hl. unfold is_byte, U8_MAX. lia.
Qed.

Lemma split_nibbles b : is_byte b ->
  0 <= Z.shiftr b 4 < 16 /\ 0 <= Z.land b 15 < 16
  /\ Z.lor (Z.land (Z.shiftl (Z.shiftr b 4) 4) 255) (Z.land b 15) = b.
Proof.
  unfold is_byte, U8_MAX. intros H. assert (Hin : In b (seqZ 0 256)).
  { apply list_elem_of_In, elem_of_seqZ. lia. }
  assert (Hall : forallb (fun b => (0 <=? Z.shiftr b 4) && (Z.shiftr b 4 <? 16) && (0 <=? Z.land b 15)
    && (Z.land b 15 <? 16) && (Z.lor (Z.land (Z.shiftl (Z.shiftr b 4) 4) 255) (Z.land b 15) =? b))
    (seqZ 0 256) = true) by (vm_compute; reflexivity).
  rewrite forallb_forall in Hall. apply Hall in Hin. rewrite !andb_true_iff in Hin. lia.
Qed.

Definition hex_bytes (bs : bytes) : bytes :=
  flat_map (fun b => [hex_digit (Z.shiftr b 4); hex_digit (Z.land b 15)]) bs.

Lemma decode_hex_pairs_hex bs : is_bytes bs -> decode_hex_pairs (hex_bytes bs) = Ok bs.
Proof.
  induction 1 as [|b bs Hb _ IH]; [done|].
  change (hex_bytes (b :: bs)) with (hex_digit (Z.shiftr b 4) :: hex_digit (Z.land b 15) :: hex_bytes bs).
  cbn [decode_hex_pairs]. destruct (split_nibbles b Hb) as (Hh & Hl & Hb').
  rewrite !decode_hex_digit by done. rewrite !bind_ret, IH, bind_ret. by rewrite Hb'.
Qed.

Lemma decode_hex_pairs_Ok n value bs :
  length value = (2 * n)%nat -> decode_hex_pairs value = Ok bs ->
  is_bytes bs /\ length bs = n /\ hex_bytes bs = value.
Proof.
  revert value bs. induction n as [|n IH]; intros value bs Hlen.
  { destruct value; [|done]. intros [= <-]. splits; [constructor|done..]. }
  destruct value as [|hi [|lo value]]; cbn [length] in Hlen; try lia. cbn [decode_hex_pairs].
  intros H. apply bind_Ok in H as (h & Hh & H). apply bind_Ok in H as (l & Hl & H).
  apply bind_Ok in H as (rest & Hrest & [= <-]). apply IH in Hrest as (Hr & Hn & He); [|lia].
  apply decode_hex_Ok in Hh as [Hh <-], Hl as [Hl <-].
  destruct (join_nibbles h l Hh Hl) as (Hb & E1 & E2). splits.
  - by constructor.
  - cbn. lia.
  - change (hex_bytes (?b :: rest)) with (hex_digit (Z.shiftr b 4) :: hex_digit (Z.land b 15) :: hex_bytes rest).
    by rewrite E1, E2, He.
Qed.

Lemma length_hex_bytes bs : length (hex_bytes bs) = (2 * length bs)%nat.
Proof. unfold hex_bytes. induction bs; cbn in *; lia. Qed.

(** A session identifier printed in hexadecimal parses back to itself, and
    a text is accepted exactly when it is the printed form of a session. *)
Theorem session_hex_roundtrip value id :
  from_hex value = Ok id <->
  (session_wf id /\ is_bytes (session_bytes id) /\ to_hex id = value).
Proof.
  unfold from_hex. change (to_hex id) with (hex_bytes (session_bytes id)). split.
  - destruct (Nat.eqb_spec (length value) 32) as [Hlen|]; [|done]. cbn [negb]. intros H.
    apply bind_Ok in H as (bs & Hbs & H). apply (decode_hex_pairs_Ok 16) in Hbs as (Hb & Hl & He); [|done].
    unfold CaptureSessionId_new in H. case_if_in H Hz; [done|]. injection H as <-.
    apply bool_decide_eq_false in Hz. by splits.
  - intros (Hs & Hb & <-). rewrite length_hex_bytes. destruct Hs as [Hlen Hz]. rewrite Hlen.
    cbn [Nat.mul Nat.add Nat.eqb negb]. rewrite decode_hex_pairs_hex, bind_ret by done.
    by apply new_session.
Qed.
