(* ===== verification/CaptureModel.v ===== *)
(** The daemon's view of one capture producer
    (crates/redunar-daemon/src/capture.rs): [CaptureSessionModel] validates
    decoded messages and keeps a bounded history. *)
From stdpp Require Import strings.
From S2P Require Import Prelude Arith Bytes CaptureProtocol.
Local Open Scope Z_scope.

Definition LIVE_FRAME_HISTORY_CAPACITY : nat := 240.
Definition REPLAY_SOURCE_HISTORY_CAPACITY : nat := 8.

Inductive CapturePhase := Armed | Capturing | Completed | CaptureFailed.
#[global] Instance CapturePhase_eq_dec : EqDecision CapturePhase.
Proof. solve_decision. Defined.

Record CaptureStateError := { state_message : string }.
Notation C A := (outcome CaptureStateError A).

(** The fields [replay_last_copy_sequence], [replay_copied_frame_count] and
    [replay_latest_*] of a GPU copy. *)
Record ReplayCopyState := {
  last_copy_sequence : option Z;
  copied_frame_count : Z;
  latest_copy_source : option ReplaySourceCandidate;
  latest_copied_bytes : option Z;
  latest_sample_checksum : option Z;
}.
Definition no_copy (last count : _) : ReplayCopyState :=
  {| last_copy_sequence := last; copied_frame_count := count; latest_copy_source := None;
     latest_copied_bytes := None; latest_sample_checksum := None |}.

(** The fields [replay_exported_frame_count], [replay_last_export_sequence] and
    [replay_latest_export_*]. *)
Record ReplayExportState := {
  exported_frame_count : Z;
  last_export_sequence : option Z;
  latest_export_fd : option Z;
  latest_export_sequence : option Z;
  latest_export_source : option ReplaySourceCandidate;
  latest_export_offset : option Z;
  latest_export_stride : option Z;
  latest_export_modifier : option Z;
  latest_export_timestamp_ns : option Z;
  latest_export_duration_ns : option Z;
}.
Definition no_export (last : option Z) (count : Z) : ReplayExportState :=
  {| exported_frame_count := count; last_export_sequence := last; latest_export_fd := None;
     latest_export_sequence := None; latest_export_source := None; latest_export_offset := None;
     latest_export_stride := None; latest_export_modifier := None; latest_export_timestamp_ns := None;
     latest_export_duration_ns := None |}.

Record CaptureSessionModel := {
  session_id_ : CaptureSessionId;
  phase_ : CapturePhase;
  producer_process_id : option Z;
  capture_api : option CaptureApi;
  gpu_identity_ : option CaptureGpuIdentity;
  next_sequence : option Z;
  received_frame_count : Z;
  dropped_frame_count : Z;
  rejected_message_count : Z;
  history : list Z;
  replay_source_candidate : option ReplaySourceCandidate;
  replay_announced_sources : list ReplaySourceCandidate;
  replay_source_rejection : option ReplaySourceRejection;
  replay_copy : ReplayCopyState;
  replay_export : ReplayExportState;
  overlay_status : option OverlayRuntimeStatus;
  revision : Z;
  failure : option string;
}.

(** Assignment to one field. *)
Definition set_phase (v : CapturePhase) (m : CaptureSessionModel) : CaptureSessionModel :=
  {| session_id_ := session_id_ m; phase_ := v; producer_process_id := producer_process_id m; capture_api
     := capture_api m; gpu_identity_ := gpu_identity_ m; next_sequence := next_sequence m;
     received_frame_count := received_frame_count m; dropped_frame_count := dropped_frame_count m;
     rejected_message_count := rejected_message_count m; history := history m; replay_source_candidate :=
     replay_source_candidate m; replay_announced_sources := replay_announced_sources m;
     replay_source_rejection := replay_source_rejection m; replay_copy := replay_copy m; replay_export :=
     replay_export m; overlay_status := overlay_status m; revision := revision m; failure := failure m |}.
Definition set_producer_process_id (v : option Z) (m : CaptureSessionModel) : CaptureSessionModel :=
  {| session_id_ := session_id_ m; phase_ := phase_ m; producer_process_id := v; capture_api :=
     capture_api m; gpu_identity_ := gpu_identity_ m; next_sequence := next_sequence m;
     received_frame_count := received_frame_count m; dropped_frame_count := dropped_frame_count m;
     rejected_message_count := rejected_message_count m; history := history m; replay_source_candidate :=
     replay_source_candidate m; replay_announced_sources := replay_announced_sources m;
     replay_source_rejection := replay_source_rejection m; replay_copy := replay_copy m; replay_export :=
     replay_export m; overlay_status := overlay_status m; revision := revision m; failure := failure m |}.
Definition set_capture_api (v : option CaptureApi) (m : CaptureSessionModel) : CaptureSessionModel :=
  {| session_id_ := session_id_ m; phase_ := phase_ m; producer_process_id := producer_process_id m;
     capture_api := v; gpu_identity_ := gpu_identity_ m; next_sequence := next_sequence m;
     received_frame_count := received_frame_count m; dropped_frame_count := dropped_frame_count m;
     rejected_message_count := rejected_message_count m; history := history m; replay_source_candidate :=
     replay_source_candidate m; replay_announced_sources := replay_announced_sources m;
     replay_source_rejection := replay_source_rejection m; replay_copy := replay_copy m; replay_export :=
     replay_export m; overlay_status := overlay_status m; revision := revision m; failure := failure m |}.
Definition set_gpu_identity (v : option CaptureGpuIdentity) (m : CaptureSessionModel) : CaptureSessionModel :=
  {| session_id_ := session_id_ m; phase_ := phase_ m; producer_process_id := producer_process_id m;
     capture_api := capture_api m; gpu_identity_ := v; next_sequence := next_sequence m;
     received_frame_count := received_frame_count m; dropped_frame_count := dropped_frame_count m;
     rejected_message_count := rejected_message_count m; history := history m; replay_source_candidate :=
     replay_source_candidate m; replay_announced_sources := replay_announced_sources m;
     replay_source_rejection := replay_source_rejection m; replay_copy := replay_copy m; replay_export :=
     replay_export m; overlay_status := overlay_status m; revision := revision m; failure := failure m |}.
Definition set_next_sequence (v : option Z) (m : CaptureSessionModel) : CaptureSessionModel :=
  {| session_id_ := session_id_ m; phase_ := phase_ m; producer_process_id := producer_process_id m;
     capture_api := capture_api m; gpu_identity_ := gpu_identity_ m; next_sequence := v;
     received_frame_count := received_frame_count m; dropped_frame_count := dropped_frame_count m;
     rejected_message_count := rejected_message_count m; history := history m; replay_source_candidate :=
     replay_source_candidate m; replay_announced_sources := replay_announced_sources m;
     replay_source_rejection := replay_source_rejection m; replay_copy := replay_copy m; replay_export :=
     replay_export m; overlay_status := overlay_status m; revision := revision m; failure := failure m |}.
Definition set_received_frame_count (v : Z) (m : CaptureSessionModel) : CaptureSessionModel :=
  {| session_id_ := session_id_ m; phase_ := phase_ m; producer_process_id := producer_process_id m;
     capture_api := capture_api m; gpu_identity_ := gpu_identity_ m; next_sequence := next_sequence m;
     received_frame_count := v; dropped_frame_count := dropped_frame_count m; rejected_message_count :=
     rejected_message_count m; history := history m; replay_source_candidate := replay_source_candidate
     m; replay_announced_sources := replay_announced_sources m; replay_source_rejection :=
     replay_source_rejection m; replay_copy := replay_copy m; replay_export := replay_export m;
     overlay_status := overlay_status m; revision := revision m; failure := failure m |}.
Definition set_dropped_frame_count (v : Z) (m : CaptureSessionModel) : CaptureSessionModel :=
  {| session_id_ := session_id_ m; phase_ := phase_ m; producer_process_id := producer_process_id m;
     capture_api := capture_api m; gpu_identity_ := gpu_identity_ m; next_sequence := next_sequence m;
     received_frame_count := received_frame_count m; dropped_frame_count := v; rejected_message_count :=
     rejected_message_count m; history := history m; replay_source_candidate := replay_source_candidate
     m; replay_announced_sources := replay_announced_sources m; replay_source_rejection :=
     replay_source_rejection m; replay_copy := replay_copy m; replay_export := replay_export m;
     overlay_status := overlay_status m; revision := revision m; failure := failure m |}.
Definition set_rejected_message_count (v : Z) (m : CaptureSessionModel) : CaptureSessionModel :=
  {| session_id_ := session_id_ m; phase_ := phase_ m; producer_process_id := producer_process_id m;
     capture_api := capture_api m; gpu_identity_ := gpu_identity_ m; next_sequence := next_sequence m;
     received_frame_count := received_frame_count m; dropped_frame_count := dropped_frame_count m;
     rejected_message_count := v; history := history m; replay_source_candidate :=
     replay_source_candidate m; replay_announced_sources := replay_announced_sources m;
     replay_source_rejection := replay_source_rejection m; replay_copy := replay_copy m; replay_export :=
     replay_export m; overlay_status := overlay_status m; revision := revision m; failure := failure m |}.
Definition set_history (v : list Z) (m : CaptureSessionModel) : CaptureSessionModel :=
  {| session_id_ := session_id_ m; phase_ := phase_ m; producer_process_id := producer_process_id m;
     capture_api := capture_api m; gpu_identity_ := gpu_identity_ m; next_sequence := next_sequence m;
     received_frame_count := received_frame_count m; dropped_frame_count := dropped_frame_count m;
     rejected_message_count := rejected_message_count m; history := v; replay_source_candidate :=
     replay_source_candidate m; replay_announced_sources := replay_announced_sources m;
     replay_source_rejection := replay_source_rejection m; replay_copy := replay_copy m; replay_export :=
     replay_export m; overlay_status := overlay_status m; revision := revision m; failure := failure m |}.
Definition set_replay_source_candidate (v : option ReplaySourceCandidate) (m : CaptureSessionModel) : CaptureSessionModel :=
  {| session_id_ := session_id_ m; phase_ := phase_ m; producer_process_id := producer_process_id m;
     capture_api := capture_api m; gpu_identity_ := gpu_identity_ m; next_sequence := next_sequence m;
     received_frame_count := received_frame_count m; dropped_frame_count := dropped_frame_count m;
     rejected_message_count := rejected_message_count m; history := history m; replay_source_candidate :=
     v; replay_announced_sources := replay_announced_sources m; replay_source_rejection :=
     replay_source_rejection m; replay_copy := replay_copy m; replay_export := replay_export m;
     overlay_status := overlay_status m; revision := revision m; failure := failure m |}.
Definition set_replay_announced_sources (v : list ReplaySourceCandidate) (m : CaptureSessionModel) : CaptureSessionModel :=
  {| session_id_ := session_id_ m; phase_ := phase_ m; producer_process_id := producer_process_id m;
     capture_api := capture_api m; gpu_identity_ := gpu_identity_ m; next_sequence := next_sequence m;
     received_frame_count := received_frame_count m; dropped_frame_count := dropped_frame_count m;
     rejected_message_count := rejected_message_count m; history := history m; replay_source_candidate :=
     replay_source_candidate m; replay_announced_sources := v; replay_source_rejection :=
     replay_source_rejection m; replay_copy := replay_copy m; replay_export := replay_export m;
     overlay_status := overlay_status m; revision := revision m; failure := failure m |}.
Definition set_replay_source_rejection (v : option ReplaySourceRejection) (m : CaptureSessionModel) : CaptureSessionModel :=
  {| session_id_ := session_id_ m; phase_ := phase_ m; producer_process_id := producer_process_id m;
     capture_api := capture_api m; gpu_identity_ := gpu_identity_ m; next_sequence := next_sequence m;
     received_frame_count := received_frame_count m; dropped_frame_count := dropped_frame_count m;
     rejected_message_count := rejected_message_count m; history := history m; replay_source_candidate :=
     replay_source_candidate m; replay_announced_sources := replay_announced_sources m;
     replay_source_rejection := v; replay_copy := replay_copy m; replay_export := replay_export m;
     overlay_status := overlay_status m; revision := revision m; failure := failure m |}.
Definition set_replay_copy (v : ReplayCopyState) (m : CaptureSessionModel) : CaptureSessionModel :=
  {| session_id_ := session_id_ m; phase_ := phase_ m; producer_process_id := producer_process_id m;
     capture_api := capture_api m; gpu_identity_ := gpu_identity_ m; next_sequence := next_sequence m;
     received_frame_count := received_frame_count m; dropped_frame_count := dropped_frame_count m;
     rejected_message_count := rejected_message_count m; history := history m; replay_source_candidate :=
     replay_source_candidate m; replay_announced_sources := replay_announced_sources m;
     replay_source_rejection := replay_source_rejection m; replay_copy := v; replay_export :=
     replay_export m; overlay_status := overlay_status m; revision := revision m; failure := failure m |}.
Definition set_replay_export (v : ReplayExportState) (m : CaptureSessionModel) : CaptureSessionModel :=
  {| session_id_ := session_id_ m; phase_ := phase_ m; producer_process_id := producer_process_id m;
     capture_api := capture_api m; gpu_identity_ := gpu_identity_ m; next_sequence := next_sequence m;
     received_frame_count := received_frame_count m; dropped_frame_count := dropped_frame_count m;
     rejected_message_count := rejected_message_count m; history := history m; replay_source_candidate :=
     replay_source_candidate m; replay_announced_sources := replay_announced_sources m;
     replay_source_rejection := replay_source_rejection m; replay_copy := replay_copy m; replay_export :=
     v; overlay_status := overlay_status m; revision := revision m; failure := failure m |}.
Definition set_overlay_status (v : option OverlayRuntimeStatus) (m : CaptureSessionModel) : CaptureSessionModel :=
  {| session_id_ := session_id_ m; phase_ := phase_ m; producer_process_id := producer_process_id m;
     capture_api := capture_api m; gpu_identity_ := gpu_identity_ m; next_sequence := next_sequence m;
     received_frame_count := received_frame_count m; dropped_frame_count := dropped_frame_count m;
     rejected_message_count := rejected_message_count m; history := history m; replay_source_candidate :=
     replay_source_candidate m; replay_announced_sources := replay_announced_sources m;
     replay_source_rejection := replay_source_rejection m; replay_copy := replay_copy m; replay_export :=
     replay_export m; overlay_status := v; revision := revision m; failure := failure m |}.
Definition set_revision (v : Z) (m : CaptureSessionModel) : CaptureSessionModel :=
  {| session_id_ := session_id_ m; phase_ := phase_ m; producer_process_id := producer_process_id m;
     capture_api := capture_api m; gpu_identity_ := gpu_identity_ m; next_sequence := next_sequence m;
     received_frame_count := received_frame_count m; dropped_frame_count := dropped_frame_count m;
     rejected_message_count := rejected_message_count m; history := history m; replay_source_candidate :=
     replay_source_candidate m; replay_announced_sources := replay_announced_sources m;
     replay_source_rejection := replay_source_rejection m; replay_copy := replay_copy m; replay_export :=
     replay_export m; overlay_status := overlay_status m; revision := v; failure := failure m |}.
Definition set_failure (v : option string) (m : CaptureSessionModel) : CaptureSessionModel :=
  {| session_id_ := session_id_ m; phase_ := phase_ m; producer_process_id := producer_process_id m;
     capture_api := capture_api m; gpu_identity_ := gpu_identity_ m; next_sequence := next_sequence m;
     received_frame_count := received_frame_count m; dropped_frame_count := dropped_frame_count m;
     rejected_message_count := rejected_message_count m; history := history m; replay_source_candidate :=
     replay_source_candidate m; replay_announced_sources := replay_announced_sources m;
     replay_source_rejection := replay_source_rejection m; replay_copy := replay_copy m; replay_export :=
     replay_export m; overlay_status := overlay_status m; revision := revision m; failure := v |}.

Local Notation "x |> f" := (f x) (at level 40, left associativity, only parsing).

Definition model_new (session_id : CaptureSessionId) : CaptureSessionModel :=
  {| session_id_ := session_id; phase_ := Armed; producer_process_id := None; capture_api := None;
     gpu_identity_ := None; next_sequence := None; received_frame_count := 0; dropped_frame_count := 0;
     rejected_message_count := 0; history := []; replay_source_candidate := None;
     replay_announced_sources := []; replay_source_rejection := None; replay_copy := no_copy None 0;
     replay_export := no_export None 0; overlay_status := None; revision := 0; failure := None |}.

(** * Transitions *)
Definition transition : Type := CaptureSessionModel -> CaptureSessionModel * C unit.

Definition bump_revision (m : CaptureSessionModel) : CaptureSessionModel :=
  m |> set_revision (sat_add U64_MAX (revision m) 1).
Definition reject (message : string) : transition := fun m =>
  (m |> set_rejected_message_count (sat_add U64_MAX (rejected_message_count m) 1) |> bump_revision,
   Err {| state_message := message |}).
Definition state_error {A} (message : string) : C A := Err {| state_message := message |}.

Definition accept_hello (process_id : Z) (api : CaptureApi) (producer_started : Z) : transition := fun m =>
  if negb (bool_decide (phase_ m = Armed) || bool_decide (phase_ m = Completed))
  then reject "capture hello is only valid while armed" m
  else if (process_id =? 0) || (producer_started =? 0)
  then reject "capture hello contains invalid producer identity" m
  else if match producer_process_id m with Some existing => negb (existing =? process_id) | None => false end
  then reject "capture session cannot change producer process" m
  else
    (m |> set_phase Capturing |> set_producer_process_id (Some process_id) |> set_capture_api (Some api)
       |> set_gpu_identity None |> set_next_sequence None |> set_replay_source_candidate None
       |> set_replay_announced_sources [] |> set_replay_source_rejection None
       |> set_replay_copy (no_copy None 0) |> set_replay_export (no_export None 0)
       |> set_overlay_status None |> bump_revision, Ok tt).

(** One step of the loop that appends the intervals. *)
Definition push_interval (history : list Z) (interval : Z) : list Z :=
  (if (length history =? LIVE_FRAME_HISTORY_CAPACITY)%nat then tail history else history) ++ [interval].

Definition accept_frames (api : CaptureApi) (first_sequence : Z) (intervals : list Z) : transition := fun m =>
  if negb (bool_decide (phase_ m = Capturing))
  then reject "capture frames require an active producer" m
  else if negb (bool_decide (capture_api m = Some api))
  then reject "capture frames do not match the active graphics API" m
  else if (length intervals =? 0)%nat || existsb (Z.eqb 0) intervals
  then reject "capture frames must contain positive intervals" m
  else if match next_sequence m with Some expected => first_sequence <? expected | None => false end
  then reject "capture frames are duplicate or out of order" m
  else
    let lost := match next_sequence m with
                | Some expected => sat_sub first_sequence expected
                | None => first_sequence
                end in
    let m := m |> set_dropped_frame_count (sat_add U64_MAX (dropped_frame_count m) lost) in
    match try_from U64_MAX (zlen intervals) with
    | None => (m, state_error "capture frame count cannot fit sequence")
    | Some frame_count =>
        match checked_add U64_MAX first_sequence frame_count with
        | None => (m, state_error "capture frame sequence overflowed")
        | Some next =>
            (m |> set_history (foldl push_interval (history m) intervals)
               |> set_received_frame_count (sat_add U64_MAX (received_frame_count m) frame_count)
               |> set_next_sequence (Some next) |> bump_revision, Ok tt)
        end
    end.

Definition accept_goodbye (api : CaptureApi) (last_sequence : Z) : transition := fun m =>
  if negb (bool_decide (phase_ m = Capturing))
  then reject "capture goodbye requires an active producer" m
  else if negb (bool_decide (capture_api m = Some api))
  then reject "capture goodbye does not match the active graphics API" m
  else
    match next_sequence m with
    | Some expected =>
        let accepted_last := sat_sub expected 1 in
        if last_sequence <? accepted_last
        then reject "capture goodbye precedes accepted frame data" m
        else (m |> set_dropped_frame_count
                     (sat_add U64_MAX (dropped_frame_count m) (sat_sub last_sequence accepted_last))
                |> set_phase Completed |> set_gpu_identity None |> bump_revision, Ok tt)
    | None =>
        (m |> set_dropped_frame_count
                (if 0 <? last_sequence
                 then sat_add U64_MAX (dropped_frame_count m) (sat_add U64_MAX last_sequence 1)
                 else dropped_frame_count m)
           |> set_phase Completed |> set_gpu_identity None |> bump_revision, Ok tt)
    end.

Definition candidate_area (c : ReplaySourceCandidate) : Z := sat_mul U64_MAX (width c) (height c).

Definition accept_replay_source_candidate (candidate : ReplaySourceCandidate) : transition := fun m =>
  if negb (bool_decide (phase_ m = Capturing))
  then reject "replay source candidate requires an active producer" m
  else
    let m :=
      if bool_decide (candidate ∈ replay_announced_sources m) then m
      else
        m |> set_replay_announced_sources
               ((if (length (replay_announced_sources m) =? REPLAY_SOURCE_HISTORY_CAPACITY)%nat
                 then tail (replay_announced_sources m) else replay_announced_sources m) ++ [candidate]) in
    let current_area := match replay_source_candidate m with Some c => candidate_area c | None => 0 end in
    if current_area <? candidate_area candidate
    then (m |> set_replay_source_candidate (Some candidate) |> set_replay_source_rejection None
            |> bump_revision, Ok tt)
    else (m, Ok tt).

Definition accept_replay_source_rejection (reason : ReplaySourceRejection) : transition := fun m =>
  if negb (bool_decide (phase_ m = Capturing))
  then reject "replay source rejection requires an active producer" m
  else if negb (bool_decide (replay_source_candidate m = None))
          || negb (bool_decide (replay_source_rejection m = Some reason))
  then
    (m |> set_replay_source_candidate None |> set_replay_announced_sources []
       |> set_replay_copy (no_copy (last_copy_sequence (replay_copy m)) (copied_frame_count (replay_copy m)))
       |> set_replay_export (no_export (last_export_sequence (replay_export m)) (exported_frame_count (replay_export m)))
       |> set_replay_source_rejection (Some reason) |> bump_revision, Ok tt)
  else (m, Ok tt).

Definition select_replay_source (source : ReplaySourceCandidate) (m : CaptureSessionModel) : CaptureSessionModel :=
  let m := m |> set_gpu_identity (gpu_identity source) in
  if negb (bool_decide (replay_source_candidate m = Some source))
  then m |> set_replay_source_candidate (Some source) |> set_replay_source_rejection None |> bump_revision
  else m.

Definition clear_replay_copy_tracking (m : CaptureSessionModel) : CaptureSessionModel :=
  m |> set_replay_copy (no_copy None (copied_frame_count (replay_copy m))) |> bump_revision.

(** [is_some_and(|previous| sequence <= previous)]. *)
Definition not_after (last : option Z) (sequence : Z) : bool :=
  match last with Some previous => sequence <=? previous | None => false end.

Definition accept_replay_frame_copied (sequence : Z) (source : ReplaySourceCandidate)
    (copied_bytes sample_checksum : Z) : transition := fun m =>
  if negb (bool_decide (phase_ m = Capturing)) || negb (bool_decide (source ∈ replay_announced_sources m))
  then reject "replay frame copy requires an active eligible source" m
  else
    let expected_bytes :=
      match checked_mul U32_MAX (width source) (height source) with
      | Some pixels => checked_mul U32_MAX pixels 4
      | None => None
      end in
    if negb (bool_decide (expected_bytes = Some copied_bytes))
       || not_after (last_copy_sequence (replay_copy m)) sequence
    then reject "replay frame copy metadata is invalid or out of order" m
    else
      (m |> set_replay_copy
              {| last_copy_sequence := Some sequence;
                 copied_frame_count := sat_add U64_MAX (copied_frame_count (replay_copy m)) 1;
                 latest_copy_source := Some source; latest_copied_bytes := Some copied_bytes;
                 latest_sample_checksum := Some sample_checksum |}
         |> bump_revision, Ok tt).

Definition accept_replay_frame_exported (sequence fd_number : Z) (source : ReplaySourceCandidate)
    (offset stride modifier timestamp_ns duration_ns : Z) : transition := fun m =>
  if match capture_api m with Some (Vulkan | OpenGl) => false | None => true end
  then reject "replay frame export requires a native capture backend" m
  else if negb (bool_decide (phase_ m = Capturing))
          || negb (bool_decide (source ∈ replay_announced_sources m))
          || (fd_number <? 3)
          || (stride <? sat_mul U32_MAX (width source) 4)
          || (sat_mul U32_MAX (height source) stride <? offset)
          || (duration_ns =? 0)
          || bool_decide (checked_add U64_MAX timestamp_ns duration_ns = None)
          || not_after (last_export_sequence (replay_export m)) sequence
  then reject "replay frame export metadata is invalid or out of order" m
  else
    (m |> set_replay_export
            {| exported_frame_count := sat_add U64_MAX (exported_frame_count (replay_export m)) 1;
               last_export_sequence := Some sequence; latest_export_fd := Some fd_number;
               latest_export_sequence := Some sequence; latest_export_source := Some source;
               latest_export_offset := Some offset; latest_export_stride := Some stride;
               latest_export_modifier := Some modifier; latest_export_timestamp_ns := Some timestamp_ns;
               latest_export_duration_ns := Some duration_ns |}
       |> bump_revision, Ok tt).

Definition overlay_transition_is_valid (old : option OverlayRuntimeStatus) (new : OverlayRuntimeStatus) : bool :=
  match old, new with
  | None, OverlayRequested => true
  | Some (OverlayRequested | OverlayError _), _ => true
  | Some OverlayActive, (OverlayActive | OverlayError _) => true
  | None, (OverlayActive | OverlayError _) => false
  | Some OverlayActive, OverlayRequested => false
  end.

Definition accept_overlay_status (status : OverlayRuntimeStatus) : transition := fun m =>
  if bool_decide (capture_api m = None)
  then reject "overlay status requires a capture backend" m
  else if negb (bool_decide (phase_ m = Capturing))
  then reject "overlay status requires an active producer" m
  else if negb (overlay_transition_is_valid (overlay_status m) status)
  then reject "overlay status transition is invalid" m
  else if negb (bool_decide (overlay_status m = Some status))
  then (m |> set_overlay_status (Some status) |> bump_revision, Ok tt)
  else (m, Ok tt).

Definition accept (message : CaptureMessage) : transition := fun m =>
  if negb (bool_decide (message_session_id message = session_id_ m))
  then reject "capture message belongs to a different session" m
  else
    match message with
    | GpuIdentity _ api identity =>
        if negb (bool_decide (phase_ m = Capturing)) || negb (bool_decide (capture_api m = Some api))
        then reject "capture GPU identity requires the active graphics API" m
        else (m |> set_gpu_identity identity |> bump_revision, Ok tt)
    | Hello _ process_id api started => accept_hello process_id api started m
    | FrameBatch _ api first_sequence intervals => accept_frames api first_sequence intervals m
    | Goodbye _ api last_sequence _ => accept_goodbye api last_sequence m
    | ReplaySourceCandidate_ _ candidate => accept_replay_source_candidate candidate m
    | ReplaySourceRejected _ reason => accept_replay_source_rejection reason m
    | ReplayFrameCopied _ sequence source copied_bytes checksum =>
        accept_replay_frame_copied sequence source copied_bytes checksum m
    | ReplayFrameExported _ sequence fd source offset stride modifier timestamp_ns duration_ns =>
        accept_replay_frame_exported sequence fd source offset stride modifier timestamp_ns duration_ns m
    | ReplayFrameReleased _ _ => reject "replay frame release is daemon-to-producer only" m
    | OverlayStatus _ status => accept_overlay_status status m
    end.

Definition accept_frame_batch (session_id : CaptureSessionId) (api : CaptureApi) (first_sequence : Z)
    (intervals : list Z) : transition := fun m =>
  if negb (bool_decide (session_id = session_id_ m))
  then reject "capture message belongs to a different session" m
  else accept_frames api first_sequence intervals m.

Definition model_fail (message : string) (m : CaptureSessionModel) : CaptureSessionModel :=
  match phase_ m with
  | Completed | CaptureFailed => m
  | _ => m |> set_phase CaptureFailed |> set_gpu_identity None |> set_failure (Some message) |> bump_revision
  end.

Definition reject_transport_message (m : CaptureSessionModel) : CaptureSessionModel :=
  m |> set_rejected_message_count (sat_add U64_MAX (rejected_message_count m) 1) |> bump_revision.

(** Everything the transport does to a model. *)
Inductive capture_op :=
| Accept (message : CaptureMessage)
| AcceptFrameBatch (session_id : CaptureSessionId) (api : CaptureApi) (first_sequence : Z) (intervals : list Z)
| FailSession (message : string)
| RejectTransport
| SelectSource (source : ReplaySourceCandidate)
| ClearCopies.

Definition capture_step (op : capture_op) : transition := fun m =>
  match op with
  | Accept message => accept message m
  | AcceptFrameBatch session api first intervals => accept_frame_batch session api first intervals m
  | FailSession message => (model_fail message m, Ok tt)
  | RejectTransport => (reject_transport_message m, Ok tt)
  | SelectSource source => (select_replay_source source m, Ok tt)
  | ClearCopies => (clear_replay_copy_tracking m, Ok tt)
  end.
Definition capture_run (m : CaptureSessionModel) (ops : list capture_op) : CaptureSessionModel :=
  foldl (fun m op => fst (capture_step op m)) m ops.

(** * Frame metrics *)
Record CaptureFrameMetrics := {
  average_fps : spec_float;
  one_percent_low_fps : spec_float;
  point_one_percent_low_fps : spec_float;
  newest_frame_time_ms : spec_float;
}.

(** [Duration::from_nanos(ns).as_secs_f64()]. *)
Definition seconds_f64 (ns : Z) : spec_float :=
  f64_add (f64_of_u64 (ns / 1000000000)) (f64_div (f64_of_u64 (ns mod 1000000000)) (f64_of_u64 1000000000)).

Definition fps_from_intervals (intervals : list Z) : spec_float :=
  let '(seconds, count) :=
    foldl (fun '(seconds, count) value => (f64_add seconds (seconds_f64 value), f64_add count (f64_of_u64 1)))
      (f64_of_u64 0, f64_of_u64 0) intervals in
  f64_div count seconds.

(** [&slowest_first[..count]] panics when the slice is shorter. *)
Definition slowest_fps (slowest_first : list Z) (denominator : nat) : C spec_float :=
  let count := Nat.max 1 ((length slowest_first + denominator - 1) / denominator)%nat in
  if (count <=? length slowest_first)%nat then Ok (fps_from_intervals (take count slowest_first)) else Panic.

Definition summarize (intervals : list Z) : C (option CaptureFrameMetrics) :=
  match last intervals with
  | None => Ok None
  | Some newest =>
      let slowest_first := sort_by_key Z.opp intervals in
      one ← slowest_fps slowest_first 100;
      point_one ← slowest_fps slowest_first 1000;
      Ok (Some {| average_fps := fps_from_intervals intervals; one_percent_low_fps := one;
                  point_one_percent_low_fps := point_one;
                  newest_frame_time_ms := f64_mul (seconds_f64 newest) (f64_of_u64 1000) |})
  end.
