(* ===== verification/CaptureModelFacts.v ===== *)
(** Correctness of the capture session model: its invariant, what an error
    leaves behind, and the accounting of frames. *)
From stdpp Require Import strings.
From S2P Require Import Prelude Arith Bytes CaptureProtocol CaptureProtocolFacts CaptureModel.
Local Open Scope Z_scope.

(** * The invariant *)
(** A copy that is shown was a full frame of four-byte pixels. *)
Definition copy_ok (c : ReplayCopyState) : Prop :=
  in_range U64_MAX (copied_frame_count c)
  /\ match latest_copy_source c with
     | None => latest_copied_bytes c = None
     | Some s => latest_copied_bytes c = Some (width s * height s * 4) /\ is_Some (last_copy_sequence c)
     end.

(** An export that is shown has a usable descriptor, rows wide enough for its
    source, an offset inside the image and an end that is a valid time. *)
Definition export_ok (x : ReplayExportState) : Prop :=
  in_range U64_MAX (exported_frame_count x)
  /\ match latest_export_source x with
     | None => latest_export_sequence x = None /\ latest_export_fd x = None
     | Some s =>
         exists sequence fd offset stride timestamp duration,
         latest_export_sequence x = Some sequence /\ last_export_sequence x = Some sequence
         /\ latest_export_fd x = Some fd /\ 3 <= fd
         /\ latest_export_offset x = Some offset /\ latest_export_stride x = Some stride
         /\ sat_mul U32_MAX (width s) 4 <= stride /\ offset <= sat_mul U32_MAX (height s) stride
         /\ latest_export_timestamp_ns x = Some timestamp /\ latest_export_duration_ns x = Some duration
         /\ duration <> 0 /\ timestamp + duration <= U64_MAX
     end.

Record model_inv (m : CaptureSessionModel) : Prop := {
  inv_history : (length (history m) <= LIVE_FRAME_HISTORY_CAPACITY)%nat /\ Forall (fun i => i <> 0) (history m);
  inv_announced : (length (replay_announced_sources m) <= REPLAY_SOURCE_HISTORY_CAPACITY)%nat
                  /\ NoDup (replay_announced_sources m);
  inv_producer : match producer_process_id m with
                 | None => capture_api m = None /\ phase_ m <> Capturing /\ phase_ m <> Completed
                 | Some p => p <> 0 /\ is_Some (capture_api m) /\ phase_ m <> Armed
                 end;
  inv_armed : phase_ m = Armed -> next_sequence m = None /\ received_frame_count m = 0 /\ overlay_status m = None;
  inv_failure : is_Some (failure m) <-> phase_ m = CaptureFailed;
  inv_counters : in_range U64_MAX (received_frame_count m) /\ in_range U64_MAX (dropped_frame_count m)
                 /\ in_range U64_MAX (rejected_message_count m) /\ in_range U64_MAX (revision m);
  inv_overlay : is_Some (overlay_status m) -> is_Some (capture_api m);
  inv_copy : copy_ok (replay_copy m);
  inv_export : export_ok (replay_export m);
}.

Lemma model_new_inv s : model_inv (model_new s).
Proof.
  split; cbn; splits; try done; try lia; try constructor; by intros [].
Qed.

Lemma sat_add_range a b : 0 <= a -> 0 <= b -> in_range U64_MAX (sat_add U64_MAX a b).
Proof. unfold in_range, sat_add. assert (0 < U64_MAX) by done. lia. Qed.
Lemma sat_sub_nonneg a b : 0 <= sat_sub a b.
Proof. unfold sat_sub. lia. Qed.

Lemma bump_inv m : model_inv m -> model_inv (bump_revision m).
Proof.
  intros []. split; cbn; try done. destruct inv_counters0 as (? & ? & ? & []).
  splits; try done. apply sat_add_range; lia.
Qed.

(** A rejected message leaves everything but the two counters. *)
Definition rejected (m : CaptureSessionModel) : CaptureSessionModel :=
  bump_revision (set_rejected_message_count (sat_add U64_MAX (rejected_message_count m) 1) m).

Lemma rejected_inv m : model_inv m -> model_inv (rejected m).
Proof.
  intros []. apply bump_inv. split; cbn; try done. destruct inv_counters0 as (? & ? & [] & ?).
  splits; try done. apply sat_add_range; lia.
Qed.

(** ** History *)
Definition last_n {A} (n : nat) (l : list A) : list A := drop (length l - n) l.

Lemma push_interval_last h i :
  (length h <= LIVE_FRAME_HISTORY_CAPACITY)%nat ->
  push_interval h i = last_n LIVE_FRAME_HISTORY_CAPACITY (h ++ [i]).
Proof.
  intros Hl. unfold push_interval, last_n. rewrite length_app. cbn [length].
  destruct (Nat.eqb_spec (length h) LIVE_FRAME_HISTORY_CAPACITY) as [E|].
  - rewrite E. replace (LIVE_FRAME_HISTORY_CAPACITY + 1 - LIVE_FRAME_HISTORY_CAPACITY)%nat with 1%nat by lia.
    destruct h; [done|]. done.
  - replace (length h + 1 - LIVE_FRAME_HISTORY_CAPACITY)%nat with 0%nat by lia. by rewrite drop_0.
Qed.

Lemma last_n_app {A} n (l k : list A) : last_n n (last_n n l ++ k) = last_n n (l ++ k).
Proof.
  unfold last_n. rewrite !length_app, length_drop.
  destruct (Nat.le_gt_cases (length l) n) as [Hle|Hgt].
  - replace (length l - n)%nat with 0%nat by lia. by rewrite drop_0, Nat.sub_0_r.
  - replace (length l - (length l - n))%nat with n by lia.
    replace (length l + length k - n)%nat with ((length l - n) + length k)%nat by lia.
    rewrite <- drop_drop. rewrite (drop_app_le l k (length l - n)) by lia.
    f_equal. lia.
Qed.

Lemma length_last_n {A} n (l : list A) : length (last_n n l) = Nat.min n (length l).
Proof. unfold last_n. rewrite length_drop. lia. Qed.

(** The history is the latest 240 intervals. *)
Lemma push_intervals h ns :
  (length h <= LIVE_FRAME_HISTORY_CAPACITY)%nat ->
  foldl push_interval h ns = last_n LIVE_FRAME_HISTORY_CAPACITY (h ++ ns).
Proof.
  revert h. induction ns as [|i ns IH]; intros h Hl; cbn [foldl].
  - rewrite app_nil_r. unfold last_n. replace (length h - LIVE_FRAME_HISTORY_CAPACITY)%nat with 0%nat by lia. done.
  - rewrite push_interval_last by done. rewrite IH by (rewrite length_last_n; lia).
    rewrite last_n_app, <- app_assoc. done.
Qed.

Lemma last_n_Forall {A} (P : A -> Prop) n l : Forall P l -> Forall P (last_n n l).
Proof. intros H. unfold last_n. by apply Forall_drop. Qed.

(** ** One lemma per operation *)

(** Messages come from the decoder, batches from a slice. *)
Definition capture_op_ok (op : capture_op) : Prop :=
  match op with
  | Accept message => message_wf message /\ message_valid message = Ok tt
  | AcceptFrameBatch _ _ first intervals => 0 <= first /\ zlen intervals <= USIZE_MAX
  | _ => True
  end.

(** Follow the guards of a transition; a refused message is [rejected]. *)
Ltac transition_cases :=
  repeat match goal with
  | |- context [reject ?s ?m] => change (reject s m) with (rejected m, @Err CaptureStateError unit {| state_message := s |})
  | |- context [if ?c then _ else _] => let E := fresh "E" in destruct c eqn:E
  end; cbn [fst snd].

(** A bool that holds, as its proposition. *)
Ltac reflect_guards :=
  repeat match goal with
  | H : _ || _ = false |- _ => apply orb_false_iff in H as [? ?]
  | H : negb _ = false |- _ => apply negb_false_iff in H
  | H : negb _ = true |- _ => apply negb_true_iff in H
  | H : bool_decide _ = true |- _ => apply bool_decide_eq_true in H
  | H : bool_decide _ = false |- _ => apply bool_decide_eq_false in H
  | H : (_ =? _) = false |- _ => apply Z.eqb_neq in H
  | H : (_ =? _) = true |- _ => apply Z.eqb_eq in H
  | H : (_ <? _) = false |- _ => apply Z.ltb_ge in H
  | H : (_ <? _) = true |- _ => apply Z.ltb_lt in H
  end.

Lemma capturing_known m : model_inv m -> phase_ m = Capturing -> is_Some (producer_process_id m) /\ is_Some (capture_api m).
Proof.
  intros [? ? Hp] Hc. destruct (producer_process_id m) as [p|]; [|by destruct Hp as (_ & ? & _)].
  destruct Hp as (_ & ? & _). split; [by eexists|done].
Qed.

Lemma hello_inv pid api started m : model_inv m -> model_inv (fst (accept_hello pid api started m)).
Proof.
  intros Hi. unfold accept_hello. transition_cases; try by apply rejected_inv.
  apply bump_inv. destruct Hi. reflect_guards.
  assert (Hf : ~ is_Some (failure m)).
  { intros Hf%inv_failure0. rewrite Hf in E. done. }
  split; cbn; try done; try by intros [].
  - split; [lia|apply NoDup_nil_2].
Qed.

(** An operation of the capturing phase that keeps the phase. *)
Lemma while_capturing m m' :
  model_inv m -> phase_ m = Capturing -> is_Some (producer_process_id m) ->
  producer_process_id m' = producer_process_id m -> capture_api m' = capture_api m -> phase_ m' = Capturing ->
  failure m' = failure m ->
  (length (history m') <= LIVE_FRAME_HISTORY_CAPACITY)%nat -> Forall (fun i => i <> 0) (history m') ->
  (length (replay_announced_sources m') <= REPLAY_SOURCE_HISTORY_CAPACITY)%nat ->
  NoDup (replay_announced_sources m') ->
  in_range U64_MAX (received_frame_count m') -> in_range U64_MAX (dropped_frame_count m') ->
  in_range U64_MAX (rejected_message_count m') -> in_range U64_MAX (revision m') ->
  copy_ok (replay_copy m') -> export_ok (replay_export m') -> model_inv m'.
Proof.
  intros Hi Hc Hp Ep Ea Eph Ef. intros. destruct (capturing_known m Hi Hc) as [_ Ha]. destruct Hi.
  split; try done.
  - rewrite Ep, Ea. destruct (producer_process_id m) as [p|]; [|by destruct Hp].
    destruct inv_producer0 as (? & ? & ?). splits; [done..|by rewrite Eph].
  - by rewrite Eph.
  - rewrite Ef, Eph, inv_failure0, Hc. done.
  - by rewrite Ea.
Qed.

(** The parts of the invariant that an operation does not touch. *)
Ltac keep_capturing Hi Hc :=
  pose proof (capturing_known _ Hi Hc) as [? ?];
  let H := fresh in pose proof Hi as H; destruct H as [[? ?] [? ?] ? ? ? (? & ? & ? & ?) ? ? ?];
  apply (while_capturing _ _ Hi Hc); cbn; try done; auto.

Lemma existsb_zero l : existsb (Z.eqb 0) l = false -> Forall (fun i => i <> 0) l.
Proof.
  induction l as [|i l IH]; cbn [existsb]; [constructor|]. intros [Hi Hl]%orb_false_iff.
  constructor; [apply Z.eqb_neq in Hi; congruence|by apply IH].
Qed.

Lemma frames_inv api first intervals m :
  model_inv m -> 0 <= first -> model_inv (fst (accept_frames api first intervals m)).
Proof.
  intros Hi Hfirst. unfold accept_frames. transition_cases; try by apply rejected_inv.
  reflect_guards. cbv zeta. pose proof (zlen_nonneg intervals).
  set (lost := match next_sequence m with Some expected => sat_sub first expected | None => first end).
  assert (Hlost : 0 <= lost) by (unfold lost; destruct (next_sequence m); [apply sat_sub_nonneg|done]).
  assert (Hd : in_range U64_MAX (sat_add U64_MAX (dropped_frame_count m) lost)).
  { destruct Hi. destruct inv_counters0 as (_ & [] & _). by apply sat_add_range. }
  assert (Hz : Forall (fun i => i <> 0) intervals) by by apply existsb_zero.
  destruct (try_from U64_MAX (zlen intervals)) as [count|] eqn:Ec; [|by cbn [fst]; keep_capturing Hi E].
  apply try_from_Some in Ec as [_ ->].
  destruct (checked_add U64_MAX first (zlen intervals)) as [next|] eqn:En; [|by cbn [fst]; keep_capturing Hi E].
  cbn [fst]. apply bump_inv. keep_capturing Hi E.
  - rewrite push_intervals by done. rewrite length_last_n. lia.
  - rewrite push_intervals by done. apply last_n_Forall, Forall_app. done.
  - apply sat_add_range; [|done]. match goal with H : in_range _ (received_frame_count m) |- _ => destruct H end. lia.
Qed.

Lemma goodbye_inv api last_sequence m :
  model_inv m -> 0 <= last_sequence -> model_inv (fst (accept_goodbye api last_sequence m)).
Proof.
  intros Hi Hl. unfold accept_goodbye.
  assert (Hdone : forall d, in_range U64_MAX d -> phase_ m = Capturing ->
    model_inv (bump_revision (set_gpu_identity None (set_phase Completed (set_dropped_frame_count d m))))).
  { intros d Hd Hc. apply bump_inv. pose proof (capturing_known m Hi Hc) as [[p Hp] Ha]. destruct Hi.
    destruct inv_counters0 as (? & ? & ? & ?). split; cbn; try done.
    - rewrite Hp in *. destruct inv_producer0 as (? & ? & ?). done.
    - rewrite inv_failure0, Hc. done. }
  assert (Hd : in_range U64_MAX (dropped_frame_count m)) by apply Hi. destruct Hd as [Hd0 Hd1].
  destruct (next_sequence m) as [expected|]; transition_cases; try (by apply rejected_inv); reflect_guards;
    apply Hdone; try done; apply sat_add_range; try lia; [apply sat_sub_nonneg|unfold sat_add; lia].
Qed.

Lemma announce_inv m c :
  model_inv m -> phase_ m = Capturing ->
  model_inv
    (if bool_decide (c ∈ replay_announced_sources m) then m
     else set_replay_announced_sources
            ((if (length (replay_announced_sources m) =? REPLAY_SOURCE_HISTORY_CAPACITY)%nat
              then tail (replay_announced_sources m) else replay_announced_sources m) ++ [c]) m).
Proof.
  intros Hi Hc. case_bool_decide as Hin; [done|]. keep_capturing Hi Hc.
  - rewrite length_app. cbn [length]. destruct (Nat.eqb_spec (length (replay_announced_sources m)) REPLAY_SOURCE_HISTORY_CAPACITY) as [E|];
      [|lia]. unfold REPLAY_SOURCE_HISTORY_CAPACITY in *. destruct (replay_announced_sources m); cbn in *; lia.
  - set (l := if (_ =? _)%nat then _ else _).
    assert (Hl : sublist l (replay_announced_sources m)).
    { unfold l. destruct (_ =? _)%nat; [|reflexivity]. destruct (replay_announced_sources m) as [|a l0]; [constructor|]. cbn. apply sublist_cons. reflexivity. }
    apply NoDup_app. splits; [by eapply sublist_NoDup| |apply NoDup_singleton].
    intros x Hx ->%list_elem_of_singleton. apply Hin. by eapply elem_of_sublist.
Qed.

Lemma candidate_inv c m : model_inv m -> model_inv (fst (accept_replay_source_candidate c m)).
Proof.
  intros Hi. unfold accept_replay_source_candidate. destruct (negb (bool_decide (phase_ m = Capturing))) eqn:E.
  { by apply rejected_inv. }
  reflect_guards. pose proof (announce_inv m c Hi E) as Ha. cbv zeta.
  match type of Ha with model_inv ?x => set (m1 := x) in * end.
  assert (E1 : phase_ m1 = Capturing) by (unfold m1; by destruct (bool_decide _)).
  case_if_as Earea; [|done]. cbn [fst]. apply bump_inv. clearbody m1. keep_capturing Ha E1.
Qed.

Lemma no_copy_ok c : copy_ok c -> forall last, copy_ok (no_copy last (copied_frame_count c)).
Proof. by intros [? _]. Qed.
Lemma no_export_ok x : export_ok x -> forall last, export_ok (no_export last (exported_frame_count x)).
Proof. by intros [? _]. Qed.

Lemma rejection_inv reason m : model_inv m -> model_inv (fst (accept_replay_source_rejection reason m)).
Proof.
  intros Hi. unfold accept_replay_source_rejection. transition_cases; try by apply rejected_inv; try done.
  2: done.
  reflect_guards. apply bump_inv. keep_capturing Hi E; [lia|apply NoDup_nil_2|by apply no_copy_ok|by apply no_export_ok].
Qed.

Lemma select_inv source m : model_inv m -> model_inv (select_replay_source source m).
Proof.
  intros Hi. unfold select_replay_source. cbv zeta.
  assert (H1 : model_inv (set_gpu_identity (gpu_identity source) m)) by by destruct Hi.
  case_if_as E; [|done]. apply bump_inv. by destruct Hi.
Qed.

Lemma clear_copy_inv m : model_inv m -> model_inv (clear_replay_copy_tracking m).
Proof.
  intros Hi. unfold clear_replay_copy_tracking. apply bump_inv. destruct Hi. split; cbn; try done. by apply no_copy_ok.
Qed.

Ltac capturing_kept Hi := match goal with Hc : phase_ _ = Capturing |- _ => keep_capturing Hi Hc end.

Lemma count_one n : in_range U64_MAX n -> in_range U64_MAX (sat_add U64_MAX n 1).
Proof. intros []. by apply sat_add_range. Qed.

Lemma copied_inv sequence source n checksum m :
  model_inv m -> model_inv (fst (accept_replay_frame_copied sequence source n checksum m)).
Proof.
  intros Hi. unfold accept_replay_frame_copied. cbv zeta. transition_cases; try by apply rejected_inv.
  reflect_guards. apply bump_inv. capturing_kept Hi. split; cbn; [apply count_one, Hi|].
  split; [|by eexists]. match goal with H : _ = Some n |- _ => revert H end. unfold checked_mul. case_if_as Epx; [|done]. case_if_as E4; [|done]. done.
Qed.

Lemma exported_inv sequence fd source offset stride modifier timestamp duration m :
  model_inv m ->
  model_inv (fst (accept_replay_frame_exported sequence fd source offset stride modifier timestamp duration m)).
Proof.
  intros Hi. unfold accept_replay_frame_exported.
  destruct (match capture_api m with Some (Vulkan | OpenGl) => false | None => true end) eqn:Eapi; [by apply rejected_inv|].
  transition_cases; [by apply rejected_inv|]. reflect_guards. apply bump_inv.
  capturing_kept Hi. split; cbn; [apply count_one, Hi|].
  assert (Hend : timestamp + duration <= U64_MAX).
  { match goal with H : checked_add _ _ _ <> None |- _ => revert H end. unfold checked_add. by case_if_as Ee; [apply Z.leb_le in Ee|]. }
  exists sequence, fd, offset, stride, timestamp, duration. by splits.
Qed.

Lemma overlay_inv status m : model_inv m -> model_inv (fst (accept_overlay_status status m)).
Proof.
  intros Hi. unfold accept_overlay_status. transition_cases; try by apply rejected_inv; try done. 2: done.
  reflect_guards. apply bump_inv. capturing_kept Hi.
Qed.

Lemma fail_inv message m : model_inv m -> model_inv (model_fail message m).
Proof.
  intros Hi. unfold model_fail. destruct (phase_ m) eqn:E; try done; apply bump_inv; destruct Hi; split; cbn; try done.
  all: rewrite E in *; destruct (producer_process_id m); try done; destruct inv_producer0 as (? & ? & ?); done.
Qed.

Lemma capture_step_inv op m : model_inv m -> capture_op_ok op -> model_inv (fst (capture_step op m)).
Proof.
  intros Hi Hop. destruct op as [message|session api first intervals|message| |source|]; cbn [capture_step fst].
  - unfold accept. transition_cases; [by apply rejected_inv|]. destruct Hop as [[_ Hwf] _].
    destruct message; cbn [fields_wf] in Hwf.
    + transition_cases; [by apply rejected_inv|]. reflect_guards. apply bump_inv. capturing_kept Hi.
    + by apply hello_inv.
    + apply frames_inv; [done|apply Hwf].
    + apply goodbye_inv; [done|apply Hwf].
    + by apply candidate_inv.
    + by apply rejection_inv.
    + by apply copied_inv.
    + by apply exported_inv.
    + by apply rejected_inv.
    + by apply overlay_inv.
  - unfold accept_frame_batch. transition_cases; [by apply rejected_inv|apply frames_inv; [done|apply Hop]].
  - by apply fail_inv.
  - by apply rejected_inv.
  - by apply select_inv.
  - by apply clear_copy_inv.
Qed.

(** * Steps *)
Definition is_hello (op : capture_op) : bool := match op with Accept (Hello _ _ _ _) => true | _ => false end.
Definition is_goodbye (op : capture_op) : bool := match op with Accept (Goodbye _ _ _ _) => true | _ => false end.
Definition is_frames (op : capture_op) : option (Z * list Z) :=
  match op with
  | Accept (FrameBatch _ _ first intervals) | AcceptFrameBatch _ _ first intervals => Some (first, intervals)
  | _ => None
  end.
Definition is_failure (op : capture_op) : bool := match op with FailSession _ => true | _ => false end.

(** The life of a session. *)
Definition phase_step (op : capture_op) (p p' : CapturePhase) : bool :=
  bool_decide (p = p')
  || match p, p' with
     | (Armed | Completed), Capturing => is_hello op
     | Capturing, Completed => is_goodbye op
     | (Armed | Capturing), CaptureFailed => is_failure op
     | _, _ => false
     end.

Definition overflow_error : CaptureStateError := {| state_message := "capture frame sequence overflowed" |}.

(** A batch whose last sequence number does not fit a u64. *)
Definition overflowed (op : capture_op) (m m' : CaptureSessionModel) (e : CaptureStateError) : Prop :=
  exists first intervals,
  is_frames op = Some (first, intervals) /\ U64_MAX < first + zlen intervals
  /\ e = overflow_error
  /\ m' = set_dropped_frame_count
            (sat_add U64_MAX (dropped_frame_count m)
               (match next_sequence m with Some expected => sat_sub first expected | None => first end)) m.

Definition step_facts (op : capture_op) (m m' : CaptureSessionModel) (r : outcome CaptureStateError unit) : Prop :=
  session_id_ m' = session_id_ m /\ phase_step op (phase_ m) (phase_ m') = true
  /\ (forall p, producer_process_id m = Some p -> producer_process_id m' = Some p)
  /\ (revision m' = revision m \/ revision m' = sat_add U64_MAX (revision m) 1)
  /\ (is_hello op = false -> overlay_status m' = overlay_status m
      \/ exists s, overlay_status m' = Some s /\ overlay_transition_is_valid (overlay_status m) s = true)
  /\ match r with
     | Ok _ => True
     | Err e => m' = rejected m \/ overflowed op m m' e
     | Panic => False
     end.

Lemma phase_same op p : phase_step op p p = true.
Proof. unfold phase_step. by rewrite bool_decide_eq_true_2. Qed.

Lemma rejected_facts op m e : step_facts op m (rejected m) (Err e).
Proof. unfold step_facts. cbn. splits; auto. apply phase_same. Qed.

(** An operation that touches neither phase, producer nor overlay. *)
Lemma quiet_facts op m m' :
  session_id_ m' = session_id_ m -> phase_ m' = phase_ m -> producer_process_id m' = producer_process_id m ->
  overlay_status m' = overlay_status m ->
  (revision m' = revision m \/ revision m' = sat_add U64_MAX (revision m) 1) ->
  step_facts op m m' (Ok tt).
Proof.
  intros Es Ep Epid Eo Hr. unfold step_facts. rewrite Es, Ep, Epid, Eo. splits; auto. apply phase_same.
Qed.

Lemma frames_facts op api first intervals m :
  is_frames op = Some (first, intervals) -> zlen intervals <= U64_MAX ->
  step_facts op m (fst (accept_frames api first intervals m)) (snd (accept_frames api first intervals m)).
Proof.
  intros Hop Hlen. unfold accept_frames. transition_cases; try by apply rejected_facts.
  cbv zeta. unfold try_from. rewrite (proj2 (Z.leb_le _ _) Hlen).
  destruct (checked_add U64_MAX first (zlen intervals)) as [next|] eqn:En; cbn [fst snd].
  - apply quiet_facts; try done. by right.
  - unfold checked_add in En. case_if_in En Ele; [done|]. apply Z.leb_gt in Ele.
    unfold step_facts. cbn. splits; auto; [apply phase_same|]. right. by exists first, intervals.
Qed.

Ltac quiet := apply quiet_facts; try done; (by left) || (by right).

Lemma hello_facts op pid api started m :
  is_hello op = true ->
  step_facts op m (fst (accept_hello pid api started m)) (snd (accept_hello pid api started m)).
Proof.
  intros Hop. unfold accept_hello. transition_cases; try by apply rejected_facts.
  reflect_guards. unfold step_facts. cbn. splits; auto; [|intros p Hp; rewrite Hp in *; reflect_guards; by subst|by rewrite Hop].
  unfold phase_step. destruct (phase_ m); cbn in *; try done; by rewrite Hop.
Qed.

Lemma goodbye_facts op api last_sequence m :
  is_goodbye op = true ->
  step_facts op m (fst (accept_goodbye api last_sequence m)) (snd (accept_goodbye api last_sequence m)).
Proof.
  intros Hop. unfold accept_goodbye.
  assert (Hphase : phase_ m = Capturing -> phase_step op (phase_ m) Completed = true).
  { intros ->. unfold phase_step. cbn. done. }
  destruct (next_sequence m); cbv zeta; transition_cases; try (by apply rejected_facts); reflect_guards;
    unfold step_facts; cbn; splits; auto.
Qed.

Lemma capture_step_facts op m :
  capture_op_ok op -> step_facts op m (fst (capture_step op m)) (snd (capture_step op m)).
Proof.
  intros Hop. destruct op as [message|session api first intervals|message| |source|]; cbn [capture_step].
  - unfold accept. transition_cases; [by apply rejected_facts|]. destruct message.
    + transition_cases; [by apply rejected_facts|quiet].
    + by apply hello_facts.
    + apply frames_facts; [done|]. destruct Hop as [_ Hv]. apply validate_intervals_Ok in Hv as [Hl _].
      unfold zlen, MAX_FRAME_INTERVALS, U64_MAX in *. lia.
    + by apply goodbye_facts.
    + unfold accept_replay_source_candidate. cbv zeta. transition_cases; try (by apply rejected_facts); quiet.
    + unfold accept_replay_source_rejection. transition_cases; try (by apply rejected_facts); quiet.
    + unfold accept_replay_frame_copied. cbv zeta. transition_cases; try (by apply rejected_facts); quiet.
    + unfold accept_replay_frame_exported.
      destruct (match capture_api m with Some (Vulkan | OpenGl) => false | None => true end); [by apply rejected_facts|].
      transition_cases; try (by apply rejected_facts); quiet.
    + by apply rejected_facts.
    + unfold accept_overlay_status. transition_cases; try (by apply rejected_facts); try quiet.
      reflect_guards. unfold step_facts. cbn. splits; auto; [apply phase_same|].
      intros _. right. exists status. split; [done|]. by destruct (overlay_transition_is_valid _ _).
  - unfold accept_frame_batch. transition_cases; [by apply rejected_facts|]. apply frames_facts; [done|apply Hop].
  - unfold model_fail. cbn [fst snd]. destruct (phase_ m) eqn:E; try quiet;
      unfold step_facts; cbn; splits; auto; by rewrite E.
  - unfold step_facts. cbn. splits; auto. apply phase_same.
  - unfold select_replay_source. cbv zeta. cbn [fst snd]. case_if_as E; quiet.
  - quiet.
Qed.

(** * Accounting *)
(** A producer's batches one after the other; the first error stops them. *)
Fixpoint run_batches (api : CaptureApi) (bs : list (Z * list Z)) (m : CaptureSessionModel)
    : CaptureSessionModel * outcome CaptureStateError unit :=
  match bs with
  | [] => (m, Ok tt)
  | (first, intervals) :: bs =>
      match accept_frames api first intervals m with
      | (m', Ok _) => run_batches api bs m'
      | (m', e) => (m', e)
      end
  end.

(** Batches that start where the one before ended, or later. *)
Fixpoint in_sequence (next : Z) (bs : list (Z * list Z)) : Prop :=
  match bs with
  | [] => True
  | (first, intervals) :: bs => next <= first /\ in_sequence (first + zlen intervals) bs
  end.
Definition sequence_end (next : Z) (bs : list (Z * list Z)) : Z :=
  foldl (fun _ '(first, intervals) => first + zlen intervals) next bs.
Definition received (bs : list (Z * list Z)) : Z := sum_Z (map (fun b => zlen b.2) bs).
Definition next_of (m : CaptureSessionModel) : Z := default 0 (next_sequence m).

Lemma accept_frames_Ok api first intervals m m' :
  accept_frames api first intervals m = (m', Ok tt) ->
  0 <= first -> (next_sequence m = None -> received_frame_count m + dropped_frame_count m = 0) ->
  (length (history m) <= LIVE_FRAME_HISTORY_CAPACITY)%nat ->
  0 <= received_frame_count m -> 0 <= dropped_frame_count m ->
  received_frame_count m + dropped_frame_count m = next_of m ->
  next_of m <= first /\ 0 < zlen intervals /\ first + zlen intervals <= U64_MAX
  /\ next_sequence m' = Some (first + zlen intervals)
  /\ received_frame_count m' = received_frame_count m + zlen intervals
  /\ dropped_frame_count m' = dropped_frame_count m + (first - next_of m)
  /\ history m' = last_n LIVE_FRAME_HISTORY_CAPACITY (history m ++ intervals).
Proof.
  intros Hok Hf Hnone Hh Hr0 Hd0 Hsum. revert Hok. unfold accept_frames. transition_cases; try done. reflect_guards. cbv zeta.
  destruct (try_from U64_MAX (zlen intervals)) as [n|] eqn:En; [|done]. apply try_from_Some in En as [_ ->].
  destruct (checked_add U64_MAX first (zlen intervals)) as [next|] eqn:Ea; [|done].
  apply checked_add_Some in Ea as [Hle ->]. intros [= <-]. cbn. unfold next_of in *.
  assert (Hpos : 0 < zlen intervals).
  { destruct intervals; [done|]. rewrite zlen_cons. pose proof (zlen_nonneg intervals). lia. }
  rewrite push_intervals by done. unfold sat_add, sat_sub.
  destruct (next_sequence m) as [expected|]; cbn [default from_option id] in *; reflect_guards; splits; try done; lia.
Qed.

Lemma run_batches_Ok api bs m m' :
  run_batches api bs m = (m', Ok tt) -> Forall (fun b => 0 <= b.1) bs ->
  (next_sequence m = None -> received_frame_count m + dropped_frame_count m = 0) ->
  (length (history m) <= LIVE_FRAME_HISTORY_CAPACITY)%nat ->
  0 <= received_frame_count m -> 0 <= dropped_frame_count m ->
  received_frame_count m + dropped_frame_count m = next_of m ->
  in_sequence (next_of m) bs
  /\ received_frame_count m' = received_frame_count m + received bs
  /\ received_frame_count m' + dropped_frame_count m' = sequence_end (next_of m) bs
  /\ history m' = last_n LIVE_FRAME_HISTORY_CAPACITY (history m ++ concat (map snd bs))
  /\ 0 <= dropped_frame_count m'
  /\ next_sequence m' = match bs with [] => next_sequence m | _ => Some (sequence_end (next_of m) bs) end
  /\ (next_of m <= U64_MAX -> sequence_end (next_of m) bs <= U64_MAX)
  /\ match bs with [] => True | _ => 0 < received bs end.
Proof.
  revert m. induction bs as [|[first intervals] bs IH]; intros m Hrun Hf Hnone Hh Hr Hd Hsum.
  - injection Hrun as <-. unfold received. cbn. rewrite app_nil_r. splits; try done; [lia|].
    unfold last_n. replace (length (history m) - LIVE_FRAME_HISTORY_CAPACITY)%nat with 0%nat by lia. by rewrite drop_0.
  - cbn [run_batches] in Hrun. destruct (accept_frames api first intervals m) as [m1 r] eqn:E1.
    destruct r as [[]|e|]; [|done..]. apply Forall_cons in Hf as [Hf1 Hf].
    apply accept_frames_Ok in E1 as (Hn & Hpos & Hmax & Hnext & Hr1 & Hd1 & Hh1); [|done..].
    assert (Hnext1 : next_of m1 = first + zlen intervals) by (unfold next_of; by rewrite Hnext).
    apply IH in Hrun as (Hseq & Hr' & Hsum' & Hh' & Hd' & Hne & Hend & _); [| |by rewrite Hnext|rewrite Hh1, length_last_n; lia|lia..]; [|done].
    rewrite Hnext1 in *. assert (Hrec : received ((first, intervals) :: bs) = zlen intervals + received bs) by done.
    splits; try done.
    + lia.
    + rewrite Hh', Hh1, last_n_app. cbn. by rewrite <- app_assoc.
    + rewrite Hne. destruct bs; [by rewrite Hnext|done].
    + intros _. by apply Hend.
    + rewrite Hrec. assert (0 <= received bs); [|lia].
      apply sum_Z_nonneg, Forall_map, Forall_forall. intros b _. apply zlen_nonneg.
Qed.

(** A summary exists exactly when there is a frame, and cutting the slowest
    percentiles never reaches past the history. *)
Lemma summarize_total l :
  exists r, summarize l = Ok r /\ (is_Some r <-> l <> []).
Proof.
  unfold summarize. destruct (last l) as [newest|] eqn:El.
  - assert (Hne : l <> []) by (by intros ->).
    assert (Hlen : length (sort_by_key Z.opp l) = length l) by (apply Permutation_length, sort_by_key_perm).
    assert (Hslow : forall d, (0 < d)%nat -> exists x, slowest_fps (sort_by_key Z.opp l) d = Ok x).
    { intros d Hd. unfold slowest_fps. rewrite Hlen.
      assert (Hcount : (Nat.max 1 ((length l + d - 1) / d) <= length l)%nat).
      { assert (0 < length l)%nat by (destruct l; [done|cbn; lia]). apply Nat.max_lub; [lia|].
        apply Nat.Div0.div_le_upper_bound. nia. }
      rewrite (proj2 (Nat.leb_le _ _) Hcount). by eexists. }
    destruct (Hslow 100%nat ltac:(lia)) as [x ->]. destruct (Hslow 1000%nat ltac:(lia)) as [y ->].
    eexists. split; [reflexivity|]. split; [done|by eexists].
  - apply last_None in El as ->. eexists. split; [reflexivity|]. split; [by intros []|done].
Qed.

Lemma capture_run_inv session m ops :
  model_inv m -> session_id_ m = session -> Forall capture_op_ok ops ->
  model_inv (capture_run m ops) /\ session_id_ (capture_run m ops) = session.
Proof.
  intros Hi Hs Hops. revert m Hi Hs. unfold capture_run. induction Hops as [|op ops Hop _ IH]; intros m Hi Hs; [done|].
  cbn [foldl]. apply IH; [by apply capture_step_inv|].
  destruct (capture_step_facts op m Hop) as [-> _]. done.
Qed.

(** * Theorems *)

(** C39: safety of a capture session.  From a fresh session, whatever messages,
    failures and receiver decisions arrive in whatever order, the session keeps
    its identity and its invariant (bounded histories, a producer exactly when
    capture started, full-frame copies, usable exports), its frame summary
    exists as soon as there is a frame, and the next step follows the phase
    automaton, keeps the producer process once it is known, bumps the revision
    by at most one and moves the overlay status only along valid transitions
    (a hello starts over). *)
Theorem capture_session_safe session ops (Hops : Forall capture_op_ok ops) :
  let m := capture_run (model_new session) ops in
  model_inv m /\ session_id_ m = session
  /\ (exists r, summarize (history m) = Ok r /\ (is_Some r <-> history m <> []))
  /\ forall op, capture_op_ok op ->
       let m' := fst (capture_step op m) in
       model_inv m' /\ phase_step op (phase_ m) (phase_ m') = true
       /\ (forall p, producer_process_id m = Some p -> producer_process_id m' = Some p)
       /\ (revision m' = revision m \/ revision m' = sat_add U64_MAX (revision m) 1)
       /\ (is_hello op = false -> overlay_status m' = overlay_status m
           \/ exists s, overlay_status m' = Some s /\ overlay_transition_is_valid (overlay_status m) s = true).
Proof.
  cbv zeta. destruct (capture_run_inv session (model_new session) ops (model_new_inv session) eq_refl Hops) as [Hi Hs].
  splits; [done|done|apply summarize_total|]. intros op Hop.
  destruct (capture_step_facts op (capture_run (model_new session) ops) Hop) as (_ & H1 & H2 & H3 & H4 & _).
  splits; [by apply capture_step_inv|done..].
Qed.

(** What an error leaves behind.  An operation never panics, and one that
    fails changes nothing but the rejection counter and the revision, with one
    exception: a batch whose sequence numbers overflow a u64 is counted as
    dropped frames although it is refused, and neither the rejection counter nor
    the revision shows it. *)
Theorem capture_error_exact op m m' r (Hop : capture_op_ok op) (Hstep : capture_step op m = (m', r)) :
  match r with
  | Ok _ => True
  | Err e =>
      m' = rejected m
      \/ (overflowed op m m' e /\ rejected_message_count m' = rejected_message_count m /\ revision m' = revision m)
  | Panic => False
  end.
Proof.
  pose proof (capture_step_facts op m Hop) as (_ & _ & _ & _ & _ & H). rewrite Hstep in H. cbn [fst snd] in H.
  destruct r as [|e|]; [done| |done]. destruct H as [|H]; [by left|]. right. split; [done|].
  destruct H as (first & intervals & _ & _ & _ & ->). done.
Qed.

(** Every frame is accounted for.  After a hello, batches that are all
    accepted came in sequence without overlap; the received count is their
    length, received and dropped frames together are exactly the sequence
    numbers used so far, without saturation, and the history is the latest 240
    intervals.  A goodbye that is accepted then counts the frames up to its last
    sequence number. *)
Theorem frames_accounted api bs m m'
    (Hi : model_inv m) (Hfresh : next_sequence m = None)
    (Hcounts : received_frame_count m = 0 /\ dropped_frame_count m = 0)
    (Hbs : Forall (fun b => 0 <= b.1) bs) (Hne : bs <> [])
    (Hrun : run_batches api bs m = (m', Ok tt)) :
  in_sequence 0 bs
  /\ received_frame_count m' = received bs
  /\ received_frame_count m' + dropped_frame_count m' = sequence_end 0 bs
  /\ next_sequence m' = Some (sequence_end 0 bs) /\ sequence_end 0 bs <= U64_MAX
  /\ history m' = last_n LIVE_FRAME_HISTORY_CAPACITY (history m ++ concat (map snd bs))
  /\ forall last_sequence m'', in_range U64_MAX last_sequence ->
       accept_goodbye api last_sequence m' = (m'', Ok tt) ->
       received_frame_count m'' + dropped_frame_count m'' = last_sequence + 1.
Proof.
  destruct Hcounts as [Hr Hd].
  assert (Hnext : next_of m = 0) by (unfold next_of; by rewrite Hfresh).
  apply run_batches_Ok in Hrun as (Hseq & Hrec & Hsum & Hh & Hd' & Hn & Hend & Hpos);
    [|done|intros; lia|apply Hi|lia..].
  rewrite Hnext in *. destruct bs as [|b bs]; [done|]. specialize (Hend ltac:(done)). cbn beta iota in Hpos.
  splits; [done|lia|done|done|done|done|].
  intros last_sequence m'' [Hl0 Hl1]. clear Hseq Hh Hbs. revert Hn Hsum Hend Hpos Hrec.
  generalize (sequence_end 0 (b :: bs)), (received (b :: bs)). intros e n Hn Hsum Hend Hpos Hrec.
  unfold accept_goodbye. rewrite Hn. cbv zeta. transition_cases; try done.
  reflect_guards. intros [= <-]. cbn. unfold sat_add, sat_sub in *. lia.
Qed.

(** ** Witnesses *)
Definition demo_session : CaptureSessionId := {| session_bytes := 1 :: replicate 15 0 |}.
Definition demo_hello : CaptureMessage := Hello demo_session 42 Vulkan 7.
Definition demo_model : CaptureSessionModel := fst (accept demo_hello (model_new demo_session)).

Lemma demo_hello_ok : capture_op_ok (Accept demo_hello).
Proof. by repeat split. Qed.

Lemma capture_session_safe_witness :
  Forall capture_op_ok [Accept demo_hello; RejectTransport] /\ model_inv (capture_run (model_new demo_session) [Accept demo_hello; RejectTransport]).
Proof.
  assert (H : Forall capture_op_ok [Accept demo_hello; RejectTransport]).
  { constructor; [apply demo_hello_ok|]. constructor; [exact I|constructor]. }
  split; [exact H|]. exact (proj1 (capture_session_safe demo_session _ H)).
Defined.

(** A batch at the end of the sequence numbers: the exception of the theorem. *)
Lemma capture_error_exact_witness :
  exists m', capture_step (AcceptFrameBatch demo_session Vulkan U64_MAX [5]) demo_model = (m', Err overflow_error)
  /\ dropped_frame_count m' = U64_MAX /\ rejected_message_count m' = 0.
Proof.
  eexists. split; [vm_compute; reflexivity|]. split; [vm_compute; reflexivity|].
  destruct (capture_error_exact (AcceptFrameBatch demo_session Vulkan U64_MAX [5]) demo_model
    (fst (capture_step (AcceptFrameBatch demo_session Vulkan U64_MAX [5]) demo_model)) (Err overflow_error)
    ltac:(split; vm_compute; discriminate) ltac:(vm_compute; reflexivity)) as [H|[_ [H _]]]; vm_compute; reflexivity.
Defined.

Lemma frames_accounted_witness :
  exists m', run_batches Vulkan [(0, [5; 6]); (4, [7])] demo_model = (m', Ok tt)
  /\ received_frame_count m' + dropped_frame_count m' = 5.
Proof.
  eexists. split; [vm_compute; reflexivity|].
  assert (Hi : model_inv demo_model) by (apply (capture_step_inv (Accept demo_hello)); [apply model_new_inv|apply demo_hello_ok]).
  destruct (frames_accounted Vulkan [(0, [5; 6]); (4, [7])] demo_model _ Hi eq_refl (conj eq_refl eq_refl)
    ltac:(repeat constructor; cbn; lia) ltac:(discriminate) eq_refl) as (_ & _ & H & _).
  exact H.
Defined.
