(* ===== verification/CaptureLifecycle.v ===== *)
(** Supervision of a launched game
    (crates/redunar-daemon/src/capture_lifecycle.rs): when a launch is kept,
    finished, failed or released, from what /proc says about its producer. *)
From stdpp Require Import strings.
From S2P Require Import Prelude Bytes Text CaptureModel.
Local Open Scope Z_scope.

(** Durations are nanoseconds. *)
Definition ARMED_STARTUP_GRACE : Z := 5 * 1000000000.
Definition PRODUCER_EXIT_GRACE : Z := 500 * 1000000.
Definition MAX_PROC_STAT_BYTES : nat := 4 * 1024.

Inductive IoErrorKind := NotFound | InvalidData | OtherKind.
#[global] Instance IoErrorKind_eq_dec : EqDecision IoErrorKind.
Proof. solve_decision. Defined.
Notation IO A := (outcome IoErrorKind A).

(** * Process stat *)
Record ProcessStat := { stat_state : Z; stat_start_time_ticks : Z }.

(** [iter().rposition(|byte| byte == b')')], counted in bytes after it. *)
Fixpoint after_last_paren (bs : bytes) : option bytes :=
  match bs with
  | [] => None
  | b :: rest =>
      match after_last_paren rest with
      | Some suffix => Some suffix
      | None => if b =? 41 then Some rest else None
      end
  end.

Definition is_ascii_whitespace (b : Z) : bool :=
  (b =? 32) || (b =? 9) || (b =? 10) || (b =? 12) || (b =? 13).
Definition nonempty (field : bytes) : bool := negb (length field =? 0)%nat.

(** [str::parse::<u64>]. *)
Definition parse_u64 (field : bytes) : option Z := from_str_radix U64_MAX 10 field.

Definition parse_process_stat (contents : bytes) : IO ProcessStat :=
  suffix ← ok_or (after_last_paren contents) InvalidData;
  let fields := List.filter nonempty (split_on is_ascii_whitespace suffix) in
  state ← ok_or (field ← head fields; head field) InvalidData;
  start ← ok_or (tail fields !! 18%nat) InvalidData;
  ticks ← ok_or (parse_u64 start) InvalidData;
  Ok {| stat_state := state; stat_start_time_ticks := ticks |}.

(** What opening and reading /proc/<pid>/stat gives. *)
Definition proc_files : Type := Z -> IO bytes.
Definition read_process_stat (proc : proc_files) (process_id : Z) : IO ProcessStat :=
  contents ← proc process_id;
  let contents := take (MAX_PROC_STAT_BYTES + 1) contents in
  if (MAX_PROC_STAT_BYTES <? length contents)%nat then Err InvalidData
  else parse_process_stat contents.

(** 'Z', 'X' and 'x'. *)
Definition is_terminated (state : Z) : bool := (state =? 90) || (state =? 88) || (state =? 120).

Record ProcessIdentity := { process_id : Z; start_time_ticks : Z }.
Definition identity_capture (proc : proc_files) (pid : Z) : IO ProcessIdentity :=
  stat ← read_process_stat proc pid;
  if is_terminated (stat_state stat) then Err NotFound
  else Ok {| process_id := pid; start_time_ticks := stat_start_time_ticks stat |}.
Definition is_alive (proc : proc_files) (identity : ProcessIdentity) : IO bool :=
  stat ← read_process_stat proc (process_id identity);
  Ok ((stat_start_time_ticks stat =? start_time_ticks identity) && negb (is_terminated (stat_state stat))).

(** * The lifecycle *)
Inductive CaptureLaunchProcessState :=
| Running | Exited (status : string) | MonitorFailed (error : string).
Definition has_exited (s : CaptureLaunchProcessState) : bool :=
  match s with Exited _ => true | _ => false end.
Inductive CaptureLaunchDisposition := KeepActive | Release.
Inductive ProcessLiveness := Alive | Dead | Unknown.
#[global] Instance ProcessLiveness_eq_dec : EqDecision ProcessLiveness.
Proof. solve_decision. Defined.
Inductive LifecycleAction := Continue | Finish | Fail (message : string).
Record LifecycleDecision := { action : LifecycleAction; disposition : CaptureLaunchDisposition }.

Definition decision_keep : LifecycleDecision := {| action := Continue; disposition := KeepActive |}.
Definition decision_finish (release : bool) : LifecycleDecision :=
  {| action := Finish; disposition := if release then Release else KeepActive |}.
Definition decision_fail (message : string) (release : bool) : LifecycleDecision :=
  {| action := Fail message; disposition := if release then Release else KeepActive |}.

Record CaptureLaunchLifecycle := {
  producer : option ProcessIdentity;
  producer_unavailable_since : option Z;
}.
Definition lifecycle_new : CaptureLaunchLifecycle := {| producer := None; producer_unavailable_since := None |}.

(** [capture_proc] and [alive_proc] are what the two reads of one evaluation
    see; /proc may change between them. *)
Definition producer_liveness (capture_proc alive_proc : proc_files) (pid : Z) (l : CaptureLaunchLifecycle)
    : CaptureLaunchLifecycle * ProcessLiveness :=
  if match producer l with Some p => negb (process_id p =? pid) | None => false end then (l, Dead)
  else
    match (match producer l with
           | Some p => Ok p
           | None => identity_capture capture_proc pid
           end) with
    | Err NotFound => (l, Dead)
    | Err _ | Panic => (l, Unknown)
    | Ok p =>
        ({| producer := Some p; producer_unavailable_since := producer_unavailable_since l |},
         match is_alive alive_proc p with
         | Ok true => Alive
         | Ok false => Dead
         | Err NotFound => Dead
         | Err _ | Panic => Unknown
         end)
    end.

Definition with_unavailable (since : option Z) (l : CaptureLaunchLifecycle) : CaptureLaunchLifecycle :=
  {| producer := producer l; producer_unavailable_since := since |}.

Definition no_producer_message (launched : CaptureLaunchProcessState) : string :=
  match launched with
  | Exited status =>
      "The launcher exited with " ++ status ++ ", but no capture producer connected within 5 seconds."
  | _ => "No capture producer connected within 5 seconds."
  end.
Definition lost_producer_message (liveness : ProcessLiveness) : string :=
  match liveness with
  | Dead => "The capture producer exited without completing capture."
  | _ => "Redunar could not verify that the capture producer is still running."
  end.

Definition evaluate (capture_proc alive_proc : proc_files) (elapsed : Z) (phase : CapturePhase)
    (producer_process_id : option Z) (launched : CaptureLaunchProcessState) (l : CaptureLaunchLifecycle)
    : CaptureLaunchLifecycle * LifecycleDecision :=
  match launched with
  | MonitorFailed error =>
      (l, decision_fail ("Could not monitor the launched game process: " ++ error) false)
  | _ =>
      match producer_process_id with
      | None =>
          if bool_decide (phase = CaptureFailed) then (l, decision_finish (has_exited launched))
          else if elapsed <? ARMED_STARTUP_GRACE then (l, decision_keep)
          else (l, decision_fail (no_producer_message launched) (has_exited launched))
      | Some pid =>
          let '(l, liveness) := producer_liveness capture_proc alive_proc pid l in
          let over := bool_decide (liveness = Dead) && has_exited launched in
          if bool_decide (phase = CaptureFailed) then (l, decision_finish over)
          else if bool_decide (liveness = Alive) then (with_unavailable None l, decision_keep)
          else
            let since := unwrap_or (producer_unavailable_since l) elapsed in
            let l := with_unavailable (Some since) l in
            if bool_decide (phase = Completed) then (l, decision_finish over)
            else if sat_sub elapsed since <? PRODUCER_EXIT_GRACE then (l, decision_keep)
            else (l, decision_fail (lost_producer_message liveness) over)
      end
  end.

(** * Parsing a stat line *)
(** A word of the line: no separator, no parenthesis. *)
Definition word (w : bytes) : Prop :=
  w <> [] /\ Forall (fun b => is_ascii_whitespace b = false /\ b <> 41) w.
(** <anything>) <word> <word> ... *)
Definition stat_line (before : bytes) (words : list bytes) : bytes :=
  before ++ 41 :: concat (map (cons 32) words) ++ [10].
Definition digit (b : Z) : Prop := 48 <= b <= 57.
Definition decimal (digits : bytes) : Z := foldl (fun total d => 10 * total + (d - 48)) 0 digits.

Lemma after_last_paren_app before suffix :
  Forall (fun b => b <> 41) suffix -> after_last_paren (before ++ 41 :: suffix) = Some suffix.
Proof.
  intros Hs. assert (Hnone : after_last_paren suffix = None).
  { induction Hs as [|b s Hb _ IH]; [done|]. cbn [after_last_paren]. rewrite IH. by rewrite (proj2 (Z.eqb_neq _ _) Hb). }
  induction before as [|b before IH]; cbn [app after_last_paren]; [by rewrite Hnone|by rewrite IH].
Qed.

Lemma words_split words :
  Forall word words ->
  List.filter nonempty (split_on is_ascii_whitespace (concat (map (cons 32) words) ++ [10])) = words.
Proof.
  induction 1 as [|w words [Hne Hw] _ IH]; [done|]. cbn [map concat app split_on is_ascii_whitespace].
  change (is_ascii_whitespace 32) with true. cbn iota. rewrite <- app_assoc.
  assert (Hnext : exists b rest, concat (map (cons 32) words) ++ [10] = b :: rest /\ is_ascii_whitespace b = true).
  { destruct words as [|w' words]; cbn; by eexists _, _. }
  destruct Hnext as (b & rest & Hb & Hws). rewrite Hb in IH |- *. rewrite split_on_word; [|by eapply Forall_impl; [exact Hw|intros ? []]|done].
  cbn [split_on List.filter] in IH |- *. rewrite Hws in IH. cbn [List.filter] in IH.
  change (nonempty []) with false in IH |- *. cbn iota in IH |- *. rewrite IH. by destruct w.
Qed.

Lemma decimal_reads digits : Forall digit digits -> reads_as 10 digits (map (fun b => b - 48) digits).
Proof.
  induction 1 as [|b digits Hb _ IH]; [constructor|]. constructor; [|exact IH]. unfold digit in Hb. split; [|lia].
  unfold to_digit. rewrite (proj2 (Z.leb_le _ _)), (proj2 (Z.leb_le _ _)) by lia. cbn.
  by rewrite (proj2 (Z.ltb_lt _ _)) by lia.
Qed.

Lemma decimal_value digits : decimal digits = digits_value 10 (map (fun b => b - 48) digits) 0.
Proof. unfold decimal, digits_value. generalize 0. induction digits as [|b digits IH]; intros z; [done|apply IH]. Qed.

Lemma parse_u64_decimal digits :
  Forall digit digits -> digits <> [] ->
  parse_u64 digits = if decimal digits <=? U64_MAX then Some (decimal digits) else None.
Proof.
  intros Hd Hne. rewrite decimal_value. by apply from_str_radix_digits, Hne; [..|apply decimal_reads].
Qed.

Lemma word_no_paren words : Forall word words -> Forall (fun b => b <> 41) (concat (map (cons 32) words) ++ [10]).
Proof.
  intros Hw. apply Forall_app. split; [|by constructor]. induction Hw as [|w words [_ Hw] _ IH]; cbn; [constructor|].
  constructor; [done|]. apply Forall_app. split; [by eapply Forall_impl; [exact Hw|intros ? []]|done].
Qed.

(** * Supervision *)
Definition monitored (launched : CaptureLaunchProcessState) : Prop :=
  match launched with MonitorFailed _ => False | _ => True end.

Lemma liveness_keeps cp ap pid l l' v :
  producer_liveness cp ap pid l = (l', v) ->
  producer_unavailable_since l' = producer_unavailable_since l
  /\ (forall p, producer l = Some p -> producer l' = Some p).
Proof.
  unfold producer_liveness. case_if_as Ep; [by intros [= <- _]|].
  destruct (producer l) as [q|] eqn:Eq.
  - intros [= <- _]. cbn. split; [done|]. by intros p [= <-].
  - destruct (identity_capture cp pid) as [q|[]|]; intros [= <- _]; cbn; done.
Qed.

(** What the evaluations of one launch see: time, the two reads of /proc. *)
Record observation := { at_time : Z; seen_first : proc_files; seen_second : proc_files }.

(** Evaluations one after the other, while a producer is capturing. *)
Fixpoint supervise (pid : Z) (launched : CaptureLaunchProcessState) (obs : list observation)
    (l : CaptureLaunchLifecycle) : CaptureLaunchLifecycle * list LifecycleDecision :=
  match obs with
  | [] => (l, [])
  | o :: obs =>
      let '(l, d) := evaluate (seen_first o) (seen_second o) (at_time o) Capturing (Some pid) launched l in
      let '(l, ds) := supervise pid launched obs l in
      (l, d :: ds)
  end.

(** The producer is not seen alive in any of the evaluations. *)
Fixpoint never_alive (pid : Z) (obs : list observation) (l : CaptureLaunchLifecycle) : Prop :=
  match obs with
  | [] => True
  | o :: obs =>
      let '(l', v) := producer_liveness (seen_first o) (seen_second o) pid l in
      v <> Alive /\ forall since, never_alive pid obs (with_unavailable since l')
  end.

(** A decision is the grace period's: wait within it, fail after it. *)
Definition grace_decision (since now : Z) (d : LifecycleDecision) : Prop :=
  if now - since <? PRODUCER_EXIT_GRACE then d = decision_keep
  else exists liveness release, liveness <> Alive /\ d = decision_fail (lost_producer_message liveness) release.

Lemma evaluate_unavailable o pid launched l l' d :
  monitored launched -> snd (producer_liveness (seen_first o) (seen_second o) pid l) <> Alive ->
  evaluate (seen_first o) (seen_second o) (at_time o) Capturing (Some pid) launched l = (l', d) ->
  let since := unwrap_or (producer_unavailable_since l) (at_time o) in
  l' = with_unavailable (Some since) (fst (producer_liveness (seen_first o) (seen_second o) pid l))
  /\ (since <= at_time o -> grace_decision since (at_time o) d).
Proof.
  intros Hm Hv. destruct (producer_liveness _ _ _ _) as [l1 v] eqn:El. cbn [fst snd] in *.
  destruct (liveness_keeps _ _ _ _ _ _ El) as [Hsince _].
  destruct launched; [..|done]; unfold evaluate; rewrite El; cbn zeta iota;
    rewrite !bool_decide_eq_false_2 by done; rewrite Hsince; unfold grace_decision, sat_sub; cbv zeta;
    intros H; (split; [by case_if_in H E; injection H as <- _|]); intros Hle;
    rewrite Z.max_r in H by lia; case_if_in H E; injection H as _ <-; try done; by eexists v, _.
Qed.

Lemma supervise_grace pid launched obs l since :
  monitored launched -> never_alive pid obs l -> producer_unavailable_since l = Some since ->
  Forall (fun o => since <= at_time o) obs ->
  Forall2 (fun o d => grace_decision since (at_time o) d) obs (snd (supervise pid launched obs l)).
Proof.
  intros Hm. revert l. induction obs as [|o obs IH]; intros l Hn Hs Ht; [constructor|]. cbn [supervise never_alive] in *.
  destruct (producer_liveness (seen_first o) (seen_second o) pid l) as [l1 v] eqn:El. destruct Hn as [Hv Hn].
  destruct (evaluate (seen_first o) (seen_second o) (at_time o) Capturing (Some pid) launched l) as [l' d] eqn:Ee.
  apply Forall_cons in Ht as [Ht1 Ht].
  apply evaluate_unavailable in Ee as [-> Hd]; [|done|by rewrite El]. rewrite Hs in *. cbn in *.
  specialize (IH (with_unavailable (Some since) l1) (Hn _) eq_refl Ht). rewrite El. cbn [fst].
  destruct (supervise pid launched obs _) as [l2 ds]. cbn in *. constructor; [by apply Hd|done].
Qed.

(** * Theorems *)
Lemma Forall_replicate_word : Forall word (repeat [48] 18).
Proof. cbn [repeat]. repeat (constructor; [split; [discriminate|repeat constructor; discriminate]|]). constructor. Qed.

(** A /proc without the process. *)
Definition no_process : proc_files := fun _ => Err NotFound.
Definition known_producer : CaptureLaunchLifecycle :=
  {| producer := Some {| process_id := 7; start_time_ticks := 100 |}; producer_unavailable_since := None |}.

(** The process name cannot mislead the parser.  Whatever bytes the kernel
    puts before the closing parenthesis of the name (spaces, newlines and
    further parentheses included), the state is the first letter of the next
    word and the start time is the twentieth word, when it fits a u64; otherwise
    the line is invalid. *)
Theorem process_stat_parsed before state rest_of_state middle start tail_words
    (Hstate : word (state :: rest_of_state)) (Hmiddle : Forall word middle) (Hcount : length middle = 18%nat)
    (Hstart : Forall digit start) (Hne : start <> []) (Htail : Forall word tail_words) :
  parse_process_stat (stat_line before ((state :: rest_of_state) :: middle ++ start :: tail_words))
  = if decimal start <=? U64_MAX
    then Ok {| stat_state := state; stat_start_time_ticks := decimal start |}
    else Err InvalidData.
Proof.
  assert (Hword : word start).
  { split; [done|]. eapply Forall_impl; [exact Hstart|]. unfold digit, is_ascii_whitespace. intros b Hb.
    split; [|lia]. by rewrite !(proj2 (Z.eqb_neq _ _)) by lia. }
  assert (Hwords : Forall word ((state :: rest_of_state) :: middle ++ start :: tail_words)).
  { constructor; [done|]. apply Forall_app. split; [done|by constructor]. }
  unfold parse_process_stat, stat_line. rewrite after_last_paren_app by by apply word_no_paren.
  cbn [ok_or mbind outcome_bind]. cbv zeta. rewrite words_split by done. cbn [head mbind option_bind ok_or outcome_bind tail].
  rewrite (lookup_app_r middle) by lia. rewrite Hcount. cbn [Nat.sub lookup list_lookup ok_or mbind outcome_bind].
  rewrite parse_u64_decimal by done. by case_if_as E.
Qed.

(** "1 (a) b) S 0 ... 0 77\n", the name being "a) b". *)
Lemma process_stat_parsed_witness :
  parse_process_stat (stat_line [49; 32; 40; 97; 41; 32; 98] ((83 :: []) :: repeat [48] 18 ++ [55; 55] :: []))
  = Ok {| stat_state := 83; stat_start_time_ticks := 77 |}.
Proof.
  rewrite (process_stat_parsed [49; 32; 40; 97; 41; 32; 98] 83 [] (repeat [48] 18) [55; 55] []).
  - reflexivity.
  - split; [discriminate|]. repeat constructor; discriminate.
  - apply Forall_replicate_word.
  - reflexivity.
  - unfold digit. repeat constructor; discriminate.
  - discriminate.
  - constructor.
Defined.

(** A launch is released only when it is over: its launcher has exited, and
    either no producer ever connected and the start-up grace has passed (or the
    capture failed), or the producer is dead: its recorded identity is gone,
    terminated, or its process id now belongs to a process that started at
    another time.  A producer once identified is never replaced. *)
Theorem release_only_when_over cp ap elapsed phase pid launched l l' d
    (Heval : evaluate cp ap elapsed phase pid launched l = (l', d)) :
  (disposition d = Release ->
     (exists status, launched = Exited status) /\ action d <> Continue
     /\ match pid with
        | None => phase = CaptureFailed \/ ARMED_STARTUP_GRACE <= elapsed
        | Some p =>
            (exists i, producer l = Some i /\ process_id i <> p)
            \/ (producer l = None /\ identity_capture cp p = Err NotFound)
            \/ exists i, producer l' = Some i /\ process_id i = p
                 /\ (is_alive ap i = Ok false \/ is_alive ap i = Err NotFound)
        end)
  /\ (forall i, producer l = Some i -> producer l' = Some i).
Proof.
  destruct launched as [|status|error]; [..|by injection Heval as <- <-]; unfold evaluate in Heval.
  all: destruct pid as [p|].
  2,4: case_if_in Heval Ef; [|case_if_in Heval Eg]; injection Heval as <- <-; cbn; (split; [|done]); try done.
  2: { intros _. splits; [by eexists|done|left; by apply bool_decide_eq_true in Ef]. }
  2: { intros _. splits; [by eexists|done|right; by apply Z.ltb_ge in Eg]. }
  all: destruct (producer_liveness cp ap p l) as [l1 v] eqn:El; pose proof (liveness_keeps _ _ _ _ _ _ El) as [_ Hkeep];
    cbv zeta in Heval.
  - assert (Hd : disposition d <> Release /\ producer l' = producer l1).
    { cbn [has_exited] in Heval. rewrite andb_false_r in Heval.
      case_if_in Heval E1; [by injection Heval as <- <-|]. case_if_in Heval E2; [by injection Heval as <- <-|].
      case_if_in Heval E3; [by injection Heval as <- <-|]. case_if_in Heval E4; by injection Heval as <- <-. }
    destruct Hd as [Hd ->]. split; [by intros ?|done].
  - assert (Hd : (disposition d = Release -> v = Dead /\ action d <> Continue) /\ producer l' = producer l1).
    { cbn [has_exited] in Heval. rewrite andb_true_r in Heval.
      case_if_in Heval E1; [|case_if_in Heval E2; [|case_if_in Heval E3; [|case_if_in Heval E4]]];
        injection Heval as <- <-; cbn; (split; [|done]); try done;
        destruct (bool_decide (v = Dead)) eqn:Ev; try done; by apply bool_decide_eq_true in Ev. }
    destruct Hd as [Hd Hp]. rewrite Hp. split; [|done]. intros Hr. destruct (Hd Hr) as [-> Ha].
    splits; [by eexists|done|]. clear - El. unfold producer_liveness in El. case_if_in El Epid.
    + left. destruct (producer l) as [i|]; [|done]. exists i. apply negb_true_iff, Z.eqb_neq in Epid. done.
    + right. destruct (producer l) as [i|].
      * right. apply negb_false_iff, Z.eqb_eq in Epid. exists i. injection El as <- Hv. cbn. splits; [done..|].
        destruct (is_alive ap i) as [[]|[]|]; (by left) || (by right) || done.
      * destruct (identity_capture cp p) as [i|[]|] eqn:Ei; try done; [|by left].
        right. exists i. injection El as <- Hv. cbn. splits; [done| |].
        -- unfold identity_capture in Ei. apply bind_Ok in Ei as (st & _ & Ei). case_if_in Ei Et; [done|]. by injection Ei as <-.
        -- destruct (is_alive ap i) as [[]|[]|]; (by left) || (by right) || done.
Qed.

Lemma release_only_when_over_witness :
  exists l' d, evaluate no_process no_process 9 Completed (Some 7) (Exited "exit status: 0") known_producer = (l', d)
  /\ disposition d = Release
  /\ (exists status, Exited "exit status: 0" = Exited status).
Proof.
  destruct (evaluate no_process no_process 9 Completed (Some 7) (Exited "exit status: 0") known_producer) as [l' d] eqn:E.
  exists l', d. split; [reflexivity|].
  assert (Hd : disposition d = Release) by (vm_compute in E; injection E as _ <-; reflexivity).
  split; [exact Hd|]. destruct (release_only_when_over _ _ _ _ _ _ _ _ _ E) as [H _]. apply (H Hd).
Defined.

(** The exit grace is exact.  From the first evaluation that no longer sees
    the capturing producer alive, every later one that does not see it either
    waits while less than 500 ms have passed and fails the launch from then on. *)
Theorem exit_grace_exact pid launched first obs l
    (Hm : monitored launched) (Hn : never_alive pid (first :: obs) l)
    (Hfresh : producer_unavailable_since l = None)
    (Htime : Forall (fun o => at_time first <= at_time o) obs) :
  Forall2 (fun o d => grace_decision (at_time first) (at_time o) d) (first :: obs)
    (snd (supervise pid launched (first :: obs) l)).
Proof.
  cbn [supervise never_alive] in *.
  destruct (producer_liveness (seen_first first) (seen_second first) pid l) as [l1 v] eqn:El. destruct Hn as [Hv Hn].
  destruct (evaluate (seen_first first) (seen_second first) (at_time first) Capturing (Some pid) launched l) as [l' d] eqn:Ee.
  apply evaluate_unavailable in Ee as [-> Hd]; [|done|by rewrite El]. rewrite Hfresh, El in *. cbn in *.
  pose proof (supervise_grace pid launched obs (with_unavailable (Some (at_time first)) l1) (at_time first) Hm (Hn _) eq_refl Htime) as H.
  destruct (supervise pid launched obs _) as [l2 ds]. cbn in *. constructor; [apply Hd; lia|done].
Qed.

Definition lost_at (ns : Z) : observation :=
  {| at_time := ns; seen_first := no_process; seen_second := no_process |}.
Lemma exit_grace_exact_witness :
  Forall2 (fun o d => grace_decision 1000 (at_time o) d)
    [lost_at 1000; lost_at 2000; lost_at 600000000]
    (snd (supervise 7 Running [lost_at 1000; lost_at 2000; lost_at 600000000] known_producer)).
Proof.
  apply (exit_grace_exact 7 Running (lost_at 1000) [lost_at 2000; lost_at 600000000] known_producer).
  - exact I.
  - cbn. split; [discriminate|]. intros s1. split; [discriminate|]. intros s2. split; [discriminate|]. done.
  - reflexivity.
  - repeat constructor; discriminate.
Defined.
