(* ===== verification/PacketSource.v ===== *)
(** Where a muxer reads packets from and writes bytes to:
    crates/redunar-daemon/src/replay_packet_source.rs, and the counting writer
    both muxers wrap around their destination. *)
From S2P Require Import Prelude Bytes ReplayRing ReplayAudio.
Local Open Scope Z_scope.

(** [io::Error], as far as the code looks at it. *)
Inductive IoError := Interrupted | OtherIo.

(** * The destination

    A destination ([impl Write]) is code outside this program.  It is given by
    what [write_all] does with a chunk when the bytes before it were accepted:
    [None] when it takes the whole chunk, [Some (n, e)] when it fails with [e]
    after [n] bytes. *)
Definition destination : Type := bytes -> bytes -> option (nat * IoError).

Record CountingWriter := { inner : bytes; written : Z }.
Definition counting_writer (inner : bytes) : CountingWriter := {| inner := inner; written := 0 |}.

Definition push_bytes (chunk : bytes) (w : CountingWriter) : CountingWriter :=
  {| inner := inner w ++ chunk; written := sat_add U64_MAX (written w) (zlen chunk) |}.
Definition write_all {E} (from_io : IoError -> E) (dest : destination) (chunk : bytes)
    (w : CountingWriter) : CountingWriter * outcome E unit :=
  match dest (inner w) chunk with
  | None => (push_bytes chunk w, Ok tt)
  | Some (n, e) => (push_bytes (take n chunk) w, Err (from_io e))
  end.

Definition get_written {E} : st CountingWriter E Z := fun w => (w, Ok (written w)).

(** A destination with room for everything. *)
Definition unbounded : destination := fun _ _ => None.

(** * Packet sources *)
Class ReplayPacketSource (S : Type) := {
  window : S -> Z * Z;
  next_packet : S -> S * outcome IoError (option EncodedReplayPacket);
  check_cancel : S -> S * outcome IoError unit;
}.

(** What a muxer relies on: a source is a queue of packets, it may fail (and
    lose packets then), and looking at it does not change the queue. *)
Class ReplayPacketSourceSpec (S : Type) `{ReplayPacketSource S} := {
  remaining : S -> list EncodedReplayPacket;
  next_packet_spec : forall s s' r,
    next_packet s = (s', r) ->
    window s' = window s /\
    match r with
    | Ok None => remaining s = [] /\ remaining s' = []
    | Ok (Some p) => remaining s = p :: remaining s'
    | Err _ => suffix (remaining s') (remaining s)
    | Panic => False
    end;
  check_cancel_spec : forall s s' r,
    check_cancel s = (s', r) -> remaining s' = remaining s /\ window s' = window s /\ r <> Panic;
}.

(** * Snapshots in memory *)
(** The cancel flag is stored by another thread: [cancel n] is what the n-th
    load of this source observes. *)
Record MemoryPackets := {
  memory_packets : list EncodedReplayPacket;
  memory_window : Z * Z;
  cancel : nat -> bool;
  loads : nat;
}.

(** [last.timestamp_ns() + last.duration_ns()] is an unchecked addition. *)
Definition memory_new (ring : ReplayRing) (cancel : nat -> bool) : outcome IoError MemoryPackets :=
  match head (packets ring), last (packets ring) with
  | Some first, Some last =>
      stop ← expect (checked_add U64_MAX (timestamp_ns last) (duration_ns last));
      Ok {| memory_packets := packets ring; memory_window := (timestamp_ns first, stop);
            cancel := cancel; loads := 0 |}
  | _, _ => Err OtherIo
  end.

Definition memory_check_cancel (m : MemoryPackets) : MemoryPackets * outcome IoError unit :=
  ({| memory_packets := memory_packets m; memory_window := memory_window m;
      cancel := cancel m; loads := S (loads m) |},
   if cancel m (loads m) then Err Interrupted else Ok tt).
Definition memory_next_packet (m : MemoryPackets)
    : MemoryPackets * outcome IoError (option EncodedReplayPacket) :=
  match memory_check_cancel m with
  | (m, Ok _) =>
      ({| memory_packets := tail (memory_packets m); memory_window := memory_window m;
          cancel := cancel m; loads := loads m |}, Ok (head (memory_packets m)))
  | (m, Err e) => (m, Err e)
  | (m, Panic) => (m, Panic)
  end.

#[global] Instance memory_source : ReplayPacketSource MemoryPackets := {
  window := memory_window;
  next_packet := memory_next_packet;
  check_cancel := memory_check_cancel;
}.

#[global] Instance memory_source_spec : ReplayPacketSourceSpec MemoryPackets.
Proof.
  refine {| remaining := memory_packets |}.
  - intros s s' r. cbn. unfold memory_next_packet, memory_check_cancel.
    destruct (cancel s (loads s)); intros [= <- <-]; cbn; [done|].
    split; [done|]. by destruct (memory_packets s).
  - intros s s' r [= <- <-]. cbn. splits; [done..|]. by destruct (cancel s (loads s)).
Defined.

(** * What both muxers share *)
(** [audio.packets.iter().filter(..)]. *)
Definition in_window (origin video_end : Z) (ps : list EncodedOpusPacket) : list EncodedOpusPacket :=
  List.filter (fun p => (origin <=? opus_timestamp_ns p) && (opus_timestamp_ns p <? video_end)) ps.

Definition microphone_in_window (origin video_end : Z) (a : ReplayAudioTracks) : list EncodedOpusPacket :=
  match microphone a with
  | Some m => in_window origin video_end (snapshot_packets m)
  | None => []
  end.

(** A streaming muxer's state is its writer and its source. *)
Section Streams.
Context {Src : Type} {E : Type}.

Definition on_writer {A} (m : st CountingWriter E A) : st (CountingWriter * Src) E A :=
  fun '(w, s) => match m w with (w, r) => ((w, s), r) end.
Definition on_source {A} (from_io : IoError -> E) (f : Src -> Src * outcome IoError A)
    : st (CountingWriter * Src) E A :=
  fun '(w, s) => match f s with (s, r) => ((w, s), map_err from_io r) end.
Definition source_window `{ReplayPacketSource Src} : st (CountingWriter * Src) E (Z * Z) :=
  fun ws => (ws, Ok (window ws.2)).
End Streams.

(** ** Facts *)
(** The state after a successful write of [chunk]. *)
Definition wrote (w : CountingWriter) (chunk : bytes) (w' : CountingWriter) : Prop :=
  inner w' = inner w ++ chunk
  /\ written w' = Z.min U64_MAX (written w + zlen chunk).

Lemma wrote_nil w : written w <= U64_MAX -> wrote w [] w.
Proof. intros H. unfold wrote. rewrite app_nil_r. change (zlen []) with 0. split; [done|lia]. Qed.

Lemma wrote_trans w c1 w1 c2 w2 : wrote w c1 w1 -> wrote w1 c2 w2 -> wrote w (c1 ++ c2) w2.
Proof.
  intros [H1 H2] [H3 H4]. unfold wrote. rewrite H3, H1, H4, H2, <- app_assoc, zlen_app.
  pose proof (zlen_nonneg c2). split; [done|]. unfold U64_MAX. lia.
Qed.

Lemma write_all_Ok {E} (from_io : IoError -> E) dest chunk w w' :
  write_all from_io dest chunk w = (w', Ok tt) -> wrote w chunk w'.
Proof. unfold write_all. destruct (dest (inner w) chunk) as [[n e]|]; [done|]. by intros [= <-]. Qed.

Lemma write_all_total {E} (from_io : IoError -> E) dest chunk w : st_total (write_all from_io dest chunk) w.
Proof. unfold st_total, write_all. by destruct (dest (inner w) chunk) as [[]|]. Qed.

Lemma on_writer_Ok {Src E A} (m : st CountingWriter E A) w (s : Src) st' a :
  on_writer m (w, s) = (st', Ok a) -> exists w', st' = (w', s) /\ m w = (w', Ok a).
Proof. unfold on_writer. destruct (m w) as [w' r]. intros [= <- ->]. eauto. Qed.

Lemma on_source_Ok {Src E A} (from_io : IoError -> E) (f : Src -> Src * outcome IoError A)
    (w : CountingWriter) (s : Src) st' a :
  on_source from_io f (w, s) = (st', Ok a) -> exists s', st' = (w, s') /\ f s = (s', Ok a).
Proof.
  unfold on_source. destruct (f s) as [s' r]. intros [= <- Hr]. apply map_err_Ok in Hr as ->. eauto.
Qed.

Lemma on_writer_total {Src E A} (m : st CountingWriter E A) (w : CountingWriter) (src : Src) :
  st_total m w -> ensures (on_writer m) (w, src) (fun ws _ => ws.2 = src).
Proof. unfold st_total, ensures, on_writer. by destruct (m w) as [w' []]. Qed.

Lemma next_packet_ensures {Src E} `{ReplayPacketSourceSpec Src} (from_io : IoError -> E) w (src : Src) :
  ensures (on_source from_io next_packet) (w, src)
    (fun ws packet => match packet with
                      | None => remaining ws.2 = []
                      | Some p => remaining src = p :: remaining ws.2
                      end).
Proof.
  unfold ensures, on_source. destruct (next_packet src) as [src1 r] eqn:E1.
  apply next_packet_spec in E1 as [_ E1]. destruct r as [[p|]|e|]; cbn; [done|by destruct E1|done|done].
Qed.

Lemma check_cancel_ensures {Src E} `{ReplayPacketSourceSpec Src} (from_io : IoError -> E) w (src : Src) :
  ensures (on_source from_io check_cancel) (w, src) (fun ws _ => remaining ws.2 = remaining src).
Proof.
  unfold ensures, on_source. destruct (check_cancel src) as [src1 r] eqn:E1.
  apply check_cancel_spec in E1 as (Hr & _ & E1). by destruct r.
Qed.
