(* ===== verification/Spool.v ===== *)
(** The on-disk packet spool (crates/redunar-daemon/src/replay_spool.rs): the
    directory it owns, its index, the open segment, and the worker that executes
    commands in order. *)
From stdpp Require Import gmap strings.
From S2P Require Import Prelude Bytes Text Arith Profiles Replay ReplayRing.
Local Open Scope Z_scope.

Definition MARKER : bytes := ascii_bytes ".redunar-replay-spool-v1".
Definition MARKER_CONTENTS : bytes := ascii_bytes "redunar-replay-spool-v1" ++ [10].
Definition SEGMENT_PREFIX : bytes := ascii_bytes "redunar-segment-".
Definition SEGMENT_SUFFIX : bytes := ascii_bytes ".rseg".
Definition TEMP_SUFFIX : bytes := ascii_bytes ".tmp".
Definition SEGMENT_MAGIC : bytes := ascii_bytes "RDNSEG01".
Definition MIN_SAVABLE_HISTORY_NS : Z := NANOSECONDS_PER_SECOND.
Definition TARGET_SEGMENT_NS : Z := 2000000000.
Definition MAX_SEGMENT_NS : Z := 4000000000.
Definition MAX_SEGMENT_BYTES : Z := 32 * 1024 * 1024.
Definition MAX_SEGMENTS : nat := 512.
Definition SEGMENT_WRITE_BUFFER_BYTES : Z := 1024 * 1024.
Definition RETAINED_DURATION : ReplayDuration := Seconds900.

(** * The directory

    The spool owns its directory: its worker is the only program that changes
    it.  A system call on it may fail for a reason outside the program (a full
    disk, a failing device): [faults n] says whether the n-th call does. *)
Inductive DiskError := NotFound | AlreadyExists | OtherError.
#[global] Instance DiskError_eq_dec : EqDecision DiskError.
Proof. solve_decision. Defined.
Inductive node := Regular (contents : bytes) | Directory.
Record Disk := { entries : gmap bytes node; calls : nat; faults : nat -> bool }.

Definition system_call {A} (f : gmap bytes node -> gmap bytes node * outcome DiskError A)
    : st Disk DiskError A :=
  fun d =>
    if faults d (calls d)
    then ({| entries := entries d; calls := S (calls d); faults := faults d |}, Err OtherError)
    else
      let '(m, r) := f (entries d) in
      ({| entries := m; calls := S (calls d); faults := faults d |}, r).

(** [OpenOptions::new().write(true).create_new(true)]. *)
Definition create_new (name : bytes) : st Disk DiskError unit :=
  system_call (fun m =>
    match m !! name with
    | Some _ => (m, Err AlreadyExists)
    | None => (<[name := Regular []]> m, Ok tt)
    end).
Definition remove_file (name : bytes) : st Disk DiskError unit :=
  system_call (fun m =>
    match m !! name with
    | Some (Regular _) => (delete name m, Ok tt)
    | Some Directory => (m, Err OtherError)
    | None => (m, Err NotFound)
    end).
(** [File::write_all] at the end of a file opened under [name].  What a failed
    write leaves in a temporary file is not tracked: nothing reads it. *)
Definition append (name chunk : bytes) : st Disk DiskError unit :=
  system_call (fun m =>
    (alter (fun n => match n with Regular c => Regular (c ++ chunk) | Directory => Directory end) name m, Ok tt)).
Definition rename (from to : bytes) : st Disk DiskError unit :=
  system_call (fun m =>
    match m !! from, m !! to with
    | None, _ => (m, Err NotFound)
    | Some _, Some Directory => (m, Err OtherError)
    | Some n, _ => (<[to := n]> (delete from m), Ok tt)
    end).
Record Metadata := { is_file : bool; len : Z }.
Definition symlink_metadata (name : bytes) : st Disk DiskError Metadata :=
  system_call (fun m =>
    match m !! name with
    | Some (Regular c) => (m, Ok {| is_file := true; len := zlen c |})
    | Some Directory => (m, Ok {| is_file := false; len := 0 |})
    | None => (m, Err NotFound)
    end).
(** An opened file keeps its contents when its name is removed. *)
Definition open_read (name : bytes) : st Disk DiskError bytes :=
  system_call (fun m =>
    match m !! name with
    | Some (Regular c) => (m, Ok c)
    | Some Directory => (m, Err OtherError)
    | None => (m, Err NotFound)
    end).
(** [sync_data] and [sync_all]. *)
Definition sync : st Disk DiskError unit := system_call (fun m => (m, Ok tt)).

(** * Data *)
Inductive ReplaySpoolPhase := SpoolRunning | SlowStorage | SpoolFailed | SpoolShutdown.
Definition phase_code (p : ReplaySpoolPhase) : Z :=
  match p with SpoolRunning => 0 | SlowStorage => 1 | SpoolFailed => 2 | SpoolShutdown => 3 end.
Definition phase_from_code (value : Z) : ReplaySpoolPhase :=
  match value with 0 => SpoolRunning | 1 => SlowStorage | 2 => SpoolFailed | _ => SpoolShutdown end.

Record ReplaySpoolSegment := {
  path : bytes;
  start_timestamp_ns : Z;
  end_timestamp_ns : Z;
  segment_bytes : Z;
}.
Record ReplaySpoolSnapshotPlan := {
  plan_segments : list ReplaySpoolSegment;
  requested_duration : ReplayDuration;
  available_duration_ns : Z;
  plan_generation : Z;
}.
Inductive ReplaySpoolErrorKind := General | InsufficientHistory | StorageFailure.
(** The message of a storage failure also quotes the operating system's error. *)
Record ReplaySpoolError := { message : string; error_kind : ReplaySpoolErrorKind }.
Definition error_new (message : string) : ReplaySpoolError :=
  {| message := message; error_kind := General |}.
Definition insufficient_history : ReplaySpoolError :=
  {| message := "Replay just started; try saving again in a moment"; error_kind := InsufficientHistory |}.
Definition io_error (context : string) : ReplaySpoolError :=
  {| message := context; error_kind := StorageFailure |}.
Definition is_storage_failure (e : ReplaySpoolError) : bool :=
  match error_kind e with StorageFailure => true | _ => false end.

Record SpoolLimits := { limit_duration_ns : Z; limit_bytes : Z }.
Definition limits_new (duration : ReplayDuration) (quality : ReplayQuality) (rate : ReplayFrameRate) : SpoolLimits :=
  let seconds := duration_seconds duration in
  let rate_multiplier := if is_variable rate then 2 else 1 in
  let video_bytes :=
    sat_mul U64_MAX
      (sat_mul U64_MAX (sat_mul U64_MAX seconds (target_megabits_per_second quality)) BYTES_PER_MEGABIT)
      rate_multiplier in
  {| limit_duration_ns := sat_mul U64_MAX seconds NANOSECONDS_PER_SECOND;
     limit_bytes := div_ceil (sat_mul U64_MAX video_bytes 110) 100 |}.

Record SpoolIndex := {
  segments : list ReplaySpoolSegment;
  active_bytes : Z;
  generation : Z;
  recovered_segments : Z;
  index_dropped_awaiting_keyframe : Z;
}.
Definition index_default : SpoolIndex := {|
  segments := []; active_bytes := 0; generation := 0; recovered_segments := 0;
  index_dropped_awaiting_keyframe := 0 |}.
Definition with_segments (segs : list ReplaySpoolSegment) (active gen : Z) (i : SpoolIndex) : SpoolIndex := {|
  segments := segs; active_bytes := active; generation := gen;
  recovered_segments := recovered_segments i;
  index_dropped_awaiting_keyframe := index_dropped_awaiting_keyframe i |}.
Definition count_dropped (i : SpoolIndex) : SpoolIndex := {|
  segments := segments i; active_bytes := active_bytes i; generation := generation i;
  recovered_segments := recovered_segments i;
  index_dropped_awaiting_keyframe := sat_add U64_MAX (index_dropped_awaiting_keyframe i) 1 |}.

(** [file] is a [BufWriter] over the temporary file: [buffer] holds the bytes
    that have not reached it. *)
Record SegmentWriter := {
  temporary_path : bytes;
  buffer : bytes;
  writer_start_ns : Z;
  writer_end_ns : Z;
  writer_bytes : Z;
  sequence : Z;
}.

(** What [process_packet] and the functions below it change. *)
Record Spool := {
  disk : Disk;
  index : SpoolIndex;
  current : option SegmentWriter;
  next_sequence : Z;
}.
Notation spool_op := (st Spool ReplaySpoolError).
Definition with_disk (d : Disk) (s : Spool) : Spool :=
  {| disk := d; index := index s; current := current s; next_sequence := next_sequence s |}.
Definition with_index (i : SpoolIndex) (s : Spool) : Spool :=
  {| disk := disk s; index := i; current := current s; next_sequence := next_sequence s |}.
Definition with_current (w : option SegmentWriter) (s : Spool) : Spool :=
  {| disk := disk s; index := index s; current := w; next_sequence := next_sequence s |}.
Definition with_next_sequence (n : Z) (s : Spool) : Spool :=
  {| disk := disk s; index := index s; current := current s; next_sequence := n |}.
Definition gets {A} (f : Spool -> A) : spool_op A := fun s => (s, Ok (f s)).
Definition modify (f : Spool -> Spool) : spool_op unit := fun s => (f s, Ok tt).
(** A call whose error becomes a storage failure, and one whose error is
    ignored. *)
Definition on_disk {A} (context : string) (m : st Disk DiskError A) : spool_op A :=
  fun s => match m (disk s) with (d, r) => (with_disk d s, map_err (fun _ => io_error context) r) end.
Definition try_disk {A} (m : st Disk DiskError A) : spool_op (outcome DiskError A) :=
  fun s => match m (disk s) with (d, r) => (with_disk d s, Ok r) end.
(** [Option::take]. *)
Definition take_current : spool_op (option SegmentWriter) :=
  fun s => (with_current None s, Ok (current s)).

(** * Segment names *)
Definition temporary_name (sequence : Z) : bytes :=
  [46] ++ SEGMENT_PREFIX ++ hex_digits 16 sequence ++ TEMP_SUFFIX.
Definition segment_name (sequence start stop : Z) : bytes :=
  SEGMENT_PREFIX ++ hex_digits 16 sequence ++ [45] ++ hex_digits 16 start ++ [45] ++ hex_digits 16 stop
  ++ SEGMENT_SUFFIX.
Definition parse_segment_name (name : bytes) : option (Z * Z * Z) :=
  body ← strip_prefix SEGMENT_PREFIX name;
  body ← strip_suffix SEGMENT_SUFFIX body;
  let parts := split_on (Z.eqb 45) body in
  sequence ← parts !! 0%nat ≫= from_str_radix U64_MAX 16;
  start ← parts !! 1%nat ≫= from_str_radix U64_MAX 16;
  stop ← parts !! 2%nat ≫= from_str_radix U64_MAX 16;
  match parts !! 3%nat with None => Some (sequence, start, stop) | Some _ => None end.

(** * Writing a segment *)
(** [BufWriter::flush_buf]. *)
Definition flush_buf (w : SegmentWriter) : st Disk DiskError SegmentWriter :=
  if zlen (buffer w) =? 0 then mret w
  else
    _ ← append (temporary_path w) (buffer w);
    mret {| temporary_path := temporary_path w; buffer := [];
            writer_start_ns := writer_start_ns w; writer_end_ns := writer_end_ns w;
            writer_bytes := writer_bytes w; sequence := sequence w |}.
Definition buffer_chunk (chunk : bytes) (w : SegmentWriter) : SegmentWriter := {|
  temporary_path := temporary_path w; buffer := buffer w ++ chunk;
  writer_start_ns := writer_start_ns w; writer_end_ns := writer_end_ns w;
  writer_bytes := writer_bytes w; sequence := sequence w |}.
(** [BufWriter::write_all] with a capacity of one MiB. *)
Definition buf_write_all (chunk : bytes) (w : SegmentWriter) : st Disk DiskError SegmentWriter :=
  let spare w := SEGMENT_WRITE_BUFFER_BYTES - zlen (buffer w) in
  if zlen chunk <? spare w then mret (buffer_chunk chunk w)
  else
    w ← (if spare w <? zlen chunk then flush_buf w else mret w);
    if SEGMENT_WRITE_BUFFER_BYTES <=? zlen chunk
    then _ ← append (temporary_path w) chunk; mret w
    else mret (buffer_chunk chunk w).

Definition create_segment (sequence start : Z) : spool_op SegmentWriter :=
  let temporary_path := temporary_name sequence in
  r ← try_disk (create_new temporary_path);
  _ ← match r with
      | Err AlreadyExists =>
          _ ← try_disk (remove_file temporary_path);
          on_disk "could not create Replay segment" (create_new temporary_path)
      | r => lift (map_err (fun _ => io_error "could not create Replay segment") r)
      end;
  on_disk "could not write Replay segment header"
    (buf_write_all SEGMENT_MAGIC
       {| temporary_path := temporary_path; buffer := []; writer_start_ns := start; writer_end_ns := start;
          writer_bytes := zlen SEGMENT_MAGIC; sequence := sequence |}).

(** * The index *)
Definition index_exceeds (limits : SpoolLimits) (i : SpoolIndex) : bool :=
  (MAX_SEGMENTS <? length (segments i))%nat || (limit_bytes limits <? active_bytes i)
  || match head (segments i), last (segments i) with
     | Some oldest, Some newest =>
         limit_duration_ns limits <? sat_sub (end_timestamp_ns newest) (start_timestamp_ns oldest)
     | _, _ => false
     end.
Definition sync_directory : spool_op unit := on_disk "could not flush Replay spool directory" sync.

(** The loop of [enforce_limits]; [segs] is what the index holds. *)
Fixpoint enforce_loop (limits : SpoolLimits) (segs : list ReplaySpoolSegment) (removed : bool) : spool_op bool :=
  i ← gets index;
  if index_exceeds limits i then
    match segs with
    | [] => lift (Err (error_new "Replay spool limits are invalid"))
    | segment :: rest =>
        _ ← modify (with_index (with_segments rest (active_bytes i) (generation i) i));
        _ ← on_disk "could not remove expired Replay segment" (remove_file (path segment));
        _ ← modify (with_index (with_segments rest (sat_sub (active_bytes i) (segment_bytes segment)) (generation i) i));
        enforce_loop limits rest true
    end
  else mret removed.
Definition enforce_limits (limits : SpoolLimits) : spool_op unit :=
  i ← gets index;
  removed ← enforce_loop limits (segments i) false;
  if removed : bool then sync_directory else mret tt.

Definition commit_segment (limits : SpoolLimits) (w : SegmentWriter) : spool_op unit :=
  w ← on_disk "could not flush Replay segment" (flush_buf w);
  _ ← on_disk "could not flush Replay segment" sync;
  let destination := segment_name (sequence w) (writer_start_ns w) (writer_end_ns w) in
  r ← try_disk (rename (temporary_path w) destination);
  _ ← match r with
      | Ok _ => mret tt
      | _ =>
          _ ← try_disk (remove_file (temporary_path w));
          lift (Err (io_error "could not commit Replay segment"))
      end;
  _ ← sync_directory;
  metadata ← on_disk "could not inspect Replay segment" (symlink_metadata destination);
  i ← gets index;
  _ ← modify (with_index (with_segments
         (segments i ++ [{| path := destination; start_timestamp_ns := writer_start_ns w;
                            end_timestamp_ns := writer_end_ns w; segment_bytes := len metadata |}])
         (sat_add U64_MAX (active_bytes i) (len metadata))
         (sat_add U64_MAX (generation i) 1) i));
  enforce_limits limits.

(** The loop of [clear_completed_segments]. *)
Fixpoint clear_loop (segs : list ReplaySpoolSegment) (removed : bool) : spool_op bool :=
  match segs with
  | [] => mret removed
  | segment :: rest =>
      i ← gets index;
      _ ← modify (with_index (with_segments rest (active_bytes i) (generation i) i));
      _ ← on_disk "could not remove Replay segment from old epoch" (remove_file (path segment));
      clear_loop rest true
  end.
Definition clear_completed_segments : spool_op unit :=
  i ← gets index;
  removed ← clear_loop (segments i) false;
  i ← gets index;
  _ ← modify (with_index (with_segments (segments i) 0 (sat_add U64_MAX (generation i) 1) i));
  if removed : bool then sync_directory else mret tt.

(** * Packets *)
Definition packet_record_bytes (p : EncodedReplayPacket) : Z := 8 + 8 + 1 + 4 + zlen (packet_bytes p).
Definition packet_header (p : EncodedReplayPacket) : bytes :=
  le_bytes 8 (timestamp_ns p) ++ le_bytes 8 (duration_ns p) ++ [if keyframe p then 1 else 0]
  ++ le_bytes 4 (unwrap_or (try_from U32_MAX (zlen (packet_bytes p))) U32_MAX).
Definition should_rotate (p : EncodedReplayPacket) (current : option SegmentWriter) : bool :=
  match current with
  | Some w =>
      keyframe p
      && ((TARGET_SEGMENT_NS <=? sat_sub (timestamp_ns p) (writer_start_ns w))
          || (MAX_SEGMENT_BYTES <? sat_add U64_MAX (writer_bytes w) (packet_record_bytes p)))
  | None => false
  end.
Definition advance_writer (p : EncodedReplayPacket) (w : SegmentWriter) : SegmentWriter := {|
  temporary_path := temporary_path w; buffer := buffer w; writer_start_ns := writer_start_ns w;
  writer_end_ns := sat_add U64_MAX (timestamp_ns p) (duration_ns p);
  writer_bytes := sat_add U64_MAX (writer_bytes w) (packet_record_bytes p); sequence := sequence w |}.

(** The two writes of a packet; the writer keeps what it buffered. *)
Definition write_packet (p : EncodedReplayPacket) (w : SegmentWriter) : spool_op SegmentWriter :=
  on_disk "could not write Replay segment"
    (w ← buf_write_all (packet_header p) w; buf_write_all (packet_bytes p) w).

Definition process_packet (limits : SpoolLimits) (p : EncodedReplayPacket) : spool_op bool :=
  c ← gets current;
  _ ← (if should_rotate p c then
         c ← take_current;
         w ← lift (expect c);
         commit_segment limits w
       else mret tt);
  c ← gets current;
  if match c with None => negb (keyframe p) | Some _ => false end then
    i ← gets index;
    _ ← modify (with_index (count_dropped i));
    mret false
  else
    _ ← match c with
        | Some _ => mret tt
        | None =>
            n ← gets next_sequence;
            w ← create_segment n (timestamp_ns p);
            _ ← modify (with_current (Some w));
            modify (with_next_sequence (sat_add U64_MAX n 1))
        end;
    c ← gets current;
    w ← lift (expect c);
    let elapsed := sat_sub (sat_add U64_MAX (timestamp_ns p) (duration_ns p)) (writer_start_ns w) in
    if (MAX_SEGMENT_NS <? elapsed)
       || (MAX_SEGMENT_BYTES <? sat_add U64_MAX (writer_bytes w) (packet_record_bytes p))
    then lift (Err (error_new "encoder did not provide a keyframe within the segment bound"))
    else
      w ← write_packet p w;
      _ ← modify (with_current (Some (advance_writer p w)));
      mret true.

(** * Snapshots *)
Fixpoint take_while {A} (test : A -> bool) (l : list A) : list A :=
  match l with
  | [] => []
  | x :: l => if test x then x :: take_while test l else []
  end.
Definition plan_snapshot (i : SpoolIndex) (requested : ReplayDuration)
    : outcome ReplaySpoolError ReplaySpoolSnapshotPlan :=
  newest ← ok_or (last (segments i)) (error_new "no complete Replay segment is available");
  let cutoff := sat_sub (end_timestamp_ns newest) (duration_seconds requested * NANOSECONDS_PER_SECOND) in
  let segs := reverse (take_while (fun s => cutoff <? end_timestamp_ns s) (reverse (segments i))) in
  let available :=
    match head segs with
    | Some first => sat_sub (end_timestamp_ns newest) (start_timestamp_ns first)
    | None => 0
    end in
  if available <? MIN_SAVABLE_HISTORY_NS then Err insufficient_history
  else Ok {| plan_segments := segs; requested_duration := requested;
             available_duration_ns := available; plan_generation := generation i |}.

(** The device and inode of the opened file are the ones inspected before: no
    other program replaces files in the owned directory. *)
Definition open_snapshot_segment (s : ReplaySpoolSegment) : spool_op bytes :=
  metadata ← on_disk "could not inspect Replay snapshot segment" (symlink_metadata (path s));
  if negb (is_file metadata) || negb (len metadata =? segment_bytes s)
  then lift (Err (error_new "Replay snapshot segment changed before assembly"))
  else
    file ← on_disk "could not open Replay snapshot segment" (open_read (path s));
    _ ← on_disk "could not inspect opened snapshot" sync;
    if negb (zlen file =? segment_bytes s)
    then lift (Err (error_new "Replay snapshot changed while opening"))
    else mret file.
Fixpoint open_segments (segs : list ReplaySpoolSegment) : spool_op (list (ReplaySpoolSegment * bytes)) :=
  match segs with
  | [] => mret []
  | s :: segs =>
      file ← open_snapshot_segment s;
      rest ← open_segments segs;
      mret ((s, file) :: rest)
  end.
Definition pin_snapshot (limits : SpoolLimits) (requested : ReplayDuration)
    : spool_op (list (ReplaySpoolSegment * bytes)) :=
  c ← take_current;
  _ ← match c with Some w => commit_segment limits w | None => mret tt end;
  i ← gets index;
  plan ← lift (plan_snapshot i requested);
  open_segments (plan_segments plan).
