(* ===== verification/SpoolWorker.v ===== *)
(** The spool's worker (crates/redunar-daemon/src/replay_spool.rs): the counters
    it publishes, one step per command, and opening a directory left by an
    earlier run. *)
From stdpp Require Import gmap strings.
From S2P Require Import Prelude Bytes Text Arith Profiles Replay ReplayRing Spool.
Local Open Scope Z_scope.

(** * What the worker publishes *)
Record ReplaySpoolStats := {
  active_segments : Z;
  stats_active_bytes : Z;
  stats_buffered_duration_ns : Z;
  stats_accepted_packets : Z;
  stats_queued_packets : Z;
  stats_dropped_queue_full : Z;
  stats_dropped_awaiting_keyframe : Z;
  stats_recovered_segments : Z;
  stats_slow_writes : Z;
  stats_segment_resyncs : Z;
}.
Definition index_stats (i : SpoolIndex) : ReplaySpoolStats := {|
  active_segments := unwrap_or (try_from U32_MAX (zlen (segments i))) U32_MAX;
  stats_active_bytes := active_bytes i;
  stats_buffered_duration_ns := 0; stats_accepted_packets := 0; stats_queued_packets := 0; stats_dropped_queue_full := 0;
  stats_dropped_awaiting_keyframe := index_dropped_awaiting_keyframe i;
  stats_recovered_segments := recovered_segments i;
  stats_slow_writes := 0; stats_segment_resyncs := 0;
|}.

(** The fields of [SharedStats] that the worker writes. *)
Record SharedStats := {
  index_snapshot : ReplaySpoolStats;
  shared_phase : ReplaySpoolPhase;
  queued_packets : Z;
  queued_bytes : Z;
  first_packet_timestamp_ns : Z;
  latest_packet_end_ns : Z;
  accepted_packets : Z;
  slow_writes : Z;
  segment_resyncs : Z;
}.
Definition with_snapshot (x : ReplaySpoolStats) (s : SharedStats) : SharedStats := {|
  index_snapshot := x; shared_phase := shared_phase s; queued_packets := queued_packets s;
  queued_bytes := queued_bytes s; first_packet_timestamp_ns := first_packet_timestamp_ns s;
  latest_packet_end_ns := latest_packet_end_ns s; accepted_packets := accepted_packets s;
  slow_writes := slow_writes s; segment_resyncs := segment_resyncs s |}.
(** [close_admission]; its wait for the submitters is in SpoolAdmission. *)
Definition close_phase (x : ReplaySpoolPhase) (s : SharedStats) : SharedStats := {|
  index_snapshot := index_snapshot s; shared_phase := x; queued_packets := queued_packets s;
  queued_bytes := queued_bytes s; first_packet_timestamp_ns := first_packet_timestamp_ns s;
  latest_packet_end_ns := latest_packet_end_ns s; accepted_packets := accepted_packets s;
  slow_writes := slow_writes s; segment_resyncs := segment_resyncs s |}.
Definition with_buffered (first latest accepted : Z) (s : SharedStats) : SharedStats := {|
  index_snapshot := index_snapshot s; shared_phase := shared_phase s; queued_packets := queued_packets s;
  queued_bytes := queued_bytes s; first_packet_timestamp_ns := first;
  latest_packet_end_ns := latest; accepted_packets := accepted;
  slow_writes := slow_writes s; segment_resyncs := segment_resyncs s |}.
Definition with_incidents (slow resyncs : Z) (s : SharedStats) : SharedStats := {|
  index_snapshot := index_snapshot s; shared_phase := shared_phase s; queued_packets := queued_packets s;
  queued_bytes := queued_bytes s; first_packet_timestamp_ns := first_packet_timestamp_ns s;
  latest_packet_end_ns := latest_packet_end_ns s; accepted_packets := accepted_packets s;
  slow_writes := slow; segment_resyncs := resyncs |}.
(** [AtomicU32::fetch_sub] and [fetch_add] wrap around. *)
Definition wrapping_add (m a b : Z) : Z := (a + b) mod (m + 1).
Definition wrapping_sub (m a b : Z) : Z := (a - b) mod (m + 1).
Definition release_packet (p : EncodedReplayPacket) (s : SharedStats) : SharedStats := {|
  index_snapshot := index_snapshot s; shared_phase := shared_phase s;
  queued_packets := wrapping_sub U32_MAX (queued_packets s) 1;
  queued_bytes := wrapping_sub U64_MAX (queued_bytes s) (zlen (packet_bytes p));
  first_packet_timestamp_ns := first_packet_timestamp_ns s;
  latest_packet_end_ns := latest_packet_end_ns s; accepted_packets := accepted_packets s;
  slow_writes := slow_writes s; segment_resyncs := segment_resyncs s |}.

Definition record_buffered_packet (p : EncodedReplayPacket) (s : SharedStats) : SharedStats :=
  let stop := sat_add U64_MAX (timestamp_ns p) (duration_ns p) in
  let first := if first_packet_timestamp_ns s =? U64_MAX then timestamp_ns p else first_packet_timestamp_ns s in
  let first := Z.max first (sat_sub stop (duration_seconds RETAINED_DURATION * NANOSECONDS_PER_SECOND)) in
  with_buffered first (Z.max (latest_packet_end_ns s) stop)
    (wrapping_add U64_MAX (accepted_packets s) 1) s.
Definition reset_buffered_duration (s : SharedStats) : SharedStats := with_buffered U64_MAX 0 0 s.
Definition buffered_duration_ns (s : SharedStats) : Z :=
  if first_packet_timestamp_ns s =? U64_MAX then 0
  else sat_sub (latest_packet_end_ns s) (first_packet_timestamp_ns s).

(** [stats]: what the worker published last, and the atomics.  The count of
    packets refused for a full queue is the submitters' ([dropped]). *)
Definition spool_stats (dropped : Z) (s : SharedStats) : ReplaySpoolStats :=
  let i := index_snapshot s in {|
  active_segments := active_segments i; stats_active_bytes := stats_active_bytes i;
  stats_buffered_duration_ns := buffered_duration_ns s; stats_accepted_packets := accepted_packets s;
  stats_queued_packets := queued_packets s; stats_dropped_queue_full := dropped;
  stats_dropped_awaiting_keyframe := stats_dropped_awaiting_keyframe i;
  stats_recovered_segments := stats_recovered_segments i;
  stats_slow_writes := slow_writes s; stats_segment_resyncs := segment_resyncs s |}.

(** What [try_submit] answers. *)
Inductive SubmitResult := Accepted | QueueFull | NotRunning.

(** * Commands *)
(** [slow] says that handling the packet took more than 500 ms; [cancelled] is
    what the worker reads from the request's flag. *)
Inductive SpoolCommand :=
| PacketCommand (packet : EncodedReplayPacket) (slow : bool)
| PrepareSnapshot (requested : ReplayDuration) (cancelled : bool)
| ResetEpoch
| ShutdownCommand.
Definition snapshot_response : Type := outcome ReplaySpoolError (list (ReplaySpoolSegment * bytes)).

Record Worker := { spool : Spool; shared : SharedStats }.
(** What a command leads to: the loop goes on with the new index published, goes
    on without publishing it ([continue]), or stops. *)
Inductive flow := Publish | Skip | Stop.

(** [current.take()] and the removal of its temporary file, errors ignored. *)
Definition discard_current (s : Spool) : Spool :=
  match current s with
  | None => s
  | Some w => (try_disk (remove_file (temporary_path w)) (with_current None s)).1
  end.

Definition packet_command (limits : SpoolLimits) (p : EncodedReplayPacket) (slow : bool) (w : Worker)
    : Worker * flow :=
  let h := release_packet p (shared w) in
  match process_packet limits p (spool w) with
  | (s, Ok wrote) =>
      let h := if wrote : bool then record_buffered_packet p h else h in
      let h := if wrote && slow
               then with_incidents (wrapping_add U64_MAX (slow_writes h) 1) (segment_resyncs h) h else h in
      ({| spool := s; shared := h |}, Publish)
  | (s, Err e) =>
      let s := discard_current s in
      let h := reset_buffered_duration
                 (with_incidents (slow_writes h) (wrapping_add U64_MAX (segment_resyncs h) 1) h) in
      if is_storage_failure e then ({| spool := s; shared := close_phase SpoolFailed h |}, Stop)
      else ({| spool := s; shared := h |}, Skip)
  | (s, Panic) => ({| spool := s; shared := h |}, Stop)
  end.

Definition reset_command (w : Worker) : Worker * flow :=
  match clear_completed_segments (discard_current (spool w)) with
  | (s, Ok _) => ({| spool := s; shared := reset_buffered_duration (shared w) |}, Publish)
  | (s, _) => ({| spool := s; shared := close_phase SpoolFailed (shared w) |}, Stop)
  end.

Definition snapshot_command (limits : SpoolLimits) (requested : ReplayDuration) (cancelled : bool) (w : Worker)
    : Worker * flow * option snapshot_response :=
  if cancelled then (w, Skip, None)
  else
    match pin_snapshot limits requested (spool w) with
    | (s, Err e) =>
        if is_storage_failure e
        then ({| spool := s; shared := close_phase SpoolFailed (shared w) |}, Stop, Some (Err e))
        else ({| spool := s; shared := shared w |}, Publish, Some (Err e))
    | (s, r) => ({| spool := s; shared := shared w |}, Publish, Some r)
    end.

Definition publish (w : Worker) : Worker :=
  {| spool := spool w; shared := with_snapshot (index_stats (index (spool w))) (shared w) |}.

(** One iteration of the loop: the worker, whether it goes on, and the answer
    to a snapshot request. *)
Definition worker_step (limits : SpoolLimits) (c : SpoolCommand) (w : Worker)
    : Worker * bool * option snapshot_response :=
  let '(w, f, r) :=
    match c with
    | PacketCommand p slow => (packet_command limits p slow w, None)
    | PrepareSnapshot requested cancelled => snapshot_command limits requested cancelled w
    | ResetEpoch => (reset_command w, None)
    | ShutdownCommand => (w, Stop, None)
    end in
  match f with
  | Publish => (publish w, true, r)
  | Skip => (w, true, r)
  | Stop => (w, false, r)
  end.

Fixpoint drain_pending_packets (commands : list SpoolCommand) (s : SharedStats) : SharedStats :=
  match commands with
  | [] => s
  | PacketCommand p _ :: commands => drain_pending_packets commands (release_packet p s)
  | _ :: commands => drain_pending_packets commands s
  end.

(** [run_worker] over the commands it receives before the channel closes, with
    the answers it sends. *)
Fixpoint worker_loop (limits : SpoolLimits) (commands : list SpoolCommand) (w : Worker)
    : Worker * list SpoolCommand * list (option snapshot_response) :=
  match commands with
  | [] => (w, [], [])
  | c :: commands =>
      let '(w, continues, r) := worker_step limits c w in
      if continues : bool
      then let '(w, rest, rs) := worker_loop limits commands w in (w, rest, r :: rs)
      else (w, commands, [r])
  end.
Definition run_worker (limits : SpoolLimits) (commands : list SpoolCommand) (w : Worker)
    : Worker * list (option snapshot_response) :=
  let '(w, rest, rs) := worker_loop limits commands w in
  ({| spool := discard_current (spool w); shared := drain_pending_packets rest (shared w) |}, rs).

(** * Opening a directory *)
Definition has_temporary_name (name : bytes) : bool :=
  starts_with ([46] ++ SEGMENT_PREFIX) name && ends_with TEMP_SUFFIX name.

Definition call {A} (context : string) (m : st Disk DiskError A) : st Disk ReplaySpoolError A :=
  fun d => match m d with (d, r) => (d, map_err (fun _ => io_error context) r) end.
(** One entry of the scan, and the whole scan in the order [fs::read_dir] lists
    them. *)
Definition recover_entry (i : SpoolIndex) (name : bytes) : st Disk ReplaySpoolError SpoolIndex :=
  if negb (utf8_valid name) then mret i
  else if has_temporary_name name then
    metadata ← call "could not inspect temporary Replay segment" (symlink_metadata name);
    _ ← (if is_file metadata then call "could not remove abandoned Replay segment" (remove_file name) else mret tt);
    mret i
  else
    match parse_segment_name name with
    | None => mret i
    | Some (sequence, start, stop) =>
        metadata ← call "could not inspect Replay segment" (symlink_metadata name);
        if negb (is_file metadata) || (stop <=? start) || (MAX_SEGMENT_BYTES <? len metadata)
        then lift (Err (error_new "owned Replay segment is invalid"))
        else
          contents ← call "could not read Replay segment" (open_read name);
          if (length contents <? 8)%nat then lift (Err (io_error "could not read Replay segment"))
          else if negb (bytes_eqb (take 8 contents) SEGMENT_MAGIC)
          then lift (Err (error_new "owned Replay segment header is invalid"))
          else
            mret {|
              segments := segments i ++ [{| path := name; start_timestamp_ns := start;
                                            end_timestamp_ns := stop; segment_bytes := len metadata |}];
              active_bytes := sat_add U64_MAX (active_bytes i) (len metadata);
              generation := Z.max (generation i) sequence;
              recovered_segments := sat_add U32_MAX (recovered_segments i) 1;
              index_dropped_awaiting_keyframe := index_dropped_awaiting_keyframe i |}
    end.
Fixpoint recover_loop (count : nat) (listing : list bytes) (i : SpoolIndex) : st Disk ReplaySpoolError SpoolIndex :=
  match listing with
  | [] => mret i
  | name :: listing =>
      if (MAX_SEGMENTS + 64 <? S count)%nat
      then lift (Err (error_new "Replay spool contains too many entries"))
      else i ← recover_entry i name; recover_loop (S count) listing i
  end.
Definition recover_index (listing : list bytes) : st Disk ReplaySpoolError SpoolIndex :=
  i ← recover_loop 0 listing index_default;
  mret (with_segments (sort_by_key start_timestamp_ns (segments i)) (active_bytes i) (generation i) i).

(** The marker file that says the directory is a spool's. *)
Definition validate_marker (marker : bytes) : st Disk ReplaySpoolError unit :=
  let invalid := error_new "Replay spool marker is invalid" in
  fun d =>
    match symlink_metadata marker d with
    | (d, Ok m) =>
        if negb (is_file m) || negb (len m =? zlen MARKER_CONTENTS) then (d, Err invalid)
        else match open_read marker d with
             | (d, Ok contents) => if bytes_eqb contents MARKER_CONTENTS then (d, Ok tt) else (d, Err invalid)
             | (d, _) => (d, Err (io_error "could not read Replay spool marker"))
             end
    | (d, _) => (d, Err (io_error "could not inspect Replay spool marker"))
    end.

(** The rest of [initialize_spool], once the directory exists with mode 0700:
    an owned spool keeps its marker, an empty directory gets one, anything else
    is refused.  [listing] is the order in which [fs::read_dir] lists a
    directory. *)
Definition initialize_spool (listing : gmap bytes node -> list bytes) : st Disk ReplaySpoolError unit :=
  fun d =>
    match symlink_metadata MARKER d with
    | (d, Ok _) => validate_marker MARKER d
    | (d, Err NotFound) =>
        if negb (length (listing (entries d)) =? 0)%nat
        then (d, Err (error_new "refusing to claim a non-empty Replay spool"))
        else match create_new MARKER d with
             | (d, Ok _) =>
                 match (_ ← append MARKER MARKER_CONTENTS; _ ← sync; sync) d with
                 | (d, Ok _) => (d, Ok tt)
                 | (d, _) => (d, Err (io_error "could not write Replay spool marker"))
                 end
             | (d, _) => (d, Err (io_error "could not create Replay spool marker"))
             end
    | (d, _) => (d, Err (io_error "could not inspect Replay spool marker"))
    end.

Definition shared_new (i : SpoolIndex) : SharedStats := {|
  index_snapshot := index_stats i; shared_phase := SpoolRunning; queued_packets := 0; queued_bytes := 0;
  first_packet_timestamp_ns := U64_MAX; latest_packet_end_ns := 0; accepted_packets := 0;
  slow_writes := 0; segment_resyncs := 0 |}.
Definition recover_directory (listing : gmap bytes node -> list bytes) : st Disk ReplaySpoolError SpoolIndex :=
  fun d => recover_index (listing (entries d)) d.
(** [ReplaySegmentSpool::open], up to the start of the worker. *)
Definition open_spool (listing : gmap bytes node -> list bytes) (quality : ReplayQuality) (rate : ReplayFrameRate)
    (d : Disk) : Disk * outcome ReplaySpoolError Worker :=
  match (_ ← initialize_spool listing; recover_directory listing) d with
  | (d, Ok i) =>
      let s := {| disk := d; index := i; current := None; next_sequence := sat_add U64_MAX (generation i) 1 |} in
      match enforce_limits (limits_new RETAINED_DURATION quality rate) s with
      | (s, Ok _) =>
          (disk s, Ok {| spool := with_next_sequence (sat_add U64_MAX (generation (index s)) 1) s;
                         shared := shared_new (index s) |})
      | (s, Err e) => (disk s, Err e)
      | (s, Panic) => (disk s, Panic)
      end
  | (d, Err e) => (d, Err e)
  | (d, Panic) => (d, Panic)
  end.
