(* ===== verification/SpoolFacts.v ===== *)
(** Theorems on the packet spool: its directory, index and open segment refine
    an abstract history of packets, whatever system calls fail. *)
From stdpp Require Import gmap strings sorting.
From S2P Require Import Prelude Bytes Text Arith Profiles Replay ReplayRing Spool SpoolWorker.
Local Open Scope Z_scope.

(** * Programs that may stop on a storage failure

    [runs m s Q R]: [m] does not panic; what it returns satisfies [Q], and an
    error that is not a storage failure satisfies [R]. *)
Definition runs {A} (m : spool_op A) (s : Spool) (Q : Spool -> A -> Prop)
    (R : Spool -> ReplaySpoolError -> Prop) : Prop :=
  match m s with
  | (s', Ok a) => Q s' a
  | (s', Err e) => is_storage_failure e = true \/ R s' e
  | (_, Panic) => False
  end.

Lemma runs_bind {A B} (m : spool_op A) (k : A -> spool_op B) s P Q R :
  runs m s P R -> (forall s1 a, P s1 a -> runs (k a) s1 Q R) -> runs (m ≫= k) s Q R.
Proof.
  unfold runs, mbind, st_bind. intros Hm Hk. destruct (m s) as [s1 [a|e|]]; [by apply Hk|done|done].
Qed.

Lemma runs_ret {A} (a : A) s (Q : Spool -> A -> Prop) R : Q s a -> runs (mret a) s Q R.
Proof. done. Qed.

Lemma runs_weaken {A} (m : spool_op A) s (P Q : Spool -> A -> Prop) (R R' : Spool -> ReplaySpoolError -> Prop) :
  runs m s P R -> (forall s' a, P s' a -> Q s' a) -> (forall s' e, R s' e -> R' s' e) -> runs m s Q R'.
Proof. unfold runs. destruct (m s) as [s' [a|e|]]; [auto|intuition|done]. Qed.

Lemma runs_gets {A} (f : Spool -> A) s Q R : Q s (f s) -> runs (gets f) s Q R.
Proof. done. Qed.

Lemma runs_modify f s (Q : Spool -> unit -> Prop) R : Q (f s) tt -> runs (modify f) s Q R.
Proof. done. Qed.

Lemma runs_on_disk {A} context (m : st Disk DiskError A) s Q R :
  ensures m (disk s) (fun d a => Q (with_disk d s) a) -> runs (on_disk context m) s Q R.
Proof. unfold runs, ensures, on_disk. destruct (m (disk s)) as [d [a|e|]]; [done|by left|done]. Qed.

Lemma ensures_call {A} (f : gmap bytes node -> gmap bytes node * outcome DiskError A) d (Q : Disk -> A -> Prop) :
  match f (entries d) with
  | (m, Ok a) => forall d', entries d' = m -> Q d' a
  | (_, Err _) => True
  | (_, Panic) => False
  end -> ensures (system_call f) d Q.
Proof.
  unfold ensures, system_call. destruct (faults d (calls d)); [done|].
  destruct (f (entries d)) as [m [a|e|]]; [|done|done]. intros H. by apply H.
Qed.

(** * Names *)
Lemma parse_segment_name_format sequence start stop :
  in_range U64_MAX sequence -> in_range U64_MAX start -> in_range U64_MAX stop ->
  parse_segment_name (segment_name sequence start stop) = Some (sequence, start, stop).
Proof.
  unfold in_range, U64_MAX. intros Hs Ha Hb. unfold parse_segment_name, segment_name.
  rewrite strip_prefix_app. cbn [mbind option_bind].
  replace (hex_digits 16 sequence ++ [45] ++ hex_digits 16 start ++ [45] ++ hex_digits 16 stop ++ SEGMENT_SUFFIX)
    with ((hex_digits 16 sequence ++ [45] ++ hex_digits 16 start ++ [45] ++ hex_digits 16 stop) ++ SEGMENT_SUFFIX)
    by by rewrite <- !app_assoc.
  rewrite strip_suffix_app. cbn [mbind option_bind].
  assert (Hclean : forall x, Forall (fun c => (45 =? c) = false) (hex_digits 16 x)).
  { intros x. eapply Forall_impl; [apply hex_digits_chars|]. intros c Hc. cbn beta in Hc. apply Z.eqb_neq. lia. }
  cbn [app]. rewrite split_on_word, split_on_word, split_on_none by done.
  cbn [lookup list_lookup mbind option_bind]. unfold U64_MAX. rewrite !parse_hex by (lia || cbn; lia). done.
Qed.

Lemma segment_name_inj s1 a1 b1 s2 a2 b2 :
  Forall (in_range U64_MAX) [s1; a1; b1; s2; a2; b2] ->
  segment_name s1 a1 b1 = segment_name s2 a2 b2 -> s1 = s2 /\ a1 = a2 /\ b1 = b2.
Proof.
  intros H Heq. repeat (apply Forall_cons in H as [? H]).
  pose proof (parse_segment_name_format s1 a1 b1 ltac:(done) ltac:(done) ltac:(done)) as E.
  rewrite Heq, parse_segment_name_format in E by done. by injection E.
Qed.

Lemma temporary_has_name sequence : has_temporary_name (temporary_name sequence) = true.
Proof.
  unfold has_temporary_name, temporary_name. rewrite !app_assoc, ends_with_app, <- !app_assoc, andb_true_r.
  rewrite (app_assoc [46]). apply starts_with_app.
Qed.

Lemma segment_not_temporary sequence start stop : has_temporary_name (segment_name sequence start stop) = false.
Proof. done. Qed.

Lemma temporary_name_inj s1 s2 :
  in_range U64_MAX s1 -> in_range U64_MAX s2 -> temporary_name s1 = temporary_name s2 -> s1 = s2.
Proof.
  unfold in_range, U64_MAX, temporary_name. intros H1 H2 H. apply app_inv_head, app_inv_head, app_inv_tail in H.
  pose proof (parse_hex U64_MAX 16 s1) as E. rewrite H, parse_hex in E by (unfold U64_MAX; cbn; lia).
  unfold U64_MAX in E. specialize (E ltac:(lia) ltac:(cbn; lia) ltac:(lia)). by injection E.
Qed.

Lemma hex_digits_ascii x : Forall (fun b => b < 128) (hex_digits 16 x).
Proof. eapply Forall_impl; [apply hex_digits_chars|]. cbn beta. lia. Qed.

Lemma ascii_check bs : forallb (fun b => b <? 128) bs = true -> Forall (fun b => b < 128) bs.
Proof. rewrite forallb_forall. intros H. apply Forall_forall. intros b Hb. apply Z.ltb_lt, H. by apply list_elem_of_In. Qed.

Ltac ascii_parts :=
  repeat match goal with
  | |- Forall _ (_ ++ _) => apply Forall_app; split
  | |- Forall _ (hex_digits _ _) => apply hex_digits_ascii
  | |- Forall _ _ => apply ascii_check; reflexivity
  end.

Lemma temporary_name_utf8 sequence : utf8_valid (temporary_name sequence) = true.
Proof.
  apply utf8_ascii. unfold temporary_name. ascii_parts.
Qed.

Lemma segment_name_utf8 sequence start stop : utf8_valid (segment_name sequence start stop) = true.
Proof.
  apply utf8_ascii. unfold segment_name. ascii_parts.
Qed.

#[global] Opaque segment_name temporary_name.

(** * The abstract history

    What the spool is for: groups of packets, each starting with a keyframe;
    the last one is still open, the others are sealed in files. *)
Notation packet := EncodedReplayPacket.
Definition record_of (p : packet) : bytes := packet_header p ++ packet_bytes p.
Definition file_of (g : list packet) : bytes := SEGMENT_MAGIC ++ concat (map record_of g).
Definition packet_end (p : packet) : Z := timestamp_ns p + duration_ns p.
Definition group_start (g : list packet) : Z := match head g with Some p => timestamp_ns p | None => 0 end.
Definition group_end (g : list packet) : Z := match last g with Some p => packet_end p | None => 0 end.
Definition group_bytes (g : list packet) : Z := zlen (file_of g).

Record History := { sealed : list (list packet); open_group : list packet }.
Definition recorded (h : History) : list packet := concat (sealed h) ++ open_group h.

Definition history_exceeds (limits : SpoolLimits) (groups : list (list packet)) : bool :=
  (MAX_SEGMENTS <? length groups)%nat || (limit_bytes limits <? sum_Z (map group_bytes groups))
  || match head groups, last groups with
     | Some oldest, Some newest => limit_duration_ns limits <? group_end newest - group_start oldest
     | _, _ => false
     end.
(** Drop the oldest groups until the rest is within the limits. *)
Fixpoint trim (limits : SpoolLimits) (groups : list (list packet)) : list (list packet) :=
  match groups with
  | [] => []
  | g :: rest => if history_exceeds limits groups then trim limits rest else groups
  end.
Definition seal (limits : SpoolLimits) (h : History) : History :=
  match open_group h with
  | [] => h
  | g => {| sealed := trim limits (sealed h ++ [g]); open_group := [] |}
  end.
(** A keyframe opens a new group two seconds after the last one began, or when
    the open one is full. *)
Definition starts_group (p : packet) (g : list packet) : bool :=
  negb (length g =? 0)%nat && keyframe p
  && ((TARGET_SEGMENT_NS <=? timestamp_ns p - group_start g)
      || (MAX_SEGMENT_BYTES <? group_bytes (g ++ [p]))).
Inductive admission := Recorded | AwaitingKeyframe | NoKeyframe.
Definition admit_packet (limits : SpoolLimits) (p : packet) (h : History) : admission * History :=
  let h := if starts_group p (open_group h) then seal limits h else h in
  if (length (open_group h) =? 0)%nat && negb (keyframe p) then (AwaitingKeyframe, h)
  else
    let g := open_group h ++ [p] in
    if (MAX_SEGMENT_NS <? packet_end p - group_start g) || (MAX_SEGMENT_BYTES <? group_bytes g)
    then (NoKeyframe, {| sealed := sealed h; open_group := [] |})
    else (Recorded, {| sealed := sealed h; open_group := g |}).

(** * The directory holds the sealed groups *)
Definition name_of (sequence : Z) (g : list packet) : bytes :=
  segment_name sequence (group_start g) (group_end g).
Definition segment_of (sequence : Z) (g : list packet) : ReplaySpoolSegment :=
  {| path := name_of sequence g; start_timestamp_ns := group_start g; end_timestamp_ns := group_end g;
     segment_bytes := group_bytes g |}.
Record group_ok (g : list packet) : Prop := {
  group_some : g <> [];
  group_packets : Forall packet_ok g;
  group_sorted : StronglySorted earlier g;
  group_key : head_not_key g = false;
  group_size : group_bytes g <= MAX_SEGMENT_BYTES;
}.
(** Files the spool neither writes nor reads as its own, the marker among them. *)
Definition foreign (name : bytes) : Prop := has_temporary_name name = false /\ parse_segment_name name = None.
Definition entry_ok (next : Z) (seqs : list Z) (groups : list (list packet)) (name : bytes) (n : node) : Prop :=
  (exists q g, (q, g) ∈ zip seqs groups /\ name = name_of q g)
  \/ (exists q c, name = temporary_name q /\ 0 <= q < next /\ n = Regular c)
  \/ foreign name.
Record store_ok (m : gmap bytes node) (next : Z) (seqs : list Z) (groups : list (list packet)) : Prop := {
  so_groups : Forall group_ok groups;
  so_files : Forall2 (fun q g => m !! name_of q g = Some (Regular (file_of g))) seqs groups;
  so_seqs : StronglySorted Z.lt seqs;
  so_range : Forall (fun q => 0 <= q < next) seqs;
  so_next : 0 <= next <= U64_MAX;
  so_entries : map_Forall (entry_ok next seqs groups) m;
}.
Definition index_ok (i : SpoolIndex) (seqs : list Z) (groups : list (list packet)) : Prop :=
  segments i = zip_with segment_of seqs groups /\ active_bytes i = sum_Z (map group_bytes groups).

Lemma group_range g : group_ok g -> in_range U64_MAX (group_start g) /\ in_range U64_MAX (group_end g) /\ group_start g < group_end g.
Proof.
  intros [Hne Hok Hs _ _]. destruct g as [|p g]; [done|]. unfold group_start, group_end, packet_end, in_range. cbn [head].
  pose proof Hok as [Hp _]%Forall_cons. unfold packet_ok in Hp.
  destruct (last (p :: g)) as [q|] eqn:E; [|by apply last_None in E].
  pose proof E as Hq%last_Some_elem_of. assert (packet_ok q) as Hq' by (by rewrite Forall_forall in Hok; apply Hok).
  unfold packet_ok in Hq'. assert (timestamp_ns p <= timestamp_ns q).
  { apply elem_of_cons in Hq as [->|Hq]; [lia|]. apply StronglySorted_inv in Hs as [_ Hs].
    rewrite Forall_forall in Hs. apply Hs in Hq. unfold earlier in Hq. lia. }
  lia.
Qed.

Lemma name_of_ne q g q' g' next :
  group_ok g -> group_ok g' -> 0 <= q < next -> 0 <= q' < next -> next <= U64_MAX -> q <> q' ->
  name_of q g <> name_of q' g'.
Proof.
  intros (? & ? & _)%group_range (? & ? & _)%group_range Hq Hq' Hn Hne E. apply Hne.
  refine (proj1 (segment_name_inj _ _ _ _ _ _ _ E)). unfold in_range in *. repeat constructor; lia.
Qed.

Lemma name_of_temporary q g q' : name_of q g <> temporary_name q'.
Proof. unfold name_of. intros E. pose proof (temporary_has_name q') as H. rewrite <- E in H. done. Qed.

(** ** How the directory may change *)
Lemma store_lookup_ne m next seqs groups name n :
  store_ok m next seqs groups -> (forall q g, name <> name_of q g) ->
  Forall2 (fun q g => <[name := n]> m !! name_of q g = Some (Regular (file_of g))) seqs groups.
Proof.
  intros [_ Hf _ _ _ _] Hne. eapply Forall2_impl; [exact Hf|]. intros q g H. cbn beta in *.
  by rewrite lookup_insert_ne by apply Hne.
Qed.

Lemma entry_ok_next next next' seqs groups name n :
  next <= next' -> entry_ok next seqs groups name n -> entry_ok next' seqs groups name n.
Proof.
  intros Hle [H|[(q & c & ? & ? & ?)|H]]; [by left| |by right; right].
  right. left. exists q, c. splits; [done|lia|lia|done].
Qed.

Lemma store_temporary m next seqs groups q c next' :
  store_ok m next seqs groups -> next <= next' <= U64_MAX -> 0 <= q < next' ->
  store_ok (<[temporary_name q := Regular c]> m) next' seqs groups.
Proof.
  intros Hs Hn Hq. pose proof Hs as [Hg _ Hseq Hr Hnext He]. constructor; [done| |done| |lia|].
  - eapply store_lookup_ne; [exact Hs|]. intros q' g' E. by eapply name_of_temporary.
  - eapply Forall_impl; [exact Hr|]. cbn. lia.
  - apply map_Forall_insert_2.
    + right. left. by exists q, c.
    + eapply map_Forall_impl; [exact He|]. intros ? ?. apply entry_ok_next. lia.
Qed.

Lemma store_next m next seqs groups next' :
  store_ok m next seqs groups -> next <= next' <= U64_MAX -> store_ok m next' seqs groups.
Proof.
  intros [Hg Hf Hseq Hr Hnext He] Hn. constructor; [done..| |lia|].
  - eapply Forall_impl; [exact Hr|]. cbn. lia.
  - eapply map_Forall_impl; [exact He|]. intros ? ?. apply entry_ok_next. lia.
Qed.

Lemma store_delete_temporary m next seqs groups q :
  store_ok m next seqs groups -> store_ok (delete (temporary_name q) m) next seqs groups.
Proof.
  intros [Hg Hf Hseq Hr Hnext He]. constructor; [done| |done..|].
  - eapply Forall2_impl; [exact Hf|]. intros q' g' H. cbn beta in *.
    rewrite lookup_delete_ne; [done|]. intros E. by eapply name_of_temporary.
  - by apply map_Forall_delete.
Qed.

Lemma zip_snoc {A B} (l : list A) (k : list B) a b :
  length l = length k -> zip (l ++ [a]) (k ++ [b]) = zip l k ++ [(a, b)].
Proof. intros H. by rewrite zip_with_app. Qed.

(** A rename publishes a complete temporary file. *)
Lemma store_commit m next seqs groups q g :
  store_ok m next seqs groups -> group_ok g -> 0 <= q < next -> Forall (fun q' => q' < q) seqs ->
  store_ok (<[name_of q g := Regular (file_of g)]> (delete (temporary_name q) m)) next (seqs ++ [q]) (groups ++ [g]).
Proof.
  intros Hs Hgood Hq Hlt. pose proof (store_delete_temporary _ _ _ _ q Hs) as [Hg Hf Hseq Hr Hnext He].
  assert (Hlen : length seqs = length groups) by by eapply Forall2_length.
  constructor.
  - apply Forall_app. split; [done|by constructor].
  - apply Forall2_app; [|constructor; [by rewrite lookup_insert_eq|constructor]].
    clear - Hf Hg Hr Hlt Hgood Hq Hnext. induction Hf as [|q' g' seqs groups Hq' _ IH]; [constructor|].
    apply Forall_cons in Hg as [Hg' Hg]. apply Forall_cons in Hr as [Hr' Hr]. apply Forall_cons in Hlt as [Hl' Hlt].
    constructor; [|by apply IH]. rewrite lookup_insert_ne; [done|].
    eapply name_of_ne; [done|done|exact Hq|exact Hr'|lia|lia].
  - clear - Hseq Hlt. induction Hseq as [|q' seqs Hs IH Hq']; cbn; [by repeat constructor|].
    apply Forall_cons in Hlt as [Hl Hlt]. constructor; [by apply IH|]. apply Forall_app. split; [done|by constructor].
  - apply Forall_app. split; [done|by constructor].
  - done.
  - apply map_Forall_insert_2.
    + left. exists q, g. rewrite zip_snoc by done. split; [|done]. apply elem_of_app. right. by left.
    + eapply map_Forall_impl; [exact He|]. intros n nd [(q' & g' & Hin & ->)|H]; [|by right].
      left. exists q', g'. rewrite zip_snoc by done. split; [|done]. apply elem_of_app. by left.
Qed.

Lemma store_evict m next q seqs g groups :
  store_ok m next (q :: seqs) (g :: groups) -> store_ok (delete (name_of q g) m) next seqs groups.
Proof.
  intros [Hg Hf Hseq Hr Hnext He]. apply Forall_cons in Hg as [Hg0 Hg]. apply Forall_cons in Hr as [Hr0 Hr].
  apply Forall2_cons in Hf as [_ Hf]. apply StronglySorted_inv in Hseq as [Hseq Hlt]. constructor; [done| |done..|].
  - clear - Hf Hg Hr Hlt Hg0 Hr0 Hnext. induction Hf as [|q' g' seqs groups Hq' _ IH]; [constructor|].
    apply Forall_cons in Hg as [Hg' Hg]. apply Forall_cons in Hr as [Hr' Hr]. apply Forall_cons in Hlt as [Hl' Hlt].
    constructor; [|by apply IH]. rewrite lookup_delete_ne; [done|].
    eapply name_of_ne; [done|done|exact Hr0|exact Hr'|lia|lia].
  - intros n nd [Hne Hn]%lookup_delete_Some. destruct (He n nd Hn) as [(q' & g' & Hin & ->)|H]; [|by right].
    left. apply elem_of_cons in Hin as [[= -> ->]|Hin]; [done|]. by exists q', g'.
Qed.

(** ** Buffered writes *)
Definition same_writer (w w' : SegmentWriter) : Prop :=
  temporary_path w' = temporary_path w /\ writer_start_ns w' = writer_start_ns w
  /\ writer_end_ns w' = writer_end_ns w /\ writer_bytes w' = writer_bytes w /\ sequence w' = sequence w.
(** All the bytes given to the writer. *)
Definition accepted (m : gmap bytes node) (w : SegmentWriter) (all : bytes) : Prop :=
  exists c, m !! temporary_path w = Some (Regular c) /\ c ++ buffer w = all.
(** A write of [chunk] by [w] leaves [w'] and the directory [m']. *)
Definition writes (m : gmap bytes node) (w : SegmentWriter) (all : bytes) (m' : gmap bytes node) (w' : SegmentWriter) : Prop :=
  same_writer w w' /\ accepted m' w' all /\ exists c, m' = <[temporary_path w := Regular c]> m.

Lemma zlen_zero {A} (l : list A) : zlen l = 0 -> l = [].
Proof. destruct l; [done|]. rewrite zlen_cons. pose proof (zlen_nonneg l). lia. Qed.

Lemma append_spec d w chunk c :
  entries d !! temporary_path w = Some (Regular c) ->
  ensures (append (temporary_path w) chunk) d
    (fun d' _ => entries d' = <[temporary_path w := Regular (c ++ chunk)]> (entries d)).
Proof.
  intros Hc. apply ensures_call. intros d' ->. apply map_eq. intros n.
  destruct (decide (n = temporary_path w)) as [->|Hne].
  - by rewrite lookup_alter_eq, Hc, lookup_insert_eq.
  - by rewrite lookup_alter_ne, lookup_insert_ne.
Qed.

Lemma flush_spec d w all :
  accepted (entries d) w all ->
  ensures (flush_buf w) d (fun d' w' => writes (entries d) w all (entries d') w' /\ buffer w' = []).
Proof.
  intros (c & Hc & Hall). unfold flush_buf. case_if_as E.
  - apply Z.eqb_eq in E. assert (Hb : buffer w = []) by by apply zlen_zero.
    split; [|done]. split; [by splits|split; [by exists c|]]. exists c. by rewrite insert_id.
  - eapply ensures_bind; [by apply append_spec|]. intros d' [] Hd. cbn. split; [|done].
    split; [by splits|split; [|by eexists]]. exists (c ++ buffer w). cbn. rewrite Hd, lookup_insert_eq. by rewrite app_nil_r.
Qed.

Lemma buf_write_spec d w all chunk :
  accepted (entries d) w all ->
  ensures (buf_write_all chunk w) d (fun d' w' => writes (entries d) w (all ++ chunk) (entries d') w').
Proof.
  intros Hacc. unfold buf_write_all. cbv zeta. case_if_as E1.
  { destruct Hacc as (c & Hc & Hall). split; [by splits|split; [|exists c; by rewrite insert_id]].
    exists c. cbn. by rewrite app_assoc, Hall. }
  apply (ensures_bind _ _ _ (fun d' w' => writes (entries d) w all (entries d') w'
           /\ (SEGMENT_WRITE_BUFFER_BYTES <= zlen chunk -> buffer w' = []))).
  { case_if_as E2.
    - eapply ensures_weaken; [by apply flush_spec|]. cbn. intros d' w' [H1 H2]. done.
    - split; [split; [by splits|split; [done|]]|].
      + destruct Hacc as (c & Hc & Hall). exists c. by rewrite insert_id.
      + apply Z.ltb_ge in E1, E2. intros Hbig. pose proof (zlen_nonneg (buffer w)).
        apply zlen_zero. lia. }
  intros d1 w1 ((Hsame & (c & Hc & Hall) & (c0 & Hm)) & Hbuf). destruct Hsame as (Hp & ? & ? & ? & ?). case_if_as E3.
  - apply Z.leb_le in E3. specialize (Hbuf E3). eapply ensures_bind; [by apply append_spec|].
    intros d2 [] Hd2. cbn. rewrite Hbuf, app_nil_r in Hall. subst c. split; [by splits|split].
    + exists (all ++ chunk). rewrite Hd2, lookup_insert_eq, Hbuf. by rewrite app_nil_r.
    + rewrite Hd2, Hm, Hp, insert_insert_eq. by eexists.
  - cbn. split; [by splits|split; [|by eexists]]. exists c. cbn. by rewrite app_assoc, Hall.
Qed.

(** ** Steps of the spool's programs *)
Lemma runs_gets_bind {A B} (f : Spool -> A) (k : A -> spool_op B) s Q R :
  runs (k (f s)) s Q R -> runs (gets f ≫= k) s Q R.
Proof. done. Qed.

Lemma runs_modify_bind {B} f (k : unit -> spool_op B) s Q R : runs (k tt) (f s) Q R -> runs (modify f ≫= k) s Q R.
Proof. done. Qed.

Lemma runs_disk_bind {A B} context (m : st Disk DiskError A) (k : A -> spool_op B) s Q R :
  ensures m (disk s) (fun d a => runs (k a) (with_disk d s) Q R) -> runs (on_disk context m ≫= k) s Q R.
Proof.
  intros H. eapply runs_bind; [by apply (runs_on_disk context m s (fun s1 a => runs (k a) s1 Q R) R)|done].
Qed.

Lemma runs_try_bind {A B} (m : st Disk DiskError A) (k : outcome DiskError A -> spool_op B) s Q R :
  (let '(d, r) := m (disk s) in runs (k r) (with_disk d s) Q R) -> runs (try_disk m ≫= k) s Q R.
Proof. unfold runs, try_disk, mbind, st_bind. by destruct (m (disk s)) as [d r]. Qed.

Lemma remove_file_spec d name :
  ensures (remove_file name) d (fun d' _ => entries d' = delete name (entries d)).
Proof. apply ensures_call. destruct (entries d !! name) as [[]|]; [|done..]. by intros d' ->. Qed.

Lemma sync_spec d : ensures sync d (fun d' _ => entries d' = entries d).
Proof. apply ensures_call. by intros d' ->. Qed.

Lemma create_new_spec d name :
  ensures (create_new name) d (fun d' _ => entries d' = <[name := Regular []]> (entries d)).
Proof. apply ensures_call. destruct (entries d !! name); [done|]. by intros d' ->. Qed.

Definition limits_ok (limits : SpoolLimits) : Prop := 0 <= limit_bytes limits /\ 0 <= limit_duration_ns limits.

Lemma last_zip_with {A B C} (f : A -> B -> C) l k c :
  length l = length k -> last (zip_with f l k) = Some c ->
  exists a b, last l = Some a /\ last k = Some b /\ c = f a b.
Proof.
  revert k. induction l as [|a l IH]; intros [|b k] Hlen; try done. injection Hlen as Hlen.
  destruct l as [|a' l], k as [|b' k]; try done; cbn [zip_with].
  - intros [= <-]. by exists a, b.
  - rewrite !last_cons_cons. by apply (IH (b' :: k)).
Qed.

Lemma index_exceeds_history limits i seqs groups :
  limits_ok limits -> length seqs = length groups -> index_ok i seqs groups ->
  index_exceeds limits i = history_exceeds limits groups.
Proof.
  intros [_ Hd] Hlen [Hs Ha]. unfold index_exceeds, history_exceeds. rewrite Hs, Ha.
  rewrite length_zip_with, Hlen, Nat.min_id. f_equal.
  destruct seqs as [|q seqs], groups as [|g groups]; [done..|]. cbn [zip_with head].
  destruct (last (segment_of q g :: zip_with segment_of seqs groups)) as [sl|] eqn:E; [|by apply last_None in E].
  destruct (last_zip_with segment_of (q :: seqs) (g :: groups) sl Hlen E) as (q' & g' & _ & -> & ->). cbn.
  unfold sat_sub. destruct (Z.ltb_spec (limit_duration_ns limits) (group_end g' - group_start g));
    [apply Z.ltb_lt|apply Z.ltb_ge]; lia.
Qed.

Lemma group_bytes_nonneg g : 0 <= group_bytes g.
Proof. apply zlen_nonneg. Qed.

Lemma trim_within limits groups : limits_ok limits -> history_exceeds limits (trim limits groups) = false.
Proof.
  intros [Hb _]. induction groups as [|g groups IH]; cbn [trim].
  - unfold history_exceeds. cbn. by rewrite (proj2 (Z.ltb_ge _ _)) by lia.
  - by case_if_as E.
Qed.

Lemma trim_suffix limits groups : suffix (trim limits groups) groups.
Proof. induction groups as [|g groups IH]; cbn [trim]; [done|]. case_if_as E; [by apply suffix_cons_r|done]. Qed.

(** What enforcing the limits leaves. *)
Definition trimmed (limits : SpoolLimits) (s : Spool) (seqs : list Z) (groups : list (list packet)) (s' : Spool) : Prop :=
  current s' = current s /\ next_sequence s' = next_sequence s
  /\ exists seqs', suffix seqs' seqs
     /\ store_ok (entries (disk s')) (next_sequence s) seqs' (trim limits groups)
     /\ index_ok (index s') seqs' (trim limits groups).

Lemma enforce_loop_spec limits s seqs groups removed R :
  limits_ok limits -> store_ok (entries (disk s)) (next_sequence s) seqs groups -> index_ok (index s) seqs groups ->
  runs (enforce_loop limits (zip_with segment_of seqs groups) removed) s (fun s' _ => trimmed limits s seqs groups s') R.
Proof.
  intros Hl. revert s seqs removed. induction groups as [|g groups IH]; intros s seqs removed Hs Hi;
    pose proof (Forall2_length _ _ _ (so_files _ _ _ _ Hs)) as Hlen; pose proof (index_exceeds_history limits _ _ _ Hl Hlen Hi) as Hex.
  - destruct seqs; [|done]. cbn [zip_with enforce_loop]. apply runs_gets_bind. rewrite Hex.
    change (history_exceeds limits []) with (history_exceeds limits (trim limits [])).
    rewrite trim_within by done. apply runs_ret. split; [done|split; [done|]]. by exists [].
  - destruct seqs as [|q seqs]; [done|]. cbn [zip_with enforce_loop]. apply runs_gets_bind. rewrite Hex.
    unfold trimmed. cbn [trim]. destruct (history_exceeds limits (g :: groups)) eqn:E; cycle 1.
    { apply runs_ret. split; [done|split; [done|]]. by exists (q :: seqs). }
    apply runs_modify_bind, runs_disk_bind. eapply ensures_weaken; [apply remove_file_spec|]. cbn beta. intros d _ Hd.
    apply runs_modify_bind. destruct Hi as [Hseg Hact].
    assert (Ha : sat_sub (active_bytes (index s)) (group_bytes g) = sum_Z (map group_bytes groups)).
    { rewrite Hact. unfold sat_sub. cbn [map sum_Z foldr]. fold (sum_Z (map group_bytes groups)).
      pose proof (sum_Z_nonneg (map group_bytes groups) ltac:(apply Forall_mapped; intros; apply group_bytes_nonneg)). lia. }
    cbn [segment_bytes segment_of]. rewrite Ha.
    eapply runs_weaken; [apply (IH _ seqs)| |done].
    + cbn. rewrite Hd. by apply store_evict.
    + split; [done|]. cbn. done.
    + cbn. intros s' _ (H1 & H2 & seqs' & H3 & H4 & H5). split; [done|split; [done|]]. exists seqs'. split; [by apply suffix_cons_r|done].
Qed.

Lemma enforce_limits_spec limits s seqs groups R :
  limits_ok limits -> store_ok (entries (disk s)) (next_sequence s) seqs groups -> index_ok (index s) seqs groups ->
  runs (enforce_limits limits) s (fun s' _ => trimmed limits s seqs groups s') R.
Proof.
  intros Hl Hs Hi. unfold enforce_limits. apply runs_gets_bind. destruct Hi as [Hseg Hact]. rewrite Hseg.
  eapply runs_bind; [by apply (enforce_loop_spec limits s seqs groups)|]. cbn beta.
  intros s1 [] (H1 & H2 & seqs' & H3 & H4 & H5); [|apply runs_ret; split; [done|split; [done|by exists seqs']]].
  apply runs_on_disk. eapply ensures_weaken; [apply sync_spec|]. cbn. intros d _ Hd.
  split; [done|split; [done|]]. exists seqs'. cbn. rewrite Hd. done.
Qed.

(** * The open segment *)
Record writer_ok (m : gmap bytes node) (next : Z) (seqs : list Z) (w : SegmentWriter) (g : list packet) : Prop := {
  wo_bytes : accepted m w (file_of g);
  wo_path : temporary_path w = temporary_name (sequence w);
  wo_sequence : 0 <= sequence w < next /\ Forall (fun q => q < sequence w) seqs;
  wo_count : writer_bytes w = group_bytes g;
}.
(** The writer of a group that has packets. *)
Record writer_holds (m : gmap bytes node) (next : Z) (seqs : list Z) (w : SegmentWriter) (g : list packet) : Prop := {
  wh_writer : writer_ok m next seqs w g;
  wh_group : group_ok g;
  wh_start : writer_start_ns w = group_start g;
  wh_end : writer_end_ns w = group_end g;
}.
Record spool_inv (limits : SpoolLimits) (s : Spool) (seqs : list Z) (h : History) : Prop := {
  si_store : store_ok (entries (disk s)) (next_sequence s) seqs (sealed h);
  si_index : index_ok (index s) seqs (sealed h);
  si_limits : history_exceeds limits (sealed h) = false;
  si_sorted : StronglySorted earlier (recorded h);
  si_writer : match current s with
              | None => open_group h = []
              | Some w => writer_holds (entries (disk s)) (next_sequence s) seqs w (open_group h)
              end;
}.

Lemma packet_bounds p : packet_ok p -> 0 < zlen (packet_bytes p) <= 8388608.
Proof. unfold packet_ok, MAX_SINGLE_PACKET_BYTES. lia. Qed.

Lemma record_length p : zlen (record_of p) = packet_record_bytes p.
Proof.
  unfold record_of, packet_header, packet_record_bytes. autorewrite with rust.
  unfold zlen at 1 2 3. rewrite !length_le_bytes. change (zlen [_]) with 1. destruct (keyframe p); cbn; lia.
Qed.

Lemma group_bytes_app g1 g2 : group_bytes (g1 ++ g2) = group_bytes g1 + zlen (concat (map record_of g2)).
Proof. unfold group_bytes, file_of. rewrite map_app, concat_app, app_assoc, zlen_app. done. Qed.

Lemma group_bytes_snoc g p : group_bytes (g ++ [p]) = group_bytes g + packet_record_bytes p.
Proof. rewrite group_bytes_app. cbn [map concat]. by rewrite app_nil_r, record_length. Qed.

Lemma file_of_snoc g p : file_of (g ++ [p]) = file_of g ++ packet_header p ++ packet_bytes p.
Proof. unfold file_of. rewrite map_app, concat_app. cbn [map concat]. by rewrite app_nil_r, <- app_assoc. Qed.

Lemma group_start_snoc g p : g <> [] -> group_start (g ++ [p]) = group_start g.
Proof. by destruct g. Qed.

Lemma group_end_snoc g p : group_end (g ++ [p]) = packet_end p.
Proof. unfold group_end. by rewrite last_snoc. Qed.

Lemma writes_same m w all m' w' next seqs g :
  writes m w all m' w' -> writer_ok m next seqs w g -> forall g', all = file_of g' -> writer_bytes w' = group_bytes g' ->
  writer_ok m' next seqs w' g'.
Proof.
  intros ((Hp & Hs & He & Hb & Hq) & Hacc & _) [_ H2 H3 _] g' -> Hc. constructor; [done| |by rewrite Hq|done].
  by rewrite Hp, Hq.
Qed.

Lemma rename_spec d from to c :
  entries d !! from = Some (Regular c) ->
  ensures (rename from to) d (fun d' _ => entries d' = <[to := Regular c]> (delete from (entries d))).
Proof. intros H. apply ensures_call. rewrite H. destruct (entries d !! to) as [[]|]; [|done|]; by intros d' ->. Qed.

Lemma metadata_spec d name c :
  entries d !! name = Some (Regular c) ->
  ensures (symlink_metadata name) d (fun d' a => entries d' = entries d /\ a = {| is_file := true; len := zlen c |}).
Proof. intros H. apply ensures_call. rewrite H. by intros d' ->. Qed.

(** A successful rename; a failed one is a storage failure. *)
Lemma rename_or_fail {B} context d s from to c (k : spool_op B) Q R :
  entries d !! from = Some (Regular c) ->
  (forall d', entries d' = <[to := Regular c]> (delete from (entries d)) -> runs k (with_disk d' s) Q R) ->
  runs (r ← try_disk (rename from to);
        _ ← match r with
            | Ok _ => mret tt
            | _ => _ ← try_disk (remove_file from); lift (Err (io_error context))
            end;
        k) (with_disk d s) Q R.
Proof.
  intros Hc Hk. apply runs_try_bind. cbn [disk with_disk]. pose proof (rename_spec d from to c Hc) as Hren.
  unfold ensures in Hren. destruct (rename from to d) as [d1 [[]|e|]]; [| |done].
  - by apply (Hk d1).
  - unfold runs, mbind, st_bind, try_disk. cbn. destruct (remove_file from d1) as [? []]; by left.
Qed.

Lemma groups_total limits groups :
  Forall group_ok groups -> history_exceeds limits groups = false ->
  0 <= sum_Z (map group_bytes groups) <= 512 * MAX_SEGMENT_BYTES.
Proof.
  intros Hg Hl. assert (length groups <= 512)%nat.
  { unfold history_exceeds in Hl. apply orb_false_iff in Hl as [[Hl _]%orb_false_iff _]. by apply Nat.ltb_ge in Hl. }
  split; [apply sum_Z_nonneg, Forall_mapped; intros; apply group_bytes_nonneg|].
  assert (sum_Z (map group_bytes groups) <= Z.of_nat (length groups) * MAX_SEGMENT_BYTES); [|unfold MAX_SEGMENT_BYTES in *; nia].
  clear Hl H. induction Hg as [|g groups [_ _ _ _ Hg] _ IH]; cbn [map sum_Z foldr length]; [lia|].
  fold (sum_Z (map group_bytes groups)). lia.
Qed.

(** Committing publishes the open group and enforces the limits. *)
Lemma commit_segment_spec limits s w seqs groups g R :
  limits_ok limits -> store_ok (entries (disk s)) (next_sequence s) seqs groups -> index_ok (index s) seqs groups ->
  history_exceeds limits groups = false -> writer_holds (entries (disk s)) (next_sequence s) seqs w g ->
  runs (commit_segment limits w) s (fun s' _ => trimmed limits s (seqs ++ [sequence w]) (groups ++ [g]) s') R.
Proof.
  intros Hl Hs Hi Hlim [[Hacc Hpath [Hseq Hlt] Hcount] Hg Hstart Hend]. unfold commit_segment.
  apply runs_disk_bind. eapply ensures_weaken; [by apply flush_spec|]. cbn beta.
  intros d1 w1 (((Hp1 & Hs1 & He1 & Hb1 & Hq1) & (c & Hc & Hall) & (c0 & Hm1)) & Hbuf).
  rewrite Hbuf, app_nil_r in Hall. subst c.
  apply runs_disk_bind. eapply ensures_weaken; [apply sync_spec|]. cbn beta. intros d2 [] Hm2. cbn [disk with_disk] in *.
  rewrite Hs1, He1, Hq1, Hstart, Hend. fold (name_of (sequence w) g). rewrite Hp1, Hpath in *.
  cbv zeta. eapply rename_or_fail; [by rewrite Hm2|]. intros d3 Hm3.
  apply runs_disk_bind. eapply ensures_weaken; [apply sync_spec|]. cbn beta. intros d4 [] Hm4. cbn [disk with_disk] in *.
  assert (Hstore : store_ok (entries d4) (next_sequence s) (seqs ++ [sequence w]) (groups ++ [g])).
  { rewrite Hm4, Hm3. apply store_commit; [|done..]. rewrite Hm2, Hm1. apply (store_temporary _ (next_sequence s)); [done| |done].
    pose proof (so_next _ _ _ _ Hs). lia. }
  apply runs_disk_bind. eapply ensures_weaken;
    [apply (metadata_spec _ _ (file_of g)); cbn [disk with_disk]; by rewrite Hm4, Hm3, lookup_insert_eq|].
  cbn beta. intros d5 a [Hm5 ->]. apply runs_gets_bind, runs_modify_bind.
  eapply runs_weaken; [apply (enforce_limits_spec limits _ (seqs ++ [sequence w]) (groups ++ [g]))| |by intros ? ? ?]; [done| | |].
  - cbn. by rewrite Hm5.
  - destruct Hi as [Hseg Hact]. split; cbn.
    + rewrite Hseg, zip_with_app by by eapply Forall2_length, Hs. done.
    + rewrite Hact, map_app, sum_Z_app. cbn [map sum_Z foldr]. change (zlen (file_of g)) with (group_bytes g). rewrite Z.add_0_r.
      pose proof (groups_total _ _ (so_groups _ _ _ _ Hs) Hlim). pose proof (group_size _ Hg) as Hsize.
      apply sat_add_exact. unfold U64_MAX, MAX_SEGMENT_BYTES in *. lia.
  - intros s' a H. exact H.
Qed.

(** A fresh writer, over an abandoned temporary file if there is one. *)
Lemma create_segment_spec s seqs groups sequence start R :
  store_ok (entries (disk s)) (next_sequence s) seqs groups -> sequence = next_sequence s -> sequence < U64_MAX ->
  runs (create_segment sequence start) s
    (fun s' w => exists c, s' = with_disk (disk s') s
       /\ entries (disk s') = <[temporary_name sequence := Regular c]> (entries (disk s))
       /\ writer_ok (entries (disk s')) (sequence + 1) seqs w [] /\ temporary_path w = temporary_name sequence
       /\ writer_start_ns w = start) R.
Proof.
  intros Hs -> Hmax. unfold create_segment. cbv zeta. set (name := temporary_name (next_sequence s)).
  eapply (runs_bind _ _ _ (fun s' r => s' = with_disk (disk s') s /\
    match r with
    | Ok _ => entries (disk s') = <[name := Regular []]> (entries (disk s))
    | Err _ => entries (disk s') = entries (disk s)
    | Panic => False
    end)).
  { unfold runs, try_disk, create_new, system_call. destruct (faults (disk s) (calls (disk s))); [done|].
    by destruct (entries (disk s) !! name). }
  intros s1 r [E1 Hr].
  apply (runs_bind _ _ _ (fun s' _ => s' = with_disk (disk s') s
      /\ entries (disk s') = <[name := Regular []]> (entries (disk s)))).
  { destruct r as [[]|[]|]; [by split|by left| |by left|done].
    rewrite E1. unfold runs, mbind, st_bind, try_disk. cbn [disk with_disk].
    pose proof (remove_file_spec (disk s1) name) as Hrm. unfold ensures in Hrm.
    assert (Hd : exists d r, remove_file name (disk s1) = (d, r)
        /\ <[name := Regular []]> (entries d) = <[name := Regular []]> (entries (disk s))).
    { unfold remove_file, system_call in *. destruct (faults (disk s1) (calls (disk s1))); [by rewrite <- Hr; eexists _, _|].
      rewrite <- Hr. destruct (entries (disk s1) !! name) as [[]|]; eexists _, _; (split; [done|]); cbn; [|done..].
      apply insert_delete_eq. }
    destruct Hd as (d & r & -> & Hd). fold (runs (on_disk "could not create Replay segment" (create_new name)) (with_disk d (with_disk (disk s1) s))
      (fun s' (_ : unit) => s' = with_disk (disk s') s /\ entries (disk s') = <[name := Regular []]> (entries (disk s))) R).
    apply runs_on_disk. eapply ensures_weaken; [apply create_new_spec|]. cbn. intros d' [] Hd'. by rewrite Hd', Hd. }
  cbn beta. intros s2 [] [E2 Hm2]. apply runs_on_disk. eapply ensures_weaken; [apply (buf_write_spec _ _ [])|].
  { exists []. cbn [temporary_path buffer]. by rewrite Hm2, lookup_insert_eq. }
  cbn beta. intros d w ((Hp & Hst & Hen & Hb & Hq) & Hacc & (c & Hm)). cbn in *. exists c. splits.
  - by rewrite E2.
  - by rewrite Hm, Hm2, insert_insert_eq.
  - constructor; [done| | |done].
    + by rewrite Hp, Hq.
    + rewrite Hq. pose proof (so_next _ _ _ _ Hs). split; [lia|]. eapply Forall_impl; [apply Hs|]. cbn. lia.
  - done.
  - done.
Qed.

(** * A packet *)
Lemma concat_suffix {A} (k l : list (list A)) : suffix k l -> suffix (concat k) (concat l).
Proof. intros [x ->]. rewrite concat_app. by eexists. Qed.

Lemma seal_sorted limits h : StronglySorted earlier (recorded h) -> StronglySorted earlier (recorded (seal limits h)).
Proof.
  intros Hs. unfold seal. destruct (open_group h) as [|p g] eqn:E; [done|]. unfold recorded in *. cbn [sealed open_group].
  rewrite app_nil_r. eapply sorted_suffix; [exact Hs|]. rewrite E.
  replace (concat (sealed h) ++ p :: g) with (concat (sealed h ++ [p :: g])) by (rewrite concat_app; cbn; by rewrite app_nil_r).
  apply concat_suffix, trim_suffix.
Qed.

Lemma seal_within limits h : suffix (recorded (seal limits h)) (recorded h).
Proof.
  unfold seal. destruct (open_group h) as [|p g] eqn:E; [done|]. unfold recorded. cbn [sealed open_group]. rewrite app_nil_r, E.
  replace (concat (sealed h) ++ p :: g) with (concat (sealed h ++ [p :: g])) by (rewrite concat_app; cbn; by rewrite app_nil_r).
  apply concat_suffix, trim_suffix.
Qed.

Lemma open_group_sorted h : StronglySorted earlier (recorded h) -> StronglySorted earlier (open_group h).
Proof. intros Hs. eapply sorted_suffix; [exact Hs|]. by exists (concat (sealed h)). Qed.

Lemma should_rotate_starts m next seqs c p g :
  packet_ok p ->
  match c with None => g = [] | Some w => writer_holds m next seqs w g end ->
  should_rotate p c = starts_group p g.
Proof.
  intros Hp. destruct c as [w|]; [|by intros ->]. intros [[_ _ _ Hc] [Hne _ _ _ Hsize] Hs _]. unfold should_rotate, starts_group.
  destruct g as [|q g]; [done|]. cbn [length Nat.eqb negb andb]. rewrite Hs, Hc, group_bytes_snoc.
  pose proof (packet_bounds p Hp). f_equal. f_equal.
  - unfold sat_sub, TARGET_SEGMENT_NS. destruct (Z.leb_spec 2000000000 (timestamp_ns p - group_start (q :: g)));
      [apply Z.leb_le|apply Z.leb_gt]; lia.
  - rewrite sat_add_exact; [done|]. unfold packet_record_bytes, U64_MAX, MAX_SEGMENT_BYTES in *. lia.
Qed.

(** The step that may close the open group. *)
Lemma rotate_spec limits s seqs h p R :
  limits_ok limits -> spool_inv limits s seqs h -> packet_ok p ->
  runs (if should_rotate p (current s) then
          c ← take_current; w ← lift (expect c); commit_segment limits w
        else mret tt) s
    (fun s' _ => next_sequence s' = next_sequence s /\
       exists seqs', spool_inv limits s' seqs' (if starts_group p (open_group h) then seal limits h else h)) R.
Proof.
  intros Hl [Hs Hi Hlim Hsort Hw] Hp. rewrite (should_rotate_starts _ _ _ _ _ _ Hp Hw).
  case_if_as Erot; [|apply runs_ret; split; [done|by exists seqs]].
  destruct (current s) as [w|] eqn:Ew; [|by rewrite Hw in Erot].
  apply runs_bind with (P := fun s1 c => s1 = with_current None s /\ c = Some w); [by unfold take_current, runs; rewrite Ew|].
  intros s1 c [-> ->]. apply runs_bind with (P := fun s1 w' => s1 = with_current None s /\ w' = w); [done|]. intros s1 w' [-> ->].
  eapply runs_weaken; [apply (commit_segment_spec limits _ w seqs (sealed h) (open_group h) R)| |by intros]; [done..|].
  intros s' [] (Hc & Hn & seqs' & Hsuf & Hs' & Hi'). split; [done|]. exists seqs'.
  destruct (wh_group _ _ _ _ _ Hw) as [Hne _ _ _ _]. pose proof (seal_sorted limits h Hsort) as Hsort'. unfold seal in *.
  destruct (open_group h) as [|q g]; [done|]. constructor; cbn [sealed open_group].
  - by rewrite Hn.
  - done.
  - by apply trim_within.
  - done.
  - by rewrite Hc.
Qed.

(** The open segment just before a packet is written: the existing one, or a
    fresh one for a first packet. *)
Record ready (limits : SpoolLimits) (s : Spool) (seqs : list Z) (h : History) (p : packet) (w : SegmentWriter) : Prop := {
  re_store : store_ok (entries (disk s)) (next_sequence s) seqs (sealed h);
  re_index : index_ok (index s) seqs (sealed h);
  re_limits : history_exceeds limits (sealed h) = false;
  re_sorted : StronglySorted earlier (recorded h ++ [p]);
  re_current : current s = Some w;
  re_writer : writer_ok (entries (disk s)) (next_sequence s) seqs w (open_group h);
  re_start : writer_start_ns w = group_start (open_group h ++ [p]);
  re_group : open_group h <> [] -> group_ok (open_group h) /\ writer_end_ns w = group_end (open_group h);
}.

Lemma ensure_writer_spec limits s seqs h p R :
  spool_inv limits s seqs h -> StronglySorted earlier (recorded h ++ [p]) -> next_sequence s < U64_MAX ->
  runs (match current s with
        | Some _ => mret tt
        | None =>
            n ← gets next_sequence;
            w ← create_segment n (timestamp_ns p);
            _ ← modify (with_current (Some w));
            modify (with_next_sequence (sat_add U64_MAX n 1))
        end) s
    (fun s' _ => next_sequence s <= next_sequence s' <= next_sequence s + 1 /\
       exists w, ready limits s' seqs h p w) R.
Proof.
  intros [Hs Hi Hlim Hsort Hw] Hsp Hn. destruct (current s) as [w|] eqn:Ew.
  - apply runs_ret. split; [lia|]. exists w. destruct Hw as [Hw Hg Hst Hen]. constructor; try done.
    rewrite group_start_snoc; [done|]. apply Hg.
  - apply runs_gets_bind. eapply runs_bind; [by apply (create_segment_spec s seqs (sealed h))|].
    intros s1 w (c & E1 & Hm & Hwr & Hp & Hst). apply runs_modify_bind, runs_modify.
    pose proof (so_next _ _ _ _ Hs). rewrite E1. cbn [with_next_sequence with_current with_disk next_sequence].
    rewrite sat_add_exact by lia. split; [lia|]. exists w. constructor; cbn [disk index current next_sequence with_disk with_current with_next_sequence].
    + rewrite Hm. apply (store_temporary _ (next_sequence s)); [done|lia|lia].
    + done.
    + done.
    + done.
    + done.
    + by rewrite Hw.
    + by rewrite Hw, Hst.
    + by rewrite Hw.
Qed.

Lemma write_packet_spec limits s seqs h p w R :
  ready limits s seqs h p w -> packet_ok p -> head_not_key (open_group h ++ [p]) = false ->
  group_bytes (open_group h ++ [p]) <= MAX_SEGMENT_BYTES ->
  runs (w ← write_packet p w; _ ← modify (with_current (Some (advance_writer p w))); mret true) s
    (fun s' b => b = true /\ next_sequence s' = next_sequence s /\
       spool_inv limits s' seqs {| sealed := sealed h; open_group := open_group h ++ [p] |}) R.
Proof.
  intros [Hs Hi Hlim Hsort Hcur Hw Hst Hg] Hp Hkey Hsize.
  unfold write_packet. apply runs_disk_bind. eapply ensures_bind; [apply buf_write_spec, Hw|]. cbn beta.
  intros d1 w1 H1. eapply ensures_weaken; [apply buf_write_spec, H1|]. cbn beta. intros d2 w2 H2.
  destruct H1 as ((Hp1 & Hs1 & He1 & Hb1 & Hq1) & _ & (c1 & Hm1)).
  destruct H2 as ((Hp2 & Hs2 & He2 & Hb2 & Hq2) & Hacc & (c2 & Hm2)).
  apply runs_modify_bind, runs_ret. split; [done|split; [done|]].
  assert (Hm : entries d2 = <[temporary_name (sequence w) := Regular c2]> (entries (disk s)))
    by by rewrite Hm2, Hm1, Hp1, (wo_path _ _ _ _ _ Hw), insert_insert_eq.
  constructor; cbn [disk index current next_sequence with_disk with_current sealed open_group].
  - rewrite Hm. pose proof (so_next _ _ _ _ Hs). apply (store_temporary _ (next_sequence s)); [done|lia|apply Hw].
  - done.
  - done.
  - unfold recorded in *. cbn [sealed open_group]. by rewrite app_assoc.
  - pose proof Hp as Hp'. unfold packet_ok in Hp'. constructor.
    + constructor; cbn [advance_writer temporary_path sequence writer_bytes].
      * by rewrite file_of_snoc, app_assoc.
      * by rewrite Hp2, Hp1, Hq2, Hq1, (wo_path _ _ _ _ _ Hw).
      * rewrite Hq2, Hq1. apply Hw.
      * rewrite Hb2, Hb1, (wo_count _ _ _ _ _ Hw), sat_add_exact; [by rewrite group_bytes_snoc|].
        rewrite group_bytes_snoc in Hsize. unfold MAX_SEGMENT_BYTES, U64_MAX in *. lia.
    + constructor; [by destruct (open_group h)| | |done|done].
      * apply Forall_app. split; [|by constructor]. destruct (open_group h) as [|q g]; [done|]. by apply Hg.
      * unfold recorded in Hsort. rewrite <- app_assoc in Hsort. eapply sorted_suffix; [exact Hsort|]. by eexists.
    + cbn. by rewrite Hs2, Hs1.
    + cbn. rewrite group_end_snoc. unfold packet_end. apply sat_add_exact. lia.
Qed.

(** One packet, whatever the disk does: a storage failure, or the abstract step. *)
Lemma process_packet_spec limits s seqs h p :
  limits_ok limits -> spool_inv limits s seqs h -> packet_ok p -> Forall (fun q => earlier q p) (recorded h) ->
  next_sequence s < U64_MAX ->
  runs (process_packet limits p) s
    (fun s' b => next_sequence s <= next_sequence s' <= next_sequence s + 1 /\ exists seqs' h',
       admit_packet limits p h = (if b then Recorded else AwaitingKeyframe, h') /\ spool_inv limits s' seqs' h')
    (fun s' e => next_sequence s <= next_sequence s' <= next_sequence s + 1 /\ exists seqs' h',
       admit_packet limits p h = (NoKeyframe, {| sealed := sealed h'; open_group := [] |}) /\ spool_inv limits s' seqs' h').
Proof.
  intros Hl Hinv Hp Hlater Hn. unfold process_packet, admit_packet. apply runs_gets_bind.
  eapply runs_bind; [by apply (rotate_spec limits s seqs h p)|]. cbn beta. intros s1 [] [Hn1 [seqs1 Hinv1]].
  set (h1 := if starts_group p (open_group h) then seal limits h else h) in *.
  assert (Hlater1 : Forall (fun q => earlier q p) (recorded h1)).
  { unfold h1. destruct (starts_group p (open_group h)); [|done]. eapply Forall_suffix; [exact Hlater|apply seal_within]. }
  apply runs_gets_bind.
  assert (Htest : match current s1 with None => negb (keyframe p) | Some _ => false end
      = (length (open_group h1) =? 0)%nat && negb (keyframe p)).
  { pose proof (si_writer _ _ _ _ Hinv1) as Hw. destruct (current s1); [|by rewrite Hw].
    pose proof (group_some _ (wh_group _ _ _ _ _ Hw)). by destruct (open_group h1). }
  rewrite Htest. case_if_as Eawait.
  { apply runs_gets_bind, runs_modify_bind, runs_ret. split; [cbn; lia|]. exists seqs1, h1. split; [done|].
    destruct Hinv1. by constructor. }
  eapply runs_bind; [apply (ensure_writer_spec limits s1 seqs1 h1 p)|]; [done| |lia|].
  { apply sorted_snoc; [apply Hinv1|done]. }
  cbn beta. intros s2 [] (Hn2 & w & Hr). apply runs_gets_bind.
  apply runs_bind with (P := fun s3 w' => s3 = s2 /\ w' = w); [by rewrite (re_current _ _ _ _ _ _ Hr)|]. intros s3 w' [-> ->].
  assert (Helapsed : sat_sub (sat_add U64_MAX (timestamp_ns p) (duration_ns p)) (writer_start_ns w)
      = packet_end p - group_start (open_group h1 ++ [p])).
  { pose proof Hp as Hp'. unfold packet_ok in Hp'. rewrite (re_start _ _ _ _ _ _ Hr). rewrite sat_add_exact by lia. unfold packet_end.
    apply sat_sub_exact. destruct (open_group h1) as [|q g] eqn:Eg; cbn; [lia|].
    apply Forall_app in Hlater1 as [_ Hq]. rewrite Eg in Hq. apply Forall_cons in Hq as [Hq _]. unfold earlier in Hq. lia. }
  assert (Hbytes : sat_add U64_MAX (writer_bytes w) (packet_record_bytes p) = group_bytes (open_group h1 ++ [p])).
  { rewrite (wo_count _ _ _ _ _ (re_writer _ _ _ _ _ _ Hr)), group_bytes_snoc. apply sat_add_exact.
    pose proof (packet_bounds p Hp). unfold packet_record_bytes. destruct (open_group h1) as [|q g] eqn:Eg.
    - change (group_bytes []) with 8. unfold U64_MAX. lia.
    - destruct (re_group _ _ _ _ _ _ Hr) as [[_ _ _ _ Hsz] _]; [by rewrite Eg|]. rewrite Eg in Hsz. unfold U64_MAX, MAX_SEGMENT_BYTES in *. lia. }
  cbv zeta. rewrite Helapsed, Hbytes. case_if_as Elong.
  - right. split; [lia|]. exists seqs1, h1. split; [done|]. destruct Hr as [H1 H2 H3 H4 H5 H6 H7 H8].
    destruct (open_group h1) as [|q g] eqn:Eg.
    { pose proof (packet_bounds p Hp). unfold packet_ok, MAX_PACKET_DURATION_NS, NANOSECONDS_PER_SECOND in Hp.
      cbn [app] in Elong. change [p] with ([] ++ [p]) in Elong at 2. rewrite group_bytes_snoc in Elong.
      change (group_bytes []) with 8 in Elong. unfold group_start, packet_end, packet_record_bytes, MAX_SEGMENT_NS, MAX_SEGMENT_BYTES in Elong.
      cbn [head] in Elong. rewrite !(proj2 (Z.ltb_ge _ _)) in Elong by lia. done. }
    destruct H8 as [Hg Hen]; [done|]. constructor; [done..|apply Hinv1|]. rewrite H5, Eg. constructor; [done|done| |done].
    by rewrite H7.
  - apply orb_false_iff in Elong as [_ Esize%Z.ltb_ge]. eapply runs_weaken; [apply (write_packet_spec limits s2 seqs1 h1 p w (fun _ _ => False))| |by intros]; [exact Hr|exact Hp| |exact Esize|].
    + destruct (open_group h1) as [|q g] eqn:Eg; cbn; [cbn in Eawait; by destruct (keyframe p)|].
      destruct (re_group _ _ _ _ _ _ Hr) as [[_ _ _ Hk _] _]; [by rewrite Eg|]. by rewrite Eg in Hk.
    + cbn beta. intros s' b (-> & Hn' & Hinv'). split; [lia|]. by exists seqs1, {| sealed := sealed h1; open_group := open_group h1 ++ [p] |}.
Qed.

(** * Snapshots *)
(** The newest groups that end after the cutoff of a requested duration. *)
Definition covering (requested : ReplayDuration) (groups : list (list packet)) : list (list packet) :=
  match last groups with
  | None => []
  | Some newest =>
      let cutoff := sat_sub (group_end newest) (duration_seconds requested * NANOSECONDS_PER_SECOND) in
      reverse (take_while (fun g => cutoff <? group_end g) (reverse groups))
  end.
Definition covered_ns (groups : list (list packet)) : Z :=
  match head groups, last groups with
  | Some oldest, Some newest => sat_sub (group_end newest) (group_start oldest)
  | _, _ => 0
  end.
(** Pinned files of groups: what a snapshot hands to the reader. *)
Definition pinned (files : list (ReplaySpoolSegment * bytes)) (groups : list (list packet)) : Prop :=
  Forall2 (fun f g => f.2 = file_of g /\ segment_bytes f.1 = group_bytes g /\ group_ok g) files groups.

Lemma take_while_prefix {A} (test : A -> bool) l : prefix (take_while test l) l.
Proof. induction l as [|x l IH]; cbn; [done|]. case_if_as E; [by apply prefix_cons|apply prefix_nil]. Qed.

Lemma reverse_take_while_suffix {A} (test : A -> bool) l : suffix (reverse (take_while test (reverse l))) l.
Proof.
  destruct (take_while_prefix test (reverse l)) as [k Hk]. exists (reverse k).
  rewrite <- reverse_app, <- Hk. by rewrite reverse_involutive.
Qed.

Lemma covering_suffix requested groups : suffix (covering requested groups) groups.
Proof. unfold covering. destruct (last groups); [apply reverse_take_while_suffix|apply suffix_nil]. Qed.

Lemma take_while_zip {A B C} (f : A -> B -> C) (t : C -> bool) (u : B -> bool) l k :
  (forall a b, t (f a b) = u b) -> length l = length k ->
  exists n, take_while t (zip_with f l k) = zip_with f (take n l) (take n k) /\ take_while u k = take n k.
Proof.
  intros H. revert k. induction l as [|a l IH]; intros [|b k] Hlen; try done; [by exists 0%nat|].
  injection Hlen as Hlen. cbn [zip_with take_while]. rewrite H. destruct (u b); [|by exists 0%nat].
  destruct (IH k Hlen) as (n & -> & ->). by exists (S n).
Qed.

Lemma reverse_zip_with {A B C} (f : A -> B -> C) l k :
  length l = length k -> reverse (zip_with f l k) = zip_with f (reverse l) (reverse k).
Proof.
  revert k. induction l as [|a l IH]; intros [|b k] Hlen; try done. injection Hlen as Hlen.
  cbn [zip_with]. rewrite !reverse_cons, IH, zip_with_app by (rewrite ?length_reverse; done). done.
Qed.

Lemma reverse_take_reverse {A} n (l : list A) : reverse (take n (reverse l)) = drop (length l - n) l.
Proof. by rewrite take_reverse, reverse_involutive. Qed.

(** The chosen segments are those of the covering groups. *)
Lemma plan_chosen i seqs groups requested newest :
  index_ok i seqs groups -> length seqs = length groups -> last (segments i) = Some newest ->
  let cutoff := sat_sub (end_timestamp_ns newest) (duration_seconds requested * NANOSECONDS_PER_SECOND) in
  exists n, reverse (take_while (fun s => cutoff <? end_timestamp_ns s) (reverse (segments i)))
      = zip_with segment_of (drop n seqs) (drop n groups)
    /\ covering requested groups = drop n groups
    /\ exists g, last groups = Some g /\ end_timestamp_ns newest = group_end g.
Proof.
  intros [Hseg _] Hlen Hlast. cbv zeta. rewrite Hseg in *. destruct (last_zip_with _ _ _ _ Hlen Hlast) as (q & g & _ & Hg & ->).
  unfold covering. rewrite Hg. cbn [segment_of end_timestamp_ns]. rewrite reverse_zip_with by done.
  destruct (take_while_zip segment_of
    (fun s => sat_sub (group_end g) (duration_seconds requested * NANOSECONDS_PER_SECOND) <? end_timestamp_ns s)
    (fun g' => sat_sub (group_end g) (duration_seconds requested * NANOSECONDS_PER_SECOND) <? group_end g')
    (reverse seqs) (reverse groups)) as (n & -> & ->); [done|by rewrite !length_reverse|].
  exists (length groups - n)%nat. splits; [|by rewrite reverse_take_reverse|by exists g].
  rewrite reverse_zip_with by (rewrite !length_take, !length_reverse; lia). by rewrite !reverse_take_reverse, Hlen.
Qed.

Lemma plan_snapshot_spec i seqs groups requested :
  index_ok i seqs groups -> length seqs = length groups -> Forall group_ok groups ->
  match plan_snapshot i requested with
  | Ok plan => exists n, plan_segments plan = zip_with segment_of (drop n seqs) (drop n groups)
      /\ covering requested groups = drop n groups
      /\ available_duration_ns plan = covered_ns (drop n groups) /\ MIN_SAVABLE_HISTORY_NS <= covered_ns (drop n groups)
  | Err e => groups = [] /\ error_kind e = General
      \/ covered_ns (covering requested groups) < MIN_SAVABLE_HISTORY_NS /\ error_kind e = InsufficientHistory
  | Panic => False
  end.
Proof.
  intros Hi Hlen Hgood. unfold plan_snapshot. destruct (last (segments i)) as [newest|] eqn:E; cbn [ok_or mbind outcome_bind].
  2: { left. split; [|done]. apply last_None in E. destruct Hi as [Hseg _]. rewrite Hseg in E. by destruct seqs, groups. }
  cbv zeta. destruct (plan_chosen i seqs groups requested newest Hi Hlen E) as (n & -> & Hcov & g & Hg & ->).
  assert (Havail : match head (zip_with segment_of (drop n seqs) (drop n groups)) with
     | Some first => sat_sub (group_end g) (start_timestamp_ns first) | None => 0 end = covered_ns (drop n groups)).
  { unfold covered_ns. destruct (drop n groups) as [|g0 rest] eqn:Ed; [by rewrite zip_with_nil_r|].
    assert (last (g0 :: rest) = Some g) as ->.
    { rewrite <- (take_drop n groups) in Hg. rewrite last_app, Ed in Hg.
      destruct (last (g0 :: rest)) eqn:El; [done|]. by apply last_None in El. }
    destruct (drop n seqs) as [|q0 qs] eqn:Eq.
    { apply (f_equal length) in Ed, Eq. rewrite length_drop in Ed. rewrite length_drop in Eq. cbn [length] in *. lia. }
    done. }
  rewrite Havail. case_if_as Eshort; [right; by rewrite Hcov; apply Z.ltb_lt in Eshort|].
  apply Z.ltb_ge in Eshort. by exists n.
Qed.

Lemma spool_inv_disk limits s s' seqs h :
  s' = with_disk (disk s') s -> entries (disk s') = entries (disk s) ->
  spool_inv limits s seqs h -> spool_inv limits s' seqs h.
Proof. intros -> E [H1 H2 H3 H4 H5]. cbn in E. constructor; cbn; by rewrite ?E. Qed.

Lemma open_read_spec d name c :
  entries d !! name = Some (Regular c) ->
  ensures (open_read name) d (fun d' a => entries d' = entries d /\ a = c).
Proof. intros H. apply ensures_call. rewrite H. by intros d' ->. Qed.

Lemma open_segments_spec s seqs groups R :
  Forall2 (fun q g => entries (disk s) !! name_of q g = Some (Regular (file_of g))) seqs groups ->
  Forall group_ok groups ->
  runs (open_segments (zip_with segment_of seqs groups)) s
    (fun s' files => s' = with_disk (disk s') s /\ entries (disk s') = entries (disk s) /\ pinned files groups) R.
Proof.
  intros Hf. revert s Hf. revert groups. induction seqs as [|q seqs IH]; intros groups s Hf Hg.
  { apply Forall2_nil_inv_l in Hf as ->. apply runs_ret. destruct s. by repeat constructor. }
  apply Forall2_cons_inv_l in Hf as (g & groups' & Hq & Hf & ->). apply Forall_cons in Hg as [Hg0 Hg]. cbn [zip_with open_segments].
  eapply (runs_bind _ _ _ (fun s' file => s' = with_disk (disk s') s /\ entries (disk s') = entries (disk s) /\ file = file_of g)).
  - unfold open_snapshot_segment. cbn [segment_of path segment_bytes]. apply runs_disk_bind.
    eapply ensures_weaken; [by apply metadata_spec|]. cbn beta. intros d1 a [E1 ->]. cbn [is_file len negb].
    fold (group_bytes g). rewrite Z.eqb_refl. cbn [negb orb]. apply runs_disk_bind.
    eapply ensures_weaken; [apply (open_read_spec _ _ (file_of g)); cbn; by rewrite E1|]. cbn beta. intros d2 a [E2 ->].
    apply runs_disk_bind. eapply ensures_weaken; [apply sync_spec|]. cbn beta. intros d3 [] E3.
    fold (group_bytes g). rewrite Z.eqb_refl. apply runs_ret. cbn in *. by rewrite E3, E2, E1.
  - intros s1 file (E1 & Hm1 & ->). eapply runs_bind; [apply (IH groups' s1); [by rewrite Hm1|done]|]. cbn beta.
    intros s2 files (E2 & Hm2 & Hp). apply runs_ret. splits.
    + rewrite E2, E1. done.
    + by rewrite Hm2.
    + by constructor.
Qed.

(** A snapshot seals the open group and pins the groups that cover the requested
    duration. *)
Lemma pin_snapshot_spec limits s seqs h requested :
  limits_ok limits -> spool_inv limits s seqs h ->
  let groups := sealed (seal limits h) in
  runs (pin_snapshot limits requested) s
    (fun s' files => next_sequence s' = next_sequence s /\ (exists seqs', spool_inv limits s' seqs' (seal limits h))
       /\ pinned files (covering requested groups) /\ MIN_SAVABLE_HISTORY_NS <= covered_ns (covering requested groups))
    (fun s' e => next_sequence s' = next_sequence s /\ (exists seqs', spool_inv limits s' seqs' (seal limits h))
       /\ (groups = [] /\ error_kind e = General
           \/ covered_ns (covering requested groups) < MIN_SAVABLE_HISTORY_NS /\ error_kind e = InsufficientHistory)).
Proof.
  intros Hl Hinv. cbv zeta. unfold pin_snapshot.
  apply runs_bind with (P := fun s1 c => s1 = with_current None s /\ c = current s); [done|]. intros s0 c [-> ->].
  apply runs_bind with (P := fun s1 _ => next_sequence s1 = next_sequence s /\ exists seqs', spool_inv limits s1 seqs' (seal limits h)).
  { pose proof Hinv as [Hs Hi Hlim Hsort Hw]. pose proof (seal_sorted limits h Hsort) as Hsort'. destruct (current s) as [w|] eqn:Ew.
    - eapply runs_weaken; [apply (commit_segment_spec limits _ w seqs (sealed h) (open_group h) (fun _ _ => False))| |by intros]; [done..|].
      intros s' [] (Hc & Hn & seqs' & Hsuf & Hs' & Hi'). split; [done|]. exists seqs'.
      pose proof (group_some _ (wh_group _ _ _ _ _ Hw)) as Hne. unfold seal in *. destruct (open_group h) as [|q g]; [done|].
      constructor; cbn [sealed open_group]; [by rewrite Hn|done|by apply trim_within|done|by rewrite Hc].
    - apply runs_ret. split; [done|]. exists seqs. unfold seal. rewrite Hw. by constructor. }
  intros s1 [] (Hn1 & seqs1 & Hinv1). apply runs_gets_bind. pose proof Hinv1 as [Hs Hi _ _ _].
  pose proof (plan_snapshot_spec (index s1) seqs1 (sealed (seal limits h)) requested Hi
    (Forall2_length _ _ _ (so_files _ _ _ _ Hs)) (so_groups _ _ _ _ Hs)) as Hplan.
  destruct (plan_snapshot (index s1) requested) as [plan|e|]; [|right; split; [done|split; [by exists seqs1|exact Hplan]]|done].
  destruct Hplan as (n & Hsegs & Hcov & _ & Hmin).
  apply runs_bind with (P := fun s2 a => s2 = s1 /\ a = plan); [done|]. intros s2 a [-> ->]. rewrite Hsegs, Hcov.
  eapply runs_weaken; [apply (open_segments_spec s1 (drop n seqs1) (drop n (sealed (seal limits h))) (fun _ _ => False))| |by intros].
  - apply Forall2_drop, Hs.
  - apply Forall_drop, Hs.
  - intros s' files (E & Hm & Hp). split; [by rewrite E|split; [|done]]. exists seqs1. by eapply spool_inv_disk.
Qed.
