(* ===== verification/SpoolTheorems.v ===== *)
(** The spool's worker refines an abstract history of packets, and what a later
    run recovers from the directory. *)
From stdpp Require Import gmap strings sorting.
From S2P Require Import Prelude Bytes Text Arith Profiles Replay ReplayRing Spool SpoolWorker SpoolFacts.
Local Open Scope Z_scope.

(** * The history of a run *)
Definition history_step (limits : SpoolLimits) (c : SpoolCommand) (h : History) : History :=
  match c with
  | PacketCommand p _ => (admit_packet limits p h).2
  | PrepareSnapshot _ false => seal limits h
  | ResetEpoch => {| sealed := []; open_group := [] |}
  | PrepareSnapshot _ true | ShutdownCommand => h
  end.
Definition history_run (limits : SpoolLimits) (commands : list SpoolCommand) (h : History) : History :=
  foldl (fun h c => history_step limits c h) h commands.
Definition packets_of (commands : list SpoolCommand) : list packet :=
  omap (fun c => match c with PacketCommand p _ => Some p | _ => None end) commands.
(** Valid packets, each later than the ones before it. *)
Definition in_order (h : History) (commands : list SpoolCommand) : Prop :=
  Forall packet_ok (packets_of commands) /\ StronglySorted earlier (packets_of commands)
  /\ forall q p, q ∈ recorded h -> p ∈ packets_of commands -> earlier q p.

(** The answer to a command when the history is [h]. *)
Definition answer_ok (limits : SpoolLimits) (h : History) (c : SpoolCommand) (r : option snapshot_response) : Prop :=
  match c with
  | PrepareSnapshot requested false =>
      let chosen := covering requested (sealed (seal limits h)) in
      match r with
      | Some (Ok files) => pinned files chosen /\ MIN_SAVABLE_HISTORY_NS <= covered_ns chosen
      | Some (Err e) => is_storage_failure e = true \/ sealed (seal limits h) = []
          \/ covered_ns chosen < MIN_SAVABLE_HISTORY_NS /\ error_kind e = InsufficientHistory
      | _ => False
      end
  | _ => r = None
  end.
Fixpoint answered (limits : SpoolLimits) (h : History) (commands : list SpoolCommand)
    (rs : list (option snapshot_response)) : Prop :=
  match commands, rs with
  | [], [] => True
  | c :: commands, r :: rs => answer_ok limits h c r /\ answered limits (history_step limits c h) commands rs
  | _, _ => False
  end.

(** * Losing the open segment *)
Lemma discard_current_spec limits s seqs h :
  spool_inv limits s seqs h ->
  spool_inv limits (discard_current s) seqs {| sealed := sealed h; open_group := [] |}
  /\ next_sequence (discard_current s) = next_sequence s.
Proof.
  intros [Hs Hi Hlim Hsort Hw]. unfold discard_current.
  assert (Hsort' : StronglySorted earlier (recorded {| sealed := sealed h; open_group := [] |})).
  { unfold recorded in *. cbn. rewrite app_nil_r. by eapply StronglySorted_app_1_l. }
  destruct (current s) as [w|] eqn:Ew; [|split; [|done]; by constructor; rewrite ?Ew].
  pose proof (wo_path _ _ _ _ _ (wh_writer _ _ _ _ _ Hw)) as Hp.
  assert (Hd : exists d r, try_disk (remove_file (temporary_path w)) (with_current None s) = (with_disk d (with_current None s), r)
      /\ (entries d = entries (disk s) \/ entries d = delete (temporary_path w) (entries (disk s)))).
  { unfold try_disk, remove_file, system_call. cbn [disk with_current].
    destruct (faults (disk s) (calls (disk s))); [eexists _, _; split; [done|by left]|].
    destruct (entries (disk s) !! temporary_path w) as [[]|]; eexists _, _; (split; [done|]); (by left) || by right. }
  destruct Hd as (d & r & -> & Hd). cbn [fst]. split; [|done]. constructor; cbn; [|done..].
  destruct Hd as [-> | ->]; [done|]. rewrite Hp. by apply store_delete_temporary.
Qed.

(** * Clearing an epoch *)
Lemma clear_loop_spec s seqs groups removed R :
  store_ok (entries (disk s)) (next_sequence s) seqs groups -> segments (index s) = zip_with segment_of seqs groups ->
  runs (clear_loop (zip_with segment_of seqs groups) removed) s
    (fun s' _ => current s' = current s /\ next_sequence s' = next_sequence s
       /\ segments (index s') = [] /\ store_ok (entries (disk s')) (next_sequence s) [] []) R.
Proof.
  revert s seqs removed. induction groups as [|g groups IH]; intros s seqs removed Hs Hi;
    pose proof (Forall2_length _ _ _ (so_files _ _ _ _ Hs)) as Hlen; destruct seqs as [|q seqs]; try done.
  cbn [zip_with clear_loop]. apply runs_gets_bind, runs_modify_bind, runs_disk_bind.
  eapply ensures_weaken; [apply remove_file_spec|]. cbn beta. intros d _ Hd.
  eapply runs_weaken; [apply (IH _ seqs); [cbn; rewrite Hd; by apply store_evict|done]|by intros s' a H|by intros s' e H].
Qed.

Lemma clear_completed_spec limits s seqs h R :
  limits_ok limits -> spool_inv limits s seqs h -> current s = None ->
  runs clear_completed_segments s
    (fun s' _ => next_sequence s' = next_sequence s /\ spool_inv limits s' [] {| sealed := []; open_group := [] |}) R.
Proof.
  intros Hl [Hs [Hseg _] _ _ _] Hc. unfold clear_completed_segments. apply runs_gets_bind. rewrite Hseg.
  eapply runs_bind; [by apply (clear_loop_spec s seqs (sealed h))|]. cbn beta. intros s1 removed (H1 & H2 & H3 & H4).
  apply runs_gets_bind, runs_modify_bind. rewrite H3.
  set (s2 := with_index _ s1).
  assert (Hinv : spool_inv limits s2 [] {| sealed := []; open_group := [] |}).
  { constructor; cbn; [by rewrite H2|done|apply (trim_within limits []), Hl|constructor|by rewrite H1, Hc]. }
  destruct removed.
  - apply runs_on_disk. eapply ensures_weaken; [apply sync_spec|]. cbn beta. intros d [] Hd. split; [done|]. by eapply spool_inv_disk.
  - apply runs_ret. by split.
Qed.

(** * One command *)
Lemma admit_recorded limits p h : forall q, q ∈ recorded (admit_packet limits p h).2 -> q ∈ recorded h \/ q = p.
Proof.
  intros q. unfold admit_packet. set (h1 := if starts_group p (open_group h) then seal limits h else h).
  assert (Hsub : forall q, q ∈ recorded h1 -> q ∈ recorded h).
  { intros x Hx. unfold h1 in Hx. destruct (starts_group p (open_group h)); [|done].
    destruct (seal_within limits h) as [k ->]. apply elem_of_app. by right. }
  unfold recorded in *. cbv zeta. case_if_as E1; [cbn; auto|]. case_if_as E2; cbn [snd sealed open_group].
  - rewrite app_nil_r. intros H. left. apply Hsub, elem_of_app. by left.
  - rewrite app_assoc. intros [H|H%list_elem_of_singleton]%elem_of_app; [left; by apply Hsub|by right].
Qed.

Lemma step_recorded limits c h q :
  q ∈ recorded (history_step limits c h) -> q ∈ recorded h \/ q ∈ packets_of [c].
Proof.
  destruct c as [p slow|d [|]| |]; cbn.
  - intros [H| ->]%admit_recorded; [by left|right; by left].
  - by left.
  - intros H. left. destruct (seal_within limits h) as [k ->]. apply elem_of_app. by right.
  - unfold recorded. cbn. by intros H%elem_of_nil.
  - by left.
Qed.

(** What one iteration of the worker does: it follows the history, or it stops
    with the phase Failed. *)
Definition step_ok (limits : SpoolLimits) (w : Worker) (h : History) (c : SpoolCommand)
    (o : Worker * bool * option snapshot_response) : Prop :=
  let '(w', continues, r) := o in
  answer_ok limits h c r
  /\ (continues = false /\ shared_phase (shared w') = SpoolFailed
      \/ (continues = true <-> c <> ShutdownCommand)
         /\ shared_phase (shared w') = shared_phase (shared w)
         /\ next_sequence (spool w') <= next_sequence (spool w) + 1
         /\ exists seqs, spool_inv limits (spool w') seqs (history_step limits c h)).

Lemma packet_command_spec limits p slow w seqs h :
  limits_ok limits -> spool_inv limits (spool w) seqs h -> packet_ok p ->
  Forall (fun q => earlier q p) (recorded h) -> next_sequence (spool w) < U64_MAX ->
  step_ok limits w h (PacketCommand p slow) (worker_step limits (PacketCommand p slow) w).
Proof.
  intros Hl Hinv Hp Hlater Hn. pose proof (process_packet_spec limits (spool w) seqs h p Hl Hinv Hp Hlater Hn) as H.
  unfold runs in H. unfold worker_step, packet_command. destruct (process_packet limits p (spool w)) as [s' [b|e|]]; [| |done].
  - destruct H as ([_ Hle] & seqs' & h' & Ha & Hinv'). unfold step_ok. cbn [publish spool shared history_step].
    rewrite Ha. split; [done|right]. splits; [done|..].
    + destruct b; [|done]. by destruct slow.
    + done.
    + by exists seqs'.
  - destruct (is_storage_failure e) eqn:Ee; [by split; [done|left]|]. destruct H as [H|([_ Hle] & seqs' & h' & Ha & Hinv')]; [done|].
    apply discard_current_spec in Hinv' as [Hinv' Hn']. unfold step_ok. cbn [spool shared history_step]. rewrite Ha.
    split; [done|right]. splits; [done|done|by rewrite Hn'|by exists seqs'].
Qed.

Lemma worker_step_spec limits c w seqs h :
  limits_ok limits -> spool_inv limits (spool w) seqs h -> Forall packet_ok (packets_of [c]) ->
  (forall q p, q ∈ recorded h -> p ∈ packets_of [c] -> earlier q p) -> next_sequence (spool w) < U64_MAX ->
  step_ok limits w h c (worker_step limits c w).
Proof.
  intros Hl Hinv Hp Hlater Hn. destruct c as [p slow|requested [|]| |].
  - cbn in Hp. apply Forall_cons in Hp as [Hp _]. eapply packet_command_spec; [done..| |done].
    apply Forall_forall. intros q Hq. apply Hlater; [done|by left].
  - split; [done|right]. splits; [done|done|cbn; lia|by exists seqs].
  - pose proof (pin_snapshot_spec limits (spool w) seqs h requested Hl Hinv) as H. cbv zeta in H. unfold runs in H.
    unfold worker_step, snapshot_command. destruct (pin_snapshot limits requested (spool w)) as [s' [files|e|]]; [| |done].
    + destruct H as (Hle & [seqs' Hinv'] & Hfiles & Hmin). split; [done|right]. splits; [done|done|cbn; lia|by exists seqs'].
    + destruct (is_storage_failure e) eqn:Ee; [by split; [left|left]|]. destruct H as [H|(Hle & [seqs' Hinv'] & He)]; [done|].
      split; [destruct He as [[He _]|He]; right; [by left|by right]|right]. splits; [done|done|cbn; lia|by exists seqs'].
  - unfold worker_step, reset_command. destruct (discard_current_spec limits (spool w) seqs h Hinv) as [Hd Hn'].
    assert (Hc : current (discard_current (spool w)) = None).
    { unfold discard_current, try_disk. destruct (current (spool w)) eqn:E; [|done]. by destruct (remove_file _ _). }
    pose proof (clear_completed_spec limits _ seqs _ (fun _ _ => False) Hl Hd Hc) as H. unfold runs in H.
    destruct (clear_completed_segments _) as [s' [[]|e|]]; [| |done].
    + destruct H as [Hle Hinv']. split; [done|right]. splits; [done|done|cbn; lia|by exists []].
    + by split; [done|left].
  - split; [done|right]. splits; [done|done|cbn; lia|by exists seqs].
Qed.

Lemma in_order_cons h c commands limits :
  in_order h (c :: commands) ->
  Forall packet_ok (packets_of [c]) /\ (forall q p, q ∈ recorded h -> p ∈ packets_of [c] -> earlier q p)
  /\ in_order (history_step limits c h) commands.
Proof.
  assert (E : packets_of (c :: commands) = packets_of [c] ++ packets_of commands) by (destruct c; done).
  unfold in_order. rewrite E. intros (Hok & Hsort & Hlater). apply Forall_app in Hok as [Hok1 Hok2]. splits.
  - done.
  - intros q p Hq Hp. apply Hlater; [done|]. apply elem_of_app. by left.
  - done.
  - by eapply StronglySorted_app_1_r.
  - intros q p Hq Hp. apply step_recorded in Hq as [Hq|Hq].
    + apply Hlater; [done|]. apply elem_of_app. by right.
    + by eapply StronglySorted_app_1_elem_of.
Qed.

(** * A run *)
Lemma worker_loop_spec limits w seqs h commands w' rest rs :
  limits_ok limits -> spool_inv limits (spool w) seqs h ->
  shared_phase (shared w) = SpoolRunning -> in_order h commands ->
  next_sequence (spool w) + zlen commands <= U64_MAX -> worker_loop limits commands w = (w', rest, rs) ->
  exists handled, commands = handled ++ rest /\ answered limits h handled rs
    /\ (shared_phase (shared w') = SpoolFailed
        \/ shared_phase (shared w') = SpoolRunning
           /\ (rest = [] \/ last handled = Some ShutdownCommand)
           /\ exists seqs', spool_inv limits (spool w') seqs' (history_run limits handled h)).
Proof.
  intros Hlimits. revert w seqs h w' rest rs.
  induction commands as [|c commands IH]; intros w seqs h w' rest rs Hinv Hrunning Horder Hroom Hrun.
  { injection Hrun as <- <- <-. exists []. split; [done|split; [done|right]]. split; [done|split; [by left|by exists seqs]]. }
  cbn [worker_loop] in Hrun. rewrite zlen_cons in Hroom. pose proof (zlen_nonneg commands).
  destruct (in_order_cons _ _ _ limits Horder) as (Hp & Hlater & Horder').
  pose proof (worker_step_spec limits c w seqs h Hlimits Hinv Hp Hlater ltac:(lia)) as Hstep.
  destruct (worker_step limits c w) as [[w1 continues] r]. destruct Hstep as [Hans Hstep].
  destruct continues.
  - destruct Hstep as [[? _]|(Hc & Hph & Hn & seqs1 & Hinv1)]; [done|].
    destruct (worker_loop limits commands w1) as [[w2 rest2] rs2] eqn:E. injection Hrun as <- <- <-.
    destruct (IH w1 seqs1 _ _ _ _ Hinv1 ltac:(by rewrite Hph) Horder' ltac:(lia) E) as (handled & -> & Hanswered & Hend).
    exists (c :: handled). split; [done|split; [done|]]. destruct Hend as [?|(H1 & H2 & H3)]; [by left|right].
    split; [done|split; [|done]]. destruct H2 as [?|H2]; [by left|right]. destruct handled; [done|]. by rewrite last_cons_cons.
  - injection Hrun as <- <- <-. exists [c]. split; [done|split; [done|]].
    destruct Hstep as [[_ ?]|(Hc & Hph & Hn & Hinv1)]; [by left|right]. split; [by rewrite Hph|split; [|done]].
    right. destruct c; try done; destruct Hc as [_ Hc]; by discriminate Hc.
Qed.

(** A directory with nothing of the spool's in it. *)
Definition fresh_spool (m : gmap bytes node) (faults : nat -> bool) : Spool :=
  {| disk := {| entries := m; calls := 0; faults := faults |}; index := index_default; current := None; next_sequence := 1 |}.
Lemma fresh_spool_inv limits m faults :
  limits_ok limits -> map_Forall (fun name _ => foreign name) m ->
  spool_inv limits (fresh_spool m faults) [] {| sealed := []; open_group := [] |}.
Proof.
  intros Hl Hm. constructor; [|done|exact (trim_within limits [] Hl)|constructor|done]. constructor; [by constructor..|cbn; unfold U64_MAX; lia|].
  eapply map_Forall_impl; [exact Hm|]. intros name n H. by right; right.
Qed.

Lemma limits_new_ok d q r : limits_ok (limits_new d q r).
Proof. destruct d, q, r; vm_compute; split; discriminate. Qed.

(** * Theorems *)
(** C17: the worker refines the abstract history, whatever system calls fail.
    Given valid packets in time order, each command it handles either takes the
    directory, the index and the open segment from one history to the next (the
    packets on disk, byte for byte, are the history's, and the limits hold), or
    ends the worker with the phase Failed; a snapshot answers with the pinned
    files of the groups that cover the requested duration, and is refused only
    for too little history or a storage failure. *)
Theorem spool_refines_history limits w seqs h commands w' rest rs
    (Hlimits : limits_ok limits) (Hinv : spool_inv limits (spool w) seqs h)
    (Hrunning : shared_phase (shared w) = SpoolRunning) (Horder : in_order h commands)
    (Hroom : next_sequence (spool w) + zlen commands <= U64_MAX)
    (Hrun : worker_loop limits commands w = (w', rest, rs)) :
  exists handled, commands = handled ++ rest /\ answered limits h handled rs
    /\ (shared_phase (shared w') = SpoolFailed
        \/ shared_phase (shared w') = SpoolRunning
           /\ (rest = [] \/ last handled = Some ShutdownCommand)
           /\ exists seqs', spool_inv limits (spool w') seqs' (history_run limits handled h)).
Proof. by eapply worker_loop_spec. Qed.

(** Two seconds of history in an owned directory, every system call succeeding. *)
Definition demo_limits : SpoolLimits := limits_new RETAINED_DURATION Efficient Fps60.
Definition demo_packet (second : Z) (key : bool) : packet :=
  {| timestamp_ns := second * 1000000000; duration_ns := 1000000000; keyframe := key; packet_bytes := [7; second] |}.
Definition demo_worker : Worker := {|
  spool := fresh_spool {[MARKER := Regular MARKER_CONTENTS]} (fun _ => false);
  shared := shared_new index_default |}.
Definition demo_commands : list SpoolCommand :=
  [PacketCommand (demo_packet 0 false) false; PacketCommand (demo_packet 1 true) false; PacketCommand (demo_packet 2 false) true].
Definition demo_history : History := {| sealed := []; open_group := [demo_packet 1 true; demo_packet 2 false] |}.

Lemma demo_inv : spool_inv demo_limits (spool demo_worker) [] {| sealed := []; open_group := [] |}.
Proof.
  apply fresh_spool_inv; [apply limits_new_ok|]. apply map_Forall_singleton. by split; vm_compute.
Qed.
Lemma demo_order : in_order {| sealed := []; open_group := [] |} demo_commands.
Proof.
  split; [|split; [|intros q p H; by apply elem_of_nil in H]].
  - repeat (constructor; [repeat split; vm_compute; discriminate || reflexivity|]). constructor.
  - repeat (constructor; [|repeat constructor]). constructor.
Qed.
Lemma demo_final : shared_phase (shared (worker_loop demo_limits demo_commands demo_worker).1.1) = SpoolRunning
  /\ (worker_loop demo_limits demo_commands demo_worker).1.2 = [].
Proof. vm_compute. by split. Qed.

Lemma spool_refines_history_witness :
  exists seqs, spool_inv demo_limits (spool (worker_loop demo_limits demo_commands demo_worker).1.1) seqs demo_history.
Proof.
  destruct demo_final as [H1 H2]. destruct (worker_loop demo_limits demo_commands demo_worker) as [[w' rest] rs] eqn:E.
  cbn [fst snd] in *. subst rest.
  destruct (spool_refines_history demo_limits demo_worker [] {| sealed := []; open_group := [] |} demo_commands w' [] rs
    (limits_new_ok _ _ _) demo_inv eq_refl demo_order ltac:(vm_compute; discriminate) E) as (handled & Eh & _ & [Hf|(_ & _ & Hinv)]).
  - rewrite H1 in Hf. discriminate Hf.
  - rewrite app_nil_r in Eh. subst handled.
    replace demo_history with (history_run demo_limits demo_commands {| sealed := []; open_group := [] |}) by (vm_compute; reflexivity).
    exact Hinv.
Defined.
