(* ===== verification/SpoolRecovery.v ===== *)
(** Opening a spool directory left by an earlier run: whatever point it stopped
    at, every sealed group of its history is found again. *)
From stdpp Require Import gmap strings sorting.
From S2P Require Import Prelude Bytes Text Arith Profiles Replay ReplayRing Spool SpoolWorker SpoolFacts SpoolTheorems.
Local Open Scope Z_scope.

(** What a directory entry is to the scan: a segment with its number. *)
Definition found (m : gmap bytes node) (name : bytes) : option (Z * ReplaySpoolSegment) :=
  if negb (utf8_valid name) || has_temporary_name name then None
  else
    match parse_segment_name name, m !! name with
    | Some (q, a, b), Some (Regular c) =>
        Some (q, {| path := name; start_timestamp_ns := a; end_timestamp_ns := b; segment_bytes := zlen c |})
    | _, _ => None
    end.

Definition numbered (seqs : list Z) (groups : list (list packet)) : list (Z * ReplaySpoolSegment) :=
  zip_with (fun q g => (q, segment_of q g)) seqs groups.

Lemma name_of_plain q g : utf8_valid (name_of q g) = true /\ has_temporary_name (name_of q g) = false.
Proof. split; [apply segment_name_utf8|apply segment_not_temporary]. Qed.

Lemma name_of_parses q g : group_ok g -> in_range U64_MAX q -> parse_segment_name (name_of q g) = Some (q, group_start g, group_end g).
Proof. intros (Ha & Hb & _)%group_range Hq. by apply parse_segment_name_format. Qed.

Lemma found_segment m next seqs groups q g :
  store_ok m next seqs groups -> (q, g) ∈ zip seqs groups ->
  found m (name_of q g) = Some (q, segment_of q g) /\ group_ok g /\ in_range U64_MAX q /\ m !! name_of q g = Some (Regular (file_of g)).
Proof.
  intros Hs Hin. apply elem_of_lookup_zip_with in Hin as (i & q' & g' & [= <- <-] & Hq & Hg).
  pose proof (Forall2_lookup_lr _ _ _ _ _ _ (so_files _ _ _ _ Hs) Hq Hg) as Hfile. cbn beta in Hfile.
  pose proof (Forall_lookup_1 _ _ _ _ (so_groups _ _ _ _ Hs) Hg) as Hok.
  pose proof (Forall_lookup_1 _ _ _ _ (so_range _ _ _ _ Hs) Hq) as Hr. cbn beta in Hr. pose proof (so_next _ _ _ _ Hs) as Hn.
  assert (Hq' : in_range U64_MAX q) by (unfold in_range; lia). destruct (name_of_plain q g) as [Hu Ht].
  splits; [|done..]. unfold found. rewrite Hu, Ht, Hfile. cbn [negb orb]. by rewrite name_of_parses.
Qed.

Lemma found_inv m next seqs groups name x :
  store_ok m next seqs groups -> found m name = Some x -> exists q g, (q, g) ∈ zip seqs groups /\ name = name_of q g /\ x = (q, segment_of q g).
Proof.
  intros Hs Hf. pose proof Hf as Hf'. unfold found in Hf'. case_if_in Hf' E; [done|]. apply orb_false_iff in E as [_ Et].
  destruct (parse_segment_name name) as [[[q' a] b]|] eqn:Ep; [|done]. destruct (m !! name) as [[c|]|] eqn:Em; [|done..].
  destruct (so_entries _ _ _ _ Hs name _ Em) as [(q & g & Hin & ->)|[(q & c' & -> & _)|[_ Hp]]].
  - exists q, g. splits; [done..|]. destruct (found_segment m next seqs groups q g Hs Hin) as [Hf2 _]. rewrite Hf2 in Hf. by injection Hf.
  - by rewrite temporary_has_name in Et.
  - by rewrite Hp in Ep.
Qed.

Lemma numbered_elem seqs groups x : x ∈ numbered seqs groups <-> exists q g, (q, g) ∈ zip seqs groups /\ x = (q, segment_of q g).
Proof.
  unfold numbered. rewrite elem_of_lookup_zip_with. setoid_rewrite elem_of_lookup_zip_with. naive_solver.
Qed.

(** The scan finds exactly the sealed groups, in some order. *)
Lemma found_permutation m next seqs groups listing :
  store_ok m next seqs groups -> NoDup listing -> (forall n, n ∈ listing <-> is_Some (m !! n)) ->
  omap (found m) listing ≡ₚ numbered seqs groups.
Proof.
  intros Hs Hnd Hl. apply NoDup_Permutation.
  - clear Hl. induction Hnd as [|name listing Hn _ IH]; [constructor|]. cbn. destruct (found m name) as [x|] eqn:E; [|done].
    constructor; [|done]. intros (name' & Hn' & E')%list_elem_of_omap.
    destruct (found_inv _ _ _ _ _ _ Hs E) as (q & g & _ & -> & ->). destruct (found_inv _ _ _ _ _ _ Hs E') as (q' & g' & _ & -> & Ex).
    apply (f_equal (fun x => path x.2)) in Ex. change (name_of q g = name_of q' g') in Ex. by rewrite Ex in Hn.
  - pose proof (so_seqs _ _ _ _ Hs) as Hseq. clear - Hseq. unfold numbered. revert groups.
    induction Hseq as [|q seqs _ IH Hlt]; intros [|g groups]; cbn; try constructor; [|apply IH].
    intros (i & q' & g' & Ex & Hq & _)%elem_of_lookup_zip_with. apply (f_equal fst) in Ex. cbn [fst] in Ex. subst q'.
    rewrite Forall_forall in Hlt. apply list_elem_of_lookup_2, Hlt in Hq. lia.
  - intros x. rewrite numbered_elem, list_elem_of_omap. split.
    + intros (name & _ & E). destruct (found_inv _ _ _ _ _ _ Hs E) as (q & g & ? & _ & ?). by exists q, g.
    + intros (q & g & Hin & ->). destruct (found_segment m next seqs groups q g Hs Hin) as (Hf & _ & _ & Hm).
      exists (name_of q g). split; [|done]. apply Hl. by eexists.
Qed.

(** * The scan *)
Definition recovers {A} (m : st Disk ReplaySpoolError A) (d : Disk) (Q : Disk -> A -> Prop) : Prop :=
  match m d with
  | (d', Ok a) => Q d' a
  | (_, Err e) => is_storage_failure e = true
  | (_, Panic) => False
  end.

Lemma recovers_bind {A B} (m : st Disk ReplaySpoolError A) (k : A -> st Disk ReplaySpoolError B) d P Q :
  recovers m d P -> (forall d' a, P d' a -> recovers (k a) d' Q) -> recovers (m ≫= k) d Q.
Proof. unfold recovers, mbind, st_bind. intros Hm Hk. destruct (m d) as [d' [a|e|]]; [by apply Hk|done|done]. Qed.

Lemma recovers_call {A} context (m : st Disk DiskError A) d Q : ensures m d Q -> recovers (call context m) d Q.
Proof. unfold recovers, ensures, call. by destruct (m d) as [d' [a|e|]]. Qed.

Lemma recovers_weaken {A} (m : st Disk ReplaySpoolError A) d (P Q : Disk -> A -> Prop) :
  recovers m d P -> (forall d' a, P d' a -> Q d' a) -> recovers m d Q.
Proof. unfold recovers. destruct (m d) as [d' [a|e|]]; auto. Qed.

(** What one entry adds to the index, and what it leaves in the directory. *)
Definition add_found (i : SpoolIndex) (x : option (Z * ReplaySpoolSegment)) (i' : SpoolIndex) : Prop :=
  match x with
  | None => i' = i
  | Some (q, s) => segments i' = segments i ++ [s]
      /\ active_bytes i' = sat_add U64_MAX (active_bytes i) (segment_bytes s) /\ generation i' = Z.max (generation i) q
  end.
Definition swept (name : bytes) (m m' : gmap bytes node) : Prop :=
  m' = if has_temporary_name name then delete name m else m.

Lemma file_magic g : (length (file_of g) <? 8)%nat = false /\ take 8 (file_of g) = SEGMENT_MAGIC.
Proof. split; [|done]. unfold file_of. rewrite length_app. by apply Nat.ltb_ge; cbn; lia. Qed.

Lemma recover_entry_spec m next seqs groups name n d i :
  store_ok m next seqs groups -> m !! name = Some n -> entries d !! name = Some n ->
  recovers (recover_entry i name) d (fun d' i' => add_found i (found m name) i' /\ swept name (entries d) (entries d')).
Proof.
  intros Hs Hm Hd. unfold recover_entry, swept.
  destruct (so_entries _ _ _ _ Hs name n Hm) as [(q & g & Hin & ->)|[(q & c & -> & Hq & ->)|[Ht Hp]]].
  - destruct (found_segment m next seqs groups q g Hs Hin) as (-> & Hg & Hq & Hfile). rewrite Hfile in Hm. injection Hm as <-.
    destruct (group_range g Hg) as (Ha & Hb & Hab). destruct (file_magic g) as [Hlen Hmagic].
    destruct (name_of_plain q g) as [Hu Ht]. rewrite Hu, Ht, name_of_parses by done. cbn [negb].
    eapply recovers_bind; [by apply recovers_call, (metadata_spec _ _ (file_of g))|]. cbn beta. intros d1 a [E1 ->]. cbn [is_file len negb orb].
    rewrite (proj2 (Z.leb_gt _ _)) by done. rewrite (proj2 (Z.ltb_ge _ _)) by apply Hg. cbn [orb].
    eapply recovers_bind; [apply recovers_call, (open_read_spec _ _ (file_of g)); by rewrite E1|]. cbn beta. intros d2 a [E2 ->].
    rewrite Hlen, Hmagic, bytes_eqb_refl. cbn [negb]. unfold recovers. cbn. by rewrite E2, E1.
  - rewrite temporary_name_utf8, temporary_has_name. cbn [negb].
    assert (found m (temporary_name q) = None) as -> by (unfold found; by rewrite temporary_has_name, orb_true_r).
    eapply recovers_bind; [by apply recovers_call, (metadata_spec _ _ c)|]. cbn beta. intros d1 a [E1 ->]. cbn [is_file].
    eapply recovers_bind; [apply recovers_call, remove_file_spec|]. cbn beta. intros d2 [] E2. unfold recovers. cbn. by rewrite E2, E1.
  - assert (found m name = None) as -> by (unfold found; destruct (negb _ || _); [done|]; by rewrite Hp).
    rewrite Ht, Hp. by destruct (negb (utf8_valid name)).
Qed.

Definition max_number (xs : list (Z * ReplaySpoolSegment)) (from : Z) : Z := foldl (fun a x => Z.max a x.1) from xs.

Lemma recover_loop_spec m next seqs groups listing count d i :
  store_ok m next seqs groups -> NoDup listing -> (forall n, n ∈ listing -> is_Some (m !! n) /\ entries d !! n = m !! n) ->
  (count + length listing <= MAX_SEGMENTS + 64)%nat ->
  0 <= active_bytes i -> active_bytes i + sum_Z (map (fun x => segment_bytes x.2) (omap (found m) listing)) <= U64_MAX ->
  recovers (recover_loop count listing i) d (fun d' i' =>
    segments i' = segments i ++ map snd (omap (found m) listing)
    /\ active_bytes i' = active_bytes i + sum_Z (map (fun x => segment_bytes x.2) (omap (found m) listing))
    /\ generation i' = max_number (omap (found m) listing) (generation i)
    /\ forall n, entries d' !! n = if bool_decide (n ∈ listing) && has_temporary_name n then None else entries d !! n).
Proof.
  intros Hs. revert count d i. induction listing as [|name listing IH]; intros count d i Hnd Hl Hc Ha Hsum.
  { unfold recovers. cbn. rewrite app_nil_r. splits; [done|cbn; lia|done|]. intros n. rewrite bool_decide_eq_false_2; [done|]. by intros ?%elem_of_nil. }
  apply NoDup_cons in Hnd as [Hname Hnd]. cbn [recover_loop length] in *. rewrite (proj2 (Nat.ltb_ge _ _)) by lia.
  destruct (Hl name) as [[n Hn] Hd]; [by left|].
  eapply recovers_bind; [apply (recover_entry_spec m next seqs groups name n d i Hs Hn); by rewrite Hd|]. cbn beta.
  intros d1 i1 [Hadd Hsw]. unfold swept in Hsw.
  assert (Hxs : omap (found m) (name :: listing) = match found m name with Some x => x :: omap (found m) listing | None => omap (found m) listing end) by done.
  rewrite Hxs in Hsum |- *.
  assert (Hl1 : forall n, n ∈ listing -> is_Some (m !! n) /\ entries d1 !! n = m !! n).
  { intros n' Hn'. destruct (Hl n') as [Hsome Heq]; [by right|]. split; [done|]. rewrite <- Heq, Hsw. destruct (has_temporary_name name); [|done].
    rewrite lookup_delete_ne; [done|]. by intros ->. }
  assert (Hpos : 0 <= sum_Z (map (fun x => segment_bytes x.2) (omap (found m) listing))).
  { apply sum_Z_nonneg, Forall_map, Forall_forall. intros x (n' & _ & Hf)%list_elem_of_omap.
    destruct (found_inv _ _ _ _ _ _ Hs Hf) as (q & g & _ & _ & ->). apply group_bytes_nonneg. }
  assert (Hi : 0 <= active_bytes i1 /\ active_bytes i1 + sum_Z (map (fun x => segment_bytes x.2) (omap (found m) listing)) <= U64_MAX).
  { destruct (found m name) as [[q s]|] eqn:Ef; cbn [add_found] in Hadd; [|by subst i1].
    destruct Hadd as (_ & -> & _). cbn [map sum_Z foldr snd] in Hsum. fold (sum_Z (map (fun x : Z * ReplaySpoolSegment => segment_bytes x.2) (omap (found m) listing))) in Hsum.
    destruct (found_inv _ _ _ _ _ _ Hs Ef) as (q' & g & _ & _ & Ex). injection Ex as _ ->. cbn [segment_of segment_bytes] in *.
    pose proof (group_bytes_nonneg g). unfold sat_add. lia. }
  eapply recovers_weaken; [apply (IH (S count) d1 i1 Hnd Hl1); [lia|apply Hi|apply Hi]|]. cbn beta.
  intros d' i' (H1 & H2 & H3 & H4). rewrite H1, H2, H3.
  assert (Hent : forall n, entries d' !! n = if bool_decide (n ∈ name :: listing) && has_temporary_name n then None else entries d !! n).
  { intros n'. rewrite H4, Hsw. destruct (decide (n' = name)) as [->|Hne].
    - rewrite bool_decide_eq_false_2, bool_decide_eq_true_2 by (done || by left). cbn.
      destruct (has_temporary_name name); [apply lookup_delete_eq|done].
    - assert (bool_decide (n' ∈ name :: listing) = bool_decide (n' ∈ listing)) as ->.
      { apply bool_decide_ext. rewrite elem_of_cons. naive_solver. }
      destruct (bool_decide (n' ∈ listing) && has_temporary_name n'); [done|].
      destruct (has_temporary_name name); [by apply lookup_delete_ne|done]. }
  destruct (found m name) as [[q s]|]; cbn [add_found] in Hadd; [|by subst i1]. destruct Hadd as (Es & Ea & Eg).
  cbn [map sum_Z foldr snd] in *. fold (sum_Z (map (fun x : Z * ReplaySpoolSegment => segment_bytes x.2) (omap (found m) listing))) in *.
  splits; [by rewrite Es, <- app_assoc| |by rewrite Eg|done].
  rewrite Ea, sat_add_exact by lia. lia.
Qed.

(** * The index *)
Lemma numbered_sorted seqs groups :
  length seqs = length groups -> Forall group_ok groups -> StronglySorted earlier (concat groups) ->
  StronglySorted (fun a b => start_timestamp_ns a < start_timestamp_ns b) (map snd (numbered seqs groups)).
Proof.
  revert groups. induction seqs as [|q seqs IH]; intros [|g groups] Hlen Hok Hs; try done; [constructor|].
  injection Hlen as Hlen. apply Forall_cons in Hok as [Hg Hok]. cbn [concat] in Hs. unfold numbered. cbn [zip_with map snd].
  fold (numbered seqs groups). constructor; [apply IH; [done..|by eapply StronglySorted_app_1_r]|].
  apply Forall_forall. intros s (x & -> & Hx)%list_elem_of_fmap. apply numbered_elem in Hx as (q' & g' & Hin & ->). cbn [snd segment_of start_timestamp_ns].
  apply elem_of_lookup_zip_with in Hin as (j & ? & ? & [= <- <-] & _ & Hg').
  assert (Hok' : group_ok g') by by eapply (Forall_lookup_1 _ _ _ _ Hok Hg').
  destruct g as [|p g]; [by destruct (group_some _ Hg)|]. destruct g' as [|p' g']; [by destruct (group_some _ Hok')|].
  apply (StronglySorted_app_1_elem_of _ _ _ _ _ Hs); [by left|]. apply list_elem_of_In, in_concat. exists (p' :: g').
  split; [by apply list_elem_of_In, (list_elem_of_lookup_2 _ j)|by left].
Qed.

Lemma numbered_segments seqs groups : map snd (numbered seqs groups) = zip_with segment_of seqs groups.
Proof. unfold numbered. revert groups. induction seqs as [|q seqs IH]; intros [|g groups]; cbn; [done..|]. by f_equal. Qed.

(** Sorting a listing of distinct start times undoes its order. *)
Lemma sort_permutation l k :
  l ≡ₚ k -> StronglySorted (fun a b => start_timestamp_ns a < start_timestamp_ns b) k -> sort_by_key start_timestamp_ns l = k.
Proof.
  intros Hp Hk. set (le := fun a b : ReplaySpoolSegment => start_timestamp_ns a <= start_timestamp_ns b).
  apply (StronglySorted_unique_strong le).
  - intros x y Hx Hy Hxy Hyx. unfold le in *. assert (Hx' : x ∈ k) by by rewrite <- Hp, <- (sort_by_key_perm start_timestamp_ns l).
    clear - Hk Hx' Hy Hxy Hyx. induction Hk as [|z k _ IH Hz]; [by apply elem_of_nil in Hy|]. rewrite Forall_forall in Hz.
    apply elem_of_cons in Hx' as [->|Hx'], Hy as [->|Hy]; [done|apply Hz in Hy; lia|apply Hz in Hx'; lia|by apply IH].
  - apply sort_by_key_sorted.
  - clear Hp. induction Hk as [|z k _ IH Hz]; constructor; [done|]. eapply Forall_impl; [exact Hz|]. unfold le. cbn. lia.
  - by rewrite sort_by_key_perm.
Qed.

Lemma max_number_spec xs from : from <= max_number xs from /\ Forall (fun x => x.1 <= max_number xs from) xs
  /\ (max_number xs from = from \/ exists x, x ∈ xs /\ x.1 = max_number xs from).
Proof.
  unfold max_number. revert from. induction xs as [|x xs IH]; intros from; cbn [foldl]; [splits; [lia|constructor|by left]|].
  destruct (IH (Z.max from x.1)) as (H1 & H2 & H3). splits; [lia|constructor; [lia|done]|].
  destruct H3 as [->|(y & Hy & E)]; [|right; exists y; split; [by right|done]].
  destruct (Z.max_spec from x.1) as [[? ->]|[? ->]]; [right; exists x; split; [by left|done]|by left].
Qed.

Lemma sum_Z_perm l k : l ≡ₚ k -> sum_Z l = sum_Z k.
Proof. unfold sum_Z. induction 1; cbn [foldr]; lia. Qed.

Lemma numbered_sum seqs groups :
  length seqs = length groups -> sum_Z (map (fun x => segment_bytes x.2) (numbered seqs groups)) = sum_Z (map group_bytes groups).
Proof.
  revert groups. unfold numbered. induction seqs as [|q seqs IH]; intros [|g groups] Hlen; try done. injection Hlen as Hlen.
  cbn [zip_with map sum_Z foldr]. f_equal. by apply IH.
Qed.

(** The temporary files are gone, the segments stay. *)
Lemma store_swept m m' next seqs groups (names : list bytes) next' :
  store_ok m next seqs groups -> (forall n, is_Some (m !! n) -> n ∈ names) ->
  (forall n, m' !! n = if bool_decide (n ∈ names) && has_temporary_name n then None else m !! n) ->
  Forall (fun q => q < next') seqs -> 0 <= next' <= U64_MAX -> store_ok m' next' seqs groups.
Proof.
  intros [Hg Hf Hseq Hr Hn He] Hnames Hm' Hlt Hnext. constructor; [done| |done| |done|].
  - eapply Forall2_impl; [exact Hf|]. intros q g H. cbn beta in *. rewrite Hm', (proj2 (name_of_plain q g)). by rewrite andb_false_r.
  - rewrite Forall_forall in Hr, Hlt |- *. intros q Hq. split; [by apply Hr|by apply Hlt].
  - intros n nd Hn'. rewrite Hm' in Hn'. case_if_in Hn' E; [done|]. rewrite bool_decide_eq_true_2 in E by (apply Hnames; by eexists).
    destruct (He n nd Hn') as [H|[(q & c & -> & _)|H]]; [by left|by rewrite temporary_has_name in E|by right; right].
Qed.

(** What the scan of a spool's directory rebuilds. *)
Lemma recover_directory_spec listing d next seqs groups limits :
  (forall m, NoDup (listing m) /\ forall n, n ∈ listing m <-> is_Some (m !! n)) ->
  store_ok (entries d) next seqs groups -> StronglySorted earlier (concat groups) -> history_exceeds limits groups = false ->
  (length (listing (entries d)) <= MAX_SEGMENTS + 64)%nat ->
  recovers (recover_directory listing) d (fun d' i =>
    index_ok i seqs groups /\ 0 <= generation i < U64_MAX /\ store_ok (entries d') (generation i + 1) seqs groups).
Proof.
  intros Hlist Hs Hsort Hlim Hsize. destruct (Hlist (entries d)) as [Hnd Hin].
  unfold recover_directory, recover_index. set (m := entries d) in *. set (names := listing m) in *.
  pose proof (found_permutation m next seqs groups names Hs Hnd Hin) as Hperm.
  assert (Hlen : length seqs = length groups) by by eapply Forall2_length, Hs.
  assert (Hsum : sum_Z (map (fun x : Z * ReplaySpoolSegment => segment_bytes x.2) (omap (found m) names)) = sum_Z (map group_bytes groups)).
  { rewrite <- (numbered_sum seqs groups Hlen). apply sum_Z_perm. by rewrite Hperm. }
  pose proof (groups_total _ _ (so_groups _ _ _ _ Hs) Hlim) as Htotal. unfold MAX_SEGMENT_BYTES in Htotal.
  eapply recovers_bind; [apply (recover_loop_spec m next seqs groups names 0 d index_default Hs Hnd)|].
  - intros n Hn. split; [by apply Hin|done].
  - exact Hsize.
  - cbn. lia.
  - rewrite Hsum. cbn [index_default active_bytes]. unfold U64_MAX. lia.
  - cbn beta. intros d' i (H1 & H2 & H3 & H4). unfold recovers. cbn. rewrite Hsum in H2.
    destruct (max_number_spec (omap (found m) names) 0) as (Hm1 & Hm2 & Hm3). cbn [index_default generation] in H3. rewrite <- H3 in *.
    pose proof (so_range _ _ _ _ Hs) as Hr. pose proof (so_next _ _ _ _ Hs) as Hnext. rewrite Forall_forall in Hr.
    assert (Hseqs : Forall (fun q => q <= generation i) seqs).
    { rewrite Hperm in Hm2. apply Forall_forall. intros q Hq. apply list_elem_of_lookup_1 in Hq as [j Hj].
      destruct (lookup_lt_is_Some_2 groups j) as [g Hg]; [rewrite <- Hlen; by eapply lookup_lt_Some|].
      rewrite Forall_forall in Hm2. apply (Hm2 (q, segment_of q g)), numbered_elem. exists q, g. split; [|done].
      apply elem_of_lookup_zip_with. by exists j, q, g. }
    assert (Hgen : generation i < U64_MAX).
    { destruct Hm3 as [->|(x & Hx & <-)]; [done|]. rewrite Hperm in Hx. apply numbered_elem in Hx as (q & g & Hq & ->). cbn [fst].
      apply elem_of_lookup_zip_with in Hq as (j & ? & ? & [= <- <-] & Hq & _). apply list_elem_of_lookup_2, Hr in Hq. lia. }
    split; [|split; [lia|]].
    + split; cbn; [|by rewrite H2]. rewrite <- (numbered_segments seqs groups). apply sort_permutation.
      * rewrite H1. cbn [index_default segments app]. by rewrite Hperm.
      * apply numbered_sorted; [done|apply Hs|done].
    + apply (store_swept m _ next _ _ names); [done|by intros n Hn; apply Hin|done| |lia].
      eapply Forall_impl; [exact Hseqs|]. cbn. lia.
Qed.

Lemma initialize_owned listing d :
  entries d !! MARKER = Some (Regular MARKER_CONTENTS) ->
  recovers (initialize_spool listing) d (fun d' _ => entries d' = entries d).
Proof.
  intros Hm. unfold recovers, initialize_spool. pose proof (metadata_spec d MARKER _ Hm) as Hmeta.
  assert (Hnot : (symlink_metadata MARKER d).2 <> Err NotFound).
  { unfold symlink_metadata, system_call. rewrite Hm. by destruct (faults d (calls d)). }
  unfold ensures in Hmeta. destruct (symlink_metadata MARKER d) as [d1 [a|[]|]]; [|done..].
  destruct Hmeta as [E1 _]. unfold validate_marker.
  pose proof (metadata_spec d1 MARKER MARKER_CONTENTS ltac:(by rewrite E1)) as Hmeta. unfold ensures in Hmeta.
  destruct (symlink_metadata MARKER d1) as [d2 [a2|e|]]; [|done..]. destruct Hmeta as [E2 ->]. cbn [is_file len]. rewrite Z.eqb_refl. cbn [negb orb].
  pose proof (open_read_spec d2 MARKER MARKER_CONTENTS ltac:(by rewrite E2, E1)) as Hread. unfold ensures in Hread.
  destruct (open_read MARKER d2) as [d3 [c|e|]]; [|done..]. destruct Hread as [E3 ->]. rewrite bytes_eqb_refl. by rewrite E3, E2.
Qed.

Lemma trim_id limits groups : history_exceeds limits groups = false -> trim limits groups = groups.
Proof. destruct groups as [|g groups]; [done|]. cbn [trim]. by intros ->. Qed.

Lemma enforce_keeps_generation limits s :
  match enforce_limits limits s with (s', Ok _) => generation (index s') = generation (index s) | _ => True end.
Proof.
  assert (Hloop : forall segs s removed, match enforce_loop limits segs removed s with
    | (s', Ok _) => generation (index s') = generation (index s) | _ => True end).
  { clear s. induction segs as [|x segs IH]; intros s removed; unfold enforce_loop; fold enforce_loop;
      unfold mbind, st_bind, gets, modify, on_disk; cbn; destruct (index_exceeds limits (index s)); try done.
    destruct (remove_file _ _) as [d [u|e|]]; [|done..]. cbn. specialize (IH (with_index (with_segments segs (sat_sub (active_bytes (index s)) (segment_bytes x)) (generation (index s)) (index s)) (with_disk d (with_index (with_segments segs (active_bytes (index s)) (generation (index s)) (index s)) s))) true).
    exact IH. }
  unfold enforce_limits, mbind, st_bind, gets. specialize (Hloop (segments (index s)) s false).
  destruct (enforce_loop _ _ _ s) as [s' [[]|e|]]; [|done..]. unfold sync_directory, on_disk.
  by destruct (sync (disk s')) as [d [u|e|]].
Qed.

(** * Theorems *)
(** C24: whenever the program stops between two commands, the next one finds its
    recording again.  Opening the directory with any settings yields a running
    worker whose directory and index hold every sealed group that the new limits
    allow (all of them when the settings are the old ones), in order, whatever
    the order of the listing; the open group and its temporary file are gone,
    and the only errors are failing system calls. *)
Theorem reopen_recovers listing old_limits s seqs h quality rate
    (Hlisting : forall m, NoDup (listing m) /\ forall n, n ∈ listing m <-> is_Some (m !! n))
    (Hinv : spool_inv old_limits s seqs h)
    (Hmarker : entries (disk s) !! MARKER = Some (Regular MARKER_CONTENTS))
    (Hsize : (length (listing (entries (disk s))) <= MAX_SEGMENTS + 64)%nat) :
  let limits := limits_new RETAINED_DURATION quality rate in
  recovers (open_spool listing quality rate) (disk s) (fun _ w =>
    shared_phase (shared w) = SpoolRunning
    /\ (exists seqs', spool_inv limits (spool w) seqs' {| sealed := trim limits (sealed h); open_group := [] |})
    /\ (history_exceeds limits (sealed h) = false -> trim limits (sealed h) = sealed h)).
Proof.
  intros limits. unfold recovers, open_spool. pose proof Hinv as [Hs _ Hlim Hsort _].
  assert (Hsealed : StronglySorted earlier (concat (sealed h))) by (unfold recorded in Hsort; by eapply StronglySorted_app_1_l).
  pose proof (recovers_bind (initialize_spool listing) (fun _ => recover_directory listing) (disk s) _ _ (initialize_owned listing _ Hmarker)
    (fun d' _ E => recover_directory_spec listing d' (next_sequence s) seqs (sealed h) old_limits Hlisting
       ltac:(by rewrite E) Hsealed Hlim ltac:(by rewrite E))) as Hrec.
  unfold recovers in Hrec. destruct ((_ ← initialize_spool listing; recover_directory listing) (disk s)) as [d [i|e|]]; [|done..].
  destruct Hrec as (Hi & Hgen & Hstore). cbn [mbind] in *.
  rewrite sat_add_exact by lia.
  set (s1 := {| disk := d; index := i; current := None; next_sequence := generation i + 1 |}).
  pose proof (enforce_limits_spec limits s1 seqs (sealed h) (fun _ _ => False) (limits_new_ok _ _ _) Hstore Hi) as Henf.
  pose proof (enforce_keeps_generation limits s1) as Hkeep. unfold runs in Henf.
  fold limits. destruct (enforce_limits limits s1) as [s2 [[]|e|]]; [|destruct Henf as [Henf|[]]; exact Henf|done].
  destruct Henf as (Hc & Hn & seqs' & _ & Hs' & Hi'). split; [done|split; [|by apply trim_id]]. exists seqs'.
  assert (Hnext : sat_add U64_MAX (generation (index s2)) 1 = next_sequence s1) by (rewrite Hkeep; apply sat_add_exact; cbn; lia).
  cbn [spool]. rewrite Hnext. constructor; cbn [with_next_sequence disk index current next_sequence sealed open_group].
  - exact Hs'.
  - exact Hi'.
  - apply trim_within, limits_new_ok.
  - unfold recorded. cbn [sealed open_group]. rewrite app_nil_r. eapply sorted_suffix; [exact Hsealed|]. apply concat_suffix, trim_suffix.
  - by rewrite Hc.
Qed.

Definition demo_listing (m : gmap bytes node) : list bytes := (map_to_list m).*1.
Lemma demo_listing_ok m : NoDup (demo_listing m) /\ forall n, n ∈ demo_listing m <-> is_Some (m !! n).
Proof.
  split; [apply NoDup_fst_map_to_list|]. intros n. unfold demo_listing. rewrite list_elem_of_fmap. split.
  - intros ([k x] & -> & H%elem_of_map_to_list). by exists x.
  - intros [x H]. exists (n, x). split; [done|by apply elem_of_map_to_list].
Qed.

(** The program stops after two seconds of recording and a snapshot. *)
Definition demo_session : list SpoolCommand := demo_commands ++ [PrepareSnapshot Seconds15 false; PacketCommand (demo_packet 3 true) false].
Definition demo_stopped : Worker := (worker_loop demo_limits demo_session demo_worker).1.1.
Lemma demo_session_order : in_order {| sealed := []; open_group := [] |} demo_session.
Proof.
  assert (E : packets_of demo_session = [demo_packet 0 false; demo_packet 1 true; demo_packet 2 false; demo_packet 3 true]) by reflexivity.
  unfold in_order. rewrite E. split; [|split; [|intros q p H; by apply elem_of_nil in H]].
  - repeat (constructor; [repeat split; vm_compute; discriminate || reflexivity|]). constructor.
  - repeat (constructor; [|repeat (constructor; [reflexivity|]); constructor]). constructor.
Qed.
Lemma demo_stopped_inv : exists seqs, spool_inv demo_limits (spool demo_stopped) seqs
  {| sealed := [[demo_packet 1 true; demo_packet 2 false]]; open_group := [demo_packet 3 true] |}.
Proof.
  assert (Hf : shared_phase (shared demo_stopped) = SpoolRunning /\ (worker_loop demo_limits demo_session demo_worker).1.2 = []) by (vm_compute; by split).
  unfold demo_stopped in *. destruct (worker_loop demo_limits demo_session demo_worker) as [[w' rest] rs] eqn:E.
  cbn [fst snd] in *. destruct Hf as [Hph ->].
  destruct (worker_loop_spec demo_limits demo_worker [] {| sealed := []; open_group := [] |} demo_session w' [] rs
    (limits_new_ok _ _ _) demo_inv eq_refl demo_session_order ltac:(vm_compute; discriminate) E) as (handled & Eh & _ & [Hf|(_ & _ & Hinv)]).
  - by rewrite Hph in Hf.
  - rewrite app_nil_r in Eh. subst handled. destruct Hinv as [seqs Hinv]. exists seqs.
    assert (Hh : history_run demo_limits demo_session {| sealed := []; open_group := [] |}
      = {| sealed := [[demo_packet 1 true; demo_packet 2 false]]; open_group := [demo_packet 3 true] |}) by (vm_compute; reflexivity).
    by rewrite <- Hh.
Qed.
Lemma reopen_recovers_witness :
  recovers (open_spool demo_listing Efficient Fps60) (disk (spool demo_stopped)) (fun _ w =>
    exists seqs, spool_inv demo_limits (spool w) seqs
      {| sealed := [[demo_packet 1 true; demo_packet 2 false]]; open_group := [] |}).
Proof.
  destruct demo_stopped_inv as [seqs Hinv]. eapply recovers_weaken.
  - apply (reopen_recovers demo_listing demo_limits (spool demo_stopped) seqs _ Efficient Fps60 demo_listing_ok Hinv).
    + vm_compute. reflexivity.
    + apply Nat.leb_le. vm_compute. reflexivity.
  - intros d w (_ & Hw & _). exact Hw.
Defined.
