(* ===== verification/SpoolAdmission.v ===== *)
(** The lock-free admission of packets to the spool's queue
    (crates/redunar-daemon/src/replay_spool.rs, [try_submit] and the atomics of
    [SharedStats]): submitters, the worker, and the worker's failure, one atomic
    operation at a time. *)
From stdpp Require Import relations.
From S2P Require Import Prelude Spool SpoolWorker.
Local Open Scope Z_scope.

Definition COMMAND_CAPACITY : nat := 64.
Definition MAX_QUEUED_BYTES : Z := 32 * 1024 * 1024.

(** * State *)
(** The atomics that take part, the command channel (the sizes of the queued
    packets) and whether its receiver still exists. *)
Record Shared := {
  phase : Z;
  active_submitters : Z;
  q_packets : Z;
  q_bytes : Z;
  channel : list Z;
  receiver : bool;
}.
Definition set_phase (v : Z) (s : Shared) : Shared := {|
  phase := v; active_submitters := active_submitters s; q_packets := q_packets s;
  q_bytes := q_bytes s; channel := channel s; receiver := receiver s |}.
Definition set_active (v : Z) (s : Shared) : Shared := {|
  phase := phase s; active_submitters := v; q_packets := q_packets s;
  q_bytes := q_bytes s; channel := channel s; receiver := receiver s |}.
Definition set_packets (v : Z) (s : Shared) : Shared := {|
  phase := phase s; active_submitters := active_submitters s; q_packets := v;
  q_bytes := q_bytes s; channel := channel s; receiver := receiver s |}.
Definition set_bytes (v : Z) (s : Shared) : Shared := {|
  phase := phase s; active_submitters := active_submitters s; q_packets := q_packets s;
  q_bytes := v; channel := channel s; receiver := receiver s |}.
Definition set_channel (c : list Z) (r : bool) (s : Shared) : Shared := {|
  phase := phase s; active_submitters := active_submitters s; q_packets := q_packets s;
  q_bytes := q_bytes s; channel := c; receiver := r |}.

(** What a load of an atomic gives.  The loads of the source are [Acquire] and its
    stores and exchanges [Release] or [AcqRel]: unless something else orders the
    two threads, a load may still give a value from before another thread's latest
    write.  With [weak] it may give any counter, and for the phase, which is
    written once, [Running].  An exchange acts on the latest value. *)
Definition loads (weak : bool) (latest v : Z) : Prop := v = latest \/ weak = true /\ 0 <= v.
Definition loads_phase (weak : bool) (s : Shared) (v : Z) : Prop := v = phase s \/ weak = true /\ v = phase_code SpoolRunning.

(** * A call of [try_submit] *)
(** The next atomic operation of the call. *)
Inductive SubmitPc :=
| Start                              (* load active_submitters *)
| Looping (current : Z)              (* load phase *)
| Trying (current : Z)               (* compare_exchange_weak active_submitters *)
| Entered                            (* load phase again *)
| Leaving                            (* fetch_sub active_submitters, not running *)
| Reserving                          (* load queued_bytes *)
| ReserveTrying (current : Z)        (* compare_exchange_weak queued_bytes *)
| Counting                           (* fetch_add queued_packets *)
| Sending                            (* try_send *)
| Undoing (full : bool)              (* fetch_sub queued_packets *)
| UndoingBytes (full : bool)         (* release_queued_bytes *)
| Finishing (r : SubmitResult)       (* fetch_sub active_submitters *)
| Returned (r : SubmitResult).
Record Attempt := { size : Z; pc : SubmitPc }.
Definition at_pc (t : Attempt) (p : SubmitPc) : Attempt := {| size := size t; pc := p |}.

(** [begin_submit], [reserve_queued_bytes] and the rest of [try_submit]; a weak
    compare-and-exchange may fail without a reason. *)
Inductive attempt_step (weak : bool) : Shared -> Attempt -> Shared -> Attempt -> Prop :=
| submit_load s t c : pc t = Start -> loads weak (active_submitters s) c -> attempt_step weak s t s (at_pc t (Looping c))
| submit_closed s t c v : pc t = Looping c -> loads_phase weak s v -> v <> phase_code SpoolRunning ->
    attempt_step weak s t s (at_pc t (Returned NotRunning))
| submit_overflow s t c : pc t = Looping c -> loads_phase weak s (phase_code SpoolRunning) -> checked_add U32_MAX c 1 = None ->
    attempt_step weak s t s (at_pc t (Returned NotRunning))
| submit_open s t c : pc t = Looping c -> loads_phase weak s (phase_code SpoolRunning) -> checked_add U32_MAX c 1 = Some (c + 1) ->
    attempt_step weak s t s (at_pc t (Trying c))
| submit_exchange s t c : pc t = Trying c -> active_submitters s = c ->
    attempt_step weak s t (set_active (c + 1) s) (at_pc t Entered)
| submit_retry s t c c' : pc t = Trying c -> loads weak (active_submitters s) c' -> attempt_step weak s t s (at_pc t (Looping c'))
| submit_entered s t : pc t = Entered -> loads_phase weak s (phase_code SpoolRunning) -> attempt_step weak s t s (at_pc t Reserving)
| submit_late s t v : pc t = Entered -> loads_phase weak s v -> v <> phase_code SpoolRunning -> attempt_step weak s t s (at_pc t Leaving)
| submit_leave s t : pc t = Leaving ->
    attempt_step weak s t (set_active (wrapping_sub U32_MAX (active_submitters s) 1) s) (at_pc t (Returned NotRunning))
| reserve_load s t c : pc t = Reserving -> loads weak (q_bytes s) c -> attempt_step weak s t s (at_pc t (ReserveTrying c))
| reserve_full s t c : pc t = ReserveTrying c ->
    match checked_add U64_MAX c (size t) with Some next => MAX_QUEUED_BYTES < next | None => True end ->
    attempt_step weak s t s (at_pc t (Finishing QueueFull))
| reserve_exchange s t c : pc t = ReserveTrying c -> checked_add U64_MAX c (size t) = Some (c + size t) ->
    c + size t <= MAX_QUEUED_BYTES -> q_bytes s = c ->
    attempt_step weak s t (set_bytes (c + size t) s) (at_pc t Counting)
| reserve_retry s t c c' : pc t = ReserveTrying c -> checked_add U64_MAX c (size t) = Some (c + size t) ->
    c + size t <= MAX_QUEUED_BYTES -> loads weak (q_bytes s) c' -> attempt_step weak s t s (at_pc t (ReserveTrying c'))
| submit_count s t : pc t = Counting ->
    attempt_step weak s t (set_packets (wrapping_add U32_MAX (q_packets s) 1) s) (at_pc t Sending)
| submit_send s t : pc t = Sending -> receiver s = true -> (length (channel s) < COMMAND_CAPACITY)%nat ->
    attempt_step weak s t (set_channel (channel s ++ [size t]) true s) (at_pc t (Finishing Accepted))
| submit_full s t : pc t = Sending -> receiver s = true -> (COMMAND_CAPACITY <= length (channel s))%nat ->
    attempt_step weak s t s (at_pc t (Undoing true))
| submit_disconnected s t : pc t = Sending -> receiver s = false -> attempt_step weak s t s (at_pc t (Undoing false))
| submit_uncount s t full : pc t = Undoing full ->
    attempt_step weak s t (set_packets (wrapping_sub U32_MAX (q_packets s) 1) s) (at_pc t (UndoingBytes full))
| submit_release s t full : pc t = UndoingBytes full ->
    attempt_step weak s t (set_bytes (wrapping_sub U64_MAX (q_bytes s) (size t)) s)
      (at_pc t (Finishing (if full then QueueFull else NotRunning)))
| submit_finish s t r : pc t = Finishing r ->
    attempt_step weak s t (set_active (wrapping_sub U32_MAX (active_submitters s) 1) s) (at_pc t (Returned r)).

(** * The worker *)
Inductive WorkerPc :=
| Receiving                          (* recv *)
| Releasing (bytes : Z)              (* fetch_sub queued_packets *)
| ReleasingBytes (bytes : Z)         (* release_queued_bytes *)
| Processing                         (* process_packet *)
| Closing                            (* close_admission: store phase *)
| Waiting                            (* close_admission: load active_submitters *)
| Draining                           (* drain_pending_packets: try_iter *)
| DrainReleasing (bytes : Z)
| DrainReleasingBytes (bytes : Z)
| Dropping                           (* the receiver goes out of scope *)
| Stopped.

(** A step of the worker, with the number of packets it received and the packets
    that are dropped with the receiver. *)
Inductive worker_move (weak : bool) : Shared -> WorkerPc -> Shared -> WorkerPc -> Z -> list Z -> Prop :=
| worker_receive s b rest : channel s = b :: rest ->
    worker_move weak s Receiving (set_channel rest true s) (Releasing b) 1 []
| worker_release s b : worker_move weak s (Releasing b) (set_packets (wrapping_sub U32_MAX (q_packets s) 1) s) (ReleasingBytes b) 0 []
| worker_release_bytes s b :
    worker_move weak s (ReleasingBytes b) (set_bytes (wrapping_sub U64_MAX (q_bytes s) b) s) Processing 0 []
| worker_processed s : worker_move weak s Processing s Receiving 0 []
| worker_failed s : worker_move weak s Processing s Closing 0 []
| worker_close s : worker_move weak s Closing (set_phase (phase_code SpoolFailed) s) Waiting 0 []
| worker_wait s c : loads weak (active_submitters s) c -> c <> 0 -> worker_move weak s Waiting s Waiting 0 []
| worker_waited s : loads weak (active_submitters s) 0 -> worker_move weak s Waiting s Draining 0 []
| worker_drain s b rest : channel s = b :: rest ->
    worker_move weak s Draining (set_channel rest true s) (DrainReleasing b) 1 []
| worker_drain_release s b :
    worker_move weak s (DrainReleasing b) (set_packets (wrapping_sub U32_MAX (q_packets s) 1) s) (DrainReleasingBytes b) 0 []
| worker_drain_bytes s b :
    worker_move weak s (DrainReleasingBytes b) (set_bytes (wrapping_sub U64_MAX (q_bytes s) b) s) Draining 0 []
| worker_drained s : channel s = [] -> worker_move weak s Draining s Dropping 0 []
| worker_drop s : worker_move weak s Dropping (set_channel [] false s) Stopped 0 (channel s).

(** * The system: any number of calls, interleaved with the worker *)
Record System := { shared : Shared; attempts : list Attempt; worker : WorkerPc; received : Z; lost : list Z }.
Inductive step (weak : bool) : System -> System -> Prop :=
| step_attempt s i t sh' t' : attempts s !! i = Some t -> attempt_step weak (shared s) t sh' t' ->
    step weak s {| shared := sh'; attempts := <[i := t']> (attempts s); worker := worker s; received := received s; lost := lost s |}
| step_worker s sh' w' got dropped : worker_move weak (shared s) (worker s) sh' w' got dropped ->
    step weak s {| shared := sh'; attempts := attempts s; worker := w'; received := received s + got; lost := lost s ++ dropped |}.

Definition shared_start : Shared := {|
  phase := phase_code SpoolRunning; active_submitters := 0; q_packets := 0; q_bytes := 0;
  channel := []; receiver := true |}.
(** [open], before the calls of the given packet sizes. *)
Definition system_start (sizes : list Z) : System := {|
  shared := shared_start; attempts := map (fun n => {| size := n; pc := Start |}) sizes; worker := Receiving; received := 0; lost := [] |}.
Definition reachable (weak : bool) (sizes : list Z) : System -> Prop := rtc (step weak) (system_start sizes).

(** * What the counters count *)
(** The part of a call's reservations that is still to be given back. *)
Definition in_active (t : Attempt) : Z :=
  match pc t with Start | Looping _ | Trying _ | Returned _ => 0 | _ => 1 end.
Definition reserved (t : Attempt) : Z :=
  match pc t with Counting | Sending | Undoing _ | UndoingBytes _ => size t | _ => 0 end.
Definition counted (t : Attempt) : Z := match pc t with Sending | Undoing _ => 1 | _ => 0 end.
(** Calls that [begin_submit] let through. *)
Definition inside (t : Attempt) : Z :=
  match pc t with
  | Start | Looping _ | Trying _ | Entered | Leaving | Returned _ => 0
  | _ => 1
  end.
Definition accepted (t : Attempt) : Z :=
  match pc t with Finishing Accepted | Returned Accepted => 1 | _ => 0 end.
Definition total (f : Attempt -> Z) (ts : list Attempt) : Z := sum_Z (map f ts).
(** The packet the worker has taken and not yet released. *)
Definition worker_packets (w : WorkerPc) : Z := match w with Releasing _ | DrainReleasing _ => 1 | _ => 0 end.
Definition worker_bytes (w : WorkerPc) : Z :=
  match w with Releasing b | ReleasingBytes b | DrainReleasing b | DrainReleasingBytes b => b | _ => 0 end.
Definition before_close (w : WorkerPc) : bool :=
  match w with Receiving | Releasing _ | ReleasingBytes _ | Processing | Closing => true | _ => false end.
Definition waited (w : WorkerPc) : bool :=
  match w with Draining | DrainReleasing _ | DrainReleasingBytes _ | Dropping | Stopped => true | _ => false end.

(** The invariant; its last four parts need loads that give the latest value. *)
Record admission_inv (weak : bool) (calls : Z) (s : System) : Prop := {
  ai_calls : zlen (attempts s) = calls;
  ai_sizes : Forall (fun t => 0 <= size t) (attempts s);
  ai_channel : Forall (fun b => 0 <= b) (channel (shared s)) /\ 0 <= worker_bytes (worker s) /\ Forall (fun b => 0 <= b) (lost s);
  ai_length : zlen (channel (shared s)) + zlen (lost s) <= 64;
  ai_active : active_submitters (shared s) = total in_active (attempts s);
  ai_packets : q_packets (shared s) = total counted (attempts s) + zlen (channel (shared s)) + worker_packets (worker s) + zlen (lost s);
  ai_bytes : q_bytes (shared s) = total reserved (attempts s) + sum_Z (channel (shared s)) + worker_bytes (worker s) + sum_Z (lost s);
  ai_bound : q_bytes (shared s) <= MAX_QUEUED_BYTES;
  ai_received : received s + zlen (channel (shared s)) + zlen (lost s) = total accepted (attempts s);
  ai_phase : phase (shared s) = phase_code (if before_close (worker s) then SpoolRunning else SpoolFailed);
  ai_receiver : receiver (shared s) = match worker s with Stopped => false | _ => true end;
  ai_stopped : match worker s with Stopped => channel (shared s) = [] | _ => lost s = [] end;
  ai_waited : weak = false -> waited (worker s) = true -> total inside (attempts s) = 0;
  ai_drained : weak = false -> match worker s with Dropping | Stopped => channel (shared s) = [] | _ => True end;
  ai_lost : weak = false -> lost s = [];
}.

Lemma total_cons f t ts : total f (t :: ts) = f t + total f ts.
Proof. done. Qed.

Lemma total_insert f ts i t t' :
  ts !! i = Some t -> total f (<[i := t']> ts) = total f ts - f t + f t'.
Proof.
  revert i. induction ts as [|u ts IH]; intros [|i] H; try done.
  - injection H as ->. change (<[0%nat := t']> (t :: ts)) with (t' :: ts). rewrite !total_cons. lia.
  - change (<[S i := t']> (u :: ts)) with (u :: <[i := t']> ts). rewrite !total_cons, (IH i H). lia.
Qed.

Lemma total_nonneg f ts : Forall (fun t => 0 <= f t) ts -> 0 <= total f ts.
Proof. intros H. by apply sum_Z_nonneg, Forall_map. Qed.

Lemma total_member f ts i t : Forall (fun t => 0 <= f t) ts -> ts !! i = Some t -> f t <= total f ts.
Proof.
  intros Hn. revert i. induction Hn as [|u ts Hu Hn IH]; intros [|i] H; try done; rewrite total_cons;
    pose proof (total_nonneg f ts Hn); [injection H as ->; lia|specialize (IH i H); lia].
Qed.

Lemma total_le f g ts : Forall (fun t => f t <= g t) ts -> total f ts <= total g ts.
Proof. induction 1; rewrite ?total_cons; [done|lia]. Qed.

Lemma total_bounded f ts : Forall (fun t => f t <= 1) ts -> total f ts <= zlen ts.
Proof. induction 1; rewrite ?total_cons, ?zlen_cons; [done|lia]. Qed.

Lemma weights_bounds t :
  (0 <= in_active t <= 1) /\ (0 <= counted t <= 1) /\ (0 <= inside t <= in_active t) /\ 0 <= accepted t.
Proof. unfold in_active, counted, inside, accepted. destruct (pc t) as [| | | | | | | | | | |[]|[]]; lia. Qed.

Lemma reserved_nonneg t : 0 <= size t -> 0 <= reserved t.
Proof. unfold reserved. destruct (pc t); lia. Qed.

Lemma wrapping_sub_exact m a b : 0 <= a - b <= m -> wrapping_sub m a b = a - b.
Proof. intros H. unfold wrapping_sub. apply Z.mod_small. lia. Qed.
Lemma wrapping_add_exact m a b : 0 <= a + b <= m -> wrapping_add m a b = a + b.
Proof. intros H. unfold wrapping_add. apply Z.mod_small. lia. Qed.

Lemma waited_closed w : waited w = true -> before_close w = false.
Proof. by destruct w. Qed.

(** ** A step of a call *)
Lemma attempt_inv weak calls s i t sh' t' :
  calls + 66 <= U32_MAX -> admission_inv weak calls s -> attempts s !! i = Some t -> attempt_step weak (shared s) t sh' t' ->
  admission_inv weak calls {| shared := sh'; attempts := <[i := t']> (attempts s); worker := worker s; received := received s; lost := lost s |}.
Proof.
  intros Hcalls Hinv Hi Hstep.
  pose proof (total_insert in_active _ _ _ t' Hi) as T1. pose proof (total_insert counted _ _ _ t' Hi) as T2.
  pose proof (total_insert inside _ _ _ t' Hi) as T3. pose proof (total_insert accepted _ _ _ t' Hi) as T4.
  pose proof (total_insert reserved _ _ _ t' Hi) as T5.
  assert (W : forall f, (forall t, 0 <= f t) -> f t <= total f (attempts s) /\ 0 <= total f (attempts s)).
  { intros f Hf. split; [eapply total_member; [|exact Hi]|apply total_nonneg]; by apply Forall_true. }
  pose proof (W in_active ltac:(intros u; apply weights_bounds)) as W1. pose proof (W counted ltac:(intros u; apply weights_bounds)) as W2.
  pose proof (W inside ltac:(intros u; apply weights_bounds)) as W3.
  assert (W5 : reserved t <= total reserved (attempts s)).
  { eapply total_member; [|exact Hi]. eapply Forall_impl; [apply Hinv|]. apply reserved_nonneg. }
  assert (B1 : total in_active (attempts s) <= zlen (attempts s)) by (apply total_bounded, Forall_true; intros u; apply weights_bounds).
  assert (B2 : total counted (attempts s) <= zlen (attempts s)) by (apply total_bounded, Forall_true; intros u; apply weights_bounds).
  destruct Hinv as [Hn Hsz (Hch & Hwb & Hlo) Hlen Hact Hpk Hby Hbd Hrec Hph Hrcv Hstop Hwait Hdr Hnone].
  assert (Hsize : 0 <= size t) by by apply (Forall_lookup_1 _ _ _ _ Hsz Hi).
  assert (Hsize' : size t' = size t) by by destruct Hstep.
  assert (Hlen' : zlen (<[i := t']> (attempts s)) = calls) by (unfold zlen in *; by rewrite length_insert).
  assert (Hsz' : Forall (fun t => 0 <= size t) (<[i := t']> (attempts s))) by (apply Forall_insert; [done|by rewrite Hsize']).
  assert (Hz : 0 <= zlen (channel (shared s)) /\ 0 <= zlen (lost s)) by (unfold zlen; lia).
  assert (Hsl : 0 <= sum_Z (lost s)) by by apply sum_Z_nonneg.
  assert (Hwp : 0 <= worker_packets (worker s) <= 1) by (destruct (worker s); cbn; lia).
  assert (Hsum : 0 <= sum_Z (channel (shared s))) by by apply sum_Z_nonneg.
  unfold MAX_QUEUED_BYTES, U64_MAX, U32_MAX in *. destruct Hstep; cbn [at_pc] in *;
    unfold in_active, counted, inside, accepted, reserved in T1, T2, T3, T4, T5, W1, W2, W3, W5; cbn [at_pc pc size] in T1, T2, T3, T4, T5;
    rewrite ?H in T1, T2, T3, T4, T5, W1, W2, W3, W5;
    fold in_active counted inside accepted reserved in T1, T2, T3, T4, T5, W1, W2, W3, W5.
  all: constructor; cbn [shared attempts worker received lost set_active set_packets set_bytes set_channel active_submitters
    q_packets q_bytes channel phase receiver]; try done; try lia.
  all: try (rewrite wrapping_sub_exact by (unfold U32_MAX, U64_MAX; lia); lia).
  all: try (rewrite wrapping_add_exact by (unfold U32_MAX; lia); lia).
  all: try (intros Hk Hw; rewrite T3; specialize (Hwait Hk Hw); lia).
  - intros Hk Hw. rewrite waited_closed in Hph by done. destruct H0 as [H0|[H0 _]]; [by rewrite Hph in H0|congruence].
  - splits; [|done|done]. apply Forall_app. split; [done|by constructor].
  - assert (lost s = []) as ->; [destruct (worker s); try done; congruence|]. rewrite zlen_app. unfold zlen, COMMAND_CAPACITY in *. cbn [length] in *. lia.
  - rewrite zlen_app. change (zlen [size t]) with 1. lia.
  - rewrite sum_Z_app. change (sum_Z [size t]) with (size t + 0). lia.
  - rewrite zlen_app. change (zlen [size t]) with 1. lia.
  - by rewrite <- Hrcv.
  - destruct (worker s); try done; congruence.
  - intros Hk. destruct (worker s); try done; specialize (Hwait Hk eq_refl); lia.
  - rewrite wrapping_sub_exact by (unfold U64_MAX; lia). unfold MAX_QUEUED_BYTES. lia.
  - destruct full; lia.
Qed.

(** ** A step of the worker *)
Lemma worker_inv weak calls s sh' w' got dropped :
  calls + 66 <= U32_MAX -> admission_inv weak calls s -> worker_move weak (shared s) (worker s) sh' w' got dropped ->
  admission_inv weak calls {| shared := sh'; attempts := attempts s; worker := w'; received := received s + got; lost := lost s ++ dropped |}.
Proof.
  intros Hcalls [Hn Hsz (Hch & Hwb & Hlo) Hlen Hact Hpk Hby Hbd Hrec Hph Hrcv Hstop Hwait Hdr Hnone] Hstep.
  assert (W2 : 0 <= total counted (attempts s)) by (apply total_nonneg, Forall_true; intros u; apply weights_bounds).
  assert (B2 : total counted (attempts s) <= zlen (attempts s)) by (apply total_bounded, Forall_true; intros u; apply weights_bounds).
  assert (W5 : 0 <= total reserved (attempts s)) by (apply total_nonneg; eapply Forall_impl; [exact Hsz|apply reserved_nonneg]).
  assert (Hin : total inside (attempts s) <= total in_active (attempts s)) by (apply total_le, Forall_true; intros u; apply weights_bounds).
  assert (Hin0 : 0 <= total inside (attempts s)) by (apply total_nonneg, Forall_true; intros u; apply weights_bounds).
  assert (Hz : 0 <= zlen (channel (shared s)) /\ 0 <= zlen (lost s)) by (unfold zlen; lia).
  assert (Hsl : 0 <= sum_Z (lost s)) by by apply sum_Z_nonneg.
  assert (Hsum : 0 <= sum_Z (channel (shared s))) by by apply sum_Z_nonneg.
  unfold MAX_QUEUED_BYTES, U64_MAX, U32_MAX in *.
  remember (worker s) as w eqn:Ew. remember (shared s) as sh eqn:Esh. destruct Hstep; subst; try done.
  all: repeat match goal with H : channel _ = _ |- _ => rewrite H in * end; try apply Forall_cons in Hch as [Hb Hch];
    cbn [worker_packets worker_bytes before_close waited length] in *; rewrite ?zlen_cons, ?zlen_nil in *.
  all: try match goal with H : context [sum_Z (?b :: ?l)] |- _ => change (sum_Z (b :: l)) with (b + sum_Z l) in * end.
  all: constructor; rewrite ?app_nil_r; cbn [shared attempts worker received lost set_phase set_packets set_bytes set_channel active_submitters
    q_packets q_bytes channel phase receiver worker_packets worker_bytes before_close waited]; try done; try lia.
  all: try (rewrite wrapping_sub_exact by (unfold U32_MAX, U64_MAX; lia); unfold MAX_QUEUED_BYTES; lia).
  all: repeat match goal with H : channel _ = _ |- _ => rewrite H end; change (zlen (@nil Z)) with 0 in *;
    change (sum_Z []) with 0 in *; cbn [length]; try lia.
  - intros Hk _. destruct H as [H|[H _]]; [lia|congruence].
  - by splits; [constructor|..].
  - splits; [constructor|done|by apply Forall_app].
  - rewrite zlen_app. lia.
  - rewrite zlen_app. lia.
  - rewrite sum_Z_app. lia.
  - rewrite zlen_app. lia.
  - intros Hk. by rewrite (Hnone Hk), (Hdr Hk).
Qed.

Lemma start_inv weak sizes : Forall (fun n => 0 <= n) sizes -> admission_inv weak (zlen sizes) (system_start sizes).
Proof.
  intros Hs. assert (Hzero : forall f, (forall n, f {| size := n; pc := Start |} = 0) -> total f (attempts (system_start sizes)) = 0).
  { intros f Hf. clear Hs. induction sizes as [|n sizes IH]; [done|].
    unfold system_start in *. cbn [attempts map] in *. by rewrite total_cons, Hf, IH. }
  constructor; try done; rewrite ?Hzero by done; try done.
  - cbn. unfold zlen. by rewrite length_map.
  - apply Forall_map. eapply Forall_impl; [exact Hs|done].
Qed.

Lemma reachable_inv weak sizes s :
  Forall (fun n => 0 <= n) sizes -> zlen sizes + 66 <= U32_MAX -> reachable weak sizes s -> admission_inv weak (zlen sizes) s.
Proof.
  intros Hs Hn Hr. apply rtc_ind_r with (P := admission_inv weak (zlen sizes)) in Hr; [done|by apply start_inv|].
  intros s1 s2 _ Hstep Hinv. destruct Hstep as [s1 i t sh' t' Hi Ht|s1 sh' w' got dropped Hw]; [by eapply attempt_inv|by eapply worker_inv].
Qed.

(** * Finishing *)
Lemma attempt_runs weak s i t sh' t' :
  attempts s !! i = Some t -> rtc (fun a b => attempt_step weak a.1 a.2 b.1 b.2) (shared s, t) (sh', t') ->
  rtc (step weak) s {| shared := sh'; attempts := <[i := t']> (attempts s); worker := worker s; received := received s; lost := lost s |}.
Proof.
  intros Hi Hr. remember (shared s, t) as a eqn:Ea. remember (sh', t') as b eqn:Eb. revert s t Hi Ea.
  induction Hr as [a|a c b Hac _ IH]; intros s t Hi Ea; subst.
  - injection Ea as -> ->. rewrite list_insert_id by done. by destruct s.
  - destruct c as [sh1 t1]. cbn in Hac. eapply rtc_l; [by apply (step_attempt weak s i t sh1 t1)|].
    specialize (IH eq_refl {| shared := sh1; attempts := <[i := t1]> (attempts s); worker := worker s; received := received s; lost := lost s |} t1).
    cbn in IH. rewrite list_insert_insert_eq in IH. apply IH; [|done]. apply list_lookup_insert_eq. by eapply lookup_lt_Some.
Qed.

(** A call on its own, once the phase is not Running. *)
Definition finishes (weak : bool) (sh : Shared) (t : Attempt) : Prop :=
  exists sh' r, rtc (fun a b => attempt_step weak a.1 a.2 b.1 b.2) (sh, t) (sh', at_pc t (Returned r)) /\ phase sh' = phase sh.

Lemma finishes_step weak sh t sh1 p :
  attempt_step weak sh t sh1 (at_pc t p) -> phase sh1 = phase sh -> finishes weak sh1 (at_pc t p) -> finishes weak sh t.
Proof.
  intros Hs Hp (sh' & r & Hr & Hp'). exists sh', r. split; [|by rewrite Hp']. by eapply (rtc_l _ _ (sh1, at_pc t p)).
Qed.

Section Solo.
Context (weak : bool) (t : Attempt).

Lemma returned_finishes sh r : finishes weak sh (at_pc t (Returned r)).
Proof. by exists sh, r. Qed.
Lemma finishing_finishes sh r : finishes weak sh (at_pc t (Finishing r)).
Proof. eapply finishes_step; [by apply submit_finish|done|apply returned_finishes]. Qed.
Lemma undoing_bytes_finishes sh full : finishes weak sh (at_pc t (UndoingBytes full)).
Proof. eapply finishes_step; [by apply submit_release|done|apply finishing_finishes]. Qed.
Lemma undoing_finishes sh full : finishes weak sh (at_pc t (Undoing full)).
Proof. eapply finishes_step; [by apply submit_uncount|done|apply undoing_bytes_finishes]. Qed.
Lemma sending_finishes sh : finishes weak sh (at_pc t Sending).
Proof.
  destruct (receiver sh) eqn:Er.
  - destruct (decide (length (channel sh) < COMMAND_CAPACITY)%nat).
    + eapply finishes_step; [by apply submit_send|done|apply finishing_finishes].
    + eapply finishes_step; [apply submit_full; [done|done|lia]|done|apply undoing_finishes].
  - eapply finishes_step; [by apply submit_disconnected|done|apply undoing_finishes].
Qed.
Lemma counting_finishes sh : finishes weak sh (at_pc t Counting).
Proof. eapply finishes_step; [by apply submit_count|done|apply sending_finishes]. Qed.
Lemma reserve_fresh_finishes sh : finishes weak sh (at_pc t (ReserveTrying (q_bytes sh))).
Proof.
  set (t' := at_pc t (ReserveTrying (q_bytes sh))).
  destruct (checked_add U64_MAX (q_bytes sh) (size t)) as [next|] eqn:E.
  - pose proof E as [_ ->]%checked_add_Some. destruct (decide (q_bytes sh + size t <= MAX_QUEUED_BYTES)).
    + eapply finishes_step; [by apply (reserve_exchange weak sh t' (q_bytes sh))|done|apply counting_finishes].
    + eapply finishes_step; [apply (reserve_full weak sh t' (q_bytes sh)); [done|]|done|apply finishing_finishes].
      cbn [t' at_pc size]. rewrite E. lia.
  - eapply finishes_step; [apply (reserve_full weak sh t' (q_bytes sh)); [done|]|done|apply finishing_finishes].
    cbn [t' at_pc size]. by rewrite E.
Qed.
Lemma reserve_finishes sh c : finishes weak sh (at_pc t (ReserveTrying c)).
Proof.
  set (t' := at_pc t (ReserveTrying c)). destruct (checked_add U64_MAX c (size t)) as [next|] eqn:E.
  - pose proof E as [_ ->]%checked_add_Some. destruct (decide (c + size t <= MAX_QUEUED_BYTES)).
    + eapply finishes_step; [apply (reserve_retry weak sh t' c (q_bytes sh)); [done..|by left]|done|apply reserve_fresh_finishes].
    + eapply finishes_step; [apply (reserve_full weak sh t' c); [done|]|done|apply finishing_finishes].
      cbn [t' at_pc size]. rewrite E. lia.
  - eapply finishes_step; [apply (reserve_full weak sh t' c); [done|]|done|apply finishing_finishes].
    cbn [t' at_pc size]. by rewrite E.
Qed.
Lemma leaving_finishes sh : finishes weak sh (at_pc t Leaving).
Proof. eapply finishes_step; [by apply submit_leave|done|apply returned_finishes]. Qed.
Lemma looping_finishes sh c : phase sh <> phase_code SpoolRunning -> finishes weak sh (at_pc t (Looping c)).
Proof. intros H. eapply finishes_step; [apply (submit_closed _ _ _ c (phase sh)); [done|by left|done]|done|apply returned_finishes]. Qed.
End Solo.

Lemma every_call_finishes weak sh t : phase sh <> phase_code SpoolRunning -> finishes weak sh t.
Proof.
  intros Hp. destruct t as [n p]. set (t := {| size := n; pc := p |}). change t with (at_pc t p). destruct p as [|c|c| | | |c| | |b|b|r|r].
  - eapply finishes_step; [apply (submit_load _ _ _ (active_submitters sh)); [done|by left]|done|by apply looping_finishes].
  - by apply looping_finishes.
  - eapply finishes_step; [apply (submit_retry _ _ _ c (active_submitters sh)); [done|by left]|done|by apply looping_finishes].
  - eapply finishes_step; [apply (submit_late _ _ _ (phase sh)); [done|by left|done]|done|apply leaving_finishes].
  - apply leaving_finishes.
  - eapply finishes_step; [apply (reserve_load _ _ _ (q_bytes sh)); [done|by left]|done|apply reserve_fresh_finishes].
  - apply reserve_finishes.
  - apply counting_finishes.
  - apply sending_finishes.
  - apply undoing_finishes.
  - apply undoing_bytes_finishes.
  - apply finishing_finishes.
  - exists sh, r. by split.
Qed.

Definition returned (t : Attempt) : Prop := exists r, pc t = Returned r.

Lemma calls_finish weak s :
  phase (shared s) <> phase_code SpoolRunning ->
  exists s', rtc (step weak) s s' /\ Forall returned (attempts s') /\ worker s' = worker s /\ phase (shared s') = phase (shared s).
Proof.
  intros Hp. assert (H : forall k, (k <= length (attempts s))%nat -> exists s', rtc (step weak) s s'
      /\ Forall returned (take k (attempts s')) /\ worker s' = worker s /\ phase (shared s') = phase (shared s)
      /\ length (attempts s') = length (attempts s)).
  { induction k as [|k IH]; intros Hk; [by exists s|]. destruct IH as (s1 & Hr & Hret & Hw & Hph & Hlen); [lia|].
    destruct (lookup_lt_is_Some_2 (attempts s1) k) as [t Ht]; [lia|].
    destruct (every_call_finishes weak (shared s1) t) as (sh' & r & Hrun & Hp'); [by rewrite Hph|].
    eexists. split; [etransitivity; [exact Hr|by eapply attempt_runs]|]. cbn. splits; [|done|by rewrite Hp'|by rewrite length_insert].
    rewrite (take_S_r _ k (at_pc t (Returned r))) by (apply list_lookup_insert_eq; by eapply lookup_lt_Some).
    apply Forall_app. split; [by rewrite take_insert_ge by lia|]. constructor; [by exists r|constructor]. }
  destruct (H (length (attempts s)) ltac:(lia)) as (s' & Hr & Hret & Hw & Hph & Hlen). exists s'.
  rewrite take_ge in Hret by lia. done.
Qed.

(** ** The failed worker *)
Lemma worker_goes weak s sh' w' :
  worker_move weak (shared s) (worker s) sh' w' 0 [] ->
  step weak s {| shared := sh'; attempts := attempts s; worker := w'; received := received s; lost := lost s |}.
Proof. intros H. pose proof (step_worker weak s sh' w' 0 [] H) as Hs. by rewrite Z.add_0_r, app_nil_r in Hs. Qed.

Lemma draining_finishes weak s :
  worker s = Draining -> exists s', rtc (step weak) s s' /\ worker s' = Stopped /\ attempts s' = attempts s.
Proof.
  remember (channel (shared s)) as ch eqn:Ech. revert s Ech. induction ch as [|b rest IH]; intros s Ech Hw.
  - eexists. split; [|split].
    + eapply rtc_l; [apply worker_goes; rewrite Hw; by apply worker_drained|].
      eapply rtc_l; [apply step_worker, worker_drop|]. apply rtc_refl.
    + done.
    + done.
  - destruct (IH {| shared := set_bytes (wrapping_sub U64_MAX (q_bytes (shared s)) b)
                      (set_packets (wrapping_sub U32_MAX (q_packets (shared s)) 1) (set_channel rest true (shared s)));
                    attempts := attempts s; worker := Draining; received := received s + 1; lost := lost s ++ [] |}) as (s' & Hr & Hw' & Ha); [done..|].
    exists s'. split; [|by split]. eapply rtc_l; [apply step_worker; rewrite Hw; by apply worker_drain|].
    eapply rtc_l; [apply worker_goes; apply worker_drain_release|].
    eapply rtc_l; [apply worker_goes; apply worker_drain_bytes|]. exact Hr.
Qed.

Lemma waiting_finishes weak calls s :
  admission_inv weak calls s -> waited (worker s) = true \/ worker s = Waiting -> Forall returned (attempts s) ->
  exists s', rtc (step weak) s s' /\ worker s' = Stopped /\ attempts s' = attempts s.
Proof.
  intros Hinv Hw Hret.
  assert (Hzero : active_submitters (shared s) = 0).
  { rewrite (ai_active _ _ _ Hinv). clear - Hret. induction Hret as [|t ts [r Hr] _ IH]; [done|]. rewrite total_cons, IH. unfold in_active. by rewrite Hr. }
  assert (Hdrain : forall sh, exists s', rtc (step weak) {| shared := sh; attempts := attempts s; worker := Draining; received := received s; lost := lost s |} s'
      /\ worker s' = Stopped /\ attempts s' = attempts s) by (intros sh; exact (draining_finishes weak {| shared := sh; attempts := attempts s; worker := Draining; received := received s; lost := lost s |} eq_refl)).
  destruct (worker s) eqn:Ew; try (by destruct Hw).
  - destruct (Hdrain (shared s)) as (s' & Hr & Hw' & Ha).
    exists s'. split; [|by split]. eapply rtc_l; [apply worker_goes; rewrite Ew; apply worker_waited; by left|exact Hr].
  - by apply draining_finishes.
  - destruct (Hdrain (set_bytes (wrapping_sub U64_MAX (q_bytes (shared s)) bytes)
        (set_packets (wrapping_sub U32_MAX (q_packets (shared s)) 1) (shared s)))) as (s' & Hr & Hw' & Ha).
    exists s'. split; [|by split]. eapply rtc_l; [apply worker_goes; rewrite Ew; apply worker_drain_release|].
    eapply rtc_l; [apply worker_goes; apply worker_drain_bytes|exact Hr].
  - destruct (Hdrain (set_bytes (wrapping_sub U64_MAX (q_bytes (shared s)) bytes) (shared s))) as (s' & Hr & Hw' & Ha).
    exists s'. split; [|by split]. eapply rtc_l; [apply worker_goes; rewrite Ew; apply worker_drain_bytes|exact Hr].
  - eexists. split; [eapply rtc_l; [apply step_worker; rewrite Ew; apply worker_drop|apply rtc_refl]|done].
  - by exists s.
Qed.

(** A run of one call up to the worker's failure, for the witnesses. *)
Ltac call_step i c := eapply rtc_l; [eapply (step_attempt _ _ i); [reflexivity|eapply c; try reflexivity; try (left; reflexivity)]|cbn].
Ltac stale_step i c := eapply rtc_l; [eapply (step_attempt _ _ i); [reflexivity|eapply c; try reflexivity; try (right; split; reflexivity)]|cbn].
Ltac worker_does c := eapply rtc_l; [eapply step_worker, c; try reflexivity; try (left; reflexivity)|cbn].

Definition failed_state : System := {|
  shared := {| phase := phase_code SpoolFailed; active_submitters := 0; q_packets := 0; q_bytes := 0;
               channel := []; receiver := true |};
  attempts := [{| size := 3; pc := Returned Accepted |}]; worker := Waiting; received := 1; lost := [] |}.
Definition stopped_state : System := {|
  shared := {| phase := phase_code SpoolFailed; active_submitters := 0; q_packets := 0; q_bytes := 0;
               channel := []; receiver := false |};
  attempts := [{| size := 3; pc := Returned Accepted |}]; worker := Stopped; received := 1; lost := [] |}.

Lemma failed_state_reachable : reachable false [3] failed_state.
Proof.
  unfold reachable, system_start, shared_start, failed_state. cbn [map].
  call_step 0%nat submit_load. call_step 0%nat submit_open. call_step 0%nat submit_exchange. call_step 0%nat submit_entered.
  call_step 0%nat reserve_load. call_step 0%nat reserve_exchange; [vm_compute; discriminate|].
  call_step 0%nat submit_count. call_step 0%nat submit_send; [apply (bool_decide_unpack _); vm_compute; exact I|].
  call_step 0%nat submit_finish.
  worker_does worker_receive. worker_does worker_release. worker_does worker_release_bytes. worker_does worker_failed.
  worker_does worker_close. apply rtc_refl.
Qed.

Lemma stopped_state_reachable : reachable false [3] stopped_state.
Proof.
  unfold reachable. etransitivity; [apply failed_state_reachable|]. unfold failed_state, stopped_state.
  worker_does worker_waited. worker_does worker_drained. worker_does worker_drop. apply rtc_refl.
Qed.

(** The end of a run with a stale load: the second packet was dropped with the
    receiver. *)
Definition lossy_state : System := {|
  shared := {| phase := phase_code SpoolFailed; active_submitters := 0; q_packets := 1; q_bytes := 2;
               channel := []; receiver := false |};
  attempts := [{| size := 1; pc := Returned Accepted |}; {| size := 2; pc := Returned Accepted |}];
  worker := Stopped; received := 1; lost := [2] |}.
Lemma lossy_state_reachable : reachable true [1; 2] lossy_state.
Proof.
  unfold reachable, system_start, shared_start, lossy_state. cbn [map].
  call_step 0%nat submit_load. call_step 0%nat submit_open. call_step 0%nat submit_exchange. call_step 0%nat submit_entered.
  call_step 0%nat reserve_load. call_step 0%nat reserve_exchange; [vm_compute; discriminate|].
  call_step 0%nat submit_count. call_step 0%nat submit_send; [apply (bool_decide_unpack _); vm_compute; exact I|]. call_step 0%nat submit_finish.
  worker_does worker_receive. worker_does worker_release. worker_does worker_release_bytes. worker_does worker_failed.
  worker_does worker_close. worker_does worker_waited.
  call_step 1%nat submit_load. stale_step 1%nat submit_open. call_step 1%nat submit_exchange. stale_step 1%nat submit_entered.
  call_step 1%nat reserve_load. call_step 1%nat reserve_exchange; [vm_compute; discriminate|]. call_step 1%nat submit_count.
  worker_does worker_drained.
  call_step 1%nat submit_send; [apply (bool_decide_unpack _); vm_compute; exact I|]. call_step 1%nat submit_finish.
  worker_does worker_drop. apply rtc_refl.
Qed.

(** * Theorems *)
(** C25: the queue is bounded and its counters are exact, whatever the memory
    orderings let the loads see.  However calls of [try_submit] and the worker
    interleave, at most 64 packets and 32 MiB are reserved; the three counters
    never wrap around and say exactly which calls are inside and which packets
    are reserved, queued, being released or were dropped with the receiver; and
    once the worker has failed and the calls have returned, what is still
    reserved are the packets that were accepted and dropped with the receiver,
    and every other accepted packet was received.  When every load gives the
    latest value, no packet is dropped; with the orderings of the source one can
    be ([lossy_state_reachable]). *)
Theorem admission_exact weak sizes s
    (Hsizes : Forall (fun n => 0 <= n) sizes) (Hcalls : zlen sizes + 66 <= U32_MAX) (Hreach : reachable weak sizes s) :
  (length (channel (shared s)) <= COMMAND_CAPACITY)%nat /\ 0 <= q_bytes (shared s) <= MAX_QUEUED_BYTES
  /\ active_submitters (shared s) = total in_active (attempts s)
  /\ q_packets (shared s) = total counted (attempts s) + zlen (channel (shared s)) + worker_packets (worker s) + zlen (lost s)
  /\ q_bytes (shared s) = total reserved (attempts s) + sum_Z (channel (shared s)) + worker_bytes (worker s) + sum_Z (lost s)
  /\ received s + zlen (channel (shared s)) + zlen (lost s) = total accepted (attempts s)
  /\ (worker s = Stopped -> Forall returned (attempts s) ->
      active_submitters (shared s) = 0 /\ q_packets (shared s) = zlen (lost s) /\ q_bytes (shared s) = sum_Z (lost s)
      /\ received s + zlen (lost s) = total accepted (attempts s))
  /\ (worker s = Stopped \/ lost s = []) /\ (weak = false -> lost s = []).
Proof.
  pose proof (reachable_inv weak sizes s Hsizes Hcalls Hreach) as [_ Hsz (Hch & Hwb & Hlo) Hlen Hact Hpk Hby Hbd Hrec _ _ Hstop _ _ Hnone].
  assert (W5 : 0 <= total reserved (attempts s)) by (apply total_nonneg; eapply Forall_impl; [exact Hsz|apply reserved_nonneg]).
  pose proof (sum_Z_nonneg _ Hch). pose proof (sum_Z_nonneg _ Hlo). split; [unfold zlen, COMMAND_CAPACITY in *; lia|]. split; [lia|]. do 4 (split; [done|]).
  split; [|split; [destruct (worker s); auto|exact Hnone]]. intros Hw Hret.
  assert (Hz : forall f, (forall t r, pc t = Returned r -> f t = 0) -> total f (attempts s) = 0).
  { intros f Hf. clear - Hret Hf. induction Hret as [|t ts [r Hr] _ IH]; [done|]. by rewrite total_cons, IH, (Hf t r). }
  rewrite Hw in *. rewrite Hstop in *. rewrite Hact, Hpk, Hby.
  rewrite (Hz in_active), (Hz counted), (Hz reserved) by (intros t r Hr; unfold in_active, counted, reserved; by rewrite Hr).
  change (sum_Z []) with 0. rewrite zlen_nil in *. cbn [worker_packets worker_bytes]. change (zlen (@nil Z)) with 0. splits; lia.
Qed.

Lemma admission_exact_witness :
  (reachable false [3] stopped_state /\ q_bytes (shared stopped_state) = 0 /\ received stopped_state = 1)
  /\ (reachable true [1; 2] lossy_state /\ q_bytes (shared lossy_state) = sum_Z (lost lossy_state) /\ received lossy_state + 1 = 2).
Proof.
  split.
  - assert (H1 : Forall (fun n => 0 <= n) [3]) by (constructor; [lia|constructor]).
    assert (H2 : zlen [3] + 66 <= U32_MAX) by (vm_compute; discriminate).
    destruct (admission_exact false [3] stopped_state H1 H2 stopped_state_reachable) as (_ & _ & _ & _ & _ & _ & H & _).
    destruct H as (_ & _ & Hb & Hr); [reflexivity|constructor; [by exists Accepted|constructor]|].
    split; [exact stopped_state_reachable|]. split; [exact Hb|]. change (zlen (lost stopped_state)) with 0 in Hr. rewrite Z.add_0_r in Hr. rewrite Hr. reflexivity.
  - assert (H1 : Forall (fun n => 0 <= n) [1; 2]) by (constructor; [lia|constructor; [lia|constructor]]).
    assert (H2 : zlen [1; 2] + 66 <= U32_MAX) by (vm_compute; discriminate).
    destruct (admission_exact true [1; 2] lossy_state H1 H2 lossy_state_reachable) as (_ & _ & _ & _ & _ & _ & H & _).
    destruct H as (_ & _ & Hb & Hr); [reflexivity|constructor; [by exists Accepted|constructor; [by exists Accepted|constructor]]|].
    split; [exact lossy_state_reachable|]. split; [exact Hb|exact Hr].
Defined.

(** A worker that fails is not stuck behind the submitters, nor they behind
    it: from every reachable state in which it has begun to close admission, the
    calls in flight can return and the worker can drain the queue and stop, each
    call on its own in a bounded number of its own steps. *)
Theorem failing_worker_finishes weak sizes s
    (Hsizes : Forall (fun n => 0 <= n) sizes) (Hcalls : zlen sizes + 66 <= U32_MAX) (Hreach : reachable weak sizes s)
    (Hclosing : worker s = Closing \/ before_close (worker s) = false) :
  exists s', rtc (step weak) s s' /\ worker s' = Stopped /\ Forall returned (attempts s').
Proof.
  assert (Hclosed : exists s1, rtc (step weak) s s1 /\ before_close (worker s1) = false).
  { destruct Hclosing as [Hw|Hw]; [|by exists s].
    eexists. split; [eapply rtc_l; [apply worker_goes; rewrite Hw; apply worker_close|apply rtc_refl]|done]. }
  destruct Hclosed as (s1 & Hr1 & Hw1).
  assert (Hreach1 : reachable weak sizes s1) by (unfold reachable in *; by etransitivity).
  pose proof (reachable_inv weak sizes s1 Hsizes Hcalls Hreach1) as Hinv1.
  destruct (calls_finish weak s1) as (s2 & Hr2 & Hret & Hw2 & Hp2).
  { rewrite (ai_phase _ _ _ Hinv1), Hw1. discriminate. }
  assert (Hreach2 : reachable weak sizes s2) by (unfold reachable in *; by etransitivity).
  pose proof (reachable_inv weak sizes s2 Hsizes Hcalls Hreach2) as Hinv2.
  destruct (waiting_finishes _ _ s2 Hinv2) as (s3 & Hr3 & Hw3 & Ha3); [|done|].
  { rewrite Hw2. destruct (worker s1); try done; [by right|by left..]. }
  exists s3. split; [|split; [done|by rewrite Ha3]]. etransitivity; [exact Hr1|]. by etransitivity; [exact Hr2|].
Qed.

Lemma failing_worker_finishes_witness :
  exists s', rtc (step false) failed_state s' /\ worker s' = Stopped /\ Forall returned (attempts s').
Proof.
  assert (H1 : Forall (fun n => 0 <= n) [3]) by (constructor; [lia|constructor]).
  assert (H2 : zlen [3] + 66 <= U32_MAX) by (vm_compute; discriminate).
  exact (failing_worker_finishes false [3] failed_state H1 H2 failed_state_reachable (or_intror eq_refl)).
Defined.
