(* ===== verification/SpoolReader.v ===== *)
(** Reading pinned spool files back
    (crates/redunar-daemon/src/replay_spool_reader.rs): a scan that indexes the
    packets of a clip without their payload, and the packet source over it. *)
From S2P Require Import Prelude Bytes Text Profiles Replay ReplayRing PacketSource Spool.
Local Open Scope Z_scope.

Definition MAX_PACKET_BYTES : Z := 8 * 1024 * 1024.

Record Record_ := {
  rec_file : nat;
  rec_offset : Z;
  rec_timestamp : Z;
  rec_duration : Z;
  rec_keyframe : bool;
  rec_bytes : Z;
}.

(** The files are pinned, their contents do not change.  What can go wrong is
    the environment's: [trouble n] is what the n-th load of the cancel flag or
    system call runs into. *)
Record SpoolPackets := {
  files : list bytes;
  records : list Record_;
  spool_window : Z * Z;
  trouble : nat -> option IoError;
  operations : nat;
}.
Definition invalid {A} : outcome IoError A := Err OtherIo.

(** One cancel check or system call. *)
Definition attempt (trouble : nat -> option IoError) : st nat IoError unit :=
  fun n => (S n, match trouble n with Some e => Err e | None => Ok tt end).
(** [seek] and [read_exact]. *)
Definition read_exact (trouble : nat -> option IoError) (contents : bytes) (offset n : Z) : st nat IoError bytes :=
  _ ← attempt trouble;
  if zlen contents <? offset + n then lift invalid
  else mret (slice (Z.to_nat offset) (Z.to_nat n) contents).

(** * The scan *)
Record scan_state := {
  scan_records : list Record_;
  scan_bytes : Z;
  previous : option Z;
}.

(** [while records.front().is_some_and(..) { pop_front }]. *)
Fixpoint evict_records (budget : ReplayBudget) (seconds stop : Z) (rs : list Record_) (total : Z)
    : outcome IoError (list Record_ * Z) :=
  match rs with
  | [] => Ok ([], total)
  | first :: rest =>
      if (frame_capacity budget <? zlen rs) || (maximum_ring_bytes budget <? total)
         || (seconds * 1000000000 <? sat_sub stop (rec_timestamp first)) || negb (rec_keyframe first)
      then
        total ← expect (checked_sub total (rec_bytes first));
        evict_records budget seconds stop rest total
      else Ok (rs, total)
  end.

(** The body of the loop over one file's records: the header at [offset], the
    state with the record, and the next offset. *)
Definition scan_record (settings : ReplaySettings) (file : nat) (segment_bytes : Z)
    (header : bytes) (offset : Z) (s : scan_state) : outcome IoError (scan_state * Z) :=
  let budget := budget_from_settings settings in
  let timestamp := le_val (slice 0 8 header) in
  let duration := le_val (slice 8 8 header) in
  let key := unwrap_or (header !! 16%nat) 0 in
  let length := le_val (slice 17 4 header) in
  stop ← ok_or (checked_add U64_MAX timestamp duration) OtherIo;
  offset ← ok_or (checked_add U64_MAX offset 21) OtherIo;
  next ← ok_or (checked_add U64_MAX offset length) OtherIo;
  if (1 <? key) || (duration =? 0) || (1000000000 <? duration) || (length =? 0)
     || (MAX_PACKET_BYTES <? length) || (segment_bytes <? next)
     || match previous s with Some last => timestamp <=? last | None => false end
  then invalid
  else if maximum_ring_bytes budget <? length then invalid
  else
    if negb (zlen (scan_records s) =? 0) || (key =? 1) then
      total ← expect (checked_add U64_MAX (scan_bytes s) length);
      let rs := scan_records s ++
        [{| rec_file := file; rec_offset := offset; rec_timestamp := timestamp; rec_duration := duration;
            rec_keyframe := key =? 1; rec_bytes := length |}] in
      '(rs, total) ← evict_records budget (duration_seconds (Profiles.duration settings)) stop rs total;
      Ok ({| scan_records := rs; scan_bytes := total; previous := Some timestamp |}, next)
    else Ok ({| scan_records := scan_records s; scan_bytes := scan_bytes s; previous := Some timestamp |}, next).

(** [while offset < segment.bytes]; the loop panics here when [fuel] is spent. *)
Fixpoint scan_file (fuel : nat) (trouble : nat -> option IoError) (settings : ReplaySettings) (file : nat)
    (segment_bytes : Z) (contents : bytes) (offset : Z) (s : scan_state) : st nat IoError scan_state :=
  if segment_bytes <=? offset then mret s
  else
    match fuel with
    | O => lift Panic
    | S fuel =>
        _ ← attempt trouble;
        header ← read_exact trouble contents offset 21;
        '(s, next) ← lift (scan_record settings file segment_bytes header offset s);
        _ ← attempt trouble;
        scan_file fuel trouble settings file segment_bytes contents next s
    end.
Fixpoint scan_files (trouble : nat -> option IoError) (settings : ReplaySettings) (file : nat)
    (segs : list (ReplaySpoolSegment * bytes)) (s : scan_state) : st nat IoError scan_state :=
  match segs with
  | [] => mret s
  | (segment, contents) :: segs =>
      magic ← read_exact trouble contents 0 8;
      _ ← attempt trouble;
      if negb (bytes_eqb magic SEGMENT_MAGIC) || negb (zlen contents =? segment_bytes segment) then lift invalid
      else
        s ← scan_file (length contents) trouble settings file (segment_bytes segment) contents 8 s;
        scan_files trouble settings (S file) segs s
  end.

Definition operation_count : st nat IoError nat := fun n => (n, Ok n).
Definition scan (trouble : nat -> option IoError) (settings : ReplaySettings)
    (segs : list (ReplaySpoolSegment * bytes)) (operations : nat) : nat * outcome IoError SpoolPackets :=
  (s ← scan_files trouble settings 0 segs {| scan_records := []; scan_bytes := 0; previous := None |};
   first ← lift (ok_or (head (scan_records s)) OtherIo);
   final ← lift (ok_or (last (scan_records s)) OtherIo);
   stop ← lift (expect (checked_add U64_MAX (rec_timestamp final) (rec_duration final)));
   n ← operation_count;
   mret {| files := map snd segs; records := scan_records s; spool_window := (rec_timestamp first, stop);
           trouble := trouble; operations := n |}) operations.

(** * The packet source *)
Definition with_records (rs : list Record_) (n : nat) (s : SpoolPackets) : SpoolPackets :=
  {| files := files s; records := rs; spool_window := spool_window s; trouble := trouble s; operations := n |}.
Definition spool_check_cancel (s : SpoolPackets) : SpoolPackets * outcome IoError unit :=
  let '(n, r) := attempt (trouble s) (operations s) in (with_records (records s) n s, r).

(** What [next_packet] does with the first record. *)
Definition read_record (trouble : nat -> option IoError) (files : list bytes) (r : Record_)
    : st nat IoError EncodedReplayPacket :=
  contents ← lift (expect (files !! rec_file r));
  _ ← attempt trouble;
  bs ← read_exact trouble contents (rec_offset r) (rec_bytes r);
  lift (map_err (fun _ => OtherIo) (packet_new (rec_timestamp r) (rec_duration r) (rec_keyframe r) bs)).
Definition spool_next_packet (s : SpoolPackets) : SpoolPackets * outcome IoError (option EncodedReplayPacket) :=
  match spool_check_cancel s with
  | (s, Ok _) =>
      match records s with
      | [] => (s, Ok None)
      | r :: rest =>
          match read_record (trouble s) (files s) r (operations s) with
          | (n, Ok p) => (with_records rest n s, Ok (Some p))
          | (n, Err e) => (with_records rest n s, Err e)
          | (n, Panic) => (with_records rest n s, Panic)
          end
      end
  | (s, Err e) => (s, Err e)
  | (s, Panic) => (s, Panic)
  end.
