(* ===== verification/SpoolReaderFacts.v ===== *)
(** Theorems on the spool reader: the scan ends and never panics, what it keeps
    of pinned files, and the packet source over it. *)
From stdpp Require Import sorting.
From S2P Require Import Prelude Bytes Text Profiles Replay ReplayRing PacketSource Spool SpoolWorker SpoolFacts SpoolReader.
Local Open Scope Z_scope.

(** * What the scan keeps *)
(** A ring without contents whose limits are the budget's. *)
Definition clip_limits (settings : ReplaySettings) : ReplayRing := {|
  duration_limit_ns := duration_seconds (Profiles.duration settings) * 1000000000;
  packet_limit := frame_capacity (budget_from_settings settings);
  byte_limit := maximum_ring_bytes (budget_from_settings settings);
  packets := []; last_timestamp_ns := None; stored_bytes := 0;
  dropped_awaiting_keyframe := 0; evicted_packets := 0; evicted_bytes := 0 |}.
Definition clip_fits (settings : ReplaySettings) : list packet -> bool := fits (clip_limits settings).
Definition retain (settings : ReplaySettings) (kept : list packet) (p : packet) : list packet :=
  if (length kept =? 0)%nat && negb (keyframe p) then []
  else longest_suffix (clip_fits settings) (kept ++ [p]).
Definition retained (settings : ReplaySettings) (ps : list packet) : list packet :=
  foldl (retain settings) [] ps.

(** * Records and packets *)
Record indexes (files : list bytes) (r : Record_) (p : packet) : Prop := {
  ix_timestamp : rec_timestamp r = timestamp_ns p;
  ix_duration : rec_duration r = duration_ns p;
  ix_keyframe : rec_keyframe r = keyframe p;
  ix_bytes : rec_bytes r = zlen (packet_bytes p);
  ix_payload : exists before after,
    files !! rec_file r = Some (before ++ packet_bytes p ++ after) /\ rec_offset r = zlen before;
}.

Lemma budget_bounds settings :
  let b := budget_from_settings settings in
  900 <= frame_capacity b <= 216000 /\ 24750000 <= maximum_ring_bytes b <= 9900000000.
Proof. destruct settings as [[] [] [] []]; vm_compute; splits; done. Qed.

Lemma clip_fits_head settings p ps stop :
  (forall q, last (p :: ps) = Some q -> stop = sat_add U64_MAX (timestamp_ns q) (duration_ns q)) ->
  clip_fits settings (p :: ps) && keyframe p
  = negb ((frame_capacity (budget_from_settings settings) <? zlen (p :: ps))
          || (maximum_ring_bytes (budget_from_settings settings) <? total_bytes (p :: ps))
          || (duration_seconds (Profiles.duration settings) * 1000000000 <? sat_sub stop (timestamp_ns p))
          || negb (keyframe p)).
Proof.
  intros Hstop. unfold clip_fits, fits, span_exceeds. cbn [clip_limits packet_limit byte_limit duration_limit_ns head].
  destruct (last (p :: ps)) as [q|] eqn:E; [|by apply last_None in E]. rewrite (Hstop q eq_refl).
  rewrite !negb_orb, negb_involutive, !Z.leb_antisym. done.
Qed.

Lemma evict_records_spec files settings stop rs ps total :
  Forall2 (indexes files) rs ps -> total = total_bytes ps ->
  (forall q, last ps = Some q -> stop = sat_add U64_MAX (timestamp_ns q) (duration_ns q)) ->
  exists rs', evict_records (budget_from_settings settings) (duration_seconds (Profiles.duration settings)) stop rs total
      = Ok (rs', total_bytes (longest_suffix (clip_fits settings) ps))
    /\ Forall2 (indexes files) rs' (longest_suffix (clip_fits settings) ps).
Proof.
  intros Hix. revert total. induction Hix as [|r p rs ps Hr Hix IH]; intros total -> Hstop; [by exists []|].
  cbn [evict_records longest_suffix]. rewrite (clip_fits_head settings p ps stop Hstop).
  rewrite (ix_timestamp _ _ _ Hr), (ix_keyframe _ _ _ Hr).
  assert (zlen (r :: rs) = zlen (p :: ps)) as -> by (unfold zlen; cbn; by rewrite (Forall2_length _ _ _ Hix)).
  case_if_as E; cbn [negb]; [|by exists (r :: rs); split; [|by constructor]].
  rewrite (ix_bytes _ _ _ Hr), total_bytes_cons. unfold checked_sub. pose proof (total_bytes_nonneg ps).
  rewrite (proj2 (Z.leb_le _ _)) by lia. cbn [expect mbind outcome_bind].
  apply IH; [lia|]. intros q Hq. apply Hstop. destruct ps; [done|]. by rewrite last_cons_cons.
Qed.

(** * The scan never panics *)
Definition scan_inv (settings : ReplaySettings) (s : scan_state) : Prop :=
  scan_bytes s = sum_Z (map rec_bytes (scan_records s))
  /\ Forall (fun r => 0 <= rec_bytes r /\ rec_timestamp r + rec_duration r <= U64_MAX) (scan_records s)
  /\ scan_bytes s <= maximum_ring_bytes (budget_from_settings settings).

Lemma evict_records_total budget seconds stop rs total :
  total = sum_Z (map rec_bytes rs) -> Forall (fun r => 0 <= rec_bytes r) rs -> 0 <= maximum_ring_bytes budget ->
  exists rs' total', evict_records budget seconds stop rs total = Ok (rs', total')
    /\ suffix rs' rs /\ total' = sum_Z (map rec_bytes rs') /\ total' <= maximum_ring_bytes budget.
Proof.
  intros -> Hr Hb. induction Hr as [|r rs Hr Hrs IH]; cbn [evict_records]; [by exists [], 0|].
  case_if_as E.
  - cbn [map sum_Z foldr]. fold (sum_Z (map rec_bytes rs)). unfold checked_sub.
    pose proof (sum_Z_nonneg (map rec_bytes rs) ltac:(by apply Forall_map)). rewrite (proj2 (Z.leb_le _ _)) by lia.
    cbn [expect mbind outcome_bind]. replace (rec_bytes r + sum_Z (map rec_bytes rs) - rec_bytes r) with (sum_Z (map rec_bytes rs)) by lia.
    destruct IH as (rs' & total' & -> & Hsuf & H1 & H2). exists rs', total'. splits; [done|by apply suffix_cons_r|done..].
  - exists (r :: rs), (sum_Z (map rec_bytes (r :: rs))). splits; [done..|].
    rewrite !orb_false_iff, !Z.ltb_ge in E. lia.
Qed.

Lemma le_val_nonneg bs : is_bytes bs -> 0 <= le_val bs.
Proof. intros H. pose proof (le_val_bound bs H). lia. Qed.

Lemma scan_record_total settings file size header offset s :
  scan_inv settings s -> is_bytes header -> 0 <= offset ->
  match scan_record settings file size header offset s with
  | Ok (s', next) => scan_inv settings s' /\ offset + 21 < next <= size
  | Err _ => True
  | Panic => False
  end.
Proof.
  intros (Hsum & Hrs & Hmax) Hh Ho. unfold scan_record. cbv zeta.
  pose proof (le_val_nonneg _ (is_bytes_slice 0 8 header Hh)). pose proof (le_val_nonneg _ (is_bytes_slice 8 8 header Hh)).
  pose proof (le_val_nonneg _ (is_bytes_slice 17 4 header Hh)) as Hlen.
  set (timestamp := le_val (slice 0 8 header)) in *. set (duration := le_val (slice 8 8 header)) in *.
  set (length := le_val (slice 17 4 header)) in *.
  destruct (checked_add U64_MAX timestamp duration) as [stop|] eqn:E1; [apply checked_add_Some in E1 as [E1 ->]|done].
  cbn [ok_or mbind outcome_bind].
  destruct (checked_add U64_MAX offset 21) as [offset'|] eqn:E2; [apply checked_add_Some in E2 as [E2 ->]|done].
  cbn [ok_or mbind outcome_bind].
  destruct (checked_add U64_MAX (offset + 21) length) as [next|] eqn:E3; [apply checked_add_Some in E3 as [E3 ->]|done].
  cbn [ok_or mbind outcome_bind].
  case_if_as Ebad; [done|]. rewrite !orb_false_iff, Z.eqb_neq, !Z.ltb_ge in Ebad.
  destruct Ebad as ((((((_ & Ed) & _) & El) & _) & Ebound) & _). apply Z.eqb_neq in El.
  case_if_as Ebig; [done|]. apply Z.ltb_ge in Ebig.
  pose proof (budget_bounds settings) as [_ Hbudget]. cbv zeta in Hbudget.
  case_if_as Ekeep; [|by split; [by splits|lia]].
  unfold checked_add. rewrite (proj2 (Z.leb_le _ _)) by (unfold U64_MAX; lia). cbn [expect mbind outcome_bind].
  match goal with |- context [evict_records ?b ?sec ?stop ?rs ?total] =>
    destruct (evict_records_total b sec stop rs total) as (rs' & total' & -> & Hsuf & Ht & Hle) end.
  - rewrite map_app, sum_Z_app. cbn [map sum_Z foldr rec_bytes]. lia.
  - apply Forall_app. split; [by eapply Forall_impl; [exact Hrs|intros ? []]|by repeat constructor].
  - lia.
  - cbn [mbind outcome_bind]. split; [|split; [lia|done]]. split; [done|split; [|done]].
    eapply Forall_suffix; [|exact Hsuf]. apply Forall_app. split; [done|]. by repeat constructor.
Qed.

Lemma attempt_ensures trouble n (Q : nat -> unit -> Prop) : (forall n', Q n' tt) -> ensures (attempt trouble) n Q.
Proof. intros H. unfold ensures, attempt. destruct (trouble n); [done|apply H]. Qed.

Lemma read_exact_ensures trouble contents offset size n (Q : nat -> bytes -> Prop) :
  (offset + size <= zlen contents -> forall n', Q n' (slice (Z.to_nat offset) (Z.to_nat size) contents)) ->
  ensures (read_exact trouble contents offset size) n Q.
Proof.
  intros H. unfold read_exact. eapply (ensures_bind _ _ _ (fun _ _ => True)); [by apply attempt_ensures|]. intros n' [] _.
  case_if_as E; [done|]. apply Z.ltb_ge in E. by apply H.
Qed.

Lemma lift_ensures {A} (m : outcome IoError A) (n : nat) (Q : nat -> A -> Prop) :
  match m with Ok a => Q n a | Err _ => True | Panic => False end -> ensures (lift m) n Q.
Proof. by destruct m. Qed.

Lemma scan_file_total trouble settings file size contents fuel offset s n :
  is_bytes contents -> scan_inv settings s -> 0 <= offset -> size - offset <= Z.of_nat fuel ->
  ensures (scan_file fuel trouble settings file size contents offset s) n (fun _ s' => scan_inv settings s').
Proof.
  intros Hb. revert offset s n. induction fuel as [|fuel IH]; intros offset s n Hs Ho Hf; cbn [scan_file].
  { rewrite (proj2 (Z.leb_le _ _)) by lia. done. }
  case_if_as E; [done|].
  eapply (ensures_bind _ _ _ (fun _ _ => True)); [by apply attempt_ensures|]. intros n1 [] _.
  eapply (ensures_bind _ _ _ (fun _ h => is_bytes h)); [apply read_exact_ensures; intros; by apply is_bytes_slice|]. intros n2 h Hh.
  pose proof (scan_record_total settings file size h offset s Hs Hh Ho) as Hrec.
  eapply (ensures_bind _ _ _ (fun _ a => scan_inv settings a.1 /\ offset + 21 < a.2)).
  { apply lift_ensures. destruct (scan_record _ _ _ _ _ _) as [[s' next]| |]; [|done..]. cbn. intuition lia. }
  intros n3 [s' next] [Hs' Hnext]. cbn [fst snd] in *.
  eapply (ensures_bind _ _ _ (fun _ _ => True)); [by apply attempt_ensures|]. intros n4 [] _. apply IH; [done|lia|lia].
Qed.

Lemma scan_files_total trouble settings file segs s n :
  Forall (fun f => is_bytes f.2) segs -> scan_inv settings s ->
  ensures (scan_files trouble settings file segs s) n (fun _ s' => scan_inv settings s').
Proof.
  intros Hb. revert file s n. induction Hb as [|[segment contents] segs Hc _ IH]; intros file s n Hs; cbn [scan_files]; [done|].
  eapply (ensures_bind _ _ _ (fun _ _ => True)); [by apply read_exact_ensures|]. intros n1 magic _.
  eapply (ensures_bind _ _ _ (fun _ _ => True)); [by apply attempt_ensures|]. intros n2 [] _. case_if_as E; [done|].
  apply orb_false_iff in E as [_ E]. apply negb_false_iff, Z.eqb_eq in E.
  eapply ensures_bind; [apply scan_file_total; [done..|lia|]|intros n3 s' Hs'; by apply IH].
  cbn [snd] in *. rewrite <- E. unfold zlen. lia.
Qed.

(** * What the scan finds in the spool's own files *)
Lemma length_packet_header p : length (packet_header p) = 21%nat.
Proof. unfold packet_header. by rewrite !length_app, !length_le_bytes. Qed.

Lemma packet_header_fields p :
  packet_ok p ->
  le_val (slice 0 8 (packet_header p)) = timestamp_ns p /\ le_val (slice 8 8 (packet_header p)) = duration_ns p
  /\ unwrap_or (packet_header p !! 16%nat) 0 = (if keyframe p then 1 else 0)
  /\ le_val (slice 17 4 (packet_header p)) = zlen (packet_bytes p).
Proof.
  intros Hp. unfold packet_ok, MAX_PACKET_DURATION_NS, NANOSECONDS_PER_SECOND, MAX_SINGLE_PACKET_BYTES, U64_MAX in Hp.
  unfold packet_header, try_from, U32_MAX. rewrite (proj2 (Z.leb_le _ _)) by lia. unfold unwrap_or. cbn [default id].
  change (256 ^ Z.of_nat 8) with 18446744073709551616. splits.
  - rewrite <- (app_nil_l (le_bytes 8 (timestamp_ns p) ++ _)), (slice_app_mid 0 8 []) by by rewrite ?length_le_bytes.
    apply le_val_le_bytes. cbn. lia.
  - rewrite (slice_app_mid 8 8 (le_bytes 8 (timestamp_ns p))) by by rewrite length_le_bytes. apply le_val_le_bytes. cbn. lia.
  - by destruct (keyframe p).
  - rewrite !app_assoc, <- (app_nil_r (le_bytes 4 _)). rewrite (slice_app_mid 17 4) by (rewrite ?length_app, !length_le_bytes; done).
    apply le_val_le_bytes. cbn. lia.
Qed.

(** The state after a packet was seen. *)
Definition holds (files : list bytes) (s : scan_state) (kept : list packet) : Prop :=
  Forall2 (indexes files) (scan_records s) kept /\ scan_bytes s = total_bytes kept.
Definition after (s : scan_state) (ps : list packet) : Prop :=
  match previous s with Some t => Forall (fun p => t < timestamp_ns p) ps | None => True end.

Lemma scan_record_spec settings files file size before p rest s kept :
  holds files s kept -> after s [p] -> packet_ok p ->
  files !! file = Some (before ++ record_of p ++ rest) -> zlen before <= 2 ^ 60 ->
  size = zlen (before ++ record_of p ++ rest) ->
  total_bytes kept <= maximum_ring_bytes (budget_from_settings settings) ->
  exists s', scan_record settings file size (packet_header p) (zlen before) s
      = Ok (s', zlen before + packet_record_bytes p)
    /\ holds files s' (retain settings kept p) /\ previous s' = Some (timestamp_ns p).
Proof.
  intros [Hix Htot] Hafter Hp Hfile Hbefore -> Hmax. unfold scan_record. cbv zeta.
  destruct (packet_header_fields p Hp) as (-> & -> & -> & ->). pose proof (packet_bounds p Hp) as Hb. pose proof Hp as Hp'.
  unfold packet_ok, MAX_PACKET_DURATION_NS, NANOSECONDS_PER_SECOND in Hp'. pose proof (zlen_nonneg before). pose proof (zlen_nonneg rest).
  pose proof (budget_bounds settings) as [_ Hbudget]. cbv zeta in Hbudget.
  rewrite !zlen_app, record_length. unfold packet_record_bytes.
  rewrite (proj2 (checked_add_Some U64_MAX (timestamp_ns p) (duration_ns p) _) (conj (proj1 (proj2 (proj2 Hp'))) eq_refl)). cbn [ok_or mbind outcome_bind].
  rewrite (proj2 (checked_add_Some U64_MAX (zlen before) 21 (zlen before + 21))) by (unfold U64_MAX; lia). cbn [ok_or mbind outcome_bind].
  rewrite (proj2 (checked_add_Some U64_MAX (zlen before + 21) (zlen (packet_bytes p)) (zlen before + 21 + zlen (packet_bytes p)))) by (unfold U64_MAX; lia).
  cbn [ok_or mbind outcome_bind].
  assert (Hprev : match previous s with Some last => timestamp_ns p <=? last | None => false end = false).
  { unfold after in Hafter. destruct (previous s); [|done]. apply Forall_cons in Hafter as [Ha _]. by apply Z.leb_gt. }
  rewrite Hprev. unfold MAX_PACKET_BYTES.
  rewrite (proj2 (Z.eqb_neq (duration_ns p) 0)), (proj2 (Z.eqb_neq (zlen (packet_bytes p)) 0)) by lia.
  rewrite (proj2 (Z.ltb_ge 1000000000 _)), (proj2 (Z.ltb_ge (8 * 1024 * 1024) _)) by lia.
  rewrite (proj2 (Z.ltb_ge (zlen before + (8 + 8 + 1 + 4 + zlen (packet_bytes p) + zlen rest)) _)) by lia.
  rewrite (proj2 (Z.ltb_ge (maximum_ring_bytes _) _)) by lia.
  rewrite (proj2 (Z.ltb_ge 1 _)) by (destruct (keyframe p); lia). cbn [orb].
  assert (Hkey : ((if keyframe p then 1 else 0) =? 1) = keyframe p) by by destruct (keyframe p). rewrite Hkey.
  assert (Hempty : (zlen (scan_records s) =? 0) = (length kept =? 0)%nat).
  { rewrite <- (Forall2_length _ _ _ Hix). unfold zlen. by destruct (scan_records s). }
  rewrite Hempty. unfold retain. 
  replace (negb (length kept =? 0)%nat || keyframe p) with (negb ((length kept =? 0)%nat && negb (keyframe p)))
    by by destruct (length kept =? 0)%nat, (keyframe p).
  case_if_as Ekeep; [apply negb_true_iff in Ekeep|apply negb_false_iff in Ekeep]; rewrite Ekeep; cycle 1.
  { eexists. split; [do 2 f_equal; lia|]. cbn. split; [|done]. apply andb_true_iff in Ekeep as [Ek _].
    destruct kept; [|done]. apply Forall2_nil_inv_r in Hix. by split; [rewrite Hix|]. }
  rewrite Htot, (proj2 (checked_add_Some U64_MAX (total_bytes kept) (zlen (packet_bytes p)) (total_bytes kept + zlen (packet_bytes p)))) by (unfold U64_MAX; lia).
  cbn [expect mbind outcome_bind].
  destruct (evict_records_spec files settings (timestamp_ns p + duration_ns p)
     (scan_records s ++ [{| rec_file := file; rec_offset := zlen before + 21; rec_timestamp := timestamp_ns p;
        rec_duration := duration_ns p; rec_keyframe := keyframe p; rec_bytes := zlen (packet_bytes p) |}])
     (kept ++ [p]) (total_bytes kept + zlen (packet_bytes p))) as (rs' & -> & Hrs').
  - apply Forall2_app; [done|]. constructor; [|constructor]. constructor; try done. cbn.
    exists (before ++ packet_header p), rest. split.
    + rewrite Hfile. unfold record_of. by rewrite <- !app_assoc.
    + rewrite zlen_app. unfold zlen at 3. by rewrite length_packet_header.
  - rewrite total_bytes_app, total_bytes_cons. change (total_bytes []) with 0. lia.
  - intros q. rewrite last_snoc. intros [= <-]. by rewrite sat_add_exact by lia.
  - cbn [mbind outcome_bind]. eexists. split; [do 2 f_equal; lia|]. done.
Qed.

Lemma retain_bounded settings kept p :
  total_bytes kept <= maximum_ring_bytes (budget_from_settings settings) ->
  total_bytes (retain settings kept p) <= maximum_ring_bytes (budget_from_settings settings).
Proof.
  intros H. pose proof (budget_bounds settings) as [_ Hb]. cbv zeta in Hb. unfold retain.
  destruct ((length kept =? 0)%nat && negb (keyframe p)); [change (total_bytes []) with 0; lia|].
  destruct (longest_suffix_ok (clip_fits settings) (kept ++ [p])) as [->|[Hf _]]; [change (total_bytes []) with 0; lia|].
  by apply fits_bounds in Hf as [_ Hf].
Qed.

Lemma after_cons s p ps : StronglySorted earlier (p :: ps) -> after s (p :: ps) -> forall s', previous s' = Some (timestamp_ns p) -> after s' ps.
Proof.
  intros [_ Hp]%StronglySorted_inv _ s' E. unfold after. rewrite E. exact Hp.
Qed.

(** ** Runs that fail only when the environment does
    [settles]: without a panic, what is returned satisfies [Q] and none of the
    run's own cancel checks and system calls met trouble; a run that fails
    fails with the trouble of one of them. *)
Definition settles {A} (trouble : nat -> option IoError) (m : st nat IoError A) (n : nat) (Q : nat -> A -> Prop) : Prop :=
  match m n with
  | (n', Ok a) => (n <= n')%nat /\ (forall k, (n <= k < n')%nat -> trouble k = None) /\ Q n' a
  | (n', Err e) => exists k, (n <= k < n')%nat /\ trouble k = Some e
  | (_, Panic) => False
  end.

Lemma settles_ret {A} trouble (a : A) n (Q : nat -> A -> Prop) : Q n a -> settles trouble (mret a) n Q.
Proof. intros H. split; [lia|]. split; [lia|done]. Qed.
Lemma settles_bind {A B} trouble (m : st nat IoError A) (k : A -> st nat IoError B) n R Q :
  settles trouble m n R -> (forall n1 a, R n1 a -> settles trouble (k a) n1 Q) -> settles trouble (m ≫= k) n Q.
Proof.
  unfold settles, mbind, st_bind. intros Hm Hk. destruct (m n) as [n1 [a|e|]]; [|done..]. destruct Hm as (H1 & Hc & HR).
  specialize (Hk n1 a HR). destruct (k a n1) as [n2 [b|e|]]; [|by destruct Hk as (i & ? & ?); exists i; split; [lia|]|done].
  destruct Hk as (H2 & Hc2 & HQ). split; [lia|]. split; [|done]. intros i Hi. destruct (decide (i < n1)%nat); [apply Hc|apply Hc2]; lia.
Qed.
Lemma settles_weaken {A} trouble (m : st nat IoError A) n (R Q : nat -> A -> Prop) :
  settles trouble m n R -> (forall n' a, R n' a -> Q n' a) -> settles trouble m n Q.
Proof. unfold settles. destruct (m n) as [n' []]; [|done..]. intros (H1 & H2 & H3) H. by auto. Qed.
Lemma settles_ensures {A} trouble (m : st nat IoError A) n Q : settles trouble m n Q -> ensures m n Q.
Proof. unfold settles, ensures. destruct (m n) as [n' []]; [|done..]. by intros (_ & _ & H). Qed.

Lemma attempt_settles trouble n (Q : nat -> unit -> Prop) : (forall n', Q n' tt) -> settles trouble (attempt trouble) n Q.
Proof.
  intros H. unfold settles, attempt. destruct (trouble n) eqn:E; [exists n; split; [lia|done]|].
  split; [lia|]. split; [|apply H]. intros k Hk. by replace k with n by lia.
Qed.
Lemma lift_settles {A} trouble (m : outcome IoError A) (a : A) (n : nat) (Q : nat -> A -> Prop) :
  m = Ok a -> Q n a -> settles trouble (lift m) n Q.
Proof. intros -> H. by apply settles_ret. Qed.
Lemma read_exact_settles trouble contents offset size n (Q : nat -> bytes -> Prop) :
  offset + size <= zlen contents -> (forall n', Q n' (slice (Z.to_nat offset) (Z.to_nat size) contents)) ->
  settles trouble (read_exact trouble contents offset size) n Q.
Proof.
  intros Hl H. unfold read_exact. eapply (settles_bind _ _ _ _ (fun _ _ => True)); [by apply attempt_settles|]. intros n' [] _.
  rewrite (proj2 (Z.ltb_ge _ _)) by done. apply settles_ret, H.
Qed.

(** One file, from the record after [before]. *)
Lemma scan_file_spec trouble settings files file before g fuel s kept n :
  files !! file = Some (before ++ concat (map record_of g)) ->
  zlen before + zlen (concat (map record_of g)) <= MAX_SEGMENT_BYTES ->
  Forall packet_ok g -> StronglySorted earlier g -> after s g -> holds files s kept ->
  total_bytes kept <= maximum_ring_bytes (budget_from_settings settings) ->
  (length (concat (map record_of g)) <= fuel)%nat ->
  settles trouble (scan_file fuel trouble settings file (zlen (before ++ concat (map record_of g)))
             (before ++ concat (map record_of g)) (zlen before) s) n
    (fun _ s' => holds files s' (foldl (retain settings) kept g)
       /\ previous s' = match last g with Some q => Some (timestamp_ns q) | None => previous s end).
Proof.
  revert before fuel s kept n. induction g as [|p g IH]; intros before fuel s kept n Hfile Hsize Hok Hsort Hafter Hholds Hmax Hfuel.
  { cbn [map concat]. rewrite app_nil_r. destruct fuel; cbn [scan_file]; rewrite (proj2 (Z.leb_le _ _)) by lia; by apply settles_ret. }
  apply Forall_cons in Hok as [Hp Hok]. cbn [map concat] in *.
  pose proof (record_length p) as Hlen. pose proof (packet_bounds p Hp) as Hb. unfold packet_record_bytes in Hlen.
  rewrite zlen_app in Hsize. rewrite length_app in Hfuel. assert (Hbig : (21 < length (record_of p))%nat) by (clear - Hlen Hb; unfold zlen in *; lia).
  destruct fuel as [|fuel]; [lia|]. cbn [scan_file].
  rewrite (proj2 (Z.leb_gt _ _)) by (rewrite !zlen_app; pose proof (zlen_nonneg (concat (map record_of g))); lia).
  eapply (settles_bind _ _ _ _ (fun _ _ => True)); [by apply attempt_settles|]. intros n1 [] _.
  eapply (settles_bind _ _ _ _ (fun _ h => h = packet_header p)).
  { apply read_exact_settles; [rewrite !zlen_app, record_length; unfold packet_record_bytes; pose proof (zlen_nonneg (concat (map record_of g))); lia|]. intros n'. unfold record_of. rewrite <- app_assoc. apply slice_app_mid; [unfold zlen; lia|].
    by rewrite length_packet_header. }
  intros n2 h ->.
  destruct (scan_record_spec settings files file (zlen (before ++ record_of p ++ concat (map record_of g))) before p
    (concat (map record_of g)) s kept) as (s' & Hs' & Hholds' & Hprev); try done.
  { unfold after in *. destruct (previous s); [|done]. apply Forall_cons in Hafter as [Ha _]. by constructor. }
  { unfold MAX_SEGMENT_BYTES in Hsize. pose proof (zlen_nonneg (concat (map record_of g))). lia. }
  apply (settles_bind _ _ _ _ (fun _ a => a = (s', zlen before + packet_record_bytes p))); [by eapply lift_settles|].
  intros n3 a ->. eapply (settles_bind _ _ _ _ (fun _ _ => True)); [by apply attempt_settles|]. intros n4 [] _.
  assert (Hz : zlen before + packet_record_bytes p = zlen (before ++ record_of p)) by by rewrite zlen_app, record_length.
  rewrite app_assoc, Hz. eapply settles_weaken.
  - apply (IH (before ++ record_of p) fuel s' (retain settings kept p)); try done.
    + by rewrite <- app_assoc.
    + rewrite zlen_app. lia.
    + by apply StronglySorted_inv in Hsort as [? _].
    + by eapply after_cons.
    + by apply retain_bounded.
    + lia.
  - cbn beta. intros n' s2 [H1 H2]. split; [done|]. rewrite H2, Hprev. destruct g as [|q g]; [done|].
    rewrite last_cons_cons. destruct (last (q :: g)) eqn:El; [done|]. by apply last_None in El.
Qed.

Lemma last_concat_after s groups g :
  StronglySorted earlier (concat (g :: groups)) -> after s (concat (g :: groups)) -> g <> [] -> forall s',
  previous s' = match last g with Some q => Some (timestamp_ns q) | None => previous s end ->
  after s' (concat groups).
Proof.
  cbn [concat]. intros Hs _ Hne s' E. unfold after. rewrite E. destruct (last g) as [q|] eqn:El; [|by apply last_None in El].
  apply last_Some_elem_of in El. apply Forall_forall. intros p Hp.
  by apply (StronglySorted_app_1_elem_of _ _ _ _ _ Hs El Hp).
Qed.

Lemma foldl_retain_bounded settings kept ps :
  total_bytes kept <= maximum_ring_bytes (budget_from_settings settings) ->
  total_bytes (foldl (retain settings) kept ps) <= maximum_ring_bytes (budget_from_settings settings).
Proof. revert kept. induction ps as [|p ps IH]; intros kept H; [done|]. by apply IH, retain_bounded. Qed.

Lemma scan_files_spec trouble settings files file segs groups s kept n :
  pinned segs groups -> (forall i f, segs !! i = Some f -> files !! (file + i)%nat = Some f.2) ->
  StronglySorted earlier (concat groups) -> after s (concat groups) -> holds files s kept ->
  total_bytes kept <= maximum_ring_bytes (budget_from_settings settings) ->
  settles trouble (scan_files trouble settings file segs s) n
    (fun _ s' => holds files s' (foldl (retain settings) kept (concat groups))).
Proof.
  intros Hpin. revert file s kept n. induction Hpin as [|[segment contents] g segs groups (Hc & Hz & Hg) _ IH];
    intros file s kept n Hfiles Hsort Hafter Hholds Hmax; cbn [scan_files]; [by apply settles_ret|]. cbn [fst snd] in *. subst contents.
  eapply (settles_bind _ _ _ _ (fun _ h => h = SEGMENT_MAGIC)); [apply read_exact_settles; [unfold file_of; rewrite zlen_app; pose proof (zlen_nonneg (concat (map record_of g))); change (zlen SEGMENT_MAGIC) with 8; lia|done]|]. intros n1 magic ->.
  eapply (settles_bind _ _ _ _ (fun _ _ => True)); [by apply attempt_settles|]. intros n2 [] _.
  rewrite bytes_eqb_refl, Hz. fold (group_bytes g). rewrite Z.eqb_refl. cbn [negb orb].
  pose proof (group_size _ Hg) as Hsize. cbn [concat] in Hsort, Hafter. unfold group_bytes, file_of in Hsize |- *.
  change 8 with (zlen SEGMENT_MAGIC). eapply settles_bind.
  - apply (scan_file_spec trouble settings files file SEGMENT_MAGIC g); try done.
    + rewrite <- (Nat.add_0_r file). by apply (Hfiles 0%nat (segment, file_of g)).
    + by rewrite <- zlen_app.
    + apply Hg.
    + apply Hg.
    + unfold after in *. destruct (previous s); [|done]. by apply Forall_app in Hafter as [? _].
    + rewrite length_app. lia.
  - cbn beta. intros n3 s' [Hholds' Hprev]. cbn [concat]. rewrite foldl_app. apply IH.
    + intros i f Hf. replace (S file + i)%nat with (file + S i)%nat by lia. by apply Hfiles.
    + by eapply StronglySorted_app_1_r.
    + by eapply last_concat_after; [..|exact Hprev]; [|exact Hafter|apply Hg].
    + done.
    + by apply foldl_retain_bounded.
Qed.

(** * The reader as a packet source *)
Definition record_packet (files : list bytes) (r : Record_) : option packet :=
  match files !! rec_file r with
  | None => None
  | Some contents =>
      if zlen contents <? rec_offset r + rec_bytes r then None
      else
        match packet_new (rec_timestamp r) (rec_duration r) (rec_keyframe r)
                (slice (Z.to_nat (rec_offset r)) (Z.to_nat (rec_bytes r)) contents) with
        | Ok p => Some p
        | _ => None
        end
  end.
Definition remaining_packets (s : SpoolPackets) : list packet := omap (record_packet (files s)) (records s).
(** Every record leads to a packet. *)
Definition reads (s : SpoolPackets) : bool :=
  forallb (fun r => match record_packet (files s) r with Some _ => true | None => false end) (records s).

Lemma indexes_packet files r p : indexes files r p -> packet_ok p -> record_packet files r = Some p.
Proof.
  intros [Ht Hd Hk Hb (before & rest & Hf & Ho)] Hp. unfold record_packet. rewrite Hf, Ht, Hd, Hk, Hb, Ho.
  pose proof (zlen_nonneg rest) as Hrest. rewrite !zlen_app.
  match goal with |- context [?a <? ?b] => rewrite (proj2 (Z.ltb_ge a b)) by lia end.
  unfold zlen. rewrite !Nat2Z.id, slice_app_mid by done.
  rewrite (proj2 (packet_new_Ok (timestamp_ns p) (duration_ns p) (keyframe p) (packet_bytes p) p ltac:(apply Hp) ltac:(unfold packet_ok in Hp; lia))); [done|]. split; [done|by destruct p].
Qed.

Lemma read_record_ensures trouble files r n p :
  record_packet files r = Some p -> ensures (read_record trouble files r) n (fun _ p' => p' = p).
Proof.
  unfold record_packet, read_record. destruct (files !! rec_file r) as [contents|]; [|done]. case_if_as E; [done|].
  intros Hp. eapply (ensures_bind _ _ _ (fun _ c => c = contents)); [done|]. intros n1 c ->.
  eapply (ensures_bind _ _ _ (fun _ _ => True)); [by apply attempt_ensures|]. intros n2 [] _.
  eapply (ensures_bind _ _ _ (fun _ bs => bs = slice (Z.to_nat (rec_offset r)) (Z.to_nat (rec_bytes r)) contents));
    [by apply read_exact_ensures|]. intros n3 bs ->.
  apply lift_ensures. destruct (packet_new _ _ _ _) as [p'|e|]; [by injection Hp|done|done].
Qed.

Lemma with_records_reads rs n s : suffix rs (records s) -> reads s = true -> reads (with_records rs n s) = true.
Proof.
  unfold reads. rewrite !forallb_forall. intros [k Hk] H r Hr. cbn [with_records records files] in *. apply H. rewrite Hk.
  apply in_or_app. by right.
Qed.

Lemma spool_next_reads s : reads s = true -> reads (spool_next_packet s).1 = true.
Proof.
  intros H. unfold spool_next_packet, spool_check_cancel, attempt. destruct (trouble s (operations s)); [by apply (with_records_reads (records s))|].
  cbn [with_records records]. destruct (records s) as [|r rest] eqn:Er; [apply (with_records_reads []); [apply suffix_nil|done]|].
  assert (Hs : reads (with_records (r :: rest) (S (operations s)) s) = true) by (apply with_records_reads; [by rewrite Er|done]).
  destruct (read_record _ _ _ _) as [n [p|e|]]; (apply with_records_reads; [by apply suffix_cons_r|done]).
Qed.

(** A reader whose records all lead to packets, as [scan] makes them. *)
Record SpoolSource := { spool_packets : SpoolPackets; spool_reads : reads spool_packets = true }.
#[global] Instance spool_source : ReplayPacketSource SpoolSource := {
  window s := spool_window (spool_packets s);
  next_packet s :=
    ({| spool_packets := (spool_next_packet (spool_packets s)).1; spool_reads := spool_next_reads _ (spool_reads s) |},
     (spool_next_packet (spool_packets s)).2);
  check_cancel s :=
    ({| spool_packets := (spool_check_cancel (spool_packets s)).1; spool_reads := with_records_reads _ _ _ (reflexivity _) (spool_reads s) |},
     (spool_check_cancel (spool_packets s)).2);
}.

#[global] Instance spool_source_spec : ReplayPacketSourceSpec SpoolSource.
Proof.
  refine {| remaining s := remaining_packets (spool_packets s) |}.
  - intros [s Hs] s' r. cbn [next_packet spool_source spool_packets window]. intros [= <- <-]. cbn [spool_packets].
    unfold spool_next_packet, spool_check_cancel, attempt. destruct (trouble s (operations s)) as [e|]; [cbn; split; [done|by exists []]|].
    cbn [with_records records trouble files operations]. unfold remaining_packets. destruct (records s) as [|x rest] eqn:Er; [by cbn; rewrite ?Er|].
    unfold reads in Hs. rewrite Er in Hs. apply andb_true_iff in Hs as [Hx _].
    destruct (record_packet (files s) x) as [p|] eqn:Ex; [|done].
    pose proof (read_record_ensures (trouble s) (files s) x (S (operations s)) p Ex) as Hread. unfold ensures in Hread.
    destruct (read_record _ _ _ _) as [n [p'|e|]]; [subst p'| |done]; cbn; (split; [done|]); rewrite Ex; [done|by apply suffix_cons_r].
  - intros [s Hs] s' r. cbn. intros [= <- <-]. unfold attempt. cbn. splits; [done..|]. by destruct (trouble s _).
Defined.
