(* ===== verification/SpoolClips.v ===== *)
(** From a snapshot request to the packets of the clip: the spool, the scan of
    its pinned files and the ring policy agree. *)
From stdpp Require Import gmap strings sorting.
From S2P Require Import Prelude Bytes Text Profiles Replay ReplayRing PacketSource Spool SpoolWorker SpoolFacts SpoolTheorems SpoolReader SpoolReaderFacts.
Local Open Scope Z_scope.

(** * The longest suffix *)
Lemma suffix_self {A} (l : list A) : suffix l l.
Proof. by exists []. Qed.

Lemma longest_suffix_snoc ok ps p :
  (forall q l, suffix (q :: l) ps -> ok ((q :: l) ++ [p]) = true -> ok (q :: l) = true) ->
  longest_suffix ok (longest_suffix ok ps ++ [p]) = longest_suffix ok (ps ++ [p]).
Proof.
  induction ps as [|q ps IH]; intros Hok; [done|].
  assert (IH' : longest_suffix ok (longest_suffix ok ps ++ [p]) = longest_suffix ok (ps ++ [p])).
  { apply IH. intros q' l Hl. apply Hok. by apply suffix_cons_r. }
  cbn [longest_suffix]. destruct (ok (q :: ps) && keyframe q) eqn:E; [done|]. rewrite IH'. cbn [app longest_suffix].
  destruct (ok (q :: ps ++ [p]) && keyframe q) eqn:E'; [|done]. apply andb_true_iff in E' as [E1 E2].
  by rewrite (Hok q ps (suffix_self _) E1), E2 in E.
Qed.

Lemma longest_suffix_skip ok ps qs :
  (forall p l, suffix (p :: l) ps -> ok ((p :: l) ++ qs) = false) -> longest_suffix ok (ps ++ qs) = longest_suffix ok qs.
Proof.
  induction ps as [|p ps IH]; intros Hok; [done|]. cbn [app longest_suffix].
  change (p :: ps ++ qs) with ((p :: ps) ++ qs). rewrite (Hok p ps (suffix_self _)). cbn [andb]. apply IH. intros q l Hl. apply Hok. by apply suffix_cons_r.
Qed.

Lemma retain_longest settings kept p : retain settings kept p = longest_suffix (clip_fits settings) (kept ++ [p]).
Proof.
  unfold retain. destruct kept as [|q kept]; [|done]. cbn [length Nat.eqb app longest_suffix].
  destruct (keyframe p); [done|]. by rewrite andb_false_r.
Qed.

(** Packets that end in order. *)
Definition ends_by (p q : packet) : Prop := packet_end p <= packet_end q.

Lemma clip_fits_prefix settings q l p :
  Forall packet_ok (q :: l ++ [p]) -> StronglySorted ends_by ((q :: l) ++ [p]) ->
  clip_fits settings ((q :: l) ++ [p]) = true -> clip_fits settings (q :: l) = true.
Proof.
  intros Hok Hs. unfold clip_fits, fits. rewrite !andb_true_iff, !Z.leb_le, !negb_true_iff, zlen_app, total_bytes_app.
  pose proof (total_bytes_nonneg [p]). pose proof (zlen_nonneg [p]). intros [[H1 H2] H3]. splits; [lia..|].
  unfold span_exceeds in *. rewrite last_snoc in H3. cbn [head app] in *.
  destruct (last (q :: l)) as [z|] eqn:El; [|done]. rewrite Z.ltb_ge in H3 |- *.
  assert (Hz : z ∈ q :: l) by by apply last_Some_elem_of.
  pose proof (StronglySorted_app_1_elem_of _ (q :: l) [p] _ _ Hs Hz ltac:(by left)) as Hend. unfold ends_by, packet_end in Hend.
  unfold sat_sub, sat_add in *. lia.
Qed.

Lemma retained_longest settings ps :
  Forall packet_ok ps -> StronglySorted ends_by ps -> retained settings ps = longest_suffix (clip_fits settings) ps.
Proof.
  unfold retained. induction ps as [|p ps IH] using rev_ind; intros Hok Hs; [done|].
  rewrite foldl_snoc, IH; [|by apply Forall_app in Hok as [? _]|by eapply StronglySorted_app_1_l].
  rewrite retain_longest. apply longest_suffix_snoc. intros q l [k ->].
  apply clip_fits_prefix.
  - rewrite app_comm_cons. rewrite <- app_assoc in Hok. by apply Forall_app in Hok as [_ Hok].
  - rewrite <- app_assoc in Hs. by eapply StronglySorted_app_1_r.
Qed.

(** * The groups a snapshot leaves out do not fit *)
Lemma take_while_stops {A} (test : A -> bool) l rest x :
  l = take_while test l ++ x :: rest -> test x = false.
Proof.
  induction l as [|y l IH]; cbn; [by destruct rest|]. destruct (test y) eqn:E; cbn; [intros [=]; by apply IH|].
  by intros [= <- _].
Qed.

Lemma covering_split requested groups newest :
  last groups = Some newest -> Forall (fun g => 0 < group_end g) groups ->
  exists dropped, groups = dropped ++ covering requested groups /\ covering requested groups <> []
    /\ forall g, last dropped = Some g -> duration_seconds requested * NANOSECONDS_PER_SECOND <= group_end newest - group_end g.
Proof.
  intros Hlast Hpos. unfold covering. rewrite Hlast. set (cutoff := sat_sub _ _).
  set (test := fun g => cutoff <? group_end g).
  destruct (reverse_take_while_suffix test groups) as [dropped Hd]. exists dropped. splits; [done| |].
  - pose proof Hpos as Hp. apply last_Some in Hlast as [l ->]. apply Forall_app in Hp as [_ [Hp _]%Forall_cons].
    rewrite reverse_snoc. cbn [take_while].
    assert (test newest = true) as ->.
    { apply Z.ltb_lt. unfold cutoff, sat_sub, NANOSECONDS_PER_SECOND. destruct requested; cbn; lia. }
    rewrite reverse_cons. by intros [_ ?]%app_nil.
  - intros g [l ->]%last_Some. assert (Hg : 0 < group_end g).
    { rewrite Hd in Hpos. apply Forall_app in Hpos as [[_ Hp]%Forall_app _]. by apply Forall_cons in Hp as [? _]. }
    apply (f_equal reverse) in Hd. rewrite <- app_assoc, !reverse_app, reverse_involutive in Hd.
    cbn in Hd. rewrite <- app_assoc in Hd. apply take_while_stops in Hd. apply Z.ltb_ge in Hd. unfold cutoff, sat_sub in Hd. lia.
Qed.

Lemma group_last g : group_ok g -> exists z, last g = Some z /\ packet_ok z /\ group_end g = packet_end z.
Proof.
  intros [Hne Hok _ _ _]. unfold group_end. destruct (last g) as [z|] eqn:E; [|by apply last_None in E].
  exists z. splits; [done| |done]. rewrite Forall_forall in Hok. by apply Hok, last_Some_elem_of.
Qed.

Lemma last_concat_snoc {A} (l : list (list A)) g z : last g = Some z -> last (concat (l ++ [g])) = Some z.
Proof. intros H. rewrite concat_app. cbn [concat]. by rewrite app_nil_r, last_app, H. Qed.

Lemma sorted_le_last l p z : StronglySorted earlier l -> p ∈ l -> last l = Some z -> timestamp_ns p <= timestamp_ns z.
Proof.
  intros Hs Hp [k ->]%last_Some. apply elem_of_app in Hp as [Hp|Hp%list_elem_of_singleton]; [|by subst].
  pose proof (StronglySorted_app_1_elem_of _ _ _ _ _ Hs Hp ltac:(by left)) as H. unfold earlier in H. lia.
Qed.

(** The packets left out cannot be part of a clip of the requested duration. *)
Lemma dropped_do_not_fit settings groups :
  Forall group_ok groups -> StronglySorted earlier (concat groups) ->
  longest_suffix (clip_fits settings) (concat (covering (Profiles.duration settings) groups))
  = longest_suffix (clip_fits settings) (concat groups).
Proof.
  intros Hok Hs. destruct (last groups) as [newest|] eqn:El; [|by apply last_None in El as ->].
  assert (Hpos : Forall (fun g => 0 < group_end g) groups).
  { eapply Forall_impl; [exact Hok|]. intros g Hg. pose proof (group_range g Hg) as ([? _] & _ & ?). lia. }
  destruct (covering_split (Profiles.duration settings) groups newest El Hpos) as (dropped & Hsplit & Hne & Hd).
  set (chosen := covering (Profiles.duration settings) groups) in *. clearbody chosen. rewrite Hsplit, concat_app. symmetry.
  apply longest_suffix_skip. intros p l Hpl.
  assert (Hlastc : last chosen = Some newest).
  { rewrite Hsplit, last_app in El. destruct (last chosen) eqn:E; [by injection El as ->|by apply last_None in E]. }
  destruct (last dropped) as [g|] eqn:Eg; [|apply last_None in Eg as ->; destruct Hpl as [k Hk]; by destruct k].
  specialize (Hd g eq_refl). rewrite Hsplit in Hok, Hs. apply Forall_app in Hok as [Hok1 Hok2].
  rewrite Forall_forall in Hok1, Hok2.
  destruct (group_last newest) as (z & Ez & Hz & Hendz); [by apply Hok2, last_Some_elem_of|].
  destruct (group_last g) as (y & Ey & Hy & Hendy); [by apply Hok1, last_Some_elem_of|].
  apply last_Some in Hlastc as [chosen' Hc]. apply last_Some in Eg as [dropped' Hg].
  assert (Hp : timestamp_ns p <= timestamp_ns y).
  { rewrite concat_app in Hs. apply StronglySorted_app_1_l in Hs. apply (sorted_le_last _ _ _ Hs).
    - destruct Hpl as [k ->]. apply elem_of_app. right. by left.
    - rewrite Hg. by apply last_concat_snoc. }
  unfold clip_fits, fits, span_exceeds. rewrite last_app.
  assert (last (concat chosen) = Some z) as -> by (rewrite Hc; by apply last_concat_snoc).
  cbn [head app clip_limits duration_limit_ns]. rewrite (proj2 (Z.ltb_lt _ _)); [apply andb_false_r|].
  unfold packet_ok, packet_end, NANOSECONDS_PER_SECOND in *. unfold sat_sub, sat_add. lia.
Qed.

(** * The scan of pinned files *)
Lemma retain_sub settings kept p q : q ∈ retain settings kept p -> q ∈ kept \/ q = p.
Proof.
  rewrite retain_longest. destruct (longest_suffix_suffix (clip_fits settings) (kept ++ [p])) as [k Hk]. intros Hq.
  assert (q ∈ kept ++ [p]) as [?|?%list_elem_of_singleton]%elem_of_app by (rewrite Hk; apply elem_of_app; by right); [by left|by right].
Qed.

Lemma retained_sub settings ps kept q : q ∈ foldl (retain settings) kept ps -> q ∈ kept \/ q ∈ ps.
Proof.
  revert kept. induction ps as [|p ps IH]; intros kept Hq; [by left|]. cbn [foldl] in Hq.
  apply IH in Hq as [[?| ->]%retain_sub|Hq]; [by left|right; by left|right; by right].
Qed.

Lemma pinned_packets segs groups : pinned segs groups -> Forall packet_ok (concat groups).
Proof.
  induction 1 as [|f g segs groups (_ & _ & Hg) _ IH]; [constructor|]. cbn. apply Forall_app. split; [apply Hg|done].
Qed.

Lemma indexed_packets files rs ps :
  Forall2 (indexes files) rs ps -> Forall packet_ok ps ->
  omap (record_packet files) rs = ps /\ forallb (fun r => match record_packet files r with Some _ => true | None => false end) rs = true.
Proof.
  induction 1 as [|r p rs ps Hr _ IH]; intros Hok; [done|]. apply Forall_cons in Hok as [Hp Hok]. destruct (IH Hok) as [E1 E2].
  cbn. rewrite (indexes_packet files r p Hr Hp). by rewrite E1, E2.
Qed.

Lemma indexed_ends files rs ps f z :
  Forall2 (indexes files) rs ps -> head rs = Some f -> last rs = Some z ->
  exists first final, head ps = Some first /\ last ps = Some final /\ indexes files f first /\ indexes files z final.
Proof.
  intros H. destruct H as [|r p rs ps Hr H]; [done|]. intros [= <-]. revert r p Hr z.
  induction H as [|r' p' rs ps Hr' _ IH]; intros r p Hr z Hz.
  - injection Hz as <-. by exists p, p.
  - rewrite last_cons_cons in Hz. destruct (IH r' p' Hr' z Hz) as (first & final & _ & H2 & _ & H4).
    exists p, final. by rewrite last_cons_cons.
Qed.

(** What a scan of pinned files gives for the packets [clip] to keep: they are
    its packets, or the scan met trouble and fails with it, or there are none. *)
Definition scanned (trouble : nat -> option IoError) (n : nat) (clip : list packet) (x : nat * outcome IoError SpoolPackets) : Prop :=
  match x with
  | (n', Ok s) => (n <= n')%nat /\ (forall k, (n <= k < n')%nat -> trouble k = None)
      /\ reads s = true /\ remaining_packets s = clip
      /\ exists first final, head clip = Some first /\ last clip = Some final /\ spool_window s = (timestamp_ns first, packet_end final)
  | (n', Err e) => (exists k, (n <= k < n')%nat /\ trouble k = Some e) \/ (clip = [] /\ e = OtherIo)
  | (_, Panic) => False
  end.

Lemma scan_pinned trouble settings segs groups n :
  pinned segs groups -> StronglySorted earlier (concat groups) ->
  scanned trouble n (retained settings (concat groups)) (scan trouble settings segs n).
Proof.
  intros Hpin Hs. pose proof (pinned_packets _ _ Hpin) as Hok. unfold scan.
  assert (Hkept : Forall packet_ok (retained settings (concat groups))).
  { apply Forall_forall. intros q [Hq|Hq]%retained_sub; [by apply elem_of_nil in Hq|]. rewrite Forall_forall in Hok. by apply Hok. }
  assert (Hfiles : settles trouble (scan_files trouble settings 0 segs {| scan_records := []; scan_bytes := 0; previous := None |}) n
    (fun _ s => holds (map snd segs) s (retained settings (concat groups)))).
  { apply (scan_files_spec trouble settings (map snd segs) 0 segs groups _ [] n Hpin); [|done|done|by split; [constructor|]|].
    - intros i f Hf. cbn. rewrite list_lookup_fmap, Hf. done.
    - pose proof (budget_bounds settings) as [_ H]. cbv zeta in H. change (total_bytes []) with 0. lia. }
  unfold settles in Hfiles. unfold mbind at 1, st_bind at 1.
  destruct (scan_files _ _ _ _ _ n) as [n1 [s|e|]]; [|by left|done]. destruct Hfiles as (Hle & Hcalm & Hix & _).
  destruct (indexed_packets _ _ _ Hix Hkept) as [Hrem Hreads].
  destruct (scan_records s) as [|f rs] eqn:Er.
  { right. split; [|done]. by apply Forall2_nil_inv_l in Hix. }
  destruct (last (f :: rs)) as [z|] eqn:Hz; [|by apply last_None in Hz].
  destruct (indexed_ends _ _ _ f z Hix eq_refl Hz) as (first & final & H1 & H2 & Hi1 & Hi2).
  assert (Hfin : packet_ok final) by (rewrite Forall_forall in Hkept; by apply Hkept, last_Some_elem_of).
  cbn [head]. unfold mbind, st_bind, lift, ok_or. rewrite (ix_timestamp _ _ _ Hi2), (ix_duration _ _ _ Hi2).
  rewrite (proj2 (checked_add_Some U64_MAX _ _ _) (conj (proj1 (proj2 (proj2 Hfin))) eq_refl)).
  cbn. splits; [done..|]. exists first, final. splits; [done..|]. by rewrite (ix_timestamp _ _ _ Hi1).
Qed.

(** * The ring over the same packets *)
Fixpoint push_all (r : ReplayRing) (ps : list packet) : option ReplayRing :=
  match ps with
  | [] => Some r
  | p :: ps => '(r, _) ← push r p; push_all r ps
  end.

Definition same_limits (settings : ReplaySettings) (r : ReplayRing) : Prop :=
  duration_limit_ns r = duration_limit_ns (clip_limits settings)
  /\ packet_limit r = packet_limit (clip_limits settings) /\ byte_limit r = byte_limit (clip_limits settings).

Lemma same_limits_fits settings r ps : same_limits settings r -> fits r ps = clip_fits settings ps.
Proof. intros (H1 & H2 & H3). unfold clip_fits, fits. by rewrite H1, H2, H3. Qed.

Lemma longest_suffix_ext ok ok' ps : (forall l, ok l = ok' l) -> longest_suffix ok ps = longest_suffix ok' ps.
Proof. intros H. induction ps as [|p ps IH]; cbn; [done|]. by rewrite H, IH. Qed.

Lemma push_retains settings r p :
  ring_inv r -> same_limits settings r -> packet_ok p ->
  (forall l, last_timestamp_ns r = Some l -> l < timestamp_ns p) ->
  exists r' res, push r p = Some (r', res) /\ ring_inv r' /\ same_limits settings r'
    /\ packets r' = retain settings (packets r) p /\ last_timestamp_ns r' = Some (timestamp_ns p).
Proof.
  intros Hinv Hlim Hp Hlast. pose proof (budget_bounds settings) as [_ Hb]. cbv zeta in Hb.
  assert (Hfit : zlen (packet_bytes p) <= byte_limit r).
  { destruct Hlim as (_ & _ & ->). change (byte_limit (clip_limits settings)) with (maximum_ring_bytes (budget_from_settings settings)).
    pose proof (packet_bounds p Hp). lia. }
  destruct (decide (packets r = [] /\ keyframe p = false)) as [[He Hk]|Hk].
  - destruct (push_meets_spec r p Hinv Hp) as (r' & res & E & Hinv' & _). exists r', res. splits; [done..| | |];
      unfold push in E; rewrite (proj2 (Z.ltb_ge _ _)) in E by done;
      replace (match last_timestamp_ns r with Some l => timestamp_ns p <=? l | None => false end) with false in E
        by (destruct (last_timestamp_ns r) as [l|]; [symmetry; apply Z.leb_gt, Hlast|]; done);
      cbn in E; rewrite He, bool_decide_true, Hk in E by done; injection E as <- _; cbn; [done| |done].
    unfold retain. by rewrite He, Hk.
  - do 2 eexists. rewrite push_stored; [|done..|].
    2: { destruct (packets r); [right|by left]. destruct (keyframe p); [done|]. naive_solver. }
    splits; [done|by apply pushed_inv|done| |done].
    cbn. rewrite retain_longest. apply longest_suffix_ext. intros l. by apply same_limits_fits.
Qed.

Lemma push_all_retained settings ps r :
  ring_inv r -> same_limits settings r -> Forall packet_ok ps -> StronglySorted earlier ps ->
  (forall l, last_timestamp_ns r = Some l -> Forall (fun p => l < timestamp_ns p) ps) ->
  exists r', push_all r ps = Some r' /\ packets r' = foldl (retain settings) (packets r) ps.
Proof.
  revert r. induction ps as [|p ps IH]; intros r Hinv Hlim Hok Hs Hlast; cbn [push_all foldl]; [by exists r|].
  apply Forall_cons in Hok as [Hp Hok]. apply StronglySorted_inv in Hs as [Hs Hlater].
  destruct (push_retains settings r p Hinv Hlim Hp) as (r1 & res & -> & Hinv1 & Hlim1 & <- & Hl1).
  { intros l Hl. apply Hlast in Hl. by apply Forall_cons in Hl as [? _]. }
  cbn. apply IH; [done..|]. intros l. rewrite Hl1. by intros [= <-].
Qed.

(** What sealing leaves is well formed and a part of the history. *)
Lemma pin_snapshot_groups limits w seqs h :
  limits_ok limits -> spool_inv limits (spool w) seqs h ->
  Forall group_ok (sealed (seal limits h)) /\ StronglySorted earlier (concat (sealed (seal limits h)))
  /\ suffix (concat (sealed (seal limits h))) (recorded h).
Proof.
  intros Hl [Hs _ _ Hsort Hw]. pose proof (seal_within limits h) as Hwithin.
  assert (Hopen : open_group (seal limits h) = []) by (unfold seal; by destruct (open_group h) eqn:E).
  assert (Hrec : recorded (seal limits h) = concat (sealed (seal limits h))) by (unfold recorded; by rewrite Hopen, app_nil_r).
  rewrite Hrec in Hwithin. splits; [|by eapply sorted_suffix|done].
  assert (Hg : Forall group_ok (sealed h)) by apply Hs. unfold seal. destruct (open_group h) as [|p g] eqn:E; [done|].
  cbn [sealed]. eapply Forall_suffix; [|apply trim_suffix]. apply Forall_app. split; [done|]. constructor; [|constructor].
  destruct (current (spool w)); [|done]. apply Hw.
Qed.

(** * Theorems *)
(** The scan ends and never panics, whatever the pinned files hold and
    whatever the system does: every loop iteration moves past a record, and no
    sum, difference or lookup of it can overflow or go out of range. *)
Theorem scan_total trouble settings segs n (Hbytes : Forall (fun f => is_bytes f.2) segs) :
  (scan trouble settings segs n).2 <> Panic.
Proof.
  apply (ensures_total _ _ (fun _ _ => True)). unfold scan. pose proof (budget_bounds settings) as [_ Hb]. cbv zeta in Hb.
  eapply ensures_bind; [apply (scan_files_total trouble settings 0 segs); [done|]|].
  - split; [done|split; [by apply Forall_nil_2|cbn [scan_bytes]; lia]].
  - intros n1 s (_ & Hrs & _).
    eapply (ensures_bind _ _ _ (fun _ _ => True)); [apply lift_ensures; by destruct (head _)|]. intros n2 f _.
    eapply (ensures_bind _ _ _ (fun _ z => last (scan_records s) = Some z)); [apply lift_ensures; by destruct (last _)|]. intros n3 z Hz.
    eapply (ensures_bind _ _ _ (fun _ _ => True)); [|done]. apply lift_ensures.
    rewrite Forall_forall in Hrs. destruct (Hrs z) as [_ Hle]; [by apply last_Some_elem_of|].
    unfold checked_add. by rewrite (proj2 (Z.leb_le _ _)) by done.
Qed.

Lemma scan_total_witness :
  (scan (fun _ => None) demo_settings [(segment_of 1 [], SEGMENT_MAGIC ++ repeat 255 21)] 0%nat).2 <> Panic.
Proof.
  apply (scan_total (fun _ => None) demo_settings [(segment_of 1 [], SEGMENT_MAGIC ++ repeat 255 21)] 0%nat).
  constructor; [|constructor]. apply is_bytes_check. vm_compute. reflexivity.
Defined.

(** The scan keeps exactly what the ring in memory would hold.  On files
    pinned by a snapshot, whenever the clip's budget is one the ring can have,
    the packets of the scan are those of a fresh ring after pushing every packet
    of the files, although the scan only reads the record headers. *)
Theorem scan_matches_ring trouble settings segs groups n
    (Hpin : pinned segs groups) (Hsorted : StronglySorted earlier (concat groups))
    (Hbudget : maximum_ring_bytes (budget_from_settings settings) <= MAX_IN_MEMORY_REPLAY_BYTES) :
  exists r, push_all (ring_new settings) (concat groups) = Some r
    /\ scanned trouble n (packets r) (scan trouble settings segs n).
Proof.
  assert (Hlim : same_limits settings (ring_new settings)).
  { pose proof (budget_bounds settings) as [Hf Hb]. cbv zeta in Hf, Hb.
    unfold same_limits, ring_new, clip_limits. cbv zeta. cbn [duration_limit_ns packet_limit byte_limit]. splits.
    - rewrite sat_mul_exact; [done|]. destruct settings as [[] ? ? ?]; vm_compute; discriminate.
    - lia.
    - lia. }
  destruct (push_all_retained settings (concat groups) (ring_new settings) (ring_new_inv settings) Hlim (pinned_packets _ _ Hpin) Hsorted)
    as (r & Hpush & Hr); [by intros|].
  exists r. split; [done|]. rewrite Hr. by apply (scan_pinned trouble settings segs groups).
Qed.

Definition demo_group : list packet := [demo_packet 1 true; demo_packet 2 false].
Lemma demo_group_ok : group_ok demo_group.
Proof.
  constructor; [discriminate| | |reflexivity|vm_compute; discriminate].
  - repeat (constructor; [repeat split; vm_compute; discriminate || reflexivity|]). constructor.
  - repeat (constructor; [|repeat constructor]). constructor.
Qed.
Lemma scan_matches_ring_witness :
  exists r, push_all (ring_new demo_settings) (concat [demo_group]) = Some r
    /\ scanned (fun _ => None) 0%nat (packets r) (scan (fun _ => None) demo_settings [(segment_of 1 demo_group, file_of demo_group)] 0%nat).
Proof.
  apply (scan_matches_ring (fun _ => None) demo_settings [(segment_of 1 demo_group, file_of demo_group)] [demo_group] 0%nat).
  - constructor; [|constructor]. split; [reflexivity|split; [reflexivity|apply demo_group_ok]].
  - cbn [concat]. rewrite app_nil_r. apply demo_group_ok.
  - vm_compute. discriminate.
Defined.

(** C18: from a snapshot request to the clip.  Let [clip] be the longest part of
    the recorded history that ends with the newest packet, starts with a keyframe
    and is within the duration, frame and byte budget.  A scan of the worker's
    answer whose own cancel checks and system calls go well returns, when [clip]
    has packets, a packet source that holds exactly [clip], whose records all
    lead to packets and whose window runs from the first packet's start to the
    last one's end, although the worker handed over only the newest files; it
    fails only with the trouble of one of those calls, or when [clip] is empty;
    and it does not panic. *)
Theorem saved_clip_correct limits w seqs h settings w' continues segs trouble n
    (Hlimits : limits_ok limits) (Hinv : spool_inv limits (spool w) seqs h)
    (Hroom : next_sequence (spool w) < U64_MAX) (Hends : StronglySorted ends_by (recorded h))
    (Hstep : worker_step limits (PrepareSnapshot (Profiles.duration settings) false) w = (w', continues, Some (Ok segs))) :
  let clip := longest_suffix (clip_fits settings) (concat (sealed (seal limits h))) in
  match scan trouble settings segs n with
  | (n', Ok s) => (forall k, (n <= k < n')%nat -> trouble k = None) /\ reads s = true /\ remaining_packets s = clip
      /\ exists first final, head clip = Some first /\ last clip = Some final /\ spool_window s = (timestamp_ns first, packet_end final)
  | (n', Err e) => (exists k, (n <= k < n')%nat /\ trouble k = Some e) \/ (clip = [] /\ e = OtherIo)
  | (_, Panic) => False
  end.
Proof.
  pose proof (worker_step_spec limits (PrepareSnapshot (Profiles.duration settings) false) w seqs h Hlimits Hinv
    ltac:(constructor) ltac:(intros q p _ H; by apply elem_of_nil in H) Hroom) as Hspec.
  rewrite Hstep in Hspec. destruct Hspec as [[Hpin _] _]. set (groups := sealed (seal limits h)) in *.
  assert (Hgroups : Forall group_ok groups /\ StronglySorted earlier (concat groups) /\ StronglySorted ends_by (concat groups)).
  { destruct (pin_snapshot_groups limits w seqs h Hlimits Hinv) as (H1 & H2 & [k Hk]). splits; [done..|].
    rewrite Hk in Hends. by eapply StronglySorted_app_1_r. }
  destruct Hgroups as (Hok & Hs & He).
  destruct (covering_suffix (Profiles.duration settings) groups) as [dropped Hd].
  assert (Hsc : StronglySorted earlier (concat (covering (Profiles.duration settings) groups))).
  { rewrite Hd, concat_app in Hs. by eapply StronglySorted_app_1_r. }
  assert (Hec : StronglySorted ends_by (concat (covering (Profiles.duration settings) groups))).
  { rewrite Hd, concat_app in He. by eapply StronglySorted_app_1_r. }
  cbv zeta. pose proof (scan_pinned trouble settings segs _ n Hpin Hsc) as H.
  rewrite (retained_longest settings _ (pinned_packets _ _ Hpin) Hec), dropped_do_not_fit in H by done.
  unfold scanned in H. destruct (scan _ _ _ _) as [n' [s|e|]]; [|done..]. by destruct H as (_ & H).
Qed.

(** The state after two seconds of history. *)
Definition demo_reached : Worker := (worker_loop demo_limits demo_commands demo_worker).1.1.
Lemma demo_reached_inv : exists seqs, spool_inv demo_limits (spool demo_reached) seqs demo_history.
Proof.
  unfold demo_reached. destruct demo_final as [H1 H2]. destruct (worker_loop demo_limits demo_commands demo_worker) as [[w' rest] rs] eqn:E.
  cbn [fst snd] in *. subst rest.
  destruct (worker_loop_spec demo_limits demo_worker [] {| sealed := []; open_group := [] |} demo_commands w' [] rs
    (limits_new_ok _ _ _) demo_inv eq_refl demo_order ltac:(vm_compute; discriminate) E) as (handled & Eh & _ & [Hf|(_ & _ & Hinv)]).
  - by rewrite H1 in Hf.
  - rewrite app_nil_r in Eh. by subst handled.
Qed.
Lemma demo_answer : exists w' c segs,
  worker_step demo_limits (PrepareSnapshot Seconds15 false) demo_reached = (w', c, Some (Ok segs)).
Proof.
  assert (H : match (worker_step demo_limits (PrepareSnapshot Seconds15 false) demo_reached).2 with Some (Ok _) => true | _ => false end = true)
    by (vm_compute; reflexivity).
  destruct (worker_step _ _ _) as [[w' c] [[segs|e|]|]]; [by eexists _, _, _|done..].
Qed.
Lemma saved_clip_correct_witness :
  exists segs s, (scan (fun _ => None) demo_settings segs 0%nat).2 = Ok s
    /\ remaining_packets s = longest_suffix (clip_fits demo_settings) (concat (sealed (seal demo_limits demo_history))).
Proof.
  destruct demo_reached_inv as [seqs Hinv]. destruct demo_answer as (w' & c & segs & Hstep). exists segs.
  assert (Hends : StronglySorted ends_by (recorded demo_history))
    by (constructor; [constructor; [constructor|constructor]|constructor; [vm_compute; discriminate|constructor]]).
  pose proof (saved_clip_correct demo_limits demo_reached seqs demo_history demo_settings w' c segs (fun _ => None) 0%nat
    (limits_new_ok _ _ _) Hinv ltac:(vm_compute; reflexivity) Hends Hstep) as H.
  cbv zeta in H. destruct (scan _ _ _ _) as [n' [s|e|]].
  - exists s. split; [reflexivity|]. apply H.
  - exfalso. destruct H as [(k & _ & Hk)|[Hk _]]; [discriminate Hk|]. vm_compute in Hk. discriminate Hk.
  - destruct H.
Defined.
