(* ===== verification/Encoder.v ===== *)
(** The contract between the hardware encoder and the replay ring
    (crates/redunar-daemon/src/replay_encoder.rs): stream descriptions, packet
    framing, bounded encoder results, DMA-BUF frames, and the packet flow that
    fails closed.  The backend itself (GPU driver calls) is not modelled. *)
From stdpp Require Import sorting.
From Stdlib Require String.
From S2P Require Import Prelude Bytes Profiles Replay ReplayRing CaptureProtocol.
Local Open Scope Z_scope.

Definition MAX_DMABUF_PLANES : Z := 4.
Definition MAX_CODEC_PRIVATE_BYTES : Z := 64 * 1024.
Definition MAX_PACKETS_PER_FRAME : Z := 8.
Definition MAX_ENCODED_BYTES_PER_FRAME : Z := 8 * 1024 * 1024.
(** [redunar_capture::REPLAY_ENCODER_PIPELINE_DEPTH]. *)
Definition MAX_HARDWARE_INPUTS_IN_FLIGHT : Z := 4.

Inductive ReplayEncoderError :=
| InvalidStream | InvalidCodecHeaders | InvalidDmaBufFrame | InvalidPacketFraming
| PacketBatchExceeded | PacketError (e : ReplayPacketError) | RingError (e : ReplayRingError)
| InvalidLifecycle | InvalidInputCompletion | BackendFailed (message : String.string).

(** * Codec headers and packet framing *)
(** [data.get(offset..offset + n)]. *)
Definition get_slice (offset n : nat) (data : bytes) : option bytes :=
  if (offset + n <=? length data)%nat then Some (slice offset n data) else None.

(** The loop of [validate_h264_packet]; every iteration consumes at least five
    bytes, so the length of the packet is enough fuel (running out would be
    [Panic], which [validate_h264_no_panic] excludes). *)
Fixpoint h264_loop (fuel : nat) (remaining : bytes) (units : Z) : outcome ReplayEncoderError Z :=
  match remaining with
  | [] => Ok units
  | _ :: _ =>
      match fuel with
      | O => Panic
      | S fuel =>
          length_bytes ← ok_or (get_slice 0 4 remaining) InvalidPacketFraming;
          let len := Z.to_nat (be_val length_bytes) in
          if (len =? 0)%nat || (length remaining <? 4 + len)%nat then Err InvalidPacketFraming
          else h264_loop fuel (drop (4 + len) remaining) (sat_add U8_MAX units 1)
      end
  end.
Definition validate_h264_packet (packet : bytes) : outcome ReplayEncoderError unit :=
  units ← h264_loop (length packet) packet 0;
  if units =? 0 then Err InvalidPacketFraming else Ok tt.

Definition skip_avc_parameter_set (data : bytes) (offset : nat) : outcome ReplayEncoderError nat :=
  length_bytes ← ok_or (get_slice offset 2 data) InvalidStream;
  let len := Z.to_nat (be_val length_bytes) in
  if (len =? 0)%nat then Err InvalidStream
  else if (offset + 2 + len <=? length data)%nat then Ok (offset + 2 + len)%nat
  else Err InvalidStream.

(** [for _ in 0..count { offset = skip_avc_parameter_set(data, offset)?; }]. *)
Fixpoint skip_sets (count : nat) (data : bytes) (offset : nat) : outcome ReplayEncoderError nat :=
  match count with
  | O => Ok offset
  | S count => offset ← skip_avc_parameter_set data offset; skip_sets count data offset
  end.

Definition validate_avc_decoder_configuration (data : bytes) : outcome ReplayEncoderError unit :=
  if (length data <? 7)%nat then Err InvalidStream
  else
    version ← index data 0;
    if negb (version =? 1) then Err InvalidStream
    else
      size ← index data 4;
      if negb (Z.land size 3 =? 3) then Err InvalidStream
      else
        count ← index data 5;
        let sequence_count := Z.to_nat (Z.land count 31) in
        if (sequence_count =? 0)%nat then Err InvalidStream
        else
          offset ← skip_sets sequence_count data 6;
          picture ← ok_or (data !! offset) InvalidStream;
          let offset := (offset + 1)%nat in
          if picture =? 0 then Err InvalidStream
          else
            offset ← skip_sets (Z.to_nat picture) data offset;
            if (length data <? offset)%nat then Err InvalidStream else Ok tt.

Definition validate_av1_codec_configuration (data : bytes) : outcome ReplayEncoderError unit :=
  if (length data <? 4)%nat then Err InvalidStream
  else
    marker ← index data 0;
    if negb (marker =? 0x81) then Err InvalidStream else Ok tt.

(** * Stream descriptions *)
Inductive ReplayVideoCodec := H264 | Av1.
#[global] Instance ReplayVideoCodec_eq_dec : EqDecision ReplayVideoCodec.
Proof. solve_decision. Defined.
Inductive ReplayPacketFormat := H264LengthPrefixed4 | Av1Obu.

(** b"V_MPEG4/ISO/AVC" and b"V_AV1". *)
Definition matroska_codec_id (c : ReplayVideoCodec) : bytes :=
  match c with
  | H264 => [86; 95; 77; 80; 69; 71; 52; 47; 73; 83; 79; 47; 65; 86; 67]
  | Av1 => [86; 95; 65; 86; 49]
  end.

Record ReplayVideoStream := {
  codec : ReplayVideoCodec;
  packet_format : ReplayPacketFormat;
  stream_width : Z;
  stream_height : Z;
  stream_fps : Z;
  codec_private : bytes;
}.

Definition stream_new (c : ReplayVideoCodec) (f : ReplayPacketFormat) (w h fps : Z) (private : bytes)
    : outcome ReplayEncoderError ReplayVideoStream :=
  if negb (replay_source_dimensions_supported w h) then Err InvalidStream
  else if negb (((fps =? 30) || (fps =? 60) || (fps =? 120))
                || (bool_decide (c = H264) && (1 <=? fps) && (fps <=? 240)))
  then Err InvalidStream
  else if MAX_CODEC_PRIVATE_BYTES <? zlen private then Err InvalidStream
  else
    _ ← match c, f with
        | H264, H264LengthPrefixed4 => validate_avc_decoder_configuration private
        | Av1, Av1Obu => validate_av1_codec_configuration private
        | _, _ => Err InvalidStream
        end;
    Ok {| codec := c; packet_format := f; stream_width := w; stream_height := h;
          stream_fps := fps; codec_private := private |}.

Definition validate_packet (s : ReplayVideoStream) (packet : bytes) : outcome ReplayEncoderError unit :=
  match packet_format s with
  | H264LengthPrefixed4 => validate_h264_packet packet
  | Av1Obu => if (length packet =? 0)%nat then Err InvalidPacketFraming else Ok tt
  end.

(** * DMA-BUF frames *)
(** [u32::from_le_bytes] of the four-character codes. *)
Definition DRM_FORMAT_R8G8B8A8 : Z := le_val [82; 65; 50; 52].
Definition DRM_FORMAT_B8G8R8A8 : Z := le_val [66; 65; 50; 52].
Definition DRM_FORMAT_A2B10G10R10 : Z := le_val [65; 66; 51; 48].
Definition DRM_FORMAT_A2R10G10B10 : Z := le_val [65; 82; 51; 48].
Definition DRM_FORMAT_XRGB8888 : Z := le_val [88; 82; 50; 52].
Definition DRM_FORMAT_ARGB8888 : Z := le_val [65; 82; 50; 52].
Definition DRM_FORMAT_XBGR8888 : Z := le_val [88; 66; 50; 52].
Definition DRM_FORMAT_ABGR8888 : Z := le_val [65; 66; 50; 52].

Record DmaBufPlane := { plane_offset : Z; plane_stride : Z }.
Record DmaBufImagePlane := { object_index : Z; image_offset : Z; image_stride : Z }.
(** File descriptors are their numbers. *)
Record DmaBufReplayFrame := {
  frame_gpu : option CaptureGpuIdentity;
  objects : list Z;
  frame_width : Z;
  frame_height : Z;
  drm_fourcc : Z;
  frame_modifier : Z;
  frame_timestamp_ns : Z;
  frame_duration_ns : Z;
  image_planes : list DmaBufImagePlane;
}.

Definition with_gpu_identity (identity : option CaptureGpuIdentity) (f : DmaBufReplayFrame)
    : DmaBufReplayFrame := {|
  frame_gpu := identity; objects := objects f; frame_width := frame_width f;
  frame_height := frame_height f; drm_fourcc := drm_fourcc f; frame_modifier := frame_modifier f;
  frame_timestamp_ns := frame_timestamp_ns f; frame_duration_ns := frame_duration_ns f;
  image_planes := image_planes f |}.

Definition elem_Z (x : Z) (l : list Z) : bool := existsb (Z.eqb x) l.

(** The conditions both constructors check before the planes. *)
Definition frame_shape_bad (w h fourcc timestamp duration : Z) : bool :=
  negb (replay_source_dimensions_supported w h) || (fourcc =? 0) || (duration =? 0)
  || (NANOSECONDS_PER_SECOND <? duration)
  || match checked_add U64_MAX timestamp duration with None => true | Some _ => false end.

Definition new_multi_object (objs : list Z) (w h fourcc modifier timestamp duration : Z)
    (planes : list DmaBufImagePlane) : outcome ReplayEncoderError DmaBufReplayFrame :=
  if frame_shape_bad w h fourcc timestamp duration
     || (zlen objs =? 0) || (4 <? zlen objs)
     || (zlen planes =? 0) || (MAX_DMABUF_PLANES <? zlen planes)
     || negb (elem_Z fourcc [DRM_FORMAT_R8G8B8A8; DRM_FORMAT_B8G8R8A8; DRM_FORMAT_A2B10G10R10;
                             DRM_FORMAT_A2R10G10B10; DRM_FORMAT_XRGB8888; DRM_FORMAT_ARGB8888;
                             DRM_FORMAT_XBGR8888; DRM_FORMAT_ABGR8888])
     || existsb (fun p => (zlen objs <=? object_index p)
                       || (image_stride p <? sat_mul U32_MAX w 4)
                       || (sat_mul U32_MAX (sat_mul U32_MAX w h) 4 <? image_offset p)) planes
  then Err InvalidDmaBufFrame
  else Ok {| frame_gpu := None; objects := objs; frame_width := w; frame_height := h;
             drm_fourcc := fourcc; frame_modifier := modifier; frame_timestamp_ns := timestamp;
             frame_duration_ns := duration; image_planes := planes |}.

Definition dmabuf_new (fd w h fourcc modifier timestamp duration : Z) (planes : list DmaBufPlane)
    : outcome ReplayEncoderError DmaBufReplayFrame :=
  if frame_shape_bad w h fourcc timestamp duration
     || (zlen planes =? 0) || (MAX_DMABUF_PLANES <? zlen planes)
     || negb (elem_Z fourcc [DRM_FORMAT_R8G8B8A8; DRM_FORMAT_B8G8R8A8; DRM_FORMAT_A2B10G10R10;
                             DRM_FORMAT_A2R10G10B10])
     || existsb (fun p => (plane_stride p <? sat_mul U32_MAX w 4)
                       || (sat_mul U32_MAX (sat_mul U32_MAX w h) 4 <? plane_offset p)) planes
  then Err InvalidDmaBufFrame
  else new_multi_object [fd] w h fourcc modifier timestamp duration
         (map (fun p => {| object_index := 0; image_offset := plane_offset p;
                           image_stride := plane_stride p |}) planes).

(** [fd]: [&self.objects[0]] panics on an empty list. *)
Definition frame_fd (f : DmaBufReplayFrame) : outcome ReplayEncoderError Z :=
  expect (objects f !! 0%nat).
Definition frame_planes (f : DmaBufReplayFrame) : list DmaBufPlane :=
  map (fun p => {| plane_offset := image_offset p; plane_stride := image_stride p |}) (image_planes f).

(** * Encoder results *)
Record EncodedPacketBatch := { batch_packets : list EncodedReplayPacket }.
Record HardwareEncodeOutput := { batch : EncodedPacketBatch; completed_inputs : list Z }.

Definition output_new (b : EncodedPacketBatch) (completed : list Z)
    : outcome ReplayEncoderError HardwareEncodeOutput :=
  if (MAX_HARDWARE_INPUTS_IN_FLIGHT <? zlen completed) || elem_Z 0 completed
     || existsb (fun i => match completed !! i with
                          | Some sequence => elem_Z sequence (take i completed)
                          | None => false
                          end) (seq 0 (length completed))
  then Err InvalidInputCompletion
  else Ok {| batch := b; completed_inputs := completed |}.

(** The loop of [EncodedPacketBatch::new] over the state (total, last timestamp). *)
Definition batch_step (s : Z * option Z) (p : EncodedReplayPacket)
    : outcome ReplayEncoderError (Z * option Z) :=
  let '(total, last_timestamp) := s in
  total ← ok_or (checked_add USIZE_MAX total (zlen (packet_bytes p))) PacketBatchExceeded;
  if (MAX_ENCODED_BYTES_PER_FRAME <? total)
     || match last_timestamp with Some t => timestamp_ns p <=? t | None => false end
  then Err PacketBatchExceeded
  else Ok (total, Some (timestamp_ns p)).
Definition batch_new (ps : list EncodedReplayPacket) : outcome ReplayEncoderError EncodedPacketBatch :=
  if MAX_PACKETS_PER_FRAME <? zlen ps then Err PacketBatchExceeded
  else _ ← for_each batch_step ps (0, None); Ok {| batch_packets := ps |}.

(** * The packet flow *)
Inductive ReplayPacketFlowPhase := Running | ResetRequired | FlowFailed | Shutdown.
#[global] Instance ReplayPacketFlowPhase_eq_dec : EqDecision ReplayPacketFlowPhase.
Proof. solve_decision. Defined.
Record ReplayPacketFlow := {
  flow_stream : ReplayVideoStream;
  flow_ring : ReplayRing;
  flow_phase : ReplayPacketFlowPhase;
}.

Definition flow_new (s : ReplaySettings) (stream : ReplayVideoStream) : ReplayPacketFlow :=
  {| flow_stream := stream; flow_ring := ring_new s; flow_phase := Running |}.
Definition with_ring_phase (r : ReplayRing) (p : ReplayPacketFlowPhase) (f : ReplayPacketFlow)
    : ReplayPacketFlow :=
  {| flow_stream := flow_stream f; flow_ring := r; flow_phase := p |}.
Definition fail_closed (f : ReplayPacketFlow) : ReplayPacketFlow :=
  with_ring_phase (reset_epoch (flow_ring f)) FlowFailed f.

(** The validation loop of [push_batch]. *)
Definition validate_batch (stream : ReplayVideoStream) (ps : list EncodedReplayPacket)
    : outcome ReplayEncoderError unit :=
  for_each (fun _ p => validate_packet stream (packet_bytes p)) ps tt.

(** The push loop; [None] is divergence of an eviction loop of the ring. *)
Fixpoint push_packets (f : ReplayPacketFlow) (ps : list EncodedReplayPacket)
    (outcomes : list ReplayPushOutcome)
    : option (ReplayPacketFlow * outcome ReplayEncoderError (list ReplayPushOutcome)) :=
  match ps with
  | [] => Some (f, Ok outcomes)
  | p :: ps =>
      match push (flow_ring f) p with
      | None => None
      | Some (r, Ok o) => push_packets (with_ring_phase r (flow_phase f) f) ps (outcomes ++ [o])
      | Some (r, Err e) => Some (fail_closed (with_ring_phase r (flow_phase f) f), Err (RingError e))
      | Some (r, Panic) => Some (with_ring_phase r (flow_phase f) f, Panic)
      end
  end.

Definition push_batch (f : ReplayPacketFlow) (b : EncodedPacketBatch)
    : option (ReplayPacketFlow * outcome ReplayEncoderError (list ReplayPushOutcome)) :=
  if negb (bool_decide (flow_phase f = Running)) then Some (f, Err InvalidLifecycle)
  else match validate_batch (flow_stream f) (batch_packets b) with
       | Err e => Some (fail_closed f, Err e)
       | Panic => Some (f, Panic)
       | Ok _ => push_packets f (batch_packets b) []
       end.

Definition begin_reset (f : ReplayPacketFlow) : ReplayPacketFlow :=
  if bool_decide (flow_phase f = Running)
  then with_ring_phase (reset_epoch (flow_ring f)) ResetRequired f else f.
Definition complete_reset (f : ReplayPacketFlow) (stream : ReplayVideoStream)
    : ReplayPacketFlow * outcome ReplayEncoderError unit :=
  if negb (bool_decide (flow_phase f = ResetRequired)) then (f, Err InvalidLifecycle)
  else ({| flow_stream := stream; flow_ring := flow_ring f; flow_phase := Running |}, Ok tt).
Definition flow_fail (f : ReplayPacketFlow) : ReplayPacketFlow :=
  match flow_phase f with Running | ResetRequired => fail_closed f | _ => f end.
Definition shutdown (f : ReplayPacketFlow) : ReplayPacketFlow :=
  with_ring_phase (reset_epoch (flow_ring f)) Shutdown f.

(** Everything an owner of the flow can do. *)
Inductive flow_op :=
| PushBatch (ps : list EncodedReplayPacket) | BeginReset | CompleteReset (stream : ReplayVideoStream)
| FailFlow | ShutdownFlow.
Definition flow_step (f : ReplayPacketFlow) (op : flow_op) : option ReplayPacketFlow :=
  match op with
  | PushBatch ps =>
      match batch_new ps with
      | Ok b => fst <$> push_batch f b
      | _ => Some f
      end
  | BeginReset => Some (begin_reset f)
  | CompleteReset stream => Some (fst (complete_reset f stream))
  | FailFlow => Some (flow_fail f)
  | ShutdownFlow => Some (shutdown f)
  end.
Fixpoint flow_run (f : ReplayPacketFlow) (ops : list flow_op) : option ReplayPacketFlow :=
  match ops with
  | [] => Some f
  | op :: ops => f ← flow_step f op; flow_run f ops
  end.

(** * Facts *)

(** The four-byte length-prefixed framing, as a specification. *)
Definition frame_units (units : list bytes) : bytes :=
  flat_map (fun u => be_bytes 4 (zlen u) ++ u) units.
Definition unit_ok (u : bytes) : Prop := 0 < zlen u <= U32_MAX.

Lemma get_slice_Some off n data bs :
  get_slice off n data = Some bs <-> (off + n <= length data)%nat /\ bs = slice off n data.
Proof. unfold get_slice. destruct (Nat.leb_spec (off + n) (length data)); naive_solver lia. Qed.

Lemma be_val_4 x : in_range U32_MAX x -> be_val (be_bytes 4 x) = x.
Proof. intros H. apply be_val_be_bytes. unfold in_range, U32_MAX in H. cbn. lia. Qed.

Lemma h264_loop_units fuel packet n k :
  is_bytes packet -> (length packet <= fuel)%nat -> 0 <= n <= U8_MAX ->
  h264_loop fuel packet n = Ok k <->
  exists units, packet = frame_units units /\ Forall unit_ok units
                /\ k = Z.min U8_MAX (n + zlen units).
Proof.
  revert packet n. induction fuel as [|fuel IH]; intros packet n Hb Hf Hn.
  { destruct packet; cbn in Hf; [|lia]. cbn. split.
    - intros [= <-]. exists []. splits; [done|constructor|]. change (zlen (@nil bytes)) with 0. lia.
    - intros (units & Hp & Hu & ->). destruct units; [change (zlen (@nil bytes)) with 0; f_equal; lia|].
      apply (f_equal length) in Hp. cbn in Hp. rewrite !length_app in Hp. cbn in Hp. lia. }
  destruct packet as [|x packet'] eqn:Ep; cbn [h264_loop].
  { split.
    - intros [= <-]. exists []. splits; [done|constructor|]. change (zlen (@nil bytes)) with 0. lia.
    - intros (units & Hp & Hu & ->). destruct units; [change (zlen (@nil bytes)) with 0; f_equal; lia|].
      apply (f_equal length) in Hp. cbn in Hp. rewrite !length_app in Hp. cbn in Hp. lia. }
  rewrite <- Ep in *. assert (Hne : packet <> []) by (by rewrite Ep). clear Ep x packet'.
  rewrite bind_Ok. setoid_rewrite ok_or_Ok. setoid_rewrite get_slice_Some. split.
  - intros (lb & [Hl ->] & H). set (len := Z.to_nat _) in H.
    destruct (Nat.eqb_spec len 0) as [|Hlen0]; [done|]. cbn [orb] in H.
    destruct (Nat.ltb_spec (length packet) (4 + len)) as [|Hlen]; [done|].
    apply IH in H as (units & Hp & Hu & ->).
    2: { by apply Forall_drop. }
    2: { rewrite length_drop. lia. }
    2: { unfold sat_add. unfold U8_MAX in *. lia. }
    assert (Hb4 : is_bytes (slice 0 4 packet)) by eauto with rust.
    assert (Hl4 : length (slice 0 4 packet) = 4%nat) by (rewrite length_slice; lia).
    assert (Hunit : length (slice 4 len packet) = len) by (rewrite length_slice; lia).
    exists (slice 4 len packet :: units). splits.
    + cbn [frame_units flat_map]. fold (frame_units units).
      assert (zlen (slice 4 len packet) = be_val (slice 0 4 packet)) as ->.
      { unfold zlen. rewrite Hunit. unfold len. pose proof (be_val_bound _ Hb4). lia. }
      replace (be_bytes 4 (be_val (slice 0 4 packet))) with (slice 0 4 packet)
        by (rewrite <- Hl4 at 2; by rewrite be_bytes_be_val).
      rewrite <- Hp, <- app_assoc.
      rewrite (slice_split 4 packet) at 1. f_equal.
      unfold slice. rewrite <- drop_drop. by rewrite take_drop.
    + constructor; [|done]. unfold unit_ok, zlen. rewrite Hunit.
      pose proof (be_val_bound _ Hb4) as Hv. unfold zlen in Hv. rewrite Hl4 in Hv.
      unfold len, U32_MAX in *. lia.
    + rewrite zlen_cons. unfold sat_add, U8_MAX in *. pose proof (zlen_nonneg units). lia.
  - intros (units & Hp & Hu & ->). destruct units as [|u units]; [done|].
    apply Forall_cons in Hu as [Hu0 Hu]. cbn [frame_units flat_map] in Hp.
    fold (frame_units units) in Hp. rewrite <- app_assoc in Hp.
    assert (H4 : length (be_bytes 4 (zlen u)) = 4%nat) by apply length_be_bytes.
    exists (be_bytes 4 (zlen u)). unfold unit_ok in Hu0.
    assert (Hv : be_val (be_bytes 4 (zlen u)) = zlen u) by (apply be_val_4; unfold in_range; lia).
    rewrite Hv. unfold zlen at 2 3 4. rewrite !Nat2Z.id.
    assert (Hlp : length packet = (4 + (length u + length (frame_units units)))%nat)
      by (by rewrite Hp, !length_app, H4).
    splits.
    + lia.
    + rewrite Hp. unfold slice. rewrite drop_0. symmetry. apply take_app_length'. by rewrite H4.
    + destruct (Nat.eqb_spec (length u) 0); [unfold zlen in *; lia|]. cbn [orb].
      destruct (Nat.ltb_spec (length packet) (4 + length u)); [lia|].
      assert (drop (4 + length u) packet = frame_units units) as Hdrop.
      { rewrite Hp, app_assoc. apply drop_app_length'. rewrite length_app. lia. }
      apply IH.
      * by apply Forall_drop.
      * rewrite length_drop. lia.
      * unfold sat_add, U8_MAX in *. lia.
      * exists units. splits; [done..|]. rewrite zlen_cons. pose proof (zlen_nonneg units).
        unfold sat_add, U8_MAX in *. lia.
Qed.

Lemma h264_loop_no_panic fuel packet n :
  (length packet <= fuel)%nat -> no_panic (h264_loop fuel packet n).
Proof.
  revert packet n. induction fuel as [|fuel IH]; intros [|x packet] n Hf; cbn in Hf; try done; try lia.
  cbn [h264_loop]. apply bind_no_panic; [auto with rust|]. intros lb _. case_match; [done|].
  apply IH. rewrite length_drop. cbn. lia.
Qed.

Lemma validate_h264_no_panic packet : no_panic (validate_h264_packet packet).
Proof.
  unfold validate_h264_packet. apply bind_no_panic; [by apply h264_loop_no_panic|].
  intros. by case_match.
Qed.

(** A packet passes the H.264 check exactly when it is one or more
    non-empty units, each behind its four-byte big-endian length. *)
Theorem validate_h264_packet_iff packet (Hb : is_bytes packet) :
  validate_h264_packet packet = Ok tt <->
  exists units, units <> [] /\ Forall unit_ok units /\ packet = frame_units units.
Proof.
  unfold validate_h264_packet. rewrite bind_Ok.
  setoid_rewrite h264_loop_units; [|done|done|unfold U8_MAX; lia]. split.
  - intros (k & (units & Hp & Hu & ->) & H). exists units. splits; [|done..]. intros ->. done.
  - intros (units & Hne & Hu & Hp). exists (Z.min U8_MAX (0 + zlen units)). split; [by exists units|].
    destruct (Z.eqb_spec (Z.min U8_MAX (0 + zlen units)) 0) as [E|]; [|done].
    destruct units; [done|]. rewrite zlen_cons in E. pose proof (zlen_nonneg units). unfold U8_MAX in E. lia.
Qed.

Lemma validate_h264_packet_iff_witness :
  is_bytes [0; 0; 0; 2; 101; 7] /\ exists units, [0; 0; 0; 2; 101; 7] = frame_units units.
Proof.
  assert (Hb : is_bytes [0; 0; 0; 2; 101; 7]) by (by apply is_bytes_check).
  split; [exact Hb|].
  destruct (proj1 (validate_h264_packet_iff [0; 0; 0; 2; 101; 7] Hb) eq_refl) as (us & _ & _ & H).
  exists us. exact H.
Defined.

(** ** Bounded encoder results *)
Lemma elem_Z_In x l : elem_Z x l = true <-> In x l.
Proof.
  unfold elem_Z. rewrite existsb_exists. split.
  - intros (y & Hy & E). apply Z.eqb_eq in E as ->. done.
  - intros H. exists x. by rewrite Z.eqb_refl.
Qed.

Definition increasing (ps : list EncodedReplayPacket) : Prop := StronglySorted earlier ps.

Lemma batch_steps ps total last s :
  Forall packet_ok ps -> 0 <= total <= MAX_ENCODED_BYTES_PER_FRAME ->
  for_each batch_step ps (total, last) = Ok s ->
  total + total_bytes ps <= MAX_ENCODED_BYTES_PER_FRAME /\ increasing ps
  /\ (forall t, last = Some t -> Forall (fun p => t < timestamp_ns p) ps).
Proof.
  intros Hok. revert total last. induction Hok as [|p ps Hp Hok IH]; intros total last Ht.
  { intros _. change (total_bytes []) with 0. splits; [lia|constructor|constructor]. }
  cbn [for_each]. intros H. apply bind_Ok in H as ([total' last'] & Hs & H).
  unfold batch_step in Hs. apply bind_Ok in Hs as (tot & Htot & Hs).
  apply ok_or_Ok, checked_add_Some in Htot as [_ ->].
  destruct (MAX_ENCODED_BYTES_PER_FRAME <? total + zlen (packet_bytes p)) eqn:Emax; [done|].
  cbn [orb] in Hs. destruct (match last with Some t => timestamp_ns p <=? t | None => false end) eqn:El;
    [done|]. injection Hs as <- <-.
  pose proof (zlen_nonneg (packet_bytes p)).
  apply IH in H as (Hsum & Hinc & Hlast); [|lia].
  specialize (Hlast _ eq_refl). rewrite total_bytes_cons. splits.
  - lia.
  - by constructor.
  - intros t ->. constructor; [lia|]. eapply Forall_impl; [exact Hlast|]. cbn. lia.
Qed.

Lemma batch_steps_ok ps total last :
  Forall packet_ok ps -> 0 <= total -> total + total_bytes ps <= MAX_ENCODED_BYTES_PER_FRAME ->
  increasing ps -> (forall t, last = Some t -> Forall (fun p => t < timestamp_ns p) ps) ->
  is_Ok (for_each batch_step ps (total, last)).
Proof.
  intros Hok. revert total last. induction Hok as [|p ps Hp Hok IH]; intros total last Ht Hsum Hinc Hlast.
  { by eexists. }
  cbn [for_each]. unfold batch_step at 2. cbv beta iota. rewrite total_bytes_cons in Hsum.
  pose proof (zlen_nonneg (packet_bytes p)).
  assert (0 <= total_bytes ps).
  { unfold total_bytes. apply sum_Z_nonneg, Forall_map, Forall_true. intros. apply zlen_nonneg. }
  rewrite (proj2 (checked_add_Some USIZE_MAX total (zlen (packet_bytes p)) (total + zlen (packet_bytes p))));
    [|unfold USIZE_MAX, U64_MAX, MAX_ENCODED_BYTES_PER_FRAME in *; lia].
  cbn [ok_or]. rewrite bind_ret.
  destruct (Z.ltb_spec MAX_ENCODED_BYTES_PER_FRAME (total + zlen (packet_bytes p))); [lia|]. cbn [orb].
  replace (match last with Some t => timestamp_ns p <=? t | None => false end) with false.
  2: { destruct last as [t|]; [|done]. specialize (Hlast t eq_refl). apply Forall_cons in Hlast as [? _].
       symmetry. apply Z.leb_gt. done. }
  rewrite bind_ret. apply StronglySorted_inv in Hinc as [Hinc Hp'].
  apply IH; [lia|lia|done|]. by intros t [= <-].
Qed.

(** An encoder result is accepted exactly when its work is bounded: at
    most 8 packets, at most 8 MiB, strictly increasing timestamps; and its
    completion tokens are at most the pipeline depth, non-zero and distinct. *)
Theorem encoder_output_bounded ps completed (Hok : Forall packet_ok ps) :
  (is_Ok (batch_new ps) <->
     zlen ps <= 8 /\ total_bytes ps <= 8 * 1024 * 1024 /\ increasing ps)
  /\ (forall b, is_Ok (output_new b completed) <->
     zlen completed <= 4 /\ NoDup completed /\ ~ In 0 completed).
Proof.
  split.
  - unfold batch_new. destruct (Z.ltb_spec MAX_PACKETS_PER_FRAME (zlen ps)) as [H|H];
      unfold MAX_PACKETS_PER_FRAME in H.
    { split; [by intros []|lia]. }
    split.
    + intros [b Hb]. apply bind_Ok in Hb as (s & Hs & _).
      apply batch_steps in Hs as (H1 & H2 & _); [|done|unfold MAX_ENCODED_BYTES_PER_FRAME; lia].
      splits; [lia|exact H1|done].
    + intros (_ & Hsum & Hinc). destruct (batch_steps_ok ps 0 None Hok) as [s Hs]; try done.
      exists {| batch_packets := ps |}. by rewrite Hs.
  - intros b. unfold output_new. set (dup := existsb _ _).
    assert (Hdup : dup = false <-> NoDup completed).
    { unfold dup. rewrite <- not_true_iff_false, existsb_exists. split.
      - intros H. apply NoDup_alt. intros i j x Hi Hj.
        destruct (decide (i = j)) as [|Hne]; [done|]. exfalso. apply H.
        destruct (decide (i < j)%nat) as [Hij|Hij]; [exists j|exists i].
        all: rewrite in_seq; rewrite ?Hi, ?Hj, elem_Z_In, <- list_elem_of_In, list_elem_of_lookup.
        + apply lookup_lt_Some in Hj as Hl. split; [lia|]. exists i. rewrite lookup_take.
          by rewrite decide_True by lia.
        + apply lookup_lt_Some in Hi as Hl. split; [lia|]. exists j. rewrite lookup_take.
          by rewrite decide_True by lia.
      - intros H (i & _ & Hi). destruct (completed !! i) as [x|] eqn:Ei; [|done].
        rewrite elem_Z_In, <- list_elem_of_In, list_elem_of_lookup in Hi. destruct Hi as [j Hj].
        rewrite lookup_take in Hj. case_decide; [|done].
        rewrite NoDup_alt in H. specialize (H _ _ _ Ei Hj). lia. }
    destruct (Z.ltb_spec MAX_HARDWARE_INPUTS_IN_FLIGHT (zlen completed)) as [H|H];
      unfold MAX_HARDWARE_INPUTS_IN_FLIGHT in H; cbn [orb].
    { split; [by intros []|lia]. }
    destruct (elem_Z 0 completed) eqn:E0; cbn [orb].
    { apply elem_Z_In in E0. split; [by intros []|tauto]. }
    assert (~ In 0 completed) by (rewrite <- elem_Z_In; congruence).
    destruct dup.
    { split; [by intros []|]. intros (_ & Hn & _). by apply Hdup in Hn. }
    split; [|by eexists]. intros _. splits; [lia|by apply Hdup|done].
Qed.

Definition demo_two_packets : list EncodedReplayPacket := [demo_packet 1 true; demo_packet 2 false].

Lemma encoder_output_bounded_witness :
  Forall packet_ok demo_two_packets /\ is_Ok (batch_new demo_two_packets)
  /\ (is_Ok (output_new {| batch_packets := demo_two_packets |} [4; 9; 4]) -> False).
Proof.
  assert (Hok : Forall packet_ok demo_two_packets).
  { repeat constructor; vm_compute; done. }
  pose proof (encoder_output_bounded demo_two_packets [4; 9; 4] Hok) as [H1 H2].
  split; [exact Hok|]. split.
  - apply H1. split; [vm_compute; discriminate|]. split; [vm_compute; discriminate|].
    repeat constructor; vm_compute; done.
  - intros H. apply H2 in H as (_ & Hn & _). apply NoDup_cons in Hn as [Hn _].
    apply Hn. right. left.
Defined.

(** ** The flow *)
Definition packet_valid (stream : ReplayVideoStream) (p : EncodedReplayPacket) : Prop :=
  validate_packet stream (packet_bytes p) = Ok tt.

Record flow_inv (f : ReplayPacketFlow) : Prop := {
  flow_ring_inv : ring_inv (flow_ring f);
  flow_valid : Forall (packet_valid (flow_stream f)) (packets (flow_ring f));
  flow_idle : flow_phase f <> Running -> packets (flow_ring f) = [];
}.

Lemma validate_packet_no_panic s p : no_panic (validate_packet s p).
Proof.
  unfold validate_packet. case_match; [apply validate_h264_no_panic|by case_match].
Qed.

Lemma validate_batch_no_panic s ps : no_panic (validate_batch s ps).
Proof.
  unfold validate_batch. induction ps as [|p ps IH]; [done|]. cbn [for_each].
  apply bind_no_panic; [apply validate_packet_no_panic|]. by intros [] _.
Qed.

Lemma h264_loop_err fuel packet n e : h264_loop fuel packet n = Err e -> e = InvalidPacketFraming.
Proof.
  revert packet n. induction fuel as [|fuel IH]; intros [|x bs] n; cbn [h264_loop]; try done.
  destruct (get_slice 0 4 (x :: bs)); cbn [ok_or mbind outcome_bind]; [|naive_solver].
  case_match; [naive_solver|]. apply IH.
Qed.

Lemma validate_packet_err s p e : validate_packet s p = Err e -> e = InvalidPacketFraming.
Proof.
  unfold validate_packet, validate_h264_packet. case_match; [|case_match; naive_solver].
  destruct (h264_loop _ _ _) as [u|e'|] eqn:El; cbn; [case_match; naive_solver| |done].
  intros [= <-]. by eapply h264_loop_err.
Qed.

Lemma validate_batch_err s ps e : validate_batch s ps = Err e -> e = InvalidPacketFraming.
Proof.
  unfold validate_batch. induction ps as [|p ps IH]; [done|]. cbn [for_each].
  destruct (validate_packet s (packet_bytes p)) as [[]|e'|] eqn:E; cbn [mbind outcome_bind]; [done| |done].
  intros [= <-]. by eapply validate_packet_err.
Qed.

Lemma validate_batch_Ok s ps u : validate_batch s ps = Ok u -> Forall (packet_valid s) ps.
Proof.
  unfold validate_batch. induction ps as [|p ps IH]; [constructor|]. cbn [for_each].
  intros H. apply bind_Ok in H as ([] & Hp & H). constructor; [done|by apply IH].
Qed.

Lemma fail_closed_inv f : ring_inv (flow_ring f) -> flow_inv (fail_closed f).
Proof. intros H. split; cbn; [by apply reset_inv|constructor|done]. Qed.

(** A push only ever keeps old packets and the new one. *)
Lemma push_valid stream r p r' res :
  push_spec r p r' res -> Forall (packet_valid stream) (packets r) -> packet_valid stream p ->
  Forall (packet_valid stream) (packets r').
Proof.
  intros Hspec Hr Hp. destruct res as [[ep eb| ]|[]|]; cbn [push_spec] in Hspec; try done.
  - destruct Hspec as (_ & [l Hs] & _). assert (Hall : Forall (packet_valid stream) (packets r ++ [p])).
    { apply Forall_app. split; [done|by constructor]. }
    rewrite Hs in Hall. by apply Forall_app in Hall as [_ ?].
  - destruct Hspec as (_ & _ & -> & _). constructor.
  - by destruct Hspec as [-> _].
  - by destruct Hspec as [-> _].
Qed.

Lemma push_packets_spec ps f outcomes :
  flow_inv f -> flow_phase f = Running ->
  Forall packet_ok ps -> Forall (packet_valid (flow_stream f)) ps ->
  exists f' res, push_packets f ps outcomes = Some (f', res) /\ flow_inv f'
  /\ flow_stream f' = flow_stream f
  /\ match res with
     | Ok outs => flow_phase f' = Running /\ length outs = (length outcomes + length ps)%nat
     | Err e => flow_phase f' = FlowFailed /\ exists e', e = RingError e'
     | Panic => False
     end.
Proof.
  intros Hf Hrun Hok. revert f outcomes Hf Hrun.
  induction Hok as [|p ps Hp Hok IH]; intros f outcomes Hf Hrun Hv.
  { exists f, (Ok outcomes). splits; [done..|cbn; lia]. }
  apply Forall_cons in Hv as [Hvp Hv]. destruct Hf as [Hr Hfv Hi].
  destruct (push_meets_spec (flow_ring f) p Hr Hp) as (r' & res & Hpush & Hr' & Hspec).
  cbn [push_packets]. rewrite Hpush.
  assert (Hv' : Forall (packet_valid (flow_stream f)) (packets r')) by by eapply push_valid.
  destruct res as [o|e|]; [|do 2 eexists; split; [done|]|by destruct Hspec].
  - destruct (IH (with_ring_phase r' (flow_phase f) f) (outcomes ++ [o])) as (f' & res & H1 & H2 & H3 & H4).
    + split; cbn; [done..|]. by rewrite Hrun.
    + done.
    + done.
    + exists f', res. splits; [done..|]. destruct res; [|done..].
      rewrite length_app in H4. cbn [length] in H4. split; [tauto|cbn [length]; lia].
  - splits; [by apply fail_closed_inv|done|done|by eexists].
Qed.

Lemma batch_new_packets ps b : batch_new ps = Ok b -> batch_packets b = ps.
Proof.
  unfold batch_new. case_match; [done|]. intros H'. by apply bind_Ok in H' as (s & _ & [= <-]).
Qed.

Lemma push_batch_spec f b :
  flow_inv f -> Forall packet_ok (batch_packets b) ->
  exists f' res, push_batch f b = Some (f', res) /\ flow_inv f' /\ flow_stream f' = flow_stream f /\
  match res with
  | Ok outs => flow_phase f = Running /\ flow_phase f' = Running
               /\ length outs = length (batch_packets b)
               /\ Forall (packet_valid (flow_stream f)) (batch_packets b)
  | Err InvalidLifecycle => f' = f /\ flow_phase f <> Running
  | Err _ => flow_phase f = Running /\ flow_phase f' = FlowFailed /\ packets (flow_ring f') = []
  | Panic => False
  end.
Proof.
  intros Hf Hok. unfold push_batch. case_bool_decide as Hrun; cbn [negb]; cycle 1.
  { by exists f, (Err InvalidLifecycle). }
  destruct (validate_batch (flow_stream f) (batch_packets b)) as [u|e|] eqn:Ev.
  - apply validate_batch_Ok in Ev.
    destruct (push_packets_spec (batch_packets b) f [] Hf Hrun Hok Ev) as (f' & res & H1 & H2 & H3 & H4).
    exists f', res. splits; [done..|]. destruct res as [outs|e|]; [tauto| |done].
    destruct H4 as (Hph & e' & ->). splits; [done..|]. apply (flow_idle _ H2). by rewrite Hph.
  - exists (fail_closed f), (Err e). splits; [done|apply fail_closed_inv, Hf|done|].
    by apply validate_batch_err in Ev as ->.
  - exfalso. by apply (validate_batch_no_panic (flow_stream f) (batch_packets b)).
Qed.

(** A batch is accepted only while the flow runs and every packet passes
    the framing check of the current stream, and then there is one outcome per
    packet.  Any other error closes the flow: no packet of the failed epoch
    stays behind. *)
Theorem push_batch_correct f b (Hf : flow_inv f) (Hok : Forall packet_ok (batch_packets b)) :
  exists f' res, push_batch f b = Some (f', res) /\ flow_inv f' /\ flow_stream f' = flow_stream f /\
  match res with
  | Ok outs => flow_phase f = Running /\ flow_phase f' = Running
               /\ length outs = length (batch_packets b)
               /\ Forall (packet_valid (flow_stream f)) (batch_packets b)
  | Err InvalidLifecycle => f' = f /\ flow_phase f <> Running
  | Err _ => flow_phase f = Running /\ flow_phase f' = FlowFailed /\ packets (flow_ring f') = []
  | Panic => False
  end.
Proof. by apply push_batch_spec. Qed.

Definition flow_op_ok (op : flow_op) : Prop :=
  match op with PushBatch ps => Forall packet_ok ps | _ => True end.

(** The transitions the phase may make. *)
Definition flow_next (a b : ReplayPacketFlowPhase) : bool :=
  match a, b with
  | Running, _ => true
  | ResetRequired, (ResetRequired | Running | FlowFailed | Shutdown) => true
  | FlowFailed, (FlowFailed | Shutdown) => true
  | Shutdown, Shutdown => true
  | _, _ => false
  end.

Lemma flow_step_spec f op :
  flow_inv f -> flow_op_ok op ->
  exists f', flow_step f op = Some f' /\ flow_inv f' /\ flow_next (flow_phase f) (flow_phase f') = true
  /\ (flow_stream f' <> flow_stream f -> packets (flow_ring f') = []).
Proof.
  intros Hf Hop. pose proof Hf as [Hr Hv Hi].
  assert (Hsame : flow_next (flow_phase f) (flow_phase f) = true) by (by destruct (flow_phase f)).
  destruct op as [ps| |stream| |]; cbn [flow_step flow_op_ok] in *.
  - destruct (batch_new ps) as [b|e|] eqn:Eb; [|by exists f..].
    apply batch_new_packets in Eb as Hps. rewrite <- Hps in Hop.
    destruct (push_batch_spec f b Hf Hop) as (f' & res & -> & H1 & H2 & H3). exists f'.
    splits; [done..| |by rewrite H2]. destruct res as [outs|[]|]; try done; destruct H3 as [H3 H4];
      rewrite ?H3; try done; by rewrite H3 in Hsame.
  - unfold begin_reset. case_bool_decide as Hrun; [|by exists f]. eexists. split; [done|].
    rewrite Hrun. splits; [|done..]. split; cbn; [by apply reset_inv|constructor|done].
  - unfold complete_reset. case_bool_decide as Hres; cbn [negb fst]; [|by exists f].
    assert (He : packets (flow_ring f) = []) by (apply Hi; by rewrite Hres).
    eexists. split; [done|]. rewrite Hres. splits; [|done..].
    split; cbn; [done|by rewrite He|done].
  - unfold flow_fail. destruct (flow_phase f) eqn:Ep; eexists; (split; [done|]).
    1,2: splits; [by apply fail_closed_inv|done..].
    all: splits; [done|by rewrite Ep|done].
  - eexists. split; [done|]. cbn. splits; [split; cbn; [by apply reset_inv|constructor|done]
      |by destruct (flow_phase f)|done].
Qed.

(** C2: whatever batches, resets, failures and shutdowns an owner performs,
    every operation returns, the flow stays well formed (only packets valid for
    the current stream, and none unless it runs), a failed or shut-down flow
    never runs again, and a change of stream leaves no packet of the old one. *)
Theorem flow_invariant s stream ops (Hops : Forall flow_op_ok ops) :
  exists f, flow_run (flow_new s stream) ops = Some f /\ flow_inv f
  /\ forall op, flow_op_ok op -> exists f', flow_step f op = Some f' /\ flow_inv f'
       /\ flow_next (flow_phase f) (flow_phase f') = true
       /\ (flow_stream f' <> flow_stream f -> packets (flow_ring f') = []).
Proof.
  assert (Hnew : flow_inv (flow_new s stream)) by (split; cbn; [apply ring_new_inv|constructor|done]).
  revert Hnew. generalize (flow_new s stream) as f.
  induction Hops as [|op ops Hop _ IH]; intros f Hf; cbn [flow_run].
  - exists f. splits; [done..|]. intros op Hop. by apply flow_step_spec.
  - destruct (flow_step_spec f op Hf Hop) as (f' & -> & Hf' & _). by apply IH.
Qed.

Definition demo_stream : ReplayVideoStream :=
  {| codec := Av1; packet_format := Av1Obu; stream_width := 1920; stream_height := 1080;
     stream_fps := 60; codec_private := [0x81; 0; 0; 0] |}.
Definition demo_flow : ReplayPacketFlow := flow_new demo_settings demo_stream.

Lemma demo_flow_inv : flow_inv demo_flow.
Proof. split; cbn; [apply ring_new_inv|constructor|done]. Qed.

Lemma push_batch_correct_witness :
  flow_inv demo_flow /\ Forall packet_ok demo_two_packets /\
  exists f' res, push_batch demo_flow {| batch_packets := demo_two_packets |} = Some (f', res) /\ flow_inv f'.
Proof.
  assert (Hok : Forall packet_ok demo_two_packets) by (repeat constructor; vm_compute; done).
  split; [exact demo_flow_inv|]. split; [exact Hok|].
  destruct (push_batch_correct demo_flow {| batch_packets := demo_two_packets |} demo_flow_inv Hok)
    as (f' & res & H1 & H2 & _). exists f', res. split; assumption.
Defined.

Lemma flow_invariant_witness :
  Forall flow_op_ok [PushBatch demo_two_packets; BeginReset; CompleteReset demo_stream; FailFlow] /\
  exists f, flow_run (flow_new demo_settings demo_stream)
    [PushBatch demo_two_packets; BeginReset; CompleteReset demo_stream; FailFlow] = Some f /\ flow_inv f.
Proof.
  assert (Hops : Forall flow_op_ok [PushBatch demo_two_packets; BeginReset; CompleteReset demo_stream; FailFlow]).
  { repeat (constructor; [repeat constructor; vm_compute; done|]). constructor. }
  split; [exact Hops|].
  destruct (flow_invariant demo_settings demo_stream _ Hops) as (f & H1 & H2 & _).
  exists f. split; assumption.
Defined.
