(* ===== verification/Pipeline.v ===== *)
(** The hardware replay pipeline (crates/redunar-daemon/src/replay_pipeline.rs):
    one encoder, the packet flow with its ring, the disk spool and the audio
    timeline, and what happens to each when the others fail. *)
From stdpp Require Import strings.
From S2P Require Import Prelude Bytes Profiles Preferences Replay ReplayRing ReplayAudio PacketSource Spool SpoolWorker Encoder.
Local Open Scope Z_scope.

Definition MAX_IN_MEMORY_HISTORY : ReplayDuration := Seconds120.
Definition MAX_TRACKED_INPUTS : Z := MAX_HARDWARE_INPUTS_IN_FLIGHT.
Definition MAX_COMPLETED_INPUTS : Z := 8.
Definition KEYFRAME_REQUEST_INTERVAL_NS : Z := 2000000000.

Inductive ReplayPipelinePhase := PipeBuffering | PipeSaving | PipeResetting | PipeFailed | PipeShutdown.
#[global] Instance ReplayPipelinePhase_eq_dec : EqDecision ReplayPipelinePhase.
Proof. solve_decision. Defined.
#[global] Instance ReplaySpoolPhase_eq_dec : EqDecision ReplaySpoolPhase.
Proof. solve_decision. Defined.
Inductive ReplayPipelineError :=
| PipeInvalidLifecycle | BackendStreamMismatch | FrameFormatChanged | FrameTimestampNotMonotonic
| NoEncodedFrames | PipeInsufficientHistory | EncoderError (e : ReplayEncoderError)
| SpoolError (e : ReplaySpoolError) | StoreError (message : string) | AudioError (e : ReplayAudioError).


(** * Interfaces *)
(** The encoder: the trait [HardwareEncoderBackend].  A panic of a driver is not
    part of it. *)
Class HardwareEncoderBackend (B : Type) := {
  backend_stream : B -> ReplayVideoStream;
  encode : Z -> DmaBufReplayFrame -> bool -> B -> B * (HardwareEncodeOutput + ReplayEncoderError);
  drain : B -> B * (HardwareEncodeOutput + ReplayEncoderError);
  backend_shutdown : B -> B * option ReplayEncoderError;
}.
(** The methods of [ReplaySegmentSpool] that the pipeline calls, over its shared
    state: the worker runs meanwhile, so a read may find a changed state.  [J] is
    the job that assembles a clip from the spool. *)
Class SegmentSpool (S J : Type) := {
  try_submit : EncodedReplayPacket -> S -> S * SubmitResult;
  spool_phase : S -> S * ReplaySpoolPhase;
  stats : S -> S * ReplaySpoolStats;
  spool_reset_epoch : S -> S * outcome ReplaySpoolError unit;
  save_async_tracks_with_audio : ReplayDuration -> ReplaySettings -> ReplayVideoStream -> ReplayOutputFormat
    -> (Z -> Z -> ReplayAudioTracks) -> S -> S * (J + ReplaySpoolError);
  spool_shutdown : S -> S;
}.

(** * State *)
Record ReplayHardwarePipeline (B S : Type) := {
  settings : ReplaySettings;
  backend : option B;
  shutdown_error : option ReplayEncoderError;
  flow : ReplayPacketFlow;
  spool : option S;
  spool_pending_from_ns : option Z;
  spool_degraded : bool;
  encoded_packets_total : Z;
  pipeline_phase : ReplayPipelinePhase;
  last_frame_timestamp_ns : option Z;
  last_keyframe_request_timestamp_ns : option Z;
  in_flight_inputs : list Z;
  completed_inputs : list Z;
  audio : ReplayAudioBuffer;
}.
Arguments settings {B S} _.
Arguments backend {B S} _.
Arguments shutdown_error {B S} _.
Arguments flow {B S} _.
Arguments spool {B S} _.
Arguments spool_pending_from_ns {B S} _.
Arguments spool_degraded {B S} _.
Arguments encoded_packets_total {B S} _.
Arguments pipeline_phase {B S} _.
Arguments last_frame_timestamp_ns {B S} _.
Arguments last_keyframe_request_timestamp_ns {B S} _.
Arguments in_flight_inputs {B S} _.
Arguments completed_inputs {B S} _.
Arguments audio {B S} _.
Definition set_backend {B S} (v : option B) (p : ReplayHardwarePipeline B S) : ReplayHardwarePipeline B S := {|
  settings := settings p; backend := v; shutdown_error := shutdown_error p; flow := flow p; spool := spool p;
  spool_pending_from_ns := spool_pending_from_ns p; spool_degraded := spool_degraded p;
  encoded_packets_total := encoded_packets_total p; pipeline_phase := pipeline_phase p;
  last_frame_timestamp_ns := last_frame_timestamp_ns p;
  last_keyframe_request_timestamp_ns := last_keyframe_request_timestamp_ns p; in_flight_inputs := in_flight_inputs p;
  completed_inputs := completed_inputs p; audio := audio p |}.
Definition set_shutdown_error {B S} (v : option ReplayEncoderError) (p : ReplayHardwarePipeline B S) : ReplayHardwarePipeline B S := {|
  settings := settings p; backend := backend p; shutdown_error := v; flow := flow p; spool := spool p;
  spool_pending_from_ns := spool_pending_from_ns p; spool_degraded := spool_degraded p;
  encoded_packets_total := encoded_packets_total p; pipeline_phase := pipeline_phase p;
  last_frame_timestamp_ns := last_frame_timestamp_ns p;
  last_keyframe_request_timestamp_ns := last_keyframe_request_timestamp_ns p; in_flight_inputs := in_flight_inputs p;
  completed_inputs := completed_inputs p; audio := audio p |}.
Definition set_flow {B S} (v : ReplayPacketFlow) (p : ReplayHardwarePipeline B S) : ReplayHardwarePipeline B S := {|
  settings := settings p; backend := backend p; shutdown_error := shutdown_error p; flow := v; spool := spool p;
  spool_pending_from_ns := spool_pending_from_ns p; spool_degraded := spool_degraded p;
  encoded_packets_total := encoded_packets_total p; pipeline_phase := pipeline_phase p;
  last_frame_timestamp_ns := last_frame_timestamp_ns p;
  last_keyframe_request_timestamp_ns := last_keyframe_request_timestamp_ns p; in_flight_inputs := in_flight_inputs p;
  completed_inputs := completed_inputs p; audio := audio p |}.
Definition set_spool {B S} (v : option S) (p : ReplayHardwarePipeline B S) : ReplayHardwarePipeline B S := {|
  settings := settings p; backend := backend p; shutdown_error := shutdown_error p; flow := flow p; spool := v;
  spool_pending_from_ns := spool_pending_from_ns p; spool_degraded := spool_degraded p;
  encoded_packets_total := encoded_packets_total p; pipeline_phase := pipeline_phase p;
  last_frame_timestamp_ns := last_frame_timestamp_ns p;
  last_keyframe_request_timestamp_ns := last_keyframe_request_timestamp_ns p; in_flight_inputs := in_flight_inputs p;
  completed_inputs := completed_inputs p; audio := audio p |}.
Definition set_spool_pending_from_ns {B S} (v : option Z) (p : ReplayHardwarePipeline B S) : ReplayHardwarePipeline B S := {|
  settings := settings p; backend := backend p; shutdown_error := shutdown_error p; flow := flow p; spool := spool p;
  spool_pending_from_ns := v; spool_degraded := spool_degraded p; encoded_packets_total := encoded_packets_total p;
  pipeline_phase := pipeline_phase p; last_frame_timestamp_ns := last_frame_timestamp_ns p;
  last_keyframe_request_timestamp_ns := last_keyframe_request_timestamp_ns p; in_flight_inputs := in_flight_inputs p;
  completed_inputs := completed_inputs p; audio := audio p |}.
Definition set_spool_degraded {B S} (v : bool) (p : ReplayHardwarePipeline B S) : ReplayHardwarePipeline B S := {|
  settings := settings p; backend := backend p; shutdown_error := shutdown_error p; flow := flow p; spool := spool p;
  spool_pending_from_ns := spool_pending_from_ns p; spool_degraded := v;
  encoded_packets_total := encoded_packets_total p; pipeline_phase := pipeline_phase p;
  last_frame_timestamp_ns := last_frame_timestamp_ns p;
  last_keyframe_request_timestamp_ns := last_keyframe_request_timestamp_ns p; in_flight_inputs := in_flight_inputs p;
  completed_inputs := completed_inputs p; audio := audio p |}.
Definition set_encoded_packets_total {B S} (v : Z) (p : ReplayHardwarePipeline B S) : ReplayHardwarePipeline B S := {|
  settings := settings p; backend := backend p; shutdown_error := shutdown_error p; flow := flow p; spool := spool p;
  spool_pending_from_ns := spool_pending_from_ns p; spool_degraded := spool_degraded p; encoded_packets_total := v;
  pipeline_phase := pipeline_phase p; last_frame_timestamp_ns := last_frame_timestamp_ns p;
  last_keyframe_request_timestamp_ns := last_keyframe_request_timestamp_ns p; in_flight_inputs := in_flight_inputs p;
  completed_inputs := completed_inputs p; audio := audio p |}.
Definition set_pipeline_phase {B S} (v : ReplayPipelinePhase) (p : ReplayHardwarePipeline B S) : ReplayHardwarePipeline B S := {|
  settings := settings p; backend := backend p; shutdown_error := shutdown_error p; flow := flow p; spool := spool p;
  spool_pending_from_ns := spool_pending_from_ns p; spool_degraded := spool_degraded p;
  encoded_packets_total := encoded_packets_total p; pipeline_phase := v;
  last_frame_timestamp_ns := last_frame_timestamp_ns p;
  last_keyframe_request_timestamp_ns := last_keyframe_request_timestamp_ns p; in_flight_inputs := in_flight_inputs p;
  completed_inputs := completed_inputs p; audio := audio p |}.
Definition set_last_frame_timestamp_ns {B S} (v : option Z) (p : ReplayHardwarePipeline B S) : ReplayHardwarePipeline B S := {|
  settings := settings p; backend := backend p; shutdown_error := shutdown_error p; flow := flow p; spool := spool p;
  spool_pending_from_ns := spool_pending_from_ns p; spool_degraded := spool_degraded p;
  encoded_packets_total := encoded_packets_total p; pipeline_phase := pipeline_phase p; last_frame_timestamp_ns := v;
  last_keyframe_request_timestamp_ns := last_keyframe_request_timestamp_ns p; in_flight_inputs := in_flight_inputs p;
  completed_inputs := completed_inputs p; audio := audio p |}.
Definition set_last_keyframe_request_timestamp_ns {B S} (v : option Z) (p : ReplayHardwarePipeline B S) : ReplayHardwarePipeline B S := {|
  settings := settings p; backend := backend p; shutdown_error := shutdown_error p; flow := flow p; spool := spool p;
  spool_pending_from_ns := spool_pending_from_ns p; spool_degraded := spool_degraded p;
  encoded_packets_total := encoded_packets_total p; pipeline_phase := pipeline_phase p;
  last_frame_timestamp_ns := last_frame_timestamp_ns p; last_keyframe_request_timestamp_ns := v;
  in_flight_inputs := in_flight_inputs p; completed_inputs := completed_inputs p; audio := audio p |}.
Definition set_in_flight_inputs {B S} (v : list Z) (p : ReplayHardwarePipeline B S) : ReplayHardwarePipeline B S := {|
  settings := settings p; backend := backend p; shutdown_error := shutdown_error p; flow := flow p; spool := spool p;
  spool_pending_from_ns := spool_pending_from_ns p; spool_degraded := spool_degraded p;
  encoded_packets_total := encoded_packets_total p; pipeline_phase := pipeline_phase p;
  last_frame_timestamp_ns := last_frame_timestamp_ns p;
  last_keyframe_request_timestamp_ns := last_keyframe_request_timestamp_ns p; in_flight_inputs := v;
  completed_inputs := completed_inputs p; audio := audio p |}.
Definition set_completed_inputs {B S} (v : list Z) (p : ReplayHardwarePipeline B S) : ReplayHardwarePipeline B S := {|
  settings := settings p; backend := backend p; shutdown_error := shutdown_error p; flow := flow p; spool := spool p;
  spool_pending_from_ns := spool_pending_from_ns p; spool_degraded := spool_degraded p;
  encoded_packets_total := encoded_packets_total p; pipeline_phase := pipeline_phase p;
  last_frame_timestamp_ns := last_frame_timestamp_ns p;
  last_keyframe_request_timestamp_ns := last_keyframe_request_timestamp_ns p; in_flight_inputs := in_flight_inputs p;
  completed_inputs := v; audio := audio p |}.
Definition set_audio {B S} (v : ReplayAudioBuffer) (p : ReplayHardwarePipeline B S) : ReplayHardwarePipeline B S := {|
  settings := settings p; backend := backend p; shutdown_error := shutdown_error p; flow := flow p; spool := spool p;
  spool_pending_from_ns := spool_pending_from_ns p; spool_degraded := spool_degraded p;
  encoded_packets_total := encoded_packets_total p; pipeline_phase := pipeline_phase p;
  last_frame_timestamp_ns := last_frame_timestamp_ns p;
  last_keyframe_request_timestamp_ns := last_keyframe_request_timestamp_ns p; in_flight_inputs := in_flight_inputs p;
  completed_inputs := completed_inputs p; audio := v |}.

(** * Streams and settings *)
Definition maximum_variable_frame_rate (width height : Z) : Z :=
  let macroblocks := sat_mul U32_MAX (div_ceil width 16) (div_ceil height 16) in
  if macroblocks =? 0 then 0
  else unwrap_or (try_from U8_MAX (Z.min (2073600 / macroblocks) 240)) 240.
Definition stream_matches_settings (stream : ReplayVideoStream) (s : ReplaySettings) : bool :=
  if is_variable (frame_rate s) then
    match codec stream with H264 => true | Av1 => false end
    && (stream_fps stream =? maximum_variable_frame_rate (stream_width stream) (stream_height stream))
  else stream_fps stream =? frames_per_second (frame_rate s).
Definition with_duration (d : ReplayDuration) (s : ReplaySettings) : ReplaySettings :=
  {| Profiles.duration := d; frame_rate := frame_rate s; quality := quality s; storage_limit := storage_limit s |}.
Definition in_memory_settings (s : ReplaySettings) : ReplaySettings :=
  if duration_seconds MAX_IN_MEMORY_HISTORY <? duration_seconds (Profiles.duration s)
  then with_duration MAX_IN_MEMORY_HISTORY s else s.

(** The clip of a save from memory, assembled on its own thread: the packets and
    their window, the audio copied for it, and the settings of its budget. *)
Record RamJob := {
  job_ring : ReplayRing;
  job_window : Z * Z;
  job_audio : ReplayAudioTracks;
  job_stream : ReplayVideoStream;
  job_settings : ReplaySettings;
  job_format : ReplayOutputFormat;
}.

Section Pipeline.
Context {B S J : Type} `{!HardwareEncoderBackend B} `{!SegmentSpool S J}.
Notation pipeline := (ReplayHardwarePipeline B S).
Notation pipe E := (st pipeline E).

Definition gets {E A} (f : pipeline -> A) : pipe E A := fun p => (p, Ok (f p)).
Definition modify {E} (f : pipeline -> pipeline) : pipe E unit := fun p => (f p, Ok tt).
Definition fail_with {E A} (e : E) : pipe E A := fun p => (p, Err e).
(** [map_err]. *)
Definition wrap_err {E F A} (f : E -> F) (m : pipe E A) : pipe F A :=
  fun p => match m p with (p, r) => (p, map_err f r) end.
(** [if let Err(error) = m { handler; .. }]. *)
Definition on_error {E A} (m : pipe E A) (handler : E -> pipe E A) : pipe E A :=
  fun p => match m p with (p, Err e) => handler e p | other => other end.
(** A call on the spool, when there is one. *)
Definition with_the_spool {E A} (f : S -> S * A) : pipe E (option A) := fun p =>
  match spool p with
  | Some s => match f s with (s, a) => (set_spool (Some s) p, Ok (Some a)) end
  | None => (p, Ok None)
  end.

(** * Releasing the encoder *)
(** [while let Some(sequence) = in_flight_inputs.pop_front()]. *)
Definition release_inputs (p : pipeline) : pipeline :=
  set_in_flight_inputs []
    (set_completed_inputs
       (foldl (fun done sequence => if zlen done <? MAX_COMPLETED_INPUTS then done ++ [sequence] else done)
          (completed_inputs p) (in_flight_inputs p)) p).
Definition shutdown_backend : pipe ReplayEncoderError unit := fun p =>
  match shutdown_error p with
  | Some e => (p, Err e)
  | None =>
      match backend p with
      | Some b =>
          match backend_shutdown b with
          | (b, Some e) => (set_shutdown_error (Some e) (set_backend (Some b) p), Err e)
          | (_, None) => (release_inputs (set_backend None p), Ok tt)
          end
      | None => (release_inputs p, Ok tt)
      end
  end.
Definition close_pipeline (p : pipeline) : pipeline :=
  let p := (shutdown_backend p).1 in
  let p := if bool_decide (flow_phase (flow p) = Shutdown) then p else set_flow (flow_fail (flow p)) p in
  set_pipeline_phase PipeFailed p.
(** [self.fail_closed(); return Err(e)]. *)
Definition fail_closed_with {A} (e : ReplayPipelineError) : pipe ReplayPipelineError A := fun p => (close_pipeline p, Err e).

Definition degrade_spool (p : pipeline) : pipeline := set_spool_pending_from_ns None (set_spool_degraded true p).

(** * Packets to the spool *)
(** The loop of [flush_spool_backlog]; [None] of [with_the_spool] is its failed
    [expect]. *)
Fixpoint flush_packets (ps : list EncodedReplayPacket) : pipe ReplayEncoderError unit :=
  match ps with
  | [] => mret tt
  | packet :: ps =>
      r ← with_the_spool (try_submit packet);
      r ← lift (expect r);
      match r with
      | Accepted => _ ← modify (set_spool_pending_from_ns None); flush_packets ps
      | QueueFull => modify (set_spool_pending_from_ns (Some (timestamp_ns packet)))
      | NotRunning => fail_with (BackendFailed "Replay spool stopped during backlog recovery")
      end
  end.
Definition flush_spool_backlog : pipe ReplayEncoderError unit := fun p =>
  match spool_pending_from_ns p with
  | None => (p, Ok tt)
  | Some start =>
      let ps := List.filter (fun q => start <=? timestamp_ns q) (packets (flow_ring (flow p))) in
      if match head ps with Some q => negb (timestamp_ns q =? start) | None => true end
      then (p, Err (BackendFailed "Replay spool backlog exceeded the in-memory repair window"))
      else flush_packets ps p
  end.
Definition is_stored (o : ReplayPushOutcome) : bool := match o with Stored _ _ => true | DroppedAwaitingKeyframe => false end.
(** The loop over the packets of a batch and their outcomes. *)
Fixpoint submit_stored (ps : list (EncodedReplayPacket * ReplayPushOutcome)) : pipe ReplayEncoderError unit :=
  match ps with
  | [] => mret tt
  | (packet, o) :: ps =>
      if is_stored o then
        r ← with_the_spool (try_submit packet);
        r ← lift (expect r);
        match r with
        | Accepted => submit_stored ps
        | QueueFull => modify (set_spool_pending_from_ns (Some (timestamp_ns packet)))
        | NotRunning => modify degrade_spool
        end
      else submit_stored ps
  end.
(** [push_batch]; a loop of the ring that does not end would be a panic here. *)
Definition push_to_flow (b : EncodedPacketBatch) : pipe ReplayEncoderError (list ReplayPushOutcome) := fun p =>
  match push_batch (flow p) b with
  | Some (f, r) => (set_flow f p, r)
  | None => (p, Panic)
  end.
(** What the spool gets of a batch that the flow took. *)
Definition feed_spool (b : EncodedPacketBatch) (outcomes : list ReplayPushOutcome) : pipe ReplayEncoderError unit :=
  pending ← gets spool_pending_from_ns;
  _ ← match pending with
      | Some _ => on_error flush_spool_backlog (fun _ => modify degrade_spool)
      | None => submit_stored (zip (batch_packets b) outcomes)
      end;
  phase ← with_the_spool spool_phase;
  if match phase with Some ph => negb (bool_decide (ph = SpoolRunning)) | None => false end
  then modify degrade_spool else mret tt.
Definition push_encoded (b : EncodedPacketBatch) : pipe ReplayEncoderError unit :=
  stream ← gets (fun p => flow_stream (flow p));
  _ ← lift (for_each (fun _ p => validate_packet stream (packet_bytes p)) (batch_packets b) tt);
  outcomes ← push_to_flow b;
  let stored := zlen (List.filter is_stored outcomes) in
  _ ← modify (fun p => set_encoded_packets_total (sat_add U64_MAX (encoded_packets_total p) stored) p);
  active ← gets (fun p => match spool p with Some _ => negb (spool_degraded p) | None => false end);
  if active : bool then feed_spool b outcomes else mret tt.

(** The loop over the inputs an output completes. *)
Fixpoint complete_inputs (done : list Z) : pipe ReplayEncoderError unit :=
  match done with
  | [] => mret tt
  | sequence :: done =>
      inputs ← gets in_flight_inputs;
      match list_find (fun pending => pending = sequence) inputs with
      | None => fail_with InvalidInputCompletion
      | Some (index, _) =>
          _ ← modify (fun p => set_in_flight_inputs (delete index (in_flight_inputs p)) p);
          completed ← gets completed_inputs;
          if MAX_COMPLETED_INPUTS <=? zlen completed then fail_with InvalidInputCompletion
          else
            _ ← modify (fun p => set_completed_inputs (completed_inputs p ++ [sequence]) p);
            complete_inputs done
      end
  end.
Definition accept_encoded (output : HardwareEncodeOutput) : pipe ReplayEncoderError unit :=
  _ ← complete_inputs (Encoder.completed_inputs output);
  push_encoded (batch output).

(** * Operations *)
Definition pipeline_new (s : ReplaySettings) (b : B) : outcome ReplayPipelineError pipeline :=
  if negb (stream_matches_settings (backend_stream b) s) then Err BackendStreamMismatch
  else Ok {|
    settings := s; backend := Some b; shutdown_error := None;
    flow := flow_new (in_memory_settings s) (backend_stream b);
    spool := None; spool_pending_from_ns := None; spool_degraded := false; encoded_packets_total := 0;
    pipeline_phase := PipeBuffering; last_frame_timestamp_ns := None; last_keyframe_request_timestamp_ns := None;
    in_flight_inputs := []; completed_inputs := [];
    audio := audio_new Seconds900 OpusStreamDescription_default |}.
Definition with_spool (s : S) (p : pipeline) : pipeline := set_spool (Some s) p.

Definition when_buffering {A} (m : pipe ReplayPipelineError A) : pipe ReplayPipelineError A := fun p =>
  if bool_decide (pipeline_phase p = PipeBuffering) then m p else (p, Err PipeInvalidLifecycle).

Definition submit_audio (packet : EncodedOpusPacket) : pipe ReplayPipelineError unit :=
  when_buffering (fun p =>
    match audio_push (audio p) packet with
    | (a, r) => (set_audio a p, map_err AudioError r)
    end).

(** A call on the backend: no backend is an invalid lifecycle, its failure closes
    the pipeline, and what it produced is accepted or closes the pipeline. *)
Definition call_backend (f : B -> B * (HardwareEncodeOutput + ReplayEncoderError)) : pipe ReplayPipelineError unit :=
  fun p =>
  match backend p with
  | None => (p, Err PipeInvalidLifecycle)
  | Some b =>
      match f b with
      | (b, inr e) => fail_closed_with (EncoderError e) (set_backend (Some b) p)
      | (b, inl output) =>
          match accept_encoded output (set_backend (Some b) p) with
          | (p, Ok _) => (p, Ok tt)
          | (p, Err e) => fail_closed_with (EncoderError e) p
          | (p, Panic) => (p, Panic)
          end
      end
  end.

Definition submit_frame (input_sequence : Z) (frame : DmaBufReplayFrame) : pipe ReplayPipelineError unit :=
  when_buffering (
    inputs ← gets in_flight_inputs;
    if (input_sequence =? 0) || elem_Z input_sequence inputs
    then fail_closed_with (EncoderError InvalidInputCompletion)
    else
      _ ← modify (fun p => set_in_flight_inputs (in_flight_inputs p ++ [input_sequence]) p);
      stream ← gets (fun p => flow_stream (flow p));
      if negb (frame_width frame =? stream_width stream) || negb (frame_height frame =? stream_height stream)
      then fail_closed_with FrameFormatChanged
      else
        last ← gets last_frame_timestamp_ns;
        if match last with Some t => frame_timestamp_ns frame <=? t | None => false end
        then fail_closed_with FrameTimestampNotMonotonic
        else
          requested ← gets last_keyframe_request_timestamp_ns;
          let timestamp := frame_timestamp_ns frame in
          let force_keyframe :=
            match requested with
            | Some t => KEYFRAME_REQUEST_INTERVAL_NS <=? sat_sub timestamp t
            | None => true
            end in
          _ ← call_backend (encode input_sequence frame force_keyframe);
          _ ← modify (set_last_frame_timestamp_ns (Some timestamp));
          _ ← (if force_keyframe : bool then modify (set_last_keyframe_request_timestamp_ns (Some timestamp)) else mret tt);
          inputs ← gets in_flight_inputs;
          if MAX_TRACKED_INPUTS <? zlen inputs
          then fail_closed_with (EncoderError InvalidInputCompletion)
          else mret tt).

(** [std::mem::take] on the completed inputs. *)
Definition take_completed_inputs (p : pipeline) : pipeline * list Z := (set_completed_inputs [] p, completed_inputs p).

(** ** Saving *)
(** The interval from the first packet's start to the last one's end. *)
Definition ring_window (ps : list EncodedReplayPacket) : option (Z * Z) :=
  match head ps, last ps with
  | Some first, Some last => Some (timestamp_ns first, sat_add U64_MAX (timestamp_ns last) (duration_ns last))
  | _, _ => None
  end.
Definition audio_snapshot (p : pipeline) : ReplayAudioSnapshot :=
  match ring_window (packets (flow_ring (flow p))) with
  | Some (start, stop) => snapshot_between (audio p) start stop
  | None => snapshot_between (audio p) 0 0
  end.
(** [store.save_with_audio_as] is an argument. *)
Definition save_replay {C} (save : ReplayVideoStream -> ReplayRing -> ReplayAudioSnapshot -> ReplayOutputFormat -> C + string)
    : pipe ReplayPipelineError C :=
  when_buffering (
    _ ← call_backend drain;
    ring ← gets (fun p => flow_ring (flow p));
    if stats_stored_packets (ring_stats ring) =? 0 then fail_with NoEncodedFrames
    else
      _ ← modify (set_pipeline_phase PipeSaving);
      saved ← gets (fun p => save (flow_stream (flow p)) (flow_ring (flow p)) (audio_snapshot p) Matroska);
      match saved with
      | inl clip => _ ← modify (set_pipeline_phase PipeBuffering); mret clip
      | inr e => fail_closed_with (StoreError e)
      end).

Definition disk_history_available {E} : pipe E bool := fun p =>
  if spool_degraded p then (p, Ok false)
  else
    (phase ← with_the_spool spool_phase;
     mret match phase with Some ph => bool_decide (ph = SpoolRunning) | None => false end) p.

Definition flush_spool_backlog_before_save : pipe ReplaySpoolError unit := fun p =>
  (gone ← (if spool_degraded p then mret true
           else phase ← with_the_spool spool_phase;
                mret match phase with Some ph => negb (bool_decide (ph = SpoolRunning)) | None => false end);
   if gone : bool then fail_with (error_new "Replay disk history is unavailable; use the bounded recent RAM history")
   else
     pending ← gets spool_pending_from_ns;
     match pending with
     | None => mret tt
     | Some _ =>
         _ ← wrap_err (fun _ => error_new "Replay spool could not recover queued history") flush_spool_backlog;
         pending ← gets spool_pending_from_ns;
         match pending with
         | Some _ => fail_with (error_new "Replay disk history is still catching up; try saving again")
         | None => mret tt
         end
     end) p.

(** [starts]: whether [ReplayAssemblyJob::spawn] can start its thread. *)
Definition save_recent_replay_as_with_audio_tracks (requested : ReplayDuration) (format : ReplayOutputFormat)
    (tracks : Z -> Z -> ReplayAudioTracks) (starts : bool) : pipe ReplayPipelineError RamJob :=
  when_buffering (
    _ ← call_backend drain;
    snapshot ← gets (fun p => snapshot_for_duration (flow_ring (flow p)) requested);
    ring ← lift (expect snapshot);
    match ring_window (packets ring) with
    | None => fail_with NoEncodedFrames
    | Some window =>
        if starts then gets (fun p => {|
          job_ring := ring; job_window := window; job_audio := tracks window.1 window.2;
          job_stream := flow_stream (flow p); job_settings := with_duration requested (settings p);
          job_format := format |})
        else fail_with (SpoolError (error_new "could not start Replay save"))
    end).

(** The rest of the save once the encoder is drained. *)
Definition save_from_spool (requested : ReplayDuration) (format : ReplayOutputFormat)
    (tracks : Z -> Z -> ReplayAudioTracks) : pipe ReplayPipelineError J := fun p =>
  match spool p with
  | None => (p, Err PipeInvalidLifecycle)
  | Some s =>
      let p := set_last_keyframe_request_timestamp_ns None p in
      match save_async_tracks_with_audio requested (settings p) (flow_stream (flow p)) format tracks s with
      | (s, inl job) => (set_last_keyframe_request_timestamp_ns None (set_spool (Some s) p), Ok job)
      | (s, inr e) =>
          (set_spool (Some s) p,
           Err (match error_kind e with InsufficientHistory => PipeInsufficientHistory | _ => SpoolError e end))
      end
  end.
Definition spool_or_recent (requested : ReplayDuration) (format : ReplayOutputFormat)
    (tracks : Z -> Z -> ReplayAudioTracks) (starts : bool) : pipe ReplayPipelineError (J + RamJob) := fun p =>
  match flush_spool_backlog_before_save p with
  | (p, Ok _) => (job ← save_from_spool requested format tracks; mret (inl job)) p
  | (p, Err e) =>
      (available ← disk_history_available;
       if available : bool then fail_with (SpoolError e)
       else job ← save_recent_replay_as_with_audio_tracks requested format tracks starts; mret (inr job)) p
  | (p, Panic) => (p, Panic)
  end.
Definition save_spooled_replay_as_with_audio_tracks (requested : ReplayDuration) (format : ReplayOutputFormat)
    (tracks : Z -> Z -> ReplayAudioTracks) (starts : bool) : pipe ReplayPipelineError (J + RamJob) :=
  when_buffering (_ ← call_backend drain; spool_or_recent requested format tracks starts).

(** ** Reset and shutdown *)
(** The parts of [reset] after its [begin_reset]; a rejected replacement is shut
    down and forgotten. *)
Definition fail_reset (e : ReplayPipelineError) : pipe ReplayPipelineError unit := fun p =>
  (set_pipeline_phase PipeFailed (set_flow (flow_fail (flow p)) p), Err e).
Definition reset_spool (p : pipeline) : pipeline :=
  let p :=
    match spool p with
    | Some s =>
        if spool_degraded p then p
        else match spool_reset_epoch s with
             | (s, Ok _) => set_spool (Some s) p
             | (s, _) => degrade_spool (set_spool (Some s) p)
             end
    | None => p
    end in
  set_encoded_packets_total 0 (set_spool_pending_from_ns None p).
Definition replace_backend (replacement : B) : pipe ReplayPipelineError unit := fun p =>
  match shutdown_backend p with
  | (p, Err e) => fail_reset (EncoderError e) p
  | (p, Panic) => (p, Panic)
  | (p, Ok _) =>
      if negb (stream_matches_settings (backend_stream replacement) (settings p))
      then fail_reset BackendStreamMismatch p
      else
        match complete_reset (flow p) (backend_stream replacement) with
        | (f, Err e) => fail_reset (EncoderError e) (set_flow f p)
        | (f, Panic) => (set_flow f p, Panic)
        | (f, Ok _) =>
            (set_pipeline_phase PipeBuffering
               (set_last_keyframe_request_timestamp_ns None (set_last_frame_timestamp_ns None
                  (set_audio (audio_clear (audio p)) (set_backend (Some replacement) (set_flow f p))))), Ok tt)
        end
  end.
Definition pipeline_reset (replacement : B) : pipe ReplayPipelineError unit :=
  when_buffering (
    _ ← modify (fun p => set_flow (begin_reset (flow p)) (set_pipeline_phase PipeResetting p));
    _ ← modify reset_spool;
    replace_backend replacement).

Definition pipeline_shutdown : pipe ReplayPipelineError unit := fun p =>
  if bool_decide (pipeline_phase p = PipeShutdown) then
    (p, match shutdown_error p with Some e => Err (EncoderError e) | None => Ok tt end)
  else
    match shutdown_backend p with
    | (p, r) =>
        (set_pipeline_phase PipeShutdown (set_encoded_packets_total 0 (set_spool_pending_from_ns None
           (set_spool None (set_flow (shutdown (flow p)) p)))), map_err EncoderError r)
    end.

(** ** What status reports *)
Definition ram_only_spool_stats (x : ReplaySpoolStats) (p : pipeline) : ReplaySpoolStats :=
  let ring := flow_ring (flow p) in {|
  active_segments := active_segments x;
  stats_active_bytes := stats_stored_bytes (ring_stats ring);
  stats_buffered_duration_ns := match ring_window (packets ring) with Some (start, stop) => sat_sub stop start | None => 0 end;
  stats_accepted_packets := encoded_packets_total p;
  stats_queued_packets := 0;
  stats_dropped_queue_full := stats_dropped_queue_full x;
  stats_dropped_awaiting_keyframe := stats_dropped_awaiting_keyframe x;
  stats_recovered_segments := stats_recovered_segments x;
  stats_slow_writes := stats_slow_writes x;
  stats_segment_resyncs := stats_segment_resyncs x |}.
Definition pipeline_spool_stats : pipe ReplayPipelineError (option ReplaySpoolStats) :=
  x ← with_the_spool stats;
  match x with
  | None => mret None
  | Some x =>
      degraded ← gets spool_degraded;
      gone ← (if degraded : bool then mret true
              else phase ← with_the_spool spool_phase;
                   mret match phase with Some ph => negb (bool_decide (ph = SpoolRunning)) | None => false end);
      gets (fun p => Some (if gone : bool then ram_only_spool_stats x p else x))
  end.
End Pipeline.
