(* ===== verification/PipelineFacts.v ===== *)
(** The pipeline's invariant: who holds the inputs of the encoder, and which
    packets the disk spool has been given. *)
From stdpp Require Import strings sorting.
From S2P Require Import Prelude Bytes Profiles Preferences Replay ReplayRing ReplayAudio PacketSource Spool SpoolWorker Encoder Pipeline Arith.
Local Open Scope Z_scope.

Notation packet := EncodedReplayPacket.

(** * The interfaces' laws *)
(** Packets of an encoder are built by [EncodedReplayPacket::new]. *)
Definition output_ok (o : HardwareEncodeOutput) : Prop := Forall packet_ok (batch_packets (batch o)).
Class HardwareEncoderBackendSpec (B : Type) `{HardwareEncoderBackend B} := {
  encode_output n f k b b' o : encode n f k b = (b', inl o) -> output_ok o;
  drain_output b b' o : drain b = (b', inl o) -> output_ok o;
}.

(** What reaches the queue of a spool, in order. *)
Inductive SpoolEvent := Handed (p : packet) | EpochReset.
Definition epoch (es : list SpoolEvent) : list packet :=
  foldl (fun ps e => match e with Handed p => ps ++ [p] | EpochReset => [] end) [] es.
(** A packet is queued exactly when [try_submit] says so, and a spool that is
    not running stays that way. *)
Class SegmentSpoolSpec (S J : Type) `{SegmentSpool S J} := {
  handed : S -> list SpoolEvent;
  stopped : S -> Prop;
  submit_hands p s s' r : try_submit p s = (s', r) ->
    handed s' = match r with Accepted => handed s ++ [Handed p] | _ => handed s end;
  submit_stops p s s' r : try_submit p s = (s', r) -> (stopped s -> r = NotRunning) /\ (r = NotRunning -> stopped s');
  phase_hands s s' x : spool_phase s = (s', x) -> handed s' = handed s /\ (stopped s -> stopped s');
  stats_hands s s' x : stats s = (s', x) -> handed s' = handed s /\ (stopped s -> stopped s');
  reset_hands s s' r : spool_reset_epoch s = (s', r) ->
    match r with Ok _ => handed s' = handed s ++ [EpochReset] /\ ~ stopped s | _ => handed s' = handed s end;
  save_hands d c v f t s s' r : save_async_tracks_with_audio d c v f t s = (s', r) ->
    handed s' = handed s /\ (stopped s -> stopped s') /\ (stopped s -> exists e, r = inr e);
}.

Lemma epoch_snoc es p : epoch (es ++ [Handed p]) = epoch es ++ [p].
Proof. unfold epoch. by rewrite foldl_app. Qed.
Lemma epoch_reset es : epoch (es ++ [EpochReset]) = [].
Proof. unfold epoch. by rewrite foldl_app. Qed.

(** * A history that ends with what the ring holds *)
Record history_of (r : ReplayRing) (stream : ReplayVideoStream) (all : list packet) : Prop := {
  ho_suffix : suffix (packets r) all;
  ho_sorted : StronglySorted earlier all;
  ho_ok : Forall (fun p => packet_ok p /\ packet_valid stream p) all;
  ho_last : Forall (fun p => exists l, last_timestamp_ns r = Some l /\ timestamp_ns p <= l) all;
}.

Lemma push_later r p r' o l :
  push r p = Some (r', Ok o) -> last_timestamp_ns r = Some l -> l < timestamp_ns p.
Proof.
  unfold push. intros H Hl. case_match; [done|]. rewrite Hl in H. destruct (Z.leb_spec (timestamp_ns p) l); [done|lia].
Qed.

Lemma push_history r p r' o stream all :
  ring_inv r -> packet_ok p -> packet_valid stream p -> push r p = Some (r', Ok o) -> history_of r stream all ->
  history_of r' stream (all ++ (if is_stored o then [p] else [])).
Proof.
  intros Hr Hp Hv Hpush [Hsuf Hsort Hok Hlast].
  destruct (push_meets_spec r p Hr Hp) as (r1 & res & E & _ & Hspec). rewrite Hpush in E. injection E as <- <-.
  assert (Hlater : Forall (fun q => earlier q p) all).
  { eapply Forall_impl; [exact Hlast|]. intros q (l & Hl & Hle). pose proof (push_later _ _ _ _ _ Hpush Hl). unfold earlier. lia. }
  destruct o as [ep eb|]; cbn [push_spec is_stored] in *.
  - destruct Hspec as (Hl & Hs & _). split.
    + destruct Hsuf as [k ->]. etransitivity; [exact Hs|]. rewrite <- (assoc_L app). by apply suffix_app_r.
    + by apply sorted_snoc.
    + apply Forall_app. split; [done|by constructor].
    + apply Forall_app. split; [|by repeat (econstructor; eauto); lia].
      eapply Forall_impl; [exact Hlater|]. intros q Hq. exists (timestamp_ns p). unfold earlier in Hq. split; [done|lia].
  - destruct Hspec as (_ & _ & Hr' & Hl & _). rewrite app_nil_r. split; [|done..|].
    + rewrite Hr'. by exists all; rewrite app_nil_r.
    + eapply Forall_impl; [exact Hlater|]. intros q Hq. exists (timestamp_ns p). unfold earlier in Hq. split; [done|lia].
Qed.

Definition stored_of (ps : list packet) (os : list ReplayPushOutcome) : list packet :=
  map fst (List.filter (fun x => is_stored x.2) (zip ps os)).

Lemma stored_cons p ps o os : stored_of (p :: ps) (o :: os) = (if is_stored o then [p] else []) ++ stored_of ps os.
Proof. unfold stored_of. cbn. by destruct (is_stored o). Qed.

Lemma stored_count ps os :
  length os = length ps -> zlen (List.filter is_stored os) = zlen (stored_of ps os).
Proof.
  revert os. induction ps as [|p ps IH]; intros [|o os] H; try done. injection H as H.
  rewrite stored_cons, zlen_app, <- (IH os H). cbn [List.filter]. destruct (is_stored o); [rewrite zlen_cons|]; done.
Qed.

Lemma push_packets_history ps f os f' os' all :
  flow_inv f -> flow_phase f = Running -> Forall packet_ok ps -> Forall (packet_valid (flow_stream f)) ps ->
  push_packets f ps os = Some (f', Ok os') -> history_of (flow_ring f) (flow_stream f) all ->
  exists new, os' = os ++ new /\ length new = length ps
    /\ history_of (flow_ring f') (flow_stream f) (all ++ stored_of ps new).
Proof.
  intros Hf Hrun Hok. revert f os all Hf Hrun. induction Hok as [|p ps Hp Hok IH]; intros f os all Hf Hrun Hv Hpush Hall.
  { injection Hpush as <- <-. exists []. by rewrite !app_nil_r. }
  apply Forall_cons in Hv as [Hvp Hv]. cbn [push_packets] in Hpush.
  destruct (push_meets_spec (flow_ring f) p ltac:(apply Hf) Hp) as (r' & res & Er & Hr' & Hspec). rewrite Er in Hpush.
  destruct res as [o|e|]; [|done..].
  pose proof (push_history _ _ _ _ _ _ ltac:(apply Hf) Hp Hvp Er Hall) as Hall'.
  assert (Hf' : flow_inv (with_ring_phase r' (flow_phase f) f)).
  { split; cbn; [done|eapply push_valid; [exact Hspec|apply Hf|done]|by rewrite Hrun]. }
  destruct (IH _ (os ++ [o]) _ Hf' Hrun Hv Hpush Hall') as (new & -> & Hlen & Hnew).
  exists (o :: new). rewrite stored_cons, (assoc_L app), <- (assoc_L app). split; [done|]. split; [cbn; by rewrite Hlen|exact Hnew].
Qed.

Lemma push_batch_history f b f' os all :
  flow_inv f -> Forall packet_ok (batch_packets b) -> push_batch f b = Some (f', Ok os) ->
  history_of (flow_ring f) (flow_stream f) all ->
  length os = length (batch_packets b) /\ history_of (flow_ring f') (flow_stream f) (all ++ stored_of (batch_packets b) os).
Proof.
  intros Hf Hok Hpush Hall. unfold push_batch in Hpush. case_bool_decide as Hrun; [|done]. cbn [negb] in Hpush.
  destruct (validate_batch _ _) eqn:Ev; [|done..]. apply validate_batch_Ok in Ev.
  destruct (push_packets_history _ _ _ _ _ _ Hf Hrun Hok Ev Hpush Hall) as (new & -> & Hlen & Hnew). done.
Qed.

(** The part of a history from a given packet on, found again in the ring. *)
Lemma later_than p ps t :
  StronglySorted earlier (p :: ps) -> t <= timestamp_ns p -> List.filter (fun q => t <=? timestamp_ns q) (p :: ps) = p :: ps.
Proof.
  intros Hs Ht. apply filter_all. apply StronglySorted_inv in Hs as [_ Hs]. constructor; [by apply Z.leb_le|].
  eapply Forall_impl; [exact Hs|]. intros q Hq. unfold earlier in Hq. apply Z.leb_le. lia.
Qed.

Lemma backlog_found r stream sent p pend :
  history_of r stream (sent ++ p :: pend) ->
  let ps := List.filter (fun q => timestamp_ns p <=? timestamp_ns q) (packets r) in
  match head ps with Some q => negb (timestamp_ns q =? timestamp_ns p) | None => true end = true \/ ps = p :: pend.
Proof.
  intros [[k Hk] Hs _ _]. cbn zeta.
  assert (Hcases : (exists sent', packets r = sent' ++ p :: pend /\ suffix sent' sent) \/ exists l, pend = l ++ packets r).
  { destruct (app_eq_inv _ _ _ _ Hk) as [(l & -> & Hl)|(l & -> & Hl)].
    - left. exists l. split; [done|by exists k].
    - destruct l as [|x l]; cbn in Hl; [left; exists []; split; [done|by exists sent; rewrite app_nil_r]|].
      injection Hl as <- Hl. right. by exists l. }
  destruct Hcases as [(sent' & -> & Hsuf)|[l ->]].
  - right. rewrite List.filter_app.
    rewrite (later_than p pend (timestamp_ns p)); [|by eapply StronglySorted_app_1_r|lia].
    rewrite filter_none; [done|]. eapply Forall_suffix in Hsuf; [exact Hsuf|].
    apply Forall_forall. intros q Hq. apply Z.leb_gt. eapply (StronglySorted_app_1_elem_of _ _ _ _ _ Hs Hq). by left.
  - left. destruct (List.filter _ (packets r)) as [|q qs] eqn:E; [done|]. cbn. apply negb_true_iff, Z.eqb_neq.
    assert (Hq : q ∈ packets r).
    { apply list_elem_of_In. apply (List.filter_In (fun q => timestamp_ns p <=? timestamp_ns q) q (packets r)). rewrite E. by left. }
    apply StronglySorted_app_1_r in Hs. apply StronglySorted_inv in Hs as [_ Hs]. rewrite Forall_forall in Hs.
    specialize (Hs q). unfold earlier in Hs. assert (timestamp_ns p < timestamp_ns q); [|lia]. apply Hs. apply elem_of_app. by right.
Qed.

(** * Running a bind *)
Lemma run_ok {T E A C} (m : st T E A) (k : A -> st T E C) s s' a : m s = (s', Ok a) -> (m ≫= k) s = k a s'.
Proof. intros H. unfold mbind, st_bind. by rewrite H. Qed.
Lemma run_err {T E A C} (m : st T E A) (k : A -> st T E C) s s' e : m s = (s', Err e) -> (m ≫= k) s = (s', Err e).
Proof. intros H. unfold mbind, st_bind. by rewrite H. Qed.
Lemma run_gets {B S E A C} (f : ReplayHardwarePipeline B S -> A) (k : A -> st (ReplayHardwarePipeline B S) E C) p :
  (Pipeline.gets f ≫= k) p = k (f p) p.
Proof. done. Qed.
Lemma run_modify {B S E C} (f : ReplayHardwarePipeline B S -> ReplayHardwarePipeline B S) (k : unit -> st (ReplayHardwarePipeline B S) E C) p :
  (Pipeline.modify f ≫= k) p = k tt (f p).
Proof. done. Qed.
Lemma run_lift {T E A C} (m : outcome E A) (k : A -> st T E C) s :
  (lift m ≫= k) s = match m with Ok a => k a s | Err e => (s, Err e) | Panic => (s, Panic) end.
Proof. by destruct m. Qed.

(** * Feeding the spool *)
Section Facts.
Context {B S J : Type} `{!HardwareEncoderBackend B} `{!SegmentSpool S J}.
Context `{!HardwareEncoderBackendSpec B} `{!SegmentSpoolSpec S J}.
Notation pipeline := (ReplayHardwarePipeline B S).
Implicit Types (p : pipeline) (s : S).

(** Everything but the spool and the two fields that follow it. *)
Definition strip (p : pipeline) : pipeline :=
  set_spool None (set_spool_pending_from_ns None (set_spool_degraded false p)).

(** What a history handed over up to [sent] lacks. *)
Definition lacks (p : pipeline) (s : S) (all : list packet) : Prop :=
  exists pend, all = epoch (handed s) ++ pend /\ spool_pending_from_ns p = timestamp_ns <$> head pend.

Lemma submit_one p s q :
  spool p = Some s -> exists s' r, try_submit q s = (s', r)
    /\ with_the_spool (E := ReplayEncoderError) (try_submit q) p = (set_spool (Some s') p, Ok (Some r)).
Proof.
  intros Hs. destruct (try_submit q s) as [s' r] eqn:E. exists s', r. split; [done|].
  unfold with_the_spool. by rewrite Hs, E.
Qed.

Lemma flush_packets_spec ps p s :
  spool p = Some s -> (ps = [] -> spool_pending_from_ns p = None) ->
  exists p' r s', flush_packets ps p = (p', r) /\ spool p' = Some s' /\ strip p' = strip p
    /\ spool_degraded p' = spool_degraded p
    /\ (stopped s -> stopped s')
    /\ match r with
       | Ok _ => lacks p' s' (epoch (handed s) ++ ps)
       | Err _ => stopped s'
       | Panic => False
       end.
Proof.
  revert p s. induction ps as [|q ps IH]; intros p s Hs Hnone.
  { exists p, (Ok tt), s. splits; [done..|]. exists []. split; [done|]. by apply Hnone. }
  destruct (submit_one p s q Hs) as (s' & r & E & Eq). pose proof (submit_hands _ _ _ _ E) as Hh. pose proof (submit_stops _ _ _ _ E) as [Hst1 Hst2].
  cbn [flush_packets]. unfold mbind, st_bind at 1. rewrite Eq. unfold st_bind at 1. cbn [expect lift].
  destruct r; cbn.
  - destruct (IH (set_spool_pending_from_ns None (set_spool (Some s') p)) s' eq_refl ltac:(done))
      as (p' & r & s'' & Ef & Hs' & Hstrip & Hd & Hst & Hr).
    exists p', r, s''. splits; [exact Ef|done|by rewrite Hstrip|done|tauto|].
    rewrite Hh, epoch_snoc, <- (assoc_L app) in Hr. exact Hr.
  - eexists _, _, s'. splits; [done..|intros Hst; by specialize (Hst1 Hst)|].
    exists (q :: ps). by rewrite Hh.
  - eexists _, _, s'. splits; [done..|tauto|tauto].
Qed.

Lemma submit_stored_spec ps os p s :
  length os = length ps -> spool p = Some s -> spool_pending_from_ns p = None ->
  exists p' s', submit_stored (zip ps os) p = (p', Ok tt) /\ spool p' = Some s' /\ strip p' = strip p
    /\ (spool_degraded p = true -> spool_degraded p' = true)
    /\ (stopped s -> stopped s')
    /\ (spool_degraded p' = true \/ lacks p' s' (epoch (handed s) ++ stored_of ps os)).
Proof.
  revert os p s. induction ps as [|q ps IH]; intros [|o os] p s Hlen Hs Hnone; try done.
  { exists p, s. splits; [done..|]. right. by exists []. }
  injection Hlen as Hlen. rewrite stored_cons. cbn [zip_with submit_stored]. destruct (is_stored o); [|by apply IH].
  destruct (submit_one p s q Hs) as (s' & r & E & Eq). pose proof (submit_hands _ _ _ _ E) as Hh. pose proof (submit_stops _ _ _ _ E) as [Hst1 Hst2].
  unfold mbind, st_bind at 1. rewrite Eq. unfold st_bind at 1. cbn [expect lift].
  destruct r; cbn.
  - destruct (IH os (set_spool (Some s') p) s' Hlen eq_refl Hnone) as (p' & s'' & Ef & Hs' & Hstrip & Hd & Hst & Hr).
    exists p', s''. splits; [exact Ef|done|done|done|tauto|].
    rewrite Hh, epoch_snoc, <- (assoc_L app) in Hr. exact Hr.
  - eexists _, s'. splits; [done..|intros Hst; by specialize (Hst1 Hst)|]. right. exists (q :: stored_of ps os). by rewrite Hh.
  - eexists _, s'. splits; [done..|tauto|by left].
Qed.

(** What the pipeline owes its spool: unless the disk history is given up, the
    packets handed over in this epoch and those waiting in the ring are all that
    were stored. *)
Definition complete (p : pipeline) (s : S) (all : list packet) : Prop :=
  history_of (flow_ring (flow p)) (flow_stream (flow p)) all
  /\ encoded_packets_total p = Z.min U64_MAX (zlen all).
Definition log_inv (p : pipeline) : Prop :=
  match spool p with
  | Some s => spool_degraded p = true \/ stopped s \/ exists all, complete p s all /\ lacks p s all
  | None => spool_pending_from_ns p = None
  end.

Lemma flush_backlog_spec p s :
  spool p = Some s -> log_inv p -> spool_degraded p = false ->
  exists p' r s', flush_spool_backlog p = (p', r) /\ spool p' = Some s' /\ strip p' = strip p
    /\ spool_degraded p' = false /\ (stopped s -> stopped s')
    /\ match r with Ok _ => log_inv p' | Err _ => stopped s' \/ p' = p | Panic => False end.
Proof.
  intros Hs Hlog Hd. unfold flush_spool_backlog. destruct (spool_pending_from_ns p) as [start|] eqn:Ep.
  2: { exists p, (Ok tt), s. by splits. }
  case_match eqn:Eh.
  { eexists p, _, s. splits; [done..|by right]. }
  assert (Hbacklog : stopped s \/ exists all, complete p s all /\ all = epoch (handed s) ++ List.filter (fun q => start <=? timestamp_ns q) (packets (flow_ring (flow p)))).
  { unfold log_inv in Hlog. rewrite Hs in Hlog. destruct Hlog as [Hlog|[Hlog|(all & Hc & pend & -> & Hp)]]; [by rewrite Hd in Hlog|by left|right].
    rewrite Ep in Hp. destruct pend as [|q pend]; [done|]. injection Hp as ->. eexists. split; [exact Hc|].
    destruct (backlog_found _ _ _ _ _ (proj1 Hc)) as [Hb|Hb]; [by rewrite Hb in Eh|by rewrite Hb]. }
  destruct (flush_packets_spec (List.filter (fun q => start <=? timestamp_ns q) (packets (flow_ring (flow p)))) p s Hs)
    as (p' & r & s' & Ef & Hs' & Hstrip & Hd' & Hst & Hr).
  { intros E. by rewrite E in Eh. }
  exists p', r, s'. splits; [done..|by rewrite Hd'|done|]. destruct r as [[]|e|]; [|by left|done].
  unfold log_inv. rewrite Hs'. right. destruct Hbacklog as [Hstop|(all & [Hc1 Hc2] & Hall)]; [left; tauto|right].
  exists all. split; [|by rewrite Hall]. split.
  - pose proof (f_equal flow Hstrip) as Hf. cbn in Hf. by rewrite Hf.
  - pose proof (f_equal encoded_packets_total Hstrip) as Hf. cbn in Hf. by rewrite Hf.
Qed.

Lemma read_phase {E} p s :
  spool p = Some s -> exists s' x, with_the_spool (E := E) spool_phase p = (set_spool (Some s') p, Ok (Some x))
    /\ handed s' = handed s /\ (stopped s -> stopped s').
Proof.
  intros Hs. destruct (spool_phase s) as [s' x] eqn:E0. exists s', x. unfold with_the_spool. rewrite Hs, E0.
  split; [done|]. by eapply phase_hands.
Qed.

Lemma log_inv_read p s s' :
  spool p = Some s -> handed s' = handed s -> (stopped s -> stopped s') -> log_inv p -> log_inv (set_spool (Some s') p).
Proof.
  intros Hs Hh Hst. unfold log_inv. rewrite Hs. cbn. intros [H|[H|(all & Hc & Hl)]]; [by left|right; left; tauto|].
  right. right. exists all. split; [exact Hc|]. unfold lacks in *. by rewrite Hh.
Qed.
Lemma log_inv_degrade p : log_inv (degrade_spool p).
Proof. unfold log_inv, degrade_spool. cbn. destruct (spool p); [by left|done]. Qed.

(** The packets a batch stores join the history: handed over now or later. *)
Lemma feed_spool_spec b os p s (all : list packet) :
  spool p = Some s -> spool_degraded p = false -> length os = length (batch_packets b) ->
  (stopped s \/ complete p s (all ++ stored_of (batch_packets b) os) /\ lacks p s all) ->
  exists p', feed_spool b os p = (p', Ok tt) /\ strip p' = strip p /\ log_inv p' /\ is_Some (spool p').
Proof.
  intros Hs Hd Hlen Hhist. unfold feed_spool.
  assert (Hfed : exists p', (match spool_pending_from_ns p with
      | Some _ => on_error flush_spool_backlog (fun _ => Pipeline.modify degrade_spool)
      | None => submit_stored (zip (batch_packets b) os)
      end) p = (p', Ok tt) /\ strip p' = strip p /\ log_inv p' /\ is_Some (spool p')).
  { destruct (spool_pending_from_ns p) as [start|] eqn:Ep.
    - assert (Hlog : log_inv p).
      { unfold log_inv. rewrite Hs. right. destruct Hhist as [Hst|[Hc Hl]]; [by left|right]. eexists. split; [exact Hc|].
        destruct Hl as (pend & -> & Hp). exists (pend ++ stored_of (batch_packets b) os). rewrite (assoc_L app). split; [done|].
        rewrite Ep in *. by destruct pend. }
      destruct (flush_backlog_spec p s Hs Hlog Hd) as (p' & r & s' & Ef & Hs' & Hstrip & Hd' & Hst & Hr).
      unfold on_error. rewrite Ef. destruct r as [[]|e|]; [exists p'; splits; [done..|by rewrite Hs']| |done].
      exists (degrade_spool p'). splits; [done|by rewrite <- Hstrip|apply log_inv_degrade|cbn; by rewrite Hs'].
    - destruct (submit_stored_spec (batch_packets b) os p s Hlen Hs Ep) as (p' & s' & Ef & Hs' & Hstrip & _ & Hst & Hr).
      exists p'. splits; [done..| |by rewrite Hs']. unfold log_inv. rewrite Hs'. destruct Hr as [Hr|Hr]; [by left|right].
      destruct Hhist as [Hstop|[[Hc1 Hc2] Hl]]; [left; tauto|right].
      destruct Hl as (pend & Hall & Hp). rewrite Ep in Hp. destruct pend; [|done]. rewrite app_nil_r in Hall. subst all.
      eexists. split; [|exact Hr]. pose proof (f_equal flow Hstrip) as Hf. pose proof (f_equal encoded_packets_total Hstrip) as Ht.
      cbn in Hf, Ht. split; by rewrite ?Hf, ?Ht. }
  destruct Hfed as (p1 & Ef & Hstrip & Hlog & [s1 Hs1]). rewrite run_gets, (run_ok _ _ _ _ _ Ef). clear Ef.
  destruct (read_phase (E := ReplayEncoderError) p1 s1 Hs1) as (s2 & x & Er & Hh & Hst). rewrite (run_ok _ _ _ _ _ Er).
  destruct (negb (bool_decide (x = SpoolRunning))).
  - exists (degrade_spool (set_spool (Some s2) p1)). splits; [done|by rewrite <- Hstrip|apply log_inv_degrade|by eexists].
  - exists (set_spool (Some s2) p1). splits; [done|by rewrite <- Hstrip|by eapply log_inv_read|by eexists].
Qed.

(** ** Accepting what the encoder produced *)
(** What [push_encoded] leaves alone. *)
Definition rest_of (p : pipeline) : pipeline := strip (set_encoded_packets_total 0 (set_flow (flow_new (settings p) (flow_stream (flow p))) p)).

Lemma push_encoded_spec b p :
  flow_inv (flow p) -> Forall packet_ok (batch_packets b) -> log_inv p ->
  exists p' r, push_encoded b p = (p', r) /\ rest_of p' = rest_of p /\ flow_inv (flow p')
    /\ (spool p = None <-> spool p' = None)
    /\ match r with
       | Ok _ => log_inv p' /\ flow_phase (flow p) = Running /\ flow_phase (flow p') = Running
       | Err _ => True
       | Panic => False
       end.
Proof.
  intros Hf Hok Hlog. unfold push_encoded. rewrite run_gets, run_lift.
  change (for_each _ (batch_packets b) tt) with (validate_batch (flow_stream (flow p)) (batch_packets b)).
  destruct (validate_batch _ _) as [u|e|] eqn:Ev; [|by exists p, (Err e)|by apply validate_batch_no_panic in Ev].
  destruct (push_batch_spec (flow p) b Hf Hok) as (f' & r & Epush & Hf' & Hstream & Hr).
  assert (Ep : push_to_flow b p = (set_flow f' p, r)) by (unfold push_to_flow; by rewrite Epush).
  assert (Hrest : forall q, rest_of (set_flow f' (set_encoded_packets_total q p)) = rest_of p).
  { intros q. unfold rest_of, strip. cbn. by rewrite Hstream. }
  destruct r as [os|e|]; [| |done].
  2: { rewrite (run_err _ _ _ _ _ Ep). eexists (set_flow f' p), (Err e). splits; [done|exact (Hrest (encoded_packets_total p))|done..]. }
  destruct Hr as (Hrun & Hrun' & Hlen & _). rewrite (run_ok _ _ _ _ _ Ep), run_modify, run_gets.
  set (total := sat_add U64_MAX (encoded_packets_total p) (zlen (List.filter is_stored os))).
  change (encoded_packets_total (set_flow f' p)) with (encoded_packets_total p). fold total.
  set (p1 := set_encoded_packets_total total (set_flow f' p)).
  change (spool p1) with (spool p). change (spool_degraded p1) with (spool_degraded p). destruct (spool p) as [s|] eqn:Es.
  2: { exists p1, (Ok tt). splits; [done|apply Hrest|done|cbn; by rewrite Es| |done|done]. unfold log_inv in *. cbn. by rewrite Es in *. }
  destruct (spool_degraded p) eqn:Ed; cbn [negb].
  { exists p1, (Ok tt). splits; [done|apply Hrest|done|cbn; by rewrite Es| |done|done]. unfold log_inv. cbn. rewrite Es. by left. }
  unfold log_inv in Hlog. rewrite Es in Hlog.
  assert (Hhist : exists all, stopped s \/ complete p1 s (all ++ stored_of (batch_packets b) os) /\ lacks p1 s all).
  { destruct Hlog as [Hlog|[Hlog|(all & [Hc Ht] & Hl)]]; [by rewrite Ed in Hlog|exists []; by left|]. exists all. right. split; [|exact Hl].
    destruct (push_batch_history _ _ _ _ _ Hf Hok Epush Hc) as [_ Hc']. split; cbn; [by rewrite Hstream|].
    unfold total. rewrite Ht, (stored_count _ _ Hlen), zlen_app. unfold sat_add.
    pose proof (zlen_nonneg (stored_of (batch_packets b) os)). lia. }
  destruct Hhist as [all Hhist].
  destruct (feed_spool_spec b os p1 s all Es Ed Hlen Hhist) as (p' & Efeed & Hstrip & Hlog' & Hsp).
  exists p', (Ok tt). rewrite Efeed.
  pose proof (f_equal flow Hstrip) as Hfl. cbn in Hfl.
  splits; [done| |by rewrite Hfl|by destruct Hsp as [x ->]|done|done|by rewrite Hfl].
  rewrite <- (Hrest total). change (set_flow f' (set_encoded_packets_total total p)) with p1. unfold rest_of.
  assert (E : settings p' = settings p1) by exact (f_equal settings Hstrip). rewrite E, Hfl.
  change (set_flow (flow_new (settings p1) (flow_stream (flow p1))) (set_encoded_packets_total 0 (strip p'))
    = set_flow (flow_new (settings p1) (flow_stream (flow p1))) (set_encoded_packets_total 0 (strip p1))). by rewrite Hstrip.
Qed.
End Facts.
