(* ===== verification/PipelineTheorems.v ===== *)
(** The pipeline's operations: none panics, every input of the encoder is given
    back once, and the disk spool gets every stored packet. *)
From stdpp Require Import strings sorting.
From S2P Require Import Prelude Bytes Profiles Preferences Replay ReplayRing ReplayAudio PacketSource Spool SpoolWorker Encoder Pipeline Arith PipelineFacts.
Local Open Scope Z_scope.

Section Operations.
Context {B S J : Type} `{!HardwareEncoderBackend B} `{!SegmentSpool S J}.
Context `{!HardwareEncoderBackendSpec B} `{!SegmentSpoolSpec S J}.
Notation pipeline := (ReplayHardwarePipeline B S).
Implicit Types (p : pipeline) (s : S) (b : B).

(** The inputs the pipeline holds: done and not taken, or with the encoder. *)
Definition held (p : pipeline) : list Z := completed_inputs p ++ in_flight_inputs p.
Definition held_ok (p : pipeline) : Prop := zlen (held p) <= 5 /\ NoDup (held p).
(** Everything but the inputs, the flow and the spool's fields. *)
Definition core_of (p : pipeline) : pipeline := rest_of (set_in_flight_inputs [] (set_completed_inputs [] p)).

Record pipeline_inv (p : pipeline) : Prop := {
  pi_flow : flow_inv (flow p);
  pi_held : held_ok p;
  pi_phase :
    match pipeline_phase p with
    | PipeBuffering => is_Some (backend p) /\ shutdown_error p = None /\ flow_phase (flow p) = Running /\ log_inv p
                       /\ zlen (in_flight_inputs p) <= MAX_TRACKED_INPUTS
    | PipeFailed | PipeShutdown =>
        flow_phase (flow p) <> Running
        /\ match shutdown_error p with Some _ => is_Some (backend p) | None => backend p = None /\ in_flight_inputs p = [] end
    | PipeSaving | PipeResetting => False
    end;
}.
(** An operation at work: the encoder is there and no input is lost yet. *)
Record working (p : pipeline) : Prop := {
  wk_flow : flow_inv (flow p);
  wk_held : held_ok p;
  wk_backend : is_Some (backend p);
  wk_error : shutdown_error p = None;
}.

Lemma held_ok_perm p p' : held p' ≡ₚ held p -> held_ok p -> held_ok p'.
Proof. intros Hp [Hl Hn]. split; [unfold zlen in *; by rewrite Hp|by rewrite Hp]. Qed.

Lemma release_all p : held_ok p -> release_inputs p = set_in_flight_inputs [] (set_completed_inputs (held p) p).
Proof.
  intros [Hl _]. unfold release_inputs. do 2 f_equal. unfold held in *. revert Hl. generalize (completed_inputs p) as c.
  induction (in_flight_inputs p) as [|x l IH]; intros c Hl; cbn [foldl]; [by rewrite app_nil_r|].
  rewrite zlen_app, zlen_cons in Hl. pose proof (zlen_nonneg l). unfold MAX_COMPLETED_INPUTS.
  rewrite (proj2 (Z.ltb_lt (zlen c) 8)) by lia.
  change (x :: l) with ([x] ++ l). rewrite (assoc_L app). apply IH. rewrite !zlen_app. change (zlen [x]) with 1. lia.
Qed.

Lemma shutdown_backend_spec p :
  working p ->
  exists p' r, shutdown_backend p = (p', r) /\ held p' ≡ₚ held p /\ flow p' = flow p
    /\ (spool p' = spool p /\ spool_pending_from_ns p' = spool_pending_from_ns p /\ spool_degraded p' = spool_degraded p
        /\ encoded_packets_total p' = encoded_packets_total p)
    /\ pipeline_phase p' = pipeline_phase p /\ settings p' = settings p
    /\ match r with
       | Ok _ => backend p' = None /\ shutdown_error p' = None /\ in_flight_inputs p' = [] /\ completed_inputs p' = held p
       | Err e => is_Some (backend p') /\ shutdown_error p' = Some e /\ in_flight_inputs p' = in_flight_inputs p
                  /\ completed_inputs p' = completed_inputs p
       | Panic => False
       end.
Proof.
  intros [Hf Hh [b Hb] He]. unfold shutdown_backend. rewrite He, Hb. destruct (backend_shutdown b) as [b' [e|]].
  - eexists _, (Err e). by splits.
  - rewrite release_all by done. eexists _, (Ok tt). splits; [done| |done..]. unfold held. cbn. by rewrite app_nil_r.
Qed.

Lemma flow_fail_not_running f : flow_phase (flow_fail f) <> Running.
Proof. unfold flow_fail. by destruct (flow_phase f) eqn:E; cbn; rewrite ?E. Qed.
Lemma flow_fail_inv f : flow_inv f -> flow_inv (flow_fail f).
Proof. intros Hf. unfold flow_fail. destruct (flow_phase f); [apply fail_closed_inv, Hf..|done|done]. Qed.

(** Failing closed: the inputs come back unless the shutdown failed. *)
Lemma close_spec p :
  working p ->
  pipeline_inv (close_pipeline p) /\ pipeline_phase (close_pipeline p) = PipeFailed
  /\ held (close_pipeline p) ≡ₚ held p
  /\ (backend (close_pipeline p) = None \/ completed_inputs (close_pipeline p) = completed_inputs p).
Proof.
  intros Hw. unfold close_pipeline. destruct (shutdown_backend_spec p Hw) as (p1 & r & -> & Hperm & Hflow & _ & _ & _ & Hr). cbn [fst].
  set (p2 := if bool_decide (flow_phase (flow p1) = Shutdown) then p1 else set_flow (flow_fail (flow p1)) p1).
  assert (H2 : held p2 = held p1 /\ backend p2 = backend p1 /\ shutdown_error p2 = shutdown_error p1
    /\ in_flight_inputs p2 = in_flight_inputs p1 /\ completed_inputs p2 = completed_inputs p1
    /\ flow_inv (flow p2) /\ flow_phase (flow p2) <> Running).
  { unfold p2. pose proof (wk_flow _ Hw) as Hf. rewrite <- Hflow in Hf. case_bool_decide as E.
    - splits; try done. by rewrite E.
    - cbn. splits; [done..|by apply flow_fail_inv|apply flow_fail_not_running]. }
  destruct H2 as (Hh & Hb & He & Hi & Hc & Hf & Hrun).
  change (held (set_pipeline_phase PipeFailed p2)) with (held p2). cbn [pipeline_phase set_pipeline_phase backend completed_inputs].
  splits; [|done|by rewrite Hh|].
  - split; [done| |].
    + apply (held_ok_perm p); [|by apply wk_held]. change (held p2 ≡ₚ held p). by rewrite Hh.
    + cbn. split; [done|]. rewrite He, Hb, Hi. destruct r as [[]|e|]; [|by destruct Hr as (? & -> & _)|done].
      by destruct Hr as (-> & -> & -> & _).
  - rewrite Hb, Hc. destruct r as [[]|e|]; [by left; apply Hr|by right; apply Hr|done].
Qed.

(** ** Completed inputs *)
Lemma complete_inputs_spec done p :
  held_ok p ->
  exists p' r, complete_inputs done p = (p', r) /\ held p' ≡ₚ held p /\ core_of p' = core_of p
    /\ (spool p' = spool p /\ spool_pending_from_ns p' = spool_pending_from_ns p /\ spool_degraded p' = spool_degraded p
        /\ flow p' = flow p /\ encoded_packets_total p' = encoded_packets_total p)
    /\ zlen (in_flight_inputs p') <= zlen (in_flight_inputs p)
    /\ exists k, completed_inputs p' = completed_inputs p ++ take k done
    /\ match r with Ok _ => take k done = done | Err e => e = InvalidInputCompletion | Panic => False end.
Proof.
  revert p. induction done as [|n done IH]; intros p Hh.
  { exists p, (Ok tt). splits; [done..|]. exists 0%nat. by rewrite app_nil_r. }
  cbn [complete_inputs]. rewrite run_gets. destruct (list_find _ (in_flight_inputs p)) as [[i x]|] eqn:Ef.
  2: { eexists p, (Err _). splits; [done..|]. exists 0%nat. by rewrite app_nil_r. }
  apply list_find_Some in Ef as (Hi & -> & _). rewrite run_modify, run_gets.
  set (p1 := set_in_flight_inputs (delete i (in_flight_inputs p)) p).
  assert (Hdel : in_flight_inputs p ≡ₚ n :: delete i (in_flight_inputs p)) by by apply delete_Permutation.
  assert (Hlen : zlen (completed_inputs p) + 1 <= 5).
  { destruct Hh as [Hl _]. unfold held in Hl. rewrite zlen_app in Hl. apply Permutation_length in Hdel. unfold zlen in *. cbn [length] in *. lia. }
  change (completed_inputs p1) with (completed_inputs p). unfold MAX_COMPLETED_INPUTS.
  rewrite (proj2 (Z.leb_gt 8 _)) by lia. rewrite run_modify.
  set (p2 := set_completed_inputs (completed_inputs p1 ++ [n]) p1).
  assert (Hheld : held p2 ≡ₚ held p).
  { unfold held, p2, p1. cbn. rewrite <- (assoc_L app). apply Permutation_app_head. by symmetry. }
  destruct (IH p2 (held_ok_perm _ _ Hheld Hh)) as (p' & r & Erun & Hperm & Hcore & Hrest & Hin & k & Hc & Hr).
  exists p', r. split; [exact Erun|]. split; [by rewrite Hperm|]. split; [by rewrite Hcore|]. split; [exact Hrest|]. split.
  - unfold p2, p1 in Hin. cbn in Hin. apply Permutation_length in Hdel. unfold zlen in *. cbn [length] in Hdel. lia.
  - exists (Datatypes.S k). rewrite Hc. unfold p2, p1. cbn. rewrite <- (assoc_L app). split; [done|].
    destruct r; [by rewrite Hr|done..].
Qed.

(** ** Calls on the encoder *)
Definition same_feed (p p' : pipeline) : Prop :=
  spool p' = spool p /\ spool_pending_from_ns p' = spool_pending_from_ns p /\ spool_degraded p' = spool_degraded p
  /\ flow p' = flow p /\ encoded_packets_total p' = encoded_packets_total p.
Lemma log_inv_same p p' : same_feed p p' -> log_inv p -> log_inv p'.
Proof. intros (H1 & H2 & H3 & H4 & H5). unfold log_inv, complete, lacks. by rewrite H1, H2, H3, H4, H5. Qed.

Record running (p : pipeline) : Prop := {
  rn_working : working p;
  rn_phase : pipeline_phase p = PipeBuffering;
  rn_flow : flow_phase (flow p) = Running;
  rn_log : log_inv p;
}.

Lemma core_fields p p' :
  core_of p' = core_of p ->
  settings p' = settings p /\ backend p' = backend p /\ shutdown_error p' = shutdown_error p
  /\ pipeline_phase p' = pipeline_phase p /\ flow_stream (flow p') = flow_stream (flow p)
  /\ last_frame_timestamp_ns p' = last_frame_timestamp_ns p
  /\ last_keyframe_request_timestamp_ns p' = last_keyframe_request_timestamp_ns p /\ audio p' = audio p.
Proof.
  intros H. splits; [exact (f_equal settings H)|exact (f_equal backend H)|exact (f_equal shutdown_error H)|exact (f_equal pipeline_phase H)
    |exact (f_equal (fun q => flow_stream (flow q)) H)|exact (f_equal last_frame_timestamp_ns H)
    |exact (f_equal last_keyframe_request_timestamp_ns H)|exact (f_equal audio H)].
Qed.

Lemma accept_spec out p :
  running p -> output_ok out ->
  exists p' r, accept_encoded out p = (p', r) /\ working p' /\ held p' ≡ₚ held p /\ core_of p' = core_of p
    /\ zlen (in_flight_inputs p') <= zlen (in_flight_inputs p) /\ (spool p = None <-> spool p' = None)
    /\ exists k, completed_inputs p' = completed_inputs p ++ take k (Encoder.completed_inputs out)
    /\ match r with
       | Ok _ => running p' /\ take k (Encoder.completed_inputs out) = Encoder.completed_inputs out
       | Err _ => True
       | Panic => False
       end.
Proof.
  intros [Hw Hph Hrun Hlog] Hout. unfold accept_encoded.
  destruct (complete_inputs_spec (Encoder.completed_inputs out) p (wk_held _ Hw)) as (p1 & r & Ec & Hperm & Hcore & Hfeed & Hin & k & Hc & Hr).
  pose proof (core_fields _ _ Hcore) as (Hset & Hb & He & Hph1 & Hst & _).
  assert (Hw1 : working p1).
  { split; [rewrite (proj1 (proj2 (proj2 (proj2 Hfeed)))); apply Hw|by eapply held_ok_perm, Hw|rewrite Hb; apply Hw|rewrite He; apply Hw]. }
  destruct r as [[]|e|]; [|rewrite (run_err _ _ _ _ _ Ec); exists p1, (Err e); do 5 (split; [done|]); split; [by rewrite (proj1 Hfeed)|by exists k]|done].
  rewrite (run_ok _ _ _ _ _ Ec).
  destruct (push_encoded_spec (batch out) p1 (wk_flow _ Hw1) Hout (log_inv_same _ _ Hfeed Hlog)) as (p' & r & Ep & Hrest & Hf & Hsp & Hr').
  assert (Hi : in_flight_inputs p' = in_flight_inputs p1) by exact (f_equal in_flight_inputs Hrest).
  assert (Hc' : completed_inputs p' = completed_inputs p1) by exact (f_equal completed_inputs Hrest).
  assert (Hh : held p' = held p1) by (unfold held; by rewrite Hi, Hc').
  assert (Hcore' : core_of p' = core_of p1).
  { change (set_in_flight_inputs [] (set_completed_inputs [] (rest_of p')) = set_in_flight_inputs [] (set_completed_inputs [] (rest_of p1))).
    by rewrite Hrest. }
  assert (Hw' : working p').
  { split; [done|unfold held_ok; rewrite Hh; apply Hw1| |]; [rewrite (f_equal backend Hrest : backend p' = backend p1)|
      rewrite (f_equal shutdown_error Hrest : shutdown_error p' = shutdown_error p1)]; apply Hw1. }
  exists p', r. split; [exact Ep|]. split; [done|]. split; [by rewrite Hh|]. split; [by rewrite Hcore'|]. split; [by rewrite Hi|].
  split; [by rewrite <- (proj1 Hfeed)|]. exists k. split; [by rewrite Hc', Hc|]. destruct r as [[]|e|]; [|done..].
  split; [|done]. destruct Hr' as (Hl & _ & Hr'). split; [done| |done|done].
  by rewrite (f_equal pipeline_phase Hrest : pipeline_phase p' = pipeline_phase p1), Hph1.
Qed.

(** What became of an operation that failed after failing closed. *)
Definition failed_closed (p p' : pipeline) (out : option HardwareEncodeOutput) : Prop :=
  pipeline_inv p' /\ pipeline_phase p' = PipeFailed /\ held p' ≡ₚ held p
  /\ (backend p' = None \/ exists k, completed_inputs p' = completed_inputs p ++ take k (default [] (Encoder.completed_inputs <$> out))).

Lemma fail_closed_spec p q out k :
  working q -> held q ≡ₚ held p -> completed_inputs q = completed_inputs p ++ take k (default [] (Encoder.completed_inputs <$> out)) ->
  failed_closed p (close_pipeline q) out.
Proof.
  intros Hw Hh Hc. destruct (close_spec q Hw) as (H1 & H2 & H3 & H4). split; [done|]. split; [done|]. split; [by rewrite H3|].
  destruct H4 as [H4|H4]; [by left|right]. exists k. by rewrite H4.
Qed.

Lemma call_backend_spec (f : B -> B * (HardwareEncodeOutput + ReplayEncoderError)) p b :
  running p -> backend p = Some b -> (forall b' o, f b = (b', inl o) -> output_ok o) ->
  exists p' r, call_backend f p = (p', r) /\ held p' ≡ₚ held p /\
  match r with
  | Ok _ => exists b' out, f b = (b', inl out) /\ running p' /\ core_of p' = core_of (set_backend (Some b') p)
      /\ completed_inputs p' = completed_inputs p ++ Encoder.completed_inputs out
      /\ zlen (in_flight_inputs p') <= zlen (in_flight_inputs p) /\ (spool p = None <-> spool p' = None)
  | Err e => exists e', e = EncoderError e' /\ failed_closed p p' (match (f b).2 with inl out => Some out | _ => None end)
  | Panic => False
  end.
Proof.
  intros Hrun Hb Hout. unfold call_backend. rewrite Hb. destruct (f b) as [b' [out|e]].
  - assert (Hrun' : running (set_backend (Some b') p)).
    { destruct Hrun as [[? ? ? ?] ? ? ?]. split; [by split; [..|by eexists|]|done..]. }
    destruct (accept_spec out _ Hrun' (Hout _ _ eq_refl)) as (p' & r & Ea & Hw & Hperm & Hcore & Hin & Hsp & k & Hc & Hr).
    rewrite Ea. destruct r as [[]|e|]; [| |done].
    + exists p', (Ok tt). split; [done|]. split; [done|]. exists b', out. destruct Hr as [Hr Hk]. rewrite Hk in Hc. do 5 (split; [done|]). exact Hsp.
    + unfold fail_closed_with. exists (close_pipeline p'), (Err (EncoderError e)). split; [done|].
      assert (Hfc : failed_closed p (close_pipeline p') (Some out)) by (by eapply fail_closed_spec).
      split; [apply Hfc|]. by exists e.
  - unfold fail_closed_with. eexists _, (Err (EncoderError e)). split; [done|].
    assert (Hfc : failed_closed p (close_pipeline (set_backend (Some b') p)) None).
    { apply (fail_closed_spec _ _ _ 0%nat); [|done|cbn; by rewrite app_nil_r].
      destruct Hrun as [[? ? ? ?] ? ? ?]. by split; [..|by eexists|]. }
    split; [apply Hfc|]. by exists e.
Qed.

(** ** One frame *)
Lemma inv_running p : pipeline_inv p -> pipeline_phase p = PipeBuffering -> running p /\ zlen (in_flight_inputs p) <= MAX_TRACKED_INPUTS.
Proof.
  intros [Hf Hh Hp] E. rewrite E in Hp. destruct Hp as (Hb & He & Hr & Hl & Hi). by split.
Qed.
Lemma running_inv p : running p -> zlen (in_flight_inputs p) <= MAX_TRACKED_INPUTS -> pipeline_inv p.
Proof. intros [[Hf Hh Hb He] Hp Hr Hl] Hi. split; [done..|]. rewrite Hp. done. Qed.

(** Updates of fields that the invariants do not mention. *)
Lemma running_last t p : running p -> running (set_last_frame_timestamp_ns t p).
Proof. intros [[? ? ? ?] ? ? ?]. by split. Qed.
Lemma running_request t p : running p -> running (set_last_keyframe_request_timestamp_ns t p).
Proof. intros [[? ? ? ?] ? ? ?]. by split. Qed.

(** The input becomes the pipeline's. *)
Definition accepts (p : pipeline) (n : Z) : bool :=
  bool_decide (pipeline_phase p = PipeBuffering) && negb (n =? 0) && negb (elem_Z n (in_flight_inputs p)).
Definition keyframe_due (p : pipeline) (timestamp : Z) : bool :=
  match last_keyframe_request_timestamp_ns p with
  | Some t => KEYFRAME_REQUEST_INTERVAL_NS <=? sat_sub timestamp t
  | None => true
  end.
Definition with_input (n : Z) (p : pipeline) : pipeline := set_in_flight_inputs (in_flight_inputs p ++ [n]) p.

Lemma running_input p n :
  running p -> completed_inputs p = [] -> zlen (in_flight_inputs p) <= MAX_TRACKED_INPUTS ->
  elem_Z n (in_flight_inputs p) = false -> running (with_input n p).
Proof.
  intros [[Hf [Hl Hn] Hb He] Hp Hr Hlog] Hc Hi Hfresh. split; [|done..]. split; [done| |done|done].
  unfold held_ok, held, with_input in *. cbn. rewrite Hc in *. cbn [app] in *. split.
  - rewrite zlen_app. change (zlen [n]) with 1. unfold MAX_TRACKED_INPUTS, MAX_HARDWARE_INPUTS_IN_FLIGHT in Hi. lia.
  - apply NoDup_app. split; [done|]. split; [|apply NoDup_singleton]. intros x Hx ->%list_elem_of_singleton.
    apply list_elem_of_In, elem_Z_In in Hx. by rewrite Hfresh in Hx.
Qed.

Definition frame_result (p p' : pipeline) (n : Z) (fr : DmaBufReplayFrame) (r : outcome ReplayPipelineError unit) : Prop :=
  let stream := flow_stream (flow p) in
  if negb (bool_decide (pipeline_phase p = PipeBuffering)) then p' = p /\ r = Err PipeInvalidLifecycle
  else if (n =? 0) || elem_Z n (in_flight_inputs p)
  then r = Err (EncoderError InvalidInputCompletion) /\ failed_closed p p' None
  else if negb (frame_width fr =? stream_width stream) || negb (frame_height fr =? stream_height stream)
  then r = Err FrameFormatChanged /\ failed_closed (with_input n p) p' None
  else if match last_frame_timestamp_ns p with Some t => frame_timestamp_ns fr <=? t | None => false end
  then r = Err FrameTimestampNotMonotonic /\ failed_closed (with_input n p) p' None
  else exists b, backend p = Some b /\
    let '(b', res) := encode n fr (keyframe_due p (frame_timestamp_ns fr)) b in
    match r with
    | Ok _ => exists out, res = inl out /\ pipeline_phase p' = PipeBuffering /\ backend p' = Some b'
        /\ completed_inputs p' = Encoder.completed_inputs out
        /\ flow_stream (flow p') = stream
        /\ last_frame_timestamp_ns p' = Some (frame_timestamp_ns fr)
        /\ last_keyframe_request_timestamp_ns p' =
             (if keyframe_due p (frame_timestamp_ns fr) then Some (frame_timestamp_ns fr) else last_keyframe_request_timestamp_ns p)
    | Err e => (exists e', e = EncoderError e') /\ failed_closed (with_input n p) p' (match res with inl out => Some out | _ => None end)
    | Panic => False
    end.

Lemma closed_here p e out : running p -> exists q r, fail_closed_with (A := unit) e p = (q, r) /\ r = Err e /\ failed_closed p q out.
Proof.
  intros Hr. exists (close_pipeline p), (Err e). split; [done|]. split; [done|].
  apply (fail_closed_spec p p out 0%nat); [apply Hr|done|by rewrite app_nil_r].
Qed.

Lemma submit_frame_spec p n fr :
  pipeline_inv p -> completed_inputs p = [] ->
  exists p' r, submit_frame n fr p = (p', r) /\ pipeline_inv p'
    /\ held p' ≡ₚ held p ++ (if accepts p n then [n] else []) /\ frame_result p p' n fr r.
Proof.
  intros Hinv Hc. unfold submit_frame, when_buffering, frame_result, accepts.
  case_bool_decide as Hph; cbn [negb andb]; [|exists p, (Err PipeInvalidLifecycle); rewrite app_nil_r; by splits].
  destruct (inv_running p Hinv Hph) as [Hrun Hin]. rewrite run_gets.
  destruct (n =? 0) eqn:E0; cbn [orb negb andb].
  { destruct (closed_here p (EncoderError InvalidInputCompletion) None Hrun) as (q & r & Eq & -> & Hq).
    exists q, (Err (EncoderError InvalidInputCompletion)). rewrite app_nil_r. splits; [done|apply Hq..|done|done]. }
  destruct (elem_Z n (in_flight_inputs p)) eqn:E1; cbn [orb negb andb].
  { destruct (closed_here p (EncoderError InvalidInputCompletion) None Hrun) as (q & r & Eq & -> & Hq).
    exists q, (Err (EncoderError InvalidInputCompletion)). rewrite app_nil_r. splits; [done|apply Hq..|done|done]. }
  rewrite run_modify, run_gets. fold (with_input n p). pose proof (running_input p n Hrun Hc Hin E1) as Hrun1.
  assert (Hheld : held (with_input n p) = held p ++ [n]) by (unfold held, with_input; cbn; by rewrite (assoc_L app)).
  change (flow (with_input n p)) with (flow p). rewrite <- Hheld.
  destruct (negb (frame_width fr =? _) || _) eqn:E2.
  { destruct (closed_here (with_input n p) FrameFormatChanged None Hrun1) as (q & r & Eq & -> & Hq).
    exists q, (Err FrameFormatChanged). splits; [done|apply Hq..|done|done]. }
  rewrite run_gets. change (last_frame_timestamp_ns (with_input n p)) with (last_frame_timestamp_ns p).
  destruct (match last_frame_timestamp_ns p with Some t => frame_timestamp_ns fr <=? t | None => false end) eqn:E3.
  { destruct (closed_here (with_input n p) FrameTimestampNotMonotonic None Hrun1) as (q & r & Eq & -> & Hq).
    exists q, (Err FrameTimestampNotMonotonic). splits; [done|apply Hq..|done|done]. }
  rewrite run_gets. change (last_keyframe_request_timestamp_ns (with_input n p)) with (last_keyframe_request_timestamp_ns p).
  fold (keyframe_due p (frame_timestamp_ns fr)). set (due := keyframe_due p (frame_timestamp_ns fr)).
  destruct (wk_backend _ (rn_working _ Hrun)) as [b Hb].
  destruct (call_backend_spec (encode n fr due) (with_input n p) b Hrun1 Hb ltac:(intros; by eapply encode_output)) as (p1 & r & Ec & Hperm & Hr).
  destruct (encode n fr due b) as [b' res] eqn:Ee. cbn beta in Hr. rewrite ?Ee in Hr. cbn [snd] in Hr. destruct r as [[]|e|]; [| |done].
  2: { rewrite (run_err _ _ _ _ _ Ec). exists p1, (Err e). destruct Hr as (e' & -> & Hq).
    split; [done|]. split; [apply Hq|]. split; [done|]. exists b. rewrite Ee. split; [done|]. split; [by eexists|]. exact Hq. }
  rewrite (run_ok _ _ _ _ _ Ec), run_modify. destruct Hr as (b1 & out & [= <- ->] & Hrun2 & Hcore & Hcomp & Hin' & _).
  destruct (core_fields _ _ Hcore) as (_ & Hb' & _ & Hph' & Hst & _ & Hkf & _). cbn in Hb', Hph', Hst, Hkf.
  assert (Ht : exists p2, (if due then modify (set_last_keyframe_request_timestamp_ns (Some (frame_timestamp_ns fr))) else mret tt)
      (set_last_frame_timestamp_ns (Some (frame_timestamp_ns fr)) p1) = (p2, Ok (E := ReplayPipelineError) tt)
      /\ running p2 /\ held p2 = held p1 /\ pipeline_phase p2 = pipeline_phase p1 /\ backend p2 = backend p1
      /\ completed_inputs p2 = completed_inputs p1 /\ in_flight_inputs p2 = in_flight_inputs p1
      /\ flow_stream (flow p2) = flow_stream (flow p1) /\ last_frame_timestamp_ns p2 = Some (frame_timestamp_ns fr)
      /\ last_keyframe_request_timestamp_ns p2 = if due then Some (frame_timestamp_ns fr) else last_keyframe_request_timestamp_ns p1).
  { destruct due; eexists; (split; [done|]); splits; try done; [by apply running_request, running_last|by apply running_last]. }
  destruct Ht as (p2 & Et & Hrun3 & Hh2 & Hph2 & Hb2 & Hc2 & Hi2 & Hst2 & Hlf2 & Hkf2).
  rewrite (run_ok _ _ _ _ _ Et), run_gets. destruct (Z.ltb_spec MAX_TRACKED_INPUTS (zlen (in_flight_inputs p2))) as [Hmany|Hfew].
  - assert (Hfc : failed_closed (with_input n p) (close_pipeline p2) (Some out)).
    { apply (fail_closed_spec _ _ _ (length (Encoder.completed_inputs out))); [apply Hrun3|by rewrite Hh2|].
      rewrite Hc2, Hcomp. cbn [fmap option_fmap option_map default]. by rewrite firstn_all. }
    exists (close_pipeline p2), (Err (EncoderError InvalidInputCompletion)). split; [done|]. split; [apply Hfc|]. split; [apply Hfc|].
    exists b. rewrite Ee. split; [done|]. split; [by eexists|]. exact Hfc.
  - exists p2, (Ok tt). split; [done|]. split; [by apply running_inv|]. split; [by rewrite Hh2|]. exists b. rewrite Ee. split; [done|].
    exists out. splits; [done|by rewrite Hph2, Hph'|by rewrite Hb2, Hb'| |by rewrite Hst2, Hst|done|].
    + rewrite Hc2, Hcomp. unfold with_input. cbn. by rewrite Hc.
    + rewrite Hkf2. by rewrite Hkf.
Qed.

(** ** The other operations *)
Definition settled {A} (p : pipeline) (m : st pipeline ReplayPipelineError A) : Prop :=
  exists p' r, m p = (p', r) /\ r <> Panic /\ pipeline_inv p' /\ held p' ≡ₚ held p.

Lemma settled_here {A} p (m : st pipeline ReplayPipelineError A) r : pipeline_inv p -> m p = (p, r) -> r <> Panic -> settled p m.
Proof. intros Hi Hm Hr. by exists p, r. Qed.
Lemma when_buffering_settled {A} p (m : st pipeline ReplayPipelineError A) :
  pipeline_inv p -> (running p -> zlen (in_flight_inputs p) <= MAX_TRACKED_INPUTS -> settled p m) -> settled p (when_buffering m).
Proof.
  intros Hi Hm. unfold settled, when_buffering. case_bool_decide as E; [|exists p, (Err PipeInvalidLifecycle); by splits].
  destruct (inv_running p Hi E). by apply Hm.
Qed.

Lemma audio_push_no_panic a x : (audio_push a x).2 <> Panic.
Proof. unfold audio_push. repeat (case_match; try done). Qed.
Lemma submit_audio_settled p x : pipeline_inv p -> settled p (submit_audio x).
Proof.
  intros Hi. apply when_buffering_settled; [done|]. intros Hr Hl. pose proof (audio_push_no_panic (audio p) x) as Hp.
  destruct (audio_push (audio p) x) as [a r] eqn:E. exists (set_audio a p), (map_err AudioError r). rewrite E. splits; [done| | |done].
  - by destruct r.
  - apply running_inv; [|done]. destruct Hr as [[? ? ? ?] ? ? ?]. by split.
Qed.

Lemma drained p :
  running p -> zlen (in_flight_inputs p) <= MAX_TRACKED_INPUTS ->
  exists p' r, call_backend drain p = (p', r) /\ held p' ≡ₚ held p
    /\ match r with
       | Ok _ => running p' /\ zlen (in_flight_inputs p') <= MAX_TRACKED_INPUTS /\ (spool p = None <-> spool p' = None)
       | Err _ => pipeline_inv p'
       | Panic => False
       end.
Proof.
  intros Hr Hl. destruct (wk_backend _ (rn_working _ Hr)) as [b Hb].
  destruct (call_backend_spec drain p b Hr Hb ltac:(intros; by eapply drain_output)) as (p' & r & E & Hh & Hres).
  exists p', r. split; [done|]. split; [done|]. destruct r as [[]|e|]; [| |done].
  - destruct Hres as (b' & out & _ & Hr' & _ & _ & Hi & Hsp). split; [done|]. split; [lia|done].
  - destruct Hres as (_ & _ & Hf). apply Hf.
Qed.

Lemma drain_then {A} p (k : unit -> st pipeline ReplayPipelineError A) :
  running p -> zlen (in_flight_inputs p) <= MAX_TRACKED_INPUTS ->
  (forall q, running q -> zlen (in_flight_inputs q) <= MAX_TRACKED_INPUTS -> settled q (k tt)) ->
  settled p (call_backend drain ≫= k).
Proof.
  intros Hr Hl Hk. destruct (drained p Hr Hl) as (q & r & E & Hh & Hres). unfold settled. destruct r as [[]|e|]; [| |done].
  - rewrite (run_ok _ _ _ _ _ E). destruct Hres as (Hr' & Hl' & _). destruct (Hk q Hr' Hl') as (q' & r & Eq & Hnp & Hi & Hh').
    exists q', r. splits; [done..|by rewrite Hh'].
  - rewrite (run_err _ _ _ _ _ E). by exists q, (Err e).
Qed.

Lemma save_replay_settled {C} p (save : ReplayVideoStream -> ReplayRing -> ReplayAudioSnapshot -> ReplayOutputFormat -> C + string) :
  pipeline_inv p -> settled p (save_replay save).
Proof.
  intros Hi. apply when_buffering_settled; [done|]. intros Hr Hl. apply drain_then; [done..|]. intros q Hq Hlq.
  unfold settled. rewrite run_gets. case_match.
  { eexists q, (Err _). splits; [done..|by apply running_inv|done]. }
  rewrite run_modify, run_gets. case_match.
  - rewrite run_modify. exists q, (Ok c). pose proof (rn_phase _ Hq) as Hph.
    assert (E : set_pipeline_phase PipeBuffering (set_pipeline_phase PipeSaving q) = q) by (rewrite <- Hph; by destruct q).
    rewrite E. splits; [done..|by apply running_inv|done].
  - assert (Hw : working (set_pipeline_phase PipeSaving q)) by (destruct Hq as [[? ? ? ?] ? ? ?]; by split).
    destruct (close_spec _ Hw) as (H1 & _ & H3 & _). by eexists _, (Err _).
Qed.

Lemma recent_settled p d f t starts : pipeline_inv p -> settled p (save_recent_replay_as_with_audio_tracks d f t starts).
Proof.
  intros Hi. apply when_buffering_settled; [done|]. intros Hr Hl. apply drain_then; [done..|]. intros q Hq Hlq.
  unfold settled. rewrite run_gets, snapshot_counted by apply Hq. cbn [expect]. rewrite run_lift. destruct (ring_window _), starts.
  - eexists q, (Ok _). splits; [done..|by apply running_inv|done].
  - eexists q, (Err _). splits; [done..|by apply running_inv|done].
  - eexists q, (Err _). splits; [done..|by apply running_inv|done].
  - eexists q, (Err _). splits; [done..|by apply running_inv|done].
Qed.

(** Reads of the spool's phase, and the flush before a save. *)
Lemma running_feed p p' : strip p' = strip p -> log_inv p' -> running p -> running p' /\ held p' = held p /\ in_flight_inputs p' = in_flight_inputs p.
Proof.
  intros H Hl [[Hf Hh Hb He] Hp Hr _].
  assert (E1 : flow p' = flow p) by exact (f_equal flow H). assert (E2 : backend p' = backend p) by exact (f_equal backend H).
  assert (E3 : shutdown_error p' = shutdown_error p) by exact (f_equal shutdown_error H).
  assert (E4 : pipeline_phase p' = pipeline_phase p) by exact (f_equal pipeline_phase H).
  assert (E5 : held p' = held p) by exact (f_equal held H). assert (E6 : in_flight_inputs p' = in_flight_inputs p) by exact (f_equal in_flight_inputs H).
  split; [|done]. split; [|by rewrite E4|by rewrite E1|done]. split; [by rewrite E1|unfold held_ok; by rewrite E5|by rewrite E2|by rewrite E3].
Qed.

Lemma history_gone_spec {E} p :
  running p -> exists p' gone,
    (if spool_degraded p then mret true
     else phase ← with_the_spool spool_phase;
          mret match phase with Some ph => negb (bool_decide (ph = SpoolRunning)) | None => false end) p
    = (p', Ok (E := E) gone) /\ strip p' = strip p /\ log_inv p' /\ (gone = false -> spool_degraded p' = false).
Proof.
  intros Hr. destruct (spool_degraded p) eqn:Ed; [exists p, true; by splits; [..|apply Hr|]|].
  destruct (spool p) as [s|] eqn:Es.
  - destruct (read_phase (E := E) p s Es) as (s' & x & Ex & Hh & Hst). rewrite (run_ok _ _ _ _ _ Ex).
    eexists _, _. splits; [done|done|apply (log_inv_read p s s'); [done..|apply Hr]|done].
  - exists p, false. unfold mbind, st_bind, with_the_spool. rewrite Es. splits; [done..|apply Hr|done].
Qed.

(** After a flush that succeeded the spool has the whole history. *)
Definition whole (p : pipeline) : Prop :=
  match spool p with
  | Some s => spool_degraded p = false /\ (stopped s \/ complete p s (epoch (handed s)))
  | None => True
  end.
Lemma whole_of p : log_inv p -> spool_degraded p = false -> spool_pending_from_ns p = None -> whole p.
Proof.
  unfold log_inv, whole. destruct (spool p) as [s|]; [|done]. intros Hl Hd Hp. split; [done|].
  destruct Hl as [Hl|[Hl|(all & Hc & pend & -> & Hpend)]]; [by rewrite Hd in Hl|by left|right].
  rewrite Hp in Hpend. destruct pend; [|done]. by rewrite app_nil_r in Hc.
Qed.

Lemma flush_before_save_spec p :
  running p -> exists p' r, flush_spool_backlog_before_save p = (p', r) /\ strip p' = strip p /\ log_inv p'
    /\ match r with Ok _ => whole p' | Err _ => True | Panic => False end.
Proof.
  intros Hr. unfold flush_spool_backlog_before_save.
  destruct (history_gone_spec (E := ReplaySpoolError) p Hr) as (p1 & gone & E1 & Hs1 & Hl1 & Hd1). rewrite (run_ok _ _ _ _ _ E1).
  destruct gone; [by exists p1, (Err (error_new "Replay disk history is unavailable; use the bounded recent RAM history"))|].
  specialize (Hd1 eq_refl). rewrite run_gets. destruct (spool_pending_from_ns p1) as [start|] eqn:Ep.
  2: { exists p1, (Ok tt). splits; [done..|by apply whole_of]. }
  destruct (spool p1) as [s|] eqn:Es.
  2: { unfold log_inv in Hl1. rewrite Es, Ep in Hl1. done. }
  destruct (flush_backlog_spec p1 s Es Hl1 Hd1) as (p2 & r & s' & E2 & Es2 & Hs2 & Hd2 & Hst & Hr2).
  assert (Hlog2 : log_inv p2).
  { destruct r as [[]|e|]; [done| |done]. destruct Hr2 as [Hr2| ->]; [|done]. unfold log_inv. rewrite Es2. by right; left. }
  destruct r as [[]|e|]; [| |done].
  - assert (E3 : wrap_err (fun _ => error_new "Replay spool could not recover queued history") flush_spool_backlog p1 = (p2, Ok tt))
      by (unfold wrap_err; by rewrite E2).
    rewrite (run_ok _ _ _ _ _ E3), run_gets. destruct (spool_pending_from_ns p2) eqn:Ep2.
    + eexists p2, (Err _). splits; [done|by rewrite Hs2|done|done].
    + exists p2, (Ok tt). splits; [done|by rewrite Hs2|done|by apply whole_of].
  - assert (E3 : wrap_err (fun _ => error_new "Replay spool could not recover queued history") flush_spool_backlog p1
        = (p2, Err (error_new "Replay spool could not recover queued history"))) by (unfold wrap_err; by rewrite E2).
    rewrite (run_err _ _ _ _ _ E3). eexists p2, (Err _). splits; [done|by rewrite Hs2|done|done].
Qed.

Lemma disk_available_spec {E} p :
  running p -> exists p' x, disk_history_available p = (p', Ok (E := E) x) /\ strip p' = strip p /\ log_inv p'.
Proof.
  intros Hr. unfold disk_history_available. destruct (spool_degraded p); [exists p, false; splits; [done..|apply Hr]|].
  destruct (spool p) as [s|] eqn:Es.
  - destruct (read_phase (E := E) p s Es) as (s' & x & Ex & Hh & Hst). rewrite (run_ok _ _ _ _ _ Ex).
    eexists _, _. splits; [done|done|]. apply (log_inv_read p s s'); [done..|apply Hr].
  - exists p, false. unfold mbind, st_bind, with_the_spool. rewrite Es. splits; [done..|apply Hr].
Qed.

Lemma save_from_spool_spec p d f t :
  running p -> zlen (in_flight_inputs p) <= MAX_TRACKED_INPUTS -> whole p ->
  exists p' r, save_from_spool d f t p = (p', r) /\ running p' /\ held p' = held p /\ in_flight_inputs p' = in_flight_inputs p
    /\ match r with
       | Ok job => last_keyframe_request_timestamp_ns p' = None
           /\ exists s, spool p' = Some s /\ spool_degraded p' = false /\ complete p' s (epoch (handed s))
       | Err _ => True
       | Panic => False
       end.
Proof.
  intros Hr Hl Hwh. unfold save_from_spool. destruct (spool p) as [s|] eqn:Es; [|by exists p, (Err PipeInvalidLifecycle)].
  destruct (save_async_tracks_with_audio _ _ _ _ _ s) as [s' [job|e]] eqn:Ea;
    destruct (save_hands _ _ _ _ _ _ _ _ Ea) as (Hh & Hst & Hno).
  - set (p' := set_spool (Some s') p). assert (Hr' : running p').
    { apply (running_feed p); [done| |done]. apply (log_inv_read p s); [done..|apply Hr]. }
    eexists _, (Ok job). split; [done|]. split; [by apply (running_request _ p'), Hr'|]. splits; [done..|].
    exists s'. split; [done|]. unfold whole in Hwh. rewrite Es in Hwh. destruct Hwh as [Hd [Hstop|Hc]].
    { by destruct (Hno Hstop) as [e ?]. }
    split; [done|]. by rewrite Hh.
  - set (p' := set_spool (Some s') (set_last_keyframe_request_timestamp_ns None p)). eexists p', (Err _). splits; [done| |done|done|done].
    apply (running_feed (set_last_keyframe_request_timestamp_ns None p)); [done| |by apply running_request].
    apply (log_inv_read (set_last_keyframe_request_timestamp_ns None p) s); [done..|]. apply (running_request None p Hr).
Qed.

(** A settled operation whose success says more. *)
Definition settled_with {A} (p : pipeline) (m : st pipeline ReplayPipelineError A) (Q : pipeline -> A -> Prop) : Prop :=
  exists p' r, m p = (p', r) /\ r <> Panic /\ pipeline_inv p' /\ held p' ≡ₚ held p /\ (forall a, r = Ok a -> Q p' a).
Lemma settled_with_settled {A} p (m : st pipeline ReplayPipelineError A) Q : settled_with p m Q -> settled p m.
Proof. intros (p' & r & H1 & H2 & H3 & H4 & _). by exists p', r. Qed.

(** A clip saved from the disk: the spool has every packet of the epoch, and the
    next frame asks for a keyframe. *)
Definition saved_whole (p : pipeline) (job : J + RamJob) : Prop :=
  match job with
  | inl _ => last_keyframe_request_timestamp_ns p = None
      /\ exists s, spool p = Some s /\ spool_degraded p = false /\ complete p s (epoch (handed s))
  | inr _ => True
  end.

Lemma spool_or_recent_spec p d f t starts :
  running p -> zlen (in_flight_inputs p) <= MAX_TRACKED_INPUTS -> settled_with p (spool_or_recent d f t starts) saved_whole.
Proof.
  intros Hr Hl. unfold settled_with, spool_or_recent.
  destruct (flush_before_save_spec p Hr) as (p1 & r1 & E1 & Hs1 & Hl1 & Hr1). rewrite E1.
  destruct (running_feed p p1 Hs1 Hl1 Hr) as (Hrun1 & Hh1 & Hi1). assert (Hin1 : zlen (in_flight_inputs p1) <= MAX_TRACKED_INPUTS) by by rewrite Hi1.
  destruct r1 as [[]|e|]; [| |done].
  - destruct (save_from_spool_spec p1 d f t Hrun1 Hin1 Hr1) as (p2 & r2 & E2 & Hrun2 & Hh2 & Hi2 & Hr2).
    assert (Hinv2 : pipeline_inv p2) by (apply running_inv; [done|by rewrite Hi2]).
    destruct r2 as [job|e|]; [| |done].
    + rewrite (run_ok _ _ _ _ _ E2). exists p2, (Ok (inl job)). splits; [done..|by rewrite Hh2, Hh1|]. by intros a [= <-].
    + rewrite (run_err _ _ _ _ _ E2). exists p2, (Err e). splits; [done..|by rewrite Hh2, Hh1|done].
  - destruct (disk_available_spec (E := ReplayPipelineError) p1 Hrun1) as (p2 & x & E2 & Hs2 & Hl2). rewrite (run_ok _ _ _ _ _ E2).
    destruct (running_feed p1 p2 Hs2 Hl2 Hrun1) as (Hrun2 & Hh2 & Hi2).
    assert (Hinv2 : pipeline_inv p2) by (apply running_inv; [done|by rewrite Hi2]). destruct x.
    + exists p2, (Err (SpoolError e)). splits; [done..|by rewrite Hh2, Hh1|done].
    + destruct (recent_settled p2 d f t starts Hinv2) as (p3 & r3 & E3 & Hnp & Hinv3 & Hh3). destruct r3 as [job|e'|]; [| |done].
      * rewrite (run_ok _ _ _ _ _ E3). exists p3, (Ok (inr job)). splits; [done..|by rewrite Hh3, Hh2, Hh1|]. by intros a [= <-].
      * rewrite (run_err _ _ _ _ _ E3). exists p3, (Err e'). splits; [done..|by rewrite Hh3, Hh2, Hh1|done].
Qed.

Lemma save_spooled_spec p d f t starts : pipeline_inv p -> settled_with p (save_spooled_replay_as_with_audio_tracks d f t starts) saved_whole.
Proof.
  intros Hi. unfold settled_with, save_spooled_replay_as_with_audio_tracks, when_buffering.
  case_bool_decide as Hph; [|exists p, (Err PipeInvalidLifecycle); by splits].
  destruct (inv_running p Hi Hph) as [Hr Hl]. destruct (drained p Hr Hl) as (q & r & E & Hh & Hres). destruct r as [[]|e|]; [| |done].
  - rewrite (run_ok _ _ _ _ _ E). destruct Hres as (Hrq & Hlq & _).
    destruct (spool_or_recent_spec q d f t starts Hrq Hlq) as (p' & r & E' & H1 & H2 & H3 & H4). exists p', r. splits; [done..|by rewrite H3|done].
  - rewrite (run_err _ _ _ _ _ E). exists q, (Err e). by splits.
Qed.

(** ** Reset and shutdown *)
Lemma fail_reset_spec (q : pipeline) e (r : outcome ReplayPipelineError unit) :
  flow_inv (flow q) -> held_ok q ->
  (match shutdown_error q with Some _ => is_Some (backend q) | None => backend q = None /\ in_flight_inputs q = [] end) ->
  pipeline_inv (fail_reset e q).1 /\ held (fail_reset e q).1 = held q.
Proof.
  intros Hf Hh He. split; [|done]. split; [by apply flow_fail_inv|done|]. cbn. split; [apply flow_fail_not_running|done].
Qed.

Lemma reset_spool_frame p :
  flow (reset_spool p) = flow p /\ backend (reset_spool p) = backend p /\ shutdown_error (reset_spool p) = shutdown_error p
  /\ held (reset_spool p) = held p /\ settings (reset_spool p) = settings p /\ pipeline_phase (reset_spool p) = pipeline_phase p
  /\ completed_inputs (reset_spool p) = completed_inputs p.
Proof.
  unfold reset_spool. destruct (spool p) as [s|]; [|done]. destruct (spool_degraded p); [done|].
  by destruct (spool_reset_epoch s) as [s' [u|e|]].
Qed.
(** After the reset the spool is at the start of an epoch, or given up. *)
Lemma reset_spool_log (p q : pipeline) :
  packets (flow_ring (flow q)) = [] -> encoded_packets_total q = 0 -> spool_pending_from_ns q = None ->
  spool q = spool (reset_spool p) -> spool_degraded q = spool_degraded (reset_spool p) -> log_inv q.
Proof.
  intros Hring Ht Hp Hs Hd. unfold log_inv. rewrite Hs. unfold reset_spool in *.
  destruct (spool p) as [s|] eqn:Es; [|cbn; by rewrite Es].
  destruct (spool_degraded p) eqn:Ed; cbn in *; [rewrite Es; left; by rewrite Hd|].
  destruct (spool_reset_epoch s) as [s' [u|e|]] eqn:Er; cbn in *; [|by left..].
  destruct (reset_hands _ _ _ Er) as [Hh _]. right. right. exists []. split; [split; [|done]|].
  - split; [by exists []; rewrite Hring|constructor..].
  - exists []. by rewrite Hh, epoch_reset.
Qed.

Lemma reset_settled p b : pipeline_inv p -> settled p (pipeline_reset b).
Proof.
  intros Hi. apply when_buffering_settled; [done|]. intros Hr Hl. unfold settled. rewrite !run_modify.
  set (p1 := set_flow (begin_reset (flow p)) (set_pipeline_phase PipeResetting p)).
  assert (Hb : begin_reset (flow p) = with_ring_phase (reset_epoch (flow_ring (flow p))) ResetRequired (flow p)).
  { unfold begin_reset. by rewrite bool_decide_true by apply Hr. }
  assert (Hf1 : flow_inv (flow p1)).
  { unfold p1. cbn. rewrite Hb. split; cbn; [apply reset_inv, Hr|constructor|done]. }
  destruct (reset_spool_frame p1) as (Ef & Eb & Ee & Eh & Eset & Eph & Ec). set (p2 := reset_spool p1) in *.
  assert (Hw2 : working p2).
  { split; [by rewrite Ef|unfold held_ok; rewrite Eh; apply Hr|rewrite Eb; apply Hr|rewrite Ee; apply Hr]. }
  destruct (shutdown_backend_spec p2 Hw2) as (p3 & r & E3 & Hh3 & Hf3 & Hs3 & _ & Hset3 & Hr3).
  assert (Hh : held p3 ≡ₚ held p) by by rewrite Hh3, Eh. unfold replace_backend. rewrite E3.
  assert (Hf3' : flow_inv (flow p3)) by by rewrite Hf3, Ef.
  assert (Hh3' : held_ok p3) by (eapply held_ok_perm; [exact Hh|apply Hr]).
  destruct r as [[]|e|]; [| |done].
  2: { destruct (fail_reset_spec p3 (EncoderError e) (Err (EncoderError e)) Hf3' Hh3') as [H1 H2].
       { destruct Hr3 as (Hb3 & -> & _). done. }
       eexists _, (Err (EncoderError e)). splits; [done|done|exact H1|by rewrite <- Hh, <- H2]. }
  destruct Hr3 as (Hb3 & He3 & Hi3 & Hc3).
  case_match eqn:Em.
  { destruct (fail_reset_spec p3 BackendStreamMismatch (Err BackendStreamMismatch) Hf3' Hh3') as [H1 H2]; [by rewrite He3|].
    eexists _, (Err _). splits; [done|done|exact H1|by rewrite <- Hh, <- H2]. }
  assert (Hreset : flow_phase (flow p3) = ResetRequired) by (rewrite Hf3, Ef; unfold p1; cbn; by rewrite Hb).
  unfold complete_reset. rewrite bool_decide_true by done. cbn [negb].
  eexists _, (Ok tt). splits; [done|done| |by rewrite <- Hh].
  apply running_inv; [|cbn; by rewrite Hi3].
  split; [|done|done|].
  - split; [|done|by eexists|done]. split; cbn; [apply Hf3'| |done].
    assert (He : packets (flow_ring (flow p3)) = []) by (apply (flow_idle _ Hf3'); by rewrite Hreset). by rewrite He.
  - assert (He : packets (flow_ring (flow p3)) = []) by (apply (flow_idle _ Hf3'); by rewrite Hreset).
    destruct Hs3 as (Hs3 & Hp3 & Hd3 & Ht3). apply (reset_spool_log p1); cbn; [by rewrite He|by rewrite Ht3|by rewrite Hp3|done|done].
Qed.

Lemma shutdown_settled p : pipeline_inv p -> settled p pipeline_shutdown.
Proof.
  intros Hi. unfold settled, pipeline_shutdown. case_bool_decide as Hph.
  { eexists p, _. splits; [done|by destruct (shutdown_error p)|done|done]. }
  assert (Hs : exists p' r, shutdown_backend p = (p', r) /\ r <> Panic /\ held p' ≡ₚ held p /\ flow p' = flow p
    /\ match shutdown_error p' with Some _ => is_Some (backend p') | None => backend p' = None /\ in_flight_inputs p' = [] end).
  { destruct (pipeline_phase p) eqn:E; try done.
    - destruct (inv_running p Hi E) as [Hr _]. destruct (shutdown_backend_spec p (rn_working _ Hr)) as (p' & r & Es & Hh & Hf & _ & _ & _ & Hres).
      exists p', r. splits; [done|by destruct r|done|done|]. destruct r; [| |done]; destruct Hres as (H1 & H2 & H3); rewrite H2; [by destruct H3|done].
    - pose proof (pi_phase _ Hi) as Hbad. by rewrite E in Hbad.
    - pose proof (pi_phase _ Hi) as Hbad. by rewrite E in Hbad.
    - destruct Hi as [_ _ Hi]. rewrite E in Hi. destruct Hi as [_ Hi]. unfold shutdown_backend. destruct (shutdown_error p) as [e|] eqn:Ee.
      + exists p, (Err e). rewrite Ee. by splits.
      + destruct Hi as [Hb Hin]. rewrite Hb. exists (release_inputs p), (Ok tt). unfold release_inputs. rewrite Hin. cbn.
        rewrite Ee. splits; [done|done| |done..]. unfold held. cbn. by rewrite Hin. }
  destruct Hs as (p' & r & Es & Hnp & Hh & Hf & Hb). rewrite Es.
  eexists _, _. splits; [done|by destruct r| |exact Hh].
  assert (Hh' : held_ok p') by (eapply held_ok_perm; [exact Hh|apply Hi]).
  split; [|exact Hh'|by split]. split; cbn; [apply reset_inv; rewrite Hf; apply Hi|constructor|done].
Qed.

Lemma inv_read p s s' :
  spool p = Some s -> handed s' = handed s -> (stopped s -> stopped s') -> pipeline_inv p -> pipeline_inv (set_spool (Some s') p).
Proof.
  intros Hs Hh Hst [Hf Hheld Hph]. split; [done..|]. cbn. destruct (pipeline_phase p); try done.
  destruct Hph as (H1 & H2 & H3 & H4 & H5). splits; try done. by eapply log_inv_read.
Qed.
Lemma stats_settled p : pipeline_inv p -> settled p pipeline_spool_stats.
Proof.
  intros Hi. unfold settled, pipeline_spool_stats.
  destruct (spool p) as [s|] eqn:Es.
  2: { eexists p, _. unfold mbind, st_bind, with_the_spool. rewrite Es. by splits. }
  destruct (stats s) as [s1 x] eqn:Ex. destruct (stats_hands _ _ _ Ex) as [Hh Hst]. pose proof (inv_read _ _ _ Es Hh Hst Hi) as Hi1.
  set (p1 := set_spool (Some s1) p) in *.
  assert (E1 : with_the_spool (E := ReplayPipelineError) stats p = (p1, Ok (Some x))) by (unfold with_the_spool; by rewrite Es, Ex).
  rewrite (run_ok _ _ _ _ _ E1), run_gets. destruct (spool_degraded p1) eqn:Ed.
  - eexists p1, (Ok _). by splits.
  - destruct (read_phase (E := ReplayPipelineError) p1 s1 eq_refl) as (s2 & ph & E2 & Hh2 & Hst2).
    eexists (set_spool (Some s2) p1), (Ok _).
    rewrite (run_ok _ _ _ _ _ (eq_trans (run_ok _ _ _ _ _ E2) eq_refl)). splits; [done..|by eapply inv_read|done].
Qed.

(** * Runs *)
(** The calls of the pipeline's owner, each followed by taking the completed
    inputs, as the runtime does. *)
Inductive pipeline_op :=
| OpFrame (n : Z) (fr : DmaBufReplayFrame)
| OpAudio (x : EncodedOpusPacket)
| OpSaveSpooled (d : ReplayDuration) (f : ReplayOutputFormat) (t : Z -> Z -> ReplayAudioTracks) (starts : bool)
| OpSaveRecent (d : ReplayDuration) (f : ReplayOutputFormat) (t : Z -> Z -> ReplayAudioTracks) (starts : bool)
| OpSaveReplay (save : ReplayVideoStream -> ReplayRing -> ReplayAudioSnapshot -> ReplayOutputFormat -> unit + string)
| OpReset (b : B)
| OpShutdown
| OpStats.
(** [None] is a panic. *)
Definition finished {A} (x : pipeline * outcome ReplayPipelineError A) : option pipeline :=
  match x with (_, Panic) => None | (p, _) => Some p end.
Definition apply_pipeline (op : pipeline_op) (p : pipeline) : option pipeline :=
  match op with
  | OpFrame n fr => finished (submit_frame n fr p)
  | OpAudio x => finished (submit_audio x p)
  | OpSaveSpooled d f t starts => finished (save_spooled_replay_as_with_audio_tracks d f t starts p)
  | OpSaveRecent d f t starts => finished (save_recent_replay_as_with_audio_tracks d f t starts p)
  | OpSaveReplay save => finished (save_replay save p)
  | OpReset b => finished (pipeline_reset b p)
  | OpShutdown => finished (pipeline_shutdown p)
  | OpStats => finished (pipeline_spool_stats p)
  end.
Definition accepted_by (op : pipeline_op) (p : pipeline) : list Z :=
  match op with OpFrame n _ => if accepts p n then [n] else [] | _ => [] end.
(** The final state, the inputs taken and the inputs accepted. *)
Fixpoint pipeline_run (ops : list pipeline_op) (p : pipeline) : option (pipeline * list Z * list Z) :=
  match ops with
  | [] => Some (p, [], [])
  | op :: ops =>
      q ← apply_pipeline op p;
      let '(q, taken) := take_completed_inputs q in
      '(q, more, accepted) ← pipeline_run ops q;
      Some (q, taken ++ more, accepted_by op p ++ accepted)
  end.

Lemma settled_finished {A} p (m : st pipeline ReplayPipelineError A) :
  settled p m -> exists q, finished (m p) = Some q /\ pipeline_inv q /\ held q ≡ₚ held p.
Proof. intros (q & r & E & Hnp & Hi & Hh). exists q. unfold finished. rewrite E. by destruct r. Qed.
Lemma apply_pipeline_spec op p :
  pipeline_inv p -> completed_inputs p = [] ->
  exists q, apply_pipeline op p = Some q /\ pipeline_inv q /\ held q ≡ₚ held p ++ accepted_by op p.
Proof.
  intros Hi Hc. destruct op as [n fr|x|d f t|d f t|save|b| |]; cbn [apply_pipeline accepted_by]; rewrite ?app_nil_r.
  - destruct (submit_frame_spec p n fr Hi Hc) as (q & r & E & Hq & Hh & Hr). rewrite E. exists q. destruct r as [[]|e|]; [done..|].
    exfalso. unfold frame_result in Hr. repeat case_match; try (by destruct Hr as [_ Hr]); try (by destruct Hr as [Hr _]).
    all: destruct Hr as (b & _ & Hr); by destruct (encode _ _ _ b).
  - by apply settled_finished, submit_audio_settled.
  - by eapply settled_finished, settled_with_settled, save_spooled_spec.
  - by apply settled_finished, recent_settled.
  - by apply settled_finished, save_replay_settled.
  - by apply settled_finished, reset_settled.
  - by apply settled_finished, shutdown_settled.
  - by apply settled_finished, stats_settled.
Qed.

Lemma inv_taken p : pipeline_inv p -> pipeline_inv (set_completed_inputs [] p).
Proof.
  intros [Hf [Hl Hn] Hp]. split; [done| |done]. unfold held_ok, held in *. cbn. rewrite zlen_app in Hl.
  pose proof (zlen_nonneg (completed_inputs p)). split; [lia|]. by apply NoDup_app in Hn as (_ & _ & ?).
Qed.
Lemma pipeline_run_spec ops p :
  pipeline_inv p -> completed_inputs p = [] ->
  exists q taken accepted, pipeline_run ops p = Some (q, taken, accepted) /\ pipeline_inv q /\ completed_inputs q = []
    /\ in_flight_inputs p ++ accepted ≡ₚ taken ++ in_flight_inputs q.
Proof.
  revert p. induction ops as [|op ops IH]; intros p Hi Hc; cbn [pipeline_run].
  { exists p, [], []. by rewrite app_nil_r. }
  destruct (apply_pipeline_spec op p Hi Hc) as (q & E & Hq & Hh). rewrite E. cbn [mbind option_bind take_completed_inputs].
  destruct (IH _ (inv_taken q Hq) eq_refl) as (q' & taken & accepted & E' & Hq' & Hc' & Hperm). rewrite E'. cbn.
  exists q', (completed_inputs q ++ taken), (accepted_by op p ++ accepted). splits; [done..|].
  unfold held in Hh. rewrite Hc in Hh. cbn [app] in Hh. rewrite (assoc_L app), <- Hh, <- !(assoc_L app). by rewrite <- Hperm.
Qed.

Lemma pipeline_start c b p s :
  pipeline_new c b = Ok p -> epoch (handed s) = [] -> pipeline_inv (with_spool s p) /\ completed_inputs (with_spool s p) = [].
Proof.
  unfold pipeline_new. intros H Hs. case_match; [done|]. injection H as <-. split; [|done].
  apply running_inv; [|done]. split; [|done..|].
  - split; [split; cbn; [apply ring_new_inv|constructor|done]|split; [done|constructor]|by eexists|done].
  - right. right. exists []. split; [split; [split; [by exists []|constructor..]|done]|]. exists []. by rewrite Hs.
Qed.
End Operations.
