(* ===== verification/PipelineRuns.v ===== *)
(** Theorems on runs of the pipeline, and their composition with the spool's
    worker. *)
From stdpp Require Import gmap strings sorting.
From S2P Require Import Prelude Bytes Profiles Preferences Replay ReplayRing ReplayAudio PacketSource Spool SpoolWorker SpoolFacts SpoolTheorems Encoder Pipeline PipelineFacts PipelineTheorems.
Local Open Scope Z_scope.

Section Runs.
Context {B S J : Type} `{!HardwareEncoderBackend B} `{!SegmentSpool S J}.
Context `{!HardwareEncoderBackendSpec B} `{!SegmentSpoolSpec S J}.
Notation pipeline := (ReplayHardwarePipeline B S).

(** What [log_inv] says of a pipeline whose disk history is intact. *)
Lemma log_inv_intact (p : pipeline) s :
  pipeline_inv p -> pipeline_phase p = PipeBuffering -> spool p = Some s -> spool_degraded p = false -> ~ stopped s ->
  exists waiting, complete p s (epoch (handed s) ++ waiting) /\ spool_pending_from_ns p = timestamp_ns <$> head waiting.
Proof.
  intros Hi Hph Hs Hd Hst. destruct (inv_running p Hi Hph) as [[_ _ _ Hl] _]. unfold log_inv in Hl. rewrite Hs in Hl.
  destruct Hl as [Hl|[Hl|(all & Hc & w & -> & Hw)]]; [by rewrite Hd in Hl|done|]. by exists w.
Qed.

(** What the worker of the spool receives of one epoch is in order. *)
Lemma epoch_in_order (p : pipeline) s waiting commands :
  complete p s (epoch (handed s) ++ waiting) -> packets_of commands `prefix_of` epoch (handed s) ->
  in_order {| sealed := []; open_group := [] |} commands.
Proof.
  intros [[_ Hsort Hok _] _] [k Hk]. rewrite Hk, <- (assoc_L app) in Hsort, Hok. apply Forall_app in Hok as [Hok _].
  split; [|split].
  - eapply Forall_impl; [exact Hok|]. by intros q [? _].
  - by eapply StronglySorted_app_1_l.
  - intros q r Hq. by apply elem_of_nil in Hq.
Qed.

(** C7: every input of the encoder is given back once.  Whatever frames, audio,
    saves, resets and shutdowns come, however the encoder, the spool and the
    store fail, no call panics, and the inputs accepted so far are those handed
    back plus those still with the encoder (at most four while it records); a
    pipeline that failed or was shut down holds none, unless the encoder could
    not attest its shutdown. *)
Theorem inputs_returned_once c (b : B) (p0 : pipeline) s ops
    (Hnew : pipeline_new c b = Ok p0) (Hs : epoch (handed s) = []) :
  exists p taken accepted, pipeline_run ops (with_spool s p0) = Some (p, taken, accepted)
    /\ accepted ≡ₚ taken ++ in_flight_inputs p /\ NoDup (in_flight_inputs p)
    /\ match pipeline_phase p with
       | PipeBuffering => zlen (in_flight_inputs p) <= MAX_TRACKED_INPUTS
       | PipeFailed | PipeShutdown => shutdown_error p = None -> in_flight_inputs p = []
       | PipeSaving | PipeResetting => False
       end.
Proof.
  destruct (pipeline_start c b p0 s Hnew Hs) as [Hi Hc].
  destruct (pipeline_run_spec ops _ Hi Hc) as (p & taken & accepted & E & Hp & Hcp & Hperm).
  exists p, taken, accepted. split; [done|]. split.
  { assert (E0 : in_flight_inputs (with_spool s p0) = []) by (unfold pipeline_new in Hnew; case_match; [done|by injection Hnew as <-]).
    by rewrite E0 in Hperm. }
  destruct Hp as [_ [_ Hn] Hph]. unfold held in Hn. rewrite Hcp in Hn. split; [done|].
  destruct (pipeline_phase p); try done; [by destruct Hph as (_ & _ & _ & _ & ?)|..]; destruct Hph as [_ Hph]; intros He; rewrite He in Hph; by destruct Hph.
Qed.

(** C6: the disk spool gets every packet.  While the pipeline records and has not
    given up its disk history, the packets the spool accepted in this epoch,
    followed by those it had no room for, are in time order all the packets that
    were stored since the epoch began (as many as were counted, ending with what
    the ring holds, every one valid for the stream); nothing is left out or sent
    twice, however often the queue was full.  A save from the disk is answered
    only when nothing is left waiting. *)
Theorem spool_gets_every_packet c (b : B) (p0 : pipeline) s0 ops p taken accepted s
    (Hnew : pipeline_new c b = Ok p0) (Hs0 : epoch (handed s0) = [])
    (Hrun : pipeline_run ops (with_spool s0 p0) = Some (p, taken, accepted))
    (Hph : pipeline_phase p = PipeBuffering) (Hs : spool p = Some s) (Hd : spool_degraded p = false) (Hst : ~ stopped s) :
  (exists waiting, let all := epoch (handed s) ++ waiting in
     suffix (packets (flow_ring (flow p))) all /\ StronglySorted earlier all
     /\ Forall (fun q => packet_ok q /\ packet_valid (flow_stream (flow p)) q) all
     /\ encoded_packets_total p = Z.min U64_MAX (zlen all)
     /\ spool_pending_from_ns p = timestamp_ns <$> head waiting)
  /\ forall d f t starts q job, save_spooled_replay_as_with_audio_tracks d f t starts p = (q, Ok (inl job)) ->
       exists s', spool q = Some s' /\ spool_degraded q = false
       /\ suffix (packets (flow_ring (flow q))) (epoch (handed s'))
       /\ encoded_packets_total q = Z.min U64_MAX (zlen (epoch (handed s'))).
Proof.
  destruct (pipeline_start c b p0 s0 Hnew Hs0) as [Hi0 Hc0].
  destruct (pipeline_run_spec ops _ Hi0 Hc0) as (p1 & t1 & a1 & E & Hi & Hcp & _). rewrite Hrun in E. injection E as <- <- <-. split.
  - destruct (log_inv_intact p s Hi Hph Hs Hd Hst) as (waiting & [[H1 H2 H3 _] H4] & H5). by exists waiting.
  - intros d f t starts q job Hsave. destruct (save_spooled_spec p d f t starts Hi) as (q' & r & E & _ & _ & _ & Hr).
    rewrite Hsave in E. injection E as <- <-. destruct (Hr _ eq_refl) as (_ & s' & Hs' & Hd' & [[H1 _ _ _] H2]). by exists s'.
Qed.

(** The disk holds the pipeline's history.  The worker of the spool, handed
    what the pipeline submitted in an epoch (with saves in between), starts from
    an empty history and refines it: its directory and its answers are those of
    the history of exactly these packets. *)
Theorem disk_history_of_pipeline c (b : B) (p0 : pipeline) s0 ops p taken accepted s limits w seqs commands w' rest rs
    (Hnew : pipeline_new c b = Ok p0) (Hs0 : epoch (handed s0) = [])
    (Hrun : pipeline_run ops (with_spool s0 p0) = Some (p, taken, accepted))
    (Hph : pipeline_phase p = PipeBuffering) (Hs : spool p = Some s) (Hd : spool_degraded p = false) (Hst : ~ stopped s)
    (Hcommands : packets_of commands `prefix_of` epoch (handed s))
    (Hlimits : limits_ok limits) (Hinv : spool_inv limits (SpoolWorker.spool w) seqs {| sealed := []; open_group := [] |})
    (Hrunning : shared_phase (shared w) = SpoolRunning) (Hroom : next_sequence (SpoolWorker.spool w) + zlen commands <= U64_MAX)
    (Hloop : worker_loop limits commands w = (w', rest, rs)) :
  let start := {| sealed := []; open_group := [] |} in
  exists handled, commands = handled ++ rest /\ answered limits start handled rs
    /\ (shared_phase (shared w') = SpoolFailed
        \/ shared_phase (shared w') = SpoolRunning
           /\ exists seqs', spool_inv limits (SpoolWorker.spool w') seqs' (history_run limits handled start)).
Proof.
  intros start. destruct (pipeline_start c b p0 s0 Hnew Hs0) as [Hi0 Hc0].
  destruct (pipeline_run_spec ops _ Hi0 Hc0) as (p1 & t1 & a1 & E & Hi & _). rewrite Hrun in E. injection E as <- <- <-.
  destruct (log_inv_intact p s Hi Hph Hs Hd Hst) as (waiting & Hc & _).
  pose proof (epoch_in_order p s waiting commands Hc Hcommands) as Horder.
  destruct (worker_loop_spec limits w seqs start commands w' rest rs Hlimits Hinv Hrunning Horder Hroom Hloop) as (handled & H1 & H2 & H3).
  exists handled. split; [done|]. split; [done|]. destruct H3 as [H3|(H3 & _ & H4)]; [by left|by right].
Qed.

(** C16: one frame.  [submit_frame] refuses a frame when the pipeline does not
    record; closes it, with all that follows, for a sequence number that is zero
    or still with the encoder, for a changed size and for a timestamp that is not
    later; otherwise encodes it, asking for a keyframe exactly when none was
    requested in the last two seconds, and hands back the inputs the encoder
    completed, and only those while the encoder is not released. *)
Theorem submit_frame_correct (p : pipeline) n fr (Hi : pipeline_inv p) (Hc : completed_inputs p = []) :
  exists p' r, submit_frame n fr p = (p', r) /\ pipeline_inv p'
    /\ held p' ≡ₚ held p ++ (if accepts p n then [n] else []) /\ frame_result p p' n fr r.
Proof. by apply submit_frame_spec. Qed.
End Runs.

(** * A small encoder and a spool whose queue is full every other time *)
Record DemoEncoder := { demo_video : ReplayVideoStream }.
Definition demo_encode (n : Z) (fr : DmaBufReplayFrame) (force : bool) : HardwareEncodeOutput + ReplayEncoderError :=
  if (0 <=? frame_timestamp_ns fr) && (0 <=? frame_duration_ns fr) then
    match packet_new (frame_timestamp_ns fr) (frame_duration_ns fr) force [7; 7; 7] with
    | Ok p => inl {| batch := {| batch_packets := [p] |}; Encoder.completed_inputs := [n] |}
    | _ => inr InvalidStream
    end
  else inr InvalidStream.
#[global] Instance demo_encoder : HardwareEncoderBackend DemoEncoder := {|
  backend_stream := demo_video;
  encode n fr force b := (b, demo_encode n fr force);
  drain b := (b, inl {| batch := {| batch_packets := [] |}; Encoder.completed_inputs := [] |});
  backend_shutdown b := (b, None) |}.
#[global] Instance demo_encoder_spec : HardwareEncoderBackendSpec DemoEncoder.
Proof.
  split.
  - intros n fr k b b' o [= _ H]. unfold demo_encode in H. destruct (_ && _) eqn:E; [|done]. apply andb_true_iff in E as [E1%Z.leb_le E2%Z.leb_le].
    destruct (packet_new _ _ _ _) as [p| |] eqn:Ep; [|done..]. injection H as <-. apply packet_new_Ok in Ep as [Hp _]; [|done..]. unfold output_ok. cbn. by constructor.
  - intros b b' o [= _ <-]. constructor.
Qed.
Record DemoSpool := { demo_events : list SpoolEvent; demo_full : bool }.
#[global] Instance demo_spool : SegmentSpool DemoSpool unit := {|
  try_submit p s := if demo_full s then ({| demo_events := demo_events s; demo_full := false |}, QueueFull)
                    else ({| demo_events := demo_events s ++ [Handed p]; demo_full := true |}, Accepted);
  spool_phase s := (s, SpoolRunning);
  stats s := (s, spool_stats 0 (shared_new index_default));
  spool_reset_epoch s := ({| demo_events := demo_events s ++ [PipelineFacts.EpochReset]; demo_full := demo_full s |}, Ok tt);
  save_async_tracks_with_audio _ _ _ _ _ s := (s, inl tt);
  spool_shutdown s := s |}.
#[global] Instance demo_spool_spec : SegmentSpoolSpec DemoSpool unit.
Proof.
  refine (Build_SegmentSpoolSpec _ _ _ demo_events (fun _ => False) _ _ _ _ _ _).
  - intros p s s' r. cbn. destruct (demo_full s); by intros [= <- <-].
  - intros p s s' r. cbn. destruct (demo_full s); by intros [= <- <-].
  - by intros s s' x [= <- <-].
  - by intros s s' x [= <- <-].
  - intros s s' r [= <- <-]. split; [done|by intros ?].
  - by intros d c v f t s s' r [= <- <-].
Defined.

Definition demo_frame (second : Z) : DmaBufReplayFrame := {|
  frame_gpu := None; objects := [3]; frame_width := 1920; frame_height := 1080; drm_fourcc := DRM_FORMAT_R8G8B8A8;
  frame_modifier := 0; frame_timestamp_ns := second * 1000000000; frame_duration_ns := 16666667; image_planes := [] |}.
Definition demo_session_settings : ReplaySettings := ReplaySettings_default.
Definition demo_ops : list (pipeline_op (B := DemoEncoder)) :=
  [OpFrame 1 (demo_frame 1); OpFrame 2 (demo_frame 2); OpFrame 3 (demo_frame 3); OpStats].
Definition demo_hardware : DemoEncoder := {| demo_video := demo_stream |}.
Definition demo_queue : DemoSpool := {| demo_events := []; demo_full := false |}.
Definition demo_pipeline : ReplayHardwarePipeline DemoEncoder DemoSpool := {|
  settings := demo_session_settings; backend := Some demo_hardware; shutdown_error := None;
  flow := flow_new (in_memory_settings demo_session_settings) demo_stream; spool := None; spool_pending_from_ns := None;
  spool_degraded := false; encoded_packets_total := 0; pipeline_phase := PipeBuffering; last_frame_timestamp_ns := None;
  last_keyframe_request_timestamp_ns := None; in_flight_inputs := []; completed_inputs := [];
  audio := audio_new Seconds900 OpusStreamDescription_default |}.
Lemma demo_opens : pipeline_new demo_session_settings demo_hardware = Ok demo_pipeline.
Proof. reflexivity. Qed.

Lemma demo_queue_empty : epoch (handed demo_queue) = [].
Proof. reflexivity. Qed.
Definition demo_run := pipeline_run demo_ops (with_spool demo_queue demo_pipeline).
Definition demo_final : ReplayHardwarePipeline DemoEncoder DemoSpool :=
  match demo_run with Some (p, _, _) => p | None => demo_pipeline end.
Definition demo_final_queue : DemoSpool := default demo_queue (spool demo_final).
Lemma demo_runs : pipeline_run demo_ops (with_spool demo_queue demo_pipeline) = Some (demo_final, [1; 2; 3], [1; 2; 3]).
Proof. vm_compute. reflexivity. Qed.
Lemma demo_final_state : pipeline_phase demo_final = PipeBuffering /\ spool demo_final = Some demo_final_queue /\ spool_degraded demo_final = false.
Proof. vm_compute. by splits. Qed.

Lemma inputs_returned_once_witness :
  exists p taken accepted, pipeline_run demo_ops (with_spool demo_queue demo_pipeline) = Some (p, taken, accepted)
    /\ accepted ≡ₚ taken ++ in_flight_inputs p.
Proof.
  destruct (inputs_returned_once demo_session_settings demo_hardware demo_pipeline demo_queue demo_ops demo_opens demo_queue_empty)
    as (p & taken & accepted & H1 & H2 & _).
  exists p, taken, accepted. split; [exact H1|exact H2].
Defined.

Lemma spool_gets_every_packet_witness :
  exists waiting, encoded_packets_total demo_final = Z.min U64_MAX (zlen (epoch (handed demo_final_queue) ++ waiting))
    /\ spool_pending_from_ns demo_final = timestamp_ns <$> head waiting.
Proof.
  destruct demo_final_state as (H1 & H2 & H3).
  destruct (spool_gets_every_packet demo_session_settings demo_hardware demo_pipeline demo_queue demo_ops demo_final _ _ demo_final_queue
    demo_opens demo_queue_empty demo_runs H1 H2 H3 (fun H => H)) as [(waiting & _ & _ & _ & H4 & H5) _].
  exists waiting. split; [exact H4|exact H5].
Defined.

(** The worker receives what was handed over, and then a save. *)
Definition demo_received : list SpoolCommand :=
  map (fun p => PacketCommand p false) (epoch (handed demo_final_queue)) ++ [PrepareSnapshot Seconds15 false].
Lemma demo_received_packets : packets_of demo_received = epoch (handed demo_final_queue).
Proof. vm_compute. reflexivity. Qed.
Lemma disk_history_of_pipeline_witness :
  exists handled, let r := worker_loop demo_limits demo_received demo_worker in
    demo_received = handled ++ r.1.2 /\ answered demo_limits {| sealed := []; open_group := [] |} handled r.2.
Proof.
  destruct demo_final_state as (H1 & H2 & H3).
  assert (H4 : packets_of demo_received `prefix_of` epoch (handed demo_final_queue)) by (rewrite demo_received_packets; reflexivity).
  assert (H5 : next_sequence (SpoolWorker.spool demo_worker) + zlen demo_received <= U64_MAX) by (vm_compute; discriminate).
  destruct (worker_loop demo_limits demo_received demo_worker) as [[w' rest] rs] eqn:E.
  destruct (disk_history_of_pipeline demo_session_settings demo_hardware demo_pipeline demo_queue demo_ops demo_final _ _ demo_final_queue
    demo_limits demo_worker [] demo_received w' rest rs demo_opens demo_queue_empty demo_runs H1 H2 H3 (fun H => H) H4
    (limits_new_ok _ _ _) demo_inv eq_refl H5 E) as (handled & H6 & H7 & _).
  exists handled. split; [exact H6|exact H7].
Defined.

Lemma submit_frame_correct_witness :
  exists p' r, submit_frame 7 (demo_frame 5) demo_final = (p', r) /\ held p' ≡ₚ held demo_final ++ [7].
Proof.
  destruct (pipeline_start demo_session_settings demo_hardware demo_pipeline demo_queue demo_opens demo_queue_empty) as [Hi Hc].
  destruct (pipeline_run_spec demo_ops _ Hi Hc) as (p & taken & accepted & E & Hp & Hcp & _).
  rewrite demo_runs in E.
  pose proof (f_equal (fun x => match x with Some (p, _, _) => p | None => demo_final end) E) as Ep. change (demo_final = p) in Ep. subst p.
  destruct (submit_frame_correct demo_final 7 (demo_frame 5) Hp Hcp) as (p' & r & E' & _ & Hh & _).
  exists p', r. split; [exact E'|exact Hh].
Defined.
