(* ===== verification/Runtime.v ===== *)
(** The owner of the replay recorder (crates/redunar-daemon/src/replay_runtime.rs):
    one state under a lock, the audio timelines under another, a save at a time
    in a thread of its own, and a shutdown that waits for it. *)
From stdpp Require Import strings.
From S2P Require Import Prelude Bytes Profiles Preferences Replay ReplayRing ReplayAudio PacketSource Spool SpoolWorker Encoder Pipeline.
Local Open Scope Z_scope.

Definition MAX_COMPLETED_EXPORTS : Z := 8.
Definition MAX_COMMITTED_CLIP_NAMES : Z := 32.
(** Times are nanoseconds of the monotonic clock. *)
Definition RECORDER_STALL_TIMEOUT : Z := 5 * 1000000000.
Definition AUDIO_STALL_TIMEOUT : Z := 3 * 1000000000.
Definition MICROPHONE_LEVELS_AGE : Z := 500 * 1000000.

(** The two [f32] as their bits. *)
Record MicrophoneLevels := { peak : Z; rms : Z; limiting : bool }.
Definition MicrophoneLevels_default : MicrophoneLevels := {| peak := 0; rms := 0; limiting := false |}.

Record ProductionAudioState := {
  recording : bool;
  buffer : ReplayAudioBuffer;
  last_progress : option Z;
  microphone_buffer : ReplayAudioBuffer;
  microphone_recording : bool;
  microphone_started : option Z;
  microphone_progress : option Z;
  levels : MicrophoneLevels;
}.

(** A message, or the text of a pipeline error. *)
Inductive ReplayRuntimeError := RuntimeMessage (message : string) | RuntimePipeline (e : ReplayPipelineError).

(** How a job ended: the clip is durable, under this file name when it is UTF-8. *)
Inductive job_result := Committed (name : option string) | NotCommitted.
(** The thread of a save: it waits for the job, may prepare another one from
    memory, and reports. *)
Inductive SaveThread (J : Type) :=
| Joining (d : ReplayDuration) (token : nat) (job : J + RamJob)
| Retrying (d : ReplayDuration)
| JoiningFallback (token : nat) (job : RamJob)
| Reporting (r : job_result)
| Finished.
Arguments Joining {J} _ _ _.
Arguments Retrying {J} _.
Arguments JoiningFallback {J} _ _.
Arguments Reporting {J} _.
Arguments Finished {J}.

(** * State *)
(** [RuntimeState], the audio state, and the threads: [save_worker] is an index
    in [threads], cancellation flags are numbered by the job and [cancelled]
    are those that are set, [joining] are the calls of [shutdown] that wait
    between their two critical sections. *)
Record Runtime (B S J : Type) := {
  status : ReplayRuntimeStatus;
  rt_pipeline : option (ReplayHardwarePipeline B S);
  completed_exports : list Z;
  save_worker : option nat;
  save_cancel : option nat;
  stopping : bool;
  committed_clips : list string;
  frames_received : Z;
  observed_packet_count : Z;
  last_encoded_progress : option Z;
  output_format : ReplayOutputFormat;
  rt_audio : ProductionAudioState;
  threads : list (SaveThread J);
  cancelled : list nat;
  jobs : nat;
  joining : list (option nat);
}.
Arguments status {B S J} _.
Arguments rt_pipeline {B S J} _.
Arguments completed_exports {B S J} _.
Arguments save_worker {B S J} _.
Arguments save_cancel {B S J} _.
Arguments stopping {B S J} _.
Arguments committed_clips {B S J} _.
Arguments frames_received {B S J} _.
Arguments observed_packet_count {B S J} _.
Arguments last_encoded_progress {B S J} _.
Arguments output_format {B S J} _.
Arguments rt_audio {B S J} _.
Arguments threads {B S J} _.
Arguments cancelled {B S J} _.
Arguments jobs {B S J} _.
Arguments joining {B S J} _.
Definition set_status {B S J} (v : ReplayRuntimeStatus) (s : Runtime B S J) : Runtime B S J := {|
  status := v; rt_pipeline := rt_pipeline s; completed_exports := completed_exports s; save_worker := save_worker s; save_cancel :=
  save_cancel s; stopping := stopping s; committed_clips := committed_clips s; frames_received := frames_received s;
  observed_packet_count := observed_packet_count s; last_encoded_progress := last_encoded_progress s; output_format := output_format
  s; rt_audio := rt_audio s; threads := threads s; cancelled := cancelled s; jobs := jobs s; joining := joining s |}.
Definition set_rt_pipeline {B S J} (v : option (ReplayHardwarePipeline B S)) (s : Runtime B S J) : Runtime B S J := {|
  status := status s; rt_pipeline := v; completed_exports := completed_exports s; save_worker := save_worker s; save_cancel :=
  save_cancel s; stopping := stopping s; committed_clips := committed_clips s; frames_received := frames_received s;
  observed_packet_count := observed_packet_count s; last_encoded_progress := last_encoded_progress s; output_format := output_format
  s; rt_audio := rt_audio s; threads := threads s; cancelled := cancelled s; jobs := jobs s; joining := joining s |}.
Definition set_completed_exports {B S J} (v : list Z) (s : Runtime B S J) : Runtime B S J := {|
  status := status s; rt_pipeline := rt_pipeline s; completed_exports := v; save_worker := save_worker s; save_cancel := save_cancel
  s; stopping := stopping s; committed_clips := committed_clips s; frames_received := frames_received s; observed_packet_count :=
  observed_packet_count s; last_encoded_progress := last_encoded_progress s; output_format := output_format s; rt_audio := rt_audio
  s; threads := threads s; cancelled := cancelled s; jobs := jobs s; joining := joining s |}.
Definition set_save_worker {B S J} (v : option nat) (s : Runtime B S J) : Runtime B S J := {|
  status := status s; rt_pipeline := rt_pipeline s; completed_exports := completed_exports s; save_worker := v; save_cancel :=
  save_cancel s; stopping := stopping s; committed_clips := committed_clips s; frames_received := frames_received s;
  observed_packet_count := observed_packet_count s; last_encoded_progress := last_encoded_progress s; output_format := output_format
  s; rt_audio := rt_audio s; threads := threads s; cancelled := cancelled s; jobs := jobs s; joining := joining s |}.
Definition set_save_cancel {B S J} (v : option nat) (s : Runtime B S J) : Runtime B S J := {|
  status := status s; rt_pipeline := rt_pipeline s; completed_exports := completed_exports s; save_worker := save_worker s;
  save_cancel := v; stopping := stopping s; committed_clips := committed_clips s; frames_received := frames_received s;
  observed_packet_count := observed_packet_count s; last_encoded_progress := last_encoded_progress s; output_format := output_format
  s; rt_audio := rt_audio s; threads := threads s; cancelled := cancelled s; jobs := jobs s; joining := joining s |}.
Definition set_stopping {B S J} (v : bool) (s : Runtime B S J) : Runtime B S J := {|
  status := status s; rt_pipeline := rt_pipeline s; completed_exports := completed_exports s; save_worker := save_worker s;
  save_cancel := save_cancel s; stopping := v; committed_clips := committed_clips s; frames_received := frames_received s;
  observed_packet_count := observed_packet_count s; last_encoded_progress := last_encoded_progress s; output_format := output_format
  s; rt_audio := rt_audio s; threads := threads s; cancelled := cancelled s; jobs := jobs s; joining := joining s |}.
Definition set_committed_clips {B S J} (v : list string) (s : Runtime B S J) : Runtime B S J := {|
  status := status s; rt_pipeline := rt_pipeline s; completed_exports := completed_exports s; save_worker := save_worker s;
  save_cancel := save_cancel s; stopping := stopping s; committed_clips := v; frames_received := frames_received s;
  observed_packet_count := observed_packet_count s; last_encoded_progress := last_encoded_progress s; output_format := output_format
  s; rt_audio := rt_audio s; threads := threads s; cancelled := cancelled s; jobs := jobs s; joining := joining s |}.
Definition set_frames_received {B S J} (v : Z) (s : Runtime B S J) : Runtime B S J := {|
  status := status s; rt_pipeline := rt_pipeline s; completed_exports := completed_exports s; save_worker := save_worker s;
  save_cancel := save_cancel s; stopping := stopping s; committed_clips := committed_clips s; frames_received := v;
  observed_packet_count := observed_packet_count s; last_encoded_progress := last_encoded_progress s; output_format := output_format
  s; rt_audio := rt_audio s; threads := threads s; cancelled := cancelled s; jobs := jobs s; joining := joining s |}.
Definition set_observed_packet_count {B S J} (v : Z) (s : Runtime B S J) : Runtime B S J := {|
  status := status s; rt_pipeline := rt_pipeline s; completed_exports := completed_exports s; save_worker := save_worker s;
  save_cancel := save_cancel s; stopping := stopping s; committed_clips := committed_clips s; frames_received := frames_received s;
  observed_packet_count := v; last_encoded_progress := last_encoded_progress s; output_format := output_format s; rt_audio :=
  rt_audio s; threads := threads s; cancelled := cancelled s; jobs := jobs s; joining := joining s |}.
Definition set_last_encoded_progress {B S J} (v : option Z) (s : Runtime B S J) : Runtime B S J := {|
  status := status s; rt_pipeline := rt_pipeline s; completed_exports := completed_exports s; save_worker := save_worker s;
  save_cancel := save_cancel s; stopping := stopping s; committed_clips := committed_clips s; frames_received := frames_received s;
  observed_packet_count := observed_packet_count s; last_encoded_progress := v; output_format := output_format s; rt_audio :=
  rt_audio s; threads := threads s; cancelled := cancelled s; jobs := jobs s; joining := joining s |}.
Definition set_output_format {B S J} (v : ReplayOutputFormat) (s : Runtime B S J) : Runtime B S J := {|
  status := status s; rt_pipeline := rt_pipeline s; completed_exports := completed_exports s; save_worker := save_worker s;
  save_cancel := save_cancel s; stopping := stopping s; committed_clips := committed_clips s; frames_received := frames_received s;
  observed_packet_count := observed_packet_count s; last_encoded_progress := last_encoded_progress s; output_format := v; rt_audio
  := rt_audio s; threads := threads s; cancelled := cancelled s; jobs := jobs s; joining := joining s |}.
Definition set_rt_audio {B S J} (v : ProductionAudioState) (s : Runtime B S J) : Runtime B S J := {|
  status := status s; rt_pipeline := rt_pipeline s; completed_exports := completed_exports s; save_worker := save_worker s;
  save_cancel := save_cancel s; stopping := stopping s; committed_clips := committed_clips s; frames_received := frames_received s;
  observed_packet_count := observed_packet_count s; last_encoded_progress := last_encoded_progress s; output_format := output_format
  s; rt_audio := v; threads := threads s; cancelled := cancelled s; jobs := jobs s; joining := joining s |}.
Definition set_threads {B S J} (v : list (SaveThread J)) (s : Runtime B S J) : Runtime B S J := {|
  status := status s; rt_pipeline := rt_pipeline s; completed_exports := completed_exports s; save_worker := save_worker s;
  save_cancel := save_cancel s; stopping := stopping s; committed_clips := committed_clips s; frames_received := frames_received s;
  observed_packet_count := observed_packet_count s; last_encoded_progress := last_encoded_progress s; output_format := output_format
  s; rt_audio := rt_audio s; threads := v; cancelled := cancelled s; jobs := jobs s; joining := joining s |}.
Definition set_cancelled {B S J} (v : list nat) (s : Runtime B S J) : Runtime B S J := {|
  status := status s; rt_pipeline := rt_pipeline s; completed_exports := completed_exports s; save_worker := save_worker s;
  save_cancel := save_cancel s; stopping := stopping s; committed_clips := committed_clips s; frames_received := frames_received s;
  observed_packet_count := observed_packet_count s; last_encoded_progress := last_encoded_progress s; output_format := output_format
  s; rt_audio := rt_audio s; threads := threads s; cancelled := v; jobs := jobs s; joining := joining s |}.
Definition set_jobs {B S J} (v : nat) (s : Runtime B S J) : Runtime B S J := {|
  status := status s; rt_pipeline := rt_pipeline s; completed_exports := completed_exports s; save_worker := save_worker s;
  save_cancel := save_cancel s; stopping := stopping s; committed_clips := committed_clips s; frames_received := frames_received s;
  observed_packet_count := observed_packet_count s; last_encoded_progress := last_encoded_progress s; output_format := output_format
  s; rt_audio := rt_audio s; threads := threads s; cancelled := cancelled s; jobs := v; joining := joining s |}.
Definition set_joining {B S J} (v : list (option nat)) (s : Runtime B S J) : Runtime B S J := {|
  status := status s; rt_pipeline := rt_pipeline s; completed_exports := completed_exports s; save_worker := save_worker s;
  save_cancel := save_cancel s; stopping := stopping s; committed_clips := committed_clips s; frames_received := frames_received s;
  observed_packet_count := observed_packet_count s; last_encoded_progress := last_encoded_progress s; output_format := output_format
  s; rt_audio := rt_audio s; threads := threads s; cancelled := cancelled s; jobs := jobs s; joining := v |}.
Definition with_audio_state (rec : bool) (b : ReplayAudioBuffer) (lp : option Z) (mb : ReplayAudioBuffer) (mp : option Z)
    (a : ProductionAudioState) : ProductionAudioState := {|
  recording := rec; buffer := b; last_progress := lp; microphone_buffer := mb; microphone_recording := microphone_recording a;
  microphone_started := microphone_started a; microphone_progress := mp; levels := levels a |}.
(** Both timelines cleared; the rest as said. *)
Definition cleared (rec : bool) (lp mp : option Z) (a : ProductionAudioState) : ProductionAudioState :=
  with_audio_state rec (audio_clear (buffer a)) lp (audio_clear (microphone_buffer a)) mp a.
Definition set_microphone_recording (v : bool) (started : option Z) (a : ProductionAudioState) : ProductionAudioState := {|
  recording := recording a; buffer := buffer a; last_progress := last_progress a; microphone_buffer := microphone_buffer a;
  microphone_recording := v; microphone_started := started; microphone_progress := microphone_progress a; levels := levels a |}.
Definition set_levels (v : MicrophoneLevels) (a : ProductionAudioState) : ProductionAudioState := {|
  recording := recording a; buffer := buffer a; last_progress := last_progress a; microphone_buffer := microphone_buffer a;
  microphone_recording := microphone_recording a; microphone_started := microphone_started a;
  microphone_progress := microphone_progress a; levels := v |}.

(** * Pure parts *)
Definition validate_production_readiness (r : ReplayBackendReadiness) : outcome ReplayRuntimeError unit :=
  if negb (validation_allowed r)
  then Err (RuntimeMessage "Instant Replay has not passed live transfer, hardware encode, and playable output validation")
  else Ok tt.
Definition replay_failure (e : ReplayPipelineError) : ReplayFailure :=
  match e with StoreError _ | SpoolError _ => StorageFailed | _ => EncoderFailed end.
(** [Option<Duration>] compared with a limit: [is_some_and]. *)
Definition aged (f : Z -> bool) (age : option Z) : bool := match age with Some a => f a | None => false end.
Definition microphone_state (enabled : bool) (started progress : option Z) : string :=
  if negb enabled then "off"
  else if aged (fun e => e <=? AUDIO_STALL_TIMEOUT) progress then "active"
  else if match progress with None => true | Some _ => false end && aged (fun e => e <=? AUDIO_STALL_TIMEOUT) started then "waiting"
  else "unavailable".
Definition recorder_health (p : ReplayPhase) (encoded : Z) (age : option Z) : ReplayRecorderHealth :=
  match p with
  | Failed => HealthFailed
  | Buffering | Saving =>
      if encoded =? 0 then HealthStarting
      else if aged (fun a => RECORDER_STALL_TIMEOUT <? a) age then HealthStalled else HealthHealthy
  | Unavailable | Inactive => HealthInactive
  end.
Definition is_live (p : ReplayPhase) : bool := match p with Buffering | Saving => true | _ => false end.
Definition audio_is_active (p : ReplayPhase) (age : option Z) : bool := is_live p && aged (fun a => a <=? AUDIO_STALL_TIMEOUT) age.
Definition elapsed (now : Z) (t : option Z) : option Z := sat_sub now <$> t.

Section Runtime.
Context {B S J : Type} `{!HardwareEncoderBackend B} `{!SegmentSpool S J}.
Notation runtime := (Runtime B S J).
Notation rt A := (st runtime ReplayRuntimeError A).

Definition runtime_unavailable (s : ReplaySettings) : runtime := {|
  status := status_unavailable s; rt_pipeline := None; completed_exports := []; save_worker := None; save_cancel := None;
  stopping := false; committed_clips := []; frames_received := 0; observed_packet_count := 0; last_encoded_progress := None;
  output_format := Matroska;
  rt_audio := {|
    recording := false; buffer := audio_new Seconds900 OpusStreamDescription_default; last_progress := None;
    microphone_buffer := audio_new Seconds900 OpusStreamDescription_default; microphone_recording := false;
    microphone_started := None; microphone_progress := None; levels := MicrophoneLevels_default |};
  threads := []; cancelled := []; jobs := 0%nat; joining := [] |}.

Definition rt_gets {A} (f : runtime -> A) : rt A := fun s => (s, Ok (f s)).
Definition rt_modify (f : runtime -> runtime) : rt unit := fun s => (f s, Ok tt).
Definition rt_raise {A} (e : ReplayRuntimeError) : rt A := fun s => (s, Err e).
Definition rt_fail {A} (message : string) : rt A := rt_raise (RuntimeMessage message).
Definition not_recording {A} : rt A := rt_fail "Instant Replay is not recording".
(** A call on the pipeline: its result is a value, its panic is ours. *)
Definition on_pipeline {A} (m : st (ReplayHardwarePipeline B S) ReplayPipelineError A) : rt (option (A + ReplayPipelineError)) := fun s =>
  match rt_pipeline s with
  | None => (s, Ok None)
  | Some p =>
      match m p with
      | (p, Ok a) => (set_rt_pipeline (Some p) s, Ok (Some (inl a)))
      | (p, Err e) => (set_rt_pipeline (Some p) s, Ok (Some (inr e)))
      | (p, Panic) => (set_rt_pipeline (Some p) s, Panic)
      end
  end.
Definition set_failure (f : option ReplayFailure) (p : ReplayPhase) (s : runtime) : runtime :=
  set_status (with_phase p f (completed_save_revision (status s)) (status s)) s.

(** [enqueue_completed] of what [take_completed_inputs] takes; [false] when the
    queue has no room, and then the sequence numbers are dropped. *)
Definition enqueue_completed (completed : list Z) (s : runtime) : runtime * bool :=
  if MAX_COMPLETED_EXPORTS <? zlen (completed_exports s) + zlen completed then (s, false)
  else (set_completed_exports (completed_exports s ++ completed) s, true).
Definition collect_completed : rt bool := fun s =>
  match rt_pipeline s with
  | None => (s, Ok true)
  | Some p =>
      let '(p, completed) := take_completed_inputs p in
      let '(s, fits) := enqueue_completed completed (set_rt_pipeline (Some p) s) in
      (s, Ok fits)
  end.
Definition mark_failed (failure : ReplayFailure) : rt unit :=
  shut ← on_pipeline pipeline_shutdown;
  _ ← collect_completed;
  _ ← (if match shut with Some (inr _) => false | _ => true end then rt_modify (set_rt_pipeline None) else mret tt);
  _ ← rt_modify (fun s => set_rt_audio (cleared false (last_progress (rt_audio s)) (microphone_progress (rt_audio s)) (rt_audio s)) s);
  rt_modify (set_failure (Some failure) Failed).
Definition queue_exceeded {A} : rt A :=
  _ ← mark_failed EncoderFailed;
  rt_fail "Instant Replay completion queue exceeded its fixed bound".

(** * Reports *)
(** The status; [now] is the clock when it is read. *)
Definition runtime_status (now : Z) : rt ReplayRuntimeStatus :=
  reported ← on_pipeline pipeline_spool_stats;
  s ← rt_gets (fun s => s);
  let st := status s in
  let spool_stats := match reported with Some (inl x) => x | _ => None end in
  let encoded := match spool_stats with Some x => stats_accepted_packets x | None => 0 end in
  let a := rt_audio s in
  let '(packets, bytes, age) :=
    if is_live (phase st) then (audio_packet_count (buffer a), audio_byte_count (buffer a), elapsed now (last_progress a)) else (0, 0, None) in
  _ ← (if observed_packet_count s <? encoded
       then rt_modify (fun s => set_last_encoded_progress (Some now) (set_observed_packet_count encoded s)) else mret tt);
  progress ← rt_gets last_encoded_progress;
  mret {|
    Replay.phase := phase st; Replay.capability := capability st; Replay.backend_readiness := backend_readiness st; Replay.last_failure := last_failure st;
    Replay.completed_save_revision := completed_save_revision st;
    Replay.buffered_duration_ns := match spool_stats with Some x => stats_buffered_duration_ns x | None => 0 end;
    Replay.received_frame_count := frames_received s; Replay.encoded_packet_count := encoded; Replay.audio_packet_count := packets;
    Replay.audio_byte_count := bytes; Replay.audio_active := audio_is_active (phase st) age;
    Replay.recorder_health := recorder_health (phase st) encoded (elapsed now progress);
    Replay.settings := Replay.settings st; Replay.budget := budget st |}.
Definition diagnostic_counters : rt (Z * option ReplaySpoolStats) :=
  counts ← rt_gets (fun s => match rt_pipeline s with Some p => zlen (in_flight_inputs p) | None => 0 end);
  reported ← on_pipeline pipeline_spool_stats;
  mret (counts, match reported with Some (inl x) => x | _ => None end).
Definition teardown_incomplete (s : runtime) : bool :=
  match rt_pipeline s with Some p => bool_decide (is_Some (shutdown_error p)) | None => false end.
Definition microphone_levels (now : Z) (s : runtime) : option MicrophoneLevels :=
  let a := rt_audio s in
  if recording a && microphone_recording a && aged (fun e => e <? MICROPHONE_LEVELS_AGE) (elapsed now (microphone_progress a))
  then Some (levels a) else None.
Definition runtime_microphone_state (now : Z) (s : runtime) : string :=
  let a := rt_audio s in
  microphone_state (recording a && microphone_recording a) (elapsed now (microphone_started a)) (elapsed now (microphone_progress a)).

(** * Configuration and start *)
Definition configure (fresh : ReplaySettings -> ReplayRuntimeStatus) (c : ReplaySettings) (s : runtime) : runtime :=
  match rt_pipeline s with
  | Some _ => s
  | None =>
      let next := fresh c in
      set_status (with_phase (phase next) (last_failure next) (completed_save_revision (status s)) next) s
  end.
Definition configure_unavailable : ReplaySettings -> runtime -> runtime := configure status_unavailable.
Definition configure_validation_candidate : ReplaySettings -> runtime -> runtime := configure status_validation_candidate.

Definition thread_finished (s : runtime) (i : nat) : bool := match threads s !! i with Some Finished => true | _ => false end.
Definition reap_finished_save (s : runtime) : runtime :=
  match save_worker s with Some i => if thread_finished s i then set_save_worker None s else s | None => s end.
Definition start_validated_pipeline (c : ReplaySettings) (p : ReplayHardwarePipeline B S) (r : ReplayBackendReadiness) : rt unit :=
  _ ← rt_modify reap_finished_save;
  _ ← lift (validate_production_readiness r);
  s ← rt_gets (fun s => s);
  if bool_decide (is_Some (rt_pipeline s)) then rt_fail "an Instant Replay backend is already active"
  else if bool_decide (phase (status s) = Saving) || bool_decide (is_Some (save_worker s))
  then rt_fail "an Instant Replay clip is still being saved"
  else if negb (bool_decide (is_Some (spool p)))
  then rt_fail "an Instant Replay backend must include the bounded disk spool"
  else
    let st := {|
      Replay.phase := Buffering; Replay.capability := if activation_allowed r then Available else ValidationCandidate; Replay.backend_readiness := r;
      Replay.last_failure := None; Replay.completed_save_revision := completed_save_revision (status s); Replay.buffered_duration_ns := 0;
      Replay.received_frame_count := 0; Replay.encoded_packet_count := 0; Replay.audio_packet_count := 0; Replay.audio_byte_count := 0; Replay.audio_active := false;
      Replay.recorder_health := HealthStarting; Replay.settings := c; Replay.budget := budget_from_settings c |} in
    rt_modify (fun s =>
      set_rt_pipeline (Some p) (set_rt_audio (cleared true None None (rt_audio s))
        (set_last_encoded_progress None (set_observed_packet_count 0 (set_stopping false (set_frames_received 0 (set_status st s))))))).

(** * Frames and audio *)
(** What follows a pipeline call that may have completed inputs. *)
Definition after_call {A} (r : option (A + ReplayPipelineError)) : rt A :=
  match r with
  | None => not_recording
  | Some r =>
      fits ← collect_completed;
      if negb fits then queue_exceeded
      else match r with
           | inl a => mret a
           | inr e => _ ← mark_failed EncoderFailed; rt_raise (RuntimePipeline e)
           end
  end.
Definition runtime_submit_frame (n : Z) (fr : DmaBufReplayFrame) : rt unit :=
  _ ← rt_modify (fun s => set_frames_received (sat_add U64_MAX (frames_received s) 1) s);
  r ← on_pipeline (submit_frame n fr);
  after_call r.
Definition submit_audio_packet (now : Z) (x : EncodedOpusPacket) : rt unit := fun s =>
  let a := rt_audio s in
  if negb (recording a) then not_recording s
  else match audio_push (buffer a) x with
       | (b, Ok _) => (set_rt_audio (with_audio_state (recording a) b (Some now) (microphone_buffer a) (microphone_progress a) a) s, Ok tt)
       | (b, Err e) => (set_rt_audio (with_audio_state (recording a) b (last_progress a) (microphone_buffer a) (microphone_progress a) a) s,
                        Err (RuntimePipeline (AudioError e)))
       | (b, Panic) => (s, Panic)
       end.
Definition submit_microphone_audio (now : Z) (x : EncodedOpusPacket) (l : MicrophoneLevels) : rt unit := fun s =>
  let a := rt_audio s in
  if negb (recording a) || negb (microphone_recording a) then rt_fail "microphone capture is inactive" s
  else match audio_push (microphone_buffer a) x with
       | (b, Ok _) => (set_rt_audio (set_levels l (with_audio_state (recording a) (buffer a) (last_progress a) b (Some now) a)) s, Ok tt)
       | (b, Err e) => (set_rt_audio (with_audio_state (recording a) (buffer a) (last_progress a) b (microphone_progress a) a) s,
                        Err (RuntimePipeline (AudioError e)))
       | (b, Panic) => (s, Panic)
       end.
Definition enable_microphone_recording (now : Z) (s : runtime) : runtime :=
  set_rt_audio (set_microphone_recording true (Some now) (rt_audio s)) s.

(** * Reset *)
Definition cancel_job (token : option nat) (s : runtime) : runtime :=
  match token with Some t => set_cancelled (t :: cancelled s) s | None => s end.
Definition reset_backend (replacement : B) : rt unit :=
  _ ← rt_modify (fun s => cancel_job (save_cancel s) s);
  r ← on_pipeline (pipeline_reset replacement);
  _ ← after_call r;
  rt_modify (fun s => set_rt_audio (cleared (recording (rt_audio s)) None None (rt_audio s)) s).

(** * Saving *)
(** The closure that copies both timelines, as the timelines are at the call. *)
Definition audio_tracks (a : ProductionAudioState) (start stop : Z) : ReplayAudioTracks := {|
  system := snapshot_between (buffer a) start stop;
  microphone := if microphone_recording a then Some (snapshot_between (microphone_buffer a) start stop) else None |}.
(** What becomes of a job; [spare] are the failures that leave the status. *)
Definition after_save {A} (spare : ReplayPipelineError -> bool) (r : option (A + ReplayPipelineError)) : rt A :=
  match r with
  | None => not_recording
  | Some r =>
      fits ← collect_completed;
      if negb fits then queue_exceeded
      else match r with
           | inl job => _ ← rt_modify (set_failure None Saving); mret job
           | inr e =>
               _ ← (if spare e then mret tt
                    else match e with
                         | SpoolError _ | StoreError _ => rt_modify (fun s => set_failure (Some StorageFailed) (phase (status s)) s)
                         | _ => mark_failed (replay_failure e)
                         end);
               rt_raise (RuntimePipeline e)
           end
  end.
(** [starts]: whether the thread of a job from memory could be started. *)
Definition prepare_ram_save (d : ReplayDuration) (starts : bool) : rt RamJob :=
  '(format, a) ← rt_gets (fun s => (output_format s, rt_audio s));
  r ← on_pipeline (save_recent_replay_as_with_audio_tracks d format (audio_tracks a) starts);
  after_save (fun _ => false) r.
Definition is_insufficient (e : ReplayPipelineError) : bool := match e with PipeInsufficientHistory => true | _ => false end.
Definition save_refusal (p : ReplayPhase) : string :=
  match p with
  | Saving => "an Instant Replay clip is already being saved"
  | Failed => "Instant Replay stopped after a recording error"
  | _ => "Instant Replay is not recording"
  end.
Definition prepare_save (d : ReplayDuration) (starts : bool) : rt (J + RamJob) :=
  s ← rt_gets (fun s => s);
  if negb (bool_decide (phase (status s) = Buffering)) then rt_fail (save_refusal (phase (status s)))
  else if negb (bool_decide (is_Some (rt_pipeline s))) then not_recording
  else
    reported ← on_pipeline pipeline_spool_stats;
    if match reported with Some (inl (Some x)) => stats_buffered_duration_ns x <? 1000000000 | _ => true end
    then rt_fail "Instant Replay is still buffering; wait at least one second before saving"
    else
      available ← on_pipeline (disk_history_available (E := ReplayPipelineError));
      if match available with Some (inl b) => b | _ => false end
      then r ← on_pipeline (save_spooled_replay_as_with_audio_tracks d (output_format s) (audio_tracks (rt_audio s)) starts);
           after_save is_insufficient r
      else job ← prepare_ram_save d starts; mret (inr job).
(** [job.cancellation()] of a new job. *)
Definition new_token : rt nat := fun s => (set_save_cancel (Some (jobs s)) (set_jobs (Datatypes.S (jobs s)) s), Ok (jobs s)).
(** [spawned]: whether the thread that waits for the job could be started. *)
Definition runtime_save (d : ReplayDuration) (starts spawned : bool) : rt unit :=
  _ ← rt_modify reap_finished_save;
  s ← rt_gets (fun s => s);
  if stopping s || bool_decide (is_Some (save_worker s)) then rt_fail "Instant Replay is stopping or finishing a save"
  else
    job ← prepare_save d starts;
    token ← new_token;
    if spawned
    then rt_modify (fun s => set_save_worker (Some (length (threads s))) (set_threads (threads s ++ [Joining d token job]) s))
    else
      _ ← rt_modify (fun s => if bool_decide (phase (status s) = Saving) then set_failure (last_failure (status s)) Buffering s else s);
      rt_fail "could not track Replay save".

(** ** The save's thread *)
(** [.ok()]. *)
Definition attempt {A} (m : rt A) : rt (option A) := fun s =>
  match m s with (s, Ok a) => (s, Ok (Some a)) | (s, Err _) => (s, Ok None) | (s, Panic) => (s, Panic) end.
Definition set_thread (i : nat) (t : SaveThread J) (s : runtime) : runtime := set_threads (<[i := t]> (threads s)) s.
(** The section between the failed job and its fallback. *)
Definition retry_save (d : ReplayDuration) (starts : bool) : rt (option (nat * RamJob)) :=
  available ← on_pipeline (disk_history_available (E := ReplayPipelineError));
  let unavailable := match available with Some (inl b) => negb b | _ => false end in
  s ← rt_gets (fun s => s);
  if bool_decide (phase (status s) = Saving) && negb (stopping s) && unavailable
  then
    job ← attempt (prepare_ram_save d starts);
    match job with
    | Some job => token ← new_token; mret (Some (token, job))
    | None => mret None
    end
  else mret None.
Definition push_clip (name : option string) (s : runtime) : runtime :=
  match name with
  | Some name =>
      let kept := if MAX_COMMITTED_CLIP_NAMES <=? zlen (committed_clips s) then tail (committed_clips s) else committed_clips s in
      set_committed_clips (kept ++ [name]) s
  | None => s
  end.
Definition report_save (r : job_result) (s : runtime) : runtime :=
  if bool_decide (phase (status s) = Saving) then
    match r with
    | Committed name =>
        let s := push_clip name s in
        set_status (with_phase Buffering None (sat_add U64_MAX (completed_save_revision (status s)) 1) (status s)) s
    | NotCommitted => set_failure (Some StorageFailed) Buffering s
    end
  else s.

(** One step of the thread [i]; [r] is how its job ends, and [starts] whether
    another one could be started.  Nothing to do is an error. *)
Definition save_thread_step (i : nat) (r : job_result) (starts : bool) (s : runtime) : outcome unit runtime :=
  match threads s !! i with
  | Some (Joining d _ _) =>
      Ok (set_thread i (match r with Committed _ => Reporting r | NotCommitted => Retrying d end) s)
  | Some (Retrying d) =>
      match retry_save d starts s with
      | (s, Ok (Some (token, job))) => Ok (set_thread i (JoiningFallback token job) s)
      | (s, Ok None) => Ok (set_thread i (Reporting NotCommitted) s)
      | (s, Err _) => Err tt
      | (s, Panic) => Panic
      end
  | Some (JoiningFallback _ _) => Ok (set_thread i (Reporting r) s)
  | Some (Reporting reported) => Ok (set_thread i Finished (report_save reported s))
  | Some Finished | None => Err tt
  end.

(** * Shutdown *)
Definition begin_shutdown (s : runtime) : runtime :=
  let s := set_stopping true s in
  let s := set_save_cancel None (cancel_job (save_cancel s) s) in
  set_save_worker None (set_joining (joining s ++ [save_worker s]) s).
(** The second section, when the thread is joined. *)
Definition finish_shutdown : rt unit :=
  shut ← on_pipeline pipeline_shutdown;
  fits ← collect_completed;
  let failed := match shut with Some (inr e) => Some e | _ => None end in
  _ ← (if bool_decide (failed = None) then rt_modify (set_rt_pipeline None) else mret tt);
  _ ← rt_modify (fun s =>
        set_rt_audio (set_microphone_recording false (microphone_started (rt_audio s))
          (cleared false (last_progress (rt_audio s)) (microphone_progress (rt_audio s)) (rt_audio s))) s);
  _ ← rt_modify (fun s =>
        match failed with
        | Some _ => set_failure (Some EncoderFailed) Failed s
        | None => set_failure (last_failure (status s)) (if validation_allowed (backend_readiness (status s)) then Inactive else Unavailable) s
        end);
  match failed with
  | Some e => rt_raise (RuntimePipeline e)
  | None => if fits : bool then mret tt else rt_fail "Instant Replay completion queue exceeded its fixed bound"
  end.

(** * All calls *)
Definition set_output_format_op (f : ReplayOutputFormat) (s : runtime) : runtime := set_output_format f s.
Definition take_completed_exports (s : runtime) : runtime * list Z := (set_completed_exports [] s, completed_exports s).
Definition take_committed_clip_names (s : runtime) : runtime * list string := (set_committed_clips [] s, committed_clips s).
End Runtime.
