(* ===== verification/RuntimeFacts.v ===== *)
(** The runtime's invariant: what the pipeline, the queue of finished exports,
    the audio timelines and the save's thread have to do with the phase. *)
From stdpp Require Import strings sorting.
From S2P Require Import Prelude Bytes Profiles Preferences Replay ReplayRing ReplayAudio PacketSource Spool SpoolWorker Encoder Pipeline Arith PipelineFacts PipelineTheorems Runtime.
Local Open Scope Z_scope.

(** Failures after which a pipeline goes on. *)
Definition spared {A} (r : outcome ReplayPipelineError A) : bool :=
  match r with
  | Ok _ | Err (SpoolError _) | Err (StoreError _) | Err PipeInsufficientHistory => true
  | _ => false
  end.

(** * The pipeline's calls, as the runtime uses them *)
Section Calls.
Context {B S J : Type} `{!HardwareEncoderBackend B} `{!SegmentSpool S J}.
Context `{!HardwareEncoderBackendSpec B} `{!SegmentSpoolSpec S J}.
Notation pipeline := (ReplayHardwarePipeline B S).

Definition yields {A} (p : pipeline) (m : st pipeline ReplayPipelineError A) (new : list Z) (Q : pipeline -> outcome ReplayPipelineError A -> Prop) : Prop :=
  exists p' r, m p = (p', r) /\ r <> Panic /\ pipeline_inv p' /\ held p' ≡ₚ held p ++ new /\ Q p' r.
Definition buffering_if {A} (b : outcome ReplayPipelineError A -> bool) (p : pipeline) (r : outcome ReplayPipelineError A) : Prop :=
  b r = true -> pipeline_phase p = PipeBuffering.
Definition is_done {E A} (r : outcome E A) : bool := match r with Ok _ => true | _ => false end.

Lemma yields_impl {A} p (m : st pipeline ReplayPipelineError A) new (Q Q' : pipeline -> outcome ReplayPipelineError A -> Prop) :
  yields p m new Q -> (forall p' r, Q p' r -> Q' p' r) -> yields p m new Q'.
Proof. intros (p' & r & H1 & H2 & H3 & H4 & H5) HQ. exists p', r. splits; auto. Qed.
Lemma settled_yields {A} p (m : st pipeline ReplayPipelineError A) (Q : pipeline -> outcome ReplayPipelineError A -> Prop) :
  settled p m -> (let '(p', r) := m p in Q p' r) -> yields p m [] Q.
Proof. intros (p' & r & E & H1 & H2 & H3) HQ. rewrite E in HQ. exists p', r. rewrite app_nil_r. by splits. Qed.

(** Reads of the spool change nothing else. *)
Lemma stats_yields p :
  pipeline_inv p -> yields p pipeline_spool_stats [] (fun p' r => strip p' = strip p /\ is_done r = true).
Proof.
  intros Hi. apply settled_yields; [by apply stats_settled|].
  unfold pipeline_spool_stats, mbind, st_bind, with_the_spool. destruct (spool p) as [s|] eqn:Es; [|done].
  destruct (stats s) as [s1 x]. cbn. destruct (spool_degraded p) eqn:Ed; [done|]. cbn.
  by destruct (spool_phase s1).
Qed.
Lemma disk_yields p :
  pipeline_inv p -> yields p disk_history_available [] (fun p' r => strip p' = strip p /\ is_done r = true).
Proof.
  intros Hi. unfold yields, disk_history_available. rewrite app_nil_r.
  destruct (spool_degraded p); [exists p, (Ok false); by splits|]. destruct (spool p) as [s|] eqn:Es.
  - destruct (read_phase (E := ReplayPipelineError) p s Es) as (s' & x & Ex & Hh & Hst). rewrite (run_ok _ _ _ _ _ Ex).
    eexists _, (Ok _). splits; [done|done|by eapply inv_read|done..].
  - exists p, (Ok false). unfold mbind, st_bind, with_the_spool. rewrite Es. by splits.
Qed.

Lemma drain_error p p' e :
  running p -> call_backend drain p = (p', Err e) -> exists e', e = EncoderError e'.
Proof.
  intros Hr E. destruct (wk_backend _ (rn_working _ Hr)) as [b Hb].
  destruct (call_backend_spec drain p b Hr Hb ltac:(intros; by eapply drain_output)) as (q & r & E' & _ & Hres).
  rewrite E in E'. injection E' as -> <-. destruct Hres as (e' & He & _). by exists e'.
Qed.

Lemma recent_phase p d f t starts :
  running p -> zlen (in_flight_inputs p) <= MAX_TRACKED_INPUTS ->
  let '(p', r) := save_recent_replay_as_with_audio_tracks d f t starts p in buffering_if spared p' r.
Proof.
  intros Hr Hl. unfold save_recent_replay_as_with_audio_tracks, when_buffering. rewrite bool_decide_true by apply Hr.
  destruct (drained p Hr Hl) as (q & r & E & _ & Hres). destruct r as [[]|e|]; [| |done].
  - destruct Hres as (Hq & _ & _). rewrite (run_ok _ _ _ _ _ E), run_gets, snapshot_counted by apply Hq. cbn [expect]. rewrite run_lift.
    destruct (ring_window _) as [w|]; [|done]. destruct starts; intros _; apply Hq.
  - rewrite (run_err _ _ _ _ _ E). destruct (drain_error _ _ _ Hr E) as [e' ->]. done.
Qed.
Lemma recent_yields p d f t starts :
  pipeline_inv p -> pipeline_phase p = PipeBuffering -> yields p (save_recent_replay_as_with_audio_tracks d f t starts) [] (buffering_if spared).
Proof.
  intros Hi Hph. apply settled_yields; [by apply recent_settled|]. destruct (inv_running p Hi Hph) as [Hr Hl]. by apply recent_phase.
Qed.

Lemma spooled_phase p d f t starts :
  running p -> zlen (in_flight_inputs p) <= MAX_TRACKED_INPUTS ->
  let '(p', r) := spool_or_recent d f t starts p in buffering_if spared p' r.
Proof.
  intros Hr Hl. unfold spool_or_recent. destruct (flush_before_save_spec p Hr) as (p1 & r1 & E1 & Hs1 & Hl1 & Hr1). rewrite E1.
  destruct (running_feed p p1 Hs1 Hl1 Hr) as (Hrun1 & Hh1 & Hi1). assert (Hin1 : zlen (in_flight_inputs p1) <= MAX_TRACKED_INPUTS) by by rewrite Hi1.
  destruct r1 as [[]|e|]; [| |done].
  - destruct (save_from_spool_spec p1 d f t Hrun1 Hin1 Hr1) as (p2 & r2 & E2 & Hrun2 & _ & _ & Hr2). destruct r2 as [job|e|]; [| |done].
    + rewrite (run_ok _ _ _ _ _ E2). intros _. apply Hrun2.
    + rewrite (run_err _ _ _ _ _ E2). intros _. apply Hrun2.
  - destruct (disk_available_spec (E := ReplayPipelineError) p1 Hrun1) as (p2 & x & E2 & Hs2 & Hl2). rewrite (run_ok _ _ _ _ _ E2).
    destruct (running_feed p1 p2 Hs2 Hl2 Hrun1) as (Hrun2 & Hh2 & Hi2). destruct x; [intros _; apply Hrun2|].
    pose proof (recent_phase p2 d f t starts Hrun2 ltac:(by rewrite Hi2)) as Hrec. unfold mbind, st_bind.
    destruct (save_recent_replay_as_with_audio_tracks d f t starts p2) as [p3 [job|e'|]]; [exact Hrec|exact Hrec|done].
Qed.
Lemma spooled_yields p d f t starts :
  pipeline_inv p -> pipeline_phase p = PipeBuffering -> yields p (save_spooled_replay_as_with_audio_tracks d f t starts) [] (buffering_if spared).
Proof.
  intros Hi Hph. apply settled_yields; [by eapply settled_with_settled, save_spooled_spec|]. destruct (inv_running p Hi Hph) as [Hr Hl].
  unfold save_spooled_replay_as_with_audio_tracks, when_buffering. rewrite bool_decide_true by done.
  destruct (drained p Hr Hl) as (q & r & E & _ & Hres). destruct r as [[]|e|]; [| |done].
  - rewrite (run_ok _ _ _ _ _ E). destruct Hres as (Hq & Hlq & _). by apply spooled_phase.
  - rewrite (run_err _ _ _ _ _ E). destruct (drain_error _ _ _ Hr E) as [e' ->]. done.
Qed.

Lemma reset_yields p b : pipeline_inv p -> yields p (pipeline_reset b) [] (buffering_if is_done).
Proof.
  intros Hi. apply settled_yields; [by apply reset_settled|]. unfold pipeline_reset, when_buffering. case_bool_decide; [|done].
  rewrite !run_modify. unfold replace_backend. destruct (shutdown_backend _) as [q [[]|e|]]; [|done..]. destruct (negb _); [done|].
  by destruct (complete_reset (flow q) _) as [fl [[]|e|]].
Qed.
Lemma frame_yields p n fr :
  pipeline_inv p -> completed_inputs p = [] -> yields p (submit_frame n fr) (if accepts p n then [n] else []) (buffering_if is_done).
Proof.
  intros Hi Hc. destruct (submit_frame_spec p n fr Hi Hc) as (q & r & E & Hq & Hh & Hr). exists q, r.
  assert (r <> Panic /\ buffering_if is_done q r) as [H1 H2]; [|by splits].
  unfold frame_result, buffering_if, is_done in *. repeat case_match; try (by destruct Hr as [-> Hr]); try (by destruct Hr as [Hr _]).
  all: destruct Hr as (b & _ & Hr); destruct (encode _ _ _ b); destruct r as [[]|e|]; try done.
  all: split; [done|]; intros _; by destruct Hr as (out & _ & Hp & _).
Qed.
Lemma shutdown_yields p :
  pipeline_inv p -> yields p pipeline_shutdown [] (fun p' r =>
    if is_done r then in_flight_inputs p' = [] else pipeline_phase p' = PipeShutdown /\ is_Some (shutdown_error p')).
Proof.
  intros Hi. pose proof (shutdown_settled p Hi) as Hs. apply settled_yields; [done|].
  destruct Hs as (p' & r & E & Hnp & Hi' & _). rewrite E.
  assert (Hph : pipeline_phase p' = PipeShutdown /\ (is_done r = true <-> shutdown_error p' = None)).
  { unfold pipeline_shutdown in E. case_bool_decide as Hph.
    - injection E as <- <-. split; [done|]. by destruct (shutdown_error p).
    - unfold shutdown_backend in E. destruct (shutdown_error p) eqn:Ee; [injection E as <- <-; cbn; by rewrite Ee|].
      destruct (backend p) as [b|]; [destruct (backend_shutdown b) as [b' [e|]]|]; injection E as <- <-; cbn; by rewrite ?Ee. }
  destruct Hph as [Hph Hd]. pose proof (pi_phase _ Hi') as Hp. rewrite Hph in Hp. destruct Hp as [_ Hp].
  destruct (is_done r) eqn:Er.
  - rewrite (proj1 Hd eq_refl) in Hp. apply Hp.
  - split; [done|]. destruct (shutdown_error p'); [by eexists|]. by pose proof (proj2 Hd eq_refl).
Qed.
End Calls.
