(* ===== verification/RuntimeTheorems.v ===== *)
(** The runtime keeps its invariant, loses no export, and settles every save. *)
From stdpp Require Import strings sorting.
From S2P Require Import Prelude Bytes Profiles Preferences Replay ReplayRing ReplayAudio PacketSource Spool SpoolWorker Encoder Pipeline Arith PipelineFacts PipelineTheorems Runtime RuntimeFacts.
Local Open Scope Z_scope.

Section Runtime.
Context {B S J : Type} `{!HardwareEncoderBackend B} `{!SegmentSpool S J}.
Context `{!HardwareEncoderBackendSpec B} `{!SegmentSpoolSpec S J}.
Notation pipeline := (ReplayHardwarePipeline B S).
Notation runtime := (Runtime B S J).
Notation rt A := (st runtime ReplayRuntimeError A).

(** * Invariant *)
Definition phase_of (s : runtime) : ReplayPhase := phase (status s).
Definition live (s : runtime) : bool := is_live (phase_of s).
Definition revision_of (s : runtime) : Z := completed_save_revision (status s).
Definition unfinished (s : runtime) (i : nat) : Prop := exists t, threads s !! i = Some t /\ t <> Finished.
(** The sequence numbers the runtime has to give back. *)
Definition flying (s : runtime) : list Z := match rt_pipeline s with Some p => in_flight_inputs p | None => [] end.
Definition owned (s : runtime) : list Z := completed_exports s ++ flying s.

(** A pipeline between two calls. *)
Definition at_rest (p : pipeline) : Prop := pipeline_inv p /\ completed_inputs p = [].
Definition torn_down (p : pipeline) : Prop := pipeline_phase p = PipeShutdown /\ is_Some (shutdown_error p).
Definition silent (a : ProductionAudioState) : Prop := audio_packets (buffer a) = [] /\ audio_packets (microphone_buffer a) = [].

Record recorder_inv (s : runtime) : Prop := {
  rc_pipeline :
    match rt_pipeline s with
    | Some p => at_rest p /\ if live s then pipeline_phase p = PipeBuffering else torn_down p
    | None => live s = false
    end;
  rc_queue : zlen (completed_exports s) <= MAX_COMPLETED_EXPORTS;
  rc_recording : recording (rt_audio s) = live s;
  rc_silent : live s = false -> silent (rt_audio s);
  rc_gate : live s = true -> gate_open (status s);
  rc_failed : phase_of s = Failed -> is_Some (last_failure (status s));
}.
Record save_inv (s : runtime) : Prop := {
  sv_saving : phase_of s = Saving -> exists i, unfinished s i;
  sv_owner : forall i, unfinished s i -> save_worker s = Some i \/ Some i ∈ joining s;
  sv_one : forall i j, unfinished s i -> unfinished s j -> i = j;
  sv_stopping : joining s <> [] -> stopping s = true;
  sv_clips : zlen (committed_clips s) <= MAX_COMMITTED_CLIP_NAMES;
}.
Definition runtime_inv (s : runtime) : Prop := recorder_inv s /\ save_inv s.

(** * Phases and the count of saves *)
Inductive recorder_move : ReplayPhase * Z -> ReplayPhase * Z -> Prop :=
| move_stay x : recorder_move x x
| move_start p n : is_live p = false -> recorder_move (p, n) (Buffering, n)
| move_save n : recorder_move (Buffering, n) (Saving, n)
| move_saved n : recorder_move (Saving, n) (Buffering, sat_add U64_MAX n 1)
| move_not_saved n : recorder_move (Saving, n) (Buffering, n)
| move_fail p n : recorder_move (p, n) (Failed, n)
| move_stop p q n : q = Inactive \/ q = Unavailable -> recorder_move (p, n) (q, n).
Definition moves (s s' : runtime) : Prop := recorder_move (phase_of s, revision_of s) (phase_of s', revision_of s').

(** * The parts of an operation *)
(** Everything but the pipeline, the queue, the audio and the status. *)
Definition save_side (s : runtime) :=
  (save_worker s, save_cancel s, stopping s, committed_clips s, threads s, cancelled s, jobs s, joining s).
Definition aside (s : runtime) := (save_side s, status s, rt_audio s, frames_received s, output_format s).

(** A call on the pipeline, and taking the inputs it completed. *)
Definition ran {A} (s : runtime) (p : pipeline) (m : st pipeline ReplayPipelineError A) (new : list Z)
    (Q : pipeline -> outcome ReplayPipelineError A -> Prop) : Prop :=
  exists p' x s' fits, on_pipeline m s = (set_rt_pipeline (Some p') s, Ok (Some x))
    /\ collect_completed (set_rt_pipeline (Some p') s) = (s', Ok fits)
    /\ aside s' = aside s /\ zlen (completed_exports s') <= MAX_COMPLETED_EXPORTS
    /\ rt_pipeline s' = Some (set_completed_inputs [] p') /\ at_rest (set_completed_inputs [] p')
    /\ Q p' (match x with inl a => Ok a | inr e => Err e end)
    /\ if fits : bool then owned s' ≡ₚ owned s ++ new else MAX_COMPLETED_EXPORTS < zlen (owned s) + zlen new.
Lemma run_call {A} s p (m : st pipeline ReplayPipelineError A) new Q :
  rt_pipeline s = Some p -> completed_inputs p = [] -> zlen (completed_exports s) <= MAX_COMPLETED_EXPORTS ->
  yields p m new Q -> ran s p m new Q.
Proof.
  intros Hp Hc Hq (p' & r & E & Hnp & Hi & Hh & HQ). unfold ran, on_pipeline. rewrite Hp, E.
  assert (Hx : exists x, r = (match x with inl a => Ok a | inr e => Err e end)
    /\ match r with Ok a => (set_rt_pipeline (Some p') s, Ok (Some (inl a))) | Err e => (set_rt_pipeline (Some p') s, Ok (Some (inr e)))
       | Panic => (set_rt_pipeline (Some p') s, Panic) end = (set_rt_pipeline (Some p') s, Ok (E := ReplayRuntimeError) (Some x))).
  { destruct r as [a|e|]; [by exists (inl a)|by exists (inr e)|done]. }
  destruct Hx as (x & -> & Ex). exists p', x. rewrite Ex. clear Ex.
  assert (Hrest : at_rest (set_completed_inputs [] p')) by (split; [by apply inv_taken|done]).
  unfold held in Hh. rewrite Hc in Hh. cbn [app] in Hh.
  unfold collect_completed. cbn [rt_pipeline set_rt_pipeline take_completed_inputs]. unfold enqueue_completed.
  cbn [completed_exports set_rt_pipeline]. destruct (Z.ltb_spec MAX_COMPLETED_EXPORTS (zlen (completed_exports s) + zlen (completed_inputs p'))) as [Hm|Hf].
  - eexists _, false. splits; [done..|]. unfold owned, flying. rewrite Hp, zlen_app.
    apply Permutation_length in Hh. rewrite !length_app in Hh. unfold zlen in *. lia.
  - eexists _, true. splits; [done|done|done| |done..|].
    + cbn. rewrite zlen_app. lia.
    + unfold owned, flying. cbn. rewrite Hp, <- !(assoc_L app). by rewrite <- Hh.
Qed.
(** Reads keep the pipeline's fields that matter here. *)
Definition reads_pipeline (s s' : runtime) : Prop :=
  aside s' = aside s /\ completed_exports s' = completed_exports s
  /\ match rt_pipeline s, rt_pipeline s' with
     | Some p, Some p' => strip p' = strip p /\ pipeline_inv p'
     | None, None => True
     | _, _ => False
     end.
Lemma run_read {A} s (m : st pipeline ReplayPipelineError A) :
  match rt_pipeline s with Some p => pipeline_inv p | None => True end ->
  (forall p, pipeline_inv p -> yields p m [] (fun p' r => strip p' = strip p /\ is_done r = true)) ->
  exists s' x, on_pipeline m s = (s', Ok x) /\ reads_pipeline s s'.
Proof.
  intros Hi Hm. unfold on_pipeline, reads_pipeline. destruct (rt_pipeline s) as [p|] eqn:Ep; [|by eexists s, None; rewrite Ep].
  destruct (Hm p Hi) as (p' & r & E & _ & Hi' & _ & Hs & Hd). rewrite E. destruct r as [a|e|]; [|done..].
  by eexists (set_rt_pipeline (Some p') s), _.
Qed.
Lemma reads_owned s s' : reads_pipeline s s' -> owned s' = owned s.
Proof.
  intros (_ & Hc & Hp). unfold owned, flying. rewrite Hc. destruct (rt_pipeline s) as [p|], (rt_pipeline s') as [p'|]; try done.
  destruct Hp as [Hp _]. assert (E : in_flight_inputs p' = in_flight_inputs p) by exact (f_equal in_flight_inputs Hp). by rewrite E.
Qed.
Lemma reads_recorder s s' : reads_pipeline s s' -> recorder_inv s -> recorder_inv s'.
Proof.
  intros (Ha & Hc & Hp) [H1 H2 H3 H4 H5 H6]. unfold aside in Ha. injection Ha as _ _ _ _ _ _ _ _ Hst Hau _ _.
  assert (Hl : live s' = live s) by (unfold live, phase_of; by rewrite Hst).
  constructor; rewrite ?Hl, ?Hc, ?Hau; try done; [|unfold gate_open in *; by rewrite Hst|unfold phase_of in *; by rewrite Hst].
  destruct (rt_pipeline s) as [p|], (rt_pipeline s') as [p'|]; try done. destruct Hp as [Hs Hi], H1 as [[_ Hci] H1].
  assert (E1 : completed_inputs p' = completed_inputs p) by exact (f_equal completed_inputs Hs).
  assert (E2 : pipeline_phase p' = pipeline_phase p) by exact (f_equal pipeline_phase Hs).
  assert (E3 : shutdown_error p' = shutdown_error p) by exact (f_equal shutdown_error Hs).
  unfold at_rest, torn_down. rewrite E1, E2, E3. by splits.
Qed.
Lemma save_side_inv s s' : save_side s' = save_side s -> (phase_of s' = Saving -> phase_of s = Saving) -> save_inv s -> save_inv s'.
Proof.
  intros Ha Hp [H1 H2 H3 H4 H5]. unfold save_side in Ha. injection Ha as E1 E2 E3 E4 E5 E6 E7 E8.
  assert (Hu : forall i, unfinished s' i <-> unfinished s i) by (intros i; unfold unfinished; by rewrite E5).
  constructor.
  - intros H. destruct (H1 (Hp H)) as [i Hi]. exists i. by apply Hu.
  - intros i Hi. rewrite E1, E8. by apply H2, Hu.
  - intros i j Hi Hj. apply H3; by apply Hu.
  - by rewrite E8, E3.
  - by rewrite E4.
Qed.

(** ** Failing *)
Definition resting (s : runtime) : Prop :=
  match rt_pipeline s with Some p => at_rest p | None => True end /\ zlen (completed_exports s) <= MAX_COMPLETED_EXPORTS.
Lemma recorder_resting s : recorder_inv s -> resting s.
Proof. intros [H1 H2 _ _ _ _]. split; [|done]. destruct (rt_pipeline s); [apply H1|done]. Qed.
Definition fails (s s' : runtime) : Prop :=
  recorder_inv s' /\ save_side s' = save_side s /\ phase_of s' = Failed /\ revision_of s' = revision_of s
  /\ (zlen (owned s) <= MAX_COMPLETED_EXPORTS -> owned s' ≡ₚ owned s).

(** The last steps of [mark_failed], on a pipeline that is shut down or gone. *)
Definition failed_state (failure : ReplayFailure) (s : runtime) : runtime :=
  set_failure (Some failure) Failed
    (set_rt_audio (cleared false (last_progress (rt_audio s)) (microphone_progress (rt_audio s)) (rt_audio s)) s).
Lemma failed_state_inv failure s :
  match rt_pipeline s with Some p => at_rest p /\ torn_down p | None => True end ->
  zlen (completed_exports s) <= MAX_COMPLETED_EXPORTS -> recorder_inv (failed_state failure s).
Proof.
  intros Hp Hq. constructor; try done. cbn. by destruct (rt_pipeline s).
Qed.
Lemma mark_failed_spec failure s : resting s -> exists s', mark_failed failure s = (s', Ok tt) /\ fails s s'.
Proof.
  intros [Hr Hq]. unfold mark_failed. destruct (rt_pipeline s) as [p|] eqn:Ep.
  - destruct Hr as [Hi Hc].
    destruct (run_call s p pipeline_shutdown [] _ Ep Hc Hq (shutdown_yields p Hi)) as (p' & x & s2 & fits & E1 & E2 & Ha & Hq2 & Hp2 & Hr2 & HQ & Ho).
    rewrite (run_ok _ _ _ _ _ E1), (run_ok _ _ _ _ _ E2). unfold aside in Ha. injection Ha as A1 A2 A3 A4 A5 A6 A7 A8 A9 A10 A11 A12.
    assert (Ho' : zlen (owned s) <= MAX_COMPLETED_EXPORTS -> owned s2 ≡ₚ owned s).
    { intros Hl. destruct fits; [by rewrite Ho, app_nil_r|]. change (zlen []) with 0 in Ho. lia. }
    destruct x as [u|e].
    + cbn in HQ. eexists (failed_state failure (set_rt_pipeline None s2)). split; [done|]. unfold fails, phase_of, revision_of, save_side.
      cbn. rewrite A1, A2, A3, A4, A5, A6, A7, A8, A9. splits; [by apply failed_state_inv|done..|].
      intros Hl. unfold owned, flying in *. cbn. rewrite Hp2 in Ho'. cbn in Ho'. rewrite HQ in Ho'. by apply Ho'.
    + cbn in HQ. eexists (failed_state failure s2). split; [done|]. unfold fails, phase_of, revision_of, save_side.
      cbn. rewrite A1, A2, A3, A4, A5, A6, A7, A8, A9. splits; [apply failed_state_inv; [|done]; rewrite Hp2; by split|done..|].
      intros Hl. unfold owned, flying in *. cbn. rewrite Hp2 in *. by apply Ho'.
  - eexists (failed_state failure (set_rt_pipeline None s)). split.
    + unfold on_pipeline, mbind, st_bind. rewrite Ep. cbn. unfold collect_completed. rewrite Ep. done.
    + unfold fails, phase_of, revision_of, save_side. cbn. splits; [by apply failed_state_inv|done..|].
      intros _. unfold owned, flying. cbn. by rewrite Ep.
Qed.

(** ** What follows a call *)
(** The operation ended well for the recorder, or failed it. *)
Record effect (s s' : runtime) (new : list Z) : Prop := {
  ef_recorder : recorder_inv s';
  ef_side : save_side s' = save_side s;
  ef_moves : moves s s';
  ef_owned : zlen (owned s) + zlen new <= MAX_COMPLETED_EXPORTS -> owned s' ≡ₚ owned s ++ new;
}.
Lemma fails_effect s s1 s2 new :
  fails s1 s2 -> save_side s1 = save_side s -> revision_of s1 = revision_of s ->
  (zlen (owned s) + zlen new <= MAX_COMPLETED_EXPORTS -> owned s1 ≡ₚ owned s ++ new) -> effect s s2 new.
Proof.
  intros (H1 & H2 & H3 & H4 & H5) Hs Hrev Ho. constructor; [done|by rewrite H2| |].
  - unfold moves. rewrite H3, H4, Hrev. apply move_fail.
  - intros Hl. specialize (Ho Hl). rewrite H5; [done|]. apply Permutation_length in Ho. rewrite length_app in Ho. unfold zlen in *. lia.
Qed.

Lemma run_queue_exceeded {A} s : resting s -> exists s',
  queue_exceeded (A := A) s = (s', Err (RuntimeMessage "Instant Replay completion queue exceeded its fixed bound")) /\ fails s s'.
Proof. intros Hr. destruct (mark_failed_spec EncoderFailed s Hr) as (s' & E & Hf). exists s'. unfold queue_exceeded. by rewrite (run_ok _ _ _ _ _ E). Qed.

(** The state after a call that the recorder survives. *)
Lemma survived s s2 p p' new :
  recorder_inv s -> rt_pipeline s = Some p -> aside s2 = aside s -> zlen (completed_exports s2) <= MAX_COMPLETED_EXPORTS ->
  rt_pipeline s2 = Some (set_completed_inputs [] p') -> at_rest (set_completed_inputs [] p') ->
  (live s = true -> pipeline_phase p' = PipeBuffering) -> (live s = false -> torn_down p') -> owned s2 ≡ₚ owned s ++ new ->
  recorder_inv s2 /\ effect s s2 new.
Proof.
  intros [H1 H2 H3 H4 H5 H6] Hp Ha Hq2 Hp2 Hr2 Hb Ht Ho. pose proof Ha as Ha'. unfold aside in Ha. injection Ha as A1 A2 A3 A4 A5 A6 A7 A8 A9 A10 A11 A12.
  assert (Hl : live s2 = live s) by (unfold live, phase_of; by rewrite A9).
  assert (Hr : recorder_inv s2).
  { constructor; rewrite ?Hl, ?A10; try done; [|unfold gate_open in *; by rewrite A9|unfold phase_of in *; by rewrite A9].
    rewrite Hp2. split; [done|]. destruct (live s); [by apply Hb|by apply Ht]. }
  split; [done|]. constructor; [done|by unfold save_side; rewrite A1, A2, A3, A4, A5, A6, A7, A8| |done].
  unfold moves, phase_of, revision_of. rewrite A9. apply move_stay.
Qed.

Lemma after_call_spec {A} s p (m : st pipeline ReplayPipelineError A) new :
  recorder_inv s -> rt_pipeline s = Some p ->
  yields p m new (fun p' r => is_done r = true -> live s = true /\ pipeline_phase p' = PipeBuffering) ->
  exists s' r, (x ← on_pipeline m; after_call x) s = (s', r) /\ r <> Panic /\ effect s s' new
    /\ if is_done r then aside s' = aside s /\ live s' = true else phase_of s' = Failed.
Proof.
  intros Hi Hp Hy. destruct (recorder_resting s Hi) as [Hr Hq]. rewrite Hp in Hr. destruct Hr as [Hpi Hc].
  destruct (run_call s p m new _ Hp Hc Hq Hy) as (p' & x & s2 & fits & E1 & E2 & Ha & Hq2 & Hp2 & Hr2 & HQ & Ho).
  rewrite (run_ok _ _ _ _ _ E1). unfold after_call. rewrite (run_ok _ _ _ _ _ E2).
  assert (Hrest : resting s2) by (split; [by rewrite Hp2|done]).
  assert (Hside : save_side s2 = save_side s /\ revision_of s2 = revision_of s).
  { unfold aside in Ha. injection Ha as A1 A2 A3 A4 A5 A6 A7 A8 A9 A10 A11 A12. unfold save_side, revision_of.
    by rewrite A1, A2, A3, A4, A5, A6, A7, A8, A9. }
  destruct fits; cbn [negb]; cycle 1.
  { destruct (run_queue_exceeded (A := A) s2 Hrest) as (s' & E & Hf). exists s', (Err (RuntimeMessage "Instant Replay completion queue exceeded its fixed bound")).
    splits; [exact E|done|eapply fails_effect; [exact Hf|apply Hside..|lia]|apply Hf]. }
  destruct x as [a|e].
  - destruct (HQ eq_refl) as [Hl Hb]. destruct (survived s s2 p p' new Hi Hp Ha Hq2 Hp2 Hr2) as [_ He]; [done|congruence|done|].
    exists s2, (Ok a). splits; [done..|]. split; [done|]. unfold live, phase_of in *. unfold aside in Ha. injection Ha as _ _ _ _ _ _ _ _ -> _ _ _. done.
  - destruct (mark_failed_spec EncoderFailed s2 Hrest) as (s' & E & Hf). exists s', (Err (RuntimePipeline e)).
    splits; [by rewrite (run_ok _ _ _ _ _ E)|done|eapply fails_effect; [exact Hf|apply Hside..|done]|apply Hf].
Qed.

(** ** Saving *)
Lemma recorder_failure f q s :
  recorder_inv s -> is_live q = live s -> (q = Failed -> is_Some f) -> recorder_inv (set_failure f q s).
Proof.
  intros [H1 H2 H3 H4 H5 H6] Hl Hf. assert (El : live (set_failure f q s) = live s) by done.
  constructor; rewrite ?El; done.
Qed.
Lemma after_save_spec {A} s p (m : st pipeline ReplayPipelineError A) spare :
  recorder_inv s -> rt_pipeline s = Some p -> live s = true -> yields p m [] (buffering_if spared) ->
  (forall e : ReplayPipelineError, spare e = true -> spared (A := A) (Err e) = true) ->
  exists s' r, (x ← on_pipeline m; after_save spare x) s = (s', r) /\ r <> Panic /\ effect s s' []
    /\ match r with Ok _ => phase_of s' = Saving | _ => phase_of s' = phase_of s \/ phase_of s' = Failed end.
Proof.
  intros Hi Hp Hl Hy Hsp. destruct (recorder_resting s Hi) as [Hr Hq]. rewrite Hp in Hr. destruct Hr as [Hpi Hc].
  destruct (run_call s p m [] _ Hp Hc Hq Hy) as (p' & x & s2 & fits & E1 & E2 & Ha & Hq2 & Hp2 & Hr2 & HQ & Ho).
  rewrite (run_ok _ _ _ _ _ E1). unfold after_save. rewrite (run_ok _ _ _ _ _ E2).
  assert (Hrest : resting s2) by (split; [by rewrite Hp2|done]).
  assert (Hside : save_side s2 = save_side s /\ revision_of s2 = revision_of s /\ phase_of s2 = phase_of s).
  { unfold aside in Ha. injection Ha as A1 A2 A3 A4 A5 A6 A7 A8 A9 A10 A11 A12. unfold save_side, revision_of, phase_of.
    by rewrite A1, A2, A3, A4, A5, A6, A7, A8, A9. }
  destruct Hside as (Hside & Hrev & Hph). destruct fits; cbn [negb]; cycle 1.
  { destruct (run_queue_exceeded (A := A) s2 Hrest) as (s' & E & Hf). eexists s', (Err _).
    splits; [exact E|done|eapply fails_effect; [exact Hf|done..|lia]|right; apply Hf]. }
  assert (Hlive : spared (match x with inl a => Ok a | inr e => Err e end) = true -> recorder_inv s2 /\ effect s s2 []).
  { intros Hx. apply (survived s s2 p p' [] Hi Hp Ha Hq2 Hp2 Hr2); [intros _; by apply HQ|congruence|done]. }
  destruct x as [a|e].
  - destruct (Hlive eq_refl) as [Hr' [_ He1 He2 He3]]. eexists (set_failure None Saving s2), (Ok a). splits; [done|done| |done].
    constructor; [apply recorder_failure; [done| |done]|exact He1| |exact He3].
    + unfold live. rewrite Hph. symmetry. exact Hl.
    + unfold moves, phase_of, revision_of in *. cbn. rewrite Hrev. unfold live, phase_of in Hl.
      destruct (phase (status s)); try done; [apply move_save|apply move_stay].
  - assert (Hfail : forall f, exists s', (_ ← mark_failed f; rt_raise (A := A) (RuntimePipeline e)) s2 = (s', Err (RuntimePipeline e)) /\ effect s s' []
      /\ phase_of s' = Failed).
    { intros f. destruct (mark_failed_spec f s2 Hrest) as (s' & E & Hf). exists s'. rewrite (run_ok _ _ _ _ _ E).
      splits; [done|eapply fails_effect; done|apply Hf]. }
    destruct (spare e) eqn:Es.
    + destruct (Hlive (Hsp e Es)) as [_ He]. exists s2, (Err (RuntimePipeline e)). splits; [done..|by left].
    + assert (Hstore : spared (A := A) (Err e) = true -> exists s', (_ ← rt_modify (fun s => set_failure (Some StorageFailed) (phase (status s)) s);
          rt_raise (A := A) (RuntimePipeline e)) s2 = (s', Err (RuntimePipeline e)) /\ effect s s' [] /\ phase_of s' = phase_of s).
      { intros Hx. destruct (Hlive Hx) as [Hr' [_ He1 He2 He3]]. eexists. split; [done|]. split; [|exact Hph]. constructor; [|exact He1|exact He2|exact He3].
        apply recorder_failure; [done|done|by eexists]. }
      destruct e; try (destruct (Hfail EncoderFailed) as (s' & E & He & Hf); exists s'; eexists; splits; [exact E|done|done|by right]);
        destruct (Hstore eq_refl) as (s' & E & He & Hf); exists s'; eexists; splits; [exact E|done|done|by left|exact E|done|done|by left].
Qed.

Lemma prepare_ram_spec d b s :
  recorder_inv s -> live s = true ->
  exists s' r, prepare_ram_save d b s = (s', r) /\ r <> Panic /\ effect s s' []
    /\ match r with Ok _ => phase_of s' = Saving | _ => phase_of s' = phase_of s \/ phase_of s' = Failed end.
Proof.
  intros Hi Hl. pose proof (rc_pipeline s Hi) as Hp. destruct (rt_pipeline s) as [p|] eqn:Ep; [|by rewrite Hl in Hp].
  rewrite Hl in Hp. destruct Hp as [[Hpi Hc] Hph].
  apply (after_save_spec s p); [done..|by apply recent_yields|done].
Qed.
(** An effect after a read of the pipeline. *)
Lemma effect_read s s1 s2 new :
  reads_pipeline s s1 -> effect s1 s2 new -> effect s s2 new.
Proof.
  intros Hrd [H1 H2 H3 H4]. pose proof (reads_owned s s1 Hrd) as Ho. destruct Hrd as (Ha & _). unfold aside in Ha.
  injection Ha as A1 A2 A3 A4 A5 A6 A7 A8 A9 A10 A11 A12. constructor; [done| | |by rewrite <- Ho].
  - rewrite H2. unfold save_side. by rewrite A1, A2, A3, A4, A5, A6, A7, A8.
  - unfold moves, phase_of, revision_of in *. by rewrite <- A9.
Qed.
Lemma effect_id s : recorder_inv s -> effect s s [].
Proof. intros Hi. constructor; [done..|apply move_stay|]. intros _. by rewrite app_nil_r. Qed.

(** * The calls *)
Record steps (s s' : runtime) (new : list Z) : Prop := {
  st_inv : runtime_inv s';
  st_moves : moves s s';
  st_owned : zlen (owned s) + zlen new <= MAX_COMPLETED_EXPORTS -> owned s' ≡ₚ owned s ++ new;
}.
Lemma effect_steps s s' new :
  save_inv s -> effect s s' new -> (phase_of s' = Saving -> phase_of s = Saving) -> steps s s' new.
Proof. intros Hs [H1 H2 H3 H4] Hp. constructor; [split; [done|by eapply save_side_inv]|done|done]. Qed.
(** A call that returns. *)
Definition calls {A} (s : runtime) (m : rt A) (new : list Z) (Q : runtime -> outcome ReplayRuntimeError A -> Prop) : Prop :=
  exists s' r, m s = (s', r) /\ r <> Panic /\ steps s s' new /\ Q s' r.

Lemma recorder_same s s' :
  rt_pipeline s' = rt_pipeline s -> completed_exports s' = completed_exports s -> rt_audio s' = rt_audio s -> status s' = status s ->
  recorder_inv s -> recorder_inv s'.
Proof.
  intros E1 E2 E3 E4 [H1 H2 H3 H4 H5 H6]. assert (El : live s' = live s) by (unfold live, phase_of; by rewrite E4).
  constructor; rewrite ?El, ?E1, ?E2, ?E3; try done; [unfold gate_open in *; by rewrite E4|unfold phase_of in *; by rewrite E4].
Qed.
Lemma steps_id s : runtime_inv s -> steps s s [].
Proof. intros Hi. constructor; [done|apply move_stay|]. intros _. by rewrite app_nil_r. Qed.
Lemma steps_same s s' :
  runtime_inv s -> recorder_inv s' -> save_inv s' -> owned s' = owned s -> phase_of s' = phase_of s -> revision_of s' = revision_of s -> steps s s' [].
Proof.
  intros Hi Hr Hs Ho Hp Hv. constructor; [by split| |by rewrite app_nil_r, Ho]. unfold moves. rewrite Hp, Hv. apply move_stay.
Qed.

(** ** Frames and reset *)
Definition entered (s : runtime) (n : Z) : list Z :=
  match rt_pipeline s with Some p => if accepts p n then [n] else [] | None => [] end.
Lemma not_recording_calls {A} s new (Q : runtime -> outcome ReplayRuntimeError A -> Prop) :
  runtime_inv s -> new = [] -> (forall e, Q s (Err e)) -> calls s not_recording new Q.
Proof. intros Hi -> HQ. exists s, (Err (RuntimeMessage "Instant Replay is not recording")). splits; [done..|by apply steps_id|done]. Qed.
Lemma pipeline_call {A} s (m : st pipeline ReplayPipelineError A) (new : pipeline -> list Z) :
  runtime_inv s ->
  (forall p, rt_pipeline s = Some p -> at_rest p -> yields p m (new p) (buffering_if is_done)) ->
  (forall p, pipeline_phase p = PipeShutdown -> is_done (m p).2 = false) ->
  calls s (x ← on_pipeline m; after_call x) (match rt_pipeline s with Some p => new p | None => [] end)
    (fun s' r => if is_done r then aside s' = aside s /\ live s' = true else phase_of s' = Failed \/ rt_pipeline s = None).
Proof.
  intros [Hi Hs] Hm Htorn. pose proof (rc_pipeline s Hi) as Hp. destruct (rt_pipeline s) as [p|] eqn:Ep.
  2: { destruct (not_recording_calls (A := A) s [] (fun s' r => if is_done r then aside s' = aside s /\ live s' = true else phase_of s' = Failed \/ rt_pipeline s = None))
         as (s' & r & E & H); [done|done|by right|]. exists s', r. rewrite Ep in H. split; [|exact H]. rewrite <- E. unfold on_pipeline, mbind, st_bind. by rewrite Ep. }
  destruct Hp as [Hrest Hp].
  destruct (after_call_spec s p m (new p) Hi Ep) as (s' & r & E & Hnp & He & Hd).
  { destruct (Hm p eq_refl Hrest) as (p' & r & E & H1 & H2 & H3 & HQ). exists p', r. splits; try done. intros Hr.
    destruct (live s) eqn:El; [split; [done|by apply HQ]|]. destruct Hp as [Hp _]. specialize (Htorn p Hp). rewrite E in Htorn. cbn in Htorn. congruence. }
  exists s', r. splits; [done|done| |by destruct (is_done r); [|left]].
  apply effect_steps; [done..|]. intros Hph. destruct (is_done r); [|by rewrite Hd in Hph].
  destruct Hd as [Ha _]. unfold aside in Ha. injection Ha as _ _ _ _ _ _ _ _ E9 _ _ _. unfold phase_of in *. by rewrite <- E9.
Qed.
Lemma frame_calls n fr s :
  runtime_inv s ->
  calls s (runtime_submit_frame n fr) (entered s n) (fun s' r => is_done r = false -> phase_of s' = Failed \/ rt_pipeline s = None).
Proof.
  intros [Hi Hs]. set (s1 := set_frames_received (sat_add U64_MAX (frames_received s) 1) s).
  assert (Hi1 : runtime_inv s1) by (split; [by apply (recorder_same s)|by apply (save_side_inv s)]).
  destruct (pipeline_call s1 (submit_frame n fr) (fun p => if accepts p n then [n] else []) Hi1) as (s' & r & E & Hnp & Hst & Hd).
  - intros p _ [Hp Hc]. by apply frame_yields.
  - intros p Hp. unfold submit_frame, when_buffering. by rewrite Hp.
  - exists s', r. splits; [exact E|done| |].
    + destruct Hst as [H1 H2 H3]. by constructor.
    + intros Hr. by rewrite Hr in Hd.
Qed.
Lemma recorder_audio s a :
  recorder_inv s -> recording a = live s -> (live s = false -> silent a) -> recorder_inv (set_rt_audio a s).
Proof. intros [H1 H2 H3 H4 H5 H6] Hr Hs. by constructor. Qed.
Lemma reset_calls b s :
  runtime_inv s ->
  calls s (reset_backend b) [] (fun s' r => is_done r = false -> phase_of s' = Failed \/ rt_pipeline s = None).
Proof.
  intros [Hi Hs]. set (s1 := cancel_job (save_cancel s) s).
  assert (Hf : forall i, unfinished s1 i <-> unfinished s i) by (intros i; unfold s1, cancel_job; by destruct (save_cancel s)).
  assert (Hi1 : runtime_inv s1 /\ phase_of s1 = phase_of s /\ revision_of s1 = revision_of s /\ owned s1 = owned s /\ rt_pipeline s1 = rt_pipeline s).
  { destruct Hs as [H1 H2 H3 H4 H5]. unfold s1, cancel_job in *. destruct (save_cancel s); (split; [|done]); (split; [by apply (recorder_same s)|]); by constructor. }
  destruct Hi1 as (Hi1 & Ep & Er & Eo & El).
  destruct (pipeline_call s1 (pipeline_reset b) (fun _ => []) Hi1) as (s' & r & E & Hnp & Hst & Hd).
  - intros p _ [Hp Hc]. by apply reset_yields.
  - intros p Hp. unfold pipeline_reset, when_buffering. by rewrite Hp.
  - replace (match rt_pipeline s1 with Some _ => [] | None => [] end) with (@nil Z) in Hst by by destruct (rt_pipeline s1).
    unfold calls, reset_backend. rewrite El in Hd.
    set (last := rt_modify (fun s => set_rt_audio (cleared (recording (rt_audio s)) None None (rt_audio s)) s)).
    assert (E2 : (_ ← rt_modify (fun s => cancel_job (save_cancel s) s); r ← on_pipeline (pipeline_reset b); _ ← after_call r; last) s
      = match r with Ok _ => last s' | Err e => (s', Err e) | Panic => (s', Panic) end).
    { change (((r ← on_pipeline (pipeline_reset b); _ ← after_call r; last) : rt unit) s1 = match r with Ok _ => last s' | Err e => (s', Err e) | Panic => (s', Panic) end).
      revert E. unfold mbind, st_bind. destruct (on_pipeline (pipeline_reset b) s1) as [s2 [x|e|]]; [|by intros [= <- <-]..].
      intros ->. by destruct r. }
    rewrite E2. destruct r as [[]|e|]; [| |done].
    + eexists _, (Ok tt). splits; [done|done| |done]. destruct Hd as [_ Hl], Hst as [[H1 H2] H3 H4]. constructor.
      * split; [|by apply (save_side_inv s')]. apply recorder_audio; [done|exact (rc_recording _ H1)|]. by rewrite Hl.
      * unfold moves in *. by rewrite <- Ep, <- Er.
      * by rewrite <- Eo.
    + exists s', (Err e). splits; [done|done| |by intros _]. destruct Hst as [H1 H2 H3]. constructor; [done| |by rewrite <- Eo].
      unfold moves in *. by rewrite <- Ep, <- Er.
Qed.
End Runtime.
