(* ===== verification/RuntimeSaves.v ===== *)
(** Saves, their threads and the shutdown that waits for them. *)
From stdpp Require Import strings sorting.
From S2P Require Import Prelude Bytes Profiles Preferences Replay ReplayRing ReplayAudio PacketSource Spool SpoolWorker Encoder Pipeline Arith PipelineFacts PipelineTheorems Runtime RuntimeFacts RuntimeTheorems.
Local Open Scope Z_scope.

Section Saves.
Context {B S J : Type} `{!HardwareEncoderBackend B} `{!SegmentSpool S J}.
Context `{!HardwareEncoderBackendSpec B} `{!SegmentSpoolSpec S J}.
Notation pipeline := (ReplayHardwarePipeline B S).
Notation runtime := (Runtime B S J).
Notation rt A := (st runtime ReplayRuntimeError A).

Lemma recorder_pipeline (s : runtime) : recorder_inv s -> match rt_pipeline s with Some p => pipeline_inv p | None => True end.
Proof. intros H. apply recorder_resting in H as [H _]. destruct (rt_pipeline s); [apply H|done]. Qed.
Lemma reads_side (s s' : runtime) : reads_pipeline s s' -> save_side s' = save_side s /\ status s' = status s.
Proof.
  intros (Ha & _). unfold aside in Ha. injection Ha as A1 A2 A3 A4 A5 A6 A7 A8 A9 _ _ _. unfold save_side.
  by rewrite A1, A2, A3, A4, A5, A6, A7, A8.
Qed.

(** ** Preparing *)
Definition prepared {A} (s s' : runtime) (r : outcome ReplayRuntimeError A) : Prop :=
  r <> Panic /\ effect s s' []
  /\ match r with Ok _ => phase_of s' = Saving | _ => phase_of s' = phase_of s \/ phase_of s' = Failed end.
Lemma prepare_save_spec d b (s : runtime) :
  recorder_inv s ->
  exists s' r, prepare_save d b s = (s', r) /\ prepared s s' r /\ (is_done r = true -> phase_of s = Buffering).
Proof.
  intros Hi. assert (Hno : forall e : ReplayRuntimeError, prepared (A := J + RamJob) s s (Err e))
    by (intros e; split; [done|]; split; [by apply effect_id|by left]).
  unfold prepare_save. change (rt_gets (fun s : runtime => s) ≫= ?k) with (fun s : runtime => k s s). cbv beta.
  case_bool_decide as Hph; cbn [negb]; [|by eexists s, _].
  assert (Hl : live s = true) by (unfold live, phase_of; by rewrite Hph).
  pose proof (rc_pipeline s Hi) as Hp. destruct (rt_pipeline s) as [p|] eqn:Ep; [|by rewrite Hl in Hp].
  rewrite bool_decide_true by by eexists. cbn [negb].
  destruct (run_read s pipeline_spool_stats (recorder_pipeline s Hi) stats_yields) as (s1 & x & E1 & R1).
  rewrite (run_ok _ _ _ _ _ E1). pose proof (reads_recorder s s1 R1 Hi) as Hi1. destruct (reads_side s s1 R1) as [_ Hst1].
  assert (Hread : forall sx, reads_pipeline s sx -> recorder_inv sx -> prepared (A := J + RamJob) s sx
      (Err (RuntimeMessage "Instant Replay is still buffering; wait at least one second before saving"))).
  { intros sx Hx Hix. split; [done|]. split; [eapply effect_read; [exact Hx|by apply effect_id]|]. left. unfold phase_of.
    by destruct (reads_side s sx Hx) as [_ ->]. }
  destruct (match x with Some (inl (Some y)) => _ | _ => true end); [by eexists s1, _; split; [done|]; split; [by apply Hread|]|].
  destruct (run_read s1 disk_history_available (recorder_pipeline s1 Hi1) disk_yields) as (s2 & y & E2 & R2).
  rewrite (run_ok _ _ _ _ _ E2). pose proof (reads_recorder s1 s2 R2 Hi1) as Hi2. destruct (reads_side s1 s2 R2) as [_ Hst2].
  assert (Hl2 : live s2 = true) by (unfold live, phase_of; by rewrite Hst2, Hst1).
  assert (Hph2 : phase_of s2 = phase_of s) by (unfold phase_of; by rewrite Hst2, Hst1).
  assert (Hback : forall A s' (r : outcome ReplayRuntimeError A), prepared s2 s' r -> prepared s s' r).
  { intros A s' r (H1 & H2 & H3). split; [done|]. split; [eapply effect_read; [exact R1|]; eapply effect_read; [exact R2|done]|]. by rewrite <- Hph2. }
  destruct (match y with Some (inl b) => b | _ => false end).
  - pose proof (rc_pipeline s2 Hi2) as Hp2. destruct (rt_pipeline s2) as [q|] eqn:Eq; [|by rewrite Hl2 in Hp2].
    rewrite Hl2 in Hp2. destruct Hp2 as [[Hqi Hqc] Hqp].
    destruct (after_save_spec s2 q (save_spooled_replay_as_with_audio_tracks d (output_format s) (audio_tracks (rt_audio s)) b) is_insufficient Hi2 Eq Hl2)
      as (s' & r & E & Hpr); [by apply spooled_yields|by intros []|]. exists s', r. split; [exact E|]. split; [by apply Hback|by intros _].
  - destruct (prepare_ram_spec d b s2 Hi2 Hl2) as (s' & r & E & Hnp & He & Hr). destruct r as [job|e|]; [| |done].
    + rewrite (run_ok _ _ _ _ _ E). exists s', (Ok (inr job)). split; [done|]. split; [apply Hback; by split|by intros _].
    + rewrite (run_err _ _ _ _ _ E). exists s', (Err e). split; [done|]. split; [apply Hback; by split|by intros _].
Qed.

(** ** The save call *)
Lemma reap_inv (s : runtime) : runtime_inv s -> runtime_inv (reap_finished_save s) /\ rt_pipeline (reap_finished_save s) = rt_pipeline s
  /\ owned (reap_finished_save s) = owned s /\ status (reap_finished_save s) = status s /\ joining (reap_finished_save s) = joining s
  /\ (forall i, unfinished (reap_finished_save s) i <-> unfinished s i)
  /\ (forall i, save_worker (reap_finished_save s) = Some i -> save_worker s = Some i /\ thread_finished s i = false).
Proof.
  intros [Hi Hs]. unfold reap_finished_save. destruct (save_worker s) as [i|] eqn:Ew; cycle 1.
  { split; [by split|]. do 5 (split; [done|]). intros i. by rewrite Ew. }
  destruct (thread_finished s i) eqn:Ef; cycle 1.
  { split; [by split|]. do 5 (split; [done|]). intros j. rewrite Ew. by intros [= <-]. }
  split; [|by do 5 (split; [done|])]. split; [by apply (recorder_same s)|]. destruct Hs as [H1 H2 H3 H4 H5]. constructor; try done.
  intros j Hj. destruct (H2 j Hj) as [Hw|Hw]; [|by right]. rewrite Ew in Hw. injection Hw as <-. destruct Hj as (t & Ht & Hne).
  cbn in Ht. unfold thread_finished in Ef. rewrite Ht in Ef. by destruct t.
Qed.
(** Without a handle and without a shutdown no thread is at work. *)
Lemma no_thread (s : runtime) : save_inv s -> save_worker s = None -> joining s = [] -> forall i, ~ unfinished s i.
Proof. intros Hs Hw Hj i Hi. destruct (sv_owner s Hs i Hi) as [H|H]; [by rewrite Hw in H|]. rewrite Hj in H. by apply elem_of_nil in H. Qed.
Lemma idle_joining (s : runtime) : save_inv s -> stopping s = false -> joining s = [].
Proof. intros Hs Hst. destruct (joining s) eqn:E; [done|]. pose proof (sv_stopping s Hs) as H. rewrite E, Hst in H. by discriminate H. Qed.

(** A new thread, when there is none at work. *)
Definition launched (t : SaveThread J) (s : runtime) : runtime :=
  set_save_worker (Some (length (threads s))) (set_threads (threads s ++ [t]) s).
Lemma launch_inv t (s : runtime) :
  t <> Finished -> recorder_inv s -> (forall i, ~ unfinished s i) -> (joining s <> [] -> stopping s = true) ->
  zlen (committed_clips s) <= MAX_COMMITTED_CLIP_NAMES -> runtime_inv (launched t s).
Proof.
  intros Ht Hi Hno Hj Hc. split; [by apply (recorder_same s)|].
  assert (Hu : forall i, unfinished (launched t s) i <-> i = length (threads s)).
  { intros i. unfold unfinished. cbn. split.
    - intros (x & Hx & Hne). apply lookup_app_Some in Hx as [Hx|[Hle Hx]]; [by destruct (Hno i); exists x|].
      apply list_lookup_singleton_Some in Hx as [Hx _]. lia.
    - intros ->. exists t. split; [|done]. rewrite lookup_app_r by done. by rewrite Nat.sub_diag. }
  constructor; try done.
  - intros _. exists (length (threads s)). by apply Hu.
  - intros i ->%Hu. by left.
  - by intros i j ->%Hu ->%Hu.
Qed.
Lemma save_calls d b spawned (s : runtime) :
  runtime_inv s ->
  calls s (runtime_save d b spawned) [] (fun s' r => is_done r = true -> phase_of s = Buffering /\ phase_of s' = Saving).
Proof.
  intros Hinv. unfold runtime_save. destruct (reap_inv s Hinv) as ([Hi Hs] & _ & Ho & Hst & Hj & _).
  set (s0 := reap_finished_save s) in *. unfold calls.
  change ((rt_modify reap_finished_save ≫= ?k) s) with (k tt s0). change (rt_gets (fun s : runtime => s) ≫= ?k) with (fun s : runtime => k s s). cbv beta.
  assert (Hbase : forall s', steps s0 s' [] -> steps s s' []).
  { intros s' [H1 H2 H3]. constructor; [done|unfold moves, phase_of, revision_of in *; by rewrite <- Hst|by rewrite <- Ho]. }
  destruct (stopping s0) eqn:Est; [eexists s0, (Err _); splits; [done|done|apply Hbase, steps_id; by split|done]|].
  case_bool_decide as Hw; cbn [orb]; [eexists s0, (Err _); splits; [done|done|apply Hbase, steps_id; by split|done]|].
  assert (Hw' : save_worker s0 = None) by (destruct (save_worker s0); [destruct Hw; by eexists|done]).
  pose proof (no_thread s0 Hs Hw' (idle_joining s0 Hs Est)) as Hnone.
  destruct (prepare_save_spec d b s0 Hi) as (s1 & r & E & (Hnp & He & Hr) & Hb). destruct r as [job|e|]; [| |done]; cycle 1.
  { rewrite (run_err _ _ _ _ _ E). exists s1, (Err e). splits; [done|done| |done]. apply Hbase, effect_steps; [done..|].
    intros Hp. destruct Hr as [Hr|Hr]; [by rewrite <- Hr|by rewrite Hr in Hp]. }
  rewrite (run_ok _ _ _ _ _ E). specialize (Hb eq_refl).
  set (s2 := set_save_cancel (Some (jobs s1)) (set_jobs (Datatypes.S (jobs s1)) s1)).
  change ((new_token ≫= ?k) s1) with (k (jobs s1) s2). cbv beta.
  destruct He as [He1 He2 He3 He4]. pose proof He2 as Hside. unfold save_side in Hside. injection Hside as A1 A2 A3 A4 A5 A6 A7 A8.
  assert (Hi2 : recorder_inv s2) by by apply (recorder_same s1).
  assert (Hnone2 : forall i, ~ unfinished s2 i) by (intros i; unfold unfinished; cbn; rewrite A5; apply Hnone).
  assert (Hj2 : joining s2 <> [] -> stopping s2 = true) by (cbn; rewrite A8, A3; apply (sv_stopping s0 Hs)).
  assert (Hc2 : zlen (committed_clips s2) <= MAX_COMMITTED_CLIP_NAMES) by (cbn; rewrite A4; apply Hs).
  destruct spawned.
  - eexists (launched (Joining d (jobs s1) job) s2), (Ok tt). splits; [done|done| |].
    + apply Hbase. constructor; [by apply launch_inv|exact He3|exact He4].
    + intros _. split; [|exact Hr]. unfold phase_of in *. by rewrite <- Hst.
  - cbn [phase_of] in *. eexists (set_failure (last_failure (status s2)) Buffering s2), (Err _). splits; [|done| |done].
    + unfold mbind, st_bind, rt_modify, rt_fail, rt_raise. rewrite bool_decide_true by exact Hr. done.
    + apply Hbase. constructor; [split| |exact He4].
      * apply recorder_failure; [done|unfold live; by change (phase_of s2) with (phase_of s1); rewrite Hr|done].
      * constructor; try done; [intros i Hi'; by destruct (Hnone2 i Hi')|intros i j Hi'; by destruct (Hnone2 i Hi')].
      * unfold moves in *. rewrite Hb in *. change (revision_of (set_failure (last_failure (status s2)) Buffering s2)) with (revision_of s1).
        change (phase_of (set_failure (last_failure (status s2)) Buffering s2)) with Buffering.
        rewrite Hr in He3. inversion He3; subst; apply move_stay.
Qed.

(** ** The thread *)
Lemma retry_spec d b (s : runtime) :
  recorder_inv s ->
  exists s' r, retry_save d b s = (s', Ok r) /\ recorder_inv s' /\ moves s s' /\ (phase_of s' = phase_of s \/ phase_of s' = Failed)
    /\ (save_worker s' = save_worker s /\ stopping s' = stopping s /\ committed_clips s' = committed_clips s
        /\ threads s' = threads s /\ joining s' = joining s)
    /\ (zlen (owned s) <= MAX_COMPLETED_EXPORTS -> owned s' ≡ₚ owned s).
Proof.
  intros Hi. unfold retry_save.
  destruct (run_read s disk_history_available (recorder_pipeline s Hi) disk_yields) as (s1 & x & E1 & R1).
  rewrite (run_ok _ _ _ _ _ E1). pose proof (reads_recorder s s1 R1 Hi) as Hi1. destruct (reads_side s s1 R1) as [Hside1 Hst1].
  pose proof (reads_owned s s1 R1) as Ho1. unfold save_side in Hside1. injection Hside1 as A1 A2 A3 A4 A5 A6 A7 A8.
  assert (Hmv : moves s s1) by (unfold moves, phase_of, revision_of; rewrite Hst1; apply move_stay).
  set (gone := match x with Some (inl b) => negb b | _ => false end).
  change (rt_gets (fun s : runtime => s) ≫= ?k) with (fun s : runtime => k s s). cbv beta.
  destruct (bool_decide (phase (status s1) = Saving) && negb (stopping s1) && gone) eqn:Eb; cycle 1.
  { exists s1, None. do 3 (split; [done|]). split; [by left; unfold phase_of; rewrite Hst1|]. split; [done|]. intros _. by rewrite Ho1. }
  assert (Hp1 : phase_of s1 = Saving) by (unfold phase_of; by case_bool_decide).
  assert (Hl1 : live s1 = true) by (unfold live; by rewrite Hp1).
  destruct (prepare_ram_spec d b s1 Hi1 Hl1) as (s2 & r & E2 & Hnp & [B1 B2 B3 B4] & Hr).
  unfold save_side in B2. injection B2 as C1 C2 C3 C4 C5 C6 C7 C8.
  assert (Hph : phase_of s = phase_of s1) by (unfold phase_of; by rewrite Hst1).
  assert (Hmv2 : moves s s2) by (unfold moves, revision_of in *; by rewrite Hph, <- Hst1).
  assert (Ho2 : zlen (owned s) <= MAX_COMPLETED_EXPORTS -> owned s2 ≡ₚ owned s).
  { intros Hl. rewrite <- Ho1 in *. change (zlen []) with 0 in B4. by rewrite B4, app_nil_r by lia. }
  assert (Hsame : save_worker s2 = save_worker s /\ stopping s2 = stopping s /\ committed_clips s2 = committed_clips s
      /\ threads s2 = threads s /\ joining s2 = joining s) by (rewrite C1, C3, C4, C5, C8, A1, A3, A4, A5, A8; done).
  unfold attempt. unfold mbind, st_bind. rewrite E2. destruct r as [job|e|]; [| |done].
  - eexists _, (Some (jobs s2, job)). split; [done|]. split; [by apply (recorder_same s2)|]. split; [done|].
    split; [left; unfold phase_of in *; cbn; by rewrite Hph, Hp1|]. by split.
  - exists s2, None. do 3 (split; [done|]). split; [|by split]. rewrite Hph. destruct Hr as [Hr|Hr]; [left|right]; done.
Qed.

Definition thread_rank (t : SaveThread J) : nat :=
  match t with Joining _ _ _ => 4 | Retrying _ => 3 | JoiningFallback _ _ => 2 | Reporting _ => 1 | Finished => 0 end.
Definition rank_of (s : runtime) (i : nat) : nat := match threads s !! i with Some t => thread_rank t | None => 0 end.

(** The thread goes on with something else to do. *)
Lemma continue_inv i t u (s : runtime) :
  runtime_inv s -> threads s !! i = Some t -> t <> Finished -> u <> Finished -> runtime_inv (set_thread i u s).
Proof.
  intros [Hi Hs] Ht Hnt Hnu. split; [by apply (recorder_same s)|].
  assert (Hu : forall j, unfinished (set_thread i u s) j <-> unfinished s j).
  { intros j. unfold unfinished. cbn. destruct (decide (i = j)) as [<-|Hne]; [|by rewrite list_lookup_insert_ne by done].
    rewrite list_lookup_insert_eq by (by eapply lookup_lt_Some). split; intros _; [by exists t|by exists u]. }
  destruct Hs as [H1 H2 H3 H4 H5]. constructor; try done.
  - intros Hp. destruct (H1 Hp) as [j Hj]. exists j. by apply Hu.
  - intros j Hj%Hu. by apply H2.
  - intros j k Hj%Hu Hk%Hu. by apply H3.
Qed.
Lemma rank_set i u (s : runtime) : (i < length (threads s))%nat -> rank_of (set_thread i u s) i = thread_rank u.
Proof. intros Hi. unfold rank_of. cbn. by rewrite list_lookup_insert_eq. Qed.

Lemma report_phase r (s : runtime) : phase_of (report_save r s) <> Saving.
Proof.
  unfold report_save. case_bool_decide as Hp; [|exact Hp]. destruct r as [[name|]|]; cbn; done.
Qed.
Lemma report_fields r (s : runtime) :
  threads (report_save r s) = threads s /\ joining (report_save r s) = joining s /\ save_worker (report_save r s) = save_worker s
  /\ stopping (report_save r s) = stopping s /\ rt_pipeline (report_save r s) = rt_pipeline s
  /\ completed_exports (report_save r s) = completed_exports s /\ rt_audio (report_save r s) = rt_audio s.
Proof. unfold report_save. case_bool_decide; [|done]. by destruct r as [[name|]|]. Qed.
Lemma report_clips r (s : runtime) :
  zlen (committed_clips s) <= MAX_COMMITTED_CLIP_NAMES -> zlen (committed_clips (report_save r s)) <= MAX_COMMITTED_CLIP_NAMES.
Proof.
  intros Hc. unfold report_save. case_bool_decide; [|done]. destruct r as [[name|]|]; [|done..].
  unfold push_clip. cbn. rewrite zlen_app. change (zlen [name]) with 1.
  destruct (Z.leb_spec MAX_COMMITTED_CLIP_NAMES (zlen (committed_clips s))); [|lia].
  destruct (committed_clips s); cbn; [unfold MAX_COMMITTED_CLIP_NAMES, zlen in *; cbn in *; lia|]. rewrite zlen_cons in *. lia.
Qed.
Lemma report_moves r (s : runtime) : moves s (report_save r s).
Proof.
  unfold moves, report_save. case_bool_decide as Hp; [|apply move_stay]. unfold phase_of. rewrite Hp.
  destruct r as [[name|]|]; cbn; [apply move_saved..|apply move_not_saved].
Qed.
Lemma report_recorder r (s : runtime) : recorder_inv s -> recorder_inv (report_save r s).
Proof.
  intros Hi. unfold report_save. case_bool_decide as Hp; [|done].
  assert (Hl : live s = true) by (unfold live, phase_of; by rewrite Hp).
  destruct r as [name|]; [|by apply recorder_failure].
  assert (Hi' : recorder_inv (set_failure None Buffering s)) by (by apply recorder_failure).
  destruct Hi' as [H1 H2 H3 H4 H5 H6]. destruct name; by constructor.
Qed.

Lemma thread_step_spec i r b (s : runtime) :
  runtime_inv s ->
  match save_thread_step i r b s with
  | Ok s' => unfinished s i /\ steps s s' [] /\ (rank_of s' i < rank_of s i)%nat /\ (unfinished s' i \/ phase_of s' <> Saving)
  | Err _ => ~ unfinished s i
  | Panic => False
  end.
Proof.
  intros [Hi Hs]. unfold save_thread_step. destruct (threads s !! i) as [t|] eqn:Et; cycle 1.
  { intros (t & Ht & _). by rewrite Et in Ht. }
  pose proof (lookup_lt_Some _ _ _ Et) as Hlen. assert (Hrank : rank_of s i = thread_rank t) by (unfold rank_of; by rewrite Et).
  assert (Hgo : forall u, t <> Finished -> u <> Finished -> (thread_rank u < thread_rank t)%nat ->
    unfinished s i /\ steps s (set_thread i u s) [] /\ (rank_of (set_thread i u s) i < rank_of s i)%nat
    /\ (unfinished (set_thread i u s) i \/ phase_of (set_thread i u s) <> Saving)).
  { intros u Ht Hu Hr. split; [by exists t|]. split.
    - destruct (continue_inv i t u s (conj Hi Hs) Et Ht Hu) as [H1 H2]. by apply steps_same.
    - rewrite rank_set, Hrank by done. split; [done|]. left. exists u. split; [|done]. cbn. by apply list_lookup_insert_eq. }
  destruct t as [d token job|d|token job|reported|]; cbn [thread_rank] in *.
  - apply Hgo; [done|by destruct r|]. destruct r; cbn; lia.
  - destruct (retry_spec d b s Hi) as (s' & x & E & Hi' & Hmv & Hph & (A1 & A2 & A3 & A4 & A5) & Ho). rewrite E.
    assert (Hs' : save_inv s').
    { destruct Hs as [H1 H2 H3 H4 H5]. assert (Hu : forall j, unfinished s' j <-> unfinished s j) by (intros j; unfold unfinished; by rewrite A4).
      constructor.
      - intros Hp. destruct Hph as [Hph|Hph]; [|by rewrite Hp in Hph]. destruct (H1 ltac:(by rewrite <- Hph)) as [j Hj]. exists j. by apply Hu.
      - intros j Hj%Hu. rewrite A1, A5. by apply H2.
      - intros j k Hj%Hu Hk%Hu. by apply H3.
      - by rewrite A5, A2.
      - by rewrite A3. }
    rewrite <- A4 in Et, Hlen. assert (Hgo' : forall u, u <> Finished -> (thread_rank u < 3)%nat ->
      unfinished s i /\ steps s (set_thread i u s') [] /\ (rank_of (set_thread i u s') i < rank_of s i)%nat
      /\ (unfinished (set_thread i u s') i \/ phase_of (set_thread i u s') <> Saving)).
    { intros u Hu Hr. split; [exists (Retrying d); split; [by rewrite <- A4|done]|]. split.
      - constructor; [by apply (continue_inv i (Retrying d))|exact Hmv|]. rewrite app_nil_r. change (zlen []) with 0. rewrite Z.add_0_r. exact Ho.
      - rewrite rank_set, Hrank by done. split; [done|]. left. exists u. split; [|done]. cbn. by apply list_lookup_insert_eq. }
    destruct x as [[token job]|]; apply Hgo'; cbn; try done; lia.
  - apply Hgo; [done|done|cbn; lia].
  - split; [by exists (Reporting reported)|]. destruct (report_fields reported s) as (F1 & F2 & F3 & F4 & F5 & F6 & F7).
    set (s1 := report_save reported s) in *. assert (Hp1 : phase_of s1 <> Saving) by apply report_phase.
    assert (Hu : forall j, unfinished (set_thread i Finished s1) j -> False).
    { intros j (u & Hu & Hne). cbn in Hu. rewrite F1 in Hu. destruct (decide (i = j)) as [<-|Hij].
      - rewrite list_lookup_insert_eq in Hu by done. by injection Hu as <-.
      - rewrite list_lookup_insert_ne in Hu by done. apply Hij, (sv_one s Hs); [by exists (Reporting reported)|by exists u]. }
    split; [|split; [|by right]].
    + constructor.
      * split; [by apply (recorder_same s1), report_recorder|]. constructor; try done; try (intros j Hj; by destruct (Hu j Hj)); cbn.
        -- intros j k Hj; by destruct (Hu j Hj).
        -- rewrite F2, F4. apply Hs.
        -- by apply report_clips, Hs.
      * apply report_moves.
      * intros _. unfold owned, flying. cbn. by rewrite F5, F6, app_nil_r.
    + rewrite rank_set, Hrank by (by rewrite F1). cbn. lia.
  - intros (t & Ht & Hne). rewrite Et in Ht. by injection Ht as <-.
Qed.
End Saves.
