(* ===== verification/RuntimeRuns.v ===== *)
(** The runtime as a whole: every call keeps the invariant, in any order and
    with the save's thread at any point. *)
From stdpp Require Import strings sorting.
From S2P Require Import Prelude Bytes Profiles Preferences Replay ReplayRing ReplayAudio PacketSource Spool SpoolWorker Encoder Pipeline Arith PipelineFacts PipelineTheorems Runtime RuntimeFacts RuntimeTheorems RuntimeSaves.
Local Open Scope Z_scope.

Section Runs.
Context {B S J : Type} `{!HardwareEncoderBackend B} `{!SegmentSpool S J}.
Context `{!HardwareEncoderBackendSpec B} `{!SegmentSpoolSpec S J}.
Notation pipeline := (ReplayHardwarePipeline B S).
Notation runtime := (Runtime B S J).
Notation rt A := (st runtime ReplayRuntimeError A).

(** * Reports and configuration *)
Lemma read_steps (s s' : runtime) : runtime_inv s -> reads_pipeline s s' -> steps s s' [].
Proof.
  intros [Hi Hs] Hr. destruct (reads_side s s' Hr) as [Hside Hst]. apply steps_same; [by split|by eapply reads_recorder| | | |].
  - apply (save_side_inv s); [done| |done]. unfold phase_of. by rewrite Hst.
  - by apply reads_owned.
  - unfold phase_of. by rewrite Hst.
  - unfold revision_of. by rewrite Hst.
Qed.
Lemma status_calls now (s : runtime) :
  runtime_inv s ->
  calls s (runtime_status now) [] (fun s' r => exists x, r = Ok x /\ phase x = phase_of s /\ completed_save_revision x = revision_of s
    /\ last_failure x = last_failure (status s)).
Proof.
  intros Hinv. unfold calls, runtime_status.
  destruct (run_read s pipeline_spool_stats (recorder_pipeline s (proj1 Hinv)) stats_yields) as (s1 & x & E1 & R1).
  rewrite (run_ok _ _ _ _ _ E1). pose proof (read_steps s s1 Hinv R1) as Hst. destruct (reads_side s s1 R1) as [_ Es].
  change (rt_gets (fun s : runtime => s) ≫= ?k) with (fun s : runtime => k s s). cbv beta zeta.
  destruct (if is_live _ then _ else _) as [[packets bytes] age].
  assert (Hend : forall s2 (h : ReplayRecorderHealth), (s2 = s1 \/ s2 = set_last_encoded_progress (Some now) (set_observed_packet_count
      match (match x with Some (inl y) => y | _ => None end) with Some y => stats_accepted_packets y | None => 0 end s1)) -> steps s s2 []).
  { intros s2 _ [->| ->]; [done|]. destruct Hst as [[H1 H2] H3 H4]. constructor; [|done|done].
    split; [by apply (recorder_same s1)|by apply (save_side_inv s1)]. }
  destruct (_ <? _).
  - eexists _, (Ok _). split; [done|]. split; [done|]. split; [apply (Hend _ HealthHealthy); by right|]. eexists. split; [done|]. cbn. by rewrite Es.
  - eexists _, (Ok _). split; [done|]. split; [done|]. split; [apply (Hend _ HealthHealthy); by left|]. eexists. split; [done|]. cbn. by rewrite Es.
Qed.
Lemma counters_calls (s : runtime) : runtime_inv s -> calls s diagnostic_counters [] (fun _ _ => True).
Proof.
  intros Hinv. unfold calls, diagnostic_counters.
  destruct (run_read s pipeline_spool_stats (recorder_pipeline s (proj1 Hinv)) stats_yields) as (s1 & x & E1 & R1).
  change (rt_gets ?f ≫= ?k) with (fun s : runtime => k (f s) s). cbv beta. rewrite (run_ok _ _ _ _ _ E1).
  eexists s1, (Ok _). splits; [done|done|by apply read_steps|done].
Qed.
Lemma configure_steps fresh c (s : runtime) :
  is_live (phase (fresh c)) = false -> phase (fresh c) = Inactive \/ phase (fresh c) = Unavailable ->
  runtime_inv s -> steps s (configure fresh c s) [].
Proof.
  intros Hl Hp [Hi Hs]. unfold configure. destruct (rt_pipeline s) as [p|] eqn:Ep; [apply steps_id; by split|].
  pose proof Hi as [H1 H2 H3 H4 H5 H6]. rewrite Ep in H1. constructor.
  - split.
    + constructor; try done; cbn; rewrite ?Ep; try done.
      * by rewrite H3, H1.
      * intros _. by apply H4.
      * intros Hl'. unfold live, phase_of in Hl'. cbn in Hl'. by rewrite Hl in Hl'.
      * intros Hf. unfold phase_of in Hf. cbn in Hf. destruct Hp as [Hp|Hp]; by rewrite Hp in Hf.
    + destruct Hs as [S1 S2 S3 S4 S5]. constructor; try done. cbn. intros Hf. unfold phase_of in Hf. cbn in Hf.
      destruct Hp as [Hp|Hp]; by rewrite Hp in Hf.
  - unfold moves, phase_of, revision_of. cbn. by apply move_stop.
  - intros _. unfold owned, flying. cbn. by rewrite Ep, !app_nil_r.
Qed.

(** * Start *)
Definition fresh_pipeline (p : pipeline) : Prop := at_rest p /\ pipeline_phase p = PipeBuffering /\ in_flight_inputs p = [].
Lemma start_calls c p r (s : runtime) :
  runtime_inv s -> joining s = [] -> fresh_pipeline p ->
  calls s (start_validated_pipeline c p r) [] (fun s' x => is_done x = true ->
    validation_allowed r = true /\ rt_pipeline s = None /\ phase_of s' = Buffering /\ (forall i, ~ unfinished s i)).
Proof.
  intros Hinv Hj (Hrest & Hph & Hfl). unfold calls, start_validated_pipeline.
  destruct (reap_inv s Hinv) as ([Hi Hs] & Ep & Ho & Hst & Ej & Hu & _). set (s0 := reap_finished_save s) in *.
  change ((rt_modify reap_finished_save ≫= ?k) s) with (k tt s0). cbv beta.
  assert (Hstop : forall m : string, exists s' x, rt_fail (A := unit) m s0 = (s', x) /\ x <> Panic /\ steps s s' [] /\ (is_done x = true ->
    validation_allowed r = true /\ rt_pipeline s = None /\ phase_of s' = Buffering /\ (forall i, ~ unfinished s i))).
  { intros m. exists s0, (Err (RuntimeMessage m)). splits; [done|done|apply steps_same; try done; [by unfold phase_of; rewrite Hst|by unfold revision_of; rewrite Hst]|done]. }
  unfold validate_production_readiness. destruct (validation_allowed r) eqn:Er; cbn [negb]; [|apply Hstop].
  change (lift (Ok tt) ≫= ?k) with (k tt). change (rt_gets (fun s : runtime => s) ≫= ?k) with (fun s : runtime => k s s). cbv beta.
  case_bool_decide as Hp; [apply Hstop|]. case_bool_decide as Hsv; cbn [orb]; [apply Hstop|]. case_bool_decide as Hw; [apply Hstop|].
  case_bool_decide as Hsp; cbn [negb]; [|apply Hstop].
  assert (Hp0 : rt_pipeline s0 = None) by (destruct (rt_pipeline s0); [destruct Hp; by eexists|done]).
  assert (Hw0 : save_worker s0 = None) by (destruct (save_worker s0); [destruct Hw; by eexists|done]).
  assert (Hj0 : joining s0 = []) by by rewrite Ej. pose proof (no_thread s0 Hs Hw0 Hj0) as Hno.
  pose proof (rc_pipeline s0 Hi) as Hl0. rewrite Hp0 in Hl0.
  eexists _, (Ok tt). split; [done|]. split; [done|]. split.
  - constructor.
    + split.
      * constructor; try done; cbn. apply Hi.
      * destruct Hs as [S1 S2 S3 S4 S5]. by constructor; rewrite ?Hj0.
    + unfold moves, phase_of, revision_of. rewrite <- Hst. cbn. apply move_start. exact Hl0.
    + intros _. rewrite app_nil_r, <- Ho. unfold owned, flying. cbn. by rewrite Hp0, Hfl.
  - intros _. split; [done|]. split; [by rewrite <- Ep|]. split; [done|]. intros i Hi'. apply (Hno i). by apply Hu.
Qed.

(** * Audio *)
Lemma audio_steps (s : runtime) a :
  runtime_inv s -> recording a = live s -> (live s = false -> silent a) -> steps s (set_rt_audio a s) [].
Proof. intros [Hi Hs] Hr Hq. apply steps_same; try done; [by apply recorder_audio|by apply (save_side_inv s)]. Qed.
Lemma audio_calls now x (s : runtime) : runtime_inv s -> calls s (submit_audio_packet now x) [] (fun s' r => is_done r = true -> live s = true).
Proof.
  intros Hinv. pose proof (rc_recording s (proj1 Hinv)) as Hrec. unfold calls, submit_audio_packet. rewrite Hrec.
  destruct (live s) eqn:El; cbn [negb]; [|eexists s, (Err _); splits; [done|done|by apply steps_id|done]].
  pose proof (audio_push_no_panic (buffer (rt_audio s)) x) as Hnp.
  destruct (audio_push (buffer (rt_audio s)) x) as [b [u|e|]]; [| |done].
  - eexists _, (Ok tt). splits; [done|done|apply audio_steps; [done|by rewrite El|by rewrite El]|done].
  - eexists _, (Err _). splits; [done|done|apply audio_steps; [done|by rewrite El|by rewrite El]|done].
Qed.
Lemma microphone_calls now x l (s : runtime) :
  runtime_inv s -> calls s (submit_microphone_audio now x l) [] (fun s' r => is_done r = true -> live s = true).
Proof.
  intros Hinv. pose proof (rc_recording s (proj1 Hinv)) as Hrec. unfold calls, submit_microphone_audio. rewrite Hrec.
  destruct (live s) eqn:El; cbn [negb orb]; [|eexists s, (Err _); splits; [done|done|by apply steps_id|done]].
  destruct (microphone_recording (rt_audio s)); cbn [negb]; [|eexists s, (Err _); splits; [done|done|by apply steps_id|done]].
  pose proof (audio_push_no_panic (microphone_buffer (rt_audio s)) x) as Hnp.
  destruct (audio_push (microphone_buffer (rt_audio s)) x) as [b [u|e|]]; [| |done].
  - eexists _, (Ok tt). splits; [done|done|apply audio_steps; [done|by rewrite El|by rewrite El]|done].
  - eexists _, (Err _). splits; [done|done|apply audio_steps; [done|by rewrite El|by rewrite El]|done].
Qed.
Lemma fail_calls failure (s : runtime) : runtime_inv s -> calls s (mark_failed failure) [] (fun s' r => phase_of s' = Failed).
Proof.
  intros [Hi Hs]. destruct (mark_failed_spec failure s (recorder_resting s Hi)) as (s' & E & Hf). exists s', (Ok tt). split; [done|]. split; [done|].
  split; [|apply Hf]. apply effect_steps; [done| |].
  - eapply fails_effect; [exact Hf|done..|]. intros _. by rewrite app_nil_r.
  - destruct Hf as (_ & _ & -> & _). done.
Qed.

(** * Shutdown *)
Lemma begin_shutdown_inv (s : runtime) :
  runtime_inv s -> steps s (begin_shutdown s) [] /\ (forall i, unfinished (begin_shutdown s) i <-> unfinished s i).
Proof.
  intros [Hi Hs]. assert (Hf : threads (begin_shutdown s) = threads s /\ joining (begin_shutdown s) = joining s ++ [save_worker s]
    /\ stopping (begin_shutdown s) = true /\ save_worker (begin_shutdown s) = None /\ committed_clips (begin_shutdown s) = committed_clips s
    /\ status (begin_shutdown s) = status s /\ rt_pipeline (begin_shutdown s) = rt_pipeline s
    /\ completed_exports (begin_shutdown s) = completed_exports s /\ rt_audio (begin_shutdown s) = rt_audio s).
  { unfold begin_shutdown, cancel_job. by destruct (save_cancel (set_stopping true s)). }
  destruct Hf as (F1 & F2 & F3 & F4 & F5 & F6 & F7 & F8 & F9).
  assert (Hu : forall i, unfinished (begin_shutdown s) i <-> unfinished s i) by (intros i; unfold unfinished; by rewrite F1).
  split; [|done]. destruct Hs as [S1 S2 S3 S4 S5]. apply steps_same; [by split|by apply (recorder_same s)| | | |].
  - constructor.
    + unfold phase_of. rewrite F6. intros Hp. destruct (S1 Hp) as [i Hi']. exists i. by apply Hu.
    + intros i Hi'%Hu. right. rewrite F2. apply elem_of_app. destruct (S2 i Hi') as [->|H]; [right; by left|by left].
    + intros i j Hi'%Hu Hj%Hu. by apply S3.
    + done.
    + by rewrite F5.
  - unfold owned, flying. by rewrite F7, F8.
  - unfold phase_of. by rewrite F6.
  - unfold revision_of. by rewrite F6.
Qed.

(** The last steps of [shutdown], once the pipeline has answered. *)
Definition stopped_state (failed : option ReplayPipelineError) (s : runtime) : runtime :=
  let s := set_rt_audio (set_microphone_recording false (microphone_started (rt_audio s))
             (cleared false (last_progress (rt_audio s)) (microphone_progress (rt_audio s)) (rt_audio s))) s in
  match failed with
  | Some _ => set_failure (Some EncoderFailed) Failed s
  | None => set_failure (last_failure (status s)) (if validation_allowed (backend_readiness (status s)) then Inactive else Unavailable) s
  end.
Lemma stopped_state_inv failed (s : runtime) :
  match rt_pipeline s with Some p => at_rest p /\ torn_down p | None => True end ->
  zlen (completed_exports s) <= MAX_COMPLETED_EXPORTS ->
  recorder_inv (stopped_state failed s) /\ live (stopped_state failed s) = false
  /\ match failed with Some _ => phase_of (stopped_state failed s) = Failed
     | None => phase_of (stopped_state failed s) = Inactive \/ phase_of (stopped_state failed s) = Unavailable end.
Proof.
  intros Hp Hq. assert (Hl : live (stopped_state failed s) = false).
  { unfold live, phase_of, stopped_state. destruct failed; cbn; [done|]. by destruct (validation_allowed _). }
  split; [|split; [done|]].
  - destruct failed as [e|].
    + constructor; try done. cbn. by destruct (rt_pipeline s).
    + constructor; rewrite ?Hl; try done.
      * cbn [stopped_state rt_pipeline set_failure set_status set_rt_audio]. destruct (rt_pipeline s); [by destruct Hp|done].
      * unfold phase_of. cbn. by destruct (validation_allowed _).
  - unfold phase_of, stopped_state. destruct failed; cbn; [done|]. destruct (validation_allowed _); [by left|by right].
Qed.
Lemma finish_shutdown_spec (s : runtime) :
  recorder_inv s ->
  exists s' r, finish_shutdown s = (s', r) /\ r <> Panic /\ effect s s' [] /\ live s' = false
    /\ (rt_pipeline s' = None \/ phase_of s' = Failed).
Proof.
  intros Hi. destruct (recorder_resting s Hi) as [Hr Hq]. unfold finish_shutdown.
  assert (Hend : forall failed sx, rt_pipeline sx = None \/ is_Some failed ->
    match rt_pipeline sx with Some p => at_rest p /\ torn_down p | None => True end -> zlen (completed_exports sx) <= MAX_COMPLETED_EXPORTS ->
    save_side sx = save_side s -> revision_of sx = revision_of s -> (zlen (owned s) <= MAX_COMPLETED_EXPORTS -> owned sx ≡ₚ owned s) ->
    effect s (stopped_state failed sx) [] /\ live (stopped_state failed sx) = false
    /\ (rt_pipeline (stopped_state failed sx) = None \/ phase_of (stopped_state failed sx) = Failed)).
  { intros failed sx Hnone Hp Hqx Hside Hrev Ho. destruct (stopped_state_inv failed sx Hp Hqx) as (H1 & H2 & H3). splits; [|done|].
    - constructor; [done|by destruct failed| |].
      + unfold moves. assert (Hv : revision_of (stopped_state failed sx) = revision_of s) by (rewrite <- Hrev; by destruct failed). rewrite Hv.
        destruct failed; [rewrite H3; apply move_fail|by apply move_stop].
      + rewrite app_nil_r. change (zlen []) with 0. rewrite Z.add_0_r. intros Hl. rewrite <- (Ho Hl). by destruct failed.
    - destruct failed; [by right|left]. destruct Hnone as [Hnone|[? Hnone]]; [|done]. exact Hnone. }
  destruct (rt_pipeline s) as [p|] eqn:Ep.
  - destruct Hr as [Hpi Hc].
    destruct (run_call s p pipeline_shutdown [] _ Ep Hc Hq (shutdown_yields p Hpi)) as (p' & x & s2 & fits & E1 & E2 & Ha & Hq2 & Hp2 & Hr2 & HQ & Ho).
    rewrite (run_ok _ _ _ _ _ E1), (run_ok _ _ _ _ _ E2). unfold aside in Ha. injection Ha as A1 A2 A3 A4 A5 A6 A7 A8 A9 A10 A11 A12.
    assert (Hside : save_side s2 = save_side s) by (unfold save_side; by rewrite A1, A2, A3, A4, A5, A6, A7, A8).
    assert (Hrev : revision_of s2 = revision_of s) by (unfold revision_of; by rewrite A9).
    assert (Ho' : zlen (owned s) <= MAX_COMPLETED_EXPORTS -> owned s2 ≡ₚ owned s).
    { intros Hl. destruct fits; [by rewrite Ho, app_nil_r|]. change (zlen []) with 0 in Ho. lia. }
    destruct x as [u|e].
    + cbn in HQ. destruct (Hend None (set_rt_pipeline None s2)) as (H1 & H2 & H3); try done; [by left| |].
      { intros Hl. specialize (Ho' Hl). unfold owned, flying in *. cbn. rewrite Hp2 in Ho'. cbn in Ho'. by rewrite HQ in Ho'. }
      exists (stopped_state None (set_rt_pipeline None s2)). destruct fits; eexists; (split; [done|]); by splits.
    + cbn in HQ. destruct (Hend (Some e) s2) as (H1 & H2 & H3); try done; [right; by eexists|by rewrite Hp2|].
      exists (stopped_state (Some e) s2), (Err (RuntimePipeline e)). split; [done|]. by splits.
  - destruct (Hend None (set_rt_pipeline None s)) as (H1 & H2 & H3); try done; [by left| |].
    { intros _. unfold owned, flying. cbn. by rewrite Ep. }
    exists (stopped_state None (set_rt_pipeline None s)), (Ok tt). split; [|by splits].
    unfold on_pipeline, mbind, st_bind. rewrite Ep. unfold collect_completed. rewrite Ep. done.
Qed.
Definition may_join (k : nat) (s : runtime) : bool :=
  match joining s !! k with Some (Some i) => thread_finished s i | Some None => true | None => false end.
Lemma join_inv k (s : runtime) :
  runtime_inv s -> may_join k s = true -> runtime_inv (set_joining (delete k (joining s)) s).
Proof.
  intros [Hi Hs] Hk. split; [by apply (recorder_same s)|]. destruct Hs as [S1 S2 S3 S4 S5]. constructor; try done.
  - intros i Hi'. destruct (S2 i Hi') as [H|H]; [by left|]. right. cbn. apply list_elem_of_lookup in H as [j Hj].
    destruct (decide (j = k)) as [->|Hne].
    + unfold may_join in Hk. rewrite Hj in Hk. destruct Hi' as (t & Ht & Hnt). cbn in Ht. unfold thread_finished in Hk. rewrite Ht in Hk. by destruct t.
    + apply list_elem_of_lookup. destruct (decide (j < k)%nat).
      * exists j. by rewrite list_lookup_delete_lt.
      * exists (j - 1)%nat. rewrite list_lookup_delete_ge by lia. by replace (Datatypes.S (j - 1)) with j by lia.
  - cbn. intros Hne. apply S4. intros E. apply Hne. by rewrite E.
Qed.
End Runs.
