(* ===== verification/RuntimeHistory.v ===== *)
(** Histories of the runtime: no call panics, exports come back once, a save
    settles, and a cancelled save can stop a recorder that works. *)
From stdpp Require Import strings sorting relations.
From S2P Require Import Prelude Bytes Profiles Preferences Replay ReplayRing ReplayAudio PacketSource Spool SpoolWorker Encoder Pipeline Arith PipelineFacts PipelineTheorems PipelineRuns Runtime RuntimeFacts RuntimeTheorems RuntimeSaves RuntimeRuns.
Local Open Scope Z_scope.

Section History.
Context {B S J : Type} `{!HardwareEncoderBackend B} `{!SegmentSpool S J}.
Context `{!HardwareEncoderBackendSpec B} `{!SegmentSpoolSpec S J}.
Notation pipeline := (ReplayHardwarePipeline B S).
Notation runtime := (Runtime B S J).
Notation rt A := (st runtime ReplayRuntimeError A).

(** * Calls and steps of threads *)
Inductive runtime_op :=
| RStatus (now : Z) | RCounters | RFormat (f : ReplayOutputFormat) | RUnavailable (c : ReplaySettings) | RCandidate (c : ReplaySettings)
| RStart (c : ReplaySettings) (p : pipeline) (r : ReplayBackendReadiness)
| RFrame (n : Z) (fr : DmaBufReplayFrame) | RAudio (now : Z) (x : EncodedOpusPacket)
| RMicrophone (now : Z) (x : EncodedOpusPacket) (l : MicrophoneLevels) | REnableMicrophone (now : Z)
| RReset (b : B) | RFail (failure : ReplayFailure) | RTakeExports | RTakeNames
| RSave (d : ReplayDuration) (starts spawned : bool) | RThread (i : nat) (r : job_result) (starts : bool)
| RBeginShutdown | RFinishShutdown (k : nat).
Definition returned {A} (x : runtime * outcome ReplayRuntimeError A) : outcome unit (runtime * list Z) :=
  match x with (_, Panic) => Panic | (s, _) => Ok (s, []) end.
(** The state and the exports taken; an error is a step that cannot be made. *)
Definition apply_runtime (op : runtime_op) (s : runtime) : outcome unit (runtime * list Z) :=
  match op with
  | RStatus now => returned (runtime_status now s)
  | RCounters => returned (diagnostic_counters s)
  | RFormat f => Ok (set_output_format f s, [])
  | RUnavailable c => Ok (configure_unavailable c s, [])
  | RCandidate c => Ok (configure_validation_candidate c s, [])
  | RStart c p r => returned (start_validated_pipeline c p r s)
  | RFrame n fr => returned (runtime_submit_frame n fr s)
  | RAudio now x => returned (submit_audio_packet now x s)
  | RMicrophone now x l => returned (submit_microphone_audio now x l s)
  | REnableMicrophone now => Ok (enable_microphone_recording now s, [])
  | RReset b => returned (reset_backend b s)
  | RFail failure => returned (mark_failed failure s)
  | RTakeExports => Ok (take_completed_exports s)
  | RTakeNames => Ok ((take_committed_clip_names s).1, [])
  | RSave d starts spawned => returned (runtime_save d starts spawned s)
  | RThread i r starts => s ← save_thread_step i r starts s; Ok (s, [])
  | RBeginShutdown => Ok (begin_shutdown s, [])
  | RFinishShutdown k => if may_join k s then returned (finish_shutdown (set_joining (delete k (joining s)) s)) else Err tt
  end.
(** The coordinator starts a fresh pipeline, and not while it shuts one down. *)
Definition op_ok (op : runtime_op) (s : runtime) : Prop :=
  match op with RStart _ p _ => joining s = [] /\ fresh_pipeline p | _ => True end.
Definition enters (op : runtime_op) (s : runtime) : list Z := match op with RFrame n _ => entered s n | _ => [] end.

Lemma calls_returned {A} (s : runtime) (m : rt A) new Q :
  calls s m new Q -> exists s', returned (m s) = Ok (s', []) /\ steps s s' new.
Proof. intros (s' & r & E & Hnp & Hst & _). exists s'. unfold returned. rewrite E. by destruct r. Qed.
Lemma steps_done (s s' : runtime) (taken new : list Z) :
  steps s s' new -> taken = [] ->
  runtime_inv s' /\ moves s s' /\ (zlen (owned s) + zlen new <= MAX_COMPLETED_EXPORTS -> owned s ++ new ≡ₚ taken ++ owned s').
Proof. intros [H1 H2 H3] ->. splits; [done..|]. intros Hl. by rewrite H3. Qed.
Lemma apply_spec op (s : runtime) :
  runtime_inv s -> op_ok op s ->
  match apply_runtime op s with
  | Ok (s', taken) => runtime_inv s' /\ moves s s'
      /\ (zlen (owned s) + zlen (enters op s) <= MAX_COMPLETED_EXPORTS -> owned s ++ enters op s ≡ₚ taken ++ owned s')
  | Err _ => True
  | Panic => False
  end.
Proof.
  intros Hinv Hok.
  assert (Hcall : forall A (m : rt A) new Q, calls s m new Q -> match returned (m s) with
    | Ok (s', taken) => runtime_inv s' /\ moves s s' /\ (zlen (owned s) + zlen new <= MAX_COMPLETED_EXPORTS -> owned s ++ new ≡ₚ taken ++ owned s')
    | Err _ => True | Panic => False end).
  { intros A m new Q Hc. destruct (calls_returned s m new Q Hc) as (s' & -> & Hst). by apply steps_done. }
  assert (Hpure : forall s', steps s s' [] -> runtime_inv s' /\ moves s s'
    /\ (zlen (owned s) + zlen [] <= MAX_COMPLETED_EXPORTS -> owned s ++ [] ≡ₚ [] ++ owned s')) by (intros; by apply steps_done).
  pose proof Hinv as [Hi Hs]. destruct op; cbn [apply_runtime enters].
  - by eapply Hcall, status_calls.
  - by eapply Hcall, counters_calls.
  - apply Hpure, steps_same; try done; [by apply (recorder_same s)|by apply (save_side_inv s)].
  - by apply Hpure, configure_steps; [|right|].
  - by apply Hpure, configure_steps; [|left|].
  - destruct Hok. by eapply Hcall, start_calls.
  - by eapply Hcall, frame_calls.
  - by eapply Hcall, audio_calls.
  - by eapply Hcall, microphone_calls.
  - apply Hpure, audio_steps; [done|apply Hi|apply Hi].
  - by eapply Hcall, reset_calls.
  - by eapply Hcall, fail_calls.
  - split; [|split; [apply move_stay|]].
    + split; [|by apply (save_side_inv s)]. destruct Hi. by constructor.
    + intros _. unfold owned, flying. cbn. by rewrite app_nil_r.
  - apply Hpure, steps_same; try done; [by apply (recorder_same s)|]. destruct Hs as [S1 S2 S3 S4 S5]. by constructor.
  - by eapply Hcall, save_calls.
  - pose proof (thread_step_spec i r starts s Hinv) as H. destruct (save_thread_step i r starts s) as [s'|e|]; [|done..]. cbn. destruct H as (_ & H & _). by apply Hpure.
  - apply Hpure, begin_shutdown_inv, Hinv.
  - destruct (may_join k s) eqn:Ek; [|done]. pose proof (join_inv k s Hinv Ek) as [Hi1 Hs1]. set (s1 := set_joining _ s) in *.
    destruct (finish_shutdown_spec s1 Hi1) as (s' & r & E & Hnp & He & Hl & _).
    assert (Hst : steps s1 s' []).
    { apply effect_steps; [done..|]. intros Hp. unfold live in Hl. by rewrite Hp in Hl. }
    rewrite E. destruct r as [[]|e|]; [| |done]; by apply (steps_done s1).
Qed.

(** ** Runs *)
(** A step that cannot be made changes nothing.  [None] is a panic. *)
Fixpoint runtime_run (ops : list runtime_op) (s : runtime) : option (runtime * list Z * list Z) :=
  match ops with
  | [] => Some (s, [], [])
  | op :: ops =>
      '(s1, taken) ← match apply_runtime op s with Ok x => Some x | Err _ => Some (s, []) | Panic => None end;
      '(s', more, entered) ← runtime_run ops s1;
      Some (s', taken ++ more, (match apply_runtime op s with Ok _ => enters op s | _ => [] end) ++ entered)
  end.
Fixpoint run_ok_ops (ops : list runtime_op) (s : runtime) : Prop :=
  match ops with
  | [] => True
  | op :: ops => op_ok op s /\ match apply_runtime op s with Ok (s1, _) => run_ok_ops ops s1 | _ => run_ok_ops ops s end
  end.
(** At most [k] frames are submitted before the exports are next taken, and
    three between two times. *)
Fixpoint paced (k : nat) (ops : list runtime_op) : Prop :=
  match ops with
  | [] => True
  | RFrame _ _ :: ops => match k with O => False | Datatypes.S k => paced k ops end
  | RTakeExports :: ops => paced 3 ops
  | _ :: ops => paced k ops
  end.

Lemma flying_bound (s : runtime) : runtime_inv s -> zlen (flying s) <= 5.
Proof.
  intros [Hi _]. unfold flying. destruct (recorder_resting s Hi) as [Hr _]. destruct (rt_pipeline s) as [p|]; [|done].
  destruct Hr as [[_ [Hh _] _] Hc]. unfold held in Hh. by rewrite Hc in Hh.
Qed.
Lemma perm_zlen {A} (l k : list A) : l ≡ₚ k -> zlen l = zlen k.
Proof. intros H. unfold zlen. by rewrite H. Qed.
Lemma entered_bound (s : runtime) n : zlen (entered s n) <= 1.
Proof. unfold entered. destruct (rt_pipeline s) as [p|]; [|done]. by destruct (accepts p n). Qed.

Lemma run_spec ops (s : runtime) :
  runtime_inv s -> run_ok_ops ops s ->
  exists s' taken entered, runtime_run ops s = Some (s', taken, entered) /\ runtime_inv s'
    /\ rtc recorder_move (phase_of s, revision_of s) (phase_of s', revision_of s').
Proof.
  revert s. induction ops as [|op ops IH]; intros s Hinv Hok; cbn [runtime_run run_ok_ops] in *.
  { exists s, [], []. splits; [done..|apply rtc_refl]. }
  destruct Hok as [Hop Hok]. pose proof (apply_spec op s Hinv Hop) as Hsp. destruct (apply_runtime op s) as [[s1 taken]|e|]; [| |done].
  - destruct Hsp as (Hinv1 & Hmv & _). destruct (IH s1 Hinv1 Hok) as (s' & more & ent & E & Hinv' & Hrtc). cbn. rewrite E. cbn.
    eexists s', _, _. split; [done|]. split; [done|]. by eapply rtc_l.
  - destruct (IH s Hinv Hok) as (s' & more & ent & E & Hinv' & Hrtc). cbn. rewrite E. cbn. eexists s', _, _. by splits.
Qed.
Lemma paced_spec ops (s : runtime) k s' taken accepted :
  runtime_inv s -> run_ok_ops ops s -> paced k ops -> zlen (owned s) + Z.of_nat k <= MAX_COMPLETED_EXPORTS ->
  runtime_run ops s = Some (s', taken, accepted) -> owned s ++ accepted ≡ₚ taken ++ owned s'.
Proof.
  revert s k taken accepted. induction ops as [|op ops IH]; intros s k taken accepted Hinv Hok Hpace Hl; cbn [runtime_run run_ok_ops] in *.
  { intros [= <- <- <-]. by rewrite app_nil_r. }
  destruct Hok as [Hop Hok]. pose proof (apply_spec op s Hinv Hop) as Hsp.
  destruct (apply_runtime op s) as [[s1 now]|e|] eqn:Ea; [| |done]; cbn.
  - destruct (runtime_run ops s1) as [[[sx more] ent]|] eqn:Er; [|done]. cbn. intros [= <- <- <-]. destruct Hsp as (Hinv1 & _ & Ho).
    assert (Hfit : zlen (owned s) + zlen (enters op s) <= MAX_COMPLETED_EXPORTS
      /\ exists k', paced k' ops /\ zlen (owned s1) + Z.of_nat k' <= MAX_COMPLETED_EXPORTS).
    { assert (Hkeep : op <> RTakeExports -> (forall n fr, op <> RFrame n fr) -> enters op s = [] /\ paced k ops).
      { intros H1 H2. destruct op; try done. by destruct (H2 n fr). }
      assert (Hsame : op <> RTakeExports -> (forall n fr, op <> RFrame n fr) -> zlen (owned s) + zlen (enters op s) <= MAX_COMPLETED_EXPORTS
        /\ exists k', paced k' ops /\ zlen (owned s1) + Z.of_nat k' <= MAX_COMPLETED_EXPORTS).
      { intros H1 H2. destruct (Hkeep H1 H2) as [He Hp]. rewrite He in *. change (zlen []) with 0 in *. split; [lia|]. exists k. split; [done|].
        specialize (Ho ltac:(lia)). apply perm_zlen in Ho. rewrite app_nil_r, zlen_app in Ho. pose proof (zlen_nonneg now). lia. }
      destruct op; try (apply Hsame; [done|by intros]).
      - cbn [paced] in Hpace. destruct k as [|k]; [done|]. cbn [enters] in *. pose proof (entered_bound s n). split; [lia|]. exists k. split; [done|].
        specialize (Ho ltac:(lia)). apply perm_zlen in Ho. rewrite !zlen_app in Ho. pose proof (zlen_nonneg now). lia.
      - cbn in Ea. injection Ea as <- <-. split; [change (zlen (enters RTakeExports s)) with 0; lia|]. exists 3%nat. split; [exact Hpace|].
        change (owned (set_completed_exports [] s)) with (flying s). pose proof (flying_bound s Hinv). unfold MAX_COMPLETED_EXPORTS. lia. }
    destruct Hfit as (Hfit & k' & Hp' & Hl'). specialize (Ho Hfit). rewrite (assoc_L app), Ho, <- !(assoc_L app). apply Permutation_app_head.
    by eapply IH.
  - destruct (runtime_run ops s) as [[[sx more] ent]|] eqn:Er; [|done]. cbn. intros [= <- <- <-]. eapply IH; try done.
    destruct op; try done. cbn in Ea. by destruct (runtime_submit_frame n fr s) as [? [| |]].
Qed.

(** * One save at a time *)
Lemma excluded (s : runtime) i : save_inv s -> unfinished s i ->
  stopping s = true \/ exists j, save_worker s = Some j /\ thread_finished s j = false.
Proof.
  intros Hs Hi. destruct (sv_owner s Hs i Hi) as [Hw|Hj].
  - right. exists i. split; [done|]. destruct Hi as (t & Ht & Hne). unfold thread_finished. rewrite Ht. by destruct t.
  - left. apply (sv_stopping s Hs). intros E. rewrite E in Hj. by apply elem_of_nil in Hj.
Qed.

(** C12: While the thread of a save is at work, another save is refused with an
    error and leaves the status as it is, also when the recorder has failed
    or the runtime is shutting down meanwhile; and no pipeline can be started
    unless a shutdown is under way. *)
Theorem one_save_at_a_time (s : runtime) i d starts spawned c p r :
  runtime_inv s -> unfinished s i ->
  (exists e, (runtime_save d starts spawned s).2 = Err e /\ status (runtime_save d starts spawned s).1 = status s
     /\ threads (runtime_save d starts spawned s).1 = threads s)
  /\ (joining s = [] -> exists e, (start_validated_pipeline c p r s).2 = Err e /\ status (start_validated_pipeline c p r s).1 = status s).
Proof.
  intros Hinv Hu. destruct (reap_inv s Hinv) as ([Hi Hs] & _ & _ & Hst & Hj & Hun & Hw). set (s0 := reap_finished_save s) in *.
  assert (Hth : threads s0 = threads s) by (unfold s0, reap_finished_save; by repeat case_match).
  assert (Hu0 : unfinished s0 i) by by apply Hun. split.
  - unfold runtime_save. change ((rt_modify reap_finished_save ≫= ?k) s) with (k tt s0).
    change (rt_gets (fun s : runtime => s) ≫= ?k) with (fun s : runtime => k s s). cbv beta.
    assert (E : stopping s0 || bool_decide (is_Some (save_worker s0)) = true).
    { destruct (excluded s0 i Hs Hu0) as [->|(j & -> & _)]; [done|]. by rewrite orb_true_r. }
    rewrite E. eexists. by splits.
  - intros Hj0. unfold start_validated_pipeline. change ((rt_modify reap_finished_save ≫= ?k) s) with (k tt s0). cbv beta.
    assert (Hsw : save_worker s0 = Some i).
    { destruct (sv_owner s0 Hs i Hu0) as [?|Hin]; [done|]. rewrite Hj, Hj0 in Hin. by apply elem_of_nil in Hin. }
    unfold validate_production_readiness. destruct (negb (validation_allowed r)); [by eexists|].
    change (lift (Ok tt) ≫= ?k) with (k tt). change (rt_gets (fun s : runtime => s) ≫= ?k) with (fun s : runtime => k s s). cbv beta.
    rewrite Hsw. case_bool_decide; [by eexists|]. rewrite (bool_decide_true (is_Some (Some i))) by by eexists. rewrite orb_true_r. by eexists.
Qed.

(** * Every save settles *)
(** The thread [i] alone, the results of its jobs, and whether they start, as
    given. *)
Fixpoint thread_run (rs : list (job_result * bool)) (i : nat) (s : runtime) : runtime :=
  match rs with
  | [] => s
  | (r, starts) :: rs => match save_thread_step i r starts s with Ok s' => thread_run rs i s' | _ => s end
  end.
Lemma thread_run_spec rs i (s : runtime) :
  runtime_inv s -> unfinished s i -> (rank_of s i <= length rs)%nat ->
  runtime_inv (thread_run rs i s) /\ phase_of (thread_run rs i s) <> Saving /\ ~ unfinished (thread_run rs i s) i.
Proof.
  revert s. induction rs as [|[r b] rs IH]; intros s Hinv Hu Hr.
  { exfalso. destruct Hu as (t & Ht & Hne). unfold rank_of in Hr. rewrite Ht in Hr. by destruct t; cbn in Hr; try lia. }
  cbn [thread_run length] in *. pose proof (thread_step_spec i r b s Hinv) as H. destruct (save_thread_step i r b s) as [s'|e|]; [|done..].
  destruct H as (_ & [Hinv' _ _] & Hrank & Hend).
  destruct (threads s' !! i) as [t|] eqn:Et.
  - destruct (decide (rank_of s' i = 0%nat)) as [H0|H0].
    + assert (Hno : ~ unfinished s' i). { intros (u & Hu' & Hne). unfold rank_of in H0. rewrite Hu' in H0. by destruct u. }
      assert (Erun : thread_run rs i s' = s').
      { destruct rs as [|[r' b'] rs]; [done|]. cbn. pose proof (thread_step_spec i r' b' s' Hinv') as H'. destruct (save_thread_step i r' b' s'); [|done..].
        by destruct H' as [? _]. }
      rewrite Erun. splits; [done| |done]. by destruct Hend.
    + apply IH; [done| |lia]. exists t. split; [done|]. intros ->. unfold rank_of in H0. by rewrite Et in H0.
  - assert (Hno : ~ unfinished s' i) by (intros (u & Hu' & _); by rewrite Et in Hu').
    assert (Erun : thread_run rs i s' = s').
    { destruct rs as [|[r' b'] rs]; [done|]. cbn. unfold save_thread_step. by rewrite Et. }
    rewrite Erun. splits; [done| |done]. by destruct Hend.
Qed.

(** C11: A save settles: whenever the phase is Saving there is one thread at
    work, and four steps of it, whatever the results of its jobs, leave no
    thread at work and a phase other than Saving. *)
Theorem save_settles (s : runtime) rs :
  runtime_inv s -> phase_of s = Saving -> length rs = 4%nat ->
  exists i, unfinished s i /\ let s' := thread_run rs i s in
    runtime_inv s' /\ phase_of s' <> Saving /\ ~ unfinished s' i.
Proof.
  intros Hinv Hp Hl. destruct (sv_saving s (proj2 Hinv) Hp) as [i Hi]. exists i. split; [done|]. apply thread_run_spec; [done..|].
  rewrite Hl. unfold rank_of. destruct (threads s !! i) as [[]|]; cbn; lia.
Qed.

(** * Histories *)
Definition new_runtime (c : ReplaySettings) : runtime := runtime_unavailable c.
Lemma new_runtime_inv c : runtime_inv (new_runtime c).
Proof.
  split.
  - by constructor.
  - assert (Hno : forall i, ~ unfinished (new_runtime c) i) by (intros i (t & Ht & _); cbn in Ht; by rewrite lookup_nil in Ht).
    constructor; try done; [intros i Hi; by destruct (Hno i)|intros i j Hi; by destruct (Hno i)].
Qed.


(** C13: If at most three frames are submitted between two takes of the finished
    exports, every accepted export is returned exactly once or still owned
    by the queue or the pipeline, through failures, resets and shutdowns. *)
Theorem exports_returned_once c ops s taken accepted :
  run_ok_ops ops (new_runtime c) -> paced 3 ops -> runtime_run ops (new_runtime c) = Some (s, taken, accepted) ->
  accepted ≡ₚ taken ++ owned s.
Proof. intros Hok Hp E. by apply (paced_spec ops (new_runtime c) 3 s taken accepted (new_runtime_inv c)). Qed.
(** * A save that stops a recorder *)
Definition nothing_encoded : HardwareEncodeOutput := {| batch := {| batch_packets := [] |}; Encoder.completed_inputs := [] |}.
Lemma empty_drain (p : pipeline) b b' :
  flow_phase (flow p) = Running -> backend p = Some b -> drain b = (b', inl nothing_encoded) -> spool_degraded p = true ->
  exists n, call_backend drain p = (set_encoded_packets_total n (set_flow (flow p) (set_backend (Some b') p)), Ok tt).
Proof.
  intros Hf Hb Hd Hdeg. unfold call_backend. rewrite Hb, Hd. unfold accept_encoded, push_encoded, push_to_flow, push_batch, mbind, st_bind.
  cbn. rewrite bool_decide_true by done. cbn. rewrite Hdeg. destruct (spool p); by eexists.
Qed.
Lemma recent_empty d f t starts (p : pipeline) b b' :
  pipeline_inv p -> pipeline_phase p = PipeBuffering -> packets (flow_ring (flow p)) = [] -> backend p = Some b ->
  drain b = (b', inl nothing_encoded) -> spool_degraded p = true ->
  (save_recent_replay_as_with_audio_tracks d f t starts p).2 = Err NoEncodedFrames.
Proof.
  intros Hi Hph Hring Hb Hd Hdeg. destruct (inv_running p Hi Hph) as [Hr Hl].
  unfold save_recent_replay_as_with_audio_tracks, when_buffering. rewrite bool_decide_true by done.
  destruct (empty_drain p b b' (rn_flow p Hr) Hb Hd Hdeg) as [n E]. rewrite (run_ok _ _ _ _ _ E), run_gets.
  cbn [flow set_encoded_packets_total set_flow]. rewrite snapshot_counted by apply Hr. rewrite Hring. cbn [expect]. by rewrite run_lift.
Qed.

(** C14: When the save in flight was cancelled by a reset (so its job fails) and
    the disk history is not available, the section that prepares the save
    again from memory finds an empty ring, and fails the recorder: the phase
    becomes Failed although the pipeline was buffering and healthy. *)
Theorem cancelled_save_stops_recorder (s : runtime) i d r starts p b b' :
  runtime_inv s -> phase_of s = Saving -> stopping s = false -> threads s !! i = Some (Retrying d) ->
  rt_pipeline s = Some p -> spool_degraded p = true -> packets (flow_ring (flow p)) = [] ->
  backend p = Some b -> drain b = (b', inl nothing_encoded) ->
  pipeline_phase p = PipeBuffering
  /\ exists s', save_thread_step i r starts s = Ok s' /\ phase_of s' = Failed /\ live s' = false
     /\ (rt_pipeline s' = None \/ teardown_incomplete s' = true).
Proof.
  intros Hinv Hph Hstop Ht Hp Hdeg Hring Hb Hd. pose proof Hinv as [Hi Hs].
  assert (Hl : live s = true) by (unfold live; by rewrite Hph).
  pose proof (rc_pipeline s Hi) as Hpl. rewrite Hp, Hl in Hpl. destruct Hpl as [[Hpi Hc] Hbuf]. split; [done|].
  assert (E0 : on_pipeline (disk_history_available (E := ReplayPipelineError)) s = (s, Ok (Some (inl false)))).
  { unfold on_pipeline, disk_history_available. rewrite Hp, Hdeg. do 2 f_equal. destruct s; cbn in *. by rewrite Hp. }
  destruct (recent_yields p d (output_format s) (audio_tracks (rt_audio s)) starts Hpi Hbuf) as (p' & r' & E1 & Hnp & Hi' & Hh & _).
  pose proof (recent_empty d (output_format s) (audio_tracks (rt_audio s)) starts p b b' Hpi Hbuf Hring Hb Hd Hdeg) as Er. rewrite E1 in Er. cbn in Er. subst r'.
  destruct (run_call s p (save_recent_replay_as_with_audio_tracks d (output_format s) (audio_tracks (rt_audio s)) starts) []
    (fun _ x => x = Err NoEncodedFrames) Hp Hc (rc_queue s Hi)) as (q & x & s2 & fits & E2 & E3 & Ha & Hq2 & Hp2 & Hr2 & HQ & _).
  { exists p', (Err NoEncodedFrames). by splits. }
  assert (Hfail : exists s3 e, prepare_ram_save d starts s = (s3, Err e) /\ fails s2 s3).
  { destruct x as [a|e]; [done|]. injection HQ as ->. assert (Hrest : resting s2) by (split; [by rewrite Hp2|done]).
    unfold prepare_ram_save. change (rt_gets ?f ≫= ?k) with (fun s : runtime => k (f s) s). cbv beta iota.
    rewrite (run_ok _ _ _ _ _ E2). unfold after_save. rewrite (run_ok _ _ _ _ _ E3). destruct fits; cbn [negb].
    - destruct (mark_failed_spec (replay_failure NoEncodedFrames) s2 Hrest) as (s3 & E4 & Hf). exists s3, (RuntimePipeline NoEncodedFrames).
      split; [|done]. by rewrite (run_ok _ _ _ _ _ E4).
    - destruct (run_queue_exceeded (A := RamJob) s2 Hrest) as (s3 & E4 & Hf). by exists s3, (RuntimeMessage "Instant Replay completion queue exceeded its fixed bound"). }
  destruct Hfail as (s3 & e & E4 & Hf3 & _ & Hp3 & _). unfold save_thread_step. rewrite Ht. unfold retry_save.
  rewrite (run_ok _ _ _ _ _ E0). change (rt_gets (fun s : runtime => s) ≫= ?k) with (fun s : runtime => k s s). cbv beta.
  unfold phase_of in Hph. rewrite Hph, Hstop. cbn [negb andb]. rewrite bool_decide_true by done. cbn [andb].
  unfold attempt, mbind, st_bind. rewrite E4. eexists. split; [done|]. split; [exact Hp3|].
  assert (Hl3 : live s3 = false) by (unfold live; by rewrite Hp3). split; [exact Hl3|].
  pose proof (rc_pipeline s3 Hf3) as Hpl3. cbn. destruct (rt_pipeline s3) as [p3|] eqn:E3p; [right|by left]. rewrite Hl3 in Hpl3.
  unfold teardown_incomplete. cbn. rewrite E3p. apply bool_decide_eq_true, Hpl3.
Qed.
End History.

(** * A recorder whose disk history is gone *)
Notation demo_runtime := (Runtime DemoEncoder DemoSpool unit).
Lemma inv_degrade {B S J} `{!HardwareEncoderBackend B} `{!SegmentSpool S J} `{!HardwareEncoderBackendSpec B} `{!SegmentSpoolSpec S J}
    (p : ReplayHardwarePipeline B S) : pipeline_inv p -> pipeline_inv (degrade_spool p).
Proof.
  intros [Hf Hh Hp]. split; [done..|]. cbn. destruct (pipeline_phase p); try done. destruct Hp as (H1 & H2 & H3 & H4 & H5).
  splits; try done. apply log_inv_degrade.
Qed.
Definition demo_recorder : ReplayHardwarePipeline DemoEncoder DemoSpool := degrade_spool (with_spool demo_queue demo_pipeline).
Lemma demo_recorder_fresh : fresh_pipeline demo_recorder.
Proof.
  destruct (pipeline_start demo_session_settings demo_hardware demo_pipeline demo_queue demo_opens demo_queue_empty) as [Hi Hc].
  split; [|by split]. split; [by apply inv_degrade|done].
Qed.
(** Three frames, a save from memory, a reset that cancels it, and its job
    that ends without a clip. *)
Definition demo_until_save : list runtime_op :=
  [RStart demo_session_settings demo_recorder fully_verified; RFrame 1 (demo_frame 1); RTakeExports; RFrame 2 (demo_frame 2);
   RFrame 3 (demo_frame 3); RSave Seconds15 true true].
Definition demo_until_retry : list runtime_op := demo_until_save ++ [RReset demo_hardware; RThread 0 NotCommitted true].
Definition demo_after (ops : list runtime_op) : demo_runtime :=
  match runtime_run ops (new_runtime demo_session_settings) with Some (s, _, _) => s | None => new_runtime demo_session_settings end.
Lemma demo_ops_ok : run_ok_ops demo_until_retry (new_runtime (S := DemoSpool) (J := unit) demo_session_settings).
Proof. split; [split; [reflexivity|apply demo_recorder_fresh]|]. vm_compute. tauto. Qed.
Lemma demo_save_ok : run_ok_ops demo_until_save (new_runtime (S := DemoSpool) (J := unit) demo_session_settings).
Proof. split; [split; [reflexivity|apply demo_recorder_fresh]|]. vm_compute. tauto. Qed.
Lemma demo_after_inv ops :
  run_ok_ops ops (new_runtime (S := DemoSpool) (J := unit) demo_session_settings) -> runtime_inv (demo_after ops).
Proof.
  intros Hok. destruct (run_spec ops (new_runtime (S := DemoSpool) (J := unit) demo_session_settings) (new_runtime_inv _) Hok)
    as (s & taken & acc & E & Hi & _). unfold demo_after. by rewrite E.
Qed.
Definition demo_saving : demo_runtime := demo_after demo_until_save.
Definition demo_cancelled : demo_runtime := demo_after demo_until_retry.

(** Without the condition on shutdowns a second save starts while the thread of
    the first is at work: a shutdown begins during a save, an encoder failure
    meanwhile frees the pipeline, and starting another one clears [stopping]. *)
Definition demo_start_in_shutdown : list runtime_op :=
  demo_until_save ++ [RBeginShutdown; RFail EncoderFailed; RStart demo_session_settings demo_recorder fully_verified;
    RFrame 4 (demo_frame 1); RTakeExports; RFrame 5 (demo_frame 2); RFrame 6 (demo_frame 3); RSave Seconds15 true true].
Lemma start_in_shutdown_saves_twice :
  unfinished (demo_after demo_start_in_shutdown) 0%nat /\ unfinished (demo_after demo_start_in_shutdown) 1%nat
  /\ ~ run_ok_ops demo_start_in_shutdown (new_runtime (S := DemoSpool) (J := unit) demo_session_settings).
Proof.
  assert (H0 : unfinished (demo_after demo_start_in_shutdown) 0%nat) by (vm_compute; eexists; split; [reflexivity|discriminate]).
  assert (H1 : unfinished (demo_after demo_start_in_shutdown) 1%nat) by (vm_compute; eexists; split; [reflexivity|discriminate]).
  split; [exact H0|split; [exact H1|]]. intros Hok. pose proof (sv_one _ (proj2 (demo_after_inv _ Hok)) _ _ H0 H1) as E. discriminate E.
Qed.

Lemma exports_returned_once_witness : [1; 2; 3] ≡ₚ [1] ++ owned demo_cancelled.
Proof.
  apply (exports_returned_once (S := DemoSpool) (J := unit) demo_session_settings demo_until_retry demo_cancelled [1] [1; 2; 3] demo_ops_ok).
  - vm_compute. exact I.
  - vm_compute. reflexivity.
Defined.
Lemma one_save_at_a_time_witness :
  exists e, (runtime_save Seconds30 true true demo_saving).2 = Err e /\ status (runtime_save Seconds30 true true demo_saving).1 = status demo_saving
    /\ threads (runtime_save Seconds30 true true demo_saving).1 = threads demo_saving.
Proof.
  assert (Hu : unfinished demo_saving 0%nat) by (vm_compute; eexists; split; [reflexivity|discriminate]).
  exact (proj1 (one_save_at_a_time demo_saving 0%nat Seconds30 true true demo_session_settings demo_recorder fully_verified
    (demo_after_inv _ demo_save_ok) Hu)).
Defined.
Lemma save_settles_witness :
  exists i, unfinished demo_saving i
    /\ phase_of (thread_run [(NotCommitted, true); (NotCommitted, true); (Committed (Some "clip.mkv"%string), true); (NotCommitted, false)] i demo_saving) <> Saving.
Proof.
  destruct (save_settles demo_saving [(NotCommitted, true); (NotCommitted, true); (Committed (Some "clip.mkv"%string), true); (NotCommitted, false)]
    (demo_after_inv _ demo_save_ok) ltac:(vm_compute; reflexivity) eq_refl) as (i & Hi & _ & Hp & _).
  exists i. split; [exact Hi|exact Hp].
Defined.
Lemma cancelled_save_stops_recorder_witness :
  live demo_cancelled = true /\ exists s', save_thread_step 0 NotCommitted true demo_cancelled = Ok s' /\ phase_of s' = Failed.
Proof.
  split; [vm_compute; reflexivity|]. destruct (rt_pipeline demo_cancelled) as [p|] eqn:Ep; [|vm_compute in Ep; discriminate Ep].
  assert (Hp : Some p = rt_pipeline demo_cancelled) by (symmetry; exact Ep). vm_compute in Hp. injection Hp as Hp.
  destruct (cancelled_save_stops_recorder demo_cancelled 0 Seconds15 NotCommitted true p demo_hardware demo_hardware
    (demo_after_inv _ demo_ops_ok) ltac:(vm_compute; reflexivity) ltac:(vm_compute; reflexivity) ltac:(vm_compute; reflexivity) Ep
    ltac:(rewrite Hp; reflexivity) ltac:(rewrite Hp; reflexivity) ltac:(rewrite Hp; reflexivity) eq_refl) as (_ & s' & E & Hf & _).
  exists s'. split; [exact E|exact Hf].
Defined.
