(* ===== verification/Control.v ===== *)
(** The control socket of the replay (crates/redunar-daemon/src/replay_control.rs)
    and the coordinator's methods that its commands call
    (crates/redunar-daemon/src/game_session.rs): the menu, the recorder, the
    preference file and the block shared with the game under one owner. *)
From stdpp Require Import strings.
From S2P Require Import Prelude Bytes Text Profiles Overlay OverlayShare Preferences Replay Menu CaptureProtocol CaptureModel Encoder Pipeline Runtime.
Local Open Scope Z_scope.

Definition MAX_COMMAND_BYTES : Z := 64.

(** An error is a message, an error of the recorder, or one of the preferences. *)
Inductive control_error := ControlMessage (m : string) | ControlRuntime (e : ReplayRuntimeError) | ControlPreferences (e : ReplayPreferencesError).
Notation cerr m := (Err (ControlMessage m)).

(** * Reading a command *)
(** What the reads of one byte return: when the list ends the peer has closed. *)
Inductive read_event := ReadByte (b : Z) | ReadFailed.
(** The loop; it reads while the command has at most [MAX_COMMAND_BYTES] bytes. *)
Fixpoint read_bytes (command : bytes) (input : list read_event) : list read_event * outcome control_error (option bytes) :=
  match input with
  | [] => ([], if (length command =? 0)%nat then Ok None else cerr "incomplete Replay command"%string)
  | ReadFailed :: input => (input, cerr "command read failed"%string)
  | ReadByte b :: input =>
      let command := command ++ [b] in
      if (b =? 10) || negb (zlen command <=? MAX_COMMAND_BYTES) then (input, Ok (Some command)) else read_bytes command input
  end.
Definition read_command (input : list read_event) : list read_event * outcome control_error (option bytes) :=
  let '(input, r) := read_bytes [] input in
  (input,
   c ← r;
   match c with
   | None => Ok None
   | Some command =>
       if (length command =? 0)%nat || (MAX_COMMAND_BYTES <? zlen command) || negb (bool_decide (last command = Some 10))
       then cerr "invalid Replay command length"%string else Ok (Some command)
   end).

(** * Commands *)
Inductive ReplayControlCommand :=
| SaveCommand (d : ReplayDuration) | ToggleMenu | MoveCommand (dx dy : Z) | ButtonCommand (pressed : bool) | EscapeCommand | PingCommand.
Definition replay_duration (seconds : Z) : option ReplayDuration :=
  if seconds =? 15 then Some Seconds15 else if seconds =? 30 then Some Seconds30 else if seconds =? 60 then Some Seconds60
  else if seconds =? 120 then Some Seconds120 else if seconds =? 180 then Some Seconds180 else if seconds =? 300 then Some Seconds300
  else if seconds =? 600 then Some Seconds600 else if seconds =? 900 then Some Seconds900 else None.
Definition in_delta (v : option Z) : bool := match v with Some v => (-4096 <=? v) && (v <=? 4096) | None => false end.
Definition parse_move (value : bytes) : outcome control_error ReplayControlCommand :=
  let values := split_on (Z.eqb 32) value in
  let dx := v ← head values; parse_signed I32_MAX 10 v in
  let dy := v ← values !! 1%nat; parse_signed I32_MAX 10 v in
  if bool_decide (is_Some (values !! 2%nat)) || negb (in_delta dx) || negb (in_delta dy) then cerr "Replay pointer delta is invalid"%string
  else Ok (MoveCommand (default 0 dx) (default 0 dy)).
Definition parse_save (line : bytes) : outcome control_error ReplayControlCommand :=
  seconds ← ok_or (value ← strip_prefix (ascii_bytes "SAVE ") line; from_str_radix U16_MAX 10 value) (ControlMessage "invalid Replay command");
  d ← ok_or (replay_duration seconds) (ControlMessage "unsupported Replay duration");
  Ok (SaveCommand d).
Definition parse_command (bs : bytes) : outcome control_error ReplayControlCommand :=
  if negb (utf8_valid bs) then cerr "command is not UTF-8"%string
  else
    line ← ok_or (strip_suffix [10] bs) (ControlMessage "invalid Replay command");
    if bytes_eqb line (ascii_bytes "MENU TOGGLE") then Ok ToggleMenu
    else if bytes_eqb line (ascii_bytes "MENU ESCAPE") then Ok EscapeCommand
    else if bytes_eqb line (ascii_bytes "MENU PING") then Ok PingCommand
    else match strip_prefix (ascii_bytes "MENU BUTTON ") line with
         | Some value =>
             if bytes_eqb value (ascii_bytes "0") then Ok (ButtonCommand false)
             else if bytes_eqb value (ascii_bytes "1") then Ok (ButtonCommand true)
             else cerr "invalid Replay button state"%string
         | None =>
             match strip_prefix (ascii_bytes "MENU MOVE ") line with
             | Some value => parse_move value
             | None => parse_save line
             end
         end.

(** * The coordinator *)
Inductive GameSessionPhase := SessionIdle | SessionLaunching | SessionRunning | SessionEnding | SessionEnded.
#[global] Instance GameSessionPhase_eq_dec : EqDecision GameSessionPhase.
Proof. solve_decision. Defined.
(** What the methods read of the attached capture, and its shared file. *)
Record CaptureView := { view_phase : CapturePhase; view_api : option CaptureApi; view_share : Share }.
Record Coordinator (B S J : Type) := {
  co_runtime : Runtime B S J;
  co_menu : ReplayMenuState;
  co_preferences : ReplayPreferences;
  co_file : pref_entry;
  co_menu_revision : Z;
  co_phase : GameSessionPhase;
  co_capture : option CaptureView;
  co_noticed : Z;
}.
Arguments co_runtime {B S J} _.
Arguments co_menu {B S J} _.
Arguments co_preferences {B S J} _.
Arguments co_file {B S J} _.
Arguments co_menu_revision {B S J} _.
Arguments co_phase {B S J} _.
Arguments co_capture {B S J} _.
Arguments co_noticed {B S J} _.
(** What the world answers during a call: the clock, whether the thread of a job
    from memory and the one that waits for a job can be started, and the calls that replace the preference file. *)
Record environment := { env_now : Z; env_starts : bool; env_spawned : bool; env_io : save_io }.

Section Control.
Context {B S J : Type} `{!HardwareEncoderBackend B} `{!SegmentSpool S J}.
Notation coordinator := (Coordinator B S J).
Notation co A := (st coordinator control_error A).

Definition set_runtime (v : Runtime B S J) (c : coordinator) : coordinator := {|
  co_runtime := v; co_menu := co_menu c; co_preferences := co_preferences c; co_file := co_file c;
  co_menu_revision := co_menu_revision c; co_phase := co_phase c; co_capture := co_capture c; co_noticed := co_noticed c |}.
Definition set_menu (v : ReplayMenuState) (c : coordinator) : coordinator := {|
  co_runtime := co_runtime c; co_menu := v; co_preferences := co_preferences c; co_file := co_file c;
  co_menu_revision := co_menu_revision c; co_phase := co_phase c; co_capture := co_capture c; co_noticed := co_noticed c |}.
Definition set_preferences (v : ReplayPreferences) (f : pref_entry) (c : coordinator) : coordinator := {|
  co_runtime := co_runtime c; co_menu := co_menu c; co_preferences := v; co_file := f;
  co_menu_revision := co_menu_revision c; co_phase := co_phase c; co_capture := co_capture c; co_noticed := co_noticed c |}.
Definition set_menu_revision (v : Z) (c : coordinator) : coordinator := {|
  co_runtime := co_runtime c; co_menu := co_menu c; co_preferences := co_preferences c; co_file := co_file c;
  co_menu_revision := v; co_phase := co_phase c; co_capture := co_capture c; co_noticed := co_noticed c |}.
Definition set_capture (v : option CaptureView) (c : coordinator) : coordinator := {|
  co_runtime := co_runtime c; co_menu := co_menu c; co_preferences := co_preferences c; co_file := co_file c;
  co_menu_revision := co_menu_revision c; co_phase := co_phase c; co_capture := v; co_noticed := co_noticed c |}.
Definition set_noticed (v : Z) (c : coordinator) : coordinator := {|
  co_runtime := co_runtime c; co_menu := co_menu c; co_preferences := co_preferences c; co_file := co_file c;
  co_menu_revision := co_menu_revision c; co_phase := co_phase c; co_capture := co_capture c; co_noticed := v |}.

Definition co_gets {A} (f : coordinator -> A) : co A := fun c => (c, Ok (f c)).
Definition co_modify (f : coordinator -> coordinator) : co unit := fun c => (f c, Ok tt).
Definition co_fail {A} (e : control_error) : co A := fun c => (c, Err e).
(** [let _ = m]: an error is dropped. *)
Definition co_ignore {A} (m : co A) : co unit := fun c =>
  match m c with (c, Panic) => (c, Panic) | (c, _) => (c, Ok tt) end.
Definition on_runtime {A} (m : st (Runtime B S J) ReplayRuntimeError A) : co A := fun c =>
  match m (co_runtime c) with (s, r) => (set_runtime s c, map_err ControlRuntime r) end.
Definition on_menu {A} (f : ReplayMenuState -> ReplayMenuState * A) : co A := fun c =>
  match f (co_menu c) with (m, a) => (set_menu m c, Ok a) end.
(** A call on the session's capture, when there is one. *)
Definition on_capture (missing failed : string) (m : st Share share_error unit) : co unit := fun c =>
  match co_capture c with
  | None => (c, cerr missing)
  | Some v =>
      match m (view_share v) with
      | (s, r) => (set_capture (Some {| view_phase := view_phase v; view_api := view_api v; view_share := s |}) c,
                   map_err (fun _ => ControlMessage failed) r)
      end
  end.

(** ** Publishing the menu *)
Definition coordinator_telemetry (now revision : Z) : co ReplayMenuTelemetry :=
  r ← on_runtime (runtime_status now);
  co_gets (fun c => menu_telemetry revision r (Runtime.output_format (co_runtime c)) (co_preferences c) (co_menu c)).
Definition try_publish_replay_menu (now : Z) : co unit :=
  previous ← co_gets co_menu_revision;
  _ ← co_modify (set_menu_revision ((previous + 2) mod (U64_MAX + 1)));
  t ← coordinator_telemetry now (sat_add U64_MAX previous 2);
  on_capture "Replay menu has no connected game capture" "Replay menu could not be sent to the game" (OverlayShare.update_replay_menu t).
Definition publish_replay_menu (now : Z) : co unit := co_ignore (try_publish_replay_menu now).
Definition replay_menu_has_render_target (c : coordinator) : bool :=
  bool_decide (co_phase c = SessionRunning)
  && match co_capture c with
     | Some v => bool_decide (view_phase v = Capturing)
                 && match view_api v with Some Vulkan | Some OpenGl => true | None => false end
     | None => false
     end.

(** ** Methods *)
Definition save_replay (d : ReplayDuration) (e : environment) : co unit := on_runtime (runtime_save d (env_starts e) (env_spawned e)).
(** A menu that could not be shown is closed again. *)
Definition publish_toggled (v : bool) (e : environment) : co bool := fun c =>
  match try_publish_replay_menu (env_now e) c with
  | (c, Err error) => if v then (set_menu (menu_close (co_menu c)) c, Err error) else (c, Ok v)
  | (c, Ok _) => (c, Ok v)
  | (c, Panic) => (c, Panic)
  end.
Definition toggle_replay_menu (e : environment) : co bool :=
  can_open ← co_gets replay_menu_has_render_target;
  shown ← co_gets (fun c => visible (co_menu c));
  if negb shown && negb can_open then co_fail (ControlMessage "Replay menu requires a connected game capture")
  else
    v ← on_menu (menu_toggle (env_now e));
    publish_toggled v e.
Definition close_replay_menu (e : environment) : co unit :=
  _ ← on_menu (fun m => (menu_close m, tt));
  publish_replay_menu (env_now e).
Definition move_replay_menu_cursor (dx dy : Z) (e : environment) : co unit :=
  m ← co_gets co_menu;
  m ← lift (move_cursor dx dy (env_now e) m);
  _ ← co_modify (set_menu m);
  publish_replay_menu (env_now e).
Definition save_output_format (f : ReplayOutputFormat) (e : environment) : co unit := fun c =>
  match Preferences.set_output_format (env_io e) f (co_file c) with
  | (file, Ok p) =>
      let c := set_preferences p file c in
      (set_runtime (Runtime.set_output_format f (co_runtime c)) c, Ok tt)
  | (file, Err error) => (set_preferences (co_preferences c) file c, Err (ControlPreferences error))
  | (file, Panic) => (set_preferences (co_preferences c) file c, Panic)
  end.
Definition replay_menu_button (is_pressed : bool) (e : environment) : co bool :=
  r ← on_runtime (runtime_status (env_now e));
  action ← on_menu (menu_button is_pressed (replay_ready r) (env_now e));
  closed ← co_gets (fun c => negb (visible (co_menu c)));
  _ ← match action with
      | Some (SaveAction d) => save_replay d e
      | Some (SetOutputFormat f) => save_output_format f e
      | None => mret tt
      end;
  _ ← publish_replay_menu (env_now e);
  mret closed.
Definition replay_menu_heartbeat (e : environment) : co unit :=
  _ ← on_menu (fun m => (menu_heartbeat (env_now e) m, tt));
  publish_replay_menu (env_now e).
Definition replay_menu_watchdog (e : environment) : co bool :=
  available ← co_gets replay_menu_has_render_target;
  closed ← on_menu (fun m => if visible m && negb available then (menu_close m, true) else close_if_stale (env_now e) m);
  _ ← (if closed : bool then publish_replay_menu (env_now e) else mret tt);
  mret closed.
Definition update_replay_preferences (p : ReplayPreferences) (e : environment) : co unit :=
  _ ← on_menu (fun m => (set_initial_duration (initial_save_duration p) m, tt));
  _ ← co_modify (fun c =>
        set_preferences (set_microphone_fields (microphone (co_preferences c)) (microphone_gain_db (co_preferences c)) p) (co_file c) c);
  publish_replay_menu (env_now e).
(** [saved_notice::publish_completed] around the capture's notice. *)
Definition coordinator_saved_notice (e : environment) : co unit :=
  r ← on_runtime (runtime_status (env_now e));
  noticed ← co_gets co_noticed;
  if completed_save_revision r <=? noticed then mret tt
  else
    _ ← on_capture "the game session has no capture runtime" "could not publish Replay save notice" OverlayShare.publish_replay_saved_notice;
    co_modify (set_noticed (completed_save_revision r)).

(** ** One connection *)
Inductive reply := OkReply | GrabReply | ReleaseReply.
Definition apply_command (command : ReplayControlCommand) (e : environment) : co reply :=
  let shown := v ← co_gets (fun c => visible (co_menu c)); mret (if v : bool then OkReply else ReleaseReply) in
  match command with
  | SaveCommand d => _ ← save_replay d e; mret OkReply
  | ToggleMenu => v ← toggle_replay_menu e; mret (if v : bool then GrabReply else ReleaseReply)
  | MoveCommand dx dy => _ ← move_replay_menu_cursor dx dy e; shown
  | ButtonCommand p => closed ← replay_menu_button p e; mret (if closed : bool then ReleaseReply else OkReply)
  | EscapeCommand => _ ← close_replay_menu e; mret ReleaseReply
  | PingCommand => _ ← replay_menu_heartbeat e; shown
  end.
(** The answer to one command; the watchdog goes first. *)
Definition respond (command : bytes) (e : environment) : co reply :=
  stale ← replay_menu_watchdog e;
  if stale : bool then mret ReleaseReply
  else command ← lift (parse_command command); apply_command command e.
(** The loop; the world answers the commands in turn, and [writes] says which
    answers could be written.  The fuel is the length of the input. *)
Fixpoint handle_connection (fuel : nat) (world : nat -> environment) (writes : nat -> bool) (i : nat) (input : list read_event)
    (c : coordinator) : coordinator * list (outcome control_error reply) :=
  match fuel with
  | O => (c, [])
  | Datatypes.S fuel =>
      match read_command input with
      | (_, Ok None) => (c, [])
      | (_, Err error) => (c, [Err error])
      | (_, Panic) => (c, [Panic])
      | (input, Ok (Some command)) =>
          match respond command (world i) c with
          | (c, Panic) => (c, [Panic])
          | (c, r) =>
              if negb (writes i) then (c, [r])
              else match r with
                   | Ok ReleaseReply => (c, [r])
                   | _ => let '(c, rs) := handle_connection fuel world writes (Datatypes.S i) input c in (c, r :: rs)
                   end
          end
      end
  end.
End Control.
