(* ===== verification/ControlFacts.v ===== *)
(** The coordinator's invariant, and that the methods behind the control socket
    keep it: the runtime's and the menu's invariants, and a shared file that
    stands for one record per block. *)
From stdpp Require Import strings.
From S2P Require Import Prelude Bytes Text Profiles Overlay OverlayFacts OverlayMenu OverlayShare OverlayShareFacts OverlayShareTheorems Preferences PreferencesTheorems Replay ReplayRing Menu CaptureProtocol CaptureModel SpoolWorker Encoder Pipeline PipelineFacts Runtime RuntimeFacts RuntimeTheorems RuntimeSaves RuntimeRuns Control.
Local Open Scope Z_scope.

(** * Loading the preferences never panics *)
Lemma digit_total v : no_panic (Preferences.digit v).
Proof. unfold Preferences.digit. outcome_total. Qed.
Lemma unhex_pairs_total n v : (length v <= n)%nat -> no_panic (unhex_pairs v).
Proof.
  revert v. induction n as [|n IH]; intros v Hv; destruct v as [|a [|b v]]; cbn in *; try done; [lia|].
  apply bind_no_panic; [apply digit_total|intros ? _]. apply bind_no_panic; [apply digit_total|intros ? _].
  apply bind_no_panic; [apply IH; lia|done].
Qed.
Lemma unhex_total v : no_panic (unhex v).
Proof. unfold unhex. destruct (_ || _); [done|by eapply unhex_pairs_total]. Qed.
Lemma field_total l name : no_panic (field l name).
Proof. unfold field. apply bind_no_panic; [auto with rust|]. intros [n v] _. by destruct (negb _). Qed.
Lemma field_since_total {A} since version name (p : bytes -> outcome string A) a ls :
  (forall v, no_panic (p v)) -> no_panic (field_since since version name p a ls).
Proof.
  intros Hp. unfold field_since. destruct (existsb _ since); [|done]. destruct (next ls) as [l ls'].
  apply bind_no_panic; [apply field_total|intros v _]. by apply bind_no_panic; [apply Hp|].
Qed.
Lemma duration_total v : no_panic (parse_duration_token v).
Proof. unfold parse_duration_token. by repeat (destruct (bytes_eqb v _); [done|]). Qed.
Lemma bindings_total n ls : no_panic (parse_bindings n ls).
Proof.
  revert ls. induction n as [|n IH]; intros ls; [done|]. cbn [parse_bindings]. destruct (next ls) as [l ls'].
  apply bind_no_panic; [apply field_total|intros v _]. apply bind_no_panic; [auto with rust|intros [d s] _].
  apply bind_no_panic; [apply duration_total|intros ? _]. apply bind_no_panic; [apply IH|]. by intros [].
Qed.
Lemma shortcuts_total version ls : no_panic (parse_save_shortcuts version ls).
Proof.
  unfold parse_save_shortcuts. destruct (next ls) as [l ls']. destruct (bytes_eqb _ _).
  - apply bind_no_panic; [apply field_total|intros ? _]. apply bind_no_panic; [by destruct ls'|done].
  - apply bind_no_panic; [apply field_total|intros ? _]. apply bind_no_panic; [auto with rust|intros ? _]. destruct (_ <? _); [done|].
    apply bind_no_panic; [apply bindings_total|intros [b rest] _]. apply bind_no_panic; [by destruct rest|done].
Qed.
Lemma microphone_total v : no_panic (parse_microphone v).
Proof.
  unfold parse_microphone. repeat (destruct (bytes_eqb v _); [done|]). destruct (starts_with _ _); [|done].
  apply bind_no_panic; [apply unhex_total|intros bs _]. destruct (utf8_valid bs); [|done]. apply bind_no_panic; [|done].
  apply map_err_no_panic. unfold validate_microphone. by destruct (_ || _).
Qed.
Lemma parse_total contents : no_panic (Preferences.parse contents).
Proof.
  unfold Preferences.parse. destruct (next (lines contents)) as [version ls]. apply bind_no_panic; [auto with rust|intros v _].
  destruct (negb _); [done|]. destruct (next ls) as [l ls']. apply bind_no_panic; [apply field_total|intros parent _].
  apply bind_no_panic.
  { unfold parse_save_parent. destruct (bytes_eqb _ _); [done|]. apply bind_no_panic; [apply unhex_total|intros bs _].
    destruct (_ <? _); [done|]. apply bind_no_panic; [|done]. apply map_err_no_panic. unfold validate_parent. by destruct (_ || _). }
  intros p _. repeat (apply bind_no_panic; [apply field_since_total|intros [? ?] _]).
  - intros w. unfold parse_output_format. by repeat (destruct (bytes_eqb w _); [done|]).
  - done.
  - intros w. unfold parse_bool. by repeat (destruct (bytes_eqb w _); [done|]).
  - apply duration_total.
  - apply microphone_total.
  - intros w. unfold parse_gain. apply bind_no_panic; [auto with rust|intros ? _]. by destruct (negb _).
  - apply bind_no_panic; [apply shortcuts_total|intros ? _]. apply bind_no_panic; [|done]. apply map_err_no_panic, hotkeys_total.
Qed.
Lemma load_total f : no_panic (load_unlocked f).
Proof. destruct f; try done. cbn. destruct (_ <? _); [done|]. destruct (utf8_valid _); [|done]. apply map_err_no_panic, parse_total. Qed.
Lemma format_total io f entry : (Preferences.set_output_format io f entry).2 <> Panic.
Proof.
  unfold Preferences.set_output_format, update_file. pose proof (load_total entry) as Hl. destruct (load_unlocked entry) as [p|e|]; [|done..].
  pose proof (save_wrote io (set_format_field f p) entry) as Hs. destruct (save_unlocked _ _ _) as [entry' r]. apply Hs.
Qed.

(** * The counters of the spool are durations *)
Class SpoolStatsRange (S J : Type) `{SegmentSpool S J} :=
  stats_duration : forall s, 0 <= stats_buffered_duration_ns (stats s).2.

Section Facts.
Context {B S J : Type} `{!HardwareEncoderBackend B} `{!SegmentSpool S J}.
Context `{!HardwareEncoderBackendSpec B} `{!SegmentSpoolSpec S J} `{!SpoolStatsRange S J}.
Notation runtime := (Runtime B S J).
Notation coordinator := (Coordinator B S J).
Notation co A := (st coordinator control_error A).

Lemma window_nonneg ps : 0 <= match ring_window ps with Some (start, stop) => sat_sub stop start | None => 0 end.
Proof. destruct (ring_window ps) as [[a b]|]; [unfold sat_sub; lia|done]. Qed.
Lemma stats_nonneg (p p' : ReplayHardwarePipeline B S) x :
  pipeline_spool_stats p = (p', Ok (Some x)) -> 0 <= stats_buffered_duration_ns x.
Proof.
  unfold pipeline_spool_stats, mbind, st_bind, with_the_spool. destruct (spool p) as [s|]; [|done].
  pose proof (stats_duration s) as Hs. destruct (stats s) as [s1 y]. cbn in *. destruct (spool_degraded p); cbn.
  { intros [= _ <-]. apply window_nonneg. }
  destruct (spool_phase s1) as [s2 ph]. cbn. intros [= _ <-]. case_bool_decide; cbn; [done|apply window_nonneg].
Qed.
Lemma status_nonneg now (s s' : runtime) x : runtime_status now s = (s', Ok x) -> 0 <= Replay.buffered_duration_ns x.
Proof.
  unfold runtime_status. intros E. apply st_bind_Ok in E as (s1 & rep & E1 & E). 
  assert (Hr : forall y, rep = Some (inl (Some y)) -> 0 <= stats_buffered_duration_ns y).
  { intros y ->. unfold on_pipeline in E1. destruct (rt_pipeline s) as [p|]; [|done].
    destruct (pipeline_spool_stats p) as [p' [a|e|]] eqn:Ep; try done. injection E1 as _ ->. by eapply stats_nonneg. }
  change (rt_gets (fun s : runtime => s) ≫= ?k) with (fun s : runtime => k s s) in E. cbv beta zeta in E.
  destruct (if is_live _ then _ else _) as [[packets bytes] age].
  apply st_bind_Ok in E as (s2 & [] & E2 & E). injection E as _ <-. cbn [Replay.buffered_duration_ns].
  destruct rep as [[[y|]|]|]; try done. by apply Hr.
Qed.

(** * Calls of the coordinator *)
Definition share_ok (v : CaptureView) : Prop := exists A, shares (view_share v) A.
Record coordinator_inv (c : coordinator) : Prop := {
  ci_runtime : runtime_inv (co_runtime c);
  ci_menu : menu_inv (co_menu c);
  ci_revision : 0 <= co_menu_revision c <= U64_MAX;
  ci_capture : from_option share_ok True (co_capture c);
}.
(** [m] returns, keeps the invariant, and its result satisfies [Q]. *)
Definition co_calls {A} (c : coordinator) (m : co A) (Q : coordinator -> outcome control_error A -> Prop) : Prop :=
  keeps coordinator_inv c m Q.
Lemma co_bind {A C} c (m : co A) (k : A -> co C) (Q : coordinator -> outcome control_error C -> Prop) :
  co_calls c m (fun c' r => match r with Ok a => co_calls c' (k a) Q | Err e => Q c' (Err e) | Panic => True end) ->
  co_calls c (m ≫= k) Q.
Proof. apply keeps_bind. Qed.
Lemma co_get {A} c (f : coordinator -> A) (Q : coordinator -> outcome control_error A -> Prop) :
  coordinator_inv c -> Q c (Ok (f c)) -> co_calls c (co_gets f) Q.
Proof. apply keeps_get. Qed.
Lemma co_set c f (Q : coordinator -> outcome control_error unit -> Prop) : coordinator_inv (f c) -> Q (f c) (Ok tt) -> co_calls c (co_modify f) Q.
Proof. apply keeps_set. Qed.
Lemma co_runtime_calls {A} c (m : st runtime ReplayRuntimeError A) (P : runtime -> outcome ReplayRuntimeError A -> Prop)
    (Q : coordinator -> outcome control_error A -> Prop) :
  coordinator_inv c -> calls (co_runtime c) m [] P ->
  (forall s' r, runtime_inv s' -> m (co_runtime c) = (s', r) -> P s' r -> Q (set_runtime s' c) (map_err ControlRuntime r)) ->
  co_calls c (on_runtime m) Q.
Proof.
  intros Hi (s' & r & E & Hp & [Hs _ _] & HP) HQ. unfold co_calls, keeps, on_runtime. rewrite E. eexists _, _. split; [done|].
  split; [by destruct r|]. split; [destruct Hi; by constructor|by apply HQ].
Qed.
Lemma co_menu_calls {A} c (f : ReplayMenuState -> ReplayMenuState * A) (Q : coordinator -> outcome control_error A -> Prop) :
  coordinator_inv c -> menu_inv (f (co_menu c)).1 -> Q (set_menu (f (co_menu c)).1 c) (Ok (f (co_menu c)).2) -> co_calls c (on_menu f) Q.
Proof.
  intros Hi Hm HQ. unfold co_calls, keeps, on_menu. destruct (f (co_menu c)) as [m a]. eexists _, (Ok a). split; [done|]. split; [done|].
  split; [destruct Hi; by constructor|done].
Qed.
Lemma co_ignored {A} c (m : co A) (Q : coordinator -> outcome control_error unit -> Prop) :
  co_calls c m (fun c' _ => Q c' (Ok tt)) -> co_calls c (co_ignore m) Q.
Proof. intros (c' & r & E & Hp & Hi & H). unfold co_calls, keeps, co_ignore. rewrite E. exists c', (Ok tt). by destruct r. Qed.
Lemma co_capture_calls missing failed c (op : share_op) (Q : coordinator -> outcome control_error unit -> Prop) :
  coordinator_inv c -> share_op_ok op ->
  (co_capture c = None -> Q c (cerr missing)) ->
  (forall v A s' r, co_capture c = Some v -> shares (view_share v) A -> settled op A (updated op (view_share v) A) (view_share v) s' r ->
     Q (set_capture (Some {| view_phase := view_phase v; view_api := view_api v; view_share := s' |}) c) (map_err (fun _ => ControlMessage failed) r)) ->
  co_calls c (on_capture missing failed (run_share op)) Q.
Proof.
  intros Hi Hop Hnone HQ. unfold co_calls, keeps, on_capture. destruct (co_capture c) as [v|] eqn:Ev.
  - pose proof (ci_capture c Hi) as Hc. rewrite Ev in Hc. destruct Hc as [A HA]. pose proof (share_step op (view_share v) A HA Hop) as Hs.
    destruct (run_share op (view_share v)) as [s' r] eqn:Es. eexists _, _. split; [done|].
    assert (Hok : exists A', shares s' A') by (destruct Hs as [[(_ & H & _)|[_ H]] _]; by eexists).
    split; [by destruct Hs as [[(-> & _)|[[e ->] _]] _]|]. split; [destruct Hi; by constructor|by eapply HQ].
  - exists c, (cerr missing). splits; auto.
Qed.

(** ** Publishing *)
(** The record that the overlay finds in the menu's block. *)
Definition drawn (c : coordinator) : option ReplayMenuTelemetry :=
  v ← co_capture c;
  match decode_replay_menu_telemetry (menu_block (overlay_telemetry_file (view_share v))) with Ok t => Some t | _ => None end.
(** All but the recorder, the counter and the shared file. *)
Definition kept (c c' : coordinator) : Prop :=
  co_menu c' = co_menu c /\ co_preferences c' = co_preferences c /\ co_file c' = co_file c /\ co_phase c' = co_phase c /\ co_noticed c' = co_noticed c.
Definition drawn_menu (c : coordinator) : Prop :=
  exists t, drawn c = Some t /\ menu_visible t = visible (co_menu c) /\ menu_cursor_x t = cursor_x (co_menu c) /\ menu_cursor_y t = cursor_y (co_menu c).

Lemma telemetry_calls now revision c (Q : coordinator -> outcome control_error ReplayMenuTelemetry -> Prop) :
  coordinator_inv c -> in_range U64_MAX revision ->
  (forall s' t, runtime_inv s' -> menu_wf t -> menu_visible t = visible (co_menu c) /\ menu_cursor_x t = cursor_x (co_menu c)
     /\ menu_cursor_y t = cursor_y (co_menu c) -> Q (set_runtime s' c) (Ok t)) ->
  co_calls c (coordinator_telemetry now revision) Q.
Proof.
  intros Hi Hr HQ. apply co_bind. eapply co_runtime_calls; [done|by apply status_calls, Hi|].
  intros s' r Hs' E (x & -> & _). assert (Hi' : coordinator_inv (set_runtime s' c)) by (destruct Hi; by constructor). cbn.
  apply co_get; [done|]. cbn. apply HQ; [done|apply menu_telemetry_wf; [apply Hi|done|by eapply status_nonneg]|].
  destruct (mi_cursor _ (ci_menu _ Hi)) as [Hx Hy]. unfold CURSOR_MAX in *. cbn. split; [done|].
  split; (rewrite (proj2 (andb_true_iff _ _)); [done|unfold U16_MAX; lia]).
Qed.
Lemma menu_publish_calls now c (Q : coordinator -> outcome control_error unit -> Prop) :
  coordinator_inv c ->
  (forall c' r, coordinator_inv c' -> kept c c' -> (is_Some (co_capture c') <-> is_Some (co_capture c)) -> (r = Ok tt -> drawn_menu c') -> Q c' r) ->
  co_calls c (try_publish_replay_menu now) Q.
Proof.
  intros Hi HQ. apply co_bind, co_get; [done|]. apply co_bind, co_set.
  { pose proof (Z.mod_pos_bound (co_menu_revision c + 2) (U64_MAX + 1) ltac:(done)). destruct Hi. constructor; cbn; try done. lia. }
  set (c1 := set_menu_revision _ c). assert (Hi1 : coordinator_inv c1).
  { pose proof (Z.mod_pos_bound (co_menu_revision c + 2) (U64_MAX + 1) ltac:(done)). destruct Hi. constructor; cbn; try done. lia. }
  pose proof (ci_revision c Hi). apply co_bind, telemetry_calls; [done|unfold in_range, sat_add; lia|].
  intros s' t Hs' Ht Hv. set (c2 := set_runtime s' c1). assert (Hi2 : coordinator_inv c2) by (destruct Hi1; by constructor).
  eapply (keeps_impl _ _ _ (fun c' r => kept c c' /\ (is_Some (co_capture c') <-> is_Some (co_capture c)) /\ (r = Ok tt -> drawn_menu c'))).
  2: { intros c' r Hc' _ (H1 & H2 & H3). by apply HQ. }
  apply (co_capture_calls _ _ c2 (UpdateMenu t)); [done|done| |].
  - intros Hn. splits; try done; by cbn.
  - intros v A s2 r Ev HA [Hres _]. cbn in Ev. split; [done|]. split; [cbn; rewrite Ev; split; intros; by eexists|]. destruct r as [[]|e|]; [|done..].
    intros _. destruct Hres as [(_ & _ & Hd)|[[e ?] _]]; [|done]. exists t. split; [|done]. unfold drawn. cbn. by rewrite Hd.
Qed.
Lemma publish_ignored now c (Q : coordinator -> outcome control_error unit -> Prop) :
  coordinator_inv c -> (forall c', coordinator_inv c' -> kept c c' -> Q c' (Ok tt)) -> co_calls c (publish_replay_menu now) Q.
Proof. intros Hi HQ. apply co_ignored, menu_publish_calls; [done|]. intros c' r H1 H2 _ _. by apply HQ. Qed.

(** ** Saves and preferences *)
Lemma save_replay_calls d e c (Q : coordinator -> outcome control_error unit -> Prop) :
  coordinator_inv c -> (forall s' r, runtime_inv s' -> Q (set_runtime s' c) (map_err ControlRuntime r)) -> co_calls c (save_replay d e) Q.
Proof. intros Hi HQ. eapply co_runtime_calls; [done|by apply save_calls, Hi|]. intros s' r Hs' _ _. by apply HQ. Qed.
Lemma format_keeps_runtime f (s : runtime) : runtime_inv s -> runtime_inv (Runtime.set_output_format f s).
Proof. intros [H1 H2]. split; [by apply (recorder_same s)|by apply (save_side_inv s)]. Qed.
Lemma save_format_calls f e c (Q : coordinator -> outcome control_error unit -> Prop) :
  coordinator_inv c -> (forall c' r, co_menu c' = co_menu c -> co_capture c' = co_capture c -> Q c' r) -> co_calls c (save_output_format f e) Q.
Proof.
  intros Hi HQ. unfold co_calls, keeps, save_output_format. pose proof (format_total (env_io e) f (co_file c)) as Hp.
  destruct (Preferences.set_output_format _ _ _) as [entry [p|err|]]; [| |done]; eexists _, _; (split; [done|]); (split; [done|]);
    (split; [|by apply HQ]); destruct Hi; constructor; try done. by apply format_keeps_runtime.
Qed.
End Facts.
