(* ===== verification/ControlTheorems.v ===== *)
(** What the control socket answers: every reply says whether the menu is open,
    the overlay shows what the client is told, and no bytes of a client stop
    the connection's thread by a panic. *)
From stdpp Require Import strings.
From S2P Require Import Prelude Bytes Text Profiles Overlay OverlayFacts OverlayMenu OverlayShare OverlayShareFacts OverlayShareTheorems Preferences PreferencesTheorems Replay Menu CaptureProtocol CaptureModel Encoder Pipeline PipelineFacts Runtime RuntimeFacts RuntimeTheorems RuntimeSaves RuntimeRuns RuntimeHistory PipelineRuns PipelineTheorems Control ControlFacts.
Local Open Scope Z_scope.

(** * Parsing *)
Lemma parse_signed_total v : no_panic (parse_move v).
Proof. unfold parse_move. by destruct (_ || _). Qed.
Lemma parse_command_total bs : no_panic (parse_command bs).
Proof.
  unfold parse_command. destruct (negb _); [done|]. apply bind_no_panic; [auto with rust|intros line _].
  repeat (destruct (bytes_eqb line _); [done|]). destruct (strip_prefix _ line) as [v|].
  - by repeat (destruct (bytes_eqb v _); [done|]).
  - destruct (strip_prefix _ line); [apply parse_signed_total|]. unfold parse_save.
    apply bind_no_panic; [auto with rust|intros ? _]. apply bind_no_panic; [auto with rust|done].
Qed.
(** A motion that parses is small. *)
Lemma in_delta_range v : in_delta v = true -> - 4096 <= default 0 v <= 4096.
Proof. unfold in_delta. destruct v; cbn; lia. Qed.
Lemma move_bounds bs dx dy : parse_command bs = Ok (MoveCommand dx dy) -> - 4096 <= dx <= 4096 /\ - 4096 <= dy <= 4096.
Proof.
  unfold parse_command. destruct (negb _); [done|]. intros (line & _ & H)%bind_Ok.
  repeat (destruct (bytes_eqb line _); [done|]). destruct (strip_prefix _ line) as [v|].
  { by repeat (destruct (bytes_eqb v _); [done|]). }
  destruct (strip_prefix _ line) as [v|].
  - unfold parse_move in H. destruct (bool_decide (is_Some (split_on (Z.eqb 32) v !! 2%nat))); [done|]. cbn [orb] in H.
    match type of H with (if negb (in_delta ?x) || negb (in_delta ?y) then _ else _) = _ => destruct (in_delta x) eqn:Ex; [|done];
      destruct (in_delta y) eqn:Ey; [|done] end.
    cbn in H. injection H as <- <-. split; by apply in_delta_range.
  - unfold parse_save in H. apply bind_Ok in H as (? & _ & H). by apply bind_Ok in H as (? & _ & H).
Qed.

Section Replies.
Context {B S J : Type} `{!HardwareEncoderBackend B} `{!SegmentSpool S J}.
Context `{!HardwareEncoderBackendSpec B} `{!SegmentSpoolSpec S J} `{!SpoolStatsRange S J}.
Notation coordinator := (Coordinator B S J).

(** * Methods *)
Definition open (c : coordinator) : bool := visible (co_menu c).
(** What an answer says. *)
Definition is_save (command : outcome control_error ReplayControlCommand) : Prop := exists d, command = Ok (SaveCommand d).
Definition answered (command : outcome control_error ReplayControlCommand) (c c' : coordinator) (r : outcome control_error reply) : Prop :=
  match r with
  | Ok GrabReply => open c = false /\ replay_menu_has_render_target c = true /\ open c' = true /\ drawn_menu c'
  | Ok ReleaseReply => open c' = false
  | Ok OkReply => open c' = open c /\ (open c' = true \/ is_save command)
  | Err _ => open c' = true -> open c = true
  | Panic => False
  end.

Lemma kept_open c c' : kept c c' -> open c' = open c.
Proof. unfold open. by intros (-> & _). Qed.
Lemma inv_set_menu m (c : coordinator) : coordinator_inv c -> menu_inv m -> coordinator_inv (set_menu m c).
Proof. intros [] Hm. by constructor. Qed.

Lemma toggle_calls e c :
  coordinator_inv c ->
  co_calls c (toggle_replay_menu e) (fun c' r => match r with
    | Ok true => open c = false /\ replay_menu_has_render_target c = true /\ open c' = true /\ drawn_menu c'
    | Ok false => open c' = false
    | Err _ => open c' = true -> open c = true
    | Panic => False end).
Proof.
  intros Hi. unfold toggle_replay_menu. apply co_bind, co_get; [done|]. apply co_bind, co_get; [done|].
  destruct (negb (visible (co_menu c)) && negb (replay_menu_has_render_target c)) eqn:Eg.
  { exists c, (cerr "Replay menu requires a connected game capture"). by splits. }
  apply co_bind, co_menu_calls; [done|apply toggle_inv, Hi|]. set (m := (menu_toggle (env_now e) (co_menu c)).1).
  assert (Ev : (menu_toggle (env_now e) (co_menu c)).2 = negb (visible (co_menu c)) /\ visible m = negb (visible (co_menu c))).
  { by unfold m, menu_toggle; destruct (visible (co_menu c)). }
  destruct Ev as [-> Em]. set (c1 := set_menu m c). assert (Hi1 : coordinator_inv c1) by (apply inv_set_menu, toggle_inv, Hi; done).
  destruct (menu_publish_calls (env_now e) c1 (fun c' r => kept c1 c' /\ (r = Ok tt -> drawn_menu c')) Hi1) as (c2 & r & E & Hp & Hi2 & Hk & Hd); [done|].
  pose proof (kept_open _ _ Hk) as Ho. change (open c1) with (visible m) in Ho. rewrite Em in Ho. unfold co_calls, keeps, publish_toggled. rewrite E.
  unfold open. destruct (visible (co_menu c)); cbn [negb andb] in *.
  - destruct r as [[]|err|]; [| |done]; by eexists c2, (Ok false).
  - destruct (replay_menu_has_render_target c); [|done]. destruct r as [[]|err|]; [| |done].
    + exists c2, (Ok true). splits; try done; try by apply Hd.
    + eexists _, (Err err). split; [done|]. split; [done|]. split; [by apply inv_set_menu, close_inv, Hi2|done].
Qed.
Lemma close_calls e c : coordinator_inv c -> co_calls c (close_replay_menu e) (fun c' r => r = Ok tt /\ open c' = false).
Proof.
  intros Hi. unfold close_replay_menu. apply co_bind, co_menu_calls; [done|apply close_inv, Hi|]. cbn.
  apply publish_ignored; [by apply inv_set_menu, close_inv, Hi|]. intros c' _ Hk. split; [done|]. by rewrite (kept_open _ _ Hk).
Qed.
Lemma move_calls dx dy e c :
  coordinator_inv c -> - 4096 <= dx <= 4096 -> - 4096 <= dy <= 4096 ->
  co_calls c (move_replay_menu_cursor dx dy e) (fun c' r => r = Ok tt /\ open c' = open c).
Proof.
  intros Hi Hx Hy. unfold move_replay_menu_cursor. apply co_bind, co_get; [done|].
  destruct (move_inv (E := control_error) dx dy (env_now e) (co_menu c) (ci_menu c Hi) Hx Hy) as (m & Em & Hm & Hv).
  apply co_bind. exists c, (Ok m). unfold lift. rewrite Em. split; [done|]. split; [done|]. split; [done|].
  apply co_bind, co_set; [by apply inv_set_menu|]. apply publish_ignored; [by apply inv_set_menu|].
  intros c' _ Hk. split; [done|]. rewrite (kept_open _ _ Hk). exact Hv.
Qed.
Lemma heartbeat_calls e c : coordinator_inv c -> co_calls c (replay_menu_heartbeat e) (fun c' r => r = Ok tt /\ open c' = open c).
Proof.
  intros Hi. unfold replay_menu_heartbeat. pose proof (heartbeat_inv (env_now e) _ (ci_menu c Hi)) as Hm.
  apply co_bind, co_menu_calls; [done|done|]. cbn. apply publish_ignored; [by apply inv_set_menu|].
  intros c' _ Hk. split; [done|]. rewrite (kept_open _ _ Hk). unfold open. cbn. unfold menu_heartbeat. by destruct (visible (co_menu c)) eqn:Ev.
Qed.
Lemma button_open p ready now m : visible (menu_button p ready now m).1 = true -> visible m = true.
Proof. unfold menu_button. destruct (visible m) eqn:E; [done|]. cbn. congruence. Qed.
Lemma button_calls p e c :
  coordinator_inv c ->
  co_calls c (replay_menu_button p e) (fun c' r => match r with
    | Ok closed => open c' = negb closed /\ (closed = false -> open c = true)
    | Err _ => open c' = true -> open c = true
    | Panic => False end).
Proof.
  intros Hi. unfold replay_menu_button. apply co_bind. eapply co_runtime_calls; [done|by apply status_calls, Hi|].
  intros s' r Hs' E (x & -> & _). cbn. set (c1 := set_runtime s' c). assert (Hi1 : coordinator_inv c1) by (destruct Hi; by constructor).
  apply co_bind, co_menu_calls; [done|apply button_inv, Hi1|]. change (co_menu c1) with (co_menu c).
  pose proof (button_open p (replay_ready x) (env_now e) (co_menu c)) as Hb. pose proof (button_inv p (replay_ready x) (env_now e) _ (ci_menu c Hi)) as Hm.
  destruct (menu_button _ _ _ _) as [m action]. cbn [fst snd] in *. set (c2 := set_menu m c1).
  assert (Hi2 : coordinator_inv c2) by by apply inv_set_menu. apply co_bind, co_get; [done|]. change (visible (co_menu c2)) with (visible m).
  assert (Hend : forall c3, coordinator_inv c3 -> open c3 = visible m ->
    co_calls c3 (_ ← publish_replay_menu (env_now e); mret (negb (visible m))) (fun c' r => match r with
      | Ok closed => open c' = negb closed /\ (closed = false -> open c = true)
      | Err _ => open c' = true -> open c = true
      | Panic => False end)).
  { intros c3 Hi3 Ho3. apply co_bind, publish_ignored; [done|]. intros c4 Hi4 Hk. apply keeps_ret; [done|].
    rewrite (kept_open _ _ Hk), Ho3, negb_involutive. split; [done|]. intros Hv%negb_false_iff. auto. }
  apply co_bind. destruct action as [[d|f]|].
  - apply save_replay_calls; [done|]. intros s2 [[]|err|] Hs2; cbn; [|exact Hb|done]. apply Hend; [by destruct Hi2; constructor|done].
  - eapply keeps_impl; [by apply (save_format_calls f e c2 (fun c' r => co_menu c' = co_menu c2)); intros|].
    intros c3 [[]|err|] Hi3 _ Em; [|unfold open; rewrite Em; exact Hb|done]. apply Hend; [done|unfold open; by rewrite Em].
  - apply keeps_ret; [done|]. by apply Hend.
Qed.
Lemma watchdog_calls e c :
  coordinator_inv c ->
  co_calls c (replay_menu_watchdog e) (fun c' r => match r with
    | Ok true => open c' = false | Ok false => c' = c | _ => False end).
Proof.
  intros Hi. unfold replay_menu_watchdog. apply co_bind, co_get; [done|].
  assert (Hm : let '(m, closed) := if visible (co_menu c) && negb (replay_menu_has_render_target c)
      then (menu_close (co_menu c), true) else close_if_stale (env_now e) (co_menu c) in
    menu_inv m /\ if closed : bool then visible m = false else m = co_menu c).
  { destruct (_ && _); [split; [apply close_inv, Hi|done]|]. pose proof (stale_inv (env_now e) _ (ci_menu c Hi)) as Hs.
    destruct (close_if_stale _ _) as [m cl] eqn:Es. split; [done|]. unfold close_if_stale in Es.
    destruct (_ && _); injection Es as <- <-; done. }
  apply co_bind. unfold co_calls at 1, keeps at 1, on_menu. destruct (if _ && _ then _ else _) as [m closed]. destruct Hm as [Hm Hc].
  eexists _, (Ok closed). split; [done|]. split; [done|]. assert (Hi1 : coordinator_inv (set_menu m c)) by by apply inv_set_menu.
  split; [done|]. cbn. apply co_bind. destruct closed.
  - apply publish_ignored; [done|]. intros c' Hi' Hk. apply keeps_ret; [done|]. by rewrite (kept_open _ _ Hk).
  - apply keeps_ret; [done|]. apply keeps_ret; [done|]. subst m. by destruct c.
Qed.

(** ** One command *)
Lemma shown_calls k c0 c :
  coordinator_inv c -> open c = open c0 ->
  co_calls c (v ← co_gets (fun c : coordinator => visible (co_menu c)); mret (if v : bool then OkReply else ReleaseReply)) (answered k c0).
Proof.
  intros Hi Ho. apply co_bind, co_get; [done|]. apply keeps_ret; [done|]. fold (open c). destruct (open c) eqn:E; cbn; rewrite ?E; auto.
Qed.
Lemma apply_calls command e c :
  coordinator_inv c -> (forall dx dy, command = MoveCommand dx dy -> - 4096 <= dx <= 4096 /\ - 4096 <= dy <= 4096) ->
  co_calls c (apply_command command e) (answered (Ok command) c).
Proof.
  intros Hi Hb. destruct command as [d| |dx dy|p| |]; unfold apply_command; apply co_bind.
  - apply save_replay_calls; [done|]. intros s' [[]|err|] Hs'; cbn; [|done|done]. apply keeps_ret; [by destruct Hi; constructor|]. split; [done|]. right. by exists d.
  - eapply keeps_impl; [by apply toggle_calls|]. intros c' [v|err|] Hi' Hp H; [|done|done]. apply keeps_ret; [done|]. by destruct v.
  - destruct (Hb dx dy eq_refl). eapply keeps_impl; [by apply move_calls|]. intros c' r Hi' _ [-> Ho]. by apply shown_calls.
  - eapply keeps_impl; [by apply button_calls|]. intros c' [v|err|] Hi' Hp H; [|done|done]. apply keeps_ret; [done|]. destruct H as [Ho Hc].
    destruct v; cbn; [done|]. rewrite Ho, (Hc eq_refl). auto.
  - eapply keeps_impl; [by apply close_calls|]. intros c' r Hi' _ [-> Ho]. by apply keeps_ret.
  - eapply keeps_impl; [by apply heartbeat_calls|]. intros c' r Hi' _ [-> Ho]. by apply shown_calls.
Qed.
Lemma respond_calls command e c : coordinator_inv c -> co_calls c (respond command e) (answered (parse_command command) c).
Proof.
  intros Hi. apply co_bind. eapply keeps_impl; [by apply watchdog_calls|]. intros c' [[]|err|] Hi' _ H; [|subst c'|done..].
  { by apply keeps_ret. }
  apply co_bind. exists c, (parse_command command). split; [done|]. split; [apply parse_command_total|]. split; [done|].
  destruct (parse_command command) as [cmd|err|] eqn:Ep; [|cbn; auto|done]. apply apply_calls; [done|]. intros dx dy ->. by eapply move_bounds.
Qed.

(** C9: A command on the control socket, whatever its bytes: the coordinator
    keeps its invariant and never panics; GRAB is answered only when a closed
    menu was opened over a running game whose capture draws, and the block
    shared with the game then decodes to a visible menu; RELEASE leaves the
    menu closed, a plain OK leaves it as it was (open, unless the command is a
    save), and an error never opens it. *)
Theorem reply_exact command e c :
  coordinator_inv c ->
  let '(c', r) := respond command e c in coordinator_inv c' /\ answered (parse_command command) c c' r.
Proof. intros Hi. destruct (respond_calls command e c Hi) as (c' & r & E & _ & Hi' & Ha). rewrite E. by split. Qed.

(** ** A connection *)
Definition ends (r : outcome control_error reply) : bool := match r with Ok ReleaseReply | Panic => true | _ => false end.
Lemma read_shorter input input' command :
  read_command input = (input', Ok (Some command)) -> (length input' < length input)%nat.
Proof.
  unfold read_command. intros E.
  assert (H : forall acc, let '(rest, r) := read_bytes acc input in (length rest < length input)%nat \/ input = [] /\ rest = []).
  { clear. induction input as [|[b|] input IH]; intros acc; cbn; [by right|destruct (_ || _); cbn; [left; lia|]|left; lia].
    specialize (IH (acc ++ [b])). destruct (read_bytes _ input) as [rest r]. left. destruct IH as [?|[-> ->]]; cbn; lia. }
  specialize (H []). destruct (read_bytes [] input) as [rest r] eqn:Er. injection E as <- E. destruct H as [?|[-> ->]]; [done|].
  cbn in Er. by injection Er as <-.
Qed.
Lemma read_total input : no_panic (read_command input).2.
Proof.
  unfold read_command.
  assert (H : forall acc, no_panic (read_bytes acc input).2).
  { induction input as [|[b|] input IH]; intros acc; cbn; [by destruct (_ =? _)%nat|by destruct (_ || _)|done]. }
  specialize (H []). destruct (read_bytes [] input) as [rest [[command|]|err|]]; cbn in *; try done. by destruct (_ || _).
Qed.
Lemma connection_spec fuel world writes i input c :
  coordinator_inv c ->
  let '(c', rs) := handle_connection fuel world writes i input c in
  coordinator_inv c' /\ Panic ∉ rs /\ Forall (fun r => ends r = false) (removelast rs)
  /\ (last rs = Some (Ok ReleaseReply) -> open c' = false).
Proof.
  revert i input c. induction fuel as [|fuel IH]; intros i input c Hi; cbn [handle_connection].
  { splits; [done|apply not_elem_of_nil|by apply Forall_nil|done]. }
  pose proof (read_total input) as Ht. destruct (read_command input) as [input' [[command|]|err|]]; [| | |done].
  2: { splits; [done|apply not_elem_of_nil|by apply Forall_nil|done]. }
  2: { splits; [done|by apply not_elem_of_cons; split; [|apply not_elem_of_nil]|by apply Forall_nil|done]. }
  destruct (respond_calls command (world i) c Hi) as (c1 & r & E & Hp & Hi1 & Ha). rewrite E.
  assert (H1 : coordinator_inv c1 /\ Panic ∉ [r] /\ Forall (fun r => ends r = false) (removelast [r])
    /\ (last [r] = Some (Ok ReleaseReply) -> open c1 = false)).
  { splits; [done|apply not_elem_of_cons; split; [done|apply not_elem_of_nil]|by apply Forall_nil|]. cbn. by intros [= ->]. }
  specialize (IH (Datatypes.S i) input' c1 Hi1).
  assert (H2 : ends r = false -> let '(c', rs) := handle_connection fuel world writes (Datatypes.S i) input' c1 in
    coordinator_inv c' /\ Panic ∉ r :: rs /\ Forall (fun r => ends r = false) (removelast (r :: rs))
    /\ (last (r :: rs) = Some (Ok ReleaseReply) -> open c' = false)).
  { intros Hr. destruct (handle_connection fuel world writes _ input' c1) as [c' rs]. destruct IH as (I1 & I2 & I3 & I4). split; [done|].
    split; [apply not_elem_of_cons; by split|]. destruct rs as [|r' rs]; [split; [by apply Forall_nil|cbn; intros [= ->]; done]|].
    split; [by apply Forall_cons|]. exact I4. }
  destruct r as [[]|err|]; [| | | |done]; (destruct (negb (writes i)); [exact H1|]);
    try (specialize (H2 eq_refl); by destruct (handle_connection _ _ _ _ input' c1)); exact H1.
Qed.
(** One unit of fuel for each byte is enough. *)
Lemma connection_fuel fuel world writes i input c :
  (length input < fuel)%nat -> handle_connection fuel world writes i input c = handle_connection (Datatypes.S (length input)) world writes i input c.
Proof.
  assert (H : forall n m i input c, (length input < n)%nat -> (length input < m)%nat ->
    handle_connection n world writes i input c = handle_connection m world writes i input c).
  { clear. induction n as [|n IH]; intros m i input c Hn Hm; [lia|]. destruct m as [|m]; [lia|]. cbn [handle_connection].
    destruct (read_command input) as [input' [[command|]|err|]] eqn:Er; try done. apply read_shorter in Er.
    destruct (respond command (world i) c) as [c1 r]. destruct r as [[]|err|]; try done; (destruct (negb (writes i)); [done|]);
      try done; by rewrite (IH m) by lia. }
  intros Hf. apply H; lia.
Qed.

(** C37: A connection ends, for any bytes and any failed reads: a step per byte is
    enough, no panic stops the thread, the coordinator keeps its invariant, a
    RELEASE is the last answer that is sent, and it leaves the menu closed. *)
Theorem connection_safe fuel world writes input c :
  coordinator_inv c -> (length input < fuel)%nat ->
  handle_connection fuel world writes 0 input c = handle_connection (Datatypes.S (length input)) world writes 0 input c
  /\ let '(c', rs) := handle_connection fuel world writes 0 input c in
     coordinator_inv c' /\ Panic ∉ rs /\ Forall (fun r => ends r = false) (removelast rs)
     /\ (last rs = Some (Ok ReleaseReply) -> open c' = false).
Proof. intros Hi Hf. split; [by apply connection_fuel|by apply connection_spec]. Qed.
End Replies.

(** * A session *)
#[global] Instance demo_spool_range : SpoolStatsRange DemoSpool unit.
Proof. intros s. vm_compute. discriminate. Qed.
Definition demo_coordinator : Coordinator DemoEncoder DemoSpool unit := {|
  co_runtime := new_runtime demo_session_settings; co_menu := ReplayMenuState_default; co_preferences := ReplayPreferences_default;
  co_file := NotFound; co_menu_revision := 2; co_phase := SessionRunning;
  co_capture := Some {| view_phase := Capturing; view_api := Some Vulkan; view_share := new_share first_file [] |}; co_noticed := 0 |}.
Lemma demo_coordinator_inv : coordinator_inv demo_coordinator.
Proof.
  constructor; cbn [co_runtime co_menu co_menu_revision co_capture demo_coordinator].
  - apply new_runtime_inv.
  - apply default_menu_inv.
  - unfold U64_MAX. lia.
  - exists initial_shown. apply new_share_shares.
Qed.
Definition demo_world (i : nat) : environment := {| env_now := Z.of_nat i; env_starts := true; env_spawned := true; env_io := disk_ok |}.
(** The client opens the menu, moves, sends rubbish and closes; what follows is not read. *)
Definition demo_connection : list read_event :=
  ReadByte <$> ascii_bytes "MENU TOGGLE" ++ [10] ++ ascii_bytes "MENU MOVE -250 13" ++ [10] ++ ascii_bytes "SAVE 17" ++ [10]
    ++ ascii_bytes "MENU ESCAPE" ++ [10] ++ ascii_bytes "SAVE 30" ++ [10].
Lemma reply_exact_witness :
  let '(c', r) := respond (ascii_bytes "MENU TOGGLE" ++ [10]) (demo_world 0) demo_coordinator in
  r = Ok GrabReply /\ drawn_menu c'.
Proof.
  pose proof (reply_exact (ascii_bytes "MENU TOGGLE" ++ [10]) (demo_world 0) demo_coordinator demo_coordinator_inv) as H.
  destruct (respond _ _ demo_coordinator) as [c' r] eqn:E. assert (Er : r = Ok GrabReply).
  { change r with (c', r).2. rewrite <- E. vm_compute. reflexivity. }
  destruct H as [_ H]. rewrite Er in H. split; [exact Er|apply H].
Defined.
Lemma connection_safe_witness :
  let '(c', rs) := handle_connection 70 demo_world (fun _ => true) 0 demo_connection demo_coordinator in
  rs = [Ok GrabReply; Ok OkReply; cerr "unsupported Replay duration"; Ok ReleaseReply] /\ open c' = false.
Proof.
  assert (Hl : (length demo_connection < 70)%nat) by (apply Nat.ltb_lt; vm_compute; reflexivity).
  pose proof (connection_safe 70 demo_world (fun _ => true) demo_connection demo_coordinator demo_coordinator_inv Hl) as H.
  apply proj2 in H.
  destruct (handle_connection 70 _ _ _ _ demo_coordinator) as [c' rs] eqn:E.
  assert (Er : rs = [Ok GrabReply; Ok OkReply; cerr "unsupported Replay duration"; Ok ReleaseReply]).
  { change rs with (c', rs).2. rewrite <- E. vm_compute. reflexivity. }
  destruct H as (_ & _ & _ & H). split; [exact Er|]. apply H. rewrite Er. reflexivity.
Defined.
