(* ===== verification/Hotkeys.v ===== *)
(** The hotkey helper (crates/redunar-hotkeys): its shortcut configuration, the
    keyboards it reads (keyboards.rs), the mice it takes over while the menu is
    open (pointer_capture.rs), and the session with the control socket of the
    daemon (main.rs). *)
From stdpp Require Import strings gmap sets.
From S2P Require Import Prelude Bytes Text Arith.
Local Open Scope Z_scope.

Definition MAX_BINDINGS : Z := 9.
Definition MAX_KEYBOARDS : Z := 16.
Definition INPUT_EVENT_BYTES : Z := 24.
Definition EV_KEY : Z := 1.
Definition EV_REL : Z := 2.
Definition KEY_ESC : Z := 1.
Definition BTN_LEFT : Z := 272.
Definition MOTION_LIMIT : Z := 4096.
Definition POINTER_BASE_GAIN_MILLI : Z := 8500.
Definition POINTER_SPEED_GAIN_MILLI : Z := 300.
Definition POINTER_SPEED_LIMIT : Z := 32.
Definition POINTER_VERTICAL_RATIO_MILLI : Z := 1568.
(** Durations in nanoseconds. *)
Definition MOTION_INTERVAL : Z := 8000000.
Definition MENU_PING_INTERVAL : Z := 500000000.
Definition MENU_INACTIVITY_TIMEOUT : Z := 30000000000.
Definition KEY_LEFTCTRL : Z := 29.
Definition KEY_LEFTSHIFT : Z := 42.
Definition KEY_LEFTALT : Z := 56.
Definition KEY_LEFTMETA : Z := 125.
Definition KEY_RIGHTCTRL : Z := 97.
Definition KEY_RIGHTSHIFT : Z := 54.
Definition KEY_RIGHTALT : Z := 100.
Definition KEY_RIGHTMETA : Z := 126.
Definition MOD_CONTROL : Z := Z.shiftl 1 0.
Definition MOD_SHIFT : Z := Z.shiftl 1 1.
Definition MOD_ALT : Z := Z.shiftl 1 2.
Definition MOD_META : Z := Z.shiftl 1 3.

(** * Events *)
Inductive HotkeyAction := ToggleOverlay | SaveHotkey (seconds : Z).
#[global] Instance HotkeyAction_eq_dec : EqDecision HotkeyAction.
Proof. solve_decision. Defined.
Record KeyChord := { chord_key : Z; modifiers : Z; chord_action : HotkeyAction }.
Record KeyEvent := { device : Z; code : Z; value : Z }.
#[global] Instance KeyEvent_eq_dec : EqDecision KeyEvent.
Proof. solve_decision. Defined.
Inductive KeyboardEvent := KeyEdge (e : KeyEvent) | Removed (generation : Z) | Availability (count : Z).
#[global] Instance KeyboardEvent_eq_dec : EqDecision KeyboardEvent.
Proof. solve_decision. Defined.
Inductive PointerEvent := MotionX (v : Z) | MotionY (v : Z) | LeftButton (pressed : bool).

(** * Shortcuts *)
Definition key_codes : list (string * Z) :=
  [("1", 2); ("2", 3); ("3", 4); ("4", 5); ("5", 6); ("6", 7); ("7", 8); ("8", 9); ("9", 10); ("0", 11); ("tab", 15);
   ("q", 16); ("w", 17); ("e", 18); ("r", 19); ("t", 20); ("y", 21); ("u", 22); ("i", 23); ("o", 24); ("p", 25);
   ("a", 30); ("s", 31); ("d", 32); ("f", 33); ("g", 34); ("h", 35); ("j", 36); ("k", 37); ("l", 38);
   ("z", 44); ("x", 45); ("c", 46); ("v", 47); ("b", 48); ("n", 49); ("m", 50); ("space", 57); ("enter", 28); ("return", 28);
   ("f1", 59); ("f2", 60); ("f3", 61); ("f4", 62); ("f5", 63); ("f6", 64); ("f7", 65); ("f8", 66); ("f9", 67); ("f10", 68);
   ("f11", 87); ("f12", 88)]%string.
Definition key_code (key : bytes) : option Z :=
  match list_find (fun entry => ascii_bytes entry.1 = key) key_codes with Some (_, (_, c)) => Some c | None => None end.
Definition modifier_of (part : bytes) : option Z :=
  if bytes_eqb part (ascii_bytes "ctrl") || bytes_eqb part (ascii_bytes "control") then Some MOD_CONTROL
  else if bytes_eqb part (ascii_bytes "shift") then Some MOD_SHIFT
  else if bytes_eqb part (ascii_bytes "alt") then Some MOD_ALT
  else if bytes_eqb part (ascii_bytes "super") || bytes_eqb part (ascii_bytes "meta") || bytes_eqb part (ascii_bytes "win") then Some MOD_META
  else None.
Definition chord_part (chord : KeyChord) (part : bytes) : outcome string KeyChord :=
  let part := map to_ascii_lowercase part in
  match modifier_of part with
  | Some bit => Ok {| chord_key := chord_key chord; modifiers := Z.lor (modifiers chord) bit; chord_action := chord_action chord |}
  | None =>
      if chord_key chord =? 0 then
        key ← ok_or (key_code part) "unsupported shortcut key"%string;
        Ok {| chord_key := key; modifiers := modifiers chord; chord_action := chord_action chord |}
      else Err "shortcut contains more than one non-modifier key"%string
  end.
Definition parse_chord (shortcut : bytes) : outcome string KeyChord :=
  let normalized := filter (fun b => b <> 32) (map (fun b => if (b =? 60) || (b =? 62) then 43 else b) shortcut) in
  let parts := filter (fun part => part <> []) (split_on (Z.eqb 43) normalized) in
  chord ← for_each chord_part parts {| chord_key := 0; modifiers := 0; chord_action := ToggleOverlay |};
  if chord_key chord =? 0 then Err "shortcut has no key"%string else Ok chord.

(** The configuration.  A read is a line with its end, or an error of the
    reader; after the last the input has ended. *)
Definition config_line := (bytes + string)%type.
Definition trim_line_end (bs : bytes) : bytes :=
  reverse ((fix go (bs : bytes) := match bs with b :: rest => if (b =? 10) || (b =? 13) then go rest else bs | [] => [] end) (reverse bs)).
Definition rsplit_once (b : Z) (bs : bytes) : option (bytes * bytes) :=
  '(after, before) ← split_once b (reverse bs); Some (reverse before, reverse after).
Definition supported_seconds (s : Z) : bool := existsb (Z.eqb s) [15; 30; 60; 120; 180; 300; 600; 900].
Definition binding_of (l : bytes) : outcome string KeyChord :=
  '(shortcut, action) ←
    match strip_prefix (ascii_bytes "TOGGLE ") l with
    | Some shortcut => Ok (shortcut, ToggleOverlay)
    | None =>
        '(shortcut, seconds) ← ok_or (v ← strip_prefix (ascii_bytes "BIND ") l; rsplit_once 32 v) "invalid shortcut binding"%string;
        seconds ← ok_or (s ← from_str_radix U16_MAX 10 seconds; if supported_seconds s then Some s else None) "unsupported Replay duration"%string;
        Ok (shortcut, SaveHotkey seconds)
    end;
  chord ← parse_chord shortcut;
  Ok {| chord_key := chord_key chord; modifiers := modifiers chord; chord_action := action |}.
Definition same_keys (a b : KeyChord) : bool := (chord_key a =? chord_key b) && (modifiers a =? modifiers b).
Definition is_toggle (c : KeyChord) : bool := bool_decide (chord_action c = ToggleOverlay).
Fixpoint read_lines (bindings : list KeyChord) (input : list config_line) : outcome string (list KeyChord) :=
  match input with
  | [] => Err "shortcut configuration ended before START"%string
  | inr error :: _ => Err error
  | inl l :: input =>
      let l := trim_line_end l in
      if bytes_eqb l (ascii_bytes "START") then Ok bindings
      else if MAX_BINDINGS <=? zlen bindings then Err "too many shortcut bindings"%string
      else
        chord ← binding_of l;
        if existsb (fun existing => same_keys existing chord) bindings then Err "duplicate shortcut binding"%string
        else read_lines (bindings ++ [chord]) input
  end.
Definition read_bindings (input : list config_line) : outcome string (list KeyChord) :=
  bindings ← read_lines [] input;
  if (length bindings =? 0)%nat then Err "at least one shortcut binding is required"%string
  else if (1 <? length (filter (fun c => is_toggle c = true) bindings))%nat then Err "at most one Replay overlay shortcut is allowed"%string
  else Ok bindings.

(** * Keys *)
Definition is_modifier_key (c : Z) : bool :=
  existsb (Z.eqb c) [KEY_LEFTCTRL; KEY_RIGHTCTRL; KEY_LEFTSHIFT; KEY_RIGHTSHIFT; KEY_LEFTALT; KEY_RIGHTALT; KEY_LEFTMETA; KEY_RIGHTMETA].
Definition escape_closes_menu (e : KeyEvent) : bool := (code e =? KEY_ESC) && ((value e =? 1) || (value e =? 2)).
(** The pressed keys by device. *)
Definition holds (pressed : gset (Z * Z)) (c : Z) : bool := existsb (fun k => k.2 =? c) (elements pressed).
Definition logical_press_is_new (pressed : gset (Z * Z)) (c : Z) : bool := negb (holds pressed c).
Definition active_modifiers (pressed : gset (Z * Z)) : Z :=
  let bit (left right m : Z) := if holds pressed left || holds pressed right then m else 0 in
  Z.lor (Z.lor (Z.lor (bit KEY_LEFTCTRL KEY_RIGHTCTRL MOD_CONTROL) (bit KEY_LEFTSHIFT KEY_RIGHTSHIFT MOD_SHIFT))
    (bit KEY_LEFTALT KEY_RIGHTALT MOD_ALT)) (bit KEY_LEFTMETA KEY_RIGHTMETA MOD_META).

(** The order within one window: the key is (priority, device, code), a usize
    and a u16 packed below the priority. *)
Definition edge_priority (e : KeyEvent) : Z :=
  if value e =? 1 then if is_modifier_key (code e) then 0 else 1
  else if value e =? 2 then 2
  else if value e =? 0 then if is_modifier_key (code e) then 4 else 3
  else 5.
Definition edge_order (e : KeyEvent) : Z := edge_priority e * 2 ^ 80 + device e * 2 ^ 16 + code e.
(** [edges] is the run that has been read so far, the last first. *)
Fixpoint sort_runs (edges : list KeyEvent) (events : list KeyboardEvent) : list KeyboardEvent :=
  let sorted := KeyEdge <$> sort_by_key edge_order (reverse edges) in
  match events with
  | [] => sorted
  | KeyEdge e :: events => sort_runs (e :: edges) events
  | barrier :: events => sorted ++ barrier :: sort_runs [] events
  end.
Definition chord_event_batch (events : list KeyboardEvent) : list KeyboardEvent := sort_runs [] events.

(** * Pointer motion *)
Record PendingMotion := { motion_x : Z; motion_y : Z }.
Definition no_motion : PendingMotion := {| motion_x := 0; motion_y := 0 |}.
Definition clamp_to (low high x : Z) : Z := Z.max low (Z.min high x).
Definition I32_MIN : Z := -2147483648.
Definition I32_TOP : Z := 2147483647.
Definition I64_MIN : Z := -9223372036854775808.
Definition I64_TOP : Z := 9223372036854775807.
Definition bounded_motion (current delta : Z) : Z := clamp_to (- MOTION_LIMIT) MOTION_LIMIT (clamp_to I32_MIN I32_TOP (current + delta)).
Definition motion_add (e : PointerEvent) (m : PendingMotion) : PendingMotion :=
  match e with
  | MotionX v => {| motion_x := bounded_motion (motion_x m) v; motion_y := motion_y m |}
  | MotionY v => {| motion_x := motion_x m; motion_y := bounded_motion (motion_y m) v |}
  | LeftButton _ => m
  end.
Definition motion_take (m : PendingMotion) : PendingMotion * option (Z * Z) :=
  (no_motion, if (motion_x m =? 0) && (motion_y m =? 0) then None else Some (motion_x m, motion_y m)).
Definition parse_pointer_event (event_type c v : Z) : option PointerEvent :=
  if (event_type =? EV_REL) && (c =? 0) then Some (MotionX v)
  else if (event_type =? EV_REL) && (c =? 1) then Some (MotionY v)
  else if (event_type =? EV_KEY) && (c =? BTN_LEFT) && (v =? 0) then Some (LeftButton false)
  else if (event_type =? EV_KEY) && (c =? BTN_LEFT) && (v =? 1) then Some (LeftButton true)
  else None.
Definition i64_sat (x : Z) : Z := clamp_to I64_MIN I64_TOP x.
(** Half away from zero; the division truncates. *)
Definition scaled (gain v axis_ratio : Z) : Z :=
  let numerator := i64_sat (i64_sat (v * gain) * axis_ratio) in
  let rounded := Z.quot (if 0 <=? numerator then i64_sat (numerator + Z.quot 1000000 2) else i64_sat (numerator - Z.quot 1000000 2)) 1000000 in
  let rounded := if (I32_MIN <=? rounded) && (rounded <=? I32_TOP) then rounded else if rounded <? 0 then I32_MIN else I32_TOP in
  clamp_to (- MOTION_LIMIT) MOTION_LIMIT rounded.
Definition accelerated_pointer_motion (x y : Z) : Z * Z :=
  let speed := Z.min (Z.max (Z.abs x) (Z.abs y)) POINTER_SPEED_LIMIT in
  let gain := POINTER_BASE_GAIN_MILLI + speed * POINTER_SPEED_GAIN_MILLI in
  (scaled gain x 1000, scaled gain y POINTER_VERTICAL_RATIO_MILLI).

(** * Mice *)
(** What a device's calls return; [discard_events] is a fetch. *)
Inductive fetched := Fetched (events : list (Z * Z * Z)) | WouldBlock | FetchFailed (e : string).
Class PointerDevice (D : Type) := {
  grab : D -> D * option string;
  ungrab : D -> D;
  fetch_events : D -> D * fetched;
}.
Definition MAX_DRAIN_BATCHES : nat := 32.

Section Mice.
Context {D : Type} `{!PointerDevice D}.
(** Each device of the slice in turn, up to the first error. *)
Fixpoint for_devices (f : D -> D * option string) (ds : list D) : list D * option string :=
  match ds with
  | [] => ([], None)
  | d :: ds =>
      match f d with
      | (d, Some e) => (d :: ds, Some e)
      | (d, None) => let '(ds, r) := for_devices f ds in (d :: ds, r)
      end
  end.
Fixpoint drain_queue (n : nat) (d : D) : D * option string :=
  match n with
  | O => (d, Some "mouse input queue did not become empty"%string)
  | S n =>
      match fetch_events d with
      | (d, Fetched _) => drain_queue n d
      | (d, WouldBlock) => (d, None)
      | (d, FetchFailed e) => (d, Some e)
      end
  end.
Definition prepare (ds : list D) : list D * option string :=
  match for_devices grab ds with
  | (ds, Some e) => (ds, Some e)
  | (ds, None) => for_devices (drain_queue MAX_DRAIN_BATCHES) ds
  end.
Definition release_all (ds : list D) : list D := map ungrab ds.
Definition grab_all (ds : list D) : list D * option string :=
  match prepare ds with
  | (ds, Some e) => (release_all ds, Some e)
  | (ds, None) => (ds, None)
  end.
(** The closure of [process_mouse_events]. *)
Fixpoint read_mice (ds : list D) : list D * option (list PointerEvent) :=
  match ds with
  | [] => ([], Some [])
  | d :: ds =>
      match fetch_events d with
      | (d, FetchFailed _) => (d :: ds, None)
      | (d, r) =>
          let events := match r with Fetched events => omap (fun '(t, c, v) => parse_pointer_event t c v) events | _ => [] end in
          let '(ds, rest) := read_mice ds in (d :: ds, rest ← rest; Some (events ++ rest))
      end
  end.
End Mice.

(** * Keyboards *)
Record Keyboard (I : Type) := { kb_path : bytes; kb_identity : Z * Z * Z; kb_generation : Z; kb_input : I }.
Arguments kb_path {I} _.
Arguments kb_identity {I} _.
Arguments kb_generation {I} _.
Arguments kb_input {I} _.
Record Keyboards (I : Type) := { kb_devices : list (Keyboard I); next_generation : Z; reported_count : option Z }.
Arguments kb_devices {I} _.
Arguments next_generation {I} _.
Arguments reported_count {I} _.
(** A read: bytes (none at the end of the file), no data yet, or an error. *)
Inductive key_read := KeyBytes (bs : bytes) | KeyWait | KeyFailed.

Section Keyboards.
Context {I : Type} (read_input : I -> I * key_read).
Notation keyboards := (Keyboards I).
Definition keyboards_new : keyboards := {| kb_devices := []; next_generation := 0; reported_count := None |}.
Definition report_availability (k : keyboards) : keyboards * list KeyboardEvent :=
  let count := zlen (kb_devices k) in
  if bool_decide (reported_count k = Some count) then (k, [])
  else ({| kb_devices := kb_devices k; next_generation := next_generation k; reported_count := Some count |}, [Availability count]).
Definition is_candidate (candidates : list (bytes * (Z * Z * Z))) (d : Keyboard I) : bool :=
  existsb (fun c => bool_decide (c = (kb_path d, kb_identity d))) candidates.
(** The candidates in turn; [opens] is what opening a path gives. *)
Fixpoint open_candidates (opens : bytes -> option ((Z * Z * Z) * I)) (candidates : list (bytes * (Z * Z * Z))) (k : keyboards) : keyboards :=
  match candidates with
  | [] => k
  | (path, identity) :: candidates =>
      if zlen (kb_devices k) =? MAX_KEYBOARDS then k
      else
        let k' :=
          if existsb (fun d => bool_decide (kb_path d = path)) (kb_devices k) then k
          else match opens path with
               | None => k
               | Some (opened, input) =>
                   if negb (bool_decide (opened = identity)) then k
                   else match checked_add USIZE_MAX (next_generation k) 1 with
                        | None => k
                        | Some next =>
                            {| kb_devices := kb_devices k ++ [{| kb_path := path; kb_identity := identity;
                                 kb_generation := next_generation k; kb_input := input |}];
                               next_generation := next; reported_count := reported_count k |}
                        end
               end in
        open_candidates opens candidates k'
  end.
Definition kb_refresh (candidates : list (bytes * (Z * Z * Z))) (opens : bytes -> option ((Z * Z * Z) * I)) (k : keyboards)
    : keyboards * list KeyboardEvent :=
  let kept := filter (fun d => is_candidate candidates d = true) (kb_devices k) in
  let gone := filter (fun d => is_candidate candidates d = false) (kb_devices k) in
  let k := open_candidates opens candidates
             {| kb_devices := kept; next_generation := next_generation k; reported_count := reported_count k |} in
  let '(k, report) := report_availability k in
  (k, map (fun d => Removed (kb_generation d)) gone ++ report).

(** One input event: the type, the code and the value after the time. *)
Definition u16_at (i : nat) (bs : bytes) : Z := le_val (take 2 (drop i bs)).
Definition i32_at (i : nat) (bs : bytes) : Z := let v := le_val (take 4 (drop i bs)) in if v <? 2 ^ 31 then v else v - 2 ^ 32.
Fixpoint input_events (n : nat) (bs : bytes) : list bytes :=
  match n with O => [] | S n => take 24 bs :: input_events n (drop 24 bs) end.
Definition syn_dropped (e : bytes) : bool := (u16_at 16 e =? 0) && (u16_at 18 e =? 3).
Definition key_edge (generation : Z) (e : bytes) : option KeyboardEvent :=
  if u16_at 16 e =? EV_KEY then Some (KeyEdge {| device := generation; code := u16_at 18 e; value := i32_at 20 e |}) else None.
(** One device: its state while it is kept, and its events. *)
Definition poll_device (d : Keyboard I) : option (Keyboard I) * list KeyboardEvent :=
  let '(input, r) := read_input (kb_input d) in
  let d' := {| kb_path := kb_path d; kb_identity := kb_identity d; kb_generation := kb_generation d; kb_input := input |} in
  match r with
  | KeyWait => (Some d', [])
  | KeyBytes bs =>
      if negb (zlen bs =? 0) && (zlen bs mod INPUT_EVENT_BYTES =? 0) then
        let es := input_events (Z.to_nat (zlen bs / INPUT_EVENT_BYTES)) bs in
        if existsb syn_dropped es then (None, [Removed (kb_generation d)])
        else (Some d', omap (key_edge (kb_generation d)) es)
      else (None, [Removed (kb_generation d)])
  | KeyFailed => (None, [Removed (kb_generation d)])
  end.
Fixpoint poll_devices (ds : list (Keyboard I)) : list (Keyboard I) * list KeyboardEvent :=
  match ds with
  | [] => ([], [])
  | d :: ds =>
      let '(d, events) := poll_device d in
      let '(ds, rest) := poll_devices ds in
      (match d with Some d => d :: ds | None => ds end, events ++ rest)
  end.
Definition kb_poll (k : keyboards) : keyboards * list KeyboardEvent :=
  let '(ds, events) := poll_devices (kb_devices k) in
  let '(k, report) := report_availability {| kb_devices := ds; next_generation := next_generation k; reported_count := reported_count k |} in
  (k, events ++ report).
End Keyboards.
