(* ===== verification/HelperSession.v ===== *)
(** The event loop of the hotkey helper (crates/redunar-hotkeys/src/main.rs):
    hotkeys, the mice it owns and its requests to the control socket.  The
    socket, the clock, the input devices and the standard output are the
    interface [HelperWorld]. *)
From stdpp Require Import strings gmap sets.
From S2P Require Import Prelude Bytes Text Hotkeys.
Local Open Scope Z_scope.

Class HelperWorld (W D : Type) := {
  (** [UnixStream::connect] on the control path: a stream, or an error. *)
  connect : W -> W * (Z + string);
  (** A command written to a stream and the line that is read back. *)
  exchange : Z -> bytes -> W -> W * (bytes + string);
  drop_stream : Z -> W -> W;
  clock : W -> W * Z;
  flush_stdout : W -> W * option string;
  refresh_mice : W -> W * list D;
}.

Record MenuCapture := {
  menu_open : bool;
  pointer_grabbed : bool;
  control : option Z;
  pending_motion : PendingMotion;
  last_motion_sent : Z;
  last_input : Z;
  last_ping : Z;
}.
Definition menu_closed (now : Z) : MenuCapture := {|
  menu_open := false; pointer_grabbed := false; control := None; pending_motion := no_motion;
  last_motion_sent := now; last_input := now; last_ping := now |}.
Definition opened (stream now : Z) (grabbed : bool) : MenuCapture := {|
  menu_open := true; pointer_grabbed := grabbed; control := Some stream; pending_motion := no_motion;
  last_motion_sent := now; last_input := now; last_ping := now |}.
Definition closed_by_release (m : MenuCapture) : MenuCapture := {|
  menu_open := false; pointer_grabbed := false; control := None; pending_motion := no_motion;
  last_motion_sent := last_motion_sent m; last_input := last_input m; last_ping := last_ping m |}.
Definition with_motion (p : PendingMotion) (m : MenuCapture) : MenuCapture := {|
  menu_open := menu_open m; pointer_grabbed := pointer_grabbed m; control := control m; pending_motion := p;
  last_motion_sent := last_motion_sent m; last_input := last_input m; last_ping := last_ping m |}.
Definition with_times (sent input ping : Z) (m : MenuCapture) : MenuCapture := {|
  menu_open := menu_open m; pointer_grabbed := pointer_grabbed m; control := control m; pending_motion := pending_motion m;
  last_motion_sent := sent; last_input := input; last_ping := ping |}.
Inductive WatchdogAction := NoAction | Inactive.
#[global] Instance WatchdogAction_eq_dec : EqDecision WatchdogAction.
Proof. solve_decision. Defined.
Definition watchdog_action (m : MenuCapture) (now : Z) : WatchdogAction :=
  if menu_open m && (MENU_INACTIVITY_TIMEOUT <=? sat_sub now (last_input m)) then Inactive else NoAction.

(** * Commands and answers *)
Definition menu_toggle_command : bytes := ascii_bytes "MENU TOGGLE" ++ [10].
Definition menu_escape_command : bytes := ascii_bytes "MENU ESCAPE" ++ [10].
Definition menu_ping_command : bytes := ascii_bytes "MENU PING" ++ [10].
Definition menu_button_command (pressed : bool) : bytes := ascii_bytes (if pressed then "MENU BUTTON 1" else "MENU BUTTON 0") ++ [10].
Definition int_text (x : Z) : bytes := if x <? 0 then 45 :: to_decimal (- x) else to_decimal x.
Definition menu_move_command (x y : Z) : bytes := ascii_bytes "MENU MOVE " ++ int_text x ++ 32 :: int_text y ++ [10].
Definition save_command (seconds : Z) : bytes := ascii_bytes "SAVE " ++ to_decimal seconds ++ [10].
Definition ok_line : bytes := ascii_bytes "OK" ++ [10].
Definition grab_line : bytes := ascii_bytes "OK GRAB" ++ [10].
Definition release_line : bytes := ascii_bytes "OK RELEASE" ++ [10].
Definition read_response (response : bytes) : outcome bytes bytes :=
  match strip_prefix (ascii_bytes "ERROR ") response with
  | Some error => Err (trim_end error)
  | None =>
      if negb (bytes_eqb response ok_line) && negb (bytes_eqb response grab_line || bytes_eqb response release_line)
      then Err (ascii_bytes "Replay control returned an invalid response") else Ok response
  end.

Section Session.
Context {W D : Type} `{!PointerDevice D} `{!HelperWorld W D}.
Record Session := { world : W; mice : list D; menu : MenuCapture; pressed : gset (Z * Z); printed : list bytes }.
Notation helper A := (st Session bytes A).
Definition set_world (v : W) (s : Session) : Session := {| world := v; mice := mice s; menu := menu s; pressed := pressed s; printed := printed s |}.
Definition set_mice (v : list D) (s : Session) : Session := {| world := world s; mice := v; menu := menu s; pressed := pressed s; printed := printed s |}.
Definition set_menu_capture (v : MenuCapture) (s : Session) : Session :=
  {| world := world s; mice := mice s; menu := v; pressed := pressed s; printed := printed s |}.
Definition set_keys (v : gset (Z * Z)) (s : Session) : Session :=
  {| world := world s; mice := mice s; menu := menu s; pressed := v; printed := printed s |}.
Definition hp_gets {A} (f : Session -> A) : helper A := fun s => (s, Ok (f s)).
Definition hp_modify (f : Session -> Session) : helper unit := fun s => (f s, Ok tt).
Definition hp_raise {A} (e : bytes) : helper A := fun s => (s, Err e).
Definition print_line (l : bytes) : helper unit := hp_modify (fun s =>
  {| world := world s; mice := mice s; menu := menu s; pressed := pressed s; printed := printed s ++ [l] |}).
(** A call to the world. *)
Definition ask {A} (f : W -> W * A) : helper A := fun s => let '(w, a) := f (world s) in (set_world w s, Ok a).
(** A result as a value. *)
Definition try_helper {A} (m : helper A) : helper (A + bytes) := fun s =>
  match m s with (s, Ok a) => (s, Ok (inl a)) | (s, Err e) => (s, Ok (inr e)) | (s, Panic) => (s, Panic) end.
Definition from_sum {A} (prefix : string) (r : A + string) : helper A :=
  match r with inl a => mret a | inr e => hp_raise (ascii_bytes prefix ++ ascii_bytes e) end.

Definition request_on_stream (stream : Z) (command : bytes) : helper bytes :=
  r ← ask (exchange (D := D) stream command);
  response ← from_sum "" r;
  lift (read_response response).
Definition open_stream : helper Z :=
  r ← ask (connect (D := D));
  from_sum "Replay control connection failed: " r.
Definition close_stream (stream : Z) : helper unit := hp_modify (fun s => set_world (drop_stream (D := D) stream (world s)) s).
(** The temporary stream is dropped whatever the request gives. *)
Definition request_control (command : bytes) : helper bytes :=
  stream ← open_stream;
  r ← try_helper (request_on_stream stream command);
  _ ← close_stream stream;
  match r with inl a => mret a | inr e => hp_raise e end.
Definition menu_request (command : bytes) : helper bytes :=
  c ← hp_gets (fun s => control (menu s));
  match c with
  | Some stream => request_on_stream stream command
  | None => hp_raise (ascii_bytes "Replay menu control session is unavailable")
  end.
Definition request_save (command : bytes) : helper unit :=
  r ← request_control command;
  if bytes_eqb r ok_line then mret tt else hp_raise (ascii_bytes "Replay control returned an invalid save response").
Definition request_keeps_menu_open (command : bytes) : helper bool :=
  r ← menu_request command;
  mret (negb (bytes_eqb r release_line)).
(** [.unwrap_or(false)]. *)
Definition keeps_open (command : bytes) : helper bool :=
  r ← try_helper (request_keeps_menu_open command);
  mret (match r with inl b => b | inr _ => false end).

(** * The menu *)
(** Storing [None] drops the stream. *)
Definition drop_control : helper unit :=
  c ← hp_gets (fun s => control (menu s));
  match c with Some stream => close_stream stream | None => mret tt end.
(** The second attempt is [or_else]; the answer is ignored. *)
Definition ask_to_close (command : bytes) : helper unit :=
  r ← try_helper (menu_request command);
  match r with inl _ => mret tt | inr _ => _ ← try_helper (request_control command); mret tt end.
Definition close_menu (command : bytes) : helper unit :=
  _ ← ask_to_close command;
  _ ← hp_modify (fun s => set_mice (release_all (mice s)) s);
  _ ← drop_control;
  _ ← hp_modify (fun s => set_menu_capture (closed_by_release (menu s)) s);
  print_line (ascii_bytes "MENU CLOSED").
Definition open_menu (stream : Z) (grabbed : bool) (line : string) : helper unit :=
  now ← ask (clock (D := D));
  _ ← hp_modify (set_menu_capture (opened stream now grabbed));
  print_line (ascii_bytes line).
Definition take_mice : helper (option string) := fun s => let '(ds, r) := grab_all (mice s) in (set_mice ds s, Ok r).
(** The owner has opened the menu and grants the pointer. *)
Definition menu_granted (stream : Z) : helper unit :=
  none ← hp_gets (fun s => (length (mice s) =? 0)%nat);
  if none : bool then open_menu stream false "MENU OPENED VIEW ONLY"
  else
    failed ← take_mice;
    match failed with
    | None => open_menu stream true "MENU OPENED"
    | Some _ => open_menu stream false "MENU OPENED VIEW ONLY"
    end.
Definition ask_to_open (stream : Z) : helper unit :=
  r ← try_helper (request_on_stream stream menu_toggle_command);
  match r with
  | inl response =>
      if bytes_eqb response grab_line then menu_granted stream
      else _ ← close_stream stream; print_line (ascii_bytes "REJECTED Replay menu returned an invalid open response")
  | inr error => _ ← close_stream stream; print_line (ascii_bytes "REJECTED " ++ error)
  end.
Definition toggle_menu : helper unit :=
  is_open ← hp_gets (fun s => menu_open (menu s));
  if is_open : bool then close_menu menu_toggle_command
  else
    c ← try_helper open_stream;
    match c with
    | inl stream => ask_to_open stream
    | inr error => print_line (ascii_bytes "REJECTED " ++ error)
    end.

(** * The pointer *)
Definition menu_modify (f : MenuCapture -> MenuCapture) : helper unit := hp_modify (fun s => set_menu_capture (f (menu s)) s).
Fixpoint forward_events (events : list PointerEvent) : helper bool :=
  match events with
  | [] => mret true
  | e :: events =>
      now ← ask (clock (D := D));
      _ ← menu_modify (fun m => with_times (last_motion_sent m) now (last_ping m) m);
      match e with
      | LeftButton p =>
          kept ← keeps_open (menu_button_command p);
          if kept : bool then forward_events events else mret false
      | _ =>
          _ ← menu_modify (fun m => with_motion (motion_add e (pending_motion m)) m);
          forward_events events
      end
  end.
Definition take_motion (now : Z) : helper (option (Z * Z)) := fun s =>
  let m := menu s in
  if MOTION_INTERVAL <=? sat_sub now (last_motion_sent m) then
    let '(p, motion) := motion_take (pending_motion m) in (set_menu_capture (with_motion p m) s, Ok motion)
  else (s, Ok None).
Definition send_motion (now : Z) : helper bool :=
  motion ← take_motion now;
  match motion with
  | None => mret true
  | Some (x, y) =>
      let '(x, y) := accelerated_pointer_motion x y in
      kept ← keeps_open (menu_move_command x y);
      _ ← (if kept : bool then menu_modify (fun m => with_times now (last_input m) (last_ping m) m) else mret tt);
      mret kept
  end.
Definition send_ping (now : Z) : helper bool :=
  due ← hp_gets (fun s => MENU_PING_INTERVAL <=? sat_sub now (last_ping (menu s)));
  if due : bool then
    kept ← keeps_open menu_ping_command;
    _ ← (if kept : bool then menu_modify (fun m => with_times (last_motion_sent m) (last_input m) now m) else mret tt);
    mret kept
  else mret true.
(** The events of the mice that are owned; [None] is a failed read. *)
Definition read_owned : helper (option (list PointerEvent)) := fun s =>
  if pointer_grabbed (menu s) then let '(ds, r) := read_mice (mice s) in (set_mice ds s, Ok r) else (s, Ok (Some [])).
Definition process_mouse_events : helper bool :=
  events ← read_owned;
  match events with
  | None => mret false
  | Some events =>
      kept ← forward_events events;
      if kept : bool then
        now ← ask (clock (D := D));
        kept ← send_motion now;
        if kept : bool then send_ping now else mret false
      else mret false
  end.

(** * Events *)
Definition close_when_open : helper unit :=
  is_open ← hp_gets (fun s => menu_open (menu s));
  if is_open : bool then close_menu menu_escape_command else mret tt.
Definition flush : helper unit :=
  r ← ask (flush_stdout (D := D));
  match r with None => mret tt | Some e => hp_raise (ascii_bytes e) end.
Definition hotkey_of (bindings : list KeyChord) (c m : Z) : option HotkeyAction :=
  match list_find (fun b => chord_key b = c /\ modifiers b = m) bindings with Some (_, b) => Some (chord_action b) | None => None end.
Definition run_action (action : HotkeyAction) : helper unit :=
  match action with
  | ToggleOverlay =>
      is_open ← hp_gets (fun s => menu_open (menu s));
      _ ← (if is_open : bool then mret tt
           else ds ← ask refresh_mice; hp_modify (set_mice ds));
      toggle_menu
  | SaveHotkey seconds =>
      r ← try_helper (request_save (save_command seconds));
      print_line (match r with inl _ => ascii_bytes "ACTIVATED " ++ to_decimal seconds | inr e => ascii_bytes "REJECTED " ++ e end)
  end.
Definition press_key (bindings : list KeyChord) (e : KeyEvent) : helper unit :=
  first ← hp_gets (fun s => logical_press_is_new (pressed s) (code e));
  _ ← hp_modify (fun s => set_keys ({[ (device e, code e) ]} ∪ pressed s) s);
  if negb first then mret tt
  else
    action ← hp_gets (fun s => hotkey_of bindings (code e) (active_modifiers (pressed s)));
    _ ← (if negb (bool_decide (action = Some ToggleOverlay)) && negb (is_modifier_key (code e)) then close_when_open else mret tt);
    match action with None => mret tt | Some action => _ ← run_action action; flush end.
Definition on_key (bindings : list KeyChord) (e : KeyEvent) : helper unit :=
  is_open ← hp_gets (fun s => menu_open (menu s));
  if is_open && escape_closes_menu e then
    _ ← (if value e =? 1 then hp_modify (fun s => set_keys ({[ (device e, code e) ]} ∪ pressed s) s) else mret tt);
    close_menu menu_escape_command
  else if value e =? 0 then hp_modify (fun s => set_keys (pressed s ∖ {[ (device e, code e) ]}) s)
  else if value e =? 1 then press_key bindings e
  else mret tt.
Definition on_event (bindings : list KeyChord) (e : KeyboardEvent) : helper unit :=
  match e with
  | KeyEdge e => on_key bindings e
  | Removed generation =>
      _ ← hp_modify (fun s => set_keys (filter (fun k => k.1 <> generation) (pressed s)) s);
      close_when_open
  | Availability count =>
      _ ← print_line (if count =? 0 then ascii_bytes "WAITING KEYBOARD" else ascii_bytes "READY " ++ to_decimal count);
      flush
  end.
Fixpoint on_events (bindings : list KeyChord) (es : list KeyboardEvent) : helper unit :=
  match es with [] => mret tt | e :: es => _ ← on_event bindings e; on_events bindings es end.
(** What the loop does after the events of one tick. *)
Definition after_events : helper unit :=
  is_open ← hp_gets (fun s => menu_open (menu s));
  _ ← (if is_open : bool then
         kept ← process_mouse_events;
         if kept : bool then mret tt else close_menu menu_escape_command
       else mret tt);
  is_open ← hp_gets (fun s => menu_open (menu s));
  if is_open : bool then
    now ← ask (clock (D := D));
    inactive ← hp_gets (fun s => negb (bool_decide (watchdog_action (menu s) now = NoAction)));
    if inactive : bool then close_menu menu_escape_command else mret tt
  else mret tt.
(** A tick: the window's events in the order they came, or a timeout. *)
Definition helper_tick (bindings : list KeyChord) (window : list KeyboardEvent) : helper unit :=
  _ ← on_events bindings (chord_event_batch window);
  after_events.
(** The loop over the ticks until the helper is told to stop, and what [run]
    does when it has ended, with an error or not. *)
Fixpoint monitor_events (bindings : list KeyChord) (ticks : list (list KeyboardEvent)) : helper unit :=
  match ticks with
  | [] => hp_modify (fun s => set_mice (release_all (mice s)) s)
  | window :: ticks => _ ← helper_tick bindings window; monitor_events bindings ticks
  end.
Definition run_helper (bindings : list KeyChord) (ticks : list (list KeyboardEvent)) (w : W) (now : Z) : Session * outcome bytes unit :=
  let s := {| world := w; mice := []; menu := menu_closed now; pressed := ∅; printed := [] |} in
  let '(s, r) := monitor_events bindings ticks s in
  (set_mice (release_all (mice s)) s, r).
End Session.
Arguments Session W D : clear implicits.
