(* ===== verification/HotkeysTheorems.v ===== *)
(** The helper's parts one by one: its shortcut configuration, pointer motion,
    the order of a window of key edges, the generations of its keyboards, the
    ownership of mice, and the commands it writes. *)
From stdpp Require Import strings gmap sets sorting.
From S2P Require Import Prelude Bytes Text Arith Profiles Control Hotkeys HelperSession.
Local Open Scope Z_scope.

(** * Commands *)
Lemma int_text_reads x : - 4096 <= x <= 4096 -> parse_signed I32_MAX 10 (int_text x) = Some x /\ Forall (fun b => 32 < b < 58) (int_text x)
  /\ (length (int_text x) <= 21)%nat.
Proof.
  intros Hx. assert (Hc : forall digits y, decimal_of digits y -> Forall (fun b => 32 < b < 58) digits).
  { intros digits y (ds & _ & _ & _ & Hf). eapply Forall_impl; [exact Hf|]. cbn. lia. }
  unfold int_text, I32_MAX. assert (Hu : 4096 <= U64_MAX) by (unfold U64_MAX; lia). destruct (Z.ltb_spec x 0).
  - destruct (to_decimal_of (- x)) as [Hd Hl]; [lia|]. rewrite (from_negative_decimal _ _ (- x)) by (done || lia).
    splits; [f_equal; lia|apply Forall_cons; split; [lia|by eapply Hc]|cbn [length]; lia].
  - destruct (to_decimal_of x) as [Hd Hl]; [lia|]. rewrite (from_signed_decimal _ _ x) by (done || lia). splits; [done|by eapply Hc|lia].
Qed.
(** A line of ASCII is a command's line. *)
Lemma parse_line l : Forall (fun b => b < 128) l -> parse_command (l ++ [10]) =
  (if bytes_eqb l (ascii_bytes "MENU TOGGLE") then Ok ToggleMenu
   else if bytes_eqb l (ascii_bytes "MENU ESCAPE") then Ok EscapeCommand
   else if bytes_eqb l (ascii_bytes "MENU PING") then Ok PingCommand
   else match strip_prefix (ascii_bytes "MENU BUTTON ") l with
        | Some value =>
            if bytes_eqb value (ascii_bytes "0") then Ok (ButtonCommand false)
            else if bytes_eqb value (ascii_bytes "1") then Ok (ButtonCommand true)
            else Err (ControlMessage "invalid Replay button state")
        | None => match strip_prefix (ascii_bytes "MENU MOVE ") l with Some value => parse_move value | None => parse_save l end
        end).
Proof.
  intros H. unfold parse_command. rewrite utf8_ascii by (apply Forall_app; split; [done|repeat constructor]). cbn [negb].
  by rewrite strip_suffix_app.
Qed.
Lemma parse_move_text x y :
  - 4096 <= x <= 4096 -> - 4096 <= y <= 4096 -> parse_move (int_text x ++ 32 :: int_text y) = Ok (MoveCommand x y).
Proof.
  intros Hx Hy. destruct (int_text_reads x Hx) as (Ex & Cx & _), (int_text_reads y Hy) as (Ey & Cy & _). unfold parse_move.
  assert (Hn : forall t, Forall (fun b => 32 < b < 58) t -> Forall (fun b => Z.eqb 32 b = false) t).
  { intros t H. eapply Forall_impl; [exact H|]. intros b Hb. cbv beta in *. lia. }
  rewrite (split_on_word _ _ 32) by (done || by apply Hn). rewrite (split_on_none _ (int_text y)) by by apply Hn. cbn.
  rewrite Ex, Ey. cbn [in_delta default]. unfold in_delta, default. rewrite !(proj2 (andb_true_iff _ _)) by (rewrite !Z.leb_le; lia). done.
Qed.
Lemma fits_read cmd rest :
  (length cmd <= 63)%nat -> Forall (fun b => b <> 10) cmd ->
  read_command ((ReadByte <$> cmd ++ [10]) ++ rest) = (rest, Ok (Some (cmd ++ [10]))).
Proof.
  intros Hl Hn. assert (H : forall acc, (length acc + length cmd <= 63)%nat ->
    read_bytes acc ((ReadByte <$> cmd ++ [10]) ++ rest) = (rest, Ok (Some (acc ++ cmd ++ [10])))).
  { clear Hl. induction Hn as [|b cmd Hb Hn IH]; intros acc Ha; [done|]. cbn [app fmap list_fmap read_bytes length] in *.
    rewrite (proj2 (Z.eqb_neq _ _) Hb). unfold MAX_COMMAND_BYTES, zlen. rewrite length_app. cbn [length].
    rewrite (proj2 (Z.leb_le _ _)) by lia. cbn [negb orb]. unfold fmap in IH. rewrite IH by (rewrite length_app; cbn; lia). by rewrite <- app_assoc. }
  unfold read_command. rewrite H by (cbn; lia). cbn [app mbind outcome_bind]. rewrite last_snoc, bool_decide_true by done.
  unfold MAX_COMMAND_BYTES, zlen. rewrite length_app. cbn [length]. rewrite (proj2 (Z.ltb_ge _ _)) by lia.
  destruct (Nat.eqb_spec (length cmd + 1) 0); [lia|done].
Qed.

(** The commands that the helper sends, and what they mean. *)
Inductive means : bytes -> ReplayControlCommand -> Prop :=
| MeansToggle : means menu_toggle_command ToggleMenu
| MeansEscape : means menu_escape_command EscapeCommand
| MeansPing : means menu_ping_command PingCommand
| MeansButton p : means (menu_button_command p) (ButtonCommand p)
| MeansMove x y : - 4096 <= x <= 4096 -> - 4096 <= y <= 4096 -> means (menu_move_command x y) (MoveCommand x y)
| MeansSave d : means (save_command (duration_seconds d)) (SaveCommand d).
Lemma duration_range d : 15 <= duration_seconds d <= 900.
Proof. destruct d; cbn; lia. Qed.
Lemma means_line cmd meaning :
  means cmd meaning -> exists l, cmd = l ++ [10] /\ (length l <= 63)%nat /\ Forall (fun b => 10 < b < 128) l
    /\ parse_command cmd = Ok meaning.
Proof.
  intros H. assert (Hw : forall t, Forall (fun b => 32 < b < 58) t -> Forall (fun b => 10 < b < 128) t).
  { intros t Ht. eapply Forall_impl; [exact Ht|]. cbn. lia. }
  assert (Ha : forall s : string, forallb (fun b => (10 <? b) && (b <? 128)) (ascii_bytes s) = true -> Forall (fun b => 10 < b < 128) (ascii_bytes s)).
  { intros s Hs. rewrite forallb_forall in Hs. apply Forall_forall. intros b Hb%list_elem_of_In. specialize (Hs b Hb). lia. }
  destruct H as [| | |p|x y Hx Hy|d].
  - eexists. split; [done|]. splits; [cbn; lia|by apply Ha|done].
  - eexists. split; [done|]. splits; [cbn; lia|by apply Ha|done].
  - eexists. split; [done|]. splits; [cbn; lia|by apply Ha|done].
  - eexists. split; [done|]. destruct p; (splits; [cbn; lia|by apply Ha|done]).
  - destruct (int_text_reads x Hx) as (_ & Cx & Lx), (int_text_reads y Hy) as (_ & Cy & Ly).
    assert (Hf : Forall (fun b => 10 < b < 128) (ascii_bytes "MENU MOVE " ++ int_text x ++ 32 :: int_text y)).
    { apply Forall_app. split; [by apply Ha|]. apply Forall_app. split; [by apply Hw|]. apply Forall_cons. split; [lia|by apply Hw]. }
    exists (ascii_bytes "MENU MOVE " ++ int_text x ++ 32 :: int_text y). split; [unfold menu_move_command; by rewrite <- !app_assoc|].
    split; [rewrite !length_app; cbn [length]; change (length (ascii_bytes "MENU MOVE ")) with 10%nat; lia|]. split; [done|].
    replace (menu_move_command x y) with ((ascii_bytes "MENU MOVE " ++ int_text x ++ 32 :: int_text y) ++ [10])
      by (unfold menu_move_command; by rewrite <- !app_assoc).
    rewrite parse_line by (eapply Forall_impl; [exact Hf|cbn; lia]). rewrite <- (parse_move_text x y Hx Hy). cbn -[parse_move int_text].
    unfold strip_prefix. cbn -[parse_move int_text]. by destruct (int_text x ++ 32 :: int_text y).
  - pose proof (duration_range d). assert (Hu : 4096 <= U64_MAX) by (unfold U64_MAX; lia). destruct (to_decimal_of (duration_seconds d)) as [Hd Hl]; [lia|].
    assert (Hf : Forall (fun b => 10 < b < 128) (ascii_bytes "SAVE " ++ to_decimal (duration_seconds d))).
    { apply Forall_app. split; [by apply Ha|]. destruct Hd as (ds & _ & _ & _ & Hf). eapply Forall_impl; [exact Hf|cbn; lia]. }
    eexists. split; [unfold save_command; by rewrite app_assoc|].
    split; [rewrite length_app; change (length (ascii_bytes "SAVE ")) with 5%nat; lia|]. split; [done|].
    destruct d; vm_compute; reflexivity.
Qed.

Lemma command_accepted cmd meaning rest :
  means cmd meaning ->
  read_command ((ReadByte <$> cmd) ++ rest) = (rest, Ok (Some cmd)) /\ parse_command cmd = Ok meaning.
Proof.
  intros H. destruct (means_line cmd meaning H) as (l & -> & Hl & Hc & Hp). split; [|done]. apply fits_read; [done|].
  eapply Forall_impl; [exact Hc|]. cbn. lia.
Qed.

(** C36: Every command that the helper writes is read by the daemon as one command
    and parses to what the helper means: the texts of toggling, closing, pings
    and buttons, a motion of at most 4096 each way, and the save of each
    duration. *)
Theorem hotkey_commands_accepted cmd meaning rest :
  means cmd meaning ->
  read_command ((ReadByte <$> cmd) ++ rest) = (rest, Ok (Some cmd)) /\ parse_command cmd = Ok meaning.
Proof. apply command_accepted. Qed.

(** * Motion *)
Lemma bounded_motion_range a d : - 4096 <= bounded_motion a d <= 4096.
Proof. unfold bounded_motion, clamp_to, MOTION_LIMIT. lia. Qed.
Lemma i64_sat_id x : Z.abs x <= 2 ^ 62 -> i64_sat x = x.
Proof. unfold i64_sat, clamp_to, I64_MIN, I64_TOP. change (2 ^ 62) with 4611686018427387904. lia. Qed.
(** A scaled coordinate is the nearest integer, half away from zero, up to the limit. *)
Lemma scaled_spec gain v ratio :
  Z.abs v <= 2147483648 -> 0 <= gain <= 18100 -> 0 <= ratio <= 1568 ->
  let n := v * gain * ratio in
  scaled gain v ratio = clamp_to (-4096) 4096 (Z.sgn n * ((Z.abs n + 500000) / 1000000)).
Proof.
  intros Hv Hg Hr n.
  assert (Hn1 : Z.abs (v * gain) <= 2147483648 * 18100).
  { rewrite Z.abs_mul, (Z.abs_eq gain) by lia. apply Z.mul_le_mono_nonneg; lia. }
  assert (Hn : Z.abs n <= 61000000000000000).
  { unfold n. rewrite Z.abs_mul, (Z.abs_eq ratio) by lia.
    pose proof (Z.mul_le_mono_nonneg (Z.abs (v * gain)) (2147483648 * 18100) ratio 1568). lia. }
  unfold scaled. change (Z.quot 1000000 2) with 500000. rewrite (i64_sat_id (v * gain)) by (change (2 ^ 62) with 4611686018427387904; lia).
  fold n. rewrite (i64_sat_id n) by (change (2 ^ 62) with 4611686018427387904; lia).
  assert (Hq : Z.quot (if 0 <=? n then i64_sat (n + 500000) else i64_sat (n - 500000)) 1000000 = Z.sgn n * ((Z.abs n + 500000) / 1000000)).
  { destruct (Z.leb_spec 0 n).
    - rewrite i64_sat_id by (change (2 ^ 62) with 4611686018427387904; lia). rewrite Z.quot_div_nonneg by lia.
      destruct (Z.eq_dec n 0) as [->|]; [done|]. rewrite Z.sgn_pos, Z.abs_eq by lia. lia.
    - rewrite i64_sat_id by (change (2 ^ 62) with 4611686018427387904; lia). rewrite Z.sgn_neg, Z.abs_neq by lia.
      replace (n - 500000) with (- (- n + 500000)) by lia. rewrite Z.quot_opp_l by lia. rewrite Z.quot_div_nonneg by lia. lia. }
  rewrite Hq. set (q := Z.sgn n * _). assert (Z.abs q <= 61000000001).
  { unfold q. rewrite Z.abs_mul. assert (0 <= (Z.abs n + 500000) / 1000000 <= 61000000001).
    { split; [apply Z.div_pos; lia|]. apply Z.div_le_upper_bound; lia. }
    rewrite (Z.abs_eq ((Z.abs n + 500000) / 1000000)) by lia. destruct (Z.sgn_spec n) as [[_ ->]|[[_ ->]|[_ ->]]]; cbn; lia. }
  unfold I32_MIN, I32_TOP, MOTION_LIMIT, clamp_to. destruct (_ && _) eqn:E; [done|]. destruct (Z.ltb_spec q 0); lia.
Qed.
Definition speed_gain (x y : Z) : Z := 8500 + 300 * Z.min (Z.max (Z.abs x) (Z.abs y)) 32.

(** The motion that is sent is the motion times a gain between 8.5 and 18.1
    that grows with the speed, the vertical axis 1.568 times as far, rounded to
    the nearest integer (half away from zero) and cut at 4096, so that the
    daemon always accepts it; it keeps the direction of each axis, and the
    opposite motion gives the opposite result. *)
Theorem motion_exact x y :
  - 2147483648 <= x <= 2147483647 -> - 2147483648 <= y <= 2147483647 ->
  let '(sx, sy) := accelerated_pointer_motion x y in
  let g := speed_gain x y in
  8500 <= g <= 18100
  /\ sx = clamp_to (-4096) 4096 (Z.sgn x * ((Z.abs x * g * 1000 + 500000) / 1000000))
  /\ sy = clamp_to (-4096) 4096 (Z.sgn y * ((Z.abs y * g * 1568 + 500000) / 1000000))
  /\ (- 2147483647 <= x -> - 2147483647 <= y -> accelerated_pointer_motion (- x) (- y) = (- sx, - sy))
  /\ means (menu_move_command sx sy) (MoveCommand sx sy).
Proof.
  intros Hx Hy. unfold accelerated_pointer_motion, POINTER_BASE_GAIN_MILLI, POINTER_SPEED_GAIN_MILLI, POINTER_SPEED_LIMIT, POINTER_VERTICAL_RATIO_MILLI.
  rewrite !Z.abs_opp. replace (8500 + Z.min (Z.max (Z.abs x) (Z.abs y)) 32 * 300) with (speed_gain x y) by (unfold speed_gain; lia).
  assert (Hg : 8500 <= speed_gain x y <= 18100) by (unfold speed_gain; lia). set (g := speed_gain x y) in *.
  assert (Hs : forall v r, 0 < r <= 1568 -> Z.abs v <= 2147483648 ->
    scaled g v r = clamp_to (-4096) 4096 (Z.sgn v * ((Z.abs v * g * r + 500000) / 1000000))).
  { intros v r Hr Hv. rewrite scaled_spec by lia. rewrite !Z.sgn_mul, !Z.abs_mul, (Z.sgn_pos g), (Z.sgn_pos r), (Z.abs_eq g), (Z.abs_eq r) by lia.
    by rewrite !Z.mul_1_r. }
  assert (Hopp : forall a b, clamp_to (-4096) 4096 (- a * b) = - clamp_to (-4096) 4096 (a * b)) by (unfold clamp_to; intros; lia).
  rewrite !Hs by lia. split; [done|]. split; [done|]. split; [done|]. split.
  - intros _ _. by rewrite !Z.sgn_opp, ?Z.abs_opp, !Hopp.
  - apply MeansMove; unfold clamp_to; lia.
Qed.

(** * Windows of key events *)
(** The edges before the first other event, and each other event with the edges after it. *)
Fixpoint runs (events : list KeyboardEvent) : list KeyEvent * list (KeyboardEvent * list KeyEvent) :=
  match events with
  | [] => ([], [])
  | KeyEdge e :: events => let '(run, rest) := runs events in (e :: run, rest)
  | barrier :: events => let '(run, rest) := runs events in ([], (barrier, run) :: rest)
  end.
Definition unrun (r : list KeyEvent * list (KeyboardEvent * list KeyEvent)) : list KeyboardEvent :=
  (KeyEdge <$> r.1) ++ (r.2 ≫= fun '(barrier, run) => barrier :: (KeyEdge <$> run)).
Definition is_edge (e : KeyboardEvent) : bool := match e with KeyEdge _ => true | _ => false end.
Lemma runs_lossless events : unrun (runs events) = events.
Proof.
  induction events as [|e events IH]; [done|]. cbn [runs]. destruct (runs events) as [run rest]. unfold unrun in *. cbn in *.
  destruct e; cbn; by rewrite IH.
Qed.
Lemma runs_edges es events : runs ((KeyEdge <$> es) ++ events) = (es ++ (runs events).1, (runs events).2).
Proof. induction es as [|e es IH]; cbn in *; [by destruct (runs events)|]. by rewrite IH. Qed.
Definition by_key (run : list KeyEvent) : list KeyEvent := sort_by_key edge_order run.
Lemma sort_runs_spec edges events :
  runs (sort_runs edges events) = (by_key (reverse edges ++ (runs events).1), map (fun '(b, run) => (b, by_key run)) (runs events).2).
Proof.
  revert edges. induction events as [|e events IH]; intros edges; cbn [sort_runs].
  - rewrite <- (app_nil_r (KeyEdge <$> _)), runs_edges. cbn. by rewrite !app_nil_r.
  - destruct e as [e|g|n].
    + rewrite IH, reverse_cons, <- app_assoc. cbn. by destruct (runs events).
    + rewrite runs_edges. cbn [runs]. rewrite IH, app_nil_r. destruct (runs events). cbn. by rewrite app_nil_r.
    + rewrite runs_edges. cbn [runs]. rewrite IH, app_nil_r. destruct (runs events). cbn. by rewrite app_nil_r.
Qed.
Definition edge_ok (e : KeyEvent) : Prop := 0 <= device e <= USIZE_MAX /\ 0 <= code e <= U16_MAX.
Lemma priority_range e : 0 <= edge_priority e <= 5.
Proof. unfold edge_priority. repeat case_match; lia. Qed.
Lemma order_priority a b : edge_ok a -> edge_ok b -> edge_order a <= edge_order b -> edge_priority a <= edge_priority b.
Proof.
  intros [Ha Ha'] [Hb Hb']. unfold edge_order, USIZE_MAX, U64_MAX, U16_MAX in *. change (2 ^ 80) with 1208925819614629174706176.
  change (2 ^ 16) with 65536. lia.
Qed.
Lemma by_key_ordered run : Forall edge_ok run -> by_key run ≡ₚ run /\ StronglySorted (fun a b => edge_priority a <= edge_priority b) (by_key run).
Proof.
  intros Hok. assert (Hp : by_key run ≡ₚ run) by apply sort_by_key_perm. split; [done|].
  pose proof (sort_by_key_sorted edge_order run) as Hs. fold (by_key run) in Hs. rewrite <- Hp in Hok. clear Hp.
  induction Hs as [|a l Hs IH Ha]; [constructor|]. apply Forall_cons in Hok as [Hok Hl]. constructor; [by apply IH|].
  rewrite Forall_forall in *. intros b Hb. apply order_priority; auto.
Qed.

(** A window of key events keeps its lifecycle messages in place; between two
    of them the edges are only reordered, and sorted so that presses of
    modifiers come first, then presses of other keys, repeats, releases of
    other keys, and releases of modifiers last. *)
Theorem chord_window_ordered events :
  (forall e, KeyEdge e ∈ events -> edge_ok e) ->
  let before := runs events in let after := runs (chord_event_batch events) in
  unrun before = events /\ map fst after.2 = map fst before.2
  /\ Forall2 (fun run sorted => sorted ≡ₚ run /\ StronglySorted (fun a b => edge_priority a <= edge_priority b) sorted)
       (before.1 :: map snd before.2) (after.1 :: map snd after.2).
Proof.
  intros Hok before after. unfold after, chord_event_batch. rewrite sort_runs_spec. cbn [reverse rev_append fst snd app].
  split; [apply runs_lossless|]. assert (Hin : Forall edge_ok before.1 /\ Forall (fun s => Forall edge_ok s.2) before.2).
  { unfold before. clear -Hok. induction events as [|e events IH]; [by split|]. cbn [runs].
    destruct (IH ltac:(intros x Hx; apply Hok; by apply list_elem_of_further)) as [H1 H2].
    destruct e as [e|g|n]; destruct (runs events) as [run rest]; cbn in *.
    - split; [|done]. apply Forall_cons. split; [|done]. apply Hok, list_elem_of_here.
    - split; [by apply Forall_nil|]. by apply Forall_cons.
    - split; [by apply Forall_nil|]. by apply Forall_cons. }
  fold before. destruct Hin as [H1 H2]. split.
  - rewrite map_map. apply map_ext. by intros [].
  - constructor; [by apply by_key_ordered|]. rewrite map_map. clear -H2. induction H2 as [|[b run] segs Hr H2 IH]; [constructor|].
    constructor; [by apply by_key_ordered|done].
Qed.

(** * Shortcuts *)
Definition chord_ok (c : KeyChord) : Prop :=
  1 <= chord_key c <= 88 /\ is_modifier_key (chord_key c) = false /\ 0 <= modifiers c <= 15
  /\ match chord_action c with SaveHotkey s => exists d, duration_seconds d = s | ToggleOverlay => True end.
Lemma key_code_range key c : key_code key = Some c -> 1 <= c <= 88 /\ is_modifier_key c = false.
Proof.
  unfold key_code. destruct (list_find _ key_codes) as [[i [name c']]|] eqn:E; [|done]. intros [= <-].
  apply list_find_Some in E as (Hi & _ & _). assert (Hall : forallb (fun e => (1 <=? e.2) && (e.2 <=? 88) && negb (is_modifier_key e.2)) key_codes = true) by done.
  rewrite forallb_forall in Hall. apply list_elem_of_lookup_2, list_elem_of_In, Hall in Hi. cbn [snd] in Hi.
  apply andb_true_iff in Hi as [Hi Hn%negb_true_iff]. split; [lia|done].
Qed.
Lemma lor_modifier m bit part : 0 <= m <= 15 -> modifier_of part = Some bit -> 0 <= Z.lor m bit <= 15.
Proof.
  intros Hm H. assert (Hb : 0 <= bit < 16).
  { unfold modifier_of in H. repeat case_match; try done; injection H as <-; (split; [vm_compute; discriminate|vm_compute; reflexivity]). }
  assert (Z.lor m bit < 2 ^ 4); [|split; [apply Z.lor_nonneg; lia|lia]].
  destruct (Z.eq_dec (Z.lor m bit) 0) as [->|]; [reflexivity|]. apply Z.log2_lt_pow2; [pose proof (proj2 (Z.lor_nonneg m bit)); lia|].
  rewrite Z.log2_lor by lia. apply Z.max_lub_lt.
  - destruct (Z.eq_dec m 0) as [->|]; [reflexivity|]. apply Z.log2_lt_pow2; lia.
  - destruct (Z.eq_dec bit 0) as [->|]; [reflexivity|]. apply Z.log2_lt_pow2; lia.
Qed.
Lemma parse_chord_ok shortcut c :
  parse_chord shortcut = Ok c -> 1 <= chord_key c <= 88 /\ is_modifier_key (chord_key c) = false /\ 0 <= modifiers c <= 15.
Proof.
  unfold parse_chord. intros (c' & Hc & H)%bind_Ok. destruct (Z.eqb_spec (chord_key c') 0) as [|Hne]; [done|]. injection H as <-.
  assert (Hinv : (chord_key c' = 0 \/ 1 <= chord_key c' <= 88 /\ is_modifier_key (chord_key c') = false) /\ 0 <= modifiers c' <= 15); [|naive_solver]. revert Hc.
  apply (for_each_inv chord_part 
    (fun c => (chord_key c = 0 \/ 1 <= chord_key c <= 88 /\ is_modifier_key (chord_key c) = false) /\ 0 <= modifiers c <= 15)); [|cbn; lia].
  intros c1 part c2 _ [Hk Hm] Hs. unfold chord_part in Hs. destruct (modifier_of _) as [bit|] eqn:Eb.
  - injection Hs as <-. cbn. split; [done|by eapply lor_modifier].
  - destruct (chord_key c1 =? 0); [|done]. apply bind_Ok in Hs as (k & Hk' & [= <-]). cbn. split; [|done].
    destruct (key_code _) as [k'|] eqn:Ek; [|done]. injection Hk' as <-. apply key_code_range in Ek. by right.
Qed.
Lemma supported_duration s : supported_seconds s = true -> exists d, duration_seconds d = s.
Proof.
  unfold supported_seconds. intros (x & Hx & E)%existsb_exists. apply Z.eqb_eq in E as ->. cbn in Hx.
  repeat (destruct Hx as [<-|Hx]; [first [by exists Seconds15|by exists Seconds30|by exists Seconds60|by exists Seconds120
    |by exists Seconds180|by exists Seconds300|by exists Seconds600|by exists Seconds900]|]). done.
Qed.
Lemma binding_of_ok l c : binding_of l = Ok c -> chord_ok c.
Proof.
  unfold binding_of. intros ([shortcut action] & Ha & H)%bind_Ok. apply bind_Ok in H as (c' & Hc & [= <-]).
  apply parse_chord_ok in Hc as (Hk & Hd & Hm). split; [done|]. split; [done|]. split; [done|]. cbn. destruct (strip_prefix _ l) as [v|]; [by injection Ha as _ <-|].
  apply bind_Ok in Ha as ([sh secs] & _ & Ha). apply bind_Ok in Ha as (s & Hs & [= <- <-]).
  destruct (from_str_radix _ _ secs) as [v|]; cbn [mbind option_bind] in Hs; [|done]. destruct (supported_seconds v) eqn:Ev; [|done]. injection Hs as <-.
  by apply supported_duration.
Qed.
Definition keys_of (c : KeyChord) : Z * Z := (chord_key c, modifiers c).
Lemma read_lines_ok bindings input bs :
  read_lines bindings input = Ok bs -> NoDup (keys_of <$> bindings) -> Forall chord_ok bindings -> zlen bindings <= 9 ->
  NoDup (keys_of <$> bs) /\ Forall chord_ok bs /\ zlen bs <= 9.
Proof.
  revert bindings. induction input as [|[l|e] input IH]; intros bindings E Hn Hok Hl; cbn [read_lines] in E; [done| |done].
  destruct (bytes_eqb _ _); [injection E as <-; by splits|]. destruct (Z.leb_spec MAX_BINDINGS (zlen bindings)) as [|Hlt]; [done|].
  apply bind_Ok in E as (c & Hc & E). destruct (existsb _ bindings) eqn:Ed; [done|]. apply (IH _ E).
  - rewrite fmap_app. apply NoDup_app. split; [done|]. split; [|apply NoDup_singleton]. intros k (b & -> & Hb)%list_elem_of_fmap Hk.
    cbn in Hk. apply list_elem_of_singleton in Hk. assert (Hd : existsb (fun existing => same_keys existing c) bindings = true); [|congruence].
    apply existsb_exists. exists b. split; [by apply list_elem_of_In|]. injection Hk as H1 H2. unfold same_keys. rewrite H1, H2, !Z.eqb_refl. done.
  - apply Forall_app. split; [done|]. apply Forall_cons. split; [by eapply binding_of_ok|by apply Forall_nil].
  - unfold MAX_BINDINGS in Hlt. unfold zlen in *. rewrite length_app. cbn [length]. lia.
Qed.

(** A configuration that is accepted has one to nine shortcuts, at most one of
    them for the menu, each of a known key with some of the four modifiers and
    (for a save) one of the eight durations, and no two on the same keys, so
    that a press finds its shortcut whatever their order. *)
Theorem bindings_valid input bs :
  read_bindings input = Ok bs ->
  1 <= zlen bs <= MAX_BINDINGS /\ Forall chord_ok bs /\ NoDup (keys_of <$> bs)
  /\ (length (filter (fun c => is_toggle c = true) bs) <= 1)%nat
  /\ forall c, c ∈ bs -> hotkey_of bs (chord_key c) (modifiers c) = Some (chord_action c).
Proof.
  unfold read_bindings. intros (bs' & H & E)%bind_Ok. destruct (Nat.eqb_spec (length bs') 0) as [|Hne]; [done|].
  destruct (Nat.ltb_spec 1 (length (filter (fun c => is_toggle c = true) bs'))); [done|]. injection E as <-.
  destruct (read_lines_ok [] input bs' H (NoDup_nil_2) ltac:(by apply Forall_nil) ltac:(done)) as (Hn & Hok & Hl).
  unfold MAX_BINDINGS, zlen in *. split; [lia|]. split; [done|]. split; [done|]. split; [done|]. intros c Hc.
  unfold hotkey_of. destruct (list_find _ bs') as [[i b]|] eqn:Ef.
  - apply list_find_Some in Ef as (Hi & [Hk Hm] & _). apply list_elem_of_lookup in Hc as [j Hj].
    assert (i = j) as ->; [|congruence]. eapply (NoDup_lookup _ _ _ (keys_of c) Hn); rewrite list_lookup_fmap.
    + rewrite Hi. cbn. unfold keys_of. by rewrite Hk, Hm.
    + by rewrite Hj.
  - apply list_find_None in Ef. rewrite Forall_forall in Ef. by destruct (Ef c Hc).
Qed.

(** * Keyboards *)
Section KeyboardHistory.
Context {I : Type} (read_input : I -> I * key_read).
Notation keyboards := (Keyboards I).
Definition generations (ds : list (Keyboard I)) : list Z := kb_generation <$> ds.
Record keyboards_inv (k : keyboards) : Prop := {
  ki_generations : NoDup (generations (kb_devices k)) /\ Forall (fun g => 0 <= g < next_generation k) (generations (kb_devices k));
  ki_paths : NoDup (kb_path <$> kb_devices k);
  ki_count : zlen (kb_devices k) <= MAX_KEYBOARDS;
  ki_next : 0 <= next_generation k <= USIZE_MAX;
}.
Definition removed (events : list KeyboardEvent) : list Z := omap (fun e => match e with Removed g => Some g | _ => None end) events.
Definition edges_from (events : list KeyboardEvent) : list Z := omap (fun e => match e with KeyEdge e => Some (device e) | _ => None end) events.
Lemma removed_app a b : removed (a ++ b) = removed a ++ removed b.
Proof. apply omap_app. Qed.
Lemma edges_app a b : edges_from (a ++ b) = edges_from a ++ edges_from b.
Proof. apply omap_app. Qed.

(** What a call does: generations leave by one [Removed] each, new ones have
    numbers that were not used, and edges come from devices that stay. *)
Record moved_on (k k' : keyboards) (events : list KeyboardEvent) : Prop := {
  mo_inv : keyboards_inv k';
  mo_next : next_generation k <= next_generation k';
  mo_gone : removed events ++ generations (kb_devices k') ≡ₚ
    generations (kb_devices k) ++ seqZ (next_generation k) (next_generation k' - next_generation k);
  mo_edges : Forall (fun g => g ∈ generations (kb_devices k)) (edges_from events);
  mo_stay : Forall (fun g => g ∈ generations (kb_devices k')) (edges_from events);
  mo_report : reported_count k' = Some (zlen (kb_devices k'));
}.
Lemma report_spec (k : keyboards) :
  let '(k', events) := report_availability k in
  kb_devices k' = kb_devices k /\ next_generation k' = next_generation k /\ reported_count k' = Some (zlen (kb_devices k))
  /\ removed events = [] /\ edges_from events = [].
Proof. unfold report_availability. by case_bool_decide. Qed.
Lemma inv_fields (k k' : keyboards) :
  kb_devices k' = kb_devices k -> next_generation k' = next_generation k -> keyboards_inv k -> keyboards_inv k'.
Proof. intros E1 E2 []. constructor; by rewrite ?E1, ?E2. Qed.
Lemma inv_sublist (k k' : keyboards) :
  kb_devices k' `sublist_of` kb_devices k -> next_generation k' = next_generation k -> keyboards_inv k -> keyboards_inv k'.
Proof.
  intros Hs E [[H1 H2] H3 H4 H5]. assert (Hg : generations (kb_devices k') `sublist_of` generations (kb_devices k)) by by apply fmap_sublist.
  constructor; rewrite ?E; try done.
  - split; [by eapply sublist_NoDup|]. rewrite Forall_forall in *. intros g Hin. apply H2. by eapply elem_of_submseteq, sublist_submseteq.
  - assert (Hq : (kb_path <$> kb_devices k') `sublist_of` (kb_path <$> kb_devices k)) by by apply fmap_sublist. by eapply sublist_NoDup.
  - apply sublist_length in Hs. unfold zlen in *. lia.
Qed.

Lemma key_edges_spec g es : removed (omap (key_edge g) es) = [] /\ Forall (eq g) (edges_from (omap (key_edge g) es)).
Proof.
  induction es as [|e es [IH1 IH2]]; [by split|]. assert (Ho : omap (key_edge g) (e :: es) =
    match key_edge g e with Some x => x :: omap (key_edge g) es | None => omap (key_edge g) es end) by done.
  rewrite Ho. destruct (key_edge g e) as [x|] eqn:Ex; [|done]. unfold key_edge in Ex. destruct (_ =? _); [|done].
  injection Ex as <-. split; [done|by constructor].
Qed.
Lemma poll_device_spec (d : Keyboard I) :
  let '(d', events) := poll_device read_input d in
  match d' with
  | Some d' => kb_generation d' = kb_generation d /\ kb_path d' = kb_path d /\ removed events = []
      /\ Forall (eq (kb_generation d)) (edges_from events)
  | None => events = [Removed (kb_generation d)]
  end.
Proof.
  unfold poll_device. destruct (read_input (kb_input d)) as [input [bs| |]]; [|by splits|done].
  destruct (negb _ && _); [|done]. cbn zeta. destruct (existsb _ _); [done|]. split; [done|]. split; [done|]. apply key_edges_spec.
Qed.
Lemma poll_devices_spec (ds : list (Keyboard I)) :
  let '(ds', events) := poll_devices read_input ds in
  generations ds' `sublist_of` generations ds /\ (kb_path <$> ds') `sublist_of` (kb_path <$> ds)
  /\ removed events ++ generations ds' ≡ₚ generations ds /\ Forall (fun g => g ∈ generations ds') (edges_from events).
Proof.
  induction ds as [|d ds IH]; [cbn; splits; constructor|]. cbn [poll_devices]. pose proof (poll_device_spec d) as Hd.
  destruct (poll_device read_input d) as [d' es]. destruct (poll_devices read_input ds) as [ds' rest]. destruct IH as (I1 & I2 & I3 & I4).
  destruct d' as [d'|].
  - destruct Hd as (Hg & Hp & Hr & He). rewrite removed_app, Hr, edges_app. cbn. rewrite Hg, Hp. splits.
    + by apply sublist_skip.
    + by apply sublist_skip.
    + rewrite <- I3. cbn. symmetry. apply Permutation_middle.
    + apply Forall_app. split; (eapply Forall_impl; [eassumption|]); [intros g <-; apply list_elem_of_here|intros g; apply list_elem_of_further].
  - subst es. cbn. splits; [by apply sublist_cons|by apply sublist_cons|by rewrite <- I3|done].
Qed.
Lemma poll_spec (k : keyboards) : keyboards_inv k -> let '(k', events) := kb_poll read_input k in moved_on k k' events.
Proof.
  intros Hi. unfold kb_poll. pose proof (poll_devices_spec (kb_devices k)) as Hp. destruct (poll_devices read_input _) as [ds es].
  destruct Hp as (Hs & Hq & Hr & He). set (k1 := {| kb_devices := ds |}). pose proof (report_spec k1) as Hrep.
  destruct (report_availability k1) as [k' report]. destruct Hrep as (E1 & E2 & E3 & E4 & E5).
  assert (Hg : forall g, g ∈ generations ds -> g ∈ generations (kb_devices k)) by (intros g Hg; by eapply elem_of_submseteq, sublist_submseteq).
  constructor; rewrite ?removed_app, ?edges_app, ?E1, ?E2, ?E4, ?E5, ?app_nil_r; try done.
  - apply (inv_fields k1); [done..|]. destruct Hi as [[H1 H2] H3 H4 H5]. constructor; cbn; try done.
    + split; [by eapply sublist_NoDup|]. rewrite Forall_forall in *. auto.
    + by eapply sublist_NoDup.
    + apply sublist_length in Hs. unfold generations in Hs. rewrite !length_fmap in Hs. unfold zlen in *. lia.
  - cbn. rewrite Z.sub_diag, seqZ_nil, app_nil_r by done. exact Hr.
  - eapply Forall_impl; [exact He|exact Hg].
Qed.

Lemma open_spec opens candidates (k : keyboards) :
  keyboards_inv k ->
  let k' := open_candidates opens candidates k in
  keyboards_inv k' /\ next_generation k <= next_generation k' /\ reported_count k' = reported_count k
  /\ generations (kb_devices k') = generations (kb_devices k) ++ seqZ (next_generation k) (next_generation k' - next_generation k).
Proof.
  revert k. induction candidates as [|[path ident] candidates IH]; intros k Hi; cbn [open_candidates].
  { splits; [done|lia|done|]. by rewrite Z.sub_diag, seqZ_nil, app_nil_r. }
  assert (Hstay : keyboards_inv k /\ next_generation k <= next_generation k /\ reported_count k = reported_count k
    /\ generations (kb_devices k) = generations (kb_devices k) ++ seqZ (next_generation k) (next_generation k - next_generation k)).
  { splits; [done|lia|done|]. by rewrite Z.sub_diag, seqZ_nil, app_nil_r. }
  destruct (Z.eqb_spec (zlen (kb_devices k)) MAX_KEYBOARDS) as [|Hfull]; [exact Hstay|].
  destruct (existsb _ (kb_devices k)) eqn:Ep; [by apply IH|]. destruct (opens path) as [[opened input]|]; [|by apply IH].
  destruct (negb _); [by apply IH|]. destruct (checked_add USIZE_MAX (next_generation k) 1) as [next|] eqn:En; [|by apply IH].
  apply checked_add_Some in En as [Hn ->]. destruct Hi as [[H1 H2] H3 H4 H5]. set (k1 := {| kb_devices := _ ++ _ |}).
  destruct (IH k1) as (J1 & J2 & J3 & J4).
  - unfold k1. constructor; cbn; rewrite ?fmap_app.
    + split.
      * apply NoDup_app. splits; [done| |apply NoDup_singleton]. intros g Hg ->%list_elem_of_singleton. rewrite Forall_forall in H2.
        specialize (H2 _ Hg). cbn in H2. lia.
      * apply Forall_app. split; [eapply Forall_impl; [exact H2|cbn; lia]|]. apply Forall_cons. split; [cbn; lia|by apply Forall_nil].
    + apply NoDup_app. splits; [done| |apply NoDup_singleton]. intros p (d & -> & Hd)%list_elem_of_fmap Hp%list_elem_of_singleton. cbn in Hp.
      assert (existsb (fun d => bool_decide (kb_path d = path)) (kb_devices k) = true); [|congruence]. apply existsb_exists. exists d.
      split; [by apply list_elem_of_In|]. by apply bool_decide_eq_true.
    + unfold MAX_KEYBOARDS, zlen in *. rewrite length_app. cbn [length]. lia.
    + lia.
  - set (k' := open_candidates opens candidates k1) in *. change (next_generation k1) with (next_generation k + 1) in *.
    splits; [done|lia|done|]. rewrite J4. unfold k1, generations. cbn [kb_devices]. rewrite fmap_app, <- app_assoc. cbn [fmap list_fmap app kb_generation].
    rewrite (seqZ_cons (next_generation k) (next_generation k' - next_generation k)) by lia. do 2 f_equal. unfold Z.succ, Z.pred. f_equal; lia.
Qed.
Lemma filter_split (f : Keyboard I -> bool) ds :
  generations (filter (fun d => f d = false) ds) ++ generations (filter (fun d => f d = true) ds) ≡ₚ generations ds.
Proof.
  induction ds as [|d ds IH]; [done|]. rewrite !filter_cons. destruct (f d); cbn.
  - rewrite <- IH. unfold generations. symmetry. apply Permutation_middle.
  - by rewrite <- IH.
Qed.
Lemma refresh_spec candidates opens (k : keyboards) :
  keyboards_inv k -> let '(k', events) := kb_refresh candidates opens k in moved_on k k' events /\ edges_from events = [].
Proof.
  intros Hi. unfold kb_refresh. set (k0 := {| kb_devices := _ |}).
  assert (Hi0 : keyboards_inv k0) by (apply (inv_sublist k); [apply sublist_filter|done|done]).
  destruct (open_spec opens candidates k0 Hi0) as (H1 & H2 & H3 & H4). set (k1 := open_candidates _ _ _) in *.
  pose proof (report_spec k1) as Hrep. destruct (report_availability k1) as [k' report]. destruct Hrep as (E1 & E2 & E3 & E4 & E5).
  set (gone := filter _ (kb_devices k)). assert (Er : removed (map (fun d => Removed (kb_generation d)) gone) = generations gone).
  { generalize gone. intros l. induction l as [|d l IH]; [done|]. cbn. by f_equal. }
  assert (Ee : edges_from (map (fun d => Removed (kb_generation d)) gone) = []).
  { generalize gone. intros l. by induction l. }
  split; [|by rewrite edges_app, Ee, E5].
  constructor; rewrite ?removed_app, ?edges_app, ?E1, ?E2, ?E4, ?E5, ?Er, ?Ee, ?app_nil_r; try done; try by apply Forall_nil.
  - by apply (inv_fields k1).
  - rewrite H4, app_assoc. pose proof (filter_split (is_candidate candidates) (kb_devices k)) as Hf. unfold gone, k0.
    cbn [kb_devices next_generation]. by rewrite Hf.
Qed.

(** ** Histories *)
Inductive keyboard_op := Poll | Refresh (candidates : list (bytes * (Z * Z * Z))) (opens : bytes -> option ((Z * Z * Z) * I)).
Definition apply_keyboard (op : keyboard_op) (k : keyboards) : keyboards * list KeyboardEvent :=
  match op with Poll => kb_poll read_input k | Refresh candidates opens => kb_refresh candidates opens k end.
Fixpoint keyboard_log (ops : list keyboard_op) (k : keyboards) : keyboards * list KeyboardEvent :=
  match ops with
  | [] => (k, [])
  | op :: ops => let '(k, events) := apply_keyboard op k in let '(k, rest) := keyboard_log ops k in (k, events ++ rest)
  end.
Lemma apply_keyboard_spec op (k : keyboards) : keyboards_inv k -> let '(k', events) := apply_keyboard op k in moved_on k k' events.
Proof.
  intros Hi. destruct op; [by apply poll_spec|]. cbn. pose proof (refresh_spec candidates opens k Hi) as H.
  destruct (kb_refresh candidates opens k). apply H.
Qed.
Lemma stays_apart (k k' : keyboards) events g :
  keyboards_inv k -> moved_on k k' events -> g ∈ removed events -> g ∉ generations (kb_devices k') /\ g < next_generation k'.
Proof.
  intros [[H1 H2] _ _ _] [Hi Hn Hg He Hs _] Hr. rewrite Forall_forall in H2.
  assert (Hall : NoDup (removed events ++ generations (kb_devices k'))).
  { rewrite Hg. apply NoDup_app. splits; [done| |apply NoDup_seqZ]. intros x Hx Hx'%elem_of_seqZ. specialize (H2 _ Hx). lia. }
  apply NoDup_app in Hall as (_ & Hd & _). split; [by apply Hd|].
  assert (Hin : g ∈ generations (kb_devices k) ++ seqZ (next_generation k) (next_generation k' - next_generation k))
    by (rewrite <- Hg; apply elem_of_app; by left).
  apply elem_of_app in Hin as [Hin|Hin%elem_of_seqZ]; [specialize (H2 _ Hin)|]; lia.
Qed.
Lemma keyboard_log_spec ops (k : keyboards) :
  keyboards_inv k ->
  let '(k', log) := keyboard_log ops k in
  keyboards_inv k' /\ next_generation k <= next_generation k'
  /\ removed log ++ generations (kb_devices k') ≡ₚ generations (kb_devices k) ++ seqZ (next_generation k) (next_generation k' - next_generation k)
  /\ (forall g, g ∈ edges_from log -> g ∈ generations (kb_devices k) \/ next_generation k <= g)
  /\ forall pre post g, log = pre ++ post -> g ∈ removed pre -> g ∉ edges_from post.
Proof.
  revert k. induction ops as [|op ops IH]; intros k Hi; cbn [keyboard_log].
  { splits; [done|lia|by rewrite Z.sub_diag, seqZ_nil, app_nil_r by done|by intros g ?%elem_of_nil|].
    intros pre post g [-> ->]%eq_sym%app_nil. by intros ?%elem_of_nil. }
  pose proof (apply_keyboard_spec op k Hi) as Hm. destruct (apply_keyboard op k) as [k1 events].
  specialize (IH k1 (mo_inv _ _ _ Hm)). destruct (keyboard_log ops k1) as [k' log]. destruct IH as (I1 & I2 & I3 & I4 & I5).
  pose proof (stays_apart k k1 events) as Hap. pose proof Hm as [J1 J2 J3 J4 J5 _]. rewrite Forall_forall in J4, J5.
  assert (Hlater : forall g, g ∈ removed events -> g ∉ edges_from log).
  { intros g Hg Hl. destruct (Hap g Hi Hm Hg) as [Hno Hlt]. destruct (I4 g Hl); [done|lia]. }
  splits; [done|lia| | |].
  - rewrite removed_app, <- app_assoc, I3, app_assoc, J3, <- app_assoc. apply Permutation_app_head.
    replace (next_generation k' - next_generation k) with ((next_generation k1 - next_generation k) + (next_generation k' - next_generation k1)) by lia.
    rewrite seqZ_app by lia. by replace (next_generation k + (next_generation k1 - next_generation k)) with (next_generation k1) by lia.
  - intros g. rewrite edges_app. intros [Hg|Hg]%elem_of_app; [left; auto|]. destruct (I4 g Hg) as [Hin|]; [|right; lia].
    assert (Hall : g ∈ generations (kb_devices k) ++ seqZ (next_generation k) (next_generation k1 - next_generation k))
      by (rewrite <- J3; apply elem_of_app; by right).
    apply elem_of_app in Hall as [?|Hq%elem_of_seqZ]; [by left|right; lia].
  - intros pre post g E Hg. symmetry in E. apply app_eq_inv in E as [(l & -> & ->)|(l & -> & ->)].
    + rewrite removed_app in Hg. apply elem_of_app in Hg as [Hg|Hg]; [|by eapply I5].
      intros Hp. apply (Hlater g Hg). rewrite edges_app. apply elem_of_app. by right.
    + rewrite edges_app. intros [Hp|Hp]%elem_of_app.
      * destruct (Hap g Hi Hm ltac:(rewrite removed_app; apply elem_of_app; by left)) as [Hno _]. apply Hno, J5.
        rewrite edges_app. apply elem_of_app. by right.
      * apply (Hlater g); [|done]. rewrite removed_app. apply elem_of_app. by left.
Qed.

(** Through any polls and refreshes there are at most sixteen keyboards on
    distinct paths; every generation number that was ever given is either
    that of an open keyboard or was reported as removed, exactly once; and no
    key edge is reported for a keyboard after its removal. *)
Theorem keyboard_generations ops :
  let '(k, log) := keyboard_log ops (keyboards_new (I := I)) in
  zlen (kb_devices k) <= MAX_KEYBOARDS /\ NoDup (kb_path <$> kb_devices k)
  /\ removed log ++ generations (kb_devices k) ≡ₚ seqZ 0 (next_generation k)
  /\ forall pre post g, log = pre ++ post -> g ∈ removed pre -> g ∉ edges_from post.
Proof.
  assert (Hi : keyboards_inv (keyboards_new (I := I))).
  { constructor; cbn; try apply NoDup_nil_2; try (unfold USIZE_MAX, U64_MAX; lia); [split; [apply NoDup_nil_2|by apply Forall_nil]|done]. }
  pose proof (keyboard_log_spec ops _ Hi) as H. destruct (keyboard_log ops keyboards_new) as [k log]. destruct H as ([H1 H2 H3 H4] & H5 & H6 & _ & H7).
  splits; [done|done| |done]. rewrite H6. cbn. by rewrite Z.sub_0_r.
Qed.
End KeyboardHistory.

(** * Instances *)
Lemma hotkey_commands_accepted_witness :
  read_command (ReadByte <$> menu_move_command (-250) 4096 ++ save_command 300) = (ReadByte <$> save_command 300, Ok (Some (menu_move_command (-250) 4096)))
  /\ parse_command (save_command 300) = Ok (SaveCommand Seconds300).
Proof.
  destruct (hotkey_commands_accepted (menu_move_command (-250) 4096) (MoveCommand (-250) 4096) (ReadByte <$> save_command 300)
    ltac:(apply MeansMove; lia)) as [H1 _].
  destruct (hotkey_commands_accepted (save_command 300) (SaveCommand Seconds300) [] (MeansSave Seconds300)) as [_ H2].
  split; [rewrite fmap_app; exact H1|exact H2].
Defined.
Lemma motion_exact_witness : accelerated_pointer_motion 3 (-40) = (54, -1135) /\ means (menu_move_command 54 (-1135)) (MoveCommand 54 (-1135)).
Proof.
  pose proof (motion_exact 3 (-40) ltac:(lia) ltac:(lia)) as H.
  assert (E : accelerated_pointer_motion 3 (-40) = (54, -1135)) by (vm_compute; reflexivity). rewrite E in H.
  split; [exact E|apply H].
Defined.
(** The function key comes first, its modifiers a moment later. *)
Definition demo_window : list KeyboardEvent :=
  [KeyEdge {| device := 1; code := 44; value := 1 |}; KeyEdge {| device := 0; code := KEY_LEFTALT; value := 1 |}; Removed 2;
   KeyEdge {| device := 0; code := KEY_LEFTALT; value := 0 |}; KeyEdge {| device := 1; code := 44; value := 0 |}].
Lemma chord_window_ordered_witness :
  map fst (runs (chord_event_batch demo_window)).2 = [Removed 2]
  /\ chord_event_batch demo_window = [KeyEdge {| device := 0; code := KEY_LEFTALT; value := 1 |}; KeyEdge {| device := 1; code := 44; value := 1 |};
       Removed 2; KeyEdge {| device := 1; code := 44; value := 0 |}; KeyEdge {| device := 0; code := KEY_LEFTALT; value := 0 |}].
Proof.
  destruct (chord_window_ordered demo_window) as (_ & H & _).
  - intros e He%list_elem_of_In. cbn in He. destruct He as [[= <-]|[[= <-]|[[=]|[[= <-]|[[= <-]|[]]]]]];
      unfold edge_ok, USIZE_MAX, U64_MAX, U16_MAX, KEY_LEFTALT; cbn; lia.
  - split; [rewrite H; reflexivity|vm_compute; reflexivity].
Defined.
Definition demo_config : list config_line :=
  [inl (ascii_bytes "TOGGLE Alt+Shift+Z" ++ [10]); inl (ascii_bytes "BIND <Control>F8 60" ++ [13; 10]); inl (ascii_bytes "START" ++ [10])].
Definition demo_bindings : list KeyChord :=
  [{| chord_key := 44; modifiers := 6; chord_action := ToggleOverlay |}; {| chord_key := 66; modifiers := 1; chord_action := SaveHotkey 60 |}].
Lemma bindings_valid_witness : read_bindings demo_config = Ok demo_bindings /\ hotkey_of demo_bindings 66 1 = Some (SaveHotkey 60).
Proof.
  assert (E : read_bindings demo_config = Ok demo_bindings) by (vm_compute; reflexivity). split; [exact E|].
  destruct (bindings_valid demo_config demo_bindings E) as (_ & _ & _ & _ & H).
  apply (H {| chord_key := 66; modifiers := 1; chord_action := SaveHotkey 60 |}). apply list_elem_of_further, list_elem_of_here.
Defined.
(** A keyboard whose second read fails, and one in its place. *)
Definition demo_read (reads : list key_read) : list key_read * key_read :=
  match reads with [] => ([], KeyWait) | r :: reads => (reads, r) end.
Definition demo_edge (c : Z) : bytes := replicate 16 0 ++ le_bytes 2 EV_KEY ++ le_bytes 2 c ++ le_bytes 4 1.
Definition demo_keyboard_ops : list (keyboard_op (I := list key_read)) :=
  [Refresh [(ascii_bytes "kbd", (1, 7, 13))] (fun _ => Some ((1, 7, 13), [KeyBytes (demo_edge 66); KeyFailed])); Poll; Poll;
   Refresh [(ascii_bytes "kbd", (1, 8, 13))] (fun _ => Some ((1, 8, 13), [KeyBytes (demo_edge 44)])); Poll].
Lemma keyboard_generations_witness :
  (keyboard_log demo_read demo_keyboard_ops keyboards_new).2
    = [Availability 1; KeyEdge {| device := 0; code := 66; value := 1 |}; Removed 0; Availability 0; Availability 1;
       KeyEdge {| device := 1; code := 44; value := 1 |}]
  /\ 0 ∉ edges_from [Availability 0; Availability 1; KeyEdge {| device := 1; code := 44; value := 1 |}].
Proof.
  pose proof (keyboard_generations demo_read demo_keyboard_ops) as H.
  destruct (keyboard_log demo_read demo_keyboard_ops keyboards_new) as [k log] eqn:E. destruct H as (_ & _ & _ & H).
  assert (El : log = [Availability 1; KeyEdge {| device := 0; code := 66; value := 1 |}; Removed 0; Availability 0; Availability 1;
       KeyEdge {| device := 1; code := 44; value := 1 |}]).
  { change log with (k, log).2. rewrite <- E. vm_compute. reflexivity. }
  split; [exact El|]. apply (H [Availability 1; KeyEdge {| device := 0; code := 66; value := 1 |}; Removed 0]); [exact El|].
  apply list_elem_of_here.
Defined.
