(* ===== verification/HelperTheorems.v ===== *)
(** The hotkey helper as a whole: a mouse is owned only while the menu is open,
    and while the helper thinks that the menu is open, the daemon showed it at
    the last request.  The second part is proved against the interface
    [MenuOwner], which [Owner.v] discharges with the daemon's socket. *)
From stdpp Require Import strings gmap sets.
From S2P Require Import Prelude Bytes Text Profiles Control Hotkeys HelperSession HotkeysTheorems.
Local Open Scope Z_scope.

(** A grab gives the device, a fetch leaves its owner, and a release frees it. *)
Class PointerDeviceSpec (D : Type) `{!PointerDevice D} := {
  owned : D -> bool;
  grab_owns d d' : grab d = (d', None) -> owned d' = true;
  fetch_keeps d : owned (fetch_events d).1 = owned d;
  ungrab_frees d : owned (ungrab d) = false;
}.
(** A device that was just opened is not owned. *)
Class HelperWorldSpec (W D : Type) `{!PointerDevice D} `{!HelperWorld W D} `{!PointerDeviceSpec D} :=
  refresh_free : forall w : W, Forall (fun d : D => owned d = false) (refresh_mice w).2.

(** What every call to the world keeps. *)
Class WorldKept (W D : Type) `{!HelperWorld W D} (K : W -> Prop) := {
  kept_connect w : K w -> K (connect (D := D) w).1;
  kept_exchange stream cmd w : K w -> K (exchange (D := D) stream cmd w).1;
  kept_drop stream w : K w -> K (drop_stream (D := D) stream w);
  kept_clock w : K w -> K (clock (D := D) w).1;
  kept_flush w : K w -> K (flush_stdout (D := D) w).1;
  kept_refresh w : K w -> K (refresh_mice (D := D) w).1;
}.
(** The owner of the menu at the other end: whether it shows the menu, and
    whether the next answer on a stream is the answer to the next command. *)
Class MenuOwner (W D : Type) `{!HelperWorld W D} := {
  shows : W -> bool;
  in_sync : Z -> W -> Prop;
  world_ok : W -> Prop;
  owner_world : WorldKept W D world_ok;
  connect_sync w w' s : world_ok w -> connect (D := D) w = (w', inl s) -> in_sync s w' /\ shows w' = shows w;
  exchange_shows s cmd meaning w w' r :
    world_ok w -> in_sync s w -> means cmd meaning -> (forall d, meaning <> SaveCommand d) ->
    exchange (D := D) s cmd w = (w', inl r) -> r = ok_line \/ r = grab_line -> in_sync s w' /\ shows w' = true;
  clock_shows w : shows (clock (D := D) w).1 = shows w /\ forall s, in_sync s w -> in_sync s (clock (D := D) w).1;
  flush_shows w : shows (flush_stdout (D := D) w).1 = shows w /\ forall s, in_sync s w -> in_sync s (flush_stdout (D := D) w).1;
}.

Section Ownership.
Context {W D : Type} `{!PointerDevice D} `{!HelperWorld W D} `{!PointerDeviceSpec D} `{!HelperWorldSpec W D}.
Notation session := (Session W D).
Notation helper A := (st session bytes A).
Definition free (ds : list D) : Prop := Forall (fun d => owned d = false) ds.
Definition taken (ds : list D) : Prop := Forall (fun d => owned d = true) ds.

(** * Mice *)
Lemma release_free ds : free (release_all ds).
Proof. apply Forall_map, Forall_forall. intros d _. apply ungrab_frees. Qed.
Lemma grab_devices ds : let '(ds', r) := for_devices grab ds in r = None -> taken ds'.
Proof.
  induction ds as [|d ds IH]; cbn; [intros _; by apply Forall_nil|]. destruct (grab d) as [d' [e|]] eqn:E; [done|].
  destruct (for_devices grab ds) as [ds' r]. intros Hr. apply Forall_cons. split; [by eapply grab_owns|by apply IH].
Qed.
Lemma drain_keeps n d : owned (drain_queue n d).1 = owned d.
Proof.
  revert d. induction n as [|n IH]; intros d; [done|]. cbn. pose proof (fetch_keeps d) as Hk.
  destruct (fetch_events d) as [d' [es| |e]]; cbn in *; [by rewrite IH|done|done].
Qed.
Lemma drain_devices n ds : taken ds -> taken (for_devices (drain_queue n) ds).1.
Proof.
  induction 1 as [|d ds Hd Hds IH]; [by apply Forall_nil|]. cbn. pose proof (drain_keeps n d) as Hk.
  destruct (drain_queue n d) as [d' [e|]]; cbn in *; [by apply Forall_cons; split; [congruence|]|].
  destruct (for_devices (drain_queue n) ds) as [ds' r]. cbn in *. apply Forall_cons. split; [congruence|done].
Qed.
Lemma grab_all_owns ds : let '(ds', r) := grab_all ds in match r with None => taken ds' | Some _ => free ds' end.
Proof.
  unfold grab_all, prepare. pose proof (grab_devices ds) as Hg. destruct (for_devices grab ds) as [ds1 [e|]]; [apply release_free|].
  pose proof (drain_devices MAX_DRAIN_BATCHES ds1 (Hg eq_refl)) as Hd. destruct (for_devices _ ds1) as [ds2 [e|]]; [apply release_free|done].
Qed.
Lemma read_keeps ds : taken ds -> taken (read_mice ds).1.
Proof.
  induction 1 as [|d ds Hd Hds IH]; [by apply Forall_nil|]. cbn. pose proof (fetch_keeps d) as Hk.
  destruct (fetch_events d) as [d' [es| |e]]; cbn in *; try (destruct (read_mice ds) as [ds' r]; cbn in * ); apply Forall_cons; split; congruence || done.
Qed.

(** * The invariant of the session *)
Definition motion_ok (m : PendingMotion) : Prop := - 4096 <= motion_x m <= 4096 /\ - 4096 <= motion_y m <= 4096.
(** [K] holds of the world, and [L] of the menu's stream and the world while the
    menu is open. *)
Context (K : W -> Prop) {HK : WorldKept W D K} (L : Z -> W -> Prop).
Record session_inv (s : session) : Prop := {
  si_closed : menu_open (menu s) = false -> pointer_grabbed (menu s) = false /\ control (menu s) = None;
  si_open : menu_open (menu s) = true -> exists stream, control (menu s) = Some stream /\ L stream (world s);
  si_mice : if pointer_grabbed (menu s) then taken (mice s) else free (mice s);
  si_motion : motion_ok (pending_motion (menu s));
  si_world : K (world s);
}.
Notation calls s m Q := (keeps session_inv s m Q) (only parsing).

(** What the steps need of [L]. *)
Class Linked := {
  link_clock stream w : L stream w -> L stream (clock (D := D) w).1;
  link_flush stream w : L stream w -> L stream (flush_stdout (D := D) w).1;
  link_open stream w w' w'' : K w -> connect (D := D) w = (w', inl stream) -> exchange (D := D) stream menu_toggle_command w' = (w'', inl grab_line) ->
    L stream w'';
  link_request stream cmd meaning w w' r : K w -> L stream w -> means cmd meaning -> (forall d, meaning <> SaveCommand d) ->
    exchange (D := D) stream cmd w = (w', inl r) -> r = ok_line \/ r = grab_line -> L stream w';
}.
Context {HL : Linked}.

(** A session whose menu is closed keeps the invariant whatever the world does. *)
Definition quiet (s : session) : Prop := session_inv s /\ menu_open (menu s) = false.
Lemma quiet_world w s : quiet s -> K w -> quiet (set_world w s).
Proof. intros [[H1 H2 H3 H4 H5] Hc] Hw. split; [|done]. constructor; cbn; try done. by rewrite Hc. Qed.
Lemma no_motion_ok : motion_ok no_motion.
Proof. split; cbn; lia. Qed.
Lemma inv_same s s' :
  world s' = world s -> mice s' = mice s -> menu s' = menu s -> session_inv s -> session_inv s'.
Proof. intros E1 E2 E3 []. constructor; by rewrite ?E1, ?E2, ?E3. Qed.
Lemma inv_world s w : (forall stream, L stream (world s) -> L stream w) -> K w -> session_inv s -> session_inv (set_world w s).
Proof. intros Hw Hk [H1 H2 H3 H4 H5]. constructor; cbn; try done. intros Ho. destruct (H2 Ho) as (stream & E & Hl). eauto. Qed.
Lemma inv_menu s m :
  menu_open m = menu_open (menu s) -> pointer_grabbed m = pointer_grabbed (menu s) -> control m = control (menu s) -> motion_ok (pending_motion m) ->
  session_inv s -> session_inv (set_menu_capture m s).
Proof. intros E1 E2 E3 Hm [H1 H2 H3 H4 H5]. constructor; cbn; rewrite ?E1, ?E2, ?E3; done. Qed.

(** ** Requests *)
(** A request outside the invariant: what it may do to the session. *)
Definition only_world (s s' : session) : Prop := s' = set_world (world s') s.
Lemma bytes_eqb_true a b : bytes_eqb a b = true -> a = b.
Proof. apply bool_decide_eq_true. Qed.
Lemma request_total stream cmd s : exists w r, request_on_stream stream cmd s = (set_world w s, r) /\ r <> Panic /\ (K (world s) -> K w)
  /\ match r with
     | Ok response => exchange (D := D) stream cmd (world s) = (w, inl response) /\ (response = ok_line \/ response = grab_line \/ response = release_line)
     | _ => True
     end.
Proof.
  unfold request_on_stream, ask, from_sum, mbind, st_bind. pose proof (kept_exchange (D := D) stream cmd (world s)) as Hk.
  destruct (exchange stream cmd (world s)) as [w [response|e]] eqn:E; cbn in *.
  - unfold lift, read_response. destruct (strip_prefix _ response); [by eexists w, (Err _)|].
    destruct (negb (bytes_eqb response ok_line) && _) eqn:Er; [by eexists w, (Err _)|]. exists w, (Ok response).
    split; [done|]. split; [done|]. split; [done|]. split; [done|]. apply andb_false_iff in Er as [Er|Er]; apply negb_false_iff in Er.
    + left. by apply bytes_eqb_true.
    + right. apply orb_true_iff in Er as [Er|Er]; [left|right]; by apply bytes_eqb_true.
  - by eexists w, (Err _).
Qed.
Lemma control_total cmd s : exists w r, request_control cmd s = (set_world w s, r) /\ r <> Panic /\ (K (world s) -> K w).
Proof.
  unfold request_control, open_stream, ask, from_sum, mbind, st_bind. pose proof (kept_connect (D := D) (world s)) as Hk.
  destruct (connect (world s)) as [w [stream|e]] eqn:E; cbn in *; [|by eexists w, (Err _)].
  unfold try_helper. destruct (request_total stream cmd (set_world w s)) as (w' & r & -> & Hp & Hw & _). cbn in Hw.
  assert (Hd : K (world s) -> K (drop_stream (D := D) stream w')) by (intros; by apply kept_drop, Hw, Hk).
  destruct r as [a|e|]; [| |done]; cbn.
  - by eexists _, (Ok a).
  - by eexists _, (Err e).
Qed.
(** Closing ends in a quiet session, whatever the requests give. *)
Lemma try_control cmd s : exists w x, try_helper (request_control cmd) s = (set_world w s, Ok x) /\ (K (world s) -> K w).
Proof. unfold try_helper. destruct (control_total cmd s) as (w & r & -> & Hp & Hk). destruct r as [a|e|]; [| |done]; by eexists _, _. Qed.
Lemma ask_to_close_total cmd s : exists w, ask_to_close cmd s = (set_world w s, Ok tt) /\ (K (world s) -> K w).
Proof.
  unfold ask_to_close. assert (Hr : exists w x, try_helper (menu_request cmd) s = (set_world w s, Ok x) /\ (K (world s) -> K w)).
  { unfold try_helper, menu_request, mbind, st_bind, hp_gets. cbn. destruct (control (menu s)) as [stream|].
    - destruct (request_total stream cmd s) as (w & r & -> & Hp & Hk & _). destruct r as [a|e|]; [| |done]; by eexists _, _.
    - exists (world s). by destruct s; eexists. }
  destruct Hr as (w & x & E & Hk). unfold mbind, st_bind at 1. rewrite E. destruct x as [a|e]; [by exists w|].
  destruct (try_control cmd (set_world w s)) as (w' & y & E' & Hk'). unfold mbind, st_bind. rewrite E'. exists w'. split; [done|]. auto.
Qed.
Lemma close_total cmd s : K (world s) -> exists s', close_menu cmd s = (s', Ok tt) /\ quiet s' /\ mice s' = release_all (mice s).
Proof.
  intros Hk. unfold close_menu, mbind, st_bind. destruct (ask_to_close_total cmd s) as (w & -> & Hw). specialize (Hw Hk). cbn. unfold drop_control, mbind, st_bind, hp_gets. cbn.
  destruct (control (menu s)) as [stream|]; cbn; (eexists; split; [done|]); (split; [|done]); (split; [|done]); constructor; cbn;
    try done; try apply release_free; by apply kept_drop.
Qed.
Lemma closing cmd s (Q : session -> outcome bytes unit -> Prop) : K (world s) -> (forall s', quiet s' -> Q s' (Ok tt)) -> calls s (close_menu cmd) Q.
Proof. intros Hk HQ. destruct (close_total cmd s Hk) as (s' & E & Hq & _). exists s', (Ok tt). splits; [done..|by apply Hq|by apply HQ]. Qed.

(** ** The pointer *)
(** [m] returns; when it says that the menu is still open, the invariant holds. *)
Definition forwards (s : session) (m : helper bool) : Prop :=
  exists s' b, m s = (s', Ok b) /\ K (world s') /\ (b = true -> session_inv s' /\ menu_open (menu s') = true).
Lemma forwards_bind s m k :
  forwards s m -> (forall s', session_inv s' -> menu_open (menu s') = true -> forwards s' (k true)) -> (forall s', K (world s') -> forwards s' (k false)) ->
  forwards s (m ≫= k).
Proof.
  intros (s1 & b & E & Hk & H) Ht Hf. unfold forwards, mbind, st_bind. rewrite E. destruct b; [by apply Ht; apply H|by apply Hf].
Qed.
Lemma forwards_false s : K (world s) -> forwards s (mret false).
Proof. intros. by exists s, false. Qed.
Lemma forwards_true s : session_inv s -> menu_open (menu s) = true -> forwards s (mret true).
Proof. intros Hi Ho. exists s, true. splits; [done|apply Hi|done]. Qed.
Lemma sent cmd meaning s :
  session_inv s -> menu_open (menu s) = true -> means cmd meaning -> (forall d, meaning <> SaveCommand d) -> forwards s (keeps_open cmd).
Proof.
  intros Hi Ho Hm Hs. destruct (si_open s Hi Ho) as (stream & Ec & Hl). unfold forwards, keeps_open, try_helper, request_keeps_menu_open, menu_request.
  unfold mbind, st_bind, hp_gets. rewrite Ec. destruct (request_total stream cmd s) as (w & r & -> & Hp & Hk & Hr). specialize (Hk (si_world s Hi)). destruct r as [response|e|]; [| |done].
  - exists (set_world w s), (negb (bytes_eqb response release_line)). split; [done|]. split; [done|]. intros Hn%negb_true_iff. destruct Hr as [Ex Hr].
    split; [|done]. destruct Hi as [H1 H2 H3 H4 H5]. constructor; cbn; try done. intros _. exists stream. split; [done|].
    eapply link_request; [exact H5|exact Hl|exact Hm|done|exact Ex|]. destruct Hr as [-> | [-> | ->]]; [by left|by right|]. by rewrite bytes_eqb_refl in Hn.
  - exists (set_world w s), false. by splits.
Qed.
Lemma motion_add_ok e m : motion_ok m -> motion_ok (motion_add e m).
Proof. intros [H1 H2]. destruct e; split; cbn; try done; apply bounded_motion_range. Qed.
Lemma clock_step {A} s (k : Z -> helper A) : (ask (clock (D := D)) ≫= k) s = k (clock (D := D) (world s)).2 (set_world (clock (D := D) (world s)).1 s).
Proof. unfold mbind, st_bind, ask. by destruct (clock (world s)). Qed.
Lemma clock_inv s : session_inv s -> session_inv (set_world (clock (D := D) (world s)).1 s).
Proof. intros Hi. apply inv_world; [intros stream; apply link_clock|apply kept_clock, Hi|done]. Qed.
Lemma events_forwarded es s : session_inv s -> menu_open (menu s) = true -> forwards s (forward_events es).
Proof.
  revert s. induction es as [|e es IH]; intros s Hi Ho; [by apply forwards_true|]. unfold forwards. cbn [forward_events]. rewrite clock_step.
  set (s1 := set_world _ s). assert (Hi1 : session_inv s1) by by apply clock_inv. set (now := (clock (world s)).2).
  change ((menu_modify ?f ≫= ?k) s1) with (k tt (set_menu_capture (f (menu s1)) s1)). cbv beta. set (s2 := set_menu_capture _ s1).
  assert (Hi2 : session_inv s2) by (by apply inv_menu; [..|apply Hi1|]).
  assert (Hmove : forwards s2 (_ ← menu_modify (fun m => with_motion (motion_add e (pending_motion m)) m); forward_events es)).
  { unfold forwards. change ((menu_modify ?f ≫= ?k) s2) with (k tt (set_menu_capture (f (menu s2)) s2)). cbv beta.
    apply IH; [by apply inv_menu; [..|apply motion_add_ok, Hi2|]|done]. }
  destruct e as [v|v|p]; [exact Hmove|exact Hmove|].
  apply (forwards_bind s2); [by apply (sent _ (ButtonCommand p)); [..|apply MeansButton|]| |intros; by apply forwards_false]. intros s3 Hi3 Ho3. by apply IH.
Qed.
Lemma accelerated_range x y : let '(a, b) := accelerated_pointer_motion x y in - 4096 <= a <= 4096 /\ - 4096 <= b <= 4096.
Proof. unfold accelerated_pointer_motion, scaled, clamp_to, MOTION_LIMIT. lia. Qed.
Lemma stamped s f b :
  (forall m, menu_open (f m) = menu_open m /\ pointer_grabbed (f m) = pointer_grabbed m /\ control (f m) = control m /\ pending_motion (f m) = pending_motion m) ->
  K (world s) -> (b = true -> session_inv s /\ menu_open (menu s) = true) -> forwards s (_ ← (if b : bool then menu_modify f else mret tt); mret b).
Proof.
  intros Hf Hk Hb. destruct b; [|by apply forwards_false]. destruct (Hb eq_refl) as [Hi Ho]. destruct (Hf (menu s)) as (E1 & E2 & E3 & E4).
  eexists _, true. split; [done|]. split; [done|]. intros _. split; [apply inv_menu; rewrite ?E4; try done; apply Hi|cbn; by rewrite E1].
Qed.
Lemma motion_taken now s : session_inv s -> menu_open (menu s) = true ->
  exists s1 r, take_motion now s = (s1, Ok r) /\ session_inv s1 /\ menu_open (menu s1) = true.
Proof.
  intros Hi Ho. unfold take_motion. destruct (_ <=? _); [|by exists s, None]. cbn. eexists _, _. split; [done|]. split; [|done].
  by apply inv_menu; [..|apply no_motion_ok|].
Qed.
Lemma motion_sent now s : session_inv s -> menu_open (menu s) = true -> forwards s (send_motion now).
Proof.
  intros Hi Ho. destruct (motion_taken now s Hi Ho) as (s1 & r & E1 & Hi1 & Ho1). unfold send_motion, forwards, mbind at 1, st_bind at 1.
  rewrite E1. destruct r as [[x0 y0]|]; [|by apply forwards_true]. pose proof (accelerated_range x0 y0) as Hr.
  destruct (accelerated_pointer_motion _ _) as [x y]. destruct Hr as [Hx Hy].
  destruct (sent (menu_move_command x y) (MoveCommand x y) s1) as (s2 & b & E & Hk & H); [done|done|by apply MeansMove|done|].
  unfold mbind at 1, st_bind at 1. rewrite E. by apply stamped.
Qed.
Lemma ping_sent now s : session_inv s -> menu_open (menu s) = true -> forwards s (send_ping now).
Proof.
  intros Hi Ho. unfold send_ping, forwards, mbind at 1, st_bind at 1, hp_gets. destruct (_ <=? _); [|by apply forwards_true].
  destruct (sent menu_ping_command PingCommand s) as (s2 & b & E & Hk & H); [done|done|apply MeansPing|done|].
  unfold mbind at 1, st_bind at 1. rewrite E. by apply stamped.
Qed.
Lemma mouse_events s : session_inv s -> menu_open (menu s) = true -> forwards s process_mouse_events.
Proof.
  intros Hi Ho. unfold process_mouse_events, forwards, mbind at 1, st_bind at 1, read_owned.
  assert (Hrest : forall s1 r, session_inv s1 -> menu_open (menu s1) = true -> forwards s1
    (match r with
     | None => mret false
     | Some events =>
         kept ← forward_events events;
         if kept : bool then now ← ask (clock (D := D)); kept ← send_motion now; if kept : bool then send_ping now else mret false
         else mret false
     end)).
  { intros s1 [es|] Hi1 Ho1; [|apply forwards_false, Hi1]. apply forwards_bind; [by apply events_forwarded| |intros; by apply forwards_false].
    intros s2 Hi2 Ho2. unfold forwards. rewrite clock_step. set (s3 := set_world _ s2). assert (Hi3 : session_inv s3) by by apply clock_inv.
    apply (forwards_bind s3); [by apply motion_sent| |intros; by apply forwards_false]. intros s4 Hi4 Ho4. by apply ping_sent. }
  destruct (pointer_grabbed (menu s)) eqn:Eg; [|exact (Hrest s (Some []) Hi Ho)].
  pose proof (si_mice s Hi) as Hm. rewrite Eg in Hm. pose proof (read_keeps (mice s) Hm) as Hk. destruct (read_mice (mice s)) as [ds r].
  apply (Hrest (set_mice ds s) r); [|done]. destruct Hi as [H1 H2 H3 H4 H5]. constructor; cbn; try done. by rewrite Eg.
Qed.

(** ** Opening *)
Lemma quiet_print l s : quiet s -> quiet ((print_line l : helper unit) s).1.
Proof. intros [Hi Ho]. split; [by apply (inv_same s)|done]. Qed.
Lemma quiet_mice ds s : quiet s -> free ds -> quiet (set_mice ds s).
Proof. intros [[H1 H2 H3 H4 H5] Ho] Hf. split; [|done]. constructor; cbn; try done. by rewrite (proj1 (H1 Ho)). Qed.
Lemma menu_opened stream (grabbed : bool) line s (Q : session -> outcome bytes unit -> Prop) :
  K (world s) -> L stream (world s) -> (if grabbed then taken (mice s) else free (mice s)) -> (forall s', Q s' (Ok tt)) ->
  calls s (open_menu stream grabbed line) Q.
Proof.
  intros Hk Hl Hm HQ. unfold keeps, open_menu. rewrite clock_step. eexists _, (Ok tt). split; [done|]. split; [done|]. split; [|apply HQ].
  constructor; cbn; try done; [|by apply kept_clock]. intros _. exists stream. split; [done|by apply link_clock].
Qed.
Lemma granted stream s (Q : session -> outcome bytes unit -> Prop) :
  quiet s -> L stream (world s) -> (forall s', Q s' (Ok tt)) -> calls s (menu_granted stream) Q.
Proof.
  intros [[H1 H2 H3 H4 H5] Ho] Hl HQ. rewrite (proj1 (H1 Ho)) in H3. unfold menu_granted, keeps, mbind at 1, st_bind at 1, hp_gets.
  destruct (_ =? _)%nat; [by apply menu_opened|]. unfold mbind, st_bind, take_mice. pose proof (grab_all_owns (mice s)) as Hg.
  destruct (grab_all (mice s)) as [ds [e|]]; by apply (menu_opened stream _ _ (set_mice ds s)).
Qed.
Lemma rejected l s (Q : session -> outcome bytes unit -> Prop) : quiet s -> (forall s', Q s' (Ok tt)) -> calls s (print_line l) Q.
Proof. intros Hq HQ. eexists _, (Ok tt). split; [done|]. split; [done|]. split; [apply (quiet_print l s Hq)|apply HQ]. Qed.
Lemma helper_toggle_calls s (Q : session -> outcome bytes unit -> Prop) :
  session_inv s -> (forall s', Q s' (Ok tt)) -> calls s toggle_menu Q.
Proof.
  intros Hi HQ. unfold toggle_menu, keeps, mbind at 1, st_bind at 1, hp_gets. destruct (menu_open (menu s)) eqn:Eo; [apply closing; [apply Hi|done]|].
  assert (Hq : quiet s) by by split. unfold try_helper at 1, mbind at 1, st_bind at 1, open_stream, mbind, st_bind, ask.
  pose proof (kept_connect (D := D) (world s) (si_world s Hi)) as Hk.
  destruct (connect (world s)) as [w [stream|e]] eqn:Ec; cbn [from_sum fst] in *; [|by apply (rejected _ (set_world w s)); [apply quiet_world|]].
  cbn. set (s1 := set_world w s). assert (Hq1 : quiet s1) by by apply quiet_world. unfold ask_to_open, try_helper, mbind, st_bind.
  destruct (request_total stream menu_toggle_command s1) as (w2 & r & -> & Hp & Hk2 & Hr). specialize (Hk2 Hk).
  assert (Hd : quiet (set_world (drop_stream (D := D) stream w2) (set_world w2 s1))) by (apply quiet_world; [by apply quiet_world|by apply kept_drop]).
  destruct r as [response|err|]; [| |done].
  - destruct (bytes_eqb response grab_line) eqn:Eg.
    + apply bytes_eqb_true in Eg as ->. apply granted; [by apply quiet_world| |done]. eapply link_open; [apply Hi|exact Ec|apply Hr].
    + by apply (rejected _ (set_world (drop_stream (D := D) stream w2) (set_world w2 s1))).
  - by apply (rejected _ (set_world (drop_stream (D := D) stream w2) (set_world w2 s1))).
Qed.

(** ** Events *)
Definition safe (s : session) (m : helper unit) : Prop := keeps session_inv s m (fun _ _ => True).
Lemma safe_bind s (m : helper unit) k : safe s m -> (forall s', session_inv s' -> safe s' (k tt)) -> safe s (m ≫= k).
Proof. intros Hm Hk. apply keeps_bind. eapply keeps_impl; [exact Hm|]. intros s' [[]|e|] Hi Hp _; [by apply Hk|done|done]. Qed.
Lemma safe_ret s : session_inv s -> safe s (mret tt).
Proof. intros. by apply keeps_ret. Qed.
Lemma safe_keys v s : session_inv s -> safe s (hp_modify (set_keys v)).
Proof. intros Hi. apply keeps_set; [by apply (inv_same s)|done]. Qed.
Lemma safe_close cmd s : K (world s) -> safe s (close_menu cmd).
Proof. intros. by apply closing. Qed.
Lemma safe_print l s : session_inv s -> safe s (print_line l).
Proof. intros Hi. apply keeps_set; [by apply (inv_same s)|done]. Qed.
Lemma safe_flush s : session_inv s -> safe s flush.
Proof.
  intros Hi. unfold safe, keeps, flush, mbind, st_bind, ask. pose proof (fun stream => link_flush stream (world s)) as Hl. pose proof (kept_flush (D := D) _ (si_world s Hi)) as Hk.
  destruct (flush_stdout (world s)) as [w [e|]]; cbn in *; eexists _, _; (split; [done|]); (split; [done|]); (split; [|done]); by apply inv_world.
Qed.
(** A menu that was asked to close is closed. *)
Lemma closed_when_open s : session_inv s -> keeps session_inv s close_when_open (fun s' r => r = Ok tt /\ menu_open (menu s') = false).
Proof.
  intros Hi. unfold close_when_open. apply keeps_bind, keeps_get; [done|]. destruct (menu_open (menu s)) eqn:Eo.
  - apply closing; [apply Hi|]. intros s' [_ Hc]. by split.
  - by apply keeps_ret.
Qed.
Lemma safe_close_when_open s : session_inv s -> safe s close_when_open.
Proof. intros Hi. eapply keeps_impl; [by apply closed_when_open|done]. Qed.
Lemma safe_save seconds s : quiet s -> safe s (run_action (SaveHotkey seconds)).
Proof.
  intros Hq. unfold safe, keeps, run_action, try_helper, request_save, mbind, st_bind.
  destruct (control_total (save_command seconds) s) as (w & r & -> & Hp & Hk). assert (Hw : quiet (set_world w s)) by (apply quiet_world; [done|apply Hk, Hq]).
  destruct r as [a|e|]; [| |done]; [destruct (bytes_eqb a ok_line)|]; cbn; eexists _, (Ok tt); (split; [done|]); (split; [done|]);
    (split; [|done]); by apply (inv_same (set_world w s)); [..|apply Hw].
Qed.
Lemma safe_toggle s : session_inv s -> safe s (run_action ToggleOverlay).
Proof.
  intros Hi. unfold run_action. apply keeps_bind, keeps_get; [done|]. destruct (menu_open (menu s)) eqn:Eo.
  - apply safe_bind; [by apply safe_ret|]. intros s1 Hi1. by apply helper_toggle_calls.
  - apply safe_bind; [|intros s1 Hi1; by apply helper_toggle_calls]. unfold safe, keeps, mbind, st_bind, ask.
    pose proof (refresh_free (world s)) as Hf. pose proof (kept_refresh (D := D) _ (si_world s Hi)) as Hk. destruct (refresh_mice (world s)) as [w ds]. cbn in *. eexists _, (Ok tt). split; [done|]. split; [done|].
    split; [|done]. by apply (quiet_mice ds (set_world w s)); [apply quiet_world|].
Qed.

(** The shortcuts of the configuration are not on modifiers. *)
Definition plain (bindings : list KeyChord) : Prop := Forall (fun b => is_modifier_key (chord_key b) = false) bindings.
Lemma hotkey_plain bindings c m a : plain bindings -> hotkey_of bindings c m = Some a -> is_modifier_key c = false.
Proof.
  intros Hp. unfold hotkey_of. destruct (list_find _ bindings) as [[i b]|] eqn:E; [|done]. intros _.
  apply list_find_Some in E as (Hi & [<- _] & _). unfold plain in Hp. rewrite Forall_forall in Hp. apply Hp. by eapply list_elem_of_lookup_2.
Qed.
Lemma safe_press bindings e s : plain bindings -> session_inv s -> safe s (press_key bindings e).
Proof.
  intros Hb Hi. unfold press_key. apply keeps_bind, keeps_get; [done|]. apply safe_bind; [by apply (safe_keys _ s)|].
  intros s1 Hi1. destruct (logical_press_is_new _ _); cbn [negb]; [|by apply safe_ret]. apply keeps_bind, keeps_get; [done|].
  destruct (hotkey_of bindings (code e) (active_modifiers (pressed s1))) as [action|] eqn:Eh.
  - rewrite (hotkey_plain _ _ _ _ Hb Eh). cbn [negb]. rewrite andb_true_r. apply keeps_bind. destruct action as [|seconds].
    + rewrite bool_decide_true by done. apply keeps_ret; [done|]. apply safe_bind; [by apply safe_toggle|]. apply safe_flush.
    + rewrite bool_decide_false by done. eapply keeps_impl; [by apply closed_when_open|]. intros s2 r Hi2 _ [-> Hc].
      apply safe_bind; [by apply safe_save|]. apply safe_flush.
  - apply safe_bind; [|apply safe_ret]. destruct (_ && _); [by apply safe_close_when_open|by apply safe_ret].
Qed.
Lemma safe_event bindings e s : plain bindings -> session_inv s -> safe s (on_event bindings e).
Proof.
  intros Hb Hi. destruct e as [e|g|n]; cbn [on_event].
  - unfold on_key. apply keeps_bind, keeps_get; [done|]. destruct (menu_open (menu s) && escape_closes_menu e).
    + apply safe_bind; [destruct (value e =? 1); [by apply (safe_keys _ s)|by apply safe_ret]|]. intros s1 Hi1. apply safe_close, Hi1.
    + destruct (value e =? 0); [by apply (safe_keys _ s)|]. destruct (value e =? 1); [by apply safe_press|by apply safe_ret].
  - apply safe_bind; [by apply (safe_keys _ s)|]. apply safe_close_when_open.
  - apply safe_bind; [by apply safe_print|]. apply safe_flush.
Qed.
Lemma safe_events bindings es s : plain bindings -> session_inv s -> safe s (on_events bindings es).
Proof.
  intros Hb. revert s. induction es as [|e es IH]; intros s Hi; [by apply safe_ret|]. cbn. apply safe_bind; [by apply safe_event|]. auto.
Qed.
Lemma safe_after s : session_inv s -> safe s after_events.
Proof.
  intros Hi. unfold after_events. apply keeps_bind, keeps_get; [done|]. apply safe_bind.
  - destruct (menu_open (menu s)) eqn:Eo; [|by apply safe_ret]. destruct (mouse_events s Hi Eo) as (s1 & b & E & Hk & Hs1).
    unfold safe, keeps, mbind, st_bind. rewrite E. destruct b; [|by apply safe_close]. exists s1, (Ok tt). splits; [done..|by apply Hs1|done].
  - intros s1 Hi1. apply keeps_bind, keeps_get; [done|]. destruct (menu_open (menu s1)); [|by apply safe_ret].
    unfold safe, keeps. rewrite clock_step. apply keeps_bind, keeps_get; [by apply clock_inv|]. destruct (negb _); [apply safe_close, clock_inv, Hi1|apply safe_ret, clock_inv, Hi1].
Qed.
Lemma safe_tick bindings window s : plain bindings -> session_inv s -> safe s (helper_tick bindings window).
Proof. intros Hb Hi. apply safe_bind; [by apply safe_events|]. apply safe_after. Qed.
Lemma helper_start_inv w now : K w -> session_inv {| world := w; mice := []; menu := menu_closed now; pressed := ∅; printed := [] |}.
Proof. intros. constructor; cbn; try done. by apply Forall_nil. Qed.
Lemma monitor_spec bindings ticks s :
  plain bindings -> session_inv s -> exists s' r, monitor_events bindings ticks s = (s', r) /\ r <> Panic /\ (r = Ok tt -> free (mice s')).
Proof.
  intros Hb. revert s. induction ticks as [|window ticks IH]; intros s Hi; cbn [monitor_events].
  - eexists _, (Ok tt). split; [done|]. split; [done|]. intros _. apply release_free.
  - destruct (safe_tick bindings window s Hb Hi) as (s1 & r & E & Hp & Hi1 & _). unfold mbind, st_bind. rewrite E.
    destruct r as [[]|e|]; [by apply IH| |done]. by exists s1, (Err e).
Qed.
Lemma helper_run_spec bindings ticks w now : plain bindings -> K w -> let '(s, r) := run_helper bindings ticks w now in r <> Panic /\ free (mice s).
Proof.
  intros Hb Hk. unfold run_helper. destruct (monitor_spec bindings ticks _ Hb (helper_start_inv w now Hk)) as (s & r & -> & Hp & _). split; [done|apply release_free].
Qed.

(** The sessions between the ticks of a run, the last after the error if there is one. *)
Fixpoint tick_states (bindings : list KeyChord) (ticks : list (list KeyboardEvent)) (s : session) : list session :=
  s :: match ticks with
       | [] => []
       | window :: ticks => match helper_tick bindings window s with (s', Ok _) => tick_states bindings ticks s' | (s', _) => [s'] end
       end.
Lemma states_spec bindings ticks s : plain bindings -> session_inv s -> Forall session_inv (tick_states bindings ticks s).
Proof.
  intros Hb. revert s. induction ticks as [|window ticks IH]; intros s Hi; cbn; apply Forall_cons; (split; [done|]); [by apply Forall_nil|].
  destruct (safe_tick bindings window s Hb Hi) as (s1 & r & -> & Hp & Hi1 & _).
  destruct r as [[]|e|]; [by apply IH| |done]. apply Forall_cons. by split; [|apply Forall_nil].
Qed.
End Ownership.

Lemma configured_plain input bindings : read_bindings input = Ok bindings -> plain bindings.
Proof.
  intros H. unfold read_bindings in H. apply bind_Ok in H as (bs & H & E).
  destruct (read_lines_ok [] input bs H (NoDup_nil_2) ltac:(by apply Forall_nil) ltac:(done)) as (_ & Hok & _).
  destruct (_ =? _)%nat; [done|]. destruct (_ <? _)%nat; [done|]. injection E as <-. eapply Forall_impl; [exact Hok|]. by intros c (_ & H1 & _).
Qed.

Section Runs.
Context {W D : Type} `{!PointerDevice D} `{!HelperWorld W D} `{!PointerDeviceSpec D} `{!HelperWorldSpec W D}.
Definition helper_start (w : W) (now : Z) : Session W D :=
  {| world := w; mice := []; menu := menu_closed now; pressed := ∅; printed := [] |}.

Instance no_world : WorldKept W D (fun _ => True).
Proof. by constructor. Qed.
Instance no_link : Linked (W := W) (D := D) (fun _ => True) (fun _ _ => True).
Proof. by constructor. Qed.

(** C34: Whatever keys are pressed, keyboards come and go, mice fail and the daemon
    answers or not, the helper never panics, and owns the mice only while its
    menu is open: all of them when it reports the menu as opened, none when it
    is view only or closed, and none after the run, also when it ends with an
    error. *)
Theorem mice_never_stranded input bindings ticks (w : W) now :
  read_bindings input = Ok bindings ->
  Forall (fun s : Session W D =>
    (menu_open (menu s) = false -> free (mice s) /\ control (menu s) = None)
    /\ (if pointer_grabbed (menu s) then menu_open (menu s) = true /\ taken (mice s) else free (mice s))
    /\ motion_ok (pending_motion (menu s)))
    (tick_states bindings ticks (helper_start w now))
  /\ let '(s, r) := run_helper bindings ticks w now in r <> Panic /\ free (D := D) (mice s).
Proof.
  intros Hb%configured_plain. split.
  - eapply Forall_impl; [apply (states_spec (fun _ => True) (fun _ _ => True)); [done|by apply (helper_start_inv (fun _ => True) (fun _ _ => True))]|].
    intros s [H1 H2 H3 H4 _]. split; [|split; [|done]].
    + intros Hc. destruct (H1 Hc) as [E1 E2]. by rewrite E1 in H3.
    + destruct (pointer_grabbed (menu s)) eqn:Eg; [|done]. split; [|done]. destruct (menu_open (menu s)) eqn:Eo; [done|]. by destruct (H1 eq_refl).
  - by apply (helper_run_spec (fun _ => True) (fun _ _ => True)).
Qed.

Context `{!MenuOwner W D}.
Definition synced (stream : Z) (w : W) : Prop := in_sync (D := D) stream w /\ shows (D := D) w = true.
Existing Instance owner_world.
Instance owner_link : Linked (W := W) (D := D) (world_ok (D := D)) synced.
Proof.
  constructor.
  - intros stream w [H1 H2]. destruct (clock_shows (D := D) w) as [E1 E2]. split; [by apply E2|by rewrite E1].
  - intros stream w [H1 H2]. destruct (flush_shows (D := D) w) as [E1 E2]. split; [by apply E2|by rewrite E1].
  - intros stream w w' w'' Hk Hc He. destruct (connect_sync (D := D) _ _ _ Hk Hc) as [Hs _].
    pose proof (kept_connect (D := D) w Hk) as Hk'. rewrite Hc in Hk'. apply (exchange_shows stream menu_toggle_command ToggleMenu w' w'' grab_line); [done|done|apply MeansToggle|done|done|by right].
  - intros stream cmd meaning w w' r Hk [H1 H2] Hm Hs He Hr. by eapply exchange_shows.
Qed.
Lemma follows bindings ticks (w : W) now :
  plain bindings -> world_ok (D := D) w -> Forall (fun s : Session W D => world_ok (D := D) (world s) /\ (menu_open (menu s) = true -> shows (D := D) (world s) = true))
    (tick_states bindings ticks (helper_start w now)).
Proof.
  intros Hb Hk. eapply Forall_impl; [apply (states_spec (world_ok (D := D)) synced); [done|by apply (helper_start_inv (world_ok (D := D)) synced)]|].
  intros s Hi. split; [apply Hi|]. intros Ho. destruct (si_open _ _ s Hi Ho) as (stream & _ & _ & Hs). exact Hs.
Qed.
End Runs.
