(* ===== verification/Owner.v ===== *)
(** The helper and the daemon together: the helper's requests go over streams to
    [handle_connection] of the control socket, and the menu that the helper
    thinks open is the one that the daemon shows in the game. *)
From stdpp Require Import strings gmap sets.
From S2P Require Import Prelude Bytes Text Profiles Overlay OverlayShare OverlayShareTheorems Preferences PreferencesTheorems Replay Menu CaptureProtocol CaptureModel Encoder Pipeline PipelineFacts PipelineRuns Runtime RuntimeFacts RuntimeTheorems RuntimeHistory Control ControlFacts ControlTheorems Hotkeys HelperSession HotkeysTheorems HelperTheorems.
Local Open Scope Z_scope.

Section Owner.
Context {B S J D : Type} `{!HardwareEncoderBackend B} `{!SegmentSpool S J} `{!PointerDevice D}.
Context `{!HardwareEncoderBackendSpec B} `{!SegmentSpoolSpec S J} `{!SpoolStatsRange S J} `{!PointerDeviceSpec D}.
Notation coordinator := (Coordinator B S J).

(** What the two processes do not decide, by the number of the request: what
    the daemon meets while it answers, what else happens to it before (other
    connections, the game, its own watchdog), whether it takes the command,
    whether an answer arrives within the helper's timeout and how many further
    ones the reader of the request (a new [BufReader] each time) takes from the
    socket with it and loses, and the helper's clock, standard output and
    devices. *)
Record Conditions := {
  world_of : nat -> environment;
  drift : nat -> coordinator -> coordinator;
  connects : nat -> bool;
  takes : nat -> bool;
  in_time : nat -> bool;
  read_ahead : nat -> nat;
  helper_clock : nat -> Z;
  helper_stdout : nat -> option string;
  helper_mice : nat -> list D;
  error_text : control_error -> bytes;
}.
(** A stream: whether the daemon still reads from it, and the answers that the
    helper has not read. *)
Record OwnerWorld := {
  ow_coordinator : coordinator;
  ow_streams : gmap Z (bool * list bytes);
  ow_next : Z;
  ow_requests : nat;
  ow_conditions : Conditions;
}.
Definition reply_text (conditions : Conditions) (r : outcome control_error reply) : bytes :=
  match r with
  | Ok OkReply => ok_line
  | Ok GrabReply => grab_line
  | Ok ReleaseReply => release_line
  | Err e => ascii_bytes "ERROR " ++ error_text conditions e ++ [10]
  | Panic => []
  end.
(** One pass of the loop of [handle_connection], on a command that was sent. *)
Definition serve (conditions : Conditions) (n : nat) (cmd : bytes) (c : coordinator) : coordinator * outcome control_error reply * bool :=
  match (read_command (ReadByte <$> cmd)).2 with
  | Ok (Some command) => let '(c, r) := respond command (world_of conditions n) c in (c, r, negb (ends r))
  | Ok None => (c, Panic, false)
  | Err e => (c, Err e, false)
  | Panic => (c, Panic, false)
  end.
Definition ow_exchange (stream : Z) (cmd : bytes) (w : OwnerWorld) : OwnerWorld * (bytes + string) :=
  let conditions := ow_conditions w in
  let n := ow_requests w in
  let c := drift conditions n (ow_coordinator w) in
  let '(serving, unread) := default (false, []) (ow_streams w !! stream) in
  let '(c, serving, unread) :=
    if serving && takes conditions n then
      let '(c, r, goes_on) := serve conditions n cmd c in (c, goes_on, unread ++ [reply_text conditions r])
    else (c, serving, unread) in
  let '(unread, answer) :=
    if in_time conditions n then match unread with r :: rest => (drop (read_ahead conditions n) rest, inl r) | [] => ([], inr "Replay control response failed: end of file"%string) end
    else (unread, inr "Replay control response failed: timed out"%string) in
  ({| ow_coordinator := c; ow_streams := <[stream := (serving, unread)]> (ow_streams w); ow_next := ow_next w;
      ow_requests := Datatypes.S n; ow_conditions := conditions |}, answer).
Definition ow_connect (w : OwnerWorld) : OwnerWorld * (Z + string) :=
  let next := {| ow_coordinator := ow_coordinator w; ow_streams := <[ow_next w := (true, [])]> (ow_streams w); ow_next := ow_next w + 1;
                 ow_requests := Datatypes.S (ow_requests w); ow_conditions := ow_conditions w |} in
  if connects (ow_conditions w) (ow_requests w) then (next, inl (ow_next w)) else (w, inr "connection refused"%string).
Definition ow_drop (stream : Z) (w : OwnerWorld) : OwnerWorld :=
  {| ow_coordinator := ow_coordinator w; ow_streams := delete stream (ow_streams w); ow_next := ow_next w; ow_requests := ow_requests w;
     ow_conditions := ow_conditions w |}.
Definition ow_count (w : OwnerWorld) : OwnerWorld :=
  {| ow_coordinator := ow_coordinator w; ow_streams := ow_streams w; ow_next := ow_next w; ow_requests := Datatypes.S (ow_requests w);
     ow_conditions := ow_conditions w |}.
#[export] Instance owner_helper_world : HelperWorld OwnerWorld D := {|
  connect := ow_connect;
  exchange := ow_exchange;
  drop_stream := ow_drop;
  clock w := (ow_count w, helper_clock (ow_conditions w) (ow_requests w));
  flush_stdout w := (ow_count w, helper_stdout (ow_conditions w) (ow_requests w));
  refresh_mice w := (ow_count w, map ungrab (helper_mice (ow_conditions w) (ow_requests w)));
|}.
#[export] Instance owner_world_spec : HelperWorldSpec OwnerWorld D.
Proof. intros w. apply release_free. Qed.

(** ** The owner's side of the interface *)
Definition drift_ok (w : OwnerWorld) : Prop :=
  forall n c, coordinator_inv c -> coordinator_inv (drift (ow_conditions w) n c).
Definition ow_ok (w : OwnerWorld) : Prop := drift_ok w /\ coordinator_inv (ow_coordinator w).
Lemma serve_spec conditions n cmd c :
  coordinator_inv c -> let '(c', r, goes_on) := serve conditions n cmd c in coordinator_inv c'.
Proof.
  intros Hi. unfold serve. destruct (read_command _).2 as [[command|]|e|]; try done.
  pose proof (respond_calls command (world_of conditions n) c Hi) as (c' & r & E & _ & Hi' & _). by rewrite E.
Qed.
Lemma exchange_ok stream cmd w : ow_ok w -> ow_ok (ow_exchange stream cmd w).1.
Proof.
  intros [Hd Hi]. specialize (Hd (ow_requests w) _ Hi) as Hc. unfold ow_exchange. destruct (default _ _) as [serving unread].
  assert (Hw : forall c s u, coordinator_inv c -> ow_ok (let '(unread, answer) := if in_time (ow_conditions w) (ow_requests w)
       then match u with r :: rest => (drop (read_ahead (ow_conditions w) (ow_requests w)) rest, inl r) | [] => ([], inr "Replay control response failed: end of file"%string) end
       else (u, inr "Replay control response failed: timed out"%string) in
     ({| ow_coordinator := c; ow_streams := <[stream := (s, unread)]> (ow_streams w); ow_next := ow_next w;
         ow_requests := Datatypes.S (ow_requests w); ow_conditions := ow_conditions w |}, answer)).1).
  { intros c s u H. destruct (if in_time _ _ then _ else _) as [u' a]. by split. }
  destruct (serving && takes _ _); [|by apply Hw]. pose proof (serve_spec (ow_conditions w) (ow_requests w) cmd _ Hc) as Hs.
  destruct (serve _ _ _ _) as [[c r] goes_on]. by apply Hw.
Qed.
#[local] Instance owner_kept : WorldKept OwnerWorld D ow_ok.
Proof.
  constructor; try done.
  - intros w Hw. cbn. unfold ow_connect. by destruct (connects _ _).
  - intros stream cmd w. apply exchange_ok.
Qed.
Definition ow_synced (stream : Z) (w : OwnerWorld) : Prop := ow_streams w !! stream = Some (true, []).
Lemma line_neq : ok_line <> release_line /\ grab_line <> release_line.
Proof. by split. Qed.
Lemma served_menu conditions n cmd meaning c :
  coordinator_inv c -> means cmd meaning -> (forall d, meaning <> SaveCommand d) ->
  let '(c', r, goes_on) := serve conditions n cmd c in
  reply_text conditions r = ok_line \/ reply_text conditions r = grab_line -> goes_on = true /\ open c' = true.
Proof.
  intros Hi Hm Hs. destruct (command_accepted cmd meaning [] Hm) as [Hr Hp]. rewrite app_nil_r in Hr. unfold serve. rewrite Hr. cbn [snd].
  destruct (respond_calls cmd (world_of conditions n) c Hi) as (c' & r & E & Hnp & _ & Ha). rewrite E.
  destruct r as [[]|e|]; cbn in *; [|split; [done|apply Ha]| |intros [[=]|[=]]|done].
  - intros _. split; [done|]. destruct Ha as [_ [H|[d Hd]]]; [done|]. rewrite Hp in Hd. injection Hd as ->. by destruct (Hs d).
  - intros [[=]|[=]].
Qed.
#[export] Instance owner_menu : MenuOwner OwnerWorld D.
Proof.
  refine {| shows w := open (ow_coordinator w); in_sync := ow_synced; world_ok := ow_ok; owner_world := owner_kept |}; try done.
  - intros w w' s _. cbn. unfold ow_connect. destruct (connects _ _); [|done]. intros [= <- <-]. split; [|done]. apply lookup_insert_eq.
  - intros stream cmd meaning w w' r [Hd Hi] Hsync Hm Hs. cbn. unfold ow_exchange. rewrite Hsync. cbn [default from_option].
    pose proof (served_menu (ow_conditions w) (ow_requests w) cmd meaning _ (Hd (ow_requests w) _ Hi) Hm Hs) as Hsv. unfold ow_synced.
    destruct (takes _ _); cbn [andb].
    + destruct (serve _ _ _ _) as [[c r'] goes_on]. cbn [app]. destruct (in_time _ _); [|done]. cbn beta iota. rewrite ?drop_nil. intros [= <- <-] Ha.
      destruct (Hsv Ha) as [-> Ho]. split; [cbn; by rewrite drop_nil, lookup_insert_eq|exact Ho].
    + destruct (in_time _ _); done.
Defined.

(** C8: While the helper keeps its menu open (and with it the mice), the daemon
    showed the menu when it last answered: whatever keys, mice, timeouts and
    late or missing answers there were, and whatever else happened to the
    daemon between two requests. *)
Theorem helper_follows_owner input bindings ticks (w : OwnerWorld) now :
  read_bindings input = Ok bindings -> ow_ok w ->
  Forall (fun s : Session OwnerWorld D =>
    menu_open (menu s) = true -> open (ow_coordinator (world s)) = true /\ coordinator_inv (ow_coordinator (world s)))
    (tick_states bindings ticks (helper_start w now)).
Proof.
  intros Hb%configured_plain Hw. eapply Forall_impl; [by apply (follows bindings ticks w now Hb)|]. intros s [Hk Hs] Ho.
  split; [by apply Hs|by apply Hk].
Qed.

(** ** Closing with the shortcut *)
Lemma toggle_open e c : coordinator_inv c -> open c = true ->
  exists c', respond menu_toggle_command e c = (c', Ok ReleaseReply) /\ open c' = false.
Proof.
  intros Hi Ho. destruct (watchdog_calls e c Hi) as (c1 & r1 & E1 & _ & Hi1 & Hw). unfold respond.
  destruct r1 as [[]|err|]; [| |done..].
  { rewrite (run_ok _ _ _ _ _ E1). by exists c1. }
  subst c1. rewrite (run_ok _ _ _ _ _ E1). assert (Ep : parse_command menu_toggle_command = Ok ToggleMenu) by (vm_compute; reflexivity).
  unfold lift. rewrite Ep. unfold mbind at 1, st_bind at 1. unfold apply_command, toggle_replay_menu. unfold open in Ho.
  unfold co_gets, on_menu, mbind, st_bind. rewrite Ho. cbn [negb andb]. unfold menu_toggle at 1. rewrite Ho. cbn [negb].
  set (c1 := set_menu _ c). assert (Hi2 : coordinator_inv c1).
  { apply inv_set_menu; [done|]. pose proof (toggle_inv (env_now e) _ (ci_menu c Hi)) as H. unfold menu_toggle in H. by rewrite Ho in H. }
  destruct (menu_publish_calls (env_now e) c1 (fun c' _ => kept c1 c') Hi2) as (c2 & r & E & Hp & _ & Hk); [done|].
  unfold publish_toggled. rewrite E. exists c2. destruct r as [[]|err|]; [| |done]; (split; [done|]); by rewrite (kept_open _ _ Hk).
Qed.
Lemma exchange_synced stream cmd meaning (w : OwnerWorld) :
  let conditions := ow_conditions w in let n := ow_requests w in
  let x := respond cmd (world_of conditions n) (drift conditions n (ow_coordinator w)) in
  means cmd meaning -> ow_synced stream w -> takes conditions n = true -> in_time conditions n = true -> x.2 <> Panic ->
  exists w', ow_exchange stream cmd w = (w', inl (reply_text conditions x.2)) /\ ow_coordinator w' = x.1.
Proof.
  cbv zeta. intros Hm Hs Ht Hi Hp. destruct (command_accepted cmd meaning [] Hm) as [Hr _]. rewrite app_nil_r in Hr.
  unfold ow_exchange. rewrite Hs, Ht, Hi. cbn [default from_option andb]. unfold serve. rewrite Hr. cbn [snd id].
  destruct (respond _ _ _) as [c' r]. cbn [app]. cbn beta iota. eexists. split; [done|done].
Qed.
Lemma close_answered stream cmd (s : Session OwnerWorld D) w' r :
  control (menu s) = Some stream -> ow_exchange stream cmd (world s) = (w', inl r) -> is_done (read_response r) = true ->
  exists s', close_menu cmd s = (s', Ok tt) /\ menu_open (menu s') = false /\ control (menu s') = None /\ mice s' = release_all (mice s)
    /\ world s' = ow_drop stream w'.
Proof.
  intros Hc He Hr. unfold close_menu, ask_to_close, menu_request, request_on_stream, try_helper, drop_control, close_stream, from_sum, print_line.
  unfold ask, hp_gets, hp_modify, lift, mbind, st_bind. rewrite Hc. cbn [exchange owner_helper_world]. rewrite He. cbn.
  destruct (read_response r); [|done..]. cbn. rewrite Hc. eexists. by splits.
Qed.

End Owner.

(** * A helper with one mouse *)
Record DemoMouse := { mouse_owned : bool; mouse_queue : list fetched }.
#[export] Instance demo_mouse : PointerDevice DemoMouse := {|
  grab d := ({| mouse_owned := true; mouse_queue := mouse_queue d |}, None);
  ungrab d := {| mouse_owned := false; mouse_queue := mouse_queue d |};
  fetch_events d := match mouse_queue d with
    | [] => (d, WouldBlock)
    | r :: rest => ({| mouse_owned := mouse_owned d; mouse_queue := rest |}, r)
    end;
|}.
#[export] Instance demo_mouse_spec : PointerDeviceSpec DemoMouse.
Proof.
  refine {| owned := mouse_owned |}; [by intros d d' [= <-]|by intros [o [|r q]]|done].
Defined.
(** [away] says before which requests the daemon's watchdog finds the game away. *)
Definition demo_conditions (away : nat -> bool) : Conditions (B := DemoEncoder) (S := DemoSpool) (J := unit) (D := DemoMouse) := {|
  world_of := demo_world;
  drift n c := if away n then (on_menu (fun m => (menu_close m, tt)) c).1 else c;
  connects _ := true; takes _ := true; in_time _ := true; read_ahead _ := 0%nat;
  helper_clock n := Z.of_nat n * 1000000000;
  helper_stdout _ := None;
  helper_mice _ := [{| mouse_owned := false; mouse_queue := [Fetched [(1, 272, 1)]; WouldBlock; Fetched [(2, 0, 40); (2, 1, -3)]] |}];
  error_text _ := ascii_bytes "error" |}.
Definition demo_owner (away : nat -> bool) : OwnerWorld (B := DemoEncoder) (S := DemoSpool) (J := unit) (D := DemoMouse) := {|
  ow_coordinator := demo_coordinator; ow_streams := ∅; ow_next := 0; ow_requests := 0; ow_conditions := demo_conditions away |}.
Lemma demo_owner_ok away : ow_ok (demo_owner away).
Proof.
  split; [|apply demo_coordinator_inv]. intros n c Hi. cbn. destruct (away n); [|done]. cbn. apply inv_set_menu, close_inv, Hi. done.
Qed.
Definition chord_window (pressed : Z) : list KeyboardEvent :=
  [KeyEdge {| device := 0; code := 44; value := pressed |}; KeyEdge {| device := 0; code := KEY_LEFTALT; value := pressed |};
   KeyEdge {| device := 0; code := KEY_LEFTSHIFT; value := pressed |}].
(** The menu is opened, moved in and pinged, and toggled again. *)
Definition demo_ticks : list (list KeyboardEvent) := [chord_window 1; chord_window 0; []; chord_window 1].
Definition summary (s : Session (OwnerWorld (B := DemoEncoder) (S := DemoSpool) (J := unit) (D := DemoMouse)) DemoMouse) : bool * bool * list bool :=
  (menu_open (menu s), open (ow_coordinator (world s)), map mouse_owned (mice s)).
Definition demo_states (away : nat -> bool) := tick_states demo_bindings demo_ticks (helper_start (demo_owner away) 0).
Lemma demo_config_read : read_bindings demo_config = Ok demo_bindings.
Proof. vm_compute. reflexivity. Qed.

(** The run with the daemon's menu closed before the closing toggle or not. *)
Example closing_toggle_runs :
  map summary (demo_states (fun _ => false))
  = [(false, false, []); (true, true, [true]); (true, true, [true]); (true, true, [true]); (false, false, [false])]
  /\ map summary (demo_states (fun n => n =? 17)%nat)
  = [(false, false, []); (true, true, [true]); (true, true, [true]); (true, true, [true]); (false, true, [false])].
Proof. split; vm_compute; reflexivity. Qed.
(** The helper between the windows of the second run, its keys released. *)
Definition demo_closing : Session (OwnerWorld (B := DemoEncoder) (S := DemoSpool) (J := unit) (D := DemoMouse)) DemoMouse :=
  default (helper_start (demo_owner (fun n => n =? 17)%nat) 0) (demo_states (fun n => n =? 17)%nat !! 3%nat).
Lemma demo_closing_ok : ow_ok (world demo_closing).
Proof.
  pose proof (follows (W := OwnerWorld) (D := DemoMouse) demo_bindings demo_ticks (demo_owner (fun n => n =? 17)%nat) 0
    (configured_plain _ _ demo_config_read) (demo_owner_ok _)) as H.
  assert (E : demo_states (fun n => n =? 17)%nat !! 3%nat = Some demo_closing).
  { unfold demo_closing. destruct (demo_states _ !! 3%nat) as [s|] eqn:E; [reflexivity|]. exfalso.
    apply lookup_ge_None in E. vm_compute in E. lia. }
  apply (Forall_lookup_1 _ _ _ _ H E).
Qed.

Lemma helper_follows_owner_witness :
  Forall (fun s => menu_open (menu s) = true -> open (ow_coordinator (world s)) = true) (demo_states (fun n => n =? 17)%nat)
  /\ map (fun s => menu_open (menu s)) (demo_states (fun n => n =? 17)%nat) = [false; true; true; true; false].
Proof.
  pose proof (helper_follows_owner demo_config demo_bindings demo_ticks (demo_owner (fun n => n =? 17)%nat) 0 demo_config_read (demo_owner_ok _)) as H.
  split; [eapply Forall_impl; [exact H|]; intros s Hs Ho; apply (Hs Ho)|vm_compute; reflexivity].
Defined.
Lemma mice_never_stranded_witness :
  let '(s, r) := run_helper demo_bindings demo_ticks (demo_owner (fun _ => false)) 0 in r = Ok tt /\ map mouse_owned (mice s) = [false].
Proof.
  pose proof (proj2 (mice_never_stranded demo_config demo_bindings demo_ticks (demo_owner (fun _ => false)) 0 demo_config_read)) as H.
  destruct (run_helper _ _ _ _) as [s r] eqn:E. destruct H as [_ H].
  assert (Es : (r, map mouse_owned (mice s)) = (Ok tt, [false])).
  { change (r, map mouse_owned (mice s)) with ((fun x => (x.2, map mouse_owned (mice x.1))) (s, r)). rewrite <- E. vm_compute. reflexivity. }
  injection Es as -> Hm. split; [reflexivity|exact Hm].
Defined.
