(* ===== verification/SampleClip.v ===== *)
(** A small clip: a stream, three frames and three audio packets.  The muxers'
    theorems are applied to it. *)
From S2P Require Import Prelude Bytes Replay ReplayRing ReplayAudio PacketSource Encoder.
Local Open Scope Z_scope.

Definition demo_video_stream : ReplayVideoStream :=
  {| codec := H264; packet_format := H264LengthPrefixed4; stream_width := 320; stream_height := 240;
     stream_fps := 60; codec_private := [1; 66; 0; 30; 255; 225; 0; 2; 103; 66; 1; 0; 2; 104; 206] |}.
Definition demo_frame (t : Z) (k : bool) : EncodedReplayPacket :=
  {| timestamp_ns := t; duration_ns := 16666667; keyframe := k; packet_bytes := [0; 0; 0; 2; 101; 136] |}.
Definition demo_clip : ReplayRing :=
  with_packets [demo_frame 1000000000 true; demo_frame 1016666667 false; demo_frame 1033333334 true] 18
    (ring_new demo_settings).
Definition demo_opus (t : Z) : EncodedOpusPacket :=
  {| opus_timestamp_ns := t; opus_duration_ns := 20000000; opus_bytes := [1; 2; 3] |}.
Definition demo_tracks : ReplayAudioTracks :=
  {| system := {| snapshot_stream := OpusStreamDescription_default;
                  snapshot_packets := [demo_opus 1000000000; demo_opus 1020000000; demo_opus 1049000000] |};
     microphone := None |}.

Definition demo_source : MemoryPackets :=
  {| memory_packets := packets demo_clip; memory_window := (1000000000, 1050000001);
     cancel := fun _ => false; loads := 0 |}.
