(* ===== verification/Mp4.v ===== *)
(** The fragmented MP4 writer (crates/redunar-daemon/src/replay_mp4.rs):
    boxes, track headers, fragments and the three entry points. *)
From stdpp Require Import strings.
From S2P Require Import Prelude Bytes ReplayRing ReplayAudio Encoder PacketSource.
Local Open Scope Z_scope.

Definition TIMESCALE : Z := 1000000.
Definition TRACK_ID : Z := 1.
Definition AUDIO_TRACK_ID : Z := 2.
Definition MICROPHONE_TRACK_ID : Z := 3.
Definition MAX_FRAGMENT_DURATION_NS : Z := 30000000000.
Definition MAX_STREAM_FRAGMENT_BYTES : Z := 8 * 1024 * 1024.

Inductive Mp4VideoError :=
| EmptyRing | MissingInitialKeyframe | UnsupportedCodec | InvalidPacket | Mp4TimestampOverflow
| ContainerTooLarge | Mp4Io (e : IoError).

Notation R A := (outcome Mp4VideoError A).

(** * Boxes *)
Definition u16 (x : Z) : bytes := be_bytes 2 x.
Definition u32 (x : Z) : bytes := be_bytes 4 x.
Definition u64 (x : Z) : bytes := be_bytes 8 x.
Definition zeros (n : nat) : bytes := replicate n 0.
(** [value << 16] on a u32 drops the high bits. *)
Definition shl16 (x : Z) : Z := Z.land (Z.shiftl x 16) U32_MAX.

Definition full_box (version flags : Z) : bytes := version :: tail (u32 flags).

Definition push_box (destination kind contents : bytes) : R bytes :=
  size ← ok_or (try_from U32_MAX (sat_add USIZE_MAX (zlen contents) 8)) ContainerTooLarge;
  Ok (destination ++ u32 size ++ kind ++ contents).
Definition make_box (kind contents : bytes) : R bytes := push_box [] kind contents.

Definition matrix : bytes :=
  flat_map u32 [0x00010000; 0; 0; 0; 0x00010000; 0; 0; 0; 0x40000000].

Definition to_timescale (nanoseconds : Z) : R Z :=
  ok_or (option_map (fun v => v / 1000000000) (checked_mul U64_MAX nanoseconds TIMESCALE))
    Mp4TimestampOverflow.

(** b"isom\0\0\x02\0isomiso6avc1mp41" *)
Definition ftyp : R bytes :=
  make_box (ascii_bytes "ftyp") (ascii_bytes "isom" ++ [0; 0; 2; 0] ++ ascii_bytes "isomiso6avc1mp41").

(** * Video track headers *)
Definition mvhd_for_next_track (next_track_id : Z) : bytes :=
  full_box 0 0 ++ u32 0 ++ u32 0 ++ u32 TIMESCALE ++ u32 0 ++ u32 0x00010000 ++ u16 0x0100
  ++ zeros 10 ++ matrix ++ zeros 24 ++ u32 next_track_id.
Definition mvhd : bytes := mvhd_for_next_track (TRACK_ID + 1).

Definition tkhd (s : ReplayVideoStream) : bytes :=
  full_box 0 7 ++ u32 0 ++ u32 0 ++ u32 TRACK_ID ++ u32 0 ++ u32 0 ++ zeros 8
  ++ u16 0 ++ u16 0 ++ u16 0 ++ u16 0 ++ matrix ++ u32 (shl16 (stream_width s))
  ++ u32 (shl16 (stream_height s)).

Definition mdhd : bytes :=
  full_box 0 0 ++ u32 0 ++ u32 0 ++ u32 TIMESCALE ++ u32 0 ++ u16 0x55c4 ++ u16 0.

Definition hdlr : bytes :=
  full_box 0 0 ++ u32 0 ++ ascii_bytes "vide" ++ zeros 12 ++ ascii_bytes "Redunar Video" ++ [0].

Definition avc1 (s : ReplayVideoStream) : R bytes :=
  w ← ok_or (try_from U16_MAX (stream_width s)) ContainerTooLarge;
  h ← ok_or (try_from U16_MAX (stream_height s)) ContainerTooLarge;
  push_box
    (zeros 6 ++ u16 1 ++ zeros 16 ++ u16 w ++ u16 h ++ u32 0x00480000 ++ u32 0x00480000 ++ u32 0
     ++ u16 1 ++ zeros 32 ++ u16 0x0018 ++ u16 0xffff)
    (ascii_bytes "avcC") (codec_private s).

(** The empty sample tables that follow the sample description. *)
Definition empty_tables (value : bytes) : R bytes :=
  value ← push_box value (ascii_bytes "stts") (full_box 0 0 ++ u32 0);
  value ← push_box value (ascii_bytes "stsc") (full_box 0 0 ++ u32 0);
  value ← push_box value (ascii_bytes "stsz") (full_box 0 0 ++ u32 0 ++ u32 0);
  push_box value (ascii_bytes "stco") (full_box 0 0 ++ u32 0).

Definition stbl (s : ReplayVideoStream) : R bytes :=
  entry ← avc1 s;
  stsd ← push_box (full_box 0 0 ++ u32 1) (ascii_bytes "avc1") entry;
  value ← push_box [] (ascii_bytes "stsd") stsd;
  empty_tables value.

(** The data reference box shared by both kinds of track. *)
Definition push_dinf (value : bytes) : R bytes :=
  dref ← push_box (full_box 0 0 ++ u32 1) (ascii_bytes "url ") (full_box 0 1);
  dinf ← push_box [] (ascii_bytes "dref") dref;
  push_box value (ascii_bytes "dinf") dinf.

Definition minf (s : ReplayVideoStream) : R bytes :=
  value ← push_box [] (ascii_bytes "vmhd") (full_box 0 1 ++ zeros 8);
  value ← push_dinf value;
  tables ← stbl s;
  push_box value (ascii_bytes "stbl") tables.

Definition mdia (s : ReplayVideoStream) : R bytes :=
  value ← push_box [] (ascii_bytes "mdhd") mdhd;
  value ← push_box value (ascii_bytes "hdlr") hdlr;
  info ← minf s;
  push_box value (ascii_bytes "minf") info.

Definition trak (s : ReplayVideoStream) : R bytes :=
  contents ← push_box [] (ascii_bytes "tkhd") (tkhd s);
  media ← mdia s;
  push_box contents (ascii_bytes "mdia") media.

Definition trex_for (track_id : Z) : bytes := full_box 0 0 ++ u32 track_id ++ u32 1 ++ zeros 12.
Definition trex : bytes := full_box 0 0 ++ u32 TRACK_ID ++ u32 1 ++ u32 0 ++ u32 0 ++ u32 0.

Definition moov (s : ReplayVideoStream) : R bytes :=
  contents ← push_box [] (ascii_bytes "mvhd") mvhd;
  track ← trak s;
  contents ← push_box contents (ascii_bytes "trak") track;
  mvex ← push_box [] (ascii_bytes "trex") trex;
  contents ← push_box contents (ascii_bytes "mvex") mvex;
  make_box (ascii_bytes "moov") contents.

(** * Audio track headers *)
Definition opus_sample_entry (a : ReplayAudioSnapshot) : R bytes :=
  let d := snapshot_stream a in
  push_box
    (zeros 6 ++ u16 1 ++ zeros 8 ++ u16 (channels d) ++ u16 16 ++ u16 0 ++ u16 0
     ++ u32 (shl16 (sample_rate d)))
    (ascii_bytes "dOps")
    ([0; channels d] ++ u16 312 ++ u32 (sample_rate d) ++ u16 0 ++ [0]).

Definition audio_minf (a : ReplayAudioSnapshot) : R bytes :=
  value ← push_box [] (ascii_bytes "smhd") (full_box 0 0 ++ zeros 4);
  value ← push_dinf value;
  entry ← opus_sample_entry a;
  stsd ← push_box (full_box 0 0 ++ u32 1) (ascii_bytes "Opus") entry;
  tables ← push_box [] (ascii_bytes "stsd") stsd;
  tables ← empty_tables tables;
  push_box value (ascii_bytes "stbl") tables.

Definition audio_trak (a : ReplayAudioSnapshot) (track_id : Z) : R bytes :=
  contents ← push_box [] (ascii_bytes "tkhd")
    (full_box 0 7 ++ zeros 8 ++ u32 track_id ++ zeros 12 ++ u16 0 ++ u16 0 ++ u16 0x0100 ++ u16 0
     ++ matrix ++ zeros 8);
  media ← push_box [] (ascii_bytes "mdhd")
    (full_box 0 0 ++ zeros 8 ++ u32 (sample_rate (snapshot_stream a)) ++ u32 0 ++ u16 0x55c4 ++ u16 0);
  media ← push_box media (ascii_bytes "hdlr")
    (full_box 0 0 ++ u32 0 ++ ascii_bytes "soun" ++ zeros 12
     ++ (if track_id =? MICROPHONE_TRACK_ID then ascii_bytes "Redunar Microphone" ++ [0]
         else ascii_bytes "Redunar System Audio" ++ [0]));
  info ← audio_minf a;
  media ← push_box media (ascii_bytes "minf") info;
  push_box contents (ascii_bytes "mdia") media.

Definition moov_with_audio_tracks (s : ReplayVideoStream) (a : ReplayAudioTracks) : R bytes :=
  let next_track := match microphone a with Some _ => 4 | None => 3 end in
  contents ← push_box [] (ascii_bytes "mvhd") (mvhd_for_next_track next_track);
  track ← trak s;
  contents ← push_box contents (ascii_bytes "trak") track;
  track ← audio_trak (system a) AUDIO_TRACK_ID;
  contents ← push_box contents (ascii_bytes "trak") track;
  contents ← match microphone a with
             | Some m =>
                 track ← audio_trak m MICROPHONE_TRACK_ID;
                 push_box contents (ascii_bytes "trak") track
             | None => Ok contents
             end;
  mvex ← push_box [] (ascii_bytes "trex") trex;
  mvex ← push_box mvex (ascii_bytes "trex") (trex_for AUDIO_TRACK_ID);
  mvex ← match microphone a with
         | Some _ => push_box mvex (ascii_bytes "trex") (trex_for MICROPHONE_TRACK_ID)
         | None => Ok mvex
         end;
  contents ← push_box contents (ascii_bytes "mvex") mvex;
  make_box (ascii_bytes "moov") contents.

(** * Fragments *)
(** One entry of [trun]: the end of a sample is the start of the next one, of
    the next fragment, or its own duration. *)
Definition sample_entry (origin : Z) (next : option Z) (p : EncodedReplayPacket) : R bytes :=
  end_ns ← match next with
           | Some t => Ok t
           | None => ok_or (checked_add U64_MAX (timestamp_ns p) (duration_ns p)) Mp4TimestampOverflow
           end;
  start ← ok_or (checked_sub (timestamp_ns p) origin) Mp4TimestampOverflow;
  start ← to_timescale start;
  stop ← ok_or (checked_sub end_ns origin) Mp4TimestampOverflow;
  stop ← to_timescale stop;
  duration ← ok_or (match checked_sub stop start with
                    | Some d => if 0 <? d then Some d else None
                    | None => None
                    end) Mp4TimestampOverflow;
  duration ← ok_or (try_from U32_MAX duration) Mp4TimestampOverflow;
  size ← ok_or (try_from U32_MAX (zlen (packet_bytes p))) ContainerTooLarge;
  Ok (u32 duration ++ u32 size ++ u32 (if keyframe p then 0x02000000 else 0x01010000)).

(** [packets.get(index + 1)] is the head of the rest. *)
Fixpoint sample_entries (origin : Z) (next : option Z) (ps : list EncodedReplayPacket) : R bytes :=
  match ps with
  | [] => Ok []
  | p :: ps =>
      entry ← sample_entry origin
                (match ps with q :: _ => Some (timestamp_ns q) | [] => next end) p;
      rest ← sample_entries origin next ps;
      Ok (entry ++ rest)
  end.

(** The fragment header both kinds of track build. *)
Definition moof_box (sequence track_id base_time : Z) (trun : bytes) : R bytes :=
  traf ← push_box [] (ascii_bytes "tfhd") (full_box 0 0x00020000 ++ u32 track_id);
  traf ← push_box traf (ascii_bytes "tfdt") (full_box 1 0 ++ u64 base_time);
  traf ← push_box traf (ascii_bytes "trun") trun;
  contents ← push_box [] (ascii_bytes "mfhd") (full_box 0 0 ++ u32 sequence);
  contents ← push_box contents (ascii_bytes "traf") traf;
  make_box (ascii_bytes "moof") contents.

(** [packets[0]] panics on an empty fragment. *)
Definition moof (sequence origin : Z) (ps : list EncodedReplayPacket) (next : option Z)
    (data_offset : Z) : R bytes :=
  first ← expect (head ps);
  base ← ok_or (checked_sub (timestamp_ns first) origin) Mp4TimestampOverflow;
  base_time ← to_timescale base;
  count ← ok_or (try_from U32_MAX (zlen ps)) ContainerTooLarge;
  entries ← sample_entries origin next ps;
  moof_box sequence TRACK_ID base_time (full_box 0 0x00000701 ++ u32 count ++ u32 data_offset ++ entries).

Definition total_payload (sizes : list Z) : R Z :=
  for_each (fun total size => ok_or (checked_add U64_MAX total size) ContainerTooLarge) sizes 0.

Section Writer.
(** How the destination answers; the writer is the state. *)
Context (dest : destination).
Notation W A := (st CountingWriter Mp4VideoError A).

Definition emit (chunk : bytes) : W unit := write_all Mp4Io dest chunk.

Definition write_box_header (kind : bytes) (payload : Z) : W unit :=
  size ← lift (ok_or (checked_add U64_MAX payload 8) ContainerTooLarge);
  size ← lift (ok_or (try_from U32_MAX size) ContainerTooLarge);
  _ ← emit (u32 size);
  emit kind.

(** [for packet in packets { output.write_all(packet.bytes())?; }]. *)
Fixpoint emit_all (chunks : list bytes) : W unit :=
  match chunks with
  | [] => fun w => (w, Ok tt)
  | c :: chunks => _ ← emit c; emit_all chunks
  end.

(** The part of [write_fragment] and [write_audio_fragment] they share:
    a provisional header measures the offset of the payload. *)
Definition write_fragment_with (header : Z -> R bytes) (payloads : list bytes) : W unit :=
  provisional ← lift (header 0);
  data_offset ← lift (ok_or (try_from I32_MAX (sat_add USIZE_MAX (zlen provisional) 8)) ContainerTooLarge);
  moof ← lift (header data_offset);
  _ ← emit moof;
  payload_bytes ← lift (total_payload (map zlen payloads));
  _ ← write_box_header (ascii_bytes "mdat") payload_bytes;
  emit_all payloads.

Definition write_fragment (sequence origin : Z) (ps : list EncodedReplayPacket) (next : option Z)
    : W unit :=
  write_fragment_with (moof sequence origin ps next) (map packet_bytes ps).

(** ** Video *)
(** [packets[start..end]] starts at the head of the list; this is
    [end - start - 1], counted by the inner loop over the rest. *)
Fixpoint fragment_advance (start : EncodedReplayPacket) (rest : list EncodedReplayPacket) : nat :=
  match rest with
  | [] => 0
  | p :: rest =>
      if keyframe p || (MAX_FRAGMENT_DURATION_NS <=? sat_sub (timestamp_ns p) (timestamp_ns start))
      then 0
      else S (fragment_advance start rest)
  end.

(** The outer loop over [packets[start..]]; every iteration consumes a packet,
    so their number is enough fuel.  Returns the fragment count. *)
Fixpoint video_fragments (fuel : nat) (origin fragments : Z) (ps : list EncodedReplayPacket) : W Z :=
  match ps with
  | [] => fun w => (w, Ok fragments)
  | p :: rest =>
      match fuel with
      | O => fun w => (w, Panic)
      | S fuel =>
          let n := S (fragment_advance p rest) in
          let fragments := sat_add U32_MAX fragments 1 in
          _ ← write_fragment fragments origin (take n ps) (timestamp_ns <$> ps !! n);
          video_fragments fuel origin fragments (drop n ps)
      end
  end.

Record Mp4VideoSummary := {
  summary_packets : Z;
  summary_fragments : Z;
  summary_duration_ns : Z;
  bytes_written : Z;
}.

Definition validate_packets (s : ReplayVideoStream) (ps : list EncodedReplayPacket) : R unit :=
  for_each (fun _ p => map_err (fun _ => InvalidPacket) (validate_packet s (packet_bytes p))) ps tt.

(** The checks all entry points over a ring start with. *)
Definition ring_prologue (s : ReplayVideoStream) (ring : ReplayRing) : R EncodedReplayPacket :=
  if negb (bool_decide (codec s = H264)) then Err UnsupportedCodec
  else
    first ← ok_or (head (packets ring)) EmptyRing;
    if negb (keyframe first) then Err MissingInitialKeyframe
    else _ ← validate_packets s (packets ring); Ok first.

Definition write_video_only_mp4 (s : ReplayVideoStream) (ring : ReplayRing) : W Mp4VideoSummary :=
  first ← lift (ring_prologue s ring);
  header ← lift ftyp;
  _ ← emit header;
  header ← lift (moov s);
  _ ← emit header;
  let ps := packets ring in
  let origin := timestamp_ns first in
  fragments ← video_fragments (length ps) origin 0 ps;
  last ← lift (ok_or (last ps) EmptyRing);
  duration ← lift (ok_or (match checked_add U64_MAX (timestamp_ns last) (duration_ns last) with
                          | Some stop => checked_sub stop origin
                          | None => None
                          end) Mp4TimestampOverflow);
  n ← get_written;
  mret {| summary_packets := unwrap_or (try_from U32_MAX (zlen ps)) U32_MAX;
          summary_fragments := fragments; summary_duration_ns := duration; bytes_written := n |}.

(** ** Audio *)
Fixpoint audio_entries (ps : list EncodedOpusPacket) : R bytes :=
  match ps with
  | [] => Ok []
  | p :: ps =>
      size ← ok_or (try_from U32_MAX (zlen (opus_bytes p))) ContainerTooLarge;
      rest ← audio_entries ps;
      Ok (u32 960 ++ u32 size ++ rest)
  end.

Definition audio_moof (sequence base_time : Z) (ps : list EncodedOpusPacket) (track_id data_offset : Z)
    : R bytes :=
  count ← ok_or (try_from U32_MAX (zlen ps)) ContainerTooLarge;
  entries ← audio_entries ps;
  moof_box sequence track_id base_time
    (full_box 0 0x00000301 ++ u32 count ++ u32 data_offset ++ entries).

Definition audio_base_time (origin : Z) (first : EncodedOpusPacket) : R Z :=
  ok_or (match checked_sub (opus_timestamp_ns first) origin with
         | Some v => option_map (fun v => v / 1000000000) (checked_mul U64_MAX v 48000)
         | None => None
         end) Mp4TimestampOverflow.

Definition write_audio_fragment (sequence origin : Z) (ps : list EncodedOpusPacket) (track_id : Z) : W unit :=
  first ← lift (expect (head ps));
  base_time ← lift (audio_base_time origin first);
  write_fragment_with (fun data_offset => audio_moof sequence base_time ps track_id data_offset)
    (map opus_bytes ps).

(** [end - start - 1] of the audio loops: at most 1500 packets without a gap
    of more than 5 ms; [count] is [end - start]. *)
Fixpoint audio_advance (count : nat) (previous : EncodedOpusPacket) (rest : list EncodedOpusPacket) : nat :=
  match rest with
  | [] => 0
  | p :: rest =>
      if (1500 <=? count)%nat then 0
      else if 5000000 <? sat_sub (opus_timestamp_ns p)
                           (sat_add U64_MAX (opus_timestamp_ns previous) (opus_duration_ns previous))
      then 0
      else S (audio_advance (S count) p rest)
  end.

Fixpoint audio_fragments (fuel : nat) (origin track_id fragments : Z) (ps : list EncodedOpusPacket) : W Z :=
  match ps with
  | [] => fun w => (w, Ok fragments)
  | p :: rest =>
      match fuel with
      | O => fun w => (w, Panic)
      | S fuel =>
          let n := S (audio_advance 1 p rest) in
          let fragments := sat_add U32_MAX fragments 1 in
          _ ← write_audio_fragment fragments origin (take n ps) track_id;
          audio_fragments fuel origin track_id fragments (drop n ps)
      end
  end.
Definition write_audio_fragments (origin track_id fragments : Z) (ps : list EncodedOpusPacket) : W Z :=
  audio_fragments (length ps) origin track_id fragments ps.

Definition write_audio_video_mp4_tracks (s : ReplayVideoStream) (ring : ReplayRing) (a : ReplayAudioTracks)
    : W Mp4VideoSummary :=
  first ← lift (ring_prologue s ring);
  let ps := packets ring in
  let origin := timestamp_ns first in
  video_end ← lift (ok_or (match last ps with
                           | Some p => checked_add U64_MAX (timestamp_ns p) (duration_ns p)
                           | None => None
                           end) Mp4TimestampOverflow);
  let audio_packets := in_window origin video_end (snapshot_packets (system a)) in
  let microphone_packets := microphone_in_window origin video_end a in
  if existsb (fun p => (zlen (opus_bytes p) =? 0) || (4096 <? zlen (opus_bytes p)))
       (audio_packets ++ microphone_packets)
  then lift (Err InvalidPacket)
  else
    header ← lift ftyp;
    _ ← emit header;
    header ← lift (moov_with_audio_tracks s a);
    _ ← emit header;
    fragments ← video_fragments (length ps) origin 0 ps;
    fragments ← write_audio_fragments origin AUDIO_TRACK_ID fragments audio_packets;
    fragments ← write_audio_fragments origin MICROPHONE_TRACK_ID fragments microphone_packets;
    n ← get_written;
    mret {| summary_packets := unwrap_or (try_from U32_MAX (zlen ps)) U32_MAX;
            summary_fragments := fragments; summary_duration_ns := sat_sub video_end origin;
            bytes_written := n |}.

Definition write_audio_video_mp4 (s : ReplayVideoStream) (ring : ReplayRing) (a : ReplayAudioSnapshot)
    : W Mp4VideoSummary :=
  write_audio_video_mp4_tracks s ring {| system := a; microphone := None |}.
End Writer.

(** * Streaming from a packet source *)
Section Streaming.
Context (dest : destination) {Src : Type} `{ReplayPacketSource Src}.
Notation W A := (st (CountingWriter * Src) Mp4VideoError A).

(** The pending fragment: packets, their bytes, and the fragments written. *)
Definition chunk_full (chunk : list EncodedReplayPacket) (size : Z) (p : EncodedReplayPacket) : bool :=
  match chunk with
  | [] => false
  | first :: _ =>
      keyframe p || (MAX_FRAGMENT_DURATION_NS <=? sat_sub (timestamp_ns p) (timestamp_ns first))
      || (MAX_STREAM_FRAGMENT_BYTES <? size + zlen (packet_bytes p))
  end.

(** [fragments += 1] on a u32 panics on overflow. *)
Definition next_fragment (fragments : Z) : W Z := lift (expect (checked_add U32_MAX fragments 1)).

Definition stream_packet (s : ReplayVideoStream) (origin : Z)
    (chunk : list EncodedReplayPacket) (size fragments : Z) (p : EncodedReplayPacket)
    : W (list EncodedReplayPacket * Z * Z) :=
  if (fragments =? 0) && bool_decide (chunk = []) && negb (keyframe p)
  then lift (Err MissingInitialKeyframe)
  else
    _ ← lift (map_err (fun _ => InvalidPacket) (validate_packet s (packet_bytes p)));
    if chunk_full chunk size p then
      fragments ← next_fragment fragments;
      _ ← on_writer (write_fragment dest fragments origin chunk (Some (timestamp_ns p)));
      mret ([p], zlen (packet_bytes p), fragments)
    else mret (chunk ++ [p], size + zlen (packet_bytes p), fragments).

(** [while let Some(packet) = source.next_packet()?]; a source of n packets
    needs n + 1 units of fuel. *)
Fixpoint stream_loop (fuel : nat) (s : ReplayVideoStream) (origin : Z)
    (chunk : list EncodedReplayPacket) (size fragments : Z) : W (list EncodedReplayPacket * Z) :=
  match fuel with
  | O => lift Panic
  | S fuel =>
      packet ← on_source Mp4Io next_packet;
      match packet with
      | None => mret (chunk, fragments)
      | Some p =>
          '(chunk, size, fragments) ← stream_packet s origin chunk size fragments p;
          stream_loop fuel s origin chunk size fragments
      end
  end.

Fixpoint streaming_audio_fragments (fuel : nat) (origin track_id fragments : Z)
    (ps : list EncodedOpusPacket) : W Z :=
  match ps with
  | [] => mret fragments
  | p :: rest =>
      match fuel with
      | O => lift Panic
      | S fuel =>
          _ ← on_source Mp4Io check_cancel;
          let n := S (audio_advance 1 p rest) in
          fragments ← next_fragment fragments;
          _ ← on_writer (write_audio_fragment dest fragments origin (take n ps) track_id);
          streaming_audio_fragments fuel origin track_id fragments (drop n ps)
      end
  end.
Definition write_streaming_audio_fragments (origin track_id fragments : Z)
    (ps : list EncodedOpusPacket) : W Z :=
  streaming_audio_fragments (length ps) origin track_id fragments ps.

Definition write_streaming_mp4_tracks (fuel : nat) (s : ReplayVideoStream) (a : ReplayAudioTracks) : W Z :=
  if negb (bool_decide (codec s = H264)) then lift (Err UnsupportedCodec)
  else
    '(origin, video_end) ← source_window;
    let audio_packets := in_window origin video_end (snapshot_packets (system a)) in
    let microphone_packets := microphone_in_window origin video_end a in
    if existsb (fun p => (zlen (opus_bytes p) =? 0) || (4096 <? zlen (opus_bytes p))
                         || (opus_duration_ns p =? 0)) (audio_packets ++ microphone_packets)
    then lift (Err InvalidPacket)
    else
      header ← lift ftyp;
      _ ← on_writer (emit dest header);
      header ← lift (if bool_decide (audio_packets = []) && bool_decide (microphone_packets = [])
                     then moov s else moov_with_audio_tracks s a);
      _ ← on_writer (emit dest header);
      '(chunk, fragments) ← stream_loop fuel s origin [] 0 0;
      fragments ← match chunk with
                  | [] => mret fragments
                  | _ =>
                      fragments ← next_fragment fragments;
                      _ ← on_writer (write_fragment dest fragments origin chunk None);
                      mret fragments
                  end;
      if fragments =? 0 then lift (Err EmptyRing)
      else
        fragments ← write_streaming_audio_fragments origin AUDIO_TRACK_ID fragments audio_packets;
        fragments ← write_streaming_audio_fragments origin MICROPHONE_TRACK_ID fragments microphone_packets;
        on_writer get_written.
End Streaming.
