(* ===== verification/Mp4Facts.v ===== *)
(** Correctness of the MP4 writer: what it writes parses back as well-formed
    boxes, fragments partition the packets, and sample tables point at the
    payload and keep the clip's clock. *)
From stdpp Require Import strings.
From S2P Require Import Prelude Bytes Replay ReplayRing ReplayAudio Encoder PacketSource SampleClip Mp4.
Local Open Scope Z_scope.

(** * A reference reader of boxes *)
Definition box (kind contents : bytes) : bytes := u32 (zlen contents + 8) ++ kind ++ contents.

Fixpoint parse_boxes (fuel : nat) (bs : bytes) : option (list (bytes * bytes)) :=
  match bs with
  | [] => Some []
  | _ =>
      match fuel with
      | O => None
      | S fuel =>
          let size := Z.to_nat (be_val (take 4 bs)) in
          if (8 <=? size)%nat && (size <=? length bs)%nat
          then rest ← parse_boxes fuel (drop size bs);
               Some ((slice 4 4 bs, slice 8 (size - 8) bs) :: rest)
          else None
      end
  end.

Definition kind_ok (kind : bytes) : Prop := length kind = 4%nat.
Definition box_fits (contents : bytes) : Prop := zlen contents + 8 <= U32_MAX.

Lemma length_box kind contents : kind_ok kind -> zlen (box kind contents) = zlen contents + 8.
Proof.
  unfold kind_ok. intros H. unfold box, u32. rewrite !zlen_app. unfold zlen.
  rewrite length_be_bytes, H. lia.
Qed.

Lemma parse_boxes_S fuel bs :
  bs <> [] ->
  parse_boxes (S fuel) bs =
  let size := Z.to_nat (be_val (take 4 bs)) in
  if (8 <=? size)%nat && (size <=? length bs)%nat
  then rest ← parse_boxes fuel (drop size bs); Some ((slice 4 4 bs, slice 8 (size - 8) bs) :: rest)
  else None.
Proof. by destruct bs. Qed.

Lemma parse_box fuel kind contents rest :
  kind_ok kind -> box_fits contents ->
  parse_boxes (S fuel) (box kind contents ++ rest)
  = (boxes ← parse_boxes fuel rest; Some ((kind, contents) :: boxes)).
Proof.
  intros Hk Hc. pose proof (zlen_nonneg contents) as Hpos. pose proof (zlen_nonneg rest).
  pose proof (length_box kind contents Hk) as Hlen.
  assert (H4 : take 4 (box kind contents ++ rest) = u32 (zlen contents + 8)).
  { unfold box. rewrite <- app_assoc. apply take_app_length'. symmetry. apply length_be_bytes. }
  assert (Hv : be_val (u32 (zlen contents + 8)) = zlen contents + 8).
  { apply be_val_be_bytes. unfold box_fits, U32_MAX in Hc. cbn. lia. }
  assert (Hbl : length (box kind contents) = (length contents + 8)%nat) by (unfold zlen in Hlen; lia).
  rewrite parse_boxes_S.
  2: { intros E. apply (f_equal length) in E. rewrite length_app in E. cbn in E. lia. }
  cbv zeta. rewrite H4, Hv.
  assert (Z.to_nat (zlen contents + 8) = (length contents + 8)%nat) as -> by (unfold zlen; lia).
  rewrite length_app, Hbl.
  destruct (Nat.leb_spec 8 (length contents + 8)); [|lia].
  destruct (Nat.leb_spec (length contents + 8) (length contents + 8 + length rest)); [|lia]. cbn [andb].
  rewrite <- Hbl, drop_app_length. rewrite Hbl. replace (length contents + 8 - 8)%nat with (length contents) by lia.
  assert (Hs1 : slice 4 4 (box kind contents ++ rest) = kind).
  { unfold box. rewrite <- !app_assoc. apply slice_app_mid; [apply length_be_bytes|done]. }
  assert (Hs2 : slice 8 (length contents) (box kind contents ++ rest) = contents).
  { unfold box. rewrite <- !app_assoc, app_assoc. apply slice_app_mid; [|done].
    rewrite length_app, Hk. unfold u32. by rewrite length_be_bytes. }
  by rewrite Hs1, Hs2.
Qed.

Lemma push_box_Ok d kind c v :
  push_box d kind c = Ok v <-> box_fits c /\ v = d ++ box kind c.
Proof.
  unfold push_box, box_fits, box. rewrite bind_Ok. pose proof (zlen_nonneg c).
  setoid_rewrite ok_or_Ok. setoid_rewrite try_from_Some. unfold sat_add, USIZE_MAX, U64_MAX, U32_MAX.
  split.
  - intros (size & [Hs ->] & [= <-]). split; [lia|].
    by replace (Z.min 18446744073709551615 (zlen c + 8)) with (zlen c + 8) by lia.
  - intros [Hs ->]. exists (zlen c + 8). splits; [lia|lia|done].
Qed.

Lemma push_box_no_panic d kind c : no_panic (push_box d kind c).
Proof. unfold push_box. apply bind_no_panic; [auto with rust|done]. Qed.

(** ** The writer *)
Section Emit.
Context (dest : destination).

Lemma emit_Ok chunk w w' : emit dest chunk w = (w', Ok tt) -> wrote w chunk w'.
Proof. apply write_all_Ok. Qed.

Lemma write_box_header_Ok kind payload w w' :
  0 <= payload -> write_box_header dest kind payload w = (w', Ok tt) ->
  payload + 8 <= U32_MAX /\ wrote w (u32 (payload + 8) ++ kind) w'.
Proof.
  intros Hp. unfold write_box_header. rewrite st_bind_Ok. intros (w1 & size & H1 & H).
  apply lift_Ok in H1 as [-> H1]. apply ok_or_Ok, checked_add_Some in H1 as [_ ->].
  apply st_bind_Ok in H as (w2 & size & H2 & H).
  apply lift_Ok in H2 as [-> H2]. apply ok_or_Ok, try_from_Some in H2 as [H2 ->].
  apply st_bind_Ok in H as (w3 & [] & H3 & H4). apply emit_Ok in H3, H4.
  split; [done|]. by eapply wrote_trans.
Qed.

Lemma emit_all_Ok chunks w w' :
  written w <= U64_MAX -> emit_all dest chunks w = (w', Ok tt) -> wrote w (concat chunks) w'.
Proof.
  revert w. induction chunks as [|c chunks IH]; intros w Hw; cbn [emit_all concat].
  - intros [= <-]. by apply wrote_nil.
  - rewrite st_bind_Ok. intros (w1 & [] & H1 & H2). apply emit_Ok in H1.
    eapply wrote_trans; [exact H1|]. apply IH; [|done]. destruct H1 as [_ ->]. lia.
Qed.

Lemma total_payload_Ok chunks n :
  total_payload (map zlen chunks) = Ok n -> n = zlen (@concat Z chunks).
Proof.
  unfold total_payload. assert (Hg : forall t, for_each (fun total size : Z =>
    @ok_or Mp4VideoError Z (checked_add U64_MAX total size) ContainerTooLarge) (map zlen chunks) t = Ok n ->
    n = t + zlen (concat chunks)); [|intros H; by rewrite (Hg _ H)].
  induction chunks as [|c chunks IH]; intros t; cbn [map for_each concat].
  - intros [= <-]. change (zlen []) with 0. lia.
  - intros H. apply bind_Ok in H as (t1 & H1 & H). apply ok_or_Ok, checked_add_Some in H1 as [_ ->].
    rewrite (IH _ H), zlen_app. lia.
Qed.

(** A fragment is a header box followed by the payload box; the data offset
    is the same for the provisional and the final header. *)
Lemma write_fragment_with_Ok header payloads w w' :
  written w <= U64_MAX ->
  write_fragment_with dest header payloads w = (w', Ok tt) ->
  exists h0 h, header 0 = Ok h0 /\ header (zlen h0 + 8) = Ok h /\ zlen h0 + 8 <= I32_MAX
  /\ box_fits (concat payloads)
  /\ wrote w (h ++ box (ascii_bytes "mdat") (concat payloads)) w'.
Proof.
  intros Hw. unfold write_fragment_with. rewrite st_bind_Ok. intros (w1 & h0 & H1 & H).
  apply lift_Ok in H1 as [-> H1]. apply st_bind_Ok in H as (w2 & off & H2 & H).
  apply lift_Ok in H2 as [-> H2]. apply ok_or_Ok, try_from_Some in H2 as [H2 ->].
  apply st_bind_Ok in H as (w3 & h & H3 & H). apply lift_Ok in H3 as [-> H3].
  apply st_bind_Ok in H as (w4 & [] & H4 & H). apply emit_Ok in H4.
  apply st_bind_Ok in H as (w5 & n & H5 & H). apply lift_Ok in H5 as [-> H5].
  apply total_payload_Ok in H5 as ->.
  apply st_bind_Ok in H as (w6 & [] & H6 & H7).
  apply write_box_header_Ok in H6 as [Hfit H6]; [|apply zlen_nonneg].
  apply emit_all_Ok in H7; [|destruct H6 as [_ ->]; lia].
  unfold sat_add, USIZE_MAX, U64_MAX, I32_MAX in *.
  replace (Z.min 18446744073709551615 (zlen h0 + 8)) with (zlen h0 + 8) in * by lia.
  exists h0, h. splits; [done..|]. eapply wrote_trans; [exact H4|].
  unfold box. rewrite app_assoc. by eapply wrote_trans.
Qed.
End Emit.

(** * Fragments *)
(** Clip time in units of the track's timescale. *)
Definition clock (nanoseconds : Z) : Z := nanoseconds * TIMESCALE / 1000000000.

Definition sample_end (next : option Z) (p : EncodedReplayPacket) : Z :=
  match next with Some t => t | None => timestamp_ns p + duration_ns p end.
Definition sample_flags (p : EncodedReplayPacket) : Z := if keyframe p then 0x02000000 else 0x01010000.

(** Duration, size and flags of every sample. *)
Fixpoint samples (origin : Z) (next : option Z) (ps : list EncodedReplayPacket) : list (Z * Z * Z) :=
  match ps with
  | [] => []
  | p :: rest =>
      let stop := sample_end (match rest with q :: _ => Some (timestamp_ns q) | [] => next end) p in
      (clock (stop - origin) - clock (timestamp_ns p - origin), zlen (packet_bytes p), sample_flags p)
      :: samples origin next rest
  end.
Definition durations (l : list (Z * Z * Z)) : list Z := map (fun s => s.1.1) l.
Definition sizes (l : list (Z * Z * Z)) : list Z := map (fun s => s.1.2) l.
Definition trun_entries (l : list (Z * Z * Z)) : bytes :=
  flat_map (fun '(d, s, f) => u32 d ++ u32 s ++ u32 f) l.

(** Where the last sample ends. *)
Fixpoint clip_end (next : option Z) (ps : list EncodedReplayPacket) : Z :=
  match ps with
  | [] => 0
  | [p] => sample_end next p
  | _ :: rest => clip_end next rest
  end.

Lemma durations_telescope origin next p ps :
  sum_Z (durations (samples origin next (p :: ps)))
  = clock (clip_end next (p :: ps) - origin) - clock (timestamp_ns p - origin).
Proof.
  revert p. induction ps as [|q ps IH]; intros p.
  - cbn. lia.
  - specialize (IH q). cbn [samples durations map fst snd] in *. unfold sum_Z in *.
    cbn [foldr] in *. cbn [clip_end sample_end] in *. lia.
Qed.

Lemma to_timescale_Ok ns v : to_timescale ns = Ok v <-> ns * TIMESCALE <= U64_MAX /\ v = clock ns.
Proof.
  unfold to_timescale, checked_mul, clock. destruct (Z.leb_spec (ns * TIMESCALE) U64_MAX); cbn; naive_solver lia.
Qed.

Lemma sample_entry_Ok origin next p e :
  sample_entry origin next p = Ok e ->
  let d := clock (sample_end next p - origin) - clock (timestamp_ns p - origin) in
  0 < d <= U32_MAX /\ zlen (packet_bytes p) <= U32_MAX
  /\ e = u32 d ++ u32 (zlen (packet_bytes p)) ++ u32 (sample_flags p).
Proof.
  unfold sample_entry. intros H. apply bind_Ok in H as (stop_ns & Hstop & H).
  apply bind_Ok in H as (a & Ha & H). apply ok_or_Ok, checked_sub_Some in Ha as [Ha ->].
  apply bind_Ok in H as (start & Hs & H). apply to_timescale_Ok in Hs as [_ ->].
  apply bind_Ok in H as (b & Hb & H). apply ok_or_Ok, checked_sub_Some in Hb as [Hb ->].
  apply bind_Ok in H as (stop & Ht & H). apply to_timescale_Ok in Ht as [_ ->].
  apply bind_Ok in H as (d & Hd & H). apply ok_or_Ok in Hd.
  apply bind_Ok in H as (d' & Hd' & H). apply ok_or_Ok, try_from_Some in Hd' as [Hd' ->].
  apply bind_Ok in H as (n & Hn & [= <-]). apply ok_or_Ok, try_from_Some in Hn as [Hn ->].
  destruct (checked_sub _ _) as [d0|] eqn:E; [|done]. apply checked_sub_Some in E as [_ ->].
  destruct (Z.ltb_spec 0 (clock (stop_ns - origin) - clock (timestamp_ns p - origin))); [|done].
  injection Hd as <-.
  assert (stop_ns = sample_end next p) as ->.
  { destruct next; [by injection Hstop|]. by apply ok_or_Ok, checked_add_Some in Hstop as [_ ->]. }
  splits; [lia|lia|done|]. done.
Qed.

Lemma sample_entries_Ok origin next ps e :
  sample_entries origin next ps = Ok e ->
  e = trun_entries (samples origin next ps)
  /\ Forall (fun d => 0 < d <= U32_MAX) (durations (samples origin next ps)).
Proof.
  revert e. induction ps as [|p ps IH]; intros e; cbn [sample_entries].
  - intros [= <-]. split; [done|constructor].
  - intros H. apply bind_Ok in H as (e1 & H1 & H). apply bind_Ok in H as (e2 & H2 & [= <-]).
    apply sample_entry_Ok in H1 as (Hd & _ & ->). apply IH in H2 as [-> Hall].
    split; [|by constructor]. cbn [samples trun_entries flat_map]. reflexivity.
Qed.

Lemma sizes_samples origin next ps : sizes (samples origin next ps) = map zlen (map packet_bytes ps).
Proof. induction ps as [|p ps IH]; [done|]. cbn [samples sizes map]. unfold sizes in IH. by rewrite IH. Qed.

(** The layout of a fragment header. *)
Definition moof_contents (sequence track_id base_time : Z) (trun : bytes) : bytes :=
  box (ascii_bytes "mfhd") (full_box 0 0 ++ u32 sequence)
  ++ box (ascii_bytes "traf")
       (box (ascii_bytes "tfhd") (full_box 0 0x00020000 ++ u32 track_id)
        ++ box (ascii_bytes "tfdt") (full_box 1 0 ++ u64 base_time)
        ++ box (ascii_bytes "trun") trun).

Lemma moof_box_Ok sequence track_id base_time trun v :
  moof_box sequence track_id base_time trun = Ok v <->
  box_fits trun
  /\ box_fits (moof_contents sequence track_id base_time trun)
  /\ v = box (ascii_bytes "moof") (moof_contents sequence track_id base_time trun).
Proof.
  unfold moof_box, make_box. rewrite !bind_Ok. setoid_rewrite push_box_Ok. split.
  - intros (a & (_ & ->) & H). apply bind_Ok in H as (b & Hb & H). apply push_box_Ok in Hb as (_ & ->).
    apply bind_Ok in H as (c & Hc & H). apply push_box_Ok in Hc as (Ht & ->).
    apply bind_Ok in H as (d & Hd & H). apply push_box_Ok in Hd as (_ & ->).
    apply bind_Ok in H as (e & He & H). apply push_box_Ok in He as (_ & ->).
    apply push_box_Ok in H as (Hm & ->). cbn [app] in *. rewrite <- app_assoc in *.
    splits; [done..|]. done.
  - intros (Ht & Hm & ->). eexists. split; [split; [|done]|].
    { unfold box_fits, zlen, U32_MAX, full_box, u32. cbn. lia. }
    apply bind_Ok. eexists. split; [apply push_box_Ok; split; [|done]|].
    { unfold box_fits, zlen, U32_MAX, full_box, u32, u64. cbn. lia. }
    apply bind_Ok. eexists. split; [apply push_box_Ok; split; [done|done]|].
    apply bind_Ok. eexists. split; [apply push_box_Ok; split; [|done]|].
    { unfold box_fits, zlen, U32_MAX, full_box, u32. cbn. lia. }
    unfold moof_contents in Hm. unfold box_fits in Hm. rewrite zlen_app in Hm.
    rewrite (length_box (ascii_bytes "traf")) in Hm by done.
    apply bind_Ok. eexists. split; [apply push_box_Ok; split; [|done]|].
    { cbn [app]. unfold box_fits. rewrite <- app_assoc. pose proof (zlen_nonneg
        (box (ascii_bytes "mfhd") (full_box 0 0 ++ u32 sequence))). lia. }
    apply push_box_Ok. cbn [app]. rewrite <- app_assoc. split; [|done].
    unfold box_fits. rewrite zlen_app, (length_box (ascii_bytes "traf")) by done. exact Hm.
Qed.

Lemma length_full_box v f : zlen (full_box v f) = 4.
Proof. reflexivity. Qed.
Lemma length_u32 x : zlen (u32 x) = 4.
Proof. reflexivity. Qed.
Lemma length_u64 x : zlen (u64 x) = 8.
Proof. reflexivity. Qed.

Lemma length_moof_contents sequence track_id base_time trun :
  zlen (moof_contents sequence track_id base_time trun) = 68 + zlen trun.
Proof.
  unfold moof_contents. rewrite zlen_app, !length_box by done.
  rewrite !zlen_app, !length_box by done.
  rewrite !zlen_app, !length_full_box, !length_u32, !length_u64. lia.
Qed.

(** Reading the header of a fragment at its fixed offsets. *)
Lemma moof_reads sequence track_id base_time trun rest :
  let v := box (ascii_bytes "moof") (moof_contents sequence track_id base_time trun) ++ rest in
  slice 60 8 v = u64 base_time /\ v = take 76 v ++ trun ++ rest.
Proof.
  intros v. split; [reflexivity|]. rewrite <- (take_drop 76 v) at 1. reflexivity.
Qed.

(** The trun box starts with its version, count and data offset. *)
Definition trun_box (flags count off : Z) (entries : bytes) : bytes :=
  full_box 0 flags ++ u32 count ++ u32 off ++ entries.

Lemma trun_reads flags count off entries pre rest :
  length pre = 76%nat ->
  let v := pre ++ trun_box flags count off entries ++ rest in
  slice 80 4 v = u32 count /\ slice 84 4 v = u32 off /\ slice 88 (length entries) v = entries.
Proof.
  intros Hpre v. assert (Hf : length (full_box 0 flags) = 4%nat) by reflexivity.
  assert (Hu : forall x, length (u32 x) = 4%nat) by (intros; apply length_be_bytes).
  unfold v, trun_box. splits.
  - rewrite <- !app_assoc, app_assoc. apply slice_app_mid; [rewrite length_app; lia|apply Hu].
  - rewrite <- !app_assoc. rewrite (app_assoc (full_box _ _)), app_assoc.
    apply slice_app_mid; [rewrite !length_app, Hu; lia|apply Hu].
  - rewrite <- !app_assoc. rewrite (app_assoc (u32 count)), (app_assoc (full_box _ _)), app_assoc.
    apply slice_app_mid; [rewrite !length_app, !Hu; lia|done].
Qed.

(** What a reader finds in the bytes of one fragment. *)
Record fragment_reads (frag : bytes) (track_base : Z) (entries : bytes)
    (payloads : list bytes) : Prop := {
  reads_base : slice 60 8 frag = u64 track_base;
  reads_count : slice 80 4 frag = u32 (zlen payloads);
  reads_entries : slice 88 (length entries) frag = entries;
  reads_offset : exists off, 0 <= off <= I32_MAX /\ slice 84 4 frag = u32 off
                             /\ drop (Z.to_nat off) frag = concat payloads;
  reads_boxes : exists header, parse_boxes 2 frag
                = Some [(ascii_bytes "moof", header); (ascii_bytes "mdat", concat payloads)];
}.

Lemma fragment_reads_intro sequence track_id base flags count off entries payloads :
  count = zlen payloads ->
  box_fits (moof_contents sequence track_id base (trun_box flags count off entries)) ->
  box_fits (concat payloads) ->
  off = zlen (box (ascii_bytes "moof") (moof_contents sequence track_id base (trun_box flags count off entries))) + 8 ->
  off <= I32_MAX ->
  fragment_reads
    (box (ascii_bytes "moof") (moof_contents sequence track_id base (trun_box flags count off entries))
     ++ box (ascii_bytes "mdat") (concat payloads)) base entries payloads.
Proof.
  intros -> Hm Hp Hoff Hmax. set (c := moof_contents _ _ _ _) in *.
  destruct (moof_reads sequence track_id base (trun_box flags (zlen payloads) off entries)
    (box (ascii_bytes "mdat") (concat payloads))) as [Hb Ht]. fold c in Hb, Ht.
  set (frag := box (ascii_bytes "moof") c ++ box (ascii_bytes "mdat") (concat payloads)) in *.
  pose proof (zlen_nonneg (trun_box flags (zlen payloads) off entries)) as Htpos.
  assert (Hcl : zlen c = 68 + zlen (trun_box flags (zlen payloads) off entries)) by apply length_moof_contents.
  assert (Hml : zlen (box (ascii_bytes "moof") c) = zlen c + 8) by by apply length_box.
  assert (Hpre : length (take 76 frag) = 76%nat).
  { rewrite length_take. unfold frag. rewrite length_app. unfold zlen in *. lia. }
  destruct (trun_reads flags (zlen payloads) off entries (take 76 frag)
    (box (ascii_bytes "mdat") (concat payloads)) Hpre) as (H1 & H2 & H3).
  rewrite <- Ht in H1, H2, H3. split; try done.
  - exists off. splits; [lia|lia|done|]. unfold frag.
    assert (Z.to_nat off = length (box (ascii_bytes "moof") c ++ u32 (zlen (concat payloads) + 8)
                                   ++ ascii_bytes "mdat")) as ->.
    { rewrite !length_app. change (length (u32 _)) with 4%nat. change (length (ascii_bytes _)) with 4%nat.
      unfold zlen in Hoff. lia. }
    change (box (ascii_bytes "mdat") (concat payloads))
      with (u32 (zlen (concat payloads) + 8) ++ ascii_bytes "mdat" ++ concat payloads).
    rewrite !app_assoc. apply drop_app_length.
  - exists c. unfold frag. rewrite parse_box by done.
    pose proof (parse_box 0 (ascii_bytes "mdat") (concat payloads) [] eq_refl Hp) as Hparse.
    rewrite app_nil_r in Hparse. rewrite Hparse. done.
Qed.

Lemma moof_Ok sequence origin ps next off v : moof sequence origin ps next off = Ok v ->
  let ss := samples origin next ps in
  exists first, head ps = Some first /\ Forall (fun d => 0 < d <= U32_MAX) (durations ss)
  /\ box_fits (moof_contents sequence TRACK_ID (clock (timestamp_ns first - origin)) (trun_box 0x701 (zlen ps) off (trun_entries ss)))
  /\ v = box (ascii_bytes "moof")
           (moof_contents sequence TRACK_ID (clock (timestamp_ns first - origin)) (trun_box 0x701 (zlen ps) off (trun_entries ss))).
Proof.
  unfold moof. intros H. apply bind_Ok in H as (first & Hf & H). destruct (head ps) as [p|]; [|done]. injection Hf as ->.
  apply bind_Ok in H as (b & Hb & H). apply ok_or_Ok, checked_sub_Some in Hb as [_ ->].
  apply bind_Ok in H as (bt & Hbt & H). apply to_timescale_Ok in Hbt as [_ ->].
  apply bind_Ok in H as (n & Hn & H). apply ok_or_Ok, try_from_Some in Hn as [_ ->].
  apply bind_Ok in H as (e & He & H). apply sample_entries_Ok in He as [-> Hd].
  apply moof_box_Ok in H as (_ & Hc & ->). by exists first.
Qed.

(** One video fragment, read back with nothing but the format's fixed
    offsets.  The writer appends a moof and an mdat box whose payload is exactly
    the packets; the data offset in the header leads to that payload; the sample
    table gives every packet's size and a positive duration; and the durations
    add up, without rounding drift, to the clip time between the fragment's
    base time and the start of what follows. *)
Theorem fragment_correct dest sequence origin p ps next w w'
    (Hw : written w <= U64_MAX)
    (Hok : write_fragment dest sequence origin (p :: ps) next w = (w', Ok tt)) :
  let base := clock (timestamp_ns p - origin) in
  let ss := samples origin next (p :: ps) in
  exists frag, inner w' = inner w ++ frag
  /\ written w' = Z.min U64_MAX (written w + zlen frag)
  /\ fragment_reads frag base (trun_entries ss) (map packet_bytes (p :: ps))
  /\ sizes ss = map zlen (map packet_bytes (p :: ps))
  /\ Forall (fun d => 0 < d <= U32_MAX) (durations ss)
  /\ base + sum_Z (durations ss) = clock (clip_end next (p :: ps) - origin).
Proof.
  intros base ss. unfold write_fragment in Hok.
  apply write_fragment_with_Ok in Hok as (h0 & h & H0 & H1 & Hoff & Hfit & [Hin Hwr]); [|done].
  set (off := zlen h0 + 8) in *.
  apply moof_Ok in H0 as (f0 & [= <-] & _ & _ & Eh0). apply moof_Ok in H1 as (f1 & [= <-] & Hd & Hc & ->).
  eexists. split; [exact Hin|]. split; [exact Hwr|]. splits.
  - apply fragment_reads_intro; [unfold zlen; by rewrite length_map|done|done| |done].
    unfold off. rewrite Eh0, !length_box, !length_moof_contents by done. done.
  - apply sizes_samples.
  - done.
  - unfold ss. rewrite durations_telescope. unfold base. lia.
Qed.

(** * Whole files *)
Definition box_of (b : bytes * bytes) : bytes := box b.1 b.2.
Definition file_of (boxes : list (bytes * bytes)) : bytes := flat_map box_of boxes.
Definition box_ok (b : bytes * bytes) : Prop := kind_ok b.1 /\ box_fits b.2.

Lemma parse_file boxes :
  Forall box_ok boxes -> parse_boxes (length boxes) (file_of boxes) = Some boxes.
Proof.
  induction 1 as [|[k c] boxes [Hk Hc] _ IH]; [done|]. cbn [file_of flat_map length].
  change (box_of (k, c)) with (box k c). rewrite parse_box by done.
  unfold file_of in IH. by rewrite IH.
Qed.

Lemma file_of_app b1 b2 : file_of (b1 ++ b2) = file_of b1 ++ file_of b2.
Proof. apply flat_map_app. Qed.

Lemma make_box_Ok kind c v : make_box kind c = Ok v <-> box_fits c /\ v = box kind c.
Proof. apply push_box_Ok. Qed.

(** A fragment in a file: the contents of its header, and its payloads. *)
Definition fragment : Type := bytes * list bytes.
Definition fragment_boxes (frags : list fragment) : list (bytes * bytes) :=
  flat_map (fun f => [(ascii_bytes "moof", f.1); (ascii_bytes "mdat", concat f.2)]) frags.
Definition fragment_ok (f : fragment) : Prop := box_fits f.1 /\ box_fits (concat f.2).

(** What the header of a fragment says: its number, its track, where the track
    continues, the entries of its samples and where their bytes are. *)
Definition describes (sequence track_id base flags : Z) (entries : bytes) (payloads : list bytes) (f : fragment) : Prop :=
  f.2 = payloads /\ zlen f.1 + 16 <= I32_MAX
  /\ f.1 = moof_contents sequence track_id base (trun_box flags (zlen payloads) (zlen f.1 + 16) entries).
(** The fragments of the video, numbered in order; each one ends where what comes
    behind it starts. *)
Definition starts (ps : list EncodedReplayPacket) : option Z := option_map timestamp_ns (head ps).
Fixpoint video_fragments_of (sequence origin : Z) (after : list EncodedReplayPacket) (chunks : list (list EncodedReplayPacket))
    (frags : list fragment) : Prop :=
  match chunks, frags with
  | [], [] => True
  | c :: cs, f :: fs =>
      let ss := samples origin (starts (concat cs ++ after)) c in
      (exists first, head c = Some first /\ Forall (fun d => 0 < d <= U32_MAX) (durations ss)
       /\ describes sequence 1 (clock (timestamp_ns first - origin)) 0x701 (trun_entries ss) (map packet_bytes c) f)
      /\ video_fragments_of (sequence + 1) origin after cs fs
  | _, _ => False
  end.
(** The fragments of an audio track: a clock of 48 kHz and 20 ms per packet. *)
Definition opus_entries (ps : list EncodedOpusPacket) : bytes := flat_map (fun p => u32 960 ++ u32 (zlen (opus_bytes p))) ps.
Fixpoint audio_fragments_of (sequence origin track_id : Z) (chunks : list (list EncodedOpusPacket)) (frags : list fragment) : Prop :=
  match chunks, frags with
  | [], [] => True
  | c :: cs, f :: fs =>
      (exists first, head c = Some first /\ origin <= opus_timestamp_ns first
       /\ describes sequence track_id ((opus_timestamp_ns first - origin) * 48000 / 1000000000) 0x301 (opus_entries c) (map opus_bytes c) f)
      /\ audio_fragments_of (sequence + 1) origin track_id cs fs
  | _, _ => False
  end.
Lemma video_fragments_snoc sequence origin chunks frags c f :
  video_fragments_of sequence origin c chunks frags ->
  (let ss := samples origin None c in
   exists first, head c = Some first /\ Forall (fun d => 0 < d <= U32_MAX) (durations ss)
     /\ describes (sequence + zlen chunks) 1 (clock (timestamp_ns first - origin)) 0x701 (trun_entries ss) (map packet_bytes c) f) ->
  video_fragments_of sequence origin [] (chunks ++ [c]) (frags ++ [f]).
Proof.
  revert sequence frags. induction chunks as [|c0 cs IH]; intros sequence [|f0 fs]; cbn [video_fragments_of app]; try done.
  - intros _. change (zlen []) with 0. rewrite Z.add_0_r. by split.
  - intros [H0 H] Hc. rewrite concat_app. cbn [concat]. rewrite !app_nil_r. split; [exact H0|]. apply IH; [exact H|].
    rewrite zlen_cons in Hc. by replace (sequence + 1 + zlen cs) with (sequence + (1 + zlen cs)) by lia.
Qed.
Lemma describes_intro sequence track_id base flags entries payloads c0 off h :
  c0 = moof_contents sequence track_id base (trun_box flags (zlen payloads) 0 entries) -> off = zlen (box (ascii_bytes "moof") c0) + 8 -> off <= I32_MAX ->
  h = moof_contents sequence track_id base (trun_box flags (zlen payloads) off entries) -> describes sequence track_id base flags entries payloads (h, payloads).
Proof.
  intros -> -> Hoff ->. rewrite length_box, length_moof_contents in * by done. unfold describes. cbn [fst snd]. rewrite length_moof_contents.
  assert (Ht : forall x y, zlen (trun_box flags (zlen payloads) x entries) = zlen (trun_box flags (zlen payloads) y entries)).
  { intros x y. unfold trun_box. by rewrite !zlen_app, !length_full_box, !length_u32. }
  rewrite (Ht _ 0). split; [done|]. split; [lia|]. do 2 f_equal. lia.
Qed.

Lemma fragment_boxes_ok frags : Forall fragment_ok frags -> Forall box_ok (fragment_boxes frags).
Proof.
  induction 1 as [|[h p] frags [H1 H2] _ IH]; [constructor|]. cbn [fragment_boxes flat_map app].
  by repeat constructor.
Qed.

Lemma write_fragment_with_boxes dest header payloads w w' :
  (forall off v, header off = Ok v -> exists c, box_fits c /\ v = box (ascii_bytes "moof") c) ->
  written w <= U64_MAX ->
  write_fragment_with dest header payloads w = (w', Ok tt) ->
  exists h, fragment_ok (h, payloads) /\ wrote w (file_of (fragment_boxes [(h, payloads)])) w'.
Proof.
  intros Hheader Hw H. apply write_fragment_with_Ok in H as (h0 & h & _ & Hh & _ & Hfit & Hwrote); [|done].
  apply Hheader in Hh as (c & Hc & ->). exists c. split; [by split|].
  cbn [fragment_boxes flat_map file_of app box_of fst snd]. by rewrite app_nil_r.
Qed.

Lemma moof_is_box sequence origin ps next off v :
  moof sequence origin ps next off = Ok v -> exists c, box_fits c /\ v = box (ascii_bytes "moof") c.
Proof.
  unfold moof. intros H. apply bind_Ok in H as (? & _ & H). apply bind_Ok in H as (? & _ & H).
  apply bind_Ok in H as (? & _ & H). apply bind_Ok in H as (? & _ & H).
  apply bind_Ok in H as (? & _ & H). apply moof_box_Ok in H as (_ & Hc & ->). eauto.
Qed.

Lemma audio_moof_is_box sequence base ps track off v :
  audio_moof sequence base ps track off = Ok v -> exists c, box_fits c /\ v = box (ascii_bytes "moof") c.
Proof.
  unfold audio_moof. intros H. apply bind_Ok in H as (? & _ & H). apply bind_Ok in H as (? & _ & H).
  apply moof_box_Ok in H as (_ & Hc & ->). eauto.
Qed.

Lemma write_fragment_boxes dest sequence origin ps next w w' :
  written w <= U64_MAX ->
  write_fragment dest sequence origin ps next w = (w', Ok tt) ->
  exists h, fragment_ok (h, map packet_bytes ps)
  /\ wrote w (file_of (fragment_boxes [(h, map packet_bytes ps)])) w'.
Proof. apply write_fragment_with_boxes. intros off v. apply moof_is_box. Qed.

Lemma write_audio_fragment_boxes dest sequence origin ps track w w' :
  written w <= U64_MAX ->
  write_audio_fragment dest sequence origin ps track w = (w', Ok tt) ->
  exists h, fragment_ok (h, map opus_bytes ps)
  /\ wrote w (file_of (fragment_boxes [(h, map opus_bytes ps)])) w'.
Proof.
  intros Hw. unfold write_audio_fragment. rewrite st_bind_Ok. intros (w1 & first & H1 & H).
  apply lift_Ok in H1 as [-> _]. apply st_bind_Ok in H as (w2 & base & H2 & H).
  apply lift_Ok in H2 as [-> _]. revert H. apply write_fragment_with_boxes; [|done].
  intros off v. apply audio_moof_is_box.
Qed.

(** The fragments written, with what their headers say. *)
Lemma write_fragment_described dest sequence origin ps next w w' :
  written w <= U64_MAX -> write_fragment dest sequence origin ps next w = (w', Ok tt) ->
  let ss := samples origin next ps in
  exists first h, head ps = Some first /\ Forall (fun d => 0 < d <= U32_MAX) (durations ss)
  /\ describes sequence 1 (clock (timestamp_ns first - origin)) 0x701 (trun_entries ss) (map packet_bytes ps) (h, map packet_bytes ps)
  /\ fragment_ok (h, map packet_bytes ps) /\ wrote w (file_of (fragment_boxes [(h, map packet_bytes ps)])) w'.
Proof.
  intros Hw H. apply write_fragment_with_Ok in H as (h0 & h & H0 & H1 & Hoff & Hfit & Hwrote); [|done].
  apply moof_Ok in H0 as (first & Hf & _ & _ & E0). apply moof_Ok in H1 as (first' & Hf' & Hd & Hc & E1). rewrite Hf in Hf'. injection Hf' as <-.
  assert (Hz : zlen ps = zlen (map packet_bytes ps)) by (unfold zlen; by rewrite length_map). rewrite Hz in *.
  eexists first, _. split; [done|]. split; [done|]. split; [eapply describes_intro; [reflexivity| |exact Hoff|reflexivity]; by rewrite E0|].
  split; [by split|]. cbn [fragment_boxes flat_map file_of app box_of fst snd]. rewrite app_nil_r. by rewrite E1 in Hwrote.
Qed.
Lemma audio_entries_Ok ps e : audio_entries ps = Ok e -> e = opus_entries ps.
Proof.
  revert e. induction ps as [|p ps IH]; intros e; cbn [audio_entries]; [by intros [= <-]|]. intros H.
  apply bind_Ok in H as (n & Hn & H). apply ok_or_Ok, try_from_Some in Hn as [_ ->]. apply bind_Ok in H as (r & Hr & H). injection H as <-.
  rewrite (IH _ Hr). unfold opus_entries. cbn [flat_map]. by rewrite <- app_assoc.
Qed.
Lemma write_audio_fragment_described dest sequence origin ps track w w' :
  written w <= U64_MAX -> write_audio_fragment dest sequence origin ps track w = (w', Ok tt) ->
  exists first h, head ps = Some first /\ origin <= opus_timestamp_ns first
  /\ describes sequence track ((opus_timestamp_ns first - origin) * 48000 / 1000000000) 0x301 (opus_entries ps) (map opus_bytes ps) (h, map opus_bytes ps)
  /\ fragment_ok (h, map opus_bytes ps) /\ wrote w (file_of (fragment_boxes [(h, map opus_bytes ps)])) w'.
Proof.
  intros Hw. unfold write_audio_fragment. rewrite st_bind_Ok. intros (w1 & first & H1 & H).
  apply lift_Ok in H1 as [-> H1]. apply st_bind_Ok in H as (w2 & base & H2 & H). apply lift_Ok in H2 as [-> H2].
  assert (Hb : origin <= opus_timestamp_ns first /\ base = (opus_timestamp_ns first - origin) * 48000 / 1000000000).
  { unfold audio_base_time in H2. apply ok_or_Ok in H2. destruct (checked_sub _ _) as [d|] eqn:Ed; [|done]. apply checked_sub_Some in Ed as [Hle ->].
    destruct (checked_mul _ _ _) as [m|] eqn:Em; [|done]. apply checked_mul_Some in Em as [_ ->]. by injection H2 as <-. }
  destruct Hb as [Hle ->].
  apply write_fragment_with_Ok in H as (h0 & h & H0 & H3 & Hoff & Hfit & Hwrote); [|done].
  assert (Hm : forall o v, audio_moof sequence ((opus_timestamp_ns first - origin) * 48000 / 1000000000) ps track o = Ok v ->
    let c := moof_contents sequence track ((opus_timestamp_ns first - origin) * 48000 / 1000000000) (trun_box 0x301 (zlen (map opus_bytes ps)) o (opus_entries ps)) in
    box_fits c /\ v = box (ascii_bytes "moof") c).
  { intros o v Hv. unfold audio_moof in Hv. apply bind_Ok in Hv as (n & Hn & Hv). apply ok_or_Ok, try_from_Some in Hn as [_ ->].
    apply bind_Ok in Hv as (e & He & Hv). apply audio_entries_Ok in He as ->. apply moof_box_Ok in Hv as (_ & Hc & ->).
    assert (Hz : zlen ps = zlen (map opus_bytes ps)) by (unfold zlen; by rewrite length_map). rewrite Hz in *. by split. }
  destruct (Hm _ _ H0) as [_ E0]. destruct (Hm _ _ H3) as [Hc E1].
  eexists first, _. split; [destruct (head ps); [by injection H1 as ->|done]|]. split; [done|].
  split; [eapply describes_intro; [reflexivity| |exact Hoff|reflexivity]; by rewrite E0|].
  split; [by split|]. cbn [fragment_boxes flat_map file_of app box_of fst snd]. rewrite app_nil_r. by rewrite E1 in Hwrote.
Qed.

(** ** How packets are cut into fragments *)
Definition continues (start p : EncodedReplayPacket) : bool :=
  negb (keyframe p || (MAX_FRAGMENT_DURATION_NS <=? sat_sub (timestamp_ns p) (timestamp_ns start))).

(** Every fragment starts with the packet that ended the one before it, and
    holds nothing but packets that continue it. *)
Fixpoint well_cut (chunks : list (list EncodedReplayPacket)) : Prop :=
  match chunks with
  | [] => True
  | chunk :: rest =>
      (exists p tl, chunk = p :: tl /\ Forall (fun q => continues p q = true) tl
        /\ match rest with
           | (q :: _) :: _ => continues p q = false
           | _ => True
           end)
      /\ well_cut rest
  end.

Lemma fragment_advance_spec start rest :
  let n := fragment_advance start rest in
  (n <= length rest)%nat /\ Forall (fun q => continues start q = true) (take n rest)
  /\ forall q, rest !! n = Some q -> continues start q = false.
Proof.
  induction rest as [|p rest IH]; cbn [fragment_advance].
  - splits; [done|constructor|done].
  - destruct (keyframe p || (MAX_FRAGMENT_DURATION_NS <=? sat_sub (timestamp_ns p) (timestamp_ns start))) eqn:E.
    + splits; [cbn; lia|constructor|]. intros q [= <-]. unfold continues. by rewrite E.
    + destruct IH as (H1 & H2 & H3). splits; [cbn [length]; lia| |exact H3].
      cbn [take]. constructor; [|done]. unfold continues. by rewrite E.
Qed.

Lemma video_fragments_boxes dest fuel origin fragments ps w w' n :
  written w <= U64_MAX -> 0 <= fragments <= U32_MAX ->
  video_fragments dest fuel origin fragments ps w = (w', Ok n) ->
  exists chunks frags, concat chunks = ps /\ well_cut chunks
  /\ map snd frags = map (map packet_bytes) chunks /\ Forall fragment_ok frags
  /\ n = Z.min U32_MAX (fragments + zlen chunks)
  /\ (forall q rest, ps = q :: rest -> exists c cs, chunks = (q :: c) :: cs)
  /\ wrote w (file_of (fragment_boxes frags)) w'.
Proof.
  revert fragments ps w. induction fuel as [|fuel IH]; intros fragments [|p rest] w Hw Hf.
  1, 3: cbn [video_fragments]; intros [= <- <-]; exists [], [];
    change (zlen (@nil (list EncodedReplayPacket))) with 0;
    splits; [done..|constructor|lia|done|by apply wrote_nil].
  - done.
  - cbn [video_fragments]. rewrite st_bind_Ok. intros (w1 & [] & H1 & H2).
    apply write_fragment_boxes in H1 as (h & Hok & H1); [|done].
    pose proof (fragment_advance_spec p rest) as (Hn & Hcont & Hstop).
    set (k := fragment_advance p rest) in *.
    apply IH in H2 as (chunks & frags & Hc & Hwell & Hmap & Hall & -> & Hhead & H2).
    2: { destruct H1 as [_ ->]. lia. }
    2: { unfold sat_add, U32_MAX in *. lia. }
    cbn [drop] in Hc, Hhead. cbn [take] in *.
    exists ((p :: take k rest) :: chunks), ((h, map packet_bytes (p :: take k rest)) :: frags). splits.
    + cbn [concat]. by rewrite Hc, <- app_comm_cons, take_drop.
    + cbn [well_cut]. split; [|exact Hwell]. exists p, (take k rest). splits; [done..|].
      destruct (drop k rest) as [|q tl] eqn:Ed.
      * by destruct chunks as [|[|q c] cs].
      * destruct (Hhead q tl eq_refl) as (c & cs & ->). apply Hstop.
        rewrite <- (Nat.add_0_r k), <- lookup_drop, Ed. done.
    + cbn [map]. by rewrite Hmap.
    + by constructor.
    + rewrite zlen_cons. pose proof (zlen_nonneg chunks). unfold sat_add, U32_MAX in *. lia.
    + intros q tl [= <- <-]. eauto.
    + change (fragment_boxes ((h, map packet_bytes (p :: take k rest)) :: frags))
        with (fragment_boxes [(h, map packet_bytes (p :: take k rest))] ++ fragment_boxes frags).
      rewrite file_of_app. by eapply wrote_trans.
Qed.

Lemma validate_packets_Ok s ps u : validate_packets s ps = Ok u -> Forall (packet_valid s) ps.
Proof.
  unfold validate_packets. induction ps as [|p ps IH]; [constructor|]. cbn [for_each].
  intros H. apply bind_Ok in H as ([] & Hp & H). apply map_err_Ok in Hp. constructor; [done|by apply IH].
Qed.

Lemma ring_prologue_Ok s ring first :
  ring_prologue s ring = Ok first ->
  codec s = H264 /\ keyframe first = true
  /\ (exists rest, packets ring = first :: rest) /\ Forall (packet_valid s) (packets ring).
Proof.
  unfold ring_prologue. case_bool_decide as Hc; cbn [negb]; [|done]. intros H.
  apply bind_Ok in H as (f & Hf & H). apply ok_or_Ok in Hf.
  destruct (keyframe f) eqn:Ek; cbn [negb] in H; [|done].
  apply bind_Ok in H as ([] & Hv & [= ->]). apply validate_packets_Ok in Hv. splits; [done..| |done].
  destruct (packets ring) as [|p ps]; [done|]. injection Hf as ->. by exists ps.
Qed.

Lemma ftyp_Ok v : ftyp = Ok v -> exists c, box_fits c /\ v = box (ascii_bytes "ftyp") c.
Proof. intros H. apply make_box_Ok in H. eauto. Qed.
Lemma moov_Ok s v : moov s = Ok v -> exists c, box_fits c /\ v = box (ascii_bytes "moov") c.
Proof.
  unfold moov. intros H. apply bind_Ok in H as (? & _ & H). apply bind_Ok in H as (? & _ & H).
  apply bind_Ok in H as (? & _ & H). apply bind_Ok in H as (? & _ & H). apply bind_Ok in H as (? & _ & H).
  apply make_box_Ok in H. eauto.
Qed.
Lemma moov_with_audio_Ok s a v :
  moov_with_audio_tracks s a = Ok v -> exists c, box_fits c /\ v = box (ascii_bytes "moov") c.
Proof.
  unfold moov_with_audio_tracks. intros H.
  do 10 (apply bind_Ok in H as (? & _ & H)). apply make_box_Ok in H. eauto.
Qed.

(** ** The tracks that a file declares *)
Definition within (x y : bytes) : Prop := exists pre post, y = pre ++ x ++ post.
Lemma within_refl x : within x x.
Proof. exists [], []. by rewrite app_nil_r. Qed.
Lemma within_app_r x a b : within x b -> within x (a ++ b).
Proof. intros (pre & post & ->). exists (a ++ pre), post. by rewrite <- app_assoc. Qed.
Lemma within_app_l x a b : within x a -> within x (a ++ b).
Proof. intros (pre & post & ->). exists pre, (post ++ b). by rewrite <- !app_assoc. Qed.
Lemma within_box x kind c : within x c -> within x (box kind c).
Proof. intros H. unfold box. by do 2 apply within_app_r. Qed.

(** A track box: the identifier in its header, and the kind of its media and the
    ticks of its clock per second. *)
Record declared := { declared_id : Z; declared_handler : bytes; declared_clock : Z }.
Definition declares_track (d : declared) (t : bytes) : Prop :=
  exists k m md hd mi,
  parse_boxes 2 t = Some [(ascii_bytes "tkhd", k); (ascii_bytes "mdia", m)]
  /\ parse_boxes 3 m = Some [(ascii_bytes "mdhd", md); (ascii_bytes "hdlr", hd); (ascii_bytes "minf", mi)]
  /\ slice 12 4 k = u32 (declared_id d) /\ slice 8 4 hd = declared_handler d /\ slice 12 4 md = u32 (declared_clock d).
(** The movie box: exactly these tracks, in order, each extended by fragments, with
    the next free identifier; the first one carries the stream's configuration. *)
Definition declares (s : ReplayVideoStream) (tracks : list declared) (mv : bytes) : Prop :=
  exists h ts x es,
  parse_boxes (2 + length tracks) mv = Some ((ascii_bytes "mvhd", h) :: map (pair (ascii_bytes "trak")) ts ++ [(ascii_bytes "mvex", x)])
  /\ Forall2 declares_track tracks ts
  /\ parse_boxes (length tracks) x = Some (map (pair (ascii_bytes "trex")) es)
  /\ Forall2 (fun d e => slice 4 4 e = u32 (declared_id d)) tracks es
  /\ drop 96 h = u32 (zlen tracks + 1)
  /\ (exists t, head ts = Some t /\ within (box (ascii_bytes "avcC") (codec_private s)) t).
Definition video_declared : declared := {| declared_id := 1; declared_handler := ascii_bytes "vide"; declared_clock := 1000000 |}.
Definition audio_declared (id : Z) (a : ReplayAudioSnapshot) : declared :=
  {| declared_id := id; declared_handler := ascii_bytes "soun"; declared_clock := sample_rate (snapshot_stream a) |}.
(** With audio in the clip, the system's track is declared and the microphone's when
    there is one. *)
Definition tracks_of (a : ReplayAudioTracks) : list declared :=
  [video_declared; audio_declared 2 (system a)] ++ match microphone a with Some m => [audio_declared 3 m] | None => [] end.

Lemma track_intro d k md hd mi m t :
  box_fits k -> box_fits m -> box_fits md -> box_fits hd -> box_fits mi ->
  slice 12 4 k = u32 (declared_id d) -> slice 8 4 hd = declared_handler d -> slice 12 4 md = u32 (declared_clock d) ->
  m = box (ascii_bytes "mdhd") md ++ box (ascii_bytes "hdlr") hd ++ box (ascii_bytes "minf") mi ->
  t = box (ascii_bytes "tkhd") k ++ box (ascii_bytes "mdia") m -> declares_track d t.
Proof.
  intros Hk Hm Hmd Hhd Hmi E1 E2 E3 Em ->. exists k, m, md, hd, mi. splits; [| |done..].
  - rewrite <- (app_nil_r (_ ++ box _ m)), <- app_assoc. by rewrite !parse_box.
  - rewrite Em, <- (app_nil_r (_ ++ _)), <- !app_assoc. by rewrite !parse_box.
Qed.
Lemma empty_tables_Ok value v : empty_tables value = Ok v -> exists rest, v = value ++ rest.
Proof.
  unfold empty_tables. intros H. do 3 (apply bind_Ok in H as (? & Hb & H); apply push_box_Ok in Hb as [_ ->]).
  apply push_box_Ok in H as [_ ->]. rewrite <- !app_assoc. eauto.
Qed.
Lemma trak_Ok s v : trak s = Ok v -> declares_track video_declared v /\ within (box (ascii_bytes "avcC") (codec_private s)) v.
Proof.
  unfold trak, mdia, minf, stbl, avc1. intros H. apply bind_Ok in H as (c & Hc & H). apply push_box_Ok in Hc as [Hk ->].
  apply bind_Ok in H as (m & Hm & H). apply push_box_Ok in H as [Hmf ->].
  apply bind_Ok in Hm as (m1 & H1 & Hm). apply push_box_Ok in H1 as [H1 ->]. apply bind_Ok in Hm as (m2 & H2 & Hm). apply push_box_Ok in H2 as [H2 ->].
  apply bind_Ok in Hm as (mi & Hmi & Hm). apply push_box_Ok in Hm as [H3 ->].
  apply bind_Ok in Hmi as (i1 & Hi1 & Hmi). apply bind_Ok in Hmi as (i2 & Hi2 & Hmi). apply bind_Ok in Hmi as (tables & Htab & Hmi). apply push_box_Ok in Hmi as [_ ->].
  apply bind_Ok in Htab as (entry & He & Htab). apply bind_Ok in Htab as (sd & Hsd & Htab). apply bind_Ok in Htab as (st & Hst & Htab).
  apply bind_Ok in He as (w & _ & He). apply bind_Ok in He as (h & _ & He). apply push_box_Ok in He as [_ ->].
  apply push_box_Ok in Hsd as [_ ->]. apply push_box_Ok in Hst as [_ ->]. apply empty_tables_Ok in Htab as [rest ->]. split.
  - eapply track_intro; [exact Hk|exact Hmf|exact H1|exact H2|exact H3|reflexivity|reflexivity|reflexivity|cbn [app]; by rewrite <- app_assoc|done].
  - apply within_app_r, within_box, within_app_r, within_box, within_app_r, within_box, within_app_l, within_app_r, within_box, within_app_r, within_box.
    apply within_app_r, within_refl.
Qed.
Lemma audio_trak_Ok a id v : audio_trak a id = Ok v -> declares_track (audio_declared id a) v.
Proof.
  unfold audio_trak. intros H. apply bind_Ok in H as (c & Hc & H). apply push_box_Ok in Hc as [Hk ->].
  apply bind_Ok in H as (m1 & H1 & H). apply push_box_Ok in H1 as [H1 ->]. apply bind_Ok in H as (m2 & H2 & H). apply push_box_Ok in H2 as [H2 ->].
  apply bind_Ok in H as (mi & _ & H). apply bind_Ok in H as (m & Hm & H). apply push_box_Ok in Hm as [H3 ->]. apply push_box_Ok in H as [Hmf ->].
  eapply track_intro; [exact Hk|exact Hmf|exact H1|exact H2|exact H3|reflexivity|reflexivity|reflexivity|cbn [app]; by rewrite <- app_assoc|done].
Qed.
(** Boxes of one kind, one after another. *)
Definition boxes_of (kind : bytes) (cs : list bytes) : bytes := file_of (map (pair kind) cs).
Lemma declares_intro s h ts x es tracks :
  box_fits h -> Forall box_fits ts -> box_fits x -> Forall box_fits es -> Forall2 declares_track tracks ts ->
  x = boxes_of (ascii_bytes "trex") es -> Forall2 (fun d e => slice 4 4 e = u32 (declared_id d)) tracks es -> drop 96 h = u32 (zlen tracks + 1) ->
  (exists t, head ts = Some t /\ within (box (ascii_bytes "avcC") (codec_private s)) t) ->
  declares s tracks (box (ascii_bytes "mvhd") h ++ boxes_of (ascii_bytes "trak") ts ++ box (ascii_bytes "mvex") x).
Proof.
  intros Hh Hts Hx Hes Ht Ex He Hn Hc. exists h, ts, x, es. splits; [|done| |done..].
  - assert (E : box (ascii_bytes "mvhd") h ++ boxes_of (ascii_bytes "trak") ts ++ box (ascii_bytes "mvex") x
      = file_of ((ascii_bytes "mvhd", h) :: map (pair (ascii_bytes "trak")) ts ++ [(ascii_bytes "mvex", x)])).
    { change ((ascii_bytes "mvhd", h) :: ?l) with ([(ascii_bytes "mvhd", h)] ++ l). rewrite !file_of_app. unfold file_of at 1 3. cbn [flat_map]. by rewrite !app_nil_r. }
    assert (El : (2 + length tracks)%nat = length ((ascii_bytes "mvhd", h) :: map (pair (ascii_bytes "trak")) ts ++ [(ascii_bytes "mvex", x)])).
    { cbn [length]. rewrite length_app, length_map, (Forall2_length _ _ _ Ht). cbn. lia. }
    rewrite E, El. apply parse_file. constructor; [by split|]. apply Forall_app. split; [|by repeat constructor].
    apply Forall_map. eapply Forall_impl; [exact Hts|]. by split.
  - rewrite Ex, (Forall2_length _ _ _ He), <- (length_map (pair (ascii_bytes "trex"))). apply parse_file. apply Forall_map.
    eapply Forall_impl; [exact Hes|]. by split.
Qed.
Lemma trex_id id : slice 4 4 (trex_for id) = u32 id.
Proof. reflexivity. Qed.
Lemma moov_declares s v : moov s = Ok v -> exists c, box_fits c /\ v = box (ascii_bytes "moov") c /\ declares s [video_declared] c.
Proof.
  unfold moov. intros H. apply bind_Ok in H as (c1 & H1 & H). apply push_box_Ok in H1 as [H1 ->]. apply bind_Ok in H as (t & Ht & H).
  apply bind_Ok in H as (c2 & H2 & H). apply push_box_Ok in H2 as [H2 ->]. apply bind_Ok in H as (x & Hx & H). apply push_box_Ok in Hx as [Hx ->].
  apply bind_Ok in H as (c3 & H3 & H). apply push_box_Ok in H3 as [H3 ->]. apply make_box_Ok in H as [Hfit ->].
  eexists. split; [exact Hfit|]. split; [done|]. apply trak_Ok in Ht as [Ht Hc].
  pose proof (declares_intro s mvhd [t] ([] ++ box (ascii_bytes "trex") trex) [trex] [video_declared]) as Hd. unfold boxes_of, file_of in Hd. cbn [map flat_map box_of fst snd] in Hd.
  rewrite !app_nil_r in Hd. cbn [app] in *. rewrite <- app_assoc. apply Hd; [done|by constructor|done|by constructor|by constructor|done|by repeat constructor|reflexivity|by exists t].
Qed.
Lemma moov_with_audio_declares s a v : moov_with_audio_tracks s a = Ok v ->
  exists c, box_fits c /\ v = box (ascii_bytes "moov") c /\ declares s (tracks_of a) c.
Proof.
  unfold moov_with_audio_tracks. cbn zeta. intros H. apply bind_Ok in H as (c1 & H1 & H). apply push_box_Ok in H1 as [H1 ->]. apply bind_Ok in H as (t & Ht & H).
  apply bind_Ok in H as (c2 & H2 & H). apply push_box_Ok in H2 as [H2 ->]. apply bind_Ok in H as (t2 & Ht2 & H).
  apply bind_Ok in H as (c3 & H3 & H). apply push_box_Ok in H3 as [H3 ->]. apply bind_Ok in H as (c4 & H4 & H).
  apply bind_Ok in H as (x1 & Hx1 & H). apply push_box_Ok in Hx1 as [Hx1 ->]. apply bind_Ok in H as (x2 & Hx2 & H). apply push_box_Ok in Hx2 as [Hx2 ->].
  apply bind_Ok in H as (x3 & Hx3 & H). apply bind_Ok in H as (c5 & H5 & H). apply push_box_Ok in H5 as [H5 ->]. apply make_box_Ok in H as [Hfit ->].
  eexists. split; [exact Hfit|]. split; [done|]. apply trak_Ok in Ht as [Ht Hc]. apply audio_trak_Ok in Ht2. unfold tracks_of.
  destruct (microphone a) as [m|].
  - apply bind_Ok in H4 as (t3 & Ht3 & H4). apply push_box_Ok in H4 as [H4 ->]. apply push_box_Ok in Hx3 as [Hx3 ->]. apply audio_trak_Ok in Ht3.
    pose proof (declares_intro s (mvhd_for_next_track 4) [t; t2; t3]
      ((([] ++ box (ascii_bytes "trex") trex) ++ box (ascii_bytes "trex") (trex_for AUDIO_TRACK_ID)) ++ box (ascii_bytes "trex") (trex_for MICROPHONE_TRACK_ID))
      [trex; trex_for AUDIO_TRACK_ID; trex_for MICROPHONE_TRACK_ID] [video_declared; audio_declared 2 (system a); audio_declared 3 m]) as Hd.
    unfold boxes_of, file_of in Hd. cbn [map flat_map box_of fst snd] in Hd. rewrite !app_nil_r in Hd. cbn [app] in *. rewrite <- !app_assoc in *.
    apply Hd; try done; [by repeat constructor|by repeat constructor|by repeat constructor|by repeat constructor|by exists t].
  - injection H4 as <-. injection Hx3 as <-.
    pose proof (declares_intro s (mvhd_for_next_track 3) [t; t2]
      (([] ++ box (ascii_bytes "trex") trex) ++ box (ascii_bytes "trex") (trex_for AUDIO_TRACK_ID))
      [trex; trex_for AUDIO_TRACK_ID] [video_declared; audio_declared 2 (system a)]) as Hd.
    unfold boxes_of, file_of in Hd. cbn [map flat_map box_of fst snd] in Hd. rewrite !app_nil_r in Hd. cbn [app] in *. rewrite <- !app_assoc in *.
    apply Hd; try done; [by repeat constructor|by repeat constructor|by repeat constructor|by repeat constructor|by exists t].
Qed.

(** The container a writer leaves behind: a file type, the tracks, and
    fragments, readable box by box. *)
Definition mp4_file_with (old out mv : bytes) (frags : list fragment) : Prop :=
  exists ft,
    let boxes := [(ascii_bytes "ftyp", ft); (ascii_bytes "moov", mv)] ++ fragment_boxes frags in
    out = old ++ file_of boxes /\ parse_boxes (length boxes) (file_of boxes) = Some boxes.
Definition mp4_file (old out : bytes) (frags : list fragment) : Prop := exists mv, mp4_file_with old out mv frags.

Lemma mp4_file_intro old out w0 w1 w2 w3 ft mv frags :
  inner w0 = old -> inner w3 = out ->
  box_fits ft -> box_fits mv -> Forall fragment_ok frags ->
  wrote w0 (box (ascii_bytes "ftyp") ft) w1 -> wrote w1 (box (ascii_bytes "moov") mv) w2 ->
  wrote w2 (file_of (fragment_boxes frags)) w3 ->
  mp4_file_with old out mv frags
  /\ wrote w0 (drop (length old) out) w3.
Proof.
  intros <- <- Hf Hm Hall H1 H2 H3. pose proof (wrote_trans _ _ _ _ _ H1 (wrote_trans _ _ _ _ _ H2 H3)) as H.
  assert (Hfile : box (ascii_bytes "ftyp") ft ++ box (ascii_bytes "moov") mv ++ file_of (fragment_boxes frags)
    = file_of ([(ascii_bytes "ftyp", ft); (ascii_bytes "moov", mv)] ++ fragment_boxes frags)) by done.
  split.
  - exists ft. cbv zeta. rewrite <- Hfile. split; [by destruct H|].
    rewrite Hfile. apply parse_file. apply Forall_app. split; [by repeat constructor|by apply fragment_boxes_ok].
  - destruct H as [Hin Hw]. rewrite Hin, drop_app_length. by split.
Qed.

(** A video clip that is written is a readable file: a file type box, a
    track box and one moof/mdat pair per fragment; the fragments hold exactly
    the packets of the ring, in order, and are cut at keyframes or after 30
    seconds; and the summary reports the file truthfully. *)
Theorem video_file_correct dest s ring old w' summary
    (Hok : write_video_only_mp4 dest s ring (counting_writer old) = (w', Ok summary)) :
  exists frags chunks, mp4_file old (inner w') frags
  /\ map snd frags = map (map packet_bytes) chunks
  /\ concat chunks = packets ring /\ well_cut chunks
  /\ (exists first rest, packets ring = first :: rest /\ keyframe first = true)
  /\ bytes_written summary = Z.min U64_MAX (zlen (inner w') - zlen old)
  /\ summary_fragments summary = Z.min U32_MAX (zlen chunks)
  /\ summary_packets summary = Z.min U32_MAX (zlen (packets ring))
  /\ (forall first last_, head (packets ring) = Some first -> last (packets ring) = Some last_ ->
       summary_duration_ns summary = timestamp_ns last_ + duration_ns last_ - timestamp_ns first).
Proof.
  unfold write_video_only_mp4 in Hok. apply st_bind_Ok in Hok as (w0 & first & H0 & H).
  apply lift_Ok in H0 as [-> H0]. apply ring_prologue_Ok in H0 as (_ & Hkey & (rest & Hps) & _).
  apply st_bind_Ok in H as (wa & ft & H1 & H). apply lift_Ok in H1 as [-> H1]. apply ftyp_Ok in H1 as (ftc & Hft & ->).
  apply st_bind_Ok in H as (w1 & [] & H1 & H). apply emit_Ok in H1.
  apply st_bind_Ok in H as (wb & mv & H2 & H). apply lift_Ok in H2 as [-> H2]. apply moov_Ok in H2 as (mvc & Hmv & ->).
  apply st_bind_Ok in H as (w2 & [] & H2 & H). apply emit_Ok in H2.
  apply st_bind_Ok in H as (w3 & n & H3 & H).
  apply video_fragments_boxes in H3 as (chunks & frags & Hc & Hwell & Hmap & Hall & -> & _ & H3);
    [|destruct H2 as [_ ->]; lia|unfold U32_MAX; lia].
  apply st_bind_Ok in H as (w4 & lp & H4 & H). apply lift_Ok in H4 as [-> H4]. apply ok_or_Ok in H4.
  apply st_bind_Ok in H as (w5 & d & H5 & H). apply lift_Ok in H5 as [-> H5]. apply ok_or_Ok in H5.
  apply st_bind_Ok in H as (w6 & k & H6 & H). unfold get_written in H6. injection H6 as <- <-.
  unfold mret, st_ret in H. injection H as <- <-.
  destruct (mp4_file_intro old (inner w3) (counting_writer old) w1 w2 w3 ftc mvc frags eq_refl eq_refl Hft Hmv Hall H1 H2 H3)
    as [Hfile [Hin Hwr]].
  exists frags, chunks. cbn [bytes_written summary_fragments summary_packets summary_duration_ns].
  splits; [by exists mvc|done..| | | | |].
  - by exists first, rest.
  - rewrite Hwr. cbn [counting_writer written inner]. f_equal.
    cbn [counting_writer inner] in Hin. rewrite Hin at 2. rewrite zlen_app. lia.
  - f_equal; lia.
  - unfold unwrap_or, try_from. destruct (Z.leb_spec (zlen (packets ring)) U32_MAX); cbn; lia.
  - intros f l Hf Hl. rewrite Hps in Hf. injection Hf as <-. rewrite Hl in H4. injection H4 as ->.
    destruct (checked_add _ _ _) as [e|] eqn:Ee; [|done]. apply checked_add_Some in Ee as [_ ->].
    by apply checked_sub_Some in H5 as [_ ->].
Qed.

(** ** Audio tracks *)
Fixpoint gapless (ps : list EncodedOpusPacket) : Prop :=
  match ps with
  | p :: (q :: _) as rest =>
      sat_sub (opus_timestamp_ns q) (sat_add U64_MAX (opus_timestamp_ns p) (opus_duration_ns p)) <= 5000000
      /\ gapless rest
  | _ => True
  end.
Definition audio_chunk_ok (c : list EncodedOpusPacket) : Prop :=
  c <> [] /\ (length c <= 1500)%nat /\ gapless c.

Lemma audio_advance_spec count p rest :
  (1 <= count <= 1500)%nat ->
  let n := audio_advance count p rest in
  (n <= length rest)%nat /\ (count + n <= 1500)%nat /\ gapless (p :: take n rest).
Proof.
  revert count p. induction rest as [|q rest IH]; intros count p Hc; cbn [audio_advance].
  { splits; [done|lia|done]. }
  destruct (Nat.leb_spec 1500 count); [splits; [cbn; lia|lia|done]|].
  match goal with |- context [if ?b then _ else _] => destruct b eqn:E end; [splits; [cbn; lia|lia|done]|].
  destruct (IH (S count) q ltac:(lia)) as (H1 & H2 & H3). splits; [cbn [length]; lia|lia|].
  cbn [take gapless]. apply Z.ltb_ge in E. split; [lia|exact H3].
Qed.

Lemma audio_chunk_take p rest : audio_chunk_ok (take (S (audio_advance 1 p rest)) (p :: rest)).
Proof.
  destruct (audio_advance_spec 1 p rest ltac:(lia)) as (H1 & H2 & H3).
  unfold audio_chunk_ok. splits; [done| |exact H3]. rewrite length_take. cbn [length]. lia.
Qed.

Lemma audio_fragments_boxes dest fuel origin track fragments ps w w' n :
  written w <= U64_MAX -> audio_fragments dest fuel origin track fragments ps w = (w', Ok n) ->
  exists chunks frags, concat chunks = ps /\ Forall audio_chunk_ok chunks
  /\ map snd frags = map (map opus_bytes) chunks /\ Forall fragment_ok frags
  /\ wrote w (file_of (fragment_boxes frags)) w'.
Proof.
  revert fragments ps w. induction fuel as [|fuel IH]; intros fragments [|p rest] w Hw.
  1, 3: cbn [audio_fragments]; intros [= <- <-]; exists [], [];
    splits; [done|constructor|done|constructor|by apply wrote_nil].
  - done.
  - cbn [audio_fragments]. rewrite st_bind_Ok. intros (w1 & [] & H1 & H2).
    apply write_audio_fragment_boxes in H1 as (h & Hok & H1); [|done].
    pose proof (audio_chunk_take p rest) as Hchunk.
    set (k := S (audio_advance 1 p rest)) in *.
    apply IH in H2 as (chunks & frags & Hc & Hwell & Hmap & Hall & H2).
    2: { destruct H1 as [_ ->]. lia. }
    exists (take k (p :: rest) :: chunks), ((h, map opus_bytes (take k (p :: rest))) :: frags). splits.
    + cbn [concat]. by rewrite Hc, take_drop.
    + by constructor.
    + cbn [map]. by rewrite Hmap.
    + by constructor.
    + change (fragment_boxes ((h, map opus_bytes (take k (p :: rest))) :: frags))
        with (fragment_boxes [(h, map opus_bytes (take k (p :: rest)))] ++ fragment_boxes frags).
      rewrite file_of_app. by eapply wrote_trans.
Qed.

(** ** Streaming *)
Section StreamingFacts.
Context (dest : destination) {Src : Type} `{ReplayPacketSourceSpec Src}.

Lemma next_fragment_Ok fragments (st0 st' : CountingWriter * Src) n :
  next_fragment fragments st0 = (st', Ok n) -> st' = st0 /\ n = fragments + 1 /\ n <= U32_MAX.
Proof.
  unfold next_fragment. intros [-> Hn]%lift_Ok. split; [done|].
  destruct (checked_add U32_MAX fragments 1) as [k|] eqn:E; [|done]. injection Hn as <-.
  apply checked_add_Some in E as [? ->]. lia.
Qed.

(** A fragment in flight holds at most 8 MiB, unless one packet alone does. *)
Definition stream_chunk_ok (c : list EncodedReplayPacket) : Prop :=
  c <> [] /\ (total_bytes c <= MAX_STREAM_FRAGMENT_BYTES \/ exists p, c = [p]).

Lemma stream_loop_boxes fuel s origin chunk size fragments w (src : Src) st' chunk' n :
  written w <= U64_MAX -> 0 <= fragments ->
  size = total_bytes chunk -> (chunk = [] \/ stream_chunk_ok chunk) ->
  stream_loop dest fuel s origin chunk size fragments (w, src) = (st', Ok (chunk', n)) ->
  exists w' src' chunks frags, st' = (w', src') /\ remaining src' = [] /\ window src' = window src
  /\ concat chunks ++ chunk' = chunk ++ remaining src
  /\ Forall stream_chunk_ok chunks /\ (chunk' = [] \/ stream_chunk_ok chunk')
  /\ video_fragments_of (fragments + 1) origin chunk' chunks frags /\ Forall fragment_ok frags
  /\ n = fragments + zlen chunks /\ (chunk' = [] -> chunks = [])
  /\ Forall (packet_valid s) (remaining src)
  /\ (fragments = 0 -> chunk = [] -> forall p rest, remaining src = p :: rest -> keyframe p = true)
  /\ wrote w (file_of (fragment_boxes frags)) w'.
Proof.
  revert chunk size fragments w src. induction fuel as [|fuel IH];
    intros chunk size fragments w src Hw Hf -> Hchunk Hloop; cbn [stream_loop] in Hloop; [done|].
  apply st_bind_Ok in Hloop as (st1 & [p|] & H1 & Hloop);
    apply on_source_Ok in H1 as (src1 & -> & H1); apply next_packet_spec in H1 as [Hwin H1]; cycle 1.
  { injection Hloop as <- <- <-. destruct H1 as [H1 H2]. exists w, src1, [], [].
    change (zlen (@nil (list EncodedReplayPacket))) with 0.
    rewrite H1, app_nil_r. splits; try done; try constructor; [lia|by rewrite app_nil_r|].
    change (zlen (file_of (fragment_boxes []))) with 0; lia. }
  apply st_bind_Ok in Hloop as (st2 & [[chunk2 size2] fragments2] & H2 & Hloop).
  unfold stream_packet in H2. case_if_in H2 Ekey; [done|].
  assert (Hkey : fragments = 0 -> chunk = [] -> keyframe p = true).
  { intros -> ->. rewrite Z.eqb_refl, bool_decide_eq_true_2 in Ekey by done. by destruct (keyframe p). }
  apply st_bind_Ok in H2 as (st3 & [] & H3 & H2). apply lift_Ok in H3 as [-> H3]. apply map_err_Ok in H3.
  destruct (chunk_full chunk (total_bytes chunk) p) eqn:Efull.
  - apply st_bind_Ok in H2 as (st4 & k & H4 & H2). apply next_fragment_Ok in H4 as (-> & -> & _).
    apply st_bind_Ok in H2 as (st5 & [] & H5 & H2). apply on_writer_Ok in H5 as (w1 & -> & H5).
    injection H2 as <- <- <- <-. apply write_fragment_described in H5 as (first & h & Hfirst & Hdur & Hdesc & Hok & H5); [|done].
    destruct chunk as [|c0 chunk0] eqn:Ec; [done|]. rewrite <- Ec in *. destruct Hchunk as [->|Hchunk]; [done|].
    apply IH in Hloop as (w' & src' & chunks & frags & -> & Hr & Hwin' & Hcat & Hall & Hlast & Hmap & Hok' & -> & Hne & Hv & _ & Hwr).
    2: { destruct H5 as [_ ->]. lia. } 2: { lia. }
    2: { unfold total_bytes. cbn. lia. } 2: { right. split; [done|right; by eexists]. }
    exists w', src', (chunk :: chunks), ((h, map packet_bytes chunk) :: frags). splits.
    + done. + done. + by rewrite Hwin'.
    + cbn [concat]. rewrite <- app_assoc, Hcat, H1. done.
    + by constructor. + done.
    + cbn [video_fragments_of]. rewrite Hcat. split; [by exists first|exact Hmap].
    + by constructor.
    + rewrite zlen_cons. lia.
    + intros E. apply Hne in E as E2. rewrite E, E2 in Hcat. by destruct (remaining src1).
    + rewrite H1. by constructor.
    + intros _ E. by rewrite E in Ec.
    + change (fragment_boxes ((h, map packet_bytes chunk) :: frags))
        with (fragment_boxes [(h, map packet_bytes chunk)] ++ fragment_boxes frags).
      rewrite file_of_app. by eapply wrote_trans.
  - injection H2 as <- <- <- <-.
    assert (Hsize : total_bytes (chunk ++ [p]) = total_bytes chunk + zlen (packet_bytes p)).
    { rewrite total_bytes_app. unfold total_bytes at 2. cbn. lia. }
    apply IH in Hloop as (w' & src' & chunks & frags & -> & Hr & Hwin' & Hcat & Hall & Hlast & Hmap & Hok' & -> & Hne & Hv & _ & Hwr);
      [|done|done|lia|].
    2: { right. split; [by destruct chunk|]. unfold chunk_full in Efull. destruct chunk as [|c0 chunk0].
         - right. by exists p.
         - left. rewrite Hsize. apply orb_false_iff in Efull as [_ Efull]. by apply Z.ltb_ge in Efull. }
    exists w', src', chunks, frags. splits; try done.
    + by rewrite Hwin'.
    + rewrite Hcat, H1, <- app_assoc. done.
    + rewrite H1. by constructor.
    + intros E1 E2 q rest E. rewrite H1 in E. injection E as <- <-. by apply Hkey.
Qed.

Lemma streaming_audio_boxes fuel origin track fragments ps w (src : Src) st' n :
  written w <= U64_MAX ->
  streaming_audio_fragments dest fuel origin track fragments ps (w, src) = (st', Ok n) ->
  exists w' src' chunks frags, st' = (w', src') /\ remaining src' = remaining src
  /\ concat chunks = ps /\ Forall audio_chunk_ok chunks
  /\ audio_fragments_of (fragments + 1) origin track chunks frags /\ n = fragments + zlen chunks /\ Forall fragment_ok frags
  /\ wrote w (file_of (fragment_boxes frags)) w'.
Proof.
  revert fragments ps w src. induction fuel as [|fuel IH]; intros fragments [|p rest] w src Hw.
  1, 3: cbn [streaming_audio_fragments]; intros [= <- <-]; exists w, src, [], [];
    change (zlen (@nil (list EncodedOpusPacket))) with 0; splits; [done|done|done|constructor|done|lia|constructor|by apply wrote_nil].
  - done.
  - cbn [streaming_audio_fragments]. rewrite st_bind_Ok. intros (st1 & [] & H1 & H2).
    apply on_source_Ok in H1 as (src1 & -> & H1). apply check_cancel_spec in H1 as (Hr1 & _ & _).
    apply st_bind_Ok in H2 as (st2 & k & H3 & H2). apply next_fragment_Ok in H3 as (-> & -> & _).
    apply st_bind_Ok in H2 as (st3 & [] & H4 & H2). apply on_writer_Ok in H4 as (w1 & -> & H4).
    apply write_audio_fragment_described in H4 as (first & h & Hfirst & Hle & Hdesc & Hok & H4); [|done].
    pose proof (audio_chunk_take p rest) as Hchunk.
    set (m := S (audio_advance 1 p rest)) in *.
    apply IH in H2 as (w' & src' & chunks & frags & -> & Hr & Hc & Hwell & Hmap & -> & Hall & H2).
    2: { destruct H4 as [_ ->]. lia. }
    exists w', src', (take m (p :: rest) :: chunks), ((h, map opus_bytes (take m (p :: rest))) :: frags).
    splits; [done|congruence| | | | | |].
    + cbn [concat]. by rewrite Hc, take_drop.
    + by constructor.
    + cbn [audio_fragments_of]. split; [by exists first|exact Hmap].
    + rewrite zlen_cons. lia.
    + by constructor.
    + change (fragment_boxes ((h, map opus_bytes (take m (p :: rest))) :: frags))
        with (fragment_boxes [(h, map opus_bytes (take m (p :: rest)))] ++ fragment_boxes frags).
      rewrite file_of_app. by eapply wrote_trans.
Qed.
Lemma stream_flush_boxes chunks frags origin chunk fragments w (src : Src) st' n :
  (match chunk with
   | [] => mret fragments
   | _ => fragments ← next_fragment fragments; _ ← on_writer (write_fragment dest fragments origin chunk None); mret fragments
   end) (w, src) = (st', Ok n) ->
  written w <= U64_MAX -> video_fragments_of 1 origin chunk chunks frags -> Forall stream_chunk_ok chunks -> Forall fragment_ok frags ->
  (chunk = [] \/ stream_chunk_ok chunk) -> fragments = zlen chunks ->
  exists w' chunks' frags', st' = (w', src) /\ concat chunks' = concat chunks ++ chunk /\ Forall stream_chunk_ok chunks'
  /\ video_fragments_of 1 origin [] chunks' (frags ++ frags') /\ Forall fragment_ok (frags ++ frags') /\ n = zlen chunks'
  /\ wrote w (file_of (fragment_boxes frags')) w'.
Proof.
  intros Hx Hw Hmap Hall Hok Hlast ->. destruct chunk as [|c chunk0] eqn:Ec.
  - injection Hx as <- <-. exists w, chunks, []. rewrite !app_nil_r. splits; try done. by apply wrote_nil.
  - rewrite <- Ec in *. apply st_bind_Ok in Hx as (st5 & k & H5 & Hx). apply next_fragment_Ok in H5 as (-> & -> & _).
    apply st_bind_Ok in Hx as (st6 & [] & H6 & Hx). apply on_writer_Ok in H6 as (w4 & -> & H6). injection Hx as <- <-.
    apply write_fragment_described in H6 as (first & h & Hfirst & Hdur & Hdesc & Hfok & H6); [|done].
    exists w4, (chunks ++ [chunk]), [(h, map packet_bytes chunk)]. splits; [done| | | | | |exact H6].
    + rewrite concat_app. cbn [concat]. by rewrite app_nil_r.
    + apply Forall_app. split; [done|]. constructor; [|constructor]. destruct Hlast as [E|]; [by rewrite E in Ec|done].
    + apply video_fragments_snoc; [exact Hmap|]. rewrite Z.add_comm. by exists first.
    + apply Forall_app. split; [done|]. by constructor.
    + rewrite zlen_app. change (zlen [chunk]) with 1. lia.
Qed.
Lemma stream_moov s a origin video_end v :
  (if bool_decide (in_window origin video_end (snapshot_packets (system a)) = []) && bool_decide (microphone_in_window origin video_end a = [])
   then moov s else moov_with_audio_tracks s a) = Ok v ->
  exists c, box_fits c /\ v = box (ascii_bytes "moov") c
  /\ declares s (if bool_decide (in_window origin video_end (snapshot_packets (system a)) = [] /\ microphone_in_window origin video_end a = [])
                 then [video_declared] else tracks_of a) c.
Proof.
  intros Hx. case_if_in Hx Em.
  - rewrite bool_decide_true by (apply andb_true_iff in Em as [E1 E2]; apply bool_decide_eq_true in E1, E2; by split). by apply moov_declares.
  - rewrite bool_decide_false by (intros [E1 E2]; by rewrite !bool_decide_true in Em). by apply moov_with_audio_declares.
Qed.
End StreamingFacts.

(** The fragments of an audio track hold its packets in order, none of them
    longer than 1500 packets or with a gap of more than 5 ms inside. *)
Definition audio_track (frags : list fragment) (ps : list EncodedOpusPacket) : Prop :=
  exists chunks, concat chunks = ps /\ Forall audio_chunk_ok chunks
  /\ map snd frags = map (map opus_bytes) chunks.

Lemma fragment_boxes_app f1 f2 : fragment_boxes (f1 ++ f2) = fragment_boxes f1 ++ fragment_boxes f2.
Proof. apply flat_map_app. Qed.

(** The same for the audio and video writer: the video fragments hold the
    packets of the ring, the audio fragments those packets of each track that
    start inside the video, without hiding a capture gap. *)
Theorem audio_video_file_correct dest s ring a old w' summary
    (Hok : write_audio_video_mp4_tracks dest s ring a (counting_writer old) = (w', Ok summary)) :
  exists vfrags sfrags mfrags chunks origin video_end,
  mp4_file old (inner w') (vfrags ++ sfrags ++ mfrags)
  /\ map snd vfrags = map (map packet_bytes) chunks
  /\ concat chunks = packets ring /\ well_cut chunks
  /\ option_map timestamp_ns (head (packets ring)) = Some origin
  /\ option_map (fun p => timestamp_ns p + duration_ns p) (last (packets ring)) = Some video_end
  /\ audio_track sfrags (in_window origin video_end (snapshot_packets (system a)))
  /\ audio_track mfrags (microphone_in_window origin video_end a)
  /\ bytes_written summary = Z.min U64_MAX (zlen (inner w') - zlen old).
Proof.
  unfold write_audio_video_mp4_tracks in Hok. apply st_bind_Ok in Hok as (w0 & first & H0 & H).
  apply lift_Ok in H0 as [-> H0]. apply ring_prologue_Ok in H0 as (_ & Hkey & (rest & Hps) & _).
  apply st_bind_Ok in H as (w00 & video_end & He & H). apply lift_Ok in He as [-> He]. apply ok_or_Ok in He.
  cbv zeta in H. case_if_in H Ebad; [done|]. clear Ebad.
  apply st_bind_Ok in H as (wa & ft & H1 & H). apply lift_Ok in H1 as [-> H1]. apply ftyp_Ok in H1 as (ftc & Hft & ->).
  apply st_bind_Ok in H as (w1 & [] & H1 & H). apply emit_Ok in H1.
  apply st_bind_Ok in H as (wb & mv & H2 & H). apply lift_Ok in H2 as [-> H2].
  apply moov_with_audio_Ok in H2 as (mvc & Hmv & ->).
  apply st_bind_Ok in H as (w2 & [] & H2 & H). apply emit_Ok in H2.
  apply st_bind_Ok in H as (w3 & n & H3 & H).
  apply video_fragments_boxes in H3 as (chunks & vfrags & Hc & Hwell & Hmap & Hall & _ & _ & H3);
    [|destruct H2 as [_ ->]; lia|unfold U32_MAX; lia].
  apply st_bind_Ok in H as (w4 & n4 & H4 & H). unfold write_audio_fragments in H4.
  apply audio_fragments_boxes in H4 as (ch4 & sfrags & Hc4 & Hw4 & Hmap4 & Hall4 & H4); [|destruct H3 as [_ ->]; lia].
  apply st_bind_Ok in H as (w5 & n5 & H5 & H). unfold write_audio_fragments in H5.
  apply audio_fragments_boxes in H5 as (ch5 & mfrags & Hc5 & Hw5 & Hmap5 & Hall5 & H5); [|destruct H4 as [_ ->]; lia].
  apply st_bind_Ok in H as (w6 & k & H6 & H). unfold get_written in H6. injection H6 as <- <-.
  unfold mret, st_ret in H. injection H as <- <-.
  assert (Hall' : Forall fragment_ok (vfrags ++ sfrags ++ mfrags)) by (by rewrite !Forall_app).
  pose proof (wrote_trans _ _ _ _ _ H3 (wrote_trans _ _ _ _ _ H4 H5)) as Hfr.
  rewrite <- !file_of_app, <- !fragment_boxes_app in Hfr.
  destruct (mp4_file_intro old (inner w5) (counting_writer old) w1 w2 w5 ftc mvc _
    eq_refl eq_refl Hft Hmv Hall' H1 H2 Hfr) as [Hfile [Hin Hwr]].
  exists vfrags, sfrags, mfrags, chunks, (timestamp_ns first), video_end.
  cbn [bytes_written]. splits; [by exists mvc|done..| | |by exists ch4|by exists ch5|].
  - by rewrite Hps.
  - destruct (last (packets ring)) as [lp|]; [|done]. apply checked_add_Some in He as [_ ->]. done.
  - rewrite Hwr. cbn [counting_writer written inner]. f_equal.
    cbn [counting_writer inner] in Hin. rewrite Hin at 2. rewrite zlen_app. lia.
Qed.

(** C4: the file that streaming a clip leaves, from any packet source that keeps
    the interface's promise, read box by box: a file type, a movie box and the
    fragments.  The movie box declares the video track with the stream's
    configuration and, when there is audio in the clip's window, track 2 for the
    system and track 3 for the microphone with their clocks.  The video fragments
    hold every packet of the source, in order, starting at a keyframe, no fragment
    more than 8 MiB unless a single packet does; the audio fragments hold the
    packets of each track inside the window, without a gap.  The fragments are
    numbered from one; each names its own track and the clip time where it starts,
    lists every sample with its size, duration and keyframe flag, and leads to the
    samples' bytes.  The source is drained and the returned size is the size of
    the file. *)
Theorem streaming_file_correct dest {Src : Type} `{ReplayPacketSourceSpec Src}
    fuel s a old (src src' : Src) w' n
    (Hok : write_streaming_mp4_tracks dest fuel s a (counting_writer old, src) = ((w', src'), Ok n)) :
  let origin := (window src).1 in
  let sys := in_window origin (window src).2 (snapshot_packets (system a)) in
  let mic := microphone_in_window origin (window src).2 a in
  exists mv vchunks vfrags schunks sfrags mchunks mfrags,
  mp4_file_with old (inner w') mv (vfrags ++ sfrags ++ mfrags)
  /\ declares s (if bool_decide (sys = [] /\ mic = []) then [video_declared] else tracks_of a) mv
  /\ video_fragments_of 1 origin [] vchunks vfrags
  /\ concat vchunks = remaining src /\ Forall stream_chunk_ok vchunks
  /\ (exists first rest, remaining src = first :: rest /\ keyframe first = true)
  /\ Forall (packet_valid s) (remaining src)
  /\ audio_fragments_of (1 + zlen vchunks) origin 2 schunks sfrags /\ concat schunks = sys /\ Forall audio_chunk_ok schunks
  /\ audio_fragments_of (1 + zlen vchunks + zlen schunks) origin 3 mchunks mfrags /\ concat mchunks = mic /\ Forall audio_chunk_ok mchunks
  /\ remaining src' = [] /\ n = Z.min U64_MAX (zlen (inner w') - zlen old).
Proof.
  cbv zeta. unfold write_streaming_mp4_tracks in Hok. case_if_in Hok Ecodec; [done|].
  apply st_bind_Ok in Hok as (st0 & [origin video_end] & H0' & H1').
  unfold source_window in H0'. cbn [snd] in H0'. injection H0' as <- Hwin. rewrite Hwin. cbn [fst snd].
  rename H1' into Hk. cbv zeta in Hk. case_if_in Hk Ebad; [done|]. clear Ebad.
  apply st_bind_Ok in Hk as (sta & ft & H1 & Hk). apply lift_Ok in H1 as [-> H1]. apply ftyp_Ok in H1 as (ftc & Hft & ->).
  apply st_bind_Ok in Hk as (stb & [] & H1 & Hk). apply on_writer_Ok in H1 as (w1 & -> & H1). apply emit_Ok in H1.
  apply st_bind_Ok in Hk as (stc & mv & H2 & Hk). apply lift_Ok in H2 as [-> H2].
  apply stream_moov in H2 as (mvc & Hmv & -> & Hdecl).
  apply st_bind_Ok in Hk as (std & [] & H2 & Hk). apply on_writer_Ok in H2 as (w2 & -> & H2). apply emit_Ok in H2.
  apply st_bind_Ok in Hk as (ste & [chunk fragments] & H3 & Hk).
  apply (stream_loop_boxes dest (Src := Src)) in H3 as (w3 & src3 & chunks & vfrags & -> & Hr3 & _ & Hcat & Hall & Hlast & Hmap & Hok3 & Hn3 & Hne & Hv & Hkey & H3);
    [|destruct H2 as [_ ->]; lia|lia|done|by left].
  cbn [app] in Hcat. rewrite Z.add_0_l in *. apply st_bind_Ok in Hk as (stf & fragments' & H4 & Hk).
  apply (stream_flush_boxes dest (Src := Src) chunks vfrags) in H4 as (w4 & chunks' & vfrags' & -> & Hc & Hall' & Hmap' & Hok' & -> & Hwr4);
    [|destruct H3 as [_ ->]; lia|done..]. rewrite Hcat in Hc. pose proof (wrote_trans _ _ _ _ _ H3 Hwr4) as Hwrv.
  destruct (Z.eqb_spec (zlen chunks') 0) as [|Hnz]; [done|].
  apply st_bind_Ok in Hk as (st7 & n7 & H7 & Hk). unfold write_streaming_audio_fragments in H7.
  apply (streaming_audio_boxes dest (Src := Src)) in H7 as (w7 & src7 & ch7 & sfrags & -> & Hr7 & Hc7 & Hw7 & Hmap7 & -> & Hok7 & H7);
    [|destruct Hwr4 as [_ ->]; lia].
  apply st_bind_Ok in Hk as (st8 & n8 & H8 & Hk). unfold write_streaming_audio_fragments in H8.
  apply (streaming_audio_boxes dest (Src := Src)) in H8 as (w8 & src8 & ch8 & mfrags & -> & Hr8 & Hc8 & Hw8 & Hmap8 & _ & Hok8 & H8);
    [|destruct H7 as [_ ->]; lia].
  apply on_writer_Ok in Hk as (w9 & E9 & Hk). injection E9 as -> ->. unfold get_written in Hk. injection Hk as -> <-.
  assert (Hall9 : Forall fragment_ok ((vfrags ++ vfrags') ++ sfrags ++ mfrags)) by (by rewrite !Forall_app in *).
  pose proof (wrote_trans _ _ _ _ _ Hwrv (wrote_trans _ _ _ _ _ H7 H8)) as Hfr.
  rewrite <- !file_of_app, <- !fragment_boxes_app in Hfr.
  destruct (mp4_file_intro old (inner w9) (counting_writer old) w1 w2 w9 ftc mvc _
    eq_refl eq_refl Hft Hmv Hall9 H1 H2 Hfr) as [Hfile [Hin Hwr]].
  rewrite (Z.add_comm (zlen chunks') 1) in Hmap7. replace (zlen chunks' + zlen ch7 + 1) with (1 + zlen chunks' + zlen ch7) in Hmap8 by lia.
  exists mvc, chunks', (vfrags ++ vfrags'), ch7, sfrags, ch8, mfrags. splits; [done..| |done|exact Hmap7|done|done|exact Hmap8|done|done| |].
  - destruct (remaining src) as [|f rest] eqn:Er.
    + destruct chunks' as [|[|x c] cs]; [done| |done]. apply Forall_cons in Hall' as [[Hbad _] _]. done.
    + exists f, rest. split; [done|]. by eapply Hkey.
  - by rewrite Hr8, Hr7.
  - rewrite Hwr. cbn [counting_writer written inner]. f_equal.
    cbn [counting_writer inner] in Hin. rewrite Hin at 2. rewrite zlen_app. lia.
Qed.

(** ** Witnesses *)
Lemma fragment_correct_witness :
  exists w', write_fragment unbounded 1 1000000000 [demo_frame 1000000000 true; demo_frame 1016666667 false]
               (Some 1033333334) (counting_writer []) = (w', Ok tt)
  /\ exists frag, inner w' = [] ++ frag.
Proof.
  eexists. split; [vm_compute; reflexivity|].
  destruct (fragment_correct unbounded 1 1000000000 (demo_frame 1000000000 true) [demo_frame 1016666667 false]
    (Some 1033333334) (counting_writer []) _ ltac:(vm_compute; discriminate) eq_refl) as (frag & H & _).
  exists frag. exact H.
Defined.

Definition demo_video_run : CountingWriter * outcome Mp4VideoError Mp4VideoSummary :=
  write_video_only_mp4 unbounded demo_video_stream demo_clip (counting_writer [7]).
Definition demo_av_run : CountingWriter * outcome Mp4VideoError Mp4VideoSummary :=
  write_audio_video_mp4_tracks unbounded demo_video_stream demo_clip demo_tracks (counting_writer []).
Definition run_summary (r : CountingWriter * outcome Mp4VideoError Mp4VideoSummary) : Mp4VideoSummary :=
  match r.2 with
  | Ok s => s
  | _ => {| summary_packets := 0; summary_fragments := 0; summary_duration_ns := 0; bytes_written := 0 |}
  end.

Lemma video_file_correct_witness :
  demo_video_run = (demo_video_run.1, Ok (run_summary demo_video_run))
  /\ exists frags, mp4_file [7] (inner demo_video_run.1) frags.
Proof.
  assert (E : demo_video_run = (demo_video_run.1, Ok (run_summary demo_video_run))) by (vm_compute; reflexivity).
  split; [exact E|].
  destruct (video_file_correct unbounded demo_video_stream demo_clip [7] _ _ E) as (frags & _ & H & _).
  exists frags. exact H.
Defined.

Lemma audio_video_file_correct_witness :
  demo_av_run = (demo_av_run.1, Ok (run_summary demo_av_run))
  /\ exists frags, mp4_file [] (inner demo_av_run.1) frags.
Proof.
  assert (E : demo_av_run = (demo_av_run.1, Ok (run_summary demo_av_run))) by (vm_compute; reflexivity).
  split; [exact E|].
  destruct (audio_video_file_correct unbounded demo_video_stream demo_clip demo_tracks [] _ _ E)
    as (v & s & m & _ & _ & _ & H & _).
  exists (v ++ s ++ m). exact H.
Defined.

Definition demo_run : CountingWriter * MemoryPackets * outcome Mp4VideoError Z :=
  write_streaming_mp4_tracks unbounded 4 demo_video_stream demo_tracks (counting_writer [], demo_source).

Lemma streaming_file_correct_witness :
  exists n, demo_run = ((demo_run.1.1, demo_run.1.2), Ok n)
  /\ exists mv frags, mp4_file_with [] (inner demo_run.1.1) mv frags /\ declares demo_video_stream (tracks_of demo_tracks) mv.
Proof.
  assert (E : demo_run = ((demo_run.1.1, demo_run.1.2), Ok 1538)) by (vm_compute; reflexivity).
  exists 1538. split; [exact E|].
  destruct (streaming_file_correct unbounded 4 demo_video_stream demo_tracks [] demo_source _ _ _ E)
    as (mv & _ & v & _ & s & _ & m & H & Hd & _).
  exists mv, (v ++ s ++ m). split; [exact H|]. rewrite bool_decide_false in Hd; [exact Hd|]. vm_compute. intros [Hbad _]. discriminate Hbad.
Defined.
