(* ===== verification/Mp4Total.v ===== *)
(** Termination of the MP4 writers: whatever the destination and the tracks do,
    a writer returns, and it returns a file or an error, never a panic. *)
From S2P Require Import Prelude Bytes ReplayRing ReplayAudio PacketSource Encoder SampleClip Mp4 Mp4Facts.
Local Open Scope Z_scope.

(** ** No writer panics or runs forever *)
Lemma emit_total dest chunk w : st_total (emit dest chunk) w.
Proof. apply write_all_total. Qed.

#[local] Hint Resolve push_box_no_panic : rust.
#[local] Hint Extern 1 (no_panic (make_box _ _)) => apply push_box_no_panic : rust.

Lemma sample_entries_no_panic origin next ps : no_panic (sample_entries origin next ps).
Proof.
  revert next. induction ps as [|p ps IH]; intros next; cbn [sample_entries]; [done|].
  apply bind_no_panic; [|intros e _; apply bind_no_panic; [apply IH|done]].
  unfold sample_entry, to_timescale. outcome_total.
Qed.

Lemma moof_no_panic sequence origin p ps next off : no_panic (moof sequence origin (p :: ps) next off).
Proof.
  unfold moof, to_timescale. cbn [head expect]. rewrite bind_ret.
  outcome_step; [outcome_total|]. outcome_step; [outcome_total|]. outcome_step; [outcome_total|].
  outcome_step; [apply sample_entries_no_panic|]. unfold moof_box. outcome_total.
Qed.

Lemma audio_entries_no_panic ps : no_panic (audio_entries ps).
Proof.
  induction ps as [|p ps IH]; cbn [audio_entries]; [done|]. outcome_step; [outcome_total|].
  outcome_step; [apply IH|done].
Qed.

Lemma audio_moof_no_panic sequence base ps track off : no_panic (audio_moof sequence base ps track off).
Proof.
  unfold audio_moof, moof_box. outcome_step; [outcome_total|].
  outcome_step; [apply audio_entries_no_panic|]. outcome_total.
Qed.

Lemma emit_all_total dest chunks w : st_total (emit_all dest chunks) w.
Proof.
  revert w. induction chunks as [|c chunks IH]; intros w; [done|]. cbn [emit_all].
  apply st_total_bind; [apply emit_total|]. intros. apply IH.
Qed.

Lemma total_payload_no_panic l : no_panic (total_payload l).
Proof.
  unfold total_payload. generalize 0. induction l as [|x l IH]; intros t; [done|]. cbn [for_each].
  outcome_step; [outcome_total|]. apply IH.
Qed.

Lemma write_fragment_with_total dest header payloads w :
  (forall off, no_panic (header off)) -> st_total (write_fragment_with dest header payloads) w.
Proof.
  intros Hh. unfold write_fragment_with. apply st_total_bind; [by apply st_total_lift|]. intros.
  apply st_total_bind; [apply st_total_lift; outcome_total|]. intros.
  apply st_total_bind; [by apply st_total_lift|]. intros.
  apply st_total_bind; [apply emit_total|]. intros.
  apply st_total_bind; [apply st_total_lift, total_payload_no_panic|]. intros.
  apply st_total_bind; [|intros; apply emit_all_total]. unfold write_box_header.
  apply st_total_bind; [apply st_total_lift; outcome_total|]. intros.
  apply st_total_bind; [apply st_total_lift; outcome_total|]. intros.
  apply st_total_bind; [apply emit_total|]. intros. apply emit_total.
Qed.

Lemma write_fragment_total dest sequence origin p ps next w :
  st_total (write_fragment dest sequence origin (p :: ps) next) w.
Proof. apply write_fragment_with_total. intros. apply moof_no_panic. Qed.

Lemma write_audio_fragment_total dest sequence origin p ps track w :
  st_total (write_audio_fragment dest sequence origin (p :: ps) track) w.
Proof.
  unfold write_audio_fragment. apply st_total_bind; [by apply st_total_lift|]. intros.
  apply st_total_bind; [apply st_total_lift; unfold audio_base_time; outcome_total|]. intros.
  apply write_fragment_with_total. intros. apply audio_moof_no_panic.
Qed.

Lemma video_fragments_total dest fuel origin fragments ps w :
  (length ps <= fuel)%nat -> st_total (video_fragments dest fuel origin fragments ps) w.
Proof.
  revert fragments ps w. induction fuel as [|fuel IH]; intros fragments [|p rest] w Hf; cbn in Hf; try done; try lia.
  cbn [video_fragments]. apply st_total_bind; [cbn [take]; apply write_fragment_total|]. intros.
  apply IH. cbn [drop]. rewrite length_drop. lia.
Qed.

Lemma audio_fragments_total dest fuel origin track fragments ps w :
  (length ps <= fuel)%nat -> st_total (audio_fragments dest fuel origin track fragments ps) w.
Proof.
  revert fragments ps w. induction fuel as [|fuel IH]; intros fragments [|p rest] w Hf; cbn in Hf; try done; try lia.
  cbn [audio_fragments]. apply st_total_bind; [cbn [take]; apply write_audio_fragment_total|]. intros.
  apply IH. cbn [drop]. rewrite length_drop. lia.
Qed.

Lemma validate_packets_no_panic s ps : no_panic (validate_packets s ps).
Proof.
  unfold validate_packets. induction ps as [|p ps IH]; [done|].
  cbn [for_each]. outcome_step; [apply map_err_no_panic, validate_packet_no_panic|].
  match goal with u : unit |- _ => destruct u end. apply IH.
Qed.

Lemma ring_prologue_no_panic s ring : no_panic (ring_prologue s ring).
Proof.
  unfold ring_prologue. outcome_step; [done|]. outcome_step; [outcome_total|]. outcome_step; [done|].
  outcome_step; [apply validate_packets_no_panic|done].
Qed.

Lemma headers_no_panic s a :
  no_panic ftyp /\ no_panic (moov s) /\ no_panic (moov_with_audio_tracks s a).
Proof.
  assert (Htrak : no_panic (trak s)).
  { unfold trak, mdia, minf, stbl, avc1, empty_tables, push_dinf. outcome_total. }
  assert (Haudio : forall m t, no_panic (audio_trak m t)).
  { intros. unfold audio_trak, audio_minf, opus_sample_entry, empty_tables, push_dinf. outcome_total. }
  splits.
  - apply push_box_no_panic.
  - unfold moov. outcome_step; [outcome_total|]. outcome_step; [done|]. outcome_total.
  - unfold moov_with_audio_tracks. outcome_step; [outcome_total|]. outcome_step; [done|].
    outcome_step; [outcome_total|]. outcome_step; [apply Haudio|]. outcome_step; [outcome_total|].
    outcome_step; [|outcome_total]. destruct (microphone a); [|done].
    outcome_step; [apply Haudio|outcome_total].
Qed.

(** Whatever the destination does, however the ring and the tracks look,
    the two ring writers return: no loop runs forever and nothing panics. *)
Theorem mp4_writers_total dest s ring a w :
  snd (write_video_only_mp4 dest s ring w) <> Panic
  /\ snd (write_audio_video_mp4_tracks dest s ring a w) <> Panic.
Proof.
  destruct (headers_no_panic s a) as (Hf & Hm & Ha). split.
  - change (st_total (write_video_only_mp4 dest s ring) w). unfold write_video_only_mp4.
    apply st_total_bind; [apply st_total_lift, ring_prologue_no_panic|]. intros.
    apply st_total_bind; [by apply st_total_lift|]. intros.
    apply st_total_bind; [apply emit_total|]. intros.
    apply st_total_bind; [by apply st_total_lift|]. intros.
    apply st_total_bind; [apply emit_total|]. intros. cbv zeta.
    apply st_total_bind; [by apply video_fragments_total|]. intros.
    apply st_total_bind; [apply st_total_lift; outcome_total|]. intros.
    apply st_total_bind; [apply st_total_lift; outcome_total|]. intros. intros Hbad. discriminate Hbad.
  - change (st_total (write_audio_video_mp4_tracks dest s ring a) w). unfold write_audio_video_mp4_tracks.
    apply st_total_bind; [apply st_total_lift, ring_prologue_no_panic|]. intros.
    apply st_total_bind; [apply st_total_lift; outcome_total|]. intros. cbv zeta. case_if_as Ebad; [intros Hbad; discriminate Hbad|].
    apply st_total_bind; [by apply st_total_lift|]. intros.
    apply st_total_bind; [apply emit_total|]. intros.
    apply st_total_bind; [by apply st_total_lift|]. intros.
    apply st_total_bind; [apply emit_total|]. intros.
    apply st_total_bind; [by apply video_fragments_total|]. intros. unfold write_audio_fragments.
    apply st_total_bind; [by apply audio_fragments_total|]. intros.
    apply st_total_bind; [by apply audio_fragments_total|]. intros. intros Hbad. discriminate Hbad.
Qed.

(** ** Streaming

    A stream adds fragment numbers with a checked u32, and its loop runs until
    the source is empty. *)
Section StreamingTotal.
Context (dest : destination) {Src : Type} `{ReplayPacketSourceSpec Src}.

Lemma next_fragment_ensures fragments (ws : CountingWriter * Src) :
  fragments + 1 <= U32_MAX ->
  ensures (next_fragment fragments) ws (fun ws' k => ws' = ws /\ k = fragments + 1).
Proof.
  intros Hle. unfold ensures, next_fragment, lift, checked_add.
  by rewrite (proj2 (Z.leb_le _ _) Hle).
Qed.

Definition pending (chunk : list EncodedReplayPacket) : Z := match chunk with [] => 0 | _ => 1 end.

Lemma stream_packet_ensures s origin chunk size fragments p w (src : Src) :
  fragments + pending chunk <= U32_MAX ->
  ensures (stream_packet dest s origin chunk size fragments p) (w, src)
    (fun ws '(chunk', _, fragments') =>
       ws.2 = src /\ fragments' + pending chunk' <= fragments + pending chunk + 1).
Proof.
  intros Hle. unfold stream_packet. case_if_as Efirst; [done|].
  eapply ensures_bind.
  { apply (total_ensures (lift _)). apply st_total_lift, map_err_no_panic, validate_packet_no_panic. }
  intros ws1 [] H1. apply lift_Ok in H1 as [-> _].
  case_if_as Efull.
  - destruct chunk as [|c chunk]; [done|]. cbn [pending] in *.
    eapply ensures_bind; [apply next_fragment_ensures; lia|]. intros ? ? [-> ->].
    eapply ensures_bind; [apply on_writer_total, write_fragment_total|]. intros [w1 ?] [] E. cbn in E. subst.
    cbn. split; [done|lia].
  - cbn. split; [done|]. destruct chunk; cbn; lia.
Qed.

Lemma stream_loop_ensures fuel s origin chunk size fragments w (src : Src) budget :
  (length (remaining src) < fuel)%nat ->
  fragments + pending chunk + zlen (remaining src) <= budget -> budget <= U32_MAX ->
  ensures (stream_loop dest fuel s origin chunk size fragments) (w, src)
    (fun ws '(chunk', fragments') => fragments' + pending chunk' <= budget).
Proof.
  revert chunk size fragments w src. induction fuel as [|fuel IH]; intros chunk size fragments w src Hf Hb Hu; [lia|].
  cbn [stream_loop]. eapply ensures_bind; [apply next_packet_ensures|].
  intros [w1 src1] [p|] E; cbn in E.
  - rewrite E in Hf, Hb. rewrite zlen_cons in Hb. cbn [length] in Hf.
    pose proof (zlen_nonneg (remaining src1)).
    eapply ensures_bind; [apply stream_packet_ensures; lia|].
    intros [w2 src2] [[chunk2 size2] fragments2] [E2 Hle]. cbn in E2. subst src2. apply IH; lia.
  - cbn. pose proof (zlen_nonneg (remaining src)). lia.
Qed.

Lemma streaming_audio_ensures fuel origin track fragments ps w (src : Src) budget :
  (length ps <= fuel)%nat -> fragments + zlen ps <= budget -> budget <= U32_MAX ->
  ensures (streaming_audio_fragments dest fuel origin track fragments ps) (w, src)
    (fun _ fragments' => fragments' <= budget).
Proof.
  revert fragments ps w src.
  induction fuel as [|fuel IH]; intros fragments [|p rest] w src Hf Hb Hu; cbn in Hf; try lia;
    try (rewrite zlen_nil in Hb; change (fragments <= budget); lia).
  cbn [streaming_audio_fragments]. rewrite zlen_cons in Hb. pose proof (zlen_nonneg rest).
  eapply ensures_bind; [apply check_cancel_ensures|].
  intros [w1 src1] [] _. cbv zeta.
  eapply ensures_bind; [apply next_fragment_ensures; lia|]. intros ? ? [-> ->].
  eapply ensures_bind; [apply on_writer_total; cbn [take]; apply write_audio_fragment_total|].
  intros [w2 ?] [] E. cbn in E. subst. cbn [drop]. apply IH; [rewrite length_drop; lia| |done].
  unfold zlen in *. rewrite length_drop. lia.
Qed.
End StreamingTotal.

(** C5: streaming ends.  From any source that keeps the interface's contract,
    with one unit of fuel more than the source holds packets and fewer than 2^32
    packets in all, the streaming writer returns a file or an error: it does not
    run out of fuel, and its u32 fragment counter does not overflow. *)
Theorem streaming_writer_total dest {Src : Type} `{ReplayPacketSourceSpec Src}
    fuel s a w (src : Src)
    (Hfuel : (length (remaining src) < fuel)%nat)
    (Hcount : zlen (remaining src)
              + zlen (in_window (window src).1 (window src).2 (snapshot_packets (system a)))
              + zlen (microphone_in_window (window src).1 (window src).2 a) <= U32_MAX) :
  snd (write_streaming_mp4_tracks dest fuel s a (w, src)) <> Panic.
Proof.
  apply (ensures_total _ _ (fun _ _ => True)). destruct (headers_no_panic s a) as (Hf & Hm & Ha).
  unfold write_streaming_mp4_tracks. case_if_as Ecodec; [done|].
  apply (ensures_bind _ _ _ (fun ws o => ws.2 = src /\ o = window src)); [done|].
  intros [w0 src0] o [E Ho]. cbn [snd] in E. subst src0. rewrite Ho. destruct (window src) as [origin video_end].
  cbn [fst snd] in *. cbv zeta.
  set (audio := in_window origin video_end (snapshot_packets (system a))) in *.
  set (mic := microphone_in_window origin video_end a) in *.
  pose proof (zlen_nonneg audio). pose proof (zlen_nonneg mic). pose proof (zlen_nonneg (remaining src)).
  case_if_as Ebad; [done|].
  eapply ensures_bind; [apply total_ensures, st_total_lift, Hf|]. intros ws1 ft E. apply lift_Ok in E as [-> _].
  eapply ensures_bind; [apply on_writer_total, emit_total|]. intros [w1 ?] [] E. cbn in E. subst.
  eapply ensures_bind; [apply total_ensures, st_total_lift; by case_if_as Em|].
  intros ws2 mv E. apply lift_Ok in E as [-> _].
  eapply ensures_bind; [apply on_writer_total, emit_total|]. intros [w2 ?] [] E. cbn in E. subst.
  eapply ensures_bind; [apply (stream_loop_ensures dest fuel _ _ _ _ _ _ _ (zlen (remaining src))); [done|cbn; lia|lia]|].
  intros [w3 src3] [chunk fragments] Hle.
  apply (ensures_bind _ _ _ (fun _ k => k <= zlen (remaining src))).
  { destruct chunk as [|c chunk]; [cbn in *; lia|]. cbn [pending] in Hle.
    eapply ensures_bind; [apply next_fragment_ensures; lia|]. intros ? ? [-> ->].
    eapply ensures_bind; [apply on_writer_total, write_fragment_total|]. intros [w4 ?] [] E. cbn in E. cbn. lia. }
  intros [w5 src5] k Hk. case_if_as Ek; [done|].
  eapply ensures_bind;
    [apply (streaming_audio_ensures dest _ _ _ _ _ _ _ (zlen (remaining src) + zlen audio)); lia|].
  intros [w6 src6] k6 Hk6. cbn beta in Hk6.
  eapply ensures_bind;
    [apply (streaming_audio_ensures dest _ _ _ _ _ _ _ (zlen (remaining src) + zlen audio + zlen mic)); lia|].
  intros [w7 src7] k7 _. done.
Qed.

Lemma streaming_writer_total_witness :
  snd (write_streaming_mp4_tracks unbounded 4 demo_video_stream demo_tracks (counting_writer [], demo_source)) <> Panic.
Proof.
  apply (streaming_writer_total unbounded 4 demo_video_stream demo_tracks (counting_writer []) demo_source).
  - cbn. lia.
  - vm_compute. discriminate.
Defined.
