(* ===== verification/Matroska.v ===== *)
(** The Matroska writer (crates/redunar-daemon/src/replay_matroska.rs): EBML
    elements, clusters of simple blocks, and the three entry points. *)
From stdpp Require Import strings.
From S2P Require Import Prelude Arith Bytes ReplayRing ReplayAudio PacketSource Encoder.
Local Open Scope Z_scope.

Definition TIMESTAMP_SCALE_NS : Z := 1000000.
Definition MAX_CLUSTER_DURATION_MS : Z := 30000.
Definition MAX_EBML_SIZE : Z := 2 ^ 56 - 2.

Definition ID_EBML : bytes := [0x1a; 0x45; 0xdf; 0xa3].
Definition ID_SEGMENT : bytes := [0x18; 0x53; 0x80; 0x67].
Definition ID_INFO : bytes := [0x15; 0x49; 0xa9; 0x66].
Definition ID_DURATION : bytes := [0x44; 0x89].
Definition ID_TRACKS : bytes := [0x16; 0x54; 0xae; 0x6b].
Definition ID_CLUSTER : bytes := [0x1f; 0x43; 0xb6; 0x75].
Definition ID_SIMPLE_BLOCK : bytes := [0xa3].
Definition ID_TIMESTAMP : bytes := [0xe7].
Definition UNKNOWN_SIZE : bytes := [0x01; 0xff; 0xff; 0xff; 0xff; 0xff; 0xff; 0xff].

Inductive MatroskaVideoError :=
| MkvEmptyRing | MkvMissingInitialKeyframe | MkvInvalidPacket | MkvTimestampOverflow
| MkvContainerTooLarge | MkvIo (e : IoError).

Notation M A := (outcome MatroskaVideoError A).

(** * Sizes and numbers *)
(** [(1..=8).find(|width| value < (1_u64 << (7 * width)) - 1)]. *)
Definition find_width (value : Z) : option Z :=
  List.find (fun width => value <? Z.shiftl 1 (7 * width) - 1) [1; 2; 3; 4; 5; 6; 7; 8].

Definition encode_vint (value : Z) : M (bytes * nat) :=
  if MAX_EBML_SIZE <? value then Err MkvContainerTooLarge
  else
    width ← ok_or (find_width value) MkvContainerTooLarge;
    let encoded := Z.lor value (Z.shiftl 1 (7 * width)) in
    let bs := be_bytes 8 encoded in
    let result := replicate 8 0 in
    Ok (put 0 (drop (8 - Z.to_nat width) bs) result, Z.to_nat width).

(** [&encoded.0[..encoded.1]]. *)
Definition vint_bytes (value : Z) : M bytes :=
  encoded ← encode_vint value; Ok (take encoded.2 encoded.1).

(** [u64::leading_zeros], between 0 and 64. *)
Definition leading_zeros (value : Z) : Z := if value =? 0 then 64 else Z.max 0 (63 - Z.log2 value).
Definition unsigned_width (value : Z) : Z := Z.max 1 (sat_sub 8 (leading_zeros value / 8)).

Definition vint_width (value : Z) : Z := unwrap_or (find_width value) 8.
Definition element_size (id : bytes) (content_size : Z) : Z :=
  sat_add U64_MAX (sat_add U64_MAX (zlen id) (vint_width content_size)) content_size.

(** [&value.to_be_bytes()[8 - width..]]. *)
Definition unsigned_bytes (value : Z) : bytes :=
  drop (8 - Z.to_nat (unsigned_width value)) (be_bytes 8 value).

(** ** Elements appended to a vector *)
Definition append_master (destination id contents : bytes) : M bytes :=
  size ← vint_bytes (zlen contents);
  Ok (destination ++ id ++ size ++ contents).
Definition append_bytes (destination id value : bytes) : M bytes := append_master destination id value.
Definition append_unsigned (destination id : bytes) (value : Z) : M bytes :=
  size ← vint_bytes (unsigned_width value);
  Ok (destination ++ id ++ size ++ unsigned_bytes value).
Definition append_float (destination id : bytes) (value : spec_float) : M bytes :=
  size ← vint_bytes 8;
  Ok (destination ++ id ++ size ++ be_bytes 8 (f64_bits value)).

(** * Headers *)
Definition ebml_contents : M bytes :=
  v ← append_unsigned [] [0x42; 0x86] 1;
  v ← append_unsigned v [0x42; 0xf7] 1;
  v ← append_unsigned v [0x42; 0xf2] 4;
  v ← append_unsigned v [0x42; 0xf3] 8;
  v ← append_bytes v [0x42; 0x82] (ascii_bytes "matroska");
  v ← append_unsigned v [0x42; 0x87] 4;
  append_unsigned v [0x42; 0x85] 2.

Definition info_contents (duration : Z) : M bytes :=
  v ← append_unsigned [] [0x2a; 0xd7; 0xb1] TIMESTAMP_SCALE_NS;
  v ← append_float v ID_DURATION (f64_div (f64_of_u64 duration) (f64_of_u64 TIMESTAMP_SCALE_NS));
  v ← append_bytes v [0x4d; 0x80] (ascii_bytes "Redunar");
  append_bytes v [0x57; 0x41] (ascii_bytes "Redunar").

Definition video_settings (s : ReplayVideoStream) : M bytes :=
  v ← append_unsigned [] [0xb0] (stream_width s);
  append_unsigned v [0xba] (stream_height s).

Definition tracks_contents (s : ReplayVideoStream) : M bytes :=
  video ← video_settings s;
  v ← append_unsigned [] [0xd7] 1;
  v ← append_unsigned v [0x73; 0xc5] 1;
  v ← append_unsigned v [0x83] 1;
  v ← append_unsigned v [0x9c] 0;
  period ← (if stream_fps s =? 0 then Panic else Ok (1000000000 / stream_fps s));
  v ← append_unsigned v [0x23; 0xe3; 0x83] period;
  v ← append_bytes v [0x86] (matroska_codec_id (codec s));
  v ← (if (length (codec_private s) =? 0)%nat then Ok v
       else append_bytes v [0x63; 0xa2] (codec_private s));
  v ← append_master v [0xe0] video;
  append_master [] [0xae] v.

Definition mkv_audio_track (number : Z) (name : bytes) (audio : ReplayAudioSnapshot) : M bytes :=
  settings ← append_float [] [0xb5] (f64_of_u64 (sample_rate (snapshot_stream audio)));
  settings ← append_unsigned settings [0x9f] (channels (snapshot_stream audio));
  v ← append_unsigned [] [0xd7] number;
  v ← append_unsigned v [0x73; 0xc5] number;
  v ← append_bytes v [0x53; 0x6e] name;
  v ← append_unsigned v [0x83] 2;
  v ← append_unsigned v [0x9c] 0;
  v ← append_unsigned v [0x56; 0xaa] 6500000;
  v ← append_unsigned v [0x56; 0xbb] 80000000;
  v ← append_bytes v [0x86] (ascii_bytes "A_OPUS");
  v ← append_bytes v [0x63; 0xa2] (opus_codec_private (snapshot_stream audio));
  append_master v [0xe1] settings.

Definition audio_video_tracks_contents (s : ReplayVideoStream) (audio : ReplayAudioSnapshot)
    (microphone : option ReplayAudioSnapshot) : M bytes :=
  video ← video_settings s;
  v ← append_unsigned [] [0xd7] 1;
  v ← append_unsigned v [0x73; 0xc5] 1;
  v ← append_unsigned v [0x83] 1;
  v ← append_unsigned v [0x9c] 0;
  v ← append_bytes v [0x86] (matroska_codec_id (codec s));
  v ← append_bytes v [0x63; 0xa2] (codec_private s);
  video_track ← append_master v [0xe0] video;
  system_track ← mkv_audio_track 2 (ascii_bytes "System audio") audio;
  tracks ← append_master [] [0xae] video_track;
  tracks ← append_master tracks [0xae] system_track;
  match microphone with
  | Some microphone =>
      track ← mkv_audio_track 3 (ascii_bytes "Microphone") microphone;
      append_master tracks [0xae] track
  | None => Ok tracks
  end.

(** * Blocks *)
Inductive MatroskaBlock :=
| Video (p : EncodedReplayPacket)
| Audio (p : EncodedOpusPacket) (track : Z).

Definition block_timestamp_ns (b : MatroskaBlock) : Z :=
  match b with Video p => timestamp_ns p | Audio p _ => opus_timestamp_ns p end.
Definition block_bytes (b : MatroskaBlock) : bytes :=
  match b with Video p => packet_bytes p | Audio p _ => opus_bytes p end.
Definition track_byte (b : MatroskaBlock) : Z :=
  match b with Video _ => 0x81 | Audio _ track => Z.lor 0x80 track end.
Definition block_flags (b : MatroskaBlock) : Z :=
  match b with
  | Video p => if keyframe p then 0x80 else 0
  | Audio _ _ => 0x80
  end.

Definition invalid_audio_packet (p : EncodedOpusPacket) : bool :=
  (zlen (opus_bytes p) =? 0) || (4096 <? zlen (opus_bytes p)) || (opus_duration_ns p =? 0)
  || bool_decide (checked_add U64_MAX (opus_timestamp_ns p) (opus_duration_ns p) = None).

Definition relative_milliseconds (timestamp origin : Z) : M Z :=
  ok_or (option_map (fun relative => relative / TIMESTAMP_SCALE_NS) (checked_sub timestamp origin))
    MkvTimestampOverflow.

(** [try_fold] over the blocks of a cluster. *)
Definition cluster_content_size (payload : bytes -> M Z) (ts : Z) (blocks : list MatroskaBlock) : M Z :=
  for_each (fun total b =>
      size ← payload (block_bytes b);
      ok_or (checked_add U64_MAX total (element_size ID_SIMPLE_BLOCK size)) MkvContainerTooLarge)
    blocks (element_size ID_TIMESTAMP (unsigned_width ts)).

(** [timestamp.checked_sub(cluster).and_then(i16::try_from)]. *)
Definition block_timecode (timestamp_ms cluster_ms : Z) : M Z :=
  ok_or (match checked_sub timestamp_ms cluster_ms with
         | Some value => try_from I16_MAX value
         | None => None
         end) MkvTimestampOverflow.

(** The payload size of a block in the two ring writers. *)
Definition checked_payload (bs : bytes) : M Z :=
  ok_or (checked_add U64_MAX 4 (unwrap_or (try_from U64_MAX (zlen bs)) U64_MAX)) MkvContainerTooLarge.
Definition saturating_payload (bs : bytes) : M Z :=
  Ok (sat_add U64_MAX 4 (unwrap_or (try_from U64_MAX (zlen bs)) U64_MAX)).

(** [cluster_end]: how many of the packets after the cluster's first join it. *)
Fixpoint cluster_advance (origin cluster_ms : Z) (rest : list EncodedReplayPacket) : M nat :=
  match rest with
  | [] => Ok 0%nat
  | p :: rest =>
      timestamp_ms ← relative_milliseconds (timestamp_ns p) origin;
      relative ← ok_or (checked_sub timestamp_ms cluster_ms) MkvTimestampOverflow;
      if (MAX_CLUSTER_DURATION_MS <? relative) || (I16_MAX <? relative) then Ok 0%nat
      else n ← cluster_advance origin cluster_ms rest; Ok (S n)
  end.

(** The inner loop of the audio and video writer. *)
Fixpoint av_cluster_advance (origin cluster_ms : Z) (rest : list MatroskaBlock) : M nat :=
  match rest with
  | [] => Ok 0%nat
  | b :: rest =>
      timestamp_ms ← relative_milliseconds (block_timestamp_ns b) origin;
      if sat_sub timestamp_ms cluster_ms <=? MAX_CLUSTER_DURATION_MS
      then n ← av_cluster_advance origin cluster_ms rest; Ok (S n)
      else Ok 0%nat
  end.

Record MatroskaVideoSummary := {
  mkv_packets : Z;
  mkv_clusters : Z;
  mkv_duration_ns : Z;
  mkv_bytes_written : Z;
}.

(** * The writer *)
Section Writer.
Context (dest : destination).
Notation W A := (st CountingWriter MatroskaVideoError A).

Definition mkv_emit (chunk : bytes) : W unit := write_all MkvIo dest chunk.

Definition write_master_header (id : bytes) (content_size : Z) : W unit :=
  _ ← mkv_emit id;
  size ← lift (vint_bytes content_size);
  mkv_emit size.
Definition write_element (id contents : bytes) : W unit :=
  _ ← write_master_header id (zlen contents);
  mkv_emit contents.
Definition write_unsigned (id : bytes) (value : Z) : W unit :=
  _ ← mkv_emit id;
  size ← lift (vint_bytes (unsigned_width value));
  _ ← mkv_emit size;
  mkv_emit (unsigned_bytes value).

Definition write_ebml_header : W unit := contents ← lift ebml_contents; write_element ID_EBML contents.
Definition write_info (duration : Z) : W unit :=
  contents ← lift (info_contents duration); write_element ID_INFO contents.
Definition write_tracks (s : ReplayVideoStream) : W unit :=
  contents ← lift (tracks_contents s); write_element ID_TRACKS contents.
Definition write_audio_video_tracks (s : ReplayVideoStream) (audio : ReplayAudioSnapshot)
    (microphone : option ReplayAudioSnapshot) : W unit :=
  contents ← lift (audio_video_tracks_contents s audio microphone); write_element ID_TRACKS contents.

(** Header, track, timecode, flags and payload of a simple block. *)
Definition emit_block (payload : Z) (timecode : Z) (b : MatroskaBlock) : W unit :=
  _ ← write_master_header ID_SIMPLE_BLOCK payload;
  _ ← mkv_emit [track_byte b];
  _ ← mkv_emit (be_bytes 2 timecode);
  _ ← mkv_emit [block_flags b];
  mkv_emit (block_bytes b).

Definition write_block (payload : bytes -> M Z) (origin cluster_ms : Z) (b : MatroskaBlock) : W unit :=
  timestamp_ms ← lift (relative_milliseconds (block_timestamp_ns b) origin);
  timecode ← lift (block_timecode timestamp_ms cluster_ms);
  size ← lift (payload (block_bytes b));
  emit_block size timecode b.

Fixpoint write_blocks (payload : bytes -> M Z) (origin cluster_ms : Z) (blocks : list MatroskaBlock)
    : W unit :=
  match blocks with
  | [] => mret tt
  | b :: blocks =>
      _ ← write_block payload origin cluster_ms b;
      write_blocks payload origin cluster_ms blocks
  end.

Definition write_cluster_with (payload : bytes -> M Z) (blocks : list MatroskaBlock)
    (origin cluster_ms : Z) : W unit :=
  size ← lift (cluster_content_size payload cluster_ms blocks);
  _ ← write_master_header ID_CLUSTER size;
  _ ← write_unsigned ID_TIMESTAMP cluster_ms;
  write_blocks payload origin cluster_ms blocks.

Definition write_cluster (ps : list EncodedReplayPacket) (origin cluster_ms : Z) : W unit :=
  write_cluster_with checked_payload (map Video ps) origin cluster_ms.
Definition write_av_cluster (blocks : list MatroskaBlock) (origin cluster_ms : Z) : W unit :=
  write_cluster_with saturating_payload blocks origin cluster_ms.

(** The outer loop over [packets[index..]]; every iteration consumes a packet. *)
Fixpoint mkv_clusters_loop (fuel : nat) (origin clusters : Z) (ps : list EncodedReplayPacket) : W Z :=
  match ps with
  | [] => mret clusters
  | p :: rest =>
      match fuel with
      | O => lift Panic
      | S fuel =>
          cluster_ms ← lift (relative_milliseconds (timestamp_ns p) origin);
          n ← lift (cluster_advance origin cluster_ms rest);
          _ ← write_cluster (take (S n) ps) origin cluster_ms;
          mkv_clusters_loop fuel origin (sat_add U32_MAX clusters 1) (drop (S n) ps)
      end
  end.

Definition mkv_prologue (s : ReplayVideoStream) (ring : ReplayRing) : M EncodedReplayPacket :=
  first ← ok_or (head (packets ring)) MkvEmptyRing;
  if negb (keyframe first) then Err MkvMissingInitialKeyframe
  else
    _ ← for_each (fun _ p => map_err (fun _ => MkvInvalidPacket) (validate_packet s (packet_bytes p)))
          (packets ring) tt;
    Ok first.

Definition write_segment_start : W unit :=
  _ ← write_ebml_header;
  _ ← mkv_emit ID_SEGMENT;
  mkv_emit UNKNOWN_SIZE.

Definition write_video_only_matroska (s : ReplayVideoStream) (ring : ReplayRing)
    : W MatroskaVideoSummary :=
  first ← lift (mkv_prologue s ring);
  let ps := packets ring in
  last ← lift (ok_or (last ps) MkvEmptyRing);
  duration ← lift (ok_or (match checked_add U64_MAX (timestamp_ns last) (duration_ns last) with
                          | Some stop => checked_sub stop (timestamp_ns first)
                          | None => None
                          end) MkvTimestampOverflow);
  _ ← write_segment_start;
  _ ← write_info duration;
  _ ← write_tracks s;
  clusters ← mkv_clusters_loop (length ps) (timestamp_ns first) 0 ps;
  n ← get_written;
  mret {| mkv_packets := unwrap_or (try_from U32_MAX (zlen ps)) U32_MAX;
          mkv_clusters := clusters; mkv_duration_ns := duration; mkv_bytes_written := n |}.

(** The blocks of the audio and video writer, in the order they are written. *)
Definition av_blocks (ring : ReplayRing) (audio microphone : list EncodedOpusPacket) : list MatroskaBlock :=
  sort_by_key block_timestamp_ns
    (map Video (packets ring) ++ map (fun p => Audio p 2) audio ++ map (fun p => Audio p 3) microphone).

Fixpoint av_clusters_loop (fuel : nat) (origin clusters : Z) (blocks : list MatroskaBlock) : W Z :=
  match blocks with
  | [] => mret clusters
  | b :: rest =>
      match fuel with
      | O => lift Panic
      | S fuel =>
          cluster_ms ← lift (relative_milliseconds (block_timestamp_ns b) origin);
          n ← lift (av_cluster_advance origin cluster_ms rest);
          _ ← write_av_cluster (take (S n) blocks) origin cluster_ms;
          av_clusters_loop fuel origin (sat_add U32_MAX clusters 1) (drop (S n) blocks)
      end
  end.

Definition write_audio_video_matroska_tracks (s : ReplayVideoStream) (ring : ReplayRing)
    (a : ReplayAudioTracks) : W MatroskaVideoSummary :=
  first ← lift (mkv_prologue s ring);
  let ps := packets ring in
  let origin := timestamp_ns first in
  video_end ← lift (ok_or (match last ps with
                           | Some p => checked_add U64_MAX (timestamp_ns p) (duration_ns p)
                           | None => None
                           end) MkvTimestampOverflow);
  let audio_packets := in_window origin video_end (snapshot_packets (system a)) in
  let microphone_packets := microphone_in_window origin video_end a in
  if existsb invalid_audio_packet (audio_packets ++ microphone_packets)
  then lift (Err MkvInvalidPacket)
  else
    let blocks := av_blocks ring audio_packets microphone_packets in
    _ ← write_segment_start;
    _ ← write_info (sat_sub video_end origin);
    _ ← write_audio_video_tracks s (system a) (microphone a);
    clusters ← av_clusters_loop (length blocks) origin 0 blocks;
    n ← get_written;
    mret {| mkv_packets := unwrap_or (try_from U32_MAX (zlen ps)) U32_MAX;
            mkv_clusters := clusters; mkv_duration_ns := sat_sub video_end origin;
            mkv_bytes_written := n |}.

Definition write_audio_video_matroska (s : ReplayVideoStream) (ring : ReplayRing)
    (a : ReplayAudioSnapshot) : W MatroskaVideoSummary :=
  write_audio_video_matroska_tracks s ring {| system := a; microphone := None |}.

(** ** Streaming: unknown-sized clusters *)
Definition write_streaming_block (b : MatroskaBlock) (origin : Z) (cluster : option Z) : W (option Z) :=
  if match b with Audio p _ => invalid_audio_packet p | Video _ => false end
  then lift (Err MkvInvalidPacket)
  else
    timestamp ← lift (relative_milliseconds (block_timestamp_ns b) origin);
    cluster ←
      (if match cluster with
          | None => true
          | Some start => MAX_CLUSTER_DURATION_MS <? sat_sub timestamp start
          end
       then
         _ ← mkv_emit ID_CLUSTER;
         _ ← mkv_emit UNKNOWN_SIZE;
         _ ← write_unsigned ID_TIMESTAMP timestamp;
         mret (Some timestamp)
       else mret cluster);
    timecode ← lift (block_timecode timestamp (unwrap_or cluster timestamp));
    (* a slice has fewer than 2^63 bytes: [4 + len] does not overflow *)
    _ ← emit_block (4 + zlen (block_bytes b)) timecode b;
    mret cluster.

(** Audio packets that start before [limit] go first. *)
Fixpoint flush_audio (limit origin : Z) (pending : list MatroskaBlock) (cluster : option Z)
    : W (list MatroskaBlock * option Z) :=
  match pending with
  | b :: rest =>
      if block_timestamp_ns b <? limit
      then cluster ← write_streaming_block b origin cluster; flush_audio limit origin rest cluster
      else mret (pending, cluster)
  | [] => mret ([], cluster)
  end.
End Writer.

(** Both audio tracks in the source's window, in time order. *)
Definition streaming_audio (origin stop : Z) (a : ReplayAudioTracks) : list MatroskaBlock :=
  sort_by_key block_timestamp_ns
    (map (fun p => Audio p 2) (in_window origin stop (snapshot_packets (system a)))
     ++ map (fun p => Audio p 3) (microphone_in_window origin stop a)).

Section Streaming.
Context (dest : destination) {Src : Type} `{ReplayPacketSource Src}.
Notation W A := (st (CountingWriter * Src) MatroskaVideoError A).

Definition mkv_stream_packet (s : ReplayVideoStream) (origin : Z) (p : EncodedReplayPacket)
    (pending : list MatroskaBlock) (cluster : option Z) (first : bool)
    : W (list MatroskaBlock * option Z) :=
  if first && negb (keyframe p) then lift (Err MkvMissingInitialKeyframe)
  else
    _ ← lift (map_err (fun _ => MkvInvalidPacket) (validate_packet s (packet_bytes p)));
    '(pending, cluster) ← on_writer (flush_audio dest (timestamp_ns p) origin pending cluster);
    cluster ← on_writer (write_streaming_block dest (Video p) origin cluster);
    mret (pending, cluster).

(** [while let Some(packet) = source.next_packet()?]; a source of n packets
    needs n + 1 units of fuel. *)
Fixpoint mkv_stream_loop (fuel : nat) (s : ReplayVideoStream) (origin : Z)
    (pending : list MatroskaBlock) (cluster : option Z) (first : bool)
    : W (list MatroskaBlock * option Z * bool) :=
  match fuel with
  | O => lift Panic
  | S fuel =>
      packet ← on_source MkvIo next_packet;
      match packet with
      | None => mret (pending, cluster, first)
      | Some p =>
          '(pending, cluster) ← mkv_stream_packet s origin p pending cluster first;
          mkv_stream_loop fuel s origin pending cluster false
      end
  end.

(** [for packet in &audio_packets[next_audio..]]. *)
Fixpoint mkv_trailing_audio (origin : Z) (pending : list MatroskaBlock) (cluster : option Z) : W unit :=
  match pending with
  | [] => mret tt
  | b :: pending =>
      _ ← on_source MkvIo check_cancel;
      cluster ← on_writer (write_streaming_block dest b origin cluster);
      mkv_trailing_audio origin pending cluster
  end.

Definition write_streaming_matroska_tracks (fuel : nat) (s : ReplayVideoStream) (a : ReplayAudioTracks)
    : W Z :=
  '(origin, stop) ← source_window;
  let audio_packets := streaming_audio origin stop a in
  _ ← on_writer (write_segment_start dest);
  duration ← lift (ok_or (checked_sub stop origin) MkvTimestampOverflow);
  _ ← on_writer (write_info dest duration);
  _ ← on_writer (match audio_packets with
                 | [] => write_tracks dest s
                 | _ => write_audio_video_tracks dest s (system a) (microphone a)
                 end);
  '(pending, cluster, first) ← mkv_stream_loop fuel s origin audio_packets None true;
  if (first : bool) then lift (Err MkvEmptyRing)
  else
    _ ← mkv_trailing_audio origin pending cluster;
    on_writer get_written.
End Streaming.
