(* ===== verification/MatroskaFacts.v ===== *)
(** EBML read back: a reference reader of elements, and what the number and
    element writers of the Matroska muxer produce for it. *)
From S2P Require Import Prelude Arith Bytes Replay ReplayRing ReplayAudio Encoder PacketSource Matroska.
Local Open Scope Z_scope.

(** * A reference reader

    An element is an identifier and its contents, [None] for the contents of an
    element of unknown size: what follows it belongs to it. *)
Definition element : Type := bytes * option bytes.

Definition widths : list Z := [1; 2; 3; 4; 5; 6; 7; 8].
(** The width of a variable-size integer is the position of its marker bit. *)
Definition marker_width (b : Z) : option Z := List.find (fun w => 2 ^ (8 - w) <=? b) widths.

Definition read_vint (bs : bytes) : option (option Z * bytes) :=
  b ← head bs;
  w ← marker_width b;
  if w <=? zlen bs
  then let v := be_val (take (Z.to_nat w) bs) - 2 ^ (7 * w) in
       Some (if v =? 2 ^ (7 * w) - 1 then None else Some v, drop (Z.to_nat w) bs)
  else None.

Definition read_id (bs : bytes) : option (bytes * bytes) :=
  b ← head bs;
  w ← marker_width b;
  if (w <=? 4) && (w <=? zlen bs) then Some (take (Z.to_nat w) bs, drop (Z.to_nat w) bs) else None.

Fixpoint read_elements (fuel : nat) (bs : bytes) : option (list element) :=
  match bs with
  | [] => Some []
  | _ =>
      match fuel with
      | O => None
      | S fuel =>
          '(id, bs) ← read_id bs;
          '(size, bs) ← read_vint bs;
          match size with
          | None => rest ← read_elements fuel bs; Some ((id, None) :: rest)
          | Some n =>
              if n <=? zlen bs
              then rest ← read_elements fuel (drop (Z.to_nat n) bs);
                   Some ((id, Some (take (Z.to_nat n) bs)) :: rest)
              else None
          end
      end
  end.

(** The bytes read back as exactly these elements. *)
Definition reads_as (bs : bytes) (l : list element) : Prop := read_elements (length bs) bs = Some l.

(** * What the writers produce *)
Definition vint (v : Z) : bytes :=
  let w := vint_width v in be_bytes (Z.to_nat w) (2 ^ (7 * w) + v).
Definition element_bytes (e : element) : bytes :=
  e.1 ++ match e.2 with Some c => vint (zlen c) ++ c | None => UNKNOWN_SIZE end.
Definition elements_bytes (l : list element) : bytes := concat (map element_bytes l).

Definition id_ok (id : bytes) : Prop :=
  exists b w, head id = Some b /\ marker_width b = Some w /\ w <= 4 /\ zlen id = w.
Definition element_ok (e : element) : Prop :=
  id_ok e.1 /\ match e.2 with Some c => zlen c <= MAX_EBML_SIZE | None => True end.

(** Walk a search through [widths] with the powers of two evaluated. *)
Ltac search_widths :=
  cbn [List.find];
  repeat match goal with
  | |- context [if ?c then _ else _] =>
      let v := eval cbv -[Z.ltb Z.leb] in c in change c with v;
      match v with
      | (?a <? ?b) => destruct (Z.ltb_spec a b)
      | (?a <=? ?b) => destruct (Z.leb_spec a b)
      end
  end.
Ltac eval_powers :=
  repeat match goal with
  | H : context [2 ^ ?e] |- _ => let v := eval vm_compute in (2 ^ e) in progress change (2 ^ e) with v in H
  | |- context [2 ^ ?e] => let v := eval vm_compute in (2 ^ e) in progress change (2 ^ e) with v
  end.
Ltac enum_width w := assert (w = 1 \/ w = 2 \/ w = 3 \/ w = 4 \/ w = 5 \/ w = 6 \/ w = 7 \/ w = 8) by lia;
  repeat match goal with H : w = _ \/ _ |- _ => destruct H as [H|H] end; subst w.

Lemma find_width_spec v :
  0 <= v <= MAX_EBML_SIZE ->
  exists w, find_width v = Some w /\ 1 <= w <= 8 /\ v < 2 ^ (7 * w) - 1
            /\ forall w', 1 <= w' < w -> 2 ^ (7 * w') - 1 <= v.
Proof.
  intros Hv. unfold MAX_EBML_SIZE in Hv. eval_powers. unfold find_width. search_widths;
    try (exfalso; lia); eexists; (split; [reflexivity|]);
    (split; [lia|]); (split; [eval_powers; lia|]); intros w' Hw'; enum_width w'; eval_powers; lia.
Qed.

Lemma marker_width_of w b :
  1 <= w <= 8 -> 2 ^ (8 - w) <= b < 2 ^ (9 - w) -> marker_width b = Some w.
Proof.
  intros Hw. unfold marker_width, widths. enum_width w; intros Hb; eval_powers; search_widths;
    try reflexivity; exfalso; lia.
Qed.

(** ** Variable-size integers *)
Lemma vint_width_find v w : find_width v = Some w -> vint_width v = w.
Proof. unfold vint_width. by intros ->. Qed.

Lemma length_vint v : 0 <= v <= MAX_EBML_SIZE -> zlen (vint v) = vint_width v.
Proof.
  intros Hv. destruct (find_width_spec v Hv) as (w & Hw & Hr & _). apply vint_width_find in Hw.
  unfold vint, zlen. rewrite Hw, length_be_bytes. lia.
Qed.

Lemma vint_bytes_Ok v bs : 0 <= v -> vint_bytes v = Ok bs <-> v <= MAX_EBML_SIZE /\ bs = vint v.
Proof.
  intros H0. unfold vint_bytes, encode_vint. destruct (Z.ltb_spec MAX_EBML_SIZE v) as [|Hle].
  { split; [done|]. intros [? _]. lia. }
  destruct (find_width_spec v ltac:(lia)) as (w & Hw & Hr & Hlt & _).
  assert (Hlor : Z.lor v (Z.shiftl 1 (7 * w)) = 2 ^ (7 * w) + v).
  { rewrite Z.shiftl_1_l, Z.lor_comm, Z.add_nocarry_lxor, Z.lxor_lor; [done| |].
    all: apply Z.bits_inj'; intros i Hi; rewrite Z.land_spec, Z.bits_0, Z.pow2_bits_eqb by lia;
      destruct (Z.eqb_spec (7 * w) i) as [<-|]; [|done]; cbn [andb];
      apply Z.bits_above_log2; [lia|]; destruct (Z.eq_dec v 0) as [->|]; [cbn; lia|];
      apply Z.log2_lt_pow2; lia. }
  rewrite Hw. cbn [ok_or mbind outcome_bind fst snd]. rewrite Hlor, drop_be_bytes by lia.
  assert (Hput : take (Z.to_nat w) (put 0 (be_bytes (Z.to_nat w) (2 ^ (7 * w) + v)) (replicate 8 0))
                 = be_bytes (Z.to_nat w) (2 ^ (7 * w) + v)).
  { pose proof (slice_put_eq 0 (Z.to_nat w) (be_bytes (Z.to_nat w) (2 ^ (7 * w) + v)) (replicate 8 0)) as Hs.
    unfold slice in Hs. rewrite drop_0 in Hs. apply Hs; [by rewrite length_be_bytes|rewrite length_be_bytes, length_replicate; lia]. }
  rewrite Hput. unfold vint. rewrite (vint_width_find _ _ Hw). split; [intros [= <-]|intros [_ ->]]; done.
Qed.

Lemma pow_256 n : 0 <= n -> 256 ^ n = 2 ^ (8 * n).
Proof. intros Hn. by rewrite Z.pow_mul_r by lia. Qed.

(** The marker bit leads, and the value follows it. *)
Lemma vint_head v :
  0 <= v <= MAX_EBML_SIZE ->
  exists b bs, vint v = b :: bs /\ marker_width b = Some (vint_width v).
Proof.
  intros Hv. destruct (find_width_spec v Hv) as (w & Hw & Hr & Hlt & _). apply vint_width_find in Hw.
  unfold vint. rewrite Hw. replace (Z.to_nat w) with (S (Z.to_nat (w - 1))) by lia. rewrite be_bytes_cons.
  eexists _, _. split; [reflexivity|]. apply marker_width_of; [done|].
  rewrite Z2Nat.id, pow_256 by lia.
  assert (Hlo : 2 ^ (8 - w) * 2 ^ (8 * (w - 1)) = 2 ^ (7 * w)) by (rewrite <- Z.pow_add_r by lia; f_equal; lia).
  assert (Hhi : 2 ^ (9 - w) * 2 ^ (8 * (w - 1)) = 2 * 2 ^ (7 * w)).
  { rewrite <- Z.pow_add_r, <- Z.pow_succ_r by lia. f_equal. lia. }
  assert (0 < 2 ^ (8 * (w - 1))) by (apply Z.pow_pos_nonneg; lia).
  assert (2 ^ (8 - w) <= (2 ^ (7 * w) + v) / 2 ^ (8 * (w - 1))) by (apply Z.div_le_lower_bound; lia).
  assert ((2 ^ (7 * w) + v) / 2 ^ (8 * (w - 1)) < 2 ^ (9 - w)) by (apply Z.div_lt_upper_bound; lia).
  assert (2 ^ (9 - w) <= 2 ^ 8) by (apply Z.pow_le_mono_r; lia).
  assert (0 < 2 ^ (8 - w)) by (apply Z.pow_pos_nonneg; lia).
  rewrite Z.mod_small by lia. lia.
Qed.

Lemma read_vint_app v rest :
  0 <= v <= MAX_EBML_SIZE -> read_vint (vint v ++ rest) = Some (Some v, rest).
Proof.
  intros Hv. destruct (vint_head v Hv) as (b & bs & Hb & Hm). pose proof (length_vint v Hv) as Hl.
  destruct (find_width_spec v Hv) as (w & Hw & Hr & Hlt & _). apply vint_width_find in Hw.
  rewrite Hw in Hl, Hm. unfold read_vint. rewrite Hb. cbn [app head mbind option_bind]. rewrite Hm.
  cbn [mbind option_bind]. change (b :: bs ++ rest) with ((b :: bs) ++ rest). rewrite <- Hb.
  rewrite zlen_app, Hl. pose proof (zlen_nonneg rest). destruct (Z.leb_spec w (w + zlen rest)); [|lia].
  unfold zlen in Hl. rewrite take_app_length', drop_app_length' by lia.
  unfold vint at 1 2. rewrite Hw. rewrite be_val_be_bytes.
  - destruct (Z.eqb_spec (2 ^ (7 * w) + v - 2 ^ (7 * w)) (2 ^ (7 * w) - 1)); [lia|]. do 3 f_equal. lia.
  - rewrite Z2Nat.id, pow_256 by lia.
    assert (2 * 2 ^ (7 * w) <= 2 ^ (8 * w)) by (rewrite <- Z.pow_succ_r by lia; apply Z.pow_le_mono_r; lia). lia.
Qed.

Lemma read_unknown rest : read_vint (UNKNOWN_SIZE ++ rest) = Some (None, rest).
Proof.
  unfold read_vint. cbn [UNKNOWN_SIZE app head mbind option_bind].
  change (marker_width 1) with (Some 8). cbn [mbind option_bind].
  rewrite !zlen_cons. pose proof (zlen_nonneg rest).
  match goal with |- context [8 <=? ?x] => destruct (Z.leb_spec 8 x); [|lia] end.
  change (take (Z.to_nat 8) _) with UNKNOWN_SIZE. change (drop (Z.to_nat 8) _) with rest.
  reflexivity.
Qed.

(** ** Unsigned integers *)
Lemma unsigned_width_bounds v : 1 <= unsigned_width v <= 8.
Proof.
  unfold unsigned_width, sat_sub, leading_zeros.
  assert (0 <= (if v =? 0 then 64 else Z.max 0 (63 - Z.log2 v)) / 8) by (apply Z.div_pos; [destruct (v =? 0); lia|lia]).
  lia.
Qed.

Lemma length_unsigned_bytes v : zlen (unsigned_bytes v) = unsigned_width v.
Proof.
  unfold unsigned_bytes, zlen. rewrite length_drop, length_be_bytes. pose proof (unsigned_width_bounds v). lia.
Qed.

(** As many bytes as the number needs, and at least one. *)
Lemma unsigned_width_spec v :
  in_range U64_MAX v ->
  v < 256 ^ unsigned_width v /\ (1 < unsigned_width v -> 256 ^ (unsigned_width v - 1) <= v).
Proof.
  unfold in_range, U64_MAX. intros Hv. pose proof (unsigned_width_bounds v) as Hb.
  rewrite !pow_256 by lia. unfold unsigned_width, sat_sub, leading_zeros in *.
  destruct (Z.eqb_spec v 0) as [->|Hnz]; [change (Z.max 1 (Z.max 0 (8 - 64 / 8))) with 1; split; [done|lia]|].
  pose proof (Z.log2_spec v ltac:(lia)) as [Hlo Hhi]. pose proof (Z.log2_nonneg v).
  assert (Z.log2 v < 64) by (apply Z.log2_lt_pow2; [lia|]; change (2 ^ 64) with 18446744073709551616; lia).
  replace (Z.max 0 (63 - Z.log2 v)) with (63 - Z.log2 v) in * by lia.
  pose proof (Z.div_mod (63 - Z.log2 v) 8 ltac:(lia)). pose proof (Z.mod_pos_bound (63 - Z.log2 v) 8 ltac:(lia)).
  split.
  - eapply Z.lt_le_trans; [exact Hhi|]. apply Z.pow_le_mono_r; lia.
  - intros Hw. eapply Z.le_trans; [|exact Hlo]. apply Z.pow_le_mono_r; lia.
Qed.

Lemma unsigned_bytes_val v : in_range U64_MAX v -> be_val (unsigned_bytes v) = v.
Proof.
  intros Hv. pose proof (unsigned_width_bounds v). destruct (unsigned_width_spec v Hv) as [Hlt _].
  unfold unsigned_bytes. rewrite drop_be_bytes by lia. apply be_val_be_bytes.
  rewrite Z2Nat.id by lia. destruct Hv. lia.
Qed.

(** ** Elements *)
Lemma read_id_app id rest : id_ok id -> read_id (id ++ rest) = Some (id, rest).
Proof.
  intros (b & w & Hh & Hm & Hw & Hl). destruct id as [|b' id]; [done|]. injection Hh as ->.
  unfold read_id. cbn [app head mbind option_bind]. rewrite Hm. cbn [mbind option_bind].
  change (b :: id ++ rest) with ((b :: id) ++ rest). rewrite zlen_app, Hl. pose proof (zlen_nonneg rest).
  destruct (Z.leb_spec w 4); [|lia]. destruct (Z.leb_spec w (w + zlen rest)); [|lia]. cbn [andb].
  unfold zlen in Hl. by rewrite take_app_length', drop_app_length' by lia.
Qed.

Lemma element_bytes_nonempty e rest : element_ok e -> exists b bs, element_bytes e ++ rest = b :: bs.
Proof.
  intros [(b & w & Hh & _) _]. unfold element_bytes. destruct e as [[|b' id] c]; [done|]. by eexists _, _.
Qed.

Lemma read_element fuel e rest :
  element_ok e ->
  read_elements (S fuel) (element_bytes e ++ rest) = (l ← read_elements fuel rest; Some (e :: l)).
Proof.
  intros He. destruct (element_bytes_nonempty e rest He) as (b & bs & Hne).
  cbn [read_elements]. rewrite Hne. rewrite <- Hne. destruct e as [id c], He as [Hid Hc].
  unfold element_bytes. cbn [fst snd] in *. rewrite <- app_assoc, read_id_app by done. cbn [mbind option_bind].
  destruct c as [c|].
  - pose proof (zlen_nonneg c). rewrite <- app_assoc, read_vint_app by done. cbn [mbind option_bind].
    rewrite zlen_app. pose proof (zlen_nonneg rest). destruct (Z.leb_spec (zlen c) (zlen c + zlen rest)); [|lia].
    by rewrite take_app_length', drop_app_length' by (unfold zlen; lia).
  - by rewrite read_unknown.
Qed.

Lemma elements_read l : Forall element_ok l -> reads_as (elements_bytes l) l.
Proof.
  intros Hl. unfold reads_as. remember (length (elements_bytes l)) as fuel eqn:Ef.
  assert (Hf : (length l <= fuel)%nat).
  { subst fuel. unfold elements_bytes. induction Hl as [|e l He Hl IH]; cbn [map concat length]; [lia|].
    destruct (element_bytes_nonempty e [] He) as (b & bs & Hb). rewrite app_nil_r in Hb.
    rewrite length_app, Hb. cbn [length]. lia. }
  clear Ef. revert fuel Hf. unfold elements_bytes.
  induction Hl as [|e l He Hl IH]; intros fuel Hf; [by destruct fuel|].
  destruct fuel as [|fuel]; [cbn in Hf; lia|]. cbn [map concat].
  rewrite read_element, IH by (done || (cbn in Hf; lia)). done.
Qed.

Lemma elements_bytes_app l1 l2 : elements_bytes (l1 ++ l2) = elements_bytes l1 ++ elements_bytes l2.
Proof. unfold elements_bytes. by rewrite map_app, concat_app. Qed.

Lemma elements_bytes_cons e l : elements_bytes (e :: l) = element_bytes e ++ elements_bytes l.
Proof. done. Qed.

(** ** Appended elements *)
Lemma append_master_Ok d id c v :
  append_master d id c = Ok v <-> zlen c <= MAX_EBML_SIZE /\ v = d ++ element_bytes (id, Some c).
Proof.
  unfold append_master. rewrite bind_Ok. setoid_rewrite vint_bytes_Ok; [|apply zlen_nonneg].
  unfold element_bytes. cbn [fst snd]. split.
  - by intros (size & [Hc ->] & [= <-]).
  - intros [Hc ->]. by eexists.
Qed.

Lemma small_vint n : 0 <= n <= 8 -> n <= MAX_EBML_SIZE.
Proof. unfold MAX_EBML_SIZE. change (2 ^ 56 - 2) with 72057594037927934. lia. Qed.

Lemma append_unsigned_Ok d id n v :
  append_unsigned d id n = Ok v <-> v = d ++ element_bytes (id, Some (unsigned_bytes n)).
Proof.
  pose proof (unsigned_width_bounds n). unfold append_unsigned. rewrite bind_Ok.
  setoid_rewrite vint_bytes_Ok; [|lia]. unfold element_bytes. cbn [fst snd]. rewrite length_unsigned_bytes. split.
  - by intros (size & [Hc ->] & [= <-]).
  - intros ->. eexists. split; [|reflexivity]. split; [apply small_vint; lia|done].
Qed.

Definition float_contents (value : SpecFloat.spec_float) : bytes := be_bytes 8 (f64_bits value).

Lemma append_float_Ok d id x v :
  append_float d id x = Ok v <-> v = d ++ element_bytes (id, Some (float_contents x)).
Proof.
  unfold append_float. rewrite bind_Ok. setoid_rewrite vint_bytes_Ok; [|lia].
  unfold element_bytes, float_contents. cbn [fst snd]. unfold zlen. rewrite length_be_bytes. split.
  - by intros (size & [Hc ->] & [= <-]).
  - intros ->. eexists. split; [|reflexivity]. split; [apply small_vint; lia|done].
Qed.

(** ** Headers *)
Definition num (id : bytes) (n : Z) : element := (id, Some (unsigned_bytes n)).
Definition str (id c : bytes) : element := (id, Some c).

Lemma num_ok id n : id_ok id -> element_ok (num id n).
Proof.
  intros Hid. split; [done|]. cbn. rewrite length_unsigned_bytes. apply small_vint.
  pose proof (unsigned_width_bounds n). lia.
Qed.
Lemma str_ok id c : id_ok id -> zlen c <= MAX_EBML_SIZE -> element_ok (str id c).
Proof. done. Qed.
Lemma float_ok id x : id_ok id -> element_ok (id, Some (float_contents x)).
Proof. intros Hid. split; [done|]. by cbn. Qed.

(** The value built so far is a list of well-formed elements. *)
Definition built (v : bytes) (l : list element) : Prop := v = elements_bytes l /\ Forall element_ok l.

Lemma built_nil : built [] [].
Proof. by split. Qed.
Lemma built_snoc v l e : built v l -> element_ok e -> built (v ++ element_bytes e) (l ++ [e]).
Proof.
  intros [-> Hl] He. split.
  - rewrite elements_bytes_app. unfold elements_bytes at 3. cbn. by rewrite app_nil_r.
  - apply Forall_app. split; [done|]. by constructor.
Qed.
Lemma built_reads v l : built v l -> reads_as v l.
Proof. intros [-> Hl]. by apply elements_read. Qed.

Lemma built_master d l id c v :
  built d l -> id_ok id -> append_master d id c = Ok v -> built v (l ++ [str id c]).
Proof. intros Hd Hid [Hc ->]%append_master_Ok. by apply built_snoc. Qed.
Lemma built_bytes d l id c v :
  built d l -> id_ok id -> append_bytes d id c = Ok v -> built v (l ++ [str id c]).
Proof. apply built_master. Qed.
Lemma built_unsigned d l id n v :
  built d l -> id_ok id -> append_unsigned d id n = Ok v -> built v (l ++ [num id n]).
Proof. intros Hd Hid ->%append_unsigned_Ok. apply built_snoc; [done|by apply num_ok]. Qed.
Lemma built_float d l id x v :
  built d l -> id_ok id -> append_float d id x = Ok v -> built v (l ++ [(id, Some (float_contents x))]).
Proof. intros Hd Hid ->%append_float_Ok. apply built_snoc; [done|by apply float_ok]. Qed.

Ltac solve_id := by (eexists _, _; split; [reflexivity|]; split; [reflexivity|]; split; [done|reflexivity]).
(** Follow a chain of [append_*] calls that begins with [built d l]. *)
Ltac follow_built :=
  repeat match goal with
  | H : _ ≫= _ = Ok _ |- _ => let v := fresh "v" in let E := fresh "E" in apply bind_Ok in H as (v & E & H)
  | Hb : built ?d _, H : append_master ?d _ _ = Ok _ |- _ => eapply built_master in H; [|exact Hb|solve_id]
  | Hb : built ?d _, H : append_bytes ?d _ _ = Ok _ |- _ => eapply built_bytes in H; [|exact Hb|solve_id]
  | Hb : built ?d _, H : append_unsigned ?d _ _ = Ok _ |- _ => eapply built_unsigned in H; [|exact Hb|solve_id]
  | Hb : built ?d _, H : append_float ?d _ _ = Ok _ |- _ => eapply built_float in H; [|exact Hb|solve_id]
  end.

Definition ebml_elements : list element :=
  [num [0x42; 0x86] 1; num [0x42; 0xf7] 1; num [0x42; 0xf2] 4; num [0x42; 0xf3] 8;
   str [0x42; 0x82] [109; 97; 116; 114; 111; 115; 107; 97]; num [0x42; 0x87] 4; num [0x42; 0x85] 2].

Lemma ebml_contents_Ok v : ebml_contents = Ok v -> built v ebml_elements.
Proof.
  intros H. unfold ebml_contents in H. pose proof built_nil. follow_built. exact H.
Qed.

Definition info_elements (duration : Z) : list element :=
  [num [0x2a; 0xd7; 0xb1] TIMESTAMP_SCALE_NS;
   (ID_DURATION, Some (float_contents (f64_div (f64_of_u64 duration) (f64_of_u64 TIMESTAMP_SCALE_NS))));
   str [0x4d; 0x80] [82; 101; 100; 117; 110; 97; 114]; str [0x57; 0x41] [82; 101; 100; 117; 110; 97; 114]].

Lemma info_contents_Ok duration v : info_contents duration = Ok v -> built v (info_elements duration).
Proof.
  intros H. unfold info_contents in H. pose proof built_nil. follow_built. exact H.
Qed.

Definition video_settings_elements (s : ReplayVideoStream) : list element :=
  [num [0xb0] (stream_width s); num [0xba] (stream_height s)].
Definition video_track_elements (s : ReplayVideoStream) : list element :=
  [num [0xd7] 1; num [0x73; 0xc5] 1; num [0x83] 1; num [0x9c] 0;
   num [0x23; 0xe3; 0x83] (1000000000 / stream_fps s); str [0x86] (matroska_codec_id (codec s))]
  ++ (if (length (codec_private s) =? 0)%nat then [] else [str [0x63; 0xa2] (codec_private s)])
  ++ [str [0xe0] (elements_bytes (video_settings_elements s))].

Lemma video_settings_Ok s v : video_settings s = Ok v -> v = elements_bytes (video_settings_elements s).
Proof.
  intros H. unfold video_settings in H. pose proof built_nil. follow_built. by destruct H.
Qed.

Definition tracks_elements (s : ReplayVideoStream) : list element :=
  [str [0xae] (elements_bytes (video_track_elements s))].

Lemma tracks_contents_Ok s v :
  tracks_contents s = Ok v ->
  built v (tracks_elements s) /\ Forall element_ok (video_track_elements s).
Proof.
  intros H. unfold tracks_contents in H. pose proof built_nil as Hnil.
  apply bind_Ok in H as (video & Ev & H). apply video_settings_Ok in Ev as ->.
  do 4 (apply bind_Ok in H as (? & ? & H)). follow_built.
  match goal with E : (if stream_fps s =? 0 then _ else _) = Ok _ |- _ => case_if_in E Efps; [done|injection E as <-] end.
  follow_built.
  match goal with E : (if (length (codec_private s) =? 0)%nat then _ else _) = Ok ?d |- _ =>
    assert (Hpriv : built d (take 6 (video_track_elements s)
        ++ (if (length (codec_private s) =? 0)%nat then [] else [str [0x63; 0xa2] (codec_private s)])));
    [case_if_in E Ep; [injection E as <-|]; follow_built; done|clear E] end.
  match goal with E : append_master _ [0xe0] _ = Ok _ |- _ =>
    eapply built_master in E; [|exact Hpriv|solve_id]; destruct E as [-> Hok] end.
  split; [exact H|exact Hok].
Qed.

Definition audio_settings_elements (a : ReplayAudioSnapshot) : list element :=
  [([0xb5], Some (float_contents (f64_of_u64 (sample_rate (snapshot_stream a)))));
   num [0x9f] (channels (snapshot_stream a))].
Definition audio_track_elements (number : Z) (name : bytes) (a : ReplayAudioSnapshot) : list element :=
  [num [0xd7] number; num [0x73; 0xc5] number; str [0x53; 0x6e] name; num [0x83] 2; num [0x9c] 0;
   num [0x56; 0xaa] 6500000; num [0x56; 0xbb] 80000000; str [0x86] [65; 95; 79; 80; 85; 83];
   str [0x63; 0xa2] (opus_codec_private (snapshot_stream a));
   str [0xe1] (elements_bytes (audio_settings_elements a))].
Definition av_video_track_elements (s : ReplayVideoStream) : list element :=
  [num [0xd7] 1; num [0x73; 0xc5] 1; num [0x83] 1; num [0x9c] 0; str [0x86] (matroska_codec_id (codec s));
   str [0x63; 0xa2] (codec_private s); str [0xe0] (elements_bytes (video_settings_elements s))].
Definition SYSTEM_AUDIO : bytes := [83; 121; 115; 116; 101; 109; 32; 97; 117; 100; 105; 111].
Definition MICROPHONE : bytes := [77; 105; 99; 114; 111; 112; 104; 111; 110; 101].
Definition av_tracks (s : ReplayVideoStream) (a : ReplayAudioSnapshot) (microphone : option ReplayAudioSnapshot)
    : list (list element) :=
  [av_video_track_elements s; audio_track_elements 2 SYSTEM_AUDIO a]
  ++ match microphone with Some m => [audio_track_elements 3 MICROPHONE m] | None => [] end.

Lemma audio_track_Ok number name a v :
  mkv_audio_track number name a = Ok v -> built v (audio_track_elements number name a).
Proof.
  intros H. unfold mkv_audio_track in H. pose proof built_nil as Hnil.
  apply bind_Ok in H as (s1 & E1 & H). apply bind_Ok in H as (s2 & E2 & H).
  eapply built_float in E1; [|exact Hnil|solve_id]. eapply built_unsigned in E2; [|exact E1|solve_id].
  destruct E2 as [-> _]. clear E1. follow_built. exact H.
Qed.

Lemma audio_video_tracks_Ok s a microphone v :
  audio_video_tracks_contents s a microphone = Ok v ->
  built v (map (fun t => str [0xae] (elements_bytes t)) (av_tracks s a microphone))
  /\ Forall (Forall element_ok) (av_tracks s a microphone).
Proof.
  intros H. unfold audio_video_tracks_contents in H. pose proof built_nil as Hnil.
  apply bind_Ok in H as (video & Ev & H). apply video_settings_Ok in Ev as ->.
  apply bind_Ok in H as (v1 & E1 & H). apply bind_Ok in H as (v2 & E2 & H). apply bind_Ok in H as (v3 & E3 & H).
  apply bind_Ok in H as (v4 & E4 & H). apply bind_Ok in H as (v5 & E5 & H). apply bind_Ok in H as (v6 & E6 & H).
  apply bind_Ok in H as (vt & E7 & H). apply bind_Ok in H as (st & E8 & H).
  apply bind_Ok in H as (t1 & E9 & H). apply bind_Ok in H as (t2 & E10 & H).
  apply audio_track_Ok in E8 as [-> Hs].
  eapply built_unsigned in E1; [|exact Hnil|solve_id]. eapply built_unsigned in E2; [|exact E1|solve_id].
  eapply built_unsigned in E3; [|exact E2|solve_id]. eapply built_unsigned in E4; [|exact E3|solve_id].
  eapply built_bytes in E5; [|exact E4|solve_id]. eapply built_bytes in E6; [|exact E5|solve_id].
  eapply built_master in E7; [|exact E6|solve_id]. destruct E7 as [-> Hv].
  eapply built_master in E9; [|exact Hnil|solve_id]. eapply built_master in E10; [|exact E9|solve_id].
  unfold av_tracks. destruct microphone as [m|].
  - apply bind_Ok in H as (t3 & E11 & H). apply audio_track_Ok in E11 as [-> Hm].
    eapply built_master in H; [|exact E10|solve_id]. split; [exact H|].
    repeat (apply Forall_cons; split; [assumption|]). constructor.
  - injection H as <-. split; [exact E10|]. repeat (apply Forall_cons; split; [assumption|]). constructor.
Qed.

(** EBML numbers round trip.  A size is refused exactly when it is beyond
    [MAX_EBML_SIZE]; otherwise the first [w] bytes are the size in the smallest
    width that does not collide with the reserved unknown size, and a reader
    gets the size and the rest back.  An unsigned value is written in as few
    bytes as hold it (at least one) and reads back as itself. *)
Theorem ebml_numbers_roundtrip v rest (Hv : in_range U64_MAX v) :
  match encode_vint v with
  | Ok (bs, w) =>
      v <= MAX_EBML_SIZE /\ length bs = 8%nat /\ (1 <= w <= 8)%nat
      /\ read_vint (take w bs ++ rest) = Some (Some v, rest)
      /\ forall w', 1 <= w' < Z.of_nat w -> 2 ^ (7 * w') - 1 <= v
  | Err e => e = MkvContainerTooLarge /\ MAX_EBML_SIZE < v
  | Panic => False
  end
  /\ be_val (unsigned_bytes v) = v
  /\ (1 < zlen (unsigned_bytes v) -> 256 ^ (zlen (unsigned_bytes v) - 1) <= v).
Proof.
  destruct Hv as [H0 HM]. split; [|split].
  2: by apply unsigned_bytes_val.
  2: { rewrite length_unsigned_bytes. by apply unsigned_width_spec. }
  pose proof (vint_bytes_Ok v (vint v) H0) as Hbytes. unfold vint_bytes in Hbytes. unfold encode_vint in *.
  destruct (Z.ltb_spec MAX_EBML_SIZE v) as [|Hle]; [done|].
  destruct (find_width_spec v ltac:(lia)) as (w & Hw & Hr & Hlt & Hmin). rewrite Hw in *.
  cbn [ok_or mbind outcome_bind fst snd] in *. destruct Hbytes as [_ Hbytes].
  specialize (Hbytes (conj Hle eq_refl)). injection Hbytes as Hbytes.
  change [0; 0; 0; 0; 0; 0; 0; 0] with (replicate 8 0) in Hbytes. rewrite Hbytes.
  splits; [done|by rewrite length_put, length_replicate|lia|lia|apply read_vint_app; lia|].
  intros w' Hw'. apply Hmin. lia.
Qed.

Lemma ebml_numbers_roundtrip_witness :
  in_range U64_MAX 16383 /\ read_vint ([0x20; 0x3f; 0xff] ++ [7]) = Some (Some 16383, [7]).
Proof.
  assert (H : in_range U64_MAX 16383) by (split; vm_compute; discriminate).
  split; [exact H|]. exact (proj1 (proj2 (proj2 (proj2 (proj1 (ebml_numbers_roundtrip 16383 [7] H)))))).
Defined.
