(* ===== verification/MatroskaFiles.v ===== *)
(** What the Matroska writers put in a file: the reference reader finds the
    headers, and clusters of blocks that hold the clip. *)
From stdpp Require Import sorting.
From S2P Require Import Prelude Arith Bytes Replay ReplayRing ReplayAudio PacketSource Encoder SampleClip Matroska MatroskaFacts.
Local Open Scope Z_scope.

(** * Clusters as elements *)
Definition ms_of (origin : Z) (b : MatroskaBlock) : Z := (block_timestamp_ns b - origin) / TIMESTAMP_SCALE_NS.
Definition block_element (origin start : Z) (b : MatroskaBlock) : element :=
  (ID_SIMPLE_BLOCK,
   Some (track_byte b :: be_bytes 2 (ms_of origin b - start) ++ block_flags b :: block_bytes b)).
Definition cluster_start (origin : Z) (bs : list MatroskaBlock) : Z :=
  match bs with b :: _ => ms_of origin b | [] => 0 end.
Definition cluster_elements (origin : Z) (bs : list MatroskaBlock) : list element :=
  num ID_TIMESTAMP (cluster_start origin bs) :: map (block_element origin (cluster_start origin bs)) bs.

(** A block belongs to a cluster that starts at [start] when its timecode is
    between 0 and 30 seconds. *)
Definition in_cluster (origin start : Z) (b : MatroskaBlock) : Prop :=
  origin <= block_timestamp_ns b /\ 0 <= ms_of origin b - start <= MAX_CLUSTER_DURATION_MS.

(** Clusters are not empty, hold blocks of at most 30 seconds, and a new one is
    opened only for a block that does not fit the one before. *)
Fixpoint well_clustered (origin : Z) (chunks : list (list MatroskaBlock)) : Prop :=
  match chunks with
  | [] => True
  | c :: rest =>
      c <> [] /\ Forall (in_cluster origin (cluster_start origin c)) c
      /\ match rest with
         | next :: _ => MAX_CLUSTER_DURATION_MS < cluster_start origin next - cluster_start origin c
         | [] => True
         end
      /\ well_clustered origin rest
  end.

Lemma relative_milliseconds_Ok ts origin ms :
  relative_milliseconds ts origin = Ok ms <-> origin <= ts /\ ms = (ts - origin) / TIMESTAMP_SCALE_NS.
Proof.
  unfold relative_milliseconds, checked_sub. destruct (Z.leb_spec origin ts); cbn [option_map ok_or].
  - split; [intros [= <-]; done|by intros [_ ->]].
  - split; [done|lia].
Qed.

Lemma block_timecode_Ok ms start t :
  block_timecode ms start = Ok t -> 0 <= ms - start <= I16_MAX /\ t = ms - start.
Proof.
  unfold block_timecode, checked_sub, try_from. destruct (Z.leb_spec start ms); [|done].
  destruct (Z.leb_spec (ms - start) I16_MAX); [|done]. intros [= <-]. lia.
Qed.

Lemma zlen_block_contents origin start b :
  zlen (track_byte b :: be_bytes 2 (ms_of origin b - start) ++ block_flags b :: block_bytes b)
  = 4 + zlen (block_bytes b).
Proof. rewrite zlen_cons, zlen_app, zlen_cons. unfold zlen. rewrite length_be_bytes. lia. Qed.

(** * Writing *)
Section Write.
Context (dest : destination).

Lemma mkv_emit_Ok chunk w w' : mkv_emit dest chunk w = (w', Ok tt) -> wrote w chunk w'.
Proof. apply write_all_Ok. Qed.

Lemma write_master_header_Ok id n w w' :
  0 <= n -> write_master_header dest id n w = (w', Ok tt) -> n <= MAX_EBML_SIZE /\ wrote w (id ++ vint n) w'.
Proof.
  intros Hn. unfold write_master_header. rewrite st_bind_Ok. intros (w1 & [] & H1%mkv_emit_Ok & H).
  apply st_bind_Ok in H as (w2 & size & H2 & H). apply lift_Ok in H2 as [-> H2].
  apply vint_bytes_Ok in H2 as [Hle ->]; [|done]. apply mkv_emit_Ok in H. split; [done|]. by eapply wrote_trans.
Qed.

Lemma write_element_Ok id c w w' :
  write_element dest id c w = (w', Ok tt) -> zlen c <= MAX_EBML_SIZE /\ wrote w (element_bytes (str id c)) w'.
Proof.
  unfold write_element. rewrite st_bind_Ok. intros (w1 & [] & [Hc H1]%write_master_header_Ok & H%mkv_emit_Ok);
    [|apply zlen_nonneg].
  split; [done|]. unfold element_bytes, str. cbn [fst snd]. rewrite app_assoc. by eapply wrote_trans.
Qed.

Lemma write_unsigned_Ok id n w w' :
  write_unsigned dest id n w = (w', Ok tt) -> wrote w (element_bytes (num id n)) w'.
Proof.
  unfold write_unsigned. rewrite st_bind_Ok. intros (w1 & [] & H1%mkv_emit_Ok & H).
  apply st_bind_Ok in H as (w2 & size & H2 & H). apply lift_Ok in H2 as [-> H2].
  apply st_bind_Ok in H as (w3 & [] & H3%mkv_emit_Ok & H4%mkv_emit_Ok).
  apply vint_bytes_Ok in H2 as [_ ->]; [|pose proof (unsigned_width_bounds n); lia].
  unfold element_bytes, num. cbn [fst snd]. rewrite length_unsigned_bytes.
  eapply wrote_trans; [exact H1|]. by eapply wrote_trans.
Qed.

Lemma emit_block_Ok origin start b w w' :
  emit_block dest (4 + zlen (block_bytes b)) (ms_of origin b - start) b w = (w', Ok tt) ->
  element_ok (block_element origin start b) /\ wrote w (element_bytes (block_element origin start b)) w'.
Proof.
  unfold emit_block. rewrite st_bind_Ok. pose proof (zlen_nonneg (block_bytes b)) as Hpos.
  intros (w1 & [] & [Hle H1]%write_master_header_Ok & H); [|lia].
  apply st_bind_Ok in H as (w2 & [] & H2%mkv_emit_Ok & H). apply st_bind_Ok in H as (w3 & [] & H3%mkv_emit_Ok & H).
  apply st_bind_Ok in H as (w4 & [] & H4%mkv_emit_Ok & H5%mkv_emit_Ok).
  pose proof (zlen_block_contents origin start b) as Hlen. split.
  - split; [solve_id|]. cbn [block_element snd]. by rewrite Hlen.
  - unfold element_bytes. cbn [block_element fst snd]. rewrite Hlen, app_assoc.
    eapply wrote_trans; [exact H1|]. eapply (wrote_trans _ [_]); [exact H2|].
    eapply wrote_trans; [exact H3|]. by eapply (wrote_trans _ [_]).
Qed.

(** How the ring writers measure a block's payload. *)
Definition payload_spec (payload : bytes -> outcome MatroskaVideoError Z) : Prop :=
  forall bs n, payload bs = Ok n -> 0 <= n /\ (n <= MAX_EBML_SIZE -> n = 4 + zlen bs).

Lemma checked_payload_spec : payload_spec checked_payload.
Proof.
  intros bs n. unfold checked_payload, checked_add, unwrap_or, try_from. pose proof (zlen_nonneg bs).
  destruct (Z.leb_spec (zlen bs) U64_MAX); cbn [default].
  - match goal with |- context [if ?a <=? ?b then _ else _] => destruct (Z.leb_spec a b) end; [|done].
    intros [= <-]. split; lia.
  - done.
Qed.

Lemma saturating_payload_spec : payload_spec saturating_payload.
Proof.
  intros bs n. unfold saturating_payload, unwrap_or, try_from, sat_add. pose proof (zlen_nonneg bs).
  assert (MAX_EBML_SIZE < U64_MAX) by done. assert (0 < U64_MAX) by done.
  destruct (Z.leb_spec (zlen bs) U64_MAX); cbn [default]; intros [= <-]; split; lia.
Qed.

Lemma write_block_Ok payload origin start b w w' :
  payload_spec payload ->
  write_block dest payload origin start b w = (w', Ok tt) ->
  origin <= block_timestamp_ns b /\ 0 <= ms_of origin b - start
  /\ element_ok (block_element origin start b) /\ wrote w (element_bytes (block_element origin start b)) w'.
Proof.
  intros Hp. unfold write_block. rewrite st_bind_Ok. intros (w1 & ms & H1 & H). apply lift_Ok in H1 as [-> H1].
  apply relative_milliseconds_Ok in H1 as [Ho ->]. fold (ms_of origin b) in H.
  apply st_bind_Ok in H as (w2 & t & H2 & H). apply lift_Ok in H2 as [-> H2]. apply block_timecode_Ok in H2 as [Ht ->].
  apply st_bind_Ok in H as (w3 & n & H3 & H). apply lift_Ok in H3 as [-> H3]. apply Hp in H3 as [Hn H3].
  assert (Hle : n <= MAX_EBML_SIZE).
  { unfold emit_block in H. apply st_bind_Ok in H as (w4 & [] & H4 & _). by apply write_master_header_Ok in H4 as [? _]. }
  specialize (H3 Hle) as ->. apply emit_block_Ok in H as [Hok Hw]. splits; [done|lia|done|done].
Qed.

Lemma write_blocks_Ok payload origin start bs w w' :
  payload_spec payload -> written w <= U64_MAX ->
  write_blocks dest payload origin start bs w = (w', Ok tt) ->
  Forall (fun b => origin <= block_timestamp_ns b /\ 0 <= ms_of origin b - start) bs
  /\ Forall element_ok (map (block_element origin start) bs)
  /\ wrote w (elements_bytes (map (block_element origin start) bs)) w'.
Proof.
  intros Hp. revert w. induction bs as [|b bs IH]; intros w Hw; cbn [write_blocks map].
  - intros [= <-]. splits; [constructor..|]. by apply wrote_nil.
  - rewrite st_bind_Ok. intros (w1 & [] & H1 & H). apply write_block_Ok in H1 as (H1a & H1b & H1c & H1d); [|done].
    apply IH in H as (H2a & H2b & H2c); [|destruct H1d as [_ ->]; lia].
    splits; [by constructor|by constructor|]. rewrite elements_bytes_cons. by eapply wrote_trans.
Qed.
End Write.

(** ** The measured size of a cluster *)
Lemma zlen_element id c :
  zlen c <= MAX_EBML_SIZE -> zlen (element_bytes (str id c)) = zlen id + vint_width (zlen c) + zlen c.
Proof.
  intros Hc. pose proof (zlen_nonneg c). unfold element_bytes, str. cbn [fst snd].
  rewrite !zlen_app, length_vint by done. lia.
Qed.

Lemma vint_width_bounds v : 0 <= v <= MAX_EBML_SIZE -> 1 <= vint_width v <= 8.
Proof. intros Hv. destruct (find_width_spec v Hv) as (w & Hw & Hr & _). by rewrite (vint_width_find _ _ Hw). Qed.

Lemma element_size_exact id n :
  0 <= n <= MAX_EBML_SIZE -> zlen id <= 4 -> element_size id n = zlen id + vint_width n + n.
Proof.
  intros Hn Hid. pose proof (vint_width_bounds n Hn). pose proof (zlen_nonneg id).
  unfold element_size, sat_add. assert (MAX_EBML_SIZE + 12 < U64_MAX) by done. lia.
Qed.

Lemma element_size_large id n : MAX_EBML_SIZE < n -> MAX_EBML_SIZE < element_size id n.
Proof.
  intros Hn. unfold element_size, sat_add. pose proof (zlen_nonneg id).
  assert (0 <= vint_width n).
  { unfold vint_width, find_width. search_widths; cbn; lia. }
  assert (0 < MAX_EBML_SIZE < U64_MAX) by done. lia.
Qed.

Lemma content_size_steps payload origin start bs total n :
  payload_spec payload -> 0 <= total ->
  for_each (fun total b =>
      size ← payload (block_bytes b);
      ok_or (checked_add U64_MAX total (element_size ID_SIMPLE_BLOCK size)) MkvContainerTooLarge) bs total = Ok n ->
  n <= MAX_EBML_SIZE ->
  total <= n /\ n = total + zlen (elements_bytes (map (block_element origin start) bs)).
Proof.
  intros Hp. revert total. induction bs as [|b bs IH]; intros total Ht; cbn [for_each map].
  - intros [= <-] _. unfold elements_bytes. cbn. unfold zlen. cbn. lia.
  - intros (t' & H1 & H)%bind_Ok Hn. apply bind_Ok in H1 as (size & H1 & H2).
    apply Hp in H1 as [Hs0 Hs]. apply ok_or_Ok, checked_add_Some in H2 as [Hle ->].
    assert (Hsize : 0 <= element_size ID_SIMPLE_BLOCK size).
    { unfold element_size, sat_add. pose proof (zlen_nonneg ID_SIMPLE_BLOCK).
      assert (0 <= vint_width size) by (unfold vint_width, find_width; search_widths; cbn; lia).
      assert (0 < U64_MAX) by done. lia. }
    apply IH in H as [Hmono H]; [|lia|done].
    assert (Hmax : size <= MAX_EBML_SIZE).
    { destruct (Z.le_gt_cases size MAX_EBML_SIZE) as [|Hgt]; [done|].
      apply (element_size_large ID_SIMPLE_BLOCK) in Hgt. lia. }
    specialize (Hs Hmax). split; [lia|]. rewrite H, elements_bytes_cons, zlen_app.
    rewrite element_size_exact by (lia || done). unfold block_element at 2.
    change (ID_SIMPLE_BLOCK, Some ?c) with (str ID_SIMPLE_BLOCK c).
    rewrite zlen_element; rewrite zlen_block_contents, <- Hs; lia.
Qed.

Lemma cluster_content_size_Ok payload origin start bs n :
  payload_spec payload -> cluster_content_size payload start bs = Ok n -> n <= MAX_EBML_SIZE ->
  n = zlen (elements_bytes (num ID_TIMESTAMP start :: map (block_element origin start) bs)).
Proof.
  intros Hp H Hn. pose proof (unsigned_width_bounds start) as Hw.
  unfold cluster_content_size in H. rewrite element_size_exact in H by (done || (split; [lia|apply small_vint; lia])).
  rewrite <- length_unsigned_bytes in H, Hw.
  rewrite <- zlen_element in H by (apply small_vint; lia).
  eapply (content_size_steps payload origin start) in H as [_ H]; [|done|apply zlen_nonneg|done].
  rewrite H, elements_bytes_cons, zlen_app. reflexivity.
Qed.

Definition cluster_element (origin : Z) (bs : list MatroskaBlock) : element :=
  str ID_CLUSTER (elements_bytes (cluster_elements origin bs)).

Lemma write_cluster_with_Ok dest payload origin bs w w' :
  payload_spec payload -> written w <= U64_MAX ->
  write_cluster_with dest payload bs origin (cluster_start origin bs) w = (w', Ok tt) ->
  Forall (fun b => origin <= block_timestamp_ns b /\ 0 <= ms_of origin b - cluster_start origin bs) bs
  /\ Forall element_ok (cluster_elements origin bs) /\ element_ok (cluster_element origin bs)
  /\ wrote w (element_bytes (cluster_element origin bs)) w'.
Proof.
  intros Hp Hw. unfold write_cluster_with. rewrite st_bind_Ok. intros (w1 & n & H1 & H).
  apply lift_Ok in H1 as [-> H1]. apply st_bind_Ok in H as (w2 & [] & H2 & H).
  apply st_bind_Ok in H as (w3 & [] & H3%write_unsigned_Ok & H4).
  assert (Hn0 : 0 <= n).
  { unfold cluster_content_size in H1.
    assert (Hstart : 0 <= element_size ID_TIMESTAMP (unsigned_width (cluster_start origin bs))).
    { pose proof (unsigned_width_bounds (cluster_start origin bs)).
      rewrite element_size_exact by (done || (split; [lia|apply small_vint; lia])).
      pose proof (vint_width_bounds (unsigned_width (cluster_start origin bs)) ltac:(split; [lia|apply small_vint; lia])).
      pose proof (zlen_nonneg ID_TIMESTAMP). lia. }
    destruct (Z.le_gt_cases n MAX_EBML_SIZE) as [Hn|Hn]; [|unfold MAX_EBML_SIZE in Hn; lia].
    eapply (content_size_steps payload origin 0) in H1 as [? _]; [|done..]. lia. }
  apply write_master_header_Ok in H2 as [Hn H2]; [|done].
  apply (cluster_content_size_Ok payload origin) in H1; [|done..].
  fold (cluster_elements origin bs) in H1.
  apply write_blocks_Ok in H4 as (Hin & Hok & H4); [|done|destruct H3 as [_ ->]; lia].
  splits; [done|constructor; [apply num_ok; solve_id|done]|split; [solve_id|]; change (zlen (elements_bytes (cluster_elements origin bs)) <= MAX_EBML_SIZE); lia|].
  unfold element_bytes, cluster_element, str. cbn [fst snd]. rewrite <- H1, app_assoc.
  eapply wrote_trans; [exact H2|]. unfold cluster_elements. rewrite elements_bytes_cons.
  by eapply wrote_trans.
Qed.

(** ** Loops over clusters *)
Lemma cluster_advance_Ok origin start ps n :
  cluster_advance origin start ps = Ok n ->
  Forall (fun p => ms_of origin (Video p) - start <= MAX_CLUSTER_DURATION_MS) (take n ps)
  /\ match drop n ps with
     | p :: _ => MAX_CLUSTER_DURATION_MS < ms_of origin (Video p) - start
     | [] => True
     end.
Proof.
  revert n. induction ps as [|p ps IH]; intros n; cbn [cluster_advance]; [by intros [= <-]|].
  intros (ms & [Ho ->]%relative_milliseconds_Ok & H)%bind_Ok.
  change (timestamp_ns p) with (block_timestamp_ns (Video p)) in H. fold (ms_of origin (Video p)) in H.
  apply bind_Ok in H as (r & Hr & H). apply ok_or_Ok, checked_sub_Some in Hr as [Hs ->].
  assert (MAX_CLUSTER_DURATION_MS < I16_MAX) by done. case_if_in H E.
  - injection H as <-. cbn [take drop]. split; [constructor|].
    apply orb_true_iff in E as [E|E]; apply Z.ltb_lt in E; lia.
  - apply bind_Ok in H as (m & Hm & [= <-]). apply IH in Hm as [H1 H2]. cbn [take drop]. split; [|done].
    apply orb_false_iff in E as [E _]. apply Z.ltb_ge in E. by constructor.
Qed.

Lemma av_cluster_advance_Ok origin start bs n :
  av_cluster_advance origin start bs = Ok n ->
  Forall (fun b => ms_of origin b - start <= MAX_CLUSTER_DURATION_MS) (take n bs)
  /\ match drop n bs with
     | b :: _ => MAX_CLUSTER_DURATION_MS < ms_of origin b - start
     | [] => True
     end.
Proof.
  revert n. induction bs as [|b bs IH]; intros n; cbn [av_cluster_advance]; [by intros [= <-]|].
  intros (ms & [Ho ->]%relative_milliseconds_Ok & H)%bind_Ok. fold (ms_of origin b) in H.
  assert (0 < MAX_CLUSTER_DURATION_MS) by done. unfold sat_sub in H. case_if_in H E.
  - apply bind_Ok in H as (m & Hm & [= <-]). apply IH in Hm as [H1 H2]. cbn [take drop]. split; [|done].
    apply Z.leb_le in E. constructor; [lia|done].
  - injection H as <-. cbn [take drop]. split; [constructor|]. apply Z.leb_gt in E. lia.
Qed.

(** What a run over the clusters [chunks] leaves in the file. *)
Record clusters_written (origin : Z) (w w' : CountingWriter) (chunks : list (list MatroskaBlock)) : Prop := {
  cw_shape : well_clustered origin chunks;
  cw_ok : Forall (fun c => Forall element_ok (cluster_elements origin c) /\ element_ok (cluster_element origin c)) chunks;
  cw_wrote : wrote w (elements_bytes (map (cluster_element origin) chunks)) w';
}.

Lemma clusters_written_nil origin w : written w <= U64_MAX -> clusters_written origin w w [].
Proof. intros Hw. split; [done|constructor|by apply wrote_nil]. Qed.

Lemma clusters_written_cons dest payload origin b bs rest w w1 w' chunks :
  payload_spec payload -> written w <= U64_MAX ->
  write_cluster_with dest payload (b :: bs) origin (ms_of origin b) w = (w1, Ok tt) ->
  Forall (fun b' => ms_of origin b' - ms_of origin b <= MAX_CLUSTER_DURATION_MS) bs ->
  match rest with b' :: _ => MAX_CLUSTER_DURATION_MS < ms_of origin b' - ms_of origin b | [] => True end ->
  concat chunks = rest -> clusters_written origin w1 w' chunks ->
  clusters_written origin w w' ((b :: bs) :: chunks).
Proof.
  intros Hp Hw Hwrite Hfit Hnext Hcat [Hshape Hok Hrest].
  change (ms_of origin b) with (cluster_start origin (b :: bs)) in Hwrite.
  apply write_cluster_with_Ok in Hwrite as (Hin & Hels & Hel & Hwrote); [|done..]. split.
  - cbn [well_clustered]. splits; [done| | |done].
    + apply Forall_cons in Hin as [[Ho H0] Hin]. apply Forall_cons. split.
      * cbn [cluster_start] in *. split; [done|]. assert (0 < MAX_CLUSTER_DURATION_MS) by done. lia.
      * rewrite Forall_forall in Hin, Hfit |- *. intros b' Hb'. destruct (Hin b' Hb') as [? ?].
        specialize (Hfit b' Hb'). cbn [cluster_start] in *. split; [done|lia].
    + destruct chunks as [|[|b' c] chunks]; [done|by destruct Hshape|]. cbn in Hcat. by subst rest.
  - by constructor.
  - cbn [map]. rewrite elements_bytes_cons. by eapply wrote_trans.
Qed.

Lemma wrote_bound w c w' : wrote w c w' -> written w' <= U64_MAX.
Proof. intros [_ ->]. lia. Qed.

Lemma write_cluster_with_bound dest payload bs origin start w w' :
  payload_spec payload -> write_cluster_with dest payload bs origin start w = (w', Ok tt) ->
  written w <= U64_MAX -> written w' <= U64_MAX.
Proof.
  intros Hp H Hw. unfold write_cluster_with in H. apply st_bind_Ok in H as (w1 & n & H1 & H).
  apply lift_Ok in H1 as [-> _]. apply st_bind_Ok in H as (w2 & [] & H2 & H).
  apply st_bind_Ok in H as (w3 & [] & H3%write_unsigned_Ok%wrote_bound & H4).
  by apply write_blocks_Ok in H4 as (_ & _ & H4%wrote_bound).
Qed.

Lemma mkv_clusters_loop_Ok dest fuel origin clusters ps w w' n :
  written w <= U64_MAX ->
  mkv_clusters_loop dest fuel origin clusters ps w = (w', Ok n) ->
  exists chunks, concat chunks = map Video ps /\ clusters_written origin w w' chunks
  /\ (clusters <= U32_MAX -> n = Z.min U32_MAX (clusters + zlen chunks)).
Proof.
  revert clusters ps w. induction fuel as [|fuel IH]; intros clusters [|p rest] w Hw; cbn [mkv_clusters_loop].
  1,3: intros [= <- <-]; exists []; split; [done|]; split; [by apply clusters_written_nil|]; rewrite zlen_nil; lia.
  1: done.
  rewrite st_bind_Ok. intros (w1 & ms & H1 & H). apply lift_Ok in H1 as [-> H1].
  apply relative_milliseconds_Ok in H1 as [Ho ->].
  change ((timestamp_ns p - origin) / TIMESTAMP_SCALE_NS) with (ms_of origin (Video p)) in H.
  apply st_bind_Ok in H as (w2 & m & H2 & H). apply lift_Ok in H2 as [-> H2]. apply cluster_advance_Ok in H2 as [Hfit Hnext].
  apply st_bind_Ok in H as (w3 & [] & H3 & H). cbn [take drop] in H, H3. unfold write_cluster in H3. cbn [map] in H3.
  pose proof (write_cluster_with_bound _ _ _ _ _ _ _ checked_payload_spec H3 Hw) as Hw3.
  apply IH in H as (chunks & Hcat & Hwritten & Hn); [|done].
  exists ((Video p :: map Video (take m rest)) :: chunks). splits.
  - cbn [concat]. rewrite Hcat. cbn [app map]. by rewrite <- map_app, take_drop.
  - eapply (clusters_written_cons dest checked_payload _ _ _ (map Video (drop m rest))); [apply checked_payload_spec|done|exact H3| |by destruct (drop m rest)|done|done].
    apply Forall_map. exact Hfit.
  - intros Hc. rewrite Hn, zlen_cons by (unfold sat_add; lia). unfold sat_add. pose proof (zlen_nonneg chunks). lia.
Qed.

Lemma av_clusters_loop_Ok dest fuel origin clusters bs w w' n :
  written w <= U64_MAX ->
  av_clusters_loop dest fuel origin clusters bs w = (w', Ok n) ->
  exists chunks, concat chunks = bs /\ clusters_written origin w w' chunks
  /\ (clusters <= U32_MAX -> n = Z.min U32_MAX (clusters + zlen chunks)).
Proof.
  revert clusters bs w. induction fuel as [|fuel IH]; intros clusters [|b rest] w Hw; cbn [av_clusters_loop].
  1,3: intros [= <- <-]; exists []; split; [done|]; split; [by apply clusters_written_nil|]; rewrite zlen_nil; lia.
  1: done.
  rewrite st_bind_Ok. intros (w1 & ms & H1 & H). apply lift_Ok in H1 as [-> H1].
  apply relative_milliseconds_Ok in H1 as [Ho ->]. fold (ms_of origin b) in H.
  apply st_bind_Ok in H as (w2 & m & H2 & H). apply lift_Ok in H2 as [-> H2]. apply av_cluster_advance_Ok in H2 as [Hfit Hnext].
  apply st_bind_Ok in H as (w3 & [] & H3 & H). cbn [take drop] in H, H3. unfold write_av_cluster in H3.
  pose proof (write_cluster_with_bound _ _ _ _ _ _ _ saturating_payload_spec H3 Hw) as Hw3.
  apply IH in H as (chunks & Hcat & Hwritten & Hn); [|done].
  exists ((b :: take m rest) :: chunks). splits.
  - cbn [concat]. rewrite Hcat. cbn [app]. by rewrite take_drop.
  - by eapply (clusters_written_cons dest saturating_payload _ _ _ (drop m rest)); [apply saturating_payload_spec|..].
  - intros Hc. rewrite Hn, zlen_cons by (unfold sat_add; lia). unfold sat_add. pose proof (zlen_nonneg chunks). lia.
Qed.

(** ** The file around the clusters *)
Definition track_entries (tracks : list (list element)) : list element :=
  map (fun t => str [0xae] (elements_bytes t)) tracks.
Definition header_elements (duration : Z) (tracks : list (list element)) : list element :=
  [str ID_EBML (elements_bytes ebml_elements); (ID_SEGMENT, None);
   str ID_INFO (elements_bytes (info_elements duration)); str ID_TRACKS (elements_bytes (track_entries tracks))].

(** Behind what the destination held, a file that reads as the headers and
    [body], and whose header elements read as their fields. *)
Record mkv_file (old final : bytes) (duration : Z) (tracks : list (list element)) (body : list element) : Prop := {
  file_reads : exists file, final = old ++ file /\ reads_as file (header_elements duration tracks ++ body);
  ebml_reads : reads_as (elements_bytes ebml_elements) ebml_elements;
  info_reads : reads_as (elements_bytes (info_elements duration)) (info_elements duration);
  tracks_read : reads_as (elements_bytes (track_entries tracks)) (track_entries tracks);
  track_reads : Forall (fun t => reads_as (elements_bytes t) t) tracks;
}.

Lemma write_segment_start_Ok dest w w' :
  write_segment_start dest w = (w', Ok tt) ->
  element_ok (str ID_EBML (elements_bytes ebml_elements)) /\ reads_as (elements_bytes ebml_elements) ebml_elements
  /\ wrote w (elements_bytes [str ID_EBML (elements_bytes ebml_elements); (ID_SEGMENT, None)]) w'.
Proof.
  unfold write_segment_start, write_ebml_header. rewrite st_bind_Ok. intros (w1 & [] & H1 & H).
  apply st_bind_Ok in H1 as (w0 & c & H0 & H1). apply lift_Ok in H0 as [-> [-> Hok]%ebml_contents_Ok].
  apply write_element_Ok in H1 as [Hc H1]. apply st_bind_Ok in H as (w2 & [] & H2%mkv_emit_Ok & H3%mkv_emit_Ok).
  splits; [split; [solve_id|done]|by apply elements_read|].
  rewrite !elements_bytes_cons. eapply wrote_trans; [exact H1|]. change (elements_bytes []) with (@nil Z).
  rewrite app_nil_r. unfold element_bytes at 1. cbn [fst snd]. by eapply wrote_trans.
Qed.

Lemma write_info_Ok dest duration w w' :
  write_info dest duration w = (w', Ok tt) ->
  element_ok (str ID_INFO (elements_bytes (info_elements duration)))
  /\ reads_as (elements_bytes (info_elements duration)) (info_elements duration)
  /\ wrote w (element_bytes (str ID_INFO (elements_bytes (info_elements duration)))) w'.
Proof.
  unfold write_info. rewrite st_bind_Ok. intros (w1 & c & H1 & H). apply lift_Ok in H1 as [-> [-> Hok]%info_contents_Ok].
  apply write_element_Ok in H as [Hc H]. splits; [split; [solve_id|done]|by apply elements_read|done].
Qed.

(** What both track writers leave. *)
Definition tracks_ok (tracks : list (list element)) (w w' : CountingWriter) : Prop :=
  element_ok (str ID_TRACKS (elements_bytes (track_entries tracks)))
  /\ reads_as (elements_bytes (track_entries tracks)) (track_entries tracks)
  /\ Forall (fun t => reads_as (elements_bytes t) t) tracks
  /\ wrote w (element_bytes (str ID_TRACKS (elements_bytes (track_entries tracks)))) w'.

Lemma tracks_written dest tracks contents w w' :
  built contents (track_entries tracks) -> Forall (Forall element_ok) tracks ->
  write_element dest ID_TRACKS contents w = (w', Ok tt) -> tracks_ok tracks w w'.
Proof.
  intros [-> Hok] Ht H. apply write_element_Ok in H as [Hc H].
  split; [split; [solve_id|done]|]. splits; [by apply elements_read| |done].
  eapply Forall_impl; [exact Ht|]. intros t. apply elements_read.
Qed.

Lemma write_tracks_Ok dest s w w' :
  write_tracks dest s w = (w', Ok tt) -> tracks_ok [video_track_elements s] w w'.
Proof.
  unfold write_tracks. rewrite st_bind_Ok. intros (w1 & c & H1 & H). apply lift_Ok in H1 as [-> H1].
  apply tracks_contents_Ok in H1 as [Hb Hok]. eapply tracks_written; [exact Hb| |exact H]. constructor; [exact Hok|constructor].
Qed.

Lemma write_audio_video_tracks_Ok dest s a m w w' :
  write_audio_video_tracks dest s a m w = (w', Ok tt) -> tracks_ok (av_tracks s a m) w w'.
Proof.
  unfold write_audio_video_tracks. rewrite st_bind_Ok. intros (w1 & c & H1 & H). apply lift_Ok in H1 as [-> H1].
  apply audio_video_tracks_Ok in H1 as [Hb Hok]. by eapply tracks_written.
Qed.

Lemma mkv_file_intro dest duration tracks body w0 w1 w2 w3 w4 :
  write_segment_start dest w0 = (w1, Ok tt) -> write_info dest duration w1 = (w2, Ok tt) ->
  tracks_ok tracks w2 w3 -> Forall element_ok body -> wrote w3 (elements_bytes body) w4 ->
  mkv_file (inner w0) (inner w4) duration tracks body
  /\ (written w0 = 0 -> written w4 = Z.min U64_MAX (zlen (inner w4) - zlen (inner w0))).
Proof.
  intros (E1 & E2 & E3)%write_segment_start_Ok (I1 & I2 & I3)%write_info_Ok (T1 & T2 & T3 & T4) Hb Hw.
  pose proof (wrote_trans _ _ _ _ _ E3 (wrote_trans _ _ _ _ _ I3 (wrote_trans _ _ _ _ _ T4 Hw))) as [Hin Hwr].
  assert (Hfile : elements_bytes [str ID_EBML (elements_bytes ebml_elements); (ID_SEGMENT, None)]
      ++ element_bytes (str ID_INFO (elements_bytes (info_elements duration)))
      ++ element_bytes (str ID_TRACKS (elements_bytes (track_entries tracks))) ++ elements_bytes body
      = elements_bytes (header_elements duration tracks ++ body)).
  { unfold header_elements. rewrite (elements_bytes_app [_; _; _; _] body), !elements_bytes_cons.
    change (elements_bytes []) with (@nil Z). rewrite !app_nil_r, <- !app_assoc. done. }
  rewrite Hfile in Hin, Hwr. split.
  - split; [|done..]. eexists. split; [exact Hin|]. apply elements_read. apply Forall_app. split; [|done].
    unfold header_elements. constructor; [exact E1|]. constructor; [split; [solve_id|exact I]|].
    constructor; [exact I1|]. constructor; [exact T1|constructor].
  - intros H0. rewrite Hwr, Hin, H0, zlen_app. f_equal. lia.
Qed.

Lemma mkv_prologue_Ok s ring first :
  mkv_prologue s ring = Ok first ->
  exists rest, packets ring = first :: rest /\ keyframe first = true /\ Forall (packet_valid s) (packets ring).
Proof.
  unfold mkv_prologue. intros (f & H1%ok_or_Ok & H)%bind_Ok. case_if_in H Ek; [done|].
  apply bind_Ok in H as ([] & Hv & [= <-]). destruct (packets ring) as [|f' rest] eqn:Ep; [done|].
  injection H1 as ->. exists rest. splits; [done|by destruct (keyframe f)|]. clear Ep Ek.
  revert Hv. generalize (f :: rest). intros l. induction l as [|p l IH]; intros Hv; [constructor|].
  cbn [for_each] in Hv. apply bind_Ok in Hv as ([] & Hp & Hv). constructor; [|by apply IH].
  by apply map_err_Ok in Hp.
Qed.

(** ** The order of blocks *)
Definition block_le (a b : MatroskaBlock) : Prop := block_timestamp_ns a <= block_timestamp_ns b.
Definition is_video (b : MatroskaBlock) : bool := match b with Video _ => true | Audio _ _ => false end.
Definition in_order (ps : list EncodedReplayPacket) : Prop :=
  StronglySorted (fun p q => timestamp_ns p <= timestamp_ns q) ps.

Lemma in_order_blocks ps : in_order ps -> StronglySorted block_le (map Video ps).
Proof.
  induction 1 as [|p ps Hs IH Hp]; [constructor|]. cbn. constructor; [done|]. by apply Forall_map.
Qed.

Lemma av_blocks_video ring a m :
  in_order (packets ring) -> List.filter is_video (av_blocks ring a m) = map Video (packets ring).
Proof.
  intros Ho. unfold av_blocks. rewrite filter_sort, !List.filter_app.
  rewrite (filter_all is_video (map Video _)) by by apply Forall_mapped.
  rewrite !filter_none by by apply Forall_mapped. rewrite !app_nil_r.
  by apply sort_by_key_id, in_order_blocks.
Qed.

(** * Theorems *)

(** A video clip written as Matroska is a readable file.  Behind what the
    destination held, a reader that knows only EBML finds the header, a segment,
    the clip's duration, one track that describes the stream, and clusters
    whose measured sizes are their contents: together they hold the ring's
    packets in order, every block with a timecode of at most 30 seconds, a
    cluster opened only where the next block no longer fits, and the summary
    tells the truth. *)
Theorem matroska_video_file_correct dest s ring old w' summary
    (Hok : write_video_only_matroska dest s ring (counting_writer old) = (w', Ok summary)) :
  exists chunks first rest stop,
  packets ring = first :: rest /\ keyframe first = true /\ Forall (packet_valid s) (packets ring)
  /\ mkv_file old (inner w') (mkv_duration_ns summary) [video_track_elements s]
       (map (cluster_element (timestamp_ns first)) chunks)
  /\ Forall (fun c => reads_as (elements_bytes (cluster_elements (timestamp_ns first) c))
                        (cluster_elements (timestamp_ns first) c)) chunks
  /\ concat chunks = map Video (packets ring) /\ well_clustered (timestamp_ns first) chunks
  /\ option_map (fun p => timestamp_ns p + duration_ns p) (last (packets ring)) = Some stop
  /\ mkv_duration_ns summary = stop - timestamp_ns first
  /\ mkv_clusters summary = Z.min U32_MAX (zlen chunks)
  /\ mkv_packets summary = Z.min U32_MAX (zlen (packets ring))
  /\ mkv_bytes_written summary = Z.min U64_MAX (zlen (inner w') - zlen old).
Proof.
  unfold write_video_only_matroska in Hok. apply st_bind_Ok in Hok as (w1 & first & H1 & H).
  apply lift_Ok in H1 as [-> (rest & Hps & Hkey & Hvalid)%mkv_prologue_Ok]. cbv zeta in H.
  apply st_bind_Ok in H as (w2 & lst & H2 & H). apply lift_Ok in H2 as [-> H2%ok_or_Ok].
  apply st_bind_Ok in H as (w3 & duration & H3 & H). apply lift_Ok in H3 as [-> H3%ok_or_Ok].
  apply st_bind_Ok in H as (w4 & [] & H4 & H). apply st_bind_Ok in H as (w5 & [] & H5 & H).
  apply st_bind_Ok in H as (w6 & [] & H6%write_tracks_Ok & H). apply st_bind_Ok in H as (w7 & n & H7 & H).
  injection H as <- <-. cbn [mkv_duration_ns mkv_clusters mkv_packets mkv_bytes_written].
  apply mkv_clusters_loop_Ok in H7 as (chunks & Hcat & [Hshape Hcok Hwrote] & Hn);
    [|destruct H6 as (_ & _ & _ & H6%wrote_bound); done].
  destruct (mkv_file_intro dest duration _ (map (cluster_element (timestamp_ns first)) chunks) _ _ _ _ _
    H4 H5 H6 ltac:(apply Forall_map; eapply Forall_impl; [exact Hcok|]; by intros c []) Hwrote) as [Hfile Hbytes].
  destruct (checked_add U64_MAX (timestamp_ns lst) (duration_ns lst)) as [stop|] eqn:Estop; [|done].
  apply checked_add_Some in Estop as [_ ->]. apply checked_sub_Some in H3 as [_ ->].
  exists chunks, first, rest, (timestamp_ns lst + duration_ns lst). splits; try done.
  - eapply Forall_impl; [exact Hcok|]. intros c [Hc _]. by apply elements_read.
  - by rewrite H2.
  - rewrite Hn by done. done.
  - unfold try_from. destruct (Z.leb_spec (zlen (packets ring)) U32_MAX); cbn; lia.
  - by apply Hbytes.
Qed.

(** The same with audio.  The blocks in the file are the ring's packets and
    the audio packets of the clip's window, each on its own track, in time
    order; video packets that were in order stay in order. *)
Theorem matroska_audio_video_file_correct dest s ring a old w' summary
    (Hok : write_audio_video_matroska_tracks dest s ring a (counting_writer old) = (w', Ok summary)) :
  exists chunks first rest stop,
  packets ring = first :: rest /\ keyframe first = true /\ Forall (packet_valid s) (packets ring)
  /\ option_map (fun p => timestamp_ns p + duration_ns p) (last (packets ring)) = Some stop
  /\ mkv_file old (inner w') (mkv_duration_ns summary) (av_tracks s (system a) (microphone a))
       (map (cluster_element (timestamp_ns first)) chunks)
  /\ Forall (fun c => reads_as (elements_bytes (cluster_elements (timestamp_ns first) c))
                        (cluster_elements (timestamp_ns first) c)) chunks
  /\ well_clustered (timestamp_ns first) chunks
  /\ concat chunks ≡ₚ map Video (packets ring)
       ++ map (fun p => Audio p 2) (in_window (timestamp_ns first) stop (snapshot_packets (system a)))
       ++ map (fun p => Audio p 3) (microphone_in_window (timestamp_ns first) stop a)
  /\ StronglySorted block_le (concat chunks)
  /\ (in_order (packets ring) -> List.filter is_video (concat chunks) = map Video (packets ring))
  /\ mkv_clusters summary = Z.min U32_MAX (zlen chunks)
  /\ mkv_bytes_written summary = Z.min U64_MAX (zlen (inner w') - zlen old).
Proof.
  unfold write_audio_video_matroska_tracks in Hok. apply st_bind_Ok in Hok as (w1 & first & H1 & H).
  apply lift_Ok in H1 as [-> (rest & Hps & Hkey & Hvalid)%mkv_prologue_Ok]. cbv zeta in H.
  apply st_bind_Ok in H as (w2 & stop & H2 & H). apply lift_Ok in H2 as [-> H2%ok_or_Ok].
  destruct (last (packets ring)) as [lst|] eqn:Elast; [|done]. apply checked_add_Some in H2 as [_ ->].
  set (stop := timestamp_ns lst + duration_ns lst) in *. case_if_in H Ebad; [done|].
  apply st_bind_Ok in H as (w4 & [] & H4 & H). apply st_bind_Ok in H as (w5 & [] & H5 & H).
  apply st_bind_Ok in H as (w6 & [] & H6%write_audio_video_tracks_Ok & H). apply st_bind_Ok in H as (w7 & n & H7 & H).
  injection H as <- <-. cbn [mkv_duration_ns mkv_clusters mkv_packets mkv_bytes_written].
  apply av_clusters_loop_Ok in H7 as (chunks & Hcat & [Hshape Hcok Hwrote] & Hn);
    [|destruct H6 as (_ & _ & _ & H6%wrote_bound); done].
  destruct (mkv_file_intro dest _ _ (map (cluster_element (timestamp_ns first)) chunks) _ _ _ _ _
    H4 H5 H6 ltac:(apply Forall_map; eapply Forall_impl; [exact Hcok|]; by intros c []) Hwrote) as [Hfile Hbytes].
  exists chunks, first, rest, stop. rewrite Hcat. splits; try done.
  - eapply Forall_impl; [exact Hcok|]. intros c [Hc _]. by apply elements_read.
  - apply sort_by_key_perm.
  - apply (sort_by_key_sorted block_timestamp_ns).
  - apply av_blocks_video.
  - rewrite Hn by done. done.
  - by apply Hbytes.
Qed.

(** ** Witnesses *)
Definition mkv_video_run : CountingWriter * outcome MatroskaVideoError MatroskaVideoSummary :=
  write_video_only_matroska unbounded demo_video_stream demo_clip (counting_writer [7]).
Definition mkv_av_run : CountingWriter * outcome MatroskaVideoError MatroskaVideoSummary :=
  write_audio_video_matroska_tracks unbounded demo_video_stream demo_clip demo_tracks (counting_writer []).
Definition mkv_summary (r : CountingWriter * outcome MatroskaVideoError MatroskaVideoSummary) : MatroskaVideoSummary :=
  match r.2 with
  | Ok s => s
  | _ => {| mkv_packets := 0; mkv_clusters := 0; mkv_duration_ns := 0; mkv_bytes_written := 0 |}
  end.

Lemma matroska_video_file_correct_witness :
  mkv_video_run = (mkv_video_run.1, Ok (mkv_summary mkv_video_run))
  /\ exists chunks, concat chunks = map Video (packets demo_clip).
Proof.
  assert (E : mkv_video_run = (mkv_video_run.1, Ok (mkv_summary mkv_video_run))) by (vm_compute; reflexivity).
  split; [exact E|].
  destruct (matroska_video_file_correct unbounded demo_video_stream demo_clip [7] _ _ E)
    as (chunks & first & rest & stop & _ & _ & _ & _ & _ & H & _).
  exists chunks. exact H.
Defined.

Lemma matroska_audio_video_file_correct_witness :
  mkv_av_run = (mkv_av_run.1, Ok (mkv_summary mkv_av_run))
  /\ exists chunks, StronglySorted block_le (concat (A := MatroskaBlock) chunks).
Proof.
  assert (E : mkv_av_run = (mkv_av_run.1, Ok (mkv_summary mkv_av_run))) by (vm_compute; reflexivity).
  split; [exact E|].
  destruct (matroska_audio_video_file_correct unbounded demo_video_stream demo_clip demo_tracks [] _ _ E)
    as (chunks & first & rest & stop & _ & _ & _ & _ & _ & _ & _ & _ & H & _).
  exists chunks. exact H.
Defined.
