(* ===== verification/MatroskaStream.v ===== *)
(** The streaming Matroska writer: clusters of unknown size, audio merged into
    the video as it arrives, and termination. *)
From stdpp Require Import sorting.
From S2P Require Import Prelude Arith Bytes Replay ReplayRing ReplayAudio PacketSource Encoder SampleClip.
From S2P Require Import Matroska MatroskaFacts MatroskaFiles.
Local Open Scope Z_scope.

(** * A run of the streaming writer over blocks

    [streamed origin cluster bs cluster' els]: from an open cluster [cluster],
    the blocks [bs] become the elements [els]. *)
Definition opens (cluster : option Z) (ms : Z) : bool :=
  match cluster with None => true | Some start => MAX_CLUSTER_DURATION_MS <? sat_sub ms start end.

Inductive streamed (origin : Z) : option Z -> list MatroskaBlock -> option Z -> list element -> Prop :=
| streamed_nil cluster : streamed origin cluster [] cluster []
| streamed_open cluster b bs cluster' els :
    origin <= block_timestamp_ns b -> opens cluster (ms_of origin b) = true ->
    streamed origin (Some (ms_of origin b)) bs cluster' els ->
    streamed origin cluster (b :: bs) cluster'
      ((ID_CLUSTER, None) :: num ID_TIMESTAMP (ms_of origin b) :: block_element origin (ms_of origin b) b :: els)
| streamed_join start b bs cluster' els :
    in_cluster origin start b -> streamed origin (Some start) bs cluster' els ->
    streamed origin (Some start) (b :: bs) cluster' (block_element origin start b :: els).

Lemma streamed_app origin c1 bs1 c2 els1 bs2 c3 els2 :
  streamed origin c1 bs1 c2 els1 -> streamed origin c2 bs2 c3 els2 ->
  streamed origin c1 (bs1 ++ bs2) c3 (els1 ++ els2).
Proof. induction 1; [done|..]; intros H2; cbn [app]; constructor; auto. Qed.

(** An unknown-sized cluster and what follows it. *)
Definition streamed_cluster (origin : Z) (bs : list MatroskaBlock) : list element :=
  (ID_CLUSTER, None) :: cluster_elements origin bs.

Lemma streamed_clusters origin cluster bs cluster' els :
  streamed origin cluster bs cluster' els ->
  exists joined chunks,
  bs = joined ++ concat chunks /\ well_clustered origin chunks
  /\ els = map (block_element origin (default 0 cluster)) joined ++ concat (map (streamed_cluster origin) chunks)
  /\ match cluster with
     | None => joined = []
     | Some start =>
         Forall (in_cluster origin start) joined
         /\ match chunks with next :: _ => MAX_CLUSTER_DURATION_MS < cluster_start origin next - start | [] => True end
     end.
Proof.
  induction 1 as [cluster|cluster b bs cluster' els Ho Hopen _ IH|start b bs cluster' els Hin _ IH].
  - exists [], []. by destruct cluster.
  - destruct IH as (joined & chunks & -> & Hshape & -> & Hj & Hnext). cbn [default] in *.
    exists [], ((b :: joined) :: chunks). splits.
    + done.
    + cbn [well_clustered cluster_start]. splits; [done| |done|done]. constructor; [|done].
      split; [done|]. rewrite Z.sub_diag. done.
    + done.
    + destruct cluster as [start|]; [|done]. split; [constructor|]. cbn [cluster_start].
      unfold opens, sat_sub in Hopen. apply Z.ltb_lt in Hopen. assert (0 < MAX_CLUSTER_DURATION_MS) by done. lia.
  - destruct IH as (joined & chunks & -> & Hshape & -> & Hj & Hnext). cbn [default] in *.
    exists (b :: joined), chunks. splits; try done. by constructor.
Qed.

Definition valid_audio (b : MatroskaBlock) : Prop :=
  match b with Audio p _ => invalid_audio_packet p = false | Video _ => True end.

(** The writer wrote the blocks [bs]. *)
Definition ran (origin : Z) (cluster : option Z) (w : CountingWriter) (bs : list MatroskaBlock)
    (cluster' : option Z) (w' : CountingWriter) : Prop :=
  Forall valid_audio bs
  /\ exists els, streamed origin cluster bs cluster' els /\ Forall element_ok els
       /\ wrote w (elements_bytes els) w'.

Lemma ran_nil origin cluster w : written w <= U64_MAX -> ran origin cluster w [] cluster w.
Proof. intros Hw. split; [done|]. exists []. splits; [constructor|done|by apply wrote_nil]. Qed.

Lemma ran_app origin c1 w1 bs1 c2 w2 bs2 c3 w3 :
  ran origin c1 w1 bs1 c2 w2 -> ran origin c2 w2 bs2 c3 w3 -> ran origin c1 w1 (bs1 ++ bs2) c3 w3.
Proof.
  intros [Hv1 (e1 & Hs1 & Hok1 & Hw1)] [Hv2 (e2 & Hs2 & Hok2 & Hw2)]. split; [by apply Forall_app|].
  exists (e1 ++ e2). splits; [by eapply streamed_app|by apply Forall_app|].
  rewrite elements_bytes_app. by eapply wrote_trans.
Qed.

Lemma ran_bound origin c w bs c' w' : ran origin c w bs c' w' -> written w' <= U64_MAX.
Proof. intros [_ (els & _ & _ & Hw)]. by eapply wrote_bound. Qed.

Lemma write_streaming_block_Ok dest b origin cluster w w' cluster' :
  write_streaming_block dest b origin cluster w = (w', Ok cluster') ->
  ran origin cluster w [b] cluster' w'.
Proof.
  unfold write_streaming_block. intros H. case_if_in H Ebad; [done|].
  assert (Hv : valid_audio b) by (by destruct b). clear Ebad.
  apply st_bind_Ok in H as (w1 & ms & H1 & H). apply lift_Ok in H1 as [-> [Ho ->]%relative_milliseconds_Ok].
  fold (ms_of origin b) in H. change (match cluster with None => true | Some start => _ end)
    with (opens cluster (ms_of origin b)) in H.
  apply st_bind_Ok in H as (w2 & c & H2 & H). apply st_bind_Ok in H as (w3 & t & H3 & H).
  apply lift_Ok in H3 as [-> [Ht ->]%block_timecode_Ok]. apply st_bind_Ok in H as (w4 & [] & H4 & H).
  injection H as <- <-. case_if_in H2 Eopen.
  - apply st_bind_Ok in H2 as (w5 & [] & H5%mkv_emit_Ok & H2). apply st_bind_Ok in H2 as (w6 & [] & H6%mkv_emit_Ok & H2).
    apply st_bind_Ok in H2 as (w7 & [] & H7%write_unsigned_Ok & H2). injection H2 as <- <-.
    cbn [unwrap_or default] in H4. apply emit_block_Ok in H4 as [Hok H4]. split; [by constructor|].
    eexists. splits; [by apply streamed_open, streamed_nil| |].
    + constructor; [split; [solve_id|done]|]. constructor; [apply num_ok; solve_id|]. by constructor.
    + rewrite !elements_bytes_cons. change (elements_bytes []) with (@nil Z). rewrite app_nil_r.
      unfold element_bytes at 1. cbn [fst snd].
      eapply wrote_trans; [by eapply wrote_trans|]. by eapply wrote_trans.
  - injection H2 as <- <-. destruct cluster as [start|]; [|done]. cbn [unwrap_or default] in Ht, H4.
    apply emit_block_Ok in H4 as [Hok H4]. split; [by constructor|]. eexists. splits.
    + apply streamed_join; [|apply streamed_nil]. split; [done|]. unfold opens, sat_sub in Eopen.
      apply Z.ltb_ge in Eopen. unfold id in Ht. lia.
    + by constructor.
    + rewrite elements_bytes_cons. change (elements_bytes []) with (@nil Z). by rewrite app_nil_r.
Qed.

Lemma flush_audio_Ok dest limit origin pending cluster w w' pending' cluster' :
  written w <= U64_MAX ->
  flush_audio dest limit origin pending cluster w = (w', Ok (pending', cluster')) ->
  exists flushed, pending = flushed ++ pending' /\ ran origin cluster w flushed cluster' w'
  /\ Forall (fun b => block_timestamp_ns b < limit) flushed
  /\ match pending' with b :: _ => limit <= block_timestamp_ns b | [] => True end.
Proof.
  revert cluster w. induction pending as [|b rest IH]; intros cluster w Hw; cbn [flush_audio].
  - intros [= <- <- <-]. exists []. splits; [done|by apply ran_nil|done|done].
  - case_if_as Elt.
    + rewrite st_bind_Ok. intros (w1 & c1 & H1%write_streaming_block_Ok & H).
      apply IH in H as (flushed & -> & Hran & Hlt & Hge); [|by eapply ran_bound].
      exists (b :: flushed). splits; [done|by eapply (ran_app _ _ _ [b])| |done].
      apply Z.ltb_lt in Elt. by constructor.
    + intros [= <- <- <-]. exists []. apply Z.ltb_ge in Elt. splits; [done|by apply ran_nil|done|done].
Qed.

(** * The source loop *)
Definition is_audio (b : MatroskaBlock) : bool := negb (is_video b).

Lemma elem_of_parts b bs (P : MatroskaBlock -> Prop) :
  Forall P (List.filter is_video bs) -> Forall P (List.filter is_audio bs) -> In b bs -> P b.
Proof.
  rewrite !List.Forall_forall. intros Hv Ha Hb. destruct (is_video b) eqn:E.
  - apply Hv, filter_In. done.
  - apply Ha, filter_In. unfold is_audio. by rewrite E.
Qed.

(** The merge of a video stream and the pending audio blocks. *)
Record merged (video : list EncodedReplayPacket) (bs audio : list MatroskaBlock) : Prop := {
  merged_video : List.filter is_video bs = map Video video;
  merged_audio : List.filter is_audio bs = audio;
}.

Lemma merged_nil : merged [] [] [].
Proof. done. Qed.

Lemma merged_step p video flushed bs audio :
  Forall (fun b => is_audio b = true) flushed -> merged video bs audio ->
  merged (p :: video) (flushed ++ Video p :: bs) (flushed ++ audio).
Proof.
  intros Hf [Hv Ha]. split; rewrite List.filter_app; cbn [List.filter is_video is_audio negb map].
  - rewrite filter_none, Hv; [done|]. eapply Forall_impl; [exact Hf|]. unfold is_audio. intros b.
    by destruct (is_video b).
  - by rewrite filter_all, Ha.
Qed.

Lemma merged_Forall (P : MatroskaBlock -> Prop) video bs audio :
  merged video bs audio -> Forall (fun p => P (Video p)) video -> Forall P audio -> Forall P bs.
Proof.
  intros [Hv Ha] HV HA. apply List.Forall_forall. intros b Hb.
  apply (elem_of_parts b bs P); [rewrite Hv; by apply Forall_map|by rewrite Ha|done].
Qed.

Lemma sorted_app {A} (R : A -> A -> Prop) l1 l2 :
  StronglySorted R l1 -> StronglySorted R l2 -> Forall (fun x => Forall (R x) l2) l1 -> StronglySorted R (l1 ++ l2).
Proof.
  induction 1 as [|x l1 Hs IH Hx]; intros H2 Hc; [done|]. apply Forall_cons in Hc as [Hc1 Hc2].
  cbn. constructor; [by apply IH|]. by apply Forall_app.
Qed.

Lemma sorted_app_inv {A} (R : A -> A -> Prop) l1 l2 :
  StronglySorted R (l1 ++ l2) ->
  StronglySorted R l1 /\ StronglySorted R l2 /\ Forall (fun x => Forall (R x) l2) l1.
Proof.
  induction l1 as [|x l1 IH]; cbn; [intros H; splits; [constructor|done|constructor]|].
  intros H. apply StronglySorted_inv in H as [Hs Hx].
  apply Forall_app in Hx as [Hx1 Hx2]. destruct (IH Hs) as (H1 & H2 & H3).
  splits; [by constructor|done|by constructor].
Qed.

(** Audio before [p] goes first, so a merge of ordered tracks is in order. *)
Lemma merged_in_order p video flushed bs audio pending :
  in_order (p :: video) -> StronglySorted block_le (flushed ++ audio ++ pending) ->
  Forall (fun b => block_timestamp_ns b < timestamp_ns p) flushed ->
  Forall (fun b => timestamp_ns p <= block_timestamp_ns b) (audio ++ pending) ->
  merged video bs audio -> StronglySorted block_le (bs ++ pending) ->
  StronglySorted block_le ((flushed ++ Video p :: bs) ++ pending).
Proof.
  intros Hv Ha Hlt Hge Hm Hs. apply StronglySorted_inv in Hv as [Hv Hp].
  apply sorted_app_inv in Ha as (Hf & _ & _). apply Forall_app in Hge as [Hga Hgp].
  assert (Hafter : Forall (fun b => timestamp_ns p <= block_timestamp_ns b) (bs ++ pending)).
  { apply Forall_app. split; [|done]. by eapply merged_Forall. }
  rewrite <- app_assoc. cbn [app]. apply sorted_app; [done| |].
  - constructor; [done|exact Hafter].
  - eapply Forall_impl; [exact Hlt|]. intros b Hb. cbn beta in Hb. constructor; [unfold block_le; cbn; lia|].
    eapply Forall_impl; [exact Hafter|]. unfold block_le. intros. cbn beta in *. lia.
Qed.

Lemma head_least pending limit :
  StronglySorted block_le pending ->
  match pending with b :: _ => limit <= block_timestamp_ns b | [] => True end ->
  Forall (fun b => limit <= block_timestamp_ns b) pending.
Proof.
  destruct 1 as [|b l Hs Hb]; intros Hl; [constructor|]. constructor; [done|].
  eapply Forall_impl; [exact Hb|]. unfold block_le. intros. lia.
Qed.

Section Loop.
Context (dest : destination) {Src : Type} `{ReplayPacketSourceSpec Src}.

Lemma mkv_stream_packet_Ok s origin p pending cluster first w (src : Src) st' pending' cluster' :
  written w <= U64_MAX ->
  mkv_stream_packet dest s origin p pending cluster first (w, src) = (st', Ok (pending', cluster')) ->
  exists w' flushed, st' = (w', src) /\ pending = flushed ++ pending'
  /\ ran origin cluster w (flushed ++ [Video p]) cluster' w' /\ packet_valid s p
  /\ (first = true -> keyframe p = true)
  /\ Forall (fun b => block_timestamp_ns b < timestamp_ns p) flushed
  /\ match pending' with b :: _ => timestamp_ns p <= block_timestamp_ns b | [] => True end.
Proof.
  intros Hw. unfold mkv_stream_packet. case_if_as Ekey; [done|]. rewrite st_bind_Ok.
  intros (st1 & [] & H1 & H1'). apply lift_Ok in H1 as [-> H1%map_err_Ok].
  apply st_bind_Ok in H1' as (st2 & [pd c] & H2 & H3). apply on_writer_Ok in H2 as (w2 & -> & H2).
  apply flush_audio_Ok in H2 as (flushed & -> & Hran & Hlt & Hge); [|done].
  apply st_bind_Ok in H3 as (st3 & c3 & H3 & H4). apply on_writer_Ok in H3 as (w3 & -> & H3%write_streaming_block_Ok).
  injection H4 as <- <- <-. exists w3, flushed. splits; try done; [by eapply ran_app|].
  intros ->. by destruct (keyframe p).
Qed.

Lemma mkv_stream_loop_Ok fuel s origin pending cluster first w (src : Src) st' pending' cluster' first' :
  written w <= U64_MAX -> Forall (fun b => is_audio b = true) pending ->
  mkv_stream_loop dest fuel s origin pending cluster first (w, src) = (st', Ok (pending', cluster', first')) ->
  exists w' src' bs audio, st' = (w', src') /\ remaining src' = [] /\ pending = audio ++ pending'
  /\ merged (remaining src) bs audio /\ ran origin cluster w bs cluster' w'
  /\ Forall (packet_valid s) (remaining src)
  /\ (in_order (remaining src) -> StronglySorted block_le pending -> StronglySorted block_le (bs ++ pending'))
  /\ first' = (first && bool_decide (remaining src = []))
  /\ (first = true -> match remaining src with p :: _ => keyframe p = true | [] => True end).
Proof.
  revert pending cluster first w src. induction fuel as [|fuel IH]; intros pending cluster first w src Hw Haudio; [done|].
  cbn [mkv_stream_loop]. rewrite st_bind_Ok. intros (st1 & packet & H1 & Hk).
  apply on_source_Ok in H1 as (src1 & -> & H1). apply next_packet_spec in H1 as [_ H1].
  destruct packet as [p|].
  2: { destruct H1 as [Hr Hr']. injection Hk as <- <- <- <-. exists w, src1, [], []. rewrite Hr.
       splits; try done; [by apply ran_nil|by rewrite bool_decide_eq_true_2, andb_true_r]. }
  apply st_bind_Ok in Hk as (st2 & [pd c] & H2 & Hk). rewrite H1.
  apply mkv_stream_packet_Ok in H2 as (w2 & flushed & -> & -> & Hran & Hv & Hkey & Hlt & Hge); [|done].
  apply Forall_app in Haudio as [Hflushed Haudio].
  apply IH in Hk as (w3 & src3 & bs & audio & -> & Hrem & -> & Hm & Hran2 & Hv2 & Hsort & -> & _);
    [|by eapply ran_bound|done].
  exists w3, src3, (flushed ++ Video p :: bs), (flushed ++ audio). splits; try done.
  - by rewrite app_assoc.
  - by apply merged_step.
  - change (Video p :: bs) with ([Video p] ++ bs). rewrite app_assoc. by eapply ran_app.
  - by constructor.
  - intros Ho Hp. pose proof Ho as Hov. apply StronglySorted_inv in Hov as [Hov _].
    pose proof Hp as Hp'. apply sorted_app_inv in Hp' as (_ & Hp' & _).
    eapply (merged_in_order p (remaining src1)); [done|exact Hp|done|by apply head_least|done|by apply Hsort].
  - by rewrite andb_false_r.
Qed.

Lemma mkv_trailing_audio_Ok origin pending cluster w (src : Src) st' :
  written w <= U64_MAX ->
  mkv_trailing_audio dest origin pending cluster (w, src) = (st', Ok tt) ->
  exists w' src' cluster', st' = (w', src') /\ remaining src' = remaining src
  /\ ran origin cluster w pending cluster' w'.
Proof.
  revert cluster w src. induction pending as [|b pending IH]; intros cluster w src Hw; cbn [mkv_trailing_audio].
  - intros [= <-]. exists w, src, cluster. splits; [done..|by apply ran_nil].
  - rewrite st_bind_Ok. intros (st1 & [] & H1 & Hk). apply on_source_Ok in H1 as (src1 & -> & [Hr _]%check_cancel_spec).
    apply st_bind_Ok in Hk as (st2 & c & H2 & Hk). apply on_writer_Ok in H2 as (w2 & -> & H2%write_streaming_block_Ok).
    apply IH in Hk as (w3 & src3 & c3 & -> & Hr3 & Hran); [|by eapply ran_bound].
    exists w3, src3, c3. splits; [done|by rewrite Hr3|]. by eapply (ran_app _ _ _ [b]).
Qed.
End Loop.

(** C38: streaming a clip from any packet source that keeps the interface's
    contract.  The file reads as a segment of unknown-sized clusters; the blocks
    are the source's packets, all of them, merged with the valid audio packets
    of the source's window; every timecode is within its cluster's 30 seconds,
    and blocks of an ordered source come out in time order, which is what keeps
    a microphone track from moving a cluster backwards. *)
Theorem matroska_streaming_file_correct dest {Src : Type} `{ReplayPacketSourceSpec Src}
    fuel s a old (src src' : Src) w' n
    (Hok : write_streaming_matroska_tracks dest fuel s a (counting_writer old, src) = ((w', src'), Ok n)) :
  let origin := (window src).1 in
  let stop := (window src).2 in
  let audio := streaming_audio origin stop a in
  exists chunks first rest,
  remaining src = first :: rest /\ keyframe first = true /\ remaining src' = []
  /\ Forall (packet_valid s) (remaining src)
  /\ mkv_file old (inner w') (stop - origin)
       (match audio with [] => [video_track_elements s] | _ => av_tracks s (system a) (microphone a) end)
       (concat (map (streamed_cluster origin) chunks))
  /\ well_clustered origin chunks
  /\ merged (remaining src) (concat chunks) audio /\ Forall valid_audio (concat chunks)
  /\ (in_order (remaining src) -> StronglySorted block_le (concat chunks))
  /\ n = Z.min U64_MAX (zlen (inner w') - zlen old).
Proof.
  unfold write_streaming_matroska_tracks in Hok. apply st_bind_Ok in Hok as (st0 & [origin stop] & H0' & Hk).
  unfold source_window in H0'. cbn [snd] in H0'. injection H0' as <- Hwin. rewrite Hwin. cbn [fst snd]. cbv zeta in *.
  apply st_bind_Ok in Hk as (st1 & [] & H1 & Hk). apply on_writer_Ok in H1 as (w1 & -> & H1).
  apply st_bind_Ok in Hk as (st2 & duration & H2 & Hk). apply lift_Ok in H2 as [-> H2%ok_or_Ok].
  apply checked_sub_Some in H2 as [_ ->]. apply st_bind_Ok in Hk as (st3 & [] & H3 & Hk).
  apply on_writer_Ok in H3 as (w3 & -> & H3). apply st_bind_Ok in Hk as (st4 & [] & H4 & Hk).
  apply on_writer_Ok in H4 as (w4 & -> & H4).
  assert (Htracks : tracks_ok (match streaming_audio origin stop a with
      | [] => [video_track_elements s] | _ => av_tracks s (system a) (microphone a) end) w3 w4).
  { destruct (streaming_audio origin stop a); [by eapply write_tracks_Ok|by eapply write_audio_video_tracks_Ok]. }
  clear H4. apply st_bind_Ok in Hk as (st5 & [[pending cluster] first] & H5 & Hk).
  assert (Haudio : Forall (fun b => is_audio b = true) (streaming_audio origin stop a)).
  { unfold streaming_audio. rewrite sort_by_key_perm. apply Forall_app. split; by apply Forall_mapped. }
  apply (mkv_stream_loop_Ok dest (Src := Src)) in H5
    as (w5 & src5 & bs & audio & -> & Hrem & Hsplit & [Hv Ha] & Hran & Hvalid & Hsort & Hfirst & Hkey);
    [|by destruct Htracks as (_ & _ & _ & Hb%wrote_bound)|exact Haudio].
  destruct first; [done|]. apply st_bind_Ok in Hk as (st6 & [] & H6 & Hk).
  apply (mkv_trailing_audio_Ok dest (Src := Src)) in H6 as (w6 & src6 & c6 & -> & Hrem6 & Hran6); [|by eapply ran_bound].
  apply on_writer_Ok in Hk as (w7 & E7 & Hk). injection E7 as <- <-. injection Hk as <- <-.
  destruct (ran_app _ _ _ _ _ _ _ _ _ Hran Hran6) as [Haok (els & Hstream & Hels & Hwrote)].
  destruct (streamed_clusters _ _ _ _ _ Hstream) as (joined & chunks & Hbs & Hshape & -> & ->). cbn [app map] in *.
  destruct (mkv_file_intro dest _ _ _ _ _ _ _ _ H1 H3 Htracks Hels Hwrote) as [Hfile Hbytes].
  destruct (remaining src) as [|f rest] eqn:Er; [done|].
  exists chunks, f, rest. rewrite <- Hbs. splits; try done.
  - by apply Hkey.
  - by rewrite Hrem6.
  - rewrite Hsplit in Haudio. apply Forall_app in Haudio as [_ Hp].
    split; rewrite List.filter_app; [rewrite Hv, (filter_none is_video pending)|rewrite Ha, (filter_all is_audio pending)];
      [by rewrite app_nil_r| |done|done].
    eapply Forall_impl; [exact Hp|]. unfold is_audio. intros b. by destruct (is_video b).
  - intros Ho. apply Hsort; [done|]. apply (sort_by_key_sorted block_timestamp_ns).
  - by apply Hbytes.
Qed.

Definition mkv_stream_run : CountingWriter * MemoryPackets * outcome MatroskaVideoError Z :=
  write_streaming_matroska_tracks unbounded 4 demo_video_stream demo_tracks (counting_writer [], demo_source).

Lemma matroska_streaming_file_correct_witness :
  exists n, mkv_stream_run = ((mkv_stream_run.1.1, mkv_stream_run.1.2), Ok n)
  /\ exists chunks, well_clustered 1000000000 chunks.
Proof.
  assert (E : exists n, mkv_stream_run = ((mkv_stream_run.1.1, mkv_stream_run.1.2), Ok n))
    by (eexists; vm_compute; reflexivity).
  destruct E as [n E]. exists n. split; [exact E|].
  destruct (matroska_streaming_file_correct unbounded 4 demo_video_stream demo_tracks [] demo_source _ _ _ E)
    as (chunks & first & rest & _ & _ & _ & _ & _ & H & _).
  exists chunks. exact H.
Defined.
