(* ===== verification/MatroskaTotal.v ===== *)
(** Termination of the Matroska writers: a writer returns a file or an error. *)
From S2P Require Import Prelude Arith Bytes ReplayRing ReplayAudio PacketSource Encoder SampleClip Matroska.
Local Open Scope Z_scope.

(** * Pure parts *)
Lemma vint_bytes_no_panic v : no_panic (vint_bytes v).
Proof. unfold vint_bytes, encode_vint. outcome_total. Qed.
Lemma append_master_no_panic d id c : no_panic (append_master d id c).
Proof. unfold append_master. outcome_step; [apply vint_bytes_no_panic|done]. Qed.
Lemma append_unsigned_no_panic d id n : no_panic (append_unsigned d id n).
Proof. unfold append_unsigned. outcome_step; [apply vint_bytes_no_panic|done]. Qed.
Lemma append_float_no_panic d id x : no_panic (append_float d id x).
Proof. unfold append_float. outcome_step; [apply vint_bytes_no_panic|done]. Qed.
#[local] Hint Resolve vint_bytes_no_panic append_master_no_panic append_unsigned_no_panic append_float_no_panic : rust.
#[local] Hint Extern 1 (no_panic (append_bytes _ _ _)) => apply append_master_no_panic : rust.

Lemma ebml_contents_no_panic : no_panic ebml_contents.
Proof. unfold ebml_contents. outcome_total. Qed.
Lemma info_contents_no_panic d : no_panic (info_contents d).
Proof. unfold info_contents. outcome_total. Qed.
Lemma tracks_contents_no_panic s : stream_fps s <> 0 -> no_panic (tracks_contents s).
Proof.
  intros Hfps. unfold tracks_contents, video_settings. rewrite (proj2 (Z.eqb_neq _ _) Hfps). outcome_total.
Qed.
Lemma audio_video_tracks_no_panic s a m : no_panic (audio_video_tracks_contents s a m).
Proof. unfold audio_video_tracks_contents, mkv_audio_track, video_settings. outcome_total. Qed.

Lemma relative_no_panic t o : no_panic (relative_milliseconds t o).
Proof. unfold relative_milliseconds. outcome_total. Qed.
Lemma timecode_no_panic t o : no_panic (block_timecode t o).
Proof. unfold block_timecode. outcome_total. Qed.
Lemma checked_payload_no_panic bs : no_panic (checked_payload bs).
Proof. unfold checked_payload. outcome_total. Qed.
Lemma saturating_payload_no_panic bs : no_panic (saturating_payload bs).
Proof. done. Qed.
#[local] Hint Resolve relative_no_panic timecode_no_panic : rust.

Lemma content_size_no_panic payload ts bs :
  (forall b, no_panic (payload b)) -> no_panic (cluster_content_size payload ts bs).
Proof.
  intros Hp. unfold cluster_content_size. generalize (element_size ID_TIMESTAMP (unsigned_width ts)).
  induction bs as [|b bs IH]; intros t; [done|]. cbn [for_each]. outcome_step; [|apply IH].
  outcome_step; [apply Hp|outcome_total].
Qed.

Lemma cluster_advance_no_panic origin start ps : no_panic (cluster_advance origin start ps).
Proof. induction ps as [|p ps IH]; [done|]. cbn [cluster_advance]. outcome_total. Qed.

Lemma av_cluster_advance_no_panic origin start bs : no_panic (av_cluster_advance origin start bs).
Proof. induction bs as [|b bs IH]; [done|]. cbn [av_cluster_advance]. outcome_total. Qed.

Lemma mkv_prologue_no_panic s ring : no_panic (mkv_prologue s ring).
Proof.
  unfold mkv_prologue. outcome_step; [outcome_total|]. outcome_step; [done|]. outcome_step; [|done].
  generalize (packets ring). intros l. induction l as [|p l IH]; [done|]. cbn [for_each].
  outcome_step; [apply map_err_no_panic, validate_packet_no_panic|].
  match goal with u : unit |- _ => destruct u end. apply IH.
Qed.

(** * Writers *)
Ltac total_step :=
  match goal with
  | |- st_total (mbind _ _) _ => apply st_total_bind; [|intros ? ? _]
  | |- st_total (lift _) _ => apply st_total_lift
  | |- st_total (write_all _ _ _) _ => apply write_all_total
  | |- st_total (mret _) _ => discriminate
  | |- no_panic _ => solve [outcome_total]
  end.

Section Total.
Context (dest : destination).

Lemma mkv_emit_total chunk w : st_total (mkv_emit dest chunk) w.
Proof. apply write_all_total. Qed.
Lemma write_master_header_total id n w : st_total (write_master_header dest id n) w.
Proof. unfold write_master_header, mkv_emit. repeat total_step. Qed.
Lemma write_element_total id c w : st_total (write_element dest id c) w.
Proof. unfold write_element, write_master_header, mkv_emit. repeat total_step. Qed.
Lemma write_unsigned_total id n w : st_total (write_unsigned dest id n) w.
Proof. unfold write_unsigned, mkv_emit. repeat total_step. Qed.
Lemma emit_block_total n t b w : st_total (emit_block dest n t b) w.
Proof. unfold emit_block, write_master_header, mkv_emit. repeat total_step. Qed.

Lemma segment_start_total w : st_total (write_segment_start dest) w.
Proof.
  unfold write_segment_start, write_ebml_header, write_element, write_master_header, mkv_emit.
  total_step; [total_step; [total_step; apply ebml_contents_no_panic|]|]; repeat total_step.
Qed.
Lemma write_info_total d w : st_total (write_info dest d) w.
Proof.
  unfold write_info. total_step; [total_step; apply info_contents_no_panic|apply write_element_total].
Qed.
Lemma write_tracks_total s w : stream_fps s <> 0 -> st_total (write_tracks dest s) w.
Proof.
  intros H. unfold write_tracks. total_step; [total_step; by apply tracks_contents_no_panic|apply write_element_total].
Qed.
Lemma write_av_tracks_total s a m w : st_total (write_audio_video_tracks dest s a m) w.
Proof.
  unfold write_audio_video_tracks.
  total_step; [total_step; apply audio_video_tracks_no_panic|apply write_element_total].
Qed.

Lemma write_blocks_total payload origin start bs w :
  (forall b, no_panic (payload b)) -> st_total (write_blocks dest payload origin start bs) w.
Proof.
  intros Hp. revert w. induction bs as [|b bs IH]; intros w; [discriminate|]. cbn [write_blocks].
  total_step; [|apply IH]. unfold write_block. do 2 (total_step; [repeat total_step|]).
  total_step; [total_step; apply Hp|apply emit_block_total].
Qed.

Lemma write_cluster_total payload bs origin start w :
  (forall b, no_panic (payload b)) -> st_total (write_cluster_with dest payload bs origin start) w.
Proof.
  intros Hp. unfold write_cluster_with. total_step; [total_step; by apply content_size_no_panic|].
  total_step; [apply write_master_header_total|]. total_step; [apply write_unsigned_total|].
  by apply write_blocks_total.
Qed.

Lemma clusters_loop_total fuel origin k ps w :
  (length ps <= fuel)%nat -> st_total (mkv_clusters_loop dest fuel origin k ps) w.
Proof.
  revert k ps w. induction fuel as [|fuel IH]; intros k [|p rest] w Hf; cbn in Hf; try lia; try discriminate.
  cbn [mkv_clusters_loop]. total_step; [repeat total_step|]. total_step; [total_step; apply cluster_advance_no_panic|].
  total_step; [apply write_cluster_total, checked_payload_no_panic|]. apply IH. cbn [drop]. rewrite length_drop. lia.
Qed.

Lemma av_loop_total fuel origin k bs w :
  (length bs <= fuel)%nat -> st_total (av_clusters_loop dest fuel origin k bs) w.
Proof.
  revert k bs w. induction fuel as [|fuel IH]; intros k [|p rest] w Hf; cbn in Hf; try lia; try discriminate.
  cbn [av_clusters_loop]. total_step; [repeat total_step|]. total_step; [total_step; apply av_cluster_advance_no_panic|].
  total_step; [apply write_cluster_total, saturating_payload_no_panic|]. apply IH. cbn [drop]. rewrite length_drop. lia.
Qed.

Lemma streaming_block_total b origin cluster w : st_total (write_streaming_block dest b origin cluster) w.
Proof.
  unfold write_streaming_block. case_if_as Ebad; [discriminate|]. total_step; [repeat total_step|].
  total_step.
  - case_if_as Eopen; [|discriminate]. do 2 (total_step; [apply mkv_emit_total|]).
    total_step; [apply write_unsigned_total|discriminate].
  - total_step; [repeat total_step|]. total_step; [apply emit_block_total|discriminate].
Qed.

Lemma flush_audio_total limit origin pending cluster w : st_total (flush_audio dest limit origin pending cluster) w.
Proof.
  revert cluster w. induction pending as [|b rest IH]; intros cluster w; [discriminate|]. cbn [flush_audio].
  case_if_as E; [|discriminate]. total_step; [apply streaming_block_total|apply IH].
Qed.
End Total.

Section StreamingTotal.
Context (dest : destination) {Src : Type} `{ReplayPacketSourceSpec Src}.

Lemma mkv_stream_loop_ensures fuel s origin pending cluster first w (src : Src) :
  (length (remaining src) < fuel)%nat ->
  ensures (mkv_stream_loop dest fuel s origin pending cluster first) (w, src) (fun _ _ => True).
Proof.
  revert pending cluster first w src. induction fuel as [|fuel IH]; intros pending cluster first w src Hf; [lia|].
  cbn [mkv_stream_loop]. eapply ensures_bind; [apply next_packet_ensures|].
  intros [w1 src1] [p|] E; [|done]. cbn in E. rewrite E in Hf. cbn [length] in Hf.
  apply (ensures_bind _ _ _ (fun ws _ => ws.2 = src1)).
  - unfold mkv_stream_packet. case_if_as Ekey; [done|].
    eapply ensures_bind.
    { apply (total_ensures (lift _)). apply st_total_lift, map_err_no_panic, validate_packet_no_panic. }
    intros ws [] H1. apply lift_Ok in H1 as [-> _].
    eapply ensures_bind; [apply on_writer_total, flush_audio_total|]. intros [w2 src2] [pd c] E2. cbn in E2. subst src2.
    eapply ensures_bind; [apply on_writer_total, streaming_block_total|]. intros [w3 src3] c3 E3. exact E3.
  - intros [w2 src2] [pd c] E2. cbn in E2. subst src2. apply IH. lia.
Qed.

Lemma mkv_trailing_ensures origin pending cluster w (src : Src) :
  ensures (mkv_trailing_audio dest origin pending cluster) (w, src) (fun _ _ => True).
Proof.
  revert cluster w src. induction pending as [|b pending IH]; intros cluster w src; [done|]. cbn [mkv_trailing_audio].
  eapply ensures_bind; [apply check_cancel_ensures|]. intros [w1 src1] [] _.
  eapply ensures_bind; [apply on_writer_total, streaming_block_total|]. intros [w2 src2] c _. apply IH.
Qed.
End StreamingTotal.

(** For a stream with a frame rate, the three writers return a file or an
    error: nothing panics, no loop runs forever, and the streaming writer needs
    one unit of fuel more than its source holds packets. *)
Theorem matroska_writers_total dest {Src : Type} `{ReplayPacketSourceSpec Src} fuel s ring a w (src : Src)
    (Hfps : stream_fps s <> 0) (Hfuel : (length (remaining src) < fuel)%nat) :
  snd (write_video_only_matroska dest s ring w) <> Panic
  /\ snd (write_audio_video_matroska_tracks dest s ring a w) <> Panic
  /\ snd (write_streaming_matroska_tracks dest fuel s a (w, src)) <> Panic.
Proof.
  splits.
  - change (st_total (write_video_only_matroska dest s ring) w). unfold write_video_only_matroska.
    total_step; [total_step; apply mkv_prologue_no_panic|]. do 2 (total_step; [repeat total_step|]).
    total_step; [apply segment_start_total|]. total_step; [apply write_info_total|].
    total_step; [by apply write_tracks_total|]. total_step; [by apply clusters_loop_total|]. discriminate.
  - change (st_total (write_audio_video_matroska_tracks dest s ring a) w). unfold write_audio_video_matroska_tracks.
    total_step; [total_step; apply mkv_prologue_no_panic|]. total_step; [repeat total_step|].
    cbv zeta. case_if_as Ebad; [discriminate|]. total_step; [apply segment_start_total|].
    total_step; [apply write_info_total|]. total_step; [apply write_av_tracks_total|].
    total_step; [by apply av_loop_total|]. discriminate.
  - apply (ensures_total _ _ (fun _ _ => True)). unfold write_streaming_matroska_tracks.
    apply (ensures_bind _ _ _ (fun ws _ => ws.2 = src)); [done|]. intros [w0 src0] [origin stop] E. cbn in E. subst src0.
    cbv zeta. eapply ensures_bind; [apply on_writer_total, segment_start_total|]. intros [w1 ?] [] E. cbn in E. subst.
    eapply ensures_bind; [apply (total_ensures (lift _)), st_total_lift; outcome_total|].
    intros ws d E. apply lift_Ok in E as [-> _].
    eapply ensures_bind; [apply on_writer_total, write_info_total|]. intros [w2 ?] [] E. cbn in E. subst.
    eapply ensures_bind.
    { apply on_writer_total. destruct (streaming_audio origin stop a); [by apply write_tracks_total|apply write_av_tracks_total]. }
    intros [w3 ?] [] E. cbn in E. subst.
    eapply ensures_bind; [by apply (mkv_stream_loop_ensures dest (Src := Src))|]. intros [w4 src4] [[pd c] first] _.
    destruct first; [done|]. eapply ensures_bind; [apply (mkv_trailing_ensures dest (Src := Src))|]. by intros [w5 src5] [] _.
Qed.

Lemma matroska_writers_total_witness :
  snd (write_streaming_matroska_tracks unbounded 4 demo_video_stream demo_tracks (counting_writer [], demo_source)) <> Panic.
Proof.
  apply (matroska_writers_total unbounded 4 demo_video_stream demo_clip demo_tracks (counting_writer []) demo_source).
  - vm_compute. discriminate.
  - cbn. lia.
Defined.
