(* ===== verification/H264.v ===== *)
(** Annex B byte streams and AVC parameter sets
    (crates/redunar-daemon/src/replay_h264.rs). *)
From S2P Require Import Prelude Bytes ReplayRing Encoder.
Local Open Scope Z_scope.

Definition MAX_PARAMETER_SET_BYTES : Z := U16_MAX.
Definition H264_NAL_TYPE_MASK : Z := 0x1f.
Definition H264_NAL_TYPE_IDR : Z := 5.
Definition H264_NAL_TYPE_SPS : Z := 7.
Definition H264_NAL_TYPE_PPS : Z := 8.

Definition starts_with (prefix l : bytes) : bool := bytes_eqb (take (length prefix) l) prefix.

(** The end of the start code at [position] and its length. *)
Definition start_code_at (bs : bytes) (position : nat) : option (nat * nat) :=
  if (position <=? length bs)%nat then
    let tail := drop position bs in
    if starts_with [0; 0; 0; 1] tail then Some (position + 4, 4)%nat
    else if starts_with [0; 0; 1] tail then Some (position + 3, 3)%nat
    else None
  else None.

(** [(from..from + n).find_map(..)]. *)
Fixpoint find_map_range {A} (f : nat -> option A) (from n : nat) : option A :=
  match n with
  | O => None
  | S n => match f from with Some a => Some a | None => find_map_range f (S from) n end
  end.
Definition find_start_code (bs : bytes) (from : nat) : option (nat * nat) :=
  find_map_range (fun position =>
    match start_code_at bs position with
    | Some (_, len) => Some (position, len)
    | None => None
    end) from (length bs - from).

(** The loop of [annex_b_units]; the start of a unit only moves forward, so the
    number of bytes is enough fuel (running out would be [Panic]). *)
Fixpoint annex_b_loop (fuel : nat) (bs : bytes) (unit_start : nat) (units : list bytes)
    : outcome ReplayEncoderError (list bytes) :=
  match fuel with
  | O => Panic
  | S fuel =>
      let next := find_start_code bs unit_start in
      let unit_end := match next with Some (position, _) => position | None => length bs end in
      let unit := slice unit_start (unit_end - unit_start) bs in
      if (unit_end <? unit_start)%nat || (length unit =? 0)%nat then Err InvalidPacketFraming
      else
        let units := units ++ [unit] in
        match next with
        | None => Ok units
        | Some (position, len) =>
            let unit_start := (position + len)%nat in
            if (length bs <=? unit_start)%nat then Err InvalidPacketFraming
            else annex_b_loop fuel bs unit_start units
        end
  end.
Definition annex_b_units (bs : bytes) : outcome ReplayEncoderError (list bytes) :=
  match start_code_at bs 0 with
  | None => Err InvalidPacketFraming
  | Some (unit_start, _) => annex_b_loop (S (length bs)) bs unit_start []
  end.

Definition nal_type (unit : bytes) : outcome ReplayEncoderError Z :=
  header ← ok_or (head unit) InvalidPacketFraming;
  if negb (Z.land header 0x80 =? 0) then Err InvalidPacketFraming
  else Ok (Z.land header H264_NAL_TYPE_MASK).

(** * Parameter sets *)
Record H264ParameterSets := { sequence : bytes; picture : bytes }.

Definition parameter_step (s : option bytes * option bytes) (unit : bytes)
    : outcome ReplayEncoderError (option bytes * option bytes) :=
  let '(sps, pps) := s in
  ty ← nal_type unit;
  if (ty =? H264_NAL_TYPE_SPS) && bool_decide (sps = None) then Ok (Some unit, pps)
  else if (ty =? H264_NAL_TYPE_PPS) && bool_decide (pps = None) then Ok (sps, Some unit)
  else if (ty =? H264_NAL_TYPE_SPS) || (ty =? H264_NAL_TYPE_PPS) then Err InvalidCodecHeaders
  else Ok (sps, pps).

Definition from_annex_b (bs : bytes) : outcome ReplayEncoderError H264ParameterSets :=
  units ← annex_b_units bs;
  sets ← for_each parameter_step units (None, None);
  match sets with
  | (Some sps, Some pps) =>
      if (zlen sps <? 4) || (MAX_PARAMETER_SET_BYTES <? zlen sps)
         || (MAX_PARAMETER_SET_BYTES <? zlen pps)
      then Err InvalidCodecHeaders
      else Ok {| sequence := sps; picture := pps |}
  | _ => Err InvalidCodecHeaders
  end.

(** The [expect]s and the indexing of the three profile bytes may panic. *)
Definition avc_decoder_configuration (p : H264ParameterSets) : outcome ReplayEncoderError bytes :=
  sequence_length ← expect (try_from U16_MAX (zlen (sequence p)));
  picture_length ← expect (try_from U16_MAX (zlen (picture p)));
  profile ← index (sequence p) 1;
  constraints ← index (sequence p) 2;
  level ← index (sequence p) 3;
  Ok ([1; profile; constraints; level; 0xff; 0xe1] ++ be_bytes 2 sequence_length ++ sequence p
      ++ [1] ++ be_bytes 2 picture_length ++ picture p).

(** * Access units *)
(** The loop state: payload, keyframe, has_vcl. *)
Definition access_step (s : bytes * bool * bool) (unit : bytes)
    : outcome ReplayEncoderError (bytes * bool * bool) :=
  let '(payload, key, has_vcl) := s in
  unit_type ← nal_type unit;
  let has_vcl := if (1 <=? unit_type) && (unit_type <=? 5) then true else has_vcl in
  let key := key || (unit_type =? H264_NAL_TYPE_IDR) in
  len ← ok_or (try_from U32_MAX (zlen unit)) InvalidPacketFraming;
  Ok (payload ++ be_bytes 4 len ++ unit, key, has_vcl).

Definition h264_annex_b_access_unit (timestamp duration : Z) (bs : bytes)
    : outcome ReplayEncoderError EncodedReplayPacket :=
  units ← annex_b_units bs;
  '(payload, key, has_vcl) ← for_each access_step units ([], false, false);
  if negb has_vcl then Err InvalidPacketFraming
  else map_err PacketError (packet_new timestamp duration key payload).

(** * The byte stream format, as a specification *)
Definition start_code (long : bool) : bytes := if long then [0; 0; 0; 1] else [0; 0; 1].
Definition annex_b (units : list (bool * bytes)) : bytes :=
  flat_map (fun '(long, u) => start_code long ++ u) units.

(** No start code begins inside a unit, also not across its end. *)
Definition has_code (l : bytes) : bool := starts_with [0; 0; 0; 1] l || starts_with [0; 0; 1] l.
Definition code_free (l : bytes) : Prop := forall i, (i < length l)%nat -> has_code (drop i l) = false.
(** What the standard asks of a NAL unit: it is not empty, its last byte is not
    zero, and 00 00 01 does not occur in it. *)
Definition nal_unit_ok (u : bytes) : Prop :=
  u <> [] /\ last u <> Some 0 /\ forall i, slice i 3 u <> [0; 0; 1].

(** * Facts about the parser *)
Lemma find_map_range_Some {A} (f : nat -> option A) k n from a :
  (k < n)%nat -> (forall j, (j < k)%nat -> f (from + j)%nat = None) -> f (from + k)%nat = Some a ->
  find_map_range f from n = Some a.
Proof.
  revert n from. induction k as [|k IH]; intros [|n] from Hk Hnone Ha; try lia; cbn [find_map_range].
  - by rewrite Nat.add_0_r in Ha; rewrite Ha.
  - pose proof (Hnone 0%nat ltac:(lia)) as H0. rewrite Nat.add_0_r in H0. rewrite H0.
    apply IH; [lia| |by rewrite Nat.add_succ_comm].
    intros j Hj. rewrite Nat.add_succ_comm. apply Hnone. lia.
Qed.

Lemma find_map_range_None {A} (f : nat -> option A) n from :
  (forall j, (j < n)%nat -> f (from + j)%nat = None) -> find_map_range f from n = None.
Proof.
  revert from. induction n as [|n IH]; intros from Hnone; [done|]. cbn [find_map_range].
  pose proof (Hnone 0%nat ltac:(lia)) as H0. rewrite Nat.add_0_r in H0. rewrite H0.
  apply IH. intros j Hj. rewrite Nat.add_succ_comm. apply Hnone. lia.
Qed.

Lemma find_map_range_inv {A} (f : nat -> option A) n from a :
  find_map_range f from n = Some a -> exists k, (k < n)%nat /\ f (from + k)%nat = Some a.
Proof.
  revert from. induction n as [|n IH]; intros from H; [done|]. cbn [find_map_range] in H.
  destruct (f from) eqn:E.
  - injection H as ->. exists 0%nat. rewrite Nat.add_0_r. split; [lia|done].
  - apply IH in H as (k & Hk & H). exists (S k). rewrite <- Nat.add_succ_comm. split; [lia|done].
Qed.

Lemma prefix_starts_with p l : starts_with p l = true <-> exists l', l = p ++ l'.
Proof.
  unfold starts_with, bytes_eqb. rewrite bool_decide_eq_true. split.
  - intros H. exists (drop (length p) l). rewrite <- H at 1. by rewrite take_drop.
  - intros [l' ->]. apply take_app_length.
Qed.

Lemma starts_with_cons x p y l :
  starts_with (x :: p) (y :: l) = (x =? y) && starts_with p l.
Proof.
  unfold starts_with, bytes_eqb. cbn [length take].
  destruct (Z.eqb_spec x y) as [->|]; cbn [andb].
  - by apply bool_decide_ext; split; [intros [= ->]|intros ->].
  - apply bool_decide_eq_false_2. naive_solver.
Qed.
Lemma starts_with_nil l : starts_with [] l = true.
Proof. done. Qed.

Definition follows (rest : bytes) : Prop :=
  rest = [] \/ exists long rest', rest = start_code long ++ rest'.

Lemma unit_code_free u rest i :
  nal_unit_ok u -> (i < length u)%nat -> has_code (drop i u ++ rest) = false.
Proof.
  intros (_ & Hlast & Hfree) Hi.
  assert (Hl : last (drop i u) = last u) by
    (rewrite !last_lookup, lookup_drop, length_drop; f_equal; lia).
  pose proof (Hfree i) as H0. pose proof (Hfree (S i)) as H1. unfold slice in H0, H1.
  assert (drop (S i) u = drop 1 (drop i u)) as Ed by (rewrite drop_drop; f_equal; lia).
  rewrite Ed in H1. rewrite <- Hl in Hlast. unfold has_code.
  destruct (drop i u) as [|a [|b [|c w]]] eqn:Ev.
  - apply (f_equal length) in Ev. rewrite length_drop in Ev. cbn in Ev. lia.
  - cbn [last app] in *. rewrite !starts_with_cons.
    destruct (Z.eqb_spec 0 a) as [<-|]; [done|done].
  - cbn [last app] in *. rewrite !starts_with_cons.
    destruct (Z.eqb_spec 0 a) as [<-|]; [|done]. by destruct (Z.eqb_spec 0 b) as [<-|].
  - cbn [app]. rewrite !starts_with_cons.
    destruct (Z.eqb_spec 0 a) as [<-|]; [|done]. destruct (Z.eqb_spec 0 b) as [<-|]; [|done].
    cbn [andb]. rewrite starts_with_nil, andb_true_r.
    destruct (Z.eqb_spec 1 c) as [<-|]; [by cbn in H0|]. rewrite orb_false_r.
    destruct (Z.eqb_spec 0 c) as [<-|]; [|done]. destruct w as [|d w]; [by cbn in Hlast|].
    cbn [app]. rewrite starts_with_cons. destruct (Z.eqb_spec 1 d) as [<-|]; [|done].
    by cbn in H1.
Qed.

Section At.
Context (pre tail : bytes).

Lemma start_code_at_app i :
  (i <= length tail)%nat ->
  start_code_at (pre ++ tail) (length pre + i) =
  if starts_with [0; 0; 0; 1] (drop i tail) then Some (length pre + i + 4, 4)%nat
  else if starts_with [0; 0; 1] (drop i tail) then Some (length pre + i + 3, 3)%nat else None.
Proof.
  intros Hi. unfold start_code_at. rewrite length_app.
  destruct (Nat.leb_spec (length pre + i) (length pre + length tail)); [|lia].
  by rewrite <- drop_drop, drop_app_length.
Qed.
End At.

Lemma start_code_here pre long rest :
  start_code_at (pre ++ start_code long ++ rest) (length pre)
  = Some (length pre + length (start_code long), length (start_code long))%nat.
Proof.
  pose proof (start_code_at_app pre (start_code long ++ rest) 0) as H.
  rewrite Nat.add_0_r, drop_0 in H. rewrite H by lia.
  destruct long; cbn [start_code app]; by rewrite !starts_with_cons.
Qed.

Lemma find_start_code_unit pre u rest :
  nal_unit_ok u -> follows rest ->
  find_start_code (pre ++ u ++ rest) (length pre) =
  match rest with
  | [] => None
  | _ => match start_code_at (pre ++ u ++ rest) (length pre + length u) with
         | Some (_, len) => Some (length pre + length u, len)%nat
         | None => None
         end
  end.
Proof.
  intros Hu Hr. unfold find_start_code.
  assert (Hnone : forall j, (j < length u)%nat -> start_code_at (pre ++ u ++ rest) (length pre + j) = None).
  { intros j Hj. rewrite start_code_at_app by (rewrite length_app; lia).
    rewrite drop_app_le by lia. pose proof (unit_code_free u rest j Hu Hj) as Hc.
    unfold has_code in Hc. apply orb_false_iff in Hc as [-> ->]. done. }
  rewrite !length_app. destruct Hr as [->|(long & rest' & ->)].
  - apply find_map_range_None. intros j Hj. rewrite Hnone; [done|]. cbn in Hj. lia.
  - assert (start_code_at (pre ++ u ++ start_code long ++ rest') (length pre + length u)
      = Some (length pre + length u + length (start_code long), length (start_code long))%nat) as Hc.
    { rewrite app_assoc, <- length_app. apply start_code_here. }
    destruct (start_code long ++ rest') eqn:E; [by destruct long|].
    rewrite Hc. apply (find_map_range_Some _ (length u)).
    + cbn [length]. lia.
    + intros j Hj. by rewrite Hnone.
    + by rewrite Hc.
Qed.

Lemma annex_b_loop_units fuel pre u rest acc :
  nal_unit_ok u -> Forall (fun '(_, v) => nal_unit_ok v) rest -> (length rest < fuel)%nat ->
  annex_b_loop fuel (pre ++ u ++ annex_b rest) (length pre) acc = Ok (acc ++ u :: map snd rest).
Proof.
  revert pre u rest acc. induction fuel as [|fuel IH]; intros pre u rest acc Hu Hrest Hf; [lia|].
  assert (Hne : (length u =? 0)%nat = false).
  { destruct Hu as [Hu _]. by destruct u. }
  cbn [annex_b_loop]. destruct rest as [|[long v] rest].
  - rewrite find_start_code_unit by (done || by left). cbn [annex_b flat_map].
    rewrite app_nil_r, length_app. replace (length pre + length u - length pre)%nat with (length u) by lia.
    pose proof (slice_app_mid (length pre) (length u) pre u [] eq_refl eq_refl) as Hs.
    rewrite app_nil_r in Hs. rewrite Hs, Hne.
    destruct (Nat.ltb_spec (length pre + length u) (length pre)); [lia|]. done.
  - apply Forall_cons in Hrest as [Hv Hrest].
    assert (annex_b ((long, v) :: rest) = start_code long ++ v ++ annex_b rest) as ->
      by (symmetry; apply app_assoc).
    rewrite find_start_code_unit; [|done|right; do 2 eexists; reflexivity].
    assert (Hc : start_code_at (pre ++ u ++ start_code long ++ v ++ annex_b rest) (length pre + length u)
      = Some (length pre + length u + length (start_code long), length (start_code long))%nat).
    { rewrite app_assoc, <- length_app. apply start_code_here. }
    rewrite Hc. destruct (start_code long ++ v ++ annex_b rest) as [|x tl] eqn:E; [by destruct long|].
    rewrite <- E in *. clear E x tl. cbv beta iota zeta.
    replace (length pre + length u - length pre)%nat with (length u) by lia.
    rewrite slice_app_mid, Hne by done.
    destruct (Nat.ltb_spec (length pre + length u) (length pre)); [lia|]. cbn [orb].
    assert (Hvl : (0 < length v)%nat) by (destruct Hv as [Hv _]; destruct v; [done|cbn; lia]).
    match goal with |- (if (?a <=? ?b)%nat then _ else _) = _ => destruct (Nat.leb_spec a b) as [H1|_] end.
    { rewrite !length_app in H1. lia. }
    rewrite (app_assoc u), (app_assoc pre).
    replace (length pre + length u + length (start_code long))%nat
      with (length (pre ++ u ++ start_code long)) by (rewrite !length_app; lia).
    rewrite IH; [|done..|cbn in Hf; lia]. by rewrite <- app_assoc.
Qed.

Lemma annex_b_units_annex_b units :
  units <> [] -> Forall (fun '(_, u) => nal_unit_ok u) units ->
  annex_b_units (annex_b units) = Ok (map snd units).
Proof.
  intros Hne Hok. destruct units as [|[long u] rest]; [done|].
  apply Forall_cons in Hok as [Hu Hrest]. unfold annex_b_units.
  assert (annex_b ((long, u) :: rest) = start_code long ++ u ++ annex_b rest) as ->
    by (symmetry; apply app_assoc).
  pose proof (start_code_here [] long (u ++ annex_b rest)) as Hc.
  cbn [length Nat.add app] in Hc. rewrite Hc. rewrite annex_b_loop_units; [done|done|done|].
  assert (length rest <= length (annex_b rest))%nat.
  { clear. unfold annex_b. induction rest as [|[lg v] rest IH]; cbn [flat_map length]; [lia|].
    rewrite !length_app. destruct lg; cbn [start_code length]; lia. }
  rewrite !length_app. lia.
Qed.

(** The parser loses nothing: a stream it accepts is the concatenation of its
    units, each behind a start code. *)
Lemma find_start_code_inv bs from position len :
  find_start_code bs from = Some (position, len) ->
  (from <= position)%nat /\ exists long, len = length (start_code long)
  /\ (position + len <= length bs)%nat /\ slice position len bs = start_code long.
Proof.
  intros H. apply find_map_range_inv in H as (k & Hk & H).
  destruct (start_code_at bs (from + k)) as [[e l]|] eqn:E; [|done]. injection H as <- <-.
  split; [lia|]. unfold start_code_at in E. case_match; [|done].
  destruct (starts_with [0; 0; 0; 1] (drop (from + k) bs)) eqn:E4.
  - injection E as _ <-. exists true. apply prefix_starts_with in E4 as [l' Hl].
    splits; [done| |unfold slice; by rewrite Hl].
    apply (f_equal length) in Hl. rewrite length_drop, length_app in Hl. cbn in *. lia.
  - destruct (starts_with [0; 0; 1] (drop (from + k) bs)) eqn:E3; [|done].
    injection E as _ <-. exists false. apply prefix_starts_with in E3 as [l' Hl].
    splits; [done| |unfold slice; by rewrite Hl].
    apply (f_equal length) in Hl. rewrite length_drop, length_app in Hl. cbn in *. lia.
Qed.

Lemma annex_b_loop_inv fuel bs unit_start acc us :
  annex_b_loop fuel bs unit_start acc = Ok us ->
  exists u rest, us = acc ++ u :: map snd rest /\ drop unit_start bs = u ++ annex_b rest
  /\ u <> [] /\ Forall (fun '(_, v) => v <> []) rest.
Proof.
  revert unit_start acc. induction fuel as [|fuel IH]; intros unit_start acc; [done|].
  cbn [annex_b_loop]. destruct (find_start_code bs unit_start) as [[position len]|] eqn:E.
  - apply find_start_code_inv in E as (Hp & long & -> & Hl & Hs).
    destruct (Nat.ltb_spec position unit_start); [lia|]. cbn [orb].
    destruct (Nat.eqb_spec (length (slice unit_start (position - unit_start) bs)) 0) as [|Hne]; [done|].
    case_match; [done|]. intros H'. apply IH in H' as (u & rest & -> & Hd & Hu & Hrest).
    exists (slice unit_start (position - unit_start) bs), ((long, u) :: rest). splits.
    + by rewrite <- app_assoc.
    + cbn [annex_b flat_map]. fold (annex_b rest). rewrite <- app_assoc, <- Hd.
      rewrite <- Hs at 1. rewrite <- (drop_slice position), (drop_slice unit_start (position - unit_start) bs) at 1.
      do 2 f_equal. lia.
    + intros Hn. by rewrite Hn in Hne.
    + by constructor.
  - destruct (Nat.ltb_spec (length bs) unit_start); [done|]. cbn [orb].
    destruct (Nat.eqb_spec (length (slice unit_start (length bs - unit_start) bs)) 0) as [|Hne]; [done|].
    intros [= <-]. eexists _, []. splits; [done| | |constructor].
    + cbn [annex_b flat_map]. rewrite app_nil_r. unfold slice. rewrite firstn_all2; [done|].
      rewrite length_drop. lia.
    + intros Hn. by rewrite Hn in Hne.
Qed.

Lemma annex_b_units_lossless bs us :
  annex_b_units bs = Ok us ->
  exists units, us = map snd units /\ bs = annex_b units /\ units <> []
  /\ Forall (fun '(_, u) => u <> []) units.
Proof.
  unfold annex_b_units. destruct (start_code_at bs 0) as [[e l]|] eqn:E; [|done].
  assert (Hc : exists long, bs = start_code long ++ drop e bs).
  { unfold start_code_at in E. cbn [Nat.leb] in E. rewrite drop_0 in E.
    destruct (starts_with [0; 0; 0; 1] bs) eqn:E4.
    - injection E as <- _. exists true. apply prefix_starts_with in E4 as [l' ->]. done.
    - destruct (starts_with [0; 0; 1] bs) eqn:E3; [|done].
      injection E as <- _. exists false. apply prefix_starts_with in E3 as [l' ->]. done. }
  intros H. destruct Hc as [long Hc]. apply annex_b_loop_inv in H as (u & rest & -> & Hd & Hu & Hrest).
  exists ((long, u) :: rest). splits; [done| |done|by constructor].
  rewrite Hc, Hd. apply app_assoc.
Qed.

(** Annex B round trip.  A stream of NAL units behind start codes of either
    length parses back to exactly those units; and whatever stream the parser
    accepts is the concatenation of the non-empty units it returns. *)
Theorem annex_b_roundtrip units bs us
    (Hne : units <> []) (Hok : Forall (fun '(_, u) => nal_unit_ok u) units)
    (Hparse : annex_b_units bs = Ok us) :
  annex_b_units (annex_b units) = Ok (map snd units)
  /\ exists units', us = map snd units' /\ bs = annex_b units'
     /\ Forall (fun '(_, u) => u <> []) units'.
Proof.
  split; [by apply annex_b_units_annex_b|].
  apply annex_b_units_lossless in Hparse as (units' & H1 & H2 & _ & H3). by exists units'.
Qed.

(** ** Access units *)
Definition is_idr (u : bytes) : bool :=
  match nal_type u with Ok t => t =? H264_NAL_TYPE_IDR | _ => false end.

Lemma is_idr_iff u : is_idr u = true <-> nal_type u = Ok H264_NAL_TYPE_IDR.
Proof.
  unfold is_idr. destruct (nal_type u) as [t|e|]; [|done..]. rewrite Z.eqb_eq. naive_solver.
Qed.

Lemma access_steps units payload key vcl payload' key' vcl' :
  for_each access_step units (payload, key, vcl) = Ok (payload', key', vcl') ->
  payload' = payload ++ frame_units units
  /\ key' = key || existsb is_idr units
  /\ Forall (fun u => zlen u <= U32_MAX) units
  /\ Forall (fun u => exists t, nal_type u = Ok t) units
  /\ (vcl' = vcl || existsb (fun u => match nal_type u with
                                      | Ok t => (1 <=? t) && (t <=? 5) | _ => false end) units).
Proof.
  revert payload key vcl. induction units as [|u units IH]; intros payload key vcl; cbn [for_each].
  { intros [= <- <- <-]. cbn. rewrite app_nil_r, !orb_false_r. splits; [done..|constructor|constructor|done]. }
  intros H. apply bind_Ok in H as ([[p1 k1] v1] & Hs & H). unfold access_step in Hs.
  apply bind_Ok in Hs as (ty & Hty & Hs). apply bind_Ok in Hs as (len & Hlen & [= <- <- <-]).
  apply ok_or_Ok, try_from_Some in Hlen as [Hlen ->].
  apply IH in H as (-> & -> & Hall & Htypes & ->). splits.
  - cbn [frame_units flat_map]. by rewrite <- !app_assoc.
  - cbn [existsb]. unfold is_idr at 2. by rewrite Hty, <- orb_assoc.
  - by constructor.
  - constructor; [by eexists|done].
  - cbn [existsb]. rewrite Hty. destruct ((1 <=? ty) && (ty <=? 5)); cbn [orb]; [|by destruct vcl].
    by rewrite orb_true_r.
Qed.

(** An access unit that is accepted becomes a well-formed packet that the
    stream validator accepts: exactly the non-empty units of the byte stream,
    length-prefixed in order; it is a keyframe exactly when one of them is an
    IDR slice, and one of them is a coded slice. *)
Theorem access_unit_packet ts dur bs p
    (Hb : is_bytes bs) (Ht : in_range U64_MAX ts) (Hd : in_range U64_MAX dur)
    (Hok : h264_annex_b_access_unit ts dur bs = Ok p) :
  packet_ok p /\ timestamp_ns p = ts /\ duration_ns p = dur
  /\ validate_h264_packet (packet_bytes p) = Ok tt
  /\ exists units, bs = annex_b units /\ packet_bytes p = frame_units (map snd units)
     /\ (keyframe p = true <-> exists u, In u (map snd units) /\ nal_type u = Ok H264_NAL_TYPE_IDR)
     /\ exists u t, In u (map snd units) /\ nal_type u = Ok t /\ 1 <= t <= 5.
Proof.
  unfold h264_annex_b_access_unit in Hok. apply bind_Ok in Hok as (us & Hus & H).
  apply bind_Ok in H as ([[payload key] vcl] & Hsteps & H).
  destruct vcl; [|done]. cbn [negb] in H. apply map_err_Ok in H.
  apply packet_new_Ok in H as [Hp ->]; [|apply Ht|apply Hd].
  apply annex_b_units_lossless in Hus as (units & -> & Hbs & Hne & Hnonempty).
  apply access_steps in Hsteps as (Hpay & Hkey & Hlens & _ & Hvcl). cbn [app orb] in *.
  cbn [timestamp_ns duration_ns packet_bytes keyframe].
  assert (Hunits : Forall unit_ok (map snd units)).
  { rewrite Forall_forall in Hlens. rewrite Forall_forall in Hnonempty. apply Forall_forall. intros u Hin.
    split; [|by apply Hlens]. apply list_elem_of_fmap in Hin as ([lg v] & -> & Hin).
    apply Hnonempty in Hin. cbn. destruct v; [done|]. rewrite zlen_cons. pose proof (zlen_nonneg v). lia. }
  assert (Hbytes : is_bytes payload).
  { rewrite Hpay, Hbs in *. clear -Hb. unfold is_bytes in *. induction units as [|[lg u] units IH]; [constructor|].
    cbn [annex_b flat_map map snd frame_units] in *. apply Forall_app in Hb as [[_ Hu]%Forall_app Hb].
    apply Forall_app. split; [|by apply IH]. apply Forall_app. split; [apply be_bytes_is_bytes|done]. }
  splits; [done..| |].
  - unfold validate_h264_packet. apply bind_Ok. exists (Z.min U8_MAX (0 + zlen (map snd units))). split.
    + apply h264_loop_units; [done..|unfold U8_MAX; lia|]. by exists (map snd units).
    + destruct units; [done|]. cbn [map]. rewrite zlen_cons.
      pose proof (zlen_nonneg (map snd units)). case_if_as E; [|done].
      apply Z.eqb_eq in E. unfold U8_MAX in E. lia.
  - exists units. splits; [done..| |].
    + rewrite Hkey, existsb_exists. split.
      * intros (u & Hu & E). apply is_idr_iff in E. by exists u.
      * intros (u & Hu & E). exists u. split; [done|]. by apply is_idr_iff.
    + symmetry in Hvcl. apply existsb_exists in Hvcl as (u & Hu & E).
      destruct (nal_type u) as [t|e|] eqn:Et; [|done..]. exists u, t. splits; done || lia.
Qed.

(** ** Codec private data *)
Lemma parameter_steps units s sps pps :
  for_each parameter_step units s = Ok (sps, pps) ->
  (forall u, sps = Some u -> fst s = Some u \/ In u units)
  /\ (forall u, pps = Some u -> snd s = Some u \/ In u units).
Proof.
  revert s. induction units as [|u units IH]; intros [s1 s2]; cbn [for_each].
  { intros [= <- <-]. cbn. naive_solver. }
  intros H. apply bind_Ok in H as ([t1 t2] & Hs & H). apply IH in H as [H1 H2]. cbn [fst snd In] in *.
  unfold parameter_step in Hs. apply bind_Ok in Hs as (ty & Hty & Hs).
  repeat case_match; simplify_eq; naive_solver.
Qed.

Lemma be_val_2 x : in_range U16_MAX x -> be_val (be_bytes 2 x) = x.
Proof. intros H. apply be_val_be_bytes. unfold in_range, U16_MAX in H. cbn. lia. Qed.

Lemma skip_set_at pre s rest :
  0 < zlen s <= U16_MAX ->
  skip_avc_parameter_set (pre ++ (be_bytes 2 (zlen s) ++ s) ++ rest) (length pre)
  = Ok (length (pre ++ be_bytes 2 (zlen s) ++ s)).
Proof.
  intros Hs. unfold skip_avc_parameter_set.
  assert (H2 : length (be_bytes 2 (zlen s)) = 2%nat) by apply length_be_bytes.
  assert (get_slice (length pre) 2 (pre ++ (be_bytes 2 (zlen s) ++ s) ++ rest) = Some (be_bytes 2 (zlen s))) as ->.
  { apply get_slice_Some. rewrite <- app_assoc. split; [rewrite !length_app; lia|].
    by rewrite slice_app_mid. }
  cbn [ok_or]. rewrite bind_ret, be_val_2 by (unfold in_range; lia). unfold zlen. rewrite Nat2Z.id.
  destruct (Nat.eqb_spec (length s) 0); [unfold zlen in Hs; lia|].
  fold (zlen s). rewrite !length_app, H2.
  match goal with |- (if (?a <=? ?b)%nat then _ else _) = _ => destruct (Nat.leb_spec a b) end; [|lia].
  f_equal. lia.
Qed.

(** For the parameter sets found in a stream, building the decoder
    configuration never panics and the record passes the check that a video
    stream makes of its codec data. *)
Theorem avc_configuration_valid bs p (Hok : from_annex_b bs = Ok p) :
  exists data, avc_decoder_configuration p = Ok data
  /\ validate_avc_decoder_configuration data = Ok tt.
Proof.
  unfold from_annex_b in Hok. apply bind_Ok in Hok as (us & Hus & H).
  apply bind_Ok in H as ([[sps|] [pps|]] & Hsets & H); try done.
  destruct (Z.ltb_spec (zlen sps) 4) as [|H4]; [done|].
  destruct (Z.ltb_spec MAX_PARAMETER_SET_BYTES (zlen sps)) as [|Hs]; [done|].
  destruct (Z.ltb_spec MAX_PARAMETER_SET_BYTES (zlen pps)) as [|Hp]; [done|].
  injection H as <-. unfold MAX_PARAMETER_SET_BYTES in *.
  assert (Hp0 : 0 < zlen pps).
  { apply parameter_steps in Hsets as [_ Hpps]. destruct (Hpps pps eq_refl) as [|Hin]; [done|].
    apply annex_b_units_lossless in Hus as (units & -> & _ & _ & Hne).
    apply in_map_iff in Hin as ([lg u] & E & Hin). cbn in E. subst u.
    rewrite Forall_forall in Hne. apply list_elem_of_In, Hne in Hin.
    destruct pps; [done|]. rewrite zlen_cons. pose proof (zlen_nonneg pps). lia. }
  unfold avc_decoder_configuration. cbn [sequence picture].
  rewrite (proj2 (try_from_Some _ _ _) (conj Hs eq_refl)), (proj2 (try_from_Some _ _ _) (conj Hp eq_refl)).
  cbn [expect]. rewrite !bind_ret.
  destruct sps as [|s0 [|s1 [|s2 [|s3 sps]]]]; try (unfold zlen in H4; cbn in H4; lia).
  cbn [index expect lookup list_lookup]. rewrite !bind_ret.
  set (sps' := s0 :: s1 :: s2 :: s3 :: sps) in *. eexists. split; [reflexivity|].
  set (pre := [1; s1; s2; s3; 0xff; 0xe1]). unfold validate_avc_decoder_configuration.
  match goal with |- (if (length ?d <? 7)%nat then _ else _) = _ => set (data := d) end.
  assert (Hlen : length data = (9 + length sps' + (2 + length pps))%nat).
  { unfold data, sps', pre. rewrite !length_app, !length_be_bytes. cbn [length]. lia. }
  destruct (Nat.ltb_spec (length data) 7); [lia|].
  change (index data 0) with (@Ok ReplayEncoderError _ 1).
  change (index data 4) with (@Ok ReplayEncoderError _ 0xff).
  change (index data 5) with (@Ok ReplayEncoderError _ 0xe1). rewrite !bind_ret.
  change (Z.land 225 31) with 1. change (Z.land 255 3 =? 3) with true.
  change (Z.to_nat 1) with 1%nat. cbn [Z.eqb Pos.eqb negb Nat.eqb].
  assert (Hdata : data = pre ++ (be_bytes 2 (zlen sps') ++ sps') ++ [1] ++ (be_bytes 2 (zlen pps) ++ pps) ++ []).
  { unfold data, pre. by rewrite app_nil_r, <- !app_assoc. }
  cbn [skip_sets]. change 6%nat with (length pre).
  assert (skip_avc_parameter_set data (length pre) = Ok (length (pre ++ be_bytes 2 (zlen sps') ++ sps'))) as ->.
  { rewrite Hdata. apply skip_set_at. lia. }
  rewrite !bind_ret.
  set (pre2 := pre ++ be_bytes 2 (zlen sps') ++ sps').
  assert (Hdata2 : data = pre2 ++ [1] ++ (be_bytes 2 (zlen pps) ++ pps) ++ []).
  { rewrite Hdata. unfold pre2. by rewrite <- !app_assoc. }
  assert (data !! length pre2 = Some 1) as ->.
  { rewrite Hdata2, lookup_app_r, Nat.sub_diag by lia. done. }
  cbn [ok_or]. rewrite bind_ret. change (Z.to_nat 1) with 1%nat. cbn [Z.eqb skip_sets].
  replace (length pre2 + 1)%nat with (length (pre2 ++ [1])) by (rewrite length_app; done).
  assert (skip_avc_parameter_set data (length (pre2 ++ [1]))
          = Ok (length ((pre2 ++ [1]) ++ be_bytes 2 (zlen pps) ++ pps))) as ->.
  { rewrite Hdata2, app_assoc. apply skip_set_at. lia. }
  rewrite !bind_ret.
  match goal with |- (if (?a <? ?b)%nat then _ else _) = _ => destruct (Nat.ltb_spec a b) as [Hlt|] end; [|done].
  rewrite Hdata2, !length_app in Hlt. cbn [length] in Hlt. lia.
Qed.

Lemma demo_units_ok : Forall (fun '(_, u) => nal_unit_ok u) [(true, [103; 100; 0; 40]); (false, [104; 238])].
Proof.
  repeat constructor; try done.
  all: intros i; do 5 (destruct i as [|i]; [done|]); unfold slice; rewrite drop_ge by (cbn; lia); done.
Qed.

Lemma annex_b_roundtrip_witness :
  annex_b_units (annex_b [(true, [103; 100; 0; 40]); (false, [104; 238])])
  = Ok [[103; 100; 0; 40]; [104; 238]].
Proof.
  refine (proj1 (annex_b_roundtrip [(true, [103; 100; 0; 40]); (false, [104; 238])]
    [0; 0; 1; 9] [[9]] _ demo_units_ok eq_refl)).
  discriminate.
Defined.

Lemma access_unit_packet_witness :
  exists p, h264_annex_b_access_unit 5 7 [0; 0; 0; 1; 103; 1; 0; 0; 1; 101; 9] = Ok p
            /\ validate_h264_packet (packet_bytes p) = Ok tt.
Proof.
  eexists. split; [reflexivity|].
  refine (proj1 (proj2 (proj2 (proj2 (access_unit_packet 5 7
    [0; 0; 0; 1; 103; 1; 0; 0; 1; 101; 9] _ _ _ _ eq_refl))))).
  - by apply is_bytes_check.
  - unfold in_range, U64_MAX. lia.
  - unfold in_range, U64_MAX. lia.
Defined.

Lemma avc_configuration_valid_witness :
  exists p data, from_annex_b [0; 0; 1; 103; 100; 0; 40; 0; 0; 1; 104; 238] = Ok p
    /\ avc_decoder_configuration p = Ok data /\ validate_avc_decoder_configuration data = Ok tt.
Proof.
  destruct (avc_configuration_valid [0; 0; 1; 103; 100; 0; 40; 0; 0; 1; 104; 238] _ eq_refl)
    as (data & H1 & H2).
  eexists _, data. split; [reflexivity|]. split; [exact H1|exact H2].
Defined.
